(* ===== verification/_CoqProject ===== *)
-Q . S2P
Prelude.v
Util.v
Glob.v
Intset.v
Sds.v
SdsText.v
Adlist.v
Dict.v
DictScan.v
Ziplist.v
ZiplistOps.v
ZiplistApi.v
Skiplist.v
SkiplistOps.v
SkiplistEdit.v
SkiplistApi.v
SkiplistQuery.v
Networking.v
NetworkingOps.v
Lzf.v
LzfOps.v
Crc.v
Rio.v
Object.v
Rdb.v
RdbOps.v
Bitops.v
BitopsOps.v
StateM.v
Db.v
StringCmd.v
BitCmd.v
Command.v
DbOps.v
StringCmdOps.v
BitCmdOps.v
CommandOps.v
StringCmdApi.v
Cluster.v
ClusterOps.v
ClusterCalm.v
ClusterJoin.v
ClusterSafe.v
ClusterVote.v
Query.v
QueryOps.v
ClusterCmd.v
ClusterCmdOps.v
Reply.v
ReplyOps.v
ReplyClose.v
ReplyApi.v
ReplySpec.v
ReplyHistory.v
