(* ===== verification/Prelude.v ===== *)
(** * A verified model of the Redis server in this repository

    The C program of the repository is the Redis 4.0 server under
    src/redis-stable/src. This library models the data structures, the codecs and the
    request parser the server is built on, and above them the keyspace with the commands
    on strings, keys and bits, each with the theorems that make it correct.

    ** How the program is put together

    Bytes from a socket are cut into commands by the request parser (networking.c). A
    command is looked up in the table of server.c and its handler (t_string.c, bitops.c,
    expire.c) works on the keyspace (db.c), a dictionary from keys to objects with another
    one of deadlines. Replies are queued in the output buffers of the client and sent
    between events (networking.c). Objects are counted by reference (object.c): strings are dynamic strings (sds.c) or machine
    integers; small aggregates are flat byte blobs (ziplist.c, intset.c); large ones are
    hash tables (dict.c), skiplists (t_zset.c) and linked lists (adlist.c). Number
    conversion and glob matching (util.c) are shared by all. Values leave the process
    through streams (rio.c) in the RDB format (rdb.c), compressed with LZF (lzf_c.c,
    lzf_d.c) and guarded by a CRC (crc64.c). Several servers form a cluster: each owns some
    of the hash slots of the keys, and a bus between them (cluster.c) detects failures,
    elects slaves and spreads who owns what.

    ** Files

    - [Prelude] (this file): the error monad [res] whose faults are accesses out of
      bounds, failed assertions, divisions by zero, undefined shifts, exhausted fuel and
      handlers that are not modelled; machine integers as
      [Z] with the wrap-around written out ([uwrap], [swrap]); lengths, slices and byte
      buffers with checked accesses ([rd], [wr], [peek], [poke]), so that a theorem that an
      operation returns [Ok] is a theorem of memory safety; little endian words; characters.
    - [Util]: digits10, ll2string, string2ll, string2l of util.c. [Glob]: stringmatchlen.
    - [Intset]: every function of intset.c on the bytes of the blob.
    - [Sds]: headers, allocation and editing of sds.c/sds.h on the bytes of the
      allocation. [SdsText]: splitting, joining, quoting, sdssplitargs, sdscatfmt.
    - [Adlist]: adlist.c on a heap of nodes with explicit pointers, frees and iterators.
    - [Dict]: dict.c with both tables, incremental rehashing, resizing, iterators' safe
      counts and random keys. [DictScan]: dictScan with its reverse binary cursor, and the
      iterators.
    - [Ziplist]: the code of ziplist.c on bytes; [ZiplistOps]: layout, cascade updates,
      insertion, deletion, merge; [ZiplistApi]: histories, positions, search.
    - [Skiplist]: the zsl* functions of t_zset.c on a heap of nodes with forward pointers
      and spans; [SkiplistOps], [SkiplistEdit]: invariant and updates; [SkiplistApi]:
      histories; [SkiplistQuery]: ranks, score and lexicographic ranges.
    - [Networking]: the query side of networking.c (readQueryFromClient,
      processInputBuffer, processInlineBuffer, processMultibulkBuffer) as explicit state
      passing over the client record; [NetworkingOps]: its theorems.
    - [Lzf]: lzf_c.c and lzf_d.c on buffers; [LzfOps]: the meaning of a compressed text as
      a relation, the round trip, safety on hostile input.
    - [Crc]: crc64.c, crc16.c with their tables, and keyHashSlot of cluster.c.
    - [Rio]: the generic stream of rio.h/rio.c over a class of devices [RioIO] with the
      promise [RioDevice]; the in-memory device is an instance proved to keep it.
    - [Object]: string objects of object.c in their three encodings.
    - [Rdb]: the string part of rdb.c and the DUMP payload of cluster.c, written against
      [RioIO]; [RdbOps]: round trips proved against [RioDevice], corruption of payloads.
    - [Bitops]: the functions of bitops.c on memory; [BitopsOps]: what they compute on the
      list of bits of a string.
    - [StateM]: the state and error monad of the server and of the bus, and its program
      logic.
    - [Db]: the state of the server (objects with reference counts, the dictionaries of a
      database, the arguments and the output of a client) and the operations of db.c with the replies of networking.c; [StringCmd],
      [BitCmd]: the handlers of t_string.c, bitops.c and of the key commands of db.c and
      expire.c; [Command]: dispatch and the life of one request. The command table is whole;
      a row of another component has no handler here, and a request that would call it is the
      fault [NotModelled], which the hypothesis on requests excludes.
    - [DbOps]: the invariant of ownership and the
      simulation of an abstract store; [StringCmdOps], [BitCmdOps]: a specification and a
      refinement lemma per command; [CommandOps]: the table of specifications;
      [StringCmdApi]: histories of requests and the theorems about the whole server.
    - [Cluster]: one node's view of the cluster (nodes and their addresses, handshakes, slots,
      epochs, elections, the blacklist) and its handlers, up to clusterProcessPacket and
      clusterBeforeSleep; [ClusterOps]: the invariant of its tables, slots, roles and slot
      claims; [ClusterCalm]: handlers that leave what the invariant speaks of alone;
      [ClusterJoin]: nodes that are added, renamed and deleted, addresses and gossip;
      [ClusterSafe]: every handler returns and keeps the invariant; [ClusterVote]: nodes that
      exchange packets as a step relation, its invariant, and elections.
    - [Query]: the key functions of db.c and getNodeByQuery of cluster.c; [QueryOps]: its
      theorems. [ClusterCmd]: the CLUSTER command; [ClusterCmdOps]: it keeps the
      invariant.
    - [Reply]: the output side of networking.c (the addReply functions, deferred lengths,
      output limits, writeToClient, pending writes, closing clients) and the cached master
      of replication.c, over a memory of clients and a class [Sockets] for the system;
      [ReplyOps]: what a client holds, and how queuing changes it; [ReplyClose]: closing;
      [ReplyApi]: the invariant of all clients and lists, and each event of the loop
      against the promise [SocketLaws]; [ReplySpec]: the reply protocol and a reader of it;
      [ReplyHistory]: finite and infinite histories, and sockets that keep the promise.

    Definitions keep the C names. A pointer into a blob is an offset, an allocation is the
    list of its bytes, an uninitialised byte is a value of an arbitrary function [junk];
    linked structures live in finite maps from addresses to nodes, and using a freed node
    is a fault. The host is 64 bit and little endian.

    ** What the theorems show

    - Refinement: any history of operations on a dict, skiplist, ziplist, sds, linked list
      or intset runs without fault and answers like the abstract map, sorted list, list,
      byte string, list or set, with the representation invariant kept.
    - The server: any history of requests with the modelled commands is answered like by a
      store of byte strings with deadlines, without fault, every object being referenced
      exactly once afterwards; background expiry is invisible.
    - Bits: counting, searching, fields of any width at any offset, overflow tests and
      BITOP agree with their definitions on lists of bits or on unbounded integers.
    - The request parser yields the same commands however a pipeline is cut into reads.
    - Codecs: ll2string/string2ll, quoting, inline requests, LZF, RDB strings and
      DUMP/RESTORE payloads are read back as they were written; decompression and argument
      splitting are safe on arbitrary bytes; crc64 is division by its polynomial and
      detects every change within eight consecutive bytes of a payload.
    - Queries: ranks, ranges, positions, scans (dictScan emits every key that stays, across
      resizes), glob matching against a declarative semantics, hash tags.
    - The cluster bus: while nodes join, are renamed, removed and change address, a node
      handles any packets of other nodes that meet the conditions of [wf_packet] without
      dangling pointer, freed link or failed assertion and keeps its tables consistent; slots go to the claim with the
      greater epoch; a winner of an election takes exactly its master's slots; at most one
      slave wins an epoch as long as votes arrive while their election is under way; the CLUSTER
      command keeps the tables consistent.
    - Routing: positions of keys are in bounds, the decision is a function of the keys, and
      a slot that is not being moved has one server among nodes that agree on its owner, to
      which the others redirect.
    - Output: in every history of replies, partial writes, write errors and closed clients
      a connection receives its replies in order and unchanged, a reader of the protocol
      gets back what was replied, no output is left without a handler when the loop sleeps,
      and in fair runs all of it is delivered. So the flat output of a client in [Db] is
      what arrives.
    - Errors: some theorems state exactly where the code departs from its comments or from
      what it means to do; they are the recorded findings.

    ** Fuel and bounds

    Loops that are not structural take fuel computed from their input (the length of the
    buffer, the number of entries, ten rounds for the digits of a 64 bit number); the
    theorems are of the form "the call returns [Ok]", so the fuel is proved to suffice.
    Sizes are bounded where the code's own width would overflow (for instance 2^32 bytes
    for a ziplist, 2^31 for a string in an RDB, 2^61 for an sds); the bounds are hypotheses
    of the theorems, each with a witness. The reply bytes of a client stay below the limit
    at which the code itself stops the server. The histories of [ReplyHistory] cache a
    master that is lost but do not take it back; what goes wrong then is a theorem of its
    own.

    ** Not modelled, and why

    I/O and operating system services (ae, anet, syncio, bio, zmalloc), persistence files,
    replication, sentinel, modules, scripting, configuration, diagnostics and
    command line tools are glue around system calls, other processes or third-party
    libraries. Floating point formatting and parsing is left out; scores of sorted sets are
    modelled by their order. The server of [Db] is a master with one database, outside
    transactions and scripts, with synchronous freeing. Of the cluster bus, clusterCron (so
    that links are opened by nobody and handshakes do not time out), the configuration file,
    the formatting of tables and MIGRATE are left out.
    Of clients, creation, acceptance, pausing and the CLIENT command are left out.
    The commands of hashes, sets, lists and sorted sets, quicklist and RDB of aggregate
    values are not modelled; the encodings below most of them are. *)
From Stdlib Require Export ZArith Lia.
From stdpp Require Export base tactics option list numbers.
From Stdlib Require Ascii String.
Export (notations) Ascii String.

#[export] Set Default Goal Selector "!".
#[global] Open Scope Z_scope.

(** ** The error monad *)

(** What a run of the C code may run into instead of a result: an access outside
    an allocation, a failed [assert], a division by zero, a shift by the width of the
    word or more, or a loop that exhausts its fuel. *)
Inductive fault : Set := OutOfBounds | AssertFailed | DivisionByZero | UndefinedShift | OutOfFuel | NotModelled.

Inductive res (A : Type) : Type :=
| Ok (a : A)
| Fault (f : fault).
Arguments Ok {A} _.
Arguments Fault {A} _.

#[global] Instance res_ret : MRet res := fun _ a => Ok a.
#[global] Instance res_bind : MBind res := fun _ _ k m =>
  match m with Ok a => k a | Fault f => Fault f end.
#[global] Instance res_fmap : FMap res := fun _ _ g m =>
  match m with Ok a => Ok (g a) | Fault f => Fault f end.

Lemma res_bind_Ok {A B} (m : res A) (k : A -> res B) a :
  m = Ok a -> (m ≫= k) = k a.
Proof. by intros ->. Qed.

Lemma res_bind_inv {A B} (m : res A) (k : A -> res B) b :
  (m ≫= k) = Ok b -> exists a, m = Ok a /\ k a = Ok b.
Proof. destruct m as [a|f]; simpl; [eauto|discriminate]. Qed.

Lemma res_bind_ret {A} (m : res A) : (m ≫= Ok) = m.
Proof. by destruct m. Qed.

Lemma Ok_inj {A} (a b : A) : Ok a = Ok b -> a = b.
Proof. by intros [= ->]. Qed.

Definition assert_ (b : bool) : res unit :=
  if b then Ok tt else Fault AssertFailed.

(** ** Machine integers *)

(** Unsigned and two's complement wrap-around at width [w]. *)
Definition uwrap (w z : Z) : Z := z mod 2 ^ w.
Definition swrap (w z : Z) : Z := (z + 2 ^ (w - 1)) mod 2 ^ w - 2 ^ (w - 1).

Abbreviation u8 := (uwrap 8).
Abbreviation u16 := (uwrap 16).
Abbreviation u32 := (uwrap 32).
Abbreviation u64 := (uwrap 64).
Abbreviation i8 := (swrap 8).
Abbreviation i16 := (swrap 16).
Abbreviation i32 := (swrap 32).
Abbreviation i64 := (swrap 64).

Definition in_u (w z : Z) : Prop := 0 <= z < 2 ^ w.
Definition in_s (w z : Z) : Prop := - 2 ^ (w - 1) <= z < 2 ^ (w - 1).

#[global] Instance in_u_dec w z : Decision (in_u w z).
Proof. unfold in_u. apply _. Defined.
#[global] Instance in_s_dec w z : Decision (in_s w z).
Proof. unfold in_s. apply _. Defined.

Lemma uwrap_id w z : in_u w z -> uwrap w z = z.
Proof. apply Z.mod_small. Qed.

Lemma uwrap_range w z : 0 <= w -> in_u w (uwrap w z).
Proof. intros. apply Z.mod_pos_bound. lia. Qed.

Lemma pow2_half w : 0 < w -> 2 ^ w = 2 * 2 ^ (w - 1).
Proof. intros. rewrite <- Z.pow_succ_r by lia. f_equal; lia. Qed.

Lemma swrap_id w z : 0 < w -> in_s w z -> swrap w z = z.
Proof.
  unfold swrap, in_s. intros Hw H. pose proof (pow2_half w Hw).
  rewrite Z.mod_small; lia.
Qed.

Lemma swrap_range w z : 0 < w -> in_s w (swrap w z).
Proof.
  unfold swrap, in_s. intros Hw. pose proof (pow2_half w Hw).
  pose proof (Z.mod_pos_bound (z + 2 ^ (w - 1)) (2 ^ w)). lia.
Qed.

Lemma swrap_uwrap w z : 0 < w -> swrap w (uwrap w z) = swrap w z.
Proof.
  intros Hw. unfold swrap, uwrap. rewrite Zplus_mod_idemp_l. done.
Qed.

(** Masks and disjoint bit fields as arithmetic. *)
Lemma land_mask z k : 0 <= k -> Z.land z (2 ^ k - 1) = z mod 2 ^ k.
Proof. intros Hk. rewrite <- Z.land_ones by done. f_equal. rewrite Z.ones_equiv. lia. Qed.

Lemma bits_above x w i : in_u w x -> w <= i -> Z.testbit x i = false.
Proof.
  unfold in_u. intros Hx Hi. destruct (decide (w < 0)) as [|]; [rewrite Z.pow_neg_r in Hx by lia; lia|].
  rewrite <- (Z.mod_small x (2 ^ w)) by lia. apply Z.mod_pow2_bits_high. lia.
Qed.

Lemma lor_mul_add q a n : 0 <= n -> 0 <= a < 2 ^ n -> Z.lor (q * 2 ^ n) a = q * 2 ^ n + a.
Proof.
  intros Hn Ha. rewrite <- Z.lxor_lor, <- Z.add_nocarry_lxor; try done.
  all: apply Z.bits_inj'; intros i Hi; rewrite Z.land_spec, Z.bits_0, <- Z.shiftl_mul_pow2 by lia.
  all: destruct (Z.lt_ge_cases i n); [by rewrite Z.shiftl_spec_low by lia|rewrite (bits_above a n i) by (done || unfold in_u; lia); apply andb_false_r].
Qed.

(** ** Lengths and slices with [Z] indices *)

Definition zlen {A} (l : list A) : Z := Z.of_nat (length l).
Definition ztake {A} (n : Z) (l : list A) : list A := take (Z.to_nat n) l.
Definition zdrop {A} (n : Z) (l : list A) : list A := drop (Z.to_nat n) l.
Definition zrep {A} (n : Z) (x : A) : list A := replicate (Z.to_nat n) x.

Lemma zlen_nil {A} : zlen (@nil A) = 0.
Proof. done. Qed.
Lemma zlen_cons {A} (x : A) l : zlen (x :: l) = zlen l + 1.
Proof. unfold zlen. simpl. lia. Qed.
Lemma zlen_app {A} (l k : list A) : zlen (l ++ k) = zlen l + zlen k.
Proof. unfold zlen. rewrite length_app. lia. Qed.
Lemma zlen_nonneg {A} (l : list A) : 0 <= zlen l.
Proof. unfold zlen. lia. Qed.
Lemma zlen_map {A B} (f : A -> B) l : zlen (map f l) = zlen l.
Proof. unfold zlen. by rewrite length_map. Qed.
Lemma zlen_fmap {A B} (f : A -> B) l : zlen (f <$> l) = zlen l.
Proof. unfold zlen. by rewrite length_fmap. Qed.
Lemma zlen_rev {A} (l : list A) : zlen (rev l) = zlen l.
Proof. unfold zlen. by rewrite length_rev. Qed.
Lemma zlen_reverse {A} (l : list A) : zlen (reverse l) = zlen l.
Proof. unfold zlen. by rewrite length_reverse. Qed.
Lemma zlen_ztake {A} n (l : list A) : zlen (ztake n l) = Z.max 0 (Z.min n (zlen l)).
Proof. unfold zlen, ztake. rewrite length_take. lia. Qed.
Lemma zlen_zdrop {A} n (l : list A) : zlen (zdrop n l) = Z.max 0 (zlen l - Z.max 0 n).
Proof. unfold zlen, zdrop. rewrite length_drop. lia. Qed.
Lemma zlen_zrep {A} n (x : A) : zlen (zrep n x) = Z.max 0 n.
Proof. unfold zlen, zrep. rewrite length_replicate. lia. Qed.
Lemma zlen_insert {A} i (x : A) l : zlen (<[i:=x]> l) = zlen l.
Proof. unfold zlen. by rewrite length_insert. Qed.
Lemma zlen_0_nil {A} (l : list A) : zlen l = 0 -> l = [].
Proof. destruct l; [done|rewrite zlen_cons; pose proof (zlen_nonneg l); lia]. Qed.

Create Rewrite HintDb zlen.
#[export] Hint Rewrite @zlen_nil @zlen_cons @zlen_app @zlen_map @zlen_fmap @zlen_rev
  @zlen_reverse @zlen_ztake @zlen_zdrop @zlen_zrep @zlen_insert : zlen.

(** Linear arithmetic over lengths: normalise every [zlen], add its sign, call [lia]. *)
Ltac zlen_pos :=
  repeat match goal with
  | |- context [zlen ?l] =>
      lazymatch goal with
      | _ : 0 <= zlen l |- _ => fail
      | _ => pose proof (zlen_nonneg l)
      end
  | _ : context [zlen ?l] |- _ =>
      lazymatch goal with
      | _ : 0 <= zlen l |- _ => fail
      | _ => pose proof (zlen_nonneg l)
      end
  end.
Ltac zl := autorewrite with zlen in *; zlen_pos; lia.

Lemma ztake_app {A} n (l k : list A) : n = zlen l -> ztake n (l ++ k) = l.
Proof. intros ->. unfold ztake, zlen. rewrite Nat2Z.id. by rewrite take_app_length. Qed.
Lemma zdrop_app {A} n (l k : list A) : n = zlen l -> zdrop n (l ++ k) = k.
Proof. intros ->. unfold zdrop, zlen. rewrite Nat2Z.id. by rewrite drop_app_length. Qed.
Lemma ztake_all {A} n (l : list A) : zlen l <= n -> ztake n l = l.
Proof. unfold ztake, zlen. intros. apply take_ge. lia. Qed.
Lemma zdrop_all {A} n (l : list A) : zlen l <= n -> zdrop n l = [].
Proof. unfold zdrop, zlen. intros. apply drop_ge. lia. Qed.
Lemma ztake_0 {A} n (l : list A) : n <= 0 -> ztake n l = [].
Proof. unfold ztake. intros. by replace (Z.to_nat n) with 0%nat by lia. Qed.
Lemma zdrop_0 {A} n (l : list A) : n <= 0 -> zdrop n l = l.
Proof. unfold zdrop. intros. by replace (Z.to_nat n) with 0%nat by lia. Qed.
Lemma ztake_zdrop {A} n (l : list A) : ztake n l ++ zdrop n l = l.
Proof. apply take_drop. Qed.

(** Split a list at a [Z] position. *)
Lemma list_split_at {A} n (l : list A) :
  0 <= n <= zlen l -> exists a b, l = a ++ b /\ zlen a = n.
Proof.
  intros H. exists (ztake n l), (zdrop n l). rewrite ztake_zdrop. split; [done|zl].
Qed.

Lemma take_S_app {A} (a : list A) x b : take (S (length a)) (a ++ x :: b) = a ++ [x].
Proof. induction a as [|y a IH]; [done|]. cbn [length app]. cbn. f_equal. apply IH. Qed.
Lemma drop_S_app {A} (a : list A) x b : drop (S (length a)) (a ++ x :: b) = b.
Proof. induction a as [|y a IH]; [done|]. apply IH. Qed.

(** A property of bytes, by trying all of them. *)
Lemma forallb_bytes (p : Z -> bool) : forallb p (map Z.of_nat (seq 0 256)) = true -> forall b, in_u 8 b -> p b = true.
Proof.
  intros H b Hb. unfold in_u in Hb. rewrite forallb_forall in H. apply H. rewrite in_map_iff. exists (Z.to_nat b). rewrite in_seq. lia.
Qed.

(** ** Byte buffers *)

(** A heap allocation is the list of its bytes; every access is checked against
    its bounds, so a theorem that an operation returns [Ok] is memory safety. *)
Definition rd (b : list Z) (off n : Z) : res (list Z) :=
  if (0 <=? off) && (0 <=? n) && (off + n <=? zlen b)
  then Ok (ztake n (zdrop off b)) else Fault OutOfBounds.

Definition wr (b : list Z) (off : Z) (bs : list Z) : res (list Z) :=
  if (0 <=? off) && (off + zlen bs <=? zlen b)
  then Ok (ztake off b ++ bs ++ zdrop (off + zlen bs) b) else Fault OutOfBounds.

Definition memmove (b : list Z) (dst src n : Z) : res (list Z) :=
  x ← rd b src n; wr b dst x.

Definition peek (b : list Z) (i : Z) : res Z :=
  match (if 0 <=? i then b !! Z.to_nat i else None) with
  | Some x => Ok x | None => Fault OutOfBounds end.

Definition poke (b : list Z) (i v : Z) : res (list Z) := wr b i [v].

(** [realloc]: the old bytes up to the new size, then fresh bytes whose contents
    the caller knows nothing about ([junk]). *)
Definition zrealloc (junk : Z -> Z) (b : list Z) (n : Z) : list Z :=
  ztake n b ++ map (fun k => junk (Z.of_nat k)) (seq (length b) (Z.to_nat (n - zlen b))).

Lemma rd_app a x c off n :
  off = zlen a -> n = zlen x -> rd (a ++ x ++ c) off n = Ok x.
Proof.
  intros -> ->. unfold rd. rewrite !zlen_app.
  assert ((0 <=? zlen a) && (0 <=? zlen x) && (zlen a + zlen x <=? zlen a + (zlen x + zlen c))
    = true) as -> by zl.
  rewrite zdrop_app, ztake_app by done. done.
Qed.

Lemma wr_app a old x c off :
  off = zlen a -> zlen old = zlen x -> wr (a ++ old ++ c) off x = Ok (a ++ x ++ c).
Proof.
  intros -> Hl. unfold wr. rewrite !zlen_app.
  assert ((0 <=? zlen a) && (zlen a + zlen x <=? zlen a + (zlen old + zlen c)) = true)
    as -> by zl.
  rewrite ztake_app by done. rewrite (app_assoc a old c), zdrop_app by zl. done.
Qed.

Lemma rd_app0 x c n : n = zlen x -> rd (x ++ c) 0 n = Ok x.
Proof. intros ->. by apply (rd_app [] x c). Qed.

Lemma wr_app0 old x c : zlen old = zlen x -> wr (old ++ c) 0 x = Ok (x ++ c).
Proof. intros H. by apply (wr_app [] old x c). Qed.

Lemma peek_app a v c i : i = zlen a -> peek (a ++ v :: c) i = Ok v.
Proof.
  intros ->. unfold peek. rewrite (proj2 (Z.leb_le 0 _)) by apply zlen_nonneg.
  unfold zlen. rewrite Nat2Z.id, list_lookup_middle; done.
Qed.

Lemma poke_app a old v c i : i = zlen a -> poke (a ++ old :: c) i v = Ok (a ++ v :: c).
Proof. intros ->. by apply (wr_app a [old] [v] c). Qed.

Lemma wr_length b off bs b' : wr b off bs = Ok b' -> zlen b' = zlen b.
Proof. unfold wr. case_match eqn:E; [|done]. intros [= <-]. zl. Qed.

Lemma zlen_zrealloc junk b n : 0 <= n -> zlen (zrealloc junk b n) = n.
Proof.
  intros. unfold zrealloc. rewrite zlen_app, zlen_map.
  unfold zlen at 2. rewrite length_seq. zl.
Qed.

Lemma zrealloc_grow junk b n :
  zlen b <= n -> exists j, zrealloc junk b n = b ++ j /\ zlen j = n - zlen b.
Proof.
  intros. eexists. unfold zrealloc. rewrite ztake_all by done. split; [done|].
  rewrite zlen_map. unfold zlen at 1. rewrite length_seq. lia.
Qed.

Lemma zrealloc_shrink junk b n : 0 <= n <= zlen b -> zrealloc junk b n = ztake n b.
Proof.
  intros. unfold zrealloc. replace (Z.to_nat (n - zlen b)) with 0%nat by lia.
  by rewrite app_nil_r.
Qed.

(** ** Little endian words in memory *)

Fixpoint le_bytes (n : nat) (z : Z) : list Z :=
  match n with
  | O => []
  | S n => z mod 256 :: le_bytes n (z / 256)
  end.

Fixpoint le_val (l : list Z) : Z :=
  match l with
  | [] => 0
  | b :: l => b + 256 * le_val l
  end.

Lemma zlen_le_bytes n z : zlen (le_bytes n z) = Z.of_nat n.
Proof. revert z; induction n; intros; simpl; [done|]. rewrite zlen_cons, IHn. lia. Qed.
#[export] Hint Rewrite zlen_le_bytes : zlen.

Lemma le_val_bytes n z : le_val (le_bytes n z) = z mod 2 ^ (8 * Z.of_nat n).
Proof.
  revert z; induction n as [|n IH]; intros; simpl le_bytes; simpl le_val.
  { by rewrite Z.mod_1_r. }
  rewrite IH. replace (8 * Z.of_nat (S n)) with (8 + 8 * Z.of_nat n) by lia.
  rewrite Z.pow_add_r by lia. change (2 ^ 8) with 256.
  rewrite Z.rem_mul_r; lia.
Qed.

Lemma le_val_bytes_signed n z :
  (0 < n)%nat -> in_s (8 * Z.of_nat n) z ->
  swrap (8 * Z.of_nat n) (le_val (le_bytes n z)) = z.
Proof.
  intros Hn Hz. rewrite le_val_bytes.
  change (z mod 2 ^ (8 * Z.of_nat n)) with (uwrap (8 * Z.of_nat n) z).
  rewrite swrap_uwrap, swrap_id; [done|lia|done|lia].
Qed.

Lemma le_val_bytes_unsigned n z :
  in_u (8 * Z.of_nat n) z -> le_val (le_bytes n z) = z.
Proof. intros. rewrite le_val_bytes. by apply Z.mod_small. Qed.

Lemma le_bytes_range n z : Forall (in_u 8) (le_bytes n z).
Proof.
  revert z; induction n; intros; simpl; constructor; [|done].
  apply (Z.mod_pos_bound z 256). lia.
Qed.

(** ** Characters *)

(** C [char]s are the unsigned byte values; [chr "x"] and [str "xyz"] are numerals
    computed when the term is read, so that [lia] sees them. *)
Definition char_code (a : Ascii.ascii) : Z := Z.of_N (Ascii.N_of_ascii a).
Definition string_codes (s : String.string) : list Z :=
  map char_code (String.list_ascii_of_string s).

Notation "'chr' a" :=
  (ltac:(let v := eval vm_compute in (char_code a%char) in exact v))
  (at level 10, a at level 0, only parsing).
Notation "'str' s" :=
  (ltac:(let v := eval vm_compute in (string_codes s%string) in exact v))
  (at level 10, s at level 0, only parsing).

(** [<ctype.h>] in the C locale, on the value of a [char]. *)
Definition isdigit (c : Z) : bool := (chr "0" <=? c) && (c <=? chr "9").
Definition isupper (c : Z) : bool := (chr "A" <=? c) && (c <=? chr "Z").
Definition islower (c : Z) : bool := (chr "a" <=? c) && (c <=? chr "z").
Definition tolower (c : Z) : Z := if isupper c then c + 32 else c.
Definition toupper (c : Z) : Z := if islower c then c - 32 else c.
Definition isspace (c : Z) : bool := (c =? 32) || ((9 <=? c) && (c <=? 13)).
Definition isprint (c : Z) : bool := (32 <=? c) && (c <=? 126).

(** A NUL-terminated string [b]: its terminator may be read, nothing after it. *)
Definition cpeek (b : list Z) (i : Z) : res Z :=
  if i =? zlen b then Ok 0 else peek b i.

Lemma cpeek_app a v c i : i = zlen a -> cpeek (a ++ v :: c) i = Ok v.
Proof.
  intros ->. unfold cpeek. destruct (Z.eqb_spec (zlen a) (zlen (a ++ v :: c))).
  - zl.
  - by apply peek_app.
Qed.

Lemma cpeek_end a i : i = zlen a -> cpeek a i = Ok 0.
Proof. intros ->. unfold cpeek. by rewrite Z.eqb_refl. Qed.
