(* ===== verification/Util.v ===== *)
(** * Number and pattern helpers: src/redis-stable/src/util.c *)
From S2P Require Import Prelude.

Definition LLONG_MIN : Z := - 2 ^ 63.
Definition LLONG_MAX : Z := 2 ^ 63 - 1.
Definition ULLONG_MAX : Z := 2 ^ 64 - 1.

(** ** [digits10], [sdigits10] *)

(** [fuel] bounds the calls of [digits10] to itself; each divides by 10^12. *)
Fixpoint digits10_go (fuel : nat) (v : Z) : res Z :=
  match fuel with
  | O => Fault OutOfFuel
  | S fuel =>
    if v <? 10 then Ok 1
    else if v <? 100 then Ok 2
    else if v <? 1000 then Ok 3
    else if v <? 1000000000000 then
      (if v <? 100000000 then
         (if v <? 1000000 then
            (if v <? 10000 then Ok 4
             else Ok (5 + Z.b2z (100000 <=? v)))
          else Ok (7 + Z.b2z (10000000 <=? v)))
       else if v <? 10000000000 then Ok (9 + Z.b2z (1000000000 <=? v))
       else Ok (11 + Z.b2z (100000000000 <=? v)))
    else d ← digits10_go fuel (v / 1000000000000); Ok (u32 (12 + d))
  end.

Definition digits10 (v : Z) : res Z := digits10_go 2 v.

Definition sdigits10 (v : Z) : res Z :=
  if v <? 0 then
    let uv := if negb (v =? LLONG_MIN) then u64 (- v) else u64 LLONG_MAX + 1 in
    d ← digits10 uv; Ok (u32 (d + 1))
  else digits10 (u64 v).

(** ** [ll2string] *)

Definition ll2string_digits : list Z := Eval vm_compute in
  str "0001020304050607080910111213141516171819" ++
  str "2021222324252627282930313233343536373839" ++
  str "4041424344454647484950515253545556575859" ++
  str "6061626364656667686970717273747576777879" ++
  str "8081828384858687888990919293949596979899".

(** The [while (value >= 100)] loop. *)
Fixpoint ll2string_loop (fuel : nat) (dst : list Z) (value next : Z)
    : res (list Z * Z * Z) :=
  match fuel with
  | O => Fault OutOfFuel
  | S fuel =>
    if 100 <=? value then
      let i := (value mod 100) * 2 in
      let value := value / 100 in
      d1 ← peek ll2string_digits (i + 1);
      dst ← poke dst next d1;
      d0 ← peek ll2string_digits i;
      dst ← poke dst (u32 (next - 1)) d0;
      ll2string_loop fuel dst value (u32 (next - 2))
    else Ok (dst, value, next)
  end.

(** The last one or two digits. *)
Definition ll2string_last (dst : list Z) (value next : Z) : res (list Z) :=
  if value <? 10 then poke dst next (48 + u32 value)
  else
    let i := u32 value * 2 in
    d1 ← peek ll2string_digits (i + 1);
    dst ← poke dst next d1;
    d0 ← peek ll2string_digits i;
    poke dst (u32 (next - 1)) d0.

(** The buffer after the call and the returned length (0: no room). Ten rounds of
    the loop suffice for the 20 digits of a 64 bit value. *)
Definition ll2string (dst : list Z) (dstlen svalue : Z) : res (list Z * Z) :=
  let value := if svalue <? 0
               then (if negb (svalue =? LLONG_MIN) then u64 (- svalue)
                     else u64 (u64 LLONG_MAX + 1))
               else u64 svalue in
  let negative := svalue <? 0 in
  d ← digits10 value;
  let length := u32 (d + Z.b2z negative) in
  if dstlen <=? length then Ok (dst, 0) else
  dst ← poke dst length 0;
  '(dst, value, next) ← ll2string_loop 11 dst value (u32 (length - 1));
  dst ← ll2string_last dst value next;
  dst ← (if negative then poke dst 0 (chr "-") else Ok dst);
  Ok (dst, length).

(** ** [string2ll], [string2l] *)

(** The digit loop: [None] is the early return on overflow, otherwise the value
    and the unread bytes. *)
Fixpoint string2ll_loop (v : Z) (p : list Z) : option (Z * list Z) :=
  match p with
  | c :: p' =>
    if (chr "0" <=? c) && (c <=? chr "9") then
      if ULLONG_MAX / 10 <? v then None else
      let v := u64 (v * 10) in
      if ULLONG_MAX - (c - chr "0") <? v then None else
      string2ll_loop (u64 (v + (c - chr "0"))) p'
    else Some (v, p)
  | [] => Some (v, [])
  end.

(** [s] is the [slen] bytes of the argument; [None] is the return value 0. *)
Definition string2ll (s : list Z) : option Z :=
  match s with
  | [] => None
  | c0 :: s1 =>
    if (zlen s =? 1) && (c0 =? chr "0") then Some 0 else
    let negative := c0 =? chr "-" in
    match (if negative then s1 else s) with
    | [] => None
    | c :: p =>
      let first :=
        if (chr "1" <=? c) && (c <=? chr "9") then string2ll_loop (c - chr "0") p
        else if (c =? chr "0") && (zlen s =? 1) then Some (0, [])
        else None in
      match first with
      | None => None
      | Some (v, rest) =>
        if 0 <? zlen rest then None else
        if negative then
          if u64 (- (LLONG_MIN + 1)) + 1 <? v then None else Some (i64 (- v))
        else if LLONG_MAX <? v then None else Some (i64 v)
      end
    end
  end.

Definition LONG_MIN : Z := - 2 ^ 63.
Definition LONG_MAX : Z := 2 ^ 63 - 1.

Definition string2l (s : list Z) : option Z :=
  match string2ll s with
  | None => None
  | Some llval =>
    if (llval <? LONG_MIN) || (LONG_MAX <? llval) then None else Some (i64 llval)
  end.

(** ** Decimal numerals *)

(** The digits of [v], most significant first; 20 of them are enough below 2^64. *)
Fixpoint udec_go (n : nat) (v : Z) : list Z :=
  match n with
  | O => []
  | S n => if v <? 10 then [48 + v] else udec_go n (v / 10) ++ [48 + v mod 10]
  end.
Definition udec (v : Z) : list Z := udec_go 20 v.
Definition dec (v : Z) : list Z := if v <? 0 then chr "-" :: udec (- v) else udec v.

Definition digits_from (a : Z) (l : list Z) : Z :=
  fold_left (fun a c => 10 * a + (c - 48)) l a.
Definition digit (c : Z) : Prop := 48 <= c <= 57.

(** [canon s v]: [s] is the decimal numeral of [v] with no redundant character. *)
Inductive canon : list Z -> Z -> Prop :=
| canon_zero : canon [48] 0
| canon_pos c l : 49 <= c <= 57 -> Forall digit l -> canon (c :: l) (digits_from 0 (c :: l))
| canon_neg c l : 49 <= c <= 57 -> Forall digit l ->
    canon (chr "-" :: c :: l) (- digits_from 0 (c :: l)).

Lemma pow10_succ (n : nat) : 10 ^ Z.of_nat (S n) = 10 * 10 ^ Z.of_nat n.
Proof. rewrite Nat2Z.inj_succ, Z.pow_succ_r by lia. done. Qed.

Lemma div10_lt v p : 0 <= v < 10 * p -> 0 <= v / 10 < p.
Proof. intros. split; [apply Z.div_pos; lia|]. apply Z.div_lt_upper_bound; lia. Qed.

Lemma udec_go_fuel n m v :
  0 <= v < 10 ^ Z.of_nat n -> v < 10 ^ Z.of_nat m -> (0 < n)%nat -> (0 < m)%nat ->
  udec_go n v = udec_go m v.
Proof.
  revert m v. induction n as [|n IH]; intros [|m] v Hn Hm H0 H1; try lia.
  simpl. destruct (Z.ltb_spec v 10); [done|]. rewrite pow10_succ in Hn, Hm.
  f_equal. pose proof (div10_lt v _ Hn). pose proof (div10_lt v _ ltac:(split; [lia|exact Hm])).
  apply IH; [done|lia|..].
  - destruct n; simpl in *; lia.
  - destruct m; simpl in *; lia.
Qed.

Lemma udec_small v : 0 <= v < 10 -> udec v = [48 + v].
Proof. intros. unfold udec. simpl. by rewrite (proj2 (Z.ltb_lt _ _)) by lia. Qed.

Lemma udec_step v : 10 <= v < 2 ^ 64 -> udec v = udec (v / 10) ++ [48 + v mod 10].
Proof.
  intros Hv. unfold udec. change (udec_go 20 v) with
    (if v <? 10 then [48 + v] else udec_go 19 (v / 10) ++ [48 + v mod 10]).
  rewrite (proj2 (Z.ltb_ge _ _)) by lia.
  pose proof (div10_lt v (10 ^ 19)). assert (2 ^ 64 <= 10 * 10 ^ 19) by lia.
  rewrite (udec_go_fuel 19 20); [done|..]; lia.
Qed.

Lemma div10_bounds v : 0 <= v < 2 ^ 64 -> 0 <= v / 10 < 2 ^ 64.
Proof. intros. apply div10_lt. lia. Qed.

Lemma udec_step2 v : 100 <= v < 2 ^ 64 ->
  udec v = udec (v / 100) ++ [48 + v mod 100 / 10; 48 + v mod 100 mod 10].
Proof.
  intros. rewrite udec_step by lia. pose proof (div10_bounds v).
  assert (10 <= v / 10) by (apply Z.div_le_lower_bound; lia).
  rewrite udec_step by lia. rewrite <- app_assoc. simpl.
  rewrite Z.div_div by lia. change (10 * 10) with 100.
  assert (forall a b c d e : Z, a = c -> b = d ->
    udec e ++ [48 + a; 48 + b] = udec e ++ [48 + c; 48 + d]) as HE by (by intros * -> ->).
  apply HE; clear HE.
  - pose proof (Z.div_mod v 100 ltac:(lia)) as E. pose proof (Z.mod_pos_bound v 100).
    rewrite E at 1. replace (100 * (v / 100) + v mod 100)
      with (v mod 100 + (10 * (v / 100)) * 10) by lia.
    rewrite Z.div_add by lia. rewrite Z.add_comm, Z.mul_comm, Z.add_comm, Z.mod_add by lia.
    apply Z.mod_small. split; [apply Z.div_pos|apply Z.div_lt_upper_bound]; lia.
  - pose proof (Z.div_mod v 100 ltac:(lia)) as E. rewrite E at 1.
    replace (100 * (v / 100) + v mod 100) with (v mod 100 + (10 * (v / 100)) * 10) by lia.
    by rewrite Z.mod_add by lia.
Qed.

Lemma udec_len12 v : 10 ^ 12 <= v < 2 ^ 64 -> zlen (udec v) = 12 + zlen (udec (v / 10 ^ 12)).
Proof.
  intros Hv.
  assert (H : forall k : nat, (k <= 12)%nat ->
    zlen (udec v) = Z.of_nat k + zlen (udec (v / 10 ^ Z.of_nat k))).
  { induction k as [|k IH]; intros Hk.
    - rewrite Z.div_1_r. lia.
    - rewrite IH by lia. pose proof (pow10_succ k).
      assert (0 < 10 ^ Z.of_nat k) by lia.
      assert (10 ^ Z.of_nat (S k) <= 10 ^ 12) by (apply Z.pow_le_mono_r; lia).
      assert (10 <= v / 10 ^ Z.of_nat k) by (apply Z.div_le_lower_bound; lia).
      assert (v / 10 ^ Z.of_nat k <= v) by (apply Z.div_le_upper_bound; nia).
      rewrite udec_step by lia. rewrite Z.div_div by lia.
      rewrite (Z.mul_comm (10 ^ Z.of_nat k) 10), <- pow10_succ. zl. }
  by rewrite (H 12%nat).
Qed.

Lemma udec_go_len n k v :
  (0 < k <= n)%nat -> v < 10 ^ Z.of_nat k ->
  0 <= v -> k = 1%nat \/ 10 ^ Z.of_nat (k - 1) <= v ->
  zlen (udec_go n v) = Z.of_nat k.
Proof.
  revert k v. induction n as [|n IH]; intros k v Hk Hv H0 Hd; [lia|]. simpl.
  destruct k as [|[|k]]; [lia|..].
  - change (10 ^ Z.of_nat 1) with 10 in Hv. by rewrite (proj2 (Z.ltb_lt _ _)) by lia.
  - destruct Hd as [|Hd]; [lia|]. replace (S (S k) - 1)%nat with (S k) in Hd by lia.
    rewrite pow10_succ in Hd. rewrite (proj2 (Z.ltb_ge _ _)) by lia.
    rewrite zlen_app, (IH (S k)); [zl|lia|..].
    + rewrite pow10_succ in Hv. by apply div10_lt.
    + apply Z.div_pos; lia.
    + destruct k; [by left|]. right.
      replace (S (S k) - 1)%nat with (S k) by lia. rewrite pow10_succ in Hd |- *.
      apply Z.div_le_lower_bound; lia.
Qed.

Lemma udec_len k e v :
  k = e + 1 -> 0 <= e < 20 -> 0 <= v < 10 ^ k -> e = 0 \/ 10 ^ e <= v -> zlen (udec v) = k.
Proof.
  intros -> He Hv Hd. rewrite <- (Z2Nat.id (e + 1)) in * by lia.
  apply udec_go_len; [lia..|]. destruct Hd; [left; lia|right].
  replace (Z.to_nat (e + 1) - 1)%nat with (Z.to_nat e) by lia. rewrite Z2Nat.id; lia.
Qed.

Lemma udec_go_len_le n v : 0 <= zlen (udec_go n v) <= Z.of_nat n.
Proof.
  revert v; induction n as [|n IH]; intros v; cbn [udec_go]; [by split|].
  specialize (IH (v / 10)). case_match; autorewrite with zlen; lia.
Qed.

Lemma udec_len_le v : 1 <= zlen (udec v) <= 20.
Proof.
  split; [|apply (udec_go_len_le 20%nat)]. unfold udec. cbn [udec_go].
  case_match; autorewrite with zlen; zlen_pos; lia.
Qed.

Lemma digits10_go_small fuel v :
  0 <= v < 10 ^ 12 -> digits10_go (S fuel) v = Ok (zlen (udec v)).
Proof.
  intros Hv. cbn [digits10_go].
  repeat match goal with
  | |- context [?a <? ?b] => destruct (Z.ltb_spec a b)
  | |- context [?a <=? ?b] => destruct (Z.leb_spec a b)
  end; try lia; f_equal; simpl Z.b2z; symmetry.
  - by apply (udec_len 1 0); [lia..|left].
  - apply (udec_len 2 1); lia.
  - apply (udec_len 3 2); lia.
  - apply (udec_len 4 3); lia.
  - apply (udec_len 6 5); lia.
  - apply (udec_len 5 4); lia.
  - apply (udec_len 8 7); lia.
  - apply (udec_len 7 6); lia.
  - apply (udec_len 10 9); lia.
  - apply (udec_len 9 8); lia.
  - apply (udec_len 12 11); lia.
  - apply (udec_len 11 10); lia.
Qed.

Lemma digits10_udec v : in_u 64 v -> digits10 v = Ok (zlen (udec v)).
Proof.
  intros Hv. unfold in_u in Hv. unfold digits10. destruct (Z.lt_ge_cases v (10 ^ 12)).
  - apply digits10_go_small. lia.
  - assert (forall f, digits10_go (S f) v =
      (d ← digits10_go f (v / 1000000000000); Ok (u32 (12 + d)))) as ->.
    { intros f. cbn [digits10_go]. by repeat rewrite (proj2 (Z.ltb_ge v _)) by lia. }
    assert (0 <= v / 10 ^ 12 < 10 ^ 8)
      by (split; [apply Z.div_pos|apply Z.div_lt_upper_bound]; lia).
    change 1000000000000 with (10 ^ 12).
    rewrite (digits10_go_small 0) by lia. cbn [mbind res_bind].
    rewrite (udec_len12 v) by lia. rewrite uwrap_id; [done|].
    pose proof (udec_len_le (v / 10 ^ 12)). unfold in_u. lia.
Qed.

(** The digit pair table. *)
Lemma ll2string_digits_at r :
  0 <= r < 100 ->
  peek ll2string_digits (r * 2) = Ok (48 + r / 10) /\
  peek ll2string_digits (r * 2 + 1) = Ok (48 + r mod 10).
Proof.
  intros Hr.
  assert (H : Forall (fun k => let r := Z.of_nat k in
     peek ll2string_digits (r * 2) = Ok (48 + r / 10) /\
     peek ll2string_digits (r * 2 + 1) = Ok (48 + r mod 10)) (seq 0 100)).
  { repeat constructor. }
  rewrite Forall_forall in H. specialize (H (Z.to_nat r)).
  rewrite Z2Nat.id in H by lia. apply H. apply in_seq. lia.
Qed.

(** Writing a pair of digits at the end of the free cells of the buffer. *)
Lemma poke_pair pre x y c a b next :
  next = zlen pre + 1 -> next < 2 ^ 32 ->
  exists d, poke (pre ++ x :: y :: c) next b = Ok d /\
            poke d (u32 (next - 1)) a = Ok (pre ++ a :: b :: c).
Proof.
  intros Hn Hb. exists (pre ++ x :: b :: c). split.
  - rewrite (cons_middle x pre), (cons_middle x pre (b :: c)), !app_assoc.
    apply poke_app. zl.
  - apply poke_app. rewrite uwrap_id; unfold in_u; zl.
Qed.

(** Splitting the last two cells off a buffer region. *)
Lemma split_last2 (l : list Z) n :
  zlen l = n + 2 -> 0 <= n -> exists k x y, l = k ++ [x; y] /\ zlen k = n.
Proof.
  intros Hl Hn. destruct (list_split_at n l) as (k & b & -> & Hk); [lia|].
  rewrite zlen_app in Hl. destruct b as [|x [|y [|? b]]]; try zl. eauto.
Qed.

Lemma ll2string_last_ok pre old c value next :
  0 <= value < 100 -> zlen old = zlen (udec value) ->
  next = zlen pre + zlen old - 1 -> next < 2 ^ 32 ->
  ll2string_last (pre ++ old ++ c) value next = Ok (pre ++ udec value ++ c).
Proof.
  intros Hv Ho Hn Hb. unfold ll2string_last. rewrite (uwrap_id 32 value) by (unfold in_u; lia).
  destruct (Z.ltb_spec value 10).
  - rewrite udec_small in * by lia. destruct old as [|x [|? ?]]; try zl. simpl.
    apply poke_app. zl.
  - assert (udec value = [48 + value / 10; 48 + value mod 10]) as E.
    { rewrite udec_step by lia. rewrite udec_small; [done|].
      split; [apply Z.div_pos|apply Z.div_lt_upper_bound]; lia. }
    rewrite E in *.
    destruct old as [|x [|y [|? ?]]]; try zl. simpl.
    destruct (ll2string_digits_at value) as [E0 E1]; [lia|].
    destruct (poke_pair pre x y c (48 + value / 10) (48 + value mod 10) next)
      as (d & P0 & P1); [zl..|].
    rewrite E1. cbn [mbind res_bind]. rewrite P0. cbn [mbind res_bind]. by rewrite E0.
Qed.

Lemma ll2string_fill fuel pre old c value next :
  in_u 64 value -> value < 100 * 100 ^ Z.of_nat fuel -> zlen old = zlen (udec value) ->
  next = zlen pre + zlen old - 1 -> next < 2 ^ 32 ->
  ('(dst, v, n) ← ll2string_loop (S fuel) (pre ++ old ++ c) value next;
   ll2string_last dst v n) = Ok (pre ++ udec value ++ c).
Proof.
  unfold in_u. revert old c value next.
  induction fuel as [|fuel IH]; intros old c v next Hv Hf Ho Hn Hb.
  { change (100 ^ Z.of_nat 0) with 1 in Hf. cbn [ll2string_loop].
    rewrite (proj2 (Z.leb_gt _ _)) by lia. by apply ll2string_last_ok; [lia|..]. }
  remember (S fuel) as f. cbn [ll2string_loop]. destruct (Z.leb_spec 100 v).
  2: { by apply ll2string_last_ok; [lia|..]. }
  subst f. rewrite (udec_step2 v) in Ho |- * by lia.
  destruct (ll2string_digits_at (v mod 100)) as [E0 E1]; [apply Z.mod_pos_bound; lia|].
  rewrite E1, E0. cbn [mbind res_bind].
  destruct (split_last2 old (zlen (udec (v / 100)))) as (k & x & y & -> & Hk); [zl..|].
  rewrite <- app_assoc. simpl app at 2. rewrite app_assoc.
  destruct (poke_pair (pre ++ k) x y c (48 + v mod 100 / 10) (48 + v mod 100 mod 10) next)
    as (d & P0 & P1); [zl..|].
  rewrite P0. cbn [mbind res_bind]. rewrite P1. cbn [mbind res_bind]. rewrite <- !app_assoc.
  rewrite IH; [done| | |done|..].
  all: try (split; [apply Z.div_pos|apply Z.div_lt_upper_bound]; lia).
  - rewrite Nat2Z.inj_succ, Z.pow_succ_r in Hf by lia. apply Z.div_lt_upper_bound; lia.
  - pose proof (udec_len_le (v / 100)). rewrite uwrap_id; unfold in_u; zl.
  - pose proof (uwrap_range 32 (next - 2)). unfold in_u in *. lia.
Qed.

(** ** [ll2string] writes the canonical numeral *)

Lemma dec_len_le v : in_s 64 v -> 1 <= zlen (dec v) <= 20.
Proof.
  unfold dec, in_s. intros Hv. destruct (Z.ltb_spec v 0); [|apply udec_len_le].
  assert (zlen (udec (- v)) <= 19); [|pose proof (udec_len_le (- v)); zl].
  unfold udec. rewrite (udec_go_fuel 20 19); [apply (udec_go_len_le 19)|lia..].
Qed.

Lemma ll2string_ok dst dstlen v :
  in_s 64 v -> zlen dst = dstlen -> zlen (dec v) < dstlen ->
  exists post, ll2string dst dstlen v = Ok (dec v ++ 0 :: post, zlen (dec v)) /\
               zlen (dec v) + 1 + zlen post = dstlen.
Proof.
  intros Hv Hd Hl. unfold in_s in Hv. unfold ll2string, dec in *.
  set (value := if v <? 0 then _ else _). assert (value = Z.abs v) as Ev.
  { subst value. unfold LLONG_MIN, LLONG_MAX. destruct (Z.ltb_spec v 0).
    - destruct (Z.eqb_spec v (- 2 ^ 63)); cbn [negb]; [subst; done|].
      rewrite uwrap_id; unfold in_u; lia.
    - rewrite uwrap_id; unfold in_u; lia. }
  assert (in_u 64 value) as Hu by (unfold in_u; lia). clearbody value.
  rewrite digits10_udec by done. cbn [mbind res_bind].
  pose proof (udec_len_le value) as Hd20.
  assert (dec v = (if v <? 0 then [chr "-"] else []) ++ udec value) as Edec.
  { unfold dec. destruct (Z.ltb_spec v 0); simpl; subst value; do 2 f_equal; lia. }
  unfold dec in Edec. rewrite Edec in *.
  assert (zlen (if v <? 0 then [chr "-"] else []) = Z.b2z (v <? 0)) as Eneg by by case_match.
  rewrite zlen_app, Eneg in *. rewrite uwrap_id by (unfold in_u; destruct (v <? 0); simpl; lia).
  rewrite (proj2 (Z.leb_gt _ _)) by lia.
  destruct (list_split_at (Z.b2z (v <? 0)) dst) as (sg & dst1 & -> & Hsg);
    [destruct (v <? 0); simpl in *; lia|].
  destruct (list_split_at (zlen (udec value)) dst1) as (old & dst2 & -> & Ho); [zl|].
  destruct dst2 as [|z post]; [zl|]. exists post. split; [|zl].
  rewrite (app_assoc sg), poke_app by zl. cbn [mbind res_bind]. rewrite <- app_assoc.
  rewrite (uwrap_id 32 (zlen (udec value) + Z.b2z (v <? 0) - 1))
    by (unfold in_u; destruct (v <? 0); simpl in *; lia).
  pose proof (ll2string_fill 10 sg old (0 :: post) value
    (zlen (udec value) + Z.b2z (v <? 0) - 1)) as HF.
  specialize (HF Hu ltac:(unfold in_u in *; lia) Ho ltac:(lia)
    ltac:(destruct (v <? 0); simpl; lia)).
  destruct (ll2string_loop _ _ _ _) as [[[d w] n]|]; [|done]. cbn [mbind res_bind] in HF |- *.
  rewrite HF. cbn [mbind res_bind]. destruct (v <? 0).
  - destruct sg as [|x [|? ?]]; try zl. cbn [app].
    rewrite (poke_app [] x _ _ 0 eq_refl : poke (x :: udec value ++ 0 :: post) 0 45 = _).
    simpl. by rewrite (Z.add_comm 1).
  - destruct sg; [|zl]. simpl. by rewrite Z.add_0_r, Z.add_0_l.
Qed.

Lemma digits_from_app a l k : digits_from a (l ++ k) = digits_from (digits_from a l) k.
Proof. apply fold_left_app. Qed.

Lemma digits_from_ge a l : 0 <= a -> Forall digit l -> a <= digits_from a l.
Proof.
  intros Ha Hl. revert a Ha. induction Hl as [|c l Hc Hl IH]; intros a Ha; cbn; [lia|].
  unfold digit in Hc. specialize (IH (10 * a + (c - 48)) ltac:(lia)).
  unfold digits_from in IH. lia.
Qed.

Lemma udec_digits_from c l :
  49 <= c <= 57 -> Forall digit l -> digits_from 0 (c :: l) < 2 ^ 64 ->
  udec (digits_from 0 (c :: l)) = c :: l.
Proof.
  intros Hc. induction l as [|d l IH] using rev_ind; intros Hl Hb.
  - cbn [digits_from fold_left] in *. rewrite udec_small by lia. f_equal. lia.
  - apply Forall_app in Hl as [Hl Hd]. inversion Hd as [|?? Hd']; subst. unfold digit in Hd'.
    rewrite app_comm_cons, digits_from_app in *. cbn [digits_from fold_left] in *.
    fold (digits_from (10 * 0 + (c - 48)) l) in *.
    change (digits_from (10 * 0 + (c - 48)) l) with (digits_from 0 (c :: l)) in *.
    assert (1 <= digits_from 0 (c :: l)).
    { pose proof (digits_from_ge (10 * 0 + (c - 48)) l ltac:(lia) Hl).
      change (digits_from 0 (c :: l)) with (digits_from (10 * 0 + (c - 48)) l). lia. }
    specialize (IH Hl ltac:(lia)). set (X := digits_from 0 (c :: l)) in *.
    rewrite udec_step by lia. rewrite (Z.mul_comm 10 X).
    rewrite Z.div_add_l, Z.div_small, Z.add_0_r by lia. rewrite IH.
    rewrite (Z.add_comm (X * 10)), Z.mod_add, Z.mod_small by lia. do 2 f_equal. lia.
Qed.

Lemma digits_from_udec v : in_u 64 v -> v <> 0 ->
  exists c l, udec v = c :: l /\ 49 <= c <= 57 /\ Forall digit l /\ digits_from 0 (c :: l) = v.
Proof.
  unfold in_u. intros Hv H0. assert (exists n : nat, v < 10 ^ Z.of_nat n) as [n Hn].
  { exists 20%nat. lia. }
  revert v Hv H0 Hn. induction n as [|n IH]; intros v Hv H0 Hn; [simpl in Hn; lia|].
  destruct (Z.lt_ge_cases v 10).
  - exists (48 + v), []. rewrite udec_small by lia. repeat split; [lia..|constructor|]. cbn. lia.
  - rewrite pow10_succ in Hn. pose proof (div10_lt v (10 ^ Z.of_nat n)).
    pose proof (div10_bounds v Hv).
    assert (1 <= v / 10) by (apply Z.div_le_lower_bound; lia).
    destruct (IH (v / 10)) as (c & l & E & Hc & Hl & Ev); [lia..|].
    pose proof (Z.mod_pos_bound v 10). pose proof (Z.div_mod v 10).
    exists c, (l ++ [48 + v mod 10]). rewrite udec_step, E by lia.
    repeat split; [lia..| |].
    + apply Forall_app. split; [done|]. repeat constructor; lia.
    + rewrite app_comm_cons, digits_from_app, Ev. cbn. lia.
Qed.

Lemma dec_canon v : in_s 64 v -> canon (dec v) v.
Proof.
  unfold in_s. intros Hv. unfold dec. destruct (Z.ltb_spec v 0).
  - destruct (digits_from_udec (- v)) as (c & l & -> & Hc & Hl & E); [unfold in_u; lia..|].
    replace v with (- digits_from 0 (c :: l)) by lia. by constructor.
  - destruct (Z.eq_dec v 0) as [->|].
    { rewrite udec_small by lia. constructor. }
    destruct (digits_from_udec v) as (c & l & -> & Hc & Hl & E); [unfold in_u; lia..|].
    rewrite <- E. by constructor.
Qed.

Lemma canon_dec s v : canon s v -> in_s 64 v -> s = dec v.
Proof.
  unfold in_s. intros Hc Hv. destruct Hc as [|c l Hc Hl|c l Hc Hl]; unfold dec.
  - by rewrite udec_small by lia.
  - pose proof (digits_from_ge (10 * 0 + (c - 48)) l ltac:(lia) Hl).
    change (digits_from (10 * 0 + (c - 48)) l) with (digits_from 0 (c :: l)) in *.
    rewrite (proj2 (Z.ltb_ge _ _)) by lia. by rewrite udec_digits_from by (done || lia).
  - pose proof (digits_from_ge (10 * 0 + (c - 48)) l ltac:(lia) Hl).
    change (digits_from (10 * 0 + (c - 48)) l) with (digits_from 0 (c :: l)) in *.
    rewrite (proj2 (Z.ltb_lt _ _)) by lia.
    rewrite Z.opp_involutive. by rewrite udec_digits_from by (done || lia).
Qed.

(** ** [string2ll] accepts exactly the canonical numerals of the 64 bit integers *)

Lemma string2ll_loop_digits v p :
  in_u 64 v -> Forall digit p ->
  string2ll_loop v p =
    if digits_from v p <? 2 ^ 64 then Some (digits_from v p, []) else None.
Proof.
  unfold in_u. intros Hv Hp. revert v Hv. induction Hp as [|c p Hc Hp IH]; intros v Hv.
  { cbn. by rewrite (proj2 (Z.ltb_lt _ _)) by lia. }
  unfold digit in Hc. cbn [string2ll_loop].
  rewrite (proj2 (Z.leb_le 48 c)), (proj2 (Z.leb_le c 57)) by lia. cbn [andb].
  assert (10 * v + (c - 48) <= digits_from v (c :: p)) as Hge.
  { apply (digits_from_ge (10 * v + (c - 48))); [lia|done]. }
  change (ULLONG_MAX / 10) with 1844674407370955161. unfold ULLONG_MAX.
  destruct (Z.ltb_spec 1844674407370955161 v).
  { by rewrite (proj2 (Z.ltb_ge _ _)) by lia. }
  rewrite (uwrap_id 64 (v * 10)) by (unfold in_u; lia).
  destruct (Z.ltb_spec (2 ^ 64 - 1 - (c - 48)) (v * 10)).
  { by rewrite (proj2 (Z.ltb_ge _ _)) by lia. }
  rewrite (uwrap_id 64 (v * 10 + (c - 48))) by (unfold in_u; lia).
  rewrite IH by lia. cbn [digits_from fold_left]. by rewrite (Z.mul_comm v 10).
Qed.

Lemma string2ll_loop_rest v p w : string2ll_loop v p = Some (w, []) -> Forall digit p.
Proof.
  revert v. induction p as [|c p IH]; intros v; cbn [string2ll_loop]; [constructor|].
  destruct (Z.leb_spec 48 c), (Z.leb_spec c 57); cbn [andb]; try done.
  repeat (case_match; try done). intros. constructor; [unfold digit; lia|eauto].
Qed.

Lemma string2ll_dec v : in_s 64 v -> string2ll (dec v) = Some v.
Proof.
  intros Hv. pose proof (dec_canon v Hv) as Hc. unfold in_s in Hv.
  destruct Hc as [|c l Hc Hl|c l Hc Hl]; [done|..].
  all: pose proof (digits_from_ge (10 * 0 + (c - 48)) l ltac:(lia) Hl);
    change (digits_from (c - 48) l) with (digits_from 0 (c :: l)) in *;
    change (digits_from (10 * 0 + (c - 48)) l) with (digits_from 0 (c :: l)) in *.
  - unfold string2ll. replace (c =? 48) with false by lia. rewrite andb_false_r.
    replace (c =? 45) with false by lia.
    rewrite (proj2 (Z.leb_le 49 c)), (proj2 (Z.leb_le c 57)) by lia. cbn [andb].
    rewrite string2ll_loop_digits by (unfold in_u; lia || done).
    change (digits_from (c - 48) l) with (digits_from 0 (c :: l)).
    rewrite (proj2 (Z.ltb_lt _ _)) by lia. change (0 <? zlen []) with false. cbn iota.
    unfold LLONG_MAX. rewrite (proj2 (Z.ltb_ge _ _)) by lia.
    rewrite swrap_id; [done|lia|unfold in_s; lia].
  - unfold string2ll. replace (zlen (45 :: c :: l) =? 1) with false by zl.
    cbn [andb]. change (45 =? 45) with true. cbn iota.
    rewrite (proj2 (Z.leb_le 49 c)), (proj2 (Z.leb_le c 57)) by lia. cbn [andb].
    rewrite string2ll_loop_digits by (unfold in_u; lia || done).
    change (digits_from (c - 48) l) with (digits_from 0 (c :: l)).
    rewrite (proj2 (Z.ltb_lt _ _)) by lia. change (0 <? zlen []) with false. cbn iota.
    change (u64 (- (LLONG_MIN + 1)) + 1) with (2 ^ 63).
    rewrite (proj2 (Z.ltb_ge _ _)) by lia.
    rewrite swrap_id; [done|lia|unfold in_s; lia].
Qed.

Lemma string2ll_sound s v : string2ll s = Some v -> canon s v /\ in_s 64 v.
Proof.
  destruct s as [|c0 s1]; [done|]. unfold string2ll.
  destruct ((zlen (c0 :: s1) =? 1) && (c0 =? 48)) eqn:E0.
  { intros [= <-]. apply andb_true_iff in E0 as [E1 E2].
    rewrite Z.eqb_eq in E1, E2. subst. destruct s1; [|zl].
    split; [constructor|unfold in_s; lia]. }
  destruct (Z.eqb_spec c0 45) as [->|Hneg].
  - destruct s1 as [|c p]; [done|].
    destruct ((49 <=? c) && (c <=? 57)) eqn:Ec.
    2: { replace (zlen (45 :: c :: p) =? 1) with false by zl. by rewrite andb_false_r. }
    apply andb_true_iff in Ec as [Ec1%Z.leb_le Ec2%Z.leb_le].
    destruct (string2ll_loop (c - 48) p) as [[w rest]|] eqn:El; [|done].
    destruct rest as [|? rest]; [|case_match; [done|zl]].
    change (0 <? zlen []) with false. cbn iota.
    pose proof (string2ll_loop_rest _ _ _ El) as Hp.
    rewrite string2ll_loop_digits in El by (unfold in_u; lia || done).
    destruct (Z.ltb_spec (digits_from (c - 48) p) (2 ^ 64)); [|done].
    pose proof (digits_from_ge (c - 48) p ltac:(lia) Hp). injection El as <-.
    change (u64 (- (LLONG_MIN + 1)) + 1) with (2 ^ 63).
    destruct (Z.ltb_spec (2 ^ 63) (digits_from (c - 48) p)); [done|]. intros [= <-].
    rewrite swrap_id by (unfold in_s; lia). split; [|unfold in_s; lia].
    change (digits_from (c - 48) p) with (digits_from 0 (c :: p)). by constructor.
  - destruct ((49 <=? c0) && (c0 <=? 57)) eqn:Ec.
    2: { rewrite andb_comm, E0. done. }
    apply andb_true_iff in Ec as [Ec1%Z.leb_le Ec2%Z.leb_le].
    destruct (string2ll_loop (c0 - 48) s1) as [[w rest]|] eqn:El; [|done].
    destruct rest as [|? rest]; [|case_match; [done|zl]].
    change (0 <? zlen []) with false. cbn iota.
    pose proof (string2ll_loop_rest _ _ _ El) as Hp.
    rewrite string2ll_loop_digits in El by (unfold in_u; lia || done).
    destruct (Z.ltb_spec (digits_from (c0 - 48) s1) (2 ^ 64)); [|done].
    pose proof (digits_from_ge (c0 - 48) s1 ltac:(lia) Hp). injection El as <-.
    unfold LLONG_MAX. destruct (Z.ltb_spec (2 ^ 63 - 1) (digits_from (c0 - 48) s1)); [done|].
    intros [= <-]. rewrite swrap_id by (unfold in_s; lia). split; [|unfold in_s; lia].
    change (digits_from (c0 - 48) s1) with (digits_from 0 (c0 :: s1)). by constructor.
Qed.

(** [string2ll] returns 1 exactly on the canonical decimal numerals of 64 bit
    signed integers, and the value it stores is the one denoted: no leading zero,
    sign-only, "-0", trailing byte or out-of-range numeral is accepted. *)
Theorem string2ll_accepts_canonical s v :
  string2ll s = Some v <-> canon s v /\ in_s 64 v.
Proof.
  split; [apply string2ll_sound|]. intros [Hc Hv]. rewrite (canon_dec s v Hc Hv).
  by apply string2ll_dec.
Qed.

(** C21: Conversion is lossless in both directions. Into a buffer with room for the
    numeral and its terminator, [ll2string] stays in bounds, returns the length of
    a NUL-terminated text that [string2ll] reads back as the same number; and
    a text that [string2ll] accepts is reproduced byte for byte. *)
Theorem ll2string_string2ll_roundtrip dst dstlen v :
  in_s 64 v -> zlen dst = dstlen -> 21 <= dstlen ->
  exists dst' n post, ll2string dst dstlen v = Ok (dst', n) /\ 0 < n <= 20 /\
    zlen dst' = dstlen /\ dst' = ztake n dst' ++ 0 :: post /\
    string2ll (ztake n dst') = Some v /\
    (forall s, string2ll s = Some v -> s = ztake n dst').
Proof.
  intros Hv Hd Hr. pose proof (dec_len_le v Hv) as Hl.
  destruct (ll2string_ok dst dstlen v Hv Hd) as (post & E & Hp); [lia|].
  exists (dec v ++ 0 :: post), (zlen (dec v)), post.
  rewrite ztake_app by done. repeat split; [done|lia|lia|zl|by apply string2ll_dec|].
  intros s Hs. apply string2ll_sound in Hs as [Hc _]. by apply canon_dec.
Qed.

Lemma ll2string_string2ll_roundtrip_witness :
  exists dst' n post, ll2string (zrep 21 7) 21 (-9223372036854775808) = Ok (dst', n) /\
    0 < n <= 20 /\ zlen dst' = 21 /\ dst' = ztake n dst' ++ 0 :: post /\
    string2ll (ztake n dst') = Some (-9223372036854775808) /\
    (forall s, string2ll s = Some (-9223372036854775808) -> s = ztake n dst').
Proof. apply ll2string_string2ll_roundtrip; [unfold in_s; lia|reflexivity|lia]. Defined.
