(* ===== verification/Glob.v ===== *)
(** * Glob-style matching: [stringmatchlen] of src/redis-stable/src/util.c

    The pattern and the string are NUL-terminated buffers with an index and a
    remaining length each, as the C pointers and [int] counters; an index beyond
    the terminator is an out-of-bounds read. *)
From S2P Require Import Prelude.

Section Code.
Context (pat string : list Z) (nocase : bool).

(** [tolower((int)c)] on a [char]: bytes above 127 are negative and unchanged. *)
Definition fold_case (c : Z) : Z := if nocase then tolower c else c.
Definition same_char (a b : Z) : bool := fold_case a =? fold_case b.

(** The loop that moves to the last of a run of stars. *)
Fixpoint skip_stars (fuel : nat) (pi plen : Z) : res (Z * Z) :=
  match fuel with
  | O => Fault OutOfFuel
  | S fuel =>
    c ← cpeek pat (pi + 1);
    if c =? chr "*" then skip_stars fuel (pi + 1) (plen - 1) else Ok (pi, plen)
  end.

(** The loop that skips stars once the string is exhausted. *)
Fixpoint trailing_stars (fuel : nat) (pi plen : Z) : res Z :=
  match fuel with
  | O => Fault OutOfFuel
  | S fuel =>
    c ← cpeek pat pi;
    if c =? chr "*" then trailing_stars fuel (pi + 1) (plen - 1) else Ok plen
  end.

(** Membership of [c = string[0]] in the range [pattern[0]-pattern[2]]. *)
Definition in_range (start stop c : Z) : bool :=
  let lo := Z.min (i8 start) (i8 stop) in
  let hi := Z.max (i8 start) (i8 stop) in
  let c := fold_case (i8 c) in
  (fold_case lo <=? c) && (c <=? fold_case hi).

(** The [while (1)] loop over a bracket expression. The result is the pattern position when the loop breaks, and [match]. *)
Fixpoint class_loop (fuel : nat) (pi plen si : Z) (mat : bool) : res (Z * Z * bool) :=
  match fuel with
  | O => Fault OutOfFuel
  | S fuel =>
    p0 ← cpeek pat pi;
    if p0 =? chr "\" then
      p1 ← cpeek pat (pi + 1);
      s0 ← cpeek string si;
      class_loop fuel (pi + 2) (plen - 2) si (mat || (p1 =? s0))
    else if p0 =? chr "]" then Ok (pi, plen, mat)
    else if plen =? 0 then Ok (pi - 1, plen + 1, mat)
    else
      p1 ← cpeek pat (pi + 1);
      if (p1 =? chr "-") && (3 <=? plen) then
        p2 ← cpeek pat (pi + 2);
        s0 ← cpeek string si;
        class_loop fuel (pi + 3) (plen - 3) si (mat || in_range p0 p2 s0)
      else
        s0 ← cpeek string si;
        class_loop fuel (pi + 1) (plen - 1) si (mat || same_char p0 s0)
  end.

(** The string loop of the star case: [rest si slen] is the recursive call on
    the pattern after the star. *)
Fixpoint star_loop (rest : Z -> Z -> res bool) (fuel : nat) (si slen : Z) : res bool :=
  match fuel with
  | O => Fault OutOfFuel
  | S fuel =>
    if slen =? 0 then Ok false
    else b ← rest si slen;
         if b : bool then Ok true else star_loop rest fuel (si + 1) (slen - 1)
  end.

(** The code after the [switch]: advance the pattern, leave the loop when the
    string is exhausted, otherwise go round again ([again]). *)
Definition advance (again : Z -> Z -> Z -> Z -> res bool) (fuel : nat)
    (pi plen si slen : Z) : res bool :=
  let pi := pi + 1 in
  let plen := plen - 1 in
  if slen =? 0 then
    plen ← trailing_stars fuel pi plen;
    Ok ((plen =? 0) && (slen =? 0))
  else again pi plen si slen.

Definition literal (again : Z -> Z -> Z -> Z -> res bool) (fuel : nat)
    (pi plen si slen : Z) : res bool :=
  p0 ← cpeek pat pi;
  s0 ← cpeek string si;
  if negb (same_char p0 s0) then Ok false
  else advance again fuel pi plen (si + 1) (slen - 1).

Fixpoint stringmatchlen_go (fuel : nat) (pi plen si slen : Z) : res bool :=
  match fuel with
  | O => Fault OutOfFuel
  | S fuel =>
    if plen =? 0 then Ok ((plen =? 0) && (slen =? 0))
    else
      p0 ← cpeek pat pi;
      if p0 =? chr "*" then
        '(pi, plen) ← skip_stars fuel pi plen;
        if plen =? 1 then Ok true
        else star_loop (stringmatchlen_go fuel (pi + 1) (plen - 1)) fuel si slen
      else if p0 =? chr "?" then
        if slen =? 0 then Ok false
        else advance (stringmatchlen_go fuel) fuel pi plen (si + 1) (slen - 1)
      else if p0 =? chr "[" then
        let pi := pi + 1 in
        let plen := plen - 1 in
        p1 ← cpeek pat pi;
        let neg := p1 =? chr "^" in
        '(pi, plen, mat) ← class_loop fuel (if neg then pi + 1 else pi)
                             (if neg then plen - 1 else plen) si false;
        if negb (xorb neg mat) then Ok false
        else advance (stringmatchlen_go fuel) fuel pi plen (si + 1) (slen - 1)
      else if p0 =? chr "\" then
        if 2 <=? plen then literal (stringmatchlen_go fuel) fuel (pi + 1) (plen - 1) si slen
        else literal (stringmatchlen_go fuel) fuel pi plen si slen
      else literal (stringmatchlen_go fuel) fuel pi plen si slen
  end.

(** Every recursive call and every round of a loop consumes pattern or string. *)
Definition stringmatchlen : res bool :=
  stringmatchlen_go (length pat + length string + 2) 0 (zlen pat) 0 (zlen string).
End Code.


(** ** What a pattern means *)

Section Spec.
Context (nocase : bool).

(** A bracket expression after its "[" (and "^") against the character [c]: whether
    some member matched, and the pattern after the closing bracket. [None]: the
    pattern ends in a backslash inside the brackets. *)
Fixpoint class_spec (p : list Z) (c : Z) (m : bool) : option (bool * list Z) :=
  match p with
  | [] => Some (m, [])
  | a :: p1 =>
    if a =? chr "\" then
      match p1 with
      | [] => None
      | e :: p2 => class_spec p2 c (m || (e =? c))
      end
    else if a =? chr "]" then Some (m, p1)
    else
      match p1 with
      | d :: ((b :: p3) as p2) =>
        if d =? chr "-" then class_spec p3 c (m || in_range nocase a b c)
        else class_spec p1 c (m || same_char nocase a c)
      | _ => class_spec p1 c (m || same_char nocase a c)
      end
  end.

Definition class_neg (p : list Z) : bool :=
  match p with a :: _ => a =? chr "^" | [] => false end.
Definition class_body (p : list Z) : list Z :=
  if class_neg p then tail p else p.

Definition special (x : Z) : bool :=
  (x =? chr "*") || (x =? chr "?") || (x =? chr "[") || (x =? chr "\").

Inductive glob : list Z -> list Z -> Prop :=
| glob_end : glob [] []
| glob_star_none p s : glob p s -> glob (chr "*" :: p) s
| glob_star_one p c s : glob (chr "*" :: p) s -> glob (chr "*" :: p) (c :: s)
| glob_any p c s : glob p s -> glob (chr "?" :: p) (c :: s)
| glob_class p c m rest s :
    class_spec (class_body p) c false = Some (m, rest) -> xorb (class_neg p) m = true ->
    glob rest s -> glob (chr "[" :: p) (c :: s)
| glob_escape e p c s : same_char nocase e c = true -> glob p s ->
    glob (chr "\" :: e :: p) (c :: s)
| glob_literal x p c s : special x = false -> same_char nocase x c = true -> glob p s ->
    glob (x :: p) (c :: s).
End Spec.

Lemma glob_nil_stars nc p : glob nc p [] <-> Forall (eq (chr "*")) p.
Proof.
  split.
  - remember [] as s eqn:Es. induction 1; try done; constructor; eauto.
  - induction 1; subst; by constructor.
Qed.

Lemma glob_star_star nc p s : glob nc (chr "*" :: chr "*" :: p) s <-> glob nc (chr "*" :: p) s.
Proof.
  split.
  - remember (chr "*" :: chr "*" :: p) as q eqn:Eq. intros H.
    induction H; try (inversion Eq; subst; clear Eq); try done.
    apply glob_star_one. eauto.
  - by apply glob_star_none.
Qed.

Lemma glob_star_inv nc p s :
  glob nc (chr "*" :: p) s <-> glob nc p s \/ exists c s', s = c :: s' /\ glob nc (chr "*" :: p) s'.
Proof.
  split.
  - inversion 1; subst; try done; eauto.
  - intros [|(c & s' & -> & ?)]; by constructor.
Qed.

(** A pattern that does not end in a backslash keeps every bracket well formed. *)
Definition no_final_backslash (p : list Z) : Prop := forall a, p <> a ++ [chr "\"].

Lemma nfb_suffix a p : no_final_backslash (a ++ p) -> no_final_backslash p.
Proof. intros H b ->. apply (H (a ++ b)). by rewrite app_assoc. Qed.
Lemma nfb_cons x p : no_final_backslash (x :: p) -> no_final_backslash p.
Proof. apply (nfb_suffix [x]). Qed.

Lemma class_spec_some nc p c m :
  no_final_backslash p ->
  exists m' rest used, class_spec nc p c m = Some (m', rest) /\ p = used ++ rest.
Proof.
  remember (length p) as n eqn:Hn. revert p Hn m.
  induction (lt_wf n) as [n _ IH]. intros p Hn m Hp.
  assert (forall k q m', p = k ++ q -> k <> [] ->
    exists m'' rest used, class_spec nc q c m' = Some (m'', rest) /\ p = used ++ rest) as IH'.
  { intros k q m' -> Hk. destruct (IH (length q)) with (p := q) (m := m')
      as (m2 & rest & used & E & ->); [|done|by apply (nfb_suffix k)|].
    - subst n. rewrite length_app. destruct k; [done|simpl; lia].
    - exists m2, rest, (k ++ used). split; [done|]. by rewrite <- app_assoc. }
  destruct p as [|a p1]; cbn [class_spec]; [by exists m, [], []|].
  destruct (Z.eqb_spec a 92) as [->|Ha].
  { destruct p1 as [|e p2]; [by destruct (Hp [])|]. by apply (IH' [92; e]). }
  destruct (Z.eqb_spec a 93) as [->|Hb]; [by exists m, p1, [93]|].
  destruct p1 as [|d [|b p3]]; [by apply (IH' [a])..|].
  destruct (d =? 45); [by apply (IH' [a; d; b])|by apply (IH' [a])].
Qed.

(** ** The loops, on the unread suffixes of the two buffers *)

Definition hd0 (p : list Z) : Z := match p with [] => 0 | a :: _ => a end.

Lemma cpeek_hd pre p i : i = zlen pre -> cpeek (pre ++ p) i = Ok (hd0 p).
Proof.
  intros ->. destruct p as [|a p]; simpl.
  - rewrite app_nil_r. by apply cpeek_end.
  - by apply cpeek_app.
Qed.

Lemma cpeek_next pre a p i : i = zlen pre + 1 -> cpeek (pre ++ a :: p) i = Ok (hd0 p).
Proof. intros ->. rewrite cons_middle, app_assoc. apply cpeek_hd. zl. Qed.

Lemma skip_stars_ok fuel pre p plen :
  (length p < fuel)%nat -> plen = zlen p + 1 ->
  exists pre' q, skip_stars (pre ++ chr "*" :: p) fuel (zlen pre) plen = Ok (zlen pre', zlen q + 1)
    /\ pre ++ chr "*" :: p = pre' ++ chr "*" :: q /\ hd0 q <> chr "*" /\
    (exists k, p = k ++ q) /\
    (forall nc s, glob nc (chr "*" :: p) s <-> glob nc (chr "*" :: q) s).
Proof.
  revert pre p plen. induction fuel as [|fuel IH]; intros pre p plen Hf ->; [lia|].
  cbn [skip_stars]. rewrite cpeek_next by done. cbn [mbind res_bind].
  destruct (Z.eqb_spec (hd0 p) 42) as [E|E].
  - destruct p as [|a p]; [done|]. simpl in E, Hf. subst a.
    destruct (IH (pre ++ [42]) p (zlen p + 1)) as (pre' & q & E & Ep & Hq & [k Hk] & Hg); [lia|done|].
    exists pre', q. rewrite <- app_assoc in E, Ep. cbn [app] in E, Ep.
    replace (zlen pre + 1) with (zlen (pre ++ [42])) by zl.
    replace (zlen (42 :: p) + 1 - 1) with (zlen p + 1) by zl.
    repeat split; [done|done|done|by exists (42 :: k); rewrite Hk|..].
    + intros H. by apply Hg, glob_star_star.
    + intros H. by apply glob_star_star, Hg.
  - exists pre, p. repeat split; try done. by exists [].
Qed.

Lemma trailing_stars_ok fuel pre p :
  (length p < fuel)%nat ->
  exists n, trailing_stars (pre ++ p) fuel (zlen pre) (zlen p) = Ok n /\
    ((n =? 0) = true <-> Forall (eq (chr "*")) p).
Proof.
  revert pre p. induction fuel as [|fuel IH]; intros pre p Hf; [lia|].
  cbn [trailing_stars]. rewrite cpeek_hd by done. cbn [mbind res_bind].
  destruct (Z.eqb_spec (hd0 p) 42) as [E|E].
  - destruct p as [|a p]; [done|]. simpl in E, Hf. subst a.
    destruct (IH (pre ++ [42]) p) as (n & En & Hn); [lia|].
    exists n. rewrite <- app_assoc in En. cbn [app] in En.
    replace (zlen pre + 1) with (zlen (pre ++ [42])) by zl.
    replace (zlen (42 :: p) - 1) with (zlen p) by zl. split; [done|].
    rewrite Hn. split; [by constructor|by inversion 1].
  - exists (zlen p). split; [done|]. rewrite Z.eqb_eq. split.
    + intros ->%zlen_0_nil. constructor.
    + destruct 1; [done|]. by subst.
Qed.

Lemma star_loop_ok rest fuel pre s (P : list Z -> Prop) :
  (length s < fuel)%nat -> ~ P [] ->
  (forall a c s', s = a ++ c :: s' -> exists b : bool,
     rest (zlen (pre ++ a)) (zlen (c :: s')) = Ok b /\ (b = true <-> P (c :: s'))) ->
  exists b, star_loop rest fuel (zlen pre) (zlen s) = Ok b /\
    (b = true <-> exists a s', s = a ++ s' /\ P s').
Proof.
  intros Hf HP. revert pre s Hf. induction fuel as [|fuel IH]; intros pre s Hf Hr; [lia|].
  cbn [star_loop]. destruct s as [|c s]; cbn [length] in Hf.
  { exists false. split; [done|]. split; [done|].
    intros (a & s' & E & HP'). symmetry in E. apply app_nil in E as [-> ->]. done. }
  rewrite (proj2 (Z.eqb_neq _ _)) by zl.
  destruct (Hr [] c s eq_refl) as (b & Eb & Hb). rewrite app_nil_r in Eb. rewrite Eb.
  cbn [mbind res_bind]. destruct b.
  { exists true. split; [done|]. split; [|done]. intros _. exists [], (c :: s). tauto. }
  destruct (IH (pre ++ [c]) s) as (b & E & Hb'); [lia|..].
  { intros a x s' ->. destruct (Hr (c :: a) x s' eq_refl) as (b & E & H).
    exists b. rewrite <- app_assoc. done. }
  exists b. replace (zlen pre + 1) with (zlen (pre ++ [c])) by zl.
  replace (zlen (c :: s) - 1) with (zlen s) by zl. split; [done|]. rewrite Hb'. split.
  - intros (a & s' & -> & H). by exists (c :: a), s'.
  - intros ([|x a] & s' & E' & H); simpl in E'.
    + subst s'. by apply Hb in H.
    + injection E' as -> ->. by exists a, s'.
Qed.

Lemma glob_star_suffix nc p s :
  glob nc (chr "*" :: p) s <-> exists a s', s = a ++ s' /\ glob nc p s'.
Proof.
  split.
  - induction s as [|c s IH]; rewrite glob_star_inv.
    + intros [H|(? & ? & ? & _)]; [by exists [], []|done].
    + intros [H|(c' & s' & [= <- <-] & H)]; [by exists [], (c :: s)|].
      destruct (IH H) as (a & s' & -> & H'). by exists (c :: a), s'.
  - intros (a & s' & -> & H). induction a; simpl; by constructor.
Qed.


Lemma class_loop_ok nc fuel pre p spre c s m :
  (length p < fuel)%nat -> no_final_backslash p ->
  exists pi m' used rest,
    class_loop (pre ++ p) (spre ++ c :: s) nc fuel (zlen pre) (zlen p) (zlen spre) m
      = Ok (pi, zlen rest + 1, m') /\
    class_spec nc p c m = Some (m', rest) /\ p = used ++ rest /\ pi + 1 = zlen (pre ++ used).
Proof.
  revert pre p m. induction fuel as [|fuel IH]; intros pre p m Hf Hp; [lia|].
  assert (forall k q m' pi plen, p = k ++ q -> k <> [] ->
    pi = zlen pre + zlen k -> plen = zlen p - zlen k ->
    exists pi' m'' used rest,
      class_loop (pre ++ p) (spre ++ c :: s) nc fuel pi plen (zlen spre) m'
        = Ok (pi', zlen rest + 1, m'') /\
      class_spec nc q c m' = Some (m'', rest) /\ p = used ++ rest /\
      pi' + 1 = zlen (pre ++ used)) as IH'.
  { intros k q m' pi plen -> Hk -> ->. destruct (IH (pre ++ k) q m')
      as (pi & m2 & used & rest & E & Es & -> & Hpi); [|by apply (nfb_suffix k)|].
    { rewrite length_app in Hf. destruct k; [done|]. simpl in Hf. lia. }
    exists pi, m2, (k ++ used), rest. rewrite app_assoc.
    replace (zlen pre + zlen k) with (zlen (pre ++ k)) by zl.
    replace (zlen (k ++ used ++ rest) - zlen k) with (zlen (used ++ rest)) by zl.
    rewrite (app_assoc k used), <- (app_assoc pre) in *. by repeat split. }
  cbn [class_loop]. rewrite (cpeek_hd pre p (zlen pre) eq_refl).
  rewrite !(cpeek_hd spre (c :: s) (zlen spre) eq_refl). cbn [mbind res_bind].
  destruct p as [|a p1].
  { exists (zlen pre - 1), m, [], []. rewrite app_nil_r. simpl. repeat split; [done..|lia]. }
  rewrite !(cpeek_next pre a p1 (zlen pre + 1) eq_refl). cbn [mbind res_bind class_spec hd0].
  destruct (Z.eqb_spec a 92) as [->|Ha].
  { destruct p1 as [|e p2]; [by destruct (Hp [])|]. apply (IH' [92; e]); [done..|zl]. }
  destruct (Z.eqb_spec a 93) as [->|Hb].
  { exists (zlen pre), m, [93], p1. repeat split; [f_equal; f_equal; f_equal; zl|zl]. }
  rewrite (proj2 (Z.eqb_neq _ 0)) by zl.
  destruct p1 as [|d [|b p3]].
  - cbn [hd0]. rewrite andb_false_l. by apply (IH' [a]).
  - replace (3 <=? _) with false by zl. rewrite andb_false_r. apply (IH' [a]); [done..|zl].
  - replace (3 <=? _) with true by zl. rewrite andb_true_r. cbn [hd0].
    destruct (Z.eqb_spec d 45) as [->|Hd].
    + rewrite (cons_middle a), (cons_middle 45), !app_assoc.
      rewrite cpeek_hd by zl. rewrite <- !app_assoc. cbn [mbind res_bind hd0].
      apply (IH' [a; 45; b]); [done..|zl].
    + apply (IH' [a]); [done..|zl].
Qed.

(** What a matching function decides on the suffixes [p] and [s]. *)
Definition decides (nc : bool) (p s : list Z) (r : res bool) : Prop :=
  exists b, r = Ok b /\ (b = true <-> glob nc p s).

Lemma decides_iff nc p s p' s' r :
  (glob nc p s <-> glob nc p' s') -> decides nc p s r -> decides nc p' s' r.
Proof. intros H (b & E & Hb). exists b. split; [done|]. by rewrite Hb. Qed.

Lemma decides_false nc p s : ~ glob nc p s -> decides nc p s (Ok false).
Proof. intros. exists false. by split. Qed.

Lemma advance_ok nc again fuel (pre p spre s : list Z) pi plen si slen :
  (s <> [] -> decides nc p s (again (zlen pre) (zlen p) (zlen spre) (zlen s))) ->
  (length p < fuel)%nat -> pi + 1 = zlen pre -> plen - 1 = zlen p ->
  si = zlen spre -> slen = zlen s ->
  decides nc p s (advance (pre ++ p) again fuel pi plen si slen).
Proof.
  intros Ha Hf Hpi Hpl -> ->. unfold advance. rewrite Hpi, Hpl. destruct s as [|c s].
  - change (zlen (@nil Z) =? 0) with true. cbn iota.
    destruct (trailing_stars_ok fuel pre p Hf) as (n & -> & Hn). cbn [mbind res_bind].
    exists ((n =? 0) && true). split; [done|]. by rewrite andb_true_r, Hn, glob_nil_stars.
  - rewrite (proj2 (Z.eqb_neq _ 0)) by zl. by apply Ha.
Qed.

Lemma literal_ok nc again fuel pre x p spre c (s : list Z) pi plen si slen :
  (s <> [] -> decides nc p s (again (zlen (pre ++ [x])) (zlen p) (zlen (spre ++ [c])) (zlen s))) ->
  (length p < fuel)%nat -> pi = zlen pre -> plen - 1 = zlen p ->
  si = zlen spre -> slen = zlen s + 1 ->
  exists b, literal (pre ++ x :: p) (spre ++ c :: s) nc again fuel pi plen si slen = Ok b /\
    (b = true <-> same_char nc x c = true /\ glob nc p s).
Proof.
  intros Ha Hf -> Hp -> ->. unfold literal. rewrite !cpeek_app by done. cbn [mbind res_bind].
  destruct (same_char nc x c); cbn [negb].
  2: { exists false. split; [done|]. split; [done|]. by intros [? _]. }
  destruct (advance_ok nc again fuel (pre ++ [x]) p (spre ++ [c]) s (zlen pre) plen
    (zlen spre + 1) (zlen s + 1 - 1) Ha Hf) as (b & E & Hb); [zl..|].
  rewrite <- app_assoc in E. cbn [app] in E. exists b. split; [done|]. rewrite Hb. tauto.
Qed.

Lemma glob_not_star_nil nc p : hd0 p <> chr "*" -> p <> [] -> ~ glob nc p [].
Proof.
  intros Hp Hn H. apply glob_nil_stars in H. destruct H; [done|]. by subst.
Qed.

(** The recursive calls of [stringmatchlen_go], as an hypothesis of its cases. *)
Definition calls_ok (nc : bool) (fuel : nat) (p s : list Z) : Prop :=
  forall pre q spre s', (length q < length p)%nat -> (length s' <= length s)%nat -> s' <> [] ->
    no_final_backslash q ->
    decides nc q s' (stringmatchlen_go (pre ++ q) (spre ++ s') nc fuel
      (zlen pre) (zlen q) (zlen spre) (zlen s')).

Lemma star_case nc fuel pre p spre s :
  calls_ok nc fuel (chr "*" :: p) s -> no_final_backslash p ->
  (length p < fuel)%nat -> (length s < fuel)%nat ->
  decides nc (chr "*" :: p) s
    ('(pi, plen) ← skip_stars (pre ++ chr "*" :: p) fuel (zlen pre) (zlen p + 1);
     if plen =? 1 then Ok true
     else star_loop (stringmatchlen_go (pre ++ chr "*" :: p) (spre ++ s) nc fuel
                       (pi + 1) (plen - 1)) fuel (zlen spre) (zlen s)).
Proof.
  intros IH Hp Hf Hfs.
  destruct (skip_stars_ok fuel pre p (zlen p + 1)) as (pre' & q & E & Ep & Hq & [k Hk] & Hg);
    [lia|done|].
  rewrite E. cbn [mbind res_bind]. eapply decides_iff; [symmetry; apply Hg|].
  destruct (Z.eqb_spec (zlen q + 1) 1) as [Hq0|Hq0].
  { assert (q = []) as -> by (apply zlen_0_nil; lia). exists true. split; [done|].
    split; [|done]. intros _. apply glob_star_suffix. exists s, [].
    rewrite app_nil_r. by repeat constructor. }
  destruct (star_loop_ok (stringmatchlen_go (pre ++ 42 :: p) (spre ++ s) nc fuel
    (zlen pre' + 1) (zlen q + 1 - 1)) fuel spre s (glob nc q)) as (b & Eb & Hb).
  - done.
  - apply glob_not_star_nil; [done|]. by intros ->.
  - intros k' x s' Es. rewrite Es, Ep, (cons_middle 42), app_assoc, (app_assoc spre k').
    replace (zlen pre' + 1) with (zlen (pre' ++ [42])) by zl.
    replace (zlen q + 1 - 1) with (zlen q) by zl. apply IH; [..|done|].
    + subst p. rewrite length_app in *. cbn [length]. rewrite length_app. lia.
    + subst s. rewrite length_app. cbn [length]. lia.
    + subst p. by apply (nfb_suffix k).
  - exists b. split; [done|]. by rewrite Hb, glob_star_suffix.
Qed.

Lemma advance_calls nc fuel pre p pre' q spre c s pi plen si slen :
  calls_ok nc fuel p (c :: s) -> pre ++ p = pre' ++ q -> (length q < length p)%nat ->
  no_final_backslash q -> (length q < fuel)%nat ->
  pi + 1 = zlen pre' -> plen - 1 = zlen q -> si = zlen spre + 1 -> slen = zlen s ->
  decides nc q s (advance (pre ++ p)
    (stringmatchlen_go (pre ++ p) (spre ++ c :: s) nc fuel) fuel pi plen si slen).
Proof.
  intros IH E Hl Hq Hf Hpi Hpl -> ->. rewrite E, (cons_middle c), (app_assoc spre).
  apply (advance_ok nc _ _ pre' q (spre ++ [c]) s); [|done..|zl|done].
  intros Hs. apply IH; [done|simpl; lia|done|done].
Qed.

Lemma class_case nc fuel pre p spre c s :
  calls_ok nc fuel (chr "[" :: p) (c :: s) -> no_final_backslash p -> (length p < fuel)%nat ->
  decides nc (chr "[" :: p) (c :: s)
    ('(pi, plen, mat) ← class_loop (pre ++ chr "[" :: p) (spre ++ c :: s) nc fuel
        (if hd0 p =? chr "^" then zlen pre + 1 + 1 else zlen pre + 1)
        (if hd0 p =? chr "^" then zlen p - 1 else zlen p) (zlen spre) false;
     if negb (xorb (hd0 p =? chr "^") mat) then Ok false
     else advance (pre ++ chr "[" :: p)
            (stringmatchlen_go (pre ++ chr "[" :: p) (spre ++ c :: s) nc fuel) fuel
            pi plen (zlen spre + 1) (zlen s)).
Proof.
  intros IH Hp Hf. assert ((hd0 p =? 94) = class_neg p) as -> by by destruct p.
  assert (exists k, p = k ++ class_body p /\ zlen k = if class_neg p then 1 else 0)
    as (k & Ek & Hk).
  { unfold class_body. destruct (class_neg p) eqn:En; [|by exists []].
    destruct p as [|x p]; [done|]. by exists [x]. }
  assert (length (class_body p) <= length p)%nat as Hb by (rewrite Ek at 2; rewrite length_app; lia).
  destruct (class_loop_ok nc fuel (pre ++ 91 :: k) (class_body p) spre c s false)
    as (pi & m & used & rest & E & Es & Eu & Hpi); [lia|rewrite Ek in Hp; by eapply nfb_suffix|].
  replace (pre ++ 91 :: p) with ((pre ++ 91 :: k) ++ class_body p)
    by (rewrite Ek at 2; by rewrite <- app_assoc).
  replace (if class_neg p then zlen pre + 1 + 1 else zlen pre + 1) with (zlen (pre ++ 91 :: k))
    by (destruct (class_neg p); zl).
  replace (if class_neg p then zlen p - 1 else zlen p) with (zlen (class_body p))
    by (apply (f_equal zlen) in Ek; rewrite zlen_app in Ek; destruct (class_neg p); lia).
  rewrite E. cbn [mbind res_bind].
  destruct (xorb (class_neg p) m) eqn:Ex; cbn [negb].
  2: { apply decides_false. inversion 1; subst; [|done]. congruence. }
  eapply decides_iff; [split|].
  - intros H. by eapply glob_class.
  - inversion 1; subst; [|done]. congruence.
  - replace ((pre ++ 91 :: k) ++ class_body p) with (pre ++ 91 :: p)
      by (rewrite Ek at 1; by rewrite <- app_assoc).
    assert (pre ++ 91 :: p = ((pre ++ 91 :: k) ++ used) ++ rest) as Ep
      by (rewrite <- (app_assoc (pre ++ 91 :: k)), <- Eu; rewrite Ek at 1; by rewrite <- app_assoc).
    assert (length rest <= length p)%nat by (rewrite Ek, Eu, !length_app; lia).
    eapply advance_calls; [done|exact Ep|simpl; lia| |lia|done|lia|done|done].
    rewrite Ek, Eu in Hp. by do 2 eapply nfb_suffix.
Qed.

Lemma escape_or_literal_case nc fuel pre x p spre c s k (G : Prop) :
  calls_ok nc fuel (k ++ x :: p) (c :: s) -> no_final_backslash p -> (length p < fuel)%nat ->
  (G <-> same_char nc x c = true /\ glob nc p s) ->
  exists b, literal (pre ++ k ++ x :: p) (spre ++ c :: s) nc
    (stringmatchlen_go (pre ++ k ++ x :: p) (spre ++ c :: s) nc fuel) fuel
    (zlen pre + zlen k) (zlen p + 1) (zlen spre) (zlen s + 1) = Ok b /\ (b = true <-> G).
Proof.
  intros IH Hp Hf HG. rewrite (app_assoc pre).
  destruct (literal_ok nc (stringmatchlen_go ((pre ++ k) ++ x :: p) (spre ++ c :: s) nc fuel)
    fuel (pre ++ k) x p spre c s (zlen pre + zlen k) (zlen p + 1) (zlen spre) (zlen s + 1))
    as (b & E & Hb); [|done|zl..|].
  - intros Hs. rewrite (cons_middle x), (cons_middle c), (app_assoc (pre ++ k)), (app_assoc spre).
    apply IH; [rewrite length_app; simpl; lia|simpl; lia|done|done].
  - exists b. split; [done|]. by rewrite Hb, HG.
Qed.

Lemma stringmatchlen_go_ok nc fuel pre p spre (s : list Z) :
  s <> [] -> no_final_backslash p -> (length p + length s < fuel)%nat ->
  decides nc p s (stringmatchlen_go (pre ++ p) (spre ++ s) nc fuel
    (zlen pre) (zlen p) (zlen spre) (zlen s)).
Proof.
  revert pre p spre s. induction fuel as [|fuel IH]; intros pre p spre s Hs Hp Hf; [lia|].
  assert (calls_ok nc fuel p s) as Hc.
  { intros pre' q spre' s' ????. apply IH; [done..|lia]. }
  clear IH. cbn [stringmatchlen_go]. destruct p as [|a p].
  { change (zlen (@nil Z) =? 0) with true. cbn iota. cbn [andb].
    rewrite (proj2 (Z.eqb_neq (zlen s) 0)) by (destruct s; [done|zl]).
    apply decides_false. by inversion 1. }
  rewrite (proj2 (Z.eqb_neq _ 0)) by zl. rewrite (cpeek_app pre a p (zlen pre) eq_refl).
  cbn [mbind res_bind]. destruct s as [|c s]; [done|]. cbn [length] in Hf.
  rewrite !zlen_cons, !Z.add_simpl_r. pose proof (nfb_cons a p Hp) as Hp'.
  destruct (Z.eqb_spec a 42) as [->|H1].
  { rewrite <- (zlen_cons c s). apply star_case; [done|done|lia|simpl; lia]. }
  destruct (Z.eqb_spec a 63) as [->|H2].
  { rewrite (proj2 (Z.eqb_neq (zlen s + 1) 0)) by zl. eapply decides_iff; [split|].
    - apply glob_any.
    - by inversion 1.
    - eapply advance_calls; [done|by rewrite (cons_middle 63), app_assoc|simpl; lia|done|lia|zl|zl|done|done]. }
  destruct (Z.eqb_spec a 91) as [->|H3].
  { rewrite (cpeek_next pre 91 p (zlen pre + 1) eq_refl). cbn [mbind res_bind].
    apply class_case; [done|done|lia]. }
  destruct (Z.eqb_spec a 92) as [->|H4].
  - destruct p as [|e p]; [by destruct (Hp [])|].
    rewrite (proj2 (Z.leb_le 2 _)) by zl. cbn [length] in Hf.
    rewrite !zlen_cons. apply (escape_or_literal_case nc fuel pre e p spre c s [92]);
      [done|by eapply nfb_cons|lia|].
    split; [by inversion 1|]. intros [??]. by constructor.
  - rewrite <- (Z.add_0_r (zlen pre)).
    apply (escape_or_literal_case nc fuel pre a p spre c s []); [done|done|lia|].
    assert (special a = false) as Hsp by (unfold special; lia).
    split; [|intros [??]; by constructor]. inversion 1; subst; done.
Qed.

(** C22: On a non-empty string and a pattern that does not end in a backslash,
    [stringmatchlen] reads both buffers only up to their terminators, terminates,
    and returns 1 exactly when the pattern denotes the string: stars, question
    marks, bracket classes with ranges and negation, escapes and case folding. *)
Theorem stringmatchlen_correct nocase pat string :
  string <> [] -> no_final_backslash pat ->
  exists b, stringmatchlen pat string nocase = Ok b /\ (b = true <-> glob nocase pat string).
Proof.
  intros Hs Hp. apply (stringmatchlen_go_ok nocase _ [] pat [] string); [done|done|lia].
Qed.

Lemma stringmatchlen_correct_witness :
  exists b, stringmatchlen (str "h[^a-c]?l*\*") (str "hexl99*") false = Ok b /\
    (b = true <-> glob false (str "h[^a-c]?l*\*") (str "hexl99*")).
Proof.
  apply stringmatchlen_correct; [done|]. intros a E. apply (f_equal (@rev Z)) in E.
  rewrite rev_app_distr in E. vm_compute in E. discriminate.
Defined.

(** Against the empty string the code departs from the pattern language: the
    bracket and default cases consume a character without testing the remaining
    length. [[^a]*] is reported to match the empty string although a class needs
    one character, and [[^a]*b] goes on to read past the end of the string; a
    class left open by a final backslash reads past the end of the pattern. *)
Theorem stringmatchlen_end_of_string_faults :
  stringmatchlen (str "[^a]*") [] false = Ok true /\ ~ glob false (str "[^a]*") [] /\
  stringmatchlen (str "[^a]*b") [] false = Fault OutOfBounds /\
  stringmatchlen (str "[\") (str "a") false = Fault OutOfBounds.
Proof.
  split; [reflexivity|]. split; [|by split].
  intros H%glob_nil_stars. by inversion H.
Qed.
