(* ===== verification/Intset.v ===== *)
(** * Integer sets: src/redis-stable/src/intset.c

    The blob is modelled byte for byte on a little endian host, where the
    [memrev*ifbe] and [intrev32ifbe] macros are the identity. *)
From stdpp Require Import gmap.
From S2P Require Import Prelude.
From Stdlib Require Import Sorted.

Module Intset.

Definition INTSET_ENC_INT16 : Z := 2.
Definition INTSET_ENC_INT32 : Z := 4.
Definition INTSET_ENC_INT64 : Z := 8.

(** [struct intset]; [contents] is the flexible array, as large as allocated. *)
Record intset := mk_intset { encoding : Z; length : Z; contents : list Z }.

Definition set_contents (iset : intset) (c : list Z) : intset :=
  mk_intset (encoding iset) (length iset) c.
Definition set_length (iset : intset) (n : Z) : intset :=
  mk_intset (encoding iset) n (contents iset).
Definition set_encoding (iset : intset) (e : Z) : intset :=
  mk_intset e (length iset) (contents iset).

Definition INT16_MIN : Z := - 2 ^ 15.
Definition INT16_MAX : Z := 2 ^ 15 - 1.
Definition INT32_MIN : Z := - 2 ^ 31.
Definition INT32_MAX : Z := 2 ^ 31 - 1.

Definition _intsetValueEncoding (v : Z) : Z :=
  if (v <? INT32_MIN) || (INT32_MAX <? v) then INTSET_ENC_INT64
  else if (v <? INT16_MIN) || (INT16_MAX <? v) then INTSET_ENC_INT32
  else INTSET_ENC_INT16.

Definition _intsetGetEncoded (iset : intset) (pos enc : Z) : res Z :=
  if enc =? INTSET_ENC_INT64 then
    v64 ← rd (contents iset) (pos * 8) 8; Ok (i64 (le_val v64))
  else if enc =? INTSET_ENC_INT32 then
    v32 ← rd (contents iset) (pos * 4) 4; Ok (i32 (le_val v32))
  else
    v16 ← rd (contents iset) (pos * 2) 2; Ok (i16 (le_val v16)).

Definition _intsetGet (iset : intset) (pos : Z) : res Z :=
  _intsetGetEncoded iset pos (encoding iset).

Definition _intsetSet (iset : intset) (pos value : Z) : res intset :=
  c ← (if encoding iset =? INTSET_ENC_INT64 then wr (contents iset) (pos * 8) (le_bytes 8 value)
       else if encoding iset =? INTSET_ENC_INT32 then wr (contents iset) (pos * 4) (le_bytes 4 value)
       else wr (contents iset) (pos * 2) (le_bytes 2 value));
  Ok (set_contents iset c).

Definition intsetNew : intset := mk_intset INTSET_ENC_INT16 0 [].

Section Alloc.
(** The contents of freshly allocated memory. *)
Context (junk : Z -> Z).

Definition intsetResize (iset : intset) (len : Z) : intset :=
  let size := u32 (len * encoding iset) in
  set_contents iset (zrealloc junk (contents iset) size).

(** The bisection loop; it leaves [min], [mid] and [cur]. *)
Fixpoint intsetSearch_loop (fuel : nat) (iset : intset) (value min max mid cur : Z)
    : res (Z * Z * Z) :=
  match fuel with
  | O => Fault OutOfFuel
  | S fuel =>
    if min <=? max then
      let mid := i32 (Z.shiftr (u32 (u32 min + u32 max)) 1) in
      cur ← _intsetGet iset mid;
      if cur <? value then intsetSearch_loop fuel iset value (i32 (mid + 1)) max mid cur
      else if value <? cur then intsetSearch_loop fuel iset value min (i32 (mid - 1)) mid cur
      else Ok (min, mid, cur)
    else Ok (min, mid, cur)
  end.

(** The return value and the position stored through [pos]. *)
Definition intsetSearch (iset : intset) (value : Z) : res (bool * Z) :=
  let max := i32 (length iset - 1) in
  if length iset =? 0 then Ok (false, 0) else
  last ← _intsetGet iset (i32 (u32 (length iset - 1)));
  if last <? value then Ok (false, length iset) else
  first ← _intsetGet iset 0;
  if value <? first then Ok (false, 0) else
  '(min, mid, cur) ← intsetSearch_loop (S (Z.to_nat (length iset))) iset value 0 max (-1) (-1);
  if value =? cur then Ok (true, u32 mid) else Ok (false, u32 min).

(** [while (length--) _intsetSet(is, length+prepend, _intsetGetEncoded(is, length, curenc))] *)
Fixpoint upgrade_loop (fuel : nat) (iset : intset) (length prepend curenc : Z) : res intset :=
  match fuel with
  | O => Fault OutOfFuel
  | S fuel =>
    if length =? 0 then Ok iset else
    let length := length - 1 in
    v ← _intsetGetEncoded iset length curenc;
    iset ← _intsetSet iset (length + prepend) v;
    upgrade_loop fuel iset length prepend curenc
  end.

Definition intsetUpgradeAndAdd (iset : intset) (value : Z) : res intset :=
  let curenc := u8 (encoding iset) in
  let newenc := _intsetValueEncoding value in
  let length0 := i32 (length iset) in
  let prepend := if value <? 0 then 1 else 0 in
  let iset := set_encoding iset newenc in
  let iset := intsetResize iset (u32 (length iset + 1)) in
  iset ← upgrade_loop (S (Z.to_nat length0)) iset length0 prepend curenc;
  iset ← (if prepend =? 0 then _intsetSet iset (i32 (length iset)) value
        else _intsetSet iset 0 value);
  Ok (set_length iset (u32 (length iset + 1))).

Definition intsetMoveTail (iset : intset) (from to : Z) : res intset :=
  let bytes := u32 (length iset - from) in
  c ← (if encoding iset =? INTSET_ENC_INT64
       then memmove (contents iset) (to * 8) (from * 8) (u32 (bytes * 8))
       else if encoding iset =? INTSET_ENC_INT32
       then memmove (contents iset) (to * 4) (from * 4) (u32 (bytes * 4))
       else memmove (contents iset) (to * 2) (from * 2) (u32 (bytes * 2)));
  Ok (set_contents iset c).

(** The set after the call and [*success]. *)
Definition intsetAdd (iset : intset) (value : Z) : res (intset * bool) :=
  let valenc := _intsetValueEncoding value in
  if encoding iset <? valenc then
    iset ← intsetUpgradeAndAdd iset value; Ok (iset, true)
  else
    '(found, pos) ← intsetSearch iset value;
    if found : bool then Ok (iset, false) else
    let iset := intsetResize iset (u32 (length iset + 1)) in
    iset ← (if pos <? length iset then intsetMoveTail iset pos (u32 (pos + 1)) else Ok iset);
    iset ← _intsetSet iset (i32 pos) value;
    Ok (set_length iset (u32 (length iset + 1)), true).

Definition intsetRemove (iset : intset) (value : Z) : res (intset * bool) :=
  let valenc := _intsetValueEncoding value in
  if valenc <=? encoding iset then
    '(found, pos) ← intsetSearch iset value;
    if found : bool then
      let len := length iset in
      iset ← (if pos <? u32 (len - 1) then intsetMoveTail iset (u32 (pos + 1)) pos else Ok iset);
      let iset := intsetResize iset (u32 (len - 1)) in
      Ok (set_length iset (u32 (len - 1)), true)
    else Ok (iset, false)
  else Ok (iset, false).

Definition intsetFind (iset : intset) (value : Z) : res bool :=
  let valenc := _intsetValueEncoding value in
  if valenc <=? encoding iset then
    '(found, _) ← intsetSearch iset value; Ok found
  else Ok false.
End Alloc.

(** [r] is the value of [rand()]. *)
Definition intsetRandom (iset : intset) (r : Z) : res Z :=
  if length iset =? 0 then Fault DivisionByZero
  else _intsetGet iset (i32 (u32 r mod length iset)).

Definition intsetGet (iset : intset) (pos : Z) : res (option Z) :=
  if pos <? length iset then v ← _intsetGet iset (i32 pos); Ok (Some v) else Ok None.

Definition intsetLen (iset : intset) : Z := length iset.

Definition sizeof_intset : Z := 8.
Definition intsetBlobLen (iset : intset) : Z :=
  u64 (sizeof_intset + u32 (length iset * encoding iset)).

(** ** Representation *)

Definition enc_ok (enc : Z) : Prop := enc = 2 \/ enc = 4 \/ enc = 8.

Definition elem_bytes (enc : Z) (xs : list Z) : list Z :=
  concat (map (le_bytes (Z.to_nat enc)) xs).

(** The blob of [is] holds the strictly increasing list [xs]. *)
Record repr (iset : intset) (xs : list Z) : Prop := {
  repr_enc : enc_ok (encoding iset);
  repr_len : length iset = zlen xs;
  repr_contents : contents iset = elem_bytes (encoding iset) xs;
  repr_range : Forall (in_s (8 * encoding iset)) xs;
  repr_sorted : StronglySorted Z.lt xs }.

(** The number of elements for which every 32 bit computation of the code is exact. *)
Definition fits (n : Z) : Prop := 8 * n < 2 ^ 32.

Lemma elem_bytes_app enc xs ys : elem_bytes enc (xs ++ ys) = elem_bytes enc xs ++ elem_bytes enc ys.
Proof. unfold elem_bytes. by rewrite map_app, concat_app. Qed.

Lemma elem_bytes_cons enc x xs :
  elem_bytes enc (x :: xs) = le_bytes (Z.to_nat enc) x ++ elem_bytes enc xs.
Proof. done. Qed.

Lemma zlen_elem_bytes enc xs : 0 <= enc -> zlen (elem_bytes enc xs) = enc * zlen xs.
Proof.
  intros He. induction xs as [|x xs IH]; [unfold elem_bytes; simpl; rewrite !zlen_nil; lia|].
  rewrite elem_bytes_cons, zlen_app, IH, zlen_le_bytes, zlen_cons. lia.
Qed.

Ltac enc_cases H := destruct H as [-> | [-> | ->]].

Lemma get_spec iset enc a x b tl :
  enc_ok enc -> contents iset = elem_bytes enc (a ++ x :: b) ++ tl -> in_s (8 * enc) x ->
  _intsetGetEncoded iset (zlen a) enc = Ok x.
Proof.
  intros He Hc Hx. unfold _intsetGetEncoded.
  rewrite Hc, elem_bytes_app, elem_bytes_cons, <- !app_assoc.
  enc_cases He; simpl Z.eqb; cbn iota.
  all: erewrite rd_app by (rewrite ?zlen_elem_bytes, ?zlen_le_bytes; lia).
  all: cbn [mbind res_bind]; f_equal.
  - apply (le_val_bytes_signed 2); [lia|done].
  - apply (le_val_bytes_signed 4); [lia|done].
  - apply (le_val_bytes_signed 8); [lia|done].
Qed.

Lemma set_spec iset xs_enc old pre tl v pos :
  encoding iset = xs_enc -> enc_ok xs_enc -> contents iset = pre ++ old ++ tl ->
  zlen pre = xs_enc * pos -> zlen old = xs_enc ->
  _intsetSet iset pos v = Ok (set_contents iset (pre ++ le_bytes (Z.to_nat xs_enc) v ++ tl)).
Proof.
  intros Ee He Hc Hp Ho. unfold _intsetSet. rewrite Ee, Hc. enc_cases He.
  all: simpl Z.eqb; cbn iota; rewrite (wr_app pre old) by (rewrite ?zlen_le_bytes; lia); done.
Qed.

(** ** Sorted lists and bisection *)

Definition at_ (xs : list Z) (i : Z) : Z := xs !!! Z.to_nat i.

Lemma at_split xs i : 0 <= i < zlen xs ->
  exists a b, xs = a ++ at_ xs i :: b /\ zlen a = i.
Proof.
  intros Hi. unfold at_, zlen in *. exists (take (Z.to_nat i) xs), (drop (S (Z.to_nat i)) xs).
  split; [|rewrite length_take; lia]. symmetry. apply take_drop_middle.
  apply list_lookup_lookup_total_lt. lia.
Qed.

Lemma at_middle a x b : at_ (a ++ x :: b) (zlen a) = x.
Proof. unfold at_, zlen. rewrite Nat2Z.id. by apply list_lookup_total_middle. Qed.

Lemma at_app_l a b i : 0 <= i < zlen a -> at_ (a ++ b) i = at_ a i.
Proof. intros. unfold at_, zlen in *. apply lookup_total_app_l. lia. Qed.

Lemma at_app_r a b i : zlen a <= i -> at_ (a ++ b) i = at_ b (i - zlen a).
Proof.
  intros. unfold at_, zlen in *. rewrite lookup_total_app_r by lia. f_equal. lia.
Qed.

Lemma at_In xs i : 0 <= i < zlen xs -> In (at_ xs i) xs.
Proof.
  intros (a & b & E & _)%at_split. set (x := at_ xs i) in *. clearbody x. subst. apply in_elt.
Qed.

Lemma In_at x xs : In x xs -> exists i, 0 <= i < zlen xs /\ at_ xs i = x.
Proof.
  intros (a & b & ->)%in_split. exists (zlen a). split; [zl|apply at_middle].
Qed.

Lemma sorted_app a b :
  StronglySorted Z.lt (a ++ b) <->
  StronglySorted Z.lt a /\ StronglySorted Z.lt b /\ forall x y, In x a -> In y b -> x < y.
Proof.
  induction a as [|z a IH]; simpl.
  { split; [intros; repeat split; [constructor|done|done]|tauto]. }
  split.
  - inversion 1 as [|?? Hs Hf]; subst. apply IH in Hs as (Ha & Hb & H').
    rewrite Forall_app, !Forall_forall in Hf. destruct Hf as [Hf1 Hf2].
    repeat split; [constructor; [done|by apply Forall_forall]|done|].
    intros x y [->|Hx] Hy; eauto.
  - intros (Ha & Hb & H'). inversion Ha as [|?? Hs Hf]; subst. constructor.
    + apply IH. repeat split; [done|done|]. eauto.
    + rewrite Forall_app, !Forall_forall in *. eauto.
Qed.

Lemma sorted_at xs i j : StronglySorted Z.lt xs -> 0 <= i < j -> j < zlen xs -> at_ xs i < at_ xs j.
Proof.
  intros Hs Hi Hj. destruct (at_split xs j) as (a & b & E & Ha); [lia|].
  set (y := at_ xs j) in *. clearbody y. subst xs.
  apply sorted_app in Hs as (_ & _ & H). apply H; [|by left].
  rewrite at_app_l by lia. apply at_In. lia.
Qed.

Lemma get_at iset xs tl i :
  enc_ok (encoding iset) -> contents iset = elem_bytes (encoding iset) xs ++ tl ->
  Forall (in_s (8 * encoding iset)) xs -> 0 <= i < zlen xs ->
  _intsetGet iset i = Ok (at_ xs i).
Proof.
  intros He Hc Hr Hi. pose proof (at_In xs i Hi) as Hin.
  destruct (at_split xs i Hi) as (a & b & E & Ha). rewrite Forall_forall in Hr.
  specialize (Hr _ Hin). set (x := at_ xs i) in *. clearbody x. subst xs. rewrite <- Ha.
  eapply get_spec; [done|exact Hc|done].
Qed.

Lemma mid_bounds lo hi :
  0 <= lo <= hi -> hi < 2 ^ 31 ->
  lo <= i32 (Z.shiftr (u32 (u32 lo + u32 hi)) 1) <= hi.
Proof.
  intros Hlo Hhi. rewrite !uwrap_id by (unfold in_u; rewrite ?uwrap_id; unfold in_u; lia).
  rewrite Z.shiftr_div_pow2 by lia. change (2 ^ 1) with 2.
  assert (lo <= (lo + hi) / 2 <= hi) by (split; [apply Z.div_le_lower_bound|apply Z.div_le_upper_bound]; lia).
  rewrite swrap_id; [done|lia|unfold in_s; lia].
Qed.

Section Search.
Context (iset : intset) (xs : list Z) (value : Z).
Hypothesis Hrep : repr iset xs.
Hypothesis Hfit : fits (zlen xs).

Lemma get_repr i : 0 <= i < zlen xs -> _intsetGet iset i = Ok (at_ xs i).
Proof.
  destruct Hrep. intros. apply (get_at iset xs []); [done| |done|done].
  by rewrite app_nil_r.
Qed.

Definition below (n : Z) : Prop := forall i, 0 <= i < n -> at_ xs i < value.
Definition above (n : Z) : Prop := forall i, n <= i < zlen xs -> value < at_ xs i.

Lemma search_loop_ok fuel lo hi mid cur :
  0 <= lo -> hi < zlen xs -> lo <= hi + 1 -> below lo -> above (hi + 1) ->
  (hi - lo + 1 < Z.of_nat fuel) -> (lo <= hi \/ cur <> value) ->
  exists lo' mid' cur',
    intsetSearch_loop fuel iset value lo hi mid cur = Ok (lo', mid', cur') /\
    (cur' = value /\ 0 <= mid' < zlen xs /\ at_ xs mid' = value \/
     cur' <> value /\ 0 <= lo' <= zlen xs /\ below lo' /\ above lo').
Proof.
  unfold fits in Hfit. revert lo hi mid cur.
  induction fuel as [|fuel IH]; intros lo hi mid cur H1 H2 H3 Hb Ha Hf Hne; [lia|].
  cbn [intsetSearch_loop]. destruct (Z.leb_spec lo hi).
  2: { exists lo, mid, cur. split; [done|]. right. destruct Hne; [lia|].
       replace (hi + 1) with lo in Ha by lia. repeat split; [done|lia|lia|done|done]. }
  pose proof (mid_bounds lo hi ltac:(lia) ltac:(lia)) as Hm.
  set (m := i32 _) in *. clearbody m.
  rewrite (get_repr m) by lia. cbn [mbind res_bind]. destruct Hrep as [_ _ _ _ Hs].
  destruct (Z.ltb_spec (at_ xs m) value); [|destruct (Z.ltb_spec value (at_ xs m))].
  - rewrite swrap_id by (unfold in_s; lia). apply IH; [lia..| | |lia|lia].
    + intros i Hi. destruct (Z.eq_dec i m) as [->|]; [done|].
      pose proof (sorted_at xs i m Hs). lia.
    + done.
  - rewrite swrap_id by (unfold in_s; lia). apply IH; [lia..|done| |lia|lia].
    intros i Hi. destruct (Z.eq_dec i m) as [->|]; [done|].
    pose proof (sorted_at xs m i Hs). lia.
  - exists lo, m, (at_ xs m). split; [done|]. left. repeat split; lia.
Qed.

(** The two outcomes of a search, as a split of the list at the position. *)
Definition search_post (found : bool) (pos : Z) : Prop :=
  exists a b, xs = a ++ b /\ zlen a = pos /\ Forall (fun x => x < value) a /\
    if found then exists b', b = value :: b' else Forall (fun x => value < x) b.

Lemma search_post_miss pos :
  0 <= pos <= zlen xs -> below pos -> above pos -> search_post false pos.
Proof.
  intros Hp Hb Ha. destruct (list_split_at pos xs Hp) as (a & b & E & <-).
  exists a, b. split; [done|]. split; [done|]. split.
  - apply Forall_forall. intros x (i & Hi & <-)%In_at. specialize (Hb i Hi).
    by rewrite E, at_app_l in Hb.
  - apply Forall_forall. intros x (i & Hi & <-)%In_at.
    specialize (Ha (i + zlen a)). rewrite E, at_app_r in Ha by lia.
    replace (i + zlen a - zlen a) with i in Ha by lia. apply Ha. zl.
Qed.

Lemma search_post_hit pos : 0 <= pos < zlen xs -> at_ xs pos = value -> search_post true pos.
Proof.
  intros Hp Hv. destruct (at_split xs pos Hp) as (a & b & E & Ha).
  rewrite Hv in E. exists a, (value :: b). repeat split; [done|done| |by exists b].
  destruct Hrep as [_ _ _ _ Hs]. rewrite E in Hs. apply sorted_app in Hs as (_ & _ & H).
  apply Forall_forall. intros x Hx. apply H; [done|by left].
Qed.

Lemma intsetSearch_ok :
  exists found pos, intsetSearch iset value = Ok (found, pos) /\ search_post found pos.
Proof.
  unfold fits in Hfit. unfold intsetSearch. pose proof (repr_len _ _ Hrep) as Hl. rewrite Hl.
  pose proof (repr_sorted _ _ Hrep) as Hs. pose proof (zlen_nonneg xs).
  destruct (Z.eqb_spec (zlen xs) 0) as [E|E].
  { exists false, 0. split; [done|]. apply search_post_miss; [lia|intros i; lia|intros i; lia]. }
  rewrite (uwrap_id 32 (zlen xs - 1)) by (unfold in_u; lia).
  rewrite swrap_id by (unfold in_s; lia).
  rewrite (get_repr (zlen xs - 1)) by lia. cbn [mbind res_bind].
  destruct (Z.ltb_spec (at_ xs (zlen xs - 1)) value).
  { exists false, (zlen xs). split; [done|]. apply search_post_miss; [lia| |intros i; lia].
    intros i Hi. destruct (Z.eq_dec i (zlen xs - 1)) as [->|]; [done|].
    pose proof (sorted_at xs i (zlen xs - 1) Hs). lia. }
  rewrite (get_repr 0) by lia. cbn [mbind res_bind].
  destruct (Z.ltb_spec value (at_ xs 0)).
  { exists false, 0. split; [done|]. apply search_post_miss; [lia|intros i; lia|].
    intros i Hi. destruct (Z.eq_dec i 0) as [->|]; [done|].
    pose proof (sorted_at xs 0 i Hs). lia. }
  destruct (search_loop_ok (S (Z.to_nat (zlen xs))) 0 (zlen xs - 1) (-1) (-1))
    as (lo & mid & cur & -> & Hpost); [lia..|intros i; lia|intros i; lia|lia|lia|].
  cbn [mbind res_bind]. destruct Hpost as [(-> & Hm & Hv)|(Hne & Hlo & Hb & Ha)].
  - rewrite Z.eqb_refl. exists true, mid. rewrite uwrap_id by (unfold in_u; lia).
    split; [done|]. by apply search_post_hit.
  - rewrite (proj2 (Z.eqb_neq _ _)) by done. exists false, lo.
    rewrite uwrap_id by (unfold in_u; lia). split; [done|]. by apply search_post_miss.
Qed.
End Search.

(** ** Moving the tail *)

Lemma moveTail_eq iset from to :
  enc_ok (encoding iset) -> 0 <= from <= length iset -> fits (length iset) ->
  intsetMoveTail iset from to =
    (c ← memmove (contents iset) (encoding iset * to) (encoding iset * from)
           (encoding iset * (length iset - from)); Ok (set_contents iset c)).
Proof.
  unfold fits. intros He Hf Hn. unfold intsetMoveTail. set (e := encoding iset) in *.
  rewrite (uwrap_id 32 (length iset - from)) by (unfold in_u; lia).
  enc_cases He; simpl Z.eqb; cbn iota.
  all: rewrite (uwrap_id 32 (_ * _)) by (unfold in_u; lia); do 2 f_equal; lia.
Qed.

Lemma moveTail_right iset a b j :
  enc_ok (encoding iset) -> length iset = zlen a + zlen b -> fits (length iset) ->
  contents iset = elem_bytes (encoding iset) a ++ elem_bytes (encoding iset) b ++ j ->
  zlen j = encoding iset ->
  exists g, zlen g = encoding iset /\
    intsetMoveTail iset (zlen a) (zlen a + 1) =
      Ok (set_contents iset (elem_bytes (encoding iset) a ++ g ++ elem_bytes (encoding iset) b)).
Proof.
  intros He Hl Hf Hc Hj. pose proof (zlen_nonneg a). pose proof (zlen_nonneg b).
  assert (0 <= encoding iset) by (destruct He as [|[|]]; lia).
  pose proof (zlen_elem_bytes (encoding iset) b ltac:(done)) as Hb.
  pose proof (zlen_elem_bytes (encoding iset) a ltac:(done)) as Ha.
  destruct (list_split_at (encoding iset) (elem_bytes (encoding iset) b ++ j))
    as (g & r & E & Hg); [rewrite zlen_app; nia|].
  exists g. split; [done|]. rewrite moveTail_eq by (done || lia). rewrite Hl. unfold memmove.
  rewrite Hc at 1. rewrite rd_app by (rewrite ?Hb; lia). cbn [mbind res_bind].
  rewrite Hc, E, (app_assoc _ g), <- (app_nil_r r).
  rewrite (wr_app (elem_bytes (encoding iset) a ++ g) r (elem_bytes (encoding iset) b) []).
  - cbn [mbind res_bind]. by rewrite app_nil_r, <- app_assoc.
  - rewrite zlen_app. lia.
  - apply (f_equal zlen) in E. rewrite !zlen_app in E. lia.
Qed.

Lemma moveTail_left iset a x b :
  enc_ok (encoding iset) -> length iset = zlen a + 1 + zlen b -> fits (length iset) ->
  contents iset = elem_bytes (encoding iset) a ++ x ++ elem_bytes (encoding iset) b ->
  zlen x = encoding iset ->
  exists g, zlen g = encoding iset /\
    intsetMoveTail iset (zlen a + 1) (zlen a) =
      Ok (set_contents iset (elem_bytes (encoding iset) a ++ elem_bytes (encoding iset) b ++ g)).
Proof.
  intros He Hl Hf Hc Hx. pose proof (zlen_nonneg a). pose proof (zlen_nonneg b).
  assert (0 <= encoding iset) by (destruct He as [|[|]]; lia).
  pose proof (zlen_elem_bytes (encoding iset) b ltac:(done)) as Hb.
  pose proof (zlen_elem_bytes (encoding iset) a ltac:(done)) as Ha.
  destruct (list_split_at (zlen (elem_bytes (encoding iset) b)) (x ++ elem_bytes (encoding iset) b))
    as (r & g & E & Hr); [rewrite zlen_app; nia|].
  exists g. split; [apply (f_equal zlen) in E; rewrite !zlen_app in E; lia|].
  rewrite moveTail_eq by (done || lia). rewrite Hl. unfold memmove.
  set (eb := elem_bytes (encoding iset) b) in *. set (ea := elem_bytes (encoding iset) a) in *.
  replace (contents iset) with ((ea ++ x) ++ eb ++ []) at 1
    by (by rewrite app_nil_r, Hc, <- app_assoc).
  rewrite rd_app by (rewrite ?zlen_app; lia). cbn [mbind res_bind].
  rewrite Hc, E. by rewrite (wr_app _ r) by lia.
Qed.

(** ** Insertion and removal without a change of encoding *)

Lemma resize_grow junk iset :
  enc_ok (encoding iset) -> 0 <= length iset -> fits (length iset + 1) ->
  zlen (contents iset) = encoding iset * length iset ->
  exists j, intsetResize junk iset (u32 (length iset + 1)) =
      set_contents iset (contents iset ++ j) /\ zlen j = encoding iset.
Proof.
  unfold fits. intros He Hl Hf Hc. unfold intsetResize.
  rewrite (uwrap_id 32 (length iset + 1)) by (unfold in_u; lia).
  rewrite uwrap_id by (unfold in_u; destruct He as [->|[->| ->]]; lia).
  destruct (zrealloc_grow junk (contents iset) ((length iset + 1) * encoding iset))
    as (j & -> & Hj); [rewrite Hc; destruct He as [->|[->| ->]]; lia|].
  exists j. split; [done|]. lia.
Qed.

Lemma valueEncoding_ok v : enc_ok (_intsetValueEncoding v).
Proof. unfold _intsetValueEncoding, enc_ok. repeat case_match; eauto. Qed.

Lemma valueEncoding_le v e :
  in_s 64 v -> enc_ok e -> (_intsetValueEncoding v <= e <-> in_s (8 * e) v).
Proof.
  unfold _intsetValueEncoding, in_s, INT32_MIN, INT32_MAX, INT16_MIN, INT16_MAX,
    INTSET_ENC_INT16, INTSET_ENC_INT32, INTSET_ENC_INT64.
  intros Hv He.
  assert (forall a b, (v <? a) || (b <? v) = false <-> a <= v <= b) as Hb by lia.
  enc_cases He; simpl; change (8 * 2 - 1) with 15; change (8 * 4 - 1) with 31;
    change (8 * 8 - 1) with 63;
    destruct ((v <? - 2 ^ 31) || (2 ^ 31 - 1 <? v)) eqn:E1;
    destruct ((v <? - 2 ^ 15) || (2 ^ 15 - 1 <? v)) eqn:E2; lia.
Qed.

Lemma repr_insert iset a v b :
  repr iset (a ++ b) -> in_s (8 * encoding iset) v ->
  Forall (fun x => x < v) a -> Forall (fun x => v < x) b ->
  repr (mk_intset (encoding iset) (zlen (a ++ v :: b)) (elem_bytes (encoding iset) (a ++ v :: b)))
    (a ++ v :: b).
Proof.
  intros [He Hl Hc Hr Hs] Hv Ha Hb. constructor; simpl; [done|done|done|..].
  - apply Forall_app in Hr as [??]. apply Forall_app. split; [done|by constructor].
  - apply sorted_app in Hs as (Hsa & Hsb & Hab). rewrite Forall_forall in Ha, Hb.
    apply sorted_app. repeat split; [done|constructor; [done|by apply Forall_forall]|].
    intros x y Hx [->|Hy]; eauto.
Qed.

Lemma add_same junk iset xs value :
  repr iset xs -> fits (zlen xs + 1) -> in_s (8 * encoding iset) value ->
  (encoding iset <? _intsetValueEncoding value) = false ->
  exists iset' ys, intsetAdd junk iset value = Ok (iset', bool_decide (value ∉ xs)) /\
    repr iset' ys /\ forall x, x ∈ ys <-> x = value \/ x ∈ xs.
Proof.
  intros Hrep Hf Hv Hle. pose proof Hrep as [He Hl Hc Hr Hs]. unfold fits in Hf.
  pose proof (zlen_nonneg xs).
  destruct (intsetSearch_ok iset xs value Hrep) as (found & pos & Es & a & b & Exs & Hp & Ha & Hb);
    [unfold fits; lia|].
  unfold intsetAdd. rewrite Hle, Es. cbn [mbind res_bind]. destruct found.
  { destruct Hb as [b' ->]. assert (value ∈ xs) by (rewrite list_elem_of_In, Exs; apply in_elt).
    exists iset, xs. rewrite bool_decide_false by tauto. repeat split; [done..|tauto|].
    by intros [->|]. }
  rewrite bool_decide_true.
  2: { rewrite list_elem_of_In, Exs, in_app_iff. rewrite Forall_forall in Ha, Hb. intros [H'|H'].
       - specialize (Ha _ H'). lia.
       - specialize (Hb _ H'). lia. }
  pose proof (zlen_elem_bytes (encoding iset) xs ltac:(destruct He as [|[|]]; lia)) as Hz.
  destruct (resize_grow junk iset) as (j & -> & Hj); [done|lia|unfold fits; lia|congruence|].
  rewrite Hc, Exs, elem_bytes_app, <- app_assoc.
  set (e := encoding iset) in *. set (is1 := set_contents iset _).
  pose proof (zlen_elem_bytes e a ltac:(destruct He as [|[|]]; lia)) as Hza.
  assert (exists g, zlen g = e /\
    (if pos <? length is1 then intsetMoveTail is1 pos (u32 (pos + 1)) else Ok is1)
    = Ok (set_contents iset (elem_bytes e a ++ g ++ elem_bytes e b))) as (g & Hg & Em).
  { rewrite Exs, zlen_app in *. pose proof (zlen_nonneg b). pose proof (zlen_nonneg a). change (length is1) with (length iset).
    rewrite Hl. destruct (Z.ltb_spec pos (zlen a + zlen b)).
    - rewrite uwrap_id by (unfold in_u; lia). rewrite <- Hp.
      by apply (moveTail_right is1 a b j); [done|simpl; lia|simpl; unfold fits; lia|..].
    - assert (b = []) as -> by (apply zlen_0_nil; lia). exists j. split; [done|].
      unfold is1. do 2 f_equal. by rewrite app_nil_r. }
  assert (0 <= pos <= zlen xs) by (subst xs pos; zl).
  rewrite Em. cbn [mbind res_bind]. rewrite swrap_id by (unfold in_s; lia).
  rewrite (set_spec _ e g (elem_bytes e a) (elem_bytes e b)); [|done..|lia|done].
  cbn [mbind res_bind set_contents set_length encoding length contents].
  rewrite Hl, uwrap_id by (unfold in_u; lia).
  eexists _, (a ++ value :: b). split; [done|]. split.
  - rewrite <- elem_bytes_cons, <- elem_bytes_app.
    replace (zlen xs + 1) with (zlen (a ++ value :: b)) by (subst xs; zl).
    apply (repr_insert iset); [by rewrite <- Exs|done..].
  - intros x. rewrite !list_elem_of_In, !in_app_iff. simpl. intuition congruence.
Qed.

(** ** Upgrading in place *)


Lemma upgrade_loop_ok cur new prepend ys : forall fuel iset mid R,
  enc_ok cur -> enc_ok new -> cur <= new -> encoding iset = new ->
  0 <= prepend -> zlen ys < Z.of_nat fuel -> Forall (in_s (8 * cur)) ys ->
  contents iset = elem_bytes cur ys ++ mid ++ R ->
  zlen (elem_bytes cur ys ++ mid) = new * (zlen ys + prepend) ->
  exists mid', zlen mid' = new * prepend /\
    upgrade_loop fuel iset (zlen ys) prepend cur =
      Ok (set_contents iset (mid' ++ elem_bytes new ys ++ R)).
Proof.
  induction ys as [|x ys IH] using rev_ind;
    intros fuel iset mid R Hcur Hnew Hle Henc Hpre Hf Hr Hc Hz.
  { destruct fuel as [|fuel]; [zl|]. exists mid. split; [exact Hz|]. cbn [upgrade_loop].
    rewrite zlen_nil, Z.eqb_refl. destruct iset; simpl in *. by subst. }
  destruct fuel as [|fuel]; [zl|]. cbn [upgrade_loop].
  rewrite zlen_app, (proj2 (Z.eqb_neq _ 0)) by zl.
  replace (zlen ys + zlen [x] - 1) with (zlen ys) by zl.
  apply Forall_app in Hr as [Hr Hx]. inversion Hx as [|?? Hx' _]; subst.
  assert (0 <= cur) by (destruct Hcur as [|[|]]; lia).
  pose proof (zlen_elem_bytes cur ys ltac:(done)) as Hzy. pose proof (zlen_nonneg ys).
  rewrite (get_spec iset cur ys x [] (mid ++ R)) by done. cbn [mbind res_bind].
  rewrite elem_bytes_app, elem_bytes_cons, <- !app_assoc in Hc.
  rewrite elem_bytes_app, elem_bytes_cons, !zlen_app, zlen_le_bytes, Hzy in Hz.
  change (elem_bytes cur []) with (@nil Z) in *. cbn [app] in Hc.
  rewrite zlen_cons in Hz. change (zlen (@nil Z)) with 0 in Hz. set (new := encoding iset) in *.
  assert (0 <= new * (zlen ys + prepend) - cur * zlen ys) by nia.
  destruct (list_split_at (new * (zlen ys + prepend) - cur * zlen ys)
    (le_bytes (Z.to_nat cur) x ++ mid)) as (mid2 & old & E & Hm2).
  { rewrite zlen_app, zlen_le_bytes. pose proof (zlen_nonneg mid). nia. }
  assert (zlen old = new) as Ho.
  { apply (f_equal zlen) in E. rewrite !zlen_app, zlen_le_bytes in E. nia. }
  rewrite (set_spec iset new old (elem_bytes cur ys ++ mid2) R); [|done|done| |rewrite zlen_app; lia|done].
  2: { rewrite Hc, (app_assoc (le_bytes _ _)), E. by rewrite <- !app_assoc. }
  cbn [mbind res_bind].
  destruct (IH fuel (set_contents iset ((elem_bytes cur ys ++ mid2) ++ le_bytes (Z.to_nat new) x ++ R))
    mid2 (le_bytes (Z.to_nat new) x ++ R)) as (mid' & Hm' & ->); try done.
  - autorewrite with zlen in Hf. lia.
  - simpl. by rewrite <- app_assoc.
  - rewrite zlen_app. lia.
  - exists mid'. split; [done|]. do 2 f_equal.
    by rewrite elem_bytes_app, elem_bytes_cons, <- !app_assoc.
Qed.

Lemma upgrade_bounds iset xs value :
  repr iset xs -> in_s 64 value -> encoding iset < _intsetValueEncoding value ->
  if value <? 0 then Forall (fun x => value < x) xs else Forall (fun x => x < value) xs.
Proof.
  intros [He _ _ Hr _] Hv Hlt.
  assert (~ in_s (8 * encoding iset) value) as Hn
    by (rewrite <- valueEncoding_le by done; lia).
  unfold in_s in Hn. assert (0 < 2 ^ (8 * encoding iset - 1)) by (apply Z.pow_pos_nonneg;
    destruct He as [|[|]]; lia).
  destruct (Z.ltb_spec value 0); eapply Forall_impl; try exact Hr; unfold in_s; intros x; lia.
Qed.

Lemma upgrade_contents junk iset xs new prepend :
  repr iset xs -> enc_ok new -> encoding iset < new -> fits (zlen xs + 1) ->
  prepend = 0 \/ prepend = 1 ->
  let is1 := intsetResize junk (set_encoding iset new) (u32 (length iset + 1)) in
  exists m r, zlen m = new * prepend /\ zlen r = new * (1 - prepend) /\
    upgrade_loop (S (Z.to_nat (i32 (length iset)))) is1 (i32 (length iset)) prepend
      (u8 (encoding iset)) = Ok (mk_intset new (length iset) (m ++ elem_bytes new xs ++ r)).
Proof.
  intros [He Hl Hc Hr Hs] Hn Hlt Hf Hp is1. unfold fits in Hf. pose proof (zlen_nonneg xs).
  pose proof (zlen_elem_bytes (encoding iset) xs ltac:(destruct He as [|[|]]; lia)) as Hz.
  rewrite Hl in *. rewrite swrap_id by (unfold in_s; lia).
  rewrite (uwrap_id 8) by (unfold in_u; destruct He as [|[|]]; lia).
  assert (exists j, is1 = set_contents (set_encoding iset new) (contents iset ++ j) /\
    zlen j = new * (zlen xs + 1) - encoding iset * zlen xs) as (j & E1 & Hj).
  { unfold is1, intsetResize. rewrite Hl, (uwrap_id 32 (zlen xs + 1)) by (unfold in_u; lia).
    simpl encoding. rewrite uwrap_id by (unfold in_u; destruct Hn as [->|[->| ->]]; lia).
    simpl contents. destruct (zrealloc_grow junk (contents iset) ((zlen xs + 1) * new))
      as (j & -> & Hj); [rewrite Hc, Hz; destruct He as [E|[E|E]]; rewrite E in *; nia|].
    exists j. split; [done|]. rewrite Hj, Hc, Hz. lia. }
  clearbody is1.
  destruct (list_split_at (zlen j - new * (1 - prepend)) j) as (mid & r & -> & Hmid).
  { destruct Hp as [->| ->]; destruct He as [E|[E|E]]; rewrite E in *; nia. }
  rewrite zlen_app in *.
  destruct (upgrade_loop_ok (encoding iset) new prepend xs (S (Z.to_nat (zlen xs))) is1 mid r)
    as (m & Hm & Eu); try done; try lia.
  - by rewrite E1.
  - rewrite E1. cbn [contents set_contents]. by rewrite Hc.
  - rewrite zlen_app, Hz. lia.
  - exists m, r. split; [done|]. split; [lia|].
    rewrite Eu, E1. unfold set_contents. simpl. by rewrite Hl.
Qed.

Lemma add_upgrade junk iset xs value :
  repr iset xs -> fits (zlen xs + 1) -> in_s 64 value ->
  encoding iset < _intsetValueEncoding value ->
  exists iset' ys, intsetUpgradeAndAdd junk iset value = Ok iset' /\ repr iset' ys /\
    ys = (if value <? 0 then value :: xs else xs ++ [value]).
Proof.
  intros Hrep Hf Hv Hlt. pose proof (upgrade_bounds iset xs value Hrep Hv Hlt) as Hb.
  pose proof (valueEncoding_ok value) as Hn. pose proof Hrep as [He Hl Hc Hr Hs].
  pose proof (proj1 (valueEncoding_le value _ Hv Hn) ltac:(lia)) as Hvr.
  pose proof (zlen_nonneg xs). unfold intsetUpgradeAndAdd.
  set (new := _intsetValueEncoding value) in *. set (prepend := if value <? 0 then 1 else 0).
  destruct (upgrade_contents junk iset xs new prepend) as (m & r & Hm & Hr' & E);
    [done..|unfold prepend; case_match; lia|].
  cbn [set_encoding length] in E |- *. rewrite E. cbn [mbind res_bind].
  assert (Forall (in_s (8 * new)) xs) as Hrn.
  { eapply Forall_impl; [|exact Hr]. unfold in_s. intros x Hx.
    assert (2 ^ (8 * encoding iset - 1) <= 2 ^ (8 * new - 1)); [|lia].
    apply Z.pow_le_mono_r; lia. }
  unfold fits in Hf. pose proof (zlen_elem_bytes new xs ltac:(destruct Hn as [|[|]]; lia)) as Hzx.
  subst prepend. destruct (value <? 0); simpl Z.eqb; cbn iota; cbn [length].
  - assert (r = []) as -> by (apply zlen_0_nil; lia).
    rewrite (set_spec _ new m [] (elem_bytes new xs ++ [])); [|done|done|done|by rewrite zlen_nil; lia|lia].
    cbn [mbind res_bind set_contents set_length encoding length contents app].
    eexists _, _. split; [done|]. split; [|done]. rewrite Hl, uwrap_id by (unfold in_u; lia).
    constructor; simpl; [done|zl|by rewrite app_nil_r|by constructor|by constructor].
  - assert (m = []) as -> by (apply zlen_0_nil; lia). rewrite Hl, swrap_id by (unfold in_s; lia).
    rewrite (set_spec _ new r (elem_bytes new xs) []); [|done|done| |lia|lia].
    2: { simpl. by rewrite app_nil_r. }
    cbn [mbind res_bind set_contents set_length encoding length contents app].
    eexists _, _. split; [done|]. split; [|done]. rewrite uwrap_id by (unfold in_u; lia).
    constructor; simpl; [done|zl|by rewrite elem_bytes_app, elem_bytes_cons|..].
    + apply Forall_app. split; [done|by constructor].
    + apply sorted_app. repeat split; [done|by repeat constructor|].
      rewrite Forall_forall in Hb. intros x y Hx [->|[]]. by apply Hb.
Qed.

Lemma remove_ok junk iset xs value :
  repr iset xs -> fits (zlen xs) -> in_s 64 value ->
  exists iset' ys, intsetRemove junk iset value = Ok (iset', bool_decide (value ∈ xs)) /\
    repr iset' ys /\ forall x, x ∈ ys <-> x <> value /\ x ∈ xs.
Proof.
  intros Hrep Hf Hv. pose proof Hrep as [He Hl Hc Hr Hs]. pose proof (zlen_nonneg xs).
  unfold intsetRemove. pose proof (valueEncoding_le value _ Hv He) as Hle.
  destruct (Z.leb_spec (_intsetValueEncoding value) (encoding iset)) as [Hve|Hve].
  2: { assert (value ∉ xs) as Hni.
       { rewrite list_elem_of_In. intros Hin. rewrite Forall_forall in Hr.
         specialize (Hr _ Hin). apply Hle in Hr. lia. }
       exists iset, xs. rewrite bool_decide_false by done. repeat split; try tauto. by intros ->. }
  destruct (intsetSearch_ok iset xs value Hrep Hf) as (found & pos & Es & a & b & Exs & Hp & Ha & Hb).
  rewrite Es. cbn [mbind res_bind]. unfold fits in Hf. rewrite Forall_forall in Ha.
  destruct found.
  2: { assert (value ∉ xs) as Hni.
       { rewrite list_elem_of_In, Exs, in_app_iff. rewrite Forall_forall in Hb.
         intros [H'|H']; [specialize (Ha _ H')|specialize (Hb _ H')]; lia. }
       exists iset, xs. rewrite bool_decide_false by done. repeat split; try tauto. by intros ->. }
  destruct Hb as [b' ->]. rewrite bool_decide_true by (rewrite list_elem_of_In, Exs; apply in_elt).
  set (e := encoding iset) in *. assert (0 < e) by (destruct He as [|[|]]; lia).
  pose proof (zlen_elem_bytes e a ltac:(lia)) as Hza.
  pose proof (zlen_elem_bytes e b' ltac:(lia)) as Hzb.
  rewrite Exs, zlen_app, zlen_cons in *. pose proof (zlen_nonneg a). pose proof (zlen_nonneg b').
  rewrite Hl, !(uwrap_id 32 (zlen a + (zlen b' + 1) - 1)) by (unfold in_u; lia).
  assert (exists g, zlen g = e /\
    (if pos <? zlen a + (zlen b' + 1) - 1 then intsetMoveTail iset (u32 (pos + 1)) pos else Ok iset)
    = Ok (set_contents iset (elem_bytes e a ++ elem_bytes e b' ++ g))) as (g & Hg & Em).
  { rewrite elem_bytes_app, elem_bytes_cons in Hc. destruct (Z.ltb_spec pos (zlen a + (zlen b' + 1) - 1)).
    - rewrite uwrap_id by (unfold in_u; lia). rewrite <- Hp.
      apply (moveTail_left iset a (le_bytes (Z.to_nat e) value) b');
        [done|lia|unfold fits; lia|done|rewrite zlen_le_bytes; lia].
    - assert (b' = []) as -> by (apply zlen_0_nil; lia). exists (le_bytes (Z.to_nat e) value).
      split; [rewrite zlen_le_bytes; lia|]. destruct iset; simpl in *.
      unfold set_contents; simpl. rewrite Hc. by rewrite app_nil_r. }
  rewrite Em. cbn [mbind res_bind]. eexists _, (a ++ b'). split; [done|].
  unfold intsetResize. cbn [encoding contents length set_contents set_length]. fold e.
  rewrite (uwrap_id 32 (_ * e)) by (unfold in_u; destruct He as [->|[->| ->]]; lia).
  rewrite zrealloc_shrink by (rewrite !zlen_app; nia).
  rewrite app_assoc, ztake_app by (rewrite !zlen_app; nia).
  apply sorted_app in Hs as (Hsa & Hsb & Hab). inversion Hsb as [|?? Hsb' Hvb]; subst.
  apply Forall_app in Hr as [Hra Hrb]. inversion Hrb; subst. split.
  - constructor; cbn [encoding contents length set_contents set_length]; fold e;
      [done|zl|by rewrite elem_bytes_app|by apply Forall_app|].
    apply sorted_app. repeat split; [done..|]. intros x y Hx Hy. apply Hab; [done|by right].
  - intros x. rewrite Forall_forall in Hvb. rewrite !list_elem_of_In, !in_app_iff. simpl.
    split; [|intuition congruence]. intros [Hx|Hx]; (split; [|tauto]); intros ->.
    + specialize (Ha _ Hx). lia.
    + specialize (Hvb _ Hx). lia.
Qed.

(** ** The abstract set *)

(** The finite set of integers a well-formed intset stands for. *)
Definition denotes (iset : intset) (X : gset Z) : Prop :=
  exists xs, repr iset xs /\ X = list_to_set xs.

Lemma denotes_size iset X : denotes iset X -> length iset = Z.of_nat (size X).
Proof.
  intros (xs & [_ Hl _ _ Hs] & ->). rewrite Hl. unfold zlen. f_equal.
  rewrite size_list_to_set; [done|]. clear Hl. induction Hs as [|x xs Hs IH Hx]; constructor; [|done].
  rewrite list_elem_of_In. rewrite Forall_forall in Hx. intros H. specialize (Hx _ H). lia.
Qed.

Lemma denotes_new : denotes intsetNew ∅.
Proof.
  exists []. split; [|done]. constructor; [by left|done|done|constructor|constructor].
Qed.

Lemma intsetAdd_denotes junk iset X v :
  denotes iset X -> in_s 64 v -> fits (Z.of_nat (size X) + 1) ->
  exists iset', intsetAdd junk iset v = Ok (iset', bool_decide (v ∉ X)) /\ denotes iset' ({[v]} ∪ X).
Proof.
  intros Hd Hv Hf. rewrite <- (denotes_size iset X Hd) in Hf. destruct Hd as (xs & Hrep & ->).
  pose proof (repr_len _ _ Hrep) as Hl. rewrite Hl in Hf.
  destruct (encoding iset <? _intsetValueEncoding v) eqn:Ee.
  - pose proof Ee as Ee'. apply Z.ltb_lt in Ee'.
    destruct (add_upgrade junk iset xs v Hrep Hf Hv Ee') as (iset' & ys & E & Hr & Hy).
    exists iset'. unfold intsetAdd. rewrite Ee, E. cbn [mbind res_bind]. split.
    + rewrite bool_decide_true; [done|]. rewrite elem_of_list_to_set, list_elem_of_In.
      pose proof (upgrade_bounds iset xs v Hrep Hv Ee') as Hb. intros Hin.
      destruct (v <? 0); rewrite Forall_forall in Hb; specialize (Hb _ Hin); lia.
    + exists ys. split; [done|]. subst ys. destruct (v <? 0); [done|].
      rewrite list_to_set_app_L. set_solver.
  - destruct (add_same junk iset xs v Hrep Hf) as (iset' & ys & E & Hr & Hy); [|done|].
    { apply valueEncoding_le; [done|apply Hrep|]. by apply Z.ltb_ge. }
    exists iset'. rewrite E. split.
    + do 3 f_equal. apply bool_decide_ext. by rewrite elem_of_list_to_set.
    + exists ys. split; [done|]. apply set_eq. intros x.
      rewrite elem_of_union, elem_of_singleton, !elem_of_list_to_set. by rewrite Hy.
Qed.

Lemma intsetRemove_denotes junk iset X v :
  denotes iset X -> in_s 64 v -> fits (Z.of_nat (size X)) ->
  exists iset', intsetRemove junk iset v = Ok (iset', bool_decide (v ∈ X)) /\ denotes iset' (X ∖ {[v]}).
Proof.
  intros Hd Hv Hf. rewrite <- (denotes_size iset X Hd) in Hf. destruct Hd as (xs & Hrep & ->).
  rewrite (repr_len _ _ Hrep) in Hf.
  destruct (remove_ok junk iset xs v Hrep Hf Hv) as (iset' & ys & E & Hr & Hy).
  exists iset'. rewrite E. split.
  - do 3 f_equal. apply bool_decide_ext. by rewrite elem_of_list_to_set.
  - exists ys. split; [done|]. apply set_eq. intros x.
    rewrite elem_of_difference, elem_of_singleton, !elem_of_list_to_set, Hy. tauto.
Qed.

(** [intsetFind] decides membership: it stays inside the blob, its bisection
    terminates, and it returns 1 exactly for the members of the set. *)
Theorem intsetFind_refines iset X v :
  denotes iset X -> in_s 64 v -> fits (Z.of_nat (size X)) ->
  intsetFind iset v = Ok (bool_decide (v ∈ X)).
Proof.
  intros Hd Hv Hf. rewrite <- (denotes_size iset X Hd) in Hf. destruct Hd as (xs & Hrep & ->).
  rewrite (repr_len _ _ Hrep) in Hf. unfold intsetFind. pose proof Hrep as [He _ _ Hr _].
  pose proof (valueEncoding_le v _ Hv He) as Hle.
  rewrite (bool_decide_ext _ (v ∈ xs)) by by rewrite elem_of_list_to_set.
  destruct (Z.leb_spec (_intsetValueEncoding v) (encoding iset)).
  2: { rewrite bool_decide_false; [done|]. rewrite list_elem_of_In. intros Hin.
       rewrite Forall_forall in Hr.
       specialize (Hr _ Hin). apply Hle in Hr. lia. }
  destruct (intsetSearch_ok iset xs v Hrep Hf) as (found & pos & -> & a & b & -> & Hp & Ha & Hb).
  cbn [mbind res_bind]. f_equal. symmetry. destruct found.
  - destruct Hb as [b' ->]. apply bool_decide_true. rewrite list_elem_of_In. apply in_elt.
  - apply bool_decide_false. rewrite list_elem_of_In, in_app_iff. rewrite Forall_forall in Ha, Hb.
    intros [H'|H']; [specialize (Ha _ H')|specialize (Hb _ H')]; lia.
Qed.

Lemma sorted_NoDup xs : StronglySorted Z.lt xs -> NoDup xs.
Proof.
  induction 1 as [|x xs Hs IH Hx]; constructor; [|done].
  rewrite list_elem_of_In. rewrite Forall_forall in Hx. intros H. specialize (Hx _ H). lia.
Qed.

(** [intsetGet] reads the set in increasing order: position [pos] below the
    cardinality yields the member with exactly [pos] smaller members, and any
    other position is refused. *)
Theorem intsetGet_rank iset X pos :
  denotes iset X -> fits (Z.of_nat (size X)) -> 0 <= pos ->
  if pos <? Z.of_nat (size X)
  then exists x, intsetGet iset pos = Ok (Some x) /\ x ∈ X /\
         Z.of_nat (size (filter (fun y => y < x) X)) = pos
  else intsetGet iset pos = Ok None.
Proof.
  intros Hd Hf Hp. rewrite <- (denotes_size iset X Hd) in *. destruct Hd as (xs & Hrep & ->).
  unfold intsetGet. pose proof (repr_len _ _ Hrep) as Hl. rewrite Hl in *. unfold fits in Hf.
  destruct (Z.ltb_spec pos (zlen xs)); [|done].
  rewrite swrap_id by (unfold in_s; lia). rewrite (get_repr iset xs) by (done || lia).
  exists (at_ xs pos). split; [done|].
  destruct (at_split xs pos) as (a & b & E & Ha); [lia|].
  set (x := at_ xs pos) in *. clearbody x. subst xs.
  destruct Hrep as [_ _ _ _ Hs]. apply sorted_app in Hs as (Hsa & Hsb & Hab).
  inversion Hsb as [|?? _ Hb]; subst. rewrite Forall_forall in Hb. split; [set_solver|].
  assert (filter (fun y => y < x) (list_to_set (a ++ x :: b)) =@{gset Z} list_to_set a) as ->.
  { apply set_eq. intros y. rewrite elem_of_filter, !elem_of_list_to_set, !list_elem_of_In, in_app_iff.
    simpl. split.
    - intros [Hy [|[->|Hin]]]; [done|lia|]. specialize (Hb _ Hin). lia.
    - intros Hin. split; [|by left]. apply Hab; [done|by left]. }
  rewrite size_list_to_set by by apply sorted_NoDup. done.
Qed.

(** ** Histories of operations *)

Inductive op := OpAdd (v : Z) | OpRemove (v : Z).
Definition op_value (o : op) : Z := match o with OpAdd v | OpRemove v => v end.

Definition step junk (o : op) (iset : intset) : res (intset * bool) :=
  match o with OpAdd v => intsetAdd junk iset v | OpRemove v => intsetRemove junk iset v end.

Fixpoint run junk (os : list op) (iset : intset) : res (intset * list bool) :=
  match os with
  | [] => Ok (iset, [])
  | o :: os =>
    '(iset, b) ← step junk o iset; '(iset, bs) ← run junk os iset; Ok (iset, b :: bs)
  end.

Definition set_step (o : op) (X : gset Z) : gset Z * bool :=
  match o with
  | OpAdd v => ({[v]} ∪ X, bool_decide (v ∉ X))
  | OpRemove v => (X ∖ {[v]}, bool_decide (v ∈ X))
  end.

Fixpoint set_run (os : list op) (X : gset Z) : gset Z * list bool :=
  match os with
  | [] => (X, [])
  | o :: os => let (X, b) := set_step o X in let (X, bs) := set_run os X in (X, b :: bs)
  end.

Lemma set_step_size o X : (size (set_step o X).1 <= size X + 1)%nat.
Proof.
  destruct o; simpl.
  - rewrite size_union_alt, size_singleton.
    assert (size (X ∖ {[v]}) <= size X)%nat; [apply subseteq_size|]; set_solver by lia || lia.
  - transitivity (size X); [apply subseteq_size; set_solver|lia].
Qed.

Lemma run_denotes junk os iset X :
  denotes iset X -> Forall (fun o => in_s 64 (op_value o)) os ->
  fits (Z.of_nat (size X) + zlen os) ->
  exists iset', run junk os iset = Ok (iset', (set_run os X).2) /\ denotes iset' (set_run os X).1.
Proof.
  revert iset X. induction os as [|o os IH]; intros iset X Hd Hv Hf; [by exists iset|].
  inversion Hv as [|?? Ho Hos]; subst. unfold fits in *. pose proof (set_step_size o X) as Hsz.
  pose proof (zlen_nonneg os). rewrite zlen_cons in Hf. cbn [run].
  assert (exists iset', step junk o iset = Ok (iset', (set_step o X).2) /\
    denotes iset' (set_step o X).1) as (iset' & -> & Hd').
  { destruct o; [apply intsetAdd_denotes|apply intsetRemove_denotes]; unfold fits; try done; lia. }
  cbn [mbind res_bind]. cbn [set_run]. destruct (set_step o X) as [X' b]. simpl in *.
  destruct (IH iset' X' Hd' Hos ltac:(lia)) as (iset2 & -> & Hd2). cbn [mbind res_bind].
  destruct (set_run os X') as [X2 bs]. by exists iset2.
Qed.

(** C20: Any history of [intsetAdd] and [intsetRemove] calls on a new intset, short
    enough for the 32 bit size computations, runs without touching memory outside
    the blob, returns the same success flags as the mathematical set, and leaves
    a well-formed blob (sorted, without duplicates, in one encoding) of that set. *)
Theorem intset_history_refines_set junk os :
  Forall (fun o => in_s 64 (op_value o)) os -> fits (zlen os) ->
  exists iset, run junk os intsetNew = Ok (iset, (set_run os ∅).2) /\
    denotes iset (set_run os ∅).1 /\ intsetLen iset = Z.of_nat (size (set_run os ∅).1).
Proof.
  intros Hv Hf. destruct (run_denotes junk os intsetNew ∅ denotes_new Hv) as (iset & E & Hd).
  { by rewrite size_empty. }
  exists iset. repeat split; [done|done|]. by apply denotes_size.
Qed.

Lemma intset_history_refines_set_witness :
  exists iset, run (fun _ => 99) [OpAdd 5; OpAdd (-70000); OpRemove 5; OpAdd (2 ^ 40)] intsetNew =
      Ok (iset, [true; true; true; true]) /\
    denotes iset {[2 ^ 40; -70000]} /\ intsetLen iset = 2.
Proof.
  destruct (intset_history_refines_set (fun _ => 99)
    [OpAdd 5; OpAdd (-70000); OpRemove 5; OpAdd (2 ^ 40)]) as (iset & E & Hd & Hl).
  - repeat constructor; unfold in_s; simpl; lia.
  - unfold fits. vm_compute. done.
  - exists iset. repeat split; [exact E|exact Hd|exact Hl].
Defined.

Lemma example_repr : repr (mk_intset 2 2 [251; 255; 7; 0]) [-5; 7].
Proof.
  constructor; simpl; [by left|done|done|..].
  - repeat constructor; unfold in_s; simpl; lia.
  - repeat constructor; lia.
Qed.

Lemma intsetFind_refines_witness : intsetFind (mk_intset 2 2 [251; 255; 7; 0]) 7 = Ok true.
Proof.
  rewrite (intsetFind_refines (mk_intset 2 2 [251; 255; 7; 0]) {[-5; 7]} 7).
  - vm_compute. reflexivity.
  - exists [-5; 7]. split; [apply example_repr|reflexivity].
  - unfold in_s; lia.
  - done.
Defined.

Lemma intsetGet_rank_witness :
  exists x, intsetGet (mk_intset 2 2 [251; 255; 7; 0]) 1 = Ok (Some x) /\
    x ∈ ({[-5; 7]} : gset Z) /\ Z.of_nat (size (filter (fun y => y < x) ({[-5; 7]} : gset Z))) = 1.
Proof.
  pose proof (intsetGet_rank (mk_intset 2 2 [251; 255; 7; 0]) ({[-5; 7]}) 1) as H.
  assert ((1 <? Z.of_nat (size ({[-5; 7]} : gset Z))) = true) as E by (vm_compute; reflexivity).
  rewrite E in H. apply H.
  - exists [-5; 7]. split; [apply example_repr|reflexivity].
  - done.
  - lia.
Defined.

(** The allocation size of a resize is computed in 32 bits. Growing a set of
    8 byte members to 2^29 of them asks for zero bytes, and the store of the new
    member that follows is outside the allocation. *)
Theorem intsetResize_size_wraps junk iset :
  encoding iset = INTSET_ENC_INT64 ->
  contents (intsetResize junk iset (2 ^ 29)) = [] /\
  forall pos v, _intsetSet (intsetResize junk iset (2 ^ 29)) pos v = Fault OutOfBounds.
Proof.
  intros E. unfold intsetResize. rewrite E. change (u32 (2 ^ 29 * INTSET_ENC_INT64)) with 0.
  rewrite zrealloc_shrink, ztake_0 by zl. split; [done|]. intros pos v.
  unfold _intsetSet. cbn [set_contents encoding contents]. rewrite E. cbn -[le_bytes].
  unfold wr. rewrite zlen_le_bytes. destruct (Z.leb_spec 0 (pos * 8)); [|done].
  replace (pos * 8 + Z.of_nat 8 <=? zlen (@nil Z)) with false; [done|].
  symmetry. apply Z.leb_gt. change (zlen (@nil Z)) with 0. lia.
Qed.

Lemma intsetResize_size_wraps_witness :
  contents (intsetResize (fun _ => 0) (mk_intset 8 1 (le_bytes 8 (2 ^ 40))) (2 ^ 29)) = [] /\
  _intsetSet (intsetResize (fun _ => 0) (mk_intset 8 1 (le_bytes 8 (2 ^ 40))) (2 ^ 29)) 0 7
    = Fault OutOfBounds.
Proof.
  destruct (intsetResize_size_wraps (fun _ => 0) (mk_intset 8 1 (le_bytes 8 (2 ^ 40))) eq_refl)
    as [H1 H2].
  split; [exact H1|apply H2].
Defined.

End Intset.
