(* ===== verification/Sds.v ===== *)
(** * Dynamic strings: src/redis-stable/src/sds.h and sds.c

    An [sds] value is a pointer into an allocation: header fields before it, the
    bytes after it. The model keeps the flags byte, the two header counters (which
    a type 5 header does not have) and every allocated byte from the pointer on.
    The functions that only use this interface (splitting, quoting, formatting)
    are in SdsText.v. *)
From S2P Require Import Prelude.

Module Sds.

Definition SDS_MAX_PREALLOC : Z := 1024 * 1024.
Definition SDS_TYPE_5 : Z := 0.
Definition SDS_TYPE_8 : Z := 1.
Definition SDS_TYPE_16 : Z := 2.
Definition SDS_TYPE_32 : Z := 3.
Definition SDS_TYPE_64 : Z := 4.
Definition SDS_TYPE_MASK : Z := 7.
Definition SDS_TYPE_BITS : Z := 3.

(** [hlen] and [halloc] are [sh->len] and [sh->alloc]. *)
Record sds := mk_sds { flags : Z; hlen : Z; halloc : Z; buf : list Z }.

Definition with_flags (s : sds) (f : Z) : sds := mk_sds f (hlen s) (halloc s) (buf s).
Definition with_hlen (s : sds) (n : Z) : sds := mk_sds (flags s) n (halloc s) (buf s).
Definition with_halloc (s : sds) (n : Z) : sds := mk_sds (flags s) (hlen s) n (buf s).
Definition with_buf (s : sds) (b : list Z) : sds := mk_sds (flags s) (hlen s) (halloc s) b.

Definition sdstype (s : sds) : Z := Z.land (flags s) SDS_TYPE_MASK.
Definition SDS_TYPE_5_LEN (f : Z) : Z := Z.shiftr f SDS_TYPE_BITS.

(** The width of the counters of [struct sdshdr8] .. [struct sdshdr64]. *)
Definition hdr_bits (type : Z) : Z :=
  if type =? SDS_TYPE_8 then 8 else if type =? SDS_TYPE_16 then 16
  else if type =? SDS_TYPE_32 then 32 else 64.

Definition sdslen (s : sds) : Z :=
  if sdstype s =? SDS_TYPE_5 then SDS_TYPE_5_LEN (flags s)
  else if sdstype s <=? SDS_TYPE_64 then hlen s else 0.

Definition sdsavail (s : sds) : Z :=
  if sdstype s =? SDS_TYPE_5 then 0
  else if sdstype s <=? SDS_TYPE_64 then u64 (halloc s - hlen s) else 0.

Definition sdssetlen (s : sds) (newlen : Z) : sds :=
  if sdstype s =? SDS_TYPE_5
  then with_flags s (u8 (Z.lor SDS_TYPE_5 (u64 (Z.shiftl newlen SDS_TYPE_BITS))))
  else if sdstype s <=? SDS_TYPE_64 then with_hlen s (uwrap (hdr_bits (sdstype s)) newlen)
  else s.

Definition sdsinclen (s : sds) (inc : Z) : sds :=
  if sdstype s =? SDS_TYPE_5
  then let newlen := u8 (SDS_TYPE_5_LEN (flags s) + inc) in
       with_flags s (u8 (Z.lor SDS_TYPE_5 (Z.shiftl newlen SDS_TYPE_BITS)))
  else if sdstype s <=? SDS_TYPE_64
  then with_hlen s (uwrap (hdr_bits (sdstype s)) (hlen s + inc))
  else s.

Definition sdsalloc (s : sds) : Z :=
  if sdstype s =? SDS_TYPE_5 then SDS_TYPE_5_LEN (flags s)
  else if sdstype s <=? SDS_TYPE_64 then halloc s else 0.

Definition sdssetalloc (s : sds) (newlen : Z) : sds :=
  if sdstype s =? SDS_TYPE_5 then s
  else if sdstype s <=? SDS_TYPE_64 then with_halloc s (uwrap (hdr_bits (sdstype s)) newlen)
  else s.

Definition sdsHdrSize (type : Z) : Z :=
  let t := Z.land type SDS_TYPE_MASK in
  if t =? SDS_TYPE_5 then 1 else if t =? SDS_TYPE_8 then 3 else if t =? SDS_TYPE_16 then 5
  else if t =? SDS_TYPE_32 then 9 else if t =? SDS_TYPE_64 then 17 else 0.

Definition sdsReqType (string_size : Z) : Z :=
  if string_size <? 2 ^ 5 then SDS_TYPE_5
  else if string_size <? 2 ^ 8 then SDS_TYPE_8
  else if string_size <? 2 ^ 16 then SDS_TYPE_16
  else if string_size <? 2 ^ 32 then SDS_TYPE_32
  else SDS_TYPE_64.

Section Alloc.
(** The contents of freshly allocated memory; the allocators do not return on
    exhaustion, so the NULL tests of the code never fire. *)
Context (junk : Z -> Z).

(** The bytes after the header of an allocation of [size] bytes. *)
Definition malloc_buf (hdrlen size : Z) : list Z := zrealloc junk [] (size - hdrlen).

(** [init = None] is a NULL pointer: the allocation is zeroed. *)
Definition sdsnewlen (init : option (list Z)) (initlen : Z) : res sds :=
  let type := sdsReqType initlen in
  let type := if (type =? SDS_TYPE_5) && (initlen =? 0) then SDS_TYPE_8 else type in
  let hdrlen := sdsHdrSize type in
  let size := u64 (hdrlen + initlen + 1) in
  let b := match init with
           | None => zrep (size - hdrlen) 0 | Some _ => malloc_buf hdrlen size end in
  let s := if type =? SDS_TYPE_5
           then mk_sds (u8 (Z.lor type (Z.shiftl initlen SDS_TYPE_BITS))) 0 0 b
           else mk_sds type (uwrap (hdr_bits type) initlen) (uwrap (hdr_bits type) initlen) b in
  b ← match init with
      | Some bytes => if initlen =? 0 then Ok (buf s)
                      else x ← rd bytes 0 initlen; wr (buf s) 0 x
      | None => Ok (buf s)
      end;
  b ← poke b initlen 0;
  Ok (with_buf s b).

Definition sdsempty : res sds := sdsnewlen (Some []) 0.
(** [init] is the text of a C string. *)
Definition sdsnew (init : list Z) : res sds := sdsnewlen (Some init) (zlen init).
Definition sdsdup (s : sds) : res sds := sdsnewlen (Some (buf s)) (sdslen s).

Definition sdsclear (s : sds) : res sds :=
  let s := sdssetlen s 0 in
  b ← poke (buf s) 0 0; Ok (with_buf s b).

(** Move the string into an allocation with another header type. *)
Definition sdsretype (s : sds) (type size len : Z) : res sds :=
  let hdrlen := sdsHdrSize type in
  x ← rd (buf s) 0 (len + 1);
  b ← wr (malloc_buf hdrlen size) 0 x;
  Ok (sdssetlen (mk_sds type (hlen s) (halloc s) b) len).

Definition sdsMakeRoomFor (s : sds) (addlen : Z) : res sds :=
  let avail := sdsavail s in
  let oldtype := sdstype s in
  if addlen <=? avail then Ok s else
  let len := sdslen s in
  let newlen := u64 (len + addlen) in
  let newlen := if newlen <? SDS_MAX_PREALLOC then u64 (newlen * 2)
                else u64 (newlen + SDS_MAX_PREALLOC) in
  let type := sdsReqType newlen in
  let type := if type =? SDS_TYPE_5 then SDS_TYPE_8 else type in
  let hdrlen := sdsHdrSize type in
  let size := u64 (hdrlen + newlen + 1) in
  s ← (if oldtype =? type then Ok (with_buf s (zrealloc junk (buf s) (size - hdrlen)))
       else sdsretype s type size len);
  Ok (sdssetalloc s newlen).

Definition sdsRemoveFreeSpace (s : sds) : res sds :=
  let oldtype := sdstype s in
  let len := sdslen s in
  let type := sdsReqType len in
  let hdrlen := sdsHdrSize type in
  let size := u64 (hdrlen + len + 1) in
  s ← (if oldtype =? type then Ok (with_buf s (zrealloc junk (buf s) (size - hdrlen)))
       else sdsretype s type size len);
  Ok (sdssetalloc s len).

Definition sdsAllocSize (s : sds) : Z := u64 (sdsHdrSize (flags s) + sdsalloc s + 1).

(** [incr] is an [int]. *)
Definition sdsIncrLen (s : sds) (incr : Z) : res sds :=
  let type := sdstype s in
  if type =? SDS_TYPE_5 then
    let oldlen := SDS_TYPE_5_LEN (flags s) in
    _ ← assert_ (((0 <? incr) && (oldlen + incr <? 32)) || ((incr <? 0) && (u32 (- incr) <=? oldlen)));
    let s := with_flags s (u8 (Z.lor SDS_TYPE_5 (Z.shiftl (oldlen + incr) SDS_TYPE_BITS))) in
    b ← poke (buf s) (u64 (oldlen + incr)) 0; Ok (with_buf s b)
  else if type <=? SDS_TYPE_64 then
    let room := if type <=? SDS_TYPE_16 then halloc s - hlen s
                else uwrap (hdr_bits type) (halloc s - hlen s) in
    _ ← assert_ (((0 <=? incr) && (incr <=? room)) || ((incr <? 0) && (u32 (- incr) <=? hlen s)));
    let s := with_hlen s (uwrap (hdr_bits type) (hlen s + incr)) in
    b ← poke (buf s) (hlen s) 0; Ok (with_buf s b)
  else b ← poke (buf s) 0 0; Ok (with_buf s b).

Definition sdsgrowzero (s : sds) (len : Z) : res sds :=
  let curlen := sdslen s in
  if len <=? curlen then Ok s else
  s ← sdsMakeRoomFor s (len - curlen);
  b ← wr (buf s) curlen (zrep (len - curlen + 1) 0);
  Ok (sdssetlen (with_buf s b) len).

(** [t] is the bytes at the source pointer, [len] of which are appended. *)
Definition sdscatlen (s : sds) (t : list Z) (len : Z) : res sds :=
  let curlen := sdslen s in
  s ← sdsMakeRoomFor s len;
  x ← rd t 0 len;
  b ← wr (buf s) curlen x;
  let s := sdssetlen (with_buf s b) (u64 (curlen + len)) in
  b ← poke (buf s) (u64 (curlen + len)) 0;
  Ok (with_buf s b).

Definition sdscat (s : sds) (t : list Z) : res sds := sdscatlen s t (zlen t).
Definition sdscatsds (s t : sds) : res sds := sdscatlen s (buf t) (sdslen t).

Definition sdscpylen (s : sds) (t : list Z) (len : Z) : res sds :=
  s ← (if sdsalloc s <? len then sdsMakeRoomFor s (u64 (len - sdslen s)) else Ok s);
  x ← rd t 0 len;
  b ← wr (buf s) 0 x;
  b ← poke b len 0;
  Ok (sdssetlen (with_buf s b) len).

Definition sdscpy (s : sds) (t : list Z) : res sds := sdscpylen s t (zlen t).
End Alloc.

(** [strlen] of the text at the pointer: up to the first NUL of the allocation. *)
Fixpoint strlen (b : list Z) : res Z :=
  match b with
  | [] => Fault OutOfBounds
  | c :: b => if c =? 0 then Ok 0 else n ← strlen b; Ok (n + 1)
  end.

Definition sdsupdatelen (s : sds) : res sds :=
  reallen ← strlen (buf s); Ok (sdssetlen s (u64 (i32 reallen))).

(** [strchr(cset, c)] on the C string [cset]: its terminator counts as a member. *)
Definition strchr (cset : list Z) (c : Z) : bool := (c =? 0) || existsb (Z.eqb c) cset.

Fixpoint trim_left (fuel : nat) (b cset : list Z) (sp last : Z) : res Z :=
  match fuel with
  | O => Fault OutOfFuel
  | S fuel =>
    if sp <=? last then
      c ← peek b sp; if strchr cset c then trim_left fuel b cset (sp + 1) last else Ok sp
    else Ok sp
  end.

Fixpoint trim_right (fuel : nat) (b cset : list Z) (sp ep : Z) : res Z :=
  match fuel with
  | O => Fault OutOfFuel
  | S fuel =>
    if sp <? ep then
      c ← peek b ep; if strchr cset c then trim_right fuel b cset sp (ep - 1) else Ok ep
    else Ok ep
  end.

Definition sdstrim (s : sds) (cset : list Z) : res sds :=
  let last := sdslen s - 1 in
  let fuel := S (Z.to_nat (sdslen s)) in
  sp ← trim_left fuel (buf s) cset 0 last;
  ep ← trim_right fuel (buf s) cset sp last;
  let len := if ep <? sp then 0 else ep - sp + 1 in
  b ← (if sp =? 0 then Ok (buf s) else memmove (buf s) 0 sp len);
  b ← poke b len 0;
  Ok (sdssetlen (with_buf s b) len).

(** [start] and [end] are [int]s; [(end-start)+1] overflows [int] for the widest
    range, taken to wrap around. *)
Definition sdsrange (s : sds) (start stop : Z) : res sds :=
  let len := sdslen s in
  if len =? 0 then Ok s else
  let start := if start <? 0 then Z.max 0 (i32 (len + start)) else start in
  let stop := if stop <? 0 then Z.max 0 (i32 (len + stop)) else stop in
  let span a b := if b <? a then 0 else u64 (i32 (b - a + 1)) in
  let newlen := span start stop in
  let '(start, newlen) :=
    if negb (newlen =? 0) then
      if i32 len <=? start then (start, 0)
      else if i32 len <=? stop then (start, span start (i32 (len - 1)))
      else (start, newlen)
    else (0, newlen) in
  b ← (if negb (start =? 0) && negb (newlen =? 0) then memmove (buf s) 0 start newlen
       else Ok (buf s));
  b ← poke b newlen 0;
  Ok (sdssetlen (with_buf s b) newlen).

(** The loop [for (j = 0; j < len; j++) s[j] = f(s[j])]. *)
Fixpoint map_loop (f : Z -> Z) (n : nat) (j : Z) (b : list Z) : res (list Z) :=
  match n with
  | O => Ok b
  | S n => c ← peek b j; b ← poke b j (f c); map_loop f n (j + 1) b
  end.

Definition sdstolower (s : sds) : res sds :=
  b ← map_loop tolower (Z.to_nat (i32 (sdslen s))) 0 (buf s); Ok (with_buf s b).
Definition sdstoupper (s : sds) : res sds :=
  b ← map_loop toupper (Z.to_nat (i32 (sdslen s))) 0 (buf s); Ok (with_buf s b).

(** The inner loop of [sdsmapchars]: the first match in [from] decides. *)
Fixpoint mapchar (from to : list Z) (c : Z) : Z :=
  match from, to with
  | f :: from, t :: to => if c =? f then t else mapchar from to c
  | _, _ => c
  end.
Definition sdsmapchars (s : sds) (from to : list Z) : res sds :=
  b ← map_loop (mapchar from to) (Z.to_nat (sdslen s)) 0 (buf s); Ok (with_buf s b).

(** The sign of [memcmp] on two byte strings of the same length. *)
Fixpoint memcmp (a b : list Z) : Z :=
  match a, b with
  | x :: a, y :: b => if x <? y then -1 else if y <? x then 1 else memcmp a b
  | _, _ => 0
  end.

Definition sdscmp (s1 s2 : sds) : res Z :=
  let l1 := sdslen s1 in
  let l2 := sdslen s2 in
  let minlen := if l1 <? l2 then l1 else l2 in
  x ← rd (buf s1) 0 minlen;
  y ← rd (buf s2) 0 minlen;
  let cmp := memcmp x y in
  if cmp =? 0 then Ok (i32 (u64 (l1 - l2))) else Ok cmp.

(** ** Representation *)

(** The header is one the code produces, with [len <= alloc] within its width. *)
Definition hdr_ok (s : sds) : Prop :=
  (exists n, 0 <= n < 32 /\ flags s = n * 8) \/
  (1 <= flags s <= 4 /\ 0 <= hlen s <= halloc s /\ halloc s < 2 ^ hdr_bits (flags s)).

(** [s] holds the bytes [c] inside its allocation, with the byte [z] behind them;
    [repr]: it is a NUL-terminated string. *)
Record repr_term (z : Z) (s : sds) (c : list Z) : Prop := {
  repr_hdr : hdr_ok s;
  repr_len : sdslen s = zlen c;
  repr_buf : exists free, buf s = c ++ z :: free /\ sdsalloc s <= zlen c + zlen free }.
Arguments repr_hdr {z} s c _.
Arguments repr_len {z} s c _.
Arguments repr_buf {z} s c _.
Abbreviation repr := (repr_term 0).

Lemma land7_mul8 n : Z.land (n * 8) 7 = 0.
Proof.
  change 7 with (Z.ones 3). rewrite Z.land_ones by lia. change (2 ^ 3) with 8.
  apply Z.mod_mul. lia.
Qed.

Lemma sdstype_5 s n : flags s = n * 8 -> sdstype s = 0.
Proof. unfold sdstype, SDS_TYPE_MASK. intros ->. apply land7_mul8. Qed.

Lemma sdstype_hdr s : 1 <= flags s <= 4 -> sdstype s = flags s.
Proof.
  intros H. unfold sdstype, SDS_TYPE_MASK. change 7 with (Z.ones 3). rewrite Z.land_ones by lia.
  apply Z.mod_small. change (2 ^ 3) with 8. lia.
Qed.

Lemma shiftr3_mul8 n : Z.shiftr (n * 8) 3 = n.
Proof. rewrite Z.shiftr_div_pow2 by lia. apply Z.div_mul. lia. Qed.

Lemma hdr_bits_range t : 8 <= hdr_bits t <= 64.
Proof. unfold hdr_bits. repeat case_match; lia. Qed.

(** The two header shapes, with the accessors computed. *)
Inductive hdr_view (s : sds) : Prop :=
| view_5 n : 0 <= n < 32 -> flags s = n * 8 -> sdstype s = 0 ->
    sdslen s = n -> sdsalloc s = n -> sdsavail s = 0 -> hdr_view s
| view_hdr : 1 <= flags s <= 4 -> sdstype s = flags s ->
    sdslen s = hlen s -> sdsalloc s = halloc s -> sdsavail s = halloc s - hlen s ->
    0 <= hlen s <= halloc s -> halloc s < 2 ^ hdr_bits (flags s) -> hdr_view s.

Lemma hdr_ok_view s : hdr_ok s -> hdr_view s.
Proof.
  unfold sdslen, sdsalloc, sdsavail, SDS_TYPE_5_LEN, SDS_TYPE_5, SDS_TYPE_64, SDS_TYPE_BITS.
  intros [(n & Hn & E)|(Ht & Hl & Ha)].
  - pose proof (sdstype_5 s n E) as T.
    apply (view_5 s n); try done; unfold sdslen, sdsalloc, sdsavail; rewrite T; simpl; try done.
    all: unfold SDS_TYPE_5_LEN; rewrite E; apply shiftr3_mul8.
  - pose proof (sdstype_hdr s Ht) as T. pose proof (hdr_bits_range (flags s)).
    assert (2 ^ hdr_bits (flags s) <= 2 ^ 64) by (apply Z.pow_le_mono_r; lia).
    apply view_hdr; try done; unfold sdslen, sdsalloc, sdsavail; rewrite T.
    all: rewrite (proj2 (Z.eqb_neq _ _)) by (unfold SDS_TYPE_5; lia).
    all: rewrite (proj2 (Z.leb_le _ _)) by (unfold SDS_TYPE_64; lia); try done.
    apply uwrap_id. unfold in_u. lia.
Qed.

Lemma hdr_facts s : hdr_ok s ->
  0 <= sdslen s <= sdsalloc s /\ sdsavail s = sdsalloc s - sdslen s /\ sdsalloc s < 2 ^ 64.
Proof.
  intros H. destruct (hdr_ok_view s H) as [n ? ? ? -> -> ->|? ? -> -> -> ? ?]; [lia|].
  pose proof (hdr_bits_range (flags s)).
  assert (2 ^ hdr_bits (flags s) <= 2 ^ 64) by (apply Z.pow_le_mono_r; lia). lia.
Qed.

Lemma with_buf_hdr s b :
  sdslen (with_buf s b) = sdslen s /\ sdsalloc (with_buf s b) = sdsalloc s /\
  sdsavail (with_buf s b) = sdsavail s /\ (hdr_ok (with_buf s b) <-> hdr_ok s).
Proof. by destruct s. Qed.

Lemma setlen_ok s n :
  hdr_ok s -> 0 <= n <= sdsalloc s ->
  hdr_ok (sdssetlen s n) /\ sdslen (sdssetlen s n) = n /\
  sdsalloc (sdssetlen s n) <= sdsalloc s /\ buf (sdssetlen s n) = buf s.
Proof.
  intros H Hn. destruct (hdr_ok_view s H) as [m Hm Ef Et El Ea Ev|Ht Et El Ea Ev Hl Ha].
  - assert (sdssetlen s n = with_flags s (n * 8)) as ->.
    { unfold sdssetlen. rewrite Et. simpl. f_equal. unfold SDS_TYPE_BITS, SDS_TYPE_5.
      rewrite Z.lor_0_l.
      rewrite Z.shiftl_mul_pow2 by lia. change (2 ^ 3) with 8.
      rewrite (uwrap_id 64) by (unfold in_u; lia). rewrite uwrap_id; [done|unfold in_u; lia]. }
    assert (hdr_ok (with_flags s (n * 8))) as H' by (left; exists n; simpl; lia).
    split; [done|]. destruct (hdr_ok_view _ H') as [k ? Ek ? -> -> _|Ht ? ? ? ? ? ?];
      simpl in *; [repeat split; lia|exfalso; lia].
  - assert (sdssetlen s n = with_hlen s n) as ->.
    { unfold sdssetlen. rewrite Et. rewrite (proj2 (Z.eqb_neq _ _)) by (unfold SDS_TYPE_5; lia).
      rewrite (proj2 (Z.leb_le _ _)) by (unfold SDS_TYPE_64; lia). f_equal.
      apply uwrap_id. unfold in_u. lia. }
    assert (hdr_ok (with_hlen s n)) as H' by (right; simpl; lia).
    split; [done|]. destruct (hdr_ok_view _ H') as [k ? Ek ? ? ? ?|? ? -> -> _ ? ?];
      simpl in *; [exfalso; lia|repeat split; lia].
Qed.

Lemma repr_setlen s c free :
  hdr_ok s -> zlen c <= sdsalloc s -> buf s = c ++ 0 :: free ->
  sdsalloc s <= zlen c + zlen free -> repr (sdssetlen s (zlen c)) c.
Proof.
  intros H Hc Hb Hf. destruct (setlen_ok s (zlen c) H) as (H' & El & Ea & Eb).
  { split; [apply zlen_nonneg|done]. }
  constructor; [done|done|]. exists free. rewrite Eb. split; [done|lia].
Qed.

Lemma repr_bounds z s c : repr_term z s c ->
  zlen c <= sdsalloc s /\ sdsalloc s < 2 ^ 64 /\ sdsavail s = sdsalloc s - zlen c.
Proof. intros [H El _]. pose proof (hdr_facts s H). rewrite <- El. lia. Qed.

Lemma reqType_spec n : 0 <= n < 2 ^ 64 ->
  (sdsReqType n = 0 /\ n < 32) \/ (1 <= sdsReqType n <= 4 /\ n < 2 ^ hdr_bits (sdsReqType n)).
Proof.
  intros Hn. unfold sdsReqType.
  destruct (Z.ltb_spec n (2 ^ 5)); [left; split; [done|lia]|right].
  destruct (Z.ltb_spec n (2 ^ 8)); [by split|].
  destruct (Z.ltb_spec n (2 ^ 16)); [by split|].
  destruct (Z.ltb_spec n (2 ^ 32)); [by split|].
  split; [by split|]. change (2 ^ hdr_bits SDS_TYPE_64) with (2 ^ 64). lia.
Qed.

Lemma hdrSize_range t : 0 <= t <= 4 -> 1 <= sdsHdrSize t <= 17.
Proof.
  intros Ht. assert (t = 0 \/ t = 1 \/ t = 2 \/ t = 3 \/ t = 4) as [->|[->|[->|[->| ->]]]] by lia;
    vm_compute; split; congruence.
Qed.

(** A fresh or resized block keeps a prefix and has the asked size. *)
Lemma zrealloc_prefix junk p q n : zlen p <= n ->
  exists j, zrealloc junk (p ++ q) n = p ++ j /\ zlen j = n - zlen p.
Proof.
  intros Hn. unfold zrealloc, ztake. pose proof (zlen_nonneg p).
  rewrite take_app_ge by (unfold zlen in *; lia). rewrite <- app_assoc.
  eexists. split; [done|]. rewrite zlen_app, zlen_map. unfold zlen in *.
  rewrite length_take, length_seq, ?length_app. lia.
Qed.

Section AllocLemmas.
Context (junk : Z -> Z).

(** The header written by [sdsnewlen] and by a change of type. *)
Lemma fresh_hdr type len alloc b :
  1 <= type <= 4 -> 0 <= len <= alloc -> alloc < 2 ^ hdr_bits type ->
  let s := mk_sds type len alloc b in
  hdr_ok s /\ sdslen s = len /\ sdsalloc s = alloc.
Proof.
  intros Ht Hl Ha s. assert (hdr_ok s) as H by (right; simpl; lia). split; [done|].
  destruct (hdr_ok_view s H) as [n ? E _ _ _ _|_ _ -> -> _ _ _]; [simpl in E; lia|done].
Qed.

Lemma sdsnewlen_ok c rest :
  zlen c < 2 ^ 63 ->
  exists s, sdsnewlen junk (Some (c ++ rest)) (zlen c) = Ok s /\ repr s c.
Proof.
  intros Hc. pose proof (zlen_nonneg c). unfold sdsnewlen.
  set (type := if (sdsReqType (zlen c) =? SDS_TYPE_5) && (zlen c =? 0) then SDS_TYPE_8
               else sdsReqType (zlen c)).
  assert ((type = 0 /\ zlen c < 32) \/ (1 <= type <= 4 /\ zlen c < 2 ^ hdr_bits type)) as Ht.
  { subst type. pose proof (reqType_spec (zlen c) ltac:(lia)) as [[-> ?]|[? ?]].
    - destruct (Z.eqb_spec (zlen c) 0); simpl; [right|left]; [|lia]. split; [unfold SDS_TYPE_8; lia|].
      change (2 ^ hdr_bits SDS_TYPE_8) with 256. lia.
    - right. rewrite (proj2 (Z.eqb_neq _ _)) by (unfold SDS_TYPE_5; lia). done. }
  pose proof (hdrSize_range type ltac:(lia)) as Hh.
  rewrite (uwrap_id 64) by (unfold in_u; lia).
  destruct (zrealloc_prefix junk [] [] (sdsHdrSize type + zlen c + 1 - sdsHdrSize type))
    as (j & Ej & Hj); [change (zlen (@nil Z)) with 0; lia|].
  change (zlen (@nil Z)) with 0 in Hj. unfold malloc_buf. cbn [app] in Ej. rewrite Ej.
  destruct (list_split_at (zlen c) j) as (old & z & -> & Ho); [lia|].
  rewrite zlen_app in Hj. destruct z as [|z [|? ?]]; [zl| |zl].
  assert (forall s0, buf s0 = old ++ [z] ->
    (b ← (if zlen c =? 0 then Ok (buf s0) else x ← rd (c ++ rest) 0 (zlen c); wr (buf s0) 0 x);
     b ← poke b (zlen c) 0; Ok (with_buf s0 b)) = Ok (with_buf s0 (c ++ [0]))) as Hcopy.
  { intros s0 ->. destruct (Z.eqb_spec (zlen c) 0) as [E|E].
    - rewrite (zlen_0_nil c E) in *. rewrite (zlen_0_nil old Ho). done.
    - rewrite rd_app0 by done. cbn [mbind res_bind]. rewrite wr_app0 by done. cbn [mbind res_bind]. by rewrite (poke_app c z 0 [] (zlen c) eq_refl). }
  destruct Ht as [[-> Hlt]|[Ht Hlt]].
  - rewrite Hcopy by done. eexists. split; [done|].
    change (Z.lor 0 (Z.shiftl (zlen c) SDS_TYPE_BITS)) with (Z.shiftl (zlen c) 3).
    rewrite Z.shiftl_mul_pow2 by lia. change (2 ^ 3) with 8.
    rewrite uwrap_id by (unfold in_u; lia).
    assert (hdr_ok (mk_sds (zlen c * 8) 0 0 (c ++ [0]))) as H' by (left; exists (zlen c); simpl; lia).
    unfold with_buf; simpl.
    destruct (hdr_ok_view _ H') as [n ? E ? El Ea _|]; simpl in *; [|lia].
    assert (n = zlen c) as -> by lia. constructor; [done|done|]. exists []. split; [done|].
    change (zlen (@nil Z)) with 0. lia.
  - rewrite (proj2 (Z.eqb_neq _ _)) by (unfold SDS_TYPE_5; lia).
    rewrite Hcopy by done. eexists. split; [done|]. unfold with_buf; simpl.
    rewrite !(uwrap_id (hdr_bits type)) by (unfold in_u; lia).
    destruct (fresh_hdr type (zlen c) (zlen c) (c ++ [0])) as (H1 & H2 & H3); [done|lia|done|].
    constructor; [done|done|]. exists []. split; [done|]. change (zlen (@nil Z)) with 0. lia.
Qed.

Lemma sdsretype_ok z s c type size n :
  repr_term z s c -> 1 <= type <= 4 -> zlen c <= n < 2 ^ hdr_bits type ->
  size - sdsHdrSize type = n + 1 ->
  exists s', sdsretype junk s type size (zlen c) = Ok s' /\
    repr_term z (sdssetalloc s' n) c /\ sdsalloc (sdssetalloc s' n) = n.
Proof.
  intros [H El (free & Hb & Hf)] Ht Hn Hs. pose proof (zlen_nonneg c). unfold sdsretype.
  rewrite Hb, cons_middle, app_assoc.
  rewrite rd_app0 by zl. cbn [mbind res_bind]. unfold malloc_buf. rewrite Hs.
  destruct (zrealloc_prefix junk [] [] (n + 1)) as (j & Ej & Hj);
    [change (zlen (@nil Z)) with 0; lia|].
  change (zlen (@nil Z)) with 0 in Hj. cbn [app] in Ej. rewrite Ej.
  destruct (list_split_at (zlen c + 1) j) as (old & j' & -> & Ho); [lia|].
  rewrite wr_app0 by zl. cbn [mbind res_bind]. eexists. split; [done|].
  set (t := mk_sds type (hlen s) (halloc s) ((c ++ [z]) ++ j')).
  assert (sdstype t = type) as Tt by (apply (sdstype_hdr t); done).
  assert (sdssetalloc (sdssetlen t (zlen c)) n = mk_sds type (zlen c) n (c ++ z :: j')) as ->.
  { unfold sdssetlen. rewrite Tt. rewrite (proj2 (Z.eqb_neq _ _)) by (unfold SDS_TYPE_5; lia).
    rewrite (proj2 (Z.leb_le _ _)) by (unfold SDS_TYPE_64; lia). unfold sdssetalloc.
    assert (sdstype (with_hlen t (uwrap (hdr_bits type) (zlen c))) = type) as -> by apply Tt.
    rewrite (proj2 (Z.eqb_neq _ _)) by (unfold SDS_TYPE_5; lia).
    rewrite (proj2 (Z.leb_le _ _)) by (unfold SDS_TYPE_64; lia).
    unfold with_halloc, with_hlen; simpl. rewrite !uwrap_id by (unfold in_u; lia).
    by rewrite <- app_assoc. }
  destruct (fresh_hdr type (zlen c) n (c ++ z :: j')) as (H1 & H2 & H3); [done|lia|lia|].
  split; [|done]. constructor; [done|done|]. exists j'. split; [done|]. rewrite H3. zl.
Qed.

Lemma setalloc_ok s n :
  hdr_ok s -> sdstype s <> 0 -> sdslen s <= n < 2 ^ hdr_bits (sdstype s) ->
  hdr_ok (sdssetalloc s n) /\ sdslen (sdssetalloc s n) = sdslen s /\
  sdsalloc (sdssetalloc s n) = n /\ buf (sdssetalloc s n) = buf s.
Proof.
  intros H H0 Hn. destruct (hdr_ok_view s H) as [m Hm Ef Et El Ea Ev|Ht Et El Ea Ev Hl Ha]; [done|].
  assert (sdssetalloc s n = with_halloc s n) as ->.
  { unfold sdssetalloc. rewrite Et in *. rewrite (proj2 (Z.eqb_neq _ _)) by (unfold SDS_TYPE_5; lia).
    rewrite (proj2 (Z.leb_le _ _)) by (unfold SDS_TYPE_64; lia). f_equal.
    apply uwrap_id. unfold in_u. lia. }
  destruct (fresh_hdr (flags s) (hlen s) n (buf s)) as (H1 & H2 & H3); [done|lia|rewrite Et in Hn; lia|].
  change (mk_sds (flags s) (hlen s) n (buf s)) with (with_halloc s n) in *.
  split; [done|]. split; [congruence|]. by split.
Qed.

(** Resizing the allocation to [n] usable bytes under header type [type]. *)
Lemma resize_ok z s c type n :
  repr_term z s c -> 1 <= type <= 4 -> zlen c <= n < 2 ^ hdr_bits type -> n < 2 ^ 63 ->
  exists s',
    (s ← (if sdstype s =? type
          then Ok (with_buf s (zrealloc junk (buf s)
                 (u64 (sdsHdrSize type + n + 1) - sdsHdrSize type)))
          else sdsretype junk s type (u64 (sdsHdrSize type + n + 1)) (zlen c));
     Ok (sdssetalloc s n)) = Ok s' /\ repr_term z s' c /\ sdsalloc s' = n.
Proof.
  intros Hr Ht Hn Hb. pose proof (hdrSize_range type ltac:(lia)). pose proof (zlen_nonneg c).
  rewrite (uwrap_id 64) by (unfold in_u; lia).
  destruct (Z.eqb_spec (sdstype s) type) as [E|E].
  - pose proof Hr as [H' El (free & Eb & Hf)].
    destruct (setalloc_ok (with_buf s (zrealloc junk (buf s)
      (sdsHdrSize type + n + 1 - sdsHdrSize type))) n) as (H1 & H2 & H3 & H4).
    + by apply with_buf_hdr.
    + unfold sdstype in *. simpl. lia.
    + destruct (with_buf_hdr s (zrealloc junk (buf s) (sdsHdrSize type + n + 1 - sdsHdrSize type)))
        as (-> & _). unfold sdstype in *. simpl. rewrite E, El. lia.
    + set (t := sdssetalloc _ n) in *. exists t. split; [done|]. clearbody t.
      split; [|done]. constructor; [done|by rewrite H2|]. rewrite H3, H4. simpl. rewrite Eb, cons_middle, app_assoc.
      destruct (zrealloc_prefix junk (c ++ [z]) free
        (sdsHdrSize type + n + 1 - sdsHdrSize type)) as (j & -> & Hj); [zl|].
      exists j. split; [by rewrite <- app_assoc|]. zl.
  - destruct (sdsretype_ok z s c type (sdsHdrSize type + n + 1) n) as (s' & -> & Hr' & Ha);
      [done|done|done|lia|].
    cbn [mbind res_bind]. by exists (sdssetalloc s' n).
Qed.

Lemma sdsMakeRoomFor_ok z s c addlen :
  repr_term z s c -> 0 <= addlen -> zlen c + addlen < 2 ^ 61 ->
  exists s', sdsMakeRoomFor junk s addlen = Ok s' /\ repr_term z s' c /\ zlen c + addlen <= sdsalloc s'.
Proof.
  intros Hr Ha Hb. pose proof (repr_bounds _ s c Hr) as (B1 & B2 & B3). pose proof (zlen_nonneg c).
  unfold sdsMakeRoomFor. rewrite B3, (repr_len s c Hr).
  destruct (Z.leb_spec addlen (sdsalloc s - zlen c)); [exists s; split; [done|split; [done|lia]]|].
  set (newlen := if _ <? _ then _ else _).
  assert (zlen c + addlen <= newlen < 2 ^ 62 + 2 ^ 20) as Hn.
  { subst newlen. rewrite (uwrap_id 64 (zlen c + addlen)) by (unfold in_u; lia).
    unfold SDS_MAX_PREALLOC. case_match; rewrite uwrap_id; unfold in_u; lia. }
  clearbody newlen. set (type := if sdsReqType newlen =? SDS_TYPE_5 then SDS_TYPE_8 else sdsReqType newlen).
  assert (1 <= type <= 4 /\ newlen < 2 ^ hdr_bits type) as [Ht Hnl].
  { subst type. destruct (reqType_spec newlen) as [[-> ?]|[? ?]]; [lia|..].
    - simpl. split; [unfold SDS_TYPE_8; lia|]. change (2 ^ hdr_bits SDS_TYPE_8) with 256. lia.
    - rewrite (proj2 (Z.eqb_neq _ _)) by (unfold SDS_TYPE_5; lia). done. }
  clearbody type.
  destruct (resize_ok z s c type newlen Hr Ht) as (s' & E & Hr' & Ha'); [lia|lia|].
  rewrite E. exists s'. split; [done|]. split; [done|lia].
Qed.

(** Overwriting the bytes from [off] on and fixing the length: the shape of every
    operation that edits a string in place. *)
Lemma repr_write s b c z free :
  hdr_ok s -> zlen c <= sdsalloc s -> sdsalloc s <= zlen c + zlen free -> b = c ++ z :: free ->
  exists b', poke b (zlen c) 0 = Ok b' /\ repr (sdssetlen (with_buf s b') (zlen c)) c /\
    repr (with_buf (sdssetlen (with_buf s b) (zlen c)) b') c.
Proof.
  intros H Hc Hf ->. exists (c ++ 0 :: free). split; [by apply poke_app|].
  assert (hdr_ok (with_buf s (c ++ 0 :: free))) as Hh by by apply with_buf_hdr.
  pose proof (repr_setlen (with_buf s (c ++ 0 :: free)) c free Hh Hc eq_refl Hf) as Hr.
  split; [done|]. replace (with_buf _ _) with (sdssetlen (with_buf s (c ++ 0 :: free)) (zlen c));
    [done|]. unfold sdssetlen, sdstype, with_flags, with_hlen, with_buf. simpl. by repeat case_match.
Qed.

Lemma split_cons_at {A} n (l : list A) :
  0 <= n < zlen l -> exists a x b, l = a ++ x :: b /\ zlen a = n.
Proof.
  intros H. destruct (list_split_at n l) as (a & [|x b] & -> & E); [lia|zl|by exists a, x, b].
Qed.

Lemma sdscatlen_ok s c t rest :
  repr s c -> zlen c + zlen t < 2 ^ 61 ->
  exists s', sdscatlen junk s (t ++ rest) (zlen t) = Ok s' /\ repr s' (c ++ t).
Proof.
  intros Hr Hb. pose proof (zlen_nonneg t). pose proof (zlen_nonneg c). unfold sdscatlen.
  rewrite (repr_len s c Hr).
  destruct (sdsMakeRoomFor_ok 0 s c (zlen t) Hr ltac:(lia) Hb) as (s1 & -> & Hr1 & Ha).
  cbn [mbind res_bind]. rewrite rd_app0 by done. cbn [mbind res_bind].
  pose proof Hr1 as [H1 El (free & Eb & Hf)]. rewrite Eb.
  destruct (split_cons_at (zlen t) (0 :: free)) as (old & z & f2 & E & Ho); [zl|].
  rewrite E, (wr_app c old t (z :: f2)) by done. cbn [mbind res_bind].
  apply (f_equal zlen) in E. rewrite (uwrap_id 64), <- zlen_app by (unfold in_u; lia).
  destruct (repr_write s1 (c ++ t ++ z :: f2) (c ++ t) z f2) as (b' & Ep & _ & Hr');
    [done|zl|zl|by rewrite app_assoc|].
  assert (forall n, buf (sdssetlen (with_buf s1 (c ++ t ++ z :: f2)) n) = c ++ t ++ z :: f2) as ->.
  { intros. unfold sdssetlen. by repeat case_match. }
  rewrite Ep. by eexists.
Qed.

Lemma sdsgrowzero_ok s c len :
  repr s c -> len < 2 ^ 61 ->
  exists s', sdsgrowzero junk s len = Ok s' /\ repr s' (c ++ zrep (len - zlen c) 0).
Proof.
  intros Hr Hl. pose proof (zlen_nonneg c). unfold sdsgrowzero. rewrite (repr_len s c Hr).
  destruct (Z.leb_spec len (zlen c)).
  { exists s. split; [done|]. replace (zrep (len - zlen c) 0) with (@nil Z).
    { by rewrite app_nil_r. }
    unfold zrep. by replace (Z.to_nat (len - zlen c)) with 0%nat by lia. }
  destruct (sdsMakeRoomFor_ok 0 s c (len - zlen c) Hr ltac:(lia) ltac:(lia)) as (s1 & -> & Hr1 & Ha).
  cbn [mbind res_bind]. pose proof Hr1 as [H1 El (free & Eb & Hf)]. rewrite Eb.
  destruct (list_split_at (len - zlen c + 1) (0 :: free)) as (old & f2 & E & Ho); [zl|].
  rewrite E, (wr_app c old) by zl. cbn [mbind res_bind]. eexists. split; [done|].
  apply (f_equal zlen) in E.
  assert (zrep (len - zlen c + 1) 0 = zrep (len - zlen c) 0 ++ [0]) as ->.
  { unfold zrep. replace (Z.to_nat (len - zlen c + 1)) with (Z.to_nat (len - zlen c) + 1)%nat by lia.
    by rewrite replicate_add. }
  replace len with (zlen (c ++ zrep (len - zlen c) 0)) at 2 by zl.
  apply (repr_setlen _ _ f2); [by apply with_buf_hdr| | |].
  - destruct (with_buf_hdr s1 (c ++ (zrep (len - zlen c) 0 ++ [0]) ++ f2)) as (_ & -> & _). zl.
  - simpl. by rewrite <- !app_assoc.
  - destruct (with_buf_hdr s1 (c ++ (zrep (len - zlen c) 0 ++ [0]) ++ f2)) as (_ & -> & _). zl.
Qed.

Lemma sdscpylen_ok s c t rest :
  repr s c -> zlen t < 2 ^ 61 ->
  exists s', sdscpylen junk s (t ++ rest) (zlen t) = Ok s' /\ repr s' t.
Proof.
  intros Hr Hb. pose proof (zlen_nonneg t). pose proof (zlen_nonneg c). unfold sdscpylen.
  pose proof (repr_bounds _ s c Hr) as Hbs. rewrite (repr_len s c Hr).
  assert (exists s1, (if sdsalloc s <? zlen t then sdsMakeRoomFor junk s (u64 (zlen t - zlen c))
    else Ok s) = Ok s1 /\ repr s1 c /\ zlen t <= sdsalloc s1) as (s1 & -> & Hr1 & Ha).
  { destruct (Z.ltb_spec (sdsalloc s) (zlen t)); [|by exists s].
    rewrite uwrap_id by (unfold in_u; lia).
    destruct (sdsMakeRoomFor_ok 0 s c (zlen t - zlen c) Hr ltac:(lia) ltac:(lia)) as (s1 & ? & ? & ?).
    exists s1. split; [done|]. split; [done|lia]. }
  cbn [mbind res_bind]. rewrite rd_app0 by done. cbn [mbind res_bind].
  pose proof Hr1 as [H1 El (free & Eb & Hf)].
  destruct (split_cons_at (zlen t) (buf s1)) as (old & z & f2 & E & Ho); [rewrite Eb; zl|].
  assert (zlen (buf s1) = zlen c + zlen free + 1) as Hz by (rewrite Eb; zl).
  rewrite E, (wr_app0 old) by done. cbn [mbind res_bind]. rewrite E in Hz.
  destruct (repr_write s1 (t ++ z :: f2) t z f2) as (b' & -> & Hr' & _);
    [done|zl|zl|done|]. by eexists.
Qed.

Lemma sdsclear_ok s c : repr s c -> exists s', sdsclear s = Ok s' /\ repr s' [].
Proof.
  intros Hr. pose proof (repr_bounds _ s c Hr). destruct Hr as [H1 El (free & Eb & Hf)].
  destruct (split_cons_at 0 (c ++ 0 :: free)) as (old & z & f2 & E & Ho); [zl|].
  apply zlen_0_nil in Ho as ->. assert (zlen f2 = zlen c + zlen free) by (apply (f_equal zlen) in E; zl).
  destruct (repr_write s (buf s) [] z f2) as (b' & Ep & _ & Hr');
    [done|change (zlen (@nil Z)) with 0; zl|change (zlen (@nil Z)) with 0; zl|by rewrite Eb|].
  unfold sdsclear. replace (buf (sdssetlen s 0)) with (buf s)
    by (unfold sdssetlen; by repeat case_match).
  change (zlen (@nil Z)) with 0 in *. rewrite Ep. eexists. split; [done|].
  by destruct s.
Qed.

(** Moving a short string under a type 5 header. *)
Lemma sdsretype5_ok s c :
  repr s c -> zlen c < 32 ->
  exists s', sdsretype junk s SDS_TYPE_5 (sdsHdrSize SDS_TYPE_5 + zlen c + 1) (zlen c) = Ok s' /\
    repr s' c /\ sdsalloc s' = zlen c /\ sdstype s' = 0.
Proof.
  intros [H El (free & Eb & Hf)] Hl. pose proof (zlen_nonneg c). unfold sdsretype.
  rewrite Eb, cons_middle, app_assoc, rd_app0 by zl. cbn [mbind res_bind]. unfold malloc_buf.
  replace (sdsHdrSize SDS_TYPE_5 + zlen c + 1 - sdsHdrSize SDS_TYPE_5) with (zlen c + 1) by lia.
  assert (zlen (zrealloc junk [] (zlen c + 1)) = zlen c + 1) as Hz by (apply zlen_zrealloc; lia).
  rewrite <- (app_nil_r (zrealloc _ _ _)), wr_app0, app_nil_r by zl. cbn [mbind res_bind].
  eexists. split; [done|]. unfold sdssetlen. simpl. unfold SDS_TYPE_BITS.
  rewrite Z.shiftl_mul_pow2 by lia. change (2 ^ 3) with 8.
  rewrite (uwrap_id 64) by (unfold in_u; lia). unfold SDS_TYPE_5. rewrite Z.lor_0_l.
  rewrite uwrap_id by (unfold in_u; lia). set (s' := with_flags _ _).
  assert (hdr_ok s') as H' by (left; exists (zlen c); simpl; lia).
  destruct (hdr_ok_view s' H') as [n ? E Et El' Ea _|]; simpl in *; [|lia].
  assert (n = zlen c) as -> by lia. split; [|done].
  constructor; [done|done|]. exists []. split; [by subst s'|]. change (zlen (@nil Z)) with 0. lia.
Qed.

Lemma sdsRemoveFreeSpace_ok s c :
  repr s c -> zlen c < 2 ^ 63 ->
  exists s', sdsRemoveFreeSpace junk s = Ok s' /\ repr s' c /\ sdsavail s' = 0.
Proof.
  intros Hr Hl. pose proof (zlen_nonneg c).
  assert (forall s', repr s' c -> sdsalloc s' = zlen c -> sdsavail s' = 0) as Hav.
  { intros s' H' E. pose proof (repr_bounds _ s' c H'). lia. }
  unfold sdsRemoveFreeSpace. rewrite (repr_len s c Hr).
  destruct (reqType_spec (zlen c) ltac:(lia)) as [[-> Hlt]|[Ht Hlt]].
  - pose proof (hdrSize_range 0 ltac:(lia)). rewrite (uwrap_id 64) by (unfold in_u; lia).
    destruct (Z.eqb_spec (sdstype s) 0) as [E|E].
    + pose proof Hr as [Hh El (free & Eb & Hf)].
      destruct (hdr_ok_view s Hh) as [n Hn Ef Et El' Ea Ev|]; [|lia].
      rewrite Eb, cons_middle, app_assoc.
      destruct (zrealloc_prefix junk (c ++ [0]) free (sdsHdrSize 0 + zlen c + 1 - sdsHdrSize 0))
        as (j & -> & Hj); [zl|]. cbn [mbind res_bind]. eexists. split; [done|].
      unfold sdssetalloc. change (sdstype (with_buf s ((c ++ [0]) ++ j))) with (sdstype s).
      rewrite Et. simpl. destruct (with_buf_hdr s ((c ++ [0]) ++ j)) as (B1 & B2 & B3 & B4).
      split; [|by rewrite B3]. constructor; [by apply B4|by rewrite B1|]. exists j.
      split; [by rewrite <- app_assoc|rewrite B2; zl].
    + destruct (sdsretype5_ok s c Hr Hlt) as (s' & E' & Hr' & Ha & Et). unfold SDS_TYPE_5 in E'.
      rewrite E'. cbn [mbind res_bind]. eexists. split; [done|].
      unfold sdssetalloc. rewrite Et. simpl. auto.
  - destruct (resize_ok 0 s c (sdsReqType (zlen c)) (zlen c) Hr Ht) as (s' & E & Hr' & Ha'); [lia|lia|].
    rewrite E. exists s'. auto.
Qed.
End AllocLemmas.

(** ** In-place edits *)

Fixpoint drop_while {A} (p : A -> bool) (l : list A) : list A :=
  match l with
  | [] => []
  | x :: l' => if p x then drop_while p l' else l
  end.

(** Strip a prefix and a suffix of characters satisfying [p]. *)
Definition trim_both (p : Z -> bool) (c : list Z) : list Z :=
  reverse (drop_while p (reverse (drop_while p c))).

(** The substring from [start] to [stop] inclusive, negative positions counted from
    the end and clipped to the first character. *)
Definition substring (start stop : Z) (c : list Z) : list Z :=
  let pos i := if i <? 0 then Z.max 0 (zlen c + i) else i in
  ztake (pos stop - pos start + 1) (zdrop (pos start) c).

Lemma trim_left_ok cset pre l rest fuel last :
  (length l < fuel)%nat -> last = zlen pre + zlen l - 1 ->
  exists l1, l = l1 ++ drop_while (strchr cset) l /\
    trim_left fuel (pre ++ l ++ rest) cset (zlen pre) last = Ok (zlen pre + zlen l1).
Proof.
  revert pre fuel. induction l as [|x l IH]; intros pre fuel Hf ->; (destruct fuel; [lia|]); simpl.
  - exists []. split; [done|]. rewrite (proj2 (Z.leb_gt _ _)) by zl. f_equal. zl.
  - rewrite (proj2 (Z.leb_le _ _)) by zl. rewrite peek_app by done. cbn [mbind res_bind].
    destruct (strchr cset x); [|exists []; split; [done|f_equal; zl]].
    destruct (IH (pre ++ [x]) fuel) as (l1 & E & Et); [simpl in Hf; lia|zl|].
    exists (x :: l1). split; [by rewrite <- app_comm_cons, <- E|].
    rewrite <- app_assoc, zlen_app in Et. change (zlen [x]) with 1 in Et.
    simpl in Et. rewrite Et. f_equal. zl.
Qed.

(** The right scan over [x :: l], whose first character it never looks at. *)
Lemma trim_right_ok cset pre x l rest fuel :
  (length l < fuel)%nat -> strchr cset x = false ->
  exists l2, x :: l = reverse (drop_while (strchr cset) (reverse (x :: l))) ++ l2 /\
    trim_right fuel (pre ++ x :: l ++ rest) cset (zlen pre) (zlen pre + zlen l) =
      Ok (zlen pre + zlen l - zlen l2).
Proof.
  intros Hf Hx. revert fuel rest Hf. induction l as [|y l IH] using rev_ind; intros fuel rest Hf;
    (destruct fuel; [lia|]); cbn [trim_right].
  - exists []. rewrite (proj2 (Z.ltb_ge _ _)) by zl. simpl. rewrite Hx. split; [done|f_equal; zl].
  - rewrite (proj2 (Z.ltb_lt _ _)) by zl.
    assert (peek (pre ++ x :: (l ++ [y]) ++ rest) (zlen pre + zlen (l ++ [y])) = Ok y) as ->.
    { rewrite <- (app_assoc l), app_comm_cons, app_assoc. apply peek_app. zl. }
    cbn [mbind res_bind].
    rewrite app_comm_cons, reverse_snoc. cbn [drop_while].
    destruct (strchr cset y).
    + destruct (IH fuel ([y] ++ rest)) as (l2 & E2 & Et); [rewrite length_app in Hf; simpl in Hf; lia|].
      exists (l2 ++ [y]). split; [by rewrite app_assoc, <- E2|].
      rewrite <- app_assoc. replace (zlen pre + zlen (l ++ [y]) - 1) with (zlen pre + zlen l) by zl.
      rewrite Et. f_equal. zl.
    + exists []. split; [rewrite <- reverse_snoc, reverse_involutive; by rewrite app_nil_r|f_equal; zl].
Qed.

Lemma drop_while_head {A} (p : A -> bool) l x l' : drop_while p l = x :: l' -> p x = false.
Proof. induction l as [|y l IH]; simpl; [done|]. destruct (p y) eqn:E; [auto|by intros [= -> ->]]. Qed.

Lemma drop_while_last {A} (p : A -> bool) x l :
  p x = false -> drop_while p (reverse (x :: l)) <> [].
Proof.
  intros Hx. rewrite reverse_cons. generalize (reverse l). intros k.
  induction k as [|y k IH]; simpl; [by rewrite Hx|by destruct (p y)].
Qed.

(** Keeping the [n] bytes from [off] on: the common tail of [sdstrim] and [sdsrange]. *)
Lemma keep_ok s pre m post (b0 : bool) :
  repr s (pre ++ m ++ post) -> (b0 = false -> m = [] \/ pre = []) ->
  exists b, (b ← (if b0 then memmove (buf s) 0 (zlen pre) (zlen m) else Ok (buf s));
             b ← poke b (zlen m) 0; Ok (sdssetlen (with_buf s b) (zlen m))) = Ok b /\ repr b m.
Proof.
  intros Hr Hb. pose proof (repr_bounds _ s _ Hr) as Hbd. destruct Hr as [H El (free & Eb & Hf)].
  destruct (list_split_at (zlen m) (pre ++ m)) as (o & q & E & Ho); [zl|].
  assert (exists b z f2, (if b0 then memmove (buf s) 0 (zlen pre) (zlen m) else Ok (buf s)) = Ok b /\
    b = m ++ z :: f2 /\ zlen b = zlen (buf s)) as (b & z & f2 & -> & -> & Hz).
  { destruct (q ++ post ++ 0 :: free) as [|z f2] eqn:Eq; [by destruct q, post|].
    assert (buf s = o ++ z :: f2) as Eb' by (rewrite Eb, !app_assoc, E, <- !app_assoc, Eq; done).
    exists (m ++ z :: f2), z, f2. split; [|by rewrite Eb', !zlen_app, Ho].
    destruct b0.
    - unfold memmove. replace (rd (buf s) (zlen pre) (zlen m)) with (@Ok (list Z) m).
      { rewrite Eb'. by apply wr_app0. }
      rewrite Eb, <- !app_assoc. by rewrite rd_app.
    - rewrite Eb'. destruct (Hb eq_refl) as [-> | ->].
      + by rewrite (zlen_0_nil o Ho).
      + simpl in E. f_equal. f_equal. symmetry. by apply (f_equal (ztake (zlen m))) in E;
          rewrite ztake_all in E by lia; rewrite ztake_app in E by lia. }
  cbn [mbind res_bind]. rewrite Eb in Hz.
  destruct (repr_write s (m ++ z :: f2) m z f2) as (b' & -> & Hr' & _); [done|zl|zl|done|].
  by eexists.
Qed.

Lemma sdstrim_ok s c cset : repr s c ->
  exists s', sdstrim s cset = Ok s' /\ repr s' (trim_both (strchr cset) c).
Proof.
  intros Hr. pose proof (repr_buf s c Hr) as (free & Eb & _).
  unfold sdstrim, trim_both. rewrite (repr_len s c Hr).
  destruct (trim_left_ok cset [] c (0 :: free) (S (Z.to_nat (zlen c))) (zlen c - 1))
    as (l1 & E1 & Hl); [unfold zlen; lia|done|].
  change (zlen (@nil Z)) with 0 in Hl. rewrite Z.add_0_l in Hl. simpl app in Hl.
  rewrite <- Eb in Hl. rewrite Hl. cbn [mbind res_bind]. clear Hl.
  destruct (drop_while (strchr cset) c) as [|x l] eqn:Ed.
  - rewrite app_nil_r in E1. subst l1. cbn [trim_right].
    rewrite (proj2 (Z.ltb_ge _ _)) by lia. cbn [mbind res_bind].
    rewrite (proj2 (Z.ltb_lt _ _)) by lia.
    destruct (keep_ok s c [] [] (negb (zlen c =? 0))) as (s' & Hk & Hr'); [by rewrite app_nil_r|auto|].
    exists s'. split; [|done]. rewrite <- Hk. change (zlen (@nil Z)) with 0. by destruct (zlen c =? 0).
  - pose proof (drop_while_head _ _ _ _ Ed) as Hx.
    destruct (trim_right_ok cset l1 x l (0 :: free) (S (Z.to_nat (zlen c)))) as (l2 & E2 & Ht);
      [rewrite E1, zlen_app, zlen_cons; unfold zlen; lia|done|].
    assert (zlen c = zlen l1 + zlen l + 1) as Hz by (rewrite E1; zl).
    assert (buf s = l1 ++ x :: l ++ 0 :: free) as Eb2 by (rewrite Eb, E1, <- app_assoc; done).
    rewrite <- Eb2 in Ht. replace (zlen c - 1) with (zlen l1 + zlen l) by lia. rewrite Ht. cbn [mbind res_bind].
    set (m := reverse _) in *. assert (zlen m + zlen l2 = zlen l + 1) as Hm
      by (rewrite <- zlen_app, <- E2; zl).
    assert (0 < zlen m).
    { subst m. rewrite zlen_reverse. pose proof (drop_while_last (strchr cset) x l Hx).
      destruct (drop_while _ (reverse _)) as [|y k]; [done|]. rewrite zlen_cons. pose proof (zlen_nonneg k). lia. }
    rewrite (proj2 (Z.ltb_ge _ _)) by lia. replace (zlen l1 + zlen l - zlen l2 - zlen l1 + 1) with (zlen m) by lia.
    destruct (keep_ok s l1 m l2 (negb (zlen l1 =? 0))) as (s' & Hk & Hr').
    { by rewrite <- E2, <- E1. }
    { intros Hn. right. apply zlen_0_nil. lia. }
    exists s'. split; [|done]. rewrite <- Hk. by destruct (zlen l1 =? 0).
Qed.

Lemma sdsrange_ok s c start stop :
  repr s c -> zlen c < 2 ^ 31 -> in_s 32 start -> in_s 32 stop ->
  exists s', sdsrange s start stop = Ok s' /\ repr s' (substring start stop c).
Proof.
  unfold in_s. intros Hr Hl Hs He. unfold sdsrange. rewrite (repr_len s c Hr).
  destruct (Z.eqb_spec (zlen c) 0) as [E|E].
  { exists s. split; [done|]. apply zlen_0_nil in E as ->. unfold substring, ztake, zdrop.
    by rewrite drop_nil, take_nil. }
  set (P := fun i => if i <? 0 then Z.max 0 (zlen c + i) else i).
  change (substring start stop c) with (ztake (P stop - P start + 1) (zdrop (P start) c)).
  assert (forall i, - 2 ^ 31 <= i < 2 ^ 31 ->
    (if i <? 0 then Z.max 0 (i32 (zlen c + i)) else i) = P i /\ 0 <= P i < 2 ^ 31) as HP.
  { intros i Hi. pose proof (zlen_nonneg c). unfold P. destruct (Z.ltb_spec i 0); [|lia].
    rewrite swrap_id by (unfold in_s; lia). lia. }
  destruct (HP start Hs) as [-> Hps], (HP stop He) as [-> Hpe].
  set (a := P start) in *. set (e := P stop) in *. clearbody a e. clear P HP.
  set (m := ztake _ _).
  assert (zlen m = Z.max 0 (Z.min (e - a + 1) (Z.max 0 (zlen c - a)))) as Hm
    by (subst m; rewrite zlen_ztake, zlen_zdrop; lia).
  assert (forall st nl, nl = zlen m -> (nl <> 0 -> st = a) -> exists s',
    (b ← (if negb (st =? 0) && negb (nl =? 0) then memmove (buf s) 0 st nl else Ok (buf s));
     b ← poke b nl 0; Ok (sdssetlen (with_buf s b) nl)) = Ok s' /\ repr s' m) as Hk.
  { intros st nl -> Hst. destruct (Z.eqb_spec (zlen m) 0) as [Em|Em].
    - apply zlen_0_nil in Em. rewrite Em. rewrite andb_false_r. by apply (keep_ok s [] [] c false); [|auto].
    - rewrite (Hst Em), andb_true_r. assert (a <= zlen c) by lia.
      replace (memmove (buf s) 0 a (zlen m)) with (memmove (buf s) 0 (zlen (ztake a c)) (zlen m))
        by (rewrite zlen_ztake; f_equal; lia).
      apply (keep_ok s (ztake a c) m (zdrop (e - a + 1) (zdrop a c))).
      + subst m. by rewrite !ztake_zdrop.
      + intros Hn. right. apply ztake_0. lia. }
  assert (forall z, 0 <= z < 2 ^ 31 -> u64 (i32 z) = z) as Hw.
  { intros. rewrite swrap_id by (unfold in_s; lia). apply uwrap_id. unfold in_u. lia. }
  pose proof (zlen_nonneg c).
  rewrite (swrap_id 32 (zlen c)), (swrap_id 32 (zlen c - 1)) by (unfold in_s; lia).
  destruct (Z.ltb_spec e a); [apply (Hk 0 0); lia|].
  assert (u64 (i32 (e - a + 1)) <> 0) as Hne.
  { destruct (decide (e - a + 1 = 2 ^ 31)) as [->|]; [by vm_compute|rewrite Hw; lia]. }
  rewrite (proj2 (Z.eqb_neq _ _) Hne). cbn [negb].
  destruct (Z.leb_spec (zlen c) a); [apply Hk; lia|].
  destruct (Z.leb_spec (zlen c) e).
  - rewrite (proj2 (Z.ltb_ge _ _)), Hw by lia. apply Hk; lia.
  - rewrite Hw by lia. apply Hk; lia.
Qed.

Lemma map_loop_ok f pre l rest :
  map_loop f (length l) (zlen pre) (pre ++ l ++ rest) = Ok (pre ++ map f l ++ rest).
Proof.
  revert pre. induction l as [|x l IH]; intros pre; cbn [length map_loop map app]; [done|].
  rewrite peek_app by done. cbn [mbind res_bind]. rewrite poke_app by done. cbn [mbind res_bind].
  specialize (IH (pre ++ [f x])). rewrite zlen_app, <- !app_assoc in IH. exact IH.
Qed.

Lemma map_chars_ok f s c n : repr s c -> n = zlen c ->
  exists s', (b ← map_loop f (Z.to_nat n) 0 (buf s); Ok (with_buf s b)) = Ok s' /\ repr s' (map f c).
Proof.
  intros [H El (free & Eb & Hf)] ->. rewrite Eb. unfold zlen at 1. rewrite Nat2Z.id.
  pose proof (map_loop_ok f [] c (0 :: free)) as E. change (zlen (@nil Z)) with 0 in E.
  cbn [app] in E. rewrite E. cbn [mbind res_bind]. eexists. split; [done|].
  destruct (with_buf_hdr s (map f c ++ 0 :: free)) as (B1 & B2 & _ & B4).
  constructor; [by apply B4|by rewrite B1, zlen_map|]. exists free. by rewrite B2, zlen_map.
Qed.

(** The bytes before the first NUL. *)
Fixpoint cstring (c : list Z) : list Z :=
  match c with
  | [] => []
  | x :: c => if x =? 0 then [] else x :: cstring c
  end.

Lemma strlen_ok c free : strlen (c ++ 0 :: free) = Ok (zlen (cstring c)).
Proof.
  induction c as [|x c IH]; simpl; [done|]. destruct (Z.eqb_spec x 0); [done|].
  rewrite IH. cbn [mbind res_bind]. by rewrite zlen_cons.
Qed.

Lemma cstring_split c : exists post, c = cstring c ++ post /\
  (post = [] \/ exists post', post = 0 :: post').
Proof.
  induction c as [|x c (post & E & Hp)]; simpl; [exists []; auto|].
  destruct (Z.eqb_spec x 0) as [-> |]; [exists (0 :: c); eauto|].
  exists post. by rewrite <- app_comm_cons, <- E.
Qed.

Lemma sdsupdatelen_ok s c : repr s c -> zlen c < 2 ^ 31 ->
  exists s', sdsupdatelen s = Ok s' /\ repr s' (cstring c).
Proof.
  intros Hr Hl. pose proof (repr_bounds _ s c Hr) as Hb. destruct Hr as [H El (free & Eb & Hf)].
  destruct (cstring_split c) as (post & E & Hp). pose proof (zlen_nonneg post).
  pose proof (zlen_nonneg (cstring c)).
  assert (zlen c = zlen (cstring c) + zlen post) as Hz by (rewrite E at 1; apply zlen_app).
  unfold sdsupdatelen. rewrite Eb, strlen_ok. cbn [mbind res_bind]. eexists. split; [done|].
  rewrite swrap_id, uwrap_id by (unfold in_u, in_s; lia).
  destruct Hp as [-> |(p' & ->)].
  - rewrite app_nil_r in E. rewrite <- E. by apply (repr_setlen s c free); [|lia|..].
  - rewrite zlen_cons in *. apply (repr_setlen s _ (p' ++ 0 :: free)); [done|lia| |zl].
    rewrite Eb, E at 1. by rewrite <- app_assoc.
Qed.

(** [sdsIncrLen] within the allocation moves the end and writes the terminator. *)
Lemma sdsIncrLen_eq s incr :
  hdr_ok s -> - 2 ^ 31 < incr < 2 ^ 31 -> 0 <= sdslen s + incr <= sdsalloc s ->
  sdstype s <> 0 \/ incr <> 0 ->
  sdsIncrLen s incr = (b ← poke (buf s) (sdslen s + incr) 0;
                       Ok (with_buf (sdssetlen s (sdslen s + incr)) b)).
Proof.
  intros H Hi Hn H0. unfold sdsIncrLen, sdssetlen.
  destruct (hdr_ok_view s H) as [n Hn5 Ef Et El Ea Ev|Ht Et El Ea Ev Hl Ha]; rewrite Et, El, Ea in *.
  - cbn [Z.eqb SDS_TYPE_5]. rewrite Ef. unfold SDS_TYPE_5_LEN, SDS_TYPE_BITS. rewrite shiftr3_mul8.
    rewrite (uwrap_id 32) by (unfold in_u; lia).
    replace (_ || _) with true by (symmetry; apply orb_true_iff; right; lia).
    cbn [assert_ mbind res_bind]. rewrite Z.shiftl_mul_pow2 by lia. change (2 ^ 3) with 8.
    rewrite !(uwrap_id 64) by (unfold in_u; lia). done.
  - rewrite (proj2 (Z.eqb_neq _ _)) by (unfold SDS_TYPE_5; lia).
    rewrite (proj2 (Z.leb_le _ _)) by (unfold SDS_TYPE_64; lia).
    rewrite (uwrap_id (hdr_bits (flags s)) (halloc s - hlen s)) by (unfold in_u; lia).
    rewrite (uwrap_id (hdr_bits (flags s)) (hlen s + incr)) by (unfold in_u; lia).
    replace (if flags s <=? SDS_TYPE_16 then halloc s - hlen s else halloc s - hlen s)
      with (halloc s - hlen s) by (by case_match).
    replace (_ || _) with true; [done|]. symmetry. apply orb_true_iff.
    destruct (Z.leb_spec 0 incr); [left; lia|right].
    rewrite uwrap_id by (unfold in_u; lia). lia.
Qed.

(** ** Histories *)

(** One edit through the API, with the arguments the callers pass. *)
Inductive op :=
| Cat (t : list Z) | Cpy (t : list Z) | Grow (n : Z) | Range (start stop : Z)
| Trim (cset : list Z) | Lower | Upper | Mapchars (from to : list Z)
| Clear | Room (n : Z) | Shrink | Update.

Definition apply_op (junk : Z -> Z) (o : op) (s : sds) : res sds :=
  match o with
  | Cat t => sdscatlen junk s t (zlen t)
  | Cpy t => sdscpylen junk s t (zlen t)
  | Grow n => sdsgrowzero junk s n
  | Range a b => sdsrange s a b
  | Trim cset => sdstrim s cset
  | Lower => sdstolower s
  | Upper => sdstoupper s
  | Mapchars from to => sdsmapchars s from to
  | Clear => sdsclear s
  | Room n => sdsMakeRoomFor junk s n
  | Shrink => sdsRemoveFreeSpace junk s
  | Update => sdsupdatelen s
  end.

(** What the edit does to the byte string. *)
Definition spec_op (o : op) (c : list Z) : list Z :=
  match o with
  | Cat t => c ++ t
  | Cpy t => t
  | Grow n => c ++ zrep (n - zlen c) 0
  | Range a b => substring a b c
  | Trim cset => trim_both (strchr cset) c
  | Lower => map tolower c
  | Upper => map toupper c
  | Mapchars from to => map (mapchar from to) c
  | Clear => []
  | Room _ | Shrink => c
  | Update => cstring c
  end.

(** Arguments within [int] and results below 2 GB. *)
Definition op_ok (o : op) (c : list Z) : bool :=
  bool_decide (zlen (spec_op o c) < 2 ^ 31) &&
  match o with
  | Range a b => bool_decide (in_s 32 a) && bool_decide (in_s 32 b)
  | Room n => (0 <=? n) && (n <? 2 ^ 60)
  | Grow n => n <? 2 ^ 31
  | _ => true
  end.

Fixpoint run (junk : Z -> Z) (h : list op) (s : sds) : res sds :=
  match h with [] => Ok s | o :: h => s ← apply_op junk o s; run junk h s end.
Fixpoint spec (h : list op) (c : list Z) : list Z :=
  match h with [] => c | o :: h => spec h (spec_op o c) end.
Fixpoint hist_ok (h : list op) (c : list Z) : bool :=
  match h with [] => true | o :: h => op_ok o c && hist_ok h (spec_op o c) end.

Lemma sds_apply_op_ok junk o s c : repr s c -> zlen c < 2 ^ 31 -> op_ok o c = true ->
  exists s', apply_op junk o s = Ok s' /\ repr s' (spec_op o c).
Proof.
  intros Hr Hl [Ho%bool_decide_eq_true Ha]%andb_true_iff.
  destruct o; cbn [apply_op spec_op] in *.
  - pose proof (sdscatlen_ok junk s c t []) as H. rewrite app_nil_r in H. apply H; [done|zl].
  - pose proof (sdscpylen_ok junk s c t []) as H. rewrite app_nil_r in H. apply H; [done|lia].
  - apply sdsgrowzero_ok; [done|lia].
  - apply andb_true_iff in Ha as [?%bool_decide_eq_true ?%bool_decide_eq_true]. by apply sdsrange_ok.
  - by apply sdstrim_ok.
  - apply map_chars_ok; [done|]. rewrite (repr_len s c Hr). pose proof (zlen_nonneg c).
    apply swrap_id; unfold in_s; lia.
  - apply map_chars_ok; [done|]. rewrite (repr_len s c Hr). pose proof (zlen_nonneg c).
    apply swrap_id; unfold in_s; lia.
  - apply map_chars_ok; [done|]. apply (repr_len s c Hr).
  - by apply (sdsclear_ok s c).
  - destruct (sdsMakeRoomFor_ok junk 0 s c n Hr) as (s' & ? & ? & _); [lia|lia|by exists s'].
  - destruct (sdsRemoveFreeSpace_ok junk s c Hr) as (s' & ? & ? & _); [lia|by exists s'].
  - by apply sdsupdatelen_ok.
Qed.

(** C18: Any history of edits ([sdscatlen], [sdscpylen], [sdsgrowzero], [sdsrange], [sdstrim],
    [sdstolower], [sdstoupper], [sdsmapchars], [sdsclear], [sdsMakeRoomFor],
    [sdsRemoveFreeSpace], [sdsupdatelen]) on a string made by [sdsnewlen] runs without
    touching a byte outside its allocation, whatever the contents of fresh memory, and
    leaves a well-formed string (header within its width, [len <= alloc], terminator
    in place) whose bytes are those of the edits on plain byte strings. *)
Theorem sds_history_refines_bytes junk (init : list Z) (h : list op) :
  zlen init < 2 ^ 31 -> hist_ok h init = true ->
  exists s0 s, sdsnewlen junk (Some init) (zlen init) = Ok s0 /\
    run junk h s0 = Ok s /\ repr s (spec h init).
Proof.
  intros Hi Hh. destruct (sdsnewlen_ok junk init []) as (s0 & E0 & Hr); [lia|].
  rewrite app_nil_r in E0. exists s0. rewrite E0. clear E0.
  revert init s0 Hi Hh Hr. induction h as [|o h IH]; intros c s0 Hi Hh Hr; simpl in *.
  - by exists s0.
  - apply andb_true_iff in Hh as [Ho Hh]. destruct (sds_apply_op_ok junk o s0 c Hr Hi Ho) as (s1 & -> & Hr1).
    apply andb_true_iff in Ho as [Ho%bool_decide_eq_true _]. cbn [mbind res_bind].
    destruct (IH _ s1 Ho Hh Hr1) as (s & _ & ? & ?). by exists s.
Qed.

Lemma sds_history_refines_bytes_witness :
  exists s0 s, sdsnewlen (fun _ => 7) (Some (str "  Hello")) 7 = Ok s0 /\
    run (fun _ => 7) [Cat (str " World"); Trim (str " "); Upper; Range (-5) (-1); Grow 7; Shrink] s0 = Ok s /\
    repr s (str "WORLD" ++ [0; 0]).
Proof.
  apply (sds_history_refines_bytes (fun _ => 7) (str "  Hello")
    [Cat (str " World"); Trim (str " "); Upper; Range (-5) (-1); Grow 7; Shrink]);
    vm_compute; reflexivity.
Defined.

(** The protocol of [sdsMakeRoomFor] and [sdsIncrLen] that socket reads rely on: after
    asking room for [n] bytes, any [k <= n] bytes can be written behind the string
    inside the allocation, and [sdsIncrLen] by [k] makes them part of it without
    tripping its assertion. *)
Theorem sds_read_into_room junk s c n t :
  repr s c -> 0 < n < 2 ^ 31 -> zlen c < 2 ^ 60 -> zlen t <= n ->
  exists s1 b s2, sdsMakeRoomFor junk s n = Ok s1 /\ wr (buf s1) (sdslen s1) t = Ok b /\
    sdsIncrLen (with_buf s1 b) (zlen t) = Ok s2 /\ repr s2 (c ++ t).
Proof.
  intros Hr Hn Hc Ht. pose proof (zlen_nonneg t). pose proof (zlen_nonneg c).
  destruct (sdsMakeRoomFor_ok junk 0 s c n Hr) as (s1 & E1 & Hr1 & Ha); [lia|lia|].
  pose proof Hr1 as [H1 El (free & Eb & Hf)].
  destruct (split_cons_at (zlen t) (0 :: free)) as (old & z & f2 & E & Ho); [zl|].
  exists s1, (c ++ t ++ z :: f2). rewrite E1, Eb, El, E, (wr_app c old t) by done.
  apply (f_equal zlen) in E.
  destruct (repr_write s1 (c ++ t ++ z :: f2) (c ++ t) z f2) as (b' & Ep & _ & Hr');
    [done|zl|zl|by rewrite app_assoc|].
  rewrite zlen_app in *. eexists. split; [done|]. split; [done|].
  destruct (with_buf_hdr s1 (c ++ t ++ z :: f2)) as (B1 & B2 & _ & B4).
  rewrite sdsIncrLen_eq; rewrite ?B1, ?B2, ?El; [|by apply B4|lia|lia|].
  - cbn [buf with_buf]. rewrite Ep. cbn [mbind res_bind]. by split.
  - left. destruct (hdr_ok_view s1 H1) as [m ? ? ? El' Ea _|? Et ? ? ? ? ?]; [lia|].
    change (sdstype (with_buf s1 (c ++ t ++ z :: f2))) with (sdstype s1). lia.
Qed.

Lemma sds_read_into_room_witness :
  let s := mk_sds 24 0 0 (str "abc" ++ [0]) in
  exists s1 b s2, sdsMakeRoomFor (fun _ => 0) s 16 = Ok s1 /\ wr (buf s1) (sdslen s1) (str "de") = Ok b /\
    sdsIncrLen (with_buf s1 b) 2 = Ok s2 /\ repr s2 (str "abcde").
Proof.
  apply (sds_read_into_room (fun _ => 0) (mk_sds 24 0 0 (str "abc" ++ [0])) (str "abc") 16 (str "de"));
    try (vm_compute; split; congruence); try (vm_compute; congruence).
  constructor; [left; exists 3; vm_compute; intuition congruence|reflexivity|].
  exists []. split; [reflexivity|vm_compute; congruence].
Defined.

(** A [size_t] difference returned as [int]. *)
Lemma swrap_of_u64 z : i32 (u64 z) = i32 z.
Proof.
  rewrite <- (swrap_uwrap 32 (u64 z)), <- (swrap_uwrap 32 z) by lia. f_equal. unfold uwrap.
  change (2 ^ 64) with (2 ^ 32 * 2 ^ 32). rewrite Z.rem_mul_r by lia.
  rewrite Z.mul_comm, Z_mod_plus_full. by rewrite Z.mod_mod by lia.
Qed.

(** Lexicographic order of byte strings, a proper prefix being smaller. *)
Fixpoint lex (a b : list Z) : comparison :=
  match a, b with
  | [], [] => Eq
  | [], _ => Lt
  | _, [] => Gt
  | x :: a, y :: b => match Z.compare x y with Eq => lex a b | r => r end
  end.

Lemma memcmp_lex a b :
  let n := Z.min (zlen a) (zlen b) in
  memcmp (ztake n a) (ztake n b) = 0 /\ lex a b = Z.compare (zlen a) (zlen b) \/
  memcmp (ztake n a) (ztake n b) <> 0 /\ lex a b = Z.compare (memcmp (ztake n a) (ztake n b)) 0.
Proof.
  cbv zeta. revert b. induction a as [|x a IH]; intros [|y b].
  - by left.
  - left. rewrite ztake_0 by zl. split; [done|]. cbn [lex]. symmetry. apply Z.compare_lt_iff.
    rewrite zlen_cons, zlen_nil. pose proof (zlen_nonneg b). lia.
  - left. rewrite !(ztake_0 (Z.min _ _)) by zl. split; [done|]. cbn [lex]. symmetry.
    apply Z.compare_gt_iff. rewrite zlen_cons, zlen_nil. pose proof (zlen_nonneg a). lia.
  - specialize (IH b). rewrite !zlen_cons. pose proof (zlen_nonneg a). pose proof (zlen_nonneg b).
    assert (forall (z : Z) l, ztake (Z.min (zlen a + 1) (zlen b + 1)) (z :: l)
      = z :: ztake (Z.min (zlen a) (zlen b)) l) as Et.
    { intros. unfold ztake. by replace (Z.to_nat (Z.min (zlen a + 1) (zlen b + 1))) with
        (S (Z.to_nat (Z.min (zlen a) (zlen b)))) by lia. }
    rewrite !Et. cbn [memcmp lex].
    destruct (Z.compare_spec x y) as [-> |Hlt|Hgt].
    + rewrite Z.ltb_irrefl. replace (Z.compare (zlen a + 1) (zlen b + 1)) with
        (Z.compare (zlen a) (zlen b)) by (rewrite !(Z.add_comm _ 1); symmetry; apply Z.add_compare_mono_l). done.
    + right. rewrite (proj2 (Z.ltb_lt x y)) by lia. by repeat split.
    + right. rewrite (proj2 (Z.ltb_ge x y)), (proj2 (Z.ltb_lt y x)) by lia. by repeat split.
Qed.

(** What [sdscmp] computes of the contents of two strings. *)
Definition contents_cmp (a b : list Z) : Z :=
  let n := Z.min (zlen a) (zlen b) in
  let cmp := memcmp (ztake n a) (ztake n b) in
  if cmp =? 0 then i32 (u64 (zlen a - zlen b)) else cmp.

Lemma sdscmp_contents s1 s2 c1 c2 : repr s1 c1 -> repr s2 c2 -> sdscmp s1 s2 = Ok (contents_cmp c1 c2).
Proof.
  intros [_ E1 (f1 & B1 & _)] [_ E2 (f2 & B2 & _)]. unfold sdscmp. rewrite E1, E2, B1, B2.
  replace (if zlen c1 <? zlen c2 then zlen c1 else zlen c2) with (Z.min (zlen c1) (zlen c2))
    by (destruct (Z.ltb_spec (zlen c1) (zlen c2)); lia).
  pose proof (zlen_nonneg c1). pose proof (zlen_nonneg c2).
  assert (forall c f, Z.min (zlen c1) (zlen c2) <= zlen c ->
    rd (c ++ 0 :: f) 0 (Z.min (zlen c1) (zlen c2)) = Ok (ztake (Z.min (zlen c1) (zlen c2)) c)) as Hrd.
  { intros c f Hc. rewrite <- (ztake_zdrop (Z.min (zlen c1) (zlen c2)) c) at 1.
    rewrite <- app_assoc. apply rd_app0. rewrite zlen_ztake. lia. }
  rewrite !Hrd by lia. cbn [mbind res_bind]. unfold contents_cmp. by case_match.
Qed.

Lemma contents_cmp_lex c1 c2 : zlen c1 < 2 ^ 31 -> zlen c2 < 2 ^ 31 -> Z.compare (contents_cmp c1 c2) 0 = lex c1 c2.
Proof.
  intros H1 H2. pose proof (zlen_nonneg c1). pose proof (zlen_nonneg c2). unfold contents_cmp.
  destruct (memcmp_lex c1 c2) as [[-> ->]|(Hn & ->)].
  - cbn [Z.eqb]. rewrite swrap_of_u64, swrap_id by (unfold in_s; lia). by rewrite (Z.compare_sub (zlen c1)).
  - by rewrite (proj2 (Z.eqb_neq _ _) Hn).
Qed.

(** [sdscmp] stays inside both strings and its sign is the lexicographic order of
    their bytes, for strings below 2 GB (the length difference is truncated to [int]). *)
Theorem sdscmp_lexicographic s1 s2 c1 c2 :
  repr s1 c1 -> repr s2 c2 -> zlen c1 < 2 ^ 31 -> zlen c2 < 2 ^ 31 ->
  exists r, sdscmp s1 s2 = Ok r /\ Z.compare r 0 = lex c1 c2.
Proof.
  intros R1 R2 H1 H2. exists (contents_cmp c1 c2). split; [by apply sdscmp_contents|by apply contents_cmp_lex].
Qed.

Lemma sdscmp_lexicographic_witness :
  exists r, sdscmp (mk_sds 16 0 0 (str "ab" ++ [0])) (mk_sds 24 0 0 (str "abc" ++ [0])) = Ok r /\
    Z.compare r 0 = lex (str "ab") (str "abc").
Proof.
  apply (sdscmp_lexicographic _ _ (str "ab") (str "abc")); [| |reflexivity|reflexivity].
  - constructor; [left; exists 2; vm_compute; intuition congruence|reflexivity|].
    exists []. split; [reflexivity|vm_compute; congruence].
  - constructor; [left; exists 3; vm_compute; intuition congruence|reflexivity|].
    exists []. split; [reflexivity|vm_compute; congruence].
Defined.

(** [sdstrim] also removes NUL bytes, which are in no [cset]: [strchr] finds the
    terminator of its first argument. Trimming a string of NUL bytes with an empty
    set leaves the empty string. *)
Theorem sdstrim_trims_nul : exists s s',
  repr s [0; chr "a"; 0] /\ sdstrim s [] = Ok s' /\ repr s' [chr "a"].
Proof.
  exists (mk_sds 24 0 0 [0; chr "a"; 0; 0]).
  assert (repr (mk_sds 24 0 0 [0; chr "a"; 0; 0]) [0; chr "a"; 0]) as Hr.
  { constructor; [left; exists 3; vm_compute; intuition congruence|reflexivity|].
    exists []. split; [reflexivity|vm_compute; congruence]. }
  destruct (sdstrim_ok _ _ [] Hr) as (s' & E & Hr'). by exists s'.
Qed.
End Sds.
