(* ===== verification/SdsText.v ===== *)
(** * Text functions of src/redis-stable/src/sds.c: splitting, joining, quoting, formatting

    [sdssplitlen], [sdsjoin], [sdsjoinsds], [sdscatrepr] and [sdssplitargs] only create
    strings and append to them, so they are written against an interface of those
    two operations; Sds.v implements it. [sdscatfmt] writes into the free space of the
    string itself and is written over the sds of Sds.v. A [char *] into a C string is
    the suffix it points to: the terminator can be read, nothing behind it. *)
From S2P Require Import Prelude Util Sds.

Module SdsText.
Import Sds.

(** ** The interface *)

(** Creating a string from bytes and appending bytes, as [sdsnewlen] and [sdscatlen]. *)
Class SdsApi (S : Type) := {
  api_newlen : list Z -> res S;
  api_catlen : S -> list Z -> res S;
  api_bytes : S -> res (list Z);
  api_repr : S -> list Z -> Prop }.

Definition size_ok (c : list Z) : Prop := zlen c < 2 ^ 60.

Class SdsLaws (S : Type) `{SdsApi S} := {
  newlen_law c : size_ok c -> exists s, api_newlen c = Ok s /\ api_repr s c;
  catlen_law s c t : api_repr s c -> size_ok (c ++ t) ->
    exists s', api_catlen s t = Ok s' /\ api_repr s' (c ++ t);
  bytes_law s c : api_repr s c -> api_bytes s = Ok c }.

#[export] Instance sds_api (junk : Z -> Z) : SdsApi sds := {
  api_newlen c := sdsnewlen junk (Some c) (zlen c);
  api_catlen s t := sdscatlen junk s t (zlen t);
  api_bytes s := rd (buf s) 0 (sdslen s);
  api_repr := repr }.

#[export] Instance sds_laws (junk : Z -> Z) : @SdsLaws sds (sds_api junk).
Proof.
  constructor; cbn; unfold size_ok.
  - intros c Hc. pose proof (sdsnewlen_ok junk c []) as H. rewrite app_nil_r in H. apply H. lia.
  - intros s c t Hr Hc. rewrite zlen_app in Hc.
    pose proof (sdscatlen_ok junk s c t []) as H. rewrite app_nil_r in H. apply H; [done|lia].
  - intros s c [_ El (free & -> & _)]. rewrite El. by apply rd_app0.
Qed.

(** ** Splitting and joining on a separator *)

Section Text.
Context {S : Type} `{SdsApi S}.

(** [tokens[elements] = x], the array having [slots] cells. *)
Definition put_token (slots : Z) (tokens : list S) (x : S) : res (list S) :=
  if zlen tokens <? slots then Ok (tokens ++ [x]) else Fault OutOfBounds.

(** The search loop of [sdssplitlen]; the tokens found are [tokens], [elements] of them. *)
Fixpoint split_loop (fuel : nat) (s : list Z) (len : Z) (sep : list Z) (j start slots : Z)
    (tokens : list S) : res (Z * Z * list S) :=
  match fuel with
  | O => Fault OutOfFuel
  | Datatypes.S fuel =>
    let seplen := zlen sep in
    if j <? len - (seplen - 1) then
      let slots := if slots <? zlen tokens + 2 then i32 (slots * 2) else slots in
      c ← peek s j; c0 ← peek sep 0;
      hit ← (if (seplen =? 1) && (c =? c0) then Ok true
             else x ← rd s j seplen; Ok (memcmp x sep =? 0));
      if hit : bool then
        x ← rd s start (j - start);
        t ← api_newlen x;
        tokens ← put_token slots tokens t;
        split_loop fuel s len sep (j + seplen) (j + seplen) slots tokens
      else split_loop fuel s len sep (j + 1) start slots tokens
    else Ok (start, slots, tokens)
  end.

(** [s] is the bytes at the pointer, [len] of them to be split; [None] is NULL. *)
Definition sdssplitlen (s : list Z) (len : Z) (sep : list Z) : res (option (list S)) :=
  if (zlen sep <? 1) || (len <? 0) then Ok None else
  if len =? 0 then Ok (Some []) else
  '(start, slots, tokens) ← split_loop (Datatypes.S (Z.to_nat len)) s len sep 0 0 5 [];
  x ← rd s start (len - start);
  t ← api_newlen x;
  tokens ← put_token slots tokens t;
  Ok (Some tokens).

(** [j != argc-1] is "more elements follow". *)
Fixpoint sdsjoin_loop (join : S) (argv : list (list Z)) (sep : list Z) : res S :=
  match argv with
  | [] => Ok join
  | a :: argv =>
    join ← api_catlen join a;
    match argv with
    | [] => Ok join
    | _ => join ← api_catlen join sep; sdsjoin_loop join argv sep
    end
  end.

Definition sdsjoin (argv : list (list Z)) (sep : list Z) : res S :=
  join ← api_newlen []; sdsjoin_loop join argv sep.

Fixpoint sdsjoinsds_loop (join : S) (argv : list S) (sep : list Z) : res S :=
  match argv with
  | [] => Ok join
  | a :: argv =>
    x ← api_bytes a;
    join ← api_catlen join x;
    match argv with
    | [] => Ok join
    | _ => join ← api_catlen join sep; sdsjoinsds_loop join argv sep
    end
  end.

Definition sdsjoinsds (argv : list S) (sep : list Z) : res S :=
  join ← api_newlen []; sdsjoinsds_loop join argv sep.

(** ** Quoting *)

Definition hex_digit (v : Z) : Z := if v <? 10 then chr "0" + v else chr "a" + (v - 10).

(** What is appended for one byte: the cases of the switch in [sdscatrepr]; the double
    quote is 34, and [printf] expands [%c] and [%02x]. *)
Definition repr_char (c : Z) : list Z :=
  if (c =? chr "\") || (c =? 34) then [chr "\"; c]
  else if c =? 10 then str "\n"
  else if c =? 13 then str "\r"
  else if c =? 9 then str "\t"
  else if c =? 7 then str "\a"
  else if c =? 8 then str "\b"
  else if isprint c then [c]
  else str "\x" ++ [hex_digit (c / 16); hex_digit (c mod 16)].

Fixpoint sdscatrepr_loop (s : S) (p : list Z) : res S :=
  match p with
  | [] => Ok s
  | c :: p => s ← api_catlen s (repr_char c); sdscatrepr_loop s p
  end.

Definition sdscatrepr (s : S) (p : list Z) : res S :=
  s ← api_catlen s [34];
  s ← sdscatrepr_loop s p;
  api_catlen s [34].

(** ** Splitting a line into arguments *)

Definition is_hex_digit (c : Z) : bool :=
  ((chr "0" <=? c) && (c <=? chr "9")) || ((chr "a" <=? c) && (c <=? chr "f")) ||
  ((chr "A" <=? c) && (c <=? chr "F")).

Definition hex_digit_to_int (c : Z) : Z :=
  if (chr "0" <=? c) && (c <=? chr "9") then c - chr "0"
  else if (chr "a" <=? c) && (c <=? chr "f") then c - chr "a" + 10
  else if (chr "A" <=? c) && (c <=? chr "F") then c - chr "A" + 10
  else 0.

(** Short-circuit conjunction of tests that read memory. *)
Definition and_then (m n : res bool) : res bool := b ← m; if b : bool then n else Ok false.

(** [p[k] == c] *)
Definition is_at (p : list Z) (k c : Z) : res bool := x ← cpeek p k; Ok (x =? c).

(** [if ( *p) p++;] *)
Definition next (p : list Z) : list Z :=
  match p with c :: p' => if c =? 0 then p else p' | [] => [] end.

Definition unescape (c : Z) : Z :=
  if c =? chr "n" then 10 else if c =? chr "r" then 13 else if c =? chr "t" then 9
  else if c =? chr "b" then 8 else if c =? chr "a" then 7 else c.

(** [p[1] && !isspace(p[1])]: the closing quote is glued to something. *)
Definition glued (p : list Z) : res bool :=
  c ← cpeek p 1; Ok (negb (c =? 0) && negb (isspace c)).

(** [while(!done)]: the token and the rest of the line, or [None] on [goto err]. *)
Fixpoint token_loop (fuel : nat) (p : list Z) (inq insq : bool) (current : S)
    : res (option (S * list Z)) :=
  match fuel with
  | O => Fault OutOfFuel
  | Datatypes.S fuel =>
    c ← cpeek p 0;
    let append q x := current ← api_catlen current [x]; token_loop fuel (next q) inq insq current in
    let close := g ← glued p; if g : bool then Ok None else Ok (Some (current, next p)) in
    if inq then
      hex ← and_then (Ok (c =? chr "\")) (and_then (is_at p 1 (chr "x"))
              (and_then (x ← cpeek p 2; Ok (is_hex_digit x)) (x ← cpeek p 3; Ok (is_hex_digit x))));
      if hex : bool then
        h ← cpeek p 2; l ← cpeek p 3;
        append (zdrop 3 p) (u8 (hex_digit_to_int h * 16 + hex_digit_to_int l))
      else
        esc ← and_then (Ok (c =? chr "\")) (x ← cpeek p 1; Ok (negb (x =? 0)));
        if esc : bool then x ← cpeek p 1; append (zdrop 1 p) (unescape x)
        else if c =? 34 then close
        else if c =? 0 then Ok None
        else append p c
    else if insq then
      esc ← and_then (Ok (c =? chr "\")) (is_at p 1 39);
      if esc : bool then append (zdrop 1 p) 39
      else if c =? 39 then close
      else if c =? 0 then Ok None
      else append p c
    else if (c =? 32) || (c =? 10) || (c =? 13) || (c =? 9) || (c =? 0) then
      Ok (Some (current, next p))
    else if c =? 34 then token_loop fuel (next p) true false current
    else if c =? 39 then token_loop fuel (next p) false true current
    else append p c
  end.

(** [while( *p && isspace( *p)) p++;] *)
Fixpoint skip_blanks (p : list Z) : list Z :=
  match p with
  | c :: p' => if negb (c =? 0) && isspace c then skip_blanks p' else p
  | [] => []
  end.

(** [while(1)]: [vector] is the tokens so far. *)
Fixpoint args_loop (fuel : nat) (p : list Z) (vector : list S) : res (option (list S)) :=
  match fuel with
  | O => Fault OutOfFuel
  | Datatypes.S fuel =>
    let p := skip_blanks p in
    c ← cpeek p 0;
    if c =? 0 then Ok (Some vector) else
    current ← api_newlen [];
    r ← token_loop (Datatypes.S (length p)) p false false current;
    match r : option (S * list Z) with
    | None => Ok None
    | Some (current, p) => args_loop fuel p (vector ++ [current])
    end
  end.

Definition sdssplitargs (line : list Z) : res (option (list S)) :=
  args_loop (Datatypes.S (length line)) line [].
End Text.

(** ** Specifications *)

(** The strings of [l] with [sep] between them. *)
Fixpoint joined (sep : list Z) (l : list (list Z)) : list Z :=
  match l with
  | [] => []
  | a :: l => match l with [] => a | _ => a ++ sep ++ joined sep l end
  end.

(** [sep] occurs in [t]. *)
Definition contains (sep t : list Z) : Prop := exists a b, t = a ++ sep ++ b.

(** The quoted form of a byte string. *)
Definition quoted (l : list Z) : list Z := 34 :: flat_map repr_char l ++ [34].

Lemma joined_cons sep a l : l <> [] -> joined sep (a :: l) = a ++ sep ++ joined sep l.
Proof. by destruct l. Qed.

Lemma joined_snoc sep l t :
  joined sep (l ++ [t]) = flat_map (fun a => a ++ sep) l ++ t.
Proof.
  induction l as [|a l IH]; [done|]. rewrite <- app_comm_cons, joined_cons by (by destruct l).
  rewrite IH. cbn [flat_map]. by rewrite <- !app_assoc.
Qed.

Lemma memcmp_0 (x y : list Z) : zlen x = zlen y -> (memcmp x y =? 0) = bool_decide (x = y).
Proof.
  revert y. induction x as [|a x IH]; intros [|b y] Hl; try (zl); [done|]. cbn [memcmp].
  destruct (Z.ltb_spec a b); [symmetry; apply bool_decide_eq_false; intros [= ? ?]; lia|].
  destruct (Z.ltb_spec b a); [symmetry; apply bool_decide_eq_false; intros [= ? ?]; lia|].
  assert (a = b) as -> by lia. rewrite IH by (rewrite !zlen_cons in Hl; lia).
  apply bool_decide_ext. split; [by intros ->|by intros [= ->]].
Qed.

Section TextLemmas.
Context {S : Type} `{HL : SdsLaws S}.

Lemma join_loop_ok join c argv sep :
  api_repr join c -> size_ok (c ++ joined sep argv) ->
  exists s, sdsjoin_loop join argv sep = Ok s /\ api_repr s (c ++ joined sep argv).
Proof.
  revert join c. induction argv as [|a argv IH]; intros join c Hr Hs.
  - exists join. by rewrite app_nil_r.
  - cbn [sdsjoin_loop]. unfold size_ok in *. destruct argv as [|b argv].
    + by destruct (catlen_law join c a Hr Hs) as (s & -> & ?); eexists.
    + rewrite joined_cons in * by done.
      destruct (catlen_law join c a Hr) as (s & -> & Hr1); [unfold size_ok; zl|]. cbn [mbind res_bind].
      destruct (catlen_law s _ sep Hr1) as (s2 & -> & Hr2); [unfold size_ok; zl|]. cbn [mbind res_bind].
      destruct (IH s2 _ Hr2) as (s3 & -> & Hr3); [zl|]. exists s3. by rewrite <- !app_assoc in Hr3.
Qed.

(** The two join functions differ only in how they find the bytes. *)
Lemma joinsds_loop_eq join argv cs sep :
  Forall2 api_repr argv cs -> sdsjoinsds_loop join argv sep = sdsjoin_loop join cs sep.
Proof.
  intros Hf. revert join. induction Hf as [|a c argv cs Ha Hf IH]; intros join; [done|].
  cbn [sdsjoinsds_loop sdsjoin_loop]. rewrite (bytes_law a c Ha). cbn [mbind res_bind].
  destruct (api_catlen join c) as [j|]; [|done]. cbn [mbind res_bind].
  destruct Hf as [|b d argv cs Hb Hf]; [done|].
  destruct (api_catlen j sep) as [j2|]; [|done]. cbn [mbind res_bind]. apply IH.
Qed.

Lemma put_token_ok slots tokens (t : S) :
  zlen tokens < slots -> put_token slots tokens t = Ok (tokens ++ [t]).
Proof. intros. unfold put_token. by rewrite (proj2 (Z.ltb_lt _ _)). Qed.

Lemma split_hit cur rest sep (x0 : Z) sep' d post :
  sep = x0 :: sep' -> zlen sep <= zlen rest ->
  (c ← peek (d ++ cur ++ rest ++ post) (zlen d + zlen cur); c0 ← peek sep 0;
   (if (zlen sep =? 1) && (c =? c0) then Ok true
    else x ← rd (d ++ cur ++ rest ++ post) (zlen d + zlen cur) (zlen sep);
         Ok (memcmp x sep =? 0))) = Ok (bool_decide (ztake (zlen sep) rest = sep)).
Proof.
  intros -> Hl. destruct rest as [|x rest]; [zl|].
  assert (d ++ cur ++ (x :: rest) ++ post = (d ++ cur) ++ x :: rest ++ post) as -> by (by rewrite <- app_assoc).
  rewrite peek_app by zl. cbn [mbind res_bind]. rewrite (peek_app [] x0 sep') by done. cbn [mbind res_bind].
  assert ((d ++ cur) ++ x :: rest ++ post = (d ++ cur) ++ ztake (zlen (x0 :: sep')) (x :: rest) ++
    zdrop (zlen (x0 :: sep')) (x :: rest) ++ post) as -> by (by rewrite (app_assoc (ztake _ _)), ztake_zdrop).
  rewrite (rd_app (d ++ cur)) by zl. cbn [mbind res_bind]. rewrite memcmp_0 by zl.
  destruct (Z.eqb_spec (zlen (x0 :: sep')) 1) as [E|], (Z.eqb_spec x x0) as [-> |]; try done.
  rewrite zlen_cons in *. rewrite (zlen_0_nil sep') by zl. cbn [andb].
  f_equal. symmetry. apply bool_decide_eq_true. done.
Qed.

(** What the loop returns from a position that splits [s] into the finished part [d],
    the current token [cur], the rest [rest] and what follows the [len] bytes. *)
Definition split_done (d cur rest sep : list Z) (cs : list (list Z)) (r : res (Z * Z * list S)) : Prop :=
  exists start slots' tokens' ts last, r = Ok (start, slots', tokens') /\
    Forall2 api_repr tokens' (cs ++ ts) /\ zlen tokens' < slots' /\
    cur ++ rest = flat_map (fun a => a ++ sep) ts ++ last /\
    start = zlen d + zlen (flat_map (fun a => a ++ sep) ts) /\
    Forall (fun t => ~ contains sep t) (ts ++ [last]).

(** No occurrence of [sep] starts inside the current token. *)
Definition fresh_token (cur rest sep : list Z) : Prop :=
  forall a b, cur ++ rest = a ++ sep ++ b -> zlen cur <= zlen a.

Lemma split_done_hit d cur rest sep cs r :
  0 < zlen sep -> fresh_token cur (sep ++ rest) sep ->
  split_done (d ++ cur ++ sep) [] rest sep (cs ++ [cur]) r -> split_done d cur (sep ++ rest) sep cs r.
Proof.
  intros Hsep Hno (start & slots' & tokens' & ts & lst & E & H1 & H2 & H3 & H4 & H5).
  exists start, slots', tokens', (cur :: ts), lst. split; [done|].
  rewrite <- app_assoc in H1. split; [done|]. split; [done|]. cbn [flat_map app] in *.
  split; [by rewrite H3, <- !app_assoc|]. split; [rewrite zlen_app, H4; zl|].
  constructor; [|done]. intros (a & b & ->).
  specialize (Hno a (b ++ sep ++ rest)). rewrite <- !app_assoc in Hno. specialize (Hno eq_refl). zl.
Qed.

Lemma split_done_miss d cur x rest sep cs r :
  split_done d (cur ++ [x]) rest sep cs r -> split_done d cur (x :: rest) sep cs r.
Proof.
  intros (start & slots' & tokens' & ts & lst & E & H1 & H2 & H3 & H4 & H5).
  exists start, slots', tokens', ts, lst. by rewrite <- app_assoc in H3.
Qed.

Lemma fresh_token_miss cur x rest sep :
  fresh_token cur (x :: rest) sep -> ztake (zlen sep) (x :: rest) <> sep ->
  fresh_token (cur ++ [x]) rest sep.
Proof.
  intros Hno E a b Ha. rewrite <- app_assoc in Ha. specialize (Hno a b Ha). rewrite zlen_app.
  change (zlen [x]) with 1. destruct (decide (zlen a = zlen cur)) as [Ec|]; [|lia].
  exfalso. apply E. apply app_inj_1 in Ha as [_ Ha]; [|unfold zlen in Ec; lia].
  cbn [app] in Ha. rewrite Ha. by apply ztake_app.
Qed.

Lemma split_loop_ok fuel d cur rest post sep slots tokens cs :
  0 < zlen sep -> zlen (d ++ cur ++ rest) < 2 ^ 29 -> (length rest < fuel)%nat ->
  Forall2 api_repr tokens cs -> zlen tokens <= zlen (d ++ cur) ->
  zlen tokens + 1 <= slots <= 2 * zlen tokens + 5 -> fresh_token cur rest sep ->
  split_done d cur rest sep cs
    (split_loop fuel (d ++ cur ++ rest ++ post) (zlen (d ++ cur ++ rest)) sep (zlen (d ++ cur))
      (zlen d) slots tokens).
Proof.
  intros Hsep. revert d cur rest slots tokens cs.
  induction fuel as [|fuel IH]; intros d cur rest slots tokens cs Hl Hf Ht Htn Hsl Hno; [lia|].
  cbn [split_loop]. rewrite !zlen_app in *.
  destruct (Z.ltb_spec (zlen d + zlen cur) (zlen d + (zlen cur + zlen rest) - (zlen sep - 1))) as [Hj|Hj].
  2:{ exists (zlen d), slots, tokens, [], (cur ++ rest). rewrite app_nil_r. cbn [flat_map app].
      change (zlen (@nil Z)) with 0. split; [done|]. repeat (split; [done || lia|]).
      constructor; [|done]. intros (a & b & E). specialize (Hno a b E). apply (f_equal zlen) in E. zl. }
  destruct sep as [|x0 sep'] eqn:Esep; [done|]. rewrite <- Esep in *.
  set (slots1 := if slots <? zlen tokens + 2 then i32 (slots * 2) else slots).
  assert (zlen tokens + 2 <= slots1 <= 2 * zlen tokens + 5) as Hs1.
  { subst slots1. pose proof (zlen_nonneg tokens). destruct (Z.ltb_spec slots (zlen tokens + 2)); [|lia].
    rewrite swrap_id by (unfold in_s; zl). lia. }
  clearbody slots1. pose proof (split_hit cur rest sep x0 sep' d post Esep ltac:(lia)) as Hh.
  apply res_bind_inv in Hh as (c & -> & Hh). apply res_bind_inv in Hh as (c0 & -> & Hh).
  cbn [mbind res_bind] in *. rewrite Hh. clear Hh c c0. cbn [mbind res_bind].
  destruct (bool_decide_reflect (ztake (zlen sep) rest = sep)) as [E|E].
  - pose proof (ztake_zdrop (zlen sep) rest) as Er. rewrite E in Er. set (r := zdrop _ _) in *. clearbody r.
    clear E. subst rest. rewrite length_app in Hf. rewrite zlen_app in *.
    replace (zlen d + zlen cur - zlen d) with (zlen cur) by lia. rewrite rd_app by done. cbn [mbind res_bind].
    destruct (newlen_law cur) as (t & -> & Hrt); [unfold size_ok; zl|]. cbn [mbind res_bind].
    rewrite put_token_ok by lia. cbn [mbind res_bind]. apply split_done_hit; [done|done|].
    replace (d ++ cur ++ (sep ++ r) ++ post) with ((d ++ cur ++ sep) ++ [] ++ r ++ post)
      by (by rewrite <- !app_assoc).
    replace (zlen d + (zlen cur + (zlen sep + zlen r))) with (zlen ((d ++ cur ++ sep) ++ [] ++ r)) by zl.
    replace (zlen d + zlen cur + zlen sep) with (zlen (d ++ cur ++ sep)) by zl.
    specialize (IH (d ++ cur ++ sep) [] r slots1 (tokens ++ [t]) (cs ++ [cur])).
    rewrite (app_nil_r (d ++ cur ++ sep)) in IH. apply IH; [zl|rewrite Esep in Hf; simpl in Hf; lia| |zl|zl|].
    + apply Forall2_app; [done|]. by constructor.
    + intros a b _. change (zlen (@nil Z)) with 0. apply zlen_nonneg.
  - destruct rest as [|x rest]; [zl|]. apply split_done_miss.
    replace (d ++ cur ++ (x :: rest) ++ post) with (d ++ (cur ++ [x]) ++ rest ++ post)
      by (by rewrite <- !app_assoc).
    replace (zlen d + (zlen cur + zlen (x :: rest))) with (zlen (d ++ (cur ++ [x]) ++ rest)) by zl.
    replace (zlen d + zlen cur + 1) with (zlen (d ++ cur ++ [x])) by zl.
    apply IH; [zl|simpl in Hf; lia|done|zl|lia|by apply fresh_token_miss].
Qed.

(** ** Quoted arguments *)

Lemma repr_loop_ok s c p :
  api_repr s c -> size_ok (c ++ flat_map repr_char p) ->
  exists s', sdscatrepr_loop s p = Ok s' /\ api_repr s' (c ++ flat_map repr_char p).
Proof.
  revert s c. induction p as [|x p IH]; intros s c Hr Hs; cbn [sdscatrepr_loop flat_map] in *.
  - exists s. by rewrite app_nil_r.
  - destruct (catlen_law s c (repr_char x) Hr) as (s1 & -> & Hr1); [unfold size_ok in *; zl|].
    cbn [mbind res_bind]. rewrite app_assoc in *. by apply IH.
Qed.

Lemma sdscatrepr_ok s c p :
  api_repr s c -> size_ok (c ++ quoted p) ->
  exists s', sdscatrepr s p = Ok s' /\ api_repr s' (c ++ quoted p).
Proof.
  intros Hr Hs. unfold sdscatrepr, quoted, size_ok in *. rewrite zlen_app, zlen_cons, zlen_app in Hs.
  destruct (catlen_law s c [34] Hr) as (s1 & -> & Hr1); [unfold size_ok; zl|]. cbn [mbind res_bind].
  destruct (repr_loop_ok s1 _ p Hr1) as (s2 & -> & Hr2); [unfold size_ok; zl|]. cbn [mbind res_bind].
  destruct (catlen_law s2 _ [34] Hr2) as (s3 & -> & Hr3); [unfold size_ok; zl|].
  exists s3. split; [done|]. by rewrite <- !app_assoc in Hr3.
Qed.

Lemma cpeek_at p k x q : p = q ++ x -> k = zlen q -> 
  cpeek p k = match x with [] => Ok 0 | c :: _ => Ok c end.
Proof. intros -> ->. destruct x; [rewrite app_nil_r; by apply cpeek_end|by apply cpeek_app]. Qed.

Lemma hex_digit_ok v : 0 <= v < 16 ->
  is_hex_digit (hex_digit v) = true /\ hex_digit_to_int (hex_digit v) = v.
Proof.
  intros Hv. unfold is_hex_digit, hex_digit_to_int, hex_digit. destruct (Z.ltb_spec v 10).
  all: repeat match goal with |- context [?a <=? ?b] => destruct (Z.leb_spec a b); try lia end.
  all: cbn [andb orb]; split; lia || done.
Qed.

Lemma escape_step fuel y q (cur : S) :
  y <> 0 -> y <> 120 ->
  token_loop (Datatypes.S fuel) (92 :: y :: q) true false cur =
    (cur ← api_catlen cur [unescape y]; token_loop fuel q true false cur).
Proof.
  intros H0 Hx. cbn [token_loop]. rewrite (cpeek_at _ 0 (92 :: y :: q) []) by done.
  cbn [mbind res_bind]. unfold is_at. rewrite (cpeek_at _ 1 (y :: q) [92]) by done.
  change (zdrop 1 (92 :: y :: q)) with (y :: q).
  cbn -[unescape]. by rewrite (proj2 (Z.eqb_neq y 120)), (proj2 (Z.eqb_neq y 0)) by done.
Qed.

(** Inside double quotes one escaped byte is one step of the loop. *)
Lemma quoted_step fuel x q (cur : S) :
  in_u 8 x ->
  token_loop (Datatypes.S fuel) (repr_char x ++ q) true false cur =
    (cur ← api_catlen cur [x]; token_loop fuel q true false cur).
Proof.
  unfold in_u. intros Hx. unfold repr_char.
  destruct ((x =? 92) || (x =? 34)) eqn:E0.
  { apply orb_true_iff in E0 as [->%Z.eqb_eq | ->%Z.eqb_eq]; by apply escape_step. }
  apply orb_false_iff in E0 as [E0 E0'].
  destruct (Z.eqb_spec x 10) as [-> |]; [by apply escape_step|].
  destruct (Z.eqb_spec x 13) as [-> |]; [by apply escape_step|].
  destruct (Z.eqb_spec x 9) as [-> |]; [by apply escape_step|].
  destruct (Z.eqb_spec x 7) as [-> |]; [by apply escape_step|].
  destruct (Z.eqb_spec x 8) as [-> |]; [by apply escape_step|].
  destruct (isprint x) eqn:Ep.
  - cbn [token_loop app]. rewrite (cpeek_at _ 0 (x :: q) []) by done. cbn [mbind res_bind].
    rewrite E0. cbn [and_then mbind res_bind]. rewrite E0'.
    unfold isprint in Ep. assert ((x =? 0) = false) as E by lia. rewrite E. cbn [next]. by rewrite E.
  - destruct (hex_digit_ok (x / 16)) as [H1 H2]; [split; [apply Z.div_pos; lia|apply Z.div_lt_upper_bound; lia]|].
    destruct (hex_digit_ok (x mod 16)) as [H3 H4]; [apply Z.mod_pos_bound; lia|].
    assert (u8 (x / 16 * 16 + x mod 16) = x) as Ex.
    { rewrite Z.mul_comm, <- Z.div_mod by lia. by apply uwrap_id. }
    revert H1 H2 H3 H4 Ex. generalize (hex_digit (x / 16)) (hex_digit (x mod 16)). intros h l H1 H2 H3 H4 Ex.
    assert ((l =? 0) = false) as El.
    { destruct (Z.eqb_spec l 0) as [-> |]; [by vm_compute in H3|done]. }
    cbn [token_loop app]. rewrite (cpeek_at _ 0 ([92; 120; h; l] ++ q) []) by done.
    cbn [mbind res_bind app]. rewrite (cpeek_at _ 2 (h :: l :: q) [92; 120]) by done.
    rewrite (cpeek_at _ 3 (l :: q) [92; 120; h]) by done. unfold is_at.
    rewrite (cpeek_at _ 1 (120 :: h :: l :: q) [92]) by done.
    change (zdrop 3 (92 :: 120 :: h :: l :: q)) with (l :: q).
    cbn. rewrite H1. cbn. rewrite H3. cbn. by rewrite El, H2, H4, Ex.
Qed.

Definition ends_token (rest : list Z) : Prop :=
  rest = [] \/ exists c r, rest = c :: r /\ isspace c = true.

Lemma quoted_ok fuel l rest cur c :
  (length l < fuel)%nat -> Forall (in_u 8) l -> ends_token rest ->
  api_repr cur c -> size_ok (c ++ l) ->
  exists cur', token_loop fuel (flat_map repr_char l ++ 34 :: rest) true false cur =
    Ok (Some (cur', rest)) /\ api_repr cur' (c ++ l).
Proof.
  revert fuel cur c. induction l as [|x l IH]; intros fuel cur c Hf Hl He Hr Hs;
    (destruct fuel as [|fuel]; [simpl in Hf; lia|]).
  - exists cur. rewrite app_nil_r. split; [|done]. cbn [flat_map app token_loop].
    rewrite (cpeek_at _ 0 (34 :: rest) []) by done. cbn -[glued].
    assert (glued (34 :: rest) = Ok false) as ->; [|done].
    unfold glued. rewrite (cpeek_at _ 1 rest [34]) by done.
    destruct He as [-> |(y & r & -> & Hy)]; [done|]. cbn [mbind res_bind]. by rewrite Hy, andb_false_r.
  - cbn [flat_map]. rewrite <- app_assoc. inversion Hl as [|? ? Hx Hl']; subst.
    rewrite quoted_step by done. rewrite cons_middle, app_assoc in Hs.
    destruct (catlen_law cur c [x] Hr) as (cur1 & -> & Hr1); [unfold size_ok in *; zl|]. cbn [mbind res_bind].
    destruct (IH fuel cur1 _ ltac:(simpl in Hf; lia) Hl' He Hr1 Hs) as (cur' & -> & Hr').
    exists cur'. split; [done|]. by rewrite <- app_assoc in Hr'.
Qed.

Lemma open_quote fuel p (cur : S) :
  token_loop (Datatypes.S fuel) (34 :: p) false false cur = token_loop fuel p true false cur.
Proof. cbn [token_loop]. rewrite (cpeek_at _ 0 (34 :: p) []) by done. reflexivity. Qed.

Lemma args_loop_blank fuel (vec : list S) p : args_loop (Datatypes.S fuel) (32 :: p) vec = args_loop (Datatypes.S fuel) p vec.
Proof. done. Qed.

Lemma args_quoted_ok fuel args vec cs :
  (length args < fuel)%nat -> Forall (fun a => Forall (in_u 8) a /\ size_ok a) args ->
  Forall2 api_repr vec cs ->
  exists v, args_loop fuel (joined [32] (map quoted args)) vec = Ok (Some v) /\
    Forall2 api_repr v (cs ++ args).
Proof.
  revert fuel vec cs. induction args as [|a args IH]; intros fuel vec cs Hf Ha Hv;
    (destruct fuel as [|fuel]; [simpl in Hf; lia|]).
  { exists vec. by rewrite app_nil_r. }
  inversion Ha as [|? ? [Hb Hsz] Ha']; subst.
  set (rest := match args with [] => [] | _ => 32 :: joined [32] (map quoted args) end).
  assert (joined [32] (map quoted (a :: args)) = 34 :: flat_map repr_char a ++ 34 :: rest) as Ep.
  { subst rest. cbn [map]. destruct args as [|b args]; [done|]. rewrite joined_cons by done.
    unfold quoted at 1. cbn [app]. f_equal. by rewrite <- app_assoc. }
  assert (ends_token rest) as He by (subst rest; destruct args; [by left|right; eauto]).
  rewrite Ep. cbn [args_loop skip_blanks Z.eqb negb andb isspace orb Z.leb Z.compare].
  change (isspace 34) with false. cbn [andb]. rewrite (cpeek_at _ 0 _ []) by done. cbn [mbind res_bind Z.eqb].
  destruct (newlen_law []) as (cur & -> & Hcur); [done|]. cbn [mbind res_bind].
  set (p := 34 :: flat_map repr_char a ++ 34 :: rest).
  assert (exists fuel', length p = Datatypes.S fuel' /\ (length a < fuel')%nat) as (fuel' & -> & Hfl).
  { subst p. exists (length (flat_map repr_char a ++ 34 :: rest)). split; [done|]. rewrite length_app. cbn [length].
    assert (length a <= length (flat_map repr_char a))%nat; [|lia].
    clear. induction a as [|x a IH]; [done|]. cbn [flat_map length]. rewrite length_app.
    assert (1 <= length (repr_char x))%nat; [|lia]. unfold repr_char. repeat case_match; cbn; lia. }
  subst p. rewrite open_quote.
  destruct (quoted_ok (Datatypes.S fuel') a rest cur []) as (cur' & -> & Hr'); [lia|done|done|done|done|].
  cbn [mbind res_bind].
  destruct (IH fuel (vec ++ [cur']) (cs ++ [a])) as (v & E & Hv').
  - simpl in Hf. lia.
  - done.
  - apply Forall2_app; [done|by constructor].
  - exists v. rewrite <- app_assoc in Hv'. split; [|done]. rewrite <- E. subst rest.
    destruct fuel as [|fuel]; [simpl in Hf; lia|]. by destruct args.
Qed.
End TextLemmas.

(** Splitting on a separator and joining again is the identity: for a non-empty
    string [s] (and whatever bytes follow its [len] bytes) [sdssplitlen] stays inside
    the string and its token array, none of its tokens contains the separator, and
    [sdsjoinsds] of the tokens rebuilds [s]. *)
Theorem sdssplitlen_joinsds {S : Type} `{SdsLaws S} (s post sep : list Z) :
  0 < zlen s < 2 ^ 29 -> 0 < zlen sep ->
  exists (tokens : list S) ts j,
    sdssplitlen (s ++ post) (zlen s) sep = Ok (Some tokens) /\
    Forall2 api_repr tokens ts /\ Forall (fun t => ~ contains sep t) ts /\
    sdsjoinsds tokens sep = Ok j /\ api_repr j s.
Proof.
  intros Hs Hsep. unfold sdssplitlen.
  rewrite (proj2 (Z.ltb_ge (zlen sep) 1)), (proj2 (Z.ltb_ge (zlen s) 0)) by lia. cbn [orb].
  rewrite (proj2 (Z.eqb_neq (zlen s) 0)) by lia.
  destruct (split_loop_ok (Datatypes.S (Z.to_nat (zlen s))) [] [] s post sep 5 [] [])
    as (start & slots & tokens & ts & lst & E & H1 & H2 & H3 & H4 & H5);
    [done|cbn [app]; lia|unfold zlen; lia|done|done|done| |].
  - intros a b _. apply zlen_nonneg.
  - cbn [app] in *. change (zlen (@nil Z)) with 0 in *. rewrite E. cbn [mbind res_bind].
    assert (zlen s - start = zlen lst) as El by (rewrite H3, zlen_app; lia).
    assert (rd (s ++ post) start (zlen s - start) = Ok lst) as ->.
    { rewrite El, H3, <- app_assoc. apply rd_app; lia. }
    cbn [mbind res_bind].
    destruct (newlen_law lst) as (t & -> & Hrt); [unfold size_ok; zl|]. cbn [mbind res_bind].
    rewrite put_token_ok by done. cbn [mbind res_bind].
    assert (Forall2 api_repr (tokens ++ [t]) (ts ++ [lst])) as Hf by (apply Forall2_app; [done|by constructor]).
    destruct (newlen_law []) as (j0 & Ej & Hj0); [done|].
    destruct (join_loop_ok j0 [] (ts ++ [lst]) sep Hj0) as (j & Ejl & Hj).
    { cbn [app]. rewrite joined_snoc, <- H3. unfold size_ok. lia. }
    exists (tokens ++ [t]), (ts ++ [lst]), j. split; [done|]. split; [done|]. split; [done|].
    unfold sdsjoinsds. rewrite Ej. cbn [mbind res_bind]. rewrite (joinsds_loop_eq _ _ _ _ Hf).
    split; [done|]. cbn [app] in Hj. by rewrite joined_snoc, <- H3 in Hj.
Qed.

Lemma sdssplitlen_joinsds_witness :
  let I := sds_api (fun _ => 3) in
  exists (tokens : list sds) ts j,
    sdssplitlen (str "foo_-_bar" ++ [0]) 9 (str "_-_") = Ok (Some tokens) /\
    Forall2 repr tokens ts /\ Forall (fun t => ~ contains (str "_-_") t) ts /\
    sdsjoinsds tokens (str "_-_") = Ok j /\ repr j (str "foo_-_bar").
Proof.
  apply (@sdssplitlen_joinsds sds (sds_api (fun _ => 3)) (sds_laws (fun _ => 3)) (str "foo_-_bar") [0] (str "_-_"));
    vm_compute; intuition congruence.
Defined.

Section Args.
Context {S : Type} `{HL : SdsLaws S}.

(** Quote every argument into a string of its own. *)
Fixpoint quote_all (args : list (list Z)) : res (list S) :=
  match args with
  | [] => Ok []
  | a :: args => s ← api_newlen []; q ← sdscatrepr s a; qs ← quote_all args; Ok (q :: qs)
  end.

Lemma quote_all_ok args : Forall (fun a => size_ok (quoted a)) args ->
  exists qs, quote_all args = Ok qs /\ Forall2 api_repr qs (map quoted args).
Proof.
  induction 1 as [|a args Ha _ (qs & E & Hq)]; [by exists []|]. cbn [quote_all map].
  destruct (newlen_law []) as (s & -> & Hs); [done|]. cbn [mbind res_bind].
  destruct (sdscatrepr_ok s [] a Hs Ha) as (q & -> & Hr). cbn [mbind res_bind]. rewrite E.
  eexists. split; [done|]. by constructor.
Qed.

Lemma joined_size sep l : Forall (fun a => zlen a <= zlen (joined sep l)) l.
Proof.
  induction l as [|a l IH]; [done|]. destruct l as [|b l]; [by repeat constructor|].
  rewrite joined_cons by done. constructor; [zl|].
  eapply Forall_impl; [|exact IH]. intros x Hx. cbn beta in Hx. rewrite !zlen_app. pose proof (zlen_nonneg a).
  pose proof (zlen_nonneg sep). lia.
Qed.

Lemma quoted_size a : zlen a + 2 <= zlen (quoted a).
Proof.
  unfold quoted. rewrite zlen_cons, zlen_app. change (zlen [34]) with 1.
  induction a as [|x a IH]; [done|]. cbn [flat_map]. rewrite zlen_app, zlen_cons.
  assert (1 <= zlen (repr_char x)); [|lia]. unfold repr_char. repeat case_match; done.
Qed.

Lemma joined_count l : zlen l <= zlen (joined [32] (map quoted l)).
Proof.
  induction l as [|a l IH]; [done|]. cbn [map]. pose proof (quoted_size a). destruct l as [|b l].
  - cbn [joined map]. rewrite zlen_cons, zlen_nil. pose proof (zlen_nonneg a). lia.
  - rewrite joined_cons by done. rewrite (zlen_cons a), !zlen_app. change (zlen [32]) with 1.
    pose proof (zlen_nonneg a). lia.
Qed.

(** ** Safety and termination of [sdssplitargs] *)

Definition nonzero (p : list Z) : Prop := Forall (fun c => c <> 0) p.

Lemma cpeek_total p k : nonzero p -> 0 <= k <= zlen p ->
  exists c, cpeek p k = Ok c /\ (c <> 0 -> k < zlen p).
Proof.
  intros Hp Hk. destruct (list_split_at k p) as (a & b & -> & Ha); [lia|].
  rewrite (cpeek_at _ k b a) by done. destruct b as [|c b]; [exists 0; done|].
  exists c. split; [done|]. zl.
Qed.

Lemma nonzero_drop n p : nonzero p -> nonzero (zdrop n p).
Proof. apply Forall_drop. Qed.

Lemma next_len p : nonzero p -> nonzero (next p) /\ zlen (next p) = Z.max 0 (zlen p - 1).
Proof.
  intros Hp. destruct Hp as [|c p Hc Hp]; [by split; [constructor|]|]. unfold next.
  rewrite (proj2 (Z.eqb_neq c 0)) by done. split; [done|zl].
Qed.

Lemma skip_blanks_ok p : nonzero p ->
  nonzero (skip_blanks p) /\ (length (skip_blanks p) <= length p)%nat.
Proof.
  unfold nonzero. induction 1 as [|c p Hc Hp [IH1 IH2]]; cbn [skip_blanks]; [by split|].
  destruct (_ && _); [split; [done|simpl; lia]|split; [by constructor|lia]].
Qed.

(** The outcome of a token scan started at [p]. *)
Definition token_post (p : list Z) (r : res (option (S * list Z))) : Prop :=
  exists o, r = Ok o /\ forall cur' p', o = Some (cur', p') ->
    nonzero p' /\ zlen p' <= Z.max 0 (zlen p - 1) /\ exists c', api_repr cur' c'.

Lemma and_then_total b m : (b = true -> exists x, m = Ok x) -> exists x, and_then (Ok b) m = Ok x /\
  (x = true -> b = true /\ m = Ok true).
Proof.
  destruct b; intros Hm; [|by exists false]. destruct (Hm eq_refl) as (x & E).
  exists x. unfold and_then. cbn [mbind res_bind]. rewrite E. split; [done|by intros ->].
Qed.

Lemma glued_total p : nonzero p -> 0 < zlen p -> exists b, glued p = Ok b.
Proof. intros Hp Hl. destruct (cpeek_total p 1 Hp) as (c & E & _); [lia|]. unfold glued. rewrite E. by eexists. Qed.

(** The tests for [\xHH] read behind the terminator of no string. *)
Lemma hex_test_total p c : nonzero p -> cpeek p 0 = Ok c -> (c <> 0 -> 0 < zlen p) ->
  exists b, and_then (Ok (c =? 92)) (and_then (is_at p 1 120)
    (and_then (x ← cpeek p 2; Ok (is_hex_digit x)) (x ← cpeek p 3; Ok (is_hex_digit x)))) = Ok b /\
  (b = true -> 3 < zlen p).
Proof.
  intros Hp Hc Hl. destruct (Z.eqb_spec c 92) as [-> |]; [|by exists false].
  destruct (cpeek_total p 1 Hp ltac:(lia)) as (c1 & E1 & H1). unfold and_then, is_at. cbn [mbind res_bind].
  rewrite E1. cbn [mbind res_bind]. destruct (Z.eqb_spec c1 120) as [-> |]; [|by exists false].
  destruct (cpeek_total p 2 Hp ltac:(lia)) as (c2 & -> & H2). cbn [mbind res_bind].
  destruct (is_hex_digit c2) eqn:D2; [|by exists false].
  destruct (decide (c2 = 0)) as [-> |]; [done|].
  destruct (cpeek_total p 3 Hp ltac:(lia)) as (c3 & -> & H3). cbn [mbind res_bind].
  exists (is_hex_digit c3). split; [done|]. intros D3. destruct (decide (c3 = 0)) as [-> |]; [done|auto].
Qed.

Lemma token_loop_total fuel p inq insq cur c :
  (length p < fuel)%nat -> nonzero p -> api_repr cur c -> zlen c + zlen p < 2 ^ 60 ->
  token_post p (token_loop fuel p inq insq cur).
Proof.
  revert p inq insq cur c. induction fuel as [|fuel IH]; intros p inq insq cur c Hf Hp Hr Hs; [lia|].
  cbn [token_loop]. destruct (cpeek_total p 0 Hp) as (c0 & E0 & H0); [pose proof (zlen_nonneg p); lia|].
  rewrite E0. cbn [mbind res_bind].
  destruct (next_len p Hp) as [Hn Hnl].
  assert (forall q i j, nonzero q -> zlen q < zlen p -> forall cur c, api_repr cur c ->
    zlen c + zlen q < 2 ^ 60 -> token_post p (token_loop fuel q i j cur)) as Hrec.
  { intros q i j Hq Hl cur1 c1 Hr1 Hs1. destruct (IH q i j cur1 c1) as (o & E & Ho); [unfold zlen in *; lia|done|done|done|].
    exists o. split; [done|]. intros cur' p' Ecp. destruct (Ho cur' p' Ecp) as (? & ? & ?).
    split; [done|]. split; [|done]. pose proof (zlen_nonneg q). lia. }
  assert (forall k x, 0 <= k < zlen p -> token_post p
    (current ← api_catlen cur [x]; token_loop fuel (next (zdrop k p)) inq insq current)) as Happ.
  { intros k x Hk. destruct (next_len (zdrop k p) (nonzero_drop k p Hp)) as [Hn' Hl'].
    rewrite zlen_zdrop in Hl'. destruct (catlen_law cur c [x] Hr) as (s1 & -> & Hr1); [unfold size_ok; zl|].
    cbn [mbind res_bind]. apply (Hrec _ _ _ Hn' ltac:(lia) s1 (c ++ [x]) Hr1). zl. }
  assert (0 < zlen p -> token_post p (g ← glued p; if g : bool then Ok None else Ok (Some (cur, next p)))) as Hclose.
  { intros Hl. destruct (glued_total p Hp Hl) as (g & ->). cbn [mbind res_bind]. destruct g; eexists; (split; [done|]); [done|].
    intros ? ? [= <- <-]. split; [done|]. split; [lia|by exists c]. }
  assert (token_post p (Ok None)) as Herr by (by exists None).
  assert (token_post p (Ok (Some (cur, next p)))) as Hdone.
  { eexists. split; [done|]. intros ? ? [= <- <-]. split; [done|]. split; [lia|by exists c]. }
  assert (forall x, c0 <> 0 -> token_post p (current ← api_catlen cur [x]; token_loop fuel (next p) inq insq current)) as Happ0.
  { intros x Hc. pose proof (Happ 0 x ltac:(lia)) as HA. by rewrite zdrop_0 in HA by lia. }
  destruct inq; [|destruct insq].
  - destruct (hex_test_total p c0 Hp E0 H0) as (b & -> & Hb). cbn [mbind res_bind]. destruct b.
    + specialize (Hb eq_refl). destruct (cpeek_total p 2 Hp ltac:(lia)) as (h & -> & _).
      destruct (cpeek_total p 3 Hp ltac:(lia)) as (l & -> & _). apply (Happ 3). lia.
    + destruct (and_then_total (c0 =? 92) (x ← cpeek p 1; Ok (negb (x =? 0)))) as (b & -> & Hb').
      { intros Hc. destruct (cpeek_total p 1 Hp) as (x & -> & _); [lia|by eexists]. }
      cbn [mbind res_bind]. destruct b.
      * destruct (Hb' eq_refl) as [Hc Hm]. destruct (cpeek_total p 1 Hp) as (x & Ex & Hx); [lia|].
        rewrite Ex in *. cbn [mbind res_bind] in *. injection Hm as Hm. apply (Happ 1). lia.
      * destruct (Z.eqb_spec c0 34); [apply Hclose; lia|]. destruct (Z.eqb_spec c0 0); [done|]. by apply Happ0.
  - destruct (and_then_total (c0 =? 92) (is_at p 1 39)) as (b & -> & Hb').
    { intros Hc. unfold is_at. destruct (cpeek_total p 1 Hp) as (x & -> & _); [lia|by eexists]. }
    cbn [mbind res_bind]. destruct b.
    + destruct (Hb' eq_refl) as [Hc Hm]. unfold is_at in Hm. destruct (cpeek_total p 1 Hp) as (x & Ex & Hx); [lia|].
      rewrite Ex in *. cbn [mbind res_bind] in *. injection Hm as Hm. apply (Happ 1). lia.
    + destruct (Z.eqb_spec c0 39); [apply Hclose; lia|]. destruct (Z.eqb_spec c0 0); [done|]. by apply Happ0.
  - destruct ((c0 =? 32) || _ || _ || _ || _) eqn:Eb; [done|]. assert (c0 <> 0) by (intros ->; done).
    destruct (Z.eqb_spec c0 34); [apply (Hrec _ _ _ Hn ltac:(lia) cur c Hr); lia|].
    destruct (Z.eqb_spec c0 39); [apply (Hrec _ _ _ Hn ltac:(lia) cur c Hr); lia|]. by apply Happ0.
Qed.
End Args.

(** C28: Quoting with [sdscatrepr] and splitting with [sdssplitargs] are inverse: any
    arguments, of any bytes, quoted one by one and joined with spaces, are read back
    unchanged. *)
Theorem sdscatrepr_sdssplitargs_roundtrip {S : Type} `{SdsLaws S} (args : list (list Z)) :
  Forall (Forall (in_u 8)) args -> size_ok (joined [32] (map quoted args)) ->
  exists (qs : list S) line l (v : list S), quote_all args = Ok qs /\ sdsjoinsds qs [32] = Ok line /\
    api_bytes line = Ok l /\ sdssplitargs l = Ok (Some v) /\ Forall2 api_repr v args.
Proof.
  intros Hb Hs. pose proof (joined_size [32] (map quoted args)) as Hj. rewrite Forall_fmap in Hj.
  assert (Forall (fun a => size_ok (quoted a)) args) as Hq.
  { eapply Forall_impl; [|exact Hj]. unfold size_ok in *. cbn. lia. }
  destruct (quote_all_ok args Hq) as (qs & E & Hqs).
  destruct (newlen_law []) as (j0 & Ej & Hj0); [done|].
  destruct (join_loop_ok j0 [] (map quoted args) [32] Hj0 Hs) as (line & El & Hline).
  destruct (args_quoted_ok (Datatypes.S (length (joined [32] (map quoted args)))) args [] [])
    as (v & Ev & Hv); [|apply Forall_forall; intros a Ha; split|constructor|].
  - pose proof (joined_count args). unfold zlen in *. lia.
  - rewrite Forall_forall in Hb. by apply Hb.
  - rewrite Forall_forall in Hq. specialize (Hq a Ha). pose proof (quoted_size a). unfold size_ok in *. lia.
  - exists qs, line, (joined [32] (map quoted args)), v. split; [done|].
    unfold sdsjoinsds. rewrite Ej. cbn [mbind res_bind]. rewrite (joinsds_loop_eq _ _ _ _ Hqs).
    split; [done|]. split; [by apply bytes_law|]. by split.
Qed.

Lemma sdscatrepr_sdssplitargs_roundtrip_witness :
  let I := sds_api (fun _ => 0) in
  exists (qs : list sds) line l (v : list sds),
    quote_all [[0; 255; 34]; []; str "a b"] = Ok qs /\ sdsjoinsds qs [32] = Ok line /\
    api_bytes line = Ok l /\ sdssplitargs l = Ok (Some v) /\ Forall2 repr v [[0; 255; 34]; []; str "a b"].
Proof.
  apply (@sdscatrepr_sdssplitargs_roundtrip sds (sds_api (fun _ => 0)) (sds_laws (fun _ => 0))).
  - repeat constructor; vm_compute; congruence.
  - vm_compute. reflexivity.
Defined.

(** On every C string below the size limit [sdssplitargs] returns, reads nothing behind
    the terminator, and hands out well-formed strings. *)
Theorem sdssplitargs_total {S : Type} `{SdsLaws S} (line : list Z) :
  nonzero line -> size_ok line ->
  exists r : option (list S), sdssplitargs line = Ok r /\
    forall v, r = Some v -> exists args, Forall2 api_repr v args.
Proof.
  intros Hp Hs. unfold sdssplitargs.
  assert (exists cs, Forall2 api_repr (@nil S) cs) as Hv by (by exists []).
  assert (length line < Datatypes.S (length line))%nat as Hf by lia. revert Hf Hv.
  generalize (Datatypes.S (length line)) as fuel. generalize (@nil S) as vec.
  intros vec fuel. revert line vec Hp Hs. induction fuel as [|fuel IH]; intros p vec Hp Hs Hf Hv; [lia|].
  cbn [args_loop]. destruct (skip_blanks_ok p Hp) as [Hp' Hl'].
  revert Hp' Hl'. generalize (skip_blanks p). intros q Hq Hl.
  destruct (cpeek_total q 0 Hq) as (c & -> & Hc); [pose proof (zlen_nonneg q); lia|]. cbn [mbind res_bind].
  destruct (Z.eqb_spec c 0); [exists (Some vec); split; [done|by intros v [= <-]]|].
  destruct (newlen_law []) as (cur & -> & Hcur); [done|]. cbn [mbind res_bind].
  destruct (token_loop_total (Datatypes.S (length q)) q false false cur []) as (o & E & Ho);
    [lia|done|done|unfold size_ok, zlen in *; simpl; lia|].
  cbn [token_loop] in E |- *. rewrite E. cbn [mbind res_bind]. destruct o as [[cur' p']|]; [|by exists None].
  destruct (Ho cur' p' eq_refl) as (Hp1 & Hl1 & c1 & Hc1). specialize (Hc n).
  apply IH; [done|unfold size_ok, zlen in *; lia|unfold zlen in *; lia|].
  destruct Hv as (cs & Hv). exists (cs ++ [c1]). apply Forall2_app; [done|by constructor].
Qed.

Lemma sdssplitargs_total_witness :
  let I := sds_api (fun _ => 0) in
  exists r : option (list sds), sdssplitargs (34 :: str "foo" ++ [34] ++ str "bar") = Ok r /\
    forall v, r = Some v -> exists args, Forall2 repr v args.
Proof.
  apply (@sdssplitargs_total sds (sds_api (fun _ => 0)) (sds_laws (fun _ => 0))).
  - repeat constructor; vm_compute; congruence.
  - vm_compute. reflexivity.
Defined.

(** ** Numbers *)

Definition SDS_LLSTR_SIZE : Z := 21.

(** [do { *p++ = '0'+(v%10); v /= 10; } while(v);] *)
Fixpoint digits_loop (fuel : nat) (b : list Z) (p v : Z) : res (list Z * Z) :=
  match fuel with
  | O => Fault OutOfFuel
  | S fuel =>
    b ← poke b p (48 + v mod 10);
    if v / 10 =? 0 then Ok (b, p + 1) else digits_loop fuel b (p + 1) (v / 10)
  end.

(** [while(s < p) { swap the bytes at s and p; s++; p--; }] *)
Fixpoint reverse_loop (fuel : nat) (b : list Z) (s p : Z) : res (list Z) :=
  match fuel with
  | O => Fault OutOfFuel
  | S fuel =>
    if s <? p then
      aux ← peek b s;
      x ← peek b p;
      b ← poke b s x;
      b ← poke b p aux;
      reverse_loop fuel b (s + 1) (p - 1)
    else Ok b
  end.

(** The text in the buffer and its length; [-value] of the least integer wraps to 2^63. *)
Definition sdsll2str (b : list Z) (value : Z) : res (list Z * Z) :=
  let v := u64 (if value <? 0 then - value else value) in
  '(b, p) ← digits_loop 20 b 0 v;
  '(b, p) ← (if value <? 0 then b ← poke b p (chr "-"); Ok (b, p + 1) else Ok (b, p));
  let l := p in
  b ← poke b p 0;
  b ← reverse_loop (S (Z.to_nat p)) b 0 (p - 1);
  Ok (b, l).

Definition sdsull2str (b : list Z) (v : Z) : res (list Z * Z) :=
  '(b, p) ← digits_loop 20 b 0 v;
  let l := p in
  b ← poke b p 0;
  b ← reverse_loop (S (Z.to_nat p)) b 0 (p - 1);
  Ok (b, l).

(** A local [char buf[SDS_LLSTR_SIZE]], its contents unknown. *)
Definition local_buf (junk : Z -> Z) : list Z := zrealloc junk [] SDS_LLSTR_SIZE.

Definition sdsfromlonglong (junk : Z -> Z) (value : Z) : res sds :=
  '(b, len) ← sdsll2str (local_buf junk) value; sdsnewlen junk (Some b) len.

(** ** Formatting *)

(** The variadic arguments with the types [va_arg] takes them at. *)
Inductive fmt_arg := Arg_s (t : list Z) | Arg_S (t : sds) | Arg_i (n : Z) | Arg_I (n : Z)
  | Arg_u (n : Z) | Arg_U (n : Z).

Section Format.
Context (junk : Z -> Z).

(** Make room for [l] bytes, copy them to [s+i], account for them. *)
Definition fmt_put (s : sds) (i : Z) (x : list Z) (l : Z) : res (sds * Z) :=
  s ← (if sdsavail s <? l then sdsMakeRoomFor junk s l else Ok s);
  x ← rd x 0 l;
  b ← wr (buf s) i x;
  Ok (sdsinclen (with_buf s b) l, i32 (i + l)).

(** [s[i++] = c; sdsinclen(s,1);] *)
Definition fmt_char (s : sds) (i c : Z) : res (sds * Z) :=
  b ← poke (buf s) i c; Ok (sdsinclen (with_buf s b) 1, i32 (i + 1)).

(** [va_arg] at [int] or [long long], at [unsigned int] or [unsigned long long]. *)
Definition va_signed (next : Z) (ap : list fmt_arg) : res (Z * list fmt_arg) :=
  match ap with
  | Arg_i num :: ap => if next =? chr "i" then Ok (num, ap) else Fault OutOfBounds
  | Arg_I num :: ap => if next =? chr "I" then Ok (num, ap) else Fault OutOfBounds
  | _ => Fault OutOfBounds
  end.

Definition va_unsigned (next : Z) (ap : list fmt_arg) : res (Z * list fmt_arg) :=
  match ap with
  | Arg_u num :: ap => if next =? chr "u" then Ok (num, ap) else Fault OutOfBounds
  | Arg_U num :: ap => if next =? chr "U" then Ok (num, ap) else Fault OutOfBounds
  | _ => Fault OutOfBounds
  end.

(** The loop over the format is over the position [f] in the format; [ap] is the arguments
    left. An argument of another type than the directive's has no defined meaning. *)
Fixpoint catfmt_loop (fuel : nat) (s : sds) (fmt : list Z) (f i : Z) (ap : list fmt_arg)
    : res (sds * Z) :=
  match fuel with
  | O => Fault OutOfFuel
  | S fuel =>
    c ← cpeek fmt f;
    if c =? 0 then Ok (s, i) else
    s ← (if sdsavail s =? 0 then sdsMakeRoomFor junk s 1 else Ok s);
    if c =? chr "%" then
      next ← cpeek fmt (f + 1);
      let f := f + 1 in
      let continue := fun r ap => '(s, i) ← (r : res (sds * Z)); catfmt_loop fuel s fmt (f + 1) i ap in
      if next =? chr "s" then
        match ap with
        | Arg_s t :: ap => continue (fmt_put s i t (zlen t)) ap
        | _ => Fault OutOfBounds
        end
      else if next =? chr "S" then
        match ap with
        | Arg_S t :: ap => continue (fmt_put s i (buf t) (sdslen t)) ap
        | _ => Fault OutOfBounds
        end
      else if (next =? chr "i") || (next =? chr "I") then
        '(num, ap) ← va_signed next ap;
        continue ('(b, l) ← sdsll2str (local_buf junk) num; fmt_put s i b l) ap
      else if (next =? chr "u") || (next =? chr "U") then
        '(num, ap) ← va_unsigned next ap;
        continue ('(b, l) ← sdsull2str (local_buf junk) num; fmt_put s i b l) ap
      else continue (fmt_char s i next) ap
    else
      '(s, i) ← fmt_char s i c; catfmt_loop fuel s fmt (f + 1) i ap
  end.

Definition sdscatfmt (s : sds) (fmt : list Z) (ap : list fmt_arg) : res sds :=
  let initlen := sdslen s in
  '(s, i) ← catfmt_loop (S (S (length fmt))) s fmt 0 (i32 initlen) ap;
  b ← poke (buf s) i 0;
  Ok (with_buf s b).
End Format.

(** ** What formatting means *)

Definition content (t : sds) : list Z := ztake (sdslen t) (buf t).

Definition arg_ok (a : fmt_arg) : Prop :=
  match a with
  | Arg_s t => nonzero t
  | Arg_S t => exists c, repr t c
  | Arg_i n => in_s 32 n | Arg_I n => in_s 64 n
  | Arg_u n => in_u 32 n | Arg_U n => in_u 64 n
  end.

(** The directive [next] applied to an argument: its expansion. *)
Definition expand (next : Z) (a : fmt_arg) : option (list Z) :=
  match a with
  | Arg_s t => if next =? chr "s" then Some t else None
  | Arg_S t => if next =? chr "S" then Some (content t) else None
  | Arg_i n => if next =? chr "i" then Some (dec n) else None
  | Arg_I n => if next =? chr "I" then Some (dec n) else None
  | Arg_u n => if next =? chr "u" then Some (udec n) else None
  | Arg_U n => if next =? chr "U" then Some (udec n) else None
  end.

Definition is_directive (c : Z) : bool :=
  existsb (Z.eqb c) [chr "s"; chr "S"; chr "i"; chr "I"; chr "u"; chr "U"].

(** The text a format stands for; [None] when arguments and directives do not match or
    the format ends in a single percent sign. *)
Fixpoint fmt_text (fmt : list Z) (ap : list fmt_arg) : option (list Z) :=
  match fmt with
  | [] => Some []
  | c :: fmt =>
    if c =? chr "%" then
      match fmt with
      | [] => None
      | n :: fmt =>
        if is_directive n then
          match ap with
          | [] => None
          | a :: ap => x ← expand n a; y ← fmt_text fmt ap; Some (x ++ y)
          end
        else y ← fmt_text fmt ap; Some (n :: y)
      end
    else y ← fmt_text fmt ap; Some (c :: y)
  end.

Lemma digits_loop_ok fuel pre old c v :
  0 <= v < 2 ^ 64 -> v < 10 ^ Z.of_nat fuel -> (0 < fuel)%nat -> zlen old = zlen (udec v) ->
  digits_loop fuel (pre ++ old ++ c) (zlen pre) v =
    Ok (pre ++ reverse (udec v) ++ c, zlen pre + zlen (udec v)).
Proof.
  revert pre old v. induction fuel as [|fuel IH]; intros pre old v Hv Hb Hf Ho; [lia|].
  pose proof (udec_len_le v). destruct old as [|o old]; [zl|]. cbn [digits_loop app].
  rewrite poke_app by done. cbn [mbind res_bind].
  destruct (Z.eqb_spec (v / 10) 0) as [E|E].
  - assert (v < 10) by (apply Z.div_small_iff in E; lia). rewrite udec_small in * by lia.
    rewrite zlen_cons in Ho. change (zlen [48 + v]) with 1 in *. rewrite (zlen_0_nil old) by lia.
    rewrite Z.mod_small by lia. done.
  - assert (10 <= v) by (destruct (Z.lt_ge_cases v 10); [rewrite Z.div_small in E|]; lia).
    rewrite udec_step in * by lia. rewrite zlen_app, zlen_cons in Ho. change (zlen [48 + v mod 10]) with 1 in Ho.
    specialize (IH (pre ++ [48 + v mod 10]) old (v / 10)). rewrite <- !app_assoc in IH. cbn [app] in IH.
    rewrite zlen_app in IH. change (zlen [48 + v mod 10]) with 1 in IH.
    rewrite IH; [|apply div10_bounds; lia| |..].
    + rewrite reverse_snoc. cbn [app]. f_equal. f_equal. zl.
    + rewrite pow10_succ in Hb. apply Z.div_lt_upper_bound; lia.
    + destruct fuel; [|lia]. change (10 ^ Z.of_nat 1) with 10 in Hb. lia.
    + lia.
Qed.

Lemma reverse_loop_ok fuel pre m post :
  (length m < fuel)%nat ->
  reverse_loop fuel (pre ++ m ++ post) (zlen pre) (zlen pre + zlen m - 1) = Ok (pre ++ reverse m ++ post).
Proof.
  revert pre m post. induction fuel as [|fuel IH]; intros pre m post Hf; [lia|]. cbn [reverse_loop].
  destruct (Z.ltb_spec (zlen pre) (zlen pre + zlen m - 1)) as [Hl|Hl].
  - destruct m as [|x m]; [zl|]. destruct m as [|y m _] using rev_ind; [zl|].
    assert (forall a b, pre ++ (a :: m ++ [b]) ++ post = (pre ++ a :: m) ++ b :: post) as Ea
      by (intros; cbn [app]; by rewrite <- !app_assoc).
    replace (zlen pre + zlen (x :: m ++ [y]) - 1) with (zlen (pre ++ x :: m)) by zl.
    cbn [app]. rewrite (peek_app pre x _ (zlen pre)) by done. cbn [mbind res_bind].
    change (pre ++ x :: (m ++ [y]) ++ post) with (pre ++ (x :: m ++ [y]) ++ post).
    rewrite Ea, (peek_app (pre ++ x :: m)) by done. cbn [mbind res_bind]. rewrite <- Ea. cbn [app].
    rewrite (poke_app pre) by done. cbn [mbind res_bind].
    change (pre ++ y :: (m ++ [y]) ++ post) with (pre ++ (y :: m ++ [y]) ++ post).
    rewrite Ea, (poke_app (pre ++ y :: m)) by zl. cbn [mbind res_bind].
    specialize (IH (pre ++ [y]) m (x :: post)). rewrite <- !app_assoc in IH. cbn [app] in IH.
    rewrite <- app_assoc. cbn [app].
    replace (zlen (pre ++ [y]) + zlen m - 1) with (zlen (pre ++ x :: m) - 1) in IH by zl.
    rewrite zlen_app in IH at 1. change (zlen [y]) with 1 in IH. rewrite IH.
    + rewrite reverse_cons, reverse_snoc. cbn [app]. by rewrite <- app_assoc.
    + cbn in Hf. rewrite length_app in Hf. lia.
  - destruct m as [|x [|y m]]; [done|done|zl].
Qed.

(** Reversing the digits in place, behind which the terminator is already written. *)
Lemma finish_number m q post l : l = zlen m -> 0 < zlen m ->
  (b ← poke (m ++ q :: post) l 0;
   b ← reverse_loop (S (Z.to_nat l)) b 0 (l - 1); Ok (b, l)) = Ok (reverse m ++ 0 :: post, l).
Proof.
  intros -> Hm. rewrite poke_app by done. cbn [mbind res_bind].
  pose proof (reverse_loop_ok (S (Z.to_nat (zlen m))) [] m (0 :: post)) as E. cbn [app] in E.
  change (zlen (@nil Z)) with 0 in E. rewrite Z.add_0_l in E. rewrite E; [done|unfold zlen; lia].
Qed.

Lemma udec_bound v : 0 <= v < 2 ^ 64 -> v < 10 ^ Z.of_nat 20.
Proof. intros. assert (2 ^ 64 < 10 ^ Z.of_nat 20) by (by vm_compute). lia. Qed.

Lemma sdsull2str_ok b v : zlen b = SDS_LLSTR_SIZE -> in_u 64 v ->
  exists post, sdsull2str b v = Ok (udec v ++ 0 :: post, zlen (udec v)).
Proof.
  unfold SDS_LLSTR_SIZE. intros Hb Hv. pose proof (udec_len_le v).
  destruct (split_cons_at (zlen (udec v)) b) as (old & q & post & -> & Ho); [lia|].
  exists post. unfold sdsull2str.
  pose proof (digits_loop_ok 20 [] old (q :: post) v Hv (udec_bound v Hv) ltac:(lia) Ho) as E.
  cbn [app] in E. change (zlen (@nil Z)) with 0 in E. rewrite Z.add_0_l in E. rewrite E.
  cbn [mbind res_bind]. rewrite finish_number; [by rewrite reverse_involutive|zl|zl].
Qed.

Lemma sdsll2str_ok b v : zlen b = SDS_LLSTR_SIZE -> in_s 64 v ->
  exists post, sdsll2str b v = Ok (dec v ++ 0 :: post, zlen (dec v)).
Proof.
  unfold SDS_LLSTR_SIZE. intros Hb Hv. pose proof (dec_len_le v Hv) as Hl. unfold in_s in Hv.
  set (w := if v <? 0 then - v else v).
  assert (0 <= w < 2 ^ 64) as Hw by (subst w; destruct (Z.ltb_spec v 0); lia).
  pose proof (udec_len_le w) as Hwl.
  assert (zlen (udec w) <= zlen (dec v)) as Hd by (subst w; unfold dec; destruct (v <? 0); zl).
  destruct (list_split_at (zlen (udec w)) b) as (old & rest & -> & Ho); [lia|].
  pose proof (digits_loop_ok 20 [] old rest w Hw (udec_bound w Hw) ltac:(lia) Ho) as E.
  cbn [app] in E. change (zlen (@nil Z)) with 0 in E. rewrite Z.add_0_l in E.
  unfold sdsll2str. fold w. rewrite (uwrap_id 64 w) by done. rewrite E. cbn [mbind res_bind].
  unfold dec in *. subst w. destruct (Z.ltb_spec v 0).
  - destruct rest as [|x [|q post]]; [zl|zl|]. rewrite poke_app by zl. cbn [mbind res_bind].
    exists post. replace (reverse (udec (- v)) ++ 45 :: q :: post) with
      ((reverse (udec (- v)) ++ [45]) ++ q :: post) by (by rewrite <- app_assoc).
    rewrite finish_number; [|zl|zl]. rewrite reverse_app, reverse_involutive. cbn [app].
    f_equal. f_equal. zl.
  - destruct rest as [|q post]; [zl|]. cbn [mbind res_bind]. exists post.
    rewrite finish_number; [by rewrite reverse_involutive|zl|zl].
Qed.

Lemma local_buf_len junk : zlen (local_buf junk) = SDS_LLSTR_SIZE.
Proof. apply zlen_zrealloc. done. Qed.

(** ** [sdscatfmt] *)

Lemma sdsinclen_eq s inc : hdr_ok s -> 0 <= inc -> sdslen s + inc <= sdsalloc s ->
  sdsinclen s inc = sdssetlen s (sdslen s + inc).
Proof.
  intros H Hi Hl. unfold sdsinclen, sdssetlen.
  destruct (hdr_ok_view s H) as [n Hn Ef Et El Ea Ev|Ht Et El Ea Ev Hl' Ha]; rewrite Et, El, Ea in *.
  - cbn [Z.eqb SDS_TYPE_5]. rewrite Ef. unfold SDS_TYPE_5_LEN, SDS_TYPE_BITS. rewrite shiftr3_mul8.
    assert (inc = 0) as -> by lia. rewrite Z.add_0_r, !(uwrap_id 8 n) by (unfold in_u; lia).
    rewrite (uwrap_id 64); [done|]. rewrite Z.shiftl_mul_pow2 by lia. unfold in_u. lia.
  - by rewrite (proj2 (Z.eqb_neq (flags s) SDS_TYPE_5)) by (unfold SDS_TYPE_5; lia).
Qed.

Section FormatLemmas.
Context (junk : Z -> Z).

Lemma put_ok z s c t : repr_term z s c -> zlen c + zlen t <= sdsalloc s ->
  exists b z', wr (buf s) (zlen c) t = Ok b /\ repr_term z' (sdsinclen (with_buf s b) (zlen t)) (c ++ t).
Proof.
  intros [H El (free & Eb & Hf)] Hl. pose proof (zlen_nonneg t).
  destruct (split_cons_at (zlen t) (z :: free)) as (old & z' & f2 & E & Ho); [zl|].
  exists (c ++ t ++ z' :: f2), z'. rewrite Eb, E, (wr_app c old t) by done. split; [done|].
  set (s1 := with_buf s (c ++ t ++ z' :: f2)).
  destruct (with_buf_hdr s (c ++ t ++ z' :: f2)) as (B1 & B2 & _ & B4). fold s1 in B1, B2, B4.
  assert (hdr_ok s1) as H1 by (by apply B4). pose proof (zlen_nonneg c).
  rewrite sdsinclen_eq by (done || lia).
  destruct (setlen_ok s1 (sdslen s1 + zlen t) H1) as (S1 & S2 & S3 & S4); [lia|].
  constructor; [done|rewrite S2; zl|]. exists f2. rewrite S4. split; [by rewrite <- app_assoc|].
  apply (f_equal zlen) in E. zl.
Qed.

Lemma fmt_put_ok z s c t rest i l : repr_term z s c -> zlen c + zlen t < 2 ^ 31 ->
  i = zlen c -> l = zlen t ->
  exists s' z', fmt_put junk s i (t ++ rest) l = Ok (s', zlen (c ++ t)) /\ repr_term z' s' (c ++ t).
Proof.
  intros Hr Hb -> ->. unfold fmt_put. pose proof (zlen_nonneg t). pose proof (zlen_nonneg c).
  assert (exists s1, (if sdsavail s <? zlen t then sdsMakeRoomFor junk s (zlen t) else Ok s) = Ok s1 /\
    repr_term z s1 c /\ zlen c + zlen t <= sdsalloc s1) as (s1 & -> & Hr1 & Ha).
  { pose proof (repr_bounds _ s c Hr). destruct (Z.ltb_spec (sdsavail s) (zlen t)).
    - apply sdsMakeRoomFor_ok; [done|lia|lia].
    - exists s. split; [done|]. split; [done|lia]. }
  cbn [mbind res_bind]. rewrite rd_app0 by done. cbn [mbind res_bind].
  destruct (put_ok z s1 c t Hr1 Ha) as (b & z' & -> & Hr'). cbn [mbind res_bind].
  rewrite swrap_id, zlen_app by (unfold in_s; lia). by eexists _, z'.
Qed.

Lemma fmt_char_ok z s c x i : repr_term z s c -> zlen c + 1 < 2 ^ 31 -> i = zlen c ->
  zlen c + 1 <= sdsalloc s ->
  exists s' z', fmt_char s i x = Ok (s', zlen (c ++ [x])) /\ repr_term z' s' (c ++ [x]).
Proof.
  intros Hr Hb -> Ha. unfold fmt_char, poke. pose proof (zlen_nonneg c).
  destruct (put_ok z s c [x] Hr Ha) as (b & z' & -> & Hr'). cbn [mbind res_bind].
  rewrite swrap_id, zlen_app by (unfold in_s; lia). by eexists _, z'.
Qed.

Lemma catfmt_room z s c : repr_term z s c -> zlen c < 2 ^ 31 ->
  exists s1, (if sdsavail s =? 0 then sdsMakeRoomFor junk s 1 else Ok s) = Ok s1 /\
    repr_term z s1 c /\ zlen c + 1 <= sdsalloc s1.
Proof.
  intros Hr Hc. pose proof (repr_bounds _ s c Hr). destruct (Z.eqb_spec (sdsavail s) 0).
  - apply sdsMakeRoomFor_ok; [done|lia|lia].
  - exists s. split; [done|]. split; [done|lia].
Qed.
End FormatLemmas.

(** One directive with its argument, inside the loop. *)
Lemma directive_ok z s c fuel fmt f n a x ap :
  repr_term z s c -> zlen c + zlen x < 2 ^ 31 -> arg_ok a -> expand n a = Some x ->
  cpeek fmt f = Ok 37 -> cpeek fmt (f + 1) = Ok n ->
  forall junk, exists s1 z1, repr_term z1 s1 (c ++ x) /\
    catfmt_loop junk (S fuel) s fmt f (zlen c) (a :: ap) =
    catfmt_loop junk fuel s1 fmt (f + 1 + 1) (zlen (c ++ x)) ap.
Proof.
  intros Hr0 Hb Hok Hx E0 E1 junk. cbn [catfmt_loop]. rewrite E0. cbn [mbind res_bind Z.eqb Pos.eqb].
  destruct (catfmt_room junk z s c Hr0) as (s' & -> & Hr & _); [zl|]. clear s Hr0. rename s' into s.
  cbn [mbind res_bind]. rewrite E1. cbn [mbind res_bind].
  destruct a as [t|t|m|m|m|m]; cbn [expand arg_ok] in *;
    match type of Hx with context [n =? ?k] => destruct (Z.eqb_spec n k) as [En|] end; try discriminate; injection Hx as <-; subst n; cbn -[catfmt_loop fmt_put sdsll2str sdsull2str dec udec].
  - destruct (fmt_put_ok junk z s c t [] (zlen c) (zlen t) Hr Hb) as (s1 & z1 & E & Hr1); [done..|].
    rewrite app_nil_r in E. rewrite E. by exists s1, z1.
  - destruct Hok as (d & [Hh El (free & Eb & Hf)]).
    assert (content t = d) as Ec by (unfold content; rewrite El, Eb; by apply ztake_app). rewrite Ec in *.
    rewrite Eb, El. destruct (fmt_put_ok junk z s c d (0 :: free) (zlen c) (zlen d) Hr Hb) as (s1 & z1 & -> & Hr1); [done..|].
    by exists s1, z1.
  - destruct (sdsll2str_ok (local_buf junk) m) as (post & ->); [apply local_buf_len|unfold in_s in *; lia|].
    cbn [mbind res_bind].
    destruct (fmt_put_ok junk z s c (dec m) (0 :: post) (zlen c) (zlen (dec m)) Hr Hb) as (s1 & z1 & -> & Hr1); [done..|]. by exists s1, z1.
  - destruct (sdsll2str_ok (local_buf junk) m) as (post & ->); [apply local_buf_len|done|].
    cbn [mbind res_bind].
    destruct (fmt_put_ok junk z s c (dec m) (0 :: post) (zlen c) (zlen (dec m)) Hr Hb) as (s1 & z1 & -> & Hr1); [done..|]. by exists s1, z1.
  - destruct (sdsull2str_ok (local_buf junk) m) as (post & ->); [apply local_buf_len|unfold in_u in *; lia|].
    cbn [mbind res_bind].
    destruct (fmt_put_ok junk z s c (udec m) (0 :: post) (zlen c) (zlen (udec m)) Hr Hb) as (s1 & z1 & -> & Hr1); [done..|]. by exists s1, z1.
  - destruct (sdsull2str_ok (local_buf junk) m) as (post & ->); [apply local_buf_len|done|].
    cbn [mbind res_bind].
    destruct (fmt_put_ok junk z s c (udec m) (0 :: post) (zlen c) (zlen (udec m)) Hr Hb) as (s1 & z1 & -> & Hr1); [done..|]. by exists s1, z1.
Qed.

Lemma not_directive n : is_directive n = false ->
  (n =? 115) = false /\ (n =? 83) = false /\ (n =? 105) || (n =? 73) = false /\
  (n =? 117) || (n =? 85) = false.
Proof. unfold is_directive. cbn [existsb]. repeat (destruct (n =? _); [done|]). done. Qed.

Lemma catfmt_loop_ok junk fuel pre suf ap z s c out :
  (length suf < fuel)%nat -> nonzero suf -> Forall arg_ok ap -> fmt_text suf ap = Some out ->
  repr_term z s c -> zlen c + zlen out < 2 ^ 31 ->
  exists s' z', catfmt_loop junk fuel s (pre ++ suf) (zlen pre) (zlen c) ap = Ok (s', zlen (c ++ out)) /\
    repr_term z' s' (c ++ out).
Proof.
  revert pre suf ap z s c out. induction fuel as [|fuel IH]; intros pre suf ap z s c out Hf Hnz Hap Ht Hr Hb; [lia|].
  destruct suf as [|x suf].
  { injection Ht as <-. exists s, z. rewrite !app_nil_r. cbn [catfmt_loop].
    rewrite (cpeek_end pre (zlen pre)) by done. by split. }
  inversion Hnz as [|? ? Hx0 Hnz']; subst.
  assert (cpeek (pre ++ x :: suf) (zlen pre) = Ok x) as Ex by (by apply cpeek_app).
  cbn [fmt_text] in Ht. destruct (Z.eqb_spec x 37) as [-> |Hx].
  - destruct suf as [|n suf]; [done|]. inversion Hnz' as [|? ? Hn0 Hnz'']; subst.
    assert (cpeek (pre ++ 37 :: n :: suf) (zlen pre + 1) = Ok n) as En.
    { rewrite cons_middle, app_assoc. apply cpeek_app. zl. }
    specialize (IH (pre ++ [37; n]) suf). rewrite <- app_assoc in IH. cbn [app] in IH.
    replace (zlen (pre ++ [37; n])) with (zlen pre + 1 + 1) in IH by (rewrite zlen_app, !zlen_cons, zlen_nil; lia).
    destruct (is_directive n) eqn:Ed.
    + destruct ap as [|a ap]; [done|]. destruct (expand n a) as [y|] eqn:Ey; [|done].
      destruct (fmt_text suf ap) as [w|] eqn:Ew; [|done]. injection Ht as <-. rewrite zlen_app in Hb.
      inversion Hap as [|? ? Ha Hap']; subst. pose proof (zlen_nonneg w).
      destruct (directive_ok z s c fuel _ (zlen pre) n a y ap Hr ltac:(lia) Ha Ey Ex En junk) as (s1 & z1 & Hr1 & ->).
      destruct (IH ap z1 s1 (c ++ y) w) as (s' & z' & E & Hr'); [simpl in Hf; lia|done..|zl|].
      exists s', z'. by rewrite <- !app_assoc in *.
    + destruct (fmt_text suf ap) as [w|] eqn:Ew; [|done]. injection Ht as <-. rewrite zlen_cons in Hb.
      cbn [catfmt_loop]. rewrite Ex. cbn [mbind res_bind Z.eqb Pos.eqb]. pose proof (zlen_nonneg w).
      destruct (catfmt_room junk z s c Hr) as (s0 & -> & Hr0 & Ha0); [lia|]. cbn [mbind res_bind]. rewrite En.
      cbn [mbind res_bind]. destruct (not_directive n Ed) as (-> & -> & -> & ->).
      destruct (fmt_char_ok z s0 c n (zlen c) Hr0) as (s1 & z1 & -> & Hr1); [lia|done|done|]. cbn [mbind res_bind].
      destruct (IH ap z1 s1 (c ++ [n]) w) as (s' & z' & E & Hr'); [simpl in Hf; lia|done..|zl|].
      exists s', z'. by rewrite <- !app_assoc in *.
  - destruct (fmt_text suf ap) as [w|] eqn:Ew; [|done]. injection Ht as <-. rewrite zlen_cons in Hb.
    cbn [catfmt_loop]. rewrite Ex. cbn [mbind res_bind]. pose proof (zlen_nonneg w).
    rewrite (proj2 (Z.eqb_neq x 0)) by done.
    destruct (catfmt_room junk z s c Hr) as (s0 & -> & Hr0 & Ha0); [lia|]. cbn [mbind res_bind].
    rewrite (proj2 (Z.eqb_neq x 37)) by done.
    destruct (fmt_char_ok z s0 c x (zlen c) Hr0) as (s1 & z1 & -> & Hr1); [lia|done|done|]. cbn [mbind res_bind].
    specialize (IH (pre ++ [x]) suf). rewrite <- app_assoc, zlen_app in IH.
    destruct (IH ap z1 s1 (c ++ [x]) w) as (s' & z' & E & Hr'); [simpl in Hf; lia|done..|zl|].
    exists s', z'. by rewrite <- !app_assoc in *.
Qed.

(** [sdscatfmt] appends exactly the text its format stands for (strings, sds strings,
    signed and unsigned numbers in decimal, percent signs), inside the allocation,
    when arguments match directives and the format does not end in a single percent. *)
Theorem sdscatfmt_correct junk s c fmt ap out :
  repr s c -> nonzero fmt -> Forall arg_ok ap -> fmt_text fmt ap = Some out ->
  zlen c + zlen out < 2 ^ 31 ->
  exists s', sdscatfmt junk s fmt ap = Ok s' /\ repr s' (c ++ out).
Proof.
  intros Hr Hnz Hap Ht Hb. pose proof (zlen_nonneg out). pose proof (zlen_nonneg c).
  destruct (catfmt_loop_ok junk (S (S (length fmt))) [] fmt ap 0 s c out) as (s1 & z1 & E & Hr1); [lia|done..|].
  cbn [app] in E. change (zlen (@nil Z)) with 0 in E. unfold sdscatfmt. rewrite (repr_len s c Hr).
  rewrite swrap_id by (unfold in_s; lia). rewrite E. cbn [mbind res_bind].
  destruct Hr1 as [H1 El (free & Eb & Hf)]. rewrite Eb, poke_app by done. cbn [mbind res_bind].
  destruct (with_buf_hdr s1 ((c ++ out) ++ 0 :: free)) as (B1 & B2 & _ & B4).
  eexists. split; [done|]. constructor; [by apply B4|by rewrite B1|]. exists free. by rewrite B2.
Qed.

Lemma sdscatfmt_correct_witness :
  exists s', sdscatfmt (fun _ => 9) (mk_sds 8 0 0 (str ":" ++ [0])) (str "%s=%I%%")
      [Arg_s (str "x"); Arg_I (-12)] = Ok s' /\ repr s' (str ":" ++ str "x=-12%").
Proof.
  apply sdscatfmt_correct; [|repeat constructor; congruence| |reflexivity|reflexivity].
  - constructor; [left; exists 1; vm_compute; intuition congruence|reflexivity|].
    exists []. split; [reflexivity|vm_compute; congruence].
  - repeat constructor; vm_compute; congruence.
Defined.

(** A format that ends in a single percent sign makes [sdscatfmt] read past the
    terminator of the format. *)
Theorem sdscatfmt_trailing_percent_faults :
  sdscatfmt (fun _ => 0) (mk_sds 8 0 0 (str "a" ++ [0])) (str "50%") [] = Fault OutOfBounds.
Proof. vm_compute. reflexivity. Qed.
End SdsText.
