(* ===== verification/Adlist.v ===== *)
(** * Doubly linked lists: src/redis-stable/src/adlist.h and adlist.c

    Nodes live in a shared heap addressed by [loc]; a pointer is [option loc] with
    [None] for NULL, and following a NULL or freed pointer is a fault. The [list]
    structure itself is passed by value. Of the [free] callback the model records
    the values it is called on, in order. *)
From stdpp Require Import gmap.
From S2P Require Import Prelude.

Module Adlist.

Abbreviation loc := positive.
Abbreviation ptr := (option positive).

Record listNode := mk_node { prev : ptr; next : ptr; value : Z }.

(** The callbacks of a list: [ldup] returns [None] for NULL. *)
Record list_ := mk_list {
  head : ptr; tail : ptr; len : Z;
  ldup : option (Z -> option Z); lfree : bool; lmatch : option (Z -> Z -> bool) }.

(** The heap, and the values passed to [free] callbacks so far. *)
Record mem := mk_mem { nodes : gmap loc listNode; freed : list Z }.

Definition with_prev (n : listNode) (p : ptr) : listNode := mk_node p (next n) (value n).
Definition with_next (n : listNode) (p : ptr) : listNode := mk_node (prev n) p (value n).
Definition with_ends (l : list_) (h t : ptr) : list_ :=
  mk_list h t (len l) (ldup l) (lfree l) (lmatch l).
Definition with_len (l : list_) (n : Z) : list_ :=
  mk_list (head l) (tail l) n (ldup l) (lfree l) (lmatch l).

Definition load (m : mem) (p : ptr) : res listNode :=
  match p with
  | Some a => match nodes m !! a with Some n => Ok n | None => Fault OutOfBounds end
  | None => Fault OutOfBounds
  end.

Definition store (m : mem) (p : ptr) (n : listNode) : res mem :=
  _ ← load m p;
  match p with
  | Some a => Ok (mk_mem (<[a := n]> (nodes m)) (freed m))
  | None => Fault OutOfBounds
  end.

(** [p->prev = q], [p->next = q] *)
Definition set_prev (m : mem) (p q : ptr) : res mem := n ← load m p; store m p (with_prev n q).
Definition set_next (m : mem) (p q : ptr) : res mem := n ← load m p; store m p (with_next n q).

(** [zmalloc(sizeof(listNode))] followed by the initialisation of the fields. *)
Definition new_node (m : mem) (n : listNode) : mem * loc :=
  let a := fresh (dom (nodes m)) in (mk_mem (<[a := n]> (nodes m)) (freed m), a).

Definition zfree (m : mem) (p : ptr) : res mem :=
  _ ← load m p;
  match p with
  | Some a => Ok (mk_mem (delete a (nodes m)) (freed m))
  | None => Fault OutOfBounds
  end.

(** [if (list->free) list->free(v);] *)
Definition call_free (l : list_) (m : mem) (v : Z) : mem :=
  if lfree l then mk_mem (nodes m) (freed m ++ [v]) else m.

Definition listCreate : list_ := mk_list None None 0 None false None.

Fixpoint empty_loop (n : nat) (l : list_) (m : mem) (current : ptr) : res mem :=
  match n with
  | O => Ok m
  | S n =>
    c ← load m current;
    let m := call_free l m (value c) in
    m ← zfree m current;
    empty_loop n l m (next c)
  end.

Definition listEmpty (m : mem) (l : list_) : res (mem * list_) :=
  m ← empty_loop (Z.to_nat (len l)) l m (head l);
  Ok (m, with_len (with_ends l None None) 0).

(** The [list] structure is freed by the caller that holds it. *)
Definition listRelease (m : mem) (l : list_) : res mem :=
  '(m, _) ← listEmpty m l; Ok m.

Definition listAddNodeHead (m : mem) (l : list_) (v : Z) : res (mem * list_) :=
  if len l =? 0 then
    let '(m, a) := new_node m (mk_node None None v) in
    Ok (m, with_len (with_ends l (Some a) (Some a)) (u64 (len l + 1)))
  else
    let '(m, a) := new_node m (mk_node None (head l) v) in
    m ← set_prev m (head l) (Some a);
    Ok (m, with_len (with_ends l (Some a) (tail l)) (u64 (len l + 1))).

Definition listAddNodeTail (m : mem) (l : list_) (v : Z) : res (mem * list_) :=
  if len l =? 0 then
    let '(m, a) := new_node m (mk_node None None v) in
    Ok (m, with_len (with_ends l (Some a) (Some a)) (u64 (len l + 1)))
  else
    let '(m, a) := new_node m (mk_node (tail l) None v) in
    m ← set_next m (tail l) (Some a);
    Ok (m, with_len (with_ends l (head l) (Some a)) (u64 (len l + 1))).

Definition ptr_eqb (p q : ptr) : bool := bool_decide (p = q).

Definition listInsertNode (m : mem) (l : list_) (old_node : ptr) (v : Z) (after : bool)
    : res (mem * list_) :=
  old ← load m old_node;
  let n := if after then mk_node old_node (next old) v else mk_node (prev old) old_node v in
  let '(m, a) := new_node m n in
  let l := if after
           then (if ptr_eqb (tail l) old_node then with_ends l (head l) (Some a) else l)
           else (if ptr_eqb (head l) old_node then with_ends l (Some a) (tail l) else l) in
  m ← (if ptr_eqb (prev n) None then Ok m else set_next m (prev n) (Some a));
  m ← (if ptr_eqb (next n) None then Ok m else set_prev m (next n) (Some a));
  Ok (m, with_len l (u64 (len l + 1))).

Definition listDelNode (m : mem) (l : list_) (node : ptr) : res (mem * list_) :=
  n ← load m node;
  '(m, l) ← (if ptr_eqb (prev n) None then Ok (m, with_ends l (next n) (tail l))
             else m ← set_next m (prev n) (next n); Ok (m, l));
  '(m, l) ← (if ptr_eqb (next n) None then Ok (m, with_ends l (head l) (prev n))
             else m ← set_prev m (next n) (prev n); Ok (m, l));
  let m := call_free l m (value n) in
  m ← zfree m node;
  Ok (m, with_len l (u64 (len l - 1))).

Inductive direction := AL_START_HEAD | AL_START_TAIL.
Record listIter := mk_iter { inext : ptr; idirection : direction }.

Definition listGetIterator (l : list_) (d : direction) : listIter :=
  mk_iter (match d with AL_START_HEAD => head l | AL_START_TAIL => tail l end) d.
Definition listRewind (l : list_) : listIter := mk_iter (head l) AL_START_HEAD.
Definition listRewindTail (l : list_) : listIter := mk_iter (tail l) AL_START_TAIL.

Definition listNext (m : mem) (iter : listIter) : res (ptr * listIter) :=
  let current := inext iter in
  match current with
  | None => Ok (current, iter)
  | Some _ =>
    n ← load m current;
    Ok (current, mk_iter (match idirection iter with
                          | AL_START_HEAD => next n | AL_START_TAIL => prev n end)
                         (idirection iter))
  end.

(** The copy loop of [listDup]; [None] is the NULL it returns when [dup] fails. *)
Fixpoint dup_loop (fuel : nat) (m : mem) (copy : list_) (iter : listIter)
    : res (mem * option list_) :=
  match fuel with
  | O => Fault OutOfFuel
  | S fuel =>
    '(node, iter) ← listNext m iter;
    match node with
    | None => Ok (m, Some copy)
    | Some _ =>
      n ← load m node;
      match (match ldup copy with Some dup => dup (value n) | None => Some (value n) end) with
      | None => m ← listRelease m copy; Ok (m, None)
      | Some v => '(m, copy) ← listAddNodeTail m copy v; dup_loop fuel m copy iter
      end
    end
  end.

Definition listDup (m : mem) (orig : list_) : res (mem * option list_) :=
  let copy := mk_list None None 0 (ldup orig) (lfree orig) (lmatch orig) in
  dup_loop (S (Z.to_nat (len orig))) m copy (listRewind orig).

Fixpoint search_loop (fuel : nat) (m : mem) (l : list_) (key : Z) (iter : listIter) : res ptr :=
  match fuel with
  | O => Fault OutOfFuel
  | S fuel =>
    '(node, iter) ← listNext m iter;
    match node with
    | None => Ok None
    | Some _ =>
      n ← load m node;
      if (match lmatch l with Some f => f (value n) key | None => key =? value n end)
      then Ok node else search_loop fuel m l key iter
    end
  end.

Definition listSearchKey (m : mem) (l : list_) (key : Z) : res ptr :=
  search_loop (S (Z.to_nat (len l))) m l key (listRewind l).

(** [while(index-- && n) n = n->next;] (or [n->prev]) *)
Fixpoint walk (fwd : bool) (index : nat) (m : mem) (n : ptr) : res ptr :=
  match index, n with
  | S index, Some _ => x ← load m n; walk fwd index m (if fwd then next x else prev x)
  | _, _ => Ok n
  end.

Definition listIndex (m : mem) (l : list_) (index : Z) : res ptr :=
  if index <? 0 then walk false (Z.to_nat (- index - 1)) m (tail l)
  else walk true (Z.to_nat index) m (head l).

Definition listRotate (m : mem) (l : list_) : res (mem * list_) :=
  let t := tail l in
  if len l <=? 1 then Ok (m, l) else
  n ← load m t;
  let l := with_ends l (head l) (prev n) in
  m ← set_next m (tail l) None;
  m ← set_prev m (head l) t;
  m ← set_prev m t None;
  m ← set_next m t (head l);
  Ok (m, with_ends l t (tail l)).

(** The two lists after moving every node of [o] to the end of [l]. *)
Definition listJoin (m : mem) (l o : list_) : res (mem * list_ * list_) :=
  m ← (match head o with Some _ => set_prev m (head o) (tail l) | None => Ok m end);
  '(m, l) ← (match tail l with
             | Some _ => m ← set_next m (tail l) (head o); Ok (m, l)
             | None => Ok (m, with_ends l (head o) (tail l))
             end);
  let l := with_len (with_ends l (head l) (tail o)) (u64 (len l + len o)) in
  Ok (m, l, with_len (with_ends o None None) 0).

(** ** Representation *)

Definition first (ns : list (loc * Z)) (q : ptr) : ptr :=
  match ns with [] => q | (a, _) :: _ => Some a end.
Fixpoint final (p : ptr) (ns : list (loc * Z)) : ptr :=
  match ns with [] => p | (a, _) :: ns => final (Some a) ns end.

(** The nodes [ns] are chained in [h] between the pointers [p] and [q]. *)
Fixpoint seg (h : gmap loc listNode) (p : ptr) (ns : list (loc * Z)) (q : ptr) : Prop :=
  match ns with
  | [] => True
  | (a, v) :: ns => h !! a = Some (mk_node p (first ns q) v) /\ seg h (Some a) ns q
  end.

(** [l] is the list of the nodes [ns]. *)
Record dlist (h : gmap loc listNode) (l : list_) (ns : list (loc * Z)) : Prop := {
  dl_nodup : NoDup ns.*1;
  dl_seg : seg h None ns None;
  dl_head : head l = first ns None;
  dl_tail : tail l = final None ns;
  dl_len : len l = zlen ns }.

Lemma first_app a b q : first (a ++ b) q = first a (first b q).
Proof. by destruct a as [|[]]. Qed.
Lemma final_app p a b : final p (a ++ b) = final (final p a) b.
Proof. revert p. induction a as [|[x v] a IH]; intros p; [done|apply IH]. Qed.

Lemma seg_app h p a b q : seg h p (a ++ b) q <-> seg h p a (first b q) /\ seg h (final p a) b q.
Proof.
  revert p. induction a as [|[x v] a IH]; intros p; cbn [seg app final]; [tauto|].
  rewrite IH, first_app. tauto.
Qed.

Lemma seg_frame h h' p ns q :
  (forall a, a ∈ ns.*1 -> h' !! a = h !! a) -> seg h p ns q -> seg h' p ns q.
Proof.
  revert p. induction ns as [|[a v] ns IH]; intros p Hf Hs; [done|]. destruct Hs as [H1 H2].
  split; [rewrite Hf; [done|by left]|]. apply IH; [|done]. intros b Hb. apply Hf. by right.
Qed.

Lemma seg_insert h p ns q a n : a ∉ ns.*1 -> seg h p ns q -> seg (<[a := n]> h) p ns q.
Proof. intros Ha. apply seg_frame. intros b Hb. apply lookup_insert_ne. by intros ->. Qed.

Lemma seg_delete h p ns q a : a ∉ ns.*1 -> seg h p ns q -> seg (delete a h) p ns q.
Proof. intros Ha. apply seg_frame. intros b Hb. apply lookup_delete_ne. by intros ->. Qed.

Lemma seg_dom h p ns q a : seg h p ns q -> a ∈ ns.*1 -> a ∈ dom h.
Proof.
  revert p. induction ns as [|[b v] ns IH]; intros p Hs Ha; [set_solver|]. destruct Hs as [H1 H2].
  apply elem_of_cons in Ha as [-> |Ha]; [by apply elem_of_dom_2 in H1|by eapply IH].
Qed.

Lemma seg_fresh h p ns q : seg h p ns q -> fresh (dom h) ∉ ns.*1.
Proof. intros Hs Ha. apply (seg_dom _ _ _ _ _ Hs) in Ha. by apply is_fresh in Ha. Qed.

Lemma load_Some m a n : nodes m !! a = Some n -> load m (Some a) = Ok n.
Proof. unfold load. by intros ->. Qed.

Lemma store_Some m a n n' : nodes m !! a = Some n ->
  store m (Some a) n' = Ok (mk_mem (<[a := n']> (nodes m)) (freed m)).
Proof. intros E. unfold store. by rewrite (load_Some _ _ _ E). Qed.

(** What an operation on one list may touch: the nodes of that list. *)
Definition frame (m m' : mem) (ns : list (loc * Z)) : Prop :=
  forall b, b ∉ ns.*1 -> b ∈ dom (nodes m) -> nodes m' !! b = nodes m !! b.

(** Relinking the last node of a chain to [q'], and its first node to [p']. *)
Lemma set_next_ok m p a q q' :
  a <> [] -> NoDup a.*1 -> seg (nodes m) p a q ->
  exists m', set_next m (final p a) q' = Ok m' /\ seg (nodes m') p a q' /\
    freed m' = freed m /\ (forall b, b ∉ a.*1 -> nodes m' !! b = nodes m !! b).
Proof.
  intros Ha Hn Hs. destruct a as [|[x v] a _] using rev_ind; [done|]. rewrite fmap_app in Hn.
  apply list.NoDup_app in Hn as (Hn1 & Hx & _). apply seg_app in Hs as [Hs [E _]].
  assert (x ∉ a.*1) as Hx' by (intros Hin; apply (Hx x Hin); by left).
  unfold set_next. rewrite final_app. cbn [final]. rewrite (load_Some _ _ _ E). cbn [mbind res_bind].
  rewrite (store_Some _ _ _ _ E). eexists. split; [done|]. cbn [nodes freed]. split; [|split; [done|]].
  - apply seg_app. split; [by apply seg_insert|]. cbn [seg first]. by rewrite lookup_insert_eq.
  - intros b Hb. apply lookup_insert_ne. intros ->. apply Hb. rewrite fmap_app. apply elem_of_app. right. by left.
Qed.

Lemma set_prev_ok m p a q p' :
  a <> [] -> NoDup a.*1 -> seg (nodes m) p a q ->
  exists m', set_prev m (first a q) p' = Ok m' /\ seg (nodes m') p' a q /\
    freed m' = freed m /\ (forall b, b ∉ a.*1 -> nodes m' !! b = nodes m !! b).
Proof.
  intros Ha Hn Hs. destruct a as [|[x v] a]; [done|]. destruct Hs as [E Hs].
  rewrite fmap_cons in *. apply list.NoDup_cons in Hn as [Hx Hn]. unfold set_prev. cbn [first].
  rewrite (load_Some _ _ _ E). cbn [mbind res_bind]. rewrite (store_Some _ _ _ _ E).
  eexists. split; [done|]. cbn [nodes freed]. split; [|split; [done|]].
  - split; [by rewrite lookup_insert_eq|by apply seg_insert].
  - intros b Hb. apply lookup_insert_ne. intros ->. apply Hb. by left.
Qed.

Lemma first_None ns q : ptr_eqb (first ns q) None = bool_decide (ns = []) && ptr_eqb q None.
Proof. by destruct ns as [|[]]. Qed.

Lemma final_None p ns : ptr_eqb (final p ns) None = bool_decide (ns = []) && ptr_eqb p None.
Proof. revert p. induction ns as [|[x v] ns IH]; intros p; [done|]. cbn [final]. rewrite IH. by destruct ns. Qed.

Lemma final_first p q ns : ns <> [] -> final p ns = final q ns.
Proof. by destruct ns as [|[]]. Qed.

Lemma dlist_empty_len h l ns : dlist h l ns -> (len l =? 0) = bool_decide (ns = []).
Proof.
  intros D. rewrite (dl_len _ _ _ D). destruct ns; [done|]. rewrite bool_decide_eq_false_2 by done.
  apply Z.eqb_neq. zl.
Qed.

Lemma nodup_split {A} (l k : list A) : NoDup (l ++ k) ->
  NoDup l /\ NoDup k /\ (forall x, x ∈ l -> x ∉ k) /\ (forall x, x ∈ k -> x ∉ l).
Proof. rewrite list.NoDup_app. intros (H1 & H2 & H3). split; [done|]. split; [done|]. split; [done|]. intros x Hx Hy. by apply (H2 x). Qed.

(** Joining two chains [a] and [b]: each end is relinked when there is one. *)
Lemma link_ok m a b q p0 :
  NoDup (a ++ b).*1 -> seg (nodes m) None a q -> seg (nodes m) p0 b None ->
  exists m1 m2,
    (if ptr_eqb (final None a) None then Ok m else set_next m (final None a) (first b None)) = Ok m1 /\
    (if ptr_eqb (first b None) None then Ok m1 else set_prev m1 (first b None) (final None a)) = Ok m2 /\
    seg (nodes m2) None (a ++ b) None /\ freed m2 = freed m /\
    (forall x, x ∉ (a ++ b).*1 -> nodes m2 !! x = nodes m !! x).
Proof.
  intros Hn Ha Hb. rewrite fmap_app in *. destruct (nodup_split _ _ Hn) as (Na & Nb & Hab & Hba).
  rewrite final_None, first_None, !andb_true_r.
  assert (exists m1, (if bool_decide (a = []) then Ok m else set_next m (final None a) (first b None)) = Ok m1 /\
    seg (nodes m1) None a (first b None) /\ seg (nodes m1) p0 b None /\ freed m1 = freed m /\
    (forall x, x ∉ a.*1 -> nodes m1 !! x = nodes m !! x)) as (m1 & -> & Ha1 & Hb1 & Hf1 & Hfr1).
  { destruct (bool_decide_reflect (a = [])) as [-> |Hne]; [by exists m|].
    destruct (set_next_ok m None a q (first b None) Hne Na Ha) as (m1 & E & S1 & F1 & Fr1).
    exists m1. split; [done|]. split; [done|]. split; [|done].
    apply (seg_frame (nodes m)); [|done]. intros x Hx. apply Fr1. by apply Hba. }
  exists m1. destruct (bool_decide_reflect (b = [])) as [-> |Hne].
  - exists m1. rewrite !app_nil_r. split; [done|]. split; [done|]. split; [done|]. split; [done|].
    intros x Hx. by apply Hfr1.
  - destruct (set_prev_ok m1 p0 b None (final None a) Hne Nb Hb1) as (m2 & E & S2 & F2 & Fr2).
    exists m2. split; [done|]. split; [done|]. split; [|split; [congruence|]].
    + apply seg_app. split; [|done]. apply (seg_frame (nodes m1)); [|done].
      intros x Hx. apply Fr2. by apply Hab.
    + intros x Hx. rewrite not_elem_of_app in Hx. rewrite Fr2 by tauto. apply Hfr1. tauto.
Qed.

Definition same_callbacks (l l' : list_) : Prop :=
  ldup l' = ldup l /\ lfree l' = lfree l /\ lmatch l' = lmatch l.

(** The effect of an operation that turns the nodes [ns] of a list into [ns']: no other
    node of the heap changes, and new nodes are taken from outside the heap. *)
Record effect (m m' : mem) (l l' : list_) (ns ns' : list (loc * Z)) : Prop := {
  ef_list : dlist (nodes m') l' ns';
  ef_cb : same_callbacks l l';
  ef_frame : frame m m' ns;
  ef_new : forall b, b ∈ ns'.*1 -> b ∈ ns.*1 \/ b ∉ dom (nodes m) }.

Definition no_wrap (ns : list (loc * Z)) : Prop := zlen ns + 1 < 2 ^ 64.

Lemma fresh_split h p ns q : seg h p ns q -> (fresh (dom h) ∉ ns.*1) /\ (fresh (dom h) ∉ dom h).
Proof. intros Hs. split; [by eapply seg_fresh|apply is_fresh]. Qed.

(** A list with one node, the case [list->len == 0] of both insertions. *)
Lemma add_first_ok m l v : dlist (nodes m) l [] ->
  exists m' l' a, (let '(m, a) := new_node m (mk_node None None v) in
     Ok (m, with_len (with_ends l (Some a) (Some a)) (u64 (len l + 1)))) = Ok (m', l') /\
    effect m m' l l' [] [(a, v)] /\ freed m' = freed m.
Proof.
  intros D. unfold new_node. eexists _, _, (fresh (dom (nodes m))). split; [done|]. split; [|done].
  constructor; [|done| |].
  - constructor; cbn; [apply NoDup_singleton|by rewrite lookup_insert_eq|done|done|].
    rewrite (dl_len _ _ _ D). done.
  - intros b _ Hb. cbn. apply lookup_insert_ne. intros <-. by apply is_fresh in Hb.
  - intros b Hb. right. apply list_elem_of_singleton in Hb as ->. apply is_fresh.
Qed.

Lemma listAddNodeHead_ok m l ns v : dlist (nodes m) l ns -> no_wrap ns ->
  exists m' l' a, listAddNodeHead m l v = Ok (m', l') /\
    effect m m' l l' ns ((a, v) :: ns) /\ freed m' = freed m.
Proof.
  intros D Hw. unfold listAddNodeHead. rewrite (dlist_empty_len _ _ _ D).
  destruct (bool_decide_reflect (ns = [])) as [-> |Hne]; [by apply add_first_ok|].
  destruct (fresh_split _ _ _ _ (dl_seg _ _ _ D)) as [Hf Hd]. unfold new_node.
  set (a := fresh (dom (nodes m))) in *. set (m1 := mk_mem _ _).
  assert (seg (nodes m1) None ns None) as Hs by (apply seg_insert; [done|apply D]).
  destruct (set_prev_ok m1 None ns None (Some a) Hne (dl_nodup _ _ _ D) Hs) as (m2 & E & S2 & F2 & Fr2).
  rewrite (dl_head _ _ _ D), E. cbn [mbind res_bind]. eexists _, _, a. split; [done|]. split; [|done].
  constructor; [|done| |].
  - constructor; cbn [head tail len with_len with_ends].
    + rewrite fmap_cons. apply list.NoDup_cons. split; [done|apply D].
    + split; [|done]. rewrite Fr2 by done. subst m1. cbn. by rewrite lookup_insert_eq, (dl_head _ _ _ D).
    + done.
    + rewrite (dl_tail _ _ _ D). cbn [final]. by apply final_first.
    + rewrite (dl_len _ _ _ D), zlen_cons. apply uwrap_id. unfold in_u, no_wrap in *. pose proof (zlen_nonneg ns). lia.
  - intros b Hb Hin. rewrite Fr2 by done. subst m1. cbn. apply lookup_insert_ne. by intros <-.
  - intros b Hb. rewrite fmap_cons in Hb. apply elem_of_cons in Hb as [-> |Hb]; [by right|by left].
Qed.

Lemma listAddNodeTail_ok m l ns v : dlist (nodes m) l ns -> no_wrap ns ->
  exists m' l' a, listAddNodeTail m l v = Ok (m', l') /\
    effect m m' l l' ns (ns ++ [(a, v)]) /\ freed m' = freed m.
Proof.
  intros D Hw. unfold listAddNodeTail. rewrite (dlist_empty_len _ _ _ D).
  destruct (bool_decide_reflect (ns = [])) as [-> |Hne]; [by apply add_first_ok|].
  destruct (fresh_split _ _ _ _ (dl_seg _ _ _ D)) as [Hf Hd]. unfold new_node.
  set (a := fresh (dom (nodes m))) in *. set (m1 := mk_mem _ _).
  assert (seg (nodes m1) None ns None) as Hs by (apply seg_insert; [done|apply D]).
  destruct (set_next_ok m1 None ns None (Some a) Hne (dl_nodup _ _ _ D) Hs) as (m2 & E & S2 & F2 & Fr2).
  rewrite (dl_tail _ _ _ D), E. cbn [mbind res_bind]. eexists _, _, a. split; [done|]. split; [|done].
  constructor; [|done| |].
  - constructor; cbn [head tail len with_len with_ends].
    + rewrite fmap_app. apply list.NoDup_app. split; [apply D|]. split; [|apply NoDup_singleton].
      intros x Hx ->%list_elem_of_singleton. done.
    + apply seg_app. split; [done|]. split; [|done]. rewrite Fr2 by done. subst m1. cbn.
      by rewrite lookup_insert_eq, (dl_tail _ _ _ D).
    + rewrite (dl_head _ _ _ D), first_app. by destruct ns as [|[]].
    + by rewrite final_app.
    + rewrite (dl_len _ _ _ D), zlen_app. change (zlen [(a, v)]) with 1.
      apply uwrap_id. unfold in_u, no_wrap in *. pose proof (zlen_nonneg ns). lia.
  - intros b Hb Hin. rewrite Fr2 by done. subst m1. cbn. apply lookup_insert_ne. by intros <-.
  - intros b Hb. rewrite fmap_app in Hb. apply elem_of_app in Hb as [Hb|Hb]; [by left|right].
    by apply list_elem_of_singleton in Hb as ->.
Qed.

Lemma dlist_node h l a x v b : dlist h l (a ++ (x, v) :: b) ->
  h !! x = Some (mk_node (final None a) (first b None) v) /\
  seg h None a (Some x) /\ seg h (Some x) b None /\ NoDup (a ++ b).*1 /\ x ∉ (a ++ b).*1.
Proof.
  intros D. pose proof (dl_seg _ _ _ D) as [Ha [E Hb]]%seg_app. pose proof (dl_nodup _ _ _ D) as N.
  rewrite fmap_app, fmap_cons in N. cbn [fst] in N.
  assert (NoDup (x :: (a ++ b).*1)) as N'.
  { rewrite fmap_app. eapply (NoDup_Permutation_proper _ _); [|exact N]. apply Permutation_middle. }
  apply list.NoDup_cons in N' as [? ?]. done.
Qed.

Lemma listDelNode_ok m l a x v b :
  dlist (nodes m) l (a ++ (x, v) :: b) -> zlen (a ++ (x, v) :: b) < 2 ^ 64 ->
  exists m' l', listDelNode m l (Some x) = Ok (m', l') /\
    effect m m' l l' (a ++ (x, v) :: b) (a ++ b) /\
    freed m' = freed m ++ (if lfree l then [v] else []).
Proof.
  intros D Hw. destruct (dlist_node _ _ _ _ _ _ D) as (E & Ha & Hb & Hn & Hx).
  destruct (link_ok m a b (Some x) (Some x) Hn Ha Hb) as (m1 & m2 & E1 & E2 & S2 & F2 & Fr2).
  unfold listDelNode. rewrite (load_Some _ _ _ E). cbn [mbind res_bind prev next value].
  set (l1 := if ptr_eqb (final None a) None then with_ends l (first b None) (tail l) else l).
  assert ((if ptr_eqb (final None a) None then Ok (m, with_ends l (first b None) (tail l))
    else m' ← set_next m (final None a) (first b None); Ok (m', l)) = Ok (m1, l1)) as ->.
  { subst l1. destruct (ptr_eqb (final None a) None); [by injection E1 as ->|by rewrite E1]. }
  cbn [mbind res_bind].
  set (l2 := if ptr_eqb (first b None) None then with_ends l1 (head l1) (final None a) else l1).
  assert ((if ptr_eqb (first b None) None then Ok (m1, with_ends l1 (head l1) (final None a))
    else m' ← set_prev m1 (first b None) (final None a); Ok (m', l1)) = Ok (m2, l2)) as ->.
  { subst l2. destruct (ptr_eqb (first b None) None); [by injection E2 as ->|by rewrite E2]. }
  cbn [mbind res_bind].
  assert (same_callbacks l l2 /\ len l2 = len l /\ head l2 = first (a ++ b) None /\ tail l2 = final None (a ++ b))
    as (Hcb & Hlen & Hhd & Htl).
  { pose proof (dl_head _ _ _ D) as Hh. pose proof (dl_tail _ _ _ D) as Ht.
    rewrite first_app in Hh. rewrite final_app in Ht. rewrite first_app, final_app.
    subst l2 l1. rewrite final_None, first_None, !andb_true_r.
    destruct a as [|[? ?] a], b as [|[? ?] b]; cbn in *; done. }
  assert (nodes m2 !! x = Some (mk_node (final None a) (first b None) v)) as E' by (by rewrite Fr2).
  assert (nodes (call_free l2 m2 v) = nodes m2) as Hcf by (unfold call_free; by destruct (lfree l2)).
  unfold zfree. rewrite (load_Some (call_free l2 m2 v) x (mk_node (final None a) (first b None) v)) by (by rewrite Hcf).
  cbn [mbind res_bind]. eexists _, _. split; [done|]. split; [|cbn; unfold call_free].
  2:{ destruct Hcb as (_ & -> & _). destruct (lfree l); cbn; rewrite F2; [done|by rewrite app_nil_r]. }
  rewrite Hcf. constructor; [|done| |].
  - constructor; cbn [head tail len with_len with_ends nodes]; [done|by apply seg_delete|done|done|].
    rewrite Hlen, (dl_len _ _ _ D). rewrite zlen_app, zlen_cons in *. rewrite zlen_app.
    replace (zlen a + (zlen b + 1) - 1) with (zlen a + zlen b) by lia. apply uwrap_id. unfold in_u. zl.
  - intros y Hy _. cbn [nodes]. rewrite fmap_app, fmap_cons in Hy. cbn [fst] in Hy.
    rewrite lookup_delete_ne by (intros ->; apply Hy, elem_of_app; right; by left).
    apply Fr2. rewrite fmap_app. set_solver.
  - intros y Hy. left. rewrite fmap_app, fmap_cons in *. set_solver.
Qed.

(** Inserting next to a node, the node kept at the same side of the new one. *)
Lemma insert_between m l a b v (n : listNode) :
  dlist (nodes m) l (a ++ b) -> no_wrap (a ++ b) -> a ++ b <> [] ->
  n = mk_node (final None a) (first b None) v ->
  let x := fresh (dom (nodes m)) in
  exists m', (m1 ← (if ptr_eqb (prev n) None then Ok (fst (new_node m n)) else set_next (fst (new_node m n)) (prev n) (Some x));
    (if ptr_eqb (next n) None then Ok m1 else set_prev m1 (next n) (Some x))) = Ok m' /\
    freed m' = freed m /\ frame m m' (a ++ b) /\
    forall l', same_callbacks l l' -> len l' = zlen (a ++ b) + 1 ->
      head l' = first (a ++ (x, v) :: b) None -> tail l' = final None (a ++ (x, v) :: b) ->
      effect m m' l l' (a ++ b) (a ++ (x, v) :: b).
Proof.
  intros D Hw Hne -> x. destruct (fresh_split _ _ _ _ (dl_seg _ _ _ D)) as [Hf Hd].
  pose proof (dl_nodup _ _ _ D) as N. rewrite fmap_app in N. destruct (nodup_split _ _ N) as (Na & Nb & Hab & Hba).
  cbn [prev next new_node fst]. fold x in Hf, Hd |- *. set (n := mk_node (final None a) (first b None) v).
  set (m0 := mk_mem (<[x := n]> (nodes m)) (freed m)).
  pose proof (dl_seg _ _ _ D) as Hs. apply (seg_insert _ _ _ _ x n Hf) in Hs.
  apply seg_app in Hs as [Sa Sb]. fold (nodes m0) in Sa, Sb.
  rewrite fmap_app, not_elem_of_app in Hf. destruct Hf as [Hxa Hxb].
  rewrite final_None, first_None, !andb_true_r.
  assert (exists m1, (if bool_decide (a = []) then Ok m0 else set_next m0 (final None a) (Some x)) = Ok m1 /\
    seg (nodes m1) None a (Some x) /\ freed m1 = freed m /\
    (forall y, y ∉ a.*1 -> nodes m1 !! y = nodes m0 !! y)) as (m1 & -> & S1 & F1 & Fr1).
  { destruct (bool_decide_reflect (a = [])) as [Ea|Ha]; [exists m0; subst a; done|].
    by destruct (set_next_ok m0 None a (first b None) (Some x) Ha Na Sa) as (m1 & ? & ? & ? & ?); exists m1. }
  cbn [mbind res_bind].
  assert (seg (nodes m1) (final None a) b None) as Sb1.
  { apply (seg_frame (nodes m0)); [|done]. intros y Hy. apply Fr1. by apply Hba. }
  assert (exists m2, (if bool_decide (b = []) then Ok m1 else set_prev m1 (first b None) (Some x)) = Ok m2 /\
    seg (nodes m2) (Some x) b None /\ freed m2 = freed m /\
    (forall y, y ∉ b.*1 -> nodes m2 !! y = nodes m1 !! y)) as (m2 & -> & S2 & F2 & Fr2).
  { destruct (bool_decide_reflect (b = [])) as [Eb|Hb]; [exists m1; subst b; done|].
    destruct (set_prev_ok m1 (final None a) b None (Some x) Hb Nb Sb1) as (m2 & ? & ? & F & ?); exists m2.
    split; [done|]. split; [done|]. split; [congruence|done]. }
  assert (frame m m2 (a ++ b)) as Hfr.
  { intros y Hy Hin. rewrite fmap_app, not_elem_of_app in Hy. rewrite Fr2, Fr1 by tauto. subst m0. cbn.
    apply lookup_insert_ne. by intros <-. }
  exists m2. split; [done|]. split; [done|]. split; [done|]. intros l' Hcb Hl Hh Ht. constructor; [|done|done|].
  - constructor; [| |done|done|rewrite Hl, !zlen_app, zlen_cons; lia].
    + rewrite fmap_app, fmap_cons. cbn [fst]. eapply (NoDup_Permutation_proper _ _); [symmetry; apply Permutation_middle|].
      apply list.NoDup_cons. split; [rewrite not_elem_of_app; done|done].
    + apply seg_app. split; [apply (seg_frame (nodes m1)); [|done]; intros y Hy; apply Fr2; by apply Hab|].
      split; [|done]. rewrite Fr2, Fr1 by done. subst m0. cbn. by rewrite lookup_insert_eq.
  - intros y Hy. rewrite !fmap_app, fmap_cons in *. cbn [fst] in Hy.
    rewrite elem_of_app, elem_of_cons in Hy. rewrite elem_of_app. destruct Hy as [?|[-> |?]]; tauto.
Qed.

Lemma final_snoc p a x v : final p (a ++ [(x, v)]) = Some x.
Proof. by rewrite final_app. Qed.

Lemma final_in p ns x : final p ns = Some x -> p = Some x \/ x ∈ ns.*1.
Proof.
  revert p. induction ns as [|[y v] ns IH]; intros p E; [by left|]. right. destruct (IH _ E) as [[= ->]|?]; [by left|by right].
Qed.

Lemma tail_is_node h l a x v b : dlist h l (a ++ (x, v) :: b) ->
  ptr_eqb (tail l) (Some x) = bool_decide (b = []).
Proof.
  intros D. destruct (dlist_node _ _ _ _ _ _ D) as (_ & _ & _ & _ & Hx). rewrite (dl_tail _ _ _ D), final_app.
  cbn [final]. unfold ptr_eqb. destruct b as [|[y w] b]; [by rewrite !bool_decide_eq_true_2|].
  rewrite !bool_decide_eq_false_2; [done|done|]. cbn [final]. intros E.
  apply Hx. rewrite fmap_app, elem_of_app. right. cbn. apply final_in in E as [[= ->]|?]; [by left|by right].
Qed.

Lemma head_is_node h l a x v b : dlist h l (a ++ (x, v) :: b) ->
  ptr_eqb (head l) (Some x) = bool_decide (a = []).
Proof.
  intros D. destruct (dlist_node _ _ _ _ _ _ D) as (_ & _ & _ & _ & Hx). rewrite (dl_head _ _ _ D).
  unfold ptr_eqb. destruct a as [|[y w] a]; [by rewrite !bool_decide_eq_true_2|].
  rewrite !bool_decide_eq_false_2; [done|done|]. cbn. intros [= ->]. apply Hx. by left.
Qed.

Lemma listInsertNode_ok m l a x v b w after :
  dlist (nodes m) l (a ++ (x, v) :: b) -> no_wrap (a ++ (x, v) :: b) ->
  exists m' l' y, listInsertNode m l (Some x) w after = Ok (m', l') /\ freed m' = freed m /\
    effect m m' l l' (a ++ (x, v) :: b)
      (if after then a ++ (x, v) :: (y, w) :: b else a ++ (y, w) :: (x, v) :: b).
Proof.
  intros D Hw. destruct (dlist_node _ _ _ _ _ _ D) as (E & _). unfold listInsertNode.
  rewrite (load_Some _ _ _ E). cbn [mbind res_bind prev next].
  pose proof (zlen_nonneg (a ++ (x, v) :: b)) as Hl0. unfold no_wrap in Hw.
  pose proof (dl_len _ _ _ D) as Hlen. pose proof (dl_head _ _ _ D) as Hh. pose proof (dl_tail _ _ _ D) as Ht.
  set (y := fresh (dom (nodes m))). destruct after.
  - pose proof (insert_between m l (a ++ [(x, v)]) b w (mk_node (Some x) (first b None) w)) as I.
    rewrite <- !app_assoc, final_snoc in I. cbn [app] in I.
    destruct (I D Hw ltac:(by destruct a) eq_refl) as (m' & Em & F & _ & K). clear I.
    change (new_node m ?n) with (fst (new_node m n), y). cbn [fst]. fold y in Em, K.
    apply res_bind_inv in Em as (m1 & E1 & E2). cbn [prev next fst] in *. rewrite E1. cbn [mbind res_bind].
    rewrite E2. cbn [mbind res_bind]. eexists _, _, y. split; [done|]. split; [done|].
    rewrite (tail_is_node _ _ _ _ _ _ D). rewrite <- app_assoc in K.
    apply K; destruct (bool_decide_reflect (b = [])) as [-> |Hb]; cbn [with_len with_ends len head tail]; try done.
    all: try (rewrite Hlen; apply uwrap_id; unfold in_u; lia).
    + by rewrite Hh, !first_app.
    + by rewrite Hh, !first_app.
    + by rewrite !final_app.
    + rewrite Ht, !final_app. cbn [final]. by apply final_first.
  - pose proof (insert_between m l a ((x, v) :: b) w (mk_node (final None a) (Some x) w) D Hw ltac:(by destruct a) eq_refl)
      as (m' & Em & F & _ & K).
    change (new_node m ?n) with (fst (new_node m n), y). cbn [fst]. fold y in Em, K.
    apply res_bind_inv in Em as (m1 & E1 & E2). cbn [prev next fst] in *. rewrite E1. cbn [mbind res_bind].
    rewrite E2. cbn [mbind res_bind]. eexists _, _, y. split; [done|]. split; [done|].
    rewrite (head_is_node _ _ _ _ _ _ D).
    apply K; destruct (bool_decide_reflect (a = [])) as [-> |Ha]; cbn [with_len with_ends len head tail]; try done.
    all: try (rewrite Hlen; apply uwrap_id; unfold in_u; lia).
    + rewrite Hh, !first_app. by destruct a as [|[]].
    + by rewrite Ht, !final_app.
Qed.

Lemma listRotate_ok m l a x v :
  dlist (nodes m) l (a ++ [(x, v)]) -> a <> [] ->
  exists m' l', listRotate m l = Ok (m', l') /\ freed m' = freed m /\
    effect m m' l l' (a ++ [(x, v)]) ((x, v) :: a).
Proof.
  intros D Ha. destruct (dlist_node _ _ _ _ _ _ D) as (E & Sa & _ & Hn & Hx). rewrite app_nil_r in *.
  unfold listRotate. pose proof (dl_len _ _ _ D) as Hlen. pose proof (dl_head _ _ _ D) as Hh. pose proof (dl_tail _ _ _ D) as Ht.
  rewrite final_snoc in Ht. rewrite first_app in Hh. rewrite zlen_app in Hlen. change (zlen [(x, v)]) with 1 in Hlen.
  assert (0 < zlen a) by (destruct a; [done|zl]).
  rewrite (proj2 (Z.leb_gt _ _)) by lia. rewrite Ht, (load_Some _ _ _ E). cbn [mbind res_bind prev with_ends head tail].
  destruct (set_next_ok m None a (Some x) None Ha Hn Sa) as (m1 & -> & S1 & F1 & Fr1). cbn [mbind res_bind].
  replace (head l) with (first a None) by (rewrite Hh; by destruct a as [|[]]).
  destruct (set_prev_ok m1 None a None (Some x) Ha Hn S1) as (m2 & -> & S2 & F2 & Fr2). cbn [mbind res_bind].
  assert (nodes m2 !! x = Some (mk_node (final None a) None v)) as E2 by (by rewrite Fr2, Fr1).
  unfold set_prev, set_next. rewrite (load_Some _ _ _ E2). cbn [mbind res_bind]. rewrite (store_Some _ _ _ _ E2).
  cbn [mbind res_bind]. set (m3 := mk_mem _ _).
  assert (nodes m3 !! x = Some (mk_node None None v)) as E3 by apply lookup_insert_eq.
  rewrite (load_Some _ _ _ E3). cbn [mbind res_bind]. rewrite (store_Some _ _ _ _ E3). cbn [mbind res_bind].
  eexists _, _. split; [done|]. split; [cbn; congruence|]. constructor; [|done| |].
  - constructor; cbn [head tail len with_ends].
    + rewrite fmap_cons. apply list.NoDup_cons. done.
    + cbn [nodes]. split; [by rewrite lookup_insert_eq|]. apply seg_insert; [done|]. by apply seg_insert.
    + done.
    + cbn [final]. by apply final_first.
    + rewrite zlen_cons. lia.
  - intros y Hy _. rewrite fmap_app, not_elem_of_app in Hy. destruct Hy as [Hy1 Hy2].
    assert (x <> y) by (intros ->; apply Hy2; by left). cbn [nodes m3].
    rewrite !lookup_insert_ne by done. by rewrite Fr2, Fr1.
  - intros y Hy. left. rewrite fmap_app. rewrite fmap_cons in Hy. cbn [fst] in Hy.
    rewrite elem_of_app. apply elem_of_cons in Hy as [-> |?]; [right; by left|by left].
Qed.

Lemma empty_loop_ok l ns : forall m p, NoDup ns.*1 -> seg (nodes m) p ns None ->
  exists m', empty_loop (length ns) l m (first ns None) = Ok m' /\
    freed m' = freed m ++ (if lfree l then ns.*2 else []) /\
    (forall b, nodes m' !! b = if bool_decide (b ∈ ns.*1) then None else nodes m !! b).
Proof.
  induction ns as [|[a v] ns IH]; intros m p Hn Hs.
  - exists m. split; [done|]. split; [by destruct (lfree l); rewrite app_nil_r|]. intros b.
    rewrite bool_decide_eq_false_2; [done|apply not_elem_of_nil].
  - destruct Hs as [E Hs]. rewrite fmap_cons in Hn. apply list.NoDup_cons in Hn as [Ha Hn].
    cbn [length empty_loop first]. rewrite (load_Some _ _ _ E). cbn [mbind res_bind value next].
    assert (nodes (call_free l m v) = nodes m) as Hcf by (unfold call_free; by destruct (lfree l)).
    unfold zfree. rewrite (load_Some (call_free l m v) a (mk_node p (first ns None) v)) by (by rewrite Hcf).
    cbn [mbind res_bind]. rewrite Hcf.
    destruct (IH (mk_mem (delete a (nodes m)) (freed (call_free l m v))) (Some a) Hn) as (m' & -> & Hf & Hl).
    { by apply seg_delete. }
    exists m'. split; [done|]. split.
    + rewrite Hf. cbn [freed]. unfold call_free. destruct (lfree l); cbn; [by rewrite <- app_assoc|done].
    + intros b. rewrite Hl. cbn [nodes]. rewrite fmap_cons. cbn [fst].
      destruct (decide (b ∈ ns.*1)) as [Hb|Hb].
      * rewrite !bool_decide_eq_true_2; [done|by right|done].
      * rewrite (bool_decide_eq_false_2 (b ∈ ns.*1)) by done. destruct (decide (a = b)) as [-> |Hab].
        -- rewrite bool_decide_eq_true_2 by (by left). apply lookup_delete_eq.
        -- rewrite bool_decide_eq_false_2, lookup_delete_ne; [done|done|].
           intros [->|?]%elem_of_cons; done.
Qed.

Lemma listEmpty_ok m l ns : dlist (nodes m) l ns ->
  exists m' l', listEmpty m l = Ok (m', l') /\ effect m m' l l' ns [] /\
    freed m' = freed m ++ (if lfree l then ns.*2 else []) /\
    (forall b, b ∈ ns.*1 -> nodes m' !! b = None).
Proof.
  intros D. unfold listEmpty. rewrite (dl_len _ _ _ D), (dl_head _ _ _ D). unfold zlen. rewrite Nat2Z.id.
  destruct (empty_loop_ok l ns m None (dl_nodup _ _ _ D) (dl_seg _ _ _ D)) as (m' & -> & Hf & Hl).
  cbn [mbind res_bind]. eexists m', _. split; [done|]. split; [|split; [done|]].
  - constructor; [|done| |].
    + constructor; try done. constructor.
    + intros b Hb _. rewrite Hl. by rewrite bool_decide_eq_false_2.
    + intros b Hb. by apply not_elem_of_nil in Hb.
  - intros b Hb. rewrite Hl. by rewrite bool_decide_eq_true_2.
Qed.

(** ** Traversal *)

Lemma walk_fwd m p ns i : seg (nodes m) p ns None ->
  walk true i m (first ns None) = Ok (fst <$> ns !! i).
Proof.
  revert p ns. induction i as [|i IH]; intros p [|[a v] ns] Hs; [done|done|done|].
  destruct Hs as [E Hs]. cbn [walk first]. rewrite (load_Some _ _ _ E). cbn [mbind res_bind next].
  rewrite (IH (Some a)) by done. done.
Qed.

Lemma walk_bwd m ns q i : seg (nodes m) None ns q ->
  walk false i m (final None ns) = Ok (fst <$> reverse ns !! i).
Proof.
  revert q ns. induction i as [|i IH]; intros q ns Hs;
    destruct ns as [|[a v] ns _] using rev_ind; try done; rewrite reverse_snoc, final_snoc; [done|].
  apply seg_app in Hs as [Hs [E _]]. cbn [walk]. rewrite (load_Some _ _ _ E). cbn [mbind res_bind prev].
  by rewrite (IH _ ns Hs).
Qed.

(** The position an index stands for, negative ones counted from the tail. *)
Definition position (i n : Z) : Z := if i <? 0 then n + i else i.

Definition nth_node (ns : list (loc * Z)) (i : Z) : option (loc * Z) :=
  if 0 <=? position i (zlen ns) then ns !! Z.to_nat (position i (zlen ns)) else None.

Lemma listIndex_ok m l ns i : dlist (nodes m) l ns ->
  listIndex m l i = Ok (fst <$> nth_node ns i).
Proof.
  intros D. unfold listIndex, nth_node, position. destruct (Z.ltb_spec i 0).
  - rewrite (dl_tail _ _ _ D), (walk_bwd _ _ _ _ (dl_seg _ _ _ D)). f_equal. f_equal.
    destruct (Z.leb_spec 0 (zlen ns + i)); unfold zlen in *.
    + rewrite reverse_lookup by lia. f_equal. lia.
    + apply lookup_ge_None. rewrite length_reverse. lia.
  - rewrite (proj2 (Z.leb_le 0 i)) by done. by rewrite (dl_head _ _ _ D), (walk_fwd _ _ _ _ (dl_seg _ _ _ D)).
Qed.

Lemma listNext_node m a n d : nodes m !! a = Some n ->
  listNext m (mk_iter (Some a) d) = Ok (Some a, mk_iter (match d with
    | AL_START_HEAD => next n | AL_START_TAIL => prev n end) d).
Proof. intros E. unfold listNext. cbn [inext idirection]. by rewrite (load_Some _ _ _ E). Qed.

Definition matches (l : list_) (key v : Z) : bool :=
  match lmatch l with Some f => f v key | None => key =? v end.

Lemma listSearchKey_loop_ok m l key ns : forall p fuel, (length ns < fuel)%nat -> seg (nodes m) p ns None ->
  search_loop fuel m l key (mk_iter (first ns None) AL_START_HEAD) =
    Ok (fst <$> List.find (fun n => matches l key (snd n)) ns).
Proof.
  induction ns as [|[a v] ns IH]; intros p [|fuel] Hf Hs; try (simpl in Hf; lia); [done|].
  destruct Hs as [E Hs]. cbn [search_loop first]. rewrite (listNext_node _ _ _ _ E). cbn [mbind res_bind next].
  rewrite (load_Some _ _ _ E). cbn [mbind res_bind value List.find snd]. unfold matches at 1.
  destruct (match lmatch l with Some f => f v key | None => key =? v end); [done|].
  apply (IH (Some a)); [simpl in Hf; lia|done].
Qed.

(** ** Copying *)

Definition dup_value (l : list_) (v : Z) : option Z :=
  match ldup l with Some dup => dup v | None => Some v end.

Lemma frame_trans m m1 m' ns a v : frame m m1 ns -> a ∉ dom (nodes m) ->
  frame m1 m' (ns ++ [(a, v)]) -> frame m m' ns.
Proof.
  intros F1 Ha F2 b Hb Hd. rewrite F2, F1; try done.
  - rewrite fmap_app, not_elem_of_app. split; [done|]. intros ->%list_elem_of_singleton. done.
  - apply elem_of_dom. rewrite F1 by done. by apply elem_of_dom.
Qed.

Lemma dup_loop_ok fuel m copy cs p rest :
  (length rest < fuel)%nat -> seg (nodes m) p rest None -> (forall b, b ∈ rest.*1 -> b ∉ cs.*1) ->
  dlist (nodes m) copy cs -> no_wrap (cs ++ rest) ->
  match mapM (dup_value copy) rest.*2 with
  | Some vs => exists m' copy' cs',
      dup_loop fuel m copy (mk_iter (first rest None) AL_START_HEAD) = Ok (m', Some copy') /\
      dlist (nodes m') copy' (cs ++ cs') /\ cs'.*2 = vs /\ frame m m' cs /\
      freed m' = freed m /\ (forall b, b ∈ cs'.*1 -> b ∉ dom (nodes m)) /\ same_callbacks copy copy'
  | None => exists m', dup_loop fuel m copy (mk_iter (first rest None) AL_START_HEAD) = Ok (m', None) /\
      frame m m' cs
  end.
Proof.
  revert fuel m copy cs p. induction rest as [|[x v] rest IH]; intros [|fuel] m copy cs p Hf Hs Hd D Hw; try (simpl in Hf; lia).
  { exists m, copy, []. rewrite app_nil_r. split; [done|]. split; [done|]. split; [done|]. split; [done|].
    split; [done|]. split; [|done]. intros b Hb. by apply not_elem_of_nil in Hb. }
  destruct Hs as [E Hs]. cbn [dup_loop first]. rewrite (listNext_node _ _ _ _ E). cbn [mbind res_bind next].
  rewrite (load_Some _ _ _ E). cbn [mbind res_bind value].
  change ((x, v) :: rest).*2 with (v :: rest.*2). cbn [mapM]. fold (dup_value copy v).
  unfold no_wrap in *. rewrite zlen_app, zlen_cons in Hw. pose proof (zlen_nonneg rest).
  destruct (dup_value copy v) as [w|] eqn:Ew; cbn [mbind option_bind].
  2:{ unfold listRelease. destruct (listEmpty_ok m copy cs D) as (m' & l' & -> & Ef & _). cbn [mbind res_bind].
      exists m'. split; [done|]. apply Ef. }
  destruct (listAddNodeTail_ok m copy cs w D) as (m1 & copy1 & a & -> & Ef & Hfr); [unfold no_wrap; lia|].
  cbn [mbind res_bind]. destruct Ef as [D1 (Cd & Cf & Cm) F1 N1].
  assert (a ∉ dom (nodes m)) as Hfa.
  { destruct (N1 a) as [Hin|?]; [rewrite fmap_app, elem_of_app; right; by left| |done].
    pose proof (dl_nodup _ _ _ D1) as N. rewrite fmap_app in N. apply nodup_split in N as (_ & _ & _ & N).
    exfalso. apply (N a); [by left|done]. }
  assert (dup_value copy1 = dup_value copy) as Edv by (unfold dup_value; by rewrite Cd).
  specialize (IH fuel m1 copy1 (cs ++ [(a, w)]) (Some x)). rewrite Edv in IH.
  assert (forall b, b ∈ rest.*1 -> b ∈ dom (nodes m)) as Hdom by (intros b; by apply (seg_dom _ _ _ _ _ Hs)).
  assert (seg (nodes m1) (Some x) rest None) as Hs1.
  { apply (seg_frame (nodes m)); [|done]. intros b Hb. apply F1; [apply Hd; by right|by apply Hdom]. }
  assert (forall b, b ∈ rest.*1 -> b ∉ (cs ++ [(a, w)]).*1) as Hd1.
  { intros b Hb. rewrite fmap_app, not_elem_of_app. split; [apply Hd; by right|].
    intros ->%list_elem_of_singleton. by apply Hfa, Hdom. }
  specialize (IH ltac:(simpl in Hf; lia) Hs1 Hd1 D1). rewrite !zlen_app in IH. change (zlen [(a, w)]) with 1 in IH.
  specialize (IH ltac:(lia)). destruct (mapM (dup_value copy) rest.*2) as [vs|]; cbn.
  - destruct IH as (m' & copy' & cs' & -> & D' & Hv & F' & Hfr' & N' & C'). exists m', copy', ((a, w) :: cs').
    rewrite <- app_assoc in D'. split; [done|]. split; [done|]. split; [cbn; by rewrite Hv|].
    split; [by eapply frame_trans|]. split; [congruence|]. split.
    + intros b [-> |Hb]%elem_of_cons; [done|]. intros Hin. apply (N' b Hb). apply elem_of_dom.
      destruct (decide (b ∈ cs.*1)) as [Hc|Hc].
      * apply elem_of_dom. apply (seg_dom _ _ _ _ b (dl_seg _ _ _ D1)). rewrite fmap_app, elem_of_app. by left.
      * rewrite F1 by done. by apply elem_of_dom.
    + destruct C' as (? & ? & ?). unfold same_callbacks. split; [congruence|]. split; congruence.
  - destruct IH as (m' & -> & F'). exists m'. split; [done|]. by eapply frame_trans.
Qed.

Lemma listJoin_ok m l o a b :
  dlist (nodes m) l a -> dlist (nodes m) o b -> b <> [] -> NoDup (a ++ b).*1 -> zlen (a ++ b) < 2 ^ 64 ->
  exists m' l' o', listJoin m l o = Ok (m', l', o') /\ dlist (nodes m') l' (a ++ b) /\
    dlist (nodes m') o' [] /\ same_callbacks l l' /\ same_callbacks o o' /\ freed m' = freed m /\
    frame m m' (a ++ b).
Proof.
  intros Dl Do Hb Hn Hw. pose proof Hn as Hn'. rewrite fmap_app in Hn'.
  destruct (nodup_split _ _ Hn') as (Na & Nb & Hab & Hba). unfold listJoin.
  pose proof (dl_head _ _ _ Do) as Hho. pose proof (dl_tail _ _ _ Dl) as Htl.
  destruct (set_prev_ok m None b None (final None a) Hb Nb (dl_seg _ _ _ Do)) as (m1 & E1 & S1 & F1 & Fr1).
  rewrite Hho, Htl. destruct (first b None) as [h|] eqn:Eh; [|by destruct b as [|[]]]. rewrite E1. cbn [mbind res_bind].
  assert (seg (nodes m1) None a None) as Sa by (apply (seg_frame (nodes m)); [intros x Hx; apply Fr1; by apply Hab|apply Dl]).
  assert (exists m2 l2, (match final None a with
      | Some _ => m' ← set_next m1 (final None a) (Some h); Ok (m', l)
      | None => Ok (m1, with_ends l (Some h) (final None a)) end) = Ok (m2, l2) /\
    seg (nodes m2) None a (Some h) /\ freed m2 = freed m /\ (forall x, x ∉ a.*1 -> nodes m2 !! x = nodes m1 !! x) /\
    head l2 = first a (Some h) /\ len l2 = len l /\ same_callbacks l l2) as (m2 & l2 & -> & S2 & F2 & Fr2 & Hh2 & Hl2 & C2).
  { destruct (decide (a = [])) as [-> |Ha]; [by eexists _, _|].
    destruct (set_next_ok m1 None a None (Some h) Ha Na Sa) as (m2 & E2 & S2 & F2 & Fr2). rewrite E2.
    destruct (final None a) eqn:Ef; [|pose proof (final_None None a) as Hfn; rewrite Ef in Hfn;
      by rewrite bool_decide_eq_false_2 in Hfn]. cbn [mbind res_bind].
    exists m2, l. split; [done|]. split; [done|]. split; [congruence|]. split; [done|].
    split; [rewrite (dl_head _ _ _ Dl); by destruct a as [|[]]|done]. }
  cbn [mbind res_bind]. eexists m2, _, _. split; [done|]. split; [|split; [|split; [done|split; [done|split; [done|]]]]].
  - constructor; cbn [head tail len with_len with_ends].
    + done.
    + apply seg_app. rewrite Eh. split; [done|]. apply (seg_frame (nodes m1)); [|done]. intros x Hx. apply Fr2. by apply Hba.
    + by rewrite Hh2, first_app, Eh.
    + rewrite (dl_tail _ _ _ Do), final_app. by apply final_first.
    + rewrite Hl2, (dl_len _ _ _ Dl), (dl_len _ _ _ Do), zlen_app in *. apply uwrap_id. unfold in_u. zl.
  - constructor; try done. constructor.
  - intros x Hx _. rewrite fmap_app, not_elem_of_app in Hx. rewrite Fr2, Fr1 by tauto. done.
Qed.

(** ** Histories *)

(** One call by a client that finds nodes by position. *)
Inductive op := AddHead (v : Z) | AddTail (v : Z) | InsertAt (i v : Z) (after : bool)
  | DelAt (i : Z) | Rotate | Empty.

Definition apply_op (o : op) (m : mem) (l : list_) : res (mem * list_) :=
  match o with
  | AddHead v => listAddNodeHead m l v
  | AddTail v => listAddNodeTail m l v
  | InsertAt i v after =>
      p ← listIndex m l i; if ptr_eqb p None then Ok (m, l) else listInsertNode m l p v after
  | DelAt i => p ← listIndex m l i; if ptr_eqb p None then Ok (m, l) else listDelNode m l p
  | Rotate => listRotate m l
  | Empty => listEmpty m l
  end.

(** The call on a plain list: the new contents and the values handed to [free]. *)
Definition spec_op (o : op) (c : list Z) : list Z * list Z :=
  let at_ i := if (0 <=? position i (zlen c)) && (position i (zlen c) <? zlen c)
               then Some (Z.to_nat (position i (zlen c))) else None in
  match o with
  | AddHead v => (v :: c, [])
  | AddTail v => (c ++ [v], [])
  | InsertAt i v after =>
      match at_ i with
      | Some k => let k := if after then S k else k in (take k c ++ v :: drop k c, [])
      | None => (c, [])
      end
  | DelAt i =>
      match at_ i with
      | Some k => (take k c ++ drop (S k) c, take 1 (drop k c))
      | None => (c, [])
      end
  | Rotate => (match list.last c with Some x => x :: removelast c | None => c end, [])
  | Empty => ([], c)
  end.

Fixpoint run (h : list op) (m : mem) (l : list_) : res (mem * list_) :=
  match h with [] => Ok (m, l) | o :: h => '(m, l) ← apply_op o m l; run h m l end.
Fixpoint spec (h : list op) (c : list Z) : list Z * list Z :=
  match h with
  | [] => (c, [])
  | o :: h => let '(c, f) := spec_op o c in let '(c, f') := spec h c in (c, f ++ f')
  end.

Lemma nth_node_split ns i :
  match nth_node ns i with
  | Some (x, v) => exists a b k, ns = a ++ (x, v) :: b /\ k = length a /\
      (if (0 <=? position i (zlen ns)) && (position i (zlen ns) <? zlen ns)
       then Some (Z.to_nat (position i (zlen ns))) else None) = Some k
  | None => (if (0 <=? position i (zlen ns)) && (position i (zlen ns) <? zlen ns)
       then Some (Z.to_nat (position i (zlen ns))) else None) = None
  end.
Proof.
  unfold nth_node. set (k := position i (zlen ns)). destruct (Z.leb_spec 0 k); [|done].
  destruct (ns !! Z.to_nat k) as [[x v]|] eqn:E.
  - pose proof (lookup_lt_Some _ _ _ E). apply list_elem_of_split_length in E as (a & b & -> & Hk).
    exists a, b, (length a). split; [done|]. split; [done|]. rewrite (proj2 (Z.ltb_lt _ _)) by (unfold zlen; lia). cbn. by rewrite Hk.
  - apply lookup_ge_None in E. by rewrite (proj2 (Z.ltb_ge _ _)) by (unfold zlen; lia).
Qed.

(** The length of the list grows by at most one. *)
Lemma spec_op_len o c : zlen (spec_op o c).1 <= zlen c + 1.
Proof.
  destruct o; cbn [spec_op fst]; try zl.
  - case_match; cbn [fst]; [|zl]. unfold zlen. rewrite length_app. cbn. rewrite length_take, length_drop. case_match; lia.
  - case_match; cbn [fst]; [|zl]. unfold zlen. rewrite length_app, length_take, length_drop. lia.
  - destruct c as [|x c _] using rev_ind; [cbn; lia|]. rewrite last_snoc, removelast_last. zl.
Qed.

Lemma adlist_apply_op_ok o m l ns : dlist (nodes m) l ns -> zlen ns + 1 < 2 ^ 64 ->
  exists m' l' ns', apply_op o m l = Ok (m', l') /\ effect m m' l l' ns ns' /\
    ns'.*2 = (spec_op o ns.*2).1 /\ freed m' = freed m ++ (if lfree l then (spec_op o ns.*2).2 else []).
Proof.
  intros D Hw.
  assert (forall m' : mem, freed m' = freed m -> freed m' = freed m ++ (if lfree l then [] else [])) as Hno
    by (intros m' ->; destruct (lfree l); by rewrite app_nil_r).
  assert (effect m m l l ns ns) as Hid by (constructor; [done|done|done|by left]).
  destruct o as [v|v|i v after|i| |]; cbn [apply_op spec_op fst snd].
  - destruct (listAddNodeHead_ok m l ns v D Hw) as (m' & l' & a & ? & ? & ?). exists m', l', ((a, v) :: ns). auto.
  - destruct (listAddNodeTail_ok m l ns v D Hw) as (m' & l' & a & ? & ? & ?). exists m', l', (ns ++ [(a, v)]).
    rewrite fmap_app. auto.
  - rewrite (listIndex_ok m l ns i D). cbn [mbind res_bind]. rewrite zlen_fmap.
    pose proof (nth_node_split ns i) as Hn. destruct (nth_node ns i) as [[x w]|].
    + destruct Hn as (a & b & k & -> & -> & ->). cbn [fmap option_fmap option_map fst].
      destruct (listInsertNode_ok m l a x w b v after D Hw) as (m' & l' & y & ? & ? & ?). eexists m', l', _.
      split; [done|]. split; [done|]. split; [|auto]. rewrite fmap_app. cbn [fmap list_fmap snd].
      rewrite <- (length_fmap snd a). destruct after; cbn [fst].
      * rewrite take_S_app, drop_S_app, fmap_app. cbn. by rewrite <- app_assoc.
      * rewrite take_app_length, drop_app_length, fmap_app. done.
    + rewrite Hn. exists m, l, ns. auto.
  - rewrite (listIndex_ok m l ns i D). cbn [mbind res_bind]. rewrite zlen_fmap.
    pose proof (nth_node_split ns i) as Hn. destruct (nth_node ns i) as [[x w]|].
    + destruct Hn as (a & b & k & -> & -> & ->). cbn [fmap option_fmap option_map fst].
      destruct (listDelNode_ok m l a x w b D ltac:(lia)) as (m' & l' & ? & ? & Hf). exists m', l', (a ++ b).
      split; [done|]. split; [done|]. rewrite !fmap_app. cbn [fst snd fmap list_fmap].
      rewrite <- (length_fmap snd a), take_app_length, drop_S_app, drop_app_length. done.
    + rewrite Hn. exists m, l, ns. auto.
  - destruct ns as [|[x v] a _] using rev_ind.
    + exists m, l, []. split; [|by auto]. unfold listRotate. by rewrite (dl_len _ _ _ D).
    + rewrite fmap_app. cbn [fmap list_fmap snd]. rewrite last_snoc, removelast_last. destruct (decide (a = [])) as [-> |Ha].
      * exists m, l, [(x, v)]. split; [|by auto]. unfold listRotate. by rewrite (dl_len _ _ _ D).
      * destruct (listRotate_ok m l a x v D Ha) as (m' & l' & ? & ? & ?). exists m', l', ((x, v) :: a). auto.
  - destruct (listEmpty_ok m l ns D) as (m' & l' & ? & ? & ? & _). by exists m', l', [].
Qed.

Lemma adlist_run_ok h : forall m l ns, dlist (nodes m) l ns -> zlen ns + zlen h < 2 ^ 63 ->
  exists m' l' ns', run h m l = Ok (m', l') /\ effect m m' l l' ns ns' /\
    ns'.*2 = (spec h ns.*2).1 /\ freed m' = freed m ++ (if lfree l then (spec h ns.*2).2 else []).
Proof.
  induction h as [|o h IH]; intros m l ns D Hw.
  { exists m, l, ns. split; [done|]. split; [constructor; [done|done|done|by left]|].
    split; [done|]. destruct (lfree l); by rewrite app_nil_r. }
  cbn [run spec]. rewrite zlen_cons in Hw. pose proof (zlen_nonneg h).
  destruct (adlist_apply_op_ok o m l ns D ltac:(lia)) as (m1 & l1 & ns1 & -> & [D1 C1 F1 N1] & Ev & Efr). cbn [mbind res_bind].
  destruct (IH m1 l1 ns1 D1) as (m2 & l2 & ns2 & -> & [D2 C2 F2 N2] & Ev2 & Efr2).
  { pose proof (spec_op_len o ns.*2) as Hl. rewrite <- Ev, !zlen_fmap in Hl. lia. }
  exists m2, l2, ns2. rewrite Ev in Ev2, Efr2. destruct (spec_op o ns.*2) as [c f]. cbn [fst snd] in *.
  destruct (spec h c) as [c' f']. cbn [fst snd] in *. destruct C1 as (C1d & C1f & C1m), C2 as (C2d & C2f & C2m).
  assert (forall b, b ∈ dom (nodes m) -> b ∉ ns.*1 -> b ∈ dom (nodes m1)) as Hdom.
  { intros b Hb Hn. apply elem_of_dom. rewrite F1 by done. by apply elem_of_dom. }
  split; [done|]. split; [|split; [done|rewrite Efr2, Efr, C1f; destruct (lfree l); [by rewrite <- app_assoc|by rewrite !app_nil_r]]].
  constructor; [done|unfold same_callbacks; split; [congruence|split; congruence]| |].
  - intros b Hb Hd. rewrite F2, F1; try done; [|by apply Hdom]. intros Hin. destruct (N1 b Hin); done.
  - intros b Hb. destruct (N2 b Hb) as [Hin|Hd]; [by apply N1|].
    destruct (decide (b ∈ ns.*1)); [by left|right]. intros Hin. by apply Hd, Hdom.
Qed.

(** C19: Any history of [listAddNodeHead], [listAddNodeTail], [listInsertNode] and [listDelNode]
    (at a node found by [listIndex]), [listRotate] and [listEmpty] on a new list follows
    no dangling or NULL pointer, leaves a chain linked in both directions with the
    right ends and length whose values are those of the history on a plain list,
    hands every removed value to [free] once and in order, and changes no node of
    the heap that is not in the list. *)
Theorem adlist_history_refines_list (m : mem) (cb : list_) (h : list op) :
  zlen h < 2 ^ 63 ->
  let l0 := mk_list None None 0 (ldup cb) (lfree cb) (lmatch cb) in
  exists m' l' ns, run h m l0 = Ok (m', l') /\ dlist (nodes m') l' ns /\
    ns.*2 = (spec h []).1 /\ freed m' = freed m ++ (if lfree cb then (spec h []).2 else []) /\
    (forall b, b ∈ dom (nodes m) -> nodes m' !! b = nodes m !! b) /\
    (forall b, b ∈ ns.*1 -> b ∉ dom (nodes m)).
Proof.
  intros Hh l0. assert (dlist (nodes m) l0 []) as D by (constructor; [constructor|done..]).
  destruct (adlist_run_ok h m l0 [] D) as (m' & l' & ns & E & [D' _ F N] & Ev & Ef).
  { change (zlen (@nil (loc * Z))) with 0. lia. }
  exists m', l', ns. split; [done|]. split; [done|]. split; [done|]. split; [done|]. split.
  - intros b Hb. apply F; [apply not_elem_of_nil|done].
  - intros b Hb. destruct (N b Hb) as [Hin|]; [by apply not_elem_of_nil in Hin|done].
Qed.

Lemma adlist_history_refines_list_witness :
  let h := [AddTail 1; AddTail 2; AddHead 3; InsertAt (-1) 4 true; Rotate; DelAt 1] in
  exists m' l' ns, run h (mk_mem ∅ []) (mk_list None None 0 None true None) = Ok (m', l') /\
    dlist (nodes m') l' ns /\ ns.*2 = [4; 1; 2] /\ freed m' = [3] /\
    (forall b, b ∈ dom (nodes (mk_mem ∅ [])) -> nodes m' !! b = nodes (mk_mem ∅ []) !! b) /\
    (forall b, b ∈ ns.*1 -> b ∉ dom (nodes (mk_mem ∅ []))).
Proof.
  intros h. apply (adlist_history_refines_list (mk_mem ∅ []) (mk_list None None 0 None true None) h).
  reflexivity.
Defined.

(** [listSearchKey] returns the first node whose value the match callback accepts (or
    equals the key, without one), and [listIndex] the node at a position counted from
    either end, NULL when there is none. *)
Theorem adlist_search_and_index m l ns key i : dlist (nodes m) l ns ->
  listSearchKey m l key = Ok (fst <$> List.find (fun n => matches l key (snd n)) ns) /\
  listIndex m l i = Ok (fst <$> nth_node ns i).
Proof.
  intros D. split; [|by apply listIndex_ok]. unfold listSearchKey, listRewind.
  rewrite (dl_head _ _ _ D). apply (listSearchKey_loop_ok _ _ _ _ None); [|apply D].
  rewrite (dl_len _ _ _ D). unfold zlen. lia.
Qed.

Definition demo_list : list_ := mk_list (Some 1%positive) (Some 2%positive) 2 None false None.
Definition demo_mem : mem :=
  mk_mem {[ 1%positive := mk_node None (Some 2%positive) 7; 2%positive := mk_node (Some 1%positive) None 9 ]} [].

Lemma adlist_search_and_index_witness :
  listSearchKey demo_mem demo_list 9 = Ok (Some 2%positive) /\
  listIndex demo_mem demo_list (-2) = Ok (Some 1%positive).
Proof.
  apply (adlist_search_and_index demo_mem demo_list [(1%positive, 7); (2%positive, 9)] 9 (-2)).
  constructor; try reflexivity.
  - apply (bool_decide_unpack _). vm_compute. exact I.
  - repeat split.
Defined.

(** [listDup] leaves the original as it was and yields a list of fresh nodes with the
    values the [dup] callback makes of the original ones (the same values without a
    callback); when the callback fails on some value it returns NULL and the
    original and the rest of the heap are untouched. *)
Theorem listDup_copies m orig ns : dlist (nodes m) orig ns -> no_wrap ns ->
  match mapM (dup_value orig) ns.*2 with
  | Some vs => exists m' copy cs, listDup m orig = Ok (m', Some copy) /\
      dlist (nodes m') copy cs /\ cs.*2 = vs /\ dlist (nodes m') orig ns /\
      (forall b, b ∈ cs.*1 -> b ∉ ns.*1) /\ freed m' = freed m
  | None => exists m', listDup m orig = Ok (m', None) /\ dlist (nodes m') orig ns
  end.
Proof.
  intros D Hw. unfold listDup, listRewind. set (copy := mk_list None None 0 (ldup orig) (lfree orig) (lmatch orig)).
  assert (dlist (nodes m) copy []) as Dc by (constructor; [constructor|done..]).
  assert (forall m', frame m m' [] -> dlist (nodes m') orig ns) as Ho.
  { intros m' F. destruct D as [N S H T L]. constructor; try done. apply (seg_frame (nodes m)); [|done].
    intros a Ha. apply F; [apply not_elem_of_nil|by eapply seg_dom]. }
  pose proof (dup_loop_ok (S (Z.to_nat (len orig))) m copy [] None ns) as H.
  change (dup_value copy) with (dup_value orig) in H. rewrite (dl_head _ _ _ D).
  specialize (H ltac:(rewrite (dl_len _ _ _ D); unfold zlen; lia) (dl_seg _ _ _ D)
    ltac:(intros b _; apply not_elem_of_nil) Dc Hw).
  destruct (mapM (dup_value orig) ns.*2) as [vs|].
  - destruct H as (m' & copy' & cs & E & D' & V & F & Hf & N & _). exists m', copy', cs.
    split; [done|]. split; [done|]. split; [done|]. split; [by apply Ho|]. split; [|done].
    intros b Hb Hin. apply (N b Hb). by eapply (seg_dom _ _ _ _ b (dl_seg _ _ _ D)).
  - destruct H as (m' & E & F). exists m'. auto.
Qed.

Lemma listDup_copies_witness :
  exists m' copy cs, listDup demo_mem demo_list = Ok (m', Some copy) /\
    dlist (nodes m') copy cs /\ cs.*2 = [7; 9] /\ dlist (nodes m') demo_list [(1%positive, 7); (2%positive, 9)] /\
    (forall b, b ∈ cs.*1 -> b ∉ [1%positive; 2%positive]) /\ freed m' = [].
Proof.
  apply (listDup_copies demo_mem demo_list [(1%positive, 7); (2%positive, 9)]); [|reflexivity].
  constructor; try reflexivity.
  - apply (bool_decide_unpack _). vm_compute. exact I.
  - repeat split.
Defined.

(** [listJoin] with a non-empty second list moves all its nodes to the end of the
    first and leaves the second empty. *)
Theorem listJoin_appends m l o a b :
  dlist (nodes m) l a -> dlist (nodes m) o b -> b <> [] -> NoDup (a ++ b).*1 -> zlen (a ++ b) < 2 ^ 64 ->
  exists m' l' o', listJoin m l o = Ok (m', l', o') /\ dlist (nodes m') l' (a ++ b) /\
    dlist (nodes m') o' [] /\ frame m m' (a ++ b).
Proof.
  intros Dl Do Hb Hn Hw. destruct (listJoin_ok m l o a b Dl Do Hb Hn Hw) as (m' & l' & o' & ? & ? & ? & _ & _ & _ & ?).
  by exists m', l', o'.
Qed.

Lemma listJoin_appends_witness :
  exists m' l' o', listJoin demo_mem listCreate demo_list = Ok (m', l', o') /\
    dlist (nodes m') l' [(1%positive, 7); (2%positive, 9)] /\ dlist (nodes m') o' [] /\
    frame demo_mem m' [(1%positive, 7); (2%positive, 9)].
Proof.
  apply (listJoin_appends demo_mem listCreate demo_list [] [(1%positive, 7); (2%positive, 9)]);
    [constructor; [constructor|reflexivity..]| |discriminate| |reflexivity].
  - constructor; try reflexivity; [|repeat split]. apply (bool_decide_unpack _). vm_compute. exact I.
  - apply (bool_decide_unpack _). vm_compute. exact I.
Defined.

(** With an empty second list [listJoin] breaks the first: its tail pointer becomes NULL
    although it has nodes, so it represents no list any more and the next
    [listAddNodeTail] follows a NULL pointer. *)
Theorem listJoin_empty_breaks_tail m l o a v :
  dlist (nodes m) l a -> a <> [] -> zlen a < 2 ^ 64 -> dlist (nodes m) o [] ->
  exists m' l' o', listJoin m l o = Ok (m', l', o') /\ (forall ns, ~ dlist (nodes m') l' ns) /\
    listAddNodeTail m' l' v = Fault OutOfBounds.
Proof.
  intros Dl Ha Hw Do. unfold listJoin. rewrite (dl_head _ _ _ Do), (dl_tail _ _ _ Dl). cbn [first mbind res_bind].
  destruct (set_next_ok m None a None None Ha (dl_nodup _ _ _ Dl) (dl_seg _ _ _ Dl)) as (m1 & E & S1 & _ & _).
  rewrite E. pose proof (final_None None a) as Hf. rewrite bool_decide_eq_false_2 in Hf by done.
  destruct (final None a) as [t|] eqn:Et; [|done]. cbn [mbind res_bind]. eexists _, _, _. split; [done|].
  assert (zlen a <> 0) by (destruct a; [done|zl]). pose proof (zlen_nonneg a).
  assert (u64 (len l + len o) = zlen a) as El.
  { rewrite (dl_len _ _ _ Dl), (dl_len _ _ _ Do). change (zlen (@nil (loc * Z))) with 0. rewrite Z.add_0_r.
    apply uwrap_id. unfold in_u. lia. }
  split.
  - intros ns [_ _ _ Ht Hl]. cbn in Ht, Hl. rewrite El in Hl. pose proof (final_None None ns) as Hn.
    rewrite <- Ht in Hn. rewrite (dl_tail _ _ _ Do) in Hn. cbn in Hn. destruct ns; [by rewrite zlen_nil in Hl|done].
  - unfold listAddNodeTail. cbn [len with_len with_ends tail]. rewrite El, (proj2 (Z.eqb_neq _ _)) by done.
    by rewrite (dl_tail _ _ _ Do).
Qed.

Lemma listJoin_empty_breaks_tail_witness :
  exists m' l' o', listJoin demo_mem demo_list listCreate = Ok (m', l', o') /\
    (forall ns, ~ dlist (nodes m') l' ns) /\ listAddNodeTail m' l' 5 = Fault OutOfBounds.
Proof.
  apply (listJoin_empty_breaks_tail demo_mem demo_list listCreate [(1%positive, 7); (2%positive, 9)] 5);
    [|discriminate|reflexivity|constructor; [constructor|reflexivity..]].
  constructor; try reflexivity; [|repeat split]. apply (bool_decide_unpack _). vm_compute. exact I.
Defined.
End Adlist.
