(* ===== verification/Dict.v ===== *)
(** * Hash tables with incremental rehashing: src/redis-stable/src/dict.h and dict.c

    A table is the list of its buckets, a bucket the chain of its entries from the
    head on; [None] is the NULL table of a reset [dictht]. Keys are their contents:
    [keyCompare] decides equality and makes the pointer comparison in front of it
    redundant. The hash function is a parameter (siphash, or any other a [dictType]
    names), [random()] a parameter of the sampling functions; the duplication and
    destruction callbacks are not modelled. *)
From stdpp Require Import gmap.
From S2P Require Import Prelude.

Module Dict.

Definition DICT_OK : Z := 0.
Definition DICT_ERR : Z := 1.
Definition DICT_HT_INITIAL_SIZE : Z := 4.
Definition dict_force_resize_ratio : Z := 5.
Definition LONG_MAX : Z := 2 ^ 63 - 1.

(** The callbacks of a [dictType] that decide where an entry lives. *)
Class dictType (K : Type) := {
  hashFunction : K -> Z;
  keyCompare : K -> K -> bool }.

(** Keys are compared by contents. *)
Class dictTypeLaws (K : Type) `{dictType K} := {
  keyCompare_spec a b : keyCompare a b = true <-> a = b }.

Section Ops.
Context {K V : Type} {HT : dictType K}.

Record dictEntry := mk_entry { ekey : K; evalue : V }.

Record dictht := mk_ht {
  table : option (list (list dictEntry)); size : Z; sizemask : Z; used : Z }.

Record dict := mk_dict { ht0 : dictht; ht1 : dictht; rehashidx : Z; iterators : Z }.

(** A [dictEntry *]: table, bucket and position in the chain. *)
Record entry_ref := mk_ref { rtable : bool; rindex : Z; rpos : nat }.

Definition ht (d : dict) (t : bool) : dictht := if t then ht1 d else ht0 d.
Definition with_ht (d : dict) (t : bool) (h : dictht) : dict :=
  if t then mk_dict (ht0 d) h (rehashidx d) (iterators d)
  else mk_dict h (ht1 d) (rehashidx d) (iterators d).
Definition with_rehashidx (d : dict) (i : Z) : dict := mk_dict (ht0 d) (ht1 d) i (iterators d).
Definition with_iterators (d : dict) (i : Z) : dict := mk_dict (ht0 d) (ht1 d) (rehashidx d) i.
Definition with_table (h : dictht) (t : list (list dictEntry)) : dictht :=
  mk_ht (Some t) (size h) (sizemask h) (used h).
Definition with_used (h : dictht) (n : Z) : dictht := mk_ht (table h) (size h) (sizemask h) n.

(** [ht->table[i]] and its assignment. *)
Definition bucket (h : dictht) (i : Z) : res (list dictEntry) :=
  match table h with
  | Some t => match (if 0 <=? i then t !! Z.to_nat i else None) with
              | Some b => Ok b | None => Fault OutOfBounds end
  | None => Fault OutOfBounds
  end.

Definition set_bucket (h : dictht) (i : Z) (b : list dictEntry) : res dictht :=
  _ ← bucket h i;
  match table h with
  | Some t => Ok (with_table h (<[Z.to_nat i := b]> t))
  | None => Fault OutOfBounds
  end.

Definition dictIsRehashing (d : dict) : bool := negb (rehashidx d =? -1).
Definition dictSize (d : dict) : Z := u64 (used (ht0 d) + used (ht1 d)).

(** The hash as the [unsigned int] every caller keeps it in. *)
Definition hash32 (key : K) : Z := u32 (hashFunction key).

(** ** Creation and resizing *)

Definition _dictReset : dictht := mk_ht None 0 0 0.
Definition _dictInit : dict := mk_dict _dictReset _dictReset (-1) 0.
Definition dictCreate : dict := _dictInit.

Fixpoint next_power (fuel : nat) (i sz : Z) : res Z :=
  match fuel with
  | O => Fault OutOfFuel
  | S fuel => if sz <=? i then Ok i else next_power fuel (u64 (i * 2)) sz
  end.

Definition _dictNextPower (sz : Z) : res Z :=
  if LONG_MAX <=? sz then Ok LONG_MAX else next_power 64 DICT_HT_INITIAL_SIZE sz.

Definition dictExpand (d : dict) (sz : Z) : res (dict * Z) :=
  realsize ← _dictNextPower sz;
  if dictIsRehashing d || (sz <? used (ht0 d)) then Ok (d, DICT_ERR) else
  if realsize =? size (ht0 d) then Ok (d, DICT_ERR) else
  let n := mk_ht (Some (zrep realsize [])) realsize (u64 (realsize - 1)) 0 in
  match table (ht0 d) with
  | None => Ok (with_ht d false n, DICT_OK)
  | Some _ => Ok (with_rehashidx (with_ht d true n) 0, DICT_OK)
  end.

(** [can_resize] is the global [dict_can_resize]; [minimal] is an [int]. *)
Definition dictResize (can_resize : bool) (d : dict) : res (dict * Z) :=
  if negb can_resize || dictIsRehashing d then Ok (d, DICT_ERR) else
  let minimal := i32 (used (ht0 d)) in
  let minimal := if minimal <? DICT_HT_INITIAL_SIZE then DICT_HT_INITIAL_SIZE else minimal in
  dictExpand d (u64 minimal).

(** ** Incremental rehashing *)

(** [while(table[rehashidx] == NULL)]: the new index and the empty visits left, [None]
    when they ran out. [--empty_visits] wraps, and the fuel is the number of buckets. *)
Fixpoint rehash_skip (fuel : nat) (empty_visits : Z) (h : dictht) (idx : Z) : res (Z * option Z) :=
  b ← bucket h idx;
  match b, fuel with
  | _ :: _, _ => Ok (idx, Some empty_visits)
  | [], O => Fault OutOfFuel
  | [], S fuel => let ev := i32 (empty_visits - 1) in if ev =? 0 then Ok (idx + 1, None) else rehash_skip fuel ev h (idx + 1)
  end.

(** [while(de)]: move the chain [de], one entry at a time, to the head of its new bucket. *)
Fixpoint rehash_chain (de : list dictEntry) (d : dict) : res dict :=
  match de with
  | [] => Ok d
  | e :: de =>
    let h := u32 (Z.land (hashFunction (ekey e)) (sizemask (ht1 d))) in
    b ← bucket (ht1 d) h;
    n1 ← set_bucket (ht1 d) h (e :: b);
    let d := with_ht d false (with_used (ht0 d) (u64 (used (ht0 d) - 1))) in
    let d := with_ht d true (with_used n1 (u64 (used n1 + 1))) in
    rehash_chain de d
  end.

(** The main loop [while(n-- && used != 0)]; the flag says whether it ended by [return 1]
    inside. Every turn moves a bucket, so the number of buckets is enough fuel. *)
Fixpoint rehash_loop (fuel : nat) (n empty_visits : Z) (d : dict) : res (dict * bool) :=
  if (n =? 0) || (used (ht0 d) =? 0) then Ok (d, false) else
  match fuel with
  | O => Fault OutOfFuel
  | S fuel =>
    _ ← assert_ (u64 (rehashidx d) <? size (ht0 d));
    '(idx, remaining) ← rehash_skip (Z.to_nat (size (ht0 d))) empty_visits (ht0 d) (rehashidx d);
    let d := with_rehashidx d idx in
    match remaining with
    | None => Ok (d, true)
    | Some empty_visits =>
      de ← bucket (ht0 d) (rehashidx d);
      d ← rehash_chain de d;
      h ← set_bucket (ht0 d) (rehashidx d) [];
      rehash_loop fuel (i32 (n - 1)) empty_visits (with_rehashidx (with_ht d false h) (rehashidx d + 1))
    end
  end.

(** [n] is an [int], and [n*10] wraps. *)
Definition dictRehash (d : dict) (n : Z) : res (dict * Z) :=
  let empty_visits := i32 (n * 10) in
  if negb (dictIsRehashing d) then Ok (d, 0) else
  '(d, returned) ← rehash_loop (S (Z.to_nat (size (ht0 d)))) n empty_visits d;
  if returned : bool then Ok (d, 1) else
  if used (ht0 d) =? 0
  then Ok (mk_dict (ht1 d) _dictReset (-1) (iterators d), 0)
  else Ok (d, 1).

(** [clock] is the successive results of [timeInMilliseconds() - start > ms]. *)
Fixpoint dictRehashMilliseconds (clock : list bool) (d : dict) (rehashes : Z) : res (dict * Z) :=
  '(d, more) ← dictRehash d 100;
  if more =? 0 then Ok (d, rehashes) else
  let rehashes := i32 (rehashes + 100) in
  match clock with
  | [] | true :: _ => Ok (d, rehashes)
  | false :: clock => dictRehashMilliseconds clock d rehashes
  end.

Definition _dictRehashStep (d : dict) : res dict :=
  if iterators d =? 0 then '(d, _) ← dictRehash d 1; Ok d else Ok d.

(** ** Lookup *)

(** The position in a chain of the first entry with an equal key. *)
Fixpoint chain_find (key : K) (c : list dictEntry) (pos : nat) : option nat :=
  match c with
  | [] => None
  | e :: c => if keyCompare key (ekey e) then Some pos else chain_find key c (S pos)
  end.

(** One round of the loop over the two tables. *)
Definition find_in (d : dict) (t : bool) (key : K) : res (option entry_ref) :=
  let idx := Z.land (hash32 key) (sizemask (ht d t)) in
  b ← bucket (ht d t) idx;
  Ok (mk_ref t idx <$> chain_find key b 0).

Definition dictFind (d : dict) (key : K) : res (dict * option entry_ref) :=
  if u64 (used (ht0 d) + used (ht1 d)) =? 0 then Ok (d, None) else
  d ← (if dictIsRehashing d then _dictRehashStep d else Ok d);
  r ← find_in d false key;
  match r with
  | Some r => Ok (d, Some r)
  | None =>
    if negb (dictIsRehashing d) then Ok (d, None) else
    r ← find_in d true key; Ok (d, r)
  end.

Definition deref (d : dict) (r : entry_ref) : res dictEntry :=
  b ← bucket (ht d (rtable r)) (rindex r);
  match b !! rpos r with Some e => Ok e | None => Fault OutOfBounds end.

Definition dictFetchValue (d : dict) (key : K) : res (dict * option V) :=
  '(d, he) ← dictFind d key;
  match he with
  | Some r => e ← deref d r; Ok (d, Some (evalue e))
  | None => Ok (d, None)
  end.

(** ** Insertion *)

Definition _dictExpandIfNeeded (can_resize : bool) (d : dict) : res (dict * Z) :=
  if dictIsRehashing d then Ok (d, DICT_OK) else
  if size (ht0 d) =? 0 then dictExpand d DICT_HT_INITIAL_SIZE else
  if (size (ht0 d) <=? used (ht0 d)) &&
     (can_resize || (dict_force_resize_ratio <? used (ht0 d) / size (ht0 d)))
  then dictExpand d (u64 (used (ht0 d) * 2))
  else Ok (d, DICT_OK).

(** The index as an [int], -1 when there is none; [existing] when the key is there. *)
Definition _dictKeyIndex (can_resize : bool) (d : dict) (key : K)
    : res (dict * Z * option entry_ref) :=
  '(d, r) ← _dictExpandIfNeeded can_resize d;
  if r =? DICT_ERR then Ok (d, -1, None) else
  r ← find_in d false key;
  match r with
  | Some r => Ok (d, -1, Some r)
  | None =>
    if negb (dictIsRehashing d) then Ok (d, i32 (Z.land (hash32 key) (sizemask (ht0 d))), None) else
    r ← find_in d true key;
    match r with
    | Some r => Ok (d, -1, Some r)
    | None => Ok (d, i32 (Z.land (hash32 key) (sizemask (ht1 d))), None)
    end
  end.

(** [junk] is the value field of the new entry before the caller sets it. Returns the
    entry added and the one already there. *)
Definition dictAddRaw (can_resize : bool) (d : dict) (key : K) (junk : V)
    : res (dict * option entry_ref * option entry_ref) :=
  d ← (if dictIsRehashing d then _dictRehashStep d else Ok d);
  '(d, index, existing) ← _dictKeyIndex can_resize d key;
  if index =? -1 then Ok (d, None, existing) else
  let t := dictIsRehashing d in
  b ← bucket (ht d t) index;
  h ← set_bucket (ht d t) index (mk_entry key junk :: b);
  let d := with_ht d t (with_used h (u64 (used h + 1))) in
  Ok (d, Some (mk_ref t index 0), existing).

Definition dictSetVal (d : dict) (r : entry_ref) (val : V) : res dict :=
  e ← deref d r;
  b ← bucket (ht d (rtable r)) (rindex r);
  h ← set_bucket (ht d (rtable r)) (rindex r) (<[rpos r := mk_entry (ekey e) val]> b);
  Ok (with_ht d (rtable r) h).

Definition dictAdd (can_resize : bool) (d : dict) (key : K) (val : V) (junk : V) : res (dict * Z) :=
  '(d, entry, _) ← dictAddRaw can_resize d key junk;
  match entry with
  | None => Ok (d, DICT_ERR)
  | Some r => d ← dictSetVal d r val; Ok (d, DICT_OK)
  end.

Definition dictReplace (can_resize : bool) (d : dict) (key : K) (val : V) (junk : V) : res (dict * Z) :=
  '(d, entry, existing) ← dictAddRaw can_resize d key junk;
  match entry with
  | Some r => d ← dictSetVal d r val; Ok (d, 1)
  | None => match existing with
            | Some r => d ← dictSetVal d r val; Ok (d, 0)
            | None => Fault OutOfBounds
            end
  end.

Definition dictAddOrFind (can_resize : bool) (d : dict) (key : K) (junk : V)
    : res (dict * option entry_ref) :=
  '(d, entry, existing) ← dictAddRaw can_resize d key junk;
  Ok (d, match entry with Some r => Some r | None => existing end).

(** ** Deletion *)

(** One round of the loop over the two tables: unlink the first matching entry. *)
Definition delete_in (d : dict) (t : bool) (key : K) : res (option (dict * dictEntry)) :=
  let idx := Z.land (hash32 key) (sizemask (ht d t)) in
  b ← bucket (ht d t) idx;
  match chain_find key b 0 with
  | None => Ok None
  | Some pos =>
    match b !! pos with
    | None => Fault OutOfBounds
    | Some he =>
      h ← set_bucket (ht d t) idx (delete pos b);
      Ok (Some (with_ht d t (with_used h (u64 (used h - 1))), he))
    end
  end.

Definition dictGenericDelete (d : dict) (key : K) : res (dict * option dictEntry) :=
  if (used (ht0 d) =? 0) && (used (ht1 d) =? 0) then Ok (d, None) else
  d ← (if dictIsRehashing d then _dictRehashStep d else Ok d);
  r ← delete_in d false key;
  match r with
  | Some (d, he) => Ok (d, Some he)
  | None =>
    if negb (dictIsRehashing d) then Ok (d, None) else
    r ← delete_in d true key;
    match r with Some (d, he) => Ok (d, Some he) | None => Ok (d, None) end
  end.

Definition dictDelete (d : dict) (key : K) : res (dict * Z) :=
  '(d, r) ← dictGenericDelete d key;
  Ok (d, match r with Some _ => DICT_OK | None => DICT_ERR end).

Definition dictUnlink (d : dict) (key : K) : res (dict * option dictEntry) := dictGenericDelete d key.

(** Free every entry of a table, stopping when none is left; returns the entries freed. *)
Fixpoint clear_loop (n : nat) (h : dictht) (i : Z) (freed : list dictEntry)
    : res (dictht * list dictEntry) :=
  match n with
  | O => Ok (h, freed)
  | S n =>
    if (i <? size h) && (0 <? used h) then
      b ← bucket h i;
      clear_loop n (with_used h (u64 (used h - zlen b))) (i + 1) (freed ++ b)
    else Ok (h, freed)
  end.

Definition _dictClear (h : dictht) : res (dictht * list dictEntry) :=
  '(_, freed) ← clear_loop (Z.to_nat (size h)) h 0 []; Ok (_dictReset, freed).

Definition dictRelease (d : dict) : res (list dictEntry) :=
  '(_, f0) ← _dictClear (ht0 d); '(_, f1) ← _dictClear (ht1 d); Ok (f0 ++ f1).

Definition dictEmpty (d : dict) : res (dict * list dictEntry) :=
  '(h0, f0) ← _dictClear (ht0 d);
  '(h1, f1) ← _dictClear (ht1 d);
  Ok (mk_dict h0 h1 (-1) 0, f0 ++ f1).
End Ops.
Arguments dictEntry : clear implicits.
Arguments dictht : clear implicits.
Arguments dict : clear implicits.

(** ** Invariant *)

Section Invariant.
Context {K V : Type} {HT : dictType K} {HL : dictTypeLaws K}.
Implicit Types (d : dict K V) (h : dictht K V) (t : list (list (dictEntry K V))) (e : dictEntry K V).

Definition entries h : list (dictEntry K V) :=
  match table h with Some t => concat t | None => [] end.
Definition all d : list (dictEntry K V) := entries (ht0 d) ++ entries (ht1 d).

(** Every entry of [t] is in the bucket its hash selects. *)
Definition placed (k : Z) t : Prop :=
  forall i b e, t !! i = Some b -> e ∈ b -> hash32 (ekey e) mod 2 ^ k = Z.of_nat i.

(** A table of [2^k] buckets with [u] as its count. *)
Record table_ok (k u : Z) t h : Prop := {
  tb_k : 2 <= k <= 30;
  tb_eq : h = mk_ht (Some t) (2 ^ k) (2 ^ k - 1) u;
  tb_len : zlen t = 2 ^ k;
  tb_placed : placed k t }.

Inductive ht_wf h : Prop :=
| ht_reset : h = _dictReset -> ht_wf h
| ht_table k t : table_ok k (zlen (concat t)) t h -> ht_wf h.

(** The buckets of [t] below [i] are empty: what rehashing has moved. *)
Definition moved (i : Z) t : Prop :=
  forall j b, t !! j = Some b -> Z.of_nat j < i -> b = [].

(** Not rehashing, or rehashing from [ht0] to [ht1]. *)
Inductive phase d : Prop :=
| idle : rehashidx d = -1 -> ht1 d = _dictReset -> ht_wf (ht0 d) -> phase d
| rehashing k0 t0 k1 t1 :
    table_ok k0 (zlen (concat t0)) t0 (ht0 d) -> table_ok k1 (zlen (concat t1)) t1 (ht1 d) ->
    0 <= rehashidx d <= 2 ^ k0 -> moved (rehashidx d) t0 -> phase d.

Record dict_wf d : Prop := {
  wf_phase : phase d;
  wf_nodup : NoDup (map ekey (all d));
  wf_small : zlen (all d) < 2 ^ 40 }.

(** ** Buckets *)

Lemma bucket_lookup k u t h i b : table_ok k u t h -> t !! Z.to_nat i = Some b -> 0 <= i -> bucket h i = Ok b.
Proof. intros [_ -> _ _] E Hi. unfold bucket. cbn [table]. rewrite (proj2 (Z.leb_le _ _)) by done. by rewrite E. Qed.

Lemma bucket_in k u t h i : table_ok k u t h -> 0 <= i < 2 ^ k -> exists b, t !! Z.to_nat i = Some b /\ bucket h i = Ok b.
Proof.
  intros T Hi. destruct (lookup_lt_is_Some_2 t (Z.to_nat i)) as [b Hb].
  { pose proof (tb_len _ _ _ _ T). unfold zlen in *. lia. }
  exists b. split; [done|]. eapply bucket_lookup; [done|done|lia].
Qed.

(** A bucket against the rest of the table. *)
Lemma concat_split {A} (t : list (list A)) i b :
  t !! i = Some b -> concat t ≡ₚ b ++ concat (<[i := []]> t).
Proof.
  revert i. induction t as [|c t IH]; intros [|i] E; try done; cbn in *.
  - injection E as ->. done.
  - rewrite (IH i E) at 1. rewrite !app_assoc. apply Permutation_app_tail, Permutation_app_comm.
Qed.

Lemma concat_insert {A} (t : list (list A)) i b c :
  t !! i = Some b -> concat (<[i := c]> t) ≡ₚ c ++ concat (<[i := []]> t).
Proof.
  intros E. rewrite (concat_split (<[i := c]> t) i c), list_insert_insert_eq; [done|].
  apply list_lookup_insert_eq. by eapply lookup_lt_Some.
Qed.

Lemma zlen_perm {A} (l k : list A) : l ≡ₚ k -> zlen l = zlen k.
Proof. intros E. unfold zlen. by rewrite E. Qed.

Lemma set_bucket_ok k u t h i b c :
  table_ok k u t h -> t !! Z.to_nat i = Some b -> 0 <= i ->
  (forall e, e ∈ c -> hash32 (ekey e) mod 2 ^ k = i) ->
  exists h', set_bucket h i c = Ok h' /\ table_ok k u (<[Z.to_nat i := c]> t) h'.
Proof.
  intros T E Hi Hc. unfold set_bucket. rewrite (bucket_lookup _ _ _ _ _ _ T E Hi). cbn [mbind res_bind].
  destruct T as [Hk -> Hl Hp]. cbn [table]. eexists. split; [done|]. constructor; [done|done|by rewrite zlen_insert|].
  intros j b' e Hj He. destruct (decide (j = Z.to_nat i)) as [-> |Hne].
  - rewrite list_lookup_insert_eq in Hj by (by eapply lookup_lt_Some). injection Hj as <-. rewrite Hc by done. lia.
  - rewrite list_lookup_insert_ne in Hj by done. by apply (Hp j b').
Qed.

Lemma with_used_ok k u u' t h : table_ok k u t h -> table_ok k u' t (with_used h u').
Proof. intros [? -> ? ?]. by constructor. Qed.

Lemma table_used k u t h : table_ok k u t h -> used h = u /\ size h = 2 ^ k /\ sizemask h = 2 ^ k - 1 /\ table h = Some t.
Proof. by intros [_ -> _ _]. Qed.

Lemma table_entries k u t h : table_ok k u t h -> entries h = concat t.
Proof. by intros [_ -> _ _]. Qed.

Lemma hash_index_range k (key : K) : 0 <= k -> 0 <= hash32 key mod 2 ^ k < 2 ^ k.
Proof. intros. apply Z.mod_pos_bound. lia. Qed.

(** ** Lookup *)

Lemma chain_find_spec (key : K) (c : list (dictEntry K V)) pos :
  match chain_find key c pos with
  | Some p => exists a e b, c = a ++ e :: b /\ p = (pos + length a)%nat /\ ekey e = key
  | None => forall e, e ∈ c -> ekey e <> key
  end.
Proof.
  revert pos. induction c as [|e c IH]; intros pos; cbn [chain_find].
  { intros e He. by apply not_elem_of_nil in He. }
  destruct (keyCompare key (ekey e)) eqn:E.
  - apply keyCompare_spec in E as ->. exists [], e, c. split; [done|]. split; [cbn; lia|done].
  - specialize (IH (S pos)). destruct (chain_find key c (S pos)) as [p|].
    + destruct IH as (a & e' & b & -> & -> & ?). exists (e :: a), e', b. split; [done|]. split; [cbn; lia|done].
    + intros e' [-> |He]%elem_of_cons; [|by apply IH]. intros <-.
      by rewrite (proj2 (keyCompare_spec _ _) eq_refl) in E.
Qed.

(** A chain entry outside the bucket of [key] has another key. *)
Lemma placed_elsewhere k u t h (key : K) b e :
  table_ok k u t h -> t !! Z.to_nat (hash32 key mod 2 ^ k) = Some b -> e ∈ concat t -> ekey e = key -> e ∈ b.
Proof.
  intros T E He <-. apply list_elem_of_In, in_concat in He as (b' & Hb' & He).
  apply list_elem_of_In in Hb', He. apply list_elem_of_lookup in Hb' as [i Hi].
  pose proof (tb_placed _ _ _ _ T i b' e Hi He) as Hp. rewrite Hp, Nat2Z.id in E. congruence.
Qed.

Lemma find_in_ok d (tb : bool) key k u t : table_ok k u t (ht d tb) ->
  exists r, find_in d tb key = Ok r /\
  match r with
  | Some r => rtable r = tb /\ rindex r = hash32 key mod 2 ^ k /\ exists a e b,
      t !! Z.to_nat (hash32 key mod 2 ^ k) = Some (a ++ e :: b) /\ rpos r = length a /\ ekey e = key
  | None => forall e, e ∈ concat t -> ekey e <> key
  end.
Proof.
  intros T. unfold find_in. destruct (table_used _ _ _ _ T) as (_ & _ & -> & _).
  pose proof (tb_k _ _ _ _ T). rewrite land_mask by lia.
  destruct (bucket_in _ _ _ _ (hash32 key mod 2 ^ k) T) as (b & Hb & Eb); [apply hash_index_range; lia|].
  rewrite Eb. cbn [mbind res_bind]. eexists. split; [done|].
  pose proof (chain_find_spec key b 0) as Hs. destruct (chain_find key b 0) as [p|]; cbn [fmap option_fmap option_map].
  - destruct Hs as (a & e & b' & -> & -> & Hk). cbn. split; [done|]. split; [done|]. by exists a, e, b'.
  - intros e He Hk. apply (Hs e); [|done]. by eapply placed_elsewhere.
Qed.

(** ** Rehashing *)

Lemma rehash_index k (key : K) : 0 <= k <= 30 ->
  u32 (Z.land (hashFunction key) (2 ^ k - 1)) = hash32 key mod 2 ^ k.
Proof.
  intros Hk. rewrite land_mask by lia. unfold hash32, uwrap.
  assert (0 < 2 ^ k <= 2 ^ 30) by (split; [lia|apply Z.pow_le_mono_r; lia]).
  rewrite Z.mod_small by (pose proof (Z.mod_pos_bound (hashFunction key) (2 ^ k)); lia).
  replace (2 ^ 32) with (2 ^ k * 2 ^ (32 - k)) by (rewrite <- Z.pow_add_r by lia; f_equal; lia).
  rewrite Z.rem_mul_r by lia. rewrite Z.mul_comm, Z_mod_plus_full. by rewrite Z.mod_mod by lia.
Qed.

Lemma rehash_chain_ok de : forall d k1 t1,
  table_ok k1 (zlen (concat t1)) t1 (ht1 d) -> zlen de <= used (ht0 d) < 2 ^ 40 ->
  zlen de + zlen (concat t1) < 2 ^ 40 ->
  exists d' t1', rehash_chain de d = Ok d' /\ table_ok k1 (zlen (concat t1')) t1' (ht1 d') /\
    concat t1' ≡ₚ de ++ concat t1 /\ ht0 d' = with_used (ht0 d) (used (ht0 d) - zlen de) /\
    rehashidx d' = rehashidx d /\ iterators d' = iterators d.
Proof.
  induction de as [|e de IH]; intros d k1 t1 T Hu Hs.
  { exists d, t1. split; [done|]. split; [done|]. split; [done|]. split; [|done].
    rewrite zlen_nil, Z.sub_0_r. destruct d as [[] ? ? ?]; done. }
  cbn [rehash_chain]. rewrite zlen_cons in *. pose proof (zlen_nonneg de). pose proof (zlen_nonneg (concat t1)).
  destruct (table_used _ _ _ _ T) as (Eu & _ & -> & _). pose proof (tb_k _ _ _ _ T) as Hk. rewrite rehash_index by lia.
  set (i := hash32 (ekey e) mod 2 ^ k1).
  destruct (bucket_in _ _ _ _ i T) as (b & Hb & ->); [apply hash_index_range; lia|]. cbn [mbind res_bind].
  assert (0 <= i) by (apply (hash_index_range k1 (ekey e)); lia).
  destruct (set_bucket_ok _ _ _ _ i b (e :: b) T Hb) as (n1 & -> & T1); [done| |].
  { intros e' [-> |He]%elem_of_cons; [done|]. rewrite (tb_placed _ _ _ _ T _ _ _ Hb He). lia. }
  cbn [mbind res_bind]. set (t1' := <[Z.to_nat i := e :: b]> t1) in *.
  assert (concat t1' ≡ₚ e :: concat t1) as Ep.
  { subst t1'. rewrite (concat_insert t1 _ b) by done. rewrite (concat_split t1 _ b Hb). done. }
  pose proof (zlen_perm _ _ Ep) as Hz. rewrite zlen_cons in Hz.
  destruct (table_used _ _ _ _ T1) as (Eu1 & _).
  set (d1 := with_ht _ true _). destruct (IH d1 k1 t1') as (d' & t2 & -> & T2 & Ep2 & Eh & Er & Ei).
  - subst d1. cbn [ht1 with_ht]. rewrite Eu1. rewrite uwrap_id by (unfold in_u; lia).
    rewrite Hz. by apply (with_used_ok _ (zlen (concat t1))).
  - subst d1. cbn [ht0 with_ht used with_used]. rewrite uwrap_id by (unfold in_u; lia). lia.
  - lia.
  - exists d', t2. split; [done|]. split; [done|]. split; [by rewrite Ep2, Ep, <- Permutation_middle|].
    split; [|by rewrite Er, Ei]. rewrite Eh. subst d1. cbn [ht0 with_ht used with_used table size sizemask].
    rewrite uwrap_id by (unfold in_u; lia). unfold with_used. cbn. f_equal. lia.
Qed.

Definition occupied t : Prop := exists j b, t !! j = Some b /\ b <> [].

Lemma occupied_len t : zlen (concat t) <> 0 -> occupied t.
Proof.
  unfold occupied. induction t as [|b t IH]; [done|]. cbn [concat]. intros Hz. destruct b as [|e b].
  - destruct (IH Hz) as (j & b & ? & ?). by exists (S j), b.
  - by exists 0%nat, (e :: b).
Qed.

Lemma occupied_ahead k u t h idx : table_ok k u t h -> moved idx t -> occupied t -> idx < 2 ^ k.
Proof.
  intros T Hm (j & b & Hj & Hb). pose proof (lookup_lt_Some _ _ _ Hj). pose proof (tb_len _ _ _ _ T). unfold zlen in *.
  destruct (Z.lt_ge_cases (Z.of_nat j) idx) as [Hji|]; [|lia]. by rewrite (Hm j b Hj Hji) in Hb.
Qed.

Lemma rehash_skip_ok fuel : forall ev k u t h idx,
  table_ok k u t h -> moved idx t -> 0 <= idx <= 2 ^ k -> occupied t -> 2 ^ k - idx <= Z.of_nat fuel ->
  exists idx' r, rehash_skip fuel ev h idx = Ok (idx', r) /\ idx <= idx' <= 2 ^ k /\ moved idx' t /\
    match r with
    | Some ev' => (0 < ev < 2 ^ 31 -> 0 < ev' /\ ev' = ev - (idx' - idx)) /\
        exists b, t !! Z.to_nat idx' = Some b /\ b <> [] /\ idx' < 2 ^ k
    | None => 0 < ev < 2 ^ 31 -> ev = idx' - idx
    end.
Proof.
  induction fuel as [|fuel IH]; intros ev k u t h idx T Hm Hi Ho Hf; pose proof (occupied_ahead _ _ _ _ _ T Hm Ho) as Hlt; [lia|].
  destruct (bucket_in _ _ _ _ idx T) as (b & Hb & Eb); [lia|]. cbn [rehash_skip]. rewrite Eb. cbn [mbind res_bind].
  destruct b as [|e b].
  - assert (moved (idx + 1) t) as Hm'.
    { intros j b Hj Hlj. destruct (decide (Z.of_nat j = idx)) as [<- |]; [|apply (Hm j b Hj); lia].
      rewrite Nat2Z.id in Hb. congruence. }
    assert (0 < ev < 2 ^ 31 -> i32 (ev - 1) = ev - 1) as Hev by (intros; apply swrap_id; unfold in_s; lia).
    destruct (Z.eqb_spec (i32 (ev - 1)) 0) as [Hz|Hz].
    + exists (idx + 1), None. split; [done|]. split; [lia|]. split; [done|]. intros Hpos. rewrite (Hev Hpos) in Hz. lia.
    + destruct (IH (i32 (ev - 1)) k u t h (idx + 1) T Hm') as (idx' & r & E & H1 & H2 & H3); [lia|done|lia|].
      exists idx', r. split; [done|]. split; [lia|]. split; [done|]. destruct r as [ev'|].
      * destruct H3 as (H3 & ?). split; [|done]. intros Hpos. rewrite (Hev Hpos) in *. lia.
      * intros Hpos. rewrite (Hev Hpos) in *. lia.
  - exists idx, (Some ev). split; [done|]. split; [lia|]. split; [done|]. split; [lia|]. by exists (e :: b).
Qed.

(** The state of a dictionary in the middle of rehashing. *)
Record rehash_state d (k0 k1 : Z) t0 t1 : Prop := {
  rs_0 : table_ok k0 (zlen (concat t0)) t0 (ht0 d);
  rs_1 : table_ok k1 (zlen (concat t1)) t1 (ht1 d);
  rs_idx : 0 <= rehashidx d <= 2 ^ k0;
  rs_moved : moved (rehashidx d) t0;
  rs_small : zlen (concat t0) + zlen (concat t1) < 2 ^ 40 }.

(** Moving one bucket. *)
Lemma rehash_bucket_ok d k0 k1 t0 t1 b :
  rehash_state d k0 k1 t0 t1 -> t0 !! Z.to_nat (rehashidx d) = Some b -> rehashidx d < 2 ^ k0 ->
  exists d' t0' t1', (de ← bucket (ht0 d) (rehashidx d); d ← rehash_chain de d;
     h ← set_bucket (ht0 d) (rehashidx d) []; Ok (with_rehashidx (with_ht d false h) (rehashidx d + 1))) = Ok d' /\
    rehash_state d' k0 k1 t0' t1' /\ concat t0' ++ concat t1' ≡ₚ concat t0 ++ concat t1 /\
    rehashidx d' = rehashidx d + 1 /\ iterators d' = iterators d.
Proof.
  intros [T0 T1 Hi Hm Hs] Hb Hlt. rewrite (bucket_lookup _ _ _ _ _ _ T0 Hb) by lia. cbn [mbind res_bind].
  pose proof (concat_split t0 _ b Hb) as Ep0. pose proof (zlen_perm _ _ Ep0) as Hz0. rewrite zlen_app in Hz0.
  destruct (table_used _ _ _ _ T0) as (Eu0 & _). set (t0' := <[Z.to_nat (rehashidx d) := []]> t0) in *.
  pose proof (zlen_nonneg (concat t0')). pose proof (zlen_nonneg (concat t1)).
  destruct (rehash_chain_ok b d k1 t1 T1) as (d1 & t1' & -> & T1' & Ep1 & Eh & Er & Ei); [lia|lia|]. cbn [mbind res_bind].
  assert (table_ok k0 (zlen (concat t0')) t0 (ht0 d1)) as T0'.
  { rewrite Eh, Eu0. replace (zlen (concat t0) - zlen b) with (zlen (concat t0')) by lia. by eapply with_used_ok. }
  rewrite Er. destruct (set_bucket_ok _ _ _ _ (rehashidx d) b [] T0' Hb) as (h & -> & Th); [lia|set_solver|].
  cbn [mbind res_bind]. eexists _, t0', t1'. split; [done|].
  assert (concat t0' ++ concat t1' ≡ₚ concat t0 ++ concat t1) as Ep.
  { rewrite Ep1, Ep0, <- app_assoc. rewrite !app_assoc. apply Permutation_app_tail, Permutation_app_comm. }
  split; [|by cbn]. apply zlen_perm in Ep. rewrite !zlen_app in Ep.
  constructor; cbn [ht0 ht1 rehashidx with_ht with_rehashidx]; [done|done|lia| |lia].
  intros j b' Hj Hlj. subst t0'. destruct (decide (j = Z.to_nat (rehashidx d))) as [-> |Hne].
  - rewrite list_lookup_insert_eq in Hj by (by eapply lookup_lt_Some). congruence.
  - rewrite list_lookup_insert_ne in Hj by done. apply (Hm j b' Hj). lia.
Qed.

Lemma rehash_loop_ok fuel : forall n ev d k0 k1 t0 t1,
  rehash_state d k0 k1 t0 t1 -> 2 ^ k0 - rehashidx d < Z.of_nat fuel ->
  exists d' ret t0' t1', rehash_loop fuel n ev d = Ok (d', ret) /\ rehash_state d' k0 k1 t0' t1' /\
    concat t0' ++ concat t1' ≡ₚ concat t0 ++ concat t1 /\ iterators d' = iterators d /\
    (2 ^ k0 - rehashidx d <= n < 2 ^ 31 -> 2 ^ k0 - rehashidx d < ev < 2 ^ 31 -> ret = false /\ concat t0' = []).
Proof.
  induction fuel as [|fuel IH]; intros n ev d k0 k1 t0 t1 R Hf; pose proof R as [T0 T1 Hi Hm Hs]; [lia|].
  cbn [rehash_loop]. destruct (table_used _ _ _ _ T0) as (-> & -> & _).
  destruct (Z.eqb_spec (zlen (concat t0)) 0) as [Hz|Hz].
  { rewrite orb_true_r. exists d, false, t0, t1. split; [done|]. split; [done|]. split; [done|]. split; [done|]. intros _ _. split; [done|]. by apply zlen_0_nil. }
  pose proof (occupied_len t0 Hz) as Ho. pose proof (tb_k _ _ _ _ T0) as Hk. pose proof (occupied_ahead _ _ _ _ _ T0 Hm Ho) as Hlt.
  rewrite orb_false_r. destruct (Z.eqb_spec n 0) as [->|Hn].
  { exists d, false, t0, t1. split; [done|]. split; [done|]. split; [done|]. split; [done|]. lia. }
  assert (2 ^ k0 <= 2 ^ 30) by (apply Z.pow_le_mono_r; lia).
  destruct (rehash_skip_ok (Z.to_nat (2 ^ k0)) ev k0 _ t0 (ht0 d) (rehashidx d) T0 Hm Hi Ho ltac:(lia)) as (idx & r & E & Hidx & Hmi & Hr).
  rewrite (uwrap_id 64 (rehashidx d)) by (unfold in_u; lia). rewrite (proj2 (Z.ltb_lt _ _)) by done.
  cbn [assert_ mbind res_bind]. rewrite E. cbn [mbind res_bind].
  assert (rehash_state (with_rehashidx d idx) k0 k1 t0 t1) as R1 by (constructor; cbn; [done|done|lia|done|done]).
  destruct r as [ev'|].
  - destruct Hr as (Hev' & b & Hb & _ & Hlt').
    destruct (rehash_bucket_ok _ k0 k1 t0 t1 b R1 Hb Hlt') as (d1 & t0' & t1' & E1 & R' & Ep & Eidx & Eit).
    apply res_bind_inv in E1 as (de & -> & E1). cbn [mbind res_bind]. apply res_bind_inv in E1 as (d2 & -> & E1).
    cbn [mbind res_bind]. apply res_bind_inv in E1 as (h & -> & <-%Ok_inj). cbn [mbind res_bind].
    destruct (IH (i32 (n - 1)) ev' _ k0 k1 t0' t1' R' ltac:(rewrite Eidx; cbn [rehashidx with_rehashidx]; lia)) as (d' & ret & t0'' & t1'' & -> & R'' & Ep' & Ei' & Hc).
    exists d', ret, t0'', t1''. split; [done|]. split; [done|]. split; [by rewrite Ep'|]. split; [by rewrite Ei', Eit|].
    intros Hn' Hv. apply Hc; rewrite Eidx; cbn [rehashidx with_rehashidx]; [rewrite (swrap_id 32 (n - 1)) by (unfold in_s; lia)|]; lia.
  - exists (with_rehashidx d idx), true, t0, t1. split; [done|]. split; [done|]. split; [done|]. split; [done|]. intros; lia.
Qed.

Lemma phase_of_state d k0 k1 t0 t1 : rehash_state d k0 k1 t0 t1 -> phase d.
Proof. intros [? ? ? ? ?]. by eapply rehashing. Qed.

Lemma all_of_state d k0 k1 t0 t1 : rehash_state d k0 k1 t0 t1 -> all d = concat t0 ++ concat t1.
Proof. intros [T0 T1 _ _ _]. unfold all. by rewrite (table_entries _ _ _ _ T0), (table_entries _ _ _ _ T1). Qed.

Lemma dict_wf_perm d d' : phase d' -> all d' ≡ₚ all d -> dict_wf d -> dict_wf d'.
Proof.
  intros P E [_ N S]. constructor; [done| |by rewrite (zlen_perm _ _ E)].
  eapply (NoDup_Permutation_proper _ _); [|exact N]. by apply Permutation_map.
Qed.

Lemma idle_not_rehashing d : rehashidx d = -1 -> dictIsRehashing d = false.
Proof. unfold dictIsRehashing. by intros ->. Qed.

Lemma rehashing_true d : 0 <= rehashidx d -> dictIsRehashing d = true.
Proof. unfold dictIsRehashing. intros. by rewrite (proj2 (Z.eqb_neq _ _)) by lia. Qed.

Lemma dictRehash_ok d n : dict_wf d ->
  exists d' r, dictRehash d n = Ok (d', r) /\ dict_wf d' /\ all d' ≡ₚ all d /\ iterators d' = iterators d /\
    (dictIsRehashing d = false -> d' = d) /\ (r = 0 -> rehashidx d' = -1) /\
    (size (ht0 d) <= n -> n * 10 < 2 ^ 31 -> r = 0).
Proof.
  intros W. pose proof W as [P N S]. unfold dictRehash. destruct P as [Hi H1 H0|k0 t0 k1 t1 T0 T1 Hi Hm].
  { rewrite (idle_not_rehashing _ Hi). exists d, 0. cbn [negb]. by split_and!. }
  rewrite rehashing_true by lia. cbn [negb].
  assert (rehash_state d k0 k1 t0 t1) as R.
  { constructor; try done. unfold all in S. by rewrite (table_entries _ _ _ _ T0), (table_entries _ _ _ _ T1), zlen_app in S. }
  destruct (table_used _ _ _ _ T0) as (_ & Hsz & _). rewrite Hsz.
  destruct (rehash_loop_ok (Datatypes.S (Z.to_nat (2 ^ k0))) n (i32 (n * 10)) d k0 k1 t0 t1 R ltac:(lia)) as (d' & ret & t0' & t1' & -> & R' & Ep & Ei & Hc).
  cbn [mbind res_bind]. rewrite <- (all_of_state _ _ _ _ _ R) in Ep. pose proof (all_of_state _ _ _ _ _ R') as Ea.
  destruct (table_used _ _ _ _ (rs_0 _ _ _ _ _ R')) as (Hu' & _).
  pose proof (tb_k _ _ _ _ T0) as Hk. assert (4 <= 2 ^ k0) by (change 4 with (2 ^ 2); apply Z.pow_le_mono_r; lia).
  assert (2 ^ k0 <= n -> n * 10 < 2 ^ 31 -> ret = false /\ concat t0' = []) as Hcomplete.
  { intros Hn Hv. apply Hc; [|rewrite (swrap_id 32 (n * 10)) by (unfold in_s; lia)]; lia. }
  destruct ret.
  { exists d', 1. split; [done|]. split; [apply (dict_wf_perm d); [by eapply phase_of_state|by rewrite Ea|done]|].
    split; [by rewrite Ea|]. split; [done|]. split; [done|]. split; [done|]. intros Hn Hv. by destruct (Hcomplete Hn Hv). }
  rewrite Hu'. destruct (Z.eqb_spec (zlen (concat t0')) 0) as [Hz|Hz].
  - apply zlen_0_nil in Hz. rewrite Hz in Ep. cbn [app] in Ep. eexists _, 0. split; [done|].
    pose proof (rs_1 _ _ _ _ _ R') as T1'. set (d2 := mk_dict _ _ _ _).
    assert (all d2 ≡ₚ all d) as Ea2.
    { rewrite <- Ep. unfold all. cbn [d2 ht0 ht1]. by rewrite (table_entries _ _ _ _ T1'), app_nil_r. }
    split; [|by split_and!]. apply (dict_wf_perm d); [|done|done]. apply idle; [done|done|]. by eapply ht_table.
  - exists d', 1. split; [done|]. split; [apply (dict_wf_perm d); [by eapply phase_of_state|by rewrite Ea|done]|].
    split; [by rewrite Ea|]. split; [done|]. split; [done|]. split; [done|].
    intros Hn Hv. destruct (Hcomplete Hn Hv) as [_ Hnil]. by rewrite Hnil in Hz.
Qed.

Lemma rehash_step_ok d : dict_wf d ->
  exists d', (if dictIsRehashing d then _dictRehashStep d else Ok d) = Ok d' /\ dict_wf d' /\ all d' ≡ₚ all d.
Proof.
  intros W. destruct (dictIsRehashing d); [|by exists d]. unfold _dictRehashStep.
  destruct (iterators d =? 0); [|by exists d].
  destruct (dictRehash_ok d 1 W) as (d' & r & -> & W' & E & _). by exists d'.
Qed.

(** ** Resizing *)

Lemma next_power_ok fuel i k sz : i = 2 ^ k -> 2 <= k <= 30 -> sz <= 2 ^ 30 -> 30 - k < Z.of_nat fuel ->
  exists k', next_power fuel i sz = Ok (2 ^ k') /\ 2 <= k' <= 30 /\ sz <= 2 ^ k'.
Proof.
  revert i k. induction fuel as [|fuel IH]; intros i k -> Hk Hs Hf; [lia|]. cbn [next_power].
  destruct (Z.leb_spec sz (2 ^ k)); [by exists k|].
  assert (k < 30) by (destruct (decide (k = 30)) as [-> |]; lia).
  assert (2 ^ k * 2 = 2 ^ (k + 1)) as E by (rewrite Z.pow_add_r by lia; lia).
  assert (2 ^ (k + 1) <= 2 ^ 30) by (apply Z.pow_le_mono_r; lia).
  rewrite E, uwrap_id by (unfold in_u; lia). apply (IH _ (k + 1)); [done|lia|done|lia].
Qed.

Lemma _dictNextPower_ok sz : sz <= 2 ^ 30 ->
  exists k, _dictNextPower sz = Ok (2 ^ k) /\ 2 <= k <= 30 /\ sz <= 2 ^ k.
Proof.
  intros Hs. unfold _dictNextPower, LONG_MAX. rewrite (proj2 (Z.leb_gt _ _)) by lia.
  by apply (next_power_ok 64 4 2).
Qed.

Lemma concat_empties {A} n : concat (zrep n (@nil A)) = [].
Proof. unfold zrep. induction (Z.to_nat n); [done|]. done. Qed.

Lemma empty_table_ok k : 2 <= k <= 30 ->
  table_ok k (zlen (concat (zrep (2 ^ k) (@nil (dictEntry K V))))) (zrep (2 ^ k) [])
    (mk_ht (Some (zrep (2 ^ k) [])) (2 ^ k) (u64 (2 ^ k - 1)) 0).
Proof.
  intros Hk. assert (2 ^ k <= 2 ^ 30) by (apply Z.pow_le_mono_r; lia).
  constructor; [done| |rewrite zlen_zrep; lia|].
  - rewrite concat_empties, uwrap_id by (unfold in_u; lia). done.
  - intros i b e Hi He. unfold zrep in Hi. apply lookup_replicate in Hi as [-> _]. by apply not_elem_of_nil in He.
Qed.

Lemma dictExpand_ok d sz : phase d -> sz <= 2 ^ 30 ->
  exists d' r, dictExpand d sz = Ok (d', r) /\ phase d' /\ all d' = all d /\ iterators d' = iterators d /\
    (dictIsRehashing d = false -> used (ht0 d) <= sz -> size (ht0 d) < 4 \/ size (ht0 d) < sz -> r = DICT_OK) /\
    (r = DICT_OK -> exists k t, table_ok k (zlen (concat t)) t (ht0 d')).
Proof.
  intros P Hs. unfold dictExpand. destruct (_dictNextPower_ok sz Hs) as (k & -> & Hk & Hsk). cbn [mbind res_bind].
  destruct (dictIsRehashing d) eqn:Er; cbn [orb].
  { exists d, DICT_ERR. by split_and!. }
  destruct (Z.ltb_spec sz (used (ht0 d))).
  { exists d, DICT_ERR. split_and!; try done. intros. lia. }
  destruct (Z.eqb_spec (2 ^ k) (size (ht0 d))) as [Eq|Ne].
  { exists d, DICT_ERR. split_and!; try done. intros _ _ Hsz.
    assert (4 <= 2 ^ k) by (change 4 with (2 ^ 2); apply Z.pow_le_mono_r; lia). lia. }
  destruct P as [Hi H1 H0|k0 t0 k1 t1 T0 T1 Hi Hm]; [|by rewrite rehashing_true in Er by lia].
  pose proof (empty_table_ok k Hk) as Te. destruct H0 as [H0|k0 t0 T0].
  - rewrite H0. cbn [table _dictReset]. eexists _, DICT_OK. split; [done|]. split.
    { apply idle; [done|done|]. cbn [ht0 with_ht]. by eapply ht_table. }
    split; [|by split_and!; try done; intros _; eexists _, _; cbn; exact Te].
    unfold all. cbn [ht0 ht1 with_ht]. rewrite H1, H0. unfold entries. cbn [table _dictReset]. by rewrite concat_empties.
  - destruct (table_used _ _ _ _ T0) as (_ & _ & _ & ->). eexists _, DICT_OK. split; [done|]. split.
    { eapply rehashing; cbn [ht0 ht1 rehashidx with_ht with_rehashidx]; [exact T0|exact Te| |].
      - pose proof (tb_k _ _ _ _ T0). split; [lia|]. apply Z.pow_nonneg. lia.
      - intros j b _ Hj. lia. }
    split; [|by split_and!; try done; intros _; eexists _, _; cbn; exact T0].
    unfold all. cbn [ht0 ht1 with_ht with_rehashidx]. rewrite H1. unfold entries at 2. cbn [table]. by rewrite concat_empties.
Qed.

Lemma dictExpandIfNeeded_ok cr d : phase d -> zlen (all d) <= 2 ^ 29 ->
  exists d', _dictExpandIfNeeded cr d = Ok (d', DICT_OK) /\ phase d' /\ all d' = all d /\
    exists k t, table_ok k (zlen (concat t)) t (ht0 d').
Proof.
  intros P Hs. unfold _dictExpandIfNeeded. destruct (dictIsRehashing d) eqn:Er.
  { exists d. split; [done|]. split; [done|]. split; [done|].
    destruct P as [Hi H1 H0|k0 t0 k1 t1 T0 T1 Hi Hm]; [by rewrite idle_not_rehashing in Er|by exists k0, t0]. }
  destruct P as [Hi H1 H0|k0 t0 k1 t1 T0 T1 Hi Hm]; [|by rewrite rehashing_true in Er by lia].
  assert (phase d) as P by (by apply idle). destruct H0 as [H0|k t T].
  { rewrite H0. cbn [size _dictReset Z.eqb]. destruct (dictExpand_ok d DICT_HT_INITIAL_SIZE P) as (d' & r & E & P' & Ea & _ & Ok1 & Ok2); [done|].
    rewrite H0 in Ok1. cbn in Ok1. specialize (Ok1 Er ltac:(done) ltac:(by left)). subst r. exists d'. auto. }
  destruct (table_used _ _ _ _ T) as (Hu & Hsz & _). rewrite Hu, Hsz. pose proof (tb_k _ _ _ _ T).
  assert (4 <= 2 ^ k) by (change 4 with (2 ^ 2); apply Z.pow_le_mono_r; lia).
  assert (zlen (concat t) <= zlen (all d)) as Hz by (unfold all; rewrite (table_entries _ _ _ _ T); zl).
  rewrite (proj2 (Z.eqb_neq _ _)) by lia. destruct (Z.leb_spec (2 ^ k) (zlen (concat t))); cbn [andb].
  - destruct (_ || _); [|exists d; eauto 10]. rewrite uwrap_id by (unfold in_u; lia).
    destruct (dictExpand_ok d (zlen (concat t) * 2) P) as (d' & r & E & P' & Ea & _ & Ok1 & Ok2); [lia|].
    rewrite Hu, Hsz in Ok1. specialize (Ok1 Er ltac:(lia) ltac:(right; lia)). subst r. exists d'. auto.
  - exists d. eauto 10.
Qed.

(** ** Updates of one bucket *)

Lemma with_ht_same d tb h : ht (with_ht d tb h) tb = h /\ ht (with_ht d tb h) (negb tb) = ht d (negb tb) /\
  rehashidx (with_ht d tb h) = rehashidx d /\ iterators (with_ht d tb h) = iterators d.
Proof. by destruct tb. Qed.

Lemma all_ht d tb : all d ≡ₚ entries (ht d tb) ++ entries (ht d (negb tb)).
Proof. unfold all. destruct tb; cbn [ht negb]; [apply Permutation_app_comm|done]. Qed.

(** Replacing bucket [b] by [c] in table [tb]; during rehashing the moved buckets of
    the old table stay empty. *)
Lemma update_ok d tb k t i b c :
  phase d -> table_ok k (zlen (concat t)) t (ht d tb) -> t !! Z.to_nat i = Some b -> 0 <= i ->
  (forall e, e ∈ c -> hash32 (ekey e) mod 2 ^ k = i) ->
  (tb = false -> dictIsRehashing d = true -> b = [] -> c = []) ->
  exists h rest, set_bucket (ht d tb) i c = Ok h /\ used h = used (ht d tb) /\
    all d ≡ₚ b ++ rest /\
    let d' := with_ht d tb (with_used h (used (ht d tb) + zlen c - zlen b)) in
    phase d' /\ all d' ≡ₚ c ++ rest /\
    table_ok k (zlen (concat (<[Z.to_nat i := c]> t))) (<[Z.to_nat i := c]> t) (ht d' tb).
Proof.
  intros P T Hb Hi Hc Hm. destruct (set_bucket_ok _ _ _ _ i b c T Hb Hi Hc) as (h & -> & Th).
  set (t' := <[Z.to_nat i := c]> t) in *. set (r0 := concat (<[Z.to_nat i := []]> t)).
  assert (concat t ≡ₚ b ++ r0) as E1 by (by apply concat_split).
  assert (concat t' ≡ₚ c ++ r0) as E2 by (by eapply concat_insert).
  destruct (table_used _ _ _ _ T) as (Hu & _). destruct (table_used _ _ _ _ Th) as (Hu' & _).
  exists h, (r0 ++ entries (ht d (negb tb))). split; [done|]. split; [congruence|].
  split. { rewrite (all_ht d tb), (table_entries _ _ _ _ T), E1. by rewrite app_assoc. }
  assert (used (ht d tb) + zlen c - zlen b = zlen (concat t')) as Hz.
  { rewrite Hu, (zlen_perm _ _ E1), (zlen_perm _ _ E2), !zlen_app. lia. }
  rewrite Hz. intros d'. assert (table_ok k (zlen (concat t')) t' (ht d' tb)) as T'.
  { subst d'. destruct (with_ht_same d tb (with_used h (zlen (concat t')))) as (-> & _). by eapply with_used_ok. }
  destruct (with_ht_same d tb (with_used h (zlen (concat t')))) as (_ & Ho & Hr & _). fold d' in Ho, Hr.
  split; [|split; [rewrite (all_ht d' tb), (table_entries _ _ _ _ T'), Ho, E2; by rewrite app_assoc|done]].
  destruct P as [Hid H1 H0|k0 t0 k1 t1 T0 T1 Hid Hmv].
  - destruct tb; [cbn [ht] in T; rewrite H1 in T; by destruct T as [_ [=] _ _]|].
    apply idle; [by rewrite Hr|done|]. by eapply ht_table.
  - destruct tb; cbn [ht negb] in *.
    + eapply rehashing; [by rewrite Ho|exact T'|by rewrite Hr|by rewrite Hr].
    + assert (t0 = t) as -> by (destruct T0 as [_ E0 _ _], T as [_ E3 _ _]; congruence).
      assert (k0 = k) as -> by (destruct T0 as [? E0 _ _], T as [? E3 _ _]; rewrite E0 in E3; injection E3 as E3 _;
        apply Z.pow_inj_r in E3; lia).
      eapply rehashing; [exact T'|by rewrite Ho|by rewrite Hr|]. rewrite Hr. intros j b' Hj Hlj. subst t'.
      destruct (decide (j = Z.to_nat i)) as [-> |Hne].
      * rewrite list_lookup_insert_eq in Hj by (by eapply lookup_lt_Some). injection Hj as <-.
        apply Hm; [done|apply rehashing_true; lia|]. by apply (Hmv _ b Hb).
      * rewrite list_lookup_insert_ne in Hj by done. by apply (Hmv j b').
Qed.

(** A reference to the entry [e]. *)
Record ref_ok d (r : entry_ref) e : Prop := {
  rf_table : exists k t a b, table_ok k (zlen (concat t)) t (ht d (rtable r)) /\
    t !! Z.to_nat (rindex r) = Some (a ++ e :: b) /\ 0 <= rindex r /\ rpos r = length a }.

Lemma deref_ok d r e : ref_ok d r e -> deref d r = Ok e.
Proof.
  intros [(k & t & a & b & T & Hb & Hi & Hp)]. unfold deref. rewrite (bucket_lookup _ _ _ _ _ _ T Hb Hi).
  cbn [mbind res_bind]. by rewrite Hp, list_lookup_middle.
Qed.

Lemma ref_in d r e : ref_ok d r e -> e ∈ all d.
Proof.
  intros [(k & t & a & b & T & Hb & Hi & Hp)]. rewrite (all_ht d (rtable r)), (table_entries _ _ _ _ T).
  rewrite (concat_split _ _ _ Hb), !elem_of_app, elem_of_cons. tauto.
Qed.

Lemma dictSetVal_ok d r e val : phase d -> ref_ok d r e -> zlen (all d) < 2 ^ 40 ->
  exists d' rest, dictSetVal d r val = Ok d' /\ phase d' /\ all d ≡ₚ e :: rest /\
    all d' ≡ₚ mk_entry (ekey e) val :: rest /\ iterators d' = iterators d.
Proof.
  intros P R Hs. unfold dictSetVal. rewrite (deref_ok d r e R). cbn [mbind res_bind].
  destruct R as [(k & t & a & b & T & Hb & Hi & Hp)]. rewrite (bucket_lookup _ _ _ _ _ _ T Hb Hi). cbn [mbind res_bind].
  rewrite Hp, insert_app_r_alt, Nat.sub_diag by done. cbn [insert list_insert].
  destruct (update_ok d (rtable r) k t (rindex r) _ (a ++ mk_entry (ekey e) val :: b) P T Hb Hi)
    as (h & rest & -> & Hu & E1 & P' & E2 & _).
  - intros e' He'. assert (exists e0, e0 ∈ a ++ e :: b /\ ekey e0 = ekey e') as (e0 & He0 & <-).
    { rewrite elem_of_app, elem_of_cons in He'. destruct He' as [?|[-> |?]]; [exists e'|exists e|exists e'];
        rewrite ?elem_of_app, ?elem_of_cons; tauto. }
    rewrite (tb_placed _ _ _ _ T _ _ _ Hb He0). lia.
  - intros _ _ Hn. by destruct a.
  - cbn [mbind res_bind]. eexists _, (a ++ b ++ rest). split; [done|].
    assert (with_used h (used (ht d (rtable r)) + zlen (a ++ mk_entry (ekey e) val :: b) - zlen (a ++ e :: b)) = h) as Eh.
    { rewrite !zlen_app, !zlen_cons, <- Hu. destruct h; unfold with_used; cbn. f_equal. lia. }
    rewrite Eh in P', E2. split; [done|]. split; [rewrite E1, <- app_assoc; symmetry; apply Permutation_middle|].
    split; [rewrite E2, <- app_assoc; symmetry; apply Permutation_middle|].
    by destruct (with_ht_same d (rtable r) h) as (_ & _ & _ & ?).
Qed.

(** ** The search over both tables *)

Lemma find_ref d tb key k t r : phase d -> table_ok k (zlen (concat t)) t (ht d tb) ->
  find_in d tb key = Ok (Some r) -> exists e, ref_ok d r e /\ ekey e = key.
Proof.
  intros P T E. destruct (find_in_ok d tb key _ _ _ T) as (r' & E' & Hr). rewrite E in E'. injection E' as <-.
  destruct Hr as (Ht & Hx & a & e & b & Hb & Hp & Hk). exists e. split; [|done]. constructor.
  exists k, t, a, b. rewrite Ht, Hx. split; [done|]. split; [done|]. split; [|done].
  apply hash_index_range. pose proof (tb_k _ _ _ _ T). lia.
Qed.

(** Both rounds of the search, as the callers run it. *)
Lemma search_ok d key k t : phase d -> table_ok k (zlen (concat t)) t (ht0 d) ->
  exists r0, find_in d false key = Ok r0 /\
  match r0 with
  | Some r => exists e, ref_ok d r e /\ ekey e = key
  | None => if dictIsRehashing d then
      exists r1, find_in d true key = Ok r1 /\
      match r1 with
      | Some r => exists e, ref_ok d r e /\ ekey e = key
      | None => forall e, e ∈ all d -> ekey e <> key
      end
    else forall e, e ∈ all d -> ekey e <> key
  end.
Proof.
  intros P T. destruct (find_in_ok d false key _ _ _ T) as (r0 & E0 & H0). exists r0. split; [done|].
  destruct r0 as [r|]; [by eapply (find_ref d false)|].
  pose proof P as [Hi H1 _|k0 t0 k1 t1 T0 T1 Hi Hm].
  - rewrite idle_not_rehashing by done. intros e He. unfold all in He. rewrite H1, (table_entries _ _ _ _ T), app_nil_r in He. by apply H0.
  - rewrite rehashing_true by lia. destruct (find_in_ok d true key _ _ _ T1) as (r1 & E1 & H2). exists r1. split; [done|].
    destruct r1 as [r|]; [by eapply (find_ref d true)|]. intros e He. unfold all in He.
    rewrite (table_entries _ _ _ _ T), (table_entries _ _ _ _ T1), elem_of_app in He. destruct He; [by apply H0|by apply H2].
Qed.

(** What a key denotes in a dictionary. *)
Definition holds d (key : K) (v : option V) : Prop :=
  match v with
  | Some v => mk_entry key v ∈ all d
  | None => forall e, e ∈ all d -> ekey e <> key
  end.

Lemma used_zero d : phase d -> zlen (all d) < 2 ^ 40 ->
  used (ht0 d) + used (ht1 d) = zlen (all d) /\ 0 <= used (ht0 d) /\ 0 <= used (ht1 d) /\
  (table (ht0 d) = None -> all d = []).
Proof.
  intros P Hs. unfold all. destruct P as [Hi H1 H0|k0 t0 k1 t1 T0 T1 Hi Hm].
  - rewrite H1. cbn [used _dictReset]. destruct H0 as [H0|k t T].
    + rewrite H0. by split_and!.
    + destruct (table_used _ _ _ _ T) as (-> & _ & _ & ->). rewrite (table_entries _ _ _ _ T). cbn. rewrite app_nil_r.
      split_and!; [lia|apply zlen_nonneg|lia|done].
  - destruct (table_used _ _ _ _ T0) as (-> & _ & _ & ->). destruct (table_used _ _ _ _ T1) as (-> & _).
    rewrite (table_entries _ _ _ _ T0), (table_entries _ _ _ _ T1), zlen_app.
    split_and!; [lia|apply zlen_nonneg|apply zlen_nonneg|done].
Qed.

Lemma phase_table d : phase d -> all d <> [] -> zlen (all d) < 2 ^ 40 -> exists k t, table_ok k (zlen (concat t)) t (ht0 d).
Proof.
  intros P Hn Hs. destruct (used_zero d P Hs) as (_ & _ & _ & Hz). destruct P as [Hi H1 H0|k0 t0 k1 t1 T0 T1 Hi Hm]; [|by exists k0, t0].
  destruct H0 as [H0|k t T]; [rewrite H0 in Hz; by destruct Hn; apply Hz|by exists k, t].
Qed.

Lemma perm_nonempty d d' : all d' ≡ₚ all d -> all d <> [] -> all d' <> [].
Proof. intros E Hn Hz. rewrite Hz in E. by apply Permutation_nil_l in E. Qed.

Lemma dictFind_ok d key : dict_wf d ->
  exists d' r, dictFind d key = Ok (d', r) /\ dict_wf d' /\ all d' ≡ₚ all d /\
  match r with
  | Some r => exists e, ref_ok d' r e /\ ekey e = key
  | None => forall e, e ∈ all d -> ekey e <> key
  end.
Proof.
  intros W. pose proof W as [P N S]. unfold dictFind. destruct (used_zero d P S) as (Hu & _). rewrite Hu.
  pose proof (zlen_nonneg (all d)). rewrite uwrap_id by (unfold in_u; lia).
  destruct (Z.eqb_spec (zlen (all d)) 0) as [Hz|Hz].
  { exists d, None. split; [done|]. split; [done|]. split; [done|]. apply zlen_0_nil in Hz. rewrite Hz. intros e He. by apply not_elem_of_nil in He. }
  destruct (rehash_step_ok d W) as (d1 & -> & W1 & E1). cbn [mbind res_bind].
  assert (all d1 <> []) as Hn by (apply (perm_nonempty d); [done|]; intros Hnil; by rewrite Hnil in Hz).
  destruct (phase_table d1 (wf_phase _ W1) Hn (wf_small _ W1)) as (k & t & T).
  destruct (search_ok d1 key k t (wf_phase _ W1) T) as (r0 & -> & H0). cbn [mbind res_bind].
  assert ((forall e, e ∈ all d1 -> ekey e <> key) -> forall e, e ∈ all d -> ekey e <> key) as Ht
    by (intros Ha e He; apply Ha; by rewrite E1).
  destruct r0 as [r|]; [by exists d1, (Some r)|].
  destruct (dictIsRehashing d1); cbn [negb].
  - destruct H0 as (r1 & -> & H1). cbn [mbind res_bind]. exists d1, r1. split; [done|]. split; [done|]. split; [done|].
    destruct r1; [done|auto].
  - exists d1, None. auto.
Qed.

(** ** Insertion *)

Lemma add_entry_ok d key junk k t tb : dict_wf d -> zlen (all d) < 2 ^ 29 ->
  tb = dictIsRehashing d -> table_ok k (zlen (concat t)) t (ht d tb) ->
  (forall e, e ∈ all d -> ekey e <> key) ->
  let index := hash32 key mod 2 ^ k in
  exists d', (b ← bucket (ht d tb) index; h ← set_bucket (ht d tb) index (mk_entry key junk :: b);
     Ok (with_ht d tb (with_used h (u64 (used h + 1))))) = Ok d' /\
    dict_wf d' /\ all d' ≡ₚ mk_entry key junk :: all d /\ ref_ok d' (mk_ref tb index 0) (mk_entry key junk).
Proof.
  intros W Hs Etb T Hno index. pose proof W as [P N S]. pose proof (tb_k _ _ _ _ T) as Hk.
  pose proof (hash_index_range k key ltac:(lia)) as Hi. fold index in Hi.
  destruct (bucket_in _ _ _ _ index T Hi) as (b & Hb & ->). cbn [mbind res_bind].
  destruct (update_ok d tb k t index b (mk_entry key junk :: b) P T Hb) as (h & rest & -> & Hu & E1 & P' & E2 & T').
  - lia.
  - intros e [-> |He]%elem_of_cons; [done|]. rewrite (tb_placed _ _ _ _ T _ _ _ Hb He). lia.
  - intros -> Hr. by rewrite Hr in Etb.
  - cbn [mbind res_bind]. set (d' := with_ht d tb (with_used h (u64 (used h + 1)))).
    assert (d' = with_ht d tb (with_used h (used (ht d tb) + zlen (mk_entry key junk :: b) - zlen b))) as Ed.
    { subst d'. f_equal. f_equal. rewrite Hu. destruct (table_used _ _ _ _ T) as (-> & _). rewrite zlen_cons.
      assert (zlen (concat t) <= zlen (all d)) by (rewrite (zlen_perm _ _ (all_ht d tb)), (table_entries _ _ _ _ T); zl).
      pose proof (zlen_nonneg (concat t)). rewrite uwrap_id by (unfold in_u; lia). lia. }
    rewrite <- Ed in P', E2, T'. assert (all d' ≡ₚ mk_entry key junk :: all d) as Ea by (by rewrite E2, E1).
    exists d'. split; [done|]. split.
    + constructor; [done| |rewrite (zlen_perm _ _ Ea), zlen_cons; lia].
      eapply (NoDup_Permutation_proper _ _); [by apply Permutation_map, Ea|]. cbn [map ekey]. apply list.NoDup_cons. split; [|done].
      intros Hin. apply list_elem_of_In, in_map_iff in Hin as (e & He1 & He2%list_elem_of_In). by apply (Hno e).
    + split; [done|]. constructor. eexists k, _, [], b. cbn [rtable rindex rpos]. split; [done|].
      rewrite list_lookup_insert_eq by (by eapply lookup_lt_Some). split; [done|]. split; [lia|done].
Qed.

Lemma dictKeyIndex_ok cr d key : dict_wf d -> zlen (all d) < 2 ^ 29 ->
  exists d' index ex, dict_wf d' /\ all d' = all d /\ _dictKeyIndex cr d key = Ok (d', index, ex) /\
  match ex with
  | None => exists k t, table_ok k (zlen (concat t)) t (ht d' (dictIsRehashing d')) /\
      index = hash32 key mod 2 ^ k /\ 0 <= index /\ (forall e, e ∈ all d -> ekey e <> key)
  | Some r => index = -1 /\ exists e, ref_ok d' r e /\ ekey e = key
  end.
Proof.
  intros W Hs. pose proof W as [P N S]. unfold _dictKeyIndex.
  destruct (dictExpandIfNeeded_ok cr d P ltac:(lia)) as (d1 & -> & P1 & Ea & k & t & T). cbn [mbind res_bind].
  change (DICT_OK =? DICT_ERR) with false. cbn match. assert (dict_wf d1) as W1 by (constructor; by rewrite ?Ea).
  assert (forall k t tb, table_ok k (zlen (concat t)) t (ht d1 tb) ->
    i32 (Z.land (hash32 key) (sizemask (ht d1 tb))) = hash32 key mod 2 ^ k /\ 0 <= hash32 key mod 2 ^ k) as Hidx.
  { intros k' t' tb T'. destruct (table_used _ _ _ _ T') as (_ & _ & -> & _). pose proof (tb_k _ _ _ _ T') as Hk'.
    assert (2 ^ k' <= 2 ^ 30) by (apply Z.pow_le_mono_r; lia). pose proof (hash_index_range k' key ltac:(lia)).
    rewrite land_mask, swrap_id by (unfold in_s; lia). lia. }
  destruct (search_ok d1 key k t P1 T) as (r0 & -> & H0). cbn [mbind res_bind].
  destruct r0 as [r|]; [by exists d1, (-1), (Some r)|].
  destruct (dictIsRehashing d1) eqn:Er; cbn [negb].
  - destruct H0 as (r1 & -> & H1). cbn [mbind res_bind]. destruct r1 as [r|]; [by exists d1, (-1), (Some r)|].
    destruct P1 as [Hi _ _|k0 t0 k1 t1 T0 T1 Hi Hm]; [by rewrite idle_not_rehashing in Er|].
    destruct (Hidx _ _ true T1) as [E Hge]. cbn [ht] in E. rewrite E. exists d1, (hash32 key mod 2 ^ k1), None.
    split; [done|]. split; [done|]. split; [done|]. exists k1, t1. rewrite Er. split; [done|]. split; [done|].
    split; [done|]. by rewrite <- Ea.
  - destruct (Hidx _ _ false T) as [E Hge]. cbn [ht] in E. rewrite E. exists d1, (hash32 key mod 2 ^ k), None.
    split; [done|]. split; [done|]. split; [done|]. exists k, t. rewrite Er. split; [done|]. split; [done|].
    split; [done|]. by rewrite <- Ea.
Qed.

Lemma dictAddRaw_ok cr d key junk : dict_wf d -> zlen (all d) < 2 ^ 29 ->
  exists d' entry existing, dictAddRaw cr d key junk = Ok (d', entry, existing) /\ dict_wf d' /\
  match entry with
  | Some r => (forall e, e ∈ all d -> ekey e <> key) /\ all d' ≡ₚ mk_entry key junk :: all d /\
      ref_ok d' r (mk_entry key junk)
  | None => all d' ≡ₚ all d /\ exists r e, existing = Some r /\ ref_ok d' r e /\ ekey e = key
  end.
Proof.
  intros W Hs. unfold dictAddRaw. destruct (rehash_step_ok d W) as (d1 & -> & W1 & E1). cbn [mbind res_bind].
  assert (zlen (all d1) < 2 ^ 29) as Hs1 by (by rewrite (zlen_perm _ _ E1)).
  destruct (dictKeyIndex_ok cr d1 key W1 Hs1) as (d2 & index & ex & W2 & Ea & -> & Hr). cbn [mbind res_bind].
  destruct ex as [r|].
  - destruct Hr as (-> & e & R & Hk). cbn [Z.eqb Pos.eqb]. exists d2, None, (Some r). split; [done|]. split; [done|].
    split; [by rewrite Ea|]. by exists r, e.
  - destruct Hr as (k & t & T & -> & Hge & Hno). rewrite (proj2 (Z.eqb_neq _ _)) by lia.
    destruct (add_entry_ok d2 key junk k t _ W2 ltac:(by rewrite Ea) eq_refl T) as (d3 & E & W3 & Ea3 & R).
    { by rewrite Ea. }
    apply res_bind_inv in E as (b & -> & E). cbn [mbind res_bind]. apply res_bind_inv in E as (h & -> & <-%Ok_inj).
    cbn [mbind res_bind]. eexists _, _, None. split; [done|]. split; [done|].
    split; [intros e He; apply Hno; by rewrite E1|]. split; [by rewrite Ea3, Ea, E1|done].
Qed.

(** ** Deletion *)

Lemma delete_in_ok d tb key k t : dict_wf d -> table_ok k (zlen (concat t)) t (ht d tb) ->
  exists r, delete_in d tb key = Ok r /\
  match r with
  | Some (d', he) => dict_wf d' /\ all d ≡ₚ he :: all d' /\ ekey he = key
  | None => forall e, e ∈ concat t -> ekey e <> key
  end.
Proof.
  intros W T. pose proof W as [P N S]. unfold delete_in. destruct (table_used _ _ _ _ T) as (Hu0 & _ & -> & _).
  pose proof (tb_k _ _ _ _ T). rewrite land_mask by lia. set (i := hash32 key mod 2 ^ k).
  pose proof (hash_index_range k key ltac:(lia)) as Hi. fold i in Hi.
  destruct (bucket_in _ _ _ _ i T Hi) as (b & Hb & ->). cbn [mbind res_bind].
  pose proof (chain_find_spec key b 0) as Hs. destruct (chain_find key b 0) as [p|].
  2:{ exists None. split; [done|]. intros e He Hk. apply (Hs e); [|done]. by eapply placed_elsewhere. }
  destruct Hs as (a & e & c & -> & -> & Hk). rewrite Nat.add_0_l, list_lookup_middle by done.
  rewrite delete_middle. destruct (update_ok d tb k t i _ (a ++ c) P T Hb) as (h & rest & -> & Hu & E1 & P' & E2 & _).
  - lia.
  - intros e' He'. assert (e' ∈ a ++ e :: c) as Hin by (rewrite elem_of_app in He'; rewrite elem_of_app, elem_of_cons; tauto).
    rewrite (tb_placed _ _ _ _ T _ _ _ Hb Hin). lia.
  - intros _ _ Hn. by destruct a.
  - cbn [mbind res_bind]. eexists. split; [done|]. cbn match.
    assert (u64 (used h - 1) = used (ht d tb) + zlen (a ++ c) - zlen (a ++ e :: c)) as ->.
    { rewrite Hu, Hu0, !zlen_app, zlen_cons. pose proof (zlen_perm _ _ (concat_split _ _ _ Hb)) as Hz.
      rewrite !zlen_app, zlen_cons in Hz.
      assert (zlen (concat t) <= zlen (all d)) by (rewrite (zlen_perm _ _ (all_ht d tb)), (table_entries _ _ _ _ T); zl).
      rewrite uwrap_id by (unfold in_u; zl). lia. }
    set (d' := with_ht _ _ _) in *. assert (all d ≡ₚ e :: all d') as Ea.
    { rewrite E1, E2, <- !app_assoc. cbn. symmetry. apply Permutation_middle. }
    split; [|by split]. constructor; [done| |apply zlen_perm in Ea; rewrite zlen_cons in Ea; lia].
    eapply (NoDup_Permutation_proper _ _) in N; [|symmetry; apply Permutation_map, Ea]. by apply list.NoDup_cons in N as [_ ?].
Qed.

Lemma dictGenericDelete_ok d key : dict_wf d ->
  exists d' r, dictGenericDelete d key = Ok (d', r) /\ dict_wf d' /\
  match r with
  | Some he => all d ≡ₚ he :: all d' /\ ekey he = key
  | None => all d' ≡ₚ all d /\ (forall e, e ∈ all d -> ekey e <> key)
  end.
Proof.
  intros W. pose proof W as [P N S]. unfold dictGenericDelete. destruct (used_zero d P S) as (Hu & Hu0 & Hu1 & _).
  assert ((used (ht0 d) =? 0) && (used (ht1 d) =? 0) = (zlen (all d) =? 0)) as ->.
  { rewrite <- Hu. lia. }
  destruct (Z.eqb_spec (zlen (all d)) 0) as [Hz|Hz].
  { exists d, None. split; [done|]. split; [done|]. split; [done|]. apply zlen_0_nil in Hz. rewrite Hz. intros e He. by apply not_elem_of_nil in He. }
  destruct (rehash_step_ok d W) as (d1 & -> & W1 & E1). cbn [mbind res_bind].
  assert (all d1 <> []) as Hn by (apply (perm_nonempty d); [done|]; intros Hnil; by rewrite Hnil in Hz).
  destruct (phase_table d1 (wf_phase _ W1) Hn (wf_small _ W1)) as (k & t & T).
  destruct (delete_in_ok d1 false key k t W1 T) as (r0 & -> & H0). cbn [mbind res_bind].
  destruct r0 as [[d2 he]|].
  { destruct H0 as (W2 & Ea & Hk). exists d2, (Some he). split; [done|]. split; [done|]. split; [by rewrite <- E1|done]. }
  pose proof (wf_phase _ W1) as [Hi H1 _|k0 t0 k1 t1 T0 T1 Hi Hm].
  - rewrite idle_not_rehashing by done. cbn [negb]. exists d1, None. split; [done|]. split; [done|]. split; [done|].
    intros e He. rewrite <- E1 in He. unfold all in He. rewrite H1, (table_entries _ _ _ _ T), app_nil_r in He. by apply H0.
  - rewrite rehashing_true by lia. cbn [negb]. destruct (delete_in_ok d1 true key k1 t1 W1 T1) as (r1 & -> & H2).
    cbn [mbind res_bind]. destruct r1 as [[d2 he]|].
    + destruct H2 as (W2 & Ea & Hk). exists d2, (Some he). split; [done|]. split; [done|]. split; [by rewrite <- E1|done].
    + exists d1, None. split; [done|]. split; [done|]. split; [done|]. intros e He. rewrite <- E1 in He. unfold all in He.
      rewrite (table_entries _ _ _ _ T), (table_entries _ _ _ _ T1), elem_of_app in He. destruct He; [by apply H0|by apply H2].
Qed.
End Invariant.

(** ** Refinement of finite maps *)

Section Refinement.
Context {K V : Type} {HT : dictType K} {HL : dictTypeLaws K} `{Countable K} (junk : V).
Implicit Types (d : dict K V) (e : dictEntry K V).

Definition map_of (l : list (dictEntry K V)) : gmap K V :=
  list_to_map (map (fun e => (ekey e, evalue e)) l).

(** The finite map a dictionary stands for. *)
Definition dict_map d : gmap K V := map_of (all d).

Lemma map_keys (l : list (dictEntry K V)) : (map (fun e => (ekey e, evalue e)) l).*1 = map ekey l.
Proof. induction l as [|e l IH]; [done|]. cbn. by f_equal. Qed.

Lemma map_of_perm l k : NoDup (map ekey l) -> l ≡ₚ k -> map_of l = map_of k.
Proof.
  intros N E. unfold map_of. apply list_to_map_proper; [by rewrite map_keys|]. by apply Permutation_map.
Qed.

Lemma map_of_none l key : (forall e, e ∈ l -> ekey e <> key) <-> map_of l !! key = None.
Proof.
  unfold map_of. rewrite <- not_elem_of_list_to_map, map_keys. split.
  - intros Hn Hin. apply list_elem_of_In, in_map_iff in Hin as (e & He & Hi%list_elem_of_In). by apply (Hn e).
  - intros Hn e He Hk. apply Hn, list_elem_of_In, in_map_iff. exists e. split; [done|]. by apply list_elem_of_In.
Qed.

Lemma dict_map_cons d e l : dict_wf d -> all d ≡ₚ e :: l ->
  dict_map d = <[ekey e := evalue e]> (map_of l) /\ map_of l !! ekey e = None.
Proof.
  intros W E. pose proof (wf_nodup _ W) as N. split; [unfold dict_map; by rewrite (map_of_perm _ _ N E)|].
  eapply (NoDup_Permutation_proper _ _) in N; [|symmetry; apply Permutation_map, E].
  apply list.NoDup_cons in N as [N _]. apply map_of_none. intros e' He' Hk. apply N, list_elem_of_In, in_map_iff.
  exists e'. split; [done|]. by apply list_elem_of_In.
Qed.

Lemma dict_map_in d e : dict_wf d -> e ∈ all d -> dict_map d !! ekey e = Some (evalue e).
Proof.
  intros W He. apply elem_of_Permutation in He as [l E]. destruct (dict_map_cons d e l W E) as [-> _].
  apply lookup_insert_eq.
Qed.

Lemma dict_map_perm d d' : dict_wf d' -> all d' ≡ₚ all d -> dict_map d' = dict_map d.
Proof. intros W E. apply map_of_perm; [apply W|done]. Qed.

(** Setting the value of an entry. *)
Lemma set_val_ok d r e val : dict_wf d -> ref_ok d r e ->
  exists d', dictSetVal d r val = Ok d' /\ dict_wf d' /\ dict_map d' = <[ekey e := val]> (dict_map d) /\
    zlen (all d') = zlen (all d).
Proof.
  intros W R. pose proof W as [P N S]. destruct (dictSetVal_ok d r e val P R S) as (d' & rest & E & P' & E1 & E2 & _).
  assert (dict_wf d') as W'.
  { constructor; [done| |rewrite (zlen_perm _ _ E2); rewrite (zlen_perm _ _ E1) in S; by rewrite !zlen_cons in *].
    eapply (NoDup_Permutation_proper _ _); [apply Permutation_map, E2|].
    eapply (NoDup_Permutation_proper _ _) in N; [|symmetry; apply Permutation_map, E1]. done. }
  exists d'. split; [done|]. split; [done|]. destruct (dict_map_cons d e rest W E1) as [-> _].
  destruct (dict_map_cons d' _ rest W' E2) as [-> _]. cbn [ekey evalue].
  split; [by rewrite insert_insert_eq|]. by rewrite (zlen_perm _ _ E1), (zlen_perm _ _ E2), !zlen_cons.
Qed.

Lemma dictAdd_ok cr d key val : dict_wf d -> zlen (all d) < 2 ^ 29 ->
  exists d' r, dictAdd cr d key val junk = Ok (d', r) /\ dict_wf d' /\ zlen (all d') <= zlen (all d) + 1 /\
  match dict_map d !! key with
  | None => r = DICT_OK /\ dict_map d' = <[key := val]> (dict_map d)
  | Some _ => r = DICT_ERR /\ dict_map d' = dict_map d
  end.
Proof.
  intros W Hs. unfold dictAdd. destruct (dictAddRaw_ok cr d key junk W Hs) as (d1 & entry & ex & -> & W1 & Hr).
  cbn [mbind res_bind]. destruct entry as [r|].
  - destruct Hr as (Hno & E & R). destruct (set_val_ok d1 r _ val W1 R) as (d2 & -> & W2 & Em & Hz). cbn [mbind res_bind].
    exists d2, DICT_OK. split; [done|]. split; [done|]. split; [rewrite Hz, (zlen_perm _ _ E), zlen_cons; lia|].
    apply map_of_none in Hno. fold (dict_map d) in Hno. rewrite Hno. split; [done|]. rewrite Em.
    destruct (dict_map_cons d1 _ _ W1 E) as [-> _]. cbn [ekey evalue]. by rewrite insert_insert_eq.
  - destruct Hr as (E & r & e & -> & R & Hk). exists d1, DICT_ERR. split; [done|]. split; [done|].
    split; [rewrite (zlen_perm _ _ E); lia|]. rewrite <- (dict_map_perm d d1 W1 E).
    rewrite <- Hk, (dict_map_in d1 e W1 (ref_in _ _ _ R)). done.
Qed.

Lemma dictReplace_ok cr d key val : dict_wf d -> zlen (all d) < 2 ^ 29 ->
  exists d' r, dictReplace cr d key val junk = Ok (d', r) /\ dict_wf d' /\ zlen (all d') <= zlen (all d) + 1 /\
    dict_map d' = <[key := val]> (dict_map d) /\
    r = match dict_map d !! key with None => 1 | Some _ => 0 end.
Proof.
  intros W Hs. unfold dictReplace. destruct (dictAddRaw_ok cr d key junk W Hs) as (d1 & entry & ex & -> & W1 & Hr).
  cbn [mbind res_bind]. destruct entry as [r|].
  - destruct Hr as (Hno & E & R). destruct (set_val_ok d1 r _ val W1 R) as (d2 & -> & W2 & Em & Hz). cbn [mbind res_bind].
    exists d2, 1. split; [done|]. split; [done|]. split; [rewrite Hz, (zlen_perm _ _ E), zlen_cons; lia|].
    apply map_of_none in Hno. fold (dict_map d) in Hno. rewrite Hno. split; [|done]. rewrite Em.
    destruct (dict_map_cons d1 _ _ W1 E) as [-> _]. cbn [ekey evalue]. by rewrite insert_insert_eq.
  - destruct Hr as (E & r & e & -> & R & Hk). destruct (set_val_ok d1 r e val W1 R) as (d2 & -> & W2 & Em & Hz).
    cbn [mbind res_bind]. exists d2, 0. split; [done|]. split; [done|]. split; [rewrite Hz, (zlen_perm _ _ E); lia|].
    rewrite <- (dict_map_perm d d1 W1 E), <- Hk, (dict_map_in d1 e W1 (ref_in _ _ _ R)). done.
Qed.

Lemma dictDelete_ok d key : dict_wf d ->
  exists d' r, dictDelete d key = Ok (d', r) /\ dict_wf d' /\ zlen (all d') <= zlen (all d) /\
    dict_map d' = delete key (dict_map d) /\
    r = match dict_map d !! key with Some _ => DICT_OK | None => DICT_ERR end.
Proof.
  intros W. unfold dictDelete. destruct (dictGenericDelete_ok d key W) as (d' & r & -> & W' & Hr). cbn [mbind res_bind].
  destruct r as [he|]; eexists _, _; (split; [done|]); (split; [done|]).
  - destruct Hr as [E <-]. destruct (dict_map_cons d he _ W E) as [Em Hn]. rewrite Em. split.
    { rewrite (zlen_perm _ _ E), zlen_cons. lia. }
    rewrite lookup_insert_eq, delete_insert_eq, delete_id by done. done.
  - destruct Hr as [E Hno]. split; [rewrite (zlen_perm _ _ E); lia|]. apply map_of_none in Hno. fold (dict_map d) in Hno.
    rewrite Hno, delete_id by done. by rewrite (dict_map_perm d d' W' E).
Qed.

Lemma dictFetchValue_ok d key : dict_wf d ->
  exists d', dictFetchValue d key = Ok (d', dict_map d !! key) /\ dict_wf d' /\ all d' ≡ₚ all d.
Proof.
  intros W. unfold dictFetchValue. destruct (dictFind_ok d key W) as (d' & r & -> & W' & E & Hr). cbn [mbind res_bind].
  exists d'. destruct r as [r|].
  - destruct Hr as (e & R & Hk). rewrite (deref_ok _ _ _ R). cbn [mbind res_bind].
    rewrite <- (dict_map_perm d d' W' E), <- Hk, (dict_map_in d' e W' (ref_in _ _ _ R)). done.
  - apply map_of_none in Hr. fold (dict_map d) in Hr. by rewrite Hr.
Qed.

Lemma dictResize_ok cr d : dict_wf d -> zlen (all d) < 2 ^ 29 ->
  exists d' r, dictResize cr d = Ok (d', r) /\ dict_wf d' /\ all d' = all d.
Proof.
  intros W Hs. pose proof W as [P N S]. unfold dictResize. destruct (_ || _); [by exists d, DICT_ERR|].
  destruct (used_zero d P S) as (Hu & H0 & H1 & _). rewrite swrap_id by (unfold in_s; lia).
  set (m := if _ <? _ then _ else _). assert (0 <= m <= 2 ^ 30) as Hm.
  { subst m. unfold DICT_HT_INITIAL_SIZE. case_match; lia. }
  rewrite uwrap_id by (unfold in_u; lia). destruct (dictExpand_ok d m P ltac:(lia)) as (d' & r & -> & P' & Ea & _).
  exists d', r. split; [done|]. split; [|done]. constructor; by rewrite ?Ea.
Qed.

(** ** Histories *)

Inductive op := Add (k : K) (v : V) | Replace (k : K) (v : V) | Delete (k : K) | Fetch (k : K)
  | Rehash (n : Z) | Resize | Expand (sz : Z) | SetResize (b : bool).
Inductive outcome := Code (z : Z) | Value (v : option V) | Quiet.

(** One call; the flag is the global [dict_can_resize]. *)
Definition apply_op (o : op) (s : bool * dict K V) : res (bool * dict K V * outcome) :=
  let '(cr, d) := s in
  match o with
  | Add k v => '(d, r) ← dictAdd cr d k v junk; Ok (cr, d, Code r)
  | Replace k v => '(d, r) ← dictReplace cr d k v junk; Ok (cr, d, Code r)
  | Delete k => '(d, r) ← dictDelete d k; Ok (cr, d, Code r)
  | Fetch k => '(d, r) ← dictFetchValue d k; Ok (cr, d, Value r)
  | Rehash n => '(d, r) ← dictRehash d n; Ok (cr, d, Quiet)
  | Resize => '(d, r) ← dictResize cr d; Ok (cr, d, Quiet)
  | Expand sz => '(d, r) ← dictExpand d sz; Ok (cr, d, Quiet)
  | SetResize b => Ok (b, d, Quiet)
  end.

Definition spec_op (o : op) (m : gmap K V) : gmap K V * outcome :=
  match o with
  | Add k v => match m !! k with Some _ => (m, Code DICT_ERR) | None => (<[k := v]> m, Code DICT_OK) end
  | Replace k v => (<[k := v]> m, Code (match m !! k with Some _ => 0 | None => 1 end))
  | Delete k => (delete k m, Code (match m !! k with Some _ => DICT_OK | None => DICT_ERR end))
  | Fetch k => (m, Value (m !! k))
  | _ => (m, Quiet)
  end.

Fixpoint run (h : list op) (s : bool * dict K V) : res (bool * dict K V * list outcome) :=
  match h with
  | [] => Ok (s, [])
  | o :: h => '(s, r) ← apply_op o s; '(s, rs) ← run h s; Ok (s, r :: rs)
  end.
Fixpoint spec (h : list op) (m : gmap K V) : gmap K V * list outcome :=
  match h with
  | [] => (m, [])
  | o :: h => let '(m, r) := spec_op o m in let '(m, rs) := spec h m in (m, r :: rs)
  end.

Definition op_ok (o : op) : Prop := match o with Expand sz => sz <= 2 ^ 30 | _ => True end.

Lemma dict_apply_op_ok o cr d : dict_wf d -> zlen (all d) < 2 ^ 29 -> op_ok o ->
  exists cr' d', apply_op o (cr, d) = Ok (cr', d', (spec_op o (dict_map d)).2) /\ dict_wf d' /\
    zlen (all d') <= zlen (all d) + 1 /\ dict_map d' = (spec_op o (dict_map d)).1.
Proof.
  intros W Hs Ho. destruct o as [k v|k v|k|k|n| |sz|b]; cbn [apply_op spec_op].
  - destruct (dictAdd_ok cr d k v W Hs) as (d' & r & -> & W' & Hz & Hr). cbn [mbind res_bind]. exists cr, d'.
    destruct (dict_map d !! k); destruct Hr as [-> Em]; auto.
  - destruct (dictReplace_ok cr d k v W Hs) as (d' & r & -> & W' & Hz & Em & ->). cbn [mbind res_bind]. exists cr, d'. auto.
  - destruct (dictDelete_ok d k W) as (d' & r & -> & W' & Hz & Em & ->). cbn [mbind res_bind]. exists cr, d'.
    split; [done|]. split; [done|]. split; [lia|done].
  - destruct (dictFetchValue_ok d k W) as (d' & -> & W' & E). cbn [mbind res_bind]. exists cr, d'.
    split; [done|]. split; [done|]. split; [rewrite (zlen_perm _ _ E); lia|]. by apply dict_map_perm.
  - destruct (dictRehash_ok d n W) as (d' & r & -> & W' & E & _). cbn [mbind res_bind]. exists cr, d'.
    split; [done|]. split; [done|]. split; [rewrite (zlen_perm _ _ E); lia|]. by apply dict_map_perm.
  - destruct (dictResize_ok cr d W Hs) as (d' & r & -> & W' & E). cbn [mbind res_bind]. exists cr, d'.
    split; [done|]. split; [done|]. unfold dict_map. rewrite E. split; [lia|done].
  - destruct (dictExpand_ok d sz (wf_phase _ W) Ho) as (d' & r & -> & P' & E & _). cbn [mbind res_bind]. exists cr, d'.
    split; [done|]. split; [destruct W; constructor; by rewrite ?E|]. unfold dict_map. rewrite E. split; [lia|done].
  - exists b, d. split; [done|]. split; [done|]. split; [lia|done].
Qed.

Lemma dict_run_ok h : forall cr d, dict_wf d -> zlen (all d) + zlen h < 2 ^ 29 -> Forall op_ok h ->
  exists cr' d', run h (cr, d) = Ok (cr', d', (spec h (dict_map d)).2) /\ dict_wf d' /\
    dict_map d' = (spec h (dict_map d)).1.
Proof.
  induction h as [|o h IH]; intros cr d W Hs Ho; [by exists cr, d|]. rewrite zlen_cons in Hs. pose proof (zlen_nonneg h).
  inversion Ho as [|? ? Ho1 Ho2]; subst. cbn [run spec].
  destruct (dict_apply_op_ok o cr d W ltac:(lia) Ho1) as (cr1 & d1 & -> & W1 & Hz & Em). cbn [mbind res_bind].
  destruct (spec_op o (dict_map d)) as [m1 r1]. cbn [fst snd] in *. subst m1.
  destruct (IH cr1 d1 W1 ltac:(lia) Ho2) as (cr2 & d2 & -> & W2 & Em2). cbn [mbind res_bind].
  destruct (spec h (dict_map d1)) as [m2 rs]. by exists cr2, d2.
Qed.

Lemma dictCreate_wf : dict_wf (@dictCreate K V) /\ dict_map (@dictCreate K V) = ∅.
Proof.
  split; [|done]. constructor; [|constructor|done]. apply idle; [done|done|]. by apply ht_reset.
Qed.
End Refinement.

(** C7: Any history of insertions, replacements, deletions, lookups, rehashing steps of any
    size, resizes and switches of the resize policy on a new dictionary never leaves
    its tables nor trips an assertion, answers every call as a finite map would
    (return codes of [dictAdd], [dictReplace], [dictDelete], values of
    [dictFetchValue]) and ends in a well-formed dictionary of that map, however far
    rehashing has got at each step. *)
Theorem dict_history_refines_map {K V : Type} `{dictTypeLaws K, Countable K} (junk : V)
    (cr : bool) (h : list (op (K:=K) (V:=V))) :
  zlen h < 2 ^ 29 -> Forall op_ok h ->
  exists cr' d, run junk h (cr, dictCreate) = Ok (cr', d, (spec h ∅).2) /\ dict_wf d /\
    dict_map d = (spec h ∅).1.
Proof.
  intros Hs Ho. destruct (@dictCreate_wf K V _ _ _) as [W E].
  destruct (dict_run_ok junk h cr dictCreate W Hs Ho) as (cr' & d & R & W' & Em). rewrite E in *. by exists cr', d.
Qed.

#[export] Instance demo_type : dictType Z := { hashFunction k := k; keyCompare := Z.eqb }.
#[export] Instance demo_laws : dictTypeLaws Z.
Proof. constructor. apply Z.eqb_eq. Defined.

Lemma dict_history_refines_map_witness :
  let h := [Add 1 10; Add 5 20; Add 9 30; Add 2 40; Add 3 50; Add 1 60; Fetch 9; Replace 5 70; Delete 2; Rehash 1; Fetch 5] in
  exists cr' d, run 0 h (true, dictCreate) = Ok (cr', d, (spec h ∅).2) /\ dict_wf d /\
    dict_map d = (spec h ∅).1.
Proof.
  intros h. apply (dict_history_refines_map 0 true h); [reflexivity|]. repeat constructor.
Defined.

(** C33: Rehashing finishes: one call of [dictRehash] with as many steps as the old table has
    buckets, and so few that ten times as many fit in an [int], leaves no rehashing behind,
    keeps the contents, and reports that nothing is left to move. (With more steps the
    number of empty buckets it may visit, [n*10], overflows.) *)
Theorem dictRehash_completes {K V : Type} `{dictTypeLaws K} (d : dict K V) (n : Z) :
  dict_wf d -> size (ht0 d) <= n -> n * 10 < 2 ^ 31 ->
  exists d', dictRehash d n = Ok (d', 0) /\ dict_wf d' /\ rehashidx d' = -1 /\ all d' ≡ₚ all d.
Proof.
  intros W Hn Hv. destruct (dictRehash_ok d n W) as (d' & r & E & W' & Ea & _ & _ & Hidx & Hr).
  specialize (Hr Hn Hv). subst r. exists d'. auto.
Qed.

Definition demo_dict : dict Z Z :=
  mk_dict (mk_ht (Some [[]; [mk_entry 5 20; mk_entry 1 10]; []; []]) 4 3 2)
    (mk_ht (Some (zrep 8 [])) 8 7 0) 1 0.

Lemma demo_dict_wf : dict_wf demo_dict.
Proof.
  constructor; [|apply (bool_decide_unpack _); vm_compute; exact I|reflexivity].
  apply (rehashing _ 2 [[]; [mk_entry 5 20; mk_entry 1 10]; []; []] 3 (zrep 8 [])).
  - constructor; [lia|reflexivity|reflexivity|]. intros i b e Hi He.
    destruct i as [|[|[|[|i]]]]; cbn in Hi; try discriminate Hi; injection Hi as <-;
      repeat (apply elem_of_cons in He as [-> |He]); try (by apply not_elem_of_nil in He); reflexivity.
  - apply (empty_table_ok 3). lia.
  - cbn. lia.
  - intros j b Hj Hlt. destruct j as [|j]; [by injection Hj as <-|cbn in Hlt; lia].
Qed.

Lemma dictRehash_completes_witness :
  exists d', dictRehash demo_dict 4 = Ok (d', 0) /\ dict_wf d' /\ rehashidx d' = -1 /\ all d' ≡ₚ all demo_dict.
Proof. apply (dictRehash_completes demo_dict 4); [apply demo_dict_wf|vm_compute; congruence|reflexivity]. Defined.
End Dict.
