(* ===== verification/DictScan.v ===== *)
(** * Walking a dictionary: iterators, the scan cursor and sampling of
    src/redis-stable/src/dict.c

    [dictScan] is stateless: its cursor is counted in the order of reversed bits, so
    that it survives resizes between calls. The functions call back on entries; the
    model returns the entries they call back on, in order. *)
From stdpp Require Import gmap.
From S2P Require Import Prelude Dict.

Module DictScan.
Import Dict.

(** ** Bit reversal *)

Definition not64 (v : Z) : Z := Z.lxor v (2 ^ 64 - 1).

(** [while ((s >>= 1) > 0) ...] *)
Fixpoint rev_loop (fuel : nat) (s mask v : Z) : Z :=
  match fuel with
  | O => v
  | S fuel =>
    let s := Z.shiftr s 1 in
    if s <=? 0 then v else
    let mask := Z.lxor mask (u64 (Z.shiftl mask s)) in
    let v := Z.lor (Z.land (Z.shiftr v s) mask) (Z.land (u64 (Z.shiftl v s)) (not64 mask)) in
    rev_loop fuel s mask v
  end.

Definition rev (v : Z) : Z := rev_loop 8 64 (2 ^ 64 - 1) v.

Section Scan.
Context {K V : Type} {HT : dictType K}.
Implicit Types (d : dict K V) (h : dictht K V).

(** ** The scan *)

(** The [do ... while] over the expansions of the cursor in the larger table. *)
Fixpoint expansion_loop (fuel : nat) (t1 : dictht K V) (m0 m1 v : Z) (out : list (dictEntry K V))
    : res (Z * list (dictEntry K V)) :=
  match fuel with
  | O => Fault OutOfFuel
  | S fuel =>
    de ← bucket t1 (Z.land v m1);
    let out := out ++ de in
    let v := Z.lor (Z.land (u64 (Z.lor v m0 + 1)) (not64 m0)) (Z.land v m0) in
    if Z.land v (Z.lxor m0 m1) =? 0 then Ok (v, out) else expansion_loop fuel t1 m0 m1 v out
  end.

(** The next cursor and the entries emitted. *)
Definition dictScan d (v : Z) : res (Z * list (dictEntry K V)) :=
  if dictSize d =? 0 then Ok (0, []) else
  '(v, m0, out) ←
    (if negb (dictIsRehashing d) then
       let m0 := sizemask (ht0 d) in
       de ← bucket (ht0 d) (Z.land v m0);
       Ok (v, m0, de)
     else
       let '(t0, t1) := if size (ht1 d) <? size (ht0 d) then (ht1 d, ht0 d) else (ht0 d, ht1 d) in
       let m0 := sizemask t0 in
       let m1 := sizemask t1 in
       de ← bucket t0 (Z.land v m0);
       '(v, out) ← expansion_loop (Z.to_nat (size t1)) t1 m0 m1 v de;
       Ok (v, m0, out));
  let v := Z.lor v (not64 m0) in
  let v := rev v in
  let v := u64 (v + 1) in
  let v := rev v in
  Ok (v, out).

(** ** Iterators *)

(** [ientry] and [inextEntry] are the chain from [entry] and from [nextEntry] on. *)
Record dictIterator := mk_iter {
  itable : bool; iindex : Z; isafe : bool;
  ientry : list (dictEntry K V); inextEntry : list (dictEntry K V); ifingerprint : Z }.

(** Thomas Wang's 64 bit mix, on [long long]. *)
Definition mix (hash : Z) : Z :=
  let hash := i64 (i64 (- hash - 1) + i64 (Z.shiftl hash 21)) in
  let hash := Z.lxor hash (Z.shiftr hash 24) in
  let hash := i64 (i64 (hash + i64 (Z.shiftl hash 3)) + i64 (Z.shiftl hash 8)) in
  let hash := Z.lxor hash (Z.shiftr hash 14) in
  let hash := i64 (i64 (hash + i64 (Z.shiftl hash 2)) + i64 (Z.shiftl hash 4)) in
  let hash := Z.lxor hash (Z.shiftr hash 28) in
  i64 (hash + i64 (Z.shiftl hash 31)).

(** [addr] gives the addresses of the two tables. *)
Definition dictFingerprint (addr : bool -> Z) d : Z :=
  fold_left (fun hash n => mix (i64 (hash + n)))
    [addr false; size (ht0 d); used (ht0 d); addr true; size (ht1 d); used (ht1 d)] 0.

Definition dictGetIterator : dictIterator := mk_iter false (-1) false [] [] 0.
Definition dictGetSafeIterator : dictIterator := mk_iter false (-1) true [] [] 0.

(** [while (1)]: the entry returned, [None] for NULL. *)
Fixpoint next_loop (fuel : nat) (addr : bool -> Z) d (iter : dictIterator)
    : res (dict K V * dictIterator * option (dictEntry K V)) :=
  match fuel with
  | O => Fault OutOfFuel
  | S fuel =>
    let found d (iter : dictIterator) (chain : list (dictEntry K V)) :=
      match chain with
      | e :: rest => Ok (d, mk_iter (itable iter) (iindex iter) (isafe iter) chain rest (ifingerprint iter), Some e)
      | [] => next_loop fuel addr d (mk_iter (itable iter) (iindex iter) (isafe iter) [] (inextEntry iter) (ifingerprint iter))
      end in
    match ientry iter with
    | [] =>
      let first := (iindex iter =? -1) && negb (itable iter) in
      let d := if first && isafe iter then with_iterators d (u64 (iterators d + 1)) else d in
      let fp := if first && negb (isafe iter) then dictFingerprint addr d else ifingerprint iter in
      let index := iindex iter + 1 in
      if size (ht d (itable iter)) <=? index then
        if dictIsRehashing d && negb (itable iter) then
          de ← bucket (ht1 d) 0;
          found d (mk_iter true 0 (isafe iter) [] (inextEntry iter) fp) de
        else Ok (d, mk_iter (itable iter) index (isafe iter) [] (inextEntry iter) fp, None)
      else
        de ← bucket (ht d (itable iter)) index;
        found d (mk_iter (itable iter) index (isafe iter) [] (inextEntry iter) fp) de
    | _ :: _ => found d iter (inextEntry iter)
    end
  end.

Definition dictNext (addr : bool -> Z) d (iter : dictIterator)
    : res (dict K V * dictIterator * option (dictEntry K V)) :=
  next_loop (S (S (Z.to_nat (size (ht0 d) + size (ht1 d))))) addr d iter.

Definition dictReleaseIterator (addr : bool -> Z) d (iter : dictIterator) : res (dict K V) :=
  if negb ((iindex iter =? -1) && negb (itable iter)) then
    if isafe iter then Ok (with_iterators d (u64 (iterators d - 1)))
    else _ ← assert_ (ifingerprint iter =? dictFingerprint addr d); Ok d
  else Ok d.

(** ** Sampling *)

(** The [do ... while(he == NULL)] loops; [rnd] is the successive results of [random()]. *)
Fixpoint random_bucket (rnd : list Z) d : res (list (dictEntry K V) * list Z) :=
  match rnd with
  | [] => Fault OutOfFuel
  | r :: rnd =>
    he ← (if dictIsRehashing d then
            let m := u64 (size (ht0 d) + size (ht1 d) - rehashidx d) in
            if m =? 0 then Fault DivisionByZero else
            let h := u32 (rehashidx d + r mod m) in
            if size (ht0 d) <=? h then bucket (ht1 d) (h - size (ht0 d)) else bucket (ht0 d) h
          else bucket (ht0 d) (u32 (Z.land r (sizemask (ht0 d)))));
    match he with [] => random_bucket rnd d | _ :: _ => Ok (he, rnd) end
  end.

Definition dictGetRandomKey (rnd : list Z) d : res (dict K V * option (dictEntry K V)) :=
  if dictSize d =? 0 then Ok (d, None) else
  d ← (if dictIsRehashing d then _dictRehashStep d else Ok d);
  '(he, rnd) ← random_bucket rnd d;
  let listlen := zlen he in
  match rnd with
  | [] => Fault OutOfFuel
  | r :: _ =>
    let listele := r mod listlen in
    match he !! Z.to_nat listele with
    | Some e => Ok (d, Some e)
    | None => Fault OutOfBounds
    end
  end.
End Scan.

(** ** Bit reversal reverses bits *)

(** One round of the loop with the mask it has then. *)
Definition stage (s mask v : Z) : Z :=
  Z.lor (Z.land (Z.shiftr v s) mask) (Z.land (u64 (Z.shiftl v s)) (not64 mask)).

Definition rev_masks : list (Z * Z) :=
  [(1, 6148914691236517205); (2, 3689348814741910323); (4, 1085102592571150095);
   (8, 71777214294589695); (16, 281470681808895); (32, 4294967295)].

Lemma rev_stages v : rev v = foldr (fun '(s, m) v => stage s m v) v rev_masks.
Proof. reflexivity. Qed.

(** Where bit [i] of a round's result comes from. *)
Definition source (s mask i : Z) : Z := if Z.testbit mask i then i + s else i - s.

Lemma stage_testbit s mask v i : 0 <= s -> 0 <= i < 64 ->
  Z.testbit (stage s mask v) i = Z.testbit v (source s mask i).
Proof.
  intros Hs Hi. unfold stage, source, not64, uwrap.
  rewrite Z.lor_spec, !Z.land_spec, Z.lxor_spec, Z.mod_pow2_bits_low by lia.
  rewrite Z.shiftr_spec, Z.shiftl_spec by lia.
  assert (Z.testbit (2 ^ 64 - 1) i = true) as ->.
  { change (2 ^ 64 - 1) with (Z.ones 64). apply Z.ones_spec_low. lia. }
  destruct (Z.testbit mask i); cbn; [by rewrite andb_true_r, andb_false_r, orb_false_r|by rewrite andb_false_r, andb_true_r].
Qed.

Lemma bits_below x w : 0 <= w -> 0 <= x -> (forall i, w <= i -> Z.testbit x i = false) -> x < 2 ^ w.
Proof.
  intros Hw Hx Hb. assert (x mod 2 ^ w = x) as <-; [|apply Z.mod_pos_bound; lia].
  apply Z.bits_inj'. intros i Hi. destruct (Z.lt_ge_cases i w).
  - by rewrite Z.mod_pow2_bits_low by lia.
  - rewrite Z.mod_pow2_bits_high by lia. by rewrite Hb.
Qed.

Lemma stage_range s mask v : in_u 64 mask -> in_u 64 (stage s mask v).
Proof.
  intros Hm. unfold stage, not64. pose proof (uwrap_range 64 (Z.shiftl v s) ltac:(lia)) as Hu. unfold in_u in *.
  assert (0 <= Z.land (Z.shiftr v s) mask) by (apply Z.land_nonneg; lia).
  assert (0 <= Z.land (u64 (Z.shiftl v s)) (Z.lxor mask (2 ^ 64 - 1))) by (apply Z.land_nonneg; lia).
  split; [by apply Z.lor_nonneg|]. apply bits_below; [lia|by apply Z.lor_nonneg|]. intros i Hi.
  rewrite Z.lor_spec, !Z.land_spec, (bits_above mask 64 i), (bits_above (u64 _) 64 i) by (unfold in_u; lia).
  by rewrite andb_false_r.
Qed.

Lemma rev_range v : in_u 64 (rev v).
Proof. rewrite rev_stages. cbn [foldr rev_masks]. apply stage_range. unfold in_u. lia. Qed.

(** The sources of the six rounds, followed from bit [i] of the result. *)
Definition sources (i : Z) : list Z :=
  fst (fold_left (fun '(l, i) '(s, m) => (l ++ [source s m i], source s m i)) rev_masks ([], i)).

Lemma sources_ok :
  forallb (fun k => let i := Z.of_nat k in
     forallb (fun j => (0 <=? j) && (j <? 64)) (sources i) &&
     (match sources i with [_; _; _; _; _; j] => j =? 63 - i | _ => false end)) (seq 0 64) = true.
Proof. vm_compute. reflexivity. Qed.

Lemma rev_testbit v i : 0 <= i < 64 -> Z.testbit (rev v) i = Z.testbit v (63 - i).
Proof.
  intros Hi. pose proof sources_ok as Hs. rewrite forallb_forall in Hs.
  specialize (Hs (Z.to_nat i) ltac:(apply in_seq; lia)). rewrite Z2Nat.id in Hs by lia.
  apply andb_true_iff in Hs as [Hr He]. unfold sources in Hr, He. cbn [fold_left rev_masks fst app] in Hr, He.
  apply Z.eqb_eq in He. rewrite <- He. cbn [forallb] in Hr. rewrite !andb_true_iff in Hr.
  destruct Hr as (R1 & R2 & R3 & R4 & R5 & R6 & _). rewrite rev_stages. cbn [foldr rev_masks].
  rewrite !stage_testbit by lia. done.
Qed.

(** ** Cursors in the order of reversed bits *)

(** The upper [n] bits of the reversed number are its lower [n] bits. *)
Lemma rev_top x y n : 0 <= n <= 64 -> 0 <= x -> 0 <= y ->
  rev x / 2 ^ (64 - n) = rev y / 2 ^ (64 - n) -> x mod 2 ^ n = y mod 2 ^ n.
Proof.
  intros Hn Hx Hy E. apply Z.bits_inj'. intros i Hi. destruct (Z.lt_ge_cases i n) as [Hlt|].
  2:{ by rewrite !Z.mod_pow2_bits_high by lia. }
  rewrite !Z.mod_pow2_bits_low by lia.
  replace i with (63 - (63 - i)) by lia. rewrite <- (rev_testbit x (63 - i)), <- (rev_testbit y (63 - i)) by lia.
  replace (63 - i) with ((n - 1 - i) + (64 - n)) by lia.
  rewrite <- !Z.shiftr_spec by lia. rewrite !Z.shiftr_div_pow2 by lia. by rewrite E.
Qed.

Lemma rev_low x y n : 0 <= n <= 64 -> x mod 2 ^ n = y mod 2 ^ n -> rev x / 2 ^ (64 - n) = rev y / 2 ^ (64 - n).
Proof.
  intros Hn E. apply Z.bits_inj'. intros i Hi. rewrite <- !Z.shiftr_div_pow2, !Z.shiftr_spec by lia.
  destruct (Z.lt_ge_cases i n).
  - rewrite !rev_testbit by lia. rewrite <- (Z.mod_pow2_bits_low x n), <- (Z.mod_pow2_bits_low y n) by lia. by rewrite E.
  - by rewrite !(bits_above _ 64 (i + (64 - n)) (rev_range _)) by lia.
Qed.

(** Setting the bits above the mask and reversing fills the low bits with ones. *)
Lemma rev_fill v n : 0 <= n <= 64 ->
  rev (Z.lor v (not64 (2 ^ n - 1))) = rev v / 2 ^ (64 - n) * 2 ^ (64 - n) + (2 ^ (64 - n) - 1).
Proof.
  intros Hn. set (q := rev v / 2 ^ (64 - n)). set (w := 64 - n) in *.
  assert (q * 2 ^ w + (2 ^ w - 1) = Z.lor (Z.shiftl q w) (Z.ones w)) as ->.
  { rewrite <- Z.lxor_lor, <- Z.add_nocarry_lxor, Z.shiftl_mul_pow2, Z.ones_equiv; try lia;
      apply Z.bits_inj'; intros i Hi; rewrite Z.land_spec, Z.bits_0;
      (destruct (Z.lt_ge_cases i w); [rewrite Z.shiftl_spec_low by lia; done|rewrite Z.ones_spec_high by lia; apply andb_false_r]). }
  apply Z.bits_inj'. intros i Hi. rewrite Z.lor_spec, Z.shiftl_spec by lia.
  destruct (Z.lt_ge_cases i 64).
  - rewrite rev_testbit, Z.lor_spec by lia. unfold not64. rewrite Z.lxor_spec.
    change (2 ^ 64 - 1) with (Z.ones 64). replace (2 ^ n - 1) with (Z.ones n) by (rewrite Z.ones_equiv; lia).
    rewrite (Z.ones_spec_low 64) by lia. destruct (Z.lt_ge_cases i w).
    + rewrite (Z.ones_spec_high n), (Z.ones_spec_low w) by lia. cbn. by rewrite !orb_true_r.
    + rewrite (Z.ones_spec_low n), (Z.ones_spec_high w) by lia. cbn. rewrite !orb_false_r.
      subst q. rewrite <- Z.shiftr_div_pow2, Z.shiftr_spec by lia. replace (i - w + w) with i by lia. by rewrite rev_testbit by lia.
  - rewrite (bits_above _ 64 i (rev_range _)) by lia. rewrite (Z.ones_spec_high w) by lia.
    subst q. rewrite <- Z.shiftr_div_pow2, Z.shiftr_spec by lia.
    replace (i - w + w) with i by lia. by rewrite (bits_above _ 64 i (rev_range _)) by lia.
Qed.

Lemma rev_involutive v : in_u 64 v -> rev (rev v) = v.
Proof.
  intros Hv. apply Z.bits_inj'. intros i Hi. destruct (Z.lt_ge_cases i 64).
  - rewrite !rev_testbit by lia. f_equal. lia.
  - rewrite (bits_above _ 64 i (rev_range _)), (bits_above v 64 i Hv) by lia. done.
Qed.

(** The cursor after a step with [2^n] buckets: the next multiple of [2^(64-n)]. *)
Lemma next_cursor v n : 0 <= n <= 64 ->
  rev (rev (u64 (rev (Z.lor v (not64 (2 ^ n - 1))) + 1))) = u64 ((rev v / 2 ^ (64 - n) + 1) * 2 ^ (64 - n)).
Proof.
  intros Hn. rewrite rev_involutive by (apply uwrap_range; lia). rewrite rev_fill by done. f_equal. lia.
Qed.

(** ** The expansions of a cursor *)

Lemma mask_ones n : 2 ^ n - 1 = Z.ones n.
Proof. rewrite Z.ones_equiv. lia. Qed.

(** [((v | m0) + 1) & ~m0 | (v & m0)] increments the bits above the mask. *)
Lemma cursor_incr v n : 0 <= n <= 64 -> in_u 64 v ->
  Z.lor (Z.land (u64 (Z.lor v (2 ^ n - 1) + 1)) (not64 (2 ^ n - 1))) (Z.land v (2 ^ n - 1)) =
  (v / 2 ^ n + 1) mod 2 ^ (64 - n) * 2 ^ n + v mod 2 ^ n.
Proof.
  intros Hn Hv. set (b := v / 2 ^ n). set (a := v mod 2 ^ n).
  pose proof (Z.mod_pos_bound v (2 ^ n) ltac:(lia)) as Ha. fold a in Ha.
  assert (v = b * 2 ^ n + a) as Ev by (subst a b; rewrite Z.mul_comm; apply Z.div_mod; lia).
  assert (Z.lor v (2 ^ n - 1) = b * 2 ^ n + (2 ^ n - 1)) as ->.
  { rewrite Ev, <- lor_mul_add, <- Z.lor_assoc by lia. rewrite <- (lor_mul_add b (2 ^ n - 1)) by lia. f_equal.
    apply Z.bits_inj'. intros i Hi. rewrite Z.lor_spec, mask_ones. destruct (Z.lt_ge_cases i n).
    - rewrite Z.ones_spec_low by lia. apply orb_true_r.
    - rewrite Z.ones_spec_high, (bits_above a n i) by (done || lia). done. }
  replace (b * 2 ^ n + (2 ^ n - 1) + 1) with ((b + 1) * 2 ^ n) by lia.
  assert (u64 ((b + 1) * 2 ^ n) = (b + 1) mod 2 ^ (64 - n) * 2 ^ n) as ->.
  { unfold uwrap. replace (2 ^ 64) with (2 ^ (64 - n) * 2 ^ n) by (rewrite <- Z.pow_add_r by lia; f_equal; lia).
    apply Z.mul_mod_distr_r; lia. }
  rewrite land_mask by lia. fold a. rewrite <- lor_mul_add by lia. f_equal.
  pose proof (Z.mod_pos_bound (b + 1) (2 ^ (64 - n)) ltac:(lia)) as Hb. set (c := (b + 1) mod 2 ^ (64 - n)) in *.
  apply Z.bits_inj'. intros i Hi. rewrite Z.land_spec. unfold not64. rewrite Z.lxor_spec.
  change (2 ^ 64 - 1) with (Z.ones 64). rewrite mask_ones, <- Z.shiftl_mul_pow2 by lia.
  destruct (Z.lt_ge_cases i n); [by rewrite Z.shiftl_spec_low by lia|].
  rewrite (Z.ones_spec_high n), xorb_false_l by lia. destruct (Z.lt_ge_cases i 64).
  - rewrite Z.ones_spec_low by lia. apply andb_true_r.
  - rewrite Z.shiftl_spec by lia. by rewrite (bits_above c (64 - n) (i - n)) by (done || lia).
Qed.

(** The bits between two masks. *)
Lemma diff_mask x n0 n1 : 0 <= n0 <= n1 ->
  Z.land x (Z.lxor (2 ^ n0 - 1) (2 ^ n1 - 1)) = (x / 2 ^ n0) mod 2 ^ (n1 - n0) * 2 ^ n0.
Proof.
  intros Hn. rewrite !mask_ones. apply Z.bits_inj'. intros i Hi.
  rewrite Z.land_spec, Z.lxor_spec, <- Z.shiftl_mul_pow2 by lia. destruct (Z.lt_ge_cases i n0).
  - rewrite !Z.ones_spec_low, Z.shiftl_spec_low by lia. apply andb_false_r.
  - rewrite (Z.ones_spec_high n0), xorb_false_l, Z.shiftl_spec by lia. destruct (Z.lt_ge_cases i n1).
    + rewrite Z.ones_spec_low, Z.mod_pow2_bits_low, <- Z.shiftr_div_pow2, Z.shiftr_spec by lia.
      rewrite andb_true_r. f_equal. lia.
    + rewrite Z.ones_spec_high, Z.mod_pow2_bits_high by lia. apply andb_false_r.
Qed.

(** An index in the larger table from the one in the smaller and the bits above. *)
Lemma mod_split x n0 n1 : 0 <= n0 <= n1 ->
  x mod 2 ^ n1 = x mod 2 ^ n0 + 2 ^ n0 * ((x / 2 ^ n0) mod 2 ^ (n1 - n0)).
Proof.
  intros Hn. replace (2 ^ n1) with (2 ^ n0 * 2 ^ (n1 - n0)) by (rewrite <- Z.pow_add_r by lia; f_equal; lia).
  apply Z.rem_mul_r; lia.
Qed.

Section ScanLemmas.
Context {K V : Type} {HT : dictType K} {HL : dictTypeLaws K}.
Implicit Types (d : dict K V) (h : dictht K V) (e : dictEntry K V).

Lemma expansion_loop_ok fuel : forall h u t n0 n1 v out, table_ok n1 u t h -> 0 <= n0 <= n1 -> in_u 64 v ->
  let g := n1 - n0 in let beta := (v / 2 ^ n0) mod 2 ^ g in
  2 ^ g - beta <= Z.of_nat fuel ->
  exists v' out', expansion_loop fuel h (2 ^ n0 - 1) (2 ^ n1 - 1) v out = Ok (v', out') /\
    in_u 64 v' /\ v' mod 2 ^ n0 = v mod 2 ^ n0 /\ (forall e, e ∈ out -> e ∈ out') /\
    (forall y b e, beta <= y < 2 ^ g -> t !! Z.to_nat (v mod 2 ^ n0 + 2 ^ n0 * y) = Some b -> e ∈ b -> e ∈ out').
Proof.
  induction fuel as [|fuel IH]; intros h u t n0 n1 v out T Hn Hv g beta Hf.
  { pose proof (Z.mod_pos_bound (v / 2 ^ n0) (2 ^ g) ltac:(lia)). lia. }
  pose proof (tb_k _ _ _ _ T) as Hk. cbn [expansion_loop]. rewrite (land_mask v n1) by lia.
  destruct (bucket_in _ _ _ _ (v mod 2 ^ n1) T) as (bk & Hbk & ->); [apply Z.mod_pos_bound; lia|]. cbn [mbind res_bind].
  rewrite cursor_incr by (done || lia). set (v1 := (v / 2 ^ n0 + 1) mod 2 ^ (64 - n0) * 2 ^ n0 + v mod 2 ^ n0).
  pose proof (Z.mod_pos_bound v (2 ^ n0) ltac:(lia)) as Ha.
  pose proof (Z.mod_pos_bound (v / 2 ^ n0 + 1) (2 ^ (64 - n0)) ltac:(lia)) as Hb.
  assert (v1 / 2 ^ n0 = (v / 2 ^ n0 + 1) mod 2 ^ (64 - n0)) as Ediv.
  { subst v1. rewrite Z.div_add_l by lia. rewrite (Z.div_small (v mod 2 ^ n0)) by lia. lia. }
  assert (v1 mod 2 ^ n0 = v mod 2 ^ n0) as Emod.
  { subst v1. rewrite Z.add_comm, Z.mod_add by lia. apply Z.mod_mod. lia. }
  assert (in_u 64 v1) as Hv1.
  { subst v1. unfold in_u. replace (2 ^ 64) with (2 ^ (64 - n0) * 2 ^ n0) by (rewrite <- Z.pow_add_r by lia; f_equal; lia). nia. }
  set (beta1 := (v1 / 2 ^ n0) mod 2 ^ g).
  assert (beta1 = (beta + 1) mod 2 ^ g) as Eb.
  { subst beta1 beta. rewrite Ediv, Zplus_mod_idemp_l.
    replace (2 ^ (64 - n0)) with (2 ^ g * 2 ^ (64 - n1)) by (subst g; rewrite <- Z.pow_add_r by lia; f_equal; lia).
    rewrite Z.rem_mul_r by lia. rewrite Z.mul_comm, Z_mod_plus_full. apply Z.mod_mod. lia. }
  pose proof (Z.mod_pos_bound (v / 2 ^ n0) (2 ^ g) ltac:(lia)) as Hbeta. fold beta in Hbeta.
  assert (forall b e, t !! Z.to_nat (v mod 2 ^ n0 + 2 ^ n0 * beta) = Some b -> e ∈ b -> e ∈ bk) as Hhere.
  { intros b e Hl He. subst beta g. rewrite <- mod_split in Hl by lia. congruence. }
  rewrite diff_mask by lia. fold g. fold beta1.
  destruct (Z.eqb_spec (beta1 * 2 ^ n0) 0) as [Hz|Hz].
  - assert (beta1 = 0) by nia. assert (beta + 1 = 2 ^ g) as Hlast.
    { destruct (Z.lt_ge_cases (beta + 1) (2 ^ g)); [rewrite Z.mod_small in Eb by lia; lia|lia]. }
    exists v1, (out ++ bk). split; [done|]. split; [done|]. split; [done|]. split; [intros e He; rewrite elem_of_app; by left|].
    intros y b e Hy Hl He. assert (y = beta) as -> by lia. rewrite elem_of_app. right. by eapply Hhere.
  - assert (beta + 1 < 2 ^ g) as Hmore.
    { destruct (Z.lt_ge_cases (beta + 1) (2 ^ g)); [done|]. replace (beta + 1) with (2 ^ g) in Eb by lia.
      rewrite Z.mod_same in Eb by lia. rewrite Eb in Hz. lia. }
    rewrite Z.mod_small in Eb by lia.
    destruct (IH h u t n0 n1 v1 (out ++ bk) T Hn Hv1) as (v' & out' & E & H1 & H2 & H3 & H4).
    { fold g. fold beta1. lia. }
    fold g in H4. fold beta1 in H4. rewrite Emod in *.
    exists v', out'. split; [done|]. split; [done|]. split; [done|]. split; [intros e He; apply H3; rewrite elem_of_app; by left|].
    intros y b e Hy Hl He. destruct (decide (y = beta)) as [-> |].
    + apply H3. rewrite elem_of_app. right. by eapply Hhere.
    + apply (H4 y b); [lia|done|done].
Qed.

(** The situations in which a call visits every bucket it accounts for: one table; a
    cursor without bits between the two masks; two tables within a factor of two. *)
Definition scan_safe d (v : Z) : bool :=
  negb (dictIsRehashing d) ||
  (Z.land v (Z.lxor (sizemask (ht0 d)) (sizemask (ht1 d))) =? 0) ||
  (Z.max (size (ht0 d)) (size (ht1 d)) <=? 2 * Z.min (size (ht0 d)) (size (ht1 d))).

(** Within one step, a hash above the cursor in reversed order is not below it in the
    order of the expansions. *)
Lemma expansion_order v x n0 n1 : 0 <= n0 <= n1 -> n1 < 64 -> 0 <= v -> 0 <= x ->
  (v / 2 ^ n0) mod 2 ^ (n1 - n0) = 0 \/ n1 <= n0 + 1 ->
  rev v <= rev x -> rev v / 2 ^ (64 - n0) = rev x / 2 ^ (64 - n0) ->
  (v / 2 ^ n0) mod 2 ^ (n1 - n0) <= (x / 2 ^ n0) mod 2 ^ (n1 - n0).
Proof.
  intros Hn H64 Hv Hx Hs Hle Htop. pose proof (Z.mod_pos_bound (x / 2 ^ n0) (2 ^ (n1 - n0)) ltac:(lia)).
  destruct Hs as [-> |Hs]; [lia|]. destruct (decide (n1 = n0)) as [-> |].
  { rewrite !Z.sub_diag. by rewrite !Z.mod_1_r. }
  replace (n1 - n0) with 1 by lia. change (2 ^ 1) with 2. rewrite <- !Z.testbit_spec' by lia.
  replace n0 with (63 - (63 - n0)) by lia. rewrite <- (rev_testbit v (63 - n0)), <- (rev_testbit x (63 - n0)) by lia.
  rewrite !Z.testbit_spec' by lia. set (w := 63 - n0).
  assert (forall z, rev z / 2 ^ w = 2 * (rev z / 2 ^ (64 - n0)) + (rev z / 2 ^ w) mod 2) as Hd.
  { intros z. replace (2 ^ (64 - n0)) with (2 ^ w * 2)
      by (subst w; replace (64 - n0) with (63 - n0 + 1) by lia; rewrite Z.pow_add_r by lia; lia).
    rewrite <- Z.div_div by lia. apply Z.div_mod. lia. }
  assert (rev v / 2 ^ w <= rev x / 2 ^ w) by (apply Z.div_le_mono; lia).
  pose proof (Hd v). pose proof (Hd x). lia.
Qed.

(** The entries of a table whose hash agrees with the cursor are in its bucket. *)
Lemma bucket_complete n u t h v e b : table_ok n u t h -> e ∈ concat t ->
  t !! Z.to_nat (v mod 2 ^ n) = Some b -> hash32 (ekey e) mod 2 ^ n = v mod 2 ^ n -> e ∈ b.
Proof.
  intros T He Hb Hh. apply list_elem_of_In, in_concat in He as (b' & Hb' & He).
  apply list_elem_of_In in Hb', He. apply list_elem_of_lookup in Hb' as [i Hi].
  pose proof (tb_placed _ _ _ _ T i b' e Hi He) as Hp. rewrite <- Hh, Hp, Nat2Z.id in Hb. congruence.
Qed.

(** The two-table branch, [h0] being the smaller table. *)
Lemma scan_two_ok h0 h1 n0 n1 t0 t1 u0 u1 v :
  table_ok n0 u0 t0 h0 -> table_ok n1 u1 t1 h1 -> n0 <= n1 -> in_u 64 v ->
  (v / 2 ^ n0) mod 2 ^ (n1 - n0) = 0 \/ n1 <= n0 + 1 ->
  exists v1 out, (de ← bucket h0 (Z.land v (sizemask h0));
     '(v, out) ← expansion_loop (Z.to_nat (size h1)) h1 (sizemask h0) (sizemask h1) v de;
     Ok (v, sizemask h0, out)) = Ok (v1, 2 ^ n0 - 1, out) /\ in_u 64 v1 /\ v1 mod 2 ^ n0 = v mod 2 ^ n0 /\
    forall e, e ∈ concat t0 ++ concat t1 -> rev v <= rev (hash32 (ekey e)) ->
      rev v / 2 ^ (64 - n0) = rev (hash32 (ekey e)) / 2 ^ (64 - n0) -> e ∈ out.
Proof.
  intros T0 T1 Hn Hv Hs. pose proof (tb_k _ _ _ _ T0) as Hk0. pose proof (tb_k _ _ _ _ T1) as Hk1.
  destruct (table_used _ _ _ _ T0) as (_ & _ & -> & _). destruct (table_used _ _ _ _ T1) as (_ & -> & -> & _).
  rewrite land_mask by lia.
  destruct (bucket_in _ _ _ _ (v mod 2 ^ n0) T0) as (b0 & Hb0 & ->); [apply Z.mod_pos_bound; lia|]. cbn [mbind res_bind].
  destruct (expansion_loop_ok (Z.to_nat (2 ^ n1)) h1 u1 t1 n0 n1 v b0 T1 ltac:(lia) Hv) as (v1 & out & -> & H1 & H2 & H3 & H4).
  { pose proof (Z.mod_pos_bound (v / 2 ^ n0) (2 ^ (n1 - n0)) ltac:(lia)).
    assert (2 ^ (n1 - n0) <= 2 ^ n1) by (apply Z.pow_le_mono_r; lia). lia. }
  cbn [mbind res_bind]. exists v1, out. split; [done|]. split; [done|]. split; [done|]. intros e He Hle Htop.
  assert (0 <= v) as Hv0 by apply Hv. pose proof (uwrap_range 32 (hashFunction (ekey e)) ltac:(lia)) as [Hh0 _]. fold (hash32 (ekey e)) in Hh0.
  assert (hash32 (ekey e) mod 2 ^ n0 = v mod 2 ^ n0) as Em by (symmetry; apply rev_top; [lia|done|done|done]).
  rewrite elem_of_app in He. destruct He as [He|He].
  - apply H3. by eapply (bucket_complete n0 u0 t0 h0 v).
  - pose proof (expansion_order v (hash32 (ekey e)) n0 n1 ltac:(lia) ltac:(lia) Hv0 Hh0 Hs Hle Htop) as Ho.
    set (y := (hash32 (ekey e) / 2 ^ n0) mod 2 ^ (n1 - n0)) in *.
    destruct (bucket_in _ _ _ _ (hash32 (ekey e) mod 2 ^ n1) T1) as (b1 & Hb1 & _); [apply Z.mod_pos_bound; lia|].
    apply (H4 y b1 e).
    + split; [done|]. apply Z.mod_pos_bound. lia.
    + subst y. rewrite <- Em, <- mod_split by lia. done.
    + by eapply (bucket_complete n1 u1 t1 h1 (hash32 (ekey e))).
Qed.

Lemma min_max_pow a b : 2 <= a -> 2 <= b ->
  Z.max (2 ^ a) (2 ^ b) <= 2 * Z.min (2 ^ a) (2 ^ b) -> a <= b + 1 /\ b <= a + 1.
Proof.
  intros Ha Hb Hm. rewrite (Z.pow_le_mono_r_iff 2 a (b + 1)), (Z.pow_le_mono_r_iff 2 b (a + 1)) by lia.
  rewrite !Z.pow_add_r by lia. change (2 ^ 1) with 2. lia.
Qed.

(** One call: the cursor moves to the next multiple [c] of the block size in reversed
    order, and every entry between the old cursor and [c] is emitted. *)
Lemma scan_step d v : dict_wf d -> all d <> [] -> in_u 64 v -> scan_safe d v = true ->
  exists v' out c, dictScan d v = Ok (v', out) /\ in_u 64 v' /\ rev v < c <= 2 ^ 64 /\ rev v' = u64 c /\
    forall e, e ∈ all d -> rev v <= rev (hash32 (ekey e)) < c -> e ∈ out.
Proof.
  intros W Hne Hv Hsafe. pose proof W as [P N S]. unfold dictScan, dictSize.
  destruct (used_zero d P S) as (Hu & _). rewrite Hu. pose proof (zlen_nonneg (all d)).
  rewrite uwrap_id by (unfold in_u; lia). rewrite (proj2 (Z.eqb_neq _ _)) by (intros Hz; by apply Hne, zlen_0_nil).
  assert (exists n0 v1 out, 2 <= n0 <= 30 /\
    (if negb (dictIsRehashing d) then
       de ← bucket (ht0 d) (Z.land v (sizemask (ht0 d))); Ok (v, sizemask (ht0 d), de)
     else
       let '(t0, t1) := if size (ht1 d) <? size (ht0 d) then (ht1 d, ht0 d) else (ht0 d, ht1 d) in
       de ← bucket t0 (Z.land v (sizemask t0));
       '(v, out) ← expansion_loop (Z.to_nat (size t1)) t1 (sizemask t0) (sizemask t1) v de;
       Ok (v, sizemask t0, out)) = Ok (v1, 2 ^ n0 - 1, out) /\ in_u 64 v1 /\ v1 mod 2 ^ n0 = v mod 2 ^ n0 /\
    forall e, e ∈ all d -> rev v <= rev (hash32 (ekey e)) ->
      rev v / 2 ^ (64 - n0) = rev (hash32 (ekey e)) / 2 ^ (64 - n0) -> e ∈ out)
    as (n & v1 & out & Hn & -> & Hv1 & Em & Hemit).
  { destruct P as [Hi H1 H0|k0 t0 k1 t1 T0 T1 Hi Hm].
    - rewrite idle_not_rehashing by done. cbn [negb]. destruct (phase_table d ltac:(by apply idle) Hne S) as (k & t & T).
      destruct (table_used _ _ _ _ T) as (_ & _ & -> & _). pose proof (tb_k _ _ _ _ T) as Hk. rewrite land_mask by lia.
      destruct (bucket_in _ _ _ _ (v mod 2 ^ k) T) as (b & Hb & ->); [apply Z.mod_pos_bound; lia|]. cbn [mbind res_bind].
      exists k, v, b. split; [done|]. split; [done|]. split; [done|]. split; [done|]. intros e He _ Htop.
      unfold all in He. rewrite H1, (table_entries _ _ _ _ T), app_nil_r in He. eapply bucket_complete; [exact T|done|exact Hb|].
      symmetry. apply rev_top; [lia|apply Hv|apply (uwrap_range 32); lia|done].
    - rewrite rehashing_true by lia. cbn [negb]. unfold scan_safe in Hsafe. rewrite rehashing_true in Hsafe by lia. cbn [negb orb] in Hsafe.
      pose proof (tb_k _ _ _ _ T0) as Hk0. pose proof (tb_k _ _ _ _ T1) as Hk1.
      destruct (table_used _ _ _ _ T0) as (_ & Sz0 & Sm0 & _). destruct (table_used _ _ _ _ T1) as (_ & Sz1 & Sm1 & _).
      rewrite Sz0, Sz1, Sm0, Sm1 in Hsafe. apply orb_true_iff in Hsafe.
      assert (all d = concat t0 ++ concat t1) as Ea by (unfold all; by rewrite (table_entries _ _ _ _ T0), (table_entries _ _ _ _ T1)).
      rewrite Sz0, Sz1. destruct (Z.ltb_spec (2 ^ k1) (2 ^ k0)) as [Hlt|Hge].
      + apply Z.pow_lt_mono_r_iff in Hlt; [|lia..].
        destruct (scan_two_ok (ht1 d) (ht0 d) k1 k0 t1 t0 _ _ v T1 T0 ltac:(lia) Hv) as (v1 & out & E & ? & ? & Hem).
        { destruct Hsafe as [Hz%Z.eqb_eq|Hz%Z.leb_le]; [left|right; apply min_max_pow in Hz; lia].
          rewrite Z.lxor_comm, diff_mask in Hz by lia. nia. }
        exists k1, v1, out. split; [done|]. split; [exact E|]. split; [done|]. split; [done|]. intros e He. apply Hem.
        rewrite Ea in He. rewrite elem_of_app in *. tauto.
      + apply Z.pow_le_mono_r_iff in Hge; [|lia..].
        destruct (scan_two_ok (ht0 d) (ht1 d) k0 k1 t0 t1 _ _ v T0 T1 ltac:(lia) Hv) as (v1 & out & E & ? & ? & Hem).
        { destruct Hsafe as [Hz%Z.eqb_eq|Hz%Z.leb_le]; [left|right; apply min_max_pow in Hz; lia].
          rewrite diff_mask in Hz by lia. nia. }
        exists k0, v1, out. split; [done|]. split; [exact E|]. split; [done|]. split; [done|]. intros e He. apply Hem. by rewrite <- Ea. }
  cbn [mbind res_bind]. set (B := 2 ^ (64 - n)). assert (0 < B) by (apply Z.pow_pos_nonneg; lia).
  assert (2 ^ 64 = 2 ^ n * B) as E64 by (subst B; rewrite <- Z.pow_add_r by lia; f_equal; lia).
  assert (rev v1 / B = rev v / B) as Ev1 by (apply rev_low; [lia|done]).
  pose proof (rev_range v) as [Hr0 Hr1]. pose proof (Z.div_pos (rev v) B ltac:(lia) ltac:(lia)).
  pose proof (Z.div_lt_upper_bound (rev v) B (2 ^ n) ltac:(lia) ltac:(lia)).
  pose proof (Z.div_mod (rev v) B ltac:(lia)) as Hdm. pose proof (Z.mod_pos_bound (rev v) B ltac:(lia)) as Hmb.
  eexists _, out, ((rev v / B + 1) * B). split; [done|]. split; [apply rev_range|]. split; [nia|].
  split; [rewrite next_cursor by lia; fold B; by rewrite Ev1|].
  intros e He [Hlo Hhi]. apply Hemit; [done|done|]. fold B. revert Hlo Hhi.
  generalize (rev (hash32 (ekey e))). set (q := rev v / B) in *. set (r := rev v mod B) in *. clearbody q r B. intros x Hlo Hhi.
  apply Z.div_unique_pos with (r := x - B * q); lia.
Qed.

(** A sequence of calls, each on the dictionary as it is at that time. *)
Fixpoint scan_all (ds : list (dict K V)) (v : Z) : res (Z * list (dictEntry K V)) :=
  match ds with
  | [] => Ok (v, [])
  | d :: ds => '(v, out) ← dictScan d v; '(v, outs) ← scan_all ds v; Ok (v, out ++ outs)
  end.

(** The situation of every call of the sequence. *)
Fixpoint safe_run (ds : list (dict K V)) (v : Z) : bool :=
  match ds with
  | [] => true
  | d :: ds => scan_safe d v && match dictScan d v with Ok (v, _) => safe_run ds v | Fault _ => false end
  end.

Lemma scan_all_ok ds : forall v key, in_u 64 v -> ds <> [] -> Forall dict_wf ds ->
  Forall (fun d => exists e, e ∈ all d /\ ekey e = key) ds -> safe_run ds v = true ->
  exists v' outs, scan_all ds v = Ok (v', outs) /\
    ((exists e, e ∈ outs /\ ekey e = key) \/ rev (hash32 key) < rev v \/ v' <> 0).
Proof.
  induction ds as [|d ds IH]; intros v key Hv Hne Hwf Hin Hs; [done|]. cbn [scan_all safe_run] in *.
  apply andb_true_iff in Hs as [Hs Hs']. inversion Hwf as [|? ? W Hwf']; subst. inversion Hin as [|? ? (e & He & Hk) Hin']; subst.
  destruct (scan_step d v W) as (v1 & out & c & E & Hv1 & Hc & Hrev & Hem); [by intros Hn; rewrite Hn in He; apply not_elem_of_nil in He|done|done|].
  rewrite E in *. cbn [mbind res_bind]. pose proof (rev_range (hash32 (ekey e))) as [_ Hmax]. pose proof (rev_range v) as [Hv0 _].
  destruct (decide (rev v <= rev (hash32 (ekey e)) < c)) as [Hb|Hb].
  - specialize (Hem e He Hb). destruct (decide (ds = [])) as [-> |Hds].
    { exists v1, (out ++ []). split; [done|]. left. exists e. rewrite app_nil_r. done. }
    destruct (IH v1 (ekey e) Hv1 Hds Hwf' Hin' Hs') as (v' & outs & -> & _). cbn [mbind res_bind].
    exists v', (out ++ outs). split; [done|]. left. exists e. rewrite elem_of_app. auto.
  - destruct (Z.lt_ge_cases (rev (hash32 (ekey e))) (rev v)) as [Hlt|Hge].
    + destruct (decide (ds = [])) as [-> |Hds]; [exists v1, (out ++ []); auto|].
      destruct (IH v1 (ekey e) Hv1 Hds Hwf' Hin' Hs') as (v' & outs & -> & _). cbn [mbind res_bind].
      exists v', (out ++ outs). auto.
    + assert (c <= rev (hash32 (ekey e))) by lia. rewrite uwrap_id in Hrev by (unfold in_u in *; lia).
      destruct (decide (ds = [])) as [-> |Hds].
      { exists v1, (out ++ []). split; [done|]. right. right. intros ->. change (rev 0) with 0 in Hrev. lia. }
      destruct (IH v1 (ekey e) Hv1 Hds Hwf' Hin' Hs') as (v' & outs & -> & Hr). cbn [mbind res_bind].
      exists v', (out ++ outs). split; [done|]. destruct Hr as [(e' & He' & Hk')|[Hlt|Hnz]]; [left|lia|auto].
      exists e'. rewrite elem_of_app. auto.
Qed.
End ScanLemmas.

(** C23: The guarantee of [dictScan]: over a sequence of calls that starts with cursor 0 and
    comes back to 0, on a dictionary that may be changed, resized and rehashed in any
    way between the calls, every key that is present at each call is emitted, provided
    that at each call made during rehashing the two tables are within a factor of two
    or the cursor has no bit between their masks. *)
Theorem dictScan_complete {K V : Type} `{dictTypeLaws K} (ds : list (dict K V)) (key : K) (outs : list (dictEntry K V)) :
  ds <> [] -> Forall dict_wf ds -> Forall (fun d => exists e, e ∈ all d /\ ekey e = key) ds ->
  safe_run ds 0 = true -> scan_all ds 0 = Ok (0, outs) ->
  exists e, e ∈ outs /\ ekey e = key.
Proof.
  intros Hne Hwf Hin Hs E. destruct (scan_all_ok ds 0 key) as (v' & outs' & E' & Hr); [by split|done..|].
  rewrite E in E'. injection E' as <- <-. pose proof (rev_range (hash32 key)) as [Hpos _].
  destruct Hr as [?|[Hlt|?]]; [done| |done]. change (rev 0) with 0 in Hlt. lia.
Qed.

Lemma dictScan_complete_witness : exists e, e ∈ [mk_entry 5 20; mk_entry 1 10] /\ ekey e = 5.
Proof.
  apply (dictScan_complete (repeat demo_dict 4) 5 [mk_entry 5 20; mk_entry 1 10]).
  - discriminate.
  - repeat (constructor; [apply demo_dict_wf|]). constructor.
  - repeat (constructor; [exists (mk_entry 5 20); split; [left|reflexivity]|]). constructor.
  - vm_compute. reflexivity.
  - vm_compute. reflexivity.
Defined.

Definition demo_16 : dictht Z Z :=
  mk_ht (Some ([[]; []; []; []; [mk_entry 4 40]] ++ repeat [] 11)) 16 15 1.

(** C32: Outside that situation [dictScan] does miss keys: a full iteration over a dictionary
    of 16 buckets that starts shrinking to 4 after the first call ends without ever
    emitting key 4, which is present all the time and never touched. *)
Theorem dictScan_misses_on_shrink :
  exists d1 d2 : dict Z Z,
    run 0 [Expand 16; Add 4 40] (true, dictCreate) = Ok (true, d1, [Quiet; Code DICT_OK]) /\
    run 0 [Resize] (true, d1) = Ok (true, d2, [Quiet]) /\
    dict_map d1 !! 4 = Some 40 /\ dict_map d2 !! 4 = Some 40 /\
    scan_all [d1; d2; d2; d2; d2] 0 = Ok (0, []).
Proof.
  exists (mk_dict demo_16 _dictReset (-1) 0), (mk_dict demo_16 (mk_ht (Some (repeat [] 4)) 4 3 0) 0 0).
  split_and!; vm_compute; reflexivity.
Qed.

(** ** Iteration *)

Section Iteration.
Context {K V : Type} {HT : dictType K} {HL : dictTypeLaws K} (addr : bool -> Z).
Implicit Types (d : dict K V) (h : dictht K V) (e : dictEntry K V).

Definition buckets h : list (list (dictEntry K V)) := match table h with Some t => t | None => [] end.

(** What the iterator has still to return. *)
Definition rest_of d (it : dictIterator (K:=K) (V:=V)) : list (dictEntry K V) :=
  (match ientry it with [] => [] | _ => inextEntry it end) ++
  concat (drop (Z.to_nat (iindex it + 1)) (buckets (ht d (itable it)))) ++
  (if dictIsRehashing d && negb (itable it) then concat (buckets (ht1 d)) else []).

Definition steps_left d (it : dictIterator (K:=K) (V:=V)) : Z :=
  Z.max 0 (size (ht d (itable it)) - (iindex it + 1)) + (if itable it then 0 else size (ht1 d)) +
  (match ientry it with [] => 0 | _ => 1 end).

(** The tables as the iterator sees them. *)
Lemma table_view d tb : phase d -> zlen (buckets (ht d tb)) = size (ht d tb) /\
  (forall i, 0 <= i < size (ht d tb) -> exists b, bucket (ht d tb) i = Ok b /\
     drop (Z.to_nat i) (buckets (ht d tb)) = b :: drop (Z.to_nat (i + 1)) (buckets (ht d tb))).
Proof.
  intros P. assert (ht_wf (ht d tb)) as [Hr|k t T].
  { destruct P as [Hi H1 H0|k0 t0 k1 t1 T0 T1 Hi Hm]; destruct tb; cbn [ht]; [by apply ht_reset|done|by eapply ht_table|by eapply ht_table]. }
  - rewrite Hr. split; [done|]. cbn. lia.
  - unfold buckets. destruct (table_used _ _ _ _ T) as (_ & -> & _ & ->). split; [apply (tb_len _ _ _ _ T)|].
    intros i Hi. destruct (bucket_in _ _ _ _ i T Hi) as (b & Hb & E). exists b. split; [done|].
    replace (Z.to_nat (i + 1)) with (S (Z.to_nat i)) by lia. by apply drop_S.
Qed.

Lemma phase_iterators d n : phase d -> phase (with_iterators d n).
Proof. intros [Hi H1 H0|k0 t0 k1 t1 T0 T1 Hi Hm]; [by apply idle|by eapply rehashing]. Qed.

(** Two dictionaries that differ in nothing an iterator reads. *)
Definition same_tables d d' : Prop := ht0 d' = ht0 d /\ ht1 d' = ht1 d /\ rehashidx d' = rehashidx d.

(** The result of a call started in [d], [it]. *)
Definition next_post d (it : dictIterator (K:=K) (V:=V)) (res : res (dict K V * dictIterator * option (dictEntry K V))) : Prop :=
  exists d' it' r, res = Ok (d', it', r) /\ same_tables d d' /\ phase d' /\ -1 <= iindex it' /\
    (itable it' = true -> dictIsRehashing d' = true) /\
    match r with Some e => rest_of d it = e :: rest_of d' it' | None => rest_of d it = [] end.

Definition parked (it : dictIterator (K:=K) (V:=V)) : dictIterator :=
  mk_iter (itable it) (iindex it) (isafe it) [] (inextEntry it) (ifingerprint it).

(** Having read [chain] as the next chain: return its head, or go on. *)
Lemma next_found fuel d it d1 it1 chain :
  (forall d it, phase d -> -1 <= iindex it -> (itable it = true -> dictIsRehashing d = true) ->
     steps_left d it < Z.of_nat fuel -> next_post d it (next_loop fuel addr d it)) ->
  same_tables d d1 -> phase d1 -> -1 <= iindex it1 -> (itable it1 = true -> dictIsRehashing d1 = true) ->
  steps_left d1 (parked it1) < Z.of_nat fuel -> rest_of d it = chain ++ rest_of d1 (parked it1) ->
  next_post d it (match chain with
    | e :: rest => Ok (d1, mk_iter (itable it1) (iindex it1) (isafe it1) chain rest (ifingerprint it1), Some e)
    | [] => next_loop fuel addr d1 (parked it1)
    end).
Proof.
  intros IH S1 P1 Hi1 Ht1 Hf1 Er. destruct chain as [|e rest].
  - destruct (IH d1 (parked it1) P1 Hi1 Ht1 Hf1) as (d' & it' & r & E & S' & P' & Hi' & Ht' & Hr). exists d', it', r.
    split; [done|]. split; [unfold same_tables in *; intuition congruence|]. split; [done|]. split; [done|]. split; [done|]. by rewrite Er.
  - eexists _, _, (Some e). split; [done|]. split; [done|]. split; [done|]. split; [done|]. split; [done|]. by rewrite Er.
Qed.

Lemma rehashing_size d : phase d -> dictIsRehashing d = true -> 0 < size (ht1 d).
Proof.
  intros [Hx _ _|k0 t0 k1 t1 T0 T1 Hx Hm] Er; [by rewrite idle_not_rehashing in Er|].
  destruct (table_used _ _ _ _ T1) as (_ & -> & _). pose proof (tb_k _ _ _ _ T1). lia.
Qed.

Lemma next_loop_ok fuel : forall d it, phase d -> -1 <= iindex it ->
  (itable it = true -> dictIsRehashing d = true) -> steps_left d it < Z.of_nat fuel ->
  next_post d it (next_loop fuel addr d it).
Proof.
  induction fuel as [|fuel IH]; intros d it P Hi Ht Hf.
  { unfold steps_left in Hf. destruct (table_view d true P) as [Hl _]. cbn [ht] in Hl. pose proof (zlen_nonneg (buckets (ht1 d))).
    destruct (itable it), (ientry it); lia. }
  cbn [next_loop]. destruct (ientry it) as [|e0 c0] eqn:Ee.
  2:{ apply (next_found fuel d it d it); [done..| |].
      - unfold steps_left in *. cbn in *. rewrite Ee in Hf. lia.
      - unfold rest_of at 1. rewrite Ee. done. }
  set (d1 := if (_ && _) && isafe it then with_iterators d (u64 (iterators d + 1)) else d).
  assert (same_tables d d1 /\ phase d1) as [S1 P1] by (subst d1; destruct (_ && isafe it); [split; [done|by apply phase_iterators]|done]).
  clearbody d1. set (fp := if _ && negb (isafe it) then _ else _). clearbody fp. set (index := iindex it + 1).
  pose proof S1 as (E0 & E1 & Ei). assert (forall tb, ht d1 tb = ht d tb) as Eht by (intros []; done).
  assert (dictIsRehashing d1 = dictIsRehashing d) as Erh by (unfold dictIsRehashing; by rewrite Ei).
  rewrite Eht, Erh. destruct (table_view d (itable it) P) as [Hlen Hbk].
  destruct (Z.leb_spec (size (ht d (itable it))) index) as [Hend|Hmore].
  - assert (drop (Z.to_nat index) (buckets (ht d (itable it))) = []) as Hdrop by (apply drop_ge; unfold zlen in *; lia).
    destruct (dictIsRehashing d && negb (itable it)) eqn:Eb.
    + apply andb_true_iff in Eb as [Er Etb]. destruct (itable it) eqn:Et; [done|].
      destruct (table_view d true P) as [Hlen1 Hbk1]. cbn [ht] in *. rewrite E1.
      pose proof (rehashing_size d P Er). destruct (Hbk1 0 ltac:(lia)) as (b & -> & Hd). cbn [mbind res_bind].
      apply (next_found fuel d it d1 (mk_iter true 0 (isafe it) [] (inextEntry it) fp)); cbn [itable iindex]; [done|done|done|lia|by rewrite Erh| |].
      * unfold steps_left in *. cbn in *. rewrite Et, Ee in Hf. cbn [ht] in Hf. rewrite E1. lia.
      * unfold rest_of. cbn [ientry itable iindex ht parked]. rewrite Ee, Et, Er. fold index. cbn [ht]. rewrite Hdrop. cbn [app concat negb andb].
        rewrite drop_0 in Hd. rewrite Hd at 1. rewrite Erh, Er, E1. cbn. by rewrite app_nil_r.
    + eexists d1, _, None. split; [done|]. split; [done|]. split; [done|]. cbn [iindex itable]. split; [lia|].
      split; [by rewrite Erh|]. unfold rest_of. rewrite Ee, Eb. fold index. by rewrite Hdrop.
  - destruct (Hbk index ltac:(lia)) as (b & -> & Hd). cbn [mbind res_bind].
    apply (next_found fuel d it d1 (mk_iter (itable it) index (isafe it) [] (inextEntry it) fp)); cbn [itable iindex]; [done|done|done|lia|by rewrite Erh| |].
    + unfold steps_left in *. cbn in *. rewrite Ee in Hf. rewrite Eht, E1. lia.
    + unfold rest_of. cbn [ientry itable iindex parked]. rewrite Ee, Erh, Eht, E1. fold index. rewrite Hd. cbn [concat app]. by rewrite <- app_assoc.
Qed.

(** Call [dictNext] until it returns NULL. *)
Fixpoint iterate (n : nat) d (it : dictIterator (K:=K) (V:=V)) : res (dict K V * dictIterator * list (dictEntry K V)) :=
  match n with
  | O => Fault OutOfFuel
  | S n =>
    '(d, it, r) ← dictNext addr d it;
    match r with
    | None => Ok (d, it, [])
    | Some e => '(d, it, l) ← iterate n d it; Ok (d, it, e :: l)
    end
  end.

Lemma steps_left_bound d it : phase d -> -1 <= iindex it -> steps_left d it < Z.of_nat (S (S (Z.to_nat (size (ht0 d) + size (ht1 d))))).
Proof.
  intros P Hi. unfold steps_left. destruct (table_view d true P) as [Hl1 _], (table_view d false P) as [Hl0 _]. cbn [ht] in *.
  pose proof (zlen_nonneg (buckets (ht1 d))). pose proof (zlen_nonneg (buckets (ht0 d))).
  destruct (itable it), (ientry it); cbn [ht]; lia.
Qed.

Lemma iterate_ok n : forall d it, phase d -> -1 <= iindex it -> (itable it = true -> dictIsRehashing d = true) ->
  (length (rest_of d it) < n)%nat ->
  exists d' it', iterate n d it = Ok (d', it', rest_of d it) /\ same_tables d d'.
Proof.
  induction n as [|n IH]; intros d it P Hi Ht Hn; [lia|]. cbn [iterate]. unfold dictNext.
  destruct (next_loop_ok _ d it P Hi Ht (steps_left_bound d it P Hi)) as (d1 & it1 & r & -> & S1 & P1 & Hi1 & Ht1 & Hr).
  cbn [mbind res_bind]. destruct r as [e|].
  - rewrite Hr in Hn. cbn in Hn. destruct (IH d1 it1 P1 Hi1 Ht1 ltac:(lia)) as (d2 & it2 & -> & S2). cbn [mbind res_bind].
    exists d2, it2. rewrite Hr. split; [done|]. unfold same_tables in *. intuition congruence.
  - exists d1, it1. by rewrite Hr.
Qed.
End Iteration.

(** An iterator over a dictionary that is not modified, safe or not and also in the
    middle of rehashing, returns every entry exactly once and then NULL, and leaves
    the tables as they were. *)
Theorem dictIterator_complete {K V : Type} `{dictTypeLaws K} (addr : bool -> Z) (d : dict K V) (safe : bool) :
  dict_wf d ->
  let it := if safe then dictGetSafeIterator else dictGetIterator in
  exists d' it', iterate addr (S (length (all d))) d it = Ok (d', it', all d) /\ same_tables d d'.
Proof.
  intros W it. assert (rest_of d it = all d) as Er.
  { pose proof (wf_phase _ W) as [Hi Hr _|k0 t0 k1 t1 T0 T1 Hi Hm]; unfold rest_of, all, entries, buckets; subst it.
    - rewrite idle_not_rehashing by done. rewrite Hr. destruct safe; cbn; rewrite ?app_nil_r; by destruct (table (ht0 d)).
    - rewrite rehashing_true by lia. destruct (table_used _ _ _ _ T0) as (_ & _ & _ & E0), (table_used _ _ _ _ T1) as (_ & _ & _ & E1).
      destruct safe; cbn; by rewrite E0, E1. }
  destruct (iterate_ok addr (S (length (all d))) d it (wf_phase _ W)) as (d' & it' & E & S).
  - subst it. destruct safe; cbn; lia.
  - subst it. by destruct safe.
  - rewrite Er. lia.
  - exists d', it'. rewrite Er in E. done.
Qed.

Lemma dictIterator_complete_witness :
  exists d' it', iterate (fun _ => 0) 3 demo_dict dictGetSafeIterator = Ok (d', it', [mk_entry 5 20; mk_entry 1 10]) /\
    same_tables demo_dict d'.
Proof. apply (dictIterator_complete (fun _ => 0) demo_dict true). apply demo_dict_wf. Defined.

(** ** Clearing and sampling *)

Section Sampling.
Context {K V : Type} {HT : dictType K} {HL : dictTypeLaws K}.
Implicit Types (d : dict K V) (h : dictht K V) (e : dictEntry K V).

Lemma clear_loop_ok n : forall k t h i freed, table_ok k (zlen (concat (drop (Z.to_nat i) t))) t h ->
  0 <= i -> Z.of_nat n = 2 ^ k - i -> zlen (concat t) < 2 ^ 40 ->
  exists h', clear_loop n h i freed = Ok (h', freed ++ concat (drop (Z.to_nat i) t)).
Proof.
  induction n as [|n IH]; intros k t h i freed T Hi Hn Hs; cbn [clear_loop].
  { exists h. rewrite drop_ge; [by rewrite app_nil_r|]. pose proof (tb_len _ _ _ _ T). unfold zlen in *. lia. }
  destruct (table_used _ _ _ _ T) as (Hu & -> & _). rewrite Hu. rewrite (proj2 (Z.ltb_lt i _)) by lia. cbn [andb].
  destruct (Z.ltb_spec 0 (zlen (concat (drop (Z.to_nat i) t)))) as [Hp|Hz].
  2:{ exists h. rewrite (zlen_0_nil (concat (drop (Z.to_nat i) t))); [by rewrite app_nil_r|zl]. }
  destruct (bucket_in _ _ _ _ i T ltac:(lia)) as (b & Hb & ->). cbn [mbind res_bind].
  assert (drop (Z.to_nat i) t = b :: drop (Z.to_nat (i + 1)) t) as Ed.
  { replace (Z.to_nat (i + 1)) with (S (Z.to_nat i)) by lia. by apply drop_S. }
  rewrite Ed in *. cbn [concat] in *. rewrite zlen_app in *.
  assert (zlen b + zlen (concat (drop (Z.to_nat (i + 1)) t)) < 2 ^ 40) as Hb40.
  { assert (zlen (concat t) = zlen (concat (take (Z.to_nat i) t)) + (zlen b + zlen (concat (drop (Z.to_nat (i + 1)) t)))) as Ez.
    { rewrite <- (take_drop (Z.to_nat i) t) at 1. rewrite concat_app, Ed. cbn [concat]. by rewrite !zlen_app. }
    pose proof (zlen_nonneg (concat (take (Z.to_nat i) t))). lia. }
  rewrite uwrap_id by (unfold in_u; zl).
  destruct (IH k t (with_used h (zlen b + zlen (concat (drop (Z.to_nat (i + 1)) t)) - zlen b)) (i + 1) (freed ++ b)) as (h' & ->); [|lia|lia|done|].
  - replace (zlen b + zlen (concat (drop (Z.to_nat (i + 1)) t)) - zlen b) with (zlen (concat (drop (Z.to_nat (i + 1)) t))) by lia.
    by eapply with_used_ok.
  - exists h'. by rewrite <- app_assoc.
Qed.

Lemma dictClear_ok h : ht_wf h -> zlen (entries h) < 2 ^ 40 -> _dictClear h = Ok (_dictReset, entries h).
Proof.
  intros [-> |k t T] Hs; [done|]. unfold _dictClear. rewrite (table_entries _ _ _ _ T) in *.
  destruct (table_used _ _ _ _ T) as (_ & -> & _). pose proof (tb_k _ _ _ _ T).
  destruct (clear_loop_ok (Z.to_nat (2 ^ k)) k t h 0 []) as (h' & E); [by rewrite drop_0|lia|lia|done|].
  rewrite E. by rewrite drop_0.
Qed.

Lemma phase_tables d : phase d -> ht_wf (ht0 d) /\ ht_wf (ht1 d).
Proof.
  intros [Hi H1 H0|k0 t0 k1 t1 T0 T1 Hi Hm]; [split; [done|by apply ht_reset]|split; by eapply ht_table].
Qed.

Lemma dictEmpty_ok d : dict_wf d -> dictEmpty d = Ok (dictCreate, all d).
Proof.
  intros W. destruct (phase_tables d (wf_phase _ W)) as [W0 W1]. pose proof (wf_small _ W) as S. unfold all in S. rewrite zlen_app in S.
  pose proof (zlen_nonneg (entries (ht0 d))). pose proof (zlen_nonneg (entries (ht1 d))).
  unfold dictEmpty. rewrite (dictClear_ok _ W0) by lia. cbn [mbind res_bind]. by rewrite (dictClear_ok _ W1) by lia.
Qed.

Lemma bucket_subset h i b e : ht_wf h -> bucket h i = Ok b -> e ∈ b -> e ∈ entries h.
Proof.
  intros _ E He. unfold bucket, entries in *. destruct (table h) as [t|]; [|done].
  destruct (0 <=? i); [|done]. destruct (t !! Z.to_nat i) as [b'|] eqn:El; [|done]. injection E as ->.
  rewrite (concat_split _ _ _ El), elem_of_app. by left.
Qed.

(** For any [random()] the bucket picked is one of the dictionary's. *)
Lemma random_bucket_ok rnd : forall d, phase d -> all d <> [] -> zlen (all d) < 2 ^ 40 -> Forall (fun r => 0 <= r) rnd ->
  match random_bucket rnd d with
  | Ok (he, rest) => he <> [] /\ (forall e, e ∈ he -> e ∈ all d) /\ Forall (fun r => 0 <= r) rest
  | Fault f => f = OutOfFuel
  end.
Proof.
  induction rnd as [|r rnd IH]; intros d P Hne Hs Hr; [done|]. inversion Hr as [|? ? Hr0 Hr']; subst. cbn [random_bucket].
  destruct (phase_table d P Hne Hs) as (k & t & T).
  assert (exists he, (if dictIsRehashing d then
       let m := u64 (size (ht0 d) + size (ht1 d) - rehashidx d) in
       if m =? 0 then Fault DivisionByZero else
       let h := u32 (rehashidx d + r mod m) in
       if size (ht0 d) <=? h then bucket (ht1 d) (h - size (ht0 d)) else bucket (ht0 d) h
     else bucket (ht0 d) (u32 (Z.land r (sizemask (ht0 d))))) = Ok he /\ (forall e, e ∈ he -> e ∈ all d)) as (he & Ehe & Hsub).
  { assert (forall tb i b, bucket (ht d tb) i = Ok b -> forall e, e ∈ b -> e ∈ all d) as Hall.
    { intros tb i b Eb e He. rewrite (all_ht d tb), elem_of_app. left. eapply (bucket_subset _ i b); [|done|done].
      destruct (phase_tables d P). by destruct tb. }
    pose proof P as [Hi H1 _|k0 t0 k1 t1 T0 T1 Hi Hm].
    - rewrite idle_not_rehashing by done. destruct (table_used _ _ _ _ T) as (_ & _ & -> & _). pose proof (tb_k _ _ _ _ T).
      assert (2 ^ k <= 2 ^ 30) by (apply Z.pow_le_mono_r; lia). pose proof (Z.mod_pos_bound r (2 ^ k) ltac:(lia)).
      rewrite land_mask, uwrap_id by (unfold in_u; lia). destruct (bucket_in _ _ _ _ (r mod 2 ^ k) T) as (b & _ & E); [lia|].
      exists b. split; [done|]. by apply (Hall false _ _ E).
    - rewrite rehashing_true by lia. destruct (table_used _ _ _ _ T0) as (_ & -> & _), (table_used _ _ _ _ T1) as (_ & -> & _).
      pose proof (tb_k _ _ _ _ T0). pose proof (tb_k _ _ _ _ T1). assert (2 ^ k0 <= 2 ^ 30) by (apply Z.pow_le_mono_r; lia).
      assert (2 ^ k1 <= 2 ^ 30) by (apply Z.pow_le_mono_r; lia). assert (0 < 2 ^ k1) by lia.
      rewrite (uwrap_id 64) by (unfold in_u; lia). cbn zeta. rewrite (proj2 (Z.eqb_neq _ _)) by lia.
      pose proof (Z.mod_pos_bound r (2 ^ k0 + 2 ^ k1 - rehashidx d) ltac:(lia)). rewrite uwrap_id by (unfold in_u; lia).
      destruct (Z.leb_spec (2 ^ k0) (rehashidx d + r mod (2 ^ k0 + 2 ^ k1 - rehashidx d))).
      + destruct (bucket_in _ _ _ _ (rehashidx d + r mod (2 ^ k0 + 2 ^ k1 - rehashidx d) - 2 ^ k0) T1) as (b & _ & E); [lia|].
        exists b. split; [done|]. by apply (Hall true _ _ E).
      + destruct (bucket_in _ _ _ _ (rehashidx d + r mod (2 ^ k0 + 2 ^ k1 - rehashidx d)) T0) as (b & _ & E); [lia|].
        exists b. split; [done|]. by apply (Hall false _ _ E). }
  cbv zeta in Ehe. rewrite Ehe. cbn [mbind res_bind]. destruct he as [|e he]; [by apply IH|done].
Qed.
End Sampling.

(** For every sequence of random numbers [dictGetRandomKey] stays inside the tables,
    divides by nothing that is zero and, when it has drawn enough numbers to hit a
    non-empty bucket, returns an entry of the dictionary, NULL only for an empty one. *)
Theorem dictGetRandomKey_member {K V : Type} `{dictTypeLaws K} (d : dict K V) (rnd : list Z) :
  dict_wf d -> Forall (fun r => 0 <= r) rnd ->
  match dictGetRandomKey rnd d with
  | Ok (d', r) => dict_wf d' /\ all d' ≡ₚ all d /\
      match r with Some e => e ∈ all d | None => all d = [] end
  | Fault f => f = OutOfFuel
  end.
Proof.
  intros W Hr. pose proof W as [P N S]. unfold dictGetRandomKey, dictSize. destruct (used_zero d P S) as (Hu & _).
  pose proof (zlen_nonneg (all d)). rewrite Hu, uwrap_id by (unfold in_u; lia).
  destruct (Z.eqb_spec (zlen (all d)) 0) as [Hz|Hz]; [split; [done|]; split; [done|by apply zlen_0_nil]|].
  destruct (rehash_step_ok d W) as (d1 & -> & W1 & E1). cbn [mbind res_bind].
  assert (all d1 <> []) as Hn by (apply (perm_nonempty d); [done|]; intros Hnil; by rewrite Hnil in Hz).
  pose proof (random_bucket_ok rnd d1 (wf_phase _ W1) Hn (wf_small _ W1) Hr) as Hb.
  destruct (random_bucket rnd d1) as [[he rest]|f]; [|done]. cbn [mbind res_bind]. destruct Hb as (Hne & Hsub & Hrest).
  destruct rest as [|r rest]; [done|]. inversion Hrest as [|? ? Hr0 _]; subst.
  assert (0 < zlen he) by (destruct he; [done|zl]). pose proof (Z.mod_pos_bound r (zlen he) ltac:(lia)).
  destruct (lookup_lt_is_Some_2 he (Z.to_nat (r mod zlen he))) as [e He]; [unfold zlen in *; lia|].
  rewrite He. split; [done|]. split; [done|]. rewrite <- E1. apply Hsub. by apply list_elem_of_lookup_2 in He.
Qed.

Lemma dictGetRandomKey_member_witness :
  match dictGetRandomKey [3; 3; 5] demo_dict with
  | Ok (d', r) => dict_wf d' /\ all d' ≡ₚ all demo_dict /\
      match r with Some e => e ∈ all demo_dict | None => all demo_dict = [] end
  | Fault f => f = OutOfFuel
  end.
Proof. apply dictGetRandomKey_member; [apply demo_dict_wf|]. repeat constructor; lia. Defined.
End DictScan.
