(* ===== verification/Ziplist.v ===== *)
(** * Ziplists: src/redis-stable/src/ziplist.c

    The blob is modelled byte for byte on a little endian host. A pointer into
    the blob is its offset, a string argument with its length is the list of its
    bytes, and the macros that decode entry headers are functions that return the
    variables they assign. This file holds the code, the layout of an entry and
    the lemmas on the encoders and decoders; [ZiplistOps] verifies the operations. *)
From S2P Require Import Prelude Util.

Module Ziplist.

Definition ZIP_END : Z := 255.
Definition ZIP_BIG_PREVLEN : Z := 254.

Definition ZIP_STR_MASK : Z := 0xc0.
Definition ZIP_STR_06B : Z := Z.shiftl 0 6.
Definition ZIP_STR_14B : Z := Z.shiftl 1 6.
Definition ZIP_STR_32B : Z := Z.shiftl 2 6.
Definition ZIP_INT_16B : Z := Z.lor 0xc0 (Z.shiftl 0 4).
Definition ZIP_INT_32B : Z := Z.lor 0xc0 (Z.shiftl 1 4).
Definition ZIP_INT_64B : Z := Z.lor 0xc0 (Z.shiftl 2 4).
Definition ZIP_INT_24B : Z := Z.lor 0xc0 (Z.shiftl 3 4).
Definition ZIP_INT_8B : Z := 0xfe.
Definition ZIP_INT_IMM_MASK : Z := 0x0f.
Definition ZIP_INT_IMM_MIN : Z := 0xf1.
Definition ZIP_INT_IMM_MAX : Z := 0xfd.
Definition INT24_MAX : Z := 0x7fffff.
Definition INT24_MIN : Z := - INT24_MAX - 1.
Definition UINT16_MAX : Z := 2 ^ 16 - 1.
Definition UCHAR_MAX : Z := 255.

Definition ZIP_IS_STR (enc : Z) : bool := Z.land enc ZIP_STR_MASK <? ZIP_STR_MASK.

(** ** The header *)

Definition ZIPLIST_HEADER_SIZE : Z := 4 * 2 + 2.
Definition ZIPLIST_END_SIZE : Z := 1.

Definition ZIPLIST_BYTES (zl : list Z) : res Z := le_val <$> rd zl 0 4.
Definition ZIPLIST_TAIL_OFFSET (zl : list Z) : res Z := le_val <$> rd zl 4 4.
Definition ZIPLIST_LENGTH (zl : list Z) : res Z := le_val <$> rd zl 8 2.
Definition set_ZIPLIST_BYTES (zl : list Z) (v : Z) : res (list Z) := wr zl 0 (le_bytes 4 v).
Definition set_ZIPLIST_TAIL_OFFSET (zl : list Z) (v : Z) : res (list Z) := wr zl 4 (le_bytes 4 v).
Definition set_ZIPLIST_LENGTH (zl : list Z) (v : Z) : res (list Z) := wr zl 8 (le_bytes 2 v).

Definition ZIPLIST_ENTRY_HEAD : Z := ZIPLIST_HEADER_SIZE.
Definition ZIPLIST_ENTRY_TAIL (zl : list Z) : res Z := ZIPLIST_TAIL_OFFSET zl.
Definition ZIPLIST_ENTRY_END (zl : list Z) : res Z :=
  bytes ← ZIPLIST_BYTES zl; Ok (bytes - 1).

Definition ZIPLIST_INCR_LENGTH (zl : list Z) (incr : Z) : res (list Z) :=
  len ← ZIPLIST_LENGTH zl;
  if len <? UINT16_MAX then set_ZIPLIST_LENGTH zl (len + incr) else Ok zl.

(** ** Entry headers *)

Record zlentry := mk_zlentry {
  prevrawlensize : Z; prevrawlen : Z; lensize : Z; len : Z; headersize : Z; encoding : Z; zp : Z }.

Definition ZIP_ENTRY_ENCODING (zl : list Z) (ptr : Z) : res Z :=
  enc ← peek zl ptr;
  Ok (if enc <? ZIP_STR_MASK then Z.land enc ZIP_STR_MASK else enc).

Definition zipIntSize (enc : Z) : res Z :=
  if enc =? ZIP_INT_8B then Ok 1
  else if enc =? ZIP_INT_16B then Ok 2
  else if enc =? ZIP_INT_24B then Ok 3
  else if enc =? ZIP_INT_32B then Ok 4
  else if enc =? ZIP_INT_64B then Ok 8
  else if (ZIP_INT_IMM_MIN <=? enc) && (enc <=? ZIP_INT_IMM_MAX) then Ok 0
  else Fault AssertFailed.

(** [zipStoreEntryEncoding] with a NULL pointer: the size of the header. *)
Definition zipStoreEntryEncoding_len (enc rawlen : Z) : Z :=
  if ZIP_IS_STR enc then
    if rawlen <=? 0x3f then 1
    else if rawlen <=? 0x3fff then 1 + 1
    else 1 + 4
  else 1.

(** The first [len] bytes of its local array [buf]. *)
Definition zipStoreEntryEncoding_buf (enc rawlen : Z) : list Z :=
  if ZIP_IS_STR enc then
    if rawlen <=? 0x3f then [u8 (Z.lor ZIP_STR_06B rawlen)]
    else if rawlen <=? 0x3fff then
      [Z.lor ZIP_STR_14B (Z.land (Z.shiftr rawlen 8) 0x3f); Z.land rawlen 0xff]
    else
      [ZIP_STR_32B; Z.land (Z.shiftr rawlen 24) 0xff; Z.land (Z.shiftr rawlen 16) 0xff;
       Z.land (Z.shiftr rawlen 8) 0xff; Z.land rawlen 0xff]
  else [enc].

Definition zipStoreEntryEncoding (zl : list Z) (p enc rawlen : Z) : res (list Z * Z) :=
  let buf := zipStoreEntryEncoding_buf enc rawlen in
  zl ← wr zl p buf; Ok (zl, zlen buf).

(** [encoding], [lensize] and [len]. *)
Definition ZIP_DECODE_LENGTH (zl : list Z) (ptr : Z) : res (Z * Z * Z) :=
  enc ← ZIP_ENTRY_ENCODING zl ptr;
  if enc <? ZIP_STR_MASK then
    if enc =? ZIP_STR_06B then
      b0 ← peek zl ptr; Ok (enc, 1, Z.land b0 0x3f)
    else if enc =? ZIP_STR_14B then
      b0 ← peek zl ptr; b1 ← peek zl (ptr + 1);
      Ok (enc, 2, Z.lor (Z.shiftl (Z.land b0 0x3f) 8) b1)
    else if enc =? ZIP_STR_32B then
      b1 ← peek zl (ptr + 1); b2 ← peek zl (ptr + 2); b3 ← peek zl (ptr + 3); b4 ← peek zl (ptr + 4);
      Ok (enc, 5, u32 (Z.lor (Z.lor (Z.lor (Z.shiftl b1 24) (Z.shiftl b2 16)) (Z.shiftl b3 8)) b4))
    else Fault AssertFailed
  else
    n ← zipIntSize enc; Ok (enc, 1, n).

Definition zipStorePrevEntryLengthLarge (zl : list Z) (p len : Z) : res (list Z * Z) :=
  zl ← poke zl p ZIP_BIG_PREVLEN;
  zl ← wr zl (p + 1) (le_bytes 4 len);
  Ok (zl, 1 + 4).

(** [zipStorePrevEntryLength] with a NULL pointer. *)
Definition zipStorePrevEntryLength_len (len : Z) : Z :=
  if len <? ZIP_BIG_PREVLEN then 1 else 4 + 1.

Definition zipStorePrevEntryLength (zl : list Z) (p len : Z) : res (list Z * Z) :=
  if len <? ZIP_BIG_PREVLEN then
    zl ← poke zl p (u8 len); Ok (zl, 1)
  else zipStorePrevEntryLengthLarge zl p len.

Definition ZIP_DECODE_PREVLENSIZE (zl : list Z) (ptr : Z) : res Z :=
  b0 ← peek zl ptr;
  Ok (if b0 <? ZIP_BIG_PREVLEN then 1 else 5).

(** [prevlensize] and [prevlen]. *)
Definition ZIP_DECODE_PREVLEN (zl : list Z) (ptr : Z) : res (Z * Z) :=
  prevlensize ← ZIP_DECODE_PREVLENSIZE zl ptr;
  prevlen ← (if prevlensize =? 1 then peek zl ptr else le_val <$> rd zl (ptr + 1) 4);
  Ok (prevlensize, prevlen).

Definition zipPrevLenByteDiff (zl : list Z) (p len : Z) : res Z :=
  prevlensize ← ZIP_DECODE_PREVLENSIZE zl p;
  Ok (i32 (u32 (zipStorePrevEntryLength_len len - prevlensize))).

Definition zipRawEntryLength (zl : list Z) (p : Z) : res Z :=
  prevlensize ← ZIP_DECODE_PREVLENSIZE zl p;
  '(_, lensize, len) ← ZIP_DECODE_LENGTH zl (p + prevlensize);
  Ok (u32 (prevlensize + lensize + len)).

(** The smallest encoding that holds [value]. *)
Definition int_encoding (value : Z) : Z :=
  if (0 <=? value) && (value <=? 12) then u8 (ZIP_INT_IMM_MIN + value)
  else if (- 2 ^ 7 <=? value) && (value <=? 2 ^ 7 - 1) then ZIP_INT_8B
  else if (- 2 ^ 15 <=? value) && (value <=? 2 ^ 15 - 1) then ZIP_INT_16B
  else if (INT24_MIN <=? value) && (value <=? INT24_MAX) then ZIP_INT_24B
  else if (- 2 ^ 31 <=? value) && (value <=? 2 ^ 31 - 1) then ZIP_INT_32B
  else ZIP_INT_64B.

(** [*v] and [*encoding] when the function returns 1. *)
Definition zipTryEncoding (entry : list Z) : option (Z * Z) :=
  if (32 <=? zlen entry) || (zlen entry =? 0) then None else
  match string2ll entry with
  | Some value => Some (value, int_encoding value)
  | None => None
  end.

Definition zipSaveInteger (zl : list Z) (p value enc : Z) : res (list Z) :=
  if enc =? ZIP_INT_8B then poke zl p (u8 value)
  else if enc =? ZIP_INT_16B then wr zl p (le_bytes 2 value)
  else if enc =? ZIP_INT_24B then wr zl p (drop 1 (le_bytes 4 (Z.shiftl value 8)))
  else if enc =? ZIP_INT_32B then wr zl p (le_bytes 4 value)
  else if enc =? ZIP_INT_64B then wr zl p (le_bytes 8 value)
  else if (ZIP_INT_IMM_MIN <=? enc) && (enc <=? ZIP_INT_IMM_MAX) then Ok zl
  else Fault AssertFailed.

Definition zipLoadInteger (zl : list Z) (p enc : Z) : res Z :=
  if enc =? ZIP_INT_8B then b ← peek zl p; Ok (i8 b)
  else if enc =? ZIP_INT_16B then b ← rd zl p 2; Ok (i16 (le_val b))
  else if enc =? ZIP_INT_32B then b ← rd zl p 4; Ok (i32 (le_val b))
  else if enc =? ZIP_INT_24B then b ← rd zl p 3; Ok (Z.shiftr (i32 (le_val (0 :: b))) 8)
  else if enc =? ZIP_INT_64B then b ← rd zl p 8; Ok (i64 (le_val b))
  else if (ZIP_INT_IMM_MIN <=? enc) && (enc <=? ZIP_INT_IMM_MAX)
    then Ok (Z.land enc ZIP_INT_IMM_MASK - 1)
  else Fault AssertFailed.

Definition zipEntry (zl : list Z) (p : Z) : res zlentry :=
  '(prevrawlensize, prevrawlen) ← ZIP_DECODE_PREVLEN zl p;
  '(enc, lensize, len) ← ZIP_DECODE_LENGTH zl (p + prevrawlensize);
  Ok (mk_zlentry prevrawlensize prevrawlen lensize len (u32 (prevrawlensize + lensize)) enc p).

(** ** Operations *)

Section Alloc.
(** The contents of freshly allocated memory. *)
Context (junk : Z -> Z).

Definition ziplistNew : res (list Z) :=
  let bytes := ZIPLIST_HEADER_SIZE + 1 in
  let zl := zrealloc junk [] bytes in
  zl ← set_ZIPLIST_BYTES zl bytes;
  zl ← set_ZIPLIST_TAIL_OFFSET zl ZIPLIST_HEADER_SIZE;
  zl ← set_ZIPLIST_LENGTH zl 0;
  poke zl (bytes - 1) ZIP_END.

(** [len] is an [unsigned int]. *)
Definition ziplistResize (zl : list Z) (len : Z) : res (list Z) :=
  let len := u32 len in
  let zl := zrealloc junk zl len in
  zl ← set_ZIPLIST_BYTES zl len;
  poke zl (len - 1) ZIP_END.

(** The [while] loop of [__ziplistCascadeUpdate]. *)
Fixpoint cascade_loop (fuel : nat) (zl : list Z) (p curlen : Z) : res (list Z) :=
  match fuel with
  | O => Fault OutOfFuel
  | S fuel =>
    p0 ← peek zl p;
    if p0 =? ZIP_END then Ok zl else
    cur ← zipEntry zl p;
    let rawlen := u32 (headersize cur + len cur) in
    let rawlensize := zipStorePrevEntryLength_len rawlen in
    pn ← peek zl (p + rawlen);
    if pn =? ZIP_END then Ok zl else
    next ← zipEntry zl (p + rawlen);
    if prevrawlen next =? rawlen then Ok zl else
    if prevrawlensize next <? rawlensize then
      let extra := rawlensize - prevrawlensize next in
      zl ← ziplistResize zl (curlen + extra);
      let np := p + rawlen in
      let noffset := np in
      toff ← ZIPLIST_TAIL_OFFSET zl;
      zl ← (if negb (toff =? np) then set_ZIPLIST_TAIL_OFFSET zl (toff + extra) else Ok zl);
      zl ← memmove zl (np + rawlensize) (np + prevrawlensize next)
             (u64 (curlen - noffset - prevrawlensize next - 1));
      '(zl, _) ← zipStorePrevEntryLength zl np rawlen;
      cascade_loop fuel zl (p + rawlen) (curlen + extra)
    else
      '(zl, _) ← (if rawlensize <? prevrawlensize next
                  then zipStorePrevEntryLengthLarge zl (p + rawlen) rawlen
                  else zipStorePrevEntryLength zl (p + rawlen) rawlen);
      Ok zl
  end.

Definition __ziplistCascadeUpdate (zl : list Z) (p : Z) : res (list Z) :=
  curlen ← ZIPLIST_BYTES zl;
  cascade_loop (S (length zl)) zl p curlen.

(** [for (i = 0; p[0] != ZIP_END && i < num; i++)]; returns [p] and [deleted]. *)
Fixpoint delete_loop (fuel : nat) (zl : list Z) (p i num deleted : Z) : res (Z * Z) :=
  match fuel with
  | O => Fault OutOfFuel
  | S fuel =>
    p0 ← peek zl p;
    if negb (p0 =? ZIP_END) && (i <? num) then
      n ← zipRawEntryLength zl p;
      delete_loop fuel zl (p + n) (i + 1) num (deleted + 1)
    else Ok (p, deleted)
  end.

(** The branch of [__ziplistDelete] with entries behind the deleted ones;
    returns the blob and [nextdiff]. *)
Definition delete_move (zl : list Z) (p totlen : Z) (first : zlentry) : res (list Z * Z) :=
  nextdiff ← zipPrevLenByteDiff zl p (prevrawlen first);
  let p := p - nextdiff in
  '(zl, _) ← zipStorePrevEntryLength zl p (prevrawlen first);
  toff ← ZIPLIST_TAIL_OFFSET zl;
  zl ← set_ZIPLIST_TAIL_OFFSET zl (toff - totlen);
  tail ← zipEntry zl p;
  pe ← peek zl (p + u32 (headersize tail + len tail));
  zl ← (if negb (pe =? ZIP_END) then
          toff ← ZIPLIST_TAIL_OFFSET zl; set_ZIPLIST_TAIL_OFFSET zl (toff + nextdiff)
        else Ok zl);
  bytes ← ZIPLIST_BYTES zl;
  zl ← memmove zl (zp first) p (u64 (bytes - p - 1));
  Ok (zl, nextdiff).

Definition __ziplistDelete (zl : list Z) (p num : Z) : res (list Z) :=
  first ← zipEntry zl p;
  '(p, deleted) ← delete_loop (S (length zl)) zl p 0 num 0;
  let totlen := u32 (p - zp first) in
  if 0 <? totlen then
    p0 ← peek zl p;
    '(zl, nextdiff) ← (if negb (p0 =? ZIP_END) then delete_move zl p totlen first
       else zl ← set_ZIPLIST_TAIL_OFFSET zl (zp first - prevrawlen first); Ok (zl, 0));
    let offset := zp first in
    bytes ← ZIPLIST_BYTES zl;
    zl ← ziplistResize zl (bytes - totlen + nextdiff);
    zl ← ZIPLIST_INCR_LENGTH zl (- deleted);
    if negb (nextdiff =? 0) then __ziplistCascadeUpdate zl offset else Ok zl
  else Ok zl.

(** The previous length for an entry inserted at [p]. *)
Definition insert_prevlen (zl : list Z) (p : Z) : res Z :=
  p0 ← peek zl p;
  if negb (p0 =? ZIP_END) then
    '(_, prevlen) ← ZIP_DECODE_PREVLEN zl p; Ok prevlen
  else
    ptail ← ZIPLIST_ENTRY_TAIL zl;
    t0 ← peek zl ptail;
    if negb (t0 =? ZIP_END) then zipRawEntryLength zl ptail else Ok 0.

(** Making room at [p] for [reqlen] bytes in front of an existing entry. *)
Definition insert_move (zl : list Z) (p reqlen nextdiff curlen : Z) (forcelarge : bool) : res (list Z) :=
  zl ← memmove zl (p + reqlen) (p - nextdiff) (u64 (curlen - p - 1 + nextdiff));
  '(zl, _) ← (if forcelarge then zipStorePrevEntryLengthLarge zl (p + reqlen) reqlen
              else zipStorePrevEntryLength zl (p + reqlen) reqlen);
  toff ← ZIPLIST_TAIL_OFFSET zl;
  zl ← set_ZIPLIST_TAIL_OFFSET zl (toff + reqlen);
  tail ← zipEntry zl (p + reqlen);
  pe ← peek zl (p + (reqlen + headersize tail + len tail));
  if negb (pe =? ZIP_END) then
    toff ← ZIPLIST_TAIL_OFFSET zl; set_ZIPLIST_TAIL_OFFSET zl (toff + nextdiff)
  else Ok zl.

(** Writing the entry at [p]. *)
Definition insert_write (zl : list Z) (p prevlen value enc : Z) (s : list Z) : res (list Z) :=
  '(zl, n) ← zipStorePrevEntryLength zl p prevlen;
  let p := p + n in
  '(zl, n) ← zipStoreEntryEncoding zl p enc (zlen s);
  let p := p + n in
  if ZIP_IS_STR enc then wr zl p s else zipSaveInteger zl p value enc.

Definition __ziplistInsert (zl : list Z) (p : Z) (s : list Z) : res (list Z) :=
  curlen ← ZIPLIST_BYTES zl;
  prevlen ← insert_prevlen zl p;
  '(value, enc, reqlen) ← (match zipTryEncoding s with
    | Some (value, enc) => n ← zipIntSize enc; Ok (value, enc, n)
    | None => Ok (123456789, 0, zlen s)
    end);
  let reqlen := reqlen + zipStorePrevEntryLength_len prevlen in
  let reqlen := reqlen + zipStoreEntryEncoding_len enc (zlen s) in
  p0 ← peek zl p;
  nextdiff ← (if negb (p0 =? ZIP_END) then zipPrevLenByteDiff zl p (u32 reqlen) else Ok 0);
  let forcelarge := (nextdiff =? -4) && (reqlen <? 4) in
  let nextdiff := if forcelarge then 0 else nextdiff in
  zl ← ziplistResize zl (curlen + reqlen + nextdiff);
  p0 ← peek zl p;
  zl ← (if negb (p0 =? ZIP_END) then insert_move zl p reqlen nextdiff curlen forcelarge
        else set_ZIPLIST_TAIL_OFFSET zl p);
  zl ← (if negb (nextdiff =? 0) then __ziplistCascadeUpdate zl (p + reqlen) else Ok zl);
  zl ← insert_write zl p prevlen value enc s;
  ZIPLIST_INCR_LENGTH zl 1.

(** [first] and [second] are the blobs the two arguments point to, [None] for NULL,
    [same] tells whether they are the same blob. The result is the merged blob and
    whether it replaces [*first] (the other argument becomes NULL). *)
Definition ziplistMerge (first second : option (list Z)) (same : bool) : res (option (list Z * bool)) :=
  match first, second with
  | Some first, Some second =>
    if same then Ok None else
    first_bytes ← ZIPLIST_BYTES first;
    first_len ← ZIPLIST_LENGTH first;
    second_bytes ← ZIPLIST_BYTES second;
    second_len ← ZIPLIST_LENGTH second;
    let append := second_len <=? first_len in
    let target := if append then first else second in
    let target_bytes := if append then first_bytes else second_bytes in
    let source := if append then second else first in
    let source_bytes := if append then second_bytes else first_bytes in
    let zlbytes := u64 (first_bytes + second_bytes - ZIPLIST_HEADER_SIZE - ZIPLIST_END_SIZE) in
    let zllength := first_len + second_len in
    let zllength := if zllength <? UINT16_MAX then zllength else UINT16_MAX in
    first_offset ← ZIPLIST_TAIL_OFFSET first;
    second_offset ← ZIPLIST_TAIL_OFFSET second;
    let target := zrealloc junk target zlbytes in
    target ← (if append then
      b ← rd source ZIPLIST_HEADER_SIZE (u64 (source_bytes - ZIPLIST_HEADER_SIZE));
      wr target (target_bytes - ZIPLIST_END_SIZE) b
    else
      target ← memmove target (source_bytes - ZIPLIST_END_SIZE) ZIPLIST_HEADER_SIZE
                 (u64 (target_bytes - ZIPLIST_HEADER_SIZE));
      b ← rd source 0 (u64 (source_bytes - ZIPLIST_END_SIZE));
      wr target 0 b);
    target ← set_ZIPLIST_BYTES target zlbytes;
    target ← set_ZIPLIST_LENGTH target zllength;
    target ← set_ZIPLIST_TAIL_OFFSET target
      ((first_bytes - ZIPLIST_END_SIZE) + (second_offset - ZIPLIST_HEADER_SIZE));
    target ← __ziplistCascadeUpdate target first_offset;
    Ok (Some (target, append))
  | _, _ => Ok None
  end.

Inductive where_ := ZIPLIST_HEAD | ZIPLIST_TAIL.

Definition ziplistPush (zl : list Z) (s : list Z) (where_ : where_) : res (list Z) :=
  p ← (match where_ with ZIPLIST_HEAD => Ok ZIPLIST_ENTRY_HEAD | ZIPLIST_TAIL => ZIPLIST_ENTRY_END zl end);
  __ziplistInsert zl p s.

Definition ziplistInsert (zl : list Z) (p : Z) (s : list Z) : res (list Z) := __ziplistInsert zl p s.

(** The blob and the new value of [*p]. *)
Definition ziplistDelete (zl : list Z) (p : Z) : res (list Z * Z) :=
  let offset := p in
  zl ← __ziplistDelete zl p 1;
  Ok (zl, offset).

(** [while (prevlen > 0 && index--)] of [ziplistIndex]; returns [p] and [index]. *)
Fixpoint index_back (fuel : nat) (zl : list Z) (p prevlen index : Z) : res (Z * Z) :=
  match fuel with
  | O => Fault OutOfFuel
  | S fuel =>
    if 0 <? prevlen then
      if negb (index =? 0) then
        let p := p - prevlen in
        '(_, prevlen) ← ZIP_DECODE_PREVLEN zl p;
        index_back fuel zl p prevlen (index - 1)
      else Ok (p, index - 1)
    else Ok (p, index)
  end.

(** [while (p[0] != ZIP_END && index--)]. *)
Fixpoint index_forward (fuel : nat) (zl : list Z) (p index : Z) : res (Z * Z) :=
  match fuel with
  | O => Fault OutOfFuel
  | S fuel =>
    p0 ← peek zl p;
    if negb (p0 =? ZIP_END) then
      if negb (index =? 0) then
        n ← zipRawEntryLength zl p;
        index_forward fuel zl (p + n) (index - 1)
      else Ok (p, index - 1)
    else Ok (p, index)
  end.

(** [None] is the NULL pointer. *)
Definition ziplistIndex (zl : list Z) (index : Z) : res (option Z) :=
  '(p, index) ← (if index <? 0 then
      let index := i32 (- index) - 1 in
      p ← ZIPLIST_ENTRY_TAIL zl;
      p0 ← peek zl p;
      if negb (p0 =? ZIP_END) then
        '(_, prevlen) ← ZIP_DECODE_PREVLEN zl p;
        index_back (S (length zl)) zl p prevlen index
      else Ok (p, index)
    else index_forward (S (length zl)) zl ZIPLIST_ENTRY_HEAD index);
  p0 ← peek zl p;
  Ok (if (p0 =? ZIP_END) || (0 <? index) then None else Some p).

Definition ziplistNext (zl : list Z) (p : Z) : res (option Z) :=
  p0 ← peek zl p;
  if p0 =? ZIP_END then Ok None else
  n ← zipRawEntryLength zl p;
  let p := p + n in
  p0 ← peek zl p;
  if p0 =? ZIP_END then Ok None else Ok (Some p).

Definition ziplistPrev (zl : list Z) (p : Z) : res (option Z) :=
  p0 ← peek zl p;
  if p0 =? ZIP_END then
    p ← ZIPLIST_ENTRY_TAIL zl;
    p0 ← peek zl p;
    Ok (if p0 =? ZIP_END then None else Some p)
  else if p =? ZIPLIST_ENTRY_HEAD then Ok None
  else
    '(_, prevlen) ← ZIP_DECODE_PREVLEN zl p;
    _ ← assert_ (0 <? prevlen);
    Ok (Some (p - prevlen)).

(** What [ziplistGet] stores through its arguments: [*sstr] and [*slen], or [*sval]. *)
Inductive zlget := Sstr (sstr slen : Z) | Sval (sval : Z).

Definition ziplistGet (zl : list Z) (p : option Z) : res (option zlget) :=
  match p with
  | None => Ok None
  | Some p =>
    p0 ← peek zl p;
    if p0 =? ZIP_END then Ok None else
    entry ← zipEntry zl p;
    if ZIP_IS_STR (encoding entry) then Ok (Some (Sstr (p + headersize entry) (len entry)))
    else
      v ← zipLoadInteger zl (p + headersize entry) (encoding entry);
      Ok (Some (Sval v))
  end.

Definition ziplistDeleteRange (zl : list Z) (index num : Z) : res (list Z) :=
  p ← ziplistIndex zl index;
  match p with
  | None => Ok zl
  | Some p => __ziplistDelete zl p num
  end.

Definition ziplistCompare (zl : list Z) (p : Z) (sstr : list Z) : res bool :=
  p0 ← peek zl p;
  if p0 =? ZIP_END then Ok false else
  entry ← zipEntry zl p;
  if ZIP_IS_STR (encoding entry) then
    if len entry =? zlen sstr then
      b ← rd zl (p + headersize entry) (zlen sstr); Ok (bool_decide (b = sstr))
    else Ok false
  else
    match zipTryEncoding sstr with
    | Some (sval, _) =>
      zval ← zipLoadInteger zl (p + headersize entry) (encoding entry);
      Ok (zval =? sval)
    | None => Ok false
    end.

(** The [while] loop of [ziplistFind]. *)
Fixpoint find_loop (fuel : nat) (zl : list Z) (p : Z) (vstr : list Z)
    (skip skipcnt vencoding vll : Z) : res (option Z) :=
  match fuel with
  | O => Fault OutOfFuel
  | S fuel =>
    p0 ← peek zl p;
    if p0 =? ZIP_END then Ok None else
    prevlensize ← ZIP_DECODE_PREVLENSIZE zl p;
    '(enc, lensize, len) ← ZIP_DECODE_LENGTH zl (p + prevlensize);
    let q := p + prevlensize + lensize in
    if skipcnt =? 0 then
      if ZIP_IS_STR enc then
        found ← (if len =? zlen vstr then b ← rd zl q (zlen vstr); Ok (bool_decide (b = vstr))
                 else Ok false);
        if found : bool then Ok (Some p)
        else find_loop fuel zl (q + len) vstr skip (i32 skip) vencoding vll
      else
        let '(vll, vencoding) :=
          if vencoding =? 0 then
            match zipTryEncoding vstr with
            | Some (v, e) => (v, e)
            | None => (vll, UCHAR_MAX)
            end
          else (vll, vencoding) in
        _ ← assert_ (negb (vencoding =? 0));
        found ← (if negb (vencoding =? UCHAR_MAX) then
                   ll ← zipLoadInteger zl q enc; Ok (ll =? vll)
                 else Ok false);
        if found : bool then Ok (Some p)
        else find_loop fuel zl (q + len) vstr skip (i32 skip) vencoding vll
    else find_loop fuel zl (q + len) vstr skip (skipcnt - 1) vencoding vll
  end.

Definition ziplistFind (zl : list Z) (p : Z) (vstr : list Z) (skip : Z) : res (option Z) :=
  find_loop (S (length zl)) zl p vstr skip 0 0 0.

(** [while ( *p != ZIP_END)] of [ziplistLen]. *)
Fixpoint len_loop (fuel : nat) (zl : list Z) (p len : Z) : res Z :=
  match fuel with
  | O => Fault OutOfFuel
  | S fuel =>
    p0 ← peek zl p;
    if p0 =? ZIP_END then Ok len else
    n ← zipRawEntryLength zl p;
    len_loop fuel zl (p + n) (len + 1)
  end.

(** The blob, whose length field may be restored, and the result. *)
Definition ziplistLen (zl : list Z) : res (list Z * Z) :=
  l ← ZIPLIST_LENGTH zl;
  if l <? UINT16_MAX then Ok (zl, l)
  else
    len ← len_loop (S (length zl)) zl ZIPLIST_HEADER_SIZE 0;
    if len <? UINT16_MAX then zl ← set_ZIPLIST_LENGTH zl len; Ok (zl, len)
    else Ok (zl, len).

Definition ziplistBlobLen (zl : list Z) : res Z := ZIPLIST_BYTES zl.
End Alloc.


(** ** The layout of entries *)

(** What an entry holds. Text that is a canonical numeral is kept as a number. *)
Inductive zlvalue := ZStr (s : list Z) | ZInt (v : Z).

Definition val_of (s : list Z) : zlvalue :=
  match zipTryEncoding s with Some (v, _) => ZInt v | None => ZStr s end.
Definition text (v : zlvalue) : list Z := match v with ZStr s => s | ZInt v => dec v end.

Definition int_size (v : Z) : nat :=
  if (0 <=? v) && (v <=? 12) then 0
  else if (- 2 ^ 7 <=? v) && (v <=? 2 ^ 7 - 1) then 1
  else if (- 2 ^ 15 <=? v) && (v <=? 2 ^ 15 - 1) then 2
  else if (INT24_MIN <=? v) && (v <=? INT24_MAX) then 3
  else if (- 2 ^ 31 <=? v) && (v <=? 2 ^ 31 - 1) then 4
  else 8.
Definition val_enc (v : zlvalue) : Z := match v with ZStr _ => 0 | ZInt v => int_encoding v end.
Definition val_hdr (v : zlvalue) : list Z :=
  match v with
  | ZStr s => zipStoreEntryEncoding_buf 0 (zlen s)
  | ZInt v => [int_encoding v]
  end.
Definition val_data (v : zlvalue) : list Z :=
  match v with ZStr s => s | ZInt v => le_bytes (int_size v) v end.
Definition val_bytes (v : zlvalue) : list Z := val_hdr v ++ val_data v.

(** The encoding byte that [ZIP_DECODE_LENGTH] reports. *)
Definition dec_enc (v : zlvalue) : Z :=
  match v with
  | ZStr s => if zlen s <=? 0x3f then ZIP_STR_06B else if zlen s <=? 0x3fff then ZIP_STR_14B else ZIP_STR_32B
  | ZInt v => int_encoding v
  end.

Definition val_ok (v : zlvalue) : Prop :=
  match v with ZStr s => zlen s < 2 ^ 32 | ZInt v => in_s 64 v end.

(** An entry is its value and the width its previous length field has. *)
Record ent := mk_ent { e_pls : Z; e_val : zlvalue }.

Definition pbytes (pls n : Z) : list Z := if pls =? 1 then [n] else 254 :: le_bytes 4 n.
Definition rawlen (e : ent) : Z := e_pls e + zlen (val_bytes (e_val e)).
Definition ebytes (prev : Z) (e : ent) : list Z := pbytes (e_pls e) prev ++ val_bytes (e_val e).

Record ent_ok (prev : Z) (e : ent) : Prop := mk_ent_ok {
  eo_pls : e_pls e = 1 /\ prev < 254 \/ e_pls e = 5;
  eo_prev : 0 <= prev < 2 ^ 32;
  eo_val : val_ok (e_val e);
  eo_raw : rawlen e < 2 ^ 32 }.

(** ** Encoders and decoders *)

Lemma int_cases v : in_s 64 v ->
  (0 <= v <= 12 /\ int_encoding v = 241 + v /\ int_size v = 0%nat) \/
  (in_s 8 v /\ int_encoding v = ZIP_INT_8B /\ int_size v = 1%nat) \/
  (in_s 16 v /\ int_encoding v = ZIP_INT_16B /\ int_size v = 2%nat) \/
  (in_s 24 v /\ int_encoding v = ZIP_INT_24B /\ int_size v = 3%nat) \/
  (in_s 32 v /\ int_encoding v = ZIP_INT_32B /\ int_size v = 4%nat) \/
  (in_s 64 v /\ int_encoding v = ZIP_INT_64B /\ int_size v = 8%nat).
Proof.
  intros Hv. unfold int_encoding, int_size.
  destruct ((0 <=? v) && (v <=? 12)) eqn:E0.
  { apply andb_true_iff in E0 as [?%Z.leb_le ?%Z.leb_le]. left. split_and!; [lia|lia| |done].
    unfold ZIP_INT_IMM_MIN. apply uwrap_id. unfold in_u. lia. }
  destruct ((- 2 ^ 7 <=? v) && (v <=? 2 ^ 7 - 1)) eqn:E1.
  { apply andb_true_iff in E1 as [?%Z.leb_le ?%Z.leb_le]. right; left. unfold in_s. split_and!; done || lia. }
  destruct ((- 2 ^ 15 <=? v) && (v <=? 2 ^ 15 - 1)) eqn:E2.
  { apply andb_true_iff in E2 as [?%Z.leb_le ?%Z.leb_le]. do 2 right; left. unfold in_s. split_and!; done || lia. }
  destruct ((INT24_MIN <=? v) && (v <=? INT24_MAX)) eqn:E3.
  { apply andb_true_iff in E3 as [H1%Z.leb_le H2%Z.leb_le]. unfold INT24_MIN, INT24_MAX in *.
    do 3 right; left. unfold in_s. split_and!; done || lia. }
  destruct ((- 2 ^ 31 <=? v) && (v <=? 2 ^ 31 - 1)) eqn:E4.
  { apply andb_true_iff in E4 as [?%Z.leb_le ?%Z.leb_le]. do 4 right; left. unfold in_s. split_and!; done || lia. }
  by do 5 right.
Qed.

Ltac int_case v Hv H E1 E2 := destruct (int_cases v Hv) as [(H & E1 & E2)|[(H & E1 & E2)|[(H & E1 & E2)|
  [(H & E1 & E2)|[(H & E1 & E2)|(H & E1 & E2)]]]]].

Lemma imm_enc_spec v : 0 <= v <= 12 ->
  (241 + v =? ZIP_INT_8B) = false /\ (241 + v =? ZIP_INT_16B) = false /\ (241 + v =? ZIP_INT_24B) = false /\
  (241 + v =? ZIP_INT_32B) = false /\ (241 + v =? ZIP_INT_64B) = false /\
  (ZIP_INT_IMM_MIN <=? 241 + v) && (241 + v <=? ZIP_INT_IMM_MAX) = true /\
  Z.land (241 + v) ZIP_INT_IMM_MASK - 1 = v /\ ZIP_IS_STR (241 + v) = false.
Proof.
  intros H. assert (v = 0 \/ v = 1 \/ v = 2 \/ v = 3 \/ v = 4 \/ v = 5 \/ v = 6 \/ v = 7 \/ v = 8 \/ v = 9 \/
    v = 10 \/ v = 11 \/ v = 12) as C by lia.
  repeat (destruct C as [->|C]; [done|]). by subst.
Qed.

Lemma int_enc_range v : in_s 64 v -> ZIP_STR_MASK <= int_encoding v < 255.
Proof.
  intros Hv. int_case v Hv H E1 E2; rewrite E1; (split; by vm_compute) || (unfold ZIP_STR_MASK; lia).
Qed.

Lemma int_enc_not_str v : in_s 64 v -> ZIP_IS_STR (int_encoding v) = false.
Proof. intros Hv. int_case v Hv H E1 E2; rewrite E1; (done || by apply imm_enc_spec). Qed.

Lemma zipIntSize_ok v : in_s 64 v -> zipIntSize (int_encoding v) = Ok (Z.of_nat (int_size v)).
Proof.
  intros Hv. int_case v Hv H E1 E2; rewrite E1, E2; try done. unfold zipIntSize.
  by destruct (imm_enc_spec v H) as (-> & -> & -> & -> & -> & -> & _).
Qed.

Lemma int24_bytes v : drop 1 (le_bytes 4 (Z.shiftl v 8)) = le_bytes 3 v.
Proof.
  rewrite Z.shiftl_mul_pow2 by lia. change (2 ^ 8) with 256. cbn [le_bytes drop].
  by rewrite Z.div_mul by lia.
Qed.

(** Decide the comparisons of closed encodings. *)
Ltac enc_dec := repeat match goal with
  | |- context [?x =? ?y] => let b := eval vm_compute in (x =? y) in
      lazymatch b with true => idtac | false => idtac end; change (x =? y) with b
  end; cbv iota.

Lemma zipSaveInteger_ok a old c v p : in_s 64 v -> p = zlen a -> zlen old = Z.of_nat (int_size v) ->
  zipSaveInteger (a ++ old ++ c) p v (int_encoding v) = Ok (a ++ le_bytes (int_size v) v ++ c).
Proof.
  intros Hv -> Ho. unfold zipSaveInteger. int_case v Hv H E1 E2; rewrite E1, E2 in *.
  { destruct (imm_enc_spec v H) as (E & F & G & K & L & M & _).
    rewrite E, F, G, K, L, M. by rewrite (zlen_0_nil old). }
  all: enc_dec; try rewrite int24_bytes; apply wr_app; [done|by rewrite ?zlen_le_bytes].
Qed.

Lemma zipLoadInteger_ok a c v p : in_s 64 v -> p = zlen a ->
  zipLoadInteger (a ++ le_bytes (int_size v) v ++ c) p (int_encoding v) = Ok v.
Proof.
  intros Hv ->. unfold zipLoadInteger. int_case v Hv H E1 E2; rewrite E1, E2 in *.
  { destruct (imm_enc_spec v H) as (E & F & G & K & L & M & N & _). by rewrite E, F, G, K, L, M, N. }
  all: enc_dec.
  - change (le_bytes 1 v ++ c) with (v mod 256 :: c). rewrite peek_app by done. cbn [mbind res_bind]. f_equal.
    change (v mod 256) with (uwrap 8 v). rewrite swrap_uwrap, swrap_id by (done || lia). done.
  - rewrite rd_app by (done || by rewrite zlen_le_bytes). cbn [mbind res_bind]. f_equal. apply (le_val_bytes_signed 2); [lia|done].
  - rewrite rd_app by (done || by rewrite zlen_le_bytes). cbn [mbind res_bind]. f_equal. rewrite <- int24_bytes.
    rewrite Z.shiftl_mul_pow2 by lia.
    assert (0 :: drop 1 (le_bytes 4 (v * 2 ^ 8)) = le_bytes 4 (v * 2 ^ 8)) as ->.
    { cbn [le_bytes drop]. f_equal. change (2 ^ 8) with 256. by rewrite Z.mod_mul by lia. }
    pose proof (le_val_bytes_signed 4 (v * 2 ^ 8)) as X. change (8 * Z.of_nat 4) with 32 in X. unfold in_s in *.
    rewrite X by lia. rewrite Z.shiftr_div_pow2, Z.div_mul by lia. done.
  - rewrite rd_app by (done || by rewrite zlen_le_bytes). cbn [mbind res_bind]. f_equal. apply (le_val_bytes_signed 4); [lia|done].
  - rewrite rd_app by (done || by rewrite zlen_le_bytes). cbn [mbind res_bind]. f_equal. apply (le_val_bytes_signed 8); [lia|done].
Qed.

Lemma str_hdr_len n : zlen (zipStoreEntryEncoding_buf 0 n) = zipStoreEntryEncoding_len 0 n.
Proof.
  unfold zipStoreEntryEncoding_buf, zipStoreEntryEncoding_len. change (ZIP_IS_STR 0) with true. cbv iota.
  destruct (n <=? 63); [done|]. by destruct (n <=? 16383).
Qed.

Lemma byte_field n k : 0 <= k -> Z.land (Z.shiftr n k) 0xff = n / 2 ^ k mod 256.
Proof. intros. rewrite Z.shiftr_div_pow2 by done. change 0xff with (2 ^ 8 - 1). by rewrite land_mask by lia. Qed.

Lemma be32_join n : 0 <= n < 2 ^ 32 ->
  u32 (Z.lor (Z.lor (Z.lor (Z.shiftl (n / 2 ^ 24 mod 256) 24) (Z.shiftl (n / 2 ^ 16 mod 256) 16))
    (Z.shiftl (n / 2 ^ 8 mod 256) 8)) (n mod 256)) = n.
Proof.
  intros Hn. rewrite !Z.shiftl_mul_pow2 by lia.
  pose proof (Z.mod_pos_bound (n / 2 ^ 16) 256). pose proof (Z.mod_pos_bound (n / 2 ^ 8) 256).
  pose proof (Z.mod_pos_bound n 256).
  rewrite (lor_mul_add (n / 2 ^ 24 mod 256) (n / 2 ^ 16 mod 256 * 2 ^ 16) 24) by lia.
  replace (n / 2 ^ 24 mod 256 * 2 ^ 24 + n / 2 ^ 16 mod 256 * 2 ^ 16)
    with ((n / 2 ^ 24 mod 256 * 2 ^ 8 + n / 2 ^ 16 mod 256) * 2 ^ 16) by lia.
  rewrite (lor_mul_add _ (n / 2 ^ 8 mod 256 * 2 ^ 8) 16) by lia.
  replace ((n / 2 ^ 24 mod 256 * 2 ^ 8 + n / 2 ^ 16 mod 256) * 2 ^ 16 + n / 2 ^ 8 mod 256 * 2 ^ 8)
    with (((n / 2 ^ 24 mod 256 * 2 ^ 8 + n / 2 ^ 16 mod 256) * 2 ^ 8 + n / 2 ^ 8 mod 256) * 2 ^ 8) by lia.
  rewrite (lor_mul_add _ (n mod 256) 8) by lia. unfold uwrap.
  rewrite Z.mod_small; Z.div_mod_to_equations; lia.
Qed.

Lemma peek_app_r a l i k : i = zlen a + k -> 0 <= k -> peek (a ++ l) i = peek l k.
Proof.
  intros -> Hk. unfold peek. pose proof (zlen_nonneg a).
  rewrite (proj2 (Z.leb_le 0 _)), (proj2 (Z.leb_le 0 k)) by lia. unfold zlen.
  rewrite lookup_app_r by lia. by replace (Z.to_nat (Z.of_nat (length a) + k) - length a)%nat with (Z.to_nat k) by lia.
Qed.

Lemma str_mask_low x : 0 <= x < 64 -> Z.land x ZIP_STR_MASK = 0.
Proof.
  intros Hx. apply Z.bits_inj'. intros i Hi. rewrite Z.land_spec, Z.bits_0.
  destruct (Z.lt_ge_cases i 6); [|rewrite (bits_above x 6) by (unfold in_u; lia); done].
  assert (i = 0 \/ i = 1 \/ i = 2 \/ i = 3 \/ i = 4 \/ i = 5) as C by lia.
  repeat (destruct C as [->|C]; [apply andb_false_r|]). subst. apply andb_false_r.
Qed.

Lemma decode_06b a n c ptr : 0 <= n <= 63 -> ptr = zlen a ->
  ZIP_DECODE_LENGTH (a ++ n :: c) ptr = Ok (ZIP_STR_06B, 1, n).
Proof.
  intros Hn Hp. unfold ZIP_DECODE_LENGTH, ZIP_ENTRY_ENCODING. rewrite (peek_app_r a _ _ 0) by lia.
  change (peek (n :: c) 0) with (Ok n). cbn [mbind res_bind].
  rewrite (proj2 (Z.ltb_lt n _)) by (unfold ZIP_STR_MASK; lia). rewrite str_mask_low by lia.
  change (0 <? ZIP_STR_MASK) with true. change (0 =? ZIP_STR_06B) with true. cbv iota.
  change 0x3f with (2 ^ 6 - 1). rewrite land_mask, Z.mod_small by lia. done.
Qed.

Lemma decode_14b a n c ptr : 63 < n <= 16383 -> ptr = zlen a ->
  ZIP_DECODE_LENGTH (a ++ Z.lor ZIP_STR_14B (Z.land (Z.shiftr n 8) 0x3f) :: Z.land n 0xff :: c) ptr
  = Ok (ZIP_STR_14B, 2, n).
Proof.
  intros Hn Hp. unfold ZIP_DECODE_LENGTH, ZIP_ENTRY_ENCODING.
  set (h := Z.land (Z.shiftr n 8) 63). set (l := Z.land n 255).
  assert (h = n / 256) as Eh.
  { unfold h. change 63 with (2 ^ 6 - 1). rewrite Z.shiftr_div_pow2, land_mask by lia.
    change (2 ^ 8) with 256. rewrite Z.mod_small; [done|]. Z.div_mod_to_equations; lia. }
  assert (l = n mod 256) as El by (unfold l; change 255 with (2 ^ 8 - 1); by rewrite land_mask by lia).
  assert (0 <= h < 64) as Hh by (rewrite Eh; Z.div_mod_to_equations; lia).
  rewrite (peek_app_r a _ ptr 0), (peek_app_r a _ (ptr + 1) 1) by lia.
  assert (Z.lor ZIP_STR_14B h = 64 + h) as E14 by (apply (lor_mul_add 1 h 6); lia).
  set (b0 := Z.lor ZIP_STR_14B h) in *.
  change (peek (b0 :: l :: c) 0) with (Ok b0). change (peek (b0 :: l :: c) 1) with (Ok l). cbn [mbind res_bind].
  rewrite (proj2 (Z.ltb_lt b0 _)) by (unfold ZIP_STR_MASK; lia).
  assert (Z.land b0 ZIP_STR_MASK = 64) as ->.
  { unfold b0. rewrite Z.land_lor_distr_l, (str_mask_low h) by lia. done. }
  change (64 <? ZIP_STR_MASK) with true. change (64 =? ZIP_STR_06B) with false. change (64 =? ZIP_STR_14B) with true. cbv iota.
  change 0x3f with (2 ^ 6 - 1). rewrite land_mask, E14 by lia. replace ((64 + h) mod 2 ^ 6) with h by (Z.div_mod_to_equations; lia).
  rewrite Z.shiftl_mul_pow2, lor_mul_add by (Z.div_mod_to_equations; lia). do 2 f_equal. Z.div_mod_to_equations; lia.
Qed.

Lemma decode_32b a n c ptr : 0 <= n < 2 ^ 32 -> ptr = zlen a ->
  ZIP_DECODE_LENGTH (a ++ ZIP_STR_32B :: Z.land (Z.shiftr n 24) 0xff :: Z.land (Z.shiftr n 16) 0xff ::
    Z.land (Z.shiftr n 8) 0xff :: Z.land n 0xff :: c) ptr = Ok (ZIP_STR_32B, 5, n).
Proof.
  intros Hn Hp. unfold ZIP_DECODE_LENGTH, ZIP_ENTRY_ENCODING. rewrite !byte_field by lia.
  change (Z.land n 255) with (Z.land n (2 ^ 8 - 1)). rewrite (land_mask n 8) by lia.
  rewrite (peek_app_r a _ ptr 0), (peek_app_r a _ (ptr + 1) 1), (peek_app_r a _ (ptr + 2) 2),
    (peek_app_r a _ (ptr + 3) 3), (peek_app_r a _ (ptr + 4) 4) by lia.
  match goal with |- context [peek (ZIP_STR_32B :: ?b :: ?c :: ?d :: ?e :: ?r) _] =>
    change (peek (ZIP_STR_32B :: b :: c :: d :: e :: r) 0) with (Ok ZIP_STR_32B);
    change (peek (ZIP_STR_32B :: b :: c :: d :: e :: r) 1) with (Ok b);
    change (peek (ZIP_STR_32B :: b :: c :: d :: e :: r) 2) with (Ok c);
    change (peek (ZIP_STR_32B :: b :: c :: d :: e :: r) 3) with (Ok d);
    change (peek (ZIP_STR_32B :: b :: c :: d :: e :: r) 4) with (Ok e) end.
  cbn [mbind res_bind]. change (ZIP_STR_32B <? ZIP_STR_MASK) with true.
  change (Z.land ZIP_STR_32B ZIP_STR_MASK) with ZIP_STR_32B. cbv iota.
  change (ZIP_STR_32B <? ZIP_STR_MASK) with true. change (ZIP_STR_32B =? ZIP_STR_06B) with false.
  change (ZIP_STR_32B =? ZIP_STR_14B) with false. rewrite Z.eqb_refl. cbv iota.
  do 2 f_equal. by apply be32_join.
Qed.

Lemma decode_length_ok a v c ptr : val_ok v -> ptr = zlen a ->
  ZIP_DECODE_LENGTH (a ++ val_bytes v ++ c) ptr = Ok (dec_enc v, zlen (val_hdr v), zlen (val_data v)).
Proof.
  intros Hv Hp. destruct v as [s|v]; cbn [val_ok] in Hv.
  - pose proof (zlen_nonneg s). unfold val_bytes, val_hdr, val_data, dec_enc, zipStoreEntryEncoding_buf.
    change (ZIP_IS_STR 0) with true. cbv iota.
    destruct (Z.leb_spec (zlen s) 63); [|destruct (Z.leb_spec (zlen s) 16383)]; cbn [app].
    + change (Z.lor ZIP_STR_06B (zlen s)) with (zlen s). rewrite uwrap_id by (unfold in_u; lia). by apply decode_06b.
    + by apply decode_14b.
    + by apply decode_32b.
  - unfold val_bytes, val_hdr, val_data, dec_enc, ZIP_DECODE_LENGTH, ZIP_ENTRY_ENCODING. cbn [app].
    pose proof (int_enc_range v Hv). rewrite peek_app by done. cbn [mbind res_bind].
    rewrite (proj2 (Z.ltb_ge (int_encoding v) _)) by lia. rewrite (proj2 (Z.ltb_ge (int_encoding v) _)) by lia.
    rewrite zipIntSize_ok by done. cbn [mbind res_bind]. by rewrite zlen_le_bytes.
Qed.

Lemma dec_enc_is_str v : val_ok v -> ZIP_IS_STR (dec_enc v) = match v with ZStr _ => true | ZInt _ => false end.
Proof.
  destruct v as [s|v]; cbn [val_ok dec_enc]; intros Hv; [|by apply int_enc_not_str].
  destruct (zlen s <=? 63); [done|]. by destruct (zlen s <=? 16383).
Qed.

(** ** The previous length field *)

Lemma zlen_pbytes pls n : pls = 1 \/ pls = 5 -> zlen (pbytes pls n) = pls.
Proof. intros [-> | ->]; unfold pbytes; cbn [Z.eqb Pos.eqb]; [done|]. rewrite zlen_cons, zlen_le_bytes. done. Qed.

Lemma pls_cases prev e : ent_ok prev e -> e_pls e = 1 \/ e_pls e = 5.
Proof. intros []. lia. Qed.

Lemma val_hdr_pos v : 1 <= zlen (val_hdr v) <= 5.
Proof.
  destruct v as [s|v]; [|done]. unfold val_hdr. rewrite str_hdr_len. unfold zipStoreEntryEncoding_len.
  change (ZIP_IS_STR 0) with true. cbv iota. destruct (zlen s <=? 63); [lia|]. destruct (zlen s <=? 16383); lia.
Qed.

Lemma zlen_ebytes prev e : ent_ok prev e -> zlen (ebytes prev e) = rawlen e.
Proof. intros H. unfold ebytes, rawlen. rewrite zlen_app, zlen_pbytes by (by eapply pls_cases). done. Qed.

Lemma rawlen_pos prev e : ent_ok prev e -> 2 <= rawlen e.
Proof.
  intros H%pls_cases. unfold rawlen, val_bytes. rewrite zlen_app. pose proof (val_hdr_pos (e_val e)).
  pose proof (zlen_nonneg (val_data (e_val e))). lia.
Qed.

(** The first byte of an entry is never [ZIP_END]. *)
Lemma peek_entry a prev e c p : ent_ok prev e -> p = zlen a ->
  exists b, peek (a ++ ebytes prev e ++ c) p = Ok b /\ (b =? ZIP_END) = false /\ (b <? ZIP_BIG_PREVLEN) = (e_pls e =? 1).
Proof.
  intros [Hp ? _ _] ->. unfold ebytes, pbytes, ZIP_END, ZIP_BIG_PREVLEN. destruct Hp as [[-> Hp] | ->]; cbn [Z.eqb Pos.eqb app];
    rewrite peek_app by done; eexists; split_and!; [done|lia|lia|done|done|done].
Qed.

Lemma peek_end a c p : p = zlen a -> peek (a ++ ZIP_END :: c) p = Ok ZIP_END.
Proof. apply peek_app. Qed.

Lemma decode_prevlensize_ok a prev e c p : ent_ok prev e -> p = zlen a ->
  ZIP_DECODE_PREVLENSIZE (a ++ ebytes prev e ++ c) p = Ok (e_pls e).
Proof.
  intros H Hp. unfold ZIP_DECODE_PREVLENSIZE. destruct (peek_entry a prev e c p H Hp) as (b & -> & _ & E).
  cbn [mbind res_bind]. rewrite E. by destruct (pls_cases _ _ H) as [-> | ->].
Qed.

Lemma decode_prevlen_ok a prev e c p : ent_ok prev e -> p = zlen a ->
  ZIP_DECODE_PREVLEN (a ++ ebytes prev e ++ c) p = Ok (e_pls e, prev).
Proof.
  intros H Hp. unfold ZIP_DECODE_PREVLEN. rewrite decode_prevlensize_ok by done. cbn [mbind res_bind].
  destruct H as [Hl ? _ _]. unfold ebytes, pbytes. destruct Hl as [[-> Hl] | ->]; cbn [Z.eqb Pos.eqb app].
  - by rewrite peek_app.
  - rewrite cons_middle, app_assoc. rewrite <- (app_assoc (le_bytes 4 prev)). rewrite rd_app by (rewrite ?zlen_le_bytes; zl || done).
    cbn [fmap res_fmap mbind res_bind]. rewrite le_val_bytes_unsigned by done. done.
Qed.

Lemma rawlen_split prev e : ent_ok prev e ->
  rawlen e = e_pls e + zlen (val_hdr (e_val e)) + zlen (val_data (e_val e)).
Proof. intros H. unfold rawlen, val_bytes. rewrite zlen_app. lia. Qed.

Lemma entry_decode_length a prev e c p : ent_ok prev e -> p = zlen a ->
  ZIP_DECODE_LENGTH (a ++ ebytes prev e ++ c) (p + e_pls e) =
    Ok (dec_enc (e_val e), zlen (val_hdr (e_val e)), zlen (val_data (e_val e))).
Proof.
  intros H ->. unfold ebytes. rewrite <- app_assoc, app_assoc. apply decode_length_ok; [apply H|].
  rewrite zlen_app, zlen_pbytes by (by eapply pls_cases). done.
Qed.

Lemma zipRawEntryLength_ok a prev e c p : ent_ok prev e -> p = zlen a ->
  zipRawEntryLength (a ++ ebytes prev e ++ c) p = Ok (rawlen e).
Proof.
  intros H Hp. unfold zipRawEntryLength. rewrite decode_prevlensize_ok by done. cbn [mbind res_bind].
  rewrite entry_decode_length by done. cbn [mbind res_bind]. rewrite <- (rawlen_split prev) by done.
  pose proof (rawlen_pos _ _ H). rewrite uwrap_id; [done|]. unfold in_u. pose proof (eo_raw _ _ H). lia.
Qed.

(** What [zipEntry] reports of an entry at [p]. *)
Definition entry_info (prev : Z) (e : ent) (p : Z) : zlentry :=
  mk_zlentry (e_pls e) prev (zlen (val_hdr (e_val e))) (zlen (val_data (e_val e)))
    (e_pls e + zlen (val_hdr (e_val e))) (dec_enc (e_val e)) p.

Lemma zipEntry_ok a prev e c p : ent_ok prev e -> p = zlen a ->
  zipEntry (a ++ ebytes prev e ++ c) p = Ok (entry_info prev e p).
Proof.
  intros H Hp. unfold zipEntry. rewrite decode_prevlen_ok by done. cbn [mbind res_bind].
  rewrite entry_decode_length by done. cbn [mbind res_bind]. unfold entry_info.
  pose proof (val_hdr_pos (e_val e)). pose proof (pls_cases _ _ H). rewrite uwrap_id; [done|]. unfold in_u. lia.
Qed.

Lemma entry_info_rawlen prev e p : ent_ok prev e ->
  u32 (headersize (entry_info prev e p) + len (entry_info prev e p)) = rawlen e.
Proof.
  intros H. cbn. rewrite <- (rawlen_split prev) by done. pose proof (rawlen_pos _ _ H).
  rewrite uwrap_id; [done|]. unfold in_u. pose proof (eo_raw _ _ H). lia.
Qed.

(** The width the code chooses for a previous length. *)
Lemma req_cases n : zipStorePrevEntryLength_len n = 1 /\ n < 254 \/ zipStorePrevEntryLength_len n = 5 /\ 254 <= n.
Proof. unfold zipStorePrevEntryLength_len, ZIP_BIG_PREVLEN. destruct (Z.ltb_spec n 254); lia. Qed.

Lemma store_prevlen_large_ok a old c p n : p = zlen a -> zlen old = 5 ->
  zipStorePrevEntryLengthLarge (a ++ old ++ c) p n = Ok (a ++ pbytes 5 n ++ c, 5).
Proof.
  intros -> Ho. unfold zipStorePrevEntryLengthLarge, poke. destruct old as [|x old]; [done|]. rewrite zlen_cons in Ho.
  cbn [app]. rewrite (wr_app a [x] [ZIP_BIG_PREVLEN] (old ++ c)) by done. cbn [mbind res_bind app].
  rewrite cons_middle, app_assoc. rewrite (wr_app _ old) by (rewrite ?zlen_le_bytes; zl). cbn [mbind res_bind].
  by rewrite <- app_assoc.
Qed.

Lemma store_prevlen_ok a old c p n : 0 <= n < 2 ^ 32 -> p = zlen a -> zlen old = zipStorePrevEntryLength_len n ->
  zipStorePrevEntryLength (a ++ old ++ c) p n =
    Ok (a ++ pbytes (zipStorePrevEntryLength_len n) n ++ c, zipStorePrevEntryLength_len n).
Proof.
  unfold zipStorePrevEntryLength, zipStorePrevEntryLength_len, ZIP_BIG_PREVLEN. intros Hn -> Ho.
  destruct (Z.ltb_spec n 254).
  - unfold poke. rewrite uwrap_id by (unfold in_u; lia). rewrite (wr_app a old [n] c) by done. done.
  - apply store_prevlen_large_ok; done.
Qed.
End Ziplist.
