(* ===== verification/ZiplistOps.v ===== *)
(** * The ziplist operations: src/redis-stable/src/ziplist.c

    A blob lays out a list of entries, each with a previous length field wide
    enough for its predecessor. Insertion, deletion, merging and the cascade of
    field widenings that they trigger are shown to keep this layout, so that
    every history of calls refines edits of a plain list of byte strings. *)
From S2P Require Import Prelude Util Ziplist.

Module ZiplistOps.
Export Ziplist.

(** ** Layout of a blob *)

Fixpoint body (prev : Z) (es : list ent) : list Z :=
  match es with
  | [] => []
  | e :: es => ebytes prev e ++ body (rawlen e) es
  end.

Fixpoint chain (prev : Z) (es : list ent) : Prop :=
  match es with
  | [] => True
  | e :: es => ent_ok prev e /\ chain (rawlen e) es
  end.

(** The length of the last entry, the bytes of all entries, the offset of the last one. *)
Fixpoint prev_of (prev : Z) (es : list ent) : Z :=
  match es with [] => prev | e :: es => prev_of (rawlen e) es end.
Fixpoint size (es : list ent) : Z :=
  match es with [] => 0 | e :: es => rawlen e + size es end.
Fixpoint tail_off (p : Z) (es : list ent) : Z :=
  match es with
  | [] => p
  | e :: es => match es with [] => p | _ => tail_off (p + rawlen e) es end
  end.

(** The bytes when every previous length field is wide. *)
Fixpoint wsize (es : list ent) : Z :=
  match es with [] => 0 | e :: es => 5 + zlen (val_bytes (e_val e)) + wsize es end.

Definition hdr (total tail lf : Z) : list Z := le_bytes 4 total ++ le_bytes 4 tail ++ le_bytes 2 lf.
Definition blob (tail lf : Z) (m : list Z) : list Z := hdr (11 + zlen m) tail lf ++ m ++ [ZIP_END].

(** What [__ziplistCascadeUpdate] does to the entries that follow one of length
    [prev], when their fields still describe one of length [pv]. *)
Fixpoint fixup (prev pv : Z) (es : list ent) : list ent :=
  match es with
  | [] => []
  | e :: t =>
    if pv =? prev then e :: t
    else if e_pls e <? zipStorePrevEntryLength_len prev then
      let e' := mk_ent (zipStorePrevEntryLength_len prev) (e_val e) in
      e' :: fixup (rawlen e') (rawlen e) t
    else e :: t
  end.

Lemma body_app prev l1 l2 : body prev (l1 ++ l2) = body prev l1 ++ body (prev_of prev l1) l2.
Proof. revert prev; induction l1 as [|e l1 IH]; intros prev; [done|]. cbn. by rewrite IH, app_assoc. Qed.

Lemma chain_app prev l1 l2 : chain prev (l1 ++ l2) <-> chain prev l1 /\ chain (prev_of prev l1) l2.
Proof. revert prev; induction l1 as [|e l1 IH]; intros prev; cbn; [tauto|]. rewrite IH. tauto. Qed.

Lemma size_app l1 l2 : size (l1 ++ l2) = size l1 + size l2.
Proof. induction l1 as [|e l1 IH]; cbn; [done|]. lia. Qed.

Lemma wsize_app l1 l2 : wsize (l1 ++ l2) = wsize l1 + wsize l2.
Proof. induction l1 as [|e l1 IH]; cbn; [done|]. lia. Qed.

Lemma wsize_nonneg l : 0 <= wsize l.
Proof. induction l as [|e l IH]; cbn; [done|]. zlen_pos. lia. Qed.

Lemma prev_of_app prev l1 l2 : prev_of prev (l1 ++ l2) = prev_of (prev_of prev l1) l2.
Proof. revert prev; induction l1 as [|e l1 IH]; intros prev; [done|]. cbn. apply IH. Qed.

Lemma zlen_body prev es : chain prev es -> zlen (body prev es) = size es.
Proof.
  revert prev; induction es as [|e es IH]; intros prev; [done|]. intros [H1 H2]. cbn.
  rewrite zlen_app, (zlen_ebytes _ _ H1), (IH _ H2). done.
Qed.

Lemma size_nonneg prev es : chain prev es -> 0 <= size es.
Proof. intros H%zlen_body. rewrite <- H. apply zlen_nonneg. Qed.

Lemma size_wsize prev es : chain prev es -> size es <= wsize es.
Proof.
  revert prev; induction es as [|e es IH]; intros prev; [done|]. intros [H1%pls_cases H2%IH]. cbn. unfold rawlen. lia.
Qed.

Lemma tail_off_shift p k es : tail_off (p + k) es = tail_off p es + k.
Proof.
  revert p; induction es as [|e es IH]; intros p; [done|]. cbn [tail_off]. destruct es as [|e2 es]; [done|].
  rewrite <- IH. f_equal. lia.
Qed.

Lemma tail_off_app p l1 e l2 : tail_off p (l1 ++ e :: l2) = tail_off (p + size l1) (e :: l2).
Proof.
  revert p; induction l1 as [|x l1 IH]; intros p; [cbn [app size]; f_equal; lia|].
  specialize (IH (p + rawlen x)). cbn [app tail_off size] in *.
  replace (p + (rawlen x + size l1)) with (p + rawlen x + size l1) by lia. rewrite <- IH.
  by destruct l1.
Qed.

Lemma tail_off_range p prev es : chain prev es -> p <= tail_off p es <= p + size es.
Proof.
  revert p prev; induction es as [|e es IH]; intros p prev; [cbn; lia|]. intros [H1 H2].
  pose proof (rawlen_pos _ _ H1). pose proof (size_nonneg _ _ H2). pose proof (IH (p + rawlen e) _ H2).
  cbn [tail_off size]. destruct es as [|e2 es]; [cbn in *; lia|]. lia.
Qed.

Lemma prev_of_range prev es : chain prev es -> 0 <= prev < 2 ^ 32 -> 0 <= prev_of prev es < 2 ^ 32.
Proof.
  revert prev; induction es as [|e es IH]; intros prev; [done|]. intros [H1 H2] _. cbn. apply IH; [done|].
  pose proof (rawlen_pos _ _ H1). pose proof (eo_raw _ _ H1). lia.
Qed.

(** ** Header fields *)

Lemma zlen_hdr T t l : zlen (hdr T t l) = 10.
Proof. unfold hdr. zl. Qed.
#[local] Hint Rewrite zlen_hdr : zlen.

Lemma bytes_hdr T t l m : in_u 32 T -> ZIPLIST_BYTES (hdr T t l ++ m) = Ok T.
Proof.
  intros H. unfold ZIPLIST_BYTES, hdr. rewrite <- app_assoc, rd_app0 by (by rewrite zlen_le_bytes).
  cbn [fmap res_fmap]. by rewrite le_val_bytes_unsigned.
Qed.

Lemma tail_hdr T t l m : in_u 32 t -> ZIPLIST_TAIL_OFFSET (hdr T t l ++ m) = Ok t.
Proof.
  intros H. unfold ZIPLIST_TAIL_OFFSET, hdr. rewrite <- !app_assoc, rd_app by (by rewrite zlen_le_bytes).
  cbn [fmap res_fmap]. by rewrite le_val_bytes_unsigned.
Qed.

Lemma length_hdr T t l m : in_u 16 l -> ZIPLIST_LENGTH (hdr T t l ++ m) = Ok l.
Proof.
  intros H. unfold ZIPLIST_LENGTH, hdr. rewrite <- !app_assoc, (app_assoc (le_bytes 4 T)), rd_app by (rewrite ?zlen_app, ?zlen_le_bytes; done).
  cbn [fmap res_fmap]. by rewrite le_val_bytes_unsigned.
Qed.

Lemma set_bytes_hdr T t l m v : set_ZIPLIST_BYTES (hdr T t l ++ m) v = Ok (hdr v t l ++ m).
Proof.
  unfold set_ZIPLIST_BYTES, hdr. rewrite <- app_assoc, wr_app0 by (by rewrite !zlen_le_bytes). by rewrite <- app_assoc.
Qed.

Lemma set_tail_hdr T t l m v : set_ZIPLIST_TAIL_OFFSET (hdr T t l ++ m) v = Ok (hdr T v l ++ m).
Proof.
  unfold set_ZIPLIST_TAIL_OFFSET, hdr. rewrite <- !app_assoc, wr_app by (by rewrite !zlen_le_bytes). done.
Qed.

Lemma set_length_hdr T t l m v : set_ZIPLIST_LENGTH (hdr T t l ++ m) v = Ok (hdr T t v ++ m).
Proof.
  unfold set_ZIPLIST_LENGTH, hdr. rewrite <- !app_assoc, (app_assoc (le_bytes 4 T)), wr_app by (rewrite ?zlen_app, ?zlen_le_bytes; done).
  by rewrite <- !app_assoc.
Qed.

Lemma incr_length_hdr T t l m k : in_u 16 l ->
  ZIPLIST_INCR_LENGTH (hdr T t l ++ m) k = Ok (hdr T t (if l <? UINT16_MAX then l + k else l) ++ m).
Proof.
  intros H. unfold ZIPLIST_INCR_LENGTH. rewrite length_hdr by done. cbn [mbind res_bind].
  destruct (l <? UINT16_MAX); [apply set_length_hdr|done].
Qed.

Lemma bytes_blob t l m : 11 + zlen m < 2 ^ 32 -> ZIPLIST_BYTES (blob t l m) = Ok (11 + zlen m).
Proof. intros H. apply bytes_hdr. zlen_pos. unfold in_u. lia. Qed.

Section Ops.
Context (junk : Z -> Z).

(** Growing keeps the entries and their end marker and puts a marker last. *)
Lemma zl_resize_grow T t l m L : zlen m + 11 <= L < 2 ^ 32 ->
  exists x, ziplistResize junk (hdr T t l ++ m ++ [ZIP_END]) L = Ok (hdr L t l ++ m ++ x ++ [ZIP_END]) /\
    zlen x = L - zlen m - 11 /\ exists x', x ++ [ZIP_END] = ZIP_END :: x'.
Proof.
  intros HL. pose proof (zlen_nonneg m). unfold ziplistResize. rewrite uwrap_id by (unfold in_u; lia).
  destruct (zrealloc_grow junk (hdr T t l ++ m ++ [ZIP_END]) L ltac:(zl)) as (j & -> & Hj).
  rewrite <- !app_assoc, set_bytes_hdr. cbn [mbind res_bind app].
  assert (exists x y, ZIP_END :: j = x ++ [y] /\ zlen x = zlen j) as (x & y & E & Hx).
  { destruct j as [|a j _] using rev_ind; [by exists [], ZIP_END|]. exists (ZIP_END :: j), a. split; [done|zl]. }
  rewrite E. exists x. split_and!; [|zl|].
  - unfold poke. rewrite (app_assoc (hdr L t l)), (app_assoc (hdr L t l ++ m)).
    rewrite <- (app_nil_r [y]). rewrite wr_app by zl. rewrite app_nil_r. by rewrite <- !app_assoc.
  - destruct x as [|a x]; [by exists []|]. cbn in E. injection E as <- _. by eexists.
Qed.

(** Shrinking cuts the entries and puts the marker behind the rest. *)
Lemma resize_cut T t l m y L : zlen y > 0 -> L = zlen m + 11 -> L < 2 ^ 32 ->
  ziplistResize junk (hdr T t l ++ m ++ y) L = Ok (hdr L t l ++ m ++ [ZIP_END]).
Proof.
  intros Hy HL HL2. pose proof (zlen_nonneg m). unfold ziplistResize. rewrite uwrap_id by (unfold in_u; lia).
  rewrite zrealloc_shrink by zl. destruct y as [|b y]; [done|].
  rewrite (cons_middle b m y), !app_assoc. rewrite ztake_app by zl. rewrite <- !app_assoc. rewrite set_bytes_hdr. cbn [mbind res_bind].
  unfold poke. rewrite (app_assoc (hdr L t l)), <- (app_nil_r [b]), wr_app by zl. by rewrite app_nil_r, <- app_assoc.
Qed.

(** ** The cascade *)

Lemma memmove_at b dst src n x pre old post :
  rd b src n = Ok x -> b = pre ++ old ++ post -> dst = zlen pre -> zlen old = zlen x ->
  memmove b dst src n = Ok (pre ++ x ++ post).
Proof. intros E -> -> Ho. unfold memmove. rewrite E. cbn [mbind res_bind]. by apply wr_app. Qed.

(** A list of more than [k] bytes: its first [k] and the others. *)
Lemma split_len {A} (l : list A) k n : 0 <= k -> zlen l = k + n -> 0 <= n ->
  exists a b, l = a ++ b /\ zlen a = k /\ zlen b = n.
Proof. intros Hk Hl Hn. destruct (list_split_at k l) as (a & b & -> & Ha); [lia|]. exists a, b. split_and!; [done|done|zl]. Qed.

Lemma fixup_same x es : fixup x x es = es.
Proof. destruct es as [|e es]; [done|]. cbn. by rewrite Z.eqb_refl. Qed.

Lemma fixup_vals prev pv es : map e_val (fixup prev pv es) = map e_val es.
Proof.
  revert prev pv; induction es as [|e es IH]; intros; [done|]. cbn. destruct (pv =? prev); [done|].
  destruct (e_pls e <? _); [|done]. cbn. by rewrite IH.
Qed.

Lemma wsize_vals l1 l2 : map e_val l1 = map e_val l2 -> wsize l1 = wsize l2.
Proof.
  revert l2; induction l1 as [|e l1 IH]; intros [|e2 l2]; cbn; try done. intros [= E1 E2]. rewrite E1. by rewrite (IH l2).
Qed.

(** The widened entry is well formed when the wide layout fits. *)
Lemma fixup_chain prev pv es : chain pv es -> 0 <= prev < 2 ^ 32 -> wsize es < 2 ^ 32 -> chain prev (fixup prev pv es).
Proof.
  revert prev pv; induction es as [|e es IH]; intros prev pv; [done|]. intros [H1 H2] Hp Hw. cbn in Hw.
  pose proof (wsize_nonneg es). pose proof (pls_cases _ _ H1). pose proof (zlen_nonneg (val_bytes (e_val e))).
  cbn [fixup]. destruct (Z.eqb_spec pv prev) as [->|]; [done|]. destruct H1 as [Hl Hv Hr1 Hr2].
  assert (rawlen (mk_ent (zipStorePrevEntryLength_len prev) (e_val e)) < 2 ^ 32) as Hr.
  { unfold rawlen; cbn. pose proof (req_cases prev). lia. }
  destruct (Z.ltb_spec (e_pls e) (zipStorePrevEntryLength_len prev)).
  - split; [constructor; cbn; [pose proof (req_cases prev); lia|done|done|done]|].
    apply IH; [done| |lia]. unfold rawlen at 1; cbn. pose proof (req_cases prev). lia.
  - split; [constructor; [pose proof (req_cases prev); lia|done..]|done].
Qed.

Lemma peek_next a c prev es p : chain prev es -> p = zlen a ->
  exists b, peek (a ++ body prev es ++ ZIP_END :: c) p = Ok b /\ (b =? ZIP_END) = match es with [] => true | _ => false end.
Proof.
  intros H ->. destruct es as [|e es]; cbn [body].
  - exists ZIP_END. split; [by apply peek_app|done].
  - destruct H as [H _]. rewrite <- app_assoc. destruct (peek_entry a prev e (body (rawlen e) es ++ ZIP_END :: c) _ H eq_refl) as (b & E & ? & _).
    by exists b.
Qed.

Lemma tail_off_wide q e w es : tail_off q (mk_ent w (e_val e) :: es) =
  tail_off q (e :: es) + match es with [] => 0 | _ => w - e_pls e end.
Proof.
  cbn [tail_off]. destruct es as [|e2 es]; [lia|]. rewrite <- tail_off_shift. f_equal. unfold rawlen; cbn. lia.
Qed.

(** One widening: the bytes behind the field move up by four. *)
Lemma widen_field A e n R t l T p :
  e_pls e = 1 -> 254 <= n < 2 ^ 32 -> p = 10 + zlen A -> T = 10 + zlen A + 1 + zlen R + 1 -> T + 4 < 2 ^ 32 ->
  in_u 32 t -> in_u 32 (t + 4) -> forall pv (k : list Z -> res (list Z)),
  (zl ← ziplistResize junk (hdr T t l ++ A ++ pbytes 1 pv ++ R ++ [ZIP_END]) (T + 4);
   toff ← ZIPLIST_TAIL_OFFSET zl;
   zl ← (if negb (toff =? p) then set_ZIPLIST_TAIL_OFFSET zl (toff + 4) else Ok zl);
   zl ← memmove zl (p + 5) (p + 1) (u64 (T - p - 1 - 1));
   '(zl, _) ← zipStorePrevEntryLength zl p n; k zl) =
  k (hdr (T + 4) (if t =? p then t else t + 4) l ++ A ++ pbytes 5 n ++ R ++ [ZIP_END]).
Proof.
  intros He Hn -> -> HT Ht Ht4 pv k. zlen_pos. pose proof (zlen_pbytes 1 pv ltac:(by left)) as Hpb.
  set (T := 10 + zlen A + 1 + zlen R + 1) in *.
  destruct (zl_resize_grow T t l (A ++ pbytes 1 pv ++ R) (T + 4)) as (x & E & Hx & _); [zl|].
  rewrite <- !app_assoc in E. rewrite E. cbn [mbind res_bind]. rewrite tail_hdr by done. cbn [mbind res_bind].
  assert (forall t', (zl ← memmove (hdr (T + 4) t' l ++ A ++ pbytes 1 pv ++ R ++ x ++ [ZIP_END]) (10 + zlen A + 5) (10 + zlen A + 1) (u64 (T - (10 + zlen A) - 1 - 1));
    '(zl, _) ← zipStorePrevEntryLength zl (10 + zlen A) n; k zl) = k (hdr (T + 4) t' l ++ A ++ pbytes 5 n ++ R ++ [ZIP_END])) as Hm.
  { intros t'. destruct (split_len (pbytes 1 pv ++ R ++ x) 5 (zlen R)) as (g & old & Eg & Hg & Hold); [lia|zl|lia|].
    rewrite (memmove_at _ _ _ _ R (hdr (T + 4) t' l ++ A ++ g) old [ZIP_END]); cbn [mbind res_bind].
    - replace (zipStorePrevEntryLength _ _ _) with (zipStorePrevEntryLength ((hdr (T + 4) t' l ++ A) ++ g ++ (R ++ [ZIP_END])) (10 + zlen A) n)
        by (by rewrite <- !app_assoc).
      pose proof (req_cases n) as [[? ?]|[Er _]]; [lia|].
      rewrite store_prevlen_ok by (rewrite ?Er; zl). cbn [mbind res_bind]. by rewrite Er, <- !app_assoc.
    - rewrite uwrap_id by (unfold in_u; lia). rewrite !app_assoc. rewrite <- (app_assoc _ R), <- (app_assoc _ (R ++ x)), <- (app_assoc R).
      apply rd_app; zl.
    - rewrite (app_assoc R x), (app_assoc (pbytes 1 pv)), Eg. by rewrite <- !app_assoc.
    - zl.
    - done. }
  destruct (Z.eqb_spec t (10 + zlen A)); cbn [negb].
  - apply Hm.
  - rewrite set_tail_hdr. cbn [mbind res_bind]. apply Hm.
Qed.

Lemma pbytes_ebytes n e w : ebytes n (mk_ent w (e_val e)) = pbytes w n ++ val_bytes (e_val e).
Proof. done. Qed.

Lemma tail_off_last q e es : chain (rawlen e) es -> 0 < rawlen e -> (tail_off q (e :: es) =? q) = match es with [] => true | _ => false end.
Proof.
  intros H Hr. cbn [tail_off]. destruct es as [|e2 es]; [apply Z.eqb_refl|].
  pose proof (tail_off_range (q + rawlen e) _ _ H). apply Z.eqb_neq. lia.
Qed.

Lemma blob_unfold t l m : blob t l m = hdr (11 + zlen m) t l ++ m ++ [ZIP_END].
Proof. done. Qed.

(** The first tests of a round, for an entry [c] at [p] followed by [es]. *)
Lemma cascade_round fuel b A c pc pv es T p : ent_ok pc c -> chain pv es -> p = zlen A ->
  b = A ++ ebytes pc c ++ body pv es ++ [ZIP_END] ->
  cascade_loop junk (S fuel) b p T =
  match es with
  | [] => Ok b
  | e :: _ =>
    let rl := rawlen c in
    let rs := zipStorePrevEntryLength_len rl in
    if pv =? rl then Ok b else
    if e_pls e <? rs then
      zl ← ziplistResize junk b (T + (rs - e_pls e));
      toff ← ZIPLIST_TAIL_OFFSET zl;
      zl ← (if negb (toff =? p + rl) then set_ZIPLIST_TAIL_OFFSET zl (toff + (rs - e_pls e)) else Ok zl);
      zl ← memmove zl (p + rl + rs) (p + rl + e_pls e) (u64 (T - (p + rl) - e_pls e - 1));
      '(zl, _) ← zipStorePrevEntryLength zl (p + rl) rl;
      cascade_loop junk fuel zl (p + rl) (T + (rs - e_pls e))
    else
      '(zl, _) ← (if rs <? e_pls e then zipStorePrevEntryLengthLarge b (p + rl) rl else zipStorePrevEntryLength b (p + rl) rl);
      Ok zl
  end.
Proof.
  intros Hc Hes -> ->. cbn [cascade_loop]. pose proof (zlen_ebytes _ _ Hc) as Hlc.
  destruct (peek_entry A pc c (body pv es ++ [ZIP_END]) _ Hc eq_refl) as (b & E & E' & _).
  rewrite E. cbn [mbind res_bind]. rewrite E'.
  rewrite zipEntry_ok by done. cbn [mbind res_bind]. rewrite entry_info_rawlen by done.
  rewrite (app_assoc A (ebytes pc c)). destruct (peek_next (A ++ ebytes pc c) [] pv es (zlen A + rawlen c) Hes ltac:(zl)) as (b' & F & F').
  rewrite F. cbn [mbind res_bind]. rewrite F'. destruct es as [|e es]; [done|]. destruct Hes as [He _]. cbn [body]. rewrite <- (app_assoc (ebytes pv e)).
  rewrite zipEntry_ok by (done || zl). done.
Qed.

Lemma wsize_cons e es : wsize (e :: es) = 5 + zlen (val_bytes (e_val e)) + wsize es.
Proof. done. Qed.

Lemma blob_at t l A c pc pv es : blob t l (A ++ ebytes pc c ++ body pv es) =
  (hdr (11 + zlen (A ++ ebytes pc c ++ body pv es)) t l ++ A) ++ ebytes pc c ++ body pv es ++ [ZIP_END].
Proof. unfold blob. by rewrite <- !app_assoc. Qed.

(** A field that is wide enough is overwritten in place. *)
Lemma restore_field A pv e R n p : ent_ok pv e -> 0 <= n < 2 ^ 32 -> p = zlen A -> zipStorePrevEntryLength_len n <= e_pls e ->
  (if zipStorePrevEntryLength_len n <? e_pls e then zipStorePrevEntryLengthLarge (A ++ ebytes pv e ++ R) p n
   else zipStorePrevEntryLength (A ++ ebytes pv e ++ R) p n) = Ok (A ++ ebytes n e ++ R, e_pls e).
Proof.
  intros He Hn Hp Hle. pose proof (pls_cases _ _ He) as Hpls. pose proof (zlen_pbytes (e_pls e) pv Hpls) as Hpb.
  pose proof (req_cases n) as Hrs. unfold ebytes. rewrite <- !app_assoc. destruct (Z.ltb_spec (zipStorePrevEntryLength_len n) (e_pls e)).
  - assert (e_pls e = 5) as E5 by lia. rewrite E5 in *. by apply store_prevlen_large_ok.
  - assert (e_pls e = zipStorePrevEntryLength_len n) as Er by lia. rewrite Er in *. by apply store_prevlen_ok.
Qed.

(** The loop repairs the fields behind an intact entry [c]; it ends because every
    round passes an entry. *)
Lemma cascade_ok es : forall fuel A c pc pv t l, (length es < fuel)%nat -> ent_ok pc c -> chain pv es ->
  zlen A + rawlen c + wsize es + 11 < 2 ^ 32 -> t = tail_off (10 + zlen A) (c :: es) ->
  cascade_loop junk fuel (blob t l (A ++ ebytes pc c ++ body pv es)) (10 + zlen A) (11 + zlen (A ++ ebytes pc c ++ body pv es)) =
  Ok (blob (tail_off (10 + zlen A) (c :: fixup (rawlen c) pv es)) l (A ++ ebytes pc c ++ body (rawlen c) (fixup (rawlen c) pv es))).
Proof.
  induction es as [|e es IH]; intros [|fuel] A c pc pv t l Hf Hc Hes HW ->; try (cbn in Hf; lia).
  all: pose proof (rawlen_pos _ _ Hc); pose proof (zlen_ebytes _ _ Hc) as Hlc; zlen_pos.
  { by rewrite (fun H => cascade_round fuel _ _ c pc pv [] _ (10 + zlen A) Hc Hes H (blob_at _ _ _ _ _ _ _)) by zl. }
  rewrite (fun H => cascade_round fuel _ _ c pc pv (e :: es) _ (10 + zlen A) Hc Hes H (blob_at _ _ _ _ _ _ _)) by zl.
  cbv zeta. set (rl := rawlen c) in *. set (rs := zipStorePrevEntryLength_len rl).
  rewrite wsize_cons in HW. pose proof (wsize_nonneg es). zlen_pos.
  destruct Hes as [He Hes]. pose proof (zlen_ebytes _ _ He) as Hle. pose proof (zlen_body _ _ Hes) as Hlb. pose proof (size_wsize _ _ Hes).
  pose proof (size_nonneg _ _ Hes). pose proof (pls_cases _ _ He) as Hpls. pose proof (rawlen_pos _ _ He).
  cbn [fixup]. fold rs. destruct (Z.eqb_spec pv rl) as [->|Hne]; [done|].
  pose proof (req_cases rl) as Hrs. fold rs in Hrs. assert (rl < 2 ^ 32) by apply Hc.
  destruct (Z.ltb_spec (e_pls e) rs) as [Hlt|Hge].
  - assert (e_pls e = 1 /\ rs = 5) as [E1 E5] by lia. rewrite E5, E1. change (5 - 1) with 4.
    set (R := val_bytes (e_val e) ++ body (rawlen e) es).
    assert (body pv (e :: es) = pbytes 1 pv ++ R) as Eb by (cbn [body]; unfold ebytes, R; by rewrite E1, <- !app_assoc).
    assert (zlen R = zlen (val_bytes (e_val e)) + size es) as HR by (unfold R; rewrite zlen_app; lia).
    assert (rawlen e = 1 + zlen (val_bytes (e_val e))) as Hre by (unfold rawlen; lia).
    pose proof (zlen_pbytes 1 pv ltac:(by left)) as Hpb.
    change (tail_off (10 + zlen A) (c :: e :: es)) with (tail_off (10 + zlen A + rl) (e :: es)).
    pose proof (tail_off_range (10 + zlen A + rl) _ (e :: es) (conj He Hes)) as Htr. cbn [size] in Htr.
    set (A' := A ++ ebytes pc c). assert (zlen A' = zlen A + rl) as HA' by (unfold A'; zl).
    set (T := 11 + zlen (A ++ ebytes pc c ++ body pv (e :: es))).
    assert (T = 10 + zlen A' + 1 + zlen R + 1) as ET by (unfold T; rewrite Eb; zl).
    set (e' := mk_ent 5 (e_val e)). assert (rawlen e' = rawlen e + 4) as Hre' by (unfold rawlen, e' in *; cbn; lia).
    assert (ent_ok rl e') as He' by (destruct He; constructor; cbn; lia || done).
    replace (blob _ _ _) with (hdr T (tail_off (10 + zlen A + rl) (e :: es)) l ++ A' ++ pbytes 1 pv ++ R ++ [ZIP_END])
      by (unfold blob, T, A'; rewrite Eb; by rewrite <- !app_assoc).
    rewrite (widen_field A' e rl R _ l T (10 + zlen A + rl)) by (unfold in_u; lia).
    rewrite tail_off_last by (done || lia).
    pose proof (tail_off_wide (10 + zlen A + rl) e 5 es) as Hw. fold e' in Hw.
    specialize (IH fuel A' e' rl (rawlen e) (tail_off (10 + zlen A') (e' :: es)) l ltac:(cbn in Hf; lia) He' Hes ltac:(lia) eq_refl).
    rewrite HA', Z.add_assoc in IH. rewrite Hw in IH at 1. rewrite E1 in IH.
    assert (A' ++ ebytes rl e' ++ body (rawlen e) es = A' ++ pbytes 5 rl ++ R) as Em by (unfold ebytes, R, e'; cbn [e_pls e_val]; by rewrite <- ?app_assoc).
    rewrite Em in IH. unfold blob in IH at 1. rewrite <- ?app_assoc in IH.
    replace (11 + zlen (A' ++ pbytes 5 rl ++ R)) with (T + 4) in IH
      by (rewrite !zlen_app, (zlen_pbytes 5) by (by right); lia).
    replace (if match es with [] => true | _ => false end then _ else _) with
      (tail_off (10 + zlen A + rl) (e :: es) + match es with [] => 0 | _ => 5 - 1 end) by (destruct es; lia).
    rewrite IH. unfold A'. by rewrite <- app_assoc.
  - assert (rl < 254 \/ e_pls e = 5) as Hst by lia. pose proof (mk_ent_ok rl e ltac:(lia) ltac:(lia) (eo_val _ _ He) (eo_raw _ _ He)) as He'.
    set (T := 11 + zlen (A ++ ebytes pc c ++ body pv (e :: es))). set (t := tail_off _ _).
    replace (blob t l (A ++ ebytes pc c ++ body pv (e :: es))) with
      ((hdr T t l ++ A ++ ebytes pc c) ++ ebytes pv e ++ (body (rawlen e) es ++ [ZIP_END]))
      by (unfold blob, T; cbn [body]; by rewrite <- !app_assoc).
    unfold rs; rewrite restore_field by (done || zl). cbn [mbind res_bind]. unfold blob, T. cbn [body]. rewrite <- !app_assoc. do 3 f_equal.
    rewrite !zlen_app, (zlen_ebytes rl e), (zlen_ebytes pv e) by done. done.
Qed.

Lemma count_size prev es : chain prev es -> zlen es <= size es.
Proof.
  revert prev; induction es as [|e es IH]; intros prev; [done|]. intros [H1%rawlen_pos H2%IH]. cbn [size]. rewrite zlen_cons. lia.
Qed.

Lemma cascade_update_ok A c pc pv es t l : ent_ok pc c -> chain pv es ->
  zlen A + rawlen c + wsize es + 11 < 2 ^ 32 -> t = tail_off (10 + zlen A) (c :: es) ->
  __ziplistCascadeUpdate junk (blob t l (A ++ ebytes pc c ++ body pv es)) (10 + zlen A) =
  Ok (blob (tail_off (10 + zlen A) (c :: fixup (rawlen c) pv es)) l (A ++ ebytes pc c ++ body (rawlen c) (fixup (rawlen c) pv es))).
Proof.
  intros Hc Hes HW Ht. unfold __ziplistCascadeUpdate. pose proof (zlen_ebytes _ _ Hc). pose proof (zlen_body _ _ Hes).
  pose proof (size_wsize _ _ Hes). pose proof (count_size _ _ Hes). rewrite bytes_blob by zl.
  cbn [mbind res_bind]. apply cascade_ok; try done. unfold zlen in *. unfold blob. rewrite !length_app. lia.
Qed.

(** ** Insertion *)

Lemma prev_of_snoc prev l e : prev_of prev (l ++ [e]) = rawlen e.
Proof. by rewrite prev_of_app. Qed.

Lemma blob_cut t l l1 prev l2 : blob t l (l1 ++ body prev l2) =
  (hdr (11 + zlen (l1 ++ body prev l2)) t l ++ l1) ++ body prev l2 ++ [ZIP_END].
Proof. unfold blob. by rewrite <- !app_assoc. Qed.

Lemma insert_prevlen_ok l1 l2 l : chain 0 (l1 ++ l2) -> 11 + size (l1 ++ l2) < 2 ^ 32 ->
  insert_prevlen (blob (tail_off 10 (l1 ++ l2)) l (body 0 (l1 ++ l2))) (10 + size l1) = Ok (prev_of 0 l1).
Proof.
  intros Hc Hs. pose proof (tail_off_range 10 _ _ Hc) as Ht. pose proof (proj1 (chain_app _ _ _) Hc) as [Hc1 Hc2].
  pose proof (zlen_body _ _ Hc1). pose proof (size_nonneg _ _ Hc). unfold insert_prevlen.
  rewrite body_app, blob_cut. set (T := 11 + _).
  destruct (peek_next (hdr T (tail_off 10 (l1 ++ l2)) l ++ body 0 l1) [] _ _ (10 + size l1) Hc2 ltac:(zl)) as (b & -> & Eb).
  cbn [mbind res_bind]. rewrite Eb. destruct l2 as [|e l2]; cbn [negb].
  - cbn [body app]. rewrite <- app_assoc. unfold ZIPLIST_ENTRY_TAIL. rewrite tail_hdr by (unfold in_u; lia). cbn [mbind res_bind].
    rewrite app_nil_r in *. destruct l1 as [|e l1 _] using rev_ind.
    + cbn [tail_off]. cbn [body app]. rewrite (peek_end _ []) by zl. done.
    + rewrite (tail_off_app _ l1 e []). cbn [tail_off]. apply chain_app in Hc1 as [Hc1 [He _]]. rewrite body_app. cbn [body].
      rewrite app_nil_r, <- app_assoc, (app_assoc (hdr _ _ _)). pose proof (zlen_body _ _ Hc1).
      destruct (peek_entry (hdr T (10 + size l1) l ++ body 0 l1) _ _ [ZIP_END] (10 + size l1) He ltac:(zl)) as (b' & E & E' & _).
      rewrite E. cbn [mbind res_bind]. rewrite E'. cbn [negb]. rewrite (zipRawEntryLength_ok _ (prev_of 0 l1)) by (done || zl).
      by rewrite prev_of_snoc.
  - destruct Hc2 as [He _]. cbn [body]. rewrite <- (app_assoc (ebytes _ _)). rewrite decode_prevlen_ok by (done || zl). done.
Qed.

(** The entry that an inserted string becomes. *)
Definition new_ent (prev : Z) (s : list Z) : ent := mk_ent (zipStorePrevEntryLength_len prev) (val_of s).

Lemma val_of_ok s : zlen s < 2 ^ 32 -> val_ok (val_of s).
Proof.
  intros Hs. unfold val_of, zipTryEncoding. destruct ((32 <=? zlen s) || (zlen s =? 0)); [done|].
  destruct (string2ll s) as [v|] eqn:E; [|done]. by apply string2ll_sound in E as [_ Hv].
Qed.

(** The value, encoding and payload size that [__ziplistInsert] computes. *)
Lemma try_encoding_ok s :
  exists value enc n, match zipTryEncoding s with
    | Some (value, enc) => n ← zipIntSize enc; Ok (value, enc, n)
    | None => Ok (123456789, 0, zlen s) end = Ok (value, enc, n) /\
    n = zlen (val_data (val_of s)) /\ zipStoreEntryEncoding_len enc (zlen s) = zlen (val_hdr (val_of s)) /\
    zipStoreEntryEncoding_buf enc (zlen s) = val_hdr (val_of s) /\
    match val_of s with
    | ZStr s' => ZIP_IS_STR enc = true /\ s' = s
    | ZInt v => ZIP_IS_STR enc = false /\ enc = int_encoding v /\ value = v /\ in_s 64 v
    end.
Proof.
  unfold val_of, zipTryEncoding. destruct ((32 <=? zlen s) || (zlen s =? 0)).
  { do 3 eexists. split_and!; [done|done| |done|done|done]. cbn [val_hdr]. by rewrite str_hdr_len. }
  destruct (string2ll s) as [v|] eqn:E.
  2: { do 3 eexists. split_and!; [done|done| |done|done|done]. cbn [val_hdr]. by rewrite str_hdr_len. }
  apply string2ll_sound in E as [_ Hv]. rewrite zipIntSize_ok by done. cbn [mbind res_bind]. do 3 eexists.
  cbn [val_data val_hdr]. pose proof (int_enc_not_str v Hv) as Hn.
  split_and!; [done|by rewrite zlen_le_bytes| | |done|done|done|done].
  - unfold zipStoreEntryEncoding_len. by rewrite Hn.
  - unfold zipStoreEntryEncoding_buf. by rewrite Hn.
Qed.

Lemma insert_write_ok a gap c prev s value enc p : p = zlen a -> 0 <= prev < 2 ^ 32 ->
  zlen gap = rawlen (new_ent prev s) -> zipStoreEntryEncoding_buf enc (zlen s) = val_hdr (val_of s) ->
  match val_of s with
  | ZStr s' => ZIP_IS_STR enc = true /\ s' = s
  | ZInt v => ZIP_IS_STR enc = false /\ enc = int_encoding v /\ value = v /\ in_s 64 v
  end ->
  insert_write (a ++ gap ++ c) p prev value enc s = Ok (a ++ ebytes prev (new_ent prev s) ++ c).
Proof.
  intros -> Hp Hg Hh Hv. unfold rawlen, val_bytes in Hg. cbn [e_pls e_val new_ent] in Hg. rewrite zlen_app in Hg.
  pose proof (req_cases prev) as Hr. zlen_pos.
  destruct (split_len gap (zipStorePrevEntryLength_len prev) (zlen (val_hdr (val_of s)) + zlen (val_data (val_of s)))) as (g1 & g & -> & G1 & G'); [lia..|].
  destruct (split_len g (zlen (val_hdr (val_of s))) (zlen (val_data (val_of s)))) as (g2 & g3 & -> & G2 & G3); [lia..|].
  unfold insert_write. rewrite <- !app_assoc. rewrite store_prevlen_ok by done. cbn [mbind res_bind].
  unfold zipStoreEntryEncoding. rewrite Hh. pose proof (zlen_pbytes (zipStorePrevEntryLength_len prev) prev ltac:(lia)) as Hpb.
  rewrite (app_assoc a), wr_app by (rewrite ?zlen_app; lia). cbn [mbind res_bind].
  unfold ebytes, new_ent, val_bytes. cbn [e_pls e_val].
  rewrite (app_assoc (a ++ _)). destruct (val_of s) as [s'|v]; cbn [val_data val_hdr] in *.
  - destruct Hv as [-> ->]. rewrite wr_app by (rewrite ?zlen_app; lia). by rewrite <- !app_assoc.
  - destruct Hv as (-> & -> & -> & Hv). rewrite zipSaveInteger_ok by (rewrite ?zlen_app in *; rewrite ?zlen_le_bytes in *; lia || done).
    by rewrite <- !app_assoc.
Qed.

(** The bytes from [k] before the end of [pre ++ pb]. *)
Lemma rd_back pre pb R rest d : - zlen pb <= d <= zlen pre ->
  exists y, rd (pre ++ pb ++ R ++ rest) (zlen pre - d) (zlen pb + zlen R + d) = Ok (y ++ R) /\ zlen y = zlen pb + d.
Proof.
  intros Hd. zlen_pos. destruct (list_split_at (zlen pre - d) (pre ++ pb)) as (a & y & E & Ha); [zl|].
  assert (zlen y = zlen pb + d) by (apply (f_equal zlen) in E; zl).
  exists y. split; [|done]. rewrite app_assoc, E, <- app_assoc, (app_assoc y R). apply rd_app; zl.
Qed.

Lemma insert_move_ok A e pp es reqlen w fl x t l L p curlen nd :
  ent_ok pp e -> chain (rawlen e) es -> 2 <= reqlen ->
  w = (if fl : bool then 5 else zipStorePrevEntryLength_len reqlen) -> nd = w - e_pls e -> 0 <= reqlen + nd -> zlen x = reqlen + nd ->
  p = 10 + zlen A -> curlen = 11 + zlen (A ++ ebytes pp e ++ body (rawlen e) es) -> L = curlen + reqlen + nd ->
  zlen A + reqlen + wsize (e :: es) + 11 < 2 ^ 32 -> t = tail_off p (e :: es) ->
  exists gap, zlen gap = reqlen /\
    insert_move (hdr L t l ++ (A ++ ebytes pp e ++ body (rawlen e) es) ++ x ++ [ZIP_END]) p reqlen nd curlen fl =
    Ok (blob (tail_off (p + reqlen) (mk_ent w (e_val e) :: es)) l ((A ++ gap) ++ ebytes reqlen (mk_ent w (e_val e)) ++ body (rawlen e) es)).
Proof.
  intros He Hes Hrq Hw Hnd Hpos Hx Hp Hcl HL HW Ht. rewrite wsize_cons in HW. set (e1 := mk_ent w (e_val e)).
  pose proof (pls_cases _ _ He) as Hpls. pose proof (zlen_ebytes _ _ He) as Hle. pose proof (zlen_body _ _ Hes) as Hlb.
  pose proof (req_cases reqlen) as Hrs. pose proof (rawlen_pos _ _ He). zlen_pos. pose proof (size_nonneg _ _ Hes).
  pose proof (size_wsize _ _ Hes).
  assert (w = 1 /\ reqlen < 254 \/ w = 5) as Hwc by (destruct fl; lia).
  assert (rawlen e + nd <= 5 + zlen (val_bytes (e_val e)) /\ rawlen e <= 5 + zlen (val_bytes (e_val e))) as Hre by (unfold rawlen; lia).
  rewrite !zlen_app in Hcl. rewrite Hle, Hlb in Hcl.
  set (R := val_bytes (e_val e) ++ body (rawlen e) es).
  assert (zlen R = rawlen e - e_pls e + size es) as HR by (unfold R; rewrite zlen_app, Hlb; unfold rawlen; lia).
  assert (rawlen e1 = rawlen e + nd) as Hre1 by (unfold rawlen, e1; cbn; lia).
  assert (ent_ok reqlen e1) as He1 by (constructor; cbn; [lia|lia|apply He|lia]).
  pose proof (zlen_pbytes (e_pls e) pp Hpls) as Hpb. pose proof (rawlen_pos _ _ He1).
  set (Hd := hdr L t l). assert (zlen Hd = 10) as Hhd by apply zlen_hdr.
  assert (Hd ++ (A ++ ebytes pp e ++ body (rawlen e) es) ++ x ++ [ZIP_END] = (Hd ++ A) ++ pbytes (e_pls e) pp ++ R ++ (x ++ [ZIP_END])) as Em
    by (unfold ebytes, R; by rewrite <- !app_assoc). rewrite Em. clear Em.
  destruct (rd_back (Hd ++ A) (pbytes (e_pls e) pp) R (x ++ [ZIP_END]) nd ltac:(zl)) as (y & Ey & Hy).
  destruct (split_len (pbytes (e_pls e) pp ++ R ++ x) reqlen (zlen (y ++ R))) as (gap & old & Eg & Hg & Hold); [lia|zl|zl|].
  exists gap. split; [done|]. unfold insert_move.
  rewrite (memmove_at _ _ _ _ (y ++ R) ((Hd ++ A) ++ gap) old [ZIP_END]); cycle 1.
  { rewrite uwrap_id by (unfold in_u; lia). rewrite <- Ey. f_equal; zl. }
  { rewrite (app_assoc R), (app_assoc (pbytes _ _)), Eg. by rewrite <- !app_assoc. }
  { zl. }
  { done. }
  cbn [mbind res_bind]. rewrite <- (app_assoc y R).
  assert (forall B, B = zlen ((Hd ++ A) ++ gap) -> (if fl then zipStorePrevEntryLengthLarge (((Hd ++ A) ++ gap) ++ y ++ R ++ [ZIP_END]) B reqlen
     else zipStorePrevEntryLength (((Hd ++ A) ++ gap) ++ y ++ R ++ [ZIP_END]) B reqlen) =
     Ok (((Hd ++ A) ++ gap) ++ pbytes w reqlen ++ R ++ [ZIP_END], w)) as Hst.
  { intros B HB. destruct fl; subst w; [by apply store_prevlen_large_ok; [|lia]|]. apply store_prevlen_ok; [lia|done|lia]. }
  rewrite Hst by zl. clear Hst. cbn [mbind res_bind].
  pose proof (tail_off_range p _ (e :: es) (conj He Hes)) as Htr. cbn [size] in Htr. rewrite <- Ht in Htr.
  unfold Hd. rewrite <- !app_assoc. rewrite tail_hdr by (unfold in_u; lia). cbn [mbind res_bind]. rewrite set_tail_hdr. cbn [mbind res_bind].
  assert (forall T tt, hdr T tt l ++ A ++ gap ++ pbytes w reqlen ++ R ++ [ZIP_END] =
    (hdr T tt l ++ A ++ gap) ++ ebytes reqlen e1 ++ body (rawlen e) es ++ [ZIP_END]) as Em
    by (intros; unfold ebytes, e1, R; cbn [e_pls e_val]; by rewrite <- !app_assoc).
  rewrite Em. rewrite zipEntry_ok by (done || zl). cbn [mbind res_bind].
  cbn [headersize len entry_info]. pose proof (rawlen_split reqlen e1 He1) as Hrl. pose proof (zlen_ebytes _ _ He1) as Hle1.
  rewrite (app_assoc _ (ebytes reqlen e1)).
  destruct (peek_next ((hdr L (t + reqlen) l ++ A ++ gap) ++ ebytes reqlen e1) [] _ _
    (p + (reqlen + (e_pls e1 + zlen (val_hdr (e_val e1))) + zlen (val_data (e_val e1)))) Hes ltac:(zl)) as (b & E & E').
  rewrite E. cbn [mbind res_bind]. rewrite E'. 
  assert (tail_off (p + reqlen) (e1 :: es) = t + reqlen + match es with [] => 0 | _ => w - e_pls e end) as ->
    by (unfold e1; by rewrite tail_off_wide, tail_off_shift, <- Ht).
  assert (L = 11 + zlen (A ++ gap ++ ebytes reqlen e1 ++ body (rawlen e) es)) as EL by zl.
  unfold blob. rewrite <- EL. destruct es as [|e2 es]; cbn [negb].
  - rewrite Z.add_0_r. by rewrite <- !app_assoc.
  - rewrite <- !app_assoc. rewrite tail_hdr by (unfold in_u; lia). cbn [mbind res_bind]. rewrite set_tail_hdr. by rewrite Hnd.
Qed.

Definition incr_len (lf k : Z) : Z := if lf <? UINT16_MAX then lf + k else lf.

Lemma new_ent_ok prev s : 0 <= prev < 2 ^ 32 -> zlen s < 2 ^ 32 -> rawlen (new_ent prev s) < 2 ^ 32 -> ent_ok prev (new_ent prev s).
Proof.
  intros Hp Hs Hr. constructor; [|done| |done]; cbn.
  - pose proof (req_cases prev). lia.
  - by apply val_of_ok.
Qed.

Lemma val_of_len s : zlen (val_bytes (val_of s)) <= 13 + zlen s.
Proof.
  pose proof (zlen_nonneg s). unfold val_bytes. rewrite zlen_app. pose proof (val_hdr_pos (val_of s)). unfold val_of, zipTryEncoding.
  destruct ((32 <=? zlen s) || (zlen s =? 0)); [cbn [val_data]; pose proof (val_hdr_pos (ZStr s)); lia|].
  destruct (string2ll s) as [v|]; cbn [val_data]; [|pose proof (val_hdr_pos (ZStr s)); lia]. rewrite zlen_le_bytes.
  pose proof (val_hdr_pos (ZInt v)). unfold int_size. repeat case_match; lia.
Qed.

Lemma val_of_ge s : zlen (val_data (val_of s)) <= zlen (val_bytes (val_of s)).
Proof. unfold val_bytes. zl. Qed.

Lemma rawlen_new prev s : rawlen (new_ent prev s) =
  zlen (val_data (val_of s)) + zipStorePrevEntryLength_len prev + zlen (val_hdr (val_of s)).
Proof. unfold rawlen, val_bytes. cbn. rewrite zlen_app. lia. Qed.

Lemma insert_end_ok l1 lf s : chain 0 l1 -> in_u 16 lf -> zlen s < 2 ^ 32 ->
  11 + wsize (l1 ++ [new_ent (prev_of 0 l1) s]) < 2 ^ 32 ->
  __ziplistInsert junk (blob (tail_off 10 l1) lf (body 0 l1)) (10 + size l1) s =
  Ok (blob (tail_off 10 (l1 ++ [new_ent (prev_of 0 l1) s])) (incr_len lf 1) (body 0 (l1 ++ [new_ent (prev_of 0 l1) s]))) /\
  chain 0 (l1 ++ [new_ent (prev_of 0 l1) s]).
Proof.
  intros Hc Hlf Hs HW. set (pp := prev_of 0 l1) in *. set (e0 := new_ent pp s) in *.
  pose proof (prev_of_range 0 l1 Hc ltac:(lia)) as Hpp. fold pp in Hpp. pose proof (zlen_body _ _ Hc) as Hlb.
  rewrite wsize_app, wsize_cons in HW. cbn [wsize] in HW. pose proof (size_wsize _ _ Hc). pose proof (size_nonneg _ _ Hc).
  assert (rawlen e0 <= 5 + zlen (val_bytes (e_val e0))) as Hr0 by (unfold rawlen, e0; cbn; pose proof (req_cases pp); lia).
  assert (ent_ok pp e0) as He0 by (apply new_ent_ok; [done|done|unfold e0 in *; lia]).
  pose proof (rawlen_pos _ _ He0). pose proof (zlen_ebytes _ _ He0) as Hle0.
  split; [|apply chain_app; by split].
  unfold __ziplistInsert. rewrite bytes_blob by lia. cbn [mbind res_bind].
  pose proof (insert_prevlen_ok l1 [] lf) as Hip. rewrite app_nil_r in Hip. rewrite Hip by (done || lia). cbn [mbind res_bind]. fold pp.
  destruct (try_encoding_ok s) as (value & enc & n & -> & En & Eh & Ebuf & Ev). cbn [mbind res_bind].
  rewrite Eh. replace (n + zipStorePrevEntryLength_len pp + zlen (val_hdr (val_of s))) with (rawlen e0) by (unfold e0; rewrite rawlen_new; lia).
  set (Hd := hdr (11 + zlen (body 0 l1)) (tail_off 10 l1) lf).
  assert (peek (blob (tail_off 10 l1) lf (body 0 l1)) (10 + size l1) = Ok ZIP_END) as ->.
  { unfold blob. fold Hd. rewrite app_assoc. apply peek_end. unfold Hd; zl. }
  cbn [mbind res_bind]. change (negb (ZIP_END =? ZIP_END)) with false. cbv iota. cbn [mbind res_bind].
  change ((0 =? -4) && (rawlen e0 <? 4)) with false. cbv iota. rewrite Z.add_0_r.
  destruct (zl_resize_grow (11 + zlen (body 0 l1)) (tail_off 10 l1) lf (body 0 l1) (11 + zlen (body 0 l1) + rawlen e0)) as (x & Ex & Hx & x' & Ex'); [lia|].
  unfold blob at 1. rewrite Ex. cbn [mbind res_bind]. rewrite Ex'.
  rewrite (app_assoc (hdr _ _ _)), (peek_end _ x') by zl. cbn [mbind res_bind]. rewrite <- app_assoc, <- Ex'.
  change (negb (ZIP_END =? ZIP_END)) with false. change (negb (0 =? 0)) with false. cbv iota.
  rewrite set_tail_hdr. cbn [mbind res_bind]. rewrite (app_assoc (hdr _ _ _)).
  rewrite (insert_write_ok _ x [ZIP_END] pp s value enc) by (done || (unfold e0 in *; zl)).
  cbn [mbind res_bind]. rewrite <- app_assoc, incr_length_hdr by done. fold e0. unfold blob.
  rewrite tail_off_app, body_app. fold pp. cbn [tail_off body]. rewrite app_nil_r, <- !app_assoc. do 3 f_equal. zl.
Qed.

(** The entry behind the inserted one: its field becomes as wide as needed, except
    that a wide field is kept when the blob would shrink. *)
Definition next_width (reqlen : Z) (e : ent) : Z :=
  if (zipStorePrevEntryLength_len reqlen - e_pls e =? -4) && (reqlen <? 4) then 5
  else zipStorePrevEntryLength_len reqlen.
Definition rewide (w : Z) (e : ent) (es : list ent) : list ent :=
  let e1 := mk_ent w (e_val e) in e1 :: fixup (rawlen e1) (rawlen e) es.

Lemma rewide_vals w e es : map e_val (rewide w e es) = map e_val (e :: es).
Proof. unfold rewide. cbn [map e_val]. by rewrite fixup_vals. Qed.

(** The cascade runs only when the width has changed; without it nothing needs a repair. *)
Lemma maybe_cascade A e w pc es l p : ent_ok pc (mk_ent w (e_val e)) -> chain (rawlen e) es ->
  zlen A + 5 + zlen (val_bytes (e_val e)) + wsize es + 11 < 2 ^ 32 -> p = 10 + zlen A ->
  (if negb (w - e_pls e =? 0)
   then __ziplistCascadeUpdate junk (blob (tail_off p (mk_ent w (e_val e) :: es)) l (A ++ ebytes pc (mk_ent w (e_val e)) ++ body (rawlen e) es)) p
   else Ok (blob (tail_off p (mk_ent w (e_val e) :: es)) l (A ++ ebytes pc (mk_ent w (e_val e)) ++ body (rawlen e) es))) =
  Ok (blob (tail_off p (rewide w e es)) l (A ++ body pc (rewide w e es))).
Proof.
  intros H1 Hes HW ->. set (e1 := mk_ent w (e_val e)) in *. pose proof (pls_cases _ _ H1) as Hw. cbn in Hw.
  assert (rawlen e1 <= 5 + zlen (val_bytes (e_val e))) by (unfold rawlen, e1; cbn; lia).
  destruct (Z.eqb_spec (w - e_pls e) 0) as [E|_]; cbn [negb].
  - unfold rewide. fold e1. assert (rawlen e1 = rawlen e) as Er by (unfold rawlen, e1; cbn; lia).
    rewrite <- Er, fixup_same. cbn [body]. by rewrite Er.
  - rewrite cascade_update_ok by (done || lia). done.
Qed.

Lemma rewide_chain pc e w es : ent_ok pc (mk_ent w (e_val e)) -> chain (rawlen e) es -> wsize es < 2 ^ 32 -> chain pc (rewide w e es).
Proof.
  intros H1 Hes HW. split; [done|]. apply fixup_chain; [done| |done]. pose proof (rawlen_pos _ _ H1). pose proof (eo_raw _ _ H1). lia.
Qed.

Lemma byte_diff_ok a e prev c p n : ent_ok prev e -> p = zlen a ->
  zipPrevLenByteDiff (a ++ ebytes prev e ++ c) p n = Ok (zipStorePrevEntryLength_len n - e_pls e).
Proof.
  intros He Hp. unfold zipPrevLenByteDiff. rewrite decode_prevlensize_ok by done. cbn [mbind res_bind].
  pose proof (pls_cases _ _ He). pose proof (req_cases n). rewrite swrap_uwrap, swrap_id by (unfold in_s; lia). done.
Qed.

Lemma next_width_cases reqlen e prev : ent_ok prev e -> 2 <= reqlen ->
  (next_width reqlen e = 1 /\ reqlen < 254 \/ next_width reqlen e = 5) /\ 0 <= reqlen + (next_width reqlen e - e_pls e).
Proof.
  intros He%pls_cases Hr. unfold next_width. pose proof (req_cases reqlen).
  destruct (Z.eqb_spec (zipStorePrevEntryLength_len reqlen - e_pls e) (-4)); destruct (Z.ltb_spec reqlen 4); cbn [andb]; lia.
Qed.

Lemma insert_mid_ok l1 e es lf s : chain 0 (l1 ++ e :: es) -> in_u 16 lf -> zlen s < 2 ^ 32 ->
  11 + wsize (l1 ++ new_ent (prev_of 0 l1) s :: e :: es) < 2 ^ 32 ->
  let e0 := new_ent (prev_of 0 l1) s in
  let es' := l1 ++ e0 :: rewide (next_width (rawlen e0) e) e es in
  __ziplistInsert junk (blob (tail_off 10 (l1 ++ e :: es)) lf (body 0 (l1 ++ e :: es))) (10 + size l1) s =
  Ok (blob (tail_off 10 es') (incr_len lf 1) (body 0 es')) /\ chain 0 es'.
Proof.
  intros Hc Hlf Hs HW e0 es'. set (pp := prev_of 0 l1) in *. rewrite wsize_app, !wsize_cons in HW.
  pose proof (tail_off_range 10 _ _ Hc) as Htr. rewrite size_app in Htr. cbn [size] in Htr.
  pose proof Hc as [Hc1 [He Hes]]%chain_app. fold pp in He.
  pose proof (prev_of_range 0 l1 Hc1 ltac:(lia)) as Hpp. fold pp in Hpp. pose proof (zlen_body _ _ Hc1) as Hlb1.
  pose proof (zlen_body _ _ Hes) as Hlb. pose proof (size_wsize _ _ Hc1). pose proof (size_nonneg _ _ Hc1).
  pose proof (size_wsize _ _ Hes). pose proof (size_nonneg _ _ Hes). pose proof (wsize_nonneg es). zlen_pos.
  pose proof (pls_cases _ _ He) as Hpls. pose proof (zlen_ebytes _ _ He) as Hle. pose proof (rawlen_pos _ _ He).
  assert (rawlen e <= 5 + zlen (val_bytes (e_val e))) as Hr by (unfold rawlen; lia).
  assert (rawlen e = e_pls e + zlen (val_bytes (e_val e))) as Hre by done.
  fold e0 in HW. assert (rawlen e0 <= 5 + zlen (val_bytes (e_val e0))) as Hr0 by (unfold rawlen, e0; cbn; pose proof (req_cases pp); lia).
  assert (ent_ok pp e0) as He0 by (apply new_ent_ok; [done|done|unfold e0 in *; lia]).
  pose proof (rawlen_pos _ _ He0) as Hrp. pose proof (zlen_ebytes _ _ He0) as Hle0.
  destruct (next_width_cases (rawlen e0) e pp He Hrp) as [Hwc Hwp]. set (w := next_width (rawlen e0) e) in *.
  assert (ent_ok (rawlen e0) (mk_ent w (e_val e))) as He1.
  { constructor; [cbn; lia|lia|apply He|unfold rawlen; cbn; lia]. }
  split; [|apply chain_app; split; [done|split; [done|apply rewide_chain; done || lia]]].
  unfold __ziplistInsert. set (m := body 0 (l1 ++ e :: es)).
  assert (m = body 0 l1 ++ ebytes pp e ++ body (rawlen e) es) as Em by (unfold m; rewrite body_app; done).
  assert (zlen m = size l1 + rawlen e + size es) as Hm by (rewrite Em; zl).
  rewrite bytes_blob by lia. cbn [mbind res_bind]. unfold m.
  rewrite insert_prevlen_ok by (done || (rewrite size_app; cbn [size]; lia)). cbn [mbind res_bind]. fold pp m.
  destruct (try_encoding_ok s) as (value & enc & n & -> & En & Eh & Ebuf & Ev). cbn [mbind res_bind].
  rewrite Eh. replace (n + zipStorePrevEntryLength_len pp + zlen (val_hdr (val_of s))) with (rawlen e0) by (unfold e0; rewrite rawlen_new; lia).
  set (t := tail_off 10 (l1 ++ e :: es)) in *.
  assert (forall T t m2, hdr T t lf ++ (body 0 l1 ++ ebytes pp e ++ body (rawlen e) es) ++ m2 =
    (hdr T t lf ++ body 0 l1) ++ ebytes pp e ++ (body (rawlen e) es ++ m2)) as Ea by (intros; by rewrite <- !app_assoc).
  assert (forall T t m2, exists b, peek (hdr T t lf ++ m ++ m2) (10 + size l1) = Ok b /\ (b =? ZIP_END) = false) as Hpk.
  { intros T t' m2. rewrite Em, Ea. destruct (peek_entry (hdr T t' lf ++ body 0 l1) pp e (body (rawlen e) es ++ m2) (10 + size l1) He ltac:(zl)) as (b & ? & ? & _).
    by exists b. }
  destruct (Hpk (11 + zlen m) t [ZIP_END]) as (b & Eb & Eb'). rewrite (Eb : peek (blob t lf m) _ = _). cbn [mbind res_bind]. rewrite Eb'. cbn [negb].
  rewrite (uwrap_id 32 (rawlen e0)) by (unfold in_u; lia). 
  assert (zipPrevLenByteDiff (blob t lf m) (10 + size l1) (rawlen e0) = Ok (zipStorePrevEntryLength_len (rawlen e0) - e_pls e)) as ->
    by (unfold blob; rewrite Em, Ea; apply byte_diff_ok; done || zl). cbn [mbind res_bind].
  set (fl := (zipStorePrevEntryLength_len (rawlen e0) - e_pls e =? -4) && (rawlen e0 <? 4)).
  assert ((if fl then 0 else zipStorePrevEntryLength_len (rawlen e0) - e_pls e) = w - e_pls e) as ->.
  { unfold w, next_width. fold fl. destruct fl eqn:Efl; [|done]. apply andb_true_iff in Efl as [E1%Z.eqb_eq _].
    pose proof (req_cases (rawlen e0)). lia. }
  destruct (zl_resize_grow (11 + zlen m) t lf m (11 + zlen m + rawlen e0 + (w - e_pls e))) as (x & Ex & Hx & _); [lia|].
  rewrite (Ex : ziplistResize junk (blob t lf m) _ = _). cbn [mbind res_bind].
  set (L := 11 + zlen m + rawlen e0 + (w - e_pls e)) in *.
  destruct (Hpk L t (x ++ [ZIP_END])) as (b2 & Eb2 & Eb2'). rewrite Eb2. cbn [mbind res_bind]. rewrite Eb2'. cbn [negb].
  destruct (insert_move_ok (body 0 l1) e pp es (rawlen e0) w fl x t lf L (10 + size l1) (11 + zlen m) (w - e_pls e))
    as (gap & Hg & Eg); try done; try lia.
  { by rewrite <- Em. }
  { rewrite wsize_cons. lia. }
  { unfold t. by rewrite tail_off_app. }
  rewrite <- Em in Eg. rewrite Eg. cbn [mbind res_bind].
  rewrite (maybe_cascade (body 0 l1 ++ gap) e w (rawlen e0) es lf (10 + size l1 + rawlen e0)) by (done || zl). cbn [mbind res_bind].
  unfold blob. set (R := body (rawlen e0) _). set (t2 := tail_off (10 + size l1 + rawlen e0) _).
  rewrite <- !app_assoc, (app_assoc (hdr _ _ _)).
  rewrite (insert_write_ok _ gap (R ++ [ZIP_END]) pp s value enc) by (done || (unfold e0 in *; zl)).
  cbn [mbind res_bind]. rewrite <- app_assoc, incr_length_hdr by done. fold e0. do 2 f_equal.
  - f_equal; [|unfold es', t2; by rewrite tail_off_app].
    unfold es'. rewrite body_app. fold pp. cbn [body]. fold R. zl.
  - unfold es'. rewrite body_app. fold pp. cbn [body]. fold R. by rewrite <- !app_assoc.
Qed.

(** ** Deletion *)

Lemma ztake_nil {A} n : ztake n (@nil A) = [].
Proof. apply take_nil. Qed.
Lemma ztake_cons {A} n (x : A) l : 0 < n -> ztake n (x :: l) = x :: ztake (n - 1) l.
Proof. intros. unfold ztake. replace (Z.to_nat n) with (S (Z.to_nat (n - 1))) by lia. done. Qed.

Lemma delete_loop_ok rest : forall fuel A prev b p i num del, (length rest < fuel)%nat -> chain prev rest ->
  b = A ++ body prev rest ++ [ZIP_END] -> p = zlen A ->
  delete_loop fuel b p i num del = Ok (p + size (ztake (num - i) rest), del + zlen (ztake (num - i) rest)).
Proof.
  induction rest as [|e rest IH]; intros [|fuel] A prev b p i num del Hf Hc -> ->; try (cbn in Hf; lia); cbn [delete_loop].
  { rewrite (peek_end A []) by done. cbn [mbind res_bind]. change (negb (ZIP_END =? ZIP_END)) with false. cbn [andb].
    rewrite (ztake_nil (A:=ent)). cbn [size]. do 2 f_equal; zl. }
  destruct Hc as [He Hc]. cbn [body]. rewrite <- app_assoc.
  destruct (peek_entry A prev e (body (rawlen e) rest ++ [ZIP_END]) _ He eq_refl) as (b & E & E' & _).
  rewrite E. cbn [mbind res_bind]. rewrite E'. cbn [negb andb]. destruct (Z.ltb_spec i num).
  - rewrite zipRawEntryLength_ok by done. cbn [mbind res_bind]. pose proof (zlen_ebytes _ _ He).
    rewrite (IH fuel (A ++ ebytes prev e) (rawlen e)); [|cbn in Hf; lia|done|by rewrite <- app_assoc|zl].
    rewrite ztake_cons by lia. cbn [size]. rewrite zlen_cons. replace (num - (i + 1)) with (num - i - 1) by lia.
    do 2 f_equal; lia.
  - rewrite ztake_0 by lia. cbn [size]. do 2 f_equal; zl.
Qed.

Lemma delete_move_ok A D pd pp e es T t l p first nd :
  ent_ok pd e -> chain (rawlen e) es -> 0 <= pp < 2 ^ 32 -> nd = zipStorePrevEntryLength_len pp - e_pls e -> nd <= zlen D ->
  let m := A ++ D ++ ebytes pd e ++ body (rawlen e) es in
  T = 11 + zlen m -> T < 2 ^ 32 -> rawlen e + nd < 2 ^ 32 -> zp first = 10 + zlen A -> prevrawlen first = pp ->
  p = 10 + zlen A + zlen D -> t = tail_off p (e :: es) ->
  exists j, zlen j = zlen D - nd + 1 /\
    delete_move (hdr T t l ++ m ++ [ZIP_END]) p (zlen D) first =
    Ok (hdr T (tail_off (10 + zlen A) (mk_ent (zipStorePrevEntryLength_len pp) (e_val e) :: es)) l ++
        A ++ ebytes pp (mk_ent (zipStorePrevEntryLength_len pp) (e_val e)) ++ body (rawlen e) es ++ j, nd).
Proof.
  intros He Hes Hpp Hnd HD m HT HT2 Hre Hzp Hprl Hp Ht. set (w := zipStorePrevEntryLength_len pp) in *. set (e1 := mk_ent w (e_val e)).
  pose proof (pls_cases _ _ He) as Hpls. pose proof (zlen_ebytes _ _ He) as Hle. pose proof (zlen_body _ _ Hes) as Hlb.
  pose proof (req_cases pp) as Hrs. fold w in Hrs. pose proof (rawlen_pos _ _ He). zlen_pos. pose proof (size_nonneg _ _ Hes).
  assert (T = 11 + zlen A + zlen D + rawlen e + size es) as HT' by (rewrite HT; unfold m; zl).
  assert (rawlen e1 = rawlen e + nd) as Hre1 by (unfold rawlen, e1; cbn; lia).
  assert (ent_ok pp e1) as He1 by (constructor; cbn; [lia|lia|apply He|lia]). pose proof (rawlen_pos _ _ He1).
  pose proof (zlen_ebytes _ _ He1) as Hle1.
  unfold delete_move. rewrite Hzp, Hprl.
  assert (hdr T t l ++ m ++ [ZIP_END] = (hdr T t l ++ A ++ D) ++ ebytes pd e ++ (body (rawlen e) es ++ [ZIP_END])) as Em
    by (unfold m; by rewrite <- !app_assoc). rewrite Em.
  rewrite byte_diff_ok by (done || zl). cbn [mbind res_bind]. fold w. rewrite <- Hnd.
  set (R := val_bytes (e_val e) ++ body (rawlen e) es).
  pose proof (zlen_pbytes (e_pls e) pd Hpls) as Hpb.
  destruct (list_split_at (zlen D - nd) (D ++ pbytes (e_pls e) pd)) as (d1 & y & Ed & Hd1); [zl|].
  assert (zlen y = w) as Hy by (apply (f_equal zlen) in Ed; zl).
  assert ((hdr T t l ++ A ++ D) ++ ebytes pd e ++ (body (rawlen e) es ++ [ZIP_END]) = (hdr T t l ++ A ++ d1) ++ y ++ (R ++ [ZIP_END])) as ->.
  { unfold ebytes, R. rewrite <- !app_assoc, (app_assoc D), Ed. by rewrite <- !app_assoc. }
  rewrite store_prevlen_ok by (done || zl). fold w. cbn [mbind res_bind].
  pose proof (tail_off_range p _ (e :: es) (conj He Hes)) as Htr. cbn [size] in Htr. rewrite <- Ht in Htr.
  rewrite <- !app_assoc. rewrite tail_hdr by (unfold in_u; lia). cbn [mbind res_bind]. rewrite set_tail_hdr. cbn [mbind res_bind].
  assert (forall tt, hdr T tt l ++ A ++ d1 ++ pbytes w pp ++ R ++ [ZIP_END] =
    (hdr T tt l ++ A ++ d1) ++ ebytes pp e1 ++ body (rawlen e) es ++ [ZIP_END]) as Em2
    by (intros; unfold ebytes, e1, R; cbn [e_pls e_val]; by rewrite <- !app_assoc).
  rewrite Em2. rewrite zipEntry_ok by (done || zl). cbn [mbind res_bind]. rewrite entry_info_rawlen by done.
  rewrite (app_assoc _ (ebytes pp e1)).
  destruct (peek_next ((hdr T (t - zlen D) l ++ A ++ d1) ++ ebytes pp e1) [] _ _ (p - nd + rawlen e1) Hes ltac:(zl)) as (b & E & E').
  rewrite E. cbn [mbind res_bind]. rewrite E'. rewrite <- app_assoc.
  set (t2 := tail_off (10 + zlen A) (e1 :: es)).
  assert (t2 = t - zlen D + match es with [] => 0 | _ => nd end) as Et2.
  { unfold t2, e1. rewrite tail_off_wide, Hnd, Ht, Hp, (tail_off_shift (10 + zlen A)). lia. }
  assert ((if negb match es with [] => true | _ => false end then
     toff ← ZIPLIST_TAIL_OFFSET ((hdr T (t - zlen D) l ++ A ++ d1) ++ ebytes pp e1 ++ body (rawlen e) es ++ [ZIP_END]);
     set_ZIPLIST_TAIL_OFFSET ((hdr T (t - zlen D) l ++ A ++ d1) ++ ebytes pp e1 ++ body (rawlen e) es ++ [ZIP_END]) (toff + nd)
     else Ok ((hdr T (t - zlen D) l ++ A ++ d1) ++ ebytes pp e1 ++ body (rawlen e) es ++ [ZIP_END])) =
     Ok (hdr T t2 l ++ A ++ d1 ++ ebytes pp e1 ++ body (rawlen e) es ++ [ZIP_END])) as ->.
  { rewrite Et2, <- !app_assoc. destruct es as [|e2 es]; cbn [negb]; [by rewrite Z.add_0_r|].
    rewrite tail_hdr by (unfold in_u; lia). cbn [mbind res_bind]. by rewrite set_tail_hdr. }
  cbn [mbind res_bind]. rewrite bytes_hdr by (unfold in_u; lia). cbn [mbind res_bind].
  set (X := ebytes pp e1 ++ body (rawlen e) es). assert (zlen X = rawlen e1 + size es) as HX by (unfold X; zl).
  destruct (split_len (d1 ++ X) (zlen X) (zlen d1)) as (old & j & Eo & Ho & Hj); [lia|zl|lia|].
  exists (j ++ [ZIP_END]). split; [zl|].
  rewrite (memmove_at _ _ _ _ X (hdr T t2 l ++ A) old (j ++ [ZIP_END])).
  - cbn [mbind res_bind]. unfold X. by rewrite <- !app_assoc.
  - rewrite uwrap_id by (unfold in_u; lia).
    replace (hdr T t2 l ++ A ++ d1 ++ ebytes pp e1 ++ body (rawlen e) es ++ [ZIP_END]) with ((hdr T t2 l ++ A ++ d1) ++ X ++ [ZIP_END])
      by (unfold X; by rewrite <- !app_assoc). apply rd_app; zl.
  - rewrite <- (app_assoc (hdr T t2 l)), (app_assoc old), <- Eo. unfold X. by rewrite <- !app_assoc.
  - zl.
  - done.
Qed.

(** The entries after a deletion in front of [l2]. *)
Definition after_delete (pp : Z) (l2 : list ent) : list ent :=
  match l2 with [] => [] | e :: es => rewide (zipStorePrevEntryLength_len pp) e es end.

Lemma after_delete_vals pp l2 : map e_val (after_delete pp l2) = map e_val l2.
Proof. destruct l2 as [|e es]; [done|]. apply rewide_vals. Qed.

Lemma delete_tail_ok l1 d lf k T t :
  chain 0 l1 -> d <> [] -> in_u 16 lf -> T = 11 + size l1 + zlen d -> T < 2 ^ 32 ->
  (zl ← set_ZIPLIST_TAIL_OFFSET (hdr T t lf ++ body 0 l1 ++ d ++ [ZIP_END]) (10 + size l1 - prev_of 0 l1);
   bytes ← ZIPLIST_BYTES zl;
   zl ← ziplistResize junk zl (bytes - zlen d + 0);
   ZIPLIST_INCR_LENGTH zl k) = Ok (blob (tail_off 10 l1) (incr_len lf k) (body 0 l1)).
Proof.
  intros Hc Hd Hlf -> HT. pose proof (zlen_body _ _ Hc) as Hlb. pose proof (size_nonneg _ _ Hc). zlen_pos.
  rewrite set_tail_hdr. cbn [mbind res_bind]. rewrite bytes_hdr by (unfold in_u; lia). cbn [mbind res_bind].
  rewrite resize_cut; [|zl|lia|lia]. cbn [mbind res_bind]. rewrite incr_length_hdr by done. unfold blob. do 3 f_equal; [lia|].
  destruct l1 as [|e l1 _] using rev_ind; [done|]. rewrite prev_of_snoc, tail_off_app, size_app. cbn [size tail_off]. lia.
Qed.

Lemma head_wide pp d : chain pp d -> d <> [] -> 254 <= pp -> 5 <= size d.
Proof.
  destruct d as [|e d]; [done|]. intros [He Hd] _ Hp. cbn [size]. pose proof (size_nonneg _ _ Hd). pose proof (eo_pls _ _ He).
  assert (rawlen e = e_pls e + zlen (val_bytes (e_val e))) by done. zlen_pos. lia.
Qed.

Lemma delete_front_ok l1 d e es lf k : chain 0 (l1 ++ d ++ e :: es) -> d <> [] -> in_u 16 lf ->
  11 + wsize (l1 ++ d ++ e :: es) < 2 ^ 32 -> forall first, zp first = 10 + size l1 -> prevrawlen first = prev_of 0 l1 ->
  let es' := l1 ++ rewide (zipStorePrevEntryLength_len (prev_of 0 l1)) e es in
  ('(zl, nextdiff) ← delete_move (blob (tail_off 10 (l1 ++ d ++ e :: es)) lf (body 0 (l1 ++ d ++ e :: es)))
      (10 + size l1 + size d) (size d) first;
   bytes ← ZIPLIST_BYTES zl;
   zl ← ziplistResize junk zl (bytes - size d + nextdiff);
   zl ← ZIPLIST_INCR_LENGTH zl k;
   if negb (nextdiff =? 0) then __ziplistCascadeUpdate junk zl (10 + size l1) else Ok zl) =
  Ok (blob (tail_off 10 es') (incr_len lf k) (body 0 es')) /\ chain 0 es'.
Proof.
  intros Hc Hd Hlf HW first Hzp Hprl es'. set (pp := prev_of 0 l1) in *. set (w := zipStorePrevEntryLength_len pp) in *.
  rewrite !wsize_app, wsize_cons in HW. pose proof Hc as [Hc1 [Hcd [He Hes]]%chain_app]%chain_app. fold pp in Hcd, He.
  pose proof (prev_of_range 0 l1 Hc1 ltac:(lia)) as Hpp. fold pp in Hpp. set (pd := prev_of pp d) in *.
  pose proof (zlen_body _ _ Hc1) as Hlb1. pose proof (zlen_body _ _ Hcd) as Hlbd. pose proof (zlen_body _ _ Hes) as Hlb.
  pose proof (size_wsize _ _ Hc1). pose proof (size_wsize _ _ Hcd). pose proof (size_wsize _ _ Hes).
  pose proof (size_nonneg _ _ Hc1). pose proof (size_nonneg _ _ Hcd). pose proof (size_nonneg _ _ Hes).
  pose proof (pls_cases _ _ He) as Hpls. pose proof (zlen_ebytes _ _ He) as Hle. pose proof (rawlen_pos _ _ He).
  assert (rawlen e = e_pls e + zlen (val_bytes (e_val e))) as Hre by done. pose proof (req_cases pp) as Hrs. fold w in Hrs. zlen_pos.
  assert (w - e_pls e <= size d) as Hnd.
  { destruct Hrs as [?|[? ?]]; [lia|]. pose proof (head_wide pp d Hcd Hd). lia. }
  assert (ent_ok pp (mk_ent w (e_val e))) as He1.
  { constructor; [cbn; lia|lia|apply He|unfold rawlen; cbn; lia]. }
  split; [|apply chain_app; split; [done|apply rewide_chain; done || lia]].
  assert (body 0 (l1 ++ d ++ e :: es) = body 0 l1 ++ body pp d ++ ebytes pd e ++ body (rawlen e) es) as Em by (by rewrite !body_app).
  unfold blob at 1. rewrite Em. 
  destruct (delete_move_ok (body 0 l1) (body pp d) pd pp e es _ (tail_off 10 (l1 ++ d ++ e :: es)) lf (10 + size l1 + size d) first (w - e_pls e)
    He Hes Hpp eq_refl ltac:(lia) eq_refl) as (j & Hj & Edm); try done; try (zl || lia).
  { rewrite app_assoc, tail_off_app, size_app. f_equal. lia. }
  rewrite Hlbd in Edm. rewrite Edm. cbn [mbind res_bind]. fold w. set (e1 := mk_ent w (e_val e)) in *.
  pose proof (zlen_ebytes _ _ He1) as Hle1. assert (rawlen e1 = w + zlen (val_bytes (e_val e))) as Hr1 by done.
  rewrite bytes_hdr by (unfold in_u; zl). cbn [mbind res_bind].
  replace (ebytes pp e1 ++ body (rawlen e) es ++ j) with ((ebytes pp e1 ++ body (rawlen e) es) ++ j) by (by rewrite <- app_assoc).
  set (T := 11 + zlen _). assert (T = 11 + size l1 + size d + rawlen e + size es) as HT by (unfold T; zl).
  rewrite (app_assoc (body 0 l1)). rewrite resize_cut; [|lia|rewrite !zlen_app; lia|lia]. cbn [mbind res_bind]. rewrite incr_length_hdr by done. cbn [mbind res_bind].
  rewrite Hlb1.
  match goal with |- context [hdr ?L ?t ?l ++ ?m ++ [ZIP_END]] => replace (hdr L t l ++ m ++ [ZIP_END]) with (blob t l m) by (unfold blob; f_equal; f_equal; zl) end.
  rewrite (maybe_cascade (body 0 l1) e w pp es _ (10 + size l1)) by (done || lia).
  unfold es', rewide. rewrite tail_off_app, body_app. done.
Qed.

Lemma ztake_zdrop_cons {A} n (x : A) l : ztake n (x :: l) <> [] \/ n <= 0.
Proof. destruct (decide (n <= 0)); [by right|]. left. rewrite ztake_cons by lia. done. Qed.

Lemma delete_ok l1 x rest lf num : chain 0 (l1 ++ x :: rest) -> in_u 16 lf -> 11 + wsize (l1 ++ x :: rest) < 2 ^ 32 ->
  let d := ztake num (x :: rest) in
  let es' := l1 ++ (if decide (num <= 0) then x :: rest else after_delete (prev_of 0 l1) (zdrop num (x :: rest))) in
  __ziplistDelete junk (blob (tail_off 10 (l1 ++ x :: rest)) lf (body 0 (l1 ++ x :: rest))) (10 + size l1) num =
    Ok (blob (tail_off 10 es') (incr_len lf (- zlen d)) (body 0 es')) /\ chain 0 es'.
Proof.
  intros Hc Hlf HW d es'. pose proof Hc as [Hc1 [Hx Hr]]%chain_app. set (pp := prev_of 0 l1) in *.
  pose proof (size_wsize _ _ Hc) as Hsw. rewrite size_app in Hsw. pose proof (size_nonneg _ _ Hc1).
  pose proof (size_nonneg _ (x :: rest) (conj Hx Hr)). pose proof (zlen_body _ _ Hc1) as Hlb1.
  set (B := blob _ lf _). unfold __ziplistDelete.
  assert (B = (hdr (11 + zlen (body 0 (l1 ++ x :: rest))) (tail_off 10 (l1 ++ x :: rest)) lf ++ body 0 l1) ++ body pp (x :: rest) ++ [ZIP_END]) as EB.
  { unfold B, blob. rewrite body_app. by rewrite <- !app_assoc. }
  assert (zipEntry B (10 + size l1) = Ok (entry_info pp x (10 + size l1))) as ->.
  { rewrite EB. cbn [body]. rewrite <- (app_assoc (ebytes pp x)). apply zipEntry_ok; [done|zl]. }
  cbn [mbind res_bind zp entry_info].
  assert (delete_loop (S (length B)) B (10 + size l1) 0 num 0 = Ok (10 + size l1 + size d, zlen d)) as ->.
  { etransitivity; [eapply (delete_loop_ok (x :: rest) _ _ pp B); [|done|exact EB|zl]|by rewrite Z.sub_0_r].
    pose proof (count_size _ (x :: rest) (conj Hx Hr)). pose proof (zlen_body _ (x :: rest) (conj Hx Hr)).
    apply (f_equal zlen) in EB. rewrite !zlen_app in EB. unfold zlen in *. lia. }
  cbn [mbind res_bind]. replace (10 + size l1 + size d - (10 + size l1)) with (size d) by lia.
  assert (x :: rest = d ++ zdrop num (x :: rest)) as Ed by (symmetry; apply ztake_zdrop).
  assert (chain pp d /\ chain (prev_of pp d) (zdrop num (x :: rest))) as [Hcd Hc2] by (apply chain_app; rewrite <- Ed; done).
  pose proof (size_nonneg _ _ Hcd). pose proof (size_nonneg _ _ Hc2). assert (size (x :: rest) = size d + size (zdrop num (x :: rest))) as Hsd
    by (rewrite <- size_app; by rewrite <- Ed).
  rewrite uwrap_id by (unfold in_u; lia).
  destruct (decide (num <= 0)) as [Hn|Hn].
  { assert (d = []) as E0 by (unfold d; by apply ztake_0). rewrite E0. cbn [size]. change (0 <? 0) with false. cbv iota. unfold es', B, incr_len.
    split; [|done]. do 2 f_equal. change (zlen (@nil ent)) with 0. destruct (lf <? _); lia. }
  assert (d <> []) as Hd by (destruct (ztake_zdrop_cons num x rest); [done|lia]).
  assert (0 < size d) as Hsd0.
  { destruct d as [|y d']; [done|]. destruct Hcd as [Hy Hcd]. cbn [size]. pose proof (rawlen_pos _ _ Hy). pose proof (size_nonneg _ _ Hcd). lia. }
  rewrite (proj2 (Z.ltb_lt 0 (size d))) by done.
  pose proof (zlen_body _ _ Hcd) as Hlbd.
  destruct (zdrop num (x :: rest)) as [|e es] eqn:Ez; cbn [after_delete] in es'.
  - rewrite app_nil_r in Ed. assert (peek B (10 + size l1 + size d) = Ok ZIP_END) as ->.
    { rewrite EB, Ed, app_assoc. apply peek_end. zl. }
    cbn [mbind res_bind]. change (negb (ZIP_END =? ZIP_END)) with false. cbv iota.
    pose proof (delete_tail_ok l1 (body pp d) lf (- zlen d) (11 + size l1 + size d) (tail_off 10 (l1 ++ x :: rest)) Hc1) as Ht.
    rewrite Hlbd in Ht. assert (body pp d <> []) as Hbd by (intros E; rewrite E in Hlbd; zl).
    specialize (Ht Hbd Hlf eq_refl ltac:(lia)). unfold es'. rewrite app_nil_r. split; [|done]. rewrite <- Ht.
    assert (B = hdr (11 + size l1 + size d) (tail_off 10 (l1 ++ x :: rest)) lf ++ body 0 l1 ++ body pp d ++ [ZIP_END]) as ->.
    { rewrite EB, <- Ed, <- !app_assoc. do 2 f_equal. rewrite body_app, zlen_app. fold pp. rewrite Ed. lia. }
    cbn [prevrawlen entry_info]. fold pp. rewrite set_tail_hdr. cbn [mbind res_bind].
    rewrite bytes_hdr by (unfold in_u; lia). cbn [mbind res_bind]. destruct (ziplistResize _ _ _); [|done]. cbn [mbind res_bind].
    by destruct (ZIPLIST_INCR_LENGTH _ _).
  - assert (exists b, peek B (10 + size l1 + size d) = Ok b /\ (b =? ZIP_END) = false) as (b & Eb & Eb').
    { assert (body pp (x :: rest) = body pp d ++ body (prev_of pp d) (e :: es)) as E by (by rewrite Ed, body_app).
      rewrite EB, E, <- (app_assoc (body pp d)). set (X := hdr _ _ _ ++ body 0 l1). assert (zlen X = 10 + size l1) by (unfold X; zl).
      rewrite app_assoc. destruct (peek_next (X ++ body pp d) [] _ _ (10 + size l1 + size d) Hc2 ltac:(zl)) as (b & ? & ?). by exists b. }
    rewrite Eb. cbn [mbind res_bind]. rewrite Eb'. cbn [negb]. unfold B, es'. rewrite Ed in Hc, HW |- *.
    by apply delete_front_ok.
Qed.

(** ** Representation of a list of byte strings *)

Definition len_field (lf n : Z) : Prop := lf = n /\ n < UINT16_MAX \/ lf = UINT16_MAX.

Definition repr (zl : list Z) (ss : list (list Z)) : Prop :=
  exists es lf, zl = blob (tail_off 10 es) lf (body 0 es) /\ chain 0 es /\ map e_val es = map val_of ss /\ len_field lf (zlen es).

(** The blob of [ss] with wide fields: no blob of [ss] is larger. *)
Fixpoint max_bytes (ss : list (list Z)) : Z :=
  match ss with [] => 11 | s :: ss => 5 + zlen (val_bytes (val_of s)) + max_bytes ss end.

Lemma max_bytes_wsize es ss : map e_val es = map val_of ss -> max_bytes ss = 11 + wsize es.
Proof.
  revert ss; induction es as [|e es IH]; intros [|s ss]; try done. intros [= E1 E2]. cbn. rewrite E1, (IH ss) by done. lia.
Qed.

Lemma zlen_vals es ss : map e_val es = map val_of ss -> zlen es = zlen ss.
Proof. intros E%(f_equal zlen). by rewrite !zlen_map in E. Qed.

Lemma len_field_u16 lf n : len_field lf n -> 0 <= n -> in_u 16 lf.
Proof. unfold len_field, in_u, UINT16_MAX. lia. Qed.

Lemma len_field_incr lf n k : len_field lf n -> 0 <= n + k -> (k <= 1) -> len_field (incr_len lf k) (n + k).
Proof. unfold len_field, incr_len, UINT16_MAX. intros H Hk Hk1. destruct (Z.ltb_spec lf (2 ^ 16 - 1)); lia. Qed.

Lemma map_val_split es ss a b : map e_val es = map val_of ss -> ss = a ++ b ->
  exists l1 l2, es = l1 ++ l2 /\ map e_val l1 = map val_of a /\ map e_val l2 = map val_of b.
Proof. intros E ->. rewrite map_app in E. by apply map_eq_app in E. Qed.

Lemma text_val_of s : text (val_of s) = s.
Proof.
  unfold val_of, zipTryEncoding. destruct ((32 <=? zlen s) || (zlen s =? 0)); [done|].
  destruct (string2ll s) as [v|] eqn:E; [|done]. cbn [text]. apply string2ll_sound in E as [Hc Hv]. symmetry. by apply canon_dec.
Qed.

(** Offsets of the entries. *)
Definition pos (es : list ent) (i : Z) : Z := 10 + size (ztake i es).

Lemma ziplistNew_ok : exists zl, ziplistNew junk = Ok zl /\ repr zl [].
Proof.
  exists (blob 10 0 []). split.
  - unfold ziplistNew. change (ZIPLIST_HEADER_SIZE + 1) with 11. destruct (zrealloc_grow junk [] 11 ltac:(zl)) as (j & Ej & Hj).
    rewrite Ej. cbn [app]. change (11 - zlen []) with 11 in Hj.
    do 11 (destruct j as [|? j]; [exfalso; zl|]). assert (j = []) as -> by (apply zlen_0_nil; zl). reflexivity.
  - exists [], 0. split_and!; [done|done|done|]. left. done.
Qed.

Lemma wsize_len e : zlen (val_data (e_val e)) <= zlen (val_bytes (e_val e)).
Proof. unfold val_bytes. zl. Qed.

Lemma insert_ok a b lf es1 es2 s : chain 0 (es1 ++ es2) -> map e_val es1 = map val_of a -> map e_val es2 = map val_of b ->
  len_field lf (zlen (es1 ++ es2)) -> max_bytes (a ++ s :: b) < 2 ^ 32 -> zlen s < 2 ^ 32 ->
  exists zl, __ziplistInsert junk (blob (tail_off 10 (es1 ++ es2)) lf (body 0 (es1 ++ es2))) (10 + size es1) s = Ok zl /\ repr zl (a ++ s :: b).
Proof.
  intros Hc E1 E2 Hlf HW Hs. assert (forall pp, max_bytes (a ++ s :: b) = 11 + wsize (es1 ++ new_ent pp s :: es2)) as Hmb.
  { intros pp. apply max_bytes_wsize. rewrite !map_app. cbn [map]. by rewrite E1, E2. }
  pose proof (len_field_u16 _ _ Hlf ltac:(apply zlen_nonneg)) as Hu. pose proof (len_field_incr _ _ 1 Hlf ltac:(zl) ltac:(lia)) as Hli.
  destruct es2 as [|e es].
  - rewrite app_nil_r in *. destruct (insert_end_ok es1 lf s Hc Hu Hs) as [E Hc']; [by rewrite <- Hmb|].
    eexists. split; [exact E|]. do 2 eexists. split_and!; [done|done| |by replace (zlen _) with (zlen es1 + 1) by zl].
    rewrite !map_app, E1. cbn [map]. by destruct b.
  - destruct (insert_mid_ok es1 e es lf s Hc Hu Hs) as [E Hc']; [by rewrite <- Hmb|].
    eexists. split; [exact E|]. do 2 eexists. split_and!; [done|done| |].
    + rewrite !map_app, E1. cbn [map]. by rewrite rewide_vals, E2.
    + replace (zlen _) with (zlen (es1 ++ e :: es) + 1); [done|]. pose proof (f_equal zlen (rewide_vals (next_width (rawlen (new_ent (prev_of 0 es1) s)) e) e es)) as El.
      rewrite !zlen_map in El. zl.
Qed.

Lemma erase_ok a b lf es1 x rest num : chain 0 (es1 ++ x :: rest) -> map e_val es1 = map val_of a -> map e_val (x :: rest) = map val_of b ->
  len_field lf (zlen (es1 ++ x :: rest)) -> max_bytes (a ++ b) < 2 ^ 32 ->
  exists zl, __ziplistDelete junk (blob (tail_off 10 (es1 ++ x :: rest)) lf (body 0 (es1 ++ x :: rest))) (10 + size es1) num = Ok zl /\ repr zl (a ++ zdrop num b).
Proof.
  intros Hc E1 E2 Hlf HW. pose proof (len_field_u16 _ _ Hlf ltac:(apply zlen_nonneg)) as Hu.
  rewrite (max_bytes_wsize (es1 ++ x :: rest)) in HW by (by rewrite !map_app, E1, E2).
  destruct (delete_ok es1 x rest lf num Hc Hu HW) as [E Hc']. eexists. split; [exact E|]. do 2 eexists. split; [done|]. split; [done|].
  assert (map e_val (if decide (num <= 0) then x :: rest else after_delete (prev_of 0 es1) (zdrop num (x :: rest))) = map val_of (zdrop num b)) as E3.
  { destruct (decide (num <= 0)); [rewrite (zdrop_0 _ b) by done; done|]. rewrite after_delete_vals. unfold zdrop. by rewrite <- !skipn_map, E2. }
  split; [by rewrite !map_app, E1, E3|]. pose proof (zlen_vals _ _ E3) as L3. pose proof (zlen_vals _ _ E2) as L2.
  rewrite !zlen_app, L3. replace (zlen es1 + zlen (zdrop num b)) with (zlen (es1 ++ x :: rest) + - zlen (ztake num (x :: rest))) by zl.
  apply len_field_incr; [done|zl|zl].
Qed.

(** ** Merging *)

(** The bytes of the merged blob before its header is written, whichever of the two is kept. *)
Lemma merge_bytes (append : bool) T1 t1 l1 m1 T2 t2 l2 m2 N :
  T1 = 11 + zlen m1 -> T2 = 11 + zlen m2 -> N = 11 + zlen m1 + zlen m2 -> N < 2 ^ 32 ->
  let first := hdr T1 t1 l1 ++ m1 ++ [ZIP_END] in
  let second := hdr T2 t2 l2 ++ m2 ++ [ZIP_END] in
  let target := zrealloc junk (if append then first else second) N in
  let source := if append then second else first in
  let source_bytes := if append then T2 else T1 in
  let target_bytes := if append then T1 else T2 in
  (if append then
     b ← rd source ZIPLIST_HEADER_SIZE (u64 (source_bytes - ZIPLIST_HEADER_SIZE));
     wr target (target_bytes - ZIPLIST_END_SIZE) b
   else
     target ← memmove target (source_bytes - ZIPLIST_END_SIZE) ZIPLIST_HEADER_SIZE (u64 (target_bytes - ZIPLIST_HEADER_SIZE));
     b ← rd source 0 (u64 (source_bytes - ZIPLIST_END_SIZE));
     wr target 0 b) = Ok (hdr T1 t1 l1 ++ m1 ++ m2 ++ [ZIP_END]).
Proof.
  intros -> -> -> HN first second target source source_bytes target_bytes. zlen_pos. unfold ZIPLIST_END_SIZE.
  change ZIPLIST_HEADER_SIZE with 10. unfold target, source, source_bytes, target_bytes, first, second. destruct append.
  - destruct (zrealloc_grow junk (hdr (11 + zlen m1) t1 l1 ++ m1 ++ [ZIP_END]) (11 + zlen m1 + zlen m2)) as (j & -> & Hj); [zl|].
    rewrite uwrap_id by (unfold in_u; lia).
    assert (rd (hdr (11 + zlen m2) t2 l2 ++ m2 ++ [ZIP_END]) 10 (11 + zlen m2 - 10) = Ok (m2 ++ [ZIP_END])) as ->.
    { pose proof (rd_app (hdr (11 + zlen m2) t2 l2) (m2 ++ [ZIP_END]) []) as E. rewrite app_nil_r in E. apply E; zl. }
    cbn [mbind res_bind]. rewrite <- (app_assoc (hdr _ _ _)), <- (app_assoc m1), (app_assoc (hdr _ _ _)).
    rewrite <- (app_nil_r ([ZIP_END] ++ j)), wr_app by zl. by rewrite app_nil_r, <- !app_assoc.
  - destruct (zrealloc_grow junk (hdr (11 + zlen m2) t2 l2 ++ m2 ++ [ZIP_END]) (11 + zlen m1 + zlen m2)) as (j & -> & Hj); [zl|].
    rewrite !uwrap_id by (unfold in_u; lia).
    set (tg := (hdr (11 + zlen m2) t2 l2 ++ m2 ++ [ZIP_END]) ++ j).
    destruct (split_len tg (10 + zlen m1) (zlen (m2 ++ [ZIP_END]))) as (g & old & Eg & Hg & Ho); [lia|unfold tg; zl|zl|].
    rewrite (memmove_at tg _ _ _ (m2 ++ [ZIP_END]) g old []); cycle 1.
    { unfold tg. rewrite <- app_assoc. apply rd_app; zl. }
    { by rewrite app_nil_r. }
    { lia. }
    { done. }
    cbn [mbind res_bind]. rewrite (app_assoc (hdr (11 + zlen m1) t1 l1)), rd_app0 by zl. cbn [mbind res_bind].
    rewrite wr_app0 by zl. by rewrite app_nil_r, <- !app_assoc.
Qed.

Lemma merge_len lf1 lf2 n1 n2 : len_field lf1 n1 -> len_field lf2 n2 -> 0 <= n1 -> 0 <= n2 ->
  len_field (if lf1 + lf2 <? UINT16_MAX then lf1 + lf2 else UINT16_MAX) (n1 + n2).
Proof. unfold len_field, UINT16_MAX. intros. destruct (Z.ltb_spec (lf1 + lf2) (2 ^ 16 - 1)); lia. Qed.

(** The cascade from the seam of a merge. *)
Lemma seam_cascade es1 x es2 lf : chain 0 es1 -> chain 0 (x :: es2) -> 11 + wsize (es1 ++ x :: es2) < 2 ^ 32 ->
  exists es', map e_val es' = map e_val (es1 ++ x :: es2) /\ chain 0 es' /\
  __ziplistCascadeUpdate junk (blob (tail_off 10 (es1 ++ x :: es2)) lf (body 0 es1 ++ body 0 (x :: es2))) (tail_off 10 es1) =
  Ok (blob (tail_off 10 es') lf (body 0 es')).
Proof.
  intros Hc1 Hc2 HW. rewrite wsize_app, wsize_cons in HW. pose proof (wsize_nonneg es1). pose proof (wsize_nonneg es2).
  destruct es1 as [|c l1 _] using rev_ind.
  - destruct Hc2 as [Hx Hc2]. exists (x :: es2). split_and!; [done|done|]. cbn [app body tail_off].
    cbn [wsize] in HW. assert (rawlen x <= 5 + zlen (val_bytes (e_val x))) by (pose proof (pls_cases _ _ Hx); unfold rawlen; lia).
    pose proof (cascade_update_ok [] x 0 (rawlen x) es2 (tail_off 10 (x :: es2)) lf Hx Hc2 ltac:(zl) eq_refl) as E.
    cbn [app] in E. change (10 + zlen []) with 10 in E. rewrite fixup_same in E. exact E.
  - apply chain_app in Hc1 as [Hc1 [Hc _]]. rewrite wsize_app, wsize_cons in HW. cbn [wsize] in HW.
    pose proof (size_wsize _ _ Hc1). pose proof (wsize_nonneg l1). pose proof (zlen_body _ _ Hc1) as Hlb. zlen_pos.
    assert (rawlen c <= 5 + zlen (val_bytes (e_val c))) by (pose proof (pls_cases _ _ Hc); unfold rawlen; lia).
    exists (l1 ++ c :: fixup (rawlen c) 0 (x :: es2)). split_and!.
    + rewrite <- app_assoc, !map_app. cbn [map app]. by rewrite fixup_vals.
    + apply chain_app. split; [done|]. split; [done|]. apply fixup_chain; [done| |rewrite wsize_cons; lia].
      pose proof (rawlen_pos _ _ Hc). lia.
    + assert (body 0 (l1 ++ [c]) = body 0 l1 ++ ebytes (prev_of 0 l1) c) as -> by (rewrite body_app; cbn [body]; by rewrite app_nil_r).
      rewrite (tail_off_app 10 l1 c []), <- (app_assoc l1). change ([c] ++ x :: es2) with (c :: x :: es2).
      rewrite (tail_off_app 10 l1 c (x :: es2)), <- (app_assoc (body 0 l1)). change (tail_off (10 + size l1) [c]) with (10 + size l1).
      rewrite <- Hlb, (cascade_update_ok (body 0 l1) c (prev_of 0 l1) 0 (x :: es2)); [|done|done|rewrite wsize_cons; lia|done].
      rewrite tail_off_app, body_app, <- Hlb. done.
Qed.

Lemma ziplistMerge_ok z1 z2 ss1 ss2 : repr z1 ss1 -> repr z2 ss2 -> ss2 <> [] -> max_bytes (ss1 ++ ss2) < 2 ^ 32 ->
  exists zl kept, ziplistMerge junk (Some z1) (Some z2) false = Ok (Some (zl, kept)) /\ repr zl (ss1 ++ ss2).
Proof.
  intros (es1 & lf1 & -> & Hc1 & E1 & L1) (es2 & lf2 & -> & Hc2 & E2 & L2) Hne HW.
  assert (map e_val (es1 ++ es2) = map val_of (ss1 ++ ss2)) as E12 by (by rewrite !map_app, E1, E2).
  rewrite (max_bytes_wsize _ _ E12) in HW. rewrite wsize_app in HW.
  pose proof (size_wsize _ _ Hc1). pose proof (size_wsize _ _ Hc2). pose proof (size_nonneg _ _ Hc1). pose proof (size_nonneg _ _ Hc2).
  pose proof (zlen_body _ _ Hc1) as B1. pose proof (zlen_body _ _ Hc2) as B2. pose proof (tail_off_range 10 _ _ Hc1). pose proof (tail_off_range 10 _ _ Hc2).
  pose proof (len_field_u16 _ _ L1 ltac:(apply zlen_nonneg)). pose proof (len_field_u16 _ _ L2 ltac:(apply zlen_nonneg)).
  unfold ziplistMerge. rewrite !bytes_blob by lia. cbn [mbind res_bind]. unfold blob.
  rewrite length_hdr by done. cbn [mbind res_bind]. rewrite length_hdr by done. cbn [mbind res_bind].
  rewrite tail_hdr by (unfold in_u; lia). cbn [mbind res_bind]. rewrite tail_hdr by (unfold in_u; lia). cbn [mbind res_bind].
  set (N := u64 _). assert (N = 11 + zlen (body 0 es1) + zlen (body 0 es2)) as EN.
  { unfold N, ZIPLIST_HEADER_SIZE, ZIPLIST_END_SIZE. rewrite uwrap_id by (unfold in_u; lia). lia. }
  set (app := lf2 <=? lf1).
  pose proof (merge_bytes app _ (tail_off 10 es1) lf1 (body 0 es1) _ (tail_off 10 es2) lf2 (body 0 es2) N eq_refl eq_refl EN ltac:(lia)) as Em.
  cbv zeta in Em. rewrite Em. cbn [mbind res_bind]. rewrite set_bytes_hdr. cbn [mbind res_bind]. rewrite set_length_hdr. cbn [mbind res_bind].
  rewrite set_tail_hdr. cbn [mbind res_bind]. destruct es2 as [|x es2]; [by destruct ss2|].
  set (lf := if _ <? _ then _ else _).
  destruct (seam_cascade es1 x es2 lf Hc1 Hc2) as (es' & Ev & Hc' & Ec); [rewrite wsize_app; lia|].
  replace (hdr N _ lf ++ body 0 es1 ++ body 0 (x :: es2) ++ [ZIP_END]) with
    (blob (tail_off 10 (es1 ++ x :: es2)) lf (body 0 es1 ++ body 0 (x :: es2))).
  - rewrite Ec. cbn [mbind res_bind]. do 2 eexists. split; [done|]. exists es', lf. split_and!; [done|done|by rewrite Ev|].
    replace (zlen es') with (zlen es1 + zlen (x :: es2)); [apply merge_len; done || apply zlen_nonneg|].
    apply (f_equal zlen) in Ev. rewrite !zlen_map, zlen_app in Ev. lia.
  - unfold blob. rewrite EN, <- app_assoc. do 2 f_equal; [zl|]. rewrite tail_off_app, B1, tail_off_shift.
    unfold ZIPLIST_END_SIZE, ZIPLIST_HEADER_SIZE. lia.
Qed.

(** An empty second list: the bytes are right, the tail offset is that of the end marker. *)
Lemma merge_empty_ok z1 z2 ss : repr z1 ss -> ss <> [] -> repr z2 [] -> max_bytes ss < 2 ^ 32 ->
  exists es lf kept, ziplistMerge junk (Some z1) (Some z2) false = Ok (Some (blob (10 + size es) lf (body 0 es), kept)) /\
    chain 0 es /\ map e_val es = map val_of ss.
Proof.
  intros (es1 & lf1 & -> & Hc1 & E1 & L1) Hne (es2 & lf2 & -> & Hc2 & E2 & L2) HW. destruct es2 as [|? ?]; [|done]. clear Hc2 E2.
  rewrite (max_bytes_wsize _ _ E1) in HW. pose proof (size_wsize _ _ Hc1). pose proof (size_nonneg _ _ Hc1).
  pose proof (zlen_body _ _ Hc1) as B1. pose proof (tail_off_range 10 _ _ Hc1).
  pose proof (len_field_u16 _ _ L1 ltac:(apply zlen_nonneg)). pose proof (len_field_u16 _ _ L2 ltac:(apply zlen_nonneg)).
  unfold ziplistMerge. rewrite !bytes_blob by (done || lia). cbn [mbind res_bind]. unfold blob.
  rewrite length_hdr by done. cbn [mbind res_bind]. rewrite length_hdr by done. cbn [mbind res_bind].
  rewrite tail_hdr by (unfold in_u; cbn [tail_off]; lia). cbn [mbind res_bind]. rewrite tail_hdr by (unfold in_u; cbn [tail_off]; lia). cbn [mbind res_bind].
  set (N := u64 _). assert (N = 11 + zlen (body 0 es1) + zlen (body 0 [])) as EN.
  { unfold N, ZIPLIST_HEADER_SIZE, ZIPLIST_END_SIZE. cbn [body]. change (zlen (@nil Z)) with 0. rewrite uwrap_id by (unfold in_u; lia). lia. }
  set (app := lf2 <=? lf1).
  pose proof (merge_bytes app _ (tail_off 10 es1) lf1 (body 0 es1) _ (tail_off 10 []) lf2 (body 0 []) N eq_refl eq_refl EN) as Em.
  specialize (Em ltac:(rewrite EN; cbn [body]; rewrite B1; change (zlen (@nil Z)) with 0; lia)).
  cbv zeta in Em. rewrite Em. cbn [mbind res_bind]. rewrite set_bytes_hdr. cbn [mbind res_bind]. rewrite set_length_hdr. cbn [mbind res_bind].
  rewrite set_tail_hdr. cbn [mbind res_bind body app]. set (lf := if _ <? _ then _ else _).
  exists es1, lf, app. split; [|done]. destruct es1 as [|c l _] using rev_ind; [by destruct ss|].
  set (t' := _ - _ + _). assert (t' = 10 + size (l ++ [c])) as Et.
  { unfold t', ZIPLIST_END_SIZE, ZIPLIST_HEADER_SIZE. cbn [tail_off]. lia. }
  rewrite Et, EN. cbn [body]. change (zlen (@nil Z)) with 0. rewrite Z.add_0_r. set (B := hdr _ _ lf ++ _).
  assert (B = blob (10 + size (l ++ [c])) lf (body 0 (l ++ [c]))) as EB by done.
  apply chain_app in Hc1 as [Hcl [Hcc _]]. pose proof (zlen_body _ _ Hcl) as Hlb.
  assert (__ziplistCascadeUpdate junk B (tail_off 10 (l ++ [c])) = Ok B) as ->.
  { unfold __ziplistCascadeUpdate. rewrite EB at 1. rewrite bytes_blob by lia. cbn [mbind res_bind].
    rewrite (cascade_round _ B (hdr (11 + zlen (body 0 (l ++ [c]))) (10 + size (l ++ [c])) lf ++ body 0 l) c (prev_of 0 l) 0 []); try done.
    - rewrite tail_off_app. cbn [tail_off]. rewrite zlen_app, zlen_hdr. lia.
    - unfold B. rewrite body_app. cbn [body]. rewrite app_nil_r. by rewrite <- !app_assoc. }
  cbn [mbind res_bind]. by rewrite EB.
Qed.
End Ops.

(** The ziplist of the layout example in the source. *)
Definition demo_texts : list (list Z) := [str "2"; str "5"; str "Hello World"].
Definition demo_blob : list Z :=
  [28; 0; 0; 0; 14; 0; 0; 0; 3; 0; 0; 0xf3; 2; 0xf6; 2; 0x0b; 0x48; 0x65; 0x6c; 0x6c; 0x6f; 0x20; 0x57; 0x6f; 0x72; 0x6c; 0x64; 255].

Lemma demo_repr : repr demo_blob demo_texts.
Proof.
  exists [mk_ent 1 (ZInt 2); mk_ent 1 (ZInt 5); mk_ent 1 (ZStr (str "Hello World"))], 3.
  split; [reflexivity|]. split; [|split; [reflexivity|left; split; [reflexivity|unfold UINT16_MAX; reflexivity]]].
  repeat match goal with |- chain _ [] => exact I | |- chain _ (_ :: _) => split | |- ent_ok _ _ => constructor; cbn [e_pls e_val val_ok]
    | |- _ \/ _ => left | |- in_s _ _ => split | |- _ /\ _ => split end; vm_compute; reflexivity || discriminate.
Qed.

Definition empty_blob : list Z := [11; 0; 0; 0; 10; 0; 0; 0; 0; 0; 255].
Lemma empty_repr : repr empty_blob [].
Proof. exists [], 0. split_and!; [reflexivity|done|done|by left]. Qed.

(** [ziplistMerge] of a ziplist with a non-empty one stays inside the
    reallocated blob, which then lays out the elements of the first followed by
    those of the second, with the previous lengths behind the seam repaired, and
    this whichever of the two blobs is kept. *)
Theorem ziplistMerge_appends junk z1 z2 ss1 ss2 : repr z1 ss1 -> repr z2 ss2 -> ss2 <> [] -> max_bytes (ss1 ++ ss2) < 2 ^ 32 ->
  exists zl kept, ziplistMerge junk (Some z1) (Some z2) false = Ok (Some (zl, kept)) /\ repr zl (ss1 ++ ss2).
Proof. apply ziplistMerge_ok. Qed.

Lemma ziplistMerge_appends_witness :
  exists zl kept, ziplistMerge (fun _ => 0) (Some empty_blob) (Some demo_blob) false = Ok (Some (zl, kept)) /\ repr zl ([] ++ demo_texts).
Proof.
  apply (ziplistMerge_appends (fun _ => 0) empty_blob demo_blob [] demo_texts empty_repr demo_repr); [discriminate|vm_compute; reflexivity].
Defined.
End ZiplistOps.
