(* ===== verification/ZiplistApi.v ===== *)
(** * Reading a ziplist and its contract: src/redis-stable/src/ziplist.c

    Positions, iteration in both directions, retrieval and search, then the
    contract of the whole component: histories of calls against lists of byte
    strings, lookup, search, merging. *)
From S2P Require Import Prelude Util Ziplist ZiplistOps.

Module ZiplistApi.
Import ZiplistOps.

(** ** Client view *)

(** The text of an entry as a client of [ziplistGet] reads it: the bytes that
    [*sstr] and [*slen] delimit or the decimal text of [*sval]. *)
Definition entry_text (zl : list Z) (p : Z) : res (option (list Z)) :=
  g ← ziplistGet zl (Some p);
  match g with
  | None => Ok None
  | Some (Sstr sstr slen) => b ← rd zl sstr slen; Ok (Some b)
  | Some (Sval v) => Ok (Some (dec v))
  end.

(** The position of the first of every [skip + 1] elements, from the [cnt]th, that is [v]. *)
Fixpoint find_spec (v : list Z) (skip cnt : Z) (ss : list (list Z)) : option Z :=
  match ss with
  | [] => None
  | s :: ss =>
    if (cnt =? 0) && bool_decide (s = v) then Some 0
    else Z.succ <$> find_spec v skip (if cnt =? 0 then skip else cnt - 1) ss
  end.

(** ** Histories *)

(** The calls of a client that finds entries by position. *)
Inductive op := Push (s : list Z) (w : where_) | InsertAt (index : Z) (s : list Z)
  | DeleteAt (index : Z) | DeleteRange (index num : Z).

Definition apply_op (junk : Z -> Z) (zl : list Z) (o : op) : res (list Z) :=
  match o with
  | Push s w => ziplistPush junk zl s w
  | InsertAt index s =>
    p ← ziplistIndex zl index;
    match p with Some p => ziplistInsert junk zl p s | None => Ok zl end
  | DeleteAt index =>
    p ← ziplistIndex zl index;
    match p with Some p => '(zl, _) ← ziplistDelete junk zl p; Ok zl | None => Ok zl end
  | DeleteRange index num => ziplistDeleteRange junk zl index num
  end.

Fixpoint run (junk : Z -> Z) (zl : list Z) (h : list op) : res (list Z) :=
  match h with [] => Ok zl | o :: h => zl ← apply_op junk zl o; run junk zl h end.

(** The same edits of a list of byte strings. *)
Definition at_index (ss : list (list Z)) (index : Z) (f : Z -> list (list Z)) : list (list Z) :=
  let i := if index <? 0 then zlen ss + index else index in
  if (0 <=? i) && (i <? zlen ss) then f i else ss.

Definition spec_op (ss : list (list Z)) (o : op) : list (list Z) :=
  match o with
  | Push s ZIPLIST_HEAD => s :: ss
  | Push s ZIPLIST_TAIL => ss ++ [s]
  | InsertAt index s => at_index ss index (fun i => ztake i ss ++ s :: zdrop i ss)
  | DeleteAt index => at_index ss index (fun i => ztake i ss ++ zdrop 1 (zdrop i ss))
  | DeleteRange index num => at_index ss index (fun i => ztake i ss ++ zdrop num (zdrop i ss))
  end.

Definition op_ok (o : op) : Prop :=
  match o with
  | Push s _ => True
  | InsertAt index _ | DeleteAt index => - 2 ^ 31 < index < 2 ^ 31
  | DeleteRange index num => - 2 ^ 31 < index < 2 ^ 31 /\ in_u 32 num
  end.

(** An upper bound on the bytes an edit may add. *)
Definition weight (o : op) : Z :=
  match o with Push s _ | InsertAt _ s => 18 + zlen s | _ => 0 end.
Fixpoint weights (h : list op) : Z := match h with [] => 0 | o :: h => weight o + weights h end.

Section Read.
#[local] Hint Rewrite zlen_hdr : zlen.

Lemma tail_blob t lf m : in_u 32 t -> ZIPLIST_TAIL_OFFSET (blob t lf m) = Ok t.
Proof. apply tail_hdr. Qed.
Lemma length_blob t lf m : in_u 16 lf -> ZIPLIST_LENGTH (blob t lf m) = Ok lf.
Proof. apply length_hdr. Qed.

(** A blob cut at an entry. *)
Lemma blob_entry t lf a e b : blob t lf (body 0 (a ++ e :: b)) =
  (hdr (11 + zlen (body 0 (a ++ e :: b))) t lf ++ body 0 a) ++ ebytes (prev_of 0 a) e ++ body (rawlen e) b ++ [ZIP_END].
Proof. unfold blob. rewrite body_app. cbn [body]. by rewrite <- !app_assoc. Qed.

Lemma blob_tail t lf a b : blob t lf (body 0 (a ++ b)) =
  (hdr (11 + zlen (body 0 (a ++ b))) t lf ++ body 0 a) ++ body (prev_of 0 a) b ++ [ZIP_END].
Proof. unfold blob. rewrite body_app. by rewrite <- !app_assoc. Qed.

Lemma peek_blob t lf a b : chain 0 (a ++ b) ->
  exists c, peek (blob t lf (body 0 (a ++ b))) (10 + size a) = Ok c /\ (c =? ZIP_END) = match b with [] => true | _ => false end.
Proof.
  intros [Hc1 Hc2]%chain_app. rewrite blob_tail. apply peek_next; [done|]. pose proof (zlen_body _ _ Hc1). zl.
Qed.

Lemma raw_blob t lf a e b : chain 0 (a ++ e :: b) ->
  zipRawEntryLength (blob t lf (body 0 (a ++ e :: b))) (10 + size a) = Ok (rawlen e).
Proof.
  intros [Hc1 [He _]]%chain_app. rewrite blob_entry. apply zipRawEntryLength_ok; [done|]. pose proof (zlen_body _ _ Hc1). zl.
Qed.

Lemma prevlen_blob t lf a e b : chain 0 (a ++ e :: b) ->
  ZIP_DECODE_PREVLEN (blob t lf (body 0 (a ++ e :: b))) (10 + size a) = Ok (e_pls e, prev_of 0 a).
Proof.
  intros [Hc1 [He _]]%chain_app. rewrite blob_entry. apply decode_prevlen_ok; [done|]. pose proof (zlen_body _ _ Hc1). zl.
Qed.

Lemma size_snoc a e : size (a ++ [e]) = size a + rawlen e.
Proof. rewrite size_app. cbn. lia. Qed.

(** ** Positions *)

Lemma index_forward_ok b : forall fuel t lf a k, (length b < fuel)%nat -> chain 0 (a ++ b) -> 0 <= k ->
  index_forward fuel (blob t lf (body 0 (a ++ b))) (10 + size a) k =
  Ok (10 + size (a ++ ztake k b), if k <? zlen b then -1 else k - zlen b).
Proof.
  induction b as [|e b IH]; intros [|fuel] t lf a k Hf Hc Hk; try (cbn in Hf; lia); cbn [index_forward].
  all: destruct (peek_blob t lf _ _ Hc) as (c & E & E'); rewrite E; cbn [mbind res_bind]; rewrite E'; cbn [negb].
  { rewrite (ztake_nil (A:=ent)), app_nil_r. change (zlen (@nil ent)) with 0. rewrite (proj2 (Z.ltb_ge k 0)) by done. by rewrite Z.sub_0_r. }
  destruct (Z.eqb_spec k 0) as [->|Hk0]; cbn [negb].
  - rewrite ztake_0, app_nil_r by done. rewrite zlen_cons, (proj2 (Z.ltb_lt 0 _)) by zl. done.
  - rewrite raw_blob by done. cbn [mbind res_bind].
    replace (a ++ e :: b) with ((a ++ [e]) ++ b) in * by (by rewrite <- app_assoc).
    replace (10 + size a + rawlen e) with (10 + size (a ++ [e])) by (rewrite size_snoc; lia).
    rewrite IH; [|cbn in Hf; lia|done|lia]. rewrite ztake_cons, <- app_assoc by lia. cbn [app]. rewrite zlen_cons.
    do 2 f_equal. destruct (Z.ltb_spec (k - 1) (zlen b)); destruct (Z.ltb_spec k (zlen b + 1)); lia.
Qed.

Lemma index_back_ok a : forall fuel t lf e b k, (length a < fuel)%nat -> chain 0 (a ++ e :: b) -> 0 <= k ->
  index_back fuel (blob t lf (body 0 (a ++ e :: b))) (10 + size a) (prev_of 0 a) k =
  Ok (10 + size (ztake (zlen a - k) a), if k <? zlen a then -1 else k - zlen a).
Proof.
  induction a as [|x a IH] using rev_ind; intros [|fuel] t lf e b k Hf Hc Hk; try (cbn in Hf; lia); cbn [index_back].
  { cbn [prev_of size]. change (0 <? 0) with false. cbv iota. rewrite (ztake_nil (A:=ent)). change (zlen (@nil ent)) with 0.
    rewrite (proj2 (Z.ltb_ge k 0)) by done. by rewrite Z.sub_0_r. }
  rewrite prev_of_snoc. rewrite <- app_assoc in Hc |- *. cbn [app] in *. pose proof Hc as [_ [Hx _]]%chain_app.
  pose proof (rawlen_pos _ _ Hx). rewrite (proj2 (Z.ltb_lt 0 (rawlen x))) by lia.
  assert (zlen (a ++ [x]) = zlen a + 1) as Hl by zl. rewrite Hl. pose proof (zlen_nonneg a).
  destruct (Z.eqb_spec k 0) as [->|Hk0]; cbn [negb].
  - rewrite ztake_all by zl. rewrite (proj2 (Z.ltb_lt 0 _)) by lia. done.
  - rewrite size_snoc. replace (10 + (size a + rawlen x) - rawlen x) with (10 + size a) by lia.
    rewrite prevlen_blob by done. cbn [mbind res_bind]. rewrite IH; [|rewrite length_app in Hf; cbn in Hf; lia|done|lia].
    replace (ztake (zlen a + 1 - k) (a ++ [x])) with (ztake (zlen a - (k - 1)) a).
    + do 2 f_equal. destruct (Z.ltb_spec (k - 1) (zlen a)); destruct (Z.ltb_spec k (zlen a + 1)); lia.
    + unfold ztake. rewrite take_app_le by (unfold zlen in *; lia). f_equal. lia.
Qed.

Lemma ztake_split {A} (es : list A) i : 0 <= i < zlen es -> exists e b, es = ztake i es ++ e :: b.
Proof.
  intros Hi. destruct (zdrop i es) as [|e b] eqn:E.
  - apply (f_equal zlen) in E. zl.
  - exists e, b. by rewrite <- E, ztake_zdrop.
Qed.

Lemma blob_len t lf es : chain 0 es -> (length es < S (length (blob t lf (body 0 es))))%nat.
Proof. intros Hc. pose proof (count_size _ _ Hc). pose proof (zlen_body _ _ Hc). unfold blob, zlen in *. rewrite !length_app. lia. Qed.

Lemma pos_0 es : pos es 0 = 10.
Proof. unfold pos. by rewrite ztake_0. Qed.

(** Every [int] other than the least one is a position from the front or from the back. *)
Lemma ziplistIndex_ok es lf index : chain 0 es -> 11 + size es < 2 ^ 32 -> - 2 ^ 31 < index < 2 ^ 31 ->
  let i := if index <? 0 then zlen es + index else index in
  ziplistIndex (blob (tail_off 10 es) lf (body 0 es)) index =
  Ok (if (0 <=? i) && (i <? zlen es) then Some (pos es i) else None).
Proof.
  intros Hc Hs Hi i. unfold ziplistIndex. pose proof (tail_off_range 10 _ _ Hc). pose proof (zlen_nonneg es).
  set (t := tail_off 10 es) in *. assert (forall l e, es = l ++ [e] -> t = 10 + size l) as Htl by (intros l e ->; apply (tail_off_app 10 l e [])).
  assert (es = [] -> t = 10) as Ht0 by (by intros ->). clearbody t.
  destruct (Z.ltb_spec index 0) as [Hn|Hn].
  - rewrite swrap_id by (unfold in_s; lia). unfold ZIPLIST_ENTRY_TAIL. rewrite tail_blob by (unfold in_u; lia). cbn [mbind res_bind].
    destruct es as [|e l _] using rev_ind.
    { rewrite (Ht0 eq_refl) in *. destruct (peek_blob 10 lf [] [] Hc) as (c & E & E'). change (peek (blob 10 lf (body 0 [])) 10 = Ok c) in E.
      rewrite E. cbn [mbind res_bind]. rewrite E'. cbn [negb mbind res_bind]. rewrite E. cbn [mbind res_bind]. rewrite E'.
      cbn [orb]. unfold i. change (zlen (@nil ent)) with 0. by rewrite (proj2 (Z.leb_gt 0 _)) by lia. }
    rewrite (Htl l e eq_refl) in *. set (B := blob _ _ _). destruct (peek_blob (10 + size l) lf l [e] Hc) as (c & E & E').
    fold B in E. rewrite E. cbn [mbind res_bind]. rewrite E'. cbn [negb].
    assert (ZIP_DECODE_PREVLEN B (10 + size l) = Ok (e_pls e, prev_of 0 l)) as -> by (by apply prevlen_blob). cbn [mbind res_bind].
    assert (index_back (S (length B)) B (10 + size l) (prev_of 0 l) (- index - 1) = Ok (10 + size (ztake (zlen l - (- index - 1)) l),
      if - index - 1 <? zlen l then -1 else - index - 1 - zlen l)) as ->.
    { apply index_back_ok; [|done|lia]. pose proof (blob_len (10 + size l) lf _ Hc) as X. fold B in X. rewrite length_app in X. lia. }
    cbn [mbind res_bind].
    assert (exists a b, l ++ [e] = ztake (zlen l - (- index - 1)) l ++ a :: b) as (a & b & Eab).
    { set (j := zlen l - (- index - 1)). pose proof (ztake_zdrop j l) as Ej. destruct (zdrop j l) as [|y r].
      - exists e, []. rewrite app_nil_r in Ej. by rewrite Ej.
      - exists y, (r ++ [e]). change (y :: r ++ [e]) with ((y :: r) ++ [e]). by rewrite app_assoc, Ej. }
    pose proof Hc as Hc'. rewrite Eab in Hc'. destruct (peek_blob (10 + size l) lf _ _ Hc') as (c2 & F & F').
    rewrite <- Eab in F. fold B in F. rewrite F. cbn [mbind res_bind]. rewrite F'. cbn [orb]. f_equal.
    unfold i. assert (zlen (l ++ [e]) = zlen l + 1) as Hl by zl. rewrite Hl. pose proof (zlen_nonneg l).
    destruct (Z.leb_spec 0 (zlen l + 1 + index)); cbn [andb].
    + rewrite (proj2 (Z.ltb_lt (zlen l + 1 + index) _)) by lia. destruct (Z.ltb_spec (- index - 1) (zlen l)); [|rewrite (proj2 (Z.ltb_ge 0 _)) by lia];
        unfold pos; replace (zlen l + 1 + index) with (zlen l - (- index - 1)) by lia; unfold ztake; rewrite (take_app_le l [e]) by (unfold zlen in *; lia); done.
    + rewrite (proj2 (Z.ltb_ge (- index - 1) _)) by lia. by rewrite (proj2 (Z.ltb_lt 0 _)) by lia.
  - set (B := blob _ _ _). pose proof (index_forward_ok es (S (length B)) t lf [] index (blob_len _ _ _ Hc) Hc Hn) as E.
    change (10 + size []) with ZIPLIST_ENTRY_HEAD in E. cbn [app] in E. fold B in E. rewrite E. cbn [mbind res_bind]. unfold i.
    rewrite (proj2 (Z.leb_le 0 index)) by lia. cbn [andb]. destruct (Z.ltb_spec index (zlen es)) as [Hlt|Hge].
    + destruct (ztake_split es index ltac:(lia)) as (e & b & Es). pose proof Hc as Hc'. rewrite Es in Hc'.
      destruct (peek_blob t lf _ _ Hc') as (c & F & F'). rewrite <- Es in F. fold B in F. rewrite F. cbn [mbind res_bind]. by rewrite F'.
    + rewrite ztake_all by lia. pose proof Hc as Hc'. rewrite <- (app_nil_r es) in Hc'.
      destruct (peek_blob t lf _ _ Hc') as (c & F & F'). rewrite app_nil_r in F. fold B in F. rewrite F. cbn [mbind res_bind]. by rewrite F'.
Qed.

(** ** Entries *)

Lemma blob_data t lf a e b : chain 0 (a ++ e :: b) -> exists pre post,
  blob t lf (body 0 (a ++ e :: b)) = pre ++ val_data (e_val e) ++ post /\
  zlen pre = 10 + size a + (e_pls e + zlen (val_hdr (e_val e))).
Proof.
  intros [Hc1 [He _]]%chain_app. pose proof (zlen_body _ _ Hc1). pose proof (zlen_pbytes (e_pls e) (prev_of 0 a) (pls_cases _ _ He)).
  rewrite blob_entry. set (H' := hdr _ _ _). exists ((H' ++ body 0 a) ++ pbytes (e_pls e) (prev_of 0 a) ++ val_hdr (e_val e)), (body (rawlen e) b ++ [ZIP_END]).
  split; [unfold ebytes, val_bytes; by rewrite <- !app_assoc|]. unfold H'. zl.
Qed.

Lemma zipEntry_blob t lf a e b : chain 0 (a ++ e :: b) ->
  zipEntry (blob t lf (body 0 (a ++ e :: b))) (10 + size a) = Ok (entry_info (prev_of 0 a) e (10 + size a)).
Proof.
  intros [Hc1 [He _]]%chain_app. rewrite blob_entry. apply zipEntry_ok; [done|]. pose proof (zlen_body _ _ Hc1). zl.
Qed.

Lemma chain_val a e b : chain 0 (a ++ e :: b) -> val_ok (e_val e).
Proof. intros [_ [He _]]%chain_app. apply He. Qed.

Lemma load_blob t lf a e b v : chain 0 (a ++ e :: b) -> e_val e = ZInt v ->
  zipLoadInteger (blob t lf (body 0 (a ++ e :: b))) (10 + size a + (e_pls e + zlen (val_hdr (e_val e)))) (int_encoding v) = Ok v.
Proof.
  intros Hc Ev. destruct (blob_data t lf a e b Hc) as (pre & post & -> & Hp). pose proof (chain_val _ _ _ Hc) as Hv.
  rewrite Ev in *. by apply zipLoadInteger_ok.
Qed.

Lemma entry_text_ok t lf a e b : chain 0 (a ++ e :: b) ->
  entry_text (blob t lf (body 0 (a ++ e :: b))) (10 + size a) = Ok (Some (text (e_val e))).
Proof.
  intros Hc. unfold entry_text, ziplistGet. destruct (peek_blob t lf a (e :: b) Hc) as (c & E & E'). rewrite E. cbn [mbind res_bind]. rewrite E'.
  rewrite zipEntry_blob by done. cbn [mbind res_bind encoding entry_info headersize len].
  rewrite dec_enc_is_str by (by eapply chain_val). destruct (e_val e) as [s|v] eqn:Ev; cbn [mbind res_bind].
  - destruct (blob_data t lf a e b Hc) as (pre & post & -> & Hp). rewrite Ev in *. cbn [val_data]. by rewrite rd_app by done.
  - cbn [dec_enc]. rewrite <- Ev, (load_blob t lf a e b v Hc Ev), Ev. done.
Qed.

Lemma ziplistNext_ok t lf a e b : chain 0 (a ++ e :: b) ->
  ziplistNext (blob t lf (body 0 (a ++ e :: b))) (10 + size a) =
  Ok (match b with [] => None | _ => Some (10 + size (a ++ [e])) end).
Proof.
  intros Hc. unfold ziplistNext. destruct (peek_blob t lf a (e :: b) Hc) as (c & E & E'). rewrite E. cbn [mbind res_bind]. rewrite E'.
  rewrite raw_blob by done. cbn [mbind res_bind]. replace (10 + size a + rawlen e) with (10 + size (a ++ [e])) by (rewrite size_snoc; lia).
  replace (a ++ e :: b) with ((a ++ [e]) ++ b) in * by (by rewrite <- app_assoc).
  destruct (peek_blob t lf (a ++ [e]) b Hc) as (c2 & F & F'). rewrite F. cbn [mbind res_bind]. rewrite F'. by destruct b.
Qed.

Lemma ziplistPrev_ok t lf a e b : chain 0 (a ++ e :: b) ->
  ziplistPrev (blob t lf (body 0 (a ++ e :: b))) (10 + size a) =
  Ok (match a with [] => None | _ => Some (10 + size (removelast a)) end).
Proof.
  intros Hc. unfold ziplistPrev. destruct (peek_blob t lf a (e :: b) Hc) as (c & E & E'). rewrite E. cbn [mbind res_bind]. rewrite E'.
  destruct a as [|x l _] using rev_ind; [done|]. pose proof Hc as [[Hl [Hx _]]%chain_app _]%chain_app.
  pose proof (rawlen_pos _ _ Hx). pose proof (size_nonneg _ _ Hl). change ZIPLIST_ENTRY_HEAD with 10.
  rewrite (proj2 (Z.eqb_neq _ 10)) by (rewrite size_snoc; lia). rewrite prevlen_blob by done. cbn [mbind res_bind]. rewrite prev_of_snoc.
  unfold assert_. rewrite (proj2 (Z.ltb_lt 0 (rawlen x))) by lia. cbn [mbind res_bind]. rewrite removelast_last, size_snoc.
  destruct (l ++ [x]) eqn:El; [by destruct l|]. do 2 f_equal. lia.
Qed.

Lemma ziplistPrev_end es lf : chain 0 es -> 11 + size es < 2 ^ 32 ->
  ziplistPrev (blob (tail_off 10 es) lf (body 0 es)) (10 + size es) = Ok (match es with [] => None | _ => Some (tail_off 10 es) end).
Proof.
  intros Hc Hs. unfold ziplistPrev. pose proof Hc as Hc'. rewrite <- (app_nil_r es) in Hc'. pose proof (tail_off_range 10 _ _ Hc).
  destruct (peek_blob (tail_off 10 es) lf es [] Hc') as (c & E & E'). rewrite app_nil_r in E. rewrite E. cbn [mbind res_bind]. rewrite E'.
  unfold ZIPLIST_ENTRY_TAIL. rewrite tail_blob by (unfold in_u; lia). cbn [mbind res_bind]. destruct es as [|x l _] using rev_ind.
  - change (tail_off 10 []) with (10 + size []) in *. rewrite E. cbn [mbind res_bind]. by rewrite E'.
  - destruct (peek_blob (tail_off 10 (l ++ [x])) lf l [x] Hc) as (c2 & F & F'). rewrite tail_off_app in *. cbn [tail_off] in *.
    rewrite F. cbn [mbind res_bind]. rewrite F'. by destruct (l ++ [x]) eqn:El; [destruct l|].
Qed.

Lemma len_loop_ok b : forall fuel t lf a k, (length b < fuel)%nat -> chain 0 (a ++ b) ->
  len_loop fuel (blob t lf (body 0 (a ++ b))) (10 + size a) k = Ok (k + zlen b).
Proof.
  induction b as [|e b IH]; intros [|fuel] t lf a k Hf Hc; try (cbn in Hf; lia); cbn [len_loop].
  all: destruct (peek_blob t lf _ _ Hc) as (c & E & E'); rewrite E; cbn [mbind res_bind]; rewrite E'.
  { change (zlen (@nil ent)) with 0. by rewrite Z.add_0_r. }
  rewrite raw_blob by done. cbn [mbind res_bind]. replace (a ++ e :: b) with ((a ++ [e]) ++ b) in * by (by rewrite <- app_assoc).
  replace (10 + size a + rawlen e) with (10 + size (a ++ [e])) by (rewrite size_snoc; lia).
  rewrite IH; [|cbn in Hf; lia|done]. rewrite zlen_cons. f_equal. lia.
Qed.

Lemma ziplistLen_ok zl ss : repr zl ss -> exists zl', ziplistLen zl = Ok (zl', zlen ss) /\ repr zl' ss.
Proof.
  intros (es & lf & -> & Hc & Ev & Hl). pose proof (zlen_vals _ _ Ev) as Hz. pose proof (zlen_nonneg ss).
  unfold ziplistLen. rewrite length_blob by (eapply len_field_u16; [done|lia]). cbn [mbind res_bind].
  destruct (Z.ltb_spec lf UINT16_MAX).
  { destruct Hl as [[-> _]|]; [|lia]. rewrite Hz. eexists. split; [done|]. exists es, (zlen es). rewrite Hz. split_and!; [done|done|done|]. left. by rewrite <- Hz. }
  pose proof (len_loop_ok es _ (tail_off 10 es) lf [] 0 (blob_len (tail_off 10 es) lf _ Hc) Hc) as E. change (10 + size []) with ZIPLIST_HEADER_SIZE in E.
  cbn [app] in E. rewrite E. cbn [mbind res_bind]. rewrite Z.add_0_l, Hz. destruct (Z.ltb_spec (zlen ss) UINT16_MAX).
  - unfold blob. rewrite set_length_hdr. cbn [mbind res_bind]. eexists. split; [done|]. exists es, (zlen ss). split_and!; [done|done|done|left; lia].
  - eexists. split; [done|]. by exists es, lf.
Qed.

(** ** Search *)

(** What the loop knows of the searched text after a first try to encode it. *)
Definition tried (v : list Z) (vencoding vll : Z) : Prop :=
  match zipTryEncoding v with
  | Some (x, enc) => vll = x /\ vencoding = enc
  | None => vencoding = UCHAR_MAX
  end.

Lemma zipTry_val_of v : match zipTryEncoding v with
  | Some (x, enc) => val_of v = ZInt x /\ enc <> 0 /\ enc <> UCHAR_MAX
  | None => val_of v = ZStr v end.
Proof.
  unfold val_of. unfold zipTryEncoding. destruct ((32 <=? zlen v) || (zlen v =? 0)); [done|].
  destruct (string2ll v) as [x|] eqn:E; [|done]. apply string2ll_sound in E as [_ Hv]. pose proof (int_enc_range x Hv) as Hr.
  unfold ZIP_STR_MASK, UCHAR_MAX in *. split_and!; [done|lia|lia].
Qed.

Lemma val_of_inj s v : val_of s = val_of v -> s = v.
Proof. intros E. by rewrite <- (text_val_of s), <- (text_val_of v), E. Qed.

Lemma int_match s x v vencoding vll : val_of s = ZInt x -> tried v vencoding vll ->
  vencoding <> 0 /\ (negb (vencoding =? UCHAR_MAX) && (x =? vll)) = bool_decide (s = v).
Proof.
  intros Es Ht. pose proof (zipTry_val_of v) as Hz. unfold tried in Ht. destruct (zipTryEncoding v) as [[y enc]|].
  - destruct Ht as [-> ->]. destruct Hz as (Ev & H0 & H255). split; [done|]. rewrite (proj2 (Z.eqb_neq enc UCHAR_MAX)) by done. cbn [negb andb].
    destruct (Z.eqb_spec x y) as [->|Hne]; symmetry.
    + apply bool_decide_eq_true. apply val_of_inj. by rewrite Es, Ev.
    + apply bool_decide_eq_false. intros ->. rewrite Es in Ev. by injection Ev.
  - rewrite Ht. split; [done|]. cbn. symmetry. apply bool_decide_eq_false. intros ->. by rewrite Es in Hz.
Qed.

Lemma tried_first v vencoding vll : vencoding = 0 \/ tried v vencoding vll ->
  let '(vll', vencoding') := if vencoding =? 0 then match zipTryEncoding v with Some (x, e) => (x, e) | None => (vll, UCHAR_MAX) end
    else (vll, vencoding) in tried v vencoding' vll'.
Proof.
  intros H. destruct (Z.eqb_spec vencoding 0) as [->|Hn].
  - unfold tried. by destruct (zipTryEncoding v) as [[x e]|].
  - destruct H; done.
Qed.

Lemma find_loop_ok v skip : 0 <= skip < 2 ^ 31 -> forall b fuel t lf a sb cnt vencoding vll,
  (length b < fuel)%nat -> chain 0 (a ++ b) -> map e_val b = map val_of sb -> vencoding = 0 \/ tried v vencoding vll -> 0 <= cnt ->
  find_loop fuel (blob t lf (body 0 (a ++ b))) (10 + size a) v skip cnt vencoding vll =
  Ok (match find_spec v skip cnt sb with None => None | Some i => Some (10 + size (a ++ ztake i b)) end).
Proof.
  intros Hsk. induction b as [|e b IH]; intros [|fuel] t lf a sb cnt vencoding vll Hf Hc Ev Ht Hcnt; try (cbn in Hf; lia); cbn [find_loop].
  all: destruct (peek_blob t lf _ _ Hc) as (c & E & E'); rewrite E; cbn [mbind res_bind]; rewrite E'.
  { by destruct sb. }
  destruct sb as [|s sb]; [done|]. injection Ev as Es Ev.
  pose proof Hc as [Hc1 [He _]]%chain_app. pose proof (zlen_body _ _ Hc1) as Hlb.
  assert (ZIP_DECODE_PREVLENSIZE (blob t lf (body 0 (a ++ e :: b))) (10 + size a) = Ok (e_pls e)) as ->
    by (rewrite blob_entry; apply decode_prevlensize_ok; [done|zl]).
  cbn [mbind res_bind].
  assert (ZIP_DECODE_LENGTH (blob t lf (body 0 (a ++ e :: b))) (10 + size a + e_pls e) =
    Ok (dec_enc (e_val e), zlen (val_hdr (e_val e)), zlen (val_data (e_val e)))) as ->
    by (rewrite blob_entry; apply entry_decode_length; [done|zl]).
  cbn [mbind res_bind]. rewrite dec_enc_is_str by apply He.
  assert (forall cnt' venc' vll', venc' = 0 \/ tried v venc' vll' -> 0 <= cnt' ->
    find_loop fuel (blob t lf (body 0 (a ++ e :: b))) (10 + size a + e_pls e + zlen (val_hdr (e_val e)) + zlen (val_data (e_val e))) v skip cnt' venc' vll' =
    Ok (match Z.succ <$> find_spec v skip cnt' sb with None => None | Some i => Some (10 + size (a ++ ztake i (e :: b))) end)) as Hnext.
  { intros cnt' venc' vll' Ht' Hc'. replace (a ++ e :: b) with ((a ++ [e]) ++ b) in * by (by rewrite <- app_assoc).
    replace (10 + size a + _ + _ + _) with (10 + size (a ++ [e])) by (rewrite size_snoc, (rawlen_split _ _ He); lia).
    rewrite (IH fuel t lf (a ++ [e]) sb) by (done || (cbn in Hf; lia)). destruct (find_spec v skip cnt' sb) as [i|] eqn:Ef; [|done]. cbn.
    assert (0 <= i) as Hi.
    { clear -Ef. revert cnt' i Ef. induction sb as [|s sb IH]; intros cnt' i; [done|]. cbn. case_match; [intros [= <-]; done|].
      destruct (find_spec v skip _ sb) as [j|] eqn:E; [|done]. cbn. intros [= <-]. specialize (IH _ _ E). lia. }
    rewrite ztake_cons by lia. rewrite <- app_assoc. cbn. by replace (Z.succ i - 1) with i by lia. }
  cbn [find_spec]. destruct (Z.eqb_spec cnt 0) as [->|Hc0]; cbn [andb]; [|by apply Hnext; [|lia]].
  destruct (e_val e) as [s'|x] eqn:Ee.
  - assert (s' = s) as -> by (rewrite <- (text_val_of s), <- Es; done).
    assert ((if zlen (val_data (ZStr s)) =? zlen v then b0 ← rd (blob t lf (body 0 (a ++ e :: b))) (10 + size a + e_pls e + zlen (val_hdr (ZStr s))) (zlen v);
      Ok (bool_decide (b0 = v)) else Ok false) = Ok (bool_decide (s = v))) as ->.
    { cbn [val_data]. destruct (Z.eqb_spec (zlen s) (zlen v)) as [El|Hne].
      - destruct (blob_data t lf a e b Hc) as (pre & post & -> & Hp). rewrite Ee in *. cbn [val_data]. rewrite rd_app by lia. done.
      - f_equal. symmetry. apply bool_decide_eq_false. by intros ->. }
    cbn [mbind res_bind]. destruct (bool_decide (s = v)).
    + rewrite ztake_0, app_nil_r by done. done.
    + rewrite swrap_id by (unfold in_s; lia). apply Hnext; [done|lia].
  - pose proof (tried_first v vencoding vll Ht) as Ht'. destruct (if vencoding =? 0 then _ else _) as [vll' venc'].
    destruct (int_match s x v venc' vll' (eq_sym Es) Ht') as [Hn0 Hm]. unfold assert_. rewrite (proj2 (Z.eqb_neq venc' 0)) by done. cbn [negb mbind res_bind dec_enc].
    assert ((if negb (venc' =? UCHAR_MAX) then ll ← zipLoadInteger (blob t lf (body 0 (a ++ e :: b))) (10 + size a + e_pls e + zlen (val_hdr (ZInt x))) (int_encoding x);
       Ok (ll =? vll') else Ok false) = Ok (bool_decide (s = v))) as ->.
    { rewrite <- Hm. pose proof (load_blob t lf a e b x Hc Ee) as El. rewrite Ee, Z.add_assoc in El. rewrite El. by destruct (venc' =? UCHAR_MAX). }
    cbn [mbind res_bind]. destruct (bool_decide (s = v)).
    + rewrite ztake_0, app_nil_r by done. done.
    + rewrite swrap_id by (unfold in_s; lia). apply Hnext; [by right|lia].
Qed.

(** [find_spec] is the first match among the compared positions. *)
Lemma find_spec_first v skip ss : forall cnt, 0 <= cnt <= skip ->
  match find_spec v skip cnt ss with
  | Some i => 0 <= i /\ (i - cnt) mod (skip + 1) = 0 /\ ss !! Z.to_nat i = Some v /\
      (forall j, 0 <= j < i -> (j - cnt) mod (skip + 1) = 0 -> ss !! Z.to_nat j <> Some v)
  | None => forall j, 0 <= j -> (j - cnt) mod (skip + 1) = 0 -> ss !! Z.to_nat j <> Some v
  end.
Proof.
  induction ss as [|s ss IH]; intros cnt Hc; cbn [find_spec]; [done|].
  assert (forall j, 0 < j -> (s :: ss) !! Z.to_nat j = ss !! Z.to_nat (j - 1)) as Hlk.
  { intros j Hj. by replace (Z.to_nat j) with (S (Z.to_nat (j - 1))) by lia. }
  set (cnt' := if cnt =? 0 then skip else cnt - 1).
  assert (forall j, (j - 1 - cnt') mod (skip + 1) = (j - cnt) mod (skip + 1)) as Hmod.
  { intros j. unfold cnt'. destruct (Z.eqb_spec cnt 0) as [->|]; [|f_equal; lia].
    replace (j - 1 - skip) with (j - 0 + (-1) * (skip + 1)) by lia. by rewrite Z_mod_plus_full. }
  assert (0 <= cnt' <= skip) as Hc' by (unfold cnt'; destruct (Z.eqb_spec cnt 0); lia).
  destruct ((cnt =? 0) && bool_decide (s = v)) eqn:E.
  { apply andb_true_iff in E as [->%Z.eqb_eq ->%bool_decide_eq_true]. split_and!; [lia| |done|lia]. by rewrite Z.mod_0_l by lia. }
  assert (forall j, j = 0 -> (j - cnt) mod (skip + 1) = 0 -> (s :: ss) !! Z.to_nat j <> Some v) as H0.
  { intros j -> Hm. cbn. intros [= ->]. rewrite bool_decide_eq_true_2, andb_true_r in E by done. apply Z.eqb_neq in E.
    apply Z.mod_divide in Hm; [|lia]. apply Z.divide_opp_r in Hm. apply Z.divide_pos_le in Hm; lia. }
  specialize (IH cnt' Hc'). destruct (find_spec v skip cnt' ss) as [i|]; cbn [fmap option_fmap option_map].
  - destruct IH as (Hi & Hm & Hv & Hf). split_and!; [lia| | |].
    + rewrite <- Hmod. by replace (Z.succ i - 1) with i by lia.
    + rewrite Hlk by lia. by replace (Z.succ i - 1) with i by lia.
    + intros j Hj Hjm. destruct (decide (j = 0)) as [->|]; [by apply H0|]. rewrite Hlk by lia. apply Hf; [lia|]. by rewrite Hmod.
  - intros j Hj Hjm. destruct (decide (j = 0)) as [->|]; [by apply H0|]. rewrite Hlk by lia. apply IH; [lia|]. by rewrite Hmod.
Qed.

Lemma ziplistCompare_ok t lf a e b s v : chain 0 (a ++ e :: b) -> e_val e = val_of s ->
  ziplistCompare (blob t lf (body 0 (a ++ e :: b))) (10 + size a) v = Ok (bool_decide (s = v)).
Proof.
  intros Hc Es. unfold ziplistCompare. destruct (peek_blob t lf a (e :: b) Hc) as (c & E & E'). rewrite E. cbn [mbind res_bind]. rewrite E'.
  rewrite zipEntry_blob by done. cbn [mbind res_bind encoding entry_info headersize len].
  rewrite dec_enc_is_str by (by eapply chain_val). destruct (e_val e) as [s'|x] eqn:Ee; cbn [mbind res_bind val_data dec_enc].
  - assert (s' = s) as -> by (rewrite <- (text_val_of s), <- Es; done). destruct (Z.eqb_spec (zlen s) (zlen v)) as [El|Hne].
    + destruct (blob_data t lf a e b Hc) as (pre & post & -> & Hp). rewrite Ee in *. cbn [val_data]. rewrite rd_app by lia. done.
    + f_equal. symmetry. apply bool_decide_eq_false. by intros ->.
  - pose proof (zipTry_val_of v) as Hz. pose proof (load_blob t lf a e b x Hc Ee) as El. rewrite Ee in El.
    destruct (zipTryEncoding v) as [[y enc]|] eqn:Ez.
    + rewrite El. cbn [mbind res_bind]. f_equal. destruct (int_match s x v enc y (eq_sym Es)) as [_ Hm]; [by unfold tried; rewrite Ez|].
      destruct Hz as (_ & _ & H255). rewrite (proj2 (Z.eqb_neq enc UCHAR_MAX)) in Hm by done. done.
    + f_equal. symmetry. apply bool_decide_eq_false. intros ->. by rewrite <- Es in Hz.
Qed.

(** ** The contract *)

Lemma max_bytes_app a b : max_bytes (a ++ b) = max_bytes a + max_bytes b - 11.
Proof. induction a as [|s a IH]; cbn; lia. Qed.

Lemma max_bytes_ge ss : 11 <= max_bytes ss.
Proof. induction ss as [|s ss IH]; cbn; [lia|]. zlen_pos. lia. Qed.

Lemma max_bytes_cut i ss : max_bytes (ztake i ss) + max_bytes (zdrop i ss) = max_bytes ss + 11.
Proof. rewrite <- (ztake_zdrop i ss) at 3. rewrite max_bytes_app. lia. Qed.

Lemma spec_op_weight ss o : max_bytes (spec_op ss o) <= max_bytes ss + weight o.
Proof.
  assert (forall s, 5 + zlen (val_bytes (val_of s)) <= 18 + zlen s) as Hs by (intros s; pose proof (val_of_len s); lia).
  destruct o as [s []|index s|index|index num]; cbn [spec_op weight].
  - cbn [max_bytes]. specialize (Hs s). lia.
  - rewrite max_bytes_app. cbn [max_bytes]. specialize (Hs s). lia.
  - unfold at_index. pose proof (zlen_nonneg s). case_match; [|lia]. set (i := if _ <? _ then _ else _).
    rewrite max_bytes_app. cbn [max_bytes]. specialize (Hs s). pose proof (max_bytes_cut i ss). lia.
  - unfold at_index. case_match; [|lia]. set (i := if _ <? _ then _ else _). rewrite max_bytes_app.
    pose proof (max_bytes_cut i ss). pose proof (max_bytes_cut 1 (zdrop i ss)). pose proof (max_bytes_ge (ztake 1 (zdrop i ss))). lia.
  - unfold at_index. case_match; [|lia]. set (i := if _ <? _ then _ else _). rewrite max_bytes_app.
    pose proof (max_bytes_cut i ss). pose proof (max_bytes_cut num (zdrop i ss)). pose proof (max_bytes_ge (ztake num (zdrop i ss))). lia.
Qed.

Lemma repr_size es ss : chain 0 es -> map e_val es = map val_of ss -> 11 + size es <= max_bytes ss.
Proof. intros Hc Ev. rewrite (max_bytes_wsize es) by done. pose proof (size_wsize _ _ Hc). lia. Qed.

(** An edit at a position, given what it does in front of an entry. *)
Lemma at_index_ok (zl : list Z) ss index (f : Z -> res (list Z)) (g : Z -> list (list Z)) :
  repr zl ss -> max_bytes ss < 2 ^ 32 -> - 2 ^ 31 < index < 2 ^ 31 ->
  (forall i es lf x rest, 0 <= i < zlen ss -> zl = blob (tail_off 10 (es ++ x :: rest)) lf (body 0 (es ++ x :: rest)) ->
     chain 0 (es ++ x :: rest) -> len_field lf (zlen (es ++ x :: rest)) ->
     map e_val es = map val_of (ztake i ss) -> map e_val (x :: rest) = map val_of (zdrop i ss) ->
     exists zl', f (10 + size es) = Ok zl' /\ repr zl' (g i)) ->
  exists zl', (p ← ziplistIndex zl index; match p with Some p => f p | None => Ok zl end) = Ok zl' /\ repr zl' (at_index ss index g).
Proof.
  intros Hr HW Hi Hf. pose proof Hr as (es & lf & -> & Hc & Ev & Hl). pose proof (zlen_vals _ _ Ev) as Hz. pose proof (repr_size _ _ Hc Ev).
  rewrite ziplistIndex_ok by (done || lia). cbn [mbind res_bind]. unfold at_index. rewrite Hz. set (i := if _ <? _ then _ else _).
  destruct ((0 <=? i) && (i <? zlen ss)) eqn:E; [|by eexists].
  apply andb_true_iff in E as [?%Z.leb_le ?%Z.ltb_lt]. destruct (ztake_split es i ltac:(lia)) as (x & rest & Es).
  destruct (Hf i (ztake i es) lf x rest) as (zl' & E & Hr'); try (by rewrite <- Es); [lia|unfold ztake; by rewrite <- !firstn_map, Ev| |by exists zl'].
  assert (x :: rest = zdrop i es) as ->.
  { apply (app_inv_head (ztake i es)). by rewrite <- Es, ztake_zdrop. }
  unfold zdrop. by rewrite <- !skipn_map, Ev.
Qed.

Lemma ziplist_apply_op_ok junk zl ss o : repr zl ss -> op_ok o -> max_bytes ss + weight o < 2 ^ 32 ->
  exists zl', apply_op junk zl o = Ok zl' /\ repr zl' (spec_op ss o).
Proof.
  intros Hr Ho HW. pose proof (spec_op_weight ss o) as Hw. pose proof (max_bytes_ge ss).
  assert (max_bytes ss < 2 ^ 32) as HW0 by (destruct o; cbn in HW; zlen_pos; lia).
  destruct o as [s w|index s|index|index num]; cbn [apply_op spec_op op_ok weight] in *.
  - destruct Hr as (es & lf & -> & Hc & Ev & Hl). zlen_pos. pose proof (zlen_body _ _ Hc) as Hlb. pose proof (repr_size _ _ Hc Ev).
    unfold ziplistPush. destruct w; cbn [mbind res_bind app] in *.
    + change ZIPLIST_ENTRY_HEAD with (10 + size []). apply (insert_ok junk [] ss lf [] es s); done || (cbn [app]; lia).
    + unfold ZIPLIST_ENTRY_END. rewrite bytes_blob by lia. cbn [mbind res_bind]. replace (11 + zlen (body 0 es) - 1) with (10 + size es) by lia.
      pose proof (insert_ok junk ss [] lf es [] s) as Hin. rewrite app_nil_r in Hin. apply Hin; done || lia.
  - apply at_index_ok; try done. intros i es lf x rest Hi -> Hc Hl E1 E2. zlen_pos. apply insert_ok; try done; [|lia].
    rewrite max_bytes_app. cbn [max_bytes]. pose proof (max_bytes_cut i ss). pose proof (val_of_len s). lia.
  - unfold ziplistDelete. cbn [mbind res_bind].
    destruct (at_index_ok zl ss index (fun p => __ziplistDelete junk zl p 1) (fun i => ztake i ss ++ zdrop 1 (zdrop i ss)) Hr HW0 Ho) as (zl' & E & Hr').
    { intros i es lf x rest Hi -> Hc Hl E1 E2. apply erase_ok; try done. by rewrite ztake_zdrop. }
    exists zl'. split; [|done]. rewrite <- E. destruct (ziplistIndex zl index) as [[p|]|]; [|done..]. cbn [mbind res_bind].
    by destruct (__ziplistDelete junk zl p 1).
  - unfold ziplistDeleteRange. destruct Ho as [Ho _].
    destruct (at_index_ok zl ss index (fun p => __ziplistDelete junk zl p num) (fun i => ztake i ss ++ zdrop num (zdrop i ss)) Hr HW0 Ho) as (zl' & E & Hr').
    { intros i es lf x rest Hi -> Hc Hl E1 E2. apply erase_ok; try done. by rewrite ztake_zdrop. }
    exists zl'. split; [|done]. rewrite <- E. by destruct (ziplistIndex zl index) as [[p|]|].
Qed.

Lemma weights_nonneg h : 0 <= weights h.
Proof. induction h as [|o h IH]; cbn; [done|]. destruct o; cbn; zlen_pos; lia. Qed.

Lemma ziplist_run_ok junk h : forall zl ss, repr zl ss -> Forall op_ok h -> max_bytes ss + weights h < 2 ^ 32 ->
  exists zl', run junk zl h = Ok zl' /\ repr zl' (fold_left spec_op h ss).
Proof.
  induction h as [|o h IH]; intros zl ss Hr Ho HW; [by exists zl|]. apply list.Forall_cons_1 in Ho as [Ho Hh]. cbn [weights run fold_left] in *.
  pose proof (weights_nonneg h). destruct (ziplist_apply_op_ok junk zl ss o Hr Ho ltac:(lia)) as (zl1 & -> & Hr1). cbn [mbind res_bind].
  apply IH; [done|done|]. pose proof (spec_op_weight ss o). lia.
Qed.
End Read.

(** C17: Any history of pushes, insertions, deletions and range deletions on a new
    ziplist, whose texts fit a 32 bit size, runs inside the allocation without a
    failed assertion; the blob then lays out exactly the list of byte strings that
    the same edits of a plain list give, with intact previous lengths, tail offset
    and size field, and [ziplistLen] counts its elements. *)
Theorem ziplist_history_refines_list junk h :
  Forall op_ok h -> 11 + weights h < 2 ^ 32 ->
  exists zl zl', (zl ← ziplistNew junk; run junk zl h) = Ok zl /\ repr zl (fold_left spec_op h []) /\
    ziplistBlobLen zl = Ok (zlen zl) /\ ziplistLen zl = Ok (zl', zlen (fold_left spec_op h [])) /\ repr zl' (fold_left spec_op h []).
Proof.
  intros Ho HW. destruct (ziplistNew_ok junk) as (zl0 & -> & Hr0). cbn [mbind res_bind].
  destruct (ziplist_run_ok junk h zl0 [] Hr0 Ho HW) as (zl & -> & Hr). destruct (ziplistLen_ok zl _ Hr) as (zl' & El & Hr').
  exists zl, zl'. split_and!; try done. destruct Hr as (es & lf & -> & Hc & Ev & _). unfold ziplistBlobLen.
  assert (11 + zlen (body 0 es) < 2 ^ 32) as Hs.
  { pose proof (repr_size _ _ Hc Ev). rewrite (zlen_body _ _ Hc).
    enough (forall h ss, max_bytes (fold_left spec_op h ss) <= max_bytes ss + weights h) as X by (specialize (X h []); cbn in X; lia).
    clear. induction h as [|o h IH]; intros ss; cbn; [lia|]. specialize (IH (spec_op ss o)). pose proof (spec_op_weight ss o). lia. }
  rewrite bytes_blob by done. f_equal. unfold blob. rewrite !zlen_app, zlen_hdr. change (zlen [ZIP_END]) with 1. lia.
Qed.

Definition demo_history : list op :=
  [Push (zrep 250 97) ZIPLIST_TAIL; Push (zrep 250 98) ZIPLIST_TAIL; Push (str "-1234567") ZIPLIST_TAIL;
   Push (zrep 300 99) ZIPLIST_HEAD; InsertAt 2 (str "7"); DeleteAt (-4); DeleteRange 0 1].

Lemma ziplist_history_refines_list_witness :
  exists zl zl', (zl ← ziplistNew (fun _ => 77); run (fun _ => 77) zl demo_history) = Ok zl /\
    repr zl (fold_left spec_op demo_history []) /\ ziplistBlobLen zl = Ok (zlen zl) /\
    ziplistLen zl = Ok (zl', zlen (fold_left spec_op demo_history [])) /\ repr zl' (fold_left spec_op demo_history []).
Proof.
  apply (ziplist_history_refines_list (fun _ => 77) demo_history); [|vm_compute; reflexivity].
  unfold demo_history. repeat (constructor; cbn [op_ok]); unfold in_u; try lia.
Defined.

(** The edits of the example. *)
Example demo_history_result : fold_left spec_op demo_history [] = [str "7"; zrep 250 98; str "-1234567"].
Proof. vm_compute. reflexivity. Qed.

(** [ziplistIndex] finds every element from the front and from the back and
    nothing else; [ziplistGet] returns its text, also when it is kept as an
    integer; [ziplistNext] and [ziplistPrev] move to its neighbours and stop at
    the ends; [ziplistCompare] decides equality with its text. *)
Theorem ziplist_positions zl ss : repr zl ss -> max_bytes ss < 2 ^ 32 -> zlen ss < 2 ^ 31 ->
  (forall index, - 2 ^ 31 < index < 2 ^ 31 -> index < - zlen ss \/ zlen ss <= index -> ziplistIndex zl index = Ok None) /\
  exists pos, forall i s, 0 <= i -> ss !! Z.to_nat i = Some s ->
    ziplistIndex zl i = Ok (Some (pos i)) /\ ziplistIndex zl (i - zlen ss) = Ok (Some (pos i)) /\
    entry_text zl (pos i) = Ok (Some s) /\ (forall v, ziplistCompare zl (pos i) v = Ok (bool_decide (s = v))) /\
    ziplistNext zl (pos i) = Ok (if i + 1 <? zlen ss then Some (pos (i + 1)) else None) /\
    ziplistPrev zl (pos i) = Ok (if 0 <? i then Some (pos (i - 1)) else None).
Proof.
  intros (es & lf & -> & Hc & Ev & Hl) HW Hn. pose proof (zlen_vals _ _ Ev) as Hz. pose proof (repr_size _ _ Hc Ev). pose proof (zlen_nonneg ss).
  split.
  { intros index Hi Hout. rewrite ziplistIndex_ok by (done || lia). rewrite Hz. destruct (Z.ltb_spec index 0).
    - by rewrite (proj2 (Z.leb_gt 0 _)) by lia.
    - rewrite (proj2 (Z.ltb_ge index _)), andb_false_r by lia. done. }
  exists (pos es). intros i s Hi Hs. assert (i < zlen ss) as Hlt by (apply lookup_lt_Some in Hs; unfold zlen; lia).
  destruct (ztake_split es i ltac:(lia)) as (e & b & Es).
  assert (e_val e = val_of s) as Ee.
  { assert (map e_val es !! Z.to_nat i = Some (val_of s)) as X by (rewrite Ev, list_lookup_fmap, Hs; done).
    rewrite Es, list_lookup_fmap, list_lookup_middle in X; [by injection X|]. apply (f_equal zlen) in Es. unfold zlen, ztake in *. rewrite length_take. lia. }
  rewrite !ziplistIndex_ok by (done || lia). rewrite Hz.
  rewrite (proj2 (Z.ltb_ge i 0)), (proj2 (Z.ltb_lt (i - zlen ss) 0)) by lia. replace (zlen ss + (i - zlen ss)) with i by lia.
  rewrite (proj2 (Z.leb_le 0 i)), (proj2 (Z.ltb_lt i (zlen ss))) by lia. cbn [andb].
  set (t := tail_off 10 es). clearbody t. assert (pos es i = 10 + size (ztake i es)) as -> by done.
  set (a := ztake i es) in *. assert (zlen a = i) as Ha by (unfold a; zl). clearbody a. subst es.
  assert (pos (a ++ e :: b) (i + 1) = 10 + size (a ++ [e])) as ->
    by (unfold pos; change (e :: b) with ([e] ++ b); rewrite app_assoc, ztake_app; zl || done).
  assert (pos (a ++ e :: b) (i - 1) = 10 + size (removelast a)) as ->.
  { unfold pos. destruct a as [|x l _] using rev_ind; [by rewrite ztake_0 by zl|]. rewrite removelast_last, <- app_assoc, ztake_app by zl. done. }
  rewrite zlen_app, zlen_cons in Hz. zlen_pos. split_and!; [done|done| | | |].
  - rewrite entry_text_ok by done. by rewrite Ee, text_val_of.
  - intros v. by apply ziplistCompare_ok.
  - rewrite ziplistNext_ok by done. destruct b as [|e2 b].
    + by rewrite (proj2 (Z.ltb_ge (i + 1) _)) by zl.
    + by rewrite (proj2 (Z.ltb_lt (i + 1) _)) by zl.
  - rewrite ziplistPrev_ok by done. destruct a as [|x l].
    + by rewrite (proj2 (Z.ltb_ge 0 i)) by zl.
    + by rewrite (proj2 (Z.ltb_lt 0 i)) by zl.
Qed.

Lemma ziplist_positions_witness :
  (forall index, - 2 ^ 31 < index < 2 ^ 31 -> index < - 3 \/ 3 <= index -> ziplistIndex demo_blob index = Ok None) /\
  exists pos, forall i s, 0 <= i -> demo_texts !! Z.to_nat i = Some s ->
    ziplistIndex demo_blob i = Ok (Some (pos i)) /\ ziplistIndex demo_blob (i - 3) = Ok (Some (pos i)) /\
    entry_text demo_blob (pos i) = Ok (Some s) /\ (forall v, ziplistCompare demo_blob (pos i) v = Ok (bool_decide (s = v))) /\
    ziplistNext demo_blob (pos i) = Ok (if i + 1 <? 3 then Some (pos (i + 1)) else None) /\
    ziplistPrev demo_blob (pos i) = Ok (if 0 <? i then Some (pos (i - 1)) else None).
Proof. apply (ziplist_positions demo_blob demo_texts demo_repr); vm_compute; reflexivity. Defined.

(** [ziplistFind] from the head returns the first element among those at
    positions divisible by [skip + 1] (the keys of a ziplist that alternates keys
    and values for [skip] 1) that equals the searched text, and NULL exactly when
    there is none; integers are compared through their encoding. *)
Theorem ziplistFind_first zl ss v skip : repr zl ss -> max_bytes ss < 2 ^ 32 -> zlen ss < 2 ^ 31 -> 0 <= skip < 2 ^ 31 ->
  exists r, ziplistFind zl ZIPLIST_ENTRY_HEAD v skip = Ok r /\
  match r with
  | Some p => exists i, ziplistIndex zl i = Ok (Some p) /\ entry_text zl p = Ok (Some v) /\
      0 <= i /\ i mod (skip + 1) = 0 /\ ss !! Z.to_nat i = Some v /\
      (forall j, 0 <= j < i -> j mod (skip + 1) = 0 -> ss !! Z.to_nat j <> Some v)
  | None => forall j, 0 <= j -> j mod (skip + 1) = 0 -> ss !! Z.to_nat j <> Some v
  end.
Proof.
  intros Hr HW Hn Hsk. pose proof Hr as (es & lf & -> & Hc & Ev & Hl). unfold ziplistFind.
  pose proof (find_loop_ok v skip Hsk es _ (tail_off 10 es) lf [] ss 0 0 0 (blob_len (tail_off 10 es) lf es Hc) Hc Ev ltac:(by left) ltac:(lia)) as E.
  change (10 + size []) with ZIPLIST_ENTRY_HEAD in E. cbn [app] in E. rewrite E. eexists. split; [done|].
  pose proof (find_spec_first v skip ss 0 ltac:(lia)) as Hf. destruct (find_spec v skip 0 ss) as [i|].
  - destruct Hf as (Hi & Hm & Hv & Hfirst). rewrite Z.sub_0_r in Hm. pose proof (zlen_vals _ _ Ev) as Hz. pose proof (repr_size _ _ Hc Ev).
    assert (i < zlen ss) as Hlt by (apply lookup_lt_Some in Hv; unfold zlen; lia). exists i.
    rewrite ziplistIndex_ok by (done || lia). rewrite (proj2 (Z.ltb_ge i 0)), Hz, (proj2 (Z.leb_le 0 i)), (proj2 (Z.ltb_lt i (zlen ss))) by lia.
    split_and!; try done; [|intros j Hj; specialize (Hfirst j Hj); by rewrite Z.sub_0_r in Hfirst].
    destruct (ztake_split es i ltac:(lia)) as (e & b & Es). set (t := tail_off 10 es). clearbody t.
    assert (map e_val es !! Z.to_nat i = Some (val_of v)) as X by (rewrite Ev, list_lookup_fmap, Hv; done).
    set (a := ztake i es) in *. assert (zlen a = i) as Ha by (unfold a; zl). clearbody a. subst es.
    rewrite entry_text_ok by done. rewrite list_lookup_fmap, list_lookup_middle in X by (unfold zlen in *; lia). injection X as ->. by rewrite text_val_of.
  - intros j Hj. specialize (Hf j Hj). by rewrite Z.sub_0_r in Hf.
Qed.

Lemma ziplistFind_first_witness : exists r, ziplistFind demo_blob ZIPLIST_ENTRY_HEAD (str "Hello World") 1 = Ok r /\
  match r with
  | Some p => exists i, ziplistIndex demo_blob i = Ok (Some p) /\ entry_text demo_blob p = Ok (Some (str "Hello World")) /\
      0 <= i /\ i mod (1 + 1) = 0 /\ demo_texts !! Z.to_nat i = Some (str "Hello World") /\
      (forall j, 0 <= j < i -> j mod (1 + 1) = 0 -> demo_texts !! Z.to_nat j <> Some (str "Hello World"))
  | None => forall j, 0 <= j -> j mod (1 + 1) = 0 -> demo_texts !! Z.to_nat j <> Some (str "Hello World")
  end.
Proof. apply (ziplistFind_first demo_blob demo_texts (str "Hello World") 1 demo_repr); [vm_compute; reflexivity..|lia]. Defined.

(** When the second ziplist is empty, [ziplistMerge] leaves the tail offset on
    the end marker: the merged ziplist still holds the elements of the first one,
    but the last of them is no longer found from the back and cannot be deleted
    from there. *)
Theorem ziplistMerge_empty_breaks_tail junk z1 z2 ss : repr z1 ss -> ss <> [] -> repr z2 [] -> max_bytes ss < 2 ^ 32 ->
  exists m kept, ziplistMerge junk (Some z1) (Some z2) false = Ok (Some (m, kept)) /\
    entry_text m ZIPLIST_ENTRY_HEAD = Ok (head ss) /\ ziplistIndex m (-1) = Ok None /\ apply_op junk m (DeleteAt (-1)) = Ok m.
Proof.
  intros H1 Hne H2 HW. destruct (merge_empty_ok junk z1 z2 ss H1 Hne H2 HW) as (es & lf & kept & -> & Hc & Ev).
  set (m := blob _ _ _). exists m, kept. split; [done|]. pose proof (repr_size _ _ Hc Ev). pose proof (size_nonneg _ _ Hc).
  assert (ziplistIndex m (-1) = Ok None) as Ei.
  { unfold ziplistIndex. change (-1 <? 0) with true. cbv iota. unfold ZIPLIST_ENTRY_TAIL, m. rewrite tail_blob by (unfold in_u; lia). cbn [mbind res_bind].
    pose proof Hc as Hc'. rewrite <- (app_nil_r es) in Hc'. destruct (peek_blob (10 + size es) lf es [] Hc') as (c & E & E'). rewrite app_nil_r in E.
    rewrite E. cbn [mbind res_bind]. rewrite E'. cbn [negb mbind res_bind]. rewrite E. cbn [mbind res_bind]. by rewrite E'. }
  split_and!; [|done|cbn [apply_op]; by rewrite Ei].
  destruct es as [|e es]; [by destruct ss|]. destruct ss as [|s ss]; [done|]. injection Ev as Ee _.
  pose proof (entry_text_ok (10 + size (e :: es)) lf [] e es Hc) as E. change (10 + size []) with ZIPLIST_ENTRY_HEAD in E. cbn [app] in E.
  unfold m. rewrite E, Ee, text_val_of. done.
Qed.

Lemma ziplistMerge_empty_breaks_tail_witness :
  exists m kept, ziplistMerge (fun _ => 0) (Some demo_blob) (Some empty_blob) false = Ok (Some (m, kept)) /\
    entry_text m ZIPLIST_ENTRY_HEAD = Ok (Some (str "2")) /\ ziplistIndex m (-1) = Ok None /\ apply_op (fun _ => 0) m (DeleteAt (-1)) = Ok m.
Proof.
  apply (ziplistMerge_empty_breaks_tail (fun _ => 0) demo_blob empty_blob demo_texts demo_repr); [discriminate|apply empty_repr|vm_compute; reflexivity].
Defined.
End ZiplistApi.
