(* ===== verification/Skiplist.v ===== *)
(** * Sorted set skiplists: src/redis-stable/src/t_zset.c

    The skiplist API of sorted sets over a shared heap of nodes. A pointer is an
    [option loc] with [None] for NULL; following a NULL or freed pointer and
    reading an array slot that was never written are faults. Levels are counted
    from 0 with natural numbers, spans and ranks are kept at the width of their C
    types. This file holds the code; [SkiplistOps] verifies it. *)
From stdpp Require Import gmap.
From S2P Require Import Prelude Sds.

Module Skiplist.

Abbreviation loc := positive.
Abbreviation ptr := (option positive).

(** ** Doubles *)

(** The [double]s as the comparisons see them: a finite one is a multiple of
    2^-1074, the two zeros are the same number. *)
Inductive double := NaN | MInf | Fin (n : Z) | PInf.

Definition isnan (d : double) : bool := match d with NaN => true | _ => false end.

Definition dlt (a b : double) : bool :=
  match a, b with
  | NaN, _ | _, NaN => false
  | MInf, MInf => false
  | MInf, _ => true
  | Fin _, MInf => false
  | Fin x, Fin y => x <? y
  | Fin _, PInf => true
  | PInf, _ => false
  end.

Definition deq (a b : double) : bool :=
  match a, b with
  | MInf, MInf | PInf, PInf => true
  | Fin x, Fin y => x =? y
  | _, _ => false
  end.

Definition dle (a b : double) : bool := dlt a b || deq a b.

(** ** Data *)

Definition ZSKIPLIST_MAXLEVEL : nat := 32.

Record zskiplistLevel := mk_level { forward : ptr; span : Z }.

(** [ele] is the content of the sds string, [None] in the header. *)
Record zskiplistNode := mk_node {
  ele : option (list Z); score : double; backward : ptr; levels : list zskiplistLevel }.

Record zskiplist := mk_zsl { header : loc; tail : ptr; length_ : Z; zlevel : nat }.

Record zrangespec := mk_range { rmin : double; rmax : double; minex : bool; maxex : bool }.

Abbreviation mem := (gmap loc zskiplistNode).

Definition with_tail (z : zskiplist) (t : ptr) : zskiplist := mk_zsl (header z) t (length_ z) (zlevel z).
Definition with_length (z : zskiplist) (n : Z) : zskiplist := mk_zsl (header z) (tail z) n (zlevel z).
Definition with_zlevel (z : zskiplist) (l : nat) : zskiplist := mk_zsl (header z) (tail z) (length_ z) l.

Definition load (m : mem) (p : ptr) : res zskiplistNode :=
  match p with
  | Some a => match m !! a with Some n => Ok n | None => Fault OutOfBounds end
  | None => Fault OutOfBounds
  end.

(** [p->level[i]], read and written *)
Definition get_level (m : mem) (p : ptr) (i : nat) : res zskiplistLevel :=
  n ← load m p;
  match levels n !! i with Some lv => Ok lv | None => Fault OutOfBounds end.

Definition set_level (m : mem) (p : ptr) (i : nat) (lv : zskiplistLevel) : res mem :=
  n ← load m p;
  _ ← get_level m p i;
  match p with
  | Some a => Ok (<[a := mk_node (ele n) (score n) (backward n) (<[i := lv]> (levels n))]> m)
  | None => Fault OutOfBounds
  end.

Definition set_forward (m : mem) (p : ptr) (i : nat) (f : ptr) : res mem :=
  lv ← get_level m p i; set_level m p i (mk_level f (span lv)).
Definition set_span (m : mem) (p : ptr) (i : nat) (s : Z) : res mem :=
  lv ← get_level m p i; set_level m p i (mk_level (forward lv) s).

Definition set_backward (m : mem) (p : ptr) (b : ptr) : res mem :=
  n ← load m p;
  match p with
  | Some a => Ok (<[a := mk_node (ele n) (score n) b (levels n)]> m)
  | None => Fault OutOfBounds
  end.

(** A slot of a local array, [None] before it is written. *)
Definition slot {A} (l : list (option A)) (i : nat) : res A :=
  match l !! i with Some (Some x) => Ok x | _ => Fault OutOfBounds end.

Definition ptr_eqb (p q : ptr) : bool := bool_decide (p = q).

(** [Sds.sdscmp] of two strings with these contents ([Sds.sdscmp_contents]). *)
Abbreviation ele_cmp := Sds.contents_cmp.

Section Code.
(** The contents of a fresh node's uninitialised fields. *)
Context (junk_level : zskiplistLevel) (junk_ptr : ptr).

(** ** Creation *)

Definition zslCreateNode (m : mem) (level : nat) (sc : double) (e : option (list Z)) : mem * loc :=
  let a := fresh (dom m) in
  (<[a := mk_node e sc junk_ptr (replicate level junk_level)]> m, a).

Fixpoint create_loop (js : list nat) (m : mem) (h : ptr) : res mem :=
  match js with
  | [] => Ok m
  | j :: js =>
    m ← set_forward m h j None;
    m ← set_span m h j 0;
    create_loop js m h
  end.

Definition zslCreate (m : mem) : res (mem * zskiplist) :=
  let '(m, h) := zslCreateNode m ZSKIPLIST_MAXLEVEL (Fin 0) None in
  m ← create_loop (seq 0 ZSKIPLIST_MAXLEVEL) m (Some h);
  m ← set_backward m (Some h) None;
  Ok (m, mk_zsl h None 0 1).

Definition zslFreeNode (m : mem) (node : ptr) : res mem :=
  _ ← load m node;
  match node with Some a => Ok (delete a m) | None => Fault OutOfBounds end.

Fixpoint free_loop (fuel : nat) (m : mem) (node : ptr) : res mem :=
  match fuel with
  | O => Fault OutOfFuel
  | S fuel =>
    match node with
    | None => Ok m
    | Some _ =>
      lv ← get_level m node 0;
      m ← zslFreeNode m node;
      free_loop fuel m (forward lv)
    end
  end.

Definition zslFree (m : mem) (z : zskiplist) : res mem :=
  lv ← get_level m (Some (header z)) 0;
  m ← zslFreeNode m (Some (header z));
  free_loop (S (size m)) m (forward lv).

(** ** Levels *)

(** [draws] are the results of the calls of [random()]; the bound is
    [ZSKIPLIST_P * 0xFFFF], the double 16383.75. *)
Fixpoint random_loop (draws : list Z) (level : nat) : res nat :=
  match draws with
  | [] => Fault OutOfFuel
  | r :: draws => if Z.land r 0xFFFF * 100 <? 1638375 then random_loop draws (level + 1) else Ok level
  end.

Definition zslRandomLevel (draws : list Z) : res nat :=
  level ← random_loop draws 1;
  Ok (if (level <? ZSKIPLIST_MAXLEVEL)%nat then level else ZSKIPLIST_MAXLEVEL).

(** ** Search *)

Definition cmp_ele (n : zskiplistNode) (e : list Z) : res Z :=
  match ele n with Some s => Ok (ele_cmp s e) | None => Fault OutOfBounds end.

(** [n->score < score || (n->score == score && sdscmp(n->ele,ele) < 0)] *)
Definition before (sc : double) (e : list Z) (n : zskiplistNode) (_ _ : Z) : res bool :=
  if dlt (score n) sc then Ok true
  else if deq (score n) sc then c ← cmp_ele n e; Ok (c <? 0)
  else Ok false.

(** The inner [while] loops: follow level [i] as long as [cond] holds of the next
    node, its distance and the count so far, which is kept in [w] bits. *)
Fixpoint zsl_advance (fuel : nat) (w : Z) (cond : zskiplistNode -> Z -> Z -> res bool)
    (m : mem) (i : nat) (x : ptr) (count : Z) : res (ptr * Z) :=
  match fuel with
  | O => Fault OutOfFuel
  | S fuel =>
    lv ← get_level m x i;
    match forward lv with
    | None => Ok (x, count)
    | Some f =>
      n ← load m (Some f);
      c ← cond n (span lv) count;
      if c : bool then zsl_advance fuel w cond m i (Some f) (uwrap w (count + span lv))
      else Ok (x, count)
    end
  end.

(** The descents [for (i = zsl->level-1; i >= 0; i--)], [n] levels to go: the
    last node and count, and [update]. *)
Fixpoint descend (n fuel : nat) (w : Z) (cond : zskiplistNode -> Z -> Z -> res bool)
    (m : mem) (x : ptr) (count : Z) (update : list (option ptr)) : res (ptr * Z * list (option ptr)) :=
  match n with
  | O => Ok (x, count, update)
  | S i =>
    '(x, count) ← zsl_advance fuel w cond m i x count;
    descend i fuel w cond m x count (<[i := Some x]> update)
  end.

(** The descent of [zslInsert], which also records [rank]. *)
Fixpoint insert_descend (n fuel : nat) (top : nat) (cond : zskiplistNode -> Z -> Z -> res bool)
    (m : mem) (x : ptr) (rank : list (option Z)) (update : list (option ptr))
    : res (list (option Z) * list (option ptr)) :=
  match n with
  | O => Ok (rank, update)
  | S i =>
    r ← (if (i =? top - 1)%nat then Ok 0 else slot rank (i + 1));
    '(x, r) ← zsl_advance fuel 32 cond m i x r;
    insert_descend i fuel top cond m x (<[i := Some r]> rank) (<[i := Some x]> update)
  end.

Definition fuel_of (z : zskiplist) : nat := S (Z.to_nat (length_ z)).

(** ** Insertion *)

(** [for (i = zsl->level; i < level; i++)] *)
Fixpoint raise_loop (is_ : list nat) (m : mem) (z : zskiplist) (rank : list (option Z))
    (update : list (option ptr)) : res (mem * list (option Z) * list (option ptr)) :=
  match is_ with
  | [] => Ok (m, rank, update)
  | i :: is_ =>
    m ← set_span m (Some (header z)) i (u32 (length_ z));
    raise_loop is_ m z (<[i := Some 0]> rank) (<[i := Some (Some (header z))]> update)
  end.

(** [for (i = 0; i < level; i++)] *)
Fixpoint link_loop (is_ : list nat) (m : mem) (x : ptr) (rank : list (option Z))
    (update : list (option ptr)) : res mem :=
  match is_ with
  | [] => Ok m
  | i :: is_ =>
    u ← slot update i;
    lv ← get_level m u i;
    m ← set_forward m x i (forward lv);
    m ← set_forward m u i x;
    r0 ← slot rank 0;
    ri ← slot rank i;
    m ← set_span m x i (u32 (span lv - u32 (r0 - ri)));
    m ← set_span m u i (u32 (u32 (r0 - ri) + 1));
    link_loop is_ m x rank update
  end.

(** [for (i = level; i < zsl->level; i++)] *)
Fixpoint stretch_loop (is_ : list nat) (m : mem) (update : list (option ptr)) : res mem :=
  match is_ with
  | [] => Ok m
  | i :: is_ =>
    u ← slot update i;
    lv ← get_level m u i;
    m ← set_span m u i (u32 (span lv + 1));
    stretch_loop is_ m update
  end.

Definition zslInsert (draws : list Z) (m : mem) (z : zskiplist) (sc : double) (e : list Z)
    : res (mem * zskiplist * ptr) :=
  _ ← assert_ (negb (isnan sc));
  '(rank, update) ← insert_descend (zlevel z) (fuel_of z) (zlevel z) (before sc e) m (Some (header z))
                      (replicate ZSKIPLIST_MAXLEVEL None) (replicate ZSKIPLIST_MAXLEVEL None);
  level ← zslRandomLevel draws;
  '(m, rank, update, z) ← (if (zlevel z <? level)%nat then
      '(m, rank, update) ← raise_loop (seq (zlevel z) (level - zlevel z)) m z rank update;
      Ok (m, rank, update, with_zlevel z level)
    else Ok (m, rank, update, z));
  let '(m, a) := zslCreateNode m level sc (Some e) in
  let x := Some a in
  m ← link_loop (seq 0 level) m x rank update;
  m ← stretch_loop (seq level (zlevel z - level)) m update;
  u0 ← slot update 0;
  m ← set_backward m x (if ptr_eqb u0 (Some (header z)) then None else u0);
  lv ← get_level m x 0;
  '(m, z) ← (match forward lv with
     | Some _ => m ← set_backward m (forward lv) x; Ok (m, z)
     | None => Ok (m, with_tail z x)
     end);
  Ok (m, with_length z (u64 (length_ z + 1)), x).

(** ** Deletion *)

(** [for (i = 0; i < zsl->level; i++)] *)
Fixpoint unlink_loop (is_ : list nat) (m : mem) (x : ptr) (update : list (option ptr)) : res mem :=
  match is_ with
  | [] => Ok m
  | i :: is_ =>
    u ← slot update i;
    lu ← get_level m u i;
    m ← (if ptr_eqb (forward lu) x then
           lx ← get_level m x i;
           m ← set_span m u i (u32 (span lu + u32 (span lx - 1)));
           set_forward m u i (forward lx)
         else set_span m u i (u32 (span lu - 1)));
    unlink_loop is_ m x update
  end.

(** [while(zsl->level > 1 && zsl->header->level[zsl->level-1].forward == NULL)] *)
Fixpoint lower_loop (fuel : nat) (m : mem) (h : ptr) (level : nat) : res nat :=
  match fuel with
  | O => Fault OutOfFuel
  | S fuel =>
    if (1 <? level)%nat then
      lv ← get_level m h (level - 1);
      if ptr_eqb (forward lv) None then lower_loop fuel m h (level - 1) else Ok level
    else Ok level
  end.

Definition zslDeleteNode (m : mem) (z : zskiplist) (x : ptr) (update : list (option ptr))
    : res (mem * zskiplist) :=
  m ← unlink_loop (seq 0 (zlevel z)) m x update;
  lv ← get_level m x 0;
  n ← load m x;
  '(m, z) ← (match forward lv with
     | Some _ => m ← set_backward m (forward lv) (backward n); Ok (m, z)
     | None => Ok (m, with_tail z (backward n))
     end);
  l ← lower_loop (zlevel z) m (Some (header z)) (zlevel z);
  Ok (m, with_length (with_zlevel z l) (u64 (length_ z - 1))).

(** With [keep] the caller gets the unlinked node instead of having it freed. *)
Definition zslDelete (keep : bool) (m : mem) (z : zskiplist) (sc : double) (e : list Z)
    : res (mem * zskiplist * option ptr) :=
  '(x, _, update) ← descend (zlevel z) (fuel_of z) 64 (before sc e) m (Some (header z)) 0
                      (replicate ZSKIPLIST_MAXLEVEL None);
  lv ← get_level m x 0;
  let x := forward lv in
  match x with
  | None => Ok (m, z, None)
  | Some _ =>
    n ← load m x;
    found ← (if deq sc (score n) then c ← cmp_ele n e; Ok (c =? 0) else Ok false);
    if found : bool then
      '(m, z) ← zslDeleteNode m z x update;
      m ← (if keep then Ok m else zslFreeNode m x);
      Ok (m, z, Some x)
    else Ok (m, z, None)
  end.

(** ** Ranges by score *)

Definition zslValueGteMin (value : double) (spec : zrangespec) : bool :=
  if minex spec then dlt (rmin spec) value else dle (rmin spec) value.
Definition zslValueLteMax (value : double) (spec : zrangespec) : bool :=
  if maxex spec then dlt value (rmax spec) else dle value (rmax spec).

Definition zslIsInRange (m : mem) (z : zskiplist) (range : zrangespec) : res bool :=
  if dlt (rmax range) (rmin range) || (deq (rmin range) (rmax range) && (minex range || maxex range))
  then Ok false else
  match tail z with
  | None => Ok false
  | Some _ =>
    nt ← load m (tail z);
    if negb (zslValueGteMin (score nt) range) then Ok false else
    lv ← get_level m (Some (header z)) 0;
    match forward lv with
    | None => Ok false
    | Some _ => nf ← load m (forward lv); Ok (zslValueLteMax (score nf) range)
    end
  end.

(** The descents that keep only the node. *)
Fixpoint seek (n fuel : nat) (cond : zskiplistNode -> Z -> Z -> res bool) (m : mem) (x : ptr) : res ptr :=
  match n with
  | O => Ok x
  | S i => '(x, _) ← zsl_advance fuel 64 cond m i x 0; seek i fuel cond m x
  end.

Definition zslFirstInRange (m : mem) (z : zskiplist) (range : zrangespec) : res ptr :=
  inr ← zslIsInRange m z range;
  if negb inr then Ok None else
  x ← seek (zlevel z) (fuel_of z) (fun n _ _ => Ok (negb (zslValueGteMin (score n) range))) m (Some (header z));
  lv ← get_level m x 0;
  let x := forward lv in
  _ ← assert_ (negb (ptr_eqb x None));
  n ← load m x;
  Ok (if negb (zslValueLteMax (score n) range) then None else x).

Definition zslLastInRange (m : mem) (z : zskiplist) (range : zrangespec) : res ptr :=
  inr ← zslIsInRange m z range;
  if negb inr then Ok None else
  x ← seek (zlevel z) (fuel_of z) (fun n _ _ => Ok (zslValueLteMax (score n) range)) m (Some (header z));
  _ ← assert_ (negb (ptr_eqb x None));
  n ← load m x;
  Ok (if negb (zslValueGteMin (score n) range) then None else x).

(** The deletion loops: unlink, delete from the dictionary, free. [gone] logs the
    elements passed to [dictDelete]. *)
Fixpoint delete_run (fuel : nat) (inside : zskiplistNode -> Z -> res bool) (m : mem) (z : zskiplist) (x : ptr)
    (update : list (option ptr)) (traversed removed : Z) (gone : list (option (list Z)))
    : res (mem * zskiplist * Z * list (option (list Z))) :=
  match fuel with
  | O => Fault OutOfFuel
  | S fuel =>
    match x with
    | None => Ok (m, z, removed, gone)
    | Some _ =>
      n ← load m x;
      c ← inside n traversed;
      if c : bool then
        lv ← get_level m x 0;
        let next := forward lv in
        '(m, z) ← zslDeleteNode m z x update;
        m ← zslFreeNode m x;
        delete_run fuel inside m z next update (u64 (traversed + 1)) (u64 (removed + 1)) (gone ++ [ele n])
      else Ok (m, z, removed, gone)
    end
  end.

Definition zslDeleteRangeByScore (m : mem) (z : zskiplist) (range : zrangespec)
    : res (mem * zskiplist * Z * list (option (list Z))) :=
  '(x, _, update) ← descend (zlevel z) (fuel_of z) 64
      (fun n _ _ => Ok (if minex range then dle (score n) (rmin range) else dlt (score n) (rmin range)))
      m (Some (header z)) 0 (replicate ZSKIPLIST_MAXLEVEL None);
  lv ← get_level m x 0;
  delete_run (fuel_of z) (fun n _ => Ok (if maxex range then dlt (score n) (rmax range) else dle (score n) (rmax range)))
    m z (forward lv) update 0 0 [].

(** [start] and [end_] are 1-based [unsigned int]s. *)
Definition zslDeleteRangeByRank (m : mem) (z : zskiplist) (start end_ : Z)
    : res (mem * zskiplist * Z * list (option (list Z))) :=
  '(x, traversed, update) ← descend (zlevel z) (fuel_of z) 64
      (fun _ sp traversed => Ok (u64 (traversed + sp) <? start))
      m (Some (header z)) 0 (replicate ZSKIPLIST_MAXLEVEL None);
  let traversed := u64 (traversed + 1) in
  lv ← get_level m x 0;
  delete_run (fuel_of z) (fun _ traversed => Ok (traversed <=? end_)) m z (forward lv) update traversed 0 [].

(** ** Lexicographic ranges *)

(** An end of a range: one of the two shared strings, told apart by their
    addresses, or a string of its own. *)
Inductive lexbound := MinString | MaxString | Str (s : list Z).

Record zlexrangespec := mk_lexrange { lmin : lexbound; lmax : lexbound; lminex : bool; lmaxex : bool }.

Definition bound_text (b : lexbound) : list Z :=
  match b with MinString => str "minstring" | MaxString => str "maxstring" | Str s => s end.

(** [None] is [C_ERR]. *)
Definition zslParseLexRangeItem (c : list Z) : res (option (lexbound * bool)) :=
  c0 ← cpeek c 0;
  if c0 =? chr "+" then c1 ← cpeek c 1; Ok (if negb (c1 =? 0) then None else Some (MaxString, false))
  else if c0 =? chr "-" then c1 ← cpeek c 1; Ok (if negb (c1 =? 0) then None else Some (MinString, false))
  else if c0 =? chr "(" then s ← rd c 1 (zlen c - 1); Ok (Some (Str s, true))
  else if c0 =? chr "[" then s ← rd c 1 (zlen c - 1); Ok (Some (Str s, false))
  else Ok None.

(** [sdscmplex]; two bounds with a string of their own are distinct objects. *)
Definition sdscmplex (a b : lexbound) : Z :=
  match a, b with
  | MinString, MinString | MaxString, MaxString => 0
  | MinString, _ | _, MaxString => -1
  | MaxString, _ | _, MinString => 1
  | Str x, Str y => ele_cmp x y
  end.

Definition zslLexValueGteMin (value : list Z) (spec : zlexrangespec) : bool :=
  if lminex spec then 0 <? sdscmplex (Str value) (lmin spec) else 0 <=? sdscmplex (Str value) (lmin spec).
Definition zslLexValueLteMax (value : list Z) (spec : zlexrangespec) : bool :=
  if lmaxex spec then sdscmplex (Str value) (lmax spec) <? 0 else sdscmplex (Str value) (lmax spec) <=? 0.

(** The header has no element: a bound is never compared with it. *)
Definition on_ele (n : zskiplistNode) (f : list Z -> bool) : res bool :=
  match ele n with Some s => Ok (f s) | None => Fault OutOfBounds end.

Definition zslIsInLexRange (m : mem) (z : zskiplist) (range : zlexrangespec) : res bool :=
  if (1 <? sdscmplex (lmin range) (lmax range)) ||
     ((ele_cmp (bound_text (lmin range)) (bound_text (lmax range)) =? 0) && (lminex range || lmaxex range))
  then Ok false else
  match tail z with
  | None => Ok false
  | Some _ =>
    nt ← load m (tail z);
    gte ← on_ele nt (fun s => zslLexValueGteMin s range);
    if negb gte then Ok false else
    lv ← get_level m (Some (header z)) 0;
    match forward lv with
    | None => Ok false
    | Some _ => nf ← load m (forward lv); on_ele nf (fun s => zslLexValueLteMax s range)
    end
  end.

Definition zslFirstInLexRange (m : mem) (z : zskiplist) (range : zlexrangespec) : res ptr :=
  inr ← zslIsInLexRange m z range;
  if negb inr then Ok None else
  x ← seek (zlevel z) (fuel_of z) (fun n _ _ => on_ele n (fun s => negb (zslLexValueGteMin s range))) m (Some (header z));
  lv ← get_level m x 0;
  let x := forward lv in
  _ ← assert_ (negb (ptr_eqb x None));
  n ← load m x;
  lte ← on_ele n (fun s => zslLexValueLteMax s range);
  Ok (if negb lte then None else x).

Definition zslLastInLexRange (m : mem) (z : zskiplist) (range : zlexrangespec) : res ptr :=
  inr ← zslIsInLexRange m z range;
  if negb inr then Ok None else
  x ← seek (zlevel z) (fuel_of z) (fun n _ _ => on_ele n (fun s => zslLexValueLteMax s range)) m (Some (header z));
  _ ← assert_ (negb (ptr_eqb x None));
  n ← load m x;
  gte ← on_ele n (fun s => zslLexValueGteMin s range);
  Ok (if negb gte then None else x).

Definition zslDeleteRangeByLex (m : mem) (z : zskiplist) (range : zlexrangespec)
    : res (mem * zskiplist * Z * list (option (list Z))) :=
  '(x, _, update) ← descend (zlevel z) (fuel_of z) 64 (fun n _ _ => on_ele n (fun s => negb (zslLexValueGteMin s range)))
      m (Some (header z)) 0 (replicate ZSKIPLIST_MAXLEVEL None);
  lv ← get_level m x 0;
  delete_run (fuel_of z) (fun n _ => on_ele n (fun s => zslLexValueLteMax s range)) m z (forward lv) update 0 0 [].

(** ** Ranks *)

Fixpoint rank_descend (n fuel : nat) (m : mem) (sc : double) (e : list Z) (x : ptr) (rank : Z) : res Z :=
  match n with
  | O => Ok 0
  | S i =>
    '(x, rank) ← zsl_advance fuel 64 (fun n _ _ =>
        if dlt (score n) sc then Ok true
        else if deq (score n) sc then c ← cmp_ele n e; Ok (c <=? 0)
        else Ok false) m i x rank;
    nx ← load m x;
    match ele nx with
    | Some s => if ele_cmp s e =? 0 then Ok rank else rank_descend i fuel m sc e x rank
    | None => rank_descend i fuel m sc e x rank
    end
  end.

Definition zslGetRank (m : mem) (z : zskiplist) (sc : double) (e : list Z) : res Z :=
  rank_descend (zlevel z) (fuel_of z) m sc e (Some (header z)) 0.

Fixpoint byrank_descend (n fuel : nat) (m : mem) (rank : Z) (x : ptr) (traversed : Z) : res ptr :=
  match n with
  | O => Ok None
  | S i =>
    '(x, traversed) ← zsl_advance fuel 64 (fun _ sp traversed => Ok (u64 (traversed + sp) <=? rank)) m i x traversed;
    if traversed =? rank then Ok x else byrank_descend i fuel m rank x traversed
  end.

Definition zslGetElementByRank (m : mem) (z : zskiplist) (rank : Z) : res ptr :=
  byrank_descend (zlevel z) (fuel_of z) m rank (Some (header z)) 0.
End Code.

End Skiplist.
