(* ===== verification/SkiplistOps.v ===== *)
(** * The skiplist operations: src/redis-stable/src/t_zset.c

    The representation of a list of nodes: every level links the nodes that reach
    it, with spans that count the nodes skipped. The descents, and the loops that
    change one level after the other, are verified against it. *)
From stdpp Require Import gmap.
From S2P Require Import Prelude Skiplist.

Module SkiplistOps.
Export Skiplist.

(** ** Views of the heap *)

Definition lev (m : mem) (p : loc) (i : nat) : option zskiplistLevel := n ← m !! p; levels n !! i.
Definition back (m : mem) (p : loc) : option ptr := backward <$> m !! p.
(** Element, score and height of a node. *)
Definition data (m : mem) (p : loc) : option (option (list Z) * double * nat) :=
  (fun n => (ele n, score n, length (levels n))) <$> m !! p.

Definition upd {A} (f : loc -> nat -> option A) (p : loc) (i : nat) (v : A) (q : loc) (j : nat) : option A :=
  if decide (q = p /\ j = i) then Some v else f q j.

Lemma upd_same {A} (f : loc -> nat -> option A) p i v : upd f p i v p i = Some v.
Proof. unfold upd. by rewrite decide_True. Qed.
Lemma upd_level {A} (f : loc -> nat -> option A) p i v q j : j <> i -> upd f p i v q j = f q j.
Proof. intros. unfold upd. rewrite decide_False by tauto. done. Qed.
Lemma upd_node {A} (f : loc -> nat -> option A) p i v q j : q <> p -> upd f p i v q j = f q j.
Proof. intros. unfold upd. rewrite decide_False by tauto. done. Qed.

Lemma get_level_ok m p i lv : lev m p i = Some lv -> get_level m (Some p) i = Ok lv.
Proof. unfold lev, get_level, load. destruct (m !! p) as [n|]; [|done]. cbn. by intros ->. Qed.

Lemma load_data m p e sc h : data m p = Some (e, sc, h) ->
  exists n, load m (Some p) = Ok n /\ ele n = e /\ score n = sc /\ back m p = Some (backward n).
Proof. unfold data, load, back. destruct (m !! p) as [n|]; [|done]. cbn. intros [= <- <- <-]. by exists n. Qed.

(** What one write leaves of the views. *)
Record wrote (m m' : mem) (p : loc) (i : nat) (lv : zskiplistLevel) : Prop := mk_wrote {
  w_lev : forall q j, lev m' q j = upd (lev m) p i lv q j;
  w_back : forall q, back m' q = back m q;
  w_data : forall q, data m' q = data m q }.

Lemma set_level_ok m p i old lv : lev m p i = Some old ->
  exists m', set_level m (Some p) i lv = Ok m' /\ wrote m m' p i lv.
Proof.
  intros Hl. unfold set_level. rewrite (get_level_ok _ _ _ _ Hl). unfold lev in Hl. unfold load. destruct (m !! p) as [n|] eqn:E; [|done]. cbn in Hl.
  cbn [mbind res_bind]. eexists. split; [done|]. split.
  - intros q j. unfold lev, upd. destruct (decide (q = p)) as [->|Hq].
    + rewrite lookup_insert_eq. cbn. destruct (decide (j = i)) as [->|Hj].
      * rewrite decide_True by done. apply list_lookup_insert_eq. by eapply lookup_lt_Some.
      * rewrite decide_False by tauto. rewrite E. by apply list_lookup_insert_ne.
    + rewrite decide_False by tauto. by rewrite lookup_insert_ne.
  - intros q. unfold back. destruct (decide (q = p)) as [->|Hq]; [rewrite lookup_insert_eq, E; done|by rewrite lookup_insert_ne].
  - intros q. unfold data. destruct (decide (q = p)) as [->|Hq]; [rewrite lookup_insert_eq, E; cbn; by rewrite length_insert|by rewrite lookup_insert_ne].
Qed.

Lemma set_forward_ok m p i f s f' : lev m p i = Some (mk_level f s) ->
  exists m', set_forward m (Some p) i f' = Ok m' /\ wrote m m' p i (mk_level f' s).
Proof. intros Hl. unfold set_forward. rewrite (get_level_ok _ _ _ _ Hl). cbn [mbind res_bind span]. by eapply set_level_ok. Qed.

Lemma set_span_ok m p i f s s' : lev m p i = Some (mk_level f s) ->
  exists m', set_span m (Some p) i s' = Ok m' /\ wrote m m' p i (mk_level f s').
Proof. intros Hl. unfold set_span. rewrite (get_level_ok _ _ _ _ Hl). cbn [mbind res_bind forward]. by eapply set_level_ok. Qed.

(** Two writes to the same slot. *)
Lemma wrote_again m m1 m2 p i lv1 lv2 : wrote m m1 p i lv1 -> wrote m1 m2 p i lv2 -> wrote m m2 p i lv2.
Proof.
  intros [L1 B1 D1] [L2 B2 D2]. split; intros.
  - rewrite L2. unfold upd. rewrite L1. unfold upd. by destruct (decide (q = p /\ j = i)).
  - by rewrite B2.
  - by rewrite D2.
Qed.

Lemma set_backward_ok m p b0 b : back m p = Some b0 ->
  exists m', set_backward m (Some p) b = Ok m' /\ (forall q j, lev m' q j = lev m q j) /\ (forall q, data m' q = data m q) /\
    (forall q, back m' q = if decide (q = p) then Some b else back m q).
Proof.
  unfold back at 1, set_backward, load. destruct (m !! p) as [n|] eqn:E; [|done]. intros _. cbn [mbind res_bind]. eexists. split; [done|].
  split_and!; [intros q j; unfold lev|intros q; unfold data|intros q; unfold back];
    (destruct (decide (q = p)) as [->|Hq]; [rewrite lookup_insert_eq, ?E; done|by rewrite lookup_insert_ne]).
Qed.

(** ** Representation *)

Record item := mk_item { i_ptr : loc; i_h : nat; i_score : double; i_ele : list Z }.

(** Where level [i] leads from a position followed by [l], and how far. *)
Fixpoint next_at (i : nat) (l : list item) : zskiplistLevel :=
  match l with
  | [] => mk_level None 0
  | x :: l =>
    if (i <? i_h x)%nat then mk_level (Some (i_ptr x)) 1
    else mk_level (forward (next_at i l)) (span (next_at i l) + 1)
  end.

(** The nodes of [a], followed by [b], hold their level [i]. *)
Fixpoint links (m : mem) (i : nat) (a b : list item) : Prop :=
  match a with
  | [] => True
  | x :: a => ((i < i_h x)%nat -> lev m (i_ptr x) i = Some (next_at i (a ++ b))) /\ links m i a b
  end.

Fixpoint backs (m : mem) (prev : ptr) (l : list item) : Prop :=
  match l with [] => True | x :: l => back m (i_ptr x) = Some prev /\ backs m (Some (i_ptr x)) l end.

Definition last_ptr (d : ptr) (l : list item) : ptr := match list.last l with Some x => Some (i_ptr x) | None => d end.
(** The node in front of a position. *)
Definition at_ (z : zskiplist) (a : list item) : loc := match list.last a with Some x => i_ptr x | None => header z end.

Definition key (x : item) : double * list Z := (i_score x, i_ele x).

Record linked (m : mem) (z : zskiplist) (ns : list item) : Prop := mk_linked {
  lk_head : exists sc, data m (header z) = Some (None, sc, ZSKIPLIST_MAXLEVEL);
  lk_data : Forall (fun x => data m (i_ptr x) = Some (Some (i_ele x), i_score x, i_h x)) ns;
  lk_nodup : NoDup (header z :: map i_ptr ns);
  lk_height : Forall (fun x => 1 <= i_h x <= zlevel z)%nat ns;
  lk_level : (1 <= zlevel z <= ZSKIPLIST_MAXLEVEL)%nat;
  lk_links : forall i, (i < zlevel z)%nat -> lev m (header z) i = Some (next_at i ns) /\ links m i ns [];
  lk_high : forall i, (zlevel z <= i < ZSKIPLIST_MAXLEVEL)%nat -> exists s, lev m (header z) i = Some (mk_level None s);
  lk_back : backs m None ns;
  lk_tail : tail z = last_ptr None ns;
  lk_len : length_ z = zlen ns;
  lk_small : zlen ns < 2 ^ 32 }.

(** The number of levels is that of the highest node. *)
Definition topped (z : zskiplist) (ns : list item) : Prop := zlevel z = 1%nat \/ Exists (fun x => i_h x = zlevel z) ns.

(** ** Levels *)

Lemma level_eta lv : mk_level (forward lv) (span lv) = lv.
Proof. by destruct lv. Qed.

Lemma next_at_skip i l r : Forall (fun x => i_h x <= i)%nat l ->
  next_at i (l ++ r) = mk_level (forward (next_at i r)) (span (next_at i r) + zlen l).
Proof.
  induction 1 as [|x l Hx Hl IH]; cbn [app next_at].
  - change (zlen (@nil item)) with 0. rewrite Z.add_0_r. by destruct (next_at i r).
  - rewrite (proj2 (Nat.ltb_ge i (i_h x))) by done. rewrite IH. cbn. f_equal. rewrite zlen_cons. lia.
Qed.

Lemma next_at_stop i l y r : Forall (fun x => i_h x <= i)%nat l -> (i < i_h y)%nat ->
  next_at i (l ++ y :: r) = mk_level (Some (i_ptr y)) (zlen l + 1).
Proof. intros Hl Hy. rewrite next_at_skip by done. cbn [next_at]. rewrite (proj2 (Nat.ltb_lt i (i_h y))) by done. cbn. f_equal. lia. Qed.

(** Either no node of [l] reaches level [i], or there is a first one. *)
Lemma first_at i (l : list item) : Forall (fun x => i_h x <= i)%nat l \/
  exists c y d, l = c ++ y :: d /\ Forall (fun x => i_h x <= i)%nat c /\ (i < i_h y)%nat.
Proof.
  induction l as [|x l IH]; [left; constructor|]. destruct (Nat.lt_ge_cases i (i_h x)) as [Hx|Hx].
  { right. by exists [], x, l. }
  destruct IH as [IH|(c & y & d & -> & Hc & Hy)]; [left; by constructor|]. right. exists (x :: c), y, d. split_and!; [done|by constructor|done].
Qed.

(** The last node of [l] that reaches level [i]. *)
Lemma last_at i (l : list item) : exists a1 a2, l = a1 ++ a2 /\ Forall (fun x => i_h x <= i)%nat a2 /\
  (a1 = [] \/ exists a0 u, a1 = a0 ++ [u] /\ (i < i_h u)%nat).
Proof.
  induction l as [|x l IH] using rev_ind; [exists [], []; split_and!; [done|constructor|by left]|].
  destruct (Nat.lt_ge_cases i (i_h x)) as [Hx|Hx].
  - exists (l ++ [x]), []. rewrite app_nil_r. split_and!; [done|constructor|]. right. by exists l, x.
  - destruct IH as (a1 & a2 & -> & Ha2 & Ha1). exists a1, (a2 ++ [x]). rewrite app_assoc. split_and!; [done| |done].
    apply Forall_app. split; [done|by constructor].
Qed.

Lemma links_app m i a1 a2 b : links m i (a1 ++ a2) b <-> links m i a1 (a2 ++ b) /\ links m i a2 b.
Proof. induction a1 as [|x a1 IH]; cbn; [tauto|]. rewrite IH, <- app_assoc. tauto. Qed.

(** Behind a node that reaches level [i] the list may change. *)
Lemma next_at_cut i a u b c : (i < i_h u)%nat -> next_at i (a ++ u :: b) = next_at i (a ++ u :: c).
Proof.
  intros Hu. induction a as [|x a IH]; cbn [app next_at]; [by rewrite (proj2 (Nat.ltb_lt i (i_h u)))|]. by rewrite IH.
Qed.

Lemma links_cut m i a u b c : (i < i_h u)%nat -> links m i a (u :: b) -> links m i a (u :: c).
Proof.
  intros Hu. induction a as [|x a IH]; [done|]. cbn. intros [H1 H2]. split; [|by apply IH].
  intros Hi. rewrite (next_at_cut i a u c b Hu). by apply H1.
Qed.

Lemma links_frame m m' i a b : (forall x, x ∈ a -> lev m' (i_ptr x) i = lev m (i_ptr x) i) -> links m i a b -> links m' i a b.
Proof.
  induction a as [|x a IH]; [done|]. intros Hf [H1 H2]. cbn. split.
  - intros Hi. rewrite Hf by set_solver. by apply H1.
  - apply IH; [|done]. intros y Hy. apply Hf. set_solver.
Qed.

Lemma next_at_span i l : 0 <= span (next_at i l) <= zlen l.
Proof. induction l as [|x l IH]; cbn [next_at]; [done|]. rewrite zlen_cons. destruct (i <? i_h x)%nat; cbn; pose proof (zlen_nonneg l); lia. Qed.

(** ** Descents *)

(** [a1] ends in the last node of [a] that reaches level [i]. *)
Definition stop (i : nat) (a a1 a2 : list item) : Prop :=
  a = a1 ++ a2 /\ Forall (fun x => i_h x <= i)%nat a2 /\ (a1 = [] \/ exists a0 u, a1 = a0 ++ [u] /\ (i < i_h u)%nat).

Lemma at_snoc z a u : at_ z (a ++ [u]) = i_ptr u.
Proof. unfold at_. by rewrite last_snoc. Qed.

Lemma lev_at m z ns i a1 r : linked m z ns -> ns = a1 ++ r -> (i < zlevel z)%nat ->
  (a1 = [] \/ exists a0 u, a1 = a0 ++ [u] /\ (i < i_h u)%nat) -> lev m (at_ z a1) i = Some (next_at i r).
Proof.
  intros L E Hi. destruct (lk_links _ _ _ L i Hi) as [Hh Hl]. intros [->|(a0 & u & -> & Hu)]; [change (at_ z []) with (header z); by rewrite Hh, E|].
  rewrite at_snoc, E, links_app in *. destruct Hl as [Hl _]. apply links_app in Hl as [_ [Hl _]]. rewrite (Hl Hu), app_nil_r. done.
Qed.

(** The condition of a search, asked [k] positions after the start about the node
    behind [c], tells whether that node belongs to the first [n]. *)
Definition cond_ok (cond : zskiplistNode -> Z -> Z -> res bool) (ns : list item) (n : Z) : Prop :=
  forall c y d nd k, ns = c ++ y :: d -> ele nd = Some (i_ele y) -> score nd = i_score y -> 0 <= k <= zlen c ->
  cond nd (zlen c + 1 - k) k = Ok (bool_decide (zlen c < n)).

(** The same for searches that do not count. *)
Definition cond_ok0 (cond : zskiplistNode -> Z -> Z -> res bool) (ns : list item) (n : Z) : Prop :=
  forall c y d nd s k, ns = c ++ y :: d -> ele nd = Some (i_ele y) -> score nd = i_score y ->
  cond nd s k = Ok (bool_decide (zlen c < n)).

Lemma cond_ok_weaken cond ns n : cond_ok0 cond ns n -> cond_ok cond ns n.
Proof. intros H c y d nd k E1 E2 E3 _. by eapply H. Qed.

Lemma load_item m z ns y : linked m z ns -> y ∈ ns ->
  exists nd, load m (Some (i_ptr y)) = Ok nd /\ ele nd = Some (i_ele y) /\ score nd = i_score y /\ back m (i_ptr y) = Some (backward nd).
Proof. intros L Hy. pose proof (lk_data _ _ _ L) as Hd. rewrite list.Forall_forall in Hd.
  destruct (load_data m (i_ptr y) _ _ _ (Hd y Hy)) as (n & ? & ? & ? & ?). by exists n. Qed.

Lemma walk_ok m z ns i w cond a b : linked m z ns -> ns = a ++ b -> (i < zlevel z)%nat -> 32 <= w -> cond_ok cond ns (zlen a) ->
  forall a2 fuel a1, a = a1 ++ a2 -> (length a2 < fuel)%nat -> (a1 = [] \/ exists a0 u, a1 = a0 ++ [u] /\ (i < i_h u)%nat) ->
  exists a1' a2', stop i a a1' a2' /\ zsl_advance fuel w cond m i (Some (at_ z a1)) (zlen a1) = Ok (Some (at_ z a1'), zlen a1').
Proof.
  intros L Hns Hi Hw Hc a2. induction a2 as [a2 IH] using (induction_ltof1 _ (@length item)). unfold ltof in IH. intros [|fuel] a1 Ha Hf Hlast; [lia|].
  cbn [zsl_advance]. assert (ns = a1 ++ (a2 ++ b)) as Ens by (by rewrite Hns, Ha, <- app_assoc).
  rewrite (get_level_ok _ _ _ _ (lev_at m z ns i a1 (a2 ++ b) L Ens Hi Hlast)). cbn [mbind res_bind].
  pose proof (lk_small _ _ _ L) as Hs. rewrite Ens, !zlen_app in Hs. zlen_pos.
  assert (2 ^ 32 <= 2 ^ w) as Hpw by (apply Z.pow_le_mono_r; lia).
  destruct (first_at i a2) as [Hno|(c & y & d & -> & Hcl & Hy)].
  - exists a1, a2. assert (stop i a a1 a2) as Hst by done. rewrite (next_at_skip i a2 b Hno). cbn [forward span].
    destruct (first_at i b) as [Hnb|(c & y & d & Eb & Hcl & Hy)].
    + pose proof (next_at_skip i b [] Hnb) as En. rewrite app_nil_r in En. rewrite En. done.
    + pose proof (next_at_stop i c y d Hcl Hy) as En. rewrite Eb, En. cbn [forward span].
      destruct (load_item m z ns y L) as (nd & -> & E1 & E2 & _); [rewrite Ens, Eb, !elem_of_app; right; right; right; left|]. cbn [mbind res_bind].
      rewrite Eb in Hs. pose proof (Hc ((a1 ++ a2) ++ c) y d nd (zlen a1)) as X.
      replace (zlen ((a1 ++ a2) ++ c) + 1 - zlen a1) with (zlen c + 1 + zlen a2) in X by zl. rewrite X; [|by rewrite Ens, Eb, <- !app_assoc|done|done|zl].
      cbn [mbind res_bind]. rewrite bool_decide_eq_false_2 by (rewrite Ha; zl). done.
  - rewrite <- app_assoc. cbn [app]. rewrite (next_at_stop i c y _ Hcl Hy). cbn [forward span].
    destruct (load_item m z ns y L) as (nd & -> & E1 & E2 & _); [rewrite Ens, !elem_of_app; right; left; right; left|]. cbn [mbind res_bind].
    pose proof (Hc (a1 ++ c) y (d ++ b) nd (zlen a1)) as X.
    replace (zlen (a1 ++ c) + 1 - zlen a1) with (zlen c + 1) in X by zl. rewrite X; [|by rewrite Ens, <- !app_assoc|done|done|zl].
    cbn [mbind res_bind]. rewrite bool_decide_eq_true_2 by (rewrite Ha; zl).
    destruct (IH d ltac:(rewrite length_app; cbn; lia) fuel (a1 ++ c ++ [y])) as (a1' & a2' & Hst & E).
    + by rewrite Ha, <- !app_assoc.
    + rewrite length_app in Hf. cbn in Hf. lia.
    + right. exists (a1 ++ c), y. by rewrite <- app_assoc.
    + exists a1', a2'. split; [done|]. rewrite <- E. rewrite app_assoc at 1. rewrite at_snoc. f_equal.
      rewrite uwrap_id; [zl|]. unfold in_u. zl.
Qed.

(** The slots of [update] (and [rank]) that a descent has filled. *)
Definition filled (z : zskiplist) (a : list item) (update : list (option ptr)) (lo hi : nat) : Prop :=
  forall i, (lo <= i < hi)%nat -> exists a1 a2, stop i a a1 a2 /\ update !! i = Some (Some (Some (at_ z a1))).
Definition ranked (z : zskiplist) (a : list item) (rank : list (option Z)) (update : list (option ptr)) (lo hi : nat) : Prop :=
  forall i, (lo <= i < hi)%nat -> exists a1 a2, stop i a a1 a2 /\ update !! i = Some (Some (Some (at_ z a1))) /\ rank !! i = Some (Some (zlen a1)).

Lemma stop_lower i j a a1 a2 : stop i a a1 a2 -> (j <= i)%nat -> a1 = [] \/ exists a0 u, a1 = a0 ++ [u] /\ (j < i_h u)%nat.
Proof. intros (_ & _ & [->|(a0 & u & -> & Hu)]) Hj; [by left|]. right. exists a0, u. split; [done|lia]. Qed.

(** At the lowest level every node is reached. *)
Lemma stop_0 a a1 a2 : Forall (fun x => 1 <= i_h x)%nat a -> stop 0 a a1 a2 -> a1 = a.
Proof.
  intros Hh (-> & Ha2 & _). destruct a2 as [|y a2]; [by rewrite app_nil_r|]. apply Forall_app in Hh as [_ Hh].
  inversion Hh; inversion Ha2; subst. lia.
Qed.

Lemma descend_ok m z ns w cond a b : linked m z ns -> ns = a ++ b -> 32 <= w -> cond_ok cond ns (zlen a) ->
  forall n a1 a2 update, a = a1 ++ a2 -> (n <= zlevel z)%nat -> (a1 = [] \/ exists a0 u, a1 = a0 ++ [u] /\ (n <= i_h u)%nat) ->
  filled z a update n (zlevel z) -> length update = ZSKIPLIST_MAXLEVEL -> (n = 0%nat -> a1 = a) ->
  exists update', descend n (fuel_of z) w cond m (Some (at_ z a1)) (zlen a1) update = Ok (Some (at_ z a), zlen a, update') /\
    filled z a update' 0 (zlevel z) /\ length update' = ZSKIPLIST_MAXLEVEL.
Proof.
  intros L Hns Hw Hc n. induction n as [|n IH]; intros a1 a2 update Ha Hn Hlast Hf Hl H0; cbn [descend].
  { exists update. by rewrite (H0 eq_refl). }
  assert (a1 = [] \/ exists a0 u, a1 = a0 ++ [u] /\ (n < i_h u)%nat) as Hlast' by (destruct Hlast as [?|(a0 & u & ? & ?)]; [by left|right; exists a0, u; split; [done|lia]]).
  destruct (walk_ok m z ns n w cond a b L Hns ltac:(lia) Hw Hc a2 (fuel_of z) a1 Ha) as (a1' & a2' & Hst & E); [|done|].
  { unfold fuel_of. rewrite (lk_len _ _ _ L), Hns, Ha. unfold zlen. rewrite !length_app. lia. }
  rewrite E. cbn [mbind res_bind]. pose proof (lk_level _ _ _ L).
  apply (IH a1' a2'); [apply Hst|lia| | |by rewrite length_insert|].
  - destruct (stop_lower n n a a1' a2' Hst ltac:(lia)) as [?|(a0 & u & ? & ?)]; [by left|]. right. exists a0, u. split; [done|lia].
  - intros i Hi. destruct (decide (i = n)) as [->|Hne].
    + exists a1', a2'. split; [done|]. apply list_lookup_insert_eq. lia.
    + rewrite list_lookup_insert_ne by done. apply Hf. lia.
  - intros ->. eapply stop_0; [|done]. pose proof (lk_height _ _ _ L) as Hh. rewrite Hns in Hh. apply Forall_app in Hh as [Hh _].
    eapply list.Forall_impl; [exact Hh|]. cbn. lia.
Qed.

Lemma descend_top m z ns w cond a b : linked m z ns -> ns = a ++ b -> 32 <= w -> cond_ok cond ns (zlen a) ->
  exists update, descend (zlevel z) (fuel_of z) w cond m (Some (header z)) 0 (replicate ZSKIPLIST_MAXLEVEL None) =
    Ok (Some (at_ z a), zlen a, update) /\ filled z a update 0 (zlevel z) /\ length update = ZSKIPLIST_MAXLEVEL.
Proof.
  intros L Hns Hw Hc. pose proof (lk_level _ _ _ L).
  destruct (descend_ok m z ns w cond a b L Hns Hw Hc (zlevel z) [] a (replicate ZSKIPLIST_MAXLEVEL None)) as (u & E & ?); try done; [by left|intros i; lia|lia|].
  by exists u.
Qed.

(** ** One level of an insertion or deletion *)

Definition lev_is (m : mem) (z : zskiplist) (i : nat) (ns : list item) : Prop :=
  lev m (header z) i = Some (next_at i ns) /\ links m i ns [].

(** Nothing but level [i] differs. *)
Record level_change (m m' : mem) (i : nat) : Prop := mk_change {
  lc_lev : forall q j, j <> i -> lev m' q j = lev m q j;
  lc_back : forall q, back m' q = back m q;
  lc_data : forall q, data m' q = data m q }.

Lemma change_refl m i : level_change m m i.
Proof. done. Qed.

Lemma wrote_change m m1 m2 p i lv : level_change m m1 i -> wrote m1 m2 p i lv -> level_change m m2 i.
Proof.
  intros [C1 C2 C3] [W1 W2 W3]. split; intros; [rewrite W1, upd_level by done; by apply C1|by rewrite W2|by rewrite W3].
Qed.

Lemma lev_is_frame m m' z i ns : (forall q, lev m' q i = lev m q i) -> lev_is m z i ns -> lev_is m' z i ns.
Proof. intros Hf [H1 H2]. split; [by rewrite Hf|]. eapply links_frame; [|done]. intros. apply Hf. Qed.

Lemma links_vac m i a b : Forall (fun x => i_h x <= i)%nat a -> links m i a b.
Proof. induction 1 as [|x a Hx _ IH]; cbn; [done|]. split; [lia|done]. Qed.

Lemma at_in z a : at_ z a = header z \/ at_ z a ∈ map i_ptr a.
Proof.
  destruct a as [|u a0 _] using rev_ind; [by left|]. right. rewrite at_snoc, map_app. apply elem_of_app. right. by left.
Qed.

(** The two ways in which the last reaching node of [a] may change its level:
    everything in front of it stays as it is. *)
Lemma lev_is_update m m' z i a1 a2 r r' : stop i (a1 ++ a2) a1 a2 -> NoDup (header z :: map i_ptr (a1 ++ a2)) ->
  lev_is m z i ((a1 ++ a2) ++ r) ->
  lev m' (at_ z a1) i = Some (next_at i (a2 ++ r')) ->
  (forall q, q <> at_ z a1 -> q = header z \/ q ∈ map i_ptr (a1 ++ a2) -> lev m' q i = lev m q i) ->
  links m' i r' [] -> lev_is m' z i ((a1 ++ a2) ++ r').
Proof.
  intros (_ & Ha2 & Hlast) Hnd [Hh Hl] Hu Hf Hr. rewrite <- app_assoc in *. apply links_app in Hl as [Hl _].
  destruct Hlast as [->|(a0 & u & -> & Hiu)].
  - change (at_ z []) with (header z) in *. cbn [app] in *. split; [done|]. apply links_app. split; [by apply links_vac|done].
  - rewrite at_snoc in *. rewrite <- !app_assoc in *. cbn [app] in *.
    assert (i_ptr u <> header z /\ i_ptr u ∉ map i_ptr a0) as [Hn1 Hn2].
    { apply list.NoDup_cons in Hnd as [Hn Hnd]. rewrite map_app in Hn, Hnd. cbn [map] in *.
      split; [intros E; apply Hn, elem_of_app; right; rewrite E; by left|]. apply list.NoDup_app in Hnd as (_ & Hd & _).
      intros Hin. apply (Hd _ Hin). by left. }
    split.
    + rewrite Hf, Hh, (next_at_cut i a0 u _ (a2 ++ r') Hiu); [done|done|by left].
    + apply links_app in Hl as [Hl _]. rewrite app_nil_r in *. apply links_app. split; [|cbn [links]; split; [by rewrite app_nil_r|]].
      * apply (links_cut m' i a0 u (a2 ++ r) _ Hiu). apply (links_frame m); [|done]. intros y Hy. apply Hf; [|right].
        { intros E. apply Hn2. rewrite <- E. by apply list_elem_of_fmap_2. }
        { rewrite map_app. apply elem_of_app. left. by apply list_elem_of_fmap_2. }
      * apply links_app. split; [by apply links_vac|done].
Qed.

Lemma lev_is_at m z i a1 a2 r : stop i (a1 ++ a2) a1 a2 -> lev_is m z i ((a1 ++ a2) ++ r) -> lev m (at_ z a1) i = Some (next_at i (a2 ++ r)).
Proof.
  intros (_ & _ & Hlast) [Hh Hl]. rewrite <- app_assoc in *. destruct Hlast as [->|(a0 & u & -> & Hu)]; [done|].
  rewrite at_snoc. apply links_app in Hl as [Hl _]. apply links_app in Hl as [_ [Hl _]]. rewrite app_nil_r in Hl. by apply Hl.
Qed.

Lemma NoDup_prefix (h : loc) (a r : list item) : NoDup (h :: map i_ptr (a ++ r)) -> NoDup (h :: map i_ptr a).
Proof.
  intros Hd. rewrite map_app in Hd. change (h :: map i_ptr a ++ map i_ptr r) with ((h :: map i_ptr a) ++ map i_ptr r) in Hd.
  by apply list.NoDup_app in Hd as (Hd & _).
Qed.

(** [x] is not the header and not a node of [a] or [b]. *)
Record apart (z : zskiplist) (x : loc) (ns : list item) : Prop := mk_apart {
  ap_nodup : NoDup (header z :: map i_ptr ns);
  ap_head : x <> header z;
  ap_in : x ∉ map i_ptr ns }.

Lemma apart_at z x a r : apart z x (a ++ r) -> at_ z a <> x.
Proof.
  intros [_ Hh Hi] E. destruct (at_in z a) as [Ha|Ha]; [congruence|]. rewrite E in Ha. apply Hi. rewrite map_app. apply elem_of_app. by left.
Qed.

(** The node in front is not among those behind. *)
Lemma at_not_behind z a r : NoDup (header z :: map i_ptr (a ++ r)) -> at_ z a ∉ map i_ptr r.
Proof.
  intros Hd. rewrite map_app in Hd. change (header z :: map i_ptr a ++ map i_ptr r) with ((header z :: map i_ptr a) ++ map i_ptr r) in Hd.
  apply list.NoDup_app in Hd as (_ & Hd & _). apply Hd. destruct (at_in z a) as [->|Ha]; [by left|by right].
Qed.

Lemma links_other m m' i a b (Q : loc -> Prop) : (forall q, Q q -> lev m' q i = lev m q i) -> (forall y, y ∈ a -> Q (i_ptr y)) ->
  links m i a b -> links m' i a b.
Proof. intros Hf HQ. apply links_frame. intros y Hy. by apply Hf, HQ. Qed.

Lemma link_step m z i a1 a2 b x lx update rank is_ : stop i (a1 ++ a2) a1 a2 -> apart z (i_ptr x) ((a1 ++ a2) ++ b) -> (i < i_h x)%nat ->
  lev_is m z i ((a1 ++ a2) ++ b) -> lev m (i_ptr x) i = Some lx -> zlen ((a1 ++ a2) ++ b) + 1 < 2 ^ 32 ->
  update !! i = Some (Some (Some (at_ z a1))) -> rank !! i = Some (Some (zlen a1)) -> rank !! 0%nat = Some (Some (zlen (a1 ++ a2))) ->
  exists m', link_loop (i :: is_) m (Some (i_ptr x)) rank update = link_loop is_ m' (Some (i_ptr x)) rank update /\
    level_change m m' i /\ lev_is m' z i ((a1 ++ a2) ++ x :: b).
Proof.
  intros Hst Hap Hi Hl Hx Hs Eu Er E0. pose proof Hst as (_ & Ha2 & _). pose proof (lev_is_at _ _ _ _ _ _ Hst Hl) as Hu.
  rewrite next_at_skip in Hu by done. set (nb := next_at i b) in *. pose proof (next_at_span i b) as Hsp. fold nb in Hsp.
  assert (at_ z a1 <> i_ptr x) as Hne by (apply (apart_at z _ a1 (a2 ++ b)); by rewrite app_assoc). autorewrite with zlen in Hs. zlen_pos.
  assert (slot update i = Ok (Some (at_ z a1))) as Su by (unfold slot; by rewrite Eu). cbn [link_loop]. rewrite Su. cbn [mbind res_bind].
  rewrite (get_level_ok _ _ _ _ Hu). cbn [mbind res_bind forward span].
  destruct lx as [fx sx]. destruct (set_forward_ok m (i_ptr x) i fx sx (forward nb) Hx) as (m1 & -> & W1). cbn [mbind res_bind].
  destruct (set_forward_ok m1 (at_ z a1) i (forward nb) (span nb + zlen a2) (Some (i_ptr x))) as (m2 & -> & W2); [by rewrite (w_lev _ _ _ _ _ W1), upd_node|]. cbn [mbind res_bind].
  assert (slot rank 0 = Ok (zlen (a1 ++ a2)) /\ slot rank i = Ok (zlen a1)) as [-> S1] by (unfold slot; by rewrite E0, Er). cbn [mbind res_bind]. rewrite S1. cbn [mbind res_bind].
  replace (u32 (zlen (a1 ++ a2) - zlen a1)) with (zlen a2) by (rewrite uwrap_id; [zl|unfold in_u; zl]).
  replace (u32 (span nb + zlen a2 - zlen a2)) with (span nb) by (rewrite uwrap_id; [lia|unfold in_u; lia]).
  destruct (set_span_ok m2 (i_ptr x) i (forward nb) sx (span nb)) as (m3 & -> & W3).
  { by rewrite (w_lev _ _ _ _ _ W2), upd_node, (w_lev _ _ _ _ _ W1), upd_same. } cbn [mbind res_bind].
  destruct (set_span_ok m3 (at_ z a1) i (Some (i_ptr x)) (span nb + zlen a2) (u32 (zlen a2 + 1))) as (m4 & -> & W4).
  { by rewrite (w_lev _ _ _ _ _ W3), upd_node, (w_lev _ _ _ _ _ W2), upd_same. } cbn [mbind res_bind].
  rewrite uwrap_id in W4 by (unfold in_u; lia). exists m4. split; [done|].
  assert (level_change m m4 i) as Hch by (repeat (eapply wrote_change; [|eassumption]); apply change_refl). split; [done|].
  assert (forall q, q <> at_ z a1 -> q <> i_ptr x -> lev m4 q i = lev m q i) as Hf.
  { intros q Hq1 Hq2. by rewrite (w_lev _ _ _ _ _ W4), upd_node, (w_lev _ _ _ _ _ W3), upd_node, (w_lev _ _ _ _ _ W2), upd_node, (w_lev _ _ _ _ _ W1), upd_node. }
  pose proof (ap_nodup _ _ _ Hap) as Hnd.
  apply (lev_is_update m m4 z i a1 a2 b (x :: b)); [done|by eapply NoDup_prefix|done| | |].
  - rewrite (next_at_stop i a2 x b) by done. by rewrite (w_lev _ _ _ _ _ W4), upd_same.
  - intros q Hq1 Hq2. apply Hf; [done|]. intros ->. destruct Hq2 as [Hq2|Hq2]; [by apply (ap_head _ _ _ Hap)|].
    apply (ap_in _ _ _ Hap). rewrite map_app. apply elem_of_app. by left.
  - cbn [links]. rewrite app_nil_r. split.
    + intros _. rewrite (w_lev _ _ _ _ _ W4), upd_node by done. rewrite (w_lev _ _ _ _ _ W3), upd_same. by rewrite level_eta.
    + destruct Hl as [_ Hl]. apply links_app in Hl as [_ Hl]. eapply links_frame; [|exact Hl]. intros y Hy.
      assert (i_ptr y ∈ map i_ptr b) as Hy' by (by apply list_elem_of_fmap_2). apply Hf.
      * intros E. apply (at_not_behind z a1 (a2 ++ b)); [by rewrite app_assoc|]. rewrite <- E, map_app. apply elem_of_app. by right.
      * intros E. apply (ap_in _ _ _ Hap). rewrite <- E, map_app. apply elem_of_app. by right.
Qed.

(** A level that the new node does not reach. *)
Lemma stretch_step m z i a1 a2 b x update is_ : stop i (a1 ++ a2) a1 a2 -> NoDup (header z :: map i_ptr ((a1 ++ a2) ++ b)) -> (i_h x <= i)%nat ->
  lev_is m z i ((a1 ++ a2) ++ b) -> zlen ((a1 ++ a2) ++ b) + 1 < 2 ^ 32 -> update !! i = Some (Some (Some (at_ z a1))) ->
  exists m', stretch_loop (i :: is_) m update = stretch_loop is_ m' update /\ level_change m m' i /\ lev_is m' z i ((a1 ++ a2) ++ x :: b).
Proof.
  intros Hst Hnd Hi Hl Hs Eu. pose proof Hst as (_ & Ha2 & _). pose proof (lev_is_at _ _ _ _ _ _ Hst Hl) as Hu.
  pose proof (next_at_span i (a2 ++ b)) as Hsp. autorewrite with zlen in Hs, Hsp. zlen_pos. cbn [stretch_loop]. unfold slot. rewrite Eu. cbn [mbind res_bind].
  rewrite (get_level_ok _ _ _ _ Hu). cbn [mbind res_bind].
  rewrite (uwrap_id 32) by (unfold in_u; lia). destruct (set_span_ok m (at_ z a1) i (forward (next_at i (a2 ++ b))) (span (next_at i (a2 ++ b))) (span (next_at i (a2 ++ b)) + 1))
    as (m1 & -> & W1); [by destruct (next_at i (a2 ++ b))|]. cbn [mbind res_bind]. exists m1. split; [done|].
  split; [eapply wrote_change; [apply change_refl|done]|].
  apply (lev_is_update m m1 z i a1 a2 b (x :: b)); [done|by eapply NoDup_prefix|done| | |].
  - rewrite (w_lev _ _ _ _ _ W1), upd_same. f_equal. rewrite !next_at_skip by done. cbn [next_at]. rewrite (proj2 (Nat.ltb_ge i (i_h x))) by done.
    cbn. f_equal. lia.
  - intros q Hq _. by rewrite (w_lev _ _ _ _ _ W1), upd_node.
  - cbn [links]. split; [lia|]. destruct Hl as [_ Hl]. apply links_app in Hl as [_ Hl]. eapply links_frame; [|exact Hl]. intros y Hy.
    rewrite (w_lev _ _ _ _ _ W1), upd_node; [done|]. intros E. apply (at_not_behind z a1 (a2 ++ b)); [by rewrite app_assoc|].
    rewrite <- E, map_app. apply elem_of_app. right. by apply list_elem_of_fmap_2.
Qed.

Lemma forward_in i l p : forward (next_at i l) = Some p -> p ∈ map i_ptr l.
Proof.
  induction l as [|x l IH]; cbn [next_at map]; [done|]. destruct (i <? i_h x)%nat; cbn; [intros [= ->]; by left|]. intros H. right. by apply IH.
Qed.

Lemma unlink_step m z i a1 a2 b x update is_ : stop i (a1 ++ a2) a1 a2 -> apart z (i_ptr x) ((a1 ++ a2) ++ b) ->
  lev_is m z i ((a1 ++ a2) ++ x :: b) -> zlen ((a1 ++ a2) ++ x :: b) < 2 ^ 32 -> update !! i = Some (Some (Some (at_ z a1))) ->
  exists m', unlink_loop (i :: is_) m (Some (i_ptr x)) update = unlink_loop is_ m' (Some (i_ptr x)) update /\
    level_change m m' i /\ lev m' (i_ptr x) i = lev m (i_ptr x) i /\ lev_is m' z i ((a1 ++ a2) ++ b).
Proof.
  intros Hst Hap Hl Hs Eu. pose proof Hst as (_ & Ha2 & _). pose proof (lev_is_at _ _ _ _ _ _ Hst Hl) as Hu.
  pose proof (next_at_span i b) as Hsp. autorewrite with zlen in Hs. zlen_pos. cbn [unlink_loop].
  assert (slot update i = Ok (Some (at_ z a1))) as -> by (unfold slot; by rewrite Eu). cbn [mbind res_bind].
  rewrite (get_level_ok _ _ _ _ Hu). cbn [mbind res_bind].
  assert (at_ z a1 <> i_ptr x) as Hne by (apply (apart_at z _ a1 (a2 ++ b)); by rewrite app_assoc).
  enough (exists m', (if ptr_eqb (forward (next_at i (a2 ++ x :: b))) (Some (i_ptr x)) then
       lx ← get_level m (Some (i_ptr x)) i;
       m ← set_span m (Some (at_ z a1)) i (u32 (span (next_at i (a2 ++ x :: b)) + u32 (span lx - 1)));
       set_forward m (Some (at_ z a1)) i (forward lx)
     else set_span m (Some (at_ z a1)) i (u32 (span (next_at i (a2 ++ x :: b)) - 1))) = Ok m' /\ wrote m m' (at_ z a1) i (next_at i (a2 ++ b)))
    as (m' & -> & W).
  { cbn [mbind res_bind]. exists m'. split; [done|]. split; [eapply wrote_change; [apply change_refl|done]|].
    split; [by rewrite (w_lev _ _ _ _ _ W), upd_node|].
    apply (lev_is_update m m' z i a1 a2 (x :: b) b); [done|eapply NoDup_prefix, (ap_nodup _ _ _ Hap)|done| | |].
    - by rewrite (w_lev _ _ _ _ _ W), upd_same.
    - intros q Hq _. by rewrite (w_lev _ _ _ _ _ W), upd_node.
    - destruct Hl as [_ Hl]. apply links_app in Hl as [_ [_ Hl]]. eapply links_frame; [|exact Hl]. intros y Hy.
      rewrite (w_lev _ _ _ _ _ W), upd_node; [done|]. intros E. apply (at_not_behind z a1 (a2 ++ b)); [rewrite app_assoc; apply Hap|].
      rewrite <- E, map_app. apply elem_of_app. right. by apply list_elem_of_fmap_2. }
  destruct (Nat.lt_ge_cases i (i_h x)) as [Hi|Hi].
  - rewrite (next_at_stop i a2 x b) in * by done. cbn [forward span]. unfold ptr_eqb. rewrite bool_decide_eq_true_2 by done.
    assert (lev m (i_ptr x) i = Some (next_at i b)) as Hx.
    { destruct Hl as [_ Hl]. apply links_app in Hl as [_ [Hl _]]. rewrite app_nil_r in Hl. by apply Hl. }
    rewrite (get_level_ok _ _ _ _ Hx). cbn [mbind res_bind].
    assert (u32 (zlen a2 + 1 + u32 (span (next_at i b) - 1)) = span (next_at i b) + zlen a2) as ->.
    { unfold uwrap. rewrite Zplus_mod_idemp_r. replace (zlen a2 + 1 + (span (next_at i b) - 1)) with (span (next_at i b) + zlen a2) by lia. apply Z.mod_small. lia. }
    destruct (set_span_ok m (at_ z a1) i _ _ (span (next_at i b) + zlen a2) Hu) as (m1 & -> & W1). cbn [mbind res_bind].
    destruct (set_forward_ok m1 (at_ z a1) i (Some (i_ptr x)) (span (next_at i b) + zlen a2) (forward (next_at i b))) as (m2 & -> & W2);
      [by rewrite (w_lev _ _ _ _ _ W1), upd_same|]. exists m2. split; [done|]. rewrite (next_at_skip i a2 b Ha2). by eapply wrote_again.
  - assert (next_at i (a2 ++ x :: b) = mk_level (forward (next_at i b)) (span (next_at i b) + 1 + zlen a2)) as En.
    { rewrite (next_at_skip i a2 (x :: b) Ha2). cbn [next_at]. by rewrite (proj2 (Nat.ltb_ge i (i_h x))). }
    rewrite En in *. cbn [forward span]. unfold ptr_eqb. rewrite bool_decide_eq_false_2.
    2: { intros E. apply forward_in in E. apply (ap_in _ _ _ Hap). rewrite map_app. apply elem_of_app. by right. }
    rewrite (uwrap_id 32) by (unfold in_u; lia).
    destruct (set_span_ok m (at_ z a1) i _ _ (span (next_at i b) + 1 + zlen a2 - 1) Hu) as (m1 & -> & W1). exists m1. split; [done|].
    rewrite (next_at_skip i a2 b Ha2). by replace (span (next_at i b) + zlen a2) with (span (next_at i b) + 1 + zlen a2 - 1) by lia.
Qed.

(** ** The loops over the levels *)

Lemma change_lev_is m m' z i j ns : level_change m m' i -> j <> i -> lev_is m z j ns -> lev_is m' z j ns.
Proof. intros [C _ _] Hj. apply lev_is_frame. intros q. by apply C. Qed.

(** What a run of level changes below [hi] and from [lo] on leaves alone. *)
Record levels_change (m m' : mem) (lo hi : nat) : Prop := mk_changes {
  lcs_lev : forall q j, (j < lo \/ hi <= j)%nat -> lev m' q j = lev m q j;
  lcs_back : forall q, back m' q = back m q;
  lcs_data : forall q, data m' q = data m q }.

Lemma changes_cons m m1 m2 i hi : level_change m m1 i -> levels_change m1 m2 (S i) hi -> (i < hi)%nat -> levels_change m m2 i hi.
Proof.
  intros [A1 A2 A3] [B1 B2 B3] Hi. split; intros; [|by rewrite B2|by rewrite B3]. rewrite B1 by lia. apply A1. lia.
Qed.

Lemma link_loop_ok z a b x rank update L : apart z (i_ptr x) (a ++ b) -> ranked z a rank update 0 L -> (i_h x <= L)%nat -> (1 <= L)%nat ->
  Forall (fun y => 1 <= i_h y)%nat a -> zlen (a ++ b) + 1 < 2 ^ 32 ->
  forall n s m, (s + n = i_h x)%nat -> (forall i, (s <= i < i_h x)%nat -> lev_is m z i (a ++ b)) ->
  (forall i, (s <= i < i_h x)%nat -> exists lx, lev m (i_ptr x) i = Some lx) ->
  exists m', link_loop (seq s n) m (Some (i_ptr x)) rank update = Ok m' /\ levels_change m m' s (i_h x) /\
    forall i, (s <= i < i_h x)%nat -> lev_is m' z i (a ++ x :: b).
Proof.
  intros Hap Hrk HL HL1 Hh Hz n. induction n as [|n IH]; intros s m Hn Hold Hx; cbn [seq].
  { exists m. split; [done|]. split; [done|]. lia. }
  destruct (Hrk s ltac:(lia)) as (a1 & a2 & Hst & Eu & Er). destruct (Hrk 0%nat ltac:(lia)) as (a1' & a2' & Hst0 & _ & Er0).
  rewrite (stop_0 _ _ _ Hh Hst0) in Er0. destruct (Hx s ltac:(lia)) as (lx & Elx). pose proof Hst as (-> & _).
  destruct (link_step m z s a1 a2 b x lx update rank (seq (S s) n) Hst Hap ltac:(lia) (Hold s ltac:(lia)) Elx Hz Eu Er Er0) as (m1 & -> & Hch & Hnew).
  destruct (IH (S s) m1 ltac:(lia)) as (m2 & -> & Hchs & Hnews).
  - intros i Hi. apply (change_lev_is m m1 z s); [done|lia|apply Hold; lia].
  - intros i Hi. rewrite (lc_lev _ _ _ Hch) by lia. apply Hx. lia.
  - exists m2. split; [done|]. split; [eapply changes_cons; [done|done|lia]|]. intros i Hi. destruct (decide (i = s)) as [->|Hne]; [|apply Hnews; lia].
    eapply lev_is_frame; [|done]. intros q. apply (lcs_lev _ _ _ _ Hchs). lia.
Qed.

Lemma stretch_loop_ok z a b x rank update L : NoDup (header z :: map i_ptr (a ++ b)) -> ranked z a rank update 0 L ->
  zlen (a ++ b) + 1 < 2 ^ 32 ->
  forall n s m, (s + n = L)%nat -> (i_h x <= s)%nat -> (forall i, (s <= i < L)%nat -> lev_is m z i (a ++ b)) ->
  exists m', stretch_loop (seq s n) m update = Ok m' /\ levels_change m m' s L /\ forall i, (s <= i < L)%nat -> lev_is m' z i (a ++ x :: b).
Proof.
  intros Hnd Hrk Hz n. induction n as [|n IH]; intros s m Hn Hx Hold; cbn [seq].
  { exists m. split; [done|]. split; [done|]. lia. }
  destruct (Hrk s ltac:(lia)) as (a1 & a2 & Hst & Eu & _). pose proof Hst as (-> & _).
  destruct (stretch_step m z s a1 a2 b x update (seq (S s) n) Hst Hnd Hx (Hold s ltac:(lia)) Hz Eu) as (m1 & -> & Hch & Hnew).
  destruct (IH (S s) m1 ltac:(lia) ltac:(lia)) as (m2 & -> & Hchs & Hnews).
  - intros i Hi. apply (change_lev_is m m1 z s); [done|lia|apply Hold; lia].
  - exists m2. split; [done|]. split; [eapply changes_cons; [done|done|lia]|]. intros i Hi. destruct (decide (i = s)) as [->|Hne]; [|apply Hnews; lia].
    eapply lev_is_frame; [|done]. intros q. apply (lcs_lev _ _ _ _ Hchs). lia.
Qed.

Lemma unlink_loop_ok z a b x update L : apart z (i_ptr x) (a ++ b) -> filled z a update 0 L -> zlen (a ++ x :: b) < 2 ^ 32 ->
  forall n s m, (s + n = L)%nat -> (forall i, (s <= i < L)%nat -> lev_is m z i (a ++ x :: b)) ->
  exists m', unlink_loop (seq s n) m (Some (i_ptr x)) update = Ok m' /\ levels_change m m' s L /\
    (forall j, lev m' (i_ptr x) j = lev m (i_ptr x) j) /\ forall i, (s <= i < L)%nat -> lev_is m' z i (a ++ b).
Proof.
  intros Hap Hrk Hz n. induction n as [|n IH]; intros s m Hn Hold; cbn [seq].
  { exists m. split; [done|]. split; [done|]. split; [done|]. lia. }
  destruct (Hrk s ltac:(lia)) as (a1 & a2 & Hst & Eu). pose proof Hst as (-> & _).
  destruct (unlink_step m z s a1 a2 b x update (seq (S s) n) Hst Hap (Hold s ltac:(lia)) Hz Eu) as (m1 & -> & Hch & Hxs & Hnew).
  destruct (IH (S s) m1 ltac:(lia)) as (m2 & -> & Hchs & Hxs2 & Hnews).
  - intros i Hi. apply (change_lev_is m m1 z s); [done|lia|apply Hold; lia].
  - exists m2. split; [done|]. split; [eapply changes_cons; [done|done|lia]|]. split.
    + intros j. rewrite Hxs2. destruct (decide (j = s)) as [->|Hne]; [done|]. by apply (lc_lev _ _ _ Hch).
    + intros i Hi. destruct (decide (i = s)) as [->|Hne]; [|apply Hnews; lia].
      eapply lev_is_frame; [|done]. intros q. apply (lcs_lev _ _ _ _ Hchs). lia.
Qed.

(** ** Insertion *)

(** A sequence of [random()] results that ends the loop of [zslRandomLevel]. *)
Definition draws_ok (draws : list Z) : bool := existsb (fun r => negb (Z.land r 0xFFFF * 100 <? 1638375)) draws.

Lemma zslRandomLevel_ok draws : draws_ok draws = true -> exists level, zslRandomLevel draws = Ok level /\ (1 <= level <= ZSKIPLIST_MAXLEVEL)%nat.
Proof.
  intros Hd. unfold zslRandomLevel. assert (forall l, exists level, random_loop draws l = Ok level /\ (l <= level)%nat) as Hr.
  { induction draws as [|r draws IH]; [done|]. intros l. cbn in *. destruct (Z.land r 65535 * 100 <? 1638375); [|by exists l].
    destruct (IH Hd (l + 1)%nat) as (lv & -> & ?). exists lv. split; [done|lia]. }
  destruct (Hr 1%nat) as (lv & -> & Hlv). cbn [mbind res_bind]. eexists. split; [done|].
  destruct (Nat.ltb_spec lv ZSKIPLIST_MAXLEVEL); unfold ZSKIPLIST_MAXLEVEL in *; lia.
Qed.

Lemma insert_descend_ok m z ns cond a b : linked m z ns -> ns = a ++ b -> cond_ok cond ns (zlen a) ->
  forall n a1 a2 rank update, a = a1 ++ a2 -> (n <= zlevel z)%nat -> (a1 = [] \/ exists a0 u, a1 = a0 ++ [u] /\ (n <= i_h u)%nat) ->
  ranked z a rank update n (zlevel z) -> length update = ZSKIPLIST_MAXLEVEL -> length rank = ZSKIPLIST_MAXLEVEL ->
  (n = zlevel z /\ a1 = [] \/ (n < zlevel z)%nat /\ rank !! n = Some (Some (zlen a1))) ->
  exists rank' update', insert_descend n (fuel_of z) (zlevel z) cond m (Some (at_ z a1)) rank update = Ok (rank', update') /\
    ranked z a rank' update' 0 (zlevel z) /\ length update' = ZSKIPLIST_MAXLEVEL /\ length rank' = ZSKIPLIST_MAXLEVEL.
Proof.
  intros L Hns Hc n. induction n as [|n IH]; intros a1 a2 rank update Ha Hn Hlast Hf Hl1 Hl2 Hr; cbn [insert_descend].
  { by exists rank, update. }
  assert (a1 = [] \/ exists a0 u, a1 = a0 ++ [u] /\ (n < i_h u)%nat) as Hlast' by (destruct Hlast as [?|(a0 & u & ? & ?)]; [by left|right; exists a0, u; split; [done|lia]]).
  assert ((if (n =? zlevel z - 1)%nat then Ok 0 else slot rank (n + 1)) = Ok (zlen a1)) as ->.
  { destruct (Nat.eqb_spec n (zlevel z - 1)) as [E|E].
    - destruct Hr as [[_ ->]|[? _]]; [done|lia].
    - destruct Hr as [[? _]|[_ Hr]]; [lia|]. unfold slot. rewrite Nat.add_comm. cbn. by rewrite Hr. }
  cbn [mbind res_bind].
  destruct (walk_ok m z ns n 32 cond a b L Hns ltac:(lia) ltac:(lia) Hc a2 (fuel_of z) a1 Ha) as (a1' & a2' & Hst & E); [|done|].
  { unfold fuel_of. rewrite (lk_len _ _ _ L), Hns, Ha. unfold zlen. rewrite !length_app. lia. }
  rewrite E. cbn [mbind res_bind]. pose proof (lk_level _ _ _ L).
  apply (IH a1' a2'); [apply Hst|lia| | |by rewrite length_insert|by rewrite length_insert|].
  - destruct (stop_lower n n a a1' a2' Hst ltac:(lia)) as [?|(a0 & u & ? & ?)]; [by left|]. right. exists a0, u. split; [done|lia].
  - intros i Hi. destruct (decide (i = n)) as [->|Hne].
    + exists a1', a2'. split; [done|]. split; apply list_lookup_insert_eq; lia.
    + rewrite !list_lookup_insert_ne by done. apply Hf. lia.
  - right. split; [lia|]. apply list_lookup_insert_eq. lia.
Qed.

Lemma next_at_none i l : Forall (fun x => i_h x <= i)%nat l -> next_at i l = mk_level None (zlen l).
Proof. intros H. pose proof (next_at_skip i l [] H) as E. rewrite app_nil_r in E. rewrite E. done. Qed.

Lemma raise_loop_ok z ns a b : ns = a ++ b -> zlen ns < 2 ^ 32 -> length_ z = zlen ns -> Forall (fun x => i_h x <= zlevel z)%nat ns ->
  forall n s m rank update, (zlevel z <= s)%nat -> (s + n <= ZSKIPLIST_MAXLEVEL)%nat -> ranked z a rank update 0 s ->
  length update = ZSKIPLIST_MAXLEVEL -> length rank = ZSKIPLIST_MAXLEVEL ->
  (forall i, (s <= i < ZSKIPLIST_MAXLEVEL)%nat -> exists sp, lev m (header z) i = Some (mk_level None sp)) ->
  exists m' rank' update', raise_loop (seq s n) m z rank update = Ok (m', rank', update') /\ ranked z a rank' update' 0 (s + n) /\
    levels_change m m' s (s + n) /\ forall i, (s <= i < s + n)%nat -> lev_is m' z i ns.
Proof.
  intros Hns Hs Hlen Hh n. induction n as [|n IH]; intros s m rank update Hsl Hmax Hrk Hl1 Hl2 Hhi; cbn [seq raise_loop].
  { exists m, rank, update. rewrite Nat.add_0_r. split; [done|]. split; [done|]. split; [done|]. lia. }
  destruct (Hhi s ltac:(lia)) as (sp & Esp). destruct (set_span_ok m (header z) s None sp (u32 (length_ z)) Esp) as (m1 & -> & W). cbn [mbind res_bind].
  rewrite Hlen, uwrap_id in W by (unfold in_u; pose proof (zlen_nonneg ns); lia).
  assert (Forall (fun x => i_h x <= s)%nat ns) as Hh' by (eapply list.Forall_impl; [exact Hh|]; cbn; lia).
  destruct (IH (S s) m1 (<[s:=Some 0]> rank) (<[s:=Some (Some (header z))]> update)) as (m2 & rank' & update' & -> & Hrk' & Hch & Hnew);
    [lia|lia| |by rewrite length_insert|by rewrite length_insert| |].
  - intros i Hi. destruct (decide (i = s)) as [->|Hne].
    + exists [], a. split; [split_and!; [done| |by left]|].
      * rewrite Hns in Hh'. by apply Forall_app in Hh' as [Hh' _].
      * split; apply list_lookup_insert_eq; lia.
    + rewrite !list_lookup_insert_ne by done. apply Hrk. lia.
  - intros i Hi. rewrite (w_lev _ _ _ _ _ W), upd_level by lia. apply Hhi. lia.
  - exists m2, rank', update'. split; [done|]. rewrite Nat.add_succ_r. split; [done|].
    split; [eapply changes_cons; [eapply wrote_change; [apply change_refl|done]|done|lia]|].
    intros i Hi. destruct (decide (i = s)) as [->|Hne]; [|apply Hnew; lia]. split.
    + rewrite (lcs_lev _ _ _ _ Hch) by lia. rewrite (w_lev _ _ _ _ _ W), upd_same, next_at_none by done. done.
    + by apply links_vac.
Qed.
End SkiplistOps.
