(* ===== verification/SkiplistEdit.v ===== *)
(** * Skiplist edits: src/redis-stable/src/t_zset.c

    [zslCreate], [zslInsert], [zslDeleteNode] and [zslFree] against the linked
    representation of [SkiplistOps]: an edit at a position of the node list. *)
From stdpp Require Import gmap.
From S2P Require Import Prelude Skiplist SkiplistOps.

Module SkiplistEdit.
Export SkiplistOps.

(** ** Fresh nodes *)

Lemma create_node_ok jl jp m level sc e m1 p : zslCreateNode jl jp m level sc e = (m1, p) ->
  data m p = None /\ data m1 p = Some (e, sc, level) /\ (exists b0, back m1 p = Some b0) /\
  (forall i, (i < level)%nat -> lev m1 p i = Some jl) /\
  (forall q, q <> p -> (forall j, lev m1 q j = lev m q j) /\ back m1 q = back m q /\ data m1 q = data m q).
Proof.
  unfold zslCreateNode. intros [= <- <-]. set (p := fresh (dom m)).
  assert (m !! p = None) as Hp by (apply not_elem_of_dom, is_fresh).
  unfold data, back, lev. rewrite lookup_insert_eq, Hp. cbn. rewrite length_replicate.
  split_and!; [done|done|by eexists| |].
  - intros i Hi. by apply lookup_replicate_2.
  - intros q Hq. by rewrite lookup_insert_ne by done.
Qed.

Lemma data_apart m z ns p : linked m z ns -> data m p = None -> apart z p ns.
Proof.
  intros L Hp. split.
  - apply L.
  - intros ->. destruct (lk_head _ _ _ L) as (sc & E). congruence.
  - intros Hin. apply list_elem_of_fmap in Hin as (x & -> & Hx). pose proof (lk_data _ _ _ L) as Hd.
    rewrite list.Forall_forall in Hd. specialize (Hd x Hx). congruence.
Qed.

(** [lev_is] reads the nodes of the list only. *)
Lemma lev_is_local m m' z i ns : (forall q, q = header z \/ q ∈ map i_ptr ns -> lev m' q i = lev m q i) ->
  lev_is m z i ns -> lev_is m' z i ns.
Proof.
  intros Hf [H1 H2]. split; [by rewrite Hf by (by left)|]. eapply links_frame; [|done]. intros x Hx. apply Hf. right. by apply list_elem_of_fmap_2.
Qed.

Lemma apart_local z p ns q : apart z p ns -> q = header z \/ q ∈ map i_ptr ns -> q <> p.
Proof. intros [_ Hh Hi] Hq E. subst q. destruct Hq as [Hq|Hq]; [by apply Hh|by apply Hi]. Qed.

Lemma apart_insert z a x b : apart z (i_ptr x) (a ++ b) -> NoDup (header z :: map i_ptr (a ++ x :: b)).
Proof.
  intros [Hd A1 A2]. rewrite map_app in Hd, A2 |- *. cbn [map].
  rewrite (Permutation_app_comm (map i_ptr a)). cbn [app]. rewrite Permutation_swap. apply list.NoDup_cons.
  rewrite (Permutation_app_comm (map i_ptr b)). split; [rewrite elem_of_cons; tauto|done].
Qed.

(** ** Back pointers *)

Lemma last_ptr_snoc d a x : last_ptr d (a ++ [x]) = Some (i_ptr x).
Proof. unfold last_ptr. by rewrite last_snoc. Qed.

Lemma last_ptr_cons d x a : last_ptr d (x :: a) = last_ptr (Some (i_ptr x)) a.
Proof. unfold last_ptr. rewrite last_cons. by destruct (list.last a). Qed.

Lemma backs_app m d a b : backs m d (a ++ b) <-> backs m d a /\ backs m (last_ptr d a) b.
Proof.
  revert d. induction a as [|x a IH]; intros d; cbn [app backs]; [cbn; tauto|]. rewrite IH, last_ptr_cons. tauto.
Qed.

Lemma backs_frame m m' d a : (forall x, x ∈ a -> back m' (i_ptr x) = back m (i_ptr x)) -> backs m d a -> backs m' d a.
Proof.
  revert d. induction a as [|x a IH]; intros d; [done|]. cbn [backs]. intros Hf [H1 H2].
  split; [by rewrite Hf by (by left)|]. apply IH; [|done]. intros y Hy. apply Hf. by right.
Qed.

Lemma at_header z a r : NoDup (header z :: map i_ptr (a ++ r)) ->
  (if ptr_eqb (Some (at_ z a)) (Some (header z)) then None else Some (at_ z a)) = last_ptr None a.
Proof.
  intros Hd. apply NoDup_prefix, list.NoDup_cons in Hd as [Hd _]. unfold ptr_eqb.
  destruct a as [|u a0 _] using rev_ind; [by rewrite bool_decide_eq_true_2|]. rewrite at_snoc, last_ptr_snoc, bool_decide_eq_false_2; [done|].
  intros [= E]. apply Hd. rewrite <- E, map_app. apply elem_of_app. right. by left.
Qed.

Lemma next_at_0 l : Forall (fun x => 1 <= i_h x)%nat l -> forward (next_at 0 l) = i_ptr <$> head l.
Proof. intros H. destruct l as [|x l]; [done|]. cbn [next_at]. apply list.Forall_cons_1 in H as [H _]. by rewrite (proj2 (Nat.ltb_lt 0 (i_h x))) by lia. Qed.

Lemma last_ptr_app d a x b : last_ptr d (a ++ x :: b) = last_ptr (Some (i_ptr x)) b.
Proof. revert d. induction a as [|y a IH]; intros d; cbn [app]; [apply last_ptr_cons|]. by rewrite last_ptr_cons, IH. Qed.

(** ** Insertion *)

(** The part of [zslInsert] that sets the back pointers. *)
Definition set_backs (m : mem) (z : zskiplist) (x u0 : ptr) : res (mem * zskiplist) :=
  m ← set_backward m x (if ptr_eqb u0 (Some (header z)) then None else u0);
  lv ← get_level m x 0;
  match forward lv with
  | Some _ => m ← set_backward m (forward lv) x; Ok (m, z)
  | None => Ok (m, with_tail z x)
  end.

Lemma set_backs_ok m z a b x b0 : NoDup (header z :: map i_ptr (a ++ x :: b)) -> back m (i_ptr x) = Some b0 ->
  backs m None (a ++ b) -> lev m (i_ptr x) 0 = Some (next_at 0 b) -> Forall (fun x => 1 <= i_h x)%nat b -> tail z = last_ptr None (a ++ b) ->
  exists m', set_backs m z (Some (i_ptr x)) (Some (at_ z a)) = Ok (m', with_tail z (last_ptr None (a ++ x :: b))) /\
    (forall q j, lev m' q j = lev m q j) /\ (forall q, data m' q = data m q) /\ backs m' None (a ++ x :: b).
Proof.
  intros Hd Hb Hbs Hl Hh Ht. unfold set_backs. rewrite (at_header z a (x :: b)) by done.
  destruct (set_backward_ok m (i_ptr x) b0 (last_ptr None a) Hb) as (m1 & -> & L1 & D1 & B1). cbn [mbind res_bind].
  rewrite (get_level_ok m1 (i_ptr x) 0 (next_at 0 b)) by (by rewrite L1). cbn [mbind res_bind]. rewrite next_at_0 by done.
  apply list.NoDup_cons in Hd as [_ Hd]. rewrite map_app in Hd. cbn [map] in Hd. apply list.NoDup_app in Hd as (_ & Hda & Hdb).
  apply list.NoDup_cons in Hdb as [Hxb Hdb]. apply backs_app in Hbs as [Hba Hbb].
  assert (forall y, y ∈ a -> i_ptr y <> i_ptr x) as Hax.
  { intros y Hy E. apply (Hda (i_ptr y)); [by apply list_elem_of_fmap_2|]. rewrite E. by left. }
  assert (forall y, y ∈ b -> i_ptr y <> i_ptr x) as Hbx.
  { intros y Hy E. apply Hxb. rewrite <- E. by apply list_elem_of_fmap_2. }
  destruct b as [|y b].
  - cbn. exists m1. rewrite last_ptr_snoc. split_and!; [done|done|done|]. apply backs_app. split.
    + eapply backs_frame; [|exact Hba]. intros w Hw. rewrite B1, decide_False; [done|by apply Hax].
    + cbn. by rewrite B1, decide_True.
  - cbn [head fmap option_fmap option_map]. cbn [backs] in Hbb. destruct Hbb as [Hby Hbb].
    destruct (set_backward_ok m1 (i_ptr y) (last_ptr None a) (Some (i_ptr x))) as (m2 & -> & L2 & D2 & B2).
    { rewrite B1, decide_False; [done|]. apply Hbx. by left. }
    cbn [mbind res_bind]. exists m2. split_and!.
    + f_equal. f_equal. destruct z as [h tl n l]. cbn in Ht. subst tl. unfold with_tail. cbn. by rewrite !last_ptr_app, last_ptr_cons.
    + intros q j. by rewrite L2, L1.
    + intros q. by rewrite D2, D1.
    + apply backs_app. split; [|cbn [backs]; split_and!].
      * eapply backs_frame; [|exact Hba]. intros w Hw. rewrite B2, decide_False, B1, decide_False; [done|by apply Hax|].
        intros E. apply (Hda (i_ptr w)); [by apply list_elem_of_fmap_2|]. rewrite E. right. by left.
      * rewrite B2, decide_False, B1, decide_True; [done|done|]. intros E. apply Hxb. rewrite E. by left.
      * by rewrite B2, decide_True.
      * eapply backs_frame; [|exact Hbb]. intros w Hw. cbn [map] in Hdb. apply list.NoDup_cons in Hdb as [Hyb _].
        rewrite B2, decide_False, B1, decide_False; [done|apply Hbx; by right|]. intros E. apply Hyb. rewrite <- E. by apply list_elem_of_fmap_2.
Qed.

Lemma set_backs_bind {B} m z x u0 (k : mem -> zskiplist -> res B) :
  (m ← set_backward m x (if ptr_eqb u0 (Some (header z)) then None else u0);
   lv ← get_level m x 0;
   '(m, z) ← (match forward lv with
     | Some _ => m ← set_backward m (forward lv) x; Ok (m, z)
     | None => Ok (m, with_tail z x)
     end);
   k m z) = ('(m, z) ← set_backs m z x u0; k m z).
Proof. unfold set_backs. destruct (set_backward m x _) as [m1|]; [|done]. cbn [mbind res_bind]. by destruct (get_level m1 x 0) as [lv|]. Qed.

(** Raising the number of levels before a higher node is inserted. *)
Lemma linked_raise m m' z ns level : linked m z ns -> (zlevel z <= level <= ZSKIPLIST_MAXLEVEL)%nat ->
  levels_change m m' (zlevel z) level -> (forall i, (zlevel z <= i < level)%nat -> lev_is m' z i ns) -> linked m' (with_zlevel z level) ns.
Proof.
  intros [Hhd Hd Hnd Hh Hlv Hl Hhi Hb Ht Hn Hs] Hle [C1 C2 C3] Hnew. split; cbn; try done.
  - setoid_rewrite C3. done.
  - eapply list.Forall_impl; [exact Hd|]. intros x. cbn. by rewrite C3.
  - eapply list.Forall_impl; [exact Hh|]. cbn. lia.
  - lia.
  - intros i Hi. destruct (Nat.lt_ge_cases i (zlevel z)) as [Hi'|Hi']; [|by apply Hnew].
    apply (lev_is_frame m m' z i ns); [|by apply Hl]. intros q. apply C1. by left.
  - intros i Hi. setoid_rewrite C1; [|lia]. apply Hhi. lia.
  - eapply backs_frame; [|done]. intros. apply C2.
Qed.

(** The second half of an insertion: the node is created and linked in. *)
Lemma insert_linked jl jp m z a b rank update level sc e : linked m z (a ++ b) -> ranked z a rank update 0 (zlevel z) ->
  (1 <= level <= zlevel z)%nat -> zlen (a ++ b) + 1 < 2 ^ 32 ->
  exists m' x, let z' := with_length (with_tail z (last_ptr None (a ++ x :: b))) (zlen (a ++ b) + 1) in
    (let '(m, p) := zslCreateNode jl jp m level sc (Some e) in
     m ← link_loop (seq 0 level) m (Some p) rank update;
     m ← stretch_loop (seq level (zlevel z - level)) m update;
     u0 ← slot update 0;
     '(m, z) ← set_backs m z (Some p) u0;
     Ok (m, with_length z (u64 (length_ z + 1)), Some p)) = Ok (m', z', Some (i_ptr x)) /\
    linked m' z' (a ++ x :: b) /\ i_h x = level /\ key x = (sc, e) /\ data m (i_ptr x) = None /\
    (forall q, q <> i_ptr x -> data m' q = data m q).
Proof.
  intros L Hrk Hlev Hz. destruct (zslCreateNode jl jp m level sc (Some e)) as [m1 p] eqn:Ec.
  apply create_node_ok in Ec as (Hp0 & Hp & (b0 & Hb0) & Hjl & Hf). set (x := mk_item p level sc e).
  pose proof (data_apart _ _ _ _ L Hp0) as Hap. pose proof L as [Hhd Hd Hnd Hh Hlv Hl Hhi Hb Ht Hn Hs].
  assert (Forall (fun y => 1 <= i_h y)%nat (a ++ b)) as Hh1 by (eapply list.Forall_impl; [exact Hh|]; cbn; lia).
  pose proof (proj1 (proj1 (Forall_app _ _ _) Hh1)) as Hh1a. pose proof (proj2 (proj1 (Forall_app _ _ _) Hh1)) as Hh1b.
  assert (forall i, (i < zlevel z)%nat -> lev_is m1 z i (a ++ b)) as Hold.
  { intros i Hi. apply (lev_is_local m); [|by apply Hl]. intros q Hq. apply Hf. by eapply apart_local. }
  destruct (link_loop_ok z a b x rank update (zlevel z) Hap Hrk ltac:(cbn; lia) ltac:(lia) Hh1a Hz level 0 m1) as (m2 & E2 & C2 & N2);
    [done|intros i Hi; apply Hold; cbn in Hi; lia|intros i Hi; exists jl; apply Hjl; cbn in Hi; lia|].
  change (i_ptr x) with p in E2. rewrite E2. cbn [mbind res_bind].
  destruct (stretch_loop_ok z a b x rank update (zlevel z) Hnd Hrk Hz (zlevel z - level) level m2) as (m3 & E3 & C3 & N3); [lia|done| |].
  { intros i Hi. eapply lev_is_frame; [|apply (Hold i); lia]. intros q. apply (lcs_lev _ _ _ _ C2). cbn. lia. }
  rewrite E3. cbn [mbind res_bind].
  destruct (Hrk 0%nat ltac:(lia)) as (a1 & a2 & Hst & Eu & _). rewrite (stop_0 _ _ _ Hh1a Hst) in Eu.
  assert (slot update 0 = Ok (Some (at_ z a))) as -> by (unfold slot; by rewrite Eu). cbn [mbind res_bind].
  assert (forall i, (i < zlevel z)%nat -> lev_is m3 z i (a ++ x :: b)) as Hnew.
  { intros i Hi. destruct (Nat.lt_ge_cases i level) as [Hi'|Hi']; [|apply N3; lia].
    eapply lev_is_frame; [|apply (N2 i); cbn; lia]. intros q. apply (lcs_lev _ _ _ _ C3). by left. }
  assert (forall q, q <> p -> back m3 q = back m q /\ data m3 q = data m q) as Hf3.
  { intros q Hq. rewrite (lcs_back _ _ _ _ C3), (lcs_data _ _ _ _ C3), (lcs_back _ _ _ _ C2), (lcs_data _ _ _ _ C2). by apply Hf. }
  assert (NoDup (header z :: map i_ptr (a ++ x :: b))) as Hnd'.
  { by apply apart_insert. }
  assert (forall y, y ∈ a ++ b -> i_ptr y <> p) as Hyp.
  { intros y Hy. eapply apart_local; [done|]. right. by apply list_elem_of_fmap_2. }
  destruct (set_backs_ok m3 z a b x b0 Hnd') as (m4 & E4 & L4 & D4 & B4).
  - by rewrite (lcs_back _ _ _ _ C3), (lcs_back _ _ _ _ C2).
  - eapply backs_frame; [|exact Hb]. intros y Hy. apply Hf3. by apply Hyp.
  - destruct (Hnew 0%nat ltac:(lia)) as [_ Hx]. apply links_app in Hx as [_ [Hx _]]. rewrite app_nil_r in Hx. apply Hx. cbn. lia.
  - done.
  - done.
  - change (i_ptr x) with p in E4. rewrite E4. cbn [mbind res_bind]. exists m4, x. split_and!.
    + unfold with_length, with_tail. cbn. rewrite Hn, uwrap_id; [done|]. unfold in_u. zl.
    + split; cbn; try done.
      * destruct Hhd as (s0 & Hhd). exists s0. rewrite D4. rewrite (proj2 (Hf3 (header z) ltac:(eapply apart_local; [done|by left]))). done.
      * rewrite !Forall_app in Hd |- *. destruct Hd as [Hda Hdb]. split; [|apply list.Forall_cons; split].
        all: swap 2 3.
        1: { rewrite list.Forall_forall in Hda |- *. intros y Hy. rewrite D4, (proj2 (Hf3 _ (Hyp y ltac:(apply elem_of_app; by left)))). by apply Hda. }
        1: { rewrite list.Forall_forall in Hdb |- *. intros y Hy. rewrite D4, (proj2 (Hf3 _ (Hyp y ltac:(apply elem_of_app; by right)))). by apply Hdb. }
        cbn. rewrite D4, (lcs_data _ _ _ _ C3), (lcs_data _ _ _ _ C2). done.
      * rewrite !Forall_app in Hh |- *. destruct Hh as [Hha Hhb]. split; [done|]. by apply list.Forall_cons.
      * intros i Hi. apply (lev_is_frame m3 m4 z i (a ++ x :: b)); [|by apply Hnew]. intros q. apply L4.
      * intros i Hi. setoid_rewrite L4. setoid_rewrite (lcs_lev _ _ _ _ C3); [|lia]. setoid_rewrite (lcs_lev _ _ _ _ C2); [|cbn; lia].
        setoid_rewrite (proj1 (Hf (header z) ltac:(eapply apart_local; [done|by left]))). by apply Hhi.
      * zl.
      * zl.
    + done.
    + done.
    + done.
    + intros q Hq. rewrite D4. by apply Hf3.
Qed.

(** The heap holds the nodes of the list and nothing else. *)
Definition owned (m : mem) (z : zskiplist) (ns : list item) : Prop :=
  forall q, is_Some (data m q) <-> q ∈ header z :: map i_ptr ns.

Record skiplist (m : mem) (z : zskiplist) (ns : list item) : Prop := mk_skiplist {
  sl_linked : linked m z ns;
  sl_topped : topped z ns;
  sl_owned : owned m z ns }.

Lemma owned_insert m m' z z' a x b : owned m z (a ++ b) -> header z' = header z -> is_Some (data m' (i_ptr x)) ->
  (forall q, q <> i_ptr x -> data m' q = data m q) -> owned m' z' (a ++ x :: b).
Proof.
  intros O Hz Hx Hf q. rewrite map_app, Hz. cbn [map]. rewrite elem_of_cons, elem_of_app, elem_of_cons.
  specialize (O q). rewrite map_app, elem_of_cons, elem_of_app in O. destruct (decide (q = i_ptr x)) as [->|Hq]; [tauto|]. rewrite Hf by done. tauto.
Qed.

Lemma zslInsert_ok jl jp draws m z a b sc e : skiplist m z (a ++ b) -> cond_ok (before sc e) (a ++ b) (zlen a) -> isnan sc = false ->
  zlen (a ++ b) + 1 < 2 ^ 32 -> draws_ok draws = true ->
  exists m' z' x, zslInsert jl jp draws m z sc e = Ok (m', z', Some (i_ptr x)) /\ skiplist m' z' (a ++ x :: b) /\ key x = (sc, e) /\
    data m (i_ptr x) = None.
Proof.
  intros [L T O] Hc Hnan Hz Hdr. unfold zslInsert. rewrite Hnan. cbn [assert_ negb mbind res_bind]. pose proof (lk_level _ _ _ L) as Hlv.
  destruct (insert_descend_ok m z (a ++ b) (before sc e) a b L eq_refl Hc (zlevel z) [] a (replicate ZSKIPLIST_MAXLEVEL None) (replicate ZSKIPLIST_MAXLEVEL None))
    as (rank & update & E & Hrk & Hl1 & Hl2); try done; [by left|intros i; lia|by left|].
  change (at_ z []) with (header z) in E. rewrite E. cbn [mbind res_bind].
  destruct (zslRandomLevel_ok draws Hdr) as (level & -> & Hle). cbn [mbind res_bind].
  enough (exists m1 rank1 update1 z1, (if (zlevel z <? level)%nat then
      '(m, rank, update) ← raise_loop (seq (zlevel z) (level - zlevel z)) m z rank update;
      Ok (m, rank, update, with_zlevel z level)
    else Ok (m, rank, update, z)) = Ok (m1, rank1, update1, z1) /\ linked m1 z1 (a ++ b) /\ ranked z1 a rank1 update1 0 (zlevel z1) /\
    header z1 = header z /\ (level <= zlevel z1)%nat /\ (zlevel z1 = level \/ z1 = z) /\ forall q, data m1 q = data m q)
    as (m1 & rank1 & update1 & z1 & -> & L1 & Hrk1 & Hz1 & Hle1 & Htop & Hdat).
  { cbn [mbind res_bind]. pose proof (insert_linked jl jp m1 z1 a b rank1 update1 level sc e L1 Hrk1 ltac:(lia) Hz) as X. cbv zeta in X.
    destruct X as (m2 & x & EX & LX & Hhx & Hkx & Hfx & Hdx). exists m2. eexists. exists x. split_and!; [|split|done|by rewrite <- Hdat]; [|done| |].
    - rewrite <- EX. destruct (zslCreateNode jl jp m1 level sc (Some e)) as [m3 p]. destruct (link_loop _ m3 _ _ _) as [m4|]; [|done]. cbn [mbind res_bind].
      destruct (stretch_loop _ m4 _) as [m5|]; [|done]. cbn [mbind res_bind]. destruct (slot update1 0) as [u0|]; [|done]. cbn [mbind res_bind]. apply set_backs_bind.
    - destruct Htop as [Htop|Htop]; [right; cbn; rewrite Exists_app, Exists_cons; right; left; lia|]. subst z1.
      destruct T as [T|T]; [by left|]. right. cbn. rewrite Exists_app, Exists_cons in *. tauto.
    - eapply (owned_insert m); [done|done| |].
      + pose proof (lk_data _ _ _ LX) as Hd. apply Forall_app in Hd as [_ Hd]. apply list.Forall_cons_1 in Hd as [Hd _]. rewrite Hd. by eexists.
      + intros q Hq. by rewrite Hdx, Hdat. }
  destruct (Nat.ltb_spec (zlevel z) level) as [Hgt|Hgt]; [|exists m, rank, update, z; split_and!; (done || auto)].
  destruct (raise_loop_ok z (a ++ b) a b eq_refl (lk_small _ _ _ L) (lk_len _ _ _ L)) with (n := (level - zlevel z)%nat) (s := zlevel z) (m := m) (rank := rank) (update := update)
    as (m1 & rank1 & update1 & E1 & Hrk1 & C1 & N1); [|lia|lia|done|done|done|apply (lk_high _ _ _ L)|].
  { eapply list.Forall_impl; [apply (lk_height _ _ _ L)|]. cbn. lia. }
  replace (zlevel z + (level - zlevel z))%nat with level in Hrk1, C1, N1 by lia. rewrite E1. cbn [mbind res_bind].
  exists m1, rank1, update1, (with_zlevel z level). split_and!; [done| |done|done|cbn; lia|by left|apply C1].
  apply (linked_raise m); [done|lia|done|done].
Qed.

(** ** Creation *)

Lemma create_loop_ok h n : forall s m, (forall i, (s <= i < s + n)%nat -> exists lv, lev m h i = Some lv) ->
  exists m', create_loop (seq s n) m (Some h) = Ok m' /\ levels_change m m' s (s + n) /\
    forall i, (s <= i < s + n)%nat -> lev m' h i = Some (mk_level None 0).
Proof.
  induction n as [|n IH]; intros s m Hm; cbn [seq create_loop].
  { exists m. split; [done|]. split; [done|]. lia. }
  destruct (Hm s ltac:(lia)) as ([f sp] & E). destruct (set_forward_ok m h s f sp None E) as (m1 & -> & W1). cbn [mbind res_bind].
  destruct (set_span_ok m1 h s None sp 0) as (m2 & -> & W2); [by rewrite (w_lev _ _ _ _ _ W1), upd_same|]. cbn [mbind res_bind].
  pose proof (wrote_again _ _ _ _ _ _ _ W1 W2) as W. destruct (IH (S s) m2) as (m3 & -> & C & N).
  { intros i Hi. rewrite (w_lev _ _ _ _ _ W), upd_level by lia. apply Hm. lia. }
  exists m3. split; [done|]. rewrite Nat.add_succ_r. split; [eapply changes_cons; [eapply wrote_change; [apply change_refl|done]|done|lia]|].
  intros i Hi. destruct (decide (i = s)) as [->|Hne]; [|apply N; lia].
  rewrite (lcs_lev _ _ _ _ C) by lia. by rewrite (w_lev _ _ _ _ _ W), upd_same.
Qed.

Lemma zslCreate_ok jl jp : exists m z, zslCreate jl jp ∅ = Ok (m, z) /\ skiplist m z [].
Proof.
  unfold zslCreate. destruct (zslCreateNode jl jp ∅ ZSKIPLIST_MAXLEVEL (Fin 0) None) as [m1 h] eqn:Ec.
  apply create_node_ok in Ec as (_ & Hp & (b0 & Hb0) & Hjl & Hf).
  destruct (create_loop_ok h ZSKIPLIST_MAXLEVEL 0 m1) as (m2 & -> & C & N). { intros i Hi. exists jl. apply Hjl. lia. } cbn [mbind res_bind].
  destruct (set_backward_ok m2 h b0 None) as (m3 & -> & L3 & D3 & B3); [by rewrite (lcs_back _ _ _ _ C)|]. cbn [mbind res_bind].
  eexists. eexists. split; [done|]. split; [split; cbn|by left|].
  - exists (Fin 0). by rewrite D3, (lcs_data _ _ _ _ C).
  - constructor.
  - apply list.NoDup_singleton.
  - constructor.
  - unfold ZSKIPLIST_MAXLEVEL. lia.
  - intros i Hi. split; [|done]. rewrite L3. apply N. unfold ZSKIPLIST_MAXLEVEL. lia.
  - intros i Hi. exists 0. rewrite L3. apply N. lia.
  - done.
  - done.
  - done.
  - done.
  - intros q. cbn. rewrite D3, (lcs_data _ _ _ _ C), list_elem_of_singleton. split.
    + intros [d Hd]. destruct (decide (q = h)) as [|Hq]; [done|]. rewrite (proj2 (proj2 (Hf q Hq))) in Hd. done.
    + intros ->. rewrite Hp. by eexists.
Qed.

(** ** Deletion *)

Lemma next_at_none_inv i l : forward (next_at i l) = None -> Forall (fun x => i_h x <= i)%nat l.
Proof.
  induction l as [|x l IH]; [constructor|]. cbn [next_at]. destruct (Nat.ltb_spec i (i_h x)) as [H|H]; [done|]. cbn. intros E. constructor; [done|by apply IH].
Qed.

Lemma lower_loop_ok m h ns : forall fuel level, (level <= fuel)%nat -> (1 <= level)%nat ->
  (forall i, (i < level)%nat -> lev m h i = Some (next_at i ns)) -> Forall (fun x => i_h x <= level)%nat ns ->
  exists l, lower_loop fuel m (Some h) level = Ok l /\ (1 <= l <= level)%nat /\ Forall (fun x => i_h x <= l)%nat ns /\
    (l = 1%nat \/ Exists (fun x => i_h x = l) ns).
Proof.
  induction fuel as [|fuel IH]; intros level Hf H1 Hm Hh; [lia|]. cbn [lower_loop].
  destruct (Nat.ltb_spec 1 level) as [Hl|Hl]; [|exists level; split_and!; [done|lia|lia|done|left; lia]].
  rewrite (get_level_ok m h (level - 1) _ (Hm (level - 1)%nat ltac:(lia))). cbn [mbind res_bind]. unfold ptr_eqb. case_bool_decide as Hn.
  - destruct (IH (level - 1)%nat) as (l & -> & ? & ?); [lia|lia|intros i Hi; apply Hm; lia|by apply next_at_none_inv|].
    exists l. split_and!; [done|lia|lia|tauto|tauto].
  - exists level. split_and!; [done|lia|lia|done|]. right. destruct (first_at (level - 1) ns) as [Hno|(c & y & d & -> & _ & Hy)].
    + by rewrite next_at_none in Hn.
    + apply Forall_app in Hh as [_ Hh]. apply list.Forall_cons_1 in Hh as [Hh _]. apply Exists_app. right. apply Exists_cons. left. lia.
Qed.

(** The part of [zslDeleteNode] that mends the back pointers. *)
Definition unset_backs (m : mem) (z : zskiplist) (x : ptr) : res (mem * zskiplist) :=
  lv ← get_level m x 0;
  n ← load m x;
  match forward lv with
  | Some _ => m ← set_backward m (forward lv) (backward n); Ok (m, z)
  | None => Ok (m, with_tail z (backward n))
  end.

Lemma unset_backs_ok m z a b x : NoDup (header z :: map i_ptr (a ++ x :: b)) -> is_Some (data m (i_ptr x)) ->
  backs m None (a ++ x :: b) -> lev m (i_ptr x) 0 = Some (next_at 0 b) -> Forall (fun x => 1 <= i_h x)%nat b -> tail z = last_ptr None (a ++ x :: b) ->
  exists m', unset_backs m z (Some (i_ptr x)) = Ok (m', with_tail z (last_ptr None (a ++ b))) /\
    (forall q j, lev m' q j = lev m q j) /\ (forall q, data m' q = data m q) /\ backs m' None (a ++ b).
Proof.
  intros Hd [[[dx sx] hx] Hx] Hbs Hl Hh Ht. unfold unset_backs. rewrite (get_level_ok _ _ _ _ Hl). cbn [mbind res_bind].
  destruct (load_data _ _ _ _ _ Hx) as (n & -> & _ & _ & Hbn). cbn [mbind res_bind]. rewrite next_at_0 by done.
  apply backs_app in Hbs as [Hba [Hbx Hbb]]. rewrite Hbx in Hbn. injection Hbn as <-. destruct b as [|y b].
  - cbn. exists m. rewrite app_nil_r. done.
  - cbn [head fmap option_fmap option_map]. cbn [backs] in Hbb. destruct Hbb as [Hby Hbb].
    destruct (set_backward_ok m (i_ptr y) _ (last_ptr None a) Hby) as (m2 & -> & L2 & D2 & B2). cbn [mbind res_bind]. exists m2. split_and!; [|done|done|].
    + f_equal. f_equal. destruct z as [h tl k l]. cbn in Ht. subst tl. unfold with_tail. cbn. by rewrite !last_ptr_app, last_ptr_cons.
    + apply list.NoDup_cons in Hd as [_ Hd]. rewrite map_app in Hd. cbn [map] in Hd. apply list.NoDup_app in Hd as (_ & Hda & Hdb).
      apply list.NoDup_cons in Hdb as [_ Hdb]. apply list.NoDup_cons in Hdb as [Hyb _].
      apply backs_app. split; [|cbn [backs]; split].
      * eapply backs_frame; [|exact Hba]. intros w Hw. rewrite B2, decide_False; [done|].
        intros E. apply (Hda (i_ptr w)); [by apply list_elem_of_fmap_2|]. rewrite E. right. by left.
      * by rewrite B2, decide_True.
      * eapply backs_frame; [|exact Hbb]. intros w Hw. rewrite B2, decide_False; [done|]. intros E. apply Hyb. rewrite <- E. by apply list_elem_of_fmap_2.
Qed.

Lemma NoDup_without z a x b : NoDup (header z :: map i_ptr (a ++ x :: b)) -> apart z (i_ptr x) (a ++ b).
Proof.
  rewrite map_app. cbn [map]. rewrite (Permutation_app_comm (map i_ptr a)). cbn [app]. rewrite Permutation_swap. intros Hd.
  apply list.NoDup_cons in Hd as [Hn Hd]. rewrite elem_of_cons in Hn. split; [|tauto|].
  - by rewrite map_app, (Permutation_app_comm (map i_ptr a)).
  - rewrite map_app, (Permutation_app_comm (map i_ptr a)). tauto.
Qed.

Lemma zslDeleteNode_ok m z a x b update : linked m z (a ++ x :: b) -> filled z a update 0 (zlevel z) ->
  exists m' z', zslDeleteNode m z (Some (i_ptr x)) update = Ok (m', z') /\ linked m' z' (a ++ b) /\ topped z' (a ++ b) /\
    header z' = header z /\ (zlevel z' <= zlevel z)%nat /\ (forall q, data m' q = data m q) /\ lev m' (i_ptr x) 0 = lev m (i_ptr x) 0.
Proof.
  intros [Hhd Hd Hnd Hh Hlv Hl Hhi Hb Ht Hn Hs] Hfl. pose proof (NoDup_without _ _ _ _ Hnd) as Hap. unfold zslDeleteNode.
  destruct (unlink_loop_ok z a b x update (zlevel z) Hap Hfl Hs (zlevel z) 0 m ltac:(lia)) as (m1 & -> & C1 & X1 & N1); [intros i Hi; apply Hl; lia|].
  cbn [mbind res_bind].
  apply Forall_app in Hh as [Hha Hhx]. apply list.Forall_cons_1 in Hhx as [Hhx Hhb].
  apply Forall_app in Hd as [Hda Hdx]. apply list.Forall_cons_1 in Hdx as [Hdx Hdb].
  destruct (unset_backs_ok m1 z a b x Hnd) as (m2 & E2 & L2 & D2 & B2).
  - rewrite (lcs_data _ _ _ _ C1), Hdx. by eexists.
  - eapply backs_frame; [|exact Hb]. intros. apply C1.
  - rewrite X1. destruct (Hl 0%nat ltac:(lia)) as [_ Hx]. apply links_app in Hx as [_ [Hx _]]. rewrite app_nil_r in Hx. apply Hx. lia.
  - eapply list.Forall_impl; [exact Hhb|]. cbn. lia.
  - done.
  - unfold unset_backs in E2. destruct (get_level m1 (Some (i_ptr x)) 0) as [lv|]; [|done]. cbn [mbind res_bind] in E2 |- *.
    destruct (load m1 (Some (i_ptr x))) as [n|]; [|done]. cbn [mbind res_bind] in E2 |- *. rewrite E2. cbn [mbind res_bind].
    assert (Forall (fun y => 1 <= i_h y <= zlevel z)%nat (a ++ b)) as Hhab by (apply Forall_app; done).
    destruct (lower_loop_ok m2 (header z) (a ++ b) (zlevel z) (zlevel z)) as (l & El & Hle & Hhl & Htop); [lia|lia| | |].
    { intros i Hi. rewrite L2. apply N1. lia. }
    { eapply list.Forall_impl; [exact Hhab|]. cbn. lia. }
    cbn [zlevel with_tail header]. rewrite El. cbn [mbind res_bind]. eexists. eexists. split; [done|].
    split_and!; [|exact Htop|done|cbn; lia|intros q; rewrite D2; apply C1|by rewrite L2, X1]. split; cbn; try done.
    + setoid_rewrite D2. setoid_rewrite (lcs_data _ _ _ _ C1). done.
    + apply Forall_app. split; [eapply list.Forall_impl; [exact Hda|]|eapply list.Forall_impl; [exact Hdb|]]; intros y; cbn; by rewrite D2, (lcs_data _ _ _ _ C1).
    + apply Hap.
    + rewrite list.Forall_forall in Hhab, Hhl |- *. intros y Hy. specialize (Hhab y Hy). specialize (Hhl y Hy). cbn in *. lia.
    + lia.
    + intros i Hi. apply (lev_is_frame m1 m2 z i (a ++ b)); [|apply N1; lia]. intros q. apply L2.
    + intros i Hi. setoid_rewrite L2. destruct (Nat.lt_ge_cases i (zlevel z)) as [Hi'|Hi'].
      * destruct (N1 i ltac:(lia)) as [-> _]. rewrite next_at_none; [by eexists|]. eapply list.Forall_impl; [exact Hhl|]. cbn. lia.
      * setoid_rewrite (lcs_lev _ _ _ _ C1); [|lia]. apply Hhi. lia.
    + rewrite Hn. rewrite uwrap_id; [zl|]. unfold in_u. zl.
    + zl.
Qed.

Lemma free_node_ok m p : is_Some (data m p) -> zslFreeNode m (Some p) = Ok (delete p m).
Proof. unfold zslFreeNode, load, data. destruct (m !! p); [done|]. intros [? ?]. done. Qed.

Lemma delete_views (m : mem) p q : q <> p ->
  (forall j, lev (delete p m) q j = lev m q j) /\ back (delete p m) q = back m q /\ data (delete p m) q = data m q.
Proof. intros Hq. unfold lev, back, data. by rewrite lookup_delete_ne. Qed.

Lemma linked_local m m' z ns : (forall q, q = header z \/ q ∈ map i_ptr ns -> (forall j, lev m' q j = lev m q j) /\ back m' q = back m q /\ data m' q = data m q) ->
  linked m z ns -> linked m' z ns.
Proof.
  intros Hf [Hhd Hd Hnd Hh Hlv Hl Hhi Hb Ht Hn Hs]. pose proof (Hf (header z) (or_introl eq_refl)) as (Hf1 & Hf2 & Hf3).
  assert (forall x, x ∈ ns -> (forall j, lev m' (i_ptr x) j = lev m (i_ptr x) j) /\ back m' (i_ptr x) = back m (i_ptr x) /\ data m' (i_ptr x) = data m (i_ptr x)) as Hx.
  { intros x Hx. apply Hf. right. by apply list_elem_of_fmap_2. }
  split; try done.
  - by rewrite Hf3.
  - rewrite list.Forall_forall in Hd |- *. intros x Hin. rewrite (proj2 (proj2 (Hx x Hin))). by apply Hd.
  - intros i Hi. apply (lev_is_local m m' z i ns); [|by apply Hl]. intros q Hq. by apply Hf.
  - intros i Hi. setoid_rewrite Hf1. by apply Hhi.
  - eapply backs_frame; [|exact Hb]. intros x Hin. by apply Hx.
Qed.

Lemma owned_delete m m' z z' a x b : owned m z (a ++ x :: b) -> apart z (i_ptr x) (a ++ b) -> header z' = header z ->
  (forall q, data m' q = data m q) -> owned (delete (i_ptr x) m') z' (a ++ b).
Proof.
  intros O Hap Hz Hf q. rewrite Hz. specialize (O q). rewrite map_app in O |- *. cbn [map] in O. rewrite elem_of_cons, elem_of_app in O |- *. rewrite elem_of_cons in O.
  destruct (decide (q = i_ptr x)) as [->|Hq].
  - destruct Hap as [_ A1 A2]. rewrite map_app, elem_of_app in A2. unfold data. rewrite lookup_delete_eq. cbn. split; [by intros [? ?]|tauto].
  - rewrite (proj2 (proj2 (delete_views m' _ _ Hq))), Hf. tauto.
Qed.

(** Unlinking and freeing a node. *)
Lemma unlink_free_ok m z a x b update : skiplist m z (a ++ x :: b) -> filled z a update 0 (zlevel z) ->
  exists m1 m' z', zslDeleteNode m z (Some (i_ptr x)) update = Ok (m1, z') /\ zslFreeNode m1 (Some (i_ptr x)) = Ok m' /\
    skiplist m' z' (a ++ b) /\ filled z' a update 0 (zlevel z').
Proof.
  intros [L T O] Hfl. pose proof (NoDup_without _ _ _ _ (lk_nodup _ _ _ L)) as Hap.
  destruct (zslDeleteNode_ok m z a x b update L Hfl) as (m1 & z' & E & L1 & T1 & Hz & Hle & Hd & _).
  exists m1, (delete (i_ptr x) m1), z'. split_and!; [done| |split; [|done|]|].
  - apply free_node_ok. rewrite Hd. apply O. rewrite map_app, elem_of_cons, elem_of_app. right. right. by left.
  - eapply linked_local; [|exact L1]. intros q Hq. apply delete_views. rewrite Hz in Hq. by eapply apart_local.
  - by apply (owned_delete m m1 z).
  - intros i Hi. destruct (Hfl i ltac:(lia)) as (a1 & a2 & Hst & Eu). exists a1, a2. split; [done|]. rewrite Eu. unfold at_. by rewrite Hz.
Qed.

(** The condition of a deletion loop holds of the nodes of [b1], not of the next. *)
Fixpoint inside_ok (inside : zskiplistNode -> Z -> res bool) (k : Z) (b1 b2 : list item) : Prop :=
  match b1 with
  | [] => match b2 with [] => True | y :: _ => forall nd, ele nd = Some (i_ele y) -> score nd = i_score y -> inside nd k = Ok false end
  | y :: b1 => (forall nd, ele nd = Some (i_ele y) -> score nd = i_score y -> inside nd k = Ok true) /\ inside_ok inside (k + 1) b1 b2
  end.

Lemma delete_run_ok inside update a b2 b1 : forall fuel m z k removed gone, skiplist m z (a ++ b1 ++ b2) -> filled z a update 0 (zlevel z) ->
  inside_ok inside k b1 b2 -> (length b1 < fuel)%nat -> 0 <= k -> 0 <= removed -> k + zlen b1 < 2 ^ 64 -> removed + zlen b1 < 2 ^ 64 ->
  exists m' z', delete_run fuel inside m z (i_ptr <$> head (b1 ++ b2)) update k removed gone =
    Ok (m', z', removed + zlen b1, gone ++ map (fun x => Some (i_ele x)) b1) /\ skiplist m' z' (a ++ b2).
Proof.
  induction b1 as [|x b1 IH]; intros [|fuel] m z k removed gone S Hfl Hin Hf Hk Hr Hk2 Hr2; try (cbn in Hf; lia); cbn [delete_run app].
  - exists m, z. cbn [map]. rewrite app_nil_r. change (zlen (@nil item)) with 0. rewrite Z.add_0_r. destruct b2 as [|y b2]; [done|]. cbn [head fmap option_fmap option_map].
    destruct (load_item m z _ y (sl_linked _ _ _ S)) as (nd & -> & E1 & E2 & _); [apply elem_of_app; right; by left|]. cbn [mbind res_bind].
    rewrite (Hin nd E1 E2). done.
  - cbn [head fmap option_fmap option_map]. cbn [app] in S. destruct Hin as [Hx Hin]. rewrite zlen_cons in *. zlen_pos.
    destruct (load_item m z _ x (sl_linked _ _ _ S)) as (nd & -> & E1 & E2 & _); [apply elem_of_app; right; by left|]. cbn [mbind res_bind].
    rewrite (Hx nd E1 E2). cbn [mbind res_bind]. pose proof (lk_height _ _ _ (sl_linked _ _ _ S)) as Hh.
    apply Forall_app in Hh as [_ Hh]. apply list.Forall_cons_1 in Hh as [Hhx Hh].
    assert (lev m (i_ptr x) 0 = Some (next_at 0 (b1 ++ b2))) as Hl.
    { destruct (lk_links _ _ _ (sl_linked _ _ _ S) 0%nat) as [_ Hl]; [lia|]. apply links_app in Hl as [_ [Hl _]]. rewrite app_nil_r in Hl. apply Hl. lia. }
    rewrite (get_level_ok _ _ _ _ Hl). cbn [mbind res_bind]. rewrite next_at_0 by (eapply list.Forall_impl; [exact Hh|]; cbn; lia).
    destruct (unlink_free_ok m z a x (b1 ++ b2) update S Hfl) as (m1 & m2 & z2 & -> & E & S2 & Hfl2). cbn [mbind res_bind]. rewrite E. cbn [mbind res_bind].
    rewrite !(uwrap_id 64) by (unfold in_u; lia). rewrite E1.
    destruct (IH fuel m2 z2 (k + 1) (removed + 1) (gone ++ [Some (i_ele x)]) S2 Hfl2 Hin) as (m3 & z3 & -> & S3); [cbn in Hf; lia|lia|lia|lia|lia|].
    exists m3, z3. split; [|done]. f_equal. f_equal; [|cbn [map]; by rewrite <- app_assoc]. f_equal. lia.
Qed.

(** ** Release *)

Lemma free_loop_ok ns : forall fuel m, (length ns < fuel)%nat -> NoDup (map i_ptr ns) -> Forall (fun x => 1 <= i_h x)%nat ns ->
  (forall x, x ∈ ns -> is_Some (data m (i_ptr x))) -> links m 0 ns [] ->
  exists m', free_loop fuel m (i_ptr <$> head ns) = Ok m' /\ forall q, m' !! q = if decide (q ∈ map i_ptr ns) then None else m !! q.
Proof.
  induction ns as [|x ns IH]; intros [|fuel] m Hf Hnd Hh Hd Hl; try (cbn in Hf; lia); cbn [head fmap option_fmap option_map free_loop].
  { exists m. split; [done|]. intros q. by rewrite decide_False by (apply not_elem_of_nil). }
  apply list.Forall_cons_1 in Hh as [Hhx Hh]. destruct Hl as [Hx Hl]. rewrite app_nil_r in Hx. cbn [map] in Hnd. apply list.NoDup_cons in Hnd as [Hni Hnd].
  rewrite (get_level_ok _ _ _ _ (Hx ltac:(lia))). cbn [mbind res_bind]. rewrite free_node_ok by (apply Hd; by left). cbn [mbind res_bind].
  assert (forall y, y ∈ ns -> i_ptr y <> i_ptr x) as Hne by (intros y Hy E; apply Hni; rewrite <- E; by apply list_elem_of_fmap_2).
  rewrite next_at_0 by done. destruct (IH fuel (delete (i_ptr x) m)) as (m' & -> & Hm'); [cbn in Hf; lia|done|done| | |].
  - intros y Hy. rewrite (proj2 (proj2 (delete_views m _ _ (Hne y Hy)))). apply Hd. by right.
  - eapply links_frame; [|exact Hl]. intros y Hy. apply delete_views. by apply Hne.
  - exists m'. split; [done|]. intros q. rewrite Hm'. cbn [map]. destruct (decide (q ∈ map i_ptr ns)) as [Hq|Hq].
    + rewrite decide_True; [done|]. by right.
    + destruct (decide (q = i_ptr x)) as [->|Hqx]; [rewrite lookup_delete_eq, decide_True; [done|by left]|].
      rewrite lookup_delete_ne, decide_False; [done| |done]. rewrite elem_of_cons. tauto.
Qed.

Lemma zslFree_ok m z ns : skiplist m z ns -> zslFree m z = Ok ∅.
Proof.
  intros [L T O]. pose proof L as [(sc & Hhd) Hd Hnd Hh Hlv Hl Hhi Hb Ht Hn Hs]. destruct (Hl 0%nat ltac:(lia)) as [Hl0 Hl1]. unfold zslFree.
  assert (Forall (fun x => 1 <= i_h x)%nat ns) as Hh1 by (eapply list.Forall_impl; [exact Hh|]; cbn; lia).
  rewrite (get_level_ok _ _ _ _ Hl0). cbn [mbind res_bind]. rewrite free_node_ok by (rewrite Hhd; by eexists). cbn [mbind res_bind].
  apply list.NoDup_cons in Hnd as [Hni Hnd].
  assert (forall y, y ∈ ns -> i_ptr y <> header z) as Hne by (intros y Hy E; apply Hni; rewrite <- E; by apply list_elem_of_fmap_2).
  assert (forall x, x ∈ ns -> is_Some (data (delete (header z) m) (i_ptr x))) as Hd'.
  { intros y Hy. rewrite (proj2 (proj2 (delete_views m _ _ (Hne y Hy)))). apply O. right. by apply list_elem_of_fmap_2. }
  rewrite next_at_0 by done. destruct (free_loop_ok ns (S (size (delete (header z) m))) (delete (header z) m)) as (m' & -> & Hm'); [|done|done|done| |].
  - rewrite <- (size_dom (D := gset loc)), <- (length_map i_ptr), <- (size_list_to_set (C := gset loc)) by done. apply Nat.lt_succ_r, subseteq_size.
    intros q Hq. apply elem_of_list_to_set, list_elem_of_fmap in Hq as (y & -> & Hy). apply elem_of_dom. destruct (Hd' y Hy) as [d Hdy].
    unfold data in Hdy. destruct (delete (header z) m !! i_ptr y); [by eexists|done].
  - eapply links_frame; [|exact Hl1]. intros y Hy. apply delete_views. by apply Hne.
  - f_equal. apply map_eq. intros q. rewrite Hm', lookup_empty. destruct (decide (q ∈ map i_ptr ns)) as [|Hq]; [done|].
    destruct (decide (q = header z)) as [->|Hqh]; [by rewrite lookup_delete_eq|]. rewrite lookup_delete_ne by done.
    destruct (m !! q) as [nd|] eqn:E; [|done]. assert (is_Some (data m q)) as Hq' by (unfold data; rewrite E; by eexists).
    apply O in Hq'. rewrite elem_of_cons in Hq'. tauto.
Qed.
End SkiplistEdit.
