(* ===== verification/SkiplistApi.v ===== *)
(** * The sorted list behind a skiplist: src/redis-stable/src/t_zset.c

    The order of (score, element) pairs, the abstract sorted list with its
    operations, and the refinement: every skiplist operation finds its place by
    the order and does to the nodes what the abstract operation does to the pairs. *)
From stdpp Require Import gmap.
From Stdlib Require Import Sorted.
From S2P Require Import Prelude Sds Skiplist SkiplistOps SkiplistEdit.

Module SkiplistApi.
Export SkiplistEdit.

#[global] Instance double_eq_dec : EqDecision double.
Proof. solve_decision. Defined.

(** ** The order of doubles and of strings *)

Lemma dlt_trans a b c : dlt a b = true -> dlt b c = true -> dlt a c = true.
Proof. destruct a, b, c; cbn; try done. lia. Qed.
Lemma dlt_irrefl a : dlt a a = false.
Proof. destruct a; cbn; try done. lia. Qed.
Lemma deq_eq a b : deq a b = true <-> a = b /\ isnan a = false.
Proof. destruct a, b; cbn; (split; [try done|intros [? ?]; try done]); rewrite Z.eqb_eq; [intros ->; done|congruence]. Qed.
Lemma dlt_total a b : isnan a = false -> isnan b = false -> dlt a b = false -> a <> b -> dlt b a = true.
Proof. destruct a, b; cbn; try done. intros _ _ H1 H2. apply Z.ltb_ge in H1. apply Z.ltb_lt. assert (n <> n0) by congruence. lia. Qed.
Lemma dlt_nan a b : dlt a b = true -> isnan a = false /\ isnan b = false.
Proof. by destruct a, b. Qed.
Lemma dlt_deq a b : dlt a b = true -> deq a b = false.
Proof. destruct a, b; cbn; try done. lia. Qed.

Lemma lex_refl a : Sds.lex a a = Eq.
Proof. induction a as [|x a IH]; [done|]. cbn. by rewrite Z.compare_refl. Qed.
Lemma lex_eq a b : Sds.lex a b = Eq -> a = b.
Proof.
  revert b. induction a as [|x a IH]; intros [|y b]; cbn; try done. destruct (Z.compare_spec x y) as [->| |]; try done. intros H. by rewrite (IH b H).
Qed.
Lemma lex_opp a b : Sds.lex b a = CompOpp (Sds.lex a b).
Proof. revert b. induction a as [|x a IH]; intros [|y b]; cbn; try done. rewrite (Z.compare_antisym x y). by destruct (x ?= y); cbn. Qed.
Lemma lex_trans a b c : Sds.lex a b = Lt -> Sds.lex b c = Lt -> Sds.lex a c = Lt.
Proof.
  revert b c. induction a as [|x a IH]; intros [|y b] [|w c]; cbn; try done.
  destruct (Z.compare_spec x y), (Z.compare_spec y w), (Z.compare_spec x w); subst; try done; try lia. apply IH.
Qed.

Definition lexlt (a b : list Z) : bool := match Sds.lex a b with Lt => true | _ => false end.

(** ** The order of pairs *)

Abbreviation pair_ := (double * list Z)%type.

Definition pair_lt (p q : pair_) : bool := dlt p.1 q.1 || (deq p.1 q.1 && lexlt p.2 q.2).

Lemma lexlt_spec a b : lexlt a b = true <-> Sds.lex a b = Lt.
Proof. unfold lexlt. by destruct (Sds.lex a b). Qed.

Lemma pair_lt_trans p q r : pair_lt p q = true -> pair_lt q r = true -> pair_lt p r = true.
Proof.
  unfold pair_lt. rewrite !orb_true_iff, !andb_true_iff, !lexlt_spec, !deq_eq.
  intros [H1|[[H1 H1n] H1']] [H2|[[H2 H2n] H2']].
  - left. by eapply dlt_trans.
  - left. by rewrite <- H2.
  - left. by rewrite H1.
  - right. rewrite H1. split; [done|]. by eapply lex_trans.
Qed.

Lemma pair_lt_irrefl p : pair_lt p p = false.
Proof. unfold pair_lt, lexlt. by rewrite dlt_irrefl, lex_refl, andb_false_r. Qed.

Lemma pair_lt_total p q : isnan p.1 = false -> isnan q.1 = false -> pair_lt p q = false -> p <> q -> pair_lt q p = true.
Proof.
  unfold pair_lt. intros Hp Hq Hn Hne. apply orb_false_iff in Hn as [H1 H2]. destruct (decide (p.1 = q.1)) as [E|E].
  - rewrite <- E. replace (deq p.1 p.1) with true in * by (symmetry; by apply deq_eq). rewrite <- E in H2. replace (deq p.1 p.1) with true in H2 by (symmetry; by apply deq_eq).
    cbn in H2. unfold lexlt in *. rewrite lex_opp. destruct (Sds.lex p.2 q.2) eqn:E2; [|done|cbn; by rewrite orb_true_r].
    exfalso. apply Hne. apply lex_eq in E2. destruct p, q; cbn in *; congruence.
  - by rewrite (dlt_total p.1 q.1).
Qed.

(** ** The abstract sorted list *)

(** Pairs with a number for a score and an element within the limits of [sdscmp]. *)
Definition good (p : pair_) : Prop := isnan p.1 = false /\ zlen p.2 < 2 ^ 31.

Definition ordered (ps : list pair_) : Prop := StronglySorted (fun p q => pair_lt p q = true) ps /\ Forall good ps.

Definition repr (m : mem) (z : zskiplist) (ps : list pair_) : Prop :=
  exists ns, skiplist m z ns /\ ps = map key ns /\ ordered ps.

(** A test that holds on an initial segment. *)
Definition initial (f : pair_ -> bool) (ps : list pair_) : Prop :=
  forall p q, p ∈ ps -> q ∈ ps -> pair_lt p q = true -> f q = true -> f p = true.

Lemma split_initial f (ns : list item) : ordered (map key ns) -> initial f (map key ns) ->
  exists a b, ns = a ++ b /\ Forall (fun x => f (key x) = true) a /\ Forall (fun x => f (key x) = false) b.
Proof.
  intros [Hs _]. induction ns as [|x ns IH]; intros Hi; [exists [], []; done|]. cbn [map] in *. apply StronglySorted_inv in Hs as [Hs Hx].
  destruct IH as (a & b & -> & Ha & Hb); [done|intros p q Hp Hq; apply Hi; by right|]. destruct (f (key x)) eqn:E.
  - exists (x :: a), b. split_and!; [done|by constructor|done].
  - exists [], (x :: a ++ b). split_and!; [done|constructor|]. constructor; [done|]. apply Forall_app. split; [|done].
    rewrite list.Forall_forall in Ha |- *. rewrite list.Forall_forall in Hx. intros y Hy.
    assert (key y ∈ map key (a ++ b)) as Hin by (apply list_elem_of_fmap_2, elem_of_app; by left).
    destruct (f (key y)) eqn:Ey; [|done]. rewrite (Hi (key x) (key y)) in E; [done|by left|by right|by apply Hx|done].
Qed.

(** A search whose condition is an initial test stops behind its segment. *)
Lemma cond_initial f cond (a b : list item) : Forall (fun x => f (key x) = true) a -> Forall (fun x => f (key x) = false) b ->
  (forall y nd s k, y ∈ a ++ b -> ele nd = Some (i_ele y) -> score nd = i_score y -> cond nd s k = Ok (f (key y))) ->
  cond_ok0 cond (a ++ b) (zlen a).
Proof.
  intros Ha Hb Hc c y d nd s k E E1 E2. rewrite (Hc y nd s k); [|rewrite E; apply elem_of_app; right; by left|done|done]. f_equal.
  assert ((a ++ b) !! length c = Some y) as Hy by (rewrite E; by apply list_lookup_middle). unfold zlen. case_bool_decide as Hlt.
  - rewrite lookup_app_l in Hy by lia. eapply (Forall_lookup_1 _ _ _ _ Ha Hy).
  - rewrite lookup_app_r in Hy by lia. eapply (Forall_lookup_1 _ _ _ _ Hb Hy).
Qed.

(** ** Searching by score and element *)

Lemma sdscmp_lt a b : zlen a < 2 ^ 31 -> zlen b < 2 ^ 31 -> (ele_cmp a b <? 0) = lexlt a b.
Proof. intros Ha Hb. unfold lexlt. rewrite <- (Sds.contents_cmp_lex a b Ha Hb). unfold Z.ltb. by destruct (_ ?= 0). Qed.

Lemma sdscmp_eq a b : zlen a < 2 ^ 31 -> zlen b < 2 ^ 31 -> (ele_cmp a b =? 0) = bool_decide (a = b).
Proof.
  intros Ha Hb. pose proof (Sds.contents_cmp_lex a b Ha Hb) as E. rewrite Z.eqb_compare, E. case_bool_decide as H.
  - subst b. by rewrite lex_refl.
  - destruct (Sds.lex a b) eqn:El; [|done|done]. by apply lex_eq in El.
Qed.

Lemma sdscmp_le a b : zlen a < 2 ^ 31 -> zlen b < 2 ^ 31 -> (ele_cmp a b <=? 0) = negb (lexlt b a).
Proof.
  intros Ha Hb. unfold lexlt. rewrite lex_opp. rewrite <- (Sds.contents_cmp_lex a b Ha Hb). unfold Z.leb. by destruct (_ ?= 0).
Qed.

Lemma before_initial q ps : initial (fun p => pair_lt p q) ps.
Proof. intros p p' _ _ H1 H2. by eapply pair_lt_trans. Qed.

Lemma good_in (ns : list item) y : ordered (map key ns) -> y ∈ ns -> isnan (i_score y) = false /\ zlen (i_ele y) < 2 ^ 31.
Proof. intros [_ Hg] Hy. rewrite list.Forall_forall in Hg. apply (Hg (key y)). by apply list_elem_of_fmap_2. Qed.

Lemma before_cond sc e ns y nd s k : ordered (map key ns) -> zlen e < 2 ^ 31 -> y ∈ ns -> ele nd = Some (i_ele y) -> score nd = i_score y ->
  before sc e nd s k = Ok (pair_lt (key y) (sc, e)).
Proof.
  intros Ho He Hy E1 E2. destruct (good_in ns y Ho Hy) as [_ Hz]. unfold before, cmp_ele, pair_lt. rewrite E1, E2. cbn.
  destruct (dlt (i_score y) sc); [done|]. destruct (deq (i_score y) sc); [|done]. cbn. by rewrite sdscmp_lt.
Qed.

(** Where a pair belongs. *)
Lemma place sc e (ns : list item) : ordered (map key ns) -> zlen e < 2 ^ 31 ->
  exists a b, ns = a ++ b /\ Forall (fun x => pair_lt (key x) (sc, e) = true) a /\ Forall (fun x => pair_lt (key x) (sc, e) = false) b /\
    cond_ok (before sc e) (a ++ b) (zlen a).
Proof.
  intros Ho He. destruct (split_initial (fun p => pair_lt p (sc, e)) ns Ho (before_initial _ _)) as (a & b & -> & Ha & Hb).
  exists a, b. split_and!; [done|done|done|]. apply cond_ok_weaken. apply (cond_initial (fun p => pair_lt p (sc, e))); [done|done|]. intros. by eapply before_cond.
Qed.

Fixpoint insert_pair (p : pair_) (ps : list pair_) : list pair_ :=
  match ps with
  | [] => [p]
  | q :: ps => if pair_lt q p then q :: insert_pair p ps else p :: q :: ps
  end.

Lemma insert_pair_app p (a b : list pair_) : Forall (fun q => pair_lt q p = true) a -> Forall (fun q => pair_lt q p = false) b ->
  insert_pair p (a ++ b) = a ++ p :: b.
Proof.
  intros Ha Hb. induction Ha as [|q a Hq Ha IH]; cbn [app insert_pair].
  - destruct Hb as [|q b Hq Hb]; [done|]. cbn. by rewrite Hq.
  - by rewrite Hq, IH.
Qed.

Lemma sorted_pairs_app (a b : list pair_) : StronglySorted (fun p q => pair_lt p q = true) (a ++ b) <->
  StronglySorted (fun p q => pair_lt p q = true) a /\ StronglySorted (fun p q => pair_lt p q = true) b /\
  forall p q, p ∈ a -> q ∈ b -> pair_lt p q = true.
Proof.
  induction a as [|x a IH]; cbn [app].
  - split; [intros H; split_and!; [constructor|done|]; intros p q Hp; by apply not_elem_of_nil in Hp|tauto].
  - split.
    + intros H. apply StronglySorted_inv in H as [H Hx]. apply IH in H as (H1 & H2 & H3). apply Forall_app in Hx as [Hx1 Hx2].
      split_and!; [by constructor|done|]. rewrite list.Forall_forall in Hx2. intros p q Hp Hq. apply elem_of_cons in Hp as [->|Hp]; [by apply Hx2|by apply H3].
    + intros (H1 & H2 & H3). apply StronglySorted_inv in H1 as [H1 Hx]. constructor.
      * apply IH. split_and!; [done|done|]. intros p q Hp. apply H3. by right.
      * apply Forall_app. split; [done|]. rewrite list.Forall_forall. intros q Hq. apply H3; [by left|done].
Qed.

Lemma ordered_insert p (a b : list pair_) : ordered (a ++ b) -> good p -> p ∉ a ++ b -> Forall (fun q => pair_lt q p = true) a ->
  Forall (fun q => pair_lt q p = false) b -> ordered (a ++ p :: b).
Proof.
  intros [Hs Hg] Hp Hn Ha Hb. apply sorted_pairs_app in Hs as (H1 & H2 & H3). rewrite Forall_app in Hg. destruct Hg as [Hga Hgb].
  rewrite list.Forall_forall in Ha, Hb, Hgb.
  assert (forall q, q ∈ b -> pair_lt p q = true) as Hpb.
  { intros q Hq. apply pair_lt_total; [by apply Hgb|by apply Hp|by apply Hb|]. intros ->. apply Hn, elem_of_app. by right. }
  split.
  - apply sorted_pairs_app. split_and!; [done|constructor; [done|by apply list.Forall_forall]|].
    intros q r Hq Hr. apply elem_of_cons in Hr as [->|Hr]; [by apply Ha|by apply H3].
  - apply Forall_app. split; [done|]. constructor; [done|by apply list.Forall_forall].
Qed.

Lemma insert_refines jl jp draws m z ps sc e : repr m z ps -> good (sc, e) -> (sc, e) ∉ ps -> zlen ps + 1 < 2 ^ 32 -> draws_ok draws = true ->
  exists m' z' p, zslInsert jl jp draws m z sc e = Ok (m', z', Some p) /\ repr m' z' (insert_pair (sc, e) ps) /\
    (exists h, data m' p = Some (Some e, sc, h)) /\ data m p = None.
Proof.
  intros (ns & Sk & -> & Ho) [Hnan He] Hn Hz Hdr. cbn in Hnan, He. destruct (place sc e ns Ho He) as (a & b & -> & Ha & Hb & Hc). rewrite zlen_map in Hz.
  destruct (zslInsert_ok jl jp draws m z a b sc e Sk Hc Hnan Hz Hdr) as (m' & z' & x & E & Sk' & Hk & Hd). exists m', z', (i_ptr x).
  assert (insert_pair (sc, e) (map key (a ++ b)) = map key (a ++ x :: b)) as Ei.
  { rewrite !map_app. cbn [map]. rewrite Hk. apply insert_pair_app; by apply Forall_fmap. }
  split_and!; [done| | |done].
  - exists (a ++ x :: b). split_and!; [done|done|]. rewrite Ei, map_app. cbn [map]. rewrite Hk. rewrite map_app in Ho, Hn.
    apply ordered_insert; [done|done|done|by apply Forall_fmap|by apply Forall_fmap].
  - pose proof (lk_data _ _ _ (sl_linked _ _ _ Sk')) as Hd'. apply Forall_app in Hd' as [_ Hd']. apply list.Forall_cons_1 in Hd' as [Hd' _].
    exists (i_h x). rewrite Hd'. unfold key in Hk. by injection Hk as -> ->.
Qed.

(** ** Deletion of a pair *)

Lemma head_forward m z (a b : list item) : linked m z (a ++ b) -> exists lv, lev m (at_ z a) 0 = Some lv /\ forward lv = i_ptr <$> head b.
Proof.
  intros L. exists (next_at 0 b). split.
  - pose proof (lk_level _ _ _ L). apply (lev_at m z (a ++ b) 0 a b L eq_refl); [lia|].
    destruct a as [|u a0 _] using rev_ind; [by left|]. right. exists a0, u. split; [done|].
    pose proof (lk_height _ _ _ L) as Hh. rewrite !Forall_app in Hh. destruct Hh as [[_ Hh] _]. apply list.Forall_cons_1 in Hh as [Hh _]. lia.
  - apply next_at_0. pose proof (lk_height _ _ _ L) as Hh. apply Forall_app in Hh as [_ Hh]. eapply list.Forall_impl; [exact Hh|]. cbn. lia.
Qed.

Lemma filter_not_in {A} (P : A -> Prop) `{!forall x, Decision (P x)} (l : list A) : (forall x, x ∈ l -> P x) -> filter P l = l.
Proof. intros Hl. induction l as [|x l IH]; [done|]. rewrite filter_cons_True by (apply Hl; by left). f_equal. apply IH. intros y Hy. apply Hl. by right. Qed.

Lemma filter_none {A} (P : A -> Prop) `{!forall x, Decision (P x)} (l : list A) : (forall x, x ∈ l -> ~ P x) -> filter P l = [].
Proof. intros Hl. induction l as [|x l IH]; [done|]. rewrite filter_cons_False by (apply Hl; by left). apply IH. intros y Hy. apply Hl. by right. Qed.

Lemma ordered_without p (a b : list pair_) : ordered (a ++ p :: b) ->
  ordered (a ++ b) /\ (p ∉ a) /\ (p ∉ b).
Proof.
  intros [Hs Hg]. apply sorted_pairs_app in Hs as (H1 & H2 & H3). apply StronglySorted_inv in H2 as [H2 Hx]. rewrite list.Forall_forall in Hx.
  apply Forall_app in Hg as [Hg1 Hg2]. apply list.Forall_cons_1 in Hg2 as [Hg2 Hg3]. split_and!.
  - split; [apply sorted_pairs_app; split_and!; [done|done|]|by apply Forall_app]. intros q r Hq Hr. apply H3; [done|by right].
  - intros Hp. specialize (H3 p p Hp ltac:(by left)). by rewrite pair_lt_irrefl in H3.
  - intros Hp. specialize (Hx p Hp). by rewrite pair_lt_irrefl in Hx.
Qed.

Definition remove_pair (p : pair_) (ps : list pair_) : list pair_ := filter (fun q => q <> p) ps.

Lemma remove_pair_middle p (a b : list pair_) : ordered (a ++ p :: b) -> remove_pair p (a ++ p :: b) = a ++ b.
Proof.
  intros Ho. apply ordered_without in Ho as (_ & Ha & Hb). unfold remove_pair. rewrite list.filter_app, filter_cons_False by tauto.
  rewrite !filter_not_in; [done| |]; intros q Hq ->; tauto.
Qed.

(** The node reached is the one looked for exactly when the pair is in the list. *)
Lemma found_ok m z a b sc e x b' nd : linked m z (a ++ b) -> ordered (map key (a ++ b)) -> zlen e < 2 ^ 31 -> b = x :: b' ->
  ele nd = Some (i_ele x) -> score nd = i_score x ->
  (if deq sc (score nd) then c ← cmp_ele nd e; Ok (c =? 0) else Ok false) = Ok (bool_decide (key x = (sc, e))).
Proof.
  intros L Ho He -> E1 E2. destruct (good_in _ x Ho) as [Hg Hz]; [apply elem_of_app; right; by left|]. unfold cmp_ele. rewrite E1, E2.
  destruct (deq sc (i_score x)) eqn:E.
  - apply deq_eq in E as [-> _]. cbn. rewrite sdscmp_eq by done. f_equal. unfold key. apply bool_decide_ext. split; [by intros ->|congruence].
  - rewrite bool_decide_eq_false_2; [done|]. unfold key. intros [= Ek _]. rewrite Ek in *. rewrite (proj2 (deq_eq sc sc) (conj eq_refl Hg)) in E. done.
Qed.

Lemma absent_at_head sc e (a b : list pair_) : ordered (a ++ b) -> Forall (fun q => pair_lt q (sc, e) = true) a ->
  Forall (fun q => pair_lt q (sc, e) = false) b -> head b <> Some (sc, e) -> (sc, e) ∉ a ++ b.
Proof.
  intros [Hs _] Ha Hb Hh Hin. rewrite list.Forall_forall in Ha, Hb. apply elem_of_app in Hin as [Hin|Hin].
  - specialize (Ha _ Hin). by rewrite pair_lt_irrefl in Ha.
  - destruct b as [|q b]; [by apply not_elem_of_nil in Hin|]. apply elem_of_cons in Hin as [<-|Hin]; [by apply Hh|].
    apply sorted_pairs_app in Hs as (_ & Hs & _). apply StronglySorted_inv in Hs as [_ Hs]. rewrite list.Forall_forall in Hs.
    specialize (Hs _ Hin). rewrite (Hb q) in Hs by (by left). done.
Qed.

Lemma delete_refines m z ps sc e : repr m z ps -> zlen e < 2 ^ 31 ->
  exists m' z' r, zslDelete false m z sc e = Ok (m', z', r) /\ repr m' z' (remove_pair (sc, e) ps) /\
    (r = None <-> (sc, e) ∉ ps).
Proof.
  intros (ns & Sk & -> & Ho) He. destruct (place sc e ns Ho He) as (a & b & -> & Ha & Hb & Hc). pose proof (sl_linked _ _ _ Sk) as L. unfold zslDelete.
  destruct (descend_top m z (a ++ b) 64 (before sc e) a b L eq_refl ltac:(lia) Hc) as (update & -> & Hfl & _). cbn [mbind res_bind].
  destruct (head_forward m z a b L) as (lv & Elv & Efw). rewrite (get_level_ok _ _ _ _ Elv). cbn [mbind res_bind]. rewrite Efw.
  assert (head (map key b) <> Some (sc, e) -> (sc, e) ∉ map key (a ++ b)) as Habs.
  { rewrite map_app in Ho |- *. apply absent_at_head; [done|by apply Forall_fmap|by apply Forall_fmap]. }
  assert ((sc, e) ∉ map key (a ++ b) -> repr m z (remove_pair (sc, e) (map key (a ++ b)))) as Hsame.
  { intros Hn. unfold remove_pair. rewrite filter_not_in; [by exists (a ++ b)|]. intros q Hq ->. tauto. }
  destruct b as [|x b]; cbn [head fmap option_fmap option_map].
  { exists m, z, None. split; [done|]. specialize (Habs ltac:(done)). split; [by apply Hsame|done]. }
  destruct (load_item m z _ x L) as (nd & -> & E1 & E2 & _); [apply elem_of_app; right; by left|]. cbn [mbind res_bind].
  rewrite (found_ok m z a (x :: b) sc e x b nd L Ho He eq_refl E1 E2). cbn [mbind res_bind]. case_bool_decide as Hk.
  - destruct (unlink_free_ok m z a x b update Sk Hfl) as (m1 & m2 & z2 & -> & E & Sk2 & _). cbn [mbind res_bind]. rewrite E. cbn [mbind res_bind].
    exists m2, z2. eexists. split; [done|]. rewrite map_app in *. cbn [map] in *. rewrite Hk in *. split.
    + exists (a ++ b). rewrite remove_pair_middle by done. rewrite map_app. split_and!; [done|done|]. by destruct (ordered_without _ _ _ Ho).
    + split; [done|]. intros Hn. exfalso. apply Hn, elem_of_app. right. by left.
  - exists m, z, None. split; [done|]. specialize (Habs ltac:(cbn; congruence)). split; [by apply Hsame|done].
Qed.

(** ** Deletion of a segment *)

Lemma ordered_cut (a b c : list pair_) : ordered (a ++ b ++ c) -> ordered (a ++ c).
Proof.
  intros [Hs Hg]. apply sorted_pairs_app in Hs as (H1 & H2 & H3). apply sorted_pairs_app in H2 as (_ & H2 & _). rewrite !Forall_app in Hg. split.
  - apply sorted_pairs_app. split_and!; [done|done|]. intros p q Hp Hq. apply H3; [done|]. apply elem_of_app. by right.
  - apply Forall_app. tauto.
Qed.

Lemma inside_all (g : pair_ -> bool) inside b2 b1 : Forall (fun x => g (key x) = true) b1 -> Forall (fun x => g (key x) = false) b2 ->
  (forall y nd k, y ∈ b1 ++ b2 -> ele nd = Some (i_ele y) -> score nd = i_score y -> inside nd k = Ok (g (key y))) ->
  forall k, inside_ok inside k b1 b2.
Proof.
  induction b1 as [|x b1 IH]; intros H1 H2 Hi k; cbn [inside_ok].
  - destruct b2 as [|y b2]; [done|]. apply list.Forall_cons_1 in H2 as [H2 _]. intros nd E1 E2. rewrite (Hi y nd k); [by rewrite H2|by left|done|done].
  - apply list.Forall_cons_1 in H1 as [Hx H1]. split.
    + intros nd E1 E2. rewrite (Hi x nd k); [by rewrite Hx|by left|done|done].
    + apply IH; [done|done|]. intros y nd k' Hy. apply Hi. by right.
Qed.

Lemma initial_tail f (a b : list pair_) : initial f (a ++ b) -> initial f b.
Proof. intros Hi p q Hp Hq. apply Hi; apply elem_of_app; by right. Qed.

Lemma filter_three (inr : pair_ -> bool) (a b c : list pair_) : (forall q, q ∈ a -> inr q = false) -> (forall q, q ∈ b -> inr q = true) ->
  (forall q, q ∈ c -> inr q = false) ->
  filter (fun p => inr p = true) (a ++ b ++ c) = b /\ filter (fun p => inr p = false) (a ++ b ++ c) = a ++ c.
Proof.
  intros Ha Hb Hc. rewrite !list.filter_app. split.
  - rewrite (filter_none _ a), (filter_not_in _ b), (filter_none _ c), app_nil_r; [done| |done|]; intros q Hq; [rewrite (Hc q Hq)|rewrite (Ha q Hq)]; done.
  - rewrite (filter_not_in _ a), (filter_none _ b), (filter_not_in _ c); [done|done| |done]. intros q Hq. by rewrite (Hb q Hq).
Qed.

Definition segment_deleted (m' : mem) (z' : zskiplist) (ps : list pair_) (inr : pair_ -> bool) : Prop :=
  repr m' z' (filter (fun p => inr p = false) ps).
Definition segment_out (ps : list pair_) (inr : pair_ -> bool) : Z * list (option (list Z)) :=
  let out := filter (fun p => inr p = true) ps in (zlen out, map (fun p : pair_ => Some p.2) out).

Lemma delete_segment f g cond inside m z ps : repr m z ps -> initial f ps -> initial g ps ->
  (forall y nd s k, key y ∈ ps -> ele nd = Some (i_ele y) -> score nd = i_score y -> cond nd s k = Ok (f (key y))) ->
  (forall y nd k, key y ∈ ps -> ele nd = Some (i_ele y) -> score nd = i_score y -> inside nd k = Ok (g (key y))) ->
  let inr p := negb (f p) && g p in
  exists m' z', ('(x, _, update) ← descend (zlevel z) (fuel_of z) 64 cond m (Some (header z)) 0 (replicate ZSKIPLIST_MAXLEVEL None);
    lv ← get_level m x 0;
    delete_run (fuel_of z) inside m z (forward lv) update 0 0 []) = Ok (m', z', (segment_out ps inr).1, (segment_out ps inr).2) /\
    segment_deleted m' z' ps inr.
Proof.
  intros (ns & Sk & -> & Ho) Hif Hig Hc Hd inr. destruct (split_initial f ns Ho Hif) as (a & b & -> & Ha & Hb). pose proof (sl_linked _ _ _ Sk) as L.
  assert (ordered (map key b)) as Hob by (rewrite map_app in Ho; apply (ordered_cut [] (map key a) (map key b)); done).
  destruct (split_initial g b Hob) as (b1 & b2 & -> & Hb1 & Hb2); [rewrite map_app in Hig; by eapply initial_tail|].
  assert (cond_ok cond (a ++ b1 ++ b2) (zlen a)) as Hcond.
  { apply cond_ok_weaken, (cond_initial f); [done|done|]. intros y nd s k Hy. apply Hc. by apply list_elem_of_fmap_2. }
  destruct (descend_top m z (a ++ b1 ++ b2) 64 cond a (b1 ++ b2) L eq_refl ltac:(lia) Hcond) as (update & -> & Hfl & _). cbn [mbind res_bind].
  destruct (head_forward m z a (b1 ++ b2) L) as (lv & Elv & Efw). rewrite (get_level_ok _ _ _ _ Elv). cbn [mbind res_bind]. rewrite Efw.
  pose proof (lk_small _ _ _ L) as Hs. autorewrite with zlen in Hs. zlen_pos. apply Forall_app in Hb as [Hf1 Hf2].
  destruct (delete_run_ok inside update a b2 b1 (fuel_of z) m z 0 0 [] Sk Hfl) as (m' & z' & -> & Sk'); [| |lia|lia|lia|lia|].
  { apply (inside_all g); [done|done|]. intros y nd k Hy. apply Hd. apply list_elem_of_fmap_2, elem_of_app. by right. }
  { unfold fuel_of. rewrite (lk_len _ _ _ L). unfold zlen. rewrite !length_app. lia. }
  rewrite list.Forall_forall in Ha, Hf1, Hf2, Hb1, Hb2.
  assert (forall q, q ∈ map key a -> inr q = false) as Ia by (intros q Hq; apply list_elem_of_fmap in Hq as (y & -> & Hy); unfold inr; by rewrite Ha).
  assert (forall q, q ∈ map key b1 -> inr q = true) as I1 by (intros q Hq; apply list_elem_of_fmap in Hq as (y & -> & Hy); unfold inr; by rewrite Hf1, Hb1).
  assert (forall q, q ∈ map key b2 -> inr q = false) as I2.
  { intros q Hq; apply list_elem_of_fmap in Hq as (y & -> & Hy); unfold inr. by rewrite Hb2, andb_false_r. }
  destruct (filter_three inr (map key a) (map key b1) (map key b2) Ia I1 I2) as [F1 F2].
  exists m', z'. unfold segment_out, segment_deleted. rewrite !map_app, F1, F2, zlen_map, map_map. split; [done|].
  exists (a ++ b2). rewrite map_app. split_and!; [done|done|]. rewrite !map_app in Ho. by eapply ordered_cut.
Qed.

(** ** Score ranges *)

Definition range_ok (range : zrangespec) : Prop := isnan (rmin range) = false /\ isnan (rmax range) = false.
Definition score_in_range (range : zrangespec) (p : pair_) : bool := zslValueGteMin p.1 range && zslValueLteMax p.1 range.

Lemma dle_negb a b : isnan a = false -> isnan b = false -> dle a b = negb (dlt b a).
Proof. destruct a, b; cbn; try done. intros _ _. unfold dle. cbn. lia. Qed.

Lemma dle_trans a b c : dle a b = true -> dle b c = true -> dle a c = true.
Proof. unfold dle. destruct a, b, c; cbn; try done. lia. Qed.
Lemma dle_dlt_trans a b c : dle a b = true -> dlt b c = true -> dlt a c = true.
Proof. unfold dle. destruct a, b, c; cbn; try done. lia. Qed.
Lemma dlt_dle_trans a b c : dlt a b = true -> dle b c = true -> dlt a c = true.
Proof. unfold dle. destruct a, b, c; cbn; try done. lia. Qed.

Lemma pair_lt_score p q : pair_lt p q = true -> dle p.1 q.1 = true.
Proof. unfold pair_lt, dle. destruct (dlt p.1 q.1); [done|]. by destruct (deq p.1 q.1). Qed.

Lemma gte_initial range ps : initial (fun p => negb (zslValueGteMin p.1 range)) ps.
Proof.
  intros p q _ _ Hlt. apply pair_lt_score in Hlt. unfold zslValueGteMin. rewrite !negb_true_iff, <- !not_true_iff_false. intros Hq Hp. apply Hq.
  destruct (minex range); [by eapply dlt_dle_trans|by eapply dle_trans].
Qed.

Lemma lte_initial range ps : initial (fun p => zslValueLteMax p.1 range) ps.
Proof.
  intros p q _ _ Hlt. apply pair_lt_score in Hlt. unfold zslValueLteMax. destruct (maxex range); intros Hq; [by eapply dle_dlt_trans|by eapply dle_trans].
Qed.

Lemma below_min range v : isnan v = false -> range_ok range ->
  (if minex range then dle v (rmin range) else dlt v (rmin range)) = negb (zslValueGteMin v range).
Proof. intros Hv [Hr _]. unfold zslValueGteMin. destruct (minex range); rewrite dle_negb by done; [done|]. by rewrite negb_involutive. Qed.

Lemma good_key (ps : list pair_) p : ordered ps -> p ∈ ps -> good p.
Proof. intros [_ Hg] Hp. rewrite list.Forall_forall in Hg. by apply Hg. Qed.

Lemma repr_ordered m z ps : repr m z ps -> ordered ps.
Proof. by intros (ns & _ & _ & Ho). Qed.

Lemma delete_by_score_refines m z ps range : repr m z ps -> range_ok range ->
  exists m' z', zslDeleteRangeByScore m z range = Ok (m', z', (segment_out ps (score_in_range range)).1, (segment_out ps (score_in_range range)).2) /\
    segment_deleted m' z' ps (score_in_range range).
Proof.
  intros R Hr. pose proof (repr_ordered _ _ _ R) as Ho.
  destruct (delete_segment (fun p => negb (zslValueGteMin p.1 range)) (fun p => zslValueLteMax p.1 range)
    (fun n _ _ => Ok (if minex range then dle (score n) (rmin range) else dlt (score n) (rmin range)))
    (fun n _ => Ok (if maxex range then dlt (score n) (rmax range) else dle (score n) (rmax range))) m z ps R) as (m' & z' & E & H').
  - apply gte_initial.
  - apply lte_initial.
  - intros y nd s k Hy E1 E2. rewrite E2. f_equal. rewrite below_min; [done| |done]. by apply (good_key ps (key y) Ho).
  - intros y nd k Hy E1 E2. by rewrite E2.
  - exists m', z'. split.
    + unfold zslDeleteRangeByScore. rewrite E. f_equal. f_equal; [f_equal|].
      all: unfold segment_out; cbn [fst snd]; f_equal; apply list_filter_iff; intros p; unfold score_in_range; by rewrite negb_involutive.
    + unfold segment_deleted in *. erewrite list_filter_iff; [exact H'|]. intros p. unfold score_in_range. cbn beta. by rewrite negb_involutive.
Qed.

(** ** Rank ranges *)

Lemma inside_rank end_ b2 b1 : forall k, k + zlen b1 - 1 <= end_ \/ b1 = [] -> b2 = [] \/ end_ < k + zlen b1 ->
  inside_ok (fun _ traversed => Ok (traversed <=? end_)) k b1 b2.
Proof.
  induction b1 as [|x b1 IH]; intros k H1 H2; cbn [inside_ok].
  - destruct b2 as [|y b2]; [done|]. intros nd _ _. f_equal. apply Z.leb_gt. destruct H2 as [?|H2]; [done|]. change (zlen (@nil item)) with 0 in H2. lia.
  - rewrite zlen_cons in *. zlen_pos. destruct H1 as [H1|?]; [|done]. split.
    + intros nd _ _. f_equal. apply Z.leb_le. lia.
    + apply IH; [left; lia|]. destruct H2 as [?|H2]; [by left|right; lia].
Qed.

(** The condition of a search by rank: it stops behind the first [n] nodes. *)
Lemma rank_cond (a b : list item) n cond : (zlen a = n \/ b = [] /\ zlen a <= n) -> zlen (a ++ b) < 2 ^ 32 ->
  (forall nd s k, 0 <= k -> 0 <= s -> k + s <= 2 ^ 32 -> cond nd s k = Ok (k + s <=? n)) -> cond_ok cond (a ++ b) (zlen a).
Proof.
  intros Hn Hs Hc c y d nd k E _ _ Hk. pose proof (f_equal zlen E) as El. autorewrite with zlen in El, Hs. zlen_pos. rewrite Hc by lia. f_equal.
  destruct Hn as [Hn|[-> Hn]]; [|change (zlen (@nil item)) with 0 in *]; case_bool_decide; lia.
Qed.

Definition rank_kept (start end_ : Z) (ps : list pair_) : list pair_ := ztake (start - 1) ps ++ zdrop (end_ - start + 1) (zdrop (start - 1) ps).
Definition rank_out (start end_ : Z) (ps : list pair_) : list pair_ := ztake (end_ - start + 1) (zdrop (start - 1) ps).

Lemma map_split (ns : list item) n : map key (ztake n ns) = ztake n (map key ns) /\ map key (zdrop n ns) = zdrop n (map key ns).
Proof. unfold ztake, zdrop. by rewrite firstn_map, skipn_map. Qed.

Lemma delete_by_rank_refines m z ps start end_ : repr m z ps -> 1 <= start < 2 ^ 32 -> 0 <= end_ < 2 ^ 32 ->
  exists m' z', zslDeleteRangeByRank m z start end_ =
    Ok (m', z', zlen (rank_out start end_ ps), map (fun p : pair_ => Some p.2) (rank_out start end_ ps)) /\ repr m' z' (rank_kept start end_ ps).
Proof.
  intros (ns & Sk & -> & Ho) Hst He. set (a := ztake (start - 1) ns). set (r := zdrop (start - 1) ns). set (b1 := ztake (end_ - start + 1) r). set (b2 := zdrop (end_ - start + 1) r).
  assert (ns = a ++ b1 ++ b2) as Ens by (unfold b1, b2, a, r; by rewrite !ztake_zdrop). pose proof (sl_linked _ _ _ Sk) as L. pose proof (lk_small _ _ _ L) as Hs.
  assert (zlen a = start - 1 \/ b1 ++ b2 = [] /\ zlen a <= start - 1) as Ha.
  { unfold b1, b2. rewrite ztake_zdrop. unfold a, r. rewrite zlen_ztake. pose proof (zlen_nonneg ns). destruct (Z.le_gt_cases (start - 1) (zlen ns)); [left; lia|].
    right. split; [apply zdrop_all; lia|lia]. }
  assert (zlen a + 1 + zlen b1 - 1 <= end_ \/ b1 = []) as H1.
  { destruct Ha as [Ha|[Ha _]]; [|right; by destruct (app_eq_nil _ _ Ha)]. destruct (Z.le_gt_cases start end_) as [Hle|Hgt].
    - left. unfold b1. rewrite zlen_ztake, Ha. pose proof (zlen_nonneg r). lia.
    - right. apply ztake_0. lia. }
  assert (b2 = [] \/ end_ < zlen a + 1 + zlen b1) as H2.
  { destruct Ha as [Ha|[Ha _]]; [|left; by destruct (app_eq_nil _ _ Ha)]. destruct (Z.le_gt_cases (zlen r) (end_ - start + 1)) as [Hle|Hgt]; [left; by apply zdrop_all|].
    right. unfold b1. rewrite zlen_ztake, Ha. pose proof (zlen_nonneg r). lia. }
  unfold zslDeleteRangeByRank. rewrite Ens in Sk, L, Hs.
  destruct (descend_top m z (a ++ b1 ++ b2) 64 (fun _ sp traversed => Ok (u64 (traversed + sp) <? start)) a (b1 ++ b2) L eq_refl ltac:(lia)) as (update & -> & Hfl & _).
  { apply (rank_cond a (b1 ++ b2) (start - 1)); [done|done|]. intros nd s k Hk Hsp Hks. rewrite uwrap_id by (unfold in_u; lia). f_equal. lia. }
  cbn [mbind res_bind]. destruct (head_forward m z a (b1 ++ b2) L) as (lv & Elv & Efw). rewrite (get_level_ok _ _ _ _ Elv). cbn [mbind res_bind]. rewrite Efw.
  autorewrite with zlen in Hs. zlen_pos. rewrite (uwrap_id 64) by (unfold in_u; lia).
  destruct (delete_run_ok (fun _ traversed => Ok (traversed <=? end_)) update a b2 b1 (fuel_of z) m z (zlen a + 1) 0 [] Sk Hfl) as (m' & z' & -> & Sk'); [| |lia|lia|lia|lia|].
  { by apply inside_rank. }
  { unfold fuel_of. rewrite (lk_len _ _ _ L). unfold zlen. rewrite !length_app. lia. }
  assert (map key b1 = rank_out start end_ (map key ns)) as E1 by (unfold b1, r, rank_out; by rewrite !(proj1 (map_split _ _)), (proj2 (map_split _ _))).
  exists m', z'. split.
  - rewrite <- E1, map_map, zlen_map. done.
  - exists (a ++ b2). split_and!; [done| |].
    + rewrite map_app. unfold b2, a, r, rank_kept. by rewrite !(proj1 (map_split _ _)), !(proj2 (map_split _ _)).
    + unfold rank_kept. rewrite <- !(proj1 (map_split _ _)), <- !(proj2 (map_split _ _)). fold r a b2. rewrite Ens, !map_app in Ho. by eapply ordered_cut.
Qed.

(** ** Histories *)

Inductive zop :=
| Insert (draws : list Z) (sc : double) (e : list Z)
| Delete (sc : double) (e : list Z)
| DeleteByScore (range : zrangespec)
| DeleteByRank (start end_ : Z).

(** What a call returns: the count of deleted nodes and the elements it passes to
    [dictDelete]. *)
Abbreviation outcome := (Z * list (option (list Z)))%type.

Definition run_op (jl : zskiplistLevel) (jp : ptr) (o : zop) (m : mem) (z : zskiplist) : res (mem * zskiplist * outcome) :=
  match o with
  | Insert draws sc e => '(m, z, _) ← zslInsert jl jp draws m z sc e; Ok (m, z, (0, []))
  | Delete sc e => '(m, z, r) ← zslDelete false m z sc e; Ok (m, z, (match r with Some _ => 1 | None => 0 end, []))
  | DeleteByScore range => '(m, z, n, gone) ← zslDeleteRangeByScore m z range; Ok (m, z, (n, gone))
  | DeleteByRank start end_ => '(m, z, n, gone) ← zslDeleteRangeByRank m z start end_; Ok (m, z, (n, gone))
  end.

Fixpoint run_ops (jl : zskiplistLevel) (jp : ptr) (os : list zop) (m : mem) (z : zskiplist) : res (mem * zskiplist * list outcome) :=
  match os with
  | [] => Ok (m, z, [])
  | o :: os =>
    '(m, z, out) ← run_op jl jp o m z;
    '(m, z, outs) ← run_ops jl jp os m z;
    Ok (m, z, out :: outs)
  end.

Definition run_history (jl : zskiplistLevel) (jp : ptr) (os : list zop) : res (mem * zskiplist * list outcome) :=
  '(m, z) ← zslCreate jl jp ∅; run_ops jl jp os m z.

(** The same on the abstract list. *)
Definition spec_op (o : zop) (ps : list pair_) : list pair_ * outcome :=
  match o with
  | Insert _ sc e => (insert_pair (sc, e) ps, (0, []))
  | Delete sc e => (remove_pair (sc, e) ps, (if bool_decide ((sc, e) ∈ ps) then 1 else 0, []))
  | DeleteByScore range => (filter (fun p => score_in_range range p = false) ps, segment_out ps (score_in_range range))
  | DeleteByRank start end_ =>
    (rank_kept start end_ ps, (zlen (rank_out start end_ ps), map (fun p : pair_ => Some p.2) (rank_out start end_ ps)))
  end.

Fixpoint spec_ops (os : list zop) (ps : list pair_) : list pair_ * list outcome :=
  match os with
  | [] => (ps, [])
  | o :: os => let '(ps, out) := spec_op o ps in let '(ps, outs) := spec_ops os ps in (ps, out :: outs)
  end.

(** What the callers ensure: a new pair whose score is a number, bounds that are
    numbers, ranks from 1 on, fewer than 2^32 nodes. *)
Definition op_ok (o : zop) (ps : list pair_) : bool :=
  match o with
  | Insert draws sc e =>
    draws_ok draws && negb (isnan sc) && (zlen e <? 2 ^ 31) && bool_decide ((sc, e) ∉ ps) && (zlen ps + 1 <? 2 ^ 32)
  | Delete sc e => zlen e <? 2 ^ 31
  | DeleteByScore range => negb (isnan (rmin range)) && negb (isnan (rmax range))
  | DeleteByRank start end_ => (1 <=? start) && (start <? 2 ^ 32) && (0 <=? end_) && (end_ <? 2 ^ 32)
  end.

Fixpoint history_ok (os : list zop) (ps : list pair_) : bool :=
  match os with [] => true | o :: os => op_ok o ps && history_ok os (spec_op o ps).1 end.

Lemma run_op_ok jl jp o m z ps : repr m z ps -> op_ok o ps = true ->
  exists m' z', run_op jl jp o m z = Ok (m', z', (spec_op o ps).2) /\ repr m' z' (spec_op o ps).1.
Proof.
  intros R. destruct o as [draws sc e|sc e|range|start end_]; cbn [op_ok run_op spec_op fst snd]; rewrite ?andb_true_iff, ?negb_true_iff, ?Z.ltb_lt, ?Z.leb_le, ?bool_decide_eq_true.
  - intros ((((Hd & Hn) & He) & Hf) & Hz).
    destruct (insert_refines jl jp draws m z ps sc e R (conj Hn He) Hf Hz Hd) as (m' & z' & p & -> & R' & _). by exists m', z'.
  - intros He. destruct (delete_refines m z ps sc e R He) as (m' & z' & r & -> & R' & Hr). cbn [mbind res_bind]. exists m', z'. split; [|done]. f_equal. f_equal. f_equal.
    case_bool_decide as Hin; destruct r as [r|]; try done; exfalso; intuition congruence.
  - intros [H1 H2]. destruct (delete_by_score_refines m z ps range R (conj H1 H2)) as (m' & z' & -> & R'). cbn [mbind res_bind]. exists m', z'. by destruct (segment_out ps (score_in_range range)).
  - intros (((H1 & H2) & H3) & H4). destruct (delete_by_rank_refines m z ps start end_ R) as (m' & z' & -> & R'); [lia|lia|]. by exists m', z'.
Qed.

Lemma run_ops_ok jl jp os : forall m z ps, repr m z ps -> history_ok os ps = true ->
  exists m' z', run_ops jl jp os m z = Ok (m', z', (spec_ops os ps).2) /\ repr m' z' (spec_ops os ps).1.
Proof.
  induction os as [|o os IH]; intros m z ps R Hok; cbn [run_ops spec_ops history_ok] in *; [by exists m, z|]. apply andb_true_iff in Hok as [Ho Hos].
  destruct (run_op_ok jl jp o m z ps R Ho) as (m1 & z1 & -> & R1). cbn [mbind res_bind]. destruct (spec_op o ps) as [ps1 out]. cbn [fst snd] in *.
  destruct (IH m1 z1 ps1 R1 Hos) as (m2 & z2 & -> & R2). cbn [mbind res_bind]. exists m2, z2. by destruct (spec_ops os ps1).
Qed.

(** C9: Any history of insertions and deletions (of a pair, by score range, by rank
    range) on a fresh skiplist runs without a fault for every choice of levels and
    of the contents of uninitialised memory, returns what the same operations on a
    sorted list of pairs return, leaves a skiplist that represents that list (links,
    spans, back pointers, tail, length and level all consistent, no node leaked),
    and [zslFree] then releases every node. *)
Theorem skiplist_history_refines_sorted_list jl jp os : history_ok os [] = true ->
  exists m z, run_history jl jp os = Ok (m, z, (spec_ops os []).2) /\ repr m z (spec_ops os []).1 /\ zslFree m z = Ok ∅.
Proof.
  intros Hok. unfold run_history. destruct (zslCreate_ok jl jp) as (m0 & z0 & -> & Sk). cbn [mbind res_bind].
  destruct (run_ops_ok jl jp os m0 z0 []) as (m & z & -> & R); [|done|].
  { exists []. split_and!; [done|done|]. split; constructor. }
  exists m, z. split_and!; [done|done|]. destruct R as (ns & Sk' & _). by eapply zslFree_ok.
Qed.

(** 100 passes the test of [zslRandomLevel] and raises the level, 65535 fails it. *)
Definition demo_history : list zop :=
  [Insert [100; 100; 65535] (Fin 5) (str "e"); Insert [65535] (Fin 3) (str "c"); Insert [100; 65535] (Fin 3) (str "a");
   Insert [65535] MInf (str "z"); Delete (Fin 3) (str "a"); Insert [100; 100; 100; 65535] PInf (str "p"); Delete (Fin 9) (str "q");
   DeleteByRank 2 2; DeleteByScore (mk_range (Fin 5) PInf true false)].

Lemma skiplist_history_refines_sorted_list_witness :
  exists m z, run_history (mk_level (Some 9%positive) 77) None demo_history = Ok (m, z, (spec_ops demo_history []).2) /\
    repr m z (spec_ops demo_history []).1 /\ zslFree m z = Ok ∅.
Proof. apply skiplist_history_refines_sorted_list. vm_compute. reflexivity. Defined.

Example demo_history_spec : spec_ops demo_history [] =
  ([(MInf, str "z"); (Fin 5, str "e")],
   [(0, []); (0, []); (0, []); (0, []); (1, []); (0, []); (0, []); (1, [Some (str "c")]); (1, [Some (str "p")])]).
Proof. vm_compute. reflexivity. Qed.
End SkiplistApi.
