(* ===== verification/SkiplistQuery.v ===== *)
(** * Skiplist queries: src/redis-stable/src/t_zset.c

    Ranks, the ends of score ranges and lexicographic ranges, against the sorted
    list that a skiplist represents. *)
From stdpp Require Import gmap.
From Stdlib Require Import Sorted.
From S2P Require Import Prelude Sds Skiplist SkiplistOps SkiplistEdit SkiplistApi.

Module SkiplistQuery.
Export SkiplistApi.

(** [p] points to a node that holds the pair, or is NULL where there is none. *)
Definition points (m : mem) (p : ptr) (q : option pair_) : Prop :=
  match q with
  | Some q => exists n, load m p = Ok n /\ ele n = Some q.2 /\ score n = q.1
  | None => p = None
  end.

Lemma points_item m z ns y : linked m z ns -> y ∈ ns -> points m (Some (i_ptr y)) (Some (key y)).
Proof. intros L Hy. destruct (load_item m z ns y L Hy) as (nd & E & E1 & E2 & _). exists nd. by rewrite E1, E2. Qed.

(** The elements of a sorted set; the dictionary beside the skiplist keeps them distinct. *)
Definition elements_of (ps : list pair_) : list (list Z) := map snd ps.

(** Two small sorted sets. *)
Definition demo_scores : list pair_ := [(Fin 1, str "z"); (Fin 2, str "a"); (Fin 2, str "b"); (PInf, str "c")].
Definition demo_words : list pair_ := [(Fin 0, str "a"); (Fin 0, str "b"); (Fin 0, str "x")].

Lemma history_repr os ps : history_ok os [] = true -> (spec_ops os []).1 = ps -> exists m z, repr m z ps.
Proof.
  intros Hok <-. destruct (zslCreate_ok (mk_level None 0) None) as (m0 & z0 & _ & Sk).
  destruct (run_ops_ok (mk_level None 0) None os m0 z0 []) as (m & z & _ & R); [|done|by exists m, z]. exists []. split_and!; [done|done|]. split; constructor.
Qed.

Lemma demo_scores_repr : exists m z, repr m z demo_scores.
Proof.
  apply (history_repr [Insert [65535] (Fin 2) (str "b"); Insert [100; 65535] PInf (str "c"); Insert [100; 100; 65535] (Fin 2) (str "a"); Insert [65535] (Fin 1) (str "z")]);
    vm_compute; reflexivity.
Qed.
Lemma demo_words_repr : exists m z, repr m z demo_words.
Proof.
  apply (history_repr [Insert [100; 65535] (Fin 0) (str "b"); Insert [65535] (Fin 0) (str "x"); Insert [65535] (Fin 0) (str "a")]); vm_compute; reflexivity.
Qed.

(** ** Ranks *)

Lemma byrank_ok m z ns rank a b : linked m z ns -> ns = a ++ b -> 1 <= rank < 2 ^ 63 -> (zlen a = rank \/ b = [] /\ zlen a < rank) ->
  forall n a1 a2, a = a1 ++ a2 -> (n <= zlevel z)%nat -> (a1 = [] \/ exists a0 u, a1 = a0 ++ [u] /\ (n <= i_h u)%nat) ->
  (zlen a1 = rank -> n <> 0%nat) -> (n = 0%nat -> a1 = a) ->
  byrank_descend n (fuel_of z) m rank (Some (at_ z a1)) (zlen a1) = Ok (if zlen a =? rank then Some (at_ z a) else None).
Proof.
  intros L Hns Hr Hn n. induction n as [|n IH]; intros a1 a2 Ha Hle Hlast Hne H0; cbn [byrank_descend].
  { rewrite (H0 eq_refl) in Hne. destruct (Z.eqb_spec (zlen a) rank); [by destruct Hne|done]. }
  assert (a1 = [] \/ exists a0 u, a1 = a0 ++ [u] /\ (n < i_h u)%nat) as Hlast' by (destruct Hlast as [?|(a0 & u & ? & ?)]; [by left|right; exists a0, u; split; [done|lia]]).
  assert (cond_ok (fun _ sp traversed => Ok (u64 (traversed + sp) <=? rank)) ns (zlen a)) as Hc.
  { rewrite Hns. apply (rank_cond a b rank); [destruct Hn as [?|[? ?]]; [by left|right; split; [done|lia]]|rewrite <- Hns; apply L|].
    intros nd s k H1 H2 H3. rewrite uwrap_id by (unfold in_u; lia). done. }
  destruct (walk_ok m z ns n 64 _ a b L Hns ltac:(lia) ltac:(lia) Hc a2 (fuel_of z) a1 Ha) as (a1' & a2' & Hst & ->); [|done|].
  { unfold fuel_of. rewrite (lk_len _ _ _ L), Hns, Ha. unfold zlen. rewrite !length_app. lia. }
  cbn [mbind res_bind]. pose proof Hst as (Ea & _). destruct (Z.eqb_spec (zlen a1') rank) as [E|E].
  - assert (a2' = []) as -> by (apply zlen_0_nil; pose proof (f_equal zlen Ea) as El; rewrite zlen_app in El; pose proof (zlen_nonneg a2'); lia).
    rewrite app_nil_r in Ea. subst a1'. by rewrite E, Z.eqb_refl.
  - apply (IH a1' a2' Ea); [lia| |done|].
    + destruct (stop_lower n n a a1' a2' Hst ltac:(lia)) as [?|(a0 & u & ? & ?)]; [by left|]. right. exists a0, u. split; [done|lia].
    + intros ->. eapply stop_0; [|done]. pose proof (lk_height _ _ _ L) as Hh. rewrite Hns in Hh. apply Forall_app in Hh as [Hh _].
      eapply list.Forall_impl; [exact Hh|]. cbn. lia.
Qed.

(** [zslGetElementByRank] returns the node of the pair at the 1-based rank, and
    NULL past the end. *)
Theorem zslGetElementByRank_nth m z ps rank : repr m z ps -> 1 <= rank < 2 ^ 63 ->
  exists p, zslGetElementByRank m z rank = Ok p /\ points m p (ps !! Z.to_nat (rank - 1)).
Proof.
  intros (ns & Sk & -> & Ho) Hr. pose proof (sl_linked _ _ _ Sk) as L. pose proof (lk_level _ _ _ L) as Hlv.
  pose proof (ztake_zdrop rank ns) as E. set (a := ztake rank ns) in *. set (b := zdrop rank ns) in *. pose proof (zlen_nonneg ns).
  assert (zlen a = rank \/ b = [] /\ zlen a < rank) as Ha.
  { unfold a, b. rewrite zlen_ztake. destruct (Z.le_gt_cases rank (zlen ns)); [left; lia|]. right. split; [apply zdrop_all; lia|lia]. }
  pose proof (byrank_ok m z ns rank a b L (eq_sym E) Hr Ha (zlevel z) [] a eq_refl ltac:(lia) ltac:(by left)) as X.
  eexists. split; [apply X; [change (zlen (@nil item)) with 0; lia|lia]|].
  destruct (Z.eqb_spec (zlen a) rank) as [Er|Er].
  - destruct a as [|u a0 _] using rev_ind; [change (zlen (@nil item)) with 0 in Er; lia|]. rewrite at_snoc.
    assert (map key ns !! Z.to_nat (rank - 1) = Some (key u)) as ->.
    { rewrite <- E, <- app_assoc, map_app. rewrite zlen_app in Er. change (zlen [u]) with 1 in Er. replace (Z.to_nat (rank - 1)) with (length (map key a0)).
      - cbn [app map]. by apply list_lookup_middle.
      - rewrite length_map. unfold zlen in Er. lia. }
    eapply points_item; [exact L|]. rewrite <- E, !elem_of_app. left. right. by left.
  - destruct Ha as [?|[Hb Ha]]; [done|]. rewrite Hb, app_nil_r in E. rewrite lookup_ge_None_2; [done|]. rewrite length_map, <- E. unfold zlen in Ha. lia.
Qed.

Lemma zslGetElementByRank_nth_witness : exists m z, repr m z demo_scores /\
  exists p, zslGetElementByRank m z 3 = Ok p /\ points m p (Some (Fin 2, str "b")).
Proof.
  destruct demo_scores_repr as (m & z & R). exists m, z. split; [exact R|]. apply (zslGetElementByRank_nth m z demo_scores 3 R). lia.
Defined.

Definition upto (sc : double) (e : list Z) (n : zskiplistNode) (_ _ : Z) : res bool :=
  if dlt (score n) sc then Ok true else if deq (score n) sc then c ← cmp_ele n e; Ok (c <=? 0) else Ok false.

Lemma upto_cond sc e ns y nd s k : ordered (map key ns) -> isnan sc = false -> zlen e < 2 ^ 31 -> y ∈ ns -> ele nd = Some (i_ele y) -> score nd = i_score y ->
  upto sc e nd s k = Ok (negb (pair_lt (sc, e) (key y))).
Proof.
  intros Ho Hsc He Hy E1 E2. destruct (good_in ns y Ho Hy) as [Hn Hz]. unfold upto, cmp_ele, pair_lt, key. rewrite E1, E2. cbn [fst snd].
  destruct (dlt (i_score y) sc) eqn:El.
  - f_equal. destruct (dlt sc (i_score y)) eqn:El'; [pose proof (dlt_trans _ _ _ El El') as X; by rewrite dlt_irrefl in X|].
    destruct (deq sc (i_score y)) eqn:Eq; [|done]. apply deq_eq in Eq as [Eq _]. rewrite Eq in El. by rewrite dlt_irrefl in El.
  - destruct (deq (i_score y) sc) eqn:Eq.
    + apply deq_eq in Eq as [Eq _]. rewrite Eq. cbn. rewrite sdscmp_le, dlt_irrefl, (proj2 (deq_eq sc sc) (conj eq_refl Hsc)) by done. done.
    + rewrite (dlt_total (i_score y) sc Hn Hsc El); [done|]. intros E. rewrite E in Eq. by rewrite (proj2 (deq_eq sc sc) (conj eq_refl Hsc)) in Eq.
Qed.

Lemma upto_initial k ps : initial (fun p => negb (pair_lt k p)) ps.
Proof.
  intros p q _ _ Hlt. rewrite !negb_true_iff, <- !not_true_iff_false. intros Hq Hp. apply Hq. by eapply pair_lt_trans.
Qed.

(** The end of the part already crossed: the header or a node. *)
Lemma load_at m z ns a r : linked m z ns -> ns = a ++ r ->
  exists nd, load m (Some (at_ z a)) = Ok nd /\ ele nd = i_ele <$> list.last a.
Proof.
  intros L E. destruct a as [|u a0 _] using rev_ind.
  - destruct (lk_head _ _ _ L) as (sc & Hd). destruct (load_data _ _ _ _ _ Hd) as (n & ? & ? & _). by exists n.
  - rewrite at_snoc, last_snoc. destruct (load_item m z ns u L) as (n & ? & ? & _); [|by exists n]. rewrite E, !elem_of_app. left. right. by left.
Qed.

Lemma rank_descend_ok m z ns sc e a b : linked m z ns -> ns = a ++ b -> ordered (map key ns) -> zlen e < 2 ^ 31 -> cond_ok (upto sc e) ns (zlen a) ->
  forall n a1 a2, a = a1 ++ a2 -> (n <= zlevel z)%nat -> (a1 = [] \/ exists a0 u, a1 = a0 ++ [u] /\ (n <= i_h u)%nat) ->
  (e ∉ map i_ele a -> rank_descend n (fuel_of z) m sc e (Some (at_ z a1)) (zlen a1) = Ok 0) /\
  (forall a' x, a = a' ++ [x] -> i_ele x = e -> e ∉ map i_ele a' -> n <> 0%nat ->
    rank_descend n (fuel_of z) m sc e (Some (at_ z a1)) (zlen a1) = Ok (zlen a)).
Proof.
  intros L Hns Ho He Hc n. induction n as [|n IH]; intros a1 a2 Ha Hle Hlast; cbn [rank_descend]; [done|].
  assert (a1 = [] \/ exists a0 u, a1 = a0 ++ [u] /\ (n < i_h u)%nat) as Hlast' by (destruct Hlast as [?|(a0 & u & ? & ?)]; [by left|right; exists a0, u; split; [done|lia]]).
  destruct (walk_ok m z ns n 64 _ a b L Hns ltac:(lia) ltac:(lia) Hc a2 (fuel_of z) a1 Ha) as (a1' & a2' & Hst & Ead); [|done|].
  { unfold fuel_of. rewrite (lk_len _ _ _ L), Hns, Ha. unfold zlen. rewrite !length_app. lia. }
  unfold upto in Ead. rewrite Ead. cbn [mbind res_bind]. pose proof Hst as (Ea & _).
  destruct (load_at m z ns a1' (a2' ++ b) L) as (nd & -> & End); [by rewrite Hns, Ea, <- app_assoc|]. cbn [mbind res_bind]. rewrite End.
  specialize (IH a1' a2' Ea ltac:(lia)). destruct IH as [IH1 IH2].
  { destruct (stop_lower n n a a1' a2' Hst ltac:(lia)) as [?|(a0 & u & ? & ?)]; [by left|]. right. exists a0, u. split; [done|lia]. }
  assert (forall u, u ∈ a -> (ele_cmp (i_ele u) e =? 0) = bool_decide (i_ele u = e)) as Hcmp.
  { intros u Hu. apply sdscmp_eq; [|done]. apply (good_in ns u Ho). rewrite Hns. apply elem_of_app. by left. }
  destruct a1' as [|u a0 _] using rev_ind.
  - cbn [list.last fmap option_fmap option_map]. split; [done|]. intros a' x Hx Hex Hni _. apply (IH2 a' x Hx Hex Hni). intros ->.
    rewrite <- (stop_0 a [] a2') in Hx; [by destruct a'| |done]. pose proof (lk_height _ _ _ L) as Hh. rewrite Hns in Hh. apply Forall_app in Hh as [Hh _].
    eapply list.Forall_impl; [exact Hh|]. cbn. lia.
  - rewrite last_snoc. cbn [fmap option_fmap option_map]. rewrite Hcmp by (rewrite Ea, !elem_of_app; left; right; by left). split.
    + intros Hni. rewrite bool_decide_eq_false_2; [by apply IH1|]. intros <-. apply Hni. rewrite Ea, !map_app, !elem_of_app. left. right. by left.
    + intros a' x Hx Hex Hni _. destruct a2' as [|y a2' _] using rev_ind.
      * rewrite app_nil_r in Ea. rewrite Ea in Hx. apply app_inj_tail in Hx as [_ ->]. rewrite bool_decide_eq_true_2 by done. by rewrite Ea.
      * rewrite Ea, app_assoc in Hx. apply app_inj_tail in Hx as [Hx ->]. rewrite bool_decide_eq_false_2.
        { apply (IH2 a' x); [by rewrite Ea, app_assoc, Hx|done|done|]. intros ->. destruct Hst as (_ & Hst & _). apply Forall_app in Hst as [_ Hst].
          apply list.Forall_cons_1 in Hst as [Hst _]. pose proof (lk_height _ _ _ L) as Hh. rewrite Hns, Ea, !Forall_app in Hh.
          destruct Hh as [[_ [_ Hh]] _]. apply list.Forall_cons_1 in Hh as [Hh _]. lia. }
        { intros <-. apply Hni. rewrite <- Hx, !map_app, !elem_of_app. left. right. by left. }
Qed.

Lemma split_unique {A} (f : A -> bool) : forall a b a' b', a ++ b = a' ++ b' -> Forall (fun x => f x = true) a -> Forall (fun x => f x = false) b ->
  Forall (fun x => f x = true) a' -> Forall (fun x => f x = false) b' -> a = a' /\ b = b'.
Proof.
  induction a as [|x a IH]; intros b [|y a'] b' E Ha Hb Ha' Hb'; cbn [app] in E.
  - done.
  - subst b. apply list.Forall_cons_1 in Ha' as [? _], Hb as [? _]. congruence.
  - subst b'. apply list.Forall_cons_1 in Ha as [? _], Hb' as [? _]. congruence.
  - injection E as -> E. apply list.Forall_cons_1 in Ha as [_ Ha], Ha' as [_ Ha']. destruct (IH b a' b' E Ha Hb Ha' Hb') as [-> ->]. done.
Qed.

(** [zslGetRank] returns the 1-based position of a pair of the sorted set, whose
    elements are distinct, and 0 for an element that is not in it. *)
Theorem zslGetRank_position m z ps sc e : repr m z ps -> NoDup (elements_of ps) -> isnan sc = false -> zlen e < 2 ^ 31 ->
  (forall k, ps !! k = Some (sc, e) -> zslGetRank m z sc e = Ok (Z.of_nat k + 1)) /\
  (e ∉ elements_of ps -> zslGetRank m z sc e = Ok 0).
Proof.
  intros (ns & Sk & -> & Ho) Hnd Hsc He. pose proof (sl_linked _ _ _ Sk) as L. pose proof (lk_level _ _ _ L) as Hlv.
  unfold elements_of in *. rewrite map_map in *. change (fun x : item => (key x).2) with i_ele in *. unfold zslGetRank.
  destruct (split_initial (fun p => negb (pair_lt (sc, e) p)) ns Ho (upto_initial _ _)) as (a & b & -> & Ha & Hb).
  assert (cond_ok (upto sc e) (a ++ b) (zlen a)) as Hc.
  { apply cond_ok_weaken, (cond_initial (fun p => negb (pair_lt (sc, e) p))); [done|done|]. intros. by eapply upto_cond. }
  destruct (rank_descend_ok m z (a ++ b) sc e a b L eq_refl Ho He Hc (zlevel z) [] a eq_refl ltac:(lia) ltac:(by left)) as [R1 R2].
  change (at_ z []) with (header z) in *. change (zlen []) with 0 in *. split.
  - intros k Hk. rewrite list_lookup_fmap_Some in Hk. destruct Hk as (x & Hx & Hk). pose proof Hk as Hkx. apply list_elem_of_split_length in Hk as (c & d & E & Hlen).
    assert (a = c ++ [x] /\ b = d) as [-> ->].
    { rewrite E, map_app in Ho. cbn [map] in Ho. rewrite <- Hx in Ho. destruct Ho as [Ho _]. apply sorted_pairs_app in Ho as (_ & Ho & Hcx).
      apply StronglySorted_inv in Ho as [_ Hd]. apply (split_unique (fun x => negb (pair_lt (sc, e) (key x)))); [by rewrite E, <- app_assoc|done|done| |].
      - apply Forall_app. split; [|apply list.Forall_cons; split; [by rewrite <- Hx, pair_lt_irrefl|constructor]]. rewrite list.Forall_forall. intros y Hy.
        destruct (pair_lt (sc, e) (key y)) eqn:El; [|done]. 
        pose proof (pair_lt_trans _ _ _ El (Hcx (key y) (sc, e) ltac:(by apply list_elem_of_fmap_2) ltac:(by left))) as X. by rewrite pair_lt_irrefl in X.
      - rewrite list.Forall_forall in Hd. rewrite list.Forall_forall. intros y Hy. rewrite (Hd (key y)); [done|]. by apply list_elem_of_fmap_2. }
    rewrite (R2 c x eq_refl); [|by injection Hx| |lia].
    + rewrite zlen_app. f_equal. unfold zlen. cbn. lia.
    + rewrite !map_app in Hnd. injection Hx as _ Ex. rewrite Ex. apply list.NoDup_app in Hnd as (Hnd & _). apply list.NoDup_app in Hnd as (_ & Hnd & _).
      intros Hin. apply (Hnd _ Hin). by left.
  - intros Hn. apply R1. rewrite map_app, elem_of_app in Hn. tauto.
Qed.

Lemma zslGetRank_position_witness : exists m z, repr m z demo_scores /\
  zslGetRank m z (Fin 2) (str "b") = Ok 3.
Proof.
  destruct demo_scores_repr as (m & z & R). exists m, z. split; [exact R|]. destruct (zslGetRank_position m z demo_scores (Fin 2) (str "b") R) as [X _];
    [apply (bool_decide_unpack _); vm_compute; exact I|reflexivity|vm_compute; reflexivity|]. exact (X 2%nat eq_refl).
Defined.

(** ** The ends of a range *)

Lemma zsl_advance_count w cond m i : (forall nd s k k', cond nd s k = cond nd s k') -> forall fuel x k k' y n,
  zsl_advance fuel w cond m i x k = Ok (y, n) -> exists n', zsl_advance fuel w cond m i x k' = Ok (y, n').
Proof.
  intros Hc fuel. induction fuel as [|fuel IH]; intros x k k' y n; cbn [zsl_advance]; [done|].
  destruct (get_level m x i) as [lv|]; [|done]. cbn [mbind res_bind]. destruct (forward lv) as [f|]; [|intros [= <- _]; by eexists].
  destruct (load m (Some f)) as [nd|]; [|done]. cbn [mbind res_bind]. rewrite (Hc nd (span lv) k k'). destruct (cond nd (span lv) k') as [[]|]; [|intros [= <- _]; by eexists|done].
  cbn [mbind res_bind]. apply IH.
Qed.

Lemma seek_ok m z ns cond a b : linked m z ns -> ns = a ++ b -> cond_ok0 cond ns (zlen a) -> (forall nd s k k', cond nd s k = cond nd s k') ->
  forall n a1 a2, a = a1 ++ a2 -> (n <= zlevel z)%nat -> (a1 = [] \/ exists a0 u, a1 = a0 ++ [u] /\ (n <= i_h u)%nat) -> (n = 0%nat -> a1 = a) ->
  seek n (fuel_of z) cond m (Some (at_ z a1)) = Ok (Some (at_ z a)).
Proof.
  intros L Hns Hc Hk n. induction n as [|n IH]; intros a1 a2 Ha Hle Hlast H0; cbn [seek].
  { by rewrite (H0 eq_refl). }
  assert (a1 = [] \/ exists a0 u, a1 = a0 ++ [u] /\ (n < i_h u)%nat) as Hlast' by (destruct Hlast as [?|(a0 & u & ? & ?)]; [by left|right; exists a0, u; split; [done|lia]]).
  destruct (walk_ok m z ns n 64 cond a b L Hns ltac:(lia) ltac:(lia) (cond_ok_weaken _ _ _ Hc) a2 (fuel_of z) a1 Ha) as (a1' & a2' & Hst & E); [|done|].
  { unfold fuel_of. rewrite (lk_len _ _ _ L), Hns, Ha. unfold zlen. rewrite !length_app. lia. }
  destruct (zsl_advance_count _ _ _ _ Hk _ _ _ 0 _ _ E) as (n' & ->). cbn [mbind res_bind]. apply (IH a1' a2'); [apply Hst|lia| |].
  - destruct (stop_lower n n a a1' a2' Hst ltac:(lia)) as [?|(a0 & u & ? & ?)]; [by left|]. right. exists a0, u. split; [done|lia].
  - intros ->. eapply stop_0; [|done]. pose proof (lk_height _ _ _ L) as Hh. rewrite Hns in Hh. apply Forall_app in Hh as [Hh _].
    eapply list.Forall_impl; [exact Hh|]. cbn. lia.
Qed.

Lemma seek_top m z ns cond a b : linked m z ns -> ns = a ++ b -> cond_ok0 cond ns (zlen a) -> (forall nd s k k', cond nd s k = cond nd s k') ->
  seek (zlevel z) (fuel_of z) cond m (Some (header z)) = Ok (Some (at_ z a)).
Proof.
  intros L Hns Hc Hk. pose proof (lk_level _ _ _ L). apply (seek_ok m z ns cond a b L Hns Hc Hk (zlevel z) [] a eq_refl); [lia|by left|lia].
Qed.

(** The pairs between two initial tests: not below the range and not above it. *)
Definition between (f g : pair_ -> bool) (ps : list pair_) : list pair_ := filter (fun p => negb (f p) && g p = true) ps.

Lemma between_app f g a b : between f g (a ++ b) = between f g a ++ between f g b.
Proof. apply list.filter_app. Qed.

Lemma between_none f g ps : (forall p, p ∈ ps -> f p = true \/ g p = false) -> between f g ps = [].
Proof. intros H. apply filter_none. intros p Hp. destruct (H p Hp) as [->| ->]; [done|]. by rewrite andb_false_r. Qed.

Lemma between_first f g (a b : list pair_) : ordered (a ++ b) -> initial g (a ++ b) -> Forall (fun p => f p = true) a -> Forall (fun p => f p = false) b ->
  head (between f g (a ++ b)) = match b with p :: _ => if g p then Some p else None | [] => None end.
Proof.
  intros [Hs _] Hg Ha Hb. rewrite list.Forall_forall in Ha. rewrite between_app, (between_none f g a) by (intros p Hp; left; by apply Ha). cbn [app].
  destruct b as [|p b]; [done|]. apply list.Forall_cons_1 in Hb as [Hp Hb]. destruct (g p) eqn:E.
  - unfold between. rewrite filter_cons_True; [done|]. by rewrite Hp, E.
  - rewrite between_none; [done|]. intros q Hq. right. destruct (g q) eqn:Eq; [|done]. apply elem_of_cons in Hq as [->|Hq]; [congruence|].
    apply sorted_pairs_app in Hs as (_ & Hs & _). apply StronglySorted_inv in Hs as [_ Hs]. rewrite list.Forall_forall in Hs.
    rewrite (Hg p q) in E; [done|apply elem_of_app; right; by left|apply elem_of_app; right; by right|by apply Hs|done].
Qed.

Lemma between_last f g (a b : list pair_) : ordered (a ++ b) -> initial f (a ++ b) -> Forall (fun p => g p = true) a -> Forall (fun p => g p = false) b ->
  list.last (between f g (a ++ b)) = match list.last a with Some p => if f p then None else Some p | None => None end.
Proof.
  intros [Hs _] Hf Ha Hb. rewrite list.Forall_forall in Hb. rewrite between_app, (between_none f g b) by (intros p Hp; right; by apply Hb). rewrite app_nil_r.
  destruct a as [|p a _] using rev_ind; [done|]. rewrite last_snoc. apply Forall_app in Ha as [Ha Hp]. apply list.Forall_cons_1 in Hp as [Hp _].
  rewrite between_app. destruct (f p) eqn:E.
  - rewrite <- between_app, between_none; [done|]. intros q Hq. left. apply elem_of_app in Hq as [Hq|Hq]; [|apply list_elem_of_singleton in Hq; by subst q].
    apply sorted_pairs_app in Hs as (Hs & _). apply sorted_pairs_app in Hs as (_ & _ & Hs).
    apply (Hf q p); [rewrite !elem_of_app; tauto|rewrite !elem_of_app; left; right; by left|apply Hs; [done|by left]|done].
  - assert (between f g [p] = [p]) as -> by (unfold between; rewrite filter_cons_True; [done|by rewrite E, Hp]). by rewrite last_snoc.
Qed.

(** What the tests of the two ends say: false only if nothing is in between. *)
Definition ends_in (f g : pair_ -> bool) (ns : list item) : bool :=
  match list.last ns, head ns with Some l, Some h => negb (f (key l)) && g (key h) | _, _ => false end.

Lemma ends_in_false f g (ns : list item) : ordered (map key ns) -> initial f (map key ns) -> initial g (map key ns) -> ends_in f g ns = false ->
  between f g (map key ns) = [].
Proof.
  intros Ho Hf Hg. destruct ns as [|h ns]; [done|]. unfold ends_in. destruct (list.last (h :: ns)) as [l|] eqn:El; [|by apply last_None in El].
  cbn [head]. intros E. apply between_none. intros p Hp. apply andb_false_iff in E as [E|E].
  - left. apply negb_false_iff in E. apply last_Some in El as (ns' & El). rewrite El, map_app in Hp, Ho, Hf. cbn [map] in *.
    apply elem_of_app in Hp as [Hp|Hp]; [|apply list_elem_of_singleton in Hp; by subst p]. destruct Ho as [Hs _]. apply sorted_pairs_app in Hs as (_ & _ & Hs).
    apply (Hf p (key l)); [apply elem_of_app; by left|apply elem_of_app; right; by left|apply Hs; [done|by left]|done].
  - right. destruct (g p) eqn:Eg; [|done]. cbn [map] in *. apply elem_of_cons in Hp as [->|Hp]; [congruence|].
    destruct Ho as [Hs _]. apply StronglySorted_inv in Hs as [_ Hs]. rewrite list.Forall_forall in Hs.
    rewrite (Hg (key h) p) in E; [done|by left|by right|by apply Hs|done].
Qed.

(** The common shape of the functions that return the first and the last node. *)
Section Ends.
Context (f g : pair_ -> bool) (m : mem) (z : zskiplist) (ns : list item) (Sk : skiplist m z ns) (Ho : ordered (map key ns)).
Context (Hf : initial f (map key ns)) (Hg : initial g (map key ns)).
Context (cf tg cg : zskiplistNode -> res bool).
Hypothesis cf_ok : forall y nd, y ∈ ns -> ele nd = Some (i_ele y) -> score nd = i_score y -> cf nd = Ok (f (key y)).
Hypothesis tg_ok : forall y nd, y ∈ ns -> ele nd = Some (i_ele y) -> score nd = i_score y -> tg nd = Ok (negb (f (key y))).
Hypothesis cg_ok : forall y nd, y ∈ ns -> ele nd = Some (i_ele y) -> score nd = i_score y -> cg nd = Ok (g (key y)).

Lemma first_ok (inr : bool) : (inr = true -> ends_in f g ns = true) -> (inr = false -> between f g (map key ns) = []) ->
  exists p, (if negb inr then Ok None else
    x ← seek (zlevel z) (fuel_of z) (fun n _ _ => cf n) m (Some (header z));
    lv ← get_level m x 0;
    let x := forward lv in
    _ ← assert_ (negb (ptr_eqb x None));
    n ← load m x;
    lte ← cg n;
    Ok (if negb lte then None else x)) = Ok p /\ points m p (head (between f g (map key ns))).
Proof.
  intros Ht He. destruct inr; cbn [negb]; [|exists None; by rewrite He]. specialize (Ht eq_refl). pose proof (sl_linked _ _ _ Sk) as L.
  destruct (split_initial f ns Ho Hf) as (a & b & E & Ha & Hb).
  assert (cond_ok0 (fun n _ _ => cf n) ns (zlen a)) as Hc by (rewrite E; apply (cond_initial f); [done|done|]; intros; apply cf_ok; [by rewrite E|done|done]).
  rewrite (seek_top m z ns _ a b L E Hc) by done. cbn [mbind res_bind].
  rewrite E in L. destruct (head_forward m z a b L) as (lv & Elv & Efw). rewrite (get_level_ok _ _ _ _ Elv). cbn [mbind res_bind]. rewrite Efw.
  rewrite E, map_app. rewrite E, map_app in Ho, Hg. rewrite between_first; [|done|done|by apply Forall_fmap|by apply Forall_fmap].
  destruct b as [|x b].
  - exfalso. unfold ends_in in Ht. rewrite E, app_nil_r in Ht. destruct (list.last a) as [l|] eqn:El; [|done]. apply last_Some in El as (a' & ->).
    apply Forall_app in Ha as [_ Ha]. apply list.Forall_cons_1 in Ha as [Ha _]. destruct (head _); [|done]. by rewrite Ha in Ht.
  - cbn [head fmap option_fmap option_map map assert_ negb ptr_eqb bool_decide]. unfold ptr_eqb. rewrite bool_decide_eq_false_2 by done. cbn [assert_ negb mbind res_bind].
    assert (x ∈ a ++ x :: b) as Hx by (apply elem_of_app; right; by left).
    destruct (load_item m z _ x L Hx) as (nd & El & E1 & E2 & _). rewrite El. cbn [mbind res_bind]. rewrite (cg_ok x nd) by (by rewrite ?E). cbn [mbind res_bind].
    eexists. split; [done|]. destruct (g (key x)); [|done]. cbn [negb]. by apply (points_item m z _ x L).
Qed.

Lemma last_ok (inr : bool) : (inr = true -> ends_in f g ns = true) -> (inr = false -> between f g (map key ns) = []) ->
  exists p, (if negb inr then Ok None else
    x ← seek (zlevel z) (fuel_of z) (fun n _ _ => cg n) m (Some (header z));
    _ ← assert_ (negb (ptr_eqb x None));
    n ← load m x;
    gte ← tg n;
    Ok (if negb gte then None else x)) = Ok p /\ points m p (list.last (between f g (map key ns))).
Proof.
  intros Ht He. destruct inr; cbn [negb]; [|exists None; by rewrite He]. specialize (Ht eq_refl). pose proof (sl_linked _ _ _ Sk) as L.
  destruct (split_initial g ns Ho Hg) as (a & b & E & Ha & Hb).
  assert (cond_ok0 (fun n _ _ => cg n) ns (zlen a)) as Hc by (rewrite E; apply (cond_initial g); [done|done|]; intros; apply cg_ok; [by rewrite E|done|done]).
  rewrite (seek_top m z ns _ a b L E Hc) by done. cbn [mbind res_bind]. unfold ptr_eqb. rewrite bool_decide_eq_false_2 by done. cbn [assert_ negb mbind res_bind].
  rewrite E, map_app. rewrite E, map_app in Ho, Hf. rewrite between_last; [|done|done|by apply Forall_fmap|by apply Forall_fmap].
  rewrite fmap_last. destruct a as [|x a _] using rev_ind.
  - exfalso. unfold ends_in in Ht. rewrite E in Ht. cbn [app] in Ht. destruct (list.last b) as [l|]; [|done]. destruct b as [|y b]; [done|]. cbn [head] in Ht.
    apply list.Forall_cons_1 in Hb as [Hb _]. rewrite Hb, andb_false_r in Ht. done.
  - rewrite at_snoc, last_snoc. cbn [fmap option_fmap option_map].
    assert (x ∈ ns) as Hx by (rewrite E, !elem_of_app; left; right; by left).
    destruct (load_item m z _ x L Hx) as (nd & El & E1 & E2 & _). rewrite El. cbn [mbind res_bind]. rewrite (tg_ok x nd) by done. cbn [mbind res_bind].
    eexists. split; [done|]. destruct (f (key x)); [done|]. cbn [negb]. by apply (points_item m z _ x L).
Qed.
End Ends.

Lemma ends_code m z ns (tg tl : zskiplistNode -> res bool) (f g : pair_ -> bool) : linked m z ns ->
  (forall y nd, y ∈ ns -> ele nd = Some (i_ele y) -> score nd = i_score y -> tg nd = Ok (negb (f (key y)))) ->
  (forall y nd, y ∈ ns -> ele nd = Some (i_ele y) -> score nd = i_score y -> tl nd = Ok (g (key y))) ->
  match tail z with
  | None => Ok false
  | Some _ =>
    nt ← load m (tail z);
    gte ← tg nt;
    if negb gte then Ok false else
    lv ← get_level m (Some (header z)) 0;
    match forward lv with
    | None => Ok false
    | Some _ => nf ← load m (forward lv); tl nf
    end
  end = Ok (ends_in f g ns).
Proof.
  intros L Hg Hl. unfold ends_in. rewrite (lk_tail _ _ _ L). unfold last_ptr. destruct (list.last ns) as [l|] eqn:El; [|done].
  assert (l ∈ ns) as Hin by (apply last_Some in El as (ns' & ->); apply elem_of_app; right; by left).
  destruct (load_item m z ns l L Hin) as (nd & -> & E1 & E2 & _). cbn [mbind res_bind]. rewrite (Hg l nd Hin E1 E2). cbn [mbind res_bind].
  destruct (head_forward m z [] ns L) as (lv & Elv & Efw). change (at_ z []) with (header z) in Elv. rewrite (get_level_ok _ _ _ _ Elv). cbn [mbind res_bind]. rewrite Efw.
  destruct ns as [|h ns]; [done|]. cbn [head fmap option_fmap option_map]. destruct (f (key l)); cbn [negb andb]; [done|].
  destruct (load_item m z _ h L ltac:(by left)) as (nh & -> & E3 & E4 & _). cbn [mbind res_bind]. apply Hl; [by left|done|done].
Qed.

(** ** Score ranges *)

Definition no_range (range : zrangespec) : bool :=
  dlt (rmax range) (rmin range) || (deq (rmin range) (rmax range) && (minex range || maxex range)).

Lemma no_range_empty range v : no_range range = true -> zslValueGteMin v range && zslValueLteMax v range = false.
Proof.
  unfold no_range, zslValueGteMin, zslValueLteMax. intros H. apply not_true_iff_false. rewrite andb_true_iff. intros [H1 H2].
  assert (dle (rmin range) v = true /\ dle v (rmax range) = true) as [H1' H2'].
  { unfold dle in *. split; [destruct (minex range)|destruct (maxex range)]; first [done|by apply orb_true_iff; left]. }
  apply orb_true_iff in H as [H|H].
  - pose proof (dle_dlt_trans _ _ _ (dle_trans _ _ _ H1' H2') H) as X. by rewrite dlt_irrefl in X.
  - apply andb_true_iff in H as [He Hx]. apply deq_eq in He as [He _]. apply orb_true_iff in Hx as [Hx|Hx]; rewrite Hx in *.
    + pose proof (dlt_dle_trans _ _ _ H1 H2') as X. rewrite He in X. by rewrite dlt_irrefl in X.
    + pose proof (dle_dlt_trans _ _ _ H1' H2) as X. rewrite He in X. by rewrite dlt_irrefl in X.
Qed.

Lemma between_range range ps : between (fun p => negb (zslValueGteMin p.1 range)) (fun p => zslValueLteMax p.1 range) ps =
  filter (fun p => score_in_range range p = true) ps.
Proof. apply list_filter_iff. intros p. cbn beta. unfold score_in_range. by rewrite negb_involutive. Qed.

Lemma zslIsInRange_ok m z ns range : skiplist m z ns -> ordered (map key ns) ->
  exists inr, zslIsInRange m z range = Ok inr /\
    (inr = true -> ends_in (fun p => negb (zslValueGteMin p.1 range)) (fun p => zslValueLteMax p.1 range) ns = true) /\
    (inr = false -> between (fun p => negb (zslValueGteMin p.1 range)) (fun p => zslValueLteMax p.1 range) (map key ns) = []).
Proof.
  intros Sk Ho. unfold zslIsInRange. fold (no_range range). destruct (no_range range) eqn:En.
  - exists false. split; [done|]. split; [done|]. intros _. apply between_none. intros p _. cbn beta. pose proof (no_range_empty range p.1 En) as X.
    apply andb_false_iff in X as [X|X]; [left; by rewrite X|by right].
  - eexists. split; [apply (ends_code m z ns (fun n => Ok (zslValueGteMin (score n) range)) (fun n => Ok (zslValueLteMax (score n) range))
      (fun p => negb (zslValueGteMin p.1 range)) (fun p => zslValueLteMax p.1 range) (sl_linked _ _ _ Sk))|].
    + intros y nd _ _ E. rewrite negb_involutive, E. done.
    + intros y nd _ _ E. by rewrite E.
    + split; [done|]. apply ends_in_false; [done|apply gte_initial|apply lte_initial].
Qed.

(** [zslFirstInRange] and [zslLastInRange] never hit their assertions and return
    the first and the last pair whose score lies in the range, NULL if there is none. *)
Theorem score_range_ends m z ps range : repr m z ps ->
  exists p q, zslFirstInRange m z range = Ok p /\ zslLastInRange m z range = Ok q /\
    points m p (head (filter (fun x => score_in_range range x = true) ps)) /\
    points m q (list.last (filter (fun x => score_in_range range x = true) ps)).
Proof.
  intros (ns & Sk & -> & Ho). destruct (zslIsInRange_ok m z ns range Sk Ho) as (inr & E & H1 & H2). rewrite <- between_range.
  destruct (first_ok _ _ m z ns Sk Ho (gte_initial range _) (lte_initial range _) (fun n => Ok (negb (zslValueGteMin (score n) range)))
    (fun n => Ok (zslValueLteMax (score n) range))) with (inr := inr) as (p & Ep & Hp); [by intros y nd _ _ ->|by intros y nd _ _ ->|done|done|].
  destruct (last_ok _ _ m z ns Sk Ho (gte_initial range _) (lte_initial range _) (fun n => Ok (zslValueGteMin (score n) range))
    (fun n => Ok (zslValueLteMax (score n) range))) with (inr := inr) as (q & Eq & Hq);
    [intros y nd _ _ ->; by rewrite negb_involutive|by intros y nd _ _ ->|done|done|].
  exists p, q. unfold zslFirstInRange, zslLastInRange. rewrite E. cbn [mbind res_bind]. done.
Qed.

Lemma score_range_ends_witness : exists m z, repr m z demo_scores /\
  let range := mk_range (Fin 1) (Fin 2) true false in
  exists p q, zslFirstInRange m z range = Ok p /\ zslLastInRange m z range = Ok q /\ points m p (Some (Fin 2, str "a")) /\ points m q (Some (Fin 2, str "b")).
Proof.
  destruct demo_scores_repr as (m & z & R). exists m, z. split; [exact R|]. intros range. exact (score_range_ends m z demo_scores range R).
Defined.

(** ** Lexicographic ranges *)

(** These are meant for sorted sets in which all scores are the same. *)
Definition same_score (ps : list pair_) : Prop := forall p q, p ∈ ps -> q ∈ ps -> p.1 = q.1.
Lemma demo_words_same : same_score demo_words.
Proof. intros p q Hp Hq. unfold demo_words in *. repeat (apply elem_of_cons in Hp as [->|Hp]; [|]); try (by apply not_elem_of_nil in Hp).
  all: repeat (apply elem_of_cons in Hq as [->|Hq]; [done|]); by apply not_elem_of_nil in Hq.
Qed.
Definition short (b : lexbound) : Prop := zlen (bound_text b) < 2 ^ 31.
Definition lex_ok (range : zlexrangespec) : Prop := short (lmin range) /\ short (lmax range).

Definition lex_below (range : zlexrangespec) (p : pair_) : bool := negb (zslLexValueGteMin p.2 range).
Definition lex_upto (range : zlexrangespec) (p : pair_) : bool := zslLexValueLteMax p.2 range.
Definition in_lex_range (range : zlexrangespec) (p : pair_) : bool := zslLexValueGteMin p.2 range && zslLexValueLteMax p.2 range.

(** The place of a string relative to a bound. *)
Definition bound_cmp (v : list Z) (b : lexbound) : comparison :=
  match b with MinString => Gt | MaxString => Lt | Str s => Sds.lex v s end.

Lemma sdscmplex_sign v b : zlen v < 2 ^ 31 -> short b -> Z.compare (sdscmplex (Str v) b) 0 = bound_cmp v b.
Proof. intros Hv Hb. destruct b as [| |s]; [done|done|]. by apply Sds.contents_cmp_lex. Qed.

Lemma gte_cmp v range : zlen v < 2 ^ 31 -> lex_ok range -> zslLexValueGteMin v range =
  match bound_cmp v (lmin range) with Gt => true | Eq => negb (lminex range) | Lt => false end.
Proof.
  intros Hv [Hb _]. unfold zslLexValueGteMin. rewrite <- (sdscmplex_sign v (lmin range) Hv Hb). unfold Z.ltb, Z.leb. rewrite (Z.compare_antisym _ 0).
  destruct (lminex range), (sdscmplex _ _ ?= 0); done.
Qed.

Lemma lte_cmp v range : zlen v < 2 ^ 31 -> lex_ok range -> zslLexValueLteMax v range =
  match bound_cmp v (lmax range) with Lt => true | Eq => negb (lmaxex range) | Gt => false end.
Proof.
  intros Hv [_ Hb]. unfold zslLexValueLteMax. rewrite <- (sdscmplex_sign v (lmax range) Hv Hb). unfold Z.ltb, Z.leb.
  destruct (lmaxex range), (sdscmplex _ _ ?= 0); done.
Qed.

(** A smaller string compares no higher. *)
Lemma bound_cmp_mono v w b : Sds.lex v w = Lt -> bound_cmp v b <> Lt -> bound_cmp w b = Gt.
Proof.
  intros Hvw. destruct b as [| |s]; cbn; [done|done|]. intros Hv. destruct (Sds.lex w s) eqn:E; [| |done].
  - apply lex_eq in E. by subst s.
  - by rewrite (lex_trans v w s Hvw E) in Hv.
Qed.

Lemma same_lt (ps : list pair_) p q : same_score ps -> p ∈ ps -> q ∈ ps -> pair_lt p q = true -> Sds.lex p.2 q.2 = Lt.
Proof.
  intros Hs Hp Hq. unfold pair_lt. rewrite (Hs p q Hp Hq), dlt_irrefl. cbn. intros H. apply andb_true_iff in H as [_ H]. by apply lexlt_spec.
Qed.

Lemma lex_initial range ps : ordered ps -> same_score ps -> lex_ok range -> initial (lex_below range) ps /\ initial (lex_upto range) ps.
Proof.
  intros Ho Hs Hr. split; intros p q Hp Hq Hlt; pose proof (same_lt ps p q Hs Hp Hq Hlt) as Hl; destruct (good_key ps p Ho Hp) as [_ Zp], (good_key ps q Ho Hq) as [_ Zq].
  - unfold lex_below. rewrite !gte_cmp by done. pose proof (bound_cmp_mono p.2 q.2 (lmin range) Hl) as M.
    destruct (bound_cmp p.2 (lmin range)); [rewrite M by done|done|rewrite M by done]; done.
  - unfold lex_upto. rewrite !lte_cmp by done. pose proof (bound_cmp_mono p.2 q.2 (lmax range) Hl) as M.
    destruct (bound_cmp p.2 (lmax range)); [rewrite M by done|done|rewrite M by done]; done.
Qed.

Lemma between_lex range ps : between (lex_below range) (lex_upto range) ps = filter (fun p => in_lex_range range p = true) ps.
Proof. apply list_filter_iff. intros p. cbn beta. unfold in_lex_range, lex_below. by rewrite negb_involutive. Qed.

(** The bounds that [zslIsInLexRange] takes for equal although one of them is the
    infinite string with the same spelling. *)
Definition lex_clash (range : zlexrangespec) : bool :=
  match lmin range, lmax range with
  | MinString, Str s => bool_decide (s = str "minstring") && (lminex range || lmaxex range)
  | Str s, MaxString => bool_decide (s = str "maxstring") && (lminex range || lmaxex range)
  | _, _ => false
  end.

Definition no_lex_range (range : zlexrangespec) : bool :=
  (1 <? sdscmplex (lmin range) (lmax range)) ||
  ((ele_cmp (bound_text (lmin range)) (bound_text (lmax range)) =? 0) && (lminex range || lmaxex range)).

Lemma bound_between v a b : bound_cmp v (Str a) <> Lt -> bound_cmp v (Str b) <> Gt -> Sds.lex a b <> Gt /\ (a = b -> v = a).
Proof.
  cbn. intros Ha Hb. split.
  - intros H. pose proof (lex_opp a b) as X. rewrite H in X. cbn in X. destruct (Sds.lex v b) eqn:E; [|by rewrite (lex_trans v b a E X) in Ha|done].
    apply lex_eq in E. subst v. by rewrite X in Ha.
  - intros <-. destruct (Sds.lex v a) eqn:E; [by apply lex_eq|done|done].
Qed.

Lemma gte_not_lt v range : zlen v < 2 ^ 31 -> lex_ok range -> zslLexValueGteMin v range = true ->
  bound_cmp v (lmin range) <> Lt /\ (lminex range = true -> bound_cmp v (lmin range) = Gt).
Proof. intros Hv Hr. rewrite gte_cmp by done. destruct (bound_cmp v (lmin range)), (lminex range); done. Qed.
Lemma lte_not_gt v range : zlen v < 2 ^ 31 -> lex_ok range -> zslLexValueLteMax v range = true ->
  bound_cmp v (lmax range) <> Gt /\ (lmaxex range = true -> bound_cmp v (lmax range) = Lt).
Proof. intros Hv Hr. rewrite lte_cmp by done. destruct (bound_cmp v (lmax range)), (lmaxex range); done. Qed.

Lemma no_lex_range_empty range v : zlen v < 2 ^ 31 -> lex_ok range -> lex_clash range = false -> no_lex_range range = true ->
  zslLexValueGteMin v range = true -> zslLexValueLteMax v range = true -> False.
Proof.
  intros Hv Hr Hc Hn H1 H2. apply gte_not_lt in H1 as [H1 X1]; [|done|done]. apply lte_not_gt in H2 as [H2 X2]; [|done|done].
  destruct Hr as [Hr1 Hr2]. unfold no_lex_range, lex_clash, short in *. destruct (lmin range) as [| |a], (lmax range) as [| |b]; cbn in H1, H2; try done.
  all: rewrite sdscmp_eq in Hn by done; cbn [bound_text sdscmplex] in *.
  - rewrite (bool_decide_ext (str "minstring" = b) (b = str "minstring")) in Hn by (split; by intros ->). by rewrite Hc in Hn.
  - by rewrite Hc in Hn.
  - destruct (bound_between v a b H1 H2) as [Hab Heq]. apply orb_true_iff in Hn as [Hn|Hn].
    + apply Hab. rewrite <- (Sds.contents_cmp_lex a b) by done. apply Z.compare_gt_iff. lia.
    + apply andb_true_iff in Hn as [Hn Hx]. apply bool_decide_eq_true in Hn. specialize (Heq Hn). subst a b. cbn in *. rewrite lex_refl in *.
      apply orb_true_iff in Hx as [Hx|Hx]; [by specialize (X1 Hx)|by specialize (X2 Hx)].
Qed.

Lemma on_ele_ok (h : list Z -> bool) y nd : ele nd = Some (i_ele y) -> on_ele nd h = Ok (h (key y).2).
Proof. unfold on_ele. by intros ->. Qed.

Lemma zslIsInLexRange_ok m z ns range : skiplist m z ns -> ordered (map key ns) -> same_score (map key ns) -> lex_ok range -> lex_clash range = false ->
  exists inr, zslIsInLexRange m z range = Ok inr /\
    (inr = true -> ends_in (lex_below range) (lex_upto range) ns = true) /\
    (inr = false -> between (lex_below range) (lex_upto range) (map key ns) = []).
Proof.
  intros Sk Ho Hs Hr Hc. destruct (lex_initial range _ Ho Hs Hr) as [I1 I2]. unfold zslIsInLexRange. fold (no_lex_range range). destruct (no_lex_range range) eqn:En.
  - exists false. split; [done|]. split; [done|]. intros _. apply between_none. intros p Hp. destruct (good_key _ p Ho Hp) as [_ Hz]. unfold lex_below, lex_upto.
    destruct (zslLexValueGteMin p.2 range) eqn:E1; [|by left]. destruct (zslLexValueLteMax p.2 range) eqn:E2; [|by right]. by destruct (no_lex_range_empty range p.2).
  - eexists. split; [apply (ends_code m z ns (fun n => on_ele n (fun s => zslLexValueGteMin s range)) (fun n => on_ele n (fun s => zslLexValueLteMax s range))
      (lex_below range) (lex_upto range) (sl_linked _ _ _ Sk))|].
    + intros y nd _ E _. unfold lex_below. rewrite negb_involutive. by rewrite (on_ele_ok _ y).
    + intros y nd _ E _. by rewrite (on_ele_ok _ y).
    + split; [done|]. by apply ends_in_false.
Qed.

Lemma delete_by_lex_refines m z ps range : repr m z ps -> same_score ps -> lex_ok range ->
  exists m' z', zslDeleteRangeByLex m z range = Ok (m', z', (segment_out ps (in_lex_range range)).1, (segment_out ps (in_lex_range range)).2) /\
    segment_deleted m' z' ps (in_lex_range range).
Proof.
  intros R Hs Hr. destruct (lex_initial range _ (repr_ordered _ _ _ R) Hs Hr) as [I1 I2].
  destruct (delete_segment (lex_below range) (lex_upto range) (fun n _ _ => on_ele n (fun s => negb (zslLexValueGteMin s range)))
    (fun n _ => on_ele n (fun s => zslLexValueLteMax s range)) m z ps R I1 I2) as (m' & z' & E & H').
  - intros y nd s k _ E _. by rewrite (on_ele_ok _ y).
  - intros y nd k _ E _. by rewrite (on_ele_ok _ y).
  - exists m', z'. split.
    + unfold zslDeleteRangeByLex. rewrite E. f_equal. f_equal; [f_equal|].
      all: unfold segment_out; cbn [fst snd]; f_equal; apply list_filter_iff; intros p; unfold in_lex_range, lex_below; by rewrite negb_involutive.
    + unfold segment_deleted in *. erewrite list_filter_iff; [exact H'|]. intros p. unfold in_lex_range, lex_below. cbn beta. by rewrite negb_involutive.
Qed.

(** In a sorted set whose scores are all the same, the lexicographic functions
    work on the elements between the two bounds: [zslFirstInLexRange] and
    [zslLastInLexRange] return the first and the last of them and
    [zslDeleteRangeByLex] removes exactly them, except that the first two find
    nothing in a range with clashing bounds. *)
Theorem lex_range_operations m z ps range : repr m z ps -> same_score ps -> lex_ok range ->
  (lex_clash range = false -> exists p q, zslFirstInLexRange m z range = Ok p /\ zslLastInLexRange m z range = Ok q /\
    points m p (head (filter (fun x => in_lex_range range x = true) ps)) /\
    points m q (list.last (filter (fun x => in_lex_range range x = true) ps))) /\
  exists m' z', zslDeleteRangeByLex m z range = Ok (m', z', (segment_out ps (in_lex_range range)).1, (segment_out ps (in_lex_range range)).2) /\
    segment_deleted m' z' ps (in_lex_range range).
Proof.
  intros R Hs Hr. split; [|by apply delete_by_lex_refines]. intros Hc. destruct R as (ns & Sk & -> & Ho). destruct (lex_initial range _ Ho Hs Hr) as [I1 I2].
  destruct (zslIsInLexRange_ok m z ns range Sk Ho Hs Hr Hc) as (inr & E & H1 & H2). rewrite <- between_lex.
  destruct (first_ok _ _ m z ns Sk Ho I1 I2 (fun n => on_ele n (fun s => negb (zslLexValueGteMin s range)))
    (fun n => on_ele n (fun s => zslLexValueLteMax s range))) with (inr := inr) as (p & Ep & Hp);
    [intros y nd _ Ey _; by rewrite (on_ele_ok _ y)|intros y nd _ Ey _; by rewrite (on_ele_ok _ y)|done|done|].
  destruct (last_ok _ _ m z ns Sk Ho I1 I2 (fun n => on_ele n (fun s => zslLexValueGteMin s range))
    (fun n => on_ele n (fun s => zslLexValueLteMax s range))) with (inr := inr) as (q & Eq & Hq);
    [intros y nd _ Ey _; unfold lex_below; rewrite negb_involutive; by rewrite (on_ele_ok _ y)|intros y nd _ Ey _; by rewrite (on_ele_ok _ y)|done|done|].
  exists p, q. unfold zslFirstInLexRange, zslLastInLexRange. rewrite E. cbn [mbind res_bind]. done.
Qed.

Lemma lex_range_operations_witness : exists m z, repr m z demo_words /\
  let range := mk_lexrange (Str (str "a")) (Str (str "n")) true false in
  exists p, zslFirstInLexRange m z range = Ok p /\ points m p (Some (Fin 0, str "b")).
Proof.
  destruct demo_words_repr as (m & z & R). exists m, z. split; [exact R|]. intros range.
  destruct (lex_range_operations m z demo_words range R demo_words_same) as [X _]; [split; vm_compute; reflexivity|].
  destruct (X eq_refl) as (p & q & E & _ & Hp & _). exists p. split; [exact E|exact Hp].
Defined.

(** The range from [-] to [(minstring] contains every element below "minstring",
    yet [zslFirstInLexRange] and [zslLastInLexRange] return NULL on every skiplist:
    [zslIsInLexRange] compares the spelling of the shared string. [zslDeleteRangeByLex],
    which does not ask it, removes those elements. *)
Theorem lex_clash_hides_elements m z ps e : repr m z ps -> same_score ps -> e ∈ elements_of ps -> Sds.lex e (str "minstring") = Lt ->
  exists range m' z' n gone, zslParseLexRangeItem (str "-") = Ok (Some (lmin range, lminex range)) /\
    zslParseLexRangeItem (str "(minstring") = Ok (Some (lmax range, lmaxex range)) /\
    zslFirstInLexRange m z range = Ok None /\ zslLastInLexRange m z range = Ok None /\
    zslDeleteRangeByLex m z range = Ok (m', z', n, gone) /\ Some e ∈ gone.
Proof.
  intros R Hs Hin He. set (range := mk_lexrange MinString (Str (str "minstring")) false true). exists range.
  assert (lex_ok range) as Hr by done. destruct (delete_by_lex_refines m z ps range R Hs Hr) as (m' & z' & E & _). exists m', z'. eexists. eexists.
  split_and!; [done|done|done|done|exact E|]. unfold segment_out. cbn [snd].
  apply list_elem_of_fmap in Hin as (p & -> & Hp). apply list_elem_of_fmap. exists p. split; [done|]. apply list_elem_of_filter. split; [|done].
  destruct (good_key ps p (repr_ordered _ _ _ R) Hp) as [_ Hz]. unfold in_lex_range. rewrite gte_cmp, lte_cmp by done. unfold range. cbn [bound_cmp lmin lmax]. by rewrite He.
Qed.

Lemma lex_clash_hides_elements_witness : exists m z, repr m z demo_words /\
  exists range m' z' n gone, zslParseLexRangeItem (str "-") = Ok (Some (lmin range, lminex range)) /\
    zslParseLexRangeItem (str "(minstring") = Ok (Some (lmax range, lmaxex range)) /\
    zslFirstInLexRange m z range = Ok None /\ zslLastInLexRange m z range = Ok None /\
    zslDeleteRangeByLex m z range = Ok (m', z', n, gone) /\ Some (str "b") ∈ gone.
Proof.
  destruct demo_words_repr as (m & z & R). exists m, z. split; [exact R|]. apply (lex_clash_hides_elements m z demo_words (str "b") R demo_words_same); [right; left|reflexivity].
Defined.
End SkiplistQuery.
