(* ===== verification/Networking.v ===== *)
(** * The request parser: src/redis-stable/src/networking.c

    Reading and parsing client requests: the RESP protocol (a multi bulk count, then
    a length and the bytes of each argument), the inline protocol, the loop that
    executes complete commands and the socket handler that feeds it. The query
    buffer is the contents of its string ([Sds] verifies the string functions); the
    command table is a parameter. [NetworkingOps] verifies this code. *)
From S2P Require Import Prelude Util Sds SdsText.

Module Networking.

Definition PROTO_IOBUF_LEN : Z := 1024 * 16.
Definition PROTO_INLINE_MAX_SIZE : Z := 1024 * 64.
Definition PROTO_MBULK_BIG_ARG : Z := 1024 * 32.

Definition CLIENT_SLAVE : Z := 2 ^ 0.
Definition CLIENT_MASTER : Z := 2 ^ 1.
Definition CLIENT_MULTI : Z := 2 ^ 3.
Definition CLIENT_BLOCKED : Z := 2 ^ 4.
Definition CLIENT_CLOSE_AFTER_REPLY : Z := 2 ^ 6.
Definition CLIENT_CLOSE_ASAP : Z := 2 ^ 10.
Definition CLIENT_ASKING : Z := 2 ^ 9.
Definition CLIENT_REPLY_SKIP_NEXT : Z := 2 ^ 23.
Definition CLIENT_REPLY_SKIP : Z := 2 ^ 24.

Inductive request := REQ_UNKNOWN | PROTO_REQ_INLINE | PROTO_REQ_MULTIBULK.

Inductive protocol_error :=
| TooBigInline | UnbalancedQuotes | TooBigMbulkCount | InvalidMbulkCount | TooBigBulkCount | ExpectedDollar (got : Z) | InvalidBulkLength.

(** The fields of [client] that the parser uses. [argv] holds the contents of the
    argument objects, [argv_cap] the size of the array; [cmd_asking] says that [cmd]
    is the ASKING command; [errors] logs the protocol errors replied, [fed] the bytes
    passed on to sub-slaves. Time stamps and statistics are left out. *)
Record client := mk_client {
  querybuf : list Z; reqtype : request; multibulklen : Z; bulklen : Z;
  argv : list (list Z); argv_cap : Z; flags : Z; blocked_module : bool; cmd_asking : bool;
  read_reploff : Z; reploff : Z; pending_querybuf : list Z; fed : list Z; errors : list protocol_error }.

Definition with_querybuf (c : client) (q : list Z) : client :=
  mk_client q (reqtype c) (multibulklen c) (bulklen c) (argv c) (argv_cap c) (flags c) (blocked_module c) (cmd_asking c)
    (read_reploff c) (reploff c) (pending_querybuf c) (fed c) (errors c).
Definition with_reqtype (c : client) (r : request) : client :=
  mk_client (querybuf c) r (multibulklen c) (bulklen c) (argv c) (argv_cap c) (flags c) (blocked_module c) (cmd_asking c)
    (read_reploff c) (reploff c) (pending_querybuf c) (fed c) (errors c).
Definition with_lens (c : client) (mbl bl : Z) : client :=
  mk_client (querybuf c) (reqtype c) mbl bl (argv c) (argv_cap c) (flags c) (blocked_module c) (cmd_asking c)
    (read_reploff c) (reploff c) (pending_querybuf c) (fed c) (errors c).
Definition with_argv (c : client) (a : list (list Z)) (cap : Z) : client :=
  mk_client (querybuf c) (reqtype c) (multibulklen c) (bulklen c) a cap (flags c) (blocked_module c) (cmd_asking c)
    (read_reploff c) (reploff c) (pending_querybuf c) (fed c) (errors c).
Definition with_flags (c : client) (f : Z) : client :=
  mk_client (querybuf c) (reqtype c) (multibulklen c) (bulklen c) (argv c) (argv_cap c) f (blocked_module c) (cmd_asking c)
    (read_reploff c) (reploff c) (pending_querybuf c) (fed c) (errors c).
Definition with_repl (c : client) (read_off off : Z) (pending f : list Z) : client :=
  mk_client (querybuf c) (reqtype c) (multibulklen c) (bulklen c) (argv c) (argv_cap c) (flags c) (blocked_module c) (cmd_asking c)
    read_off off pending f (errors c).
Definition with_error (c : client) (e : protocol_error) : client :=
  mk_client (querybuf c) (reqtype c) (multibulklen c) (bulklen c) (argv c) (argv_cap c) (flags c) (blocked_module c) (cmd_asking c)
    (read_reploff c) (reploff c) (pending_querybuf c) (fed c) (errors c ++ [e]).

Definition has (c : client) (f : Z) : bool := negb (Z.land (flags c) f =? 0).

(** ** Library functions on the contents of the buffer *)

(** [strchr(s, c)] for a character other than NUL, as an offset: the search ends at
    the first NUL, the terminator at the latest. *)
Fixpoint strchr (s : list Z) (c : Z) : option Z :=
  match s with
  | [] => None
  | x :: s => if x =? c then Some 0 else if x =? 0 then None else i ← strchr s c; Some (i + 1)
  end.

(** [sdsrange(s, pos, -1)], see [Sds.sdsrange_ok]. *)
Definition trim_to (c : client) (pos : Z) : client := with_querybuf c (Sds.substring pos (-1) (querybuf c)).

(** Strings by their contents, for [sdssplitargs]. *)
#[global] Instance contents_api : SdsText.SdsApi (list Z) := {
  api_newlen c := Ok c; api_catlen s t := Ok (s ++ t); api_bytes s := Ok s; api_repr s c := s = c }.

(** [addReplyError] and [setProtocolError] *)
Definition setProtocolError (e : protocol_error) (c : client) (pos : Z) : client :=
  let c := with_error c e in
  let c := with_flags c (Z.lor (flags c) CLIENT_CLOSE_AFTER_REPLY) in
  trim_to c pos.

(** [c->argv[c->argc++] = ...] *)
Definition put_arg (c : client) (a : list Z) : res client :=
  if zlen (argv c) <? argv_cap c then Ok (with_argv c (argv c ++ [a]) (argv_cap c)) else Fault OutOfBounds.

(** ** Inline requests *)

Fixpoint put_args (c : client) (l : list (list Z)) : res client :=
  match l with
  | [] => Ok c
  | a :: l => c ← (if negb (zlen a =? 0) then put_arg c a else Ok c); put_args c l
  end.

(** The second component is [true] for [C_OK]. *)
Definition processInlineBuffer (c : client) : res (client * bool) :=
  match strchr (querybuf c) 10 with
  | None =>
    Ok (if PROTO_INLINE_MAX_SIZE <? zlen (querybuf c) then setProtocolError TooBigInline c 0 else c, false)
  | Some newline =>
    newline ← (if negb (newline =? 0) then
        x ← cpeek (querybuf c) (newline - 1);
        Ok (if x =? 13 then newline - 1 else newline)
      else Ok newline);
    let querylen := newline in
    aux ← rd (querybuf c) 0 querylen;
    args ← SdsText.sdssplitargs aux;
    match args with
    | None => Ok (setProtocolError UnbalancedQuotes c 0, false)
    | Some args =>
      let c := trim_to c (i32 (querylen + 2)) in
      let c := if negb (zlen args =? 0) then with_argv c [] (zlen args) else with_argv c [] (argv_cap c) in
      c ← put_args c args;
      Ok (c, true)
    end
  end.

(** ** RESP requests *)

(** How the loop over the arguments ends: left with [break] or its condition, or
    the function returned [C_ERR]. *)
Inductive loop_end := Left (c : client) (pos : Z) | Returned (c : client).

(** Reading a bulk length: the new position, [None] for [break]. *)
Definition read_bulklen (c : client) (pos : Z) : res (client + client * option Z) :=
  rest ← rd (querybuf c) pos (zlen (querybuf c) - pos);
  match strchr rest 13 with
  | None =>
    if PROTO_INLINE_MAX_SIZE <? zlen (querybuf c) then Ok (inl (setProtocolError TooBigBulkCount c 0))
    else Ok (inr (c, None))
  | Some off =>
    let newline := pos + off in
    if i32 (zlen (querybuf c)) - 2 <? newline then Ok (inr (c, None)) else
    x ← cpeek (querybuf c) pos;
    if negb (x =? chr "$") then Ok (inl (setProtocolError (ExpectedDollar x) c pos)) else
    num ← rd (querybuf c) (pos + 1) (newline - (pos + 1));
    match string2ll num with
    | None => Ok (inl (setProtocolError InvalidBulkLength c pos))
    | Some ll =>
      if (ll <? 0) || (512 * 1024 * 1024 <? ll) then Ok (inl (setProtocolError InvalidBulkLength c pos)) else
      let pos := i32 (pos + (newline - pos) + 2) in
      let '(c, pos) := if PROTO_MBULK_BIG_ARG <=? ll then (trim_to c pos, 0) else (c, pos) in
      Ok (inr (with_lens c (multibulklen c) ll, Some pos))
    end
  end.

Fixpoint bulk_loop (fuel : nat) (c : client) (pos : Z) : res loop_end :=
  if multibulklen c =? 0 then Ok (Left c pos) else
  match fuel with
  | O => Fault OutOfFuel
  | S fuel =>
    r ← (if bulklen c =? -1 then read_bulklen c pos else Ok (inr (c, Some pos)));
    match r with
    | inl c => Ok (Returned c)
    | inr (c, None) => Ok (Left c pos)
    | inr (c, Some pos) =>
      if u64 (zlen (querybuf c) - pos) <? u32 (bulklen c + 2) then Ok (Left c pos) else
      '(c, pos) ← (if (pos =? 0) && (PROTO_MBULK_BIG_ARG <=? bulklen c) && (i32 (zlen (querybuf c)) =? bulklen c + 2) then
          a ← rd (querybuf c) 0 (zlen (querybuf c) - 2);
          c ← put_arg c a;
          Ok (with_querybuf c [], 0)
        else
          a ← rd (querybuf c) pos (bulklen c);
          c ← put_arg c a;
          Ok (c, i32 (pos + bulklen c + 2)));
      bulk_loop fuel (with_lens c (multibulklen c - 1) (-1)) pos
    end
  end.

Definition processMultibulkBuffer (c : client) : res (client * bool) :=
  (* [Some]: go on at this position; otherwise return *)
  start ← (if multibulklen c =? 0 then
      _ ← assert_ (zlen (argv c) =? 0);
      match strchr (querybuf c) 13 with
      | None => Ok (if PROTO_INLINE_MAX_SIZE <? zlen (querybuf c) then setProtocolError TooBigMbulkCount c 0 else c, false, None)
      | Some newline =>
        if i32 (zlen (querybuf c)) - 2 <? newline then Ok (c, false, None) else
        x ← cpeek (querybuf c) 0;
        _ ← assert_ (x =? chr "*");
        num ← rd (querybuf c) 1 (newline - 1);
        match string2ll num with
        | None => Ok (setProtocolError InvalidMbulkCount c 0, false, None)
        | Some ll =>
          if 1024 * 1024 <? ll then Ok (setProtocolError InvalidMbulkCount c 0, false, None) else
          let pos := i32 (newline + 2) in
          if ll <=? 0 then Ok (trim_to c pos, true, None) else
          Ok (with_argv (with_lens c ll (bulklen c)) [] ll, false, Some pos)
        end
      end
    else Ok (c, false, Some 0));
  match start with
  | (c, ok, None) => Ok (c, ok)
  | (c, _, Some pos) =>
    _ ← assert_ (0 <? multibulklen c);
    e ← bulk_loop (Z.to_nat (multibulklen c)) c pos;
    match e with
    | Returned c => Ok (c, false)
    | Left c pos =>
      let c := if negb (pos =? 0) then trim_to c pos else c in
      Ok (c, multibulklen c =? 0)
    end
  end.

(** ** Execution *)

Definition freeClientArgv (c : client) : client :=
  mk_client (querybuf c) (reqtype c) (multibulklen c) (bulklen c) [] (argv_cap c) (flags c) (blocked_module c) false
    (read_reploff c) (reploff c) (pending_querybuf c) (fed c) (errors c).

Definition resetClient (c : client) : client :=
  let prev_asking := cmd_asking c in
  let c := freeClientArgv c in
  let c := with_lens (with_reqtype c REQ_UNKNOWN) 0 (-1) in
  let c := if negb (has c CLIENT_MULTI) && negb prev_asking then with_flags c (Z.ldiff (flags c) CLIENT_ASKING) else c in
  let c := with_flags c (Z.ldiff (flags c) CLIENT_REPLY_SKIP) in
  if has c CLIENT_REPLY_SKIP_NEXT then
    with_flags c (Z.ldiff (Z.lor (flags c) CLIENT_REPLY_SKIP) CLIENT_REPLY_SKIP_NEXT)
  else c.

Section Execution.
(** The rest of the server: [processCommand] runs the command in [argv] and returns
    the client, the state, whether it returned [C_OK] and whether the client still
    exists; [paused] is [clientsArePaused()]. *)
Context {St : Type} (processCommand : client -> St -> res (client * St * bool * bool)) (paused : bool).

Fixpoint input_loop (fuel : nat) (c : client) (s : St) : res (client * St) :=
  if zlen (querybuf c) =? 0 then Ok (c, s) else
  if negb (has c CLIENT_SLAVE) && paused then Ok (c, s) else
  if has c CLIENT_BLOCKED then Ok (c, s) else
  if has c (Z.lor CLIENT_CLOSE_AFTER_REPLY CLIENT_CLOSE_ASAP) then Ok (c, s) else
  match fuel with
  | O => Fault OutOfFuel
  | S fuel =>
    c ← (match reqtype c with
         | REQ_UNKNOWN => x ← cpeek (querybuf c) 0; Ok (with_reqtype c (if x =? chr "*" then PROTO_REQ_MULTIBULK else PROTO_REQ_INLINE))
         | _ => Ok c
         end);
    '(c, ok) ← (match reqtype c with PROTO_REQ_INLINE => processInlineBuffer c | _ => processMultibulkBuffer c end);
    if negb ok then Ok (c, s) else
    if zlen (argv c) =? 0 then input_loop fuel (resetClient c) s else
    '(c, s, ok, alive) ← processCommand c s;
    let c := if ok : bool then
        let c := if has c CLIENT_MASTER && negb (has c CLIENT_MULTI)
                 then with_repl c (read_reploff c) (i64 (read_reploff c - zlen (querybuf c))) (pending_querybuf c) (fed c) else c in
        if negb (has c CLIENT_BLOCKED) || negb (blocked_module c) then resetClient c else c
      else c in
    if negb alive then Ok (c, s) else input_loop fuel c s
  end.

Definition processInputBuffer (c : client) (s : St) : res (client * St) := input_loop (S (length (querybuf c))) c s.

Definition readlen (c : client) : Z :=
  let readlen := PROTO_IOBUF_LEN in
  match reqtype c with
  | PROTO_REQ_MULTIBULK =>
    if negb (multibulklen c =? 0) && negb (bulklen c =? -1) && (PROTO_MBULK_BIG_ARG <=? bulklen c) then
      let remaining := i32 (u64 (u32 (bulklen c + 2) - zlen (querybuf c))) in
      if remaining <? readlen then remaining else readlen
    else readlen
  | _ => readlen
  end.

(** What the [read] of the socket does: nothing to read yet, an error, or the next
    bytes of the stream, [nread] of them. *)
Inductive read_result := EAGAIN | ReadError | Bytes (nread : list Z).

(** [None]: the client was freed. *)
Definition readQueryFromClient (client_max_querybuf_len : Z) (r : read_result) (c : client) (s : St) : res (option client * St) :=
  match r with
  | EAGAIN => Ok (Some c, s)
  | ReadError => Ok (None, s)
  | Bytes nread =>
    if readlen c <? zlen nread then Fault OutOfBounds else
    if zlen nread =? 0 then Ok (None, s) else
    let master := has c CLIENT_MASTER in
    let c := if master then with_repl c (read_reploff c) (reploff c) (pending_querybuf c ++ nread) (fed c) else c in
    let c := with_querybuf c (querybuf c ++ nread) in
    let c := if master then with_repl c (i64 (read_reploff c + zlen nread)) (reploff c) (pending_querybuf c) (fed c) else c in
    if client_max_querybuf_len <? zlen (querybuf c) then Ok (None, s) else
    if negb master then
      '(c, s) ← processInputBuffer c s; Ok (Some c, s)
    else
      let prev_offset := u64 (reploff c) in
      '(c, s) ← processInputBuffer c s;
      let applied := u64 (reploff c - prev_offset) in
      if negb (applied =? 0) then
        f ← rd (pending_querybuf c) 0 applied;
        Ok (Some (with_repl c (read_reploff c) (reploff c) (Sds.substring (i32 applied) (-1) (pending_querybuf c)) (fed c ++ f)), s)
      else Ok (Some c, s)
  end.
End Execution.

End Networking.
