(* ===== verification/NetworkingOps.v ===== *)
(** * The request parser verified: src/redis-stable/src/networking.c

    The wire encoding of commands, the states the parser can be in between two
    reads of the socket, and the theorem that the way the bytes arrive does not
    matter. The second part is about inline requests and about the limits of the
    parser. *)
From S2P Require Import Prelude Util Sds SdsText Networking.

Module NetworkingOps.
Export Networking.

(** ** The wire format *)

Definition crlf : list Z := [13; 10].
Definition enc_arg (a : list Z) : list Z := chr "$" :: dec (zlen a) ++ crlf ++ a ++ crlf.
Definition enc_args (l : list (list Z)) : list Z := concat (map enc_arg l).
Definition enc_cmd (l : list (list Z)) : list Z := chr "*" :: dec (zlen l) ++ crlf ++ enc_args l.
Definition enc (cmds : list (list (list Z))) : list Z := concat (map enc_cmd cmds).

Lemma zlen_crlf : zlen crlf = 2.
Proof. done. Qed.
#[export] Hint Rewrite zlen_crlf : zlen.

(** The limits of the protocol: 1 to 2^20 arguments of at most 512 MB each. *)
Definition arg_ok (a : list Z) : Prop := zlen a <= 512 * 1024 * 1024.
Definition cmd_ok (l : list (list Z)) : Prop := 1 <= zlen l <= 1024 * 1024 /\ Forall arg_ok l.

(** ** Lines *)

Definition no_eol (p : list Z) : Prop := Forall (fun c => c <> 13 /\ c <> 10 /\ c <> 0) p.

Lemma strchr_none p c : c <> 0 -> Forall (fun x => x <> c) p -> strchr p c = None.
Proof.
  intros Hc. induction 1 as [|x p Hx _ IH]; [done|]. cbn. rewrite (proj2 (Z.eqb_neq x c)) by done. rewrite IH. by case_match.
Qed.

Lemma strchr_some p c q : Forall (fun x => x <> c /\ x <> 0) p -> strchr (p ++ c :: q) c = Some (zlen p).
Proof.
  induction 1 as [|x p [Hx H0] _ IH]; cbn [app strchr]; [by rewrite Z.eqb_refl|].
  rewrite (proj2 (Z.eqb_neq x c)), (proj2 (Z.eqb_neq x 0)) by done. rewrite IH. cbn. by rewrite zlen_cons.
Qed.

Lemma no_eol_13 p : no_eol p -> Forall (fun x => x <> 13 /\ x <> 0) p.
Proof. intros Hp. eapply list.Forall_impl; [exact Hp|]. cbn. tauto. Qed.

(** A buffer in which a line [h] has begun: either the line is complete, or the
    parser sees no end of line, or its carriage return comes too late. *)
Lemma line_cases h r fut X : no_eol h -> r ++ fut = h ++ crlf ++ X ->
  (exists r', r = h ++ crlf ++ r' /\ r' ++ fut = X /\ strchr r 13 = Some (zlen h)) \/
  (zlen r < zlen h + 2 /\ (strchr r 13 = None \/ strchr r 13 = Some (zlen h) /\ zlen r - 2 < zlen h)).
Proof.
  intros Hh E. destruct (Z.le_gt_cases (zlen h + 2) (zlen r)) as [Hle|Hgt].
  - left. destruct (list_split_at (zlen h + 2) r) as (a & r' & -> & Ha); [pose proof (zlen_nonneg h); lia|].
    assert (a = h ++ crlf /\ r' ++ fut = X) as [-> HX].
    { apply (app_inj_1 a (h ++ crlf)); [unfold zlen in Ha; rewrite length_app; cbn; lia|]. by rewrite app_assoc, E, <- app_assoc. }
    exists r'. rewrite <- app_assoc. split_and!; [done|done|]. cbn [crlf app]. apply strchr_some. by apply no_eol_13.
  - right. split; [done|]. destruct (Z.le_gt_cases (zlen r) (zlen h)) as [Hr|Hr].
    + left. destruct (list_split_at (zlen r) h) as (a & b & Eh & Ha); [pose proof (zlen_nonneg r); lia|].
      assert (r = a) as ->. { rewrite Eh, <- app_assoc in E. apply app_inj_1 in E as [E _]; [done|]. unfold zlen in Ha. lia. }
      apply strchr_none; [done|]. unfold no_eol in Hh. rewrite Eh in Hh. apply Forall_app in Hh as [Hh _]. eapply list.Forall_impl; [exact Hh|]. cbn. tauto.
    + right. assert (r = h ++ [13]) as ->.
      { assert (r ++ fut = (h ++ [13]) ++ 10 :: X) as E' by (rewrite E, <- app_assoc; done). apply app_inj_1 in E' as [E' _]; [done|].
        rewrite length_app. cbn. unfold zlen in *. lia. }
      split; [apply strchr_some; by apply no_eol_13|zl].
Qed.

Lemma dec_digits n : in_s 64 n -> 0 <= n -> Forall digit (dec n).
Proof.
  intros Hn H0. pose proof (dec_canon n Hn) as Hc. inversion Hc as [|c l Hc1 Hl|c l Hc1 Hl E]; subst.
  - repeat constructor; unfold digit; lia.
  - constructor; [unfold digit; lia|done].
  - exfalso. pose proof (digits_from_ge (10 * 0 + (c - 48)) l ltac:(lia) Hl). cbn [digits_from fold_left] in *. unfold digits_from in *. lia.
Qed.

Lemma header_no_eol ch n : ch <> 13 -> ch <> 10 -> ch <> 0 -> in_s 64 n -> 0 <= n -> no_eol (ch :: dec n).
Proof.
  intros. constructor; [done|]. eapply list.Forall_impl; [by apply dec_digits|]. unfold digit. cbn. lia.
Qed.

Lemma dec_short n : 0 <= n -> 1 <= zlen (dec n) <= 20.
Proof. intros Hn. unfold dec. rewrite (proj2 (Z.ltb_ge n 0)) by done. apply udec_len_le. Qed.

Lemma trim_drop c pos d r : querybuf c = d ++ r -> pos = zlen d -> zlen (querybuf c) < 2 ^ 31 -> trim_to c pos = with_querybuf c r.
Proof.
  intros E -> Hl. unfold trim_to, Sds.substring. rewrite E in *. rewrite (proj2 (Z.ltb_ge (zlen d) 0)) by apply zlen_nonneg. cbn [Z.ltb Z.compare].
  rewrite zdrop_app by done. f_equal. destruct r as [|x r].
  - unfold ztake. apply take_nil.
  - rewrite ztake_all; [done|]. rewrite zlen_app, zlen_cons. zlen_pos. lia.
Qed.

(** ** One request *)

(** Everything but the buffer, the counters and the arguments is as before. *)
Record kept (c c' : client) : Prop := mk_kept {
  k_reqtype : reqtype c' = reqtype c; k_flags : flags c' = flags c; k_module : blocked_module c' = blocked_module c;
  k_asking : cmd_asking c' = cmd_asking c; k_roff : read_reploff c' = read_reploff c; k_off : reploff c' = reploff c;
  k_pending : pending_querybuf c' = pending_querybuf c; k_fed : fed c' = fed c; k_errors : errors c' = errors c }.

Lemma kept_refl c : kept c c.
Proof. done. Qed.
Lemma kept_trans a b c : kept a b -> kept b c -> kept a c.
Proof. intros [] []. split; congruence. Qed.

(** [r] is the unread part of the buffer, [fut] what has not been received yet: the
    arguments [args] are still to come, then [X]. *)
Definition expects (c : client) (args : list (list Z)) (r fut X : list Z) : Prop :=
  bulklen c = -1 /\ r ++ fut = enc_args args ++ X \/
  exists a rest, args = a :: rest /\ bulklen c = zlen a /\ r ++ fut = a ++ crlf ++ enc_args rest ++ X.

(** The unread part is too short to go on. *)
Definition stuck (c : client) (args : list (list Z)) (r : list Z) : Prop :=
  match args with
  | [] => True
  | a :: _ => if bulklen c =? -1 then zlen r < zlen (dec (zlen a)) + 3 else zlen r < bulklen c + 2
  end.

(** The buffer is small, or it holds part of one large argument and nothing else. *)
Definition bounded (c : client) (pos : Z) : Prop :=
  zlen (querybuf c) <= PROTO_INLINE_MAX_SIZE \/ pos = 0 /\ bulklen c <> -1 /\ zlen (querybuf c) <= bulklen c + 2.

Record inside (c : client) (acc args : list (list Z)) : Prop := mk_inside {
  in_mbl : multibulklen c = zlen args;
  in_argv : argv c = acc;
  in_cap : argv_cap c = zlen acc + zlen args;
  in_args : Forall arg_ok args }.

Lemma bounded_lt c pos : bounded c pos -> (bulklen c <= 512 * 1024 * 1024) -> zlen (querybuf c) < 2 ^ 30.
Proof. unfold bounded, PROTO_INLINE_MAX_SIZE. lia. Qed.

Lemma i32_id z : - 2 ^ 31 <= z < 2 ^ 31 -> i32 z = z.
Proof. intros. apply swrap_id; [lia|]. unfold in_s. lia. Qed.

(** Reading a length: the loop either stops for want of data or knows the length. *)
Lemma read_bulklen_ok c a rest d r fut X : querybuf c = d ++ r -> bulklen c = -1 -> arg_ok a ->
  r ++ fut = enc_args (a :: rest) ++ X -> zlen (querybuf c) <= PROTO_INLINE_MAX_SIZE ->
  (read_bulklen c (zlen d) = Ok (inr (c, None)) /\ zlen r < zlen (dec (zlen a)) + 3) \/
  (exists c' d' r', read_bulklen c (zlen d) = Ok (inr (c', Some (zlen d'))) /\ querybuf c' = d' ++ r' /\
    bulklen c' = zlen a /\ multibulklen c' = multibulklen c /\ argv c' = argv c /\ argv_cap c' = argv_cap c /\ kept c c' /\
    r' ++ fut = a ++ crlf ++ enc_args rest ++ X /\ zlen (querybuf c') <= PROTO_INLINE_MAX_SIZE).
Proof.
  unfold PROTO_INLINE_MAX_SIZE. intros Eq Hbl Ha E Hb. unfold arg_ok in Ha. pose proof (zlen_nonneg a) as Ha0. pose proof (dec_short (zlen a) Ha0) as Hs.
  assert (in_s 64 (zlen a)) as H64 by (unfold in_s; lia).
  assert (no_eol (36 :: dec (zlen a))) as Hh by (by apply header_no_eol).
  unfold enc_args in E. cbn [map concat] in E. unfold enc_arg at 1 in E. fold (enc_args rest) in E.
  assert (r ++ fut = (36 :: dec (zlen a)) ++ crlf ++ (a ++ crlf ++ enc_args rest ++ X)) as E' by (rewrite E; cbn [app]; rewrite <- !app_assoc; done).
  unfold read_bulklen. rewrite Eq in *. autorewrite with zlen in Hb. zlen_pos.
  assert (rd (d ++ r) (zlen d) (zlen (d ++ r) - zlen d) = Ok r) as ->.
  { pose proof (rd_app d r [] (zlen d) (zlen (d ++ r) - zlen d)) as X0. rewrite app_nil_r in X0. apply X0; [done|zl]. }
  cbn [mbind res_bind]. rewrite (i32_id (zlen (d ++ r))) by zl.
  destruct (line_cases _ _ _ _ Hh E') as [(r' & -> & HX & ->)|[Hlt Hno]].
  - right. rewrite (proj2 (Z.ltb_ge _ _)) by (autorewrite with zlen; zlen_pos; lia).
    assert (cpeek (d ++ (36 :: dec (zlen a)) ++ crlf ++ r') (zlen d) = Ok 36) as -> by (by apply (cpeek_app d 36 (dec (zlen a) ++ crlf ++ r'))).
    cbn [mbind res_bind negb Z.eqb Pos.eqb].
    assert (rd (d ++ (36 :: dec (zlen a)) ++ crlf ++ r') (zlen d + 1) (zlen d + zlen (36 :: dec (zlen a)) - (zlen d + 1)) = Ok (dec (zlen a))) as ->.
    { change (d ++ (36 :: dec (zlen a)) ++ crlf ++ r') with (d ++ [36] ++ dec (zlen a) ++ crlf ++ r'). rewrite app_assoc. apply rd_app; zl. }
    cbn [mbind res_bind]. rewrite string2ll_dec by done.
    replace ((zlen a <? 0) || (512 * 1024 * 1024 <? zlen a)) with false by lia.
    set (p := i32 (zlen d + (zlen d + zlen (36 :: dec (zlen a)) - zlen d) + 2)).
    assert (p = zlen (d ++ (36 :: dec (zlen a)) ++ crlf)) as Hp.
    { unfold p. rewrite i32_id; autorewrite with zlen in *; lia. }
    assert (d ++ (36 :: dec (zlen a)) ++ crlf ++ r' = (d ++ (36 :: dec (zlen a)) ++ crlf) ++ r') as Er by (by rewrite <- !app_assoc).
    destruct (PROTO_MBULK_BIG_ARG <=? zlen a).
    + rewrite (trim_drop c p (d ++ (36 :: dec (zlen a)) ++ crlf) r') by (rewrite ?Eq; autorewrite with zlen in *; done || lia).
      eexists. exists [], r'. split; [done|]. cbn. split_and!; try done. autorewrite with zlen in Hb. zlen_pos. lia.
    + eexists. exists (d ++ (36 :: dec (zlen a)) ++ crlf), r'. rewrite Hp. split; [done|]. cbn [with_lens querybuf bulklen multibulklen argv argv_cap]. rewrite Eq. split_and!; try done. zl.
  - left. autorewrite with zlen in Hlt. split; [|lia]. destruct Hno as [-> |[-> Hno]].
    + by rewrite (proj2 (Z.ltb_ge _ _)) by (unfold PROTO_INLINE_MAX_SIZE; zl).
    + by rewrite (proj2 (Z.ltb_lt _ _)) by zl.
Qed.

(** The second half of an iteration: the bytes of one argument. *)
Definition take_bulk (fuel : nat) (c : client) (pos : Z) : res loop_end :=
  if u64 (zlen (querybuf c) - pos) <? u32 (bulklen c + 2) then Ok (Left c pos) else
  '(c, pos) ← (if (pos =? 0) && (PROTO_MBULK_BIG_ARG <=? bulklen c) && (i32 (zlen (querybuf c)) =? bulklen c + 2) then
      a ← rd (querybuf c) 0 (zlen (querybuf c) - 2);
      c ← put_arg c a;
      Ok (with_querybuf c [], 0)
    else
      a ← rd (querybuf c) pos (bulklen c);
      c ← put_arg c a;
      Ok (c, i32 (pos + bulklen c + 2)));
  bulk_loop fuel (with_lens c (multibulklen c - 1) (-1)) pos.

Lemma take_bulk_ok fuel c acc a rest d r fut Y : inside c acc (a :: rest) -> querybuf c = d ++ r -> bulklen c = zlen a ->
  r ++ fut = a ++ crlf ++ Y -> bounded c (zlen d) ->
  (take_bulk fuel c (zlen d) = Ok (Left c (zlen d)) /\ zlen r < zlen a + 2) \/
  (exists c' d' r', take_bulk fuel c (zlen d) = bulk_loop fuel c' (zlen d') /\ inside c' (acc ++ [a]) rest /\ querybuf c' = d' ++ r' /\
    bulklen c' = -1 /\ r' ++ fut = Y /\ zlen (querybuf c') <= PROTO_INLINE_MAX_SIZE /\ kept c c').
Proof.
  intros [Hm Hv Hcap Hargs] Eq Hbl E Hb. apply list.Forall_cons_1 in Hargs as [Ha Hargs]. unfold arg_ok in Ha. pose proof (zlen_nonneg a) as Ha0.
  assert (zlen (querybuf c) < 2 ^ 30) as Hq by (apply (bounded_lt c (zlen d) Hb); lia).
  assert (zlen (querybuf c) = zlen d + zlen r) as Hqr by (rewrite Eq; zl). zlen_pos. unfold take_bulk.
  rewrite Hbl. replace (zlen (querybuf c) - zlen d) with (zlen r) by lia. rewrite (uwrap_id 64), (uwrap_id 32) by (unfold in_u; lia).
  destruct (Z.ltb_spec (zlen r) (zlen a + 2)) as [Hlt|Hge]; [by left|]. right.
  assert (exists r', r = a ++ crlf ++ r' /\ r' ++ fut = Y) as (r' & -> & HY).
  { destruct (list_split_at (zlen a + 2) r) as (x & r' & -> & Hx); [lia|]. exists r'.
    assert (x = a ++ crlf /\ r' ++ fut = Y) as [-> HY]; [|by rewrite <- app_assoc].
    apply (app_inj_1 x (a ++ crlf)); [unfold zlen in Hx; rewrite length_app; cbn; lia|]. by rewrite app_assoc, E, <- app_assoc. }
  pose proof (zlen_nonneg r') as Hr'. rewrite !zlen_app, zlen_crlf in Hqr. rewrite (i32_id (zlen (querybuf c))) by lia.
  assert (forall c0 a0, argv c0 = acc -> argv_cap c0 = argv_cap c -> put_arg c0 a0 = Ok (with_argv c0 (acc ++ [a0]) (argv_cap c))) as Hput.
  { intros c0 a0 E1 E2. unfold put_arg. rewrite E1, E2, Hcap, zlen_cons. rewrite (proj2 (Z.ltb_lt _ _)) by (zlen_pos; lia). done. }
  destruct ((zlen d =? 0) && (PROTO_MBULK_BIG_ARG <=? zlen a) && (zlen (querybuf c) =? zlen a + 2)) eqn:Ej.
  - apply andb_true_iff in Ej as [Ej Ej3]. apply andb_true_iff in Ej as [Ej1 Ej2]. assert (d = []) as -> by (apply zlen_0_nil; lia).
    assert (r' = []) as -> by (apply zlen_0_nil; change (zlen (@nil Z)) with 0 in *; pose proof (zlen_nonneg r'); lia).
    replace (zlen (querybuf c) - 2) with (zlen a) by lia. rewrite Eq. cbn [app]. rewrite rd_app0 by done. cbn [mbind res_bind].
    rewrite Hput by done. cbn [mbind res_bind]. eexists. exists [], []. split; [done|]. cbn. split_and!; try done.
    split; cbn; [rewrite Hm; zl|done|rewrite Hcap; zl|done].
  - rewrite Eq. rewrite rd_app by done. cbn [mbind res_bind]. rewrite Hput by done. cbn [mbind res_bind bulklen with_argv]. rewrite Hbl, i32_id by lia.
    eexists. exists (d ++ a ++ crlf), r'. split; [f_equal; zl|]. cbn. split_and!; try done.
    + split; cbn; [rewrite Hm; zl|done|rewrite Hcap; zl|done].
    + rewrite Eq, <- !app_assoc. done.
    + destruct Hb as [Hb|(Hp & _ & Hle)]; [done|]. unfold PROTO_INLINE_MAX_SIZE, PROTO_MBULK_BIG_ARG in *. zlen_pos. lia.
Qed.

Lemma bulk_loop_S fuel c pos : multibulklen c <> 0 -> bulk_loop (S fuel) c pos =
  (r ← (if bulklen c =? -1 then read_bulklen c pos else Ok (inr (c, Some pos)));
   match r with
   | inl c => Ok (Returned c)
   | inr (c, None) => Ok (Left c pos)
   | inr (c, Some pos) => take_bulk fuel c pos
   end).
Proof. intros H. cbn [bulk_loop]. by rewrite (proj2 (Z.eqb_neq _ _)). Qed.

Lemma bulk_loop_ok X fut args : forall fuel c acc d r, inside c acc args -> querybuf c = d ++ r -> expects c args r fut X -> bounded c (zlen d) ->
  (length args <= fuel)%nat ->
  exists c' d' r' got args', bulk_loop fuel c (zlen d) = Ok (Left c' (zlen d')) /\ args = got ++ args' /\ inside c' (acc ++ got) args' /\
    querybuf c' = d' ++ r' /\ expects c' args' r' fut X /\ kept c c' /\ zlen (querybuf c') < 2 ^ 30 /\ stuck c' args' r'.
Proof.
  induction args as [|a rest IH]; intros fuel c acc d r Hin Eq Hex Hb Hf.
  { exists c, d, r, [], []. pose proof (in_mbl _ _ _ Hin) as Hm. change (zlen (@nil (list Z))) with 0 in Hm.
    split; [destruct fuel; cbn [bulk_loop]; by rewrite Hm|]. split_and!; try (by rewrite ?app_nil_r).
    apply (bounded_lt c (zlen d) Hb). destruct Hex as [[-> _]|(? & ? & ? & _)]; [lia|done]. }
  destruct fuel as [|fuel]; [cbn in Hf; lia|]. pose proof (in_mbl _ _ _ Hin) as Hm. rewrite zlen_cons in Hm. pose proof (zlen_nonneg rest).
  pose proof (in_args _ _ _ Hin) as Harg. apply list.Forall_cons_1 in Harg as [Ha _]. pose proof (zlen_nonneg a) as Ha0.
  assert (exists c1, forall P : res loop_end -> Prop,
    (zlen r < zlen (dec (zlen a)) + 3 -> bulklen c = -1 -> P (Ok (Left c (zlen d)))) ->
    (forall d1 r1, querybuf c1 = d1 ++ r1 -> bulklen c1 = zlen a -> inside c1 acc (a :: rest) -> kept c c1 ->
      r1 ++ fut = a ++ crlf ++ enc_args rest ++ X -> bounded c1 (zlen d1) -> P (take_bulk fuel c1 (zlen d1))) ->
    P (bulk_loop (S fuel) c (zlen d))) as (c1 & Hstep).
  { destruct Hex as [[Hbl E]|(a' & rest' & [= <- <-] & Hbl & E)].
    - assert (zlen (querybuf c) <= PROTO_INLINE_MAX_SIZE) as Hsm by (destruct Hb as [?|(_ & ? & _)]; [done|lia]).
      destruct (read_bulklen_ok c a rest d r fut X Eq Hbl Ha E Hsm) as [[Er Hr]|(c1 & d1 & r1 & Er & Eq1 & Hbl1 & Hm1 & Hv1 & Hc1 & Hk1 & E1 & Hs1)].
      + exists c. intros P P1 _. rewrite bulk_loop_S by lia. rewrite Hbl, Er. by apply P1.
      + exists c1. intros P _ P2. rewrite bulk_loop_S by lia. rewrite Hbl, Er. cbn [mbind res_bind Z.eqb Pos.eqb].
        apply (P2 d1 r1); [done|done| |done|done|by left]. destruct Hin. split; congruence.
    - exists c. intros P _ P2. rewrite bulk_loop_S by lia. rewrite (proj2 (Z.eqb_neq (bulklen c) (-1))) by lia. cbn [mbind res_bind]. by apply (P2 d r). }
  apply Hstep.
  - intros Hr Hbl. exists c, d, r, [], (a :: rest). split_and!; try (by rewrite ?app_nil_r); [apply (bounded_lt c (zlen d) Hb); lia|].
    unfold stuck. rewrite Hbl. done.
  - clear Hstep. intros d1 r1 Eq1 Hbl1 Hin1 Hk1 E1 Hb1. unfold arg_ok in Ha.
    destruct (take_bulk_ok fuel c1 acc a rest d1 r1 fut (enc_args rest ++ X) Hin1 Eq1 Hbl1 E1 Hb1) as [[-> Hr]|(c2 & d2 & r2 & -> & Hin2 & Eq2 & Hbl2 & E2 & Hs2 & Hk2)].
    + exists c1, d1, r1, [], (a :: rest). split_and!; try (by rewrite ?app_nil_r).
      * right. by exists a, rest.
      * apply (bounded_lt c1 (zlen d1) Hb1). lia.
      * unfold stuck. rewrite (proj2 (Z.eqb_neq (bulklen c1) (-1))) by lia. lia.
    + destruct (IH fuel c2 (acc ++ [a]) d2 r2 Hin2 Eq2) as (c3 & d3 & r3 & got & args' & -> & -> & Hin3 & Eq3 & Hex3 & Hk3 & Hq3 & Hst3); [by left|by left|cbn in Hf; lia|].
      exists c3, d3, r3, (a :: got), args'. rewrite <- app_assoc in Hin3. split_and!; try done. by eapply kept_trans; [|eapply kept_trans].
Qed.

(** ** Between two reads *)

(** The commands [cmds] are still to be executed, [fut] is the part of the stream
    that has not been received. *)
Inductive parser (c : client) (cmds : list (list (list Z))) (fut : list Z) : Prop :=
| p_between : multibulklen c = 0 -> bulklen c = -1 -> argv c = [] -> reqtype c <> PROTO_REQ_INLINE -> querybuf c ++ fut = enc cmds -> parser c cmds fut
| p_inside acc args rest : cmds = (acc ++ args) :: rest -> args <> [] -> reqtype c = PROTO_REQ_MULTIBULK -> inside c acc args ->
    expects c args (querybuf c) fut (enc rest) -> parser c cmds fut.

(** The buffer is too short to go on with the first command. *)
Definition waiting (c : client) (cmds : list (list (list Z))) : Prop :=
  match cmds with
  | [] => True
  | cmd :: _ =>
    if multibulklen c =? 0 then zlen (querybuf c) < zlen (dec (zlen cmd)) + 3
    else exists acc args, cmd = acc ++ args /\ multibulklen c = zlen args /\ stuck c args (querybuf c)
  end.

Definition sized (c : client) : Prop :=
  zlen (querybuf c) <= PROTO_INLINE_MAX_SIZE \/ multibulklen c <> 0 /\ bulklen c <> -1 /\ zlen (querybuf c) <= bulklen c + 2.

Lemma enc_cons cmd rest : enc (cmd :: rest) = (42 :: dec (zlen cmd)) ++ crlf ++ enc_args cmd ++ enc rest.
Proof. unfold enc. cbn [map concat]. unfold enc_cmd at 1. cbn [app]. by rewrite <- !app_assoc. Qed.

Lemma enc_args_cons a rest : enc_args (a :: rest) = (36 :: dec (zlen a)) ++ crlf ++ a ++ crlf ++ enc_args rest.
Proof. unfold enc_args. cbn [map concat]. unfold enc_arg at 1. cbn [app]. by rewrite <- !app_assoc. Qed.

(** What [processMultibulkBuffer] does after the loop. *)
Definition finish (c : client) (pos : Z) : client * bool :=
  let c := if negb (pos =? 0) then trim_to c pos else c in (c, multibulklen c =? 0).

Lemma finish_ok c d r : querybuf c = d ++ r -> zlen (querybuf c) < 2 ^ 30 -> finish c (zlen d) = (with_querybuf c r, multibulklen c =? 0).
Proof.
  intros Eq Hq. unfold finish. destruct (Z.eqb_spec (zlen d) 0) as [E|E]; cbn [negb].
  - apply zlen_0_nil in E. subst d. cbn [app] in Eq. rewrite <- Eq. f_equal. by destruct c.
  - rewrite (trim_drop c (zlen d) d r) by (done || lia). done.
Qed.

(** The loop of one call, from the first argument not yet read. *)
Lemma args_ok c acc args d r fut rest : args <> [] -> inside c acc args -> querybuf c = d ++ r -> reqtype c = PROTO_REQ_MULTIBULK ->
  expects c args r fut (enc rest) -> bounded c (zlen d) ->
  exists c' ok, (e ← bulk_loop (Z.to_nat (multibulklen c)) c (zlen d);
    match e with Returned c => Ok (c, false) | Left c pos => Ok (finish c pos) end) = Ok (c', ok) /\ kept c c' /\
    if ok : bool then argv c' = acc ++ args /\ multibulklen c' = 0 /\ bulklen c' = -1 /\ querybuf c' ++ fut = enc rest
    else parser c' ((acc ++ args) :: rest) fut /\ waiting c' ((acc ++ args) :: rest).
Proof.
  intros Hne Hin Eq Hrt Hex Hb. rewrite (in_mbl _ _ _ Hin).
  destruct (bulk_loop_ok (enc rest) fut args (Z.to_nat (zlen args)) c acc d r Hin Eq Hex Hb) as (c' & d' & r' & got & args' & -> & Ea & Hin' & Eq' & Hex' & Hk & Hq & Hst);
    [unfold zlen; lia|]. cbn [mbind res_bind]. rewrite (finish_ok c' d' r' Eq' Hq). eexists. eexists. split; [done|].
  assert (kept c (with_querybuf c' r')) as Hk' by (by destruct Hk). split; [done|].
  destruct Hin' as [Hm Hv Hcap Hargs]. rewrite Hm. destruct args' as [|a args'].
  - change (zlen (@nil (list Z)) =? 0) with true. cbn. rewrite Hv, Ea, app_nil_r. split_and!; try done;
      destruct Hex' as [[? E]|(? & ? & ? & _)]; done.
  - rewrite (proj2 (Z.eqb_neq _ _)) by zl. rewrite Ea, app_assoc. split.
    + apply (p_inside _ _ _ (acc ++ got) (a :: args') rest); [done|done|by rewrite (k_reqtype _ _ Hk')|by split|done].
    + unfold waiting. cbn [multibulklen with_querybuf]. rewrite Hm, (proj2 (Z.eqb_neq _ _)) by zl. by exists (acc ++ got), (a :: args').
Qed.

Lemma multibulk_ok c cmd rest fut : reqtype c = PROTO_REQ_MULTIBULK -> parser c (cmd :: rest) fut -> cmd_ok cmd -> sized c ->
  exists c' ok, processMultibulkBuffer c = Ok (c', ok) /\ kept c c' /\
    if ok : bool then argv c' = cmd /\ multibulklen c' = 0 /\ bulklen c' = -1 /\ querybuf c' ++ fut = enc rest
    else parser c' (cmd :: rest) fut /\ waiting c' (cmd :: rest).
Proof.
  intros Hrt Hp [Hn Hargs] Hsz. unfold processMultibulkBuffer. destruct Hp as [Hm Hbl Hv _ E|acc args rest' [= -> <-] Hne _ Hin Hex].
  - rewrite Hm, Hv. cbn [Z.eqb assert_ mbind res_bind]. change (zlen (@nil (list Z)) =? 0) with true. cbn [assert_ mbind res_bind].
    assert (zlen (querybuf c) <= PROTO_INLINE_MAX_SIZE) as Hq by (destruct Hsz as [?|[? _]]; [done|lia]). unfold PROTO_INLINE_MAX_SIZE in Hq.
    pose proof (dec_short (zlen cmd) ltac:(lia)) as Hs. assert (in_s 64 (zlen cmd)) as H64 by (unfold in_s; lia).
    assert (no_eol (42 :: dec (zlen cmd))) as Hh by (apply header_no_eol; (done || lia)).
    rewrite enc_cons in E. rewrite (i32_id (zlen (querybuf c))) by (pose proof (zlen_nonneg (querybuf c)); lia).
    assert (waiting c (cmd :: rest) ->
      exists c' ok, Ok (c, false) = Ok (c', ok) /\ kept c c' /\
        if ok : bool then argv c' = cmd /\ multibulklen c' = 0 /\ bulklen c' = -1 /\ querybuf c' ++ fut = enc rest
        else parser c' (cmd :: rest) fut /\ waiting c' (cmd :: rest)) as Hwait.
    { intros Hw. exists c, false. split_and!; [done|done| |done]. apply p_between; [done|done|done|rewrite Hrt; discriminate|rewrite enc_cons; exact E]. }
    destruct (line_cases _ _ _ _ Hh E) as [(r' & Eq & HX & Ec)|[Hlt Hno]].
    + rewrite Ec. rewrite Eq in Hq |- *. autorewrite with zlen in Hq. zlen_pos. rewrite (proj2 (Z.ltb_ge _ _)) by zl.
      assert (cpeek ((42 :: dec (zlen cmd)) ++ crlf ++ r') 0 = Ok 42) as -> by (by apply (cpeek_app [] 42)). cbn [mbind res_bind assert_ Z.eqb Pos.eqb].
      assert (rd ((42 :: dec (zlen cmd)) ++ crlf ++ r') 1 (zlen (42 :: dec (zlen cmd)) - 1) = Ok (dec (zlen cmd))) as ->.
      { change ((42 :: dec (zlen cmd)) ++ crlf ++ r') with ([42] ++ dec (zlen cmd) ++ crlf ++ r'). apply rd_app; zl. }
      cbn [mbind res_bind]. rewrite string2ll_dec by done. rewrite (proj2 (Z.ltb_ge _ _)), (proj2 (Z.leb_gt _ _)) by lia. cbn [mbind res_bind].
      set (c1 := with_argv (with_lens c (zlen cmd) (bulklen c)) [] (zlen cmd)). rewrite i32_id by zl.
      assert (inside c1 [] cmd) as Hin by (split; [done|done|done|done]). rewrite (in_mbl _ _ _ Hin), (proj2 (Z.ltb_lt 0 (zlen cmd))) by lia. cbn [assert_ mbind res_bind].
      replace (zlen (42 :: dec (zlen cmd)) + 2) with (zlen ((42 :: dec (zlen cmd)) ++ crlf)) by zl.
      destruct (args_ok c1 [] cmd ((42 :: dec (zlen cmd)) ++ crlf) r' fut rest) as (c' & ok & E' & Hk & Hres).
      * intros ->. change (zlen (@nil (list Z))) with 0 in Hn. lia.
      * done.
      * cbn. rewrite Eq. by rewrite <- app_assoc.
      * done.
      * left. split; [done|]. done.
      * left. unfold c1. cbn [querybuf with_argv with_lens]. rewrite Eq. unfold PROTO_INLINE_MAX_SIZE. zl.
      * exists c', ok. split; [|split; [by destruct Hk|exact Hres]]. rewrite <- E', (in_mbl _ _ _ Hin). done.
    + assert (waiting c (cmd :: rest)) as Hw by (unfold waiting; rewrite Hm; cbn; rewrite zlen_cons in Hlt; lia).
      destruct Hno as [-> |[-> Hno]].
      * rewrite (proj2 (Z.ltb_ge _ _)) by (unfold PROTO_INLINE_MAX_SIZE; lia). cbn [mbind res_bind]. by apply Hwait.
      * rewrite (proj2 (Z.ltb_lt _ _)) by lia. cbn [mbind res_bind]. by apply Hwait.
  - assert (multibulklen c <> 0) as Hm by (rewrite (in_mbl _ _ _ Hin); destruct args; [done|]; zl).
    assert (0 < multibulklen c) as Hm0 by (rewrite (in_mbl _ _ _ Hin) in *; pose proof (zlen_nonneg args); lia).
    rewrite (proj2 (Z.eqb_neq _ _) Hm). cbn [mbind res_bind]. rewrite (proj2 (Z.ltb_lt _ _) Hm0). cbn [mbind res_bind assert_].
    assert (bounded c (zlen (@nil Z))) as Hb by (destruct Hsz as [?|(_ & ? & ?)]; [by left|by right]).
    destruct (args_ok c acc args [] (querybuf c) fut rest Hne Hin eq_refl Hrt Hex Hb) as (c' & ok & E' & Hk & Hres).
    exists c', ok. split; [|done]. rewrite <- E'. change (zlen (@nil Z)) with 0. destruct (bulk_loop _ c 0) as [[c1 pos|c1]|]; done.
Qed.

(** A complete command shortens the buffer. *)
Lemma parser_shorter c c' cmd rest fut : parser c (cmd :: rest) fut -> querybuf c' ++ fut = enc rest ->
  zlen (querybuf c') < zlen (querybuf c) /\ (sized c -> zlen (querybuf c') <= PROTO_INLINE_MAX_SIZE).
Proof.
  intros Hp E. apply (f_equal zlen) in E. rewrite zlen_app in E. unfold sized, PROTO_INLINE_MAX_SIZE. zlen_pos.
  destruct Hp as [Hm Hbl Hv _ E1|acc args rest' [= -> <-] Hne _ Hin [[Hbl E1]|(a & args' & -> & Hbl & E1)]]; apply (f_equal zlen) in E1.
  - rewrite enc_cons in E1. autorewrite with zlen in E1. zlen_pos. lia.
  - destruct args as [|a args]; [done|]. rewrite enc_args_cons in E1. autorewrite with zlen in E1. zlen_pos. lia.
  - autorewrite with zlen in E1. zlen_pos. lia.
Qed.

Definition calm (c : client) : Prop := flags c = 0.

Lemma calm_has c f : calm c -> has c f = false.
Proof. unfold calm, has. by intros ->. Qed.

Lemma reset_calm c : calm c -> resetClient c =
  mk_client (querybuf c) REQ_UNKNOWN 0 (-1) [] (argv_cap c) 0 (blocked_module c) false (read_reploff c) (reploff c) (pending_querybuf c) (fed c) (errors c).
Proof.
  unfold calm. intros Hf. unfold resetClient, has. destruct c as [q rt mb bl av cap fl bm ca ro off pq fd er]. cbn in Hf. subst fl.
  destruct ca; vm_compute; done.
Qed.

(** ** Executing what is complete *)

Section Serve.
Context {St : Type} (processCommand : client -> St -> res (client * St * bool * bool)) (exec : list (list Z) -> St -> St).
(** Commands that neither block nor close the client run and leave the parser alone. *)
Hypothesis processCommand_runs : forall c s, calm c -> processCommand c s = Ok (c, exec (argv c) s, true, true).

Definition exec_all (cmds : list (list (list Z))) (s : St) : St := fold_left (fun s cmd => exec cmd s) cmds s.

Lemma input_loop_ok fut cmds : forall fuel c s, calm c -> parser c cmds fut -> Forall cmd_ok cmds -> sized c -> (length (querybuf c) < fuel)%nat ->
  exists c' got cmds', input_loop processCommand false fuel c s = Ok (c', exec_all got s) /\ cmds = got ++ cmds' /\
    parser c' cmds' fut /\ waiting c' cmds' /\ calm c' /\ errors c' = errors c /\ read_reploff c' = read_reploff c.
Proof.
  induction cmds as [|cmd rest IH]; intros [|fuel] c s Hc Hp Hok Hsz Hf; try lia.
  { assert (querybuf c = []) as E by (destruct Hp as [_ _ _ _ E|? ? ? ? _]; [by destruct (app_eq_nil _ _ E)|done]).
    exists c, [], []. cbn [input_loop]. rewrite E. by split_and!. }
  cbn [input_loop]. destruct (Z.eqb_spec (zlen (querybuf c)) 0) as [E0|E0].
  { apply zlen_0_nil in E0. exists c, [], (cmd :: rest). split_and!; try done. destruct Hp as [Hm Hbl _ _ _|acc args rest' [= -> <-] Hne _ Hin Hex]; unfold waiting.
    - rewrite Hm, E0. change (zlen (@nil Z)) with 0. change (0 =? 0) with true. cbv iota. pose proof (zlen_nonneg (dec (zlen cmd))). lia.
    - destruct args as [|a args]; [done|]. rewrite (in_mbl _ _ _ Hin), (proj2 (Z.eqb_neq _ _)) by zl. exists acc, (a :: args). split_and!; [done|done|].
      unfold stuck. rewrite E0. change (zlen (@nil Z)) with 0. destruct Hex as [[-> _]|(a' & ? & [= <- <-] & -> & _)]; [change (-1 =? -1) with true; cbv iota; pose proof (zlen_nonneg (dec (zlen a))); lia|].
      pose proof (zlen_nonneg a). rewrite (proj2 (Z.eqb_neq _ _)) by lia. lia. }
  rewrite !calm_has by done. cbn [negb andb]. apply list.Forall_cons_1 in Hok as [Hcmd Hok].
  set (c1 := with_reqtype c PROTO_REQ_MULTIBULK).
  assert (match reqtype c with
         | REQ_UNKNOWN => x ← cpeek (querybuf c) 0; Ok (with_reqtype c (if x =? chr "*" then PROTO_REQ_MULTIBULK else PROTO_REQ_INLINE))
         | _ => Ok c
         end = Ok c1) as ->.
  { assert (reqtype c = PROTO_REQ_MULTIBULK -> c = c1) as Hc1 by (unfold c1; destruct c; cbn; by intros ->).
    destruct Hp as [_ _ _ Hrt E|acc args rest' _ _ Hrt _ _]; [|rewrite Hrt; f_equal; by apply Hc1].
    destruct (reqtype c); [|done|f_equal; by apply Hc1]. rewrite enc_cons in E. destruct (querybuf c) as [|x q]; [by destruct E0|].
    cbn [app] in E. injection E as -> _. done. }
  cbn [mbind res_bind]. change (reqtype c1) with PROTO_REQ_MULTIBULK. cbv iota.
  assert (parser c1 (cmd :: rest) fut) as Hp1.
  { destruct Hp as [? ? ? ? ?|acc args rest' ? ? ? [] ?]; [by apply p_between|]. by apply (p_inside c1 _ _ acc args rest'). }
  destruct (multibulk_ok c1 cmd rest fut eq_refl Hp1 Hcmd Hsz) as (c2 & ok & -> & Hk & Hres). cbn [mbind res_bind]. destruct ok; cbn [negb].
  - destruct Hres as (Hv & Hm & Hbl & E). destruct (parser_shorter c1 c2 cmd rest fut Hp1 E) as [Hlt Hle]. specialize (Hle Hsz). change (querybuf c1) with (querybuf c) in Hlt.
    destruct Hcmd as [Hcmd _]. rewrite Hv, (proj2 (Z.eqb_neq (zlen cmd) 0)) by lia. assert (calm c2) as Hc2 by (unfold calm; by rewrite (k_flags _ _ Hk)).
    rewrite processCommand_runs by done. cbn [mbind res_bind]. rewrite (calm_has c2 CLIENT_MASTER) by done. cbn [andb negb].
    rewrite (calm_has c2 CLIENT_BLOCKED) by done. cbn [orb negb]. rewrite reset_calm by done.
    match goal with |- context [input_loop _ _ fuel ?c3 ?s3] => destruct (IH fuel c3 s3) as (c' & got & cmds' & -> & -> & Hp' & Hw' & Hc' & He' & Hr') end;
      [done|by apply p_between|done|by left|cbn [querybuf]; unfold zlen in Hlt; lia|].
    exists c', (cmd :: got), cmds'. rewrite Hv. split_and!; try done; [rewrite He'; cbn; apply Hk|rewrite Hr'; cbn; apply Hk].
  - destruct Hres as [Hp2 Hw2]. exists c2, [], (cmd :: rest). split_and!; try done; [|apply Hk|apply Hk]. unfold calm. by rewrite (k_flags _ _ Hk).
Qed.

(** The socket delivers at each read some of the bytes in flight, as many as the
    call asks for at most. *)
Fixpoint serve (max : Z) (sizes : list Z) (stream : list Z) (c : client) (s : St) : res (option client * St * list Z) :=
  match sizes with
  | [] => Ok (Some c, s, stream)
  | n :: sizes =>
    let k := Z.min n (readlen c) in
    '(oc, s) ← readQueryFromClient processCommand false max (if zlen stream =? 0 then EAGAIN else Bytes (ztake k stream)) c s;
    match oc with
    | None => Ok (None, s, zdrop k stream)
    | Some c => serve max sizes (zdrop k stream) c s
    end
  end.

(** The room that [readQueryFromClient] asks for keeps the buffer small. *)
Lemma readlen_ok c cmds fut : parser c cmds fut -> waiting c cmds -> Forall cmd_ok cmds ->
  1 <= readlen c /\ (forall x, zlen x <= readlen c -> sized (with_querybuf c (querybuf c ++ x)) /\ zlen (querybuf c ++ x) <= 512 * 1024 * 1024 + 2).
Proof.
  intros Hp Hw Hok. assert (forall q, zlen q <= 22 -> readlen c = PROTO_IOBUF_LEN -> querybuf c = q -> 1 <= readlen c /\
    (forall x, zlen x <= readlen c -> sized (with_querybuf c (querybuf c ++ x)) /\ zlen (querybuf c ++ x) <= 512 * 1024 * 1024 + 2)) as Hsmall.
  { intros q Hq -> ->. unfold PROTO_IOBUF_LEN. split; [lia|]. intros x Hx. unfold sized, PROTO_INLINE_MAX_SIZE. cbn [querybuf with_querybuf]. rewrite zlen_app. lia. }
  destruct Hp as [Hm Hbl _ Hrt E|acc args rest -> Hne Hrt Hin Hex].
  - apply (Hsmall (querybuf c)); [|unfold readlen; rewrite Hm; by destruct (reqtype c)|done]. destruct cmds as [|cmd rest].
    + destruct (app_eq_nil _ _ E) as [-> _]. done.
    + unfold waiting in Hw. rewrite Hm in Hw. change (0 =? 0) with true in Hw. cbv iota in Hw. pose proof (dec_short (zlen cmd) (zlen_nonneg _)). lia.
  - destruct args as [|a args]; [done|]. pose proof (in_mbl _ _ _ Hin) as Hm. pose proof (in_args _ _ _ Hin) as Ha. apply list.Forall_cons_1 in Ha as [Ha _].
    assert (stuck c (a :: args) (querybuf c)) as Hst.
    { unfold waiting in Hw. rewrite Hm, (proj2 (Z.eqb_neq _ _)) in Hw by zl. destruct Hw as (acc' & args' & E & Hm' & Hst).
      apply app_inj_2 in E as [_ ->]; [done|]. unfold zlen in Hm'. lia. }
    unfold stuck in Hst. unfold arg_ok in Ha. pose proof (zlen_nonneg a). destruct Hex as [[Hbl _]|(a' & ? & [= <- <-] & Hbl & _)]; rewrite Hbl in Hst.
    + change (-1 =? -1) with true in Hst. cbv iota in Hst. apply (Hsmall (querybuf c)); [pose proof (dec_short (zlen a) (zlen_nonneg _)); lia| |done].
      unfold readlen. rewrite Hrt, Hbl. change (-1 =? -1) with true. by rewrite andb_false_r.
    + rewrite (proj2 (Z.eqb_neq (zlen a) (-1))) in Hst by lia. pose proof (zlen_nonneg (querybuf c)). unfold readlen, sized. cbn [querybuf with_querybuf multibulklen bulklen].
      rewrite Hrt, Hm, Hbl, (proj2 (Z.eqb_neq (zlen (a :: args)) 0)), (proj2 (Z.eqb_neq (zlen a) (-1))) by zl. cbn [negb andb].
      rewrite (uwrap_id 32), (uwrap_id 64), i32_id by (unfold in_u; lia). unfold PROTO_MBULK_BIG_ARG, PROTO_IOBUF_LEN, PROTO_INLINE_MAX_SIZE.
      destruct (Z.leb_spec (1024 * 32) (zlen a)) as [Hbig|Hbig].
      * destruct (Z.ltb_spec (zlen a + 2 - zlen (querybuf c)) (1024 * 16)); (split; [lia|]); intros x Hx; rewrite zlen_app; (split; [right; split_and!; [zl|lia|lia]|lia]).
      * split; [lia|]. intros x Hx. rewrite zlen_app. lia.
Qed.

Lemma parser_receive c cmds x fut : parser c cmds (x ++ fut) -> parser (with_querybuf c (querybuf c ++ x)) cmds fut.
Proof.
  intros [Hm Hbl Hv Hrt E|acc args rest -> Hne Hrt [] Hex].
  - apply p_between; try done. cbn. by rewrite <- app_assoc.
  - apply (p_inside _ _ _ acc args rest); try done. cbn [querybuf with_querybuf]. destruct Hex as [[? E]|(a & ? & ? & ? & E)]; [left|right; exists a; eexists];
      rewrite <- app_assoc; by split_and!.
Qed.

Lemma serve_ok max sizes : 512 * 1024 * 1024 + 2 <= max -> Forall (fun n => 1 <= n) sizes ->
  forall stream c s cmds, calm c -> parser c cmds stream -> waiting c cmds -> Forall cmd_ok cmds ->
  exists c' got cmds' stream', serve max sizes stream c s = Ok (Some c', exec_all got s, stream') /\ cmds = got ++ cmds' /\
    parser c' cmds' stream' /\ waiting c' cmds' /\ calm c' /\ errors c' = errors c /\ zlen stream' <= Z.max 0 (zlen stream - zlen sizes).
Proof.
  intros Hmax. induction 1 as [|n sizes Hn _ IH]; intros stream c s cmds Hc Hp Hw Hok; cbn [serve].
  { exists c, [], cmds, stream. change (zlen (@nil Z)) with 0. split_and!; try done. pose proof (zlen_nonneg stream). lia. }
  destruct (readlen_ok c cmds stream Hp Hw Hok) as [Hr1 Hr2]. set (k := Z.min n (readlen c)).
  destruct (Z.eqb_spec (zlen stream) 0) as [E|E].
  - apply zlen_0_nil in E. subst stream. cbn [readQueryFromClient mbind res_bind].
    assert (zdrop k (@nil Z) = []) as -> by (unfold zdrop; apply drop_nil).
    destruct (IH [] c s cmds Hc Hp Hw Hok) as (c' & got & cmds' & stream' & -> & ? & ? & ? & ? & ? & Hs). exists c', got, cmds', stream'. split_and!; try done.
    change (zlen (@nil Z)) with 0 in *. rewrite zlen_cons. pose proof (zlen_nonneg sizes). lia.
  - assert (zlen (ztake k stream) <= readlen c /\ 1 <= zlen (ztake k stream)) as [Hx1 Hx2] by (rewrite zlen_ztake; pose proof (zlen_nonneg stream); unfold k; lia).
    destruct (Hr2 _ Hx1) as [Hsz Hlen]. unfold readQueryFromClient.
    rewrite (proj2 (Z.ltb_ge _ _) Hx1), (proj2 (Z.eqb_neq (zlen (ztake k stream)) 0)) by lia. rewrite (calm_has c CLIENT_MASTER) by done. cbn [negb].
    change (querybuf (with_querybuf c (querybuf c ++ ztake k stream))) with (querybuf c ++ ztake k stream). rewrite (proj2 (Z.ltb_ge _ _)) by lia.
    rewrite <- (ztake_zdrop k stream) in Hp. apply parser_receive in Hp. unfold processInputBuffer.
    destruct (input_loop_ok (zdrop k stream) cmds (S (length (querybuf (with_querybuf c (querybuf c ++ ztake k stream))))) (with_querybuf c (querybuf c ++ ztake k stream)) s Hc Hp Hok Hsz ltac:(lia))
      as (c1 & got & cmds1 & -> & -> & Hp1 & Hw1 & Hc1 & He1 & _). cbn [mbind res_bind]. apply Forall_app in Hok as [_ Hok].
    destruct (IH (zdrop k stream) c1 (exec_all got s) cmds1 Hc1 Hp1 Hw1 Hok) as (c' & got' & cmds' & stream' & -> & -> & ? & ? & ? & ? & Hs).
    exists c', (got ++ got'), cmds', stream'. split_and!; try done; [unfold exec_all; by rewrite fold_left_app|by rewrite app_assoc|by etransitivity|].
    rewrite zlen_zdrop in Hs. rewrite zlen_cons. pose proof (zlen_nonneg sizes). unfold k in Hs. lia.
Qed.

(** Nothing can be left over when the stream has ended. *)
Lemma parser_end c cmds : parser c cmds [] -> waiting c cmds -> cmds = [] /\ querybuf c = [].
Proof.
  intros Hp Hw. destruct Hp as [Hm Hbl _ _ E|acc args rest -> Hne _ Hin Hex].
  - rewrite app_nil_r in E. destruct cmds as [|cmd rest]; [done|]. exfalso. unfold waiting in Hw. rewrite Hm in Hw. change (0 =? 0) with true in Hw. cbv iota in Hw.
    rewrite E, enc_cons in Hw. autorewrite with zlen in Hw. zlen_pos. lia.
  - exfalso. destruct args as [|a args]; [done|]. pose proof (in_mbl _ _ _ Hin) as Hm. unfold waiting in Hw. rewrite Hm, (proj2 (Z.eqb_neq _ _)) in Hw by zl.
    destruct Hw as (acc' & args' & E & Hm' & Hst). apply app_inj_2 in E as [_ <-]; [|unfold zlen in Hm'; lia]. unfold stuck in Hst.
    destruct Hex as [[Hbl E]|(a' & rest' & [= <- <-] & Hbl & E)]; rewrite Hbl in Hst; rewrite app_nil_r in E; rewrite E in Hst.
    + rewrite enc_args_cons in Hst. autorewrite with zlen in Hst. zlen_pos. change (-1 =? -1) with true in Hst. cbv iota in Hst. lia.
    + pose proof (zlen_nonneg a). rewrite (proj2 (Z.eqb_neq (zlen a) (-1))) in Hst by lia. autorewrite with zlen in Hst. zlen_pos. lia.
Qed.
End Serve.

(** ** Inline requests *)

Lemma put_args_ok l : forall c, zlen (argv c) + zlen l <= argv_cap c ->
  put_args c l = Ok (with_argv c (argv c ++ filter (fun a => a <> []) l) (argv_cap c)).
Proof.
  induction l as [|a l IH]; intros c Hcap; cbn [put_args].
  { rewrite filter_nil, app_nil_r. by destruct c. }
  rewrite zlen_cons in Hcap. zlen_pos. destruct (Z.eqb_spec (zlen a) 0) as [E|E]; cbn [negb].
  - apply zlen_0_nil in E. subst a. cbn [mbind res_bind]. rewrite filter_cons_False by tauto. apply IH. lia.
  - unfold put_arg. rewrite (proj2 (Z.ltb_lt _ _)) by lia. cbn [mbind res_bind].
    rewrite filter_cons_True by (intros ->; by destruct E). rewrite IH by (cbn; zl). cbn. by rewrite <- app_assoc.
Qed.

(** The line is cut off together with two bytes, whatever they are. *)
Lemma inline_ok c line eol rest args : no_eol line -> querybuf c = line ++ eol ++ rest -> zlen (querybuf c) < 2 ^ 30 ->
  (eol = crlf \/ exists x, eol = [10; x]) -> SdsText.sdssplitargs line = Ok (Some args) ->
  exists c', processInlineBuffer c = Ok (c', true) /\ querybuf c' = rest /\ argv c' = filter (fun a => a <> []) args /\ kept c c'.
Proof.
  intros Hl Eq Hq Heol Ea. unfold processInlineBuffer.
  assert (Forall (fun x => x <> 10 /\ x <> 0) line) as Hl10 by (eapply list.Forall_impl; [exact Hl|]; cbn; tauto).
  assert (exists nl, strchr (querybuf c) 10 = Some nl /\ (if negb (nl =? 0) then x ← cpeek (querybuf c) (nl - 1); Ok (if x =? 13 then nl - 1 else nl) else Ok nl) = Ok (zlen line))
    as (nl & -> & ->).
  { rewrite Eq. destruct Heol as [->|(x & ->)].
    - exists (zlen (line ++ [13])). replace (line ++ crlf ++ rest) with ((line ++ [13]) ++ 10 :: rest) by (by rewrite <- app_assoc). split.
      + apply strchr_some. apply Forall_app. split; [done|]. by repeat constructor.
      + rewrite zlen_app. change (zlen [13]) with 1. zlen_pos. rewrite (proj2 (Z.eqb_neq (zlen line + 1) 0)) by lia. cbn [negb].
        replace (zlen line + 1 - 1) with (zlen line) by lia. rewrite <- app_assoc. cbn [app]. rewrite cpeek_app by done. done.
    - exists (zlen line). split; [by apply strchr_some|]. destruct line as [|y line _] using rev_ind; [done|].
      rewrite zlen_app. change (zlen [y]) with 1. zlen_pos. rewrite (proj2 (Z.eqb_neq (zlen line + 1) 0)) by lia. cbn [negb].
      rewrite <- app_assoc. cbn [app]. rewrite cpeek_app by lia. cbn [mbind res_bind]. apply Forall_app in Hl as [_ Hl]. apply list.Forall_cons_1 in Hl as [Hl _].
      by rewrite (proj2 (Z.eqb_neq y 13)) by tauto. }
  cbn [mbind res_bind]. rewrite Eq, rd_app0 by done. cbn [mbind res_bind]. rewrite Ea. cbn [mbind res_bind].
  assert (zlen eol = 2) as He by (by destruct Heol as [->|(x & ->)]). rewrite Eq in Hq. autorewrite with zlen in Hq. zlen_pos.
  rewrite i32_id by lia. rewrite (trim_drop c (zlen line + 2) (line ++ eol) rest) by (rewrite ?Eq, <- ?app_assoc; (done || zl)).
  set (c1 := if negb (zlen args =? 0) then _ else _).
  assert (argv c1 = [] /\ zlen args <= argv_cap c1 \/ args = [] /\ argv c1 = []) as Hc1.
  { unfold c1. destruct (Z.eqb_spec (zlen args) 0) as [E|E]; cbn; [right; split; [by apply zlen_0_nil|done]|left; done]. }
  assert (querybuf c1 = rest /\ kept c c1) as [Hq1 Hk1] by (unfold c1; by destruct (negb _)).
  destruct Hc1 as [[Hv Hcap]|[-> Hv]].
  - rewrite put_args_ok by (rewrite Hv; change (zlen (@nil (list Z))) with 0; lia). cbn [mbind res_bind]. eexists. split; [done|]. cbn. rewrite Hv. split_and!; [done|done|by destruct Hk1].
  - cbn [put_args mbind res_bind]. exists c1. by split_and!.
Qed.

Lemma quoted_no_eol a : Forall (in_u 8) a -> no_eol (SdsText.quoted a).
Proof.
  intros Ha. unfold SdsText.quoted. constructor; [done|]. apply Forall_app. split; [|by repeat constructor].
  induction Ha as [|c a Hc Ha IH]; [constructor|]. cbn [flat_map]. apply Forall_app. split; [|done]. unfold in_u in Hc. unfold SdsText.repr_char, SdsText.hex_digit, isprint.
  destruct (Z.eqb_spec c 92); [subst; repeat constructor; lia|]. destruct (Z.eqb_spec c 34); [subst; repeat constructor; lia|]. cbn [orb].
  repeat (case_match; [repeat constructor; lia|]).
  pose proof (Z.div_pos c 16 ltac:(lia) ltac:(lia)). pose proof (Z.div_lt_upper_bound c 16 16 ltac:(lia) ltac:(lia)). pose proof (Z.mod_pos_bound c 16 ltac:(lia)).
  repeat constructor; try lia; destruct (Z.ltb_spec (c / 16) 10), (Z.ltb_spec (c mod 16) 10); lia.
Qed.

Lemma joined_no_eol l : Forall no_eol l -> no_eol (SdsText.joined [32] l).
Proof.
  induction 1 as [|a l Ha Hl IH]; [constructor|]. destruct l as [|b l]; [done|].
  change (no_eol (a ++ [32] ++ SdsText.joined [32] (b :: l))). apply Forall_app. split; [done|]. by constructor.
Qed.

(** A client that has just connected or whose last command was executed. *)
Definition idle (c : client) : Prop :=
  calm c /\ querybuf c = [] /\ multibulklen c = 0 /\ bulklen c = -1 /\ argv c = [] /\ reqtype c = REQ_UNKNOWN.

(** C8: However the bytes of a pipeline of RESP commands are split over the reads of
    the socket, [readQueryFromClient] executes exactly these commands in this order,
    with the arguments sent, and reports no protocol error; reads outside the buffer
    or the argument array do not occur. *)
Theorem resp_pipeline_any_segmentation {St : Type} (processCommand : client -> St -> res (client * St * bool * bool))
    (exec : list (list Z) -> St -> St) max sizes cmds c s :
  (forall c s, calm c -> processCommand c s = Ok (c, exec (argv c) s, true, true)) ->
  512 * 1024 * 1024 + 2 <= max -> Forall (fun n => 1 <= n) sizes -> zlen (enc cmds) <= zlen sizes ->
  Forall cmd_ok cmds -> idle c ->
  exists c', serve processCommand max sizes (enc cmds) c s = Ok (Some c', exec_all exec cmds s, []) /\
    querybuf c' = [] /\ argv c' = [] /\ calm c' /\ errors c' = errors c.
Proof.
  intros Hpc Hmax Hsz Hlen Hok (Hc & Hq & Hm & Hbl & Hv & Hrt).
  assert (parser c cmds (enc cmds)) as Hp by (apply p_between; [done|done|done|by rewrite Hrt|by rewrite Hq]).
  destruct (serve_ok processCommand exec Hpc max sizes Hmax Hsz (enc cmds) c s cmds Hc Hp) as (c' & got & cmds' & stream' & E & Ec & Hp' & Hw' & Hc' & He' & Hs'); [|done|].
  { unfold waiting. destruct cmds; [done|]. rewrite Hm, Hq. change (zlen (@nil Z)) with 0. change (0 =? 0) with true. cbv iota.
    pose proof (zlen_nonneg (dec (zlen l))). lia. }
  assert (stream' = []) as -> by (apply zlen_0_nil; pose proof (zlen_nonneg stream'); lia).
  destruct (parser_end c' cmds' Hp' Hw') as [-> Hq']. rewrite app_nil_r in Ec. subst got.
  exists c'. split_and!; try done. destruct Hp' as [_ _ ? _ _|acc args rest ? _ _ _ _]; done.
Qed.

(** A server that logs the commands. *)
Definition log_command (c : client) (s : list (list (list Z))) : res (client * list (list (list Z)) * bool * bool) := Ok (c, s ++ [argv c], true, true).
Definition new_client (q : list Z) : client := mk_client q REQ_UNKNOWN 0 (-1) [] 0 0 false false 0 0 [] [] [].
Definition demo_pipeline : list (list (list Z)) := [[str "SET"; str "k"; []]; [str "GET"; [0; 13; 10; 255]]].

Lemma resp_pipeline_any_segmentation_witness :
  exists c', serve log_command (2 ^ 30) (concat (replicate 30 [1; 5; 2])) (enc demo_pipeline) (new_client []) [] =
      Ok (Some c', exec_all (fun cmd s => s ++ [cmd]) demo_pipeline [], []) /\
    querybuf c' = [] /\ argv c' = [] /\ calm c' /\ errors c' = [].
Proof.
  apply (resp_pipeline_any_segmentation log_command (fun cmd s => s ++ [cmd]) (2 ^ 30) (concat (replicate 30 [1; 5; 2])) demo_pipeline (new_client []) []).
  - intros c s _. reflexivity.
  - lia.
  - cbn. repeat constructor; lia.
  - vm_compute. congruence.
  - repeat constructor; vm_compute; congruence.
  - repeat split.
Defined.

#[global] Instance contents_laws : SdsText.SdsLaws (list Z).
Proof. split; intros; cbn in *; subst; eauto. Qed.

(** Arguments quoted as [sdscatrepr] does, separated by spaces and ended by CRLF, are
    read back by the inline parser, the empty ones left out, and what follows the line
    stays in the buffer. *)
Theorem inline_request_roundtrip c args rest : Forall (Forall (in_u 8)) args ->
  querybuf c = SdsText.joined [32] (map SdsText.quoted args) ++ crlf ++ rest -> zlen (querybuf c) < 2 ^ 30 ->
  exists c', processInlineBuffer c = Ok (c', true) /\ argv c' = filter (fun a => a <> []) args /\ querybuf c' = rest /\ kept c c'.
Proof.
  intros Hb Eq Hq. set (line := SdsText.joined [32] (map SdsText.quoted args)) in *. assert (zlen line < 2 ^ 30) as Hl by (rewrite Eq in Hq; zl).
  destruct (SdsText.args_quoted_ok (S := list Z) (Datatypes.S (length line)) args [] []) as (v & Ev & Hv).
  - pose proof (SdsText.joined_count args) as Hc. fold line in Hc. unfold zlen in Hc. lia.
  - apply list.Forall_forall. intros a Ha. rewrite list.Forall_forall in Hb. split; [by apply Hb|]. unfold SdsText.size_ok.
    pose proof (SdsText.joined_size [32] (map SdsText.quoted args)) as Hj. fold line in Hj. rewrite list.Forall_forall in Hj.
    specialize (Hj (SdsText.quoted a) ltac:(by apply list_elem_of_fmap_2)). pose proof (SdsText.quoted_size a). lia.
  - constructor.
  - assert (v = args) as -> by (clear -Hv; cbn in Hv; induction Hv as [|x y l k Hxy _ IH]; [done|]; cbn in Hxy; by rewrite Hxy, IH).
    destruct (inline_ok c line crlf rest args) as (c' & E & H1 & H2 & H3); [|done|done|by left|done|by exists c'].
    apply joined_no_eol, Forall_fmap. eapply list.Forall_impl; [exact Hb|]. apply quoted_no_eol.
Qed.

Lemma inline_request_roundtrip_witness :
  let c := new_client (SdsText.joined [32] (map SdsText.quoted [str "SET"; [0; 10]; []]) ++ crlf ++ str "PING") in
  exists c', processInlineBuffer c = Ok (c', true) /\ argv c' = filter (fun a => a <> []) [str "SET"; [0; 10]; []] /\ querybuf c' = str "PING" /\ kept c c'.
Proof.
  intros c. apply (inline_request_roundtrip c [str "SET"; [0; 10]; []] (str "PING")).
  - repeat constructor; vm_compute; congruence.
  - reflexivity.
  - vm_compute. reflexivity.
Defined.

(** An inline request that ends in a bare newline takes the first byte of what follows
    with it: the next request of the pipeline is damaged. *)
Theorem inline_bare_newline_drops_byte c line x rest args : no_eol line -> querybuf c = line ++ [10; x] ++ rest -> zlen (querybuf c) < 2 ^ 30 ->
  SdsText.sdssplitargs line = Ok (Some args) ->
  exists c', processInlineBuffer c = Ok (c', true) /\ querybuf c' = rest /\ argv c' = filter (fun a => a <> []) args.
Proof.
  intros Hl Eq Hq Ea. destruct (inline_ok c line [10; x] rest args Hl Eq Hq) as (c' & E & H1 & H2 & _); [right; by exists x|done|by exists c'].
Qed.

Lemma inline_bare_newline_drops_byte_witness :
  let c := new_client (str "PING" ++ [10; chr "G"] ++ str "ET k") in
  exists c', processInlineBuffer c = Ok (c', true) /\ querybuf c' = str "ET k" /\ argv c' = filter (fun a => a <> []) [str "PING"].
Proof.
  intros c. apply (inline_bare_newline_drops_byte c (str "PING") (chr "G") (str "ET k") [str "PING"]).
  - repeat constructor; congruence.
  - reflexivity.
  - vm_compute. reflexivity.
  - vm_compute. reflexivity.
Defined.

(** ** Limits *)

(** While clients are paused, a client that is sending a large argument is dropped: once
    the argument is complete in the buffer, [readQueryFromClient] asks for 0 bytes and
    takes the 0 it gets for a closed connection, whatever the peer has sent. *)
Theorem paused_big_argument_disconnects {St : Type} (processCommand : client -> St -> res (client * St * bool * bool)) max c s x :
  calm c -> reqtype c = PROTO_REQ_MULTIBULK -> multibulklen c <> 0 -> PROTO_MBULK_BIG_ARG <= bulklen c <= 512 * 1024 * 1024 ->
  1 <= zlen x -> zlen (querybuf c) + zlen x = bulklen c + 2 -> zlen x <= PROTO_IOBUF_LEN -> bulklen c + 2 <= max ->
  exists c', readQueryFromClient processCommand true max (Bytes x) c s = Ok (Some c', s) /\ querybuf c' = querybuf c ++ x /\ readlen c' = 0 /\
    forall stream paused, readQueryFromClient processCommand paused max (Bytes (ztake (readlen c') stream)) c' s = Ok (None, s).
Proof.
  unfold PROTO_MBULK_BIG_ARG. intros Hc Hrt Hm Hb Hx Hq Hio Hmax. pose proof (zlen_nonneg (querybuf c)).
  assert (readlen c = zlen x) as Hr.
  { unfold readlen. rewrite Hrt, (proj2 (Z.eqb_neq _ _) Hm), (proj2 (Z.eqb_neq (bulklen c) (-1))) by lia. cbn [negb andb]. unfold PROTO_MBULK_BIG_ARG.
    rewrite (proj2 (Z.leb_le _ _)) by lia. rewrite (uwrap_id 32), (uwrap_id 64), i32_id by (unfold in_u; lia). destruct (Z.ltb_spec (bulklen c + 2 - zlen (querybuf c)) PROTO_IOBUF_LEN); lia. }
  set (c' := with_querybuf c (querybuf c ++ x)).
  assert (readlen c' = 0) as Hr'.
  { unfold readlen, c'. cbn [reqtype multibulklen bulklen querybuf with_querybuf].
    rewrite Hrt, (proj2 (Z.eqb_neq _ _) Hm), (proj2 (Z.eqb_neq (bulklen c) (-1))) by lia. cbn [negb andb]. unfold PROTO_MBULK_BIG_ARG.
    rewrite (proj2 (Z.leb_le _ _)) by lia. rewrite zlen_app, (uwrap_id 32), (uwrap_id 64), i32_id by (unfold in_u; lia).
    rewrite (proj2 (Z.ltb_lt _ _)) by (unfold PROTO_IOBUF_LEN; lia). lia. }
  exists c'. split_and!; [|done|done|].
  - unfold readQueryFromClient. rewrite Hr, Z.ltb_irrefl, (proj2 (Z.eqb_neq (zlen x) 0)) by lia. rewrite (calm_has c CLIENT_MASTER) by done. cbn [negb]. fold c'.
    assert (zlen (querybuf c') = bulklen c + 2) as Hq' by (unfold c'; cbn [querybuf with_querybuf]; rewrite zlen_app; lia).
    rewrite (proj2 (Z.ltb_ge _ _)) by lia. unfold processInputBuffer. cbn [input_loop]. rewrite (proj2 (Z.eqb_neq (zlen (querybuf c')) 0)) by lia.
    rewrite (calm_has c' CLIENT_SLAVE) by done. done.
  - intros stream paused. rewrite Hr', ztake_0 by done. unfold readQueryFromClient. rewrite Hr'. done.
Qed.

(** [n] times the letter a. *)
Definition as_ (n : Z) : list Z := zrep n 97.

Lemma paused_big_argument_disconnects_witness :
  let c := mk_client (as_ 32000) PROTO_REQ_MULTIBULK 1 32768 [str "ECHO"] 2 0 false false 0 0 [] [] [] in
  exists c', readQueryFromClient log_command true (2 ^ 30) (Bytes (as_ 768 ++ crlf)) c [] = Ok (Some c', []) /\
    querybuf c' = querybuf c ++ as_ 768 ++ crlf /\ readlen c' = 0 /\
    forall stream paused, readQueryFromClient log_command paused (2 ^ 30) (Bytes (ztake (readlen c') stream)) c' [] = Ok (None, []).
Proof.
  intros c. apply (paused_big_argument_disconnects log_command (2 ^ 30) c [] (as_ 768 ++ crlf)).
  all: vm_compute; try congruence; split; congruence.
Defined.

Fixpoint same_bytes (a b : list Z) : bool :=
  match a, b with [], [] => true | x :: a, y :: b => (x =? y) && same_bytes a b | _, _ => false end.
Fixpoint same_args (a b : list (list Z)) : bool :=
  match a, b with [], [] => true | x :: a, y :: b => same_bytes x y && same_args a b | _, _ => false end.

Lemma same_bytes_eq a : forall b, same_bytes a b = true -> a = b.
Proof. induction a as [|x a IH]; intros [|y b]; cbn; try done. intros H. apply andb_true_iff in H as [H1 H2]. f_equal; [lia|by apply IH]. Qed.
Lemma same_args_eq a : forall b, same_args a b = true -> a = b.
Proof. induction a as [|x a IH]; intros [|y b]; cbn; try done. intros H. apply andb_true_iff in H as [H1 H2]. f_equal; [by apply same_bytes_eq|by apply IH]. Qed.

Lemma limit_results (r1 r2 : res (client * bool)) cmd :
  match r1 with Ok (c', true) => same_args (argv c') cmd && match errors c' with [] => true | _ => false end | _ => false end = true ->
  match r2 with Ok (c', false) => has c' CLIENT_CLOSE_AFTER_REPLY && match errors c' with [TooBigBulkCount] => true | _ => false end | _ => false end = true ->
  exists c' c'', r1 = Ok (c', true) /\ argv c' = cmd /\ errors c' = [] /\ r2 = Ok (c'', false) /\ errors c'' = [TooBigBulkCount] /\
    has c'' CLIENT_CLOSE_AFTER_REPLY = true.
Proof.
  destruct r1 as [[c' []]|]; [|done|done]. destruct r2 as [[c'' []]|]; [done| |done]. intros H1 H2.
  apply andb_true_iff in H1 as [H1 H1'], H2 as [H2 H2']. exists c', c''. apply same_args_eq in H1. split_and!; try done.
  - by destruct (errors c').
  - destruct (errors c'') as [|[] [|]]; done.
Qed.

Definition big_cmd : list (list Z) := [as_ 30000; as_ 30000; as_ 30000; str "b"].
Definition big_sent : list Z := ztake (zlen (enc_cmd big_cmd) - 6) (enc_cmd big_cmd).

Lemma big_cmd_ok : cmd_ok big_cmd.
Proof. split; [vm_compute; split; congruence|repeat constructor; vm_compute; congruence]. Qed.

Lemma big_accepted :
  match processMultibulkBuffer (new_client (enc_cmd big_cmd)) with
  | Ok (c', true) => same_args (argv c') big_cmd && match errors c' with [] => true | _ => false end
  | _ => false
  end = true.
Proof. vm_compute. reflexivity. Qed.

Lemma big_refused :
  match processMultibulkBuffer (new_client big_sent) with
  | Ok (c', false) => has c' CLIENT_CLOSE_AFTER_REPLY && match errors c' with [TooBigBulkCount] => true | _ => false end
  | _ => false
  end = true.
Proof. vm_compute. reflexivity. Qed.

(** The limit of 64 KB for a length line is compared with the whole buffer: a command of
    several arguments of 30000 bytes that is complete in the buffer is accepted, but
    refused with a protocol error if the buffer ends inside the length of its last
    argument, as it can for a client that was blocked while it kept sending. *)
Theorem length_limit_counts_parsed_arguments :
  cmd_ok big_cmd /\ exists sent missing c' c'', enc_cmd big_cmd = sent ++ missing /\
    processMultibulkBuffer (new_client (enc_cmd big_cmd)) = Ok (c', true) /\ argv c' = big_cmd /\ errors c' = [] /\
    processMultibulkBuffer (new_client sent) = Ok (c'', false) /\ errors c'' = [TooBigBulkCount] /\ has c'' CLIENT_CLOSE_AFTER_REPLY = true.
Proof.
  split; [exact big_cmd_ok|]. exists big_sent, (zdrop (zlen (enc_cmd big_cmd) - 6) (enc_cmd big_cmd)).
  destruct (limit_results (processMultibulkBuffer (new_client (enc_cmd big_cmd))) (processMultibulkBuffer (new_client big_sent)) big_cmd big_accepted big_refused)
    as (c' & c'' & X). exists c', c''. split; [symmetry; apply ztake_zdrop|exact X].
Qed.
End NetworkingOps.
