(* ===== verification/Lzf.v ===== *)
(** * String compression: src/redis-stable/src/lzf_c.c and lzf_d.c

    [lzf_compress] and [lzf_decompress] in the configuration of lzfP.h on a 64 bit
    host: a hash table of 2^16 offsets that is not initialised, the VERY_FAST hash,
    input checks in the decompressor. Input and output are byte buffers, pointers are
    offsets into them; the table is a function from slots to the offsets they hold.
    [LzfOps] verifies the code. *)
From S2P Require Import Prelude.

Module Lzf.

Definition HLOG : Z := 16.
Definition HSIZE : Z := 2 ^ HLOG.
Definition MAX_LIT : Z := 2 ^ 5.
Definition MAX_OFF : Z := 2 ^ 13.
Definition MAX_REF : Z := 2 ^ 8 + 2 ^ 3.

(** ** The hash *)

Definition FRST (inp : list Z) (p : Z) : res Z :=
  a ← peek inp p; b ← peek inp (p + 1); Ok (Z.lor (Z.shiftl a 8) b).
Definition NEXT (inp : list Z) (v p : Z) : res Z := c ← peek inp (p + 2); Ok (u32 (Z.lor (Z.shiftl v 8) c)).
Definition IDX (h : Z) : Z := Z.land (u32 (Z.shiftr h (3 * 8 - HLOG) - h * 5)) (HSIZE - 1).

Definition set_slot (htab : Z -> Z) (i v : Z) : Z -> Z := fun k => if k =? i then v else htab k.

(** ** Compression *)

(** [ref[len] != ip[len]] *)
Definition differ (inp : list Z) (ref ip len : Z) : res bool :=
  a ← peek inp (ref + len); b ← peek inp (ip + len); Ok (negb (a =? b)).

(** The unrolled comparisons: the flag says that one of them left the loop. *)
Fixpoint unrolled (n : nat) (inp : list Z) (ref ip len : Z) : res (Z * bool) :=
  match n with
  | O => Ok (len, false)
  | S n =>
    let len := len + 1 in
    d ← differ inp ref ip len;
    if d : bool then Ok (len, true) else unrolled n inp ref ip len
  end.

(** [do len++; while (len < maxlen && ref[len] == ip[len])] *)
Fixpoint extend (fuel : nat) (inp : list Z) (ref ip maxlen len : Z) : res Z :=
  match fuel with
  | O => Fault OutOfFuel
  | S fuel =>
    let len := len + 1 in
    if len <? maxlen then
      d ← differ inp ref ip len;
      if d : bool then Ok len else extend fuel inp ref ip maxlen len
    else Ok len
  end.

Definition match_len (inp : list Z) (ref ip maxlen : Z) : res Z :=
  '(len, ended) ← (if 16 <? maxlen then unrolled 16 inp ref ip 2 else Ok (2, false));
  if ended : bool then Ok len else extend (Z.to_nat MAX_REF) inp ref ip maxlen len.

(** A result [inl out]: the function returned 0 and left [out] in the output buffer. *)
Record state := mk_state { ip : Z; op : Z; lit : Z; hval : Z; htab : Z -> Z; out : list Z }.

(** [off = ip - ref - 1 < MAX_OFF && ref > in_data && ref[2] == ip[2] && the first two bytes agree] *)
Definition is_match (inp : list Z) (ref p : Z) : res bool :=
  if negb (u64 (p - ref - 1) <? MAX_OFF) then Ok false else
  if negb (0 <? ref) then Ok false else
  d2 ← differ inp ref p 2;
  if d2 : bool then Ok false else
  d0 ← differ inp ref p 0;
  d1 ← differ inp ref p 1;
  Ok (negb d0 && negb d1).

(** The branch of a match; the flag says that the loop is left with [break]. *)
Definition emit_match (inp : list Z) (out_len : Z) (st : state) (ref : Z) : res (list Z + state * bool) :=
  let off := u64 (ip st - ref - 1) in
  let maxlen := u32 (zlen inp - ip st - 2) in
  let maxlen := if MAX_REF <? maxlen then MAX_REF else maxlen in
  let nolit := if lit st =? 0 then 1 else 0 in
  if (out_len <=? op st + 3 + 1) && (out_len <=? op st - nolit + 3 + 1) then Ok (inl (out st)) else
  o ← poke (out st) (op st - lit st - 1) (u8 (lit st - 1));
  let op1 := op st - nolit in
  len ← match_len inp ref (ip st) maxlen;
  let len := len - 2 in
  let ip1 := ip st + 1 in
  '(o, op1) ← (if len <? 7 then
      o ← poke o op1 (u8 (Z.shiftr off 8 + Z.shiftl len 5)); Ok (o, op1 + 1)
    else
      o ← poke o op1 (u8 (Z.shiftr off 8 + Z.shiftl 7 5));
      o ← poke o (op1 + 1) (u8 (len - 7));
      Ok (o, op1 + 2));
  o ← poke o op1 (u8 off);
  let op1 := op1 + 1 in
  let op1 := op1 + 1 in
  let ip1 := ip1 + len + 1 in
  if zlen inp - 2 <=? ip1 then Ok (inr (mk_state ip1 op1 0 (hval st) (htab st) o, true)) else
  let ip1 := ip1 - 2 in
  h ← FRST inp ip1;
  h ← NEXT inp h ip1;
  let t := set_slot (htab st) (IDX h) (u32 ip1) in
  let ip1 := ip1 + 1 in
  h ← NEXT inp h ip1;
  let t := set_slot t (IDX h) (u32 ip1) in
  let ip1 := ip1 + 1 in
  Ok (inr (mk_state ip1 op1 0 h t o, false)).

(** [lit++; *op++ = *ip++], ending a full run *)
Definition emit_literal (inp : list Z) (st : state) : res state :=
  c ← peek inp (ip st);
  o ← poke (out st) (op st) c;
  let l := lit st + 1 in
  let p := op st + 1 in
  if l =? MAX_LIT then
    o ← poke o (p - l - 1) (u8 (l - 1));
    Ok (mk_state (ip st + 1) (p + 1) 0 (hval st) (htab st) o)
  else Ok (mk_state (ip st + 1) p l (hval st) (htab st) o).

(** [while (ip < in_end - 2)] *)
Fixpoint main_loop (fuel : nat) (inp : list Z) (out_len : Z) (st : state) : res (list Z + state) :=
  if negb (ip st <? zlen inp - 2) then Ok (inr st) else
  match fuel with
  | O => Fault OutOfFuel
  | S fuel =>
    h ← NEXT inp (hval st) (ip st);
    let slot := IDX h in
    let ref := u32 (htab st slot) in
    let st := mk_state (ip st) (op st) (lit st) h (set_slot (htab st) slot (u32 (ip st))) (out st) in
    m ← is_match inp ref (ip st);
    if m : bool then
      r ← emit_match inp out_len st ref;
      match r with
      | inl o => Ok (inl o)
      | inr (st, true) => Ok (inr st)
      | inr (st, false) => main_loop fuel inp out_len st
      end
    else if out_len <=? op st then Ok (inl (out st))
    else st ← emit_literal inp st; main_loop fuel inp out_len st
  end.

(** [while (ip < in_end)] *)
Fixpoint tail_loop (fuel : nat) (inp : list Z) (st : state) : res state :=
  if negb (ip st <? zlen inp) then Ok st else
  match fuel with
  | O => Fault OutOfFuel
  | S fuel => st ← emit_literal inp st; tail_loop fuel inp st
  end.

(** The output buffer and the number of bytes used, 0 on failure. [htab0] is what the
    uninitialised table holds. *)
Definition lzf_compress (htab0 : Z -> Z) (inp outp : list Z) : res (list Z * Z) :=
  let out_len := zlen outp in
  if (zlen inp =? 0) || (out_len =? 0) then Ok (outp, 0) else
  h ← FRST inp 0;
  r ← main_loop (length inp) inp out_len (mk_state 0 1 0 h htab0 outp);
  match r with
  | inl o => Ok (o, 0)
  | inr st =>
    if out_len <? op st + 3 then Ok (out st, 0) else
    st ← tail_loop (length inp) inp st;
    o ← poke (out st) (op st - lit st - 1) (u8 (lit st - 1));
    Ok (o, op st - (if lit st =? 0 then 1 else 0))
  end.

(** ** Decompression *)

(** [do *op++ = *ref++; while (--len)] *)
Fixpoint copy_bytes (n : nat) (outp : list Z) (op ref : Z) : res (list Z) :=
  match n with
  | O => Ok outp
  | S n => c ← peek outp ref; o ← poke outp op c; copy_bytes n o (op + 1) (ref + 1)
  end.

Inductive decoded := Continue (ip op : Z) (outp : list Z) | Failed.

(** One round of the loop. *)
Definition decode_one (inp : list Z) (i o : Z) (outp : list Z) : res decoded :=
  ctrl ← peek inp i;
  let i := i + 1 in
  if ctrl <? 2 ^ 5 then
    let ctrl := ctrl + 1 in
    if zlen outp <? o + ctrl then Ok Failed else
    if zlen inp <? i + ctrl then Ok Failed else
    x ← rd inp i ctrl;
    outp ← wr outp o x;
    Ok (Continue (i + ctrl) (o + ctrl) outp)
  else
    let len := Z.shiftr ctrl 5 in
    let ref := o - Z.shiftl (Z.land ctrl 0x1f) 8 - 1 in
    if zlen inp <=? i then Ok Failed else
    '(len, i, bad) ← (if len =? 7 then
        x ← peek inp i;
        Ok (len + x, i + 1, zlen inp <=? i + 1)
      else Ok (len, i, false));
    if bad : bool then Ok Failed else
    x ← peek inp i;
    let i := i + 1 in
    let ref := ref - x in
    if zlen outp <? o + len + 2 then Ok Failed else
    if ref <? 0 then Ok Failed else
    let n := len + 2 in
    outp ← (if (9 <? len) && (ref + n <=? o) then x ← rd outp ref n; wr outp o x
            else copy_bytes (Z.to_nat n) outp o ref);
    Ok (Continue i (o + n) outp).

Fixpoint decode_loop (fuel : nat) (inp : list Z) (i o : Z) (outp : list Z) : res (list Z * Z) :=
  match fuel with
  | O => Fault OutOfFuel
  | S fuel =>
    r ← decode_one inp i o outp;
    match r with
    | Failed => Ok (outp, 0)
    | Continue i o outp => if i <? zlen inp then decode_loop fuel inp i o outp else Ok (outp, o)
    end
  end.

Definition lzf_decompress (inp outp : list Z) : res (list Z * Z) := decode_loop (S (length inp)) inp 0 0 outp.

End Lzf.
