(* ===== verification/LzfOps.v ===== *)
(** * Compression is lossless: src/redis-stable/src/lzf_c.c and lzf_d.c

    The meaning of a compressed text as a relation, the decompressor as its
    evaluator, the compressor as a producer, the round trip, and the safety of the
    decompressor on arbitrary bytes. *)
From S2P Require Import Prelude Lzf.

Module LzfOps.
Export Lzf.

(** ** The meaning of a compressed text *)

(** Append [n] bytes, each the one [off + 1] places before the end. *)
Fixpoint replay (n : nat) (off : Z) (pre : list Z) : option (list Z) :=
  match n with
  | O => Some pre
  | S n => if zlen pre - off - 1 <? 0 then None else x ← pre !! Z.to_nat (zlen pre - off - 1); replay n off (pre ++ [x])
  end.

(** [codes w pre post]: the text [w], read when [pre] has been produced, leads to [post]. *)
Inductive codes : list Z -> list Z -> list Z -> Prop :=
| c_end pre : codes [] pre pre
| c_lit x w pre post : 1 <= zlen x <= MAX_LIT -> codes w (pre ++ x) post -> codes (zlen x - 1 :: x ++ w) pre post
| c_short len off w pre mid post : 1 <= len < 7 -> 0 <= off < MAX_OFF -> replay (Z.to_nat (len + 2)) off pre = Some mid ->
    codes w mid post -> codes (off / 256 + len * 32 :: off mod 256 :: w) pre post
| c_long len off w pre mid post : 7 <= len <= 262 -> 0 <= off < MAX_OFF -> replay (Z.to_nat (len + 2)) off pre = Some mid ->
    codes w mid post -> codes (off / 256 + 7 * 32 :: len - 7 :: off mod 256 :: w) pre post.

Lemma codes_app w1 w2 pre mid post : codes w1 pre mid -> codes w2 mid post -> codes (w1 ++ w2) pre post.
Proof.
  induction 1 as [pre|x w pre mid Hx Hw IH|len off w pre m1 mid Hl Ho Hr Hw IH|len off w pre m1 mid Hl Ho Hr Hw IH]; intros H2; cbn [app].
  - done.
  - rewrite <- app_assoc. apply c_lit; [done|by apply IH].
  - eapply c_short; [done|done|done|by apply IH].
  - eapply c_long; [done|done|done|by apply IH].
Qed.

Lemma codes_run n x pre : n = zlen x - 1 -> 1 <= zlen x <= MAX_LIT -> codes (n :: x) pre (pre ++ x).
Proof. intros -> Hx. rewrite <- (app_nil_r x) at 2. apply c_lit; [done|apply c_end]. Qed.

Lemma replay_len n off : forall pre mid, replay n off pre = Some mid -> exists s, mid = pre ++ s /\ zlen s = Z.of_nat n.
Proof.
  induction n as [|n IH]; intros pre mid; cbn [replay].
  - intros [= <-]. exists []. by rewrite app_nil_r.
  - case_match; [done|]. destruct (pre !! _) as [x|]; [|done]. cbn. intros H1. destruct (IH _ _ H1) as (s & -> & Hs). exists (x :: s). rewrite <- app_assoc. split; [done|zl].
Qed.

Lemma codes_prefix w pre post : codes w pre post -> exists s, post = pre ++ s.
Proof.
  induction 1 as [pre|x w pre mid Hx Hw (s & ->)|len off w pre m1 mid Hl Ho Hr Hw (s & ->)|len off w pre m1 mid Hl Ho Hr Hw (s & ->)].
  - exists []. by rewrite app_nil_r.
  - exists (x ++ s). by rewrite app_assoc.
  - destruct (replay_len _ _ _ _ Hr) as (s1 & -> & _). exists (s1 ++ s). by rewrite app_assoc.
  - destruct (replay_len _ _ _ _ Hr) as (s1 & -> & _). exists (s1 ++ s). by rewrite app_assoc.
Qed.

(** ** Decompression *)

Lemma peek_lookup b i x : 0 <= i -> b !! Z.to_nat i = Some x -> peek b i = Ok x.
Proof. intros Hi E. unfold peek. rewrite (proj2 (Z.leb_le 0 i)) by done. by rewrite E. Qed.

Lemma peek_total b i : 0 <= i < zlen b -> exists x, peek b i = Ok x /\ b !! Z.to_nat i = Some x.
Proof.
  intros Hi. destruct (lookup_lt_is_Some_2 b (Z.to_nat i)) as [x E]; [unfold zlen in Hi; lia|]. exists x. split; [apply peek_lookup; [lia|done]|done].
Qed.

Lemma copy_bytes_ok n off : forall pre g mid, replay n off pre = Some mid -> Z.of_nat n <= zlen g ->
  copy_bytes n (pre ++ g) (zlen pre) (zlen pre - off - 1) = Ok (mid ++ drop n g).
Proof.
  induction n as [|n IH]; intros pre g mid; cbn [replay copy_bytes]; [by intros [= <-]|].
  destruct (Z.ltb_spec (zlen pre - off - 1) 0) as [|Hge]; [done|]. destruct (pre !! Z.to_nat (zlen pre - off - 1)) as [x|] eqn:E; [|done]. cbn [mbind option_bind].
  intros Hr Hg. destruct g as [|y g]; [change (zlen (@nil Z)) with 0 in Hg; lia|]. rewrite (peek_lookup _ _ x) by (done || by apply lookup_app_l_Some). cbn [mbind res_bind].
  rewrite poke_app by done. cbn [mbind res_bind]. replace (pre ++ x :: g) with ((pre ++ [x]) ++ g) by (by rewrite <- app_assoc).
  specialize (IH (pre ++ [x]) g mid Hr ltac:(zl)). rewrite zlen_app in IH. change (zlen [x]) with 1 in IH. replace (zlen pre - off - 1 + 1) with (zlen pre + 1 - off - 1) by lia. done.
Qed.

(** A copy of a block that lies before the end. *)
Lemma replay_block B : forall A C off, off = zlen (B ++ C) - 1 -> replay (length B) off (A ++ B ++ C) = Some ((A ++ B ++ C) ++ B).
Proof.
  induction B as [|x B IH]; intros A C off ->; cbn [length replay]; [by rewrite app_nil_r|].
  replace (zlen (A ++ (x :: B) ++ C) - (zlen ((x :: B) ++ C) - 1) - 1) with (zlen A) by zl. rewrite (proj2 (Z.ltb_ge _ _)) by apply zlen_nonneg.
  replace (Z.to_nat (zlen A)) with (length A) by (unfold zlen; lia). cbn [app]. rewrite list_lookup_middle by done. cbn [mbind option_bind].
  replace ((A ++ x :: B ++ C) ++ [x]) with ((A ++ [x]) ++ B ++ (C ++ [x])) by (simplify_list_eq; done). rewrite IH by zl. simplify_list_eq. done.
Qed.

Lemma move_ok n off pre g mid : replay (Z.to_nat n) off pre = Some mid -> 0 <= n <= zlen g -> 0 <= off < zlen pre -> n <= off + 1 ->
  (x ← rd (pre ++ g) (zlen pre - off - 1) n; wr (pre ++ g) (zlen pre) x) = Ok (mid ++ zdrop n g).
Proof.
  intros Hr Hn Ho Hd. destruct (list_split_at (zlen pre - off - 1) pre) as (A & R & E & HA); [lia|].
  destruct (list_split_at n R) as (B & C & -> & HB); [rewrite E, zlen_app in *; lia|].
  assert (Some mid = Some (pre ++ B)) as [= ->].
  { rewrite <- Hr, E. replace (Z.to_nat n) with (length B) by (unfold zlen in HB; lia). apply replay_block. rewrite E, zlen_app in HA. lia. }
  assert (rd (pre ++ g) (zlen pre - off - 1) n = Ok B) as ->.
  { rewrite E, <- !app_assoc. apply rd_app; [|done]. by rewrite HA, E. }
  cbn [mbind res_bind]. rewrite <- (ztake_zdrop n g) at 1. rewrite wr_app; [by rewrite <- app_assoc|done|]. rewrite zlen_ztake. lia.
Qed.

Lemma ctrl_bits off len : 0 <= off < MAX_OFF -> 0 <= len < 8 ->
  Z.shiftr (off / 256 + len * 32) 5 = len /\ Z.shiftl (Z.land (off / 256 + len * 32) 0x1f) 8 = off / 256 * 256.
Proof.
  unfold MAX_OFF. intros Ho Hl. pose proof (Z.div_pos off 256 ltac:(lia) ltac:(lia)). pose proof (Z.div_lt_upper_bound off 256 32 ltac:(lia) ltac:(lia)).
  rewrite Z.shiftr_div_pow2, Z.shiftl_mul_pow2 by lia. change 0x1f with (2 ^ 5 - 1). rewrite land_mask by lia. change (2 ^ 5) with 32. change (2 ^ 8) with 256.
  rewrite Z.div_add, Z.mod_add by lia. rewrite Z.div_small, Z.mod_small by lia. lia.
Qed.

Lemma decode_ref outp pre g mid i len off : outp = pre ++ g -> replay (Z.to_nat (len + 2)) off pre = Some mid -> 0 <= off -> 1 <= len -> zlen mid <= zlen outp ->
  (if zlen outp <? zlen pre + len + 2 then Ok Failed else
   if zlen pre - off / 256 * 256 - 1 - off mod 256 <? 0 then Ok Failed else
   outp ← (if (9 <? len) && (zlen pre - off / 256 * 256 - 1 - off mod 256 + (len + 2) <=? zlen pre)
           then x ← rd outp (zlen pre - off / 256 * 256 - 1 - off mod 256) (len + 2); wr outp (zlen pre) x
           else copy_bytes (Z.to_nat (len + 2)) outp (zlen pre) (zlen pre - off / 256 * 256 - 1 - off mod 256));
   Ok (Continue i (zlen pre + (len + 2)) outp)) = Ok (Continue i (zlen mid) (mid ++ zdrop (len + 2) g)).
Proof.
  intros -> Hr Ho Hl Hm. destruct (replay_len _ _ _ _ Hr) as (s & -> & Hs). rewrite !zlen_app in *. zlen_pos.
  replace (zlen pre - off / 256 * 256 - 1 - off mod 256) with (zlen pre - off - 1) by (pose proof (Z.div_mod off 256); lia).
  assert (off < zlen pre) as Hop.
  { destruct (Z.to_nat (len + 2)) as [|n] eqn:En; [lia|]. cbn [replay] in Hr. destruct (Z.ltb_spec (zlen pre - off - 1) 0); [done|lia]. }
  rewrite (proj2 (Z.ltb_ge (zlen pre + zlen g) _)), (proj2 (Z.ltb_ge (zlen pre - off - 1) 0)) by lia.
  replace (zlen pre + (len + 2)) with (zlen pre + zlen s) by lia.
  destruct ((9 <? len) && (zlen pre - off - 1 + (len + 2) <=? zlen pre)) eqn:Ed.
  - apply andb_true_iff in Ed as [_ Ed]. rewrite (move_ok (len + 2) off pre g (pre ++ s)) by (done || lia). done.
  - rewrite (copy_bytes_ok _ off pre g (pre ++ s)) by (done || lia). done.
Qed.
(** One item of the text is one round of the loop. *)
Lemma decode_lit d x w pre g : 1 <= zlen x <= MAX_LIT -> zlen x <= zlen g ->
  decode_one (d ++ zlen x - 1 :: x ++ w) (zlen d) (zlen pre) (pre ++ g)
  = Ok (Continue (zlen (d ++ zlen x - 1 :: x)) (zlen (pre ++ x)) ((pre ++ x) ++ zdrop (zlen x) g)).
Proof.
  unfold MAX_LIT. intros Hx Hg. unfold decode_one. rewrite (peek_app d _ _ (zlen d)) by done. cbn [mbind res_bind]. rewrite (proj2 (Z.ltb_lt (zlen x - 1) _)) by lia.
  replace (zlen x - 1 + 1) with (zlen x) by lia. rewrite (proj2 (Z.ltb_ge _ _)) by zl. rewrite (proj2 (Z.ltb_ge _ _)) by zl.
  replace (d ++ zlen x - 1 :: x ++ w) with ((d ++ [zlen x - 1]) ++ x ++ w) by (by simplify_list_eq). rewrite rd_app by (done || zl). cbn [mbind res_bind].
  rewrite <- (ztake_zdrop (zlen x) g) at 1. rewrite wr_app by (done || zl). cbn [mbind res_bind]. do 2 f_equal; [zl|zl|by simplify_list_eq].
Qed.

Lemma decode_short d len off w pre mid g : 1 <= len < 7 -> 0 <= off < MAX_OFF -> replay (Z.to_nat (len + 2)) off pre = Some mid -> zlen mid <= zlen (pre ++ g) ->
  decode_one (d ++ off / 256 + len * 32 :: off mod 256 :: w) (zlen d) (zlen pre) (pre ++ g)
  = Ok (Continue (zlen (d ++ [off / 256 + len * 32; off mod 256])) (zlen mid) (mid ++ zdrop (len + 2) g)).
Proof.
  intros Hl Ho Hr Hm. destruct (ctrl_bits off len) as [E1 E2]; [done|lia|]. pose proof (Z.div_pos off 256 ltac:(lia) ltac:(lia)).
  unfold decode_one. rewrite (peek_app d _ _ (zlen d)) by done. cbn [mbind res_bind]. rewrite (proj2 (Z.ltb_ge _ (2 ^ 5))) by lia. rewrite E1, E2.
  rewrite (proj2 (Z.leb_gt _ _)) by zl. rewrite (proj2 (Z.eqb_neq len 7)) by lia. cbn [mbind res_bind].
  replace (d ++ off / 256 + len * 32 :: off mod 256 :: w) with ((d ++ [off / 256 + len * 32]) ++ off mod 256 :: w) by (by simplify_list_eq).
  rewrite peek_app by zl. cbn [mbind res_bind]. rewrite (decode_ref (pre ++ g) pre g mid) by (done || lia). do 2 f_equal. zl.
Qed.

Lemma decode_long d len off w pre mid g : 7 <= len <= 262 -> 0 <= off < MAX_OFF -> replay (Z.to_nat (len + 2)) off pre = Some mid -> zlen mid <= zlen (pre ++ g) ->
  decode_one (d ++ off / 256 + 7 * 32 :: len - 7 :: off mod 256 :: w) (zlen d) (zlen pre) (pre ++ g)
  = Ok (Continue (zlen (d ++ [off / 256 + 7 * 32; len - 7; off mod 256])) (zlen mid) (mid ++ zdrop (len + 2) g)).
Proof.
  intros Hl Ho Hr Hm. destruct (ctrl_bits off 7) as [E1 E2]; [done|lia|]. pose proof (Z.div_pos off 256 ltac:(lia) ltac:(lia)).
  unfold decode_one. rewrite (peek_app d _ _ (zlen d)) by done. cbn [mbind res_bind]. rewrite (proj2 (Z.ltb_ge _ (2 ^ 5))) by lia. rewrite E1, E2.
  rewrite (proj2 (Z.leb_gt _ _)) by zl. rewrite Z.eqb_refl.
  replace (d ++ off / 256 + 7 * 32 :: len - 7 :: off mod 256 :: w) with ((d ++ [off / 256 + 7 * 32]) ++ len - 7 :: off mod 256 :: w) by (by simplify_list_eq).
  rewrite peek_app by zl. cbn [mbind res_bind]. rewrite (proj2 (Z.leb_gt _ _)) by zl.
  replace ((d ++ [off / 256 + 7 * 32]) ++ len - 7 :: off mod 256 :: w) with ((d ++ [off / 256 + 7 * 32; len - 7]) ++ off mod 256 :: w) by (by simplify_list_eq).
  rewrite peek_app by zl. cbn [mbind res_bind]. replace (7 + (len - 7)) with len by lia. rewrite (decode_ref (pre ++ g) pre g mid) by (done || lia). do 2 f_equal. zl.
Qed.

Lemma decode_loop_ok w pre post : codes w pre post -> forall fuel d g, w <> [] -> zlen post <= zlen (pre ++ g) -> (length w <= fuel)%nat ->
  exists g', decode_loop fuel (d ++ w) (zlen d) (zlen pre) (pre ++ g) = Ok (post ++ g', zlen post).
Proof.
  assert (Hgo : forall item w mid post fuel d g g1 pre, (codes w mid post) ->
    decode_one (d ++ item ++ w) (zlen d) (zlen pre) (pre ++ g) = Ok (Continue (zlen (d ++ item)) (zlen mid) (mid ++ g1)) ->
    (forall d, w <> [] -> exists g', decode_loop fuel (d ++ w) (zlen d) (zlen mid) (mid ++ g1) = Ok (post ++ g', zlen post)) ->
    exists g', decode_loop (S fuel) (d ++ item ++ w) (zlen d) (zlen pre) (pre ++ g) = Ok (post ++ g', zlen post)).
  { intros item w' mid post' fuel d g g1 pre' Hc E IH. cbn [decode_loop]. rewrite E. cbn [mbind res_bind].
    destruct (decide (w' = [])) as [->|Hw].
    - inversion Hc; subst. rewrite app_nil_r, Z.ltb_irrefl. eauto.
    - rewrite (proj2 (Z.ltb_lt _ _)) by (destruct w'; [done|zl]). rewrite app_assoc. by apply IH. }
  induction 1 as [pre|x w pre post Hx Hw IH|len off w pre mid post Hl Ho Hr Hw IH|len off w pre mid post Hl Ho Hr Hw IH]; intros fuel d g Hne Hz Hf; [done|..].
  all: destruct fuel as [|fuel]; [cbn in Hf; lia|]; destruct (codes_prefix _ _ _ Hw) as (s & Es).
  - apply (Hgo (zlen x - 1 :: x) w (pre ++ x) post fuel d g (zdrop (zlen x) g) pre Hw).
    + apply decode_lit; [done|]. rewrite Es in Hz. zl.
    + intros d' Hne'. apply IH; [done| |cbn in Hf; rewrite length_app in Hf; lia]. rewrite Es in *. zl.
  - destruct (replay_len _ _ _ _ Hr) as (s1 & E1 & Hs1).
    apply (Hgo [_; _] w mid post fuel d g (zdrop (len + 2) g) pre Hw).
    + apply decode_short; [done|done|done|]. rewrite Es in Hz. zl.
    + intros d' Hne'. apply IH; [done| |cbn in Hf; lia]. rewrite Es, E1 in *. zl.
  - destruct (replay_len _ _ _ _ Hr) as (s1 & E1 & Hs1).
    apply (Hgo [_; _; _] w mid post fuel d g (zdrop (len + 2) g) pre Hw).
    + apply decode_long; [done|done|done|]. rewrite Es in Hz. zl.
    + intros d' Hne'. apply IH; [done| |cbn in Hf; lia]. rewrite Es, E1 in *. zl.
Qed.

Lemma lzf_decompress_ok w post outp : codes w [] post -> w <> [] -> zlen post <= zlen outp ->
  exists g, lzf_decompress w outp = Ok (post ++ g, zlen post).
Proof. intros Hc Hw Hz. by apply (decode_loop_ok w [] post Hc (S (length w)) [] outp Hw Hz); lia. Qed.
(** ** Matches *)

Definition agree (inp : list Z) (ref ip len : Z) : Prop := forall k, 0 <= k < len -> inp !! Z.to_nat (ref + k) = inp !! Z.to_nat (ip + k).

Lemma agree_snoc inp ref ip len : agree inp ref ip len -> inp !! Z.to_nat (ref + len) = inp !! Z.to_nat (ip + len) -> agree inp ref ip (len + 1).
Proof. intros Ha E k Hk. destruct (decide (k = len)) as [->|]; [done|apply Ha; lia]. Qed.

Lemma differ_ok inp ref ip len : 0 <= ref <= ip -> 0 <= len -> ip + len < zlen inp ->
  exists b, differ inp ref ip len = Ok b /\ (b = false -> inp !! Z.to_nat (ref + len) = inp !! Z.to_nat (ip + len)).
Proof.
  intros Hr Hl Hn. destruct (peek_total inp (ref + len)) as (x & Ex & Lx); [lia|]. destruct (peek_total inp (ip + len)) as (y & Ey & Ly); [lia|].
  unfold differ. rewrite Ex, Ey. cbn [mbind res_bind]. eexists. split; [done|]. intros Hb. apply negb_false_iff, Z.eqb_eq in Hb. congruence.
Qed.

Lemma unrolled_ok inp ref ip n : forall len, 0 <= ref <= ip -> 0 <= len -> ip + len + Z.of_nat n < zlen inp -> agree inp ref ip (len + 1) ->
  exists len' e, unrolled n inp ref ip len = Ok (len', e) /\
    if e : bool then len < len' <= len + Z.of_nat n /\ agree inp ref ip len' else len' = len + Z.of_nat n /\ agree inp ref ip (len' + 1).
Proof.
  induction n as [|n IH]; intros len Hr Hl Hn Ha; cbn [unrolled].
  - exists len, false. split; [done|]. split; [lia|done].
  - destruct (differ_ok inp ref ip (len + 1)) as (b & -> & Hb); [lia..|]. cbn [mbind res_bind]. destruct b.
    + exists (len + 1), true. split; [done|]. split; [lia|done].
    + destruct (IH (len + 1)) as (len' & e & -> & He); [done|lia|lia|by apply agree_snoc, Hb|]. exists len', e. split; [done|]. destruct e; split; (lia || tauto).
Qed.

Lemma extend_ok inp ref ip maxlen fuel : forall len, 0 <= ref <= ip -> 0 <= len -> ip + maxlen <= zlen inp -> maxlen - len <= Z.of_nat fuel -> (0 < fuel)%nat ->
  agree inp ref ip (len + 1) -> exists len', extend fuel inp ref ip maxlen len = Ok len' /\ len < len' <= Z.max maxlen (len + 1) /\ agree inp ref ip len'.
Proof.
  induction fuel as [|fuel IH]; intros len Hr Hl Hn Hf Hp Ha; [lia|]. cbn [extend]. destruct (Z.ltb_spec (len + 1) maxlen) as [Hlt|Hge].
  - destruct (differ_ok inp ref ip (len + 1)) as (b & -> & Hb); [lia..|]. cbn [mbind res_bind]. destruct b.
    + exists (len + 1). split; [done|]. split; [lia|done].
    + destruct (IH (len + 1)) as (len' & -> & Hl' & Ha'); [done|lia|lia|lia|lia|by apply agree_snoc, Hb|]. exists len'. split; [done|]. split; [lia|done].
  - exists (len + 1). split; [done|]. split; [lia|done].
Qed.

Lemma match_len_ok inp ref ip maxlen : 0 <= ref <= ip -> 1 <= maxlen <= MAX_REF -> ip + maxlen + 2 <= zlen inp -> agree inp ref ip 3 ->
  exists len, match_len inp ref ip maxlen = Ok len /\ 3 <= len <= MAX_REF /\ ip + len <= zlen inp /\ agree inp ref ip len.
Proof.
  unfold MAX_REF. intros Hr Hm Hn Ha. unfold match_len. destruct (Z.ltb_spec 16 maxlen).
  - destruct (unrolled_ok inp ref ip 16 2) as (len & e & -> & He); [done|lia|lia|done|]. cbn [mbind res_bind]. destruct e.
    + exists len. split; [done|]. split_and!; [lia..|tauto].
    + destruct He as [-> He]. destruct (extend_ok inp ref ip maxlen (Z.to_nat MAX_REF) (2 + Z.of_nat 16)) as (len' & -> & Hl & Ha'); [done|lia|lia|unfold MAX_REF; lia|unfold MAX_REF; lia|done|].
      exists len'. split; [done|]. split_and!; [lia..|done].
  - cbn [mbind res_bind]. destruct (extend_ok inp ref ip maxlen (Z.to_nat MAX_REF) 2) as (len' & -> & Hl & Ha'); [done|lia|lia|unfold MAX_REF; lia|unfold MAX_REF; lia|done|].
    exists len'. split; [done|]. split_and!; [lia..|done].
Qed.

Lemma ztake_S (inp : list Z) i x : 0 <= i -> inp !! Z.to_nat i = Some x -> ztake (i + 1) inp = ztake i inp ++ [x].
Proof. intros Hi E. unfold ztake. replace (Z.to_nat (i + 1)) with (S (Z.to_nat i)) by lia. by apply take_S_r. Qed.

(** A match is a back reference. *)
Lemma match_replay inp n : forall ref ip, 0 <= ref < ip -> ip + Z.of_nat n <= zlen inp -> agree inp ref ip (Z.of_nat n) ->
  replay n (ip - ref - 1) (ztake ip inp) = Some (ztake (ip + Z.of_nat n) inp).
Proof.
  induction n as [|n IH]; intros ref ip Hr Hn Ha; cbn [replay]; [by rewrite Z.add_0_r|].
  assert (zlen (ztake ip inp) = ip) as E by (rewrite zlen_ztake; lia). rewrite E. replace (ip - (ip - ref - 1) - 1) with ref by lia. rewrite (proj2 (Z.ltb_ge _ _)) by lia.
  destruct (peek_total inp ip) as (x & _ & Lx); [lia|]. 
  assert (ztake ip inp !! Z.to_nat ref = Some x) as -> by (unfold ztake; rewrite lookup_take_lt by lia; pose proof (Ha 0 ltac:(lia)) as E0; rewrite !Z.add_0_r in E0; congruence). cbn [mbind option_bind].
  rewrite <- (ztake_S inp ip x) by (done || lia). replace (ip - ref - 1) with (ip + 1 - (ref + 1) - 1) by lia. rewrite IH; [do 2 f_equal; lia|lia|lia|].
  intros k Hk. replace (ref + 1 + k) with (ref + (k + 1)) by lia. replace (ip + 1 + k) with (ip + (k + 1)) by lia. apply Ha. lia.
Qed.

Lemma is_match_ok inp slot p : zlen inp < 2 ^ 32 -> 0 <= p -> p + 2 < zlen inp ->
  exists b, is_match inp (u32 slot) p = Ok b /\ (b = true -> 0 < u32 slot < p /\ p - u32 slot - 1 < MAX_OFF /\ agree inp (u32 slot) p 3).
Proof.
  intros Hn Hp Hi. pose proof (uwrap_range 32 slot ltac:(lia)) as Hs. unfold in_u in Hs. set (ref := u32 slot) in *. unfold is_match.
  destruct (Z.ltb_spec (u64 (p - ref - 1)) MAX_OFF) as [Ho|]; [|by exists false]. destruct (Z.ltb_spec 0 ref) as [Hr|]; [|by exists false]. cbn [negb].
  assert (0 <= p - ref - 1) as Hpos.
  { destruct (Z.lt_ge_cases (p - ref - 1) 0); [|done]. exfalso. unfold uwrap, MAX_OFF in Ho.
    rewrite <- (Z.mod_add _ 1) in Ho by lia. rewrite Z.mod_small in Ho by lia. lia. }
  rewrite uwrap_id in Ho by (unfold in_u; lia).
  destruct (differ_ok inp ref p 2) as (b2 & -> & H2); [lia..|]. cbn [mbind res_bind]. destruct b2; [by exists false|].
  destruct (differ_ok inp ref p 0) as (b0 & -> & H0); [lia..|]. destruct (differ_ok inp ref p 1) as (b1 & -> & H1); [lia..|]. cbn [mbind res_bind].
  eexists. split; [done|]. intros Hb. apply andb_true_iff in Hb as [E0%negb_true_iff E1%negb_true_iff]. split_and!; [lia..|].
  intros k Hk. assert (k = 0 \/ k = 1 \/ k = 2) as [->|[->| ->]] by lia; auto.
Qed.
(** ** Compression *)

(** Before the current literal run, [w] codes what has been consumed; the run itself
    follows, one byte left for its length. *)
Definition inv (inp : list Z) (out_len : Z) (st : state) : Prop :=
  0 <= lit st < MAX_LIT /\ lit st <= ip st <= zlen inp /\ zlen (out st) = out_len /\ (0 < lit st -> op st <= out_len) /\
  exists w r, out st = w ++ r /\ zlen w = op st - lit st - 1 /\ codes w [] (ztake (ip st - lit st) inp) /\
    (op st <= out_len -> exists hole rest, r = hole :: ztake (lit st) (zdrop (ip st - lit st) inp) ++ rest).

Lemma ztake_run (inp : list Z) i n : 0 <= n <= i -> ztake (i - n) inp ++ ztake n (zdrop (i - n) inp) = ztake i inp.
Proof. intros H. unfold ztake, zdrop. rewrite take_take_drop. f_equal. lia. Qed.

Lemma zlen_run (inp : list Z) i n : 0 <= n <= i -> i <= zlen inp -> zlen (ztake n (zdrop (i - n) inp)) = n.
Proof. intros H1 H2. zl. Qed.

(** [op[-lit - 1] = lit - 1; op -= !lit] *)
Lemma stop_run inp out_len st : inv inp out_len st -> op st <= out_len ->
  exists w r, poke (out st) (op st - lit st - 1) (u8 (lit st - 1)) = Ok (w ++ r) /\
    zlen w = op st - (if lit st =? 0 then 1 else 0) /\ codes w [] (ztake (ip st) inp) /\ zlen (w ++ r) = out_len.
Proof.
  intros (Hl & Hi & Ho & _ & w & r & Eo & Hw & Hc & Hr) Hop. destruct (Hr Hop) as (hole & rest & ->). unfold MAX_LIT in Hl. rewrite Eo in *. rewrite poke_app by lia.
  destruct (Z.eqb_spec (lit st) 0) as [E0|Hne].
  - rewrite E0 in *. rewrite Z.sub_0_r in Hc. do 2 eexists. split_and!; [done|lia|done|zl].
  - pose proof (zlen_run inp (ip st) (lit st) ltac:(lia) ltac:(lia)) as Hx. set (x := ztake (lit st) _) in *.
    exists (w ++ lit st - 1 :: x), rest. rewrite uwrap_id by (unfold in_u; lia). split_and!; [by simplify_list_eq|zl| |zl].
    rewrite <- (ztake_run inp (ip st) (lit st)) by lia. fold x. eapply codes_app; [exact Hc|]. apply codes_run; unfold MAX_LIT; lia.
Qed.

Lemma emit_literal_ok inp st : inv inp (zlen (out st)) st -> ip st < zlen inp -> op st < zlen (out st) ->
  exists st', emit_literal inp st = Ok st' /\ inv inp (zlen (out st)) st' /\ ip st' = ip st + 1 /\
    (if lit st + 1 =? MAX_LIT then op st' = op st + 2 /\ lit st' = 0 else op st' = op st + 1 /\ lit st' = lit st + 1).
Proof.
  intros (Hl & Hi & _ & _ & w & r & Eo & Hw & Hc & Hr) Hip Hop. destruct (Hr ltac:(lia)) as (hole & rest & ->).
  pose proof (zlen_run inp (ip st) (lit st) ltac:(lia) ltac:(lia)) as Hx. destruct (peek_total inp (ip st)) as (c & Ec & Lc); [lia|].
  destruct rest as [|y rest]; [rewrite Eo in Hop; zl|]. set (n := zlen (out st)) in *.
  set (x := ztake (lit st) (zdrop (ip st - lit st) inp)) in *.
  assert (ztake (lit st + 1) (zdrop (ip st - lit st) inp) = x ++ [c]) as Ex.
  { apply ztake_S; [lia|]. unfold zdrop. rewrite lookup_drop. rewrite <- Lc. f_equal. lia. }
  set (st1 := mk_state (ip st + 1) (op st + 1) (lit st + 1) (hval st) (htab st) (w ++ hole :: (x ++ [c]) ++ rest)).
  assert (Hn : zlen (out st1) = n) by (unfold st1, n; cbn; rewrite Eo; zl).
  unfold emit_literal. rewrite Ec. cbn [mbind res_bind]. rewrite Eo.
  replace (w ++ hole :: x ++ y :: rest) with ((w ++ hole :: x) ++ y :: rest) by (by simplify_list_eq). rewrite poke_app by zl. cbn [mbind res_bind].
  replace ((w ++ hole :: x) ++ c :: rest) with (out st1) by (unfold st1; cbn; by simplify_list_eq).
  assert (Hrun : poke (out st1) (op st1 - lit st1 - 1) (u8 (lit st1 - 1)) = Ok (w ++ u8 (lit st1 - 1) :: (x ++ [c]) ++ rest)) by (unfold st1; cbn; apply poke_app; lia).
  destruct (Z.eqb_spec (lit st + 1) MAX_LIT) as [E|Hne].
  - change (lit st + 1) with (lit st1) at 1 2. change (op st + 1 - lit st1 - 1) with (op st1 - lit st1 - 1). rewrite Hrun. cbn [mbind res_bind]. eexists. split; [done|]. cbn. split_and!; [|done|lia|done].
    unfold inv. cbn. split_and!; [done|done|lia|lia|rewrite <- Hn; unfold st1; cbn; zl|lia|].
    exists (w ++ lit st :: x ++ [c]), rest. unfold st1. cbn. rewrite uwrap_id by (unfold in_u, MAX_LIT in *; lia). replace (lit st + 1 - 1) with (lit st) by lia.
    split_and!; [by simplify_list_eq|zl| |].
    + replace (ip st + 1 - 0) with (ip st + 1) by lia. rewrite <- (ztake_run inp (ip st + 1) (lit st + 1)) by lia. replace (ip st + 1 - (lit st + 1)) with (ip st - lit st) by lia. rewrite Ex.
      eapply codes_app; [exact Hc|]. apply codes_run; zl.
    + intros Hle. rewrite ztake_0 by lia. destruct rest as [|z rest]; [|by exists z, rest]. exfalso. unfold st1 in Hn. cbn in Hn. zl.
  - eexists. split; [done|]. cbn. split_and!; [|done|done|done]. unfold inv. cbn. split_and!; [lia|lia|lia|lia|done|lia|].
    exists w, (hole :: (x ++ [c]) ++ rest). split_and!; [done|lia| |].
    + by replace (ip st + 1 - (lit st + 1)) with (ip st - lit st) by lia.
    + intros _. replace (ip st + 1 - (lit st + 1)) with (ip st - lit st) by lia. rewrite Ex. eauto.
Qed.
(** The bytes of a back reference. *)
Lemma emit_ref w r off len pre mid : 1 <= len <= 262 -> 0 <= off < MAX_OFF -> replay (Z.to_nat (len + 2)) off pre = Some mid -> codes w [] pre -> 4 <= zlen r ->
  exists o op1 item r', (if len <? 7 then o ← poke (w ++ r) (zlen w) (u8 (Z.shiftr off 8 + Z.shiftl len 5)); Ok (o, zlen w + 1)
     else o ← poke (w ++ r) (zlen w) (u8 (Z.shiftr off 8 + Z.shiftl 7 5)); o ← poke o (zlen w + 1) (u8 (len - 7)); Ok (o, zlen w + 2)) = Ok (o, op1) /\
    poke o op1 (u8 off) = Ok ((w ++ item) ++ r') /\ zlen (w ++ item) = op1 + 1 /\ codes (w ++ item) [] mid /\ zlen ((w ++ item) ++ r') = zlen (w ++ r) /\ 1 <= zlen r'.
Proof.
  unfold MAX_OFF. intros Hl Ho Hr Hc Hz. do 4 (destruct r as [|? r]; [zl|]). rewrite Z.shiftr_div_pow2, !Z.shiftl_mul_pow2 by lia. change (2 ^ 8) with 256. change (2 ^ 5) with 32.
  pose proof (Z.div_pos off 256 ltac:(lia) ltac:(lia)). pose proof (Z.div_lt_upper_bound off 256 32 ltac:(lia) ltac:(lia)). destruct (Z.ltb_spec len 7).
  - rewrite (uwrap_id 8 (_ + len * 32)) by (unfold in_u; lia). rewrite poke_app by done. cbn [mbind res_bind].
    exists (w ++ off / 256 + len * 32 :: z0 :: z1 :: z2 :: r), (zlen w + 1), [off / 256 + len * 32; off mod 256], (z1 :: z2 :: r). split; [done|].
    replace (w ++ off / 256 + len * 32 :: z0 :: z1 :: z2 :: r) with ((w ++ [off / 256 + len * 32]) ++ z0 :: z1 :: z2 :: r) by (by simplify_list_eq). rewrite poke_app by zl.
    split_and!; [by simplify_list_eq|zl| |zl|zl]. eapply codes_app; [done|]. eapply c_short; [lia|done|done|apply c_end].
  - rewrite (uwrap_id 8 (_ + 7 * 32)), (uwrap_id 8 (len - 7)) by (unfold in_u; lia). rewrite poke_app by done. cbn [mbind res_bind].
    replace (w ++ off / 256 + 7 * 32 :: z0 :: z1 :: z2 :: r) with ((w ++ [off / 256 + 7 * 32]) ++ z0 :: z1 :: z2 :: r) by (by simplify_list_eq). rewrite poke_app by zl. cbn [mbind res_bind].
    exists ((w ++ [off / 256 + 7 * 32]) ++ len - 7 :: z1 :: z2 :: r), (zlen w + 2), [off / 256 + 7 * 32; len - 7; off mod 256], (z2 :: r). split; [done|].
    replace ((w ++ [off / 256 + 7 * 32]) ++ len - 7 :: z1 :: z2 :: r) with ((w ++ [off / 256 + 7 * 32; len - 7]) ++ z1 :: z2 :: r) by (by simplify_list_eq). rewrite poke_app by zl.
    split_and!; [by simplify_list_eq|zl| |zl|zl]. eapply codes_app; [done|]. eapply c_long; [lia|done|done|apply c_end].
Qed.

Lemma hash_ok inp p : 0 <= p -> p + 3 < zlen inp -> forall k, exists h h1, (h ← FRST inp p; h ← NEXT inp h p; h1 ← NEXT inp h (p + 1); k h h1) = (k h h1 : res (list Z + state * bool)).
Proof.
  intros Hp Hn k. unfold FRST, NEXT. destruct (peek_total inp p) as (a & -> & _); [lia|]. destruct (peek_total inp (p + 1)) as (b & -> & _); [lia|].
  destruct (peek_total inp (p + 2)) as (c & -> & _); [lia|]. destruct (peek_total inp (p + 1 + 2)) as (d & -> & _); [lia|]. cbn [mbind res_bind]. eauto.
Qed.

Lemma emit_match_ok inp st ref : inv inp (zlen (out st)) st -> ip st + 2 < zlen inp < 2 ^ 32 -> 0 < ref < ip st -> ip st - ref - 1 < MAX_OFF -> agree inp ref (ip st) 3 ->
  exists r, emit_match inp (zlen (out st)) st ref = Ok r /\
    match r with inl _ => True | inr (st', brk) => inv inp (zlen (out st)) st' /\ ip st < ip st' /\ (brk = true -> zlen inp - 2 <= ip st') end.
Proof.
  intros Hinv Hip Href Hoff Hag. unfold emit_match. set (nolit := if lit st =? 0 then 1 else 0).
  assert (Hnl : 0 <= nolit <= 1) by (unfold nolit; case_match; lia).
  destruct (_ && _) eqn:Ek; [by eexists (inl _)|]. assert (Hop : op st - nolit + 4 < zlen (out st)) by (apply andb_false_iff in Ek; lia). clear Ek.
  destruct (stop_run inp _ st Hinv) as (w & r & -> & Hw & Hc & Hz); [lia|]. fold nolit in Hw. cbn [mbind res_bind].
  rewrite (uwrap_id 64) by (unfold in_u, MAX_OFF in *; lia). rewrite (uwrap_id 32) by (unfold in_u; lia).
  destruct (match_len_ok inp ref (ip st) (if MAX_REF <? zlen inp - ip st - 2 then MAX_REF else zlen inp - ip st - 2)) as (len & -> & Hl & Hil & Ha); [lia|unfold MAX_REF; case_match; lia|case_match; lia|done|]. cbn [mbind res_bind].
  pose proof (match_replay inp (Z.to_nat (len - 2 + 2)) ref (ip st) ltac:(lia) ltac:(lia)) as Hr. rewrite Z2Nat.id in Hr by lia. replace (len - 2 + 2) with len in Hr by lia. specialize (Hr Ha).
  replace len with (len - 2 + 2) in Hr at 1 by lia.
  destruct (emit_ref w r (ip st - ref - 1) (len - 2) _ _ ltac:(unfold MAX_REF in Hl; lia) ltac:(lia) Hr Hc ltac:(zl)) as (o & op1 & item & r' & Eo & Ep & Hzi & Hci & Hzz & Hr').
  rewrite <- Hw. unfold mbind, res_bind in Eo |- *. rewrite Eo, Ep. clear Eo Ep.
  assert (Hst : forall h t, inv inp (zlen (out st)) (mk_state (ip st + len) (op1 + 1 + 1) 0 h t ((w ++ item) ++ r'))).
  { intros h t. unfold inv. cbn. split_and!; [lia|done|lia|lia|lia|lia|]. exists (w ++ item), r'. split_and!; [done|lia|by rewrite Z.sub_0_r|].
    intros _. rewrite ztake_0 by lia. destruct r' as [|a r']; [zl|]. by exists a, r'. }
  replace (ip st + 1 + (len - 2) + 1) with (ip st + len) by lia. destruct (Z.leb_spec (zlen inp - 2) (ip st + len)).
  - eexists. split; [done|]. cbn. split_and!; [apply Hst|lia|lia].
  - pose proof (hash_ok inp (ip st + len - 2) ltac:(lia) ltac:(lia)) as Hh. unfold mbind, res_bind in Hh.
    edestruct (Hh (fun h h1 => Ok (inr (mk_state (ip st + len - 2 + 1 + 1) (op1 + 1 + 1) 0 h1 (set_slot (set_slot (htab st) (IDX h) (u32 (ip st + len - 2))) (IDX h1) (u32 (ip st + len - 2 + 1))) ((w ++ item) ++ r'), false)))) as (h & h1 & E).
    rewrite E. clear E. replace (ip st + len - 2 + 1 + 1) with (ip st + len) by lia. eexists. split; [done|]. cbn. split_and!; [apply Hst|lia|done].
Qed.
Lemma main_loop_ok inp out_len fuel : forall st, zlen inp < 2 ^ 32 -> zlen inp - ip st <= Z.of_nat fuel -> inv inp out_len st ->
  exists r, main_loop fuel inp out_len st = Ok r /\ match r with inl _ => True | inr st' => inv inp out_len st' /\ zlen inp - 2 <= ip st' end.
Proof.
  induction fuel as [|fuel IH]; intros st Hn Hf Hinv; cbn [main_loop]; destruct (Z.ltb_spec (ip st) (zlen inp - 2)) as [Hlt|Hge]; cbn [negb].
  1: lia. 1,3: by exists (inr st).
  pose proof Hinv as (Hl & Hi & Hz & Hrest). unfold NEXT at 1. destruct (peek_total inp (ip st + 2)) as (c & -> & _); [lia|]. cbn [mbind res_bind].
  set (h := u32 _). set (st1 := mk_state _ _ _ _ _ _). assert (Hinv1 : inv inp out_len st1) by exact Hinv. clear Hinv Hrest.
  destruct (is_match_ok inp (htab st (IDX h)) (ip st)) as (b & Eb & Hb); [done|lia|lia|]. change (ip st1) with (ip st). rewrite Eb. cbn [mbind res_bind]. destruct b.
  - destruct Hb as (Hr & Ho & Ha); [done|]. subst out_len. change (zlen (out st)) with (zlen (out st1)) in *.
    destruct (emit_match_ok inp st1 (u32 (htab st (IDX h)))) as (r & -> & Hm); [done|cbn; lia|done|done|done|]. cbn [mbind res_bind].
    destruct r as [o|[st2 [|]]]; [by eexists (inl _)| |apply IH; [done|cbn in Hm; lia|tauto]]. exists (inr st2). split; [done|]. split; [tauto|]. by apply Hm.
  - change (op st1) with (op st). destruct (Z.leb_spec out_len (op st)); [by eexists (inl _)|]. subst out_len. change (zlen (out st)) with (zlen (out st1)) in *.
    destruct (emit_literal_ok inp st1) as (st2 & -> & Hi2 & Hip & _); [done|cbn; lia|cbn in *; lia|]. cbn [mbind res_bind]. apply IH; [done|cbn in Hip; lia|done].
Qed.

(** The last literals fit: one byte each, one more when the run is full. *)
Lemma tail_loop_ok inp out_len fuel : forall st, inv inp out_len st -> zlen inp - ip st <= Z.of_nat fuel -> zlen inp - ip st < MAX_LIT ->
  op st + (zlen inp - ip st) + (if MAX_LIT <=? lit st + (zlen inp - ip st) then 1 else 0) <= out_len ->
  exists st', tail_loop fuel inp st = Ok st' /\ inv inp out_len st' /\ ip st' = zlen inp /\ op st' <= out_len.
Proof.
  induction fuel as [|fuel IH]; intros st Hinv Hf Hk Hop; cbn [tail_loop]; pose proof Hinv as (Hl & Hi & Hz & _); destruct (Z.ltb_spec (ip st) (zlen inp)) as [Hlt|Hge]; cbn [negb].
  1: lia. 1,3: exists st; split_and!; [done|done|lia|case_match; lia].
  subst out_len. destruct (emit_literal_ok inp st) as (st2 & -> & Hi2 & Hip & Hs); [done|done|case_match; lia|]. cbn [mbind res_bind].
  apply IH; [done|lia|lia|]. rewrite Hip in *. destruct (Z.eqb_spec (lit st + 1) MAX_LIT) as [E|E]; destruct Hs as [-> ->].
  - rewrite (proj2 (Z.leb_le MAX_LIT (lit st + (zlen inp - ip st)))) in Hop by lia. rewrite (proj2 (Z.leb_gt _ _)) by lia. lia.
  - replace (lit st + 1 + (zlen inp - (ip st + 1))) with (lit st + (zlen inp - ip st)) by lia. lia.
Qed.

(** The compressor never faults, and what it produces codes its input. *)
Lemma lzf_compress_ok htab0 inp outp : 2 <= zlen inp < 2 ^ 32 ->
  exists o n, lzf_compress htab0 inp outp = Ok (o, n) /\ (n = 0 \/ 0 < n <= zlen o /\ zlen o = zlen outp /\ codes (ztake n o) [] inp).
Proof.
  intros Hn. unfold lzf_compress. rewrite (proj2 (Z.eqb_neq (zlen inp) 0)) by lia. destruct (Z.eqb_spec (zlen outp) 0) as [|Ho]; [cbn; eauto|]. cbn [orb].
  unfold FRST. destruct (peek_total inp 0) as (a & -> & _); [lia|]. destruct (peek_total inp (0 + 1)) as (b & -> & _); [lia|]. cbn [mbind res_bind].
  destruct outp as [|y outp]; [done|]. set (st0 := mk_state 0 1 0 _ htab0 _).
  destruct (main_loop_ok inp (zlen (y :: outp)) (length inp) st0) as (r & -> & Hr); [lia|cbn; unfold zlen; lia| |].
  { unfold inv. cbn. split_and!; [done|done|done|lia|done|lia|]. exists [], (y :: outp). split_and!; [done|done|apply c_end|]. intros _. rewrite ztake_0 by done. by exists y, outp. }
  cbn [mbind res_bind]. destruct r as [o|st]; [eauto|]. destruct Hr as [Hinv Hge]. pose proof Hinv as (Hl & Hi & Hz & _).
  destruct (Z.ltb_spec (zlen (y :: outp)) (op st + 3)) as [|Hop]; [eauto|].
  destruct (tail_loop_ok inp (zlen (y :: outp)) (length inp) st) as (st' & -> & Hi' & Hip & Hop'); [done|unfold zlen in *; lia|unfold MAX_LIT; lia|case_match; lia|].
  cbn [mbind res_bind]. destruct (stop_run inp _ st' Hi' Hop') as (w & r & -> & Hw & Hc & Hzo). cbn [mbind res_bind]. do 2 eexists. split; [done|]. right. rewrite <- Hw.
  rewrite ztake_app by done. rewrite Hip, (ztake_all (zlen inp)) in Hc by done. split_and!; [|zl|done|done].
  destruct w; [|zl]. inversion Hc. subst. change (zlen (@nil Z)) with 0 in Hn. lia.
Qed.

(** C25: Compressing and decompressing a string gives it back. Whatever the
    uninitialised hash table and the output buffer hold, [lzf_compress] makes no
    access outside its buffers; it returns 0 or a length with which
    [lzf_decompress] reproduces the input in any buffer large enough, and its
    length. *)
Theorem lzf_roundtrip htab0 inp outp buf : 2 <= zlen inp < 2 ^ 32 -> zlen inp <= zlen buf ->
  exists o n, lzf_compress htab0 inp outp = Ok (o, n) /\
    (n = 0 \/ 0 < n <= zlen outp /\ zlen o = zlen outp /\ exists rest, lzf_decompress (ztake n o) buf = Ok (inp ++ rest, zlen inp)).
Proof.
  intros Hn Hb. destruct (lzf_compress_ok htab0 inp outp Hn) as (o & n & E & [->|(Hp & Hz & Hc)]); (do 2 eexists; split; [exact E|]); [by left|right].
  split_and!; [lia|lia|done|]. apply lzf_decompress_ok; [done| |done]. intros E0. pose proof (zlen_ztake n o) as Hl. rewrite E0 in Hl. change (zlen (@nil Z)) with 0 in Hl. lia.
Qed.

Definition demo_text : list Z := str "abcabcabcabcabcabcabcabcabcabcabcabcabcabcabcabcxyz".

Lemma lzf_roundtrip_witness : (2 <= zlen demo_text < 2 ^ 32 /\ zlen demo_text <= zlen (zrep 60 0)) /\
  exists o n, lzf_compress (fun k => k * 7) demo_text (zrep 40 9) = Ok (o, n) /\
    (n = 0 \/ 0 < n <= zlen (zrep 40 9) /\ zlen o = zlen (zrep 40 9) /\ exists rest, lzf_decompress (ztake n o) (zrep 60 0) = Ok (demo_text ++ rest, zlen demo_text)).
Proof.
  assert (H : 2 <= zlen demo_text < 2 ^ 32 /\ zlen demo_text <= zlen (zrep 60 0)) by (vm_compute; intuition discriminate).
  split; [exact H|]. apply (lzf_roundtrip (fun k => k * 7) demo_text (zrep 40 9) (zrep 60 0)); apply H.
Defined.

Example demo_text_shrinks : exists o, lzf_compress (fun k => k * 7) demo_text (zrep 40 9) = Ok (o, 12).
Proof. eexists. vm_compute. reflexivity. Qed.

(** ** Decompression of arbitrary bytes *)

Lemma rd_total b off n : 0 <= off -> 0 <= n -> off + n <= zlen b -> exists x, rd b off n = Ok x /\ zlen x = n.
Proof. intros. unfold rd. rewrite !(proj2 (Z.leb_le _ _)) by lia. eexists. split; [done|zl]. Qed.

Lemma wr_total b off x : 0 <= off -> off + zlen x <= zlen b -> exists b', wr b off x = Ok b' /\ zlen b' = zlen b.
Proof. intros. destruct (wr b off x) as [b'|] eqn:E; [exists b'; split; [done|by eapply wr_length]|]. unfold wr in E. by rewrite !(proj2 (Z.leb_le _ _)) in E by lia. Qed.

Lemma copy_bytes_total n : forall b op ref, 0 <= ref -> ref <= op -> op + Z.of_nat n <= zlen b -> exists b', copy_bytes n b op ref = Ok b' /\ zlen b' = zlen b.
Proof.
  induction n as [|n IH]; intros b op ref Hr Ho Hn; cbn [copy_bytes]; [by exists b|]. destruct (peek_total b ref) as (x & -> & _); [lia|]. cbn [mbind res_bind].
  destruct (wr_total b op [x]) as (b1 & E & Hb1); [lia|zl|]. unfold poke. rewrite E. cbn [mbind res_bind]. rewrite <- Hb1. apply IH; lia.
Qed.

Lemma ctrl_parts c : in_u 8 c -> 0 <= Z.shiftr c 5 /\ 0 <= Z.shiftl (Z.land c 0x1f) 8.
Proof. unfold in_u. intros Hc. split; [apply Z.shiftr_nonneg; lia|apply Z.shiftl_nonneg, Z.land_nonneg; lia]. Qed.

Lemma decode_one_total inp i o outp : Forall (in_u 8) inp -> 0 <= i < zlen inp -> 0 <= o <= zlen outp ->
  exists r, decode_one inp i o outp = Ok r /\ match r with Failed => True | Continue i' o' outp' => i < i' <= zlen inp /\ o < o' <= zlen outp /\ zlen outp' = zlen outp end.
Proof.
  intros HF Hi Ho. assert (Hbyte : forall k x, inp !! k = Some x -> in_u 8 x) by (intros k x E; rewrite list.Forall_lookup in HF; eauto).
  unfold decode_one. destruct (peek_total inp i) as (c & -> & Lc%Hbyte); [done|]. cbn [mbind res_bind]. destruct (ctrl_parts c Lc) as [Hlen Hof]. unfold in_u in Lc.
  destruct (Z.ltb_spec c (2 ^ 5)).
  - destruct (Z.ltb_spec (zlen outp) (o + (c + 1))); [by exists Failed|]. destruct (Z.ltb_spec (zlen inp) (i + 1 + (c + 1))); [by exists Failed|].
    destruct (rd_total inp (i + 1) (c + 1)) as (x & -> & Hx); [lia..|]. cbn [mbind res_bind]. destruct (wr_total outp o x) as (b & -> & Hb); [lia..|]. cbn [mbind res_bind].
    eexists. split; [done|]. cbn. lia.
  - destruct (Z.leb_spec (zlen inp) (i + 1)); [by exists Failed|].
    assert (exists len i2 bad, (if Z.shiftr c 5 =? 7 then x ← peek inp (i + 1); Ok (Z.shiftr c 5 + x, i + 1 + 1, zlen inp <=? i + 1 + 1) else Ok (Z.shiftr c 5, i + 1, false)) = Ok (len, i2, bad)
      /\ 0 <= len /\ (bad = false -> i < i2 < zlen inp)) as (len & i2 & bad & -> & Hl & Hi2).
    { case_match; [|do 3 eexists; split_and!; [done|done|lia]]. destruct (peek_total inp (i + 1)) as (x & -> & Lx%Hbyte); [lia|]. cbn [mbind res_bind].
      unfold in_u in Lx. do 3 eexists. split_and!; [done|lia|lia]. }
    cbn [mbind res_bind]. destruct bad; [by exists Failed|]. specialize (Hi2 eq_refl). destruct (peek_total inp i2) as (x & -> & Lx%Hbyte); [lia|]. cbn [mbind res_bind].
    unfold in_u in Lx. set (ref := _ - x). assert (ref < o) by (unfold ref; lia). destruct (Z.ltb_spec (zlen outp) (o + len + 2)); [by exists Failed|]. destruct (Z.ltb_spec ref 0); [by exists Failed|].
    destruct (_ && _) eqn:Ed.
    + apply andb_true_iff in Ed as [_ Ed%Z.leb_le]. destruct (rd_total outp ref (len + 2)) as (y & -> & Hy); [lia..|]. cbn [mbind res_bind].
      destruct (wr_total outp o y) as (b & -> & Hb); [lia..|]. cbn [mbind res_bind]. eexists. split; [done|]. cbn. lia.
    + destruct (copy_bytes_total (Z.to_nat (len + 2)) outp o ref) as (b & -> & Hb); [lia..|]. cbn [mbind res_bind]. eexists. split; [done|]. cbn. lia.
Qed.

Lemma decode_loop_total inp fuel : forall i o outp, Forall (in_u 8) inp -> 0 <= i < zlen inp -> 0 <= o <= zlen outp -> zlen inp - i <= Z.of_nat fuel ->
  exists outp' n, decode_loop fuel inp i o outp = Ok (outp', n) /\ zlen outp' = zlen outp /\ 0 <= n <= zlen outp.
Proof.
  induction fuel as [|fuel IH]; intros i o outp HF Hi Ho Hf; [lia|]. cbn [decode_loop]. destruct (decode_one_total inp i o outp HF Hi Ho) as (r & -> & Hr). cbn [mbind res_bind].
  destruct r as [i' o' b|]; [|exists outp, 0; split_and!; [done|done|lia|lia]]. destruct Hr as (Hi' & Ho' & Hb). destruct (Z.ltb_spec i' (zlen inp)).
  - rewrite <- Hb. apply IH; [done|lia|lia|lia].
  - exists b, o'. split_and!; [done|done|lia|lia].
Qed.

(** C34: Decompression of hostile bytes is memory safe and terminates. For every
    non-empty input [lzf_decompress] reads nothing outside the input, writes
    nothing outside the output and back references never reach before it; it
    returns a length within the output buffer, 0 when the text is malformed or the
    buffer too small. *)
Theorem lzf_decompress_safe inp outp : Forall (in_u 8) inp -> inp <> [] ->
  exists outp' n, lzf_decompress inp outp = Ok (outp', n) /\ zlen outp' = zlen outp /\ 0 <= n <= zlen outp.
Proof.
  intros HF Hne. apply decode_loop_total; [done| |zl|unfold zlen; lia]. destruct inp; [done|zl].
Qed.

Definition hostile_text : list Z := [0; 65; 0xff; 0x20; 0xff; 0x41].

Lemma lzf_decompress_safe_witness : (Forall (in_u 8) hostile_text /\ hostile_text <> []) /\
  exists outp' n, lzf_decompress hostile_text (zrep 20 0) = Ok (outp', n) /\ zlen outp' = zlen (zrep 20 0) /\ 0 <= n <= zlen (zrep 20 0).
Proof.
  assert (HF : Forall (in_u 8) hostile_text) by (apply (bool_decide_unpack _); vm_compute; exact I).
  split; [split; [exact HF|discriminate]|]. apply (lzf_decompress_safe hostile_text (zrep 20 0) HF). discriminate.
Defined.

Example hostile_text_rejected : exists o, lzf_decompress hostile_text (zrep 20 0) = Ok (o, 0).
Proof. eexists. vm_compute. reflexivity. Qed.
End LzfOps.
