(* ===== verification/Crc.v ===== *)
(** * Checksums: src/redis-stable/src/crc64.c, crc16.c and the key slots of cluster.c

    [crc64] guards the RDB file and DUMP payloads, [crc16] maps keys to cluster slots.
    Both run over a table; they are proved equal to the bit by bit division by their
    polynomial, and [crc64] to tell apart any two messages that differ in at most eight
    consecutive bytes. [keyHashSlot] is proved to follow the hash tag rule. *)
From stdpp Require Import sets.
From S2P Require Import Prelude.

Module Crc.

(** ** The code *)

Definition crc64_tab : list Z :=
  [0x0000000000000000; 0x7ad870c830358979; 0xf5b0e190606b12f2; 0x8f689158505e9b8b;
   0xc038e5739841b68f; 0xbae095bba8743ff6; 0x358804e3f82aa47d; 0x4f50742bc81f2d04;
   0xab28ecb46814fe75; 0xd1f09c7c5821770c; 0x5e980d24087fec87; 0x24407dec384a65fe;
   0x6b1009c7f05548fa; 0x11c8790fc060c183; 0x9ea0e857903e5a08; 0xe478989fa00bd371;
   0x7d08ff3b88be6f81; 0x07d08ff3b88be6f8; 0x88b81eabe8d57d73; 0xf2606e63d8e0f40a;
   0xbd301a4810ffd90e; 0xc7e86a8020ca5077; 0x4880fbd87094cbfc; 0x32588b1040a14285;
   0xd620138fe0aa91f4; 0xacf86347d09f188d; 0x2390f21f80c18306; 0x594882d7b0f40a7f;
   0x1618f6fc78eb277b; 0x6cc0863448deae02; 0xe3a8176c18803589; 0x997067a428b5bcf0;
   0xfa11fe77117cdf02; 0x80c98ebf2149567b; 0x0fa11fe77117cdf0; 0x75796f2f41224489;
   0x3a291b04893d698d; 0x40f16bccb908e0f4; 0xcf99fa94e9567b7f; 0xb5418a5cd963f206;
   0x513912c379682177; 0x2be1620b495da80e; 0xa489f35319033385; 0xde51839b2936bafc;
   0x9101f7b0e12997f8; 0xebd98778d11c1e81; 0x64b116208142850a; 0x1e6966e8b1770c73;
   0x8719014c99c2b083; 0xfdc17184a9f739fa; 0x72a9e0dcf9a9a271; 0x08719014c99c2b08;
   0x4721e43f0183060c; 0x3df994f731b68f75; 0xb29105af61e814fe; 0xc849756751dd9d87;
   0x2c31edf8f1d64ef6; 0x56e99d30c1e3c78f; 0xd9810c6891bd5c04; 0xa3597ca0a188d57d;
   0xec09088b6997f879; 0x96d1784359a27100; 0x19b9e91b09fcea8b; 0x636199d339c963f2;
   0xdf7adabd7a6e2d6f; 0xa5a2aa754a5ba416; 0x2aca3b2d1a053f9d; 0x50124be52a30b6e4;
   0x1f423fcee22f9be0; 0x659a4f06d21a1299; 0xeaf2de5e82448912; 0x902aae96b271006b;
   0x74523609127ad31a; 0x0e8a46c1224f5a63; 0x81e2d7997211c1e8; 0xfb3aa75142244891;
   0xb46ad37a8a3b6595; 0xceb2a3b2ba0eecec; 0x41da32eaea507767; 0x3b024222da65fe1e;
   0xa2722586f2d042ee; 0xd8aa554ec2e5cb97; 0x57c2c41692bb501c; 0x2d1ab4dea28ed965;
   0x624ac0f56a91f461; 0x1892b03d5aa47d18; 0x97fa21650afae693; 0xed2251ad3acf6fea;
   0x095ac9329ac4bc9b; 0x7382b9faaaf135e2; 0xfcea28a2faafae69; 0x8632586aca9a2710;
   0xc9622c4102850a14; 0xb3ba5c8932b0836d; 0x3cd2cdd162ee18e6; 0x460abd1952db919f;
   0x256b24ca6b12f26d; 0x5fb354025b277b14; 0xd0dbc55a0b79e09f; 0xaa03b5923b4c69e6;
   0xe553c1b9f35344e2; 0x9f8bb171c366cd9b; 0x10e3202993385610; 0x6a3b50e1a30ddf69;
   0x8e43c87e03060c18; 0xf49bb8b633338561; 0x7bf329ee636d1eea; 0x012b592653589793;
   0x4e7b2d0d9b47ba97; 0x34a35dc5ab7233ee; 0xbbcbcc9dfb2ca865; 0xc113bc55cb19211c;
   0x5863dbf1e3ac9dec; 0x22bbab39d3991495; 0xadd33a6183c78f1e; 0xd70b4aa9b3f20667;
   0x985b3e827bed2b63; 0xe2834e4a4bd8a21a; 0x6debdf121b863991; 0x1733afda2bb3b0e8;
   0xf34b37458bb86399; 0x8993478dbb8deae0; 0x06fbd6d5ebd3716b; 0x7c23a61ddbe6f812;
   0x3373d23613f9d516; 0x49aba2fe23cc5c6f; 0xc6c333a67392c7e4; 0xbc1b436e43a74e9d;
   0x95ac9329ac4bc9b5; 0xef74e3e19c7e40cc; 0x601c72b9cc20db47; 0x1ac40271fc15523e;
   0x5594765a340a7f3a; 0x2f4c0692043ff643; 0xa02497ca54616dc8; 0xdafce7026454e4b1;
   0x3e847f9dc45f37c0; 0x445c0f55f46abeb9; 0xcb349e0da4342532; 0xb1eceec59401ac4b;
   0xfebc9aee5c1e814f; 0x8464ea266c2b0836; 0x0b0c7b7e3c7593bd; 0x71d40bb60c401ac4;
   0xe8a46c1224f5a634; 0x927c1cda14c02f4d; 0x1d148d82449eb4c6; 0x67ccfd4a74ab3dbf;
   0x289c8961bcb410bb; 0x5244f9a98c8199c2; 0xdd2c68f1dcdf0249; 0xa7f41839ecea8b30;
   0x438c80a64ce15841; 0x3954f06e7cd4d138; 0xb63c61362c8a4ab3; 0xcce411fe1cbfc3ca;
   0x83b465d5d4a0eece; 0xf96c151de49567b7; 0x76048445b4cbfc3c; 0x0cdcf48d84fe7545;
   0x6fbd6d5ebd3716b7; 0x15651d968d029fce; 0x9a0d8ccedd5c0445; 0xe0d5fc06ed698d3c;
   0xaf85882d2576a038; 0xd55df8e515432941; 0x5a3569bd451db2ca; 0x20ed197575283bb3;
   0xc49581ead523e8c2; 0xbe4df122e51661bb; 0x3125607ab548fa30; 0x4bfd10b2857d7349;
   0x04ad64994d625e4d; 0x7e7514517d57d734; 0xf11d85092d094cbf; 0x8bc5f5c11d3cc5c6;
   0x12b5926535897936; 0x686de2ad05bcf04f; 0xe70573f555e26bc4; 0x9ddd033d65d7e2bd;
   0xd28d7716adc8cfb9; 0xa85507de9dfd46c0; 0x273d9686cda3dd4b; 0x5de5e64efd965432;
   0xb99d7ed15d9d8743; 0xc3450e196da80e3a; 0x4c2d9f413df695b1; 0x36f5ef890dc31cc8;
   0x79a59ba2c5dc31cc; 0x037deb6af5e9b8b5; 0x8c157a32a5b7233e; 0xf6cd0afa9582aa47;
   0x4ad64994d625e4da; 0x300e395ce6106da3; 0xbf66a804b64ef628; 0xc5bed8cc867b7f51;
   0x8aeeace74e645255; 0xf036dc2f7e51db2c; 0x7f5e4d772e0f40a7; 0x05863dbf1e3ac9de;
   0xe1fea520be311aaf; 0x9b26d5e88e0493d6; 0x144e44b0de5a085d; 0x6e963478ee6f8124;
   0x21c640532670ac20; 0x5b1e309b16452559; 0xd476a1c3461bbed2; 0xaeaed10b762e37ab;
   0x37deb6af5e9b8b5b; 0x4d06c6676eae0222; 0xc26e573f3ef099a9; 0xb8b627f70ec510d0;
   0xf7e653dcc6da3dd4; 0x8d3e2314f6efb4ad; 0x0256b24ca6b12f26; 0x788ec2849684a65f;
   0x9cf65a1b368f752e; 0xe62e2ad306bafc57; 0x6946bb8b56e467dc; 0x139ecb4366d1eea5;
   0x5ccebf68aecec3a1; 0x2616cfa09efb4ad8; 0xa97e5ef8cea5d153; 0xd3a62e30fe90582a;
   0xb0c7b7e3c7593bd8; 0xca1fc72bf76cb2a1; 0x45775673a732292a; 0x3faf26bb9707a053;
   0x70ff52905f188d57; 0x0a2722586f2d042e; 0x854fb3003f739fa5; 0xff97c3c80f4616dc;
   0x1bef5b57af4dc5ad; 0x61372b9f9f784cd4; 0xee5fbac7cf26d75f; 0x9487ca0fff135e26;
   0xdbd7be24370c7322; 0xa10fceec0739fa5b; 0x2e675fb4576761d0; 0x54bf2f7c6752e8a9;
   0xcdcf48d84fe75459; 0xb71738107fd2dd20; 0x387fa9482f8c46ab; 0x42a7d9801fb9cfd2;
   0x0df7adabd7a6e2d6; 0x772fdd63e7936baf; 0xf8474c3bb7cdf024; 0x829f3cf387f8795d;
   0x66e7a46c27f3aa2c; 0x1c3fd4a417c62355; 0x935745fc4798b8de; 0xe98f353477ad31a7;
   0xa6df411fbfb21ca3; 0xdc0731d78f8795da; 0x536fa08fdfd90e51; 0x29b7d047efec8728].

Definition crc16tab : list Z :=
  [0x0000; 0x1021; 0x2042; 0x3063; 0x4084; 0x50a5; 0x60c6; 0x70e7;
   0x8108; 0x9129; 0xa14a; 0xb16b; 0xc18c; 0xd1ad; 0xe1ce; 0xf1ef;
   0x1231; 0x0210; 0x3273; 0x2252; 0x52b5; 0x4294; 0x72f7; 0x62d6;
   0x9339; 0x8318; 0xb37b; 0xa35a; 0xd3bd; 0xc39c; 0xf3ff; 0xe3de;
   0x2462; 0x3443; 0x0420; 0x1401; 0x64e6; 0x74c7; 0x44a4; 0x5485;
   0xa56a; 0xb54b; 0x8528; 0x9509; 0xe5ee; 0xf5cf; 0xc5ac; 0xd58d;
   0x3653; 0x2672; 0x1611; 0x0630; 0x76d7; 0x66f6; 0x5695; 0x46b4;
   0xb75b; 0xa77a; 0x9719; 0x8738; 0xf7df; 0xe7fe; 0xd79d; 0xc7bc;
   0x48c4; 0x58e5; 0x6886; 0x78a7; 0x0840; 0x1861; 0x2802; 0x3823;
   0xc9cc; 0xd9ed; 0xe98e; 0xf9af; 0x8948; 0x9969; 0xa90a; 0xb92b;
   0x5af5; 0x4ad4; 0x7ab7; 0x6a96; 0x1a71; 0x0a50; 0x3a33; 0x2a12;
   0xdbfd; 0xcbdc; 0xfbbf; 0xeb9e; 0x9b79; 0x8b58; 0xbb3b; 0xab1a;
   0x6ca6; 0x7c87; 0x4ce4; 0x5cc5; 0x2c22; 0x3c03; 0x0c60; 0x1c41;
   0xedae; 0xfd8f; 0xcdec; 0xddcd; 0xad2a; 0xbd0b; 0x8d68; 0x9d49;
   0x7e97; 0x6eb6; 0x5ed5; 0x4ef4; 0x3e13; 0x2e32; 0x1e51; 0x0e70;
   0xff9f; 0xefbe; 0xdfdd; 0xcffc; 0xbf1b; 0xaf3a; 0x9f59; 0x8f78;
   0x9188; 0x81a9; 0xb1ca; 0xa1eb; 0xd10c; 0xc12d; 0xf14e; 0xe16f;
   0x1080; 0x00a1; 0x30c2; 0x20e3; 0x5004; 0x4025; 0x7046; 0x6067;
   0x83b9; 0x9398; 0xa3fb; 0xb3da; 0xc33d; 0xd31c; 0xe37f; 0xf35e;
   0x02b1; 0x1290; 0x22f3; 0x32d2; 0x4235; 0x5214; 0x6277; 0x7256;
   0xb5ea; 0xa5cb; 0x95a8; 0x8589; 0xf56e; 0xe54f; 0xd52c; 0xc50d;
   0x34e2; 0x24c3; 0x14a0; 0x0481; 0x7466; 0x6447; 0x5424; 0x4405;
   0xa7db; 0xb7fa; 0x8799; 0x97b8; 0xe75f; 0xf77e; 0xc71d; 0xd73c;
   0x26d3; 0x36f2; 0x0691; 0x16b0; 0x6657; 0x7676; 0x4615; 0x5634;
   0xd94c; 0xc96d; 0xf90e; 0xe92f; 0x99c8; 0x89e9; 0xb98a; 0xa9ab;
   0x5844; 0x4865; 0x7806; 0x6827; 0x18c0; 0x08e1; 0x3882; 0x28a3;
   0xcb7d; 0xdb5c; 0xeb3f; 0xfb1e; 0x8bf9; 0x9bd8; 0xabbb; 0xbb9a;
   0x4a75; 0x5a54; 0x6a37; 0x7a16; 0x0af1; 0x1ad0; 0x2ab3; 0x3a92;
   0xfd2e; 0xed0f; 0xdd6c; 0xcd4d; 0xbdaa; 0xad8b; 0x9de8; 0x8dc9;
   0x7c26; 0x6c07; 0x5c64; 0x4c45; 0x3ca2; 0x2c83; 0x1ce0; 0x0cc1;
   0xef1f; 0xff3e; 0xcf5d; 0xdf7c; 0xaf9b; 0xbfba; 0x8fd9; 0x9ff8;
   0x6e17; 0x7e36; 0x4e55; 0x5e74; 0x2e93; 0x3eb2; 0x0ed1; 0x1ef0].

(** [crc = crc64_tab[(uint8_t)crc ^ byte] ^ (crc >> 8)] over the bytes of [s] *)
Fixpoint crc64 (crc : Z) (s : list Z) : res Z :=
  match s with
  | [] => Ok crc
  | byte :: s =>
    e ← peek crc64_tab (Z.lxor (u8 crc) byte);
    crc64 (Z.lxor e (Z.shiftr crc 8)) s
  end.

(** [crc = (crc<<8) ^ crc16tab[((crc>>8) ^ *buf++)&0x00FF]] *)
Fixpoint crc16_loop (crc : Z) (s : list Z) : res Z :=
  match s with
  | [] => Ok crc
  | byte :: s =>
    e ← peek crc16tab (Z.land (Z.lxor (Z.shiftr crc 8) byte) 0x00FF);
    crc16_loop (u16 (Z.lxor (Z.shiftl crc 8) e)) s
  end.

Definition crc16 (s : list Z) : res Z := crc16_loop 0 s.

(** [for (s = from; s < keylen; s++) if (key[s] == c) break;] *)
Fixpoint index_from (n : nat) (key : list Z) (s c : Z) : res Z :=
  match n with
  | O => Ok s
  | S n => x ← peek key s; if x =? c then Ok s else index_from n key (s + 1) c
  end.

Definition keyHashSlot (key : list Z) : res Z :=
  let keylen := zlen key in
  s ← index_from (Z.to_nat keylen) key 0 (chr "{");
  if s =? keylen then h ← crc16 key; Ok (Z.land h 0x3FFF) else
  e ← index_from (Z.to_nat (keylen - (s + 1))) key (s + 1) (chr "}");
  if (e =? keylen) || (e =? s + 1) then h ← crc16 key; Ok (Z.land h 0x3FFF) else
  x ← rd key (s + 1) (e - s - 1);
  h ← crc16 x; Ok (Z.land h 0x3FFF).

(** ** crc64 as a division *)

(** The polynomial 0xad93d23594c935a9 with its bits reversed, and the division of one bit. *)
Definition poly64 : Z := 0x95ac9329ac4bc9b5.
Definition shift64 (c : Z) : Z := Z.lxor (Z.shiftr c 1) (if Z.testbit c 0 then poly64 else 0).
Definition crc64_bits (crc : Z) (s : list Z) : Z := fold_left (fun c b => Nat.iter 8 shift64 (Z.lxor c b)) s crc.

Lemma lxor_if (a b : bool) p : Z.lxor (if a then p else 0) (if b then p else 0) = if xorb a b then p else 0.
Proof. destruct a, b; cbn [xorb]; by rewrite ?Z.lxor_nilpotent, ?Z.lxor_0_l, ?Z.lxor_0_r. Qed.

Lemma lxor_swap a b c d : Z.lxor (Z.lxor a b) (Z.lxor c d) = Z.lxor (Z.lxor a c) (Z.lxor b d).
Proof. rewrite !Z.lxor_assoc. f_equal. rewrite <- !Z.lxor_assoc. f_equal. apply Z.lxor_comm. Qed.

Lemma shift64_lxor x y : shift64 (Z.lxor x y) = Z.lxor (shift64 x) (shift64 y).
Proof. unfold shift64. by rewrite lxor_swap, lxor_if, Z.shiftr_lxor, Z.lxor_spec. Qed.

Section Linear.
Context (f : Z -> Z) (f_lxor : forall x y, f (Z.lxor x y) = Z.lxor (f x) (f y)).

Lemma iter_lxor n x y : Nat.iter n f (Z.lxor x y) = Z.lxor (Nat.iter n f x) (Nat.iter n f y).
Proof. induction n as [|n IH]; [done|]. by rewrite !Nat.iter_succ, IH, f_lxor. Qed.
End Linear.

Lemma shift64_shiftl h k : 0 <= k -> shift64 (Z.shiftl h (k + 1)) = Z.shiftl h k.
Proof. intros Hk. unfold shift64. rewrite Z.shiftl_spec_low by lia. rewrite Z.lxor_0_r, Z.shiftr_shiftl_l by lia. f_equal. lia. Qed.

Lemma iter_shift64_shiftl n h : Nat.iter n shift64 (Z.shiftl h (Z.of_nat n)) = h.
Proof.
  induction n as [|n IH]; [cbn; apply Z.shiftl_0_r|]. rewrite Nat.iter_succ_r. rewrite Nat2Z.inj_succ, <- Z.add_1_r, shift64_shiftl by lia. apply IH.
Qed.

Lemma crc64_tab_ok b : in_u 8 b -> peek crc64_tab b = Ok (Nat.iter 8 shift64 b).
Proof.
  intros Hb. pose proof (forallb_bytes (fun b => match peek crc64_tab b with Ok e => e =? Nat.iter 8 shift64 b | Fault _ => false end) ltac:(vm_compute; reflexivity) b Hb) as H.
  cbn beta in H. destruct (peek crc64_tab b); [|done]. f_equal. lia.
Qed.

(** A word as its low byte and the rest. *)
Lemma low_byte c : Z.lxor (u8 c) (Z.shiftl (Z.shiftr c 8) 8) = c.
Proof.
  apply Z.bits_inj'. intros i Hi. unfold uwrap. rewrite Z.lxor_spec. destruct (Z.lt_ge_cases i 8).
  - rewrite Z.mod_pow2_bits_low, Z.shiftl_spec_low by lia. apply xorb_false_r.
  - rewrite Z.mod_pow2_bits_high, Z.shiftl_spec_high, Z.shiftr_spec by lia. rewrite xorb_false_l. f_equal. lia.
Qed.

Lemma lxor_uwrap w x y : 0 <= w -> uwrap w (Z.lxor x y) = Z.lxor (uwrap w x) (uwrap w y).
Proof.
  intros Hw. apply Z.bits_inj'. intros i Hi. unfold uwrap. rewrite Z.lxor_spec. destruct (Z.lt_ge_cases i w).
  - by rewrite !Z.mod_pow2_bits_low, Z.lxor_spec by lia.
  - by rewrite !Z.mod_pow2_bits_high by lia.
Qed.

Lemma lxor_range w x y : 0 <= w -> in_u w x -> in_u w y -> in_u w (Z.lxor x y).
Proof. intros Hw Hx Hy. rewrite <- (uwrap_id w x), <- (uwrap_id w y), <- lxor_uwrap by done. by apply uwrap_range. Qed.

Lemma crc64_step c b : in_u 8 b -> (e ← peek crc64_tab (Z.lxor (u8 c) b); Ok (Z.lxor e (Z.shiftr c 8))) = Ok (Nat.iter 8 shift64 (Z.lxor c b)).
Proof.
  intros Hb. rewrite crc64_tab_ok by (apply lxor_range; [lia|apply uwrap_range; lia|done]). cbn [mbind res_bind]. f_equal.
  rewrite <- (iter_shift64_shiftl 8 (Z.shiftr c 8)), <- (iter_lxor shift64 shift64_lxor). change (Z.of_nat 8) with 8. f_equal.
  rewrite Z.lxor_assoc, (Z.lxor_comm b), <- Z.lxor_assoc. by rewrite low_byte.
Qed.

Lemma crc64_eq crc s : Forall (in_u 8) s -> crc64 crc s = Ok (crc64_bits crc s).
Proof.
  intros H. revert crc. induction H as [|b s Hb _ IH]; intros crc; [done|]. cbn [crc64 crc64_bits fold_left].
  pose proof (crc64_step crc b Hb) as E. destruct (peek _ _) as [e|]; cbn [mbind res_bind] in *; [|done]. apply Ok_inj in E as ->. apply IH.
Qed.

Lemma crc64_bits_app crc s1 s2 : crc64_bits crc (s1 ++ s2) = crc64_bits (crc64_bits crc s1) s2.
Proof. apply fold_left_app. Qed.

(** The whole message as one number. *)
Lemma le_val_lxor b s : in_u 8 b -> le_val (b :: s) = Z.lxor b (Z.shiftl (le_val s) 8).
Proof.
  intros Hb. cbn [le_val]. rewrite <- (low_byte (b + 256 * le_val s)). unfold uwrap, in_u in *. change (2 ^ 8) with 256 in *. rewrite Z.shiftr_div_pow2 by lia. change (2 ^ 8) with 256.
  rewrite (Z.mul_comm 256), Z.mod_add, Z.div_add by lia. rewrite Z.mod_small, Z.div_small by lia. done.
Qed.

Lemma crc64_bits_le crc s : Forall (in_u 8) s -> crc64_bits crc s = Nat.iter (8 * length s) shift64 (Z.lxor crc (le_val s)).
Proof.
  intros H. revert crc. induction H as [|b s Hb _ IH]; intros crc; [cbn; by rewrite Z.lxor_0_r|].
  change (crc64_bits crc (b :: s)) with (crc64_bits (Nat.iter 8 shift64 (Z.lxor crc b)) s). rewrite IH. rewrite <- (iter_shift64_shiftl 8 (le_val s)) at 1.
  rewrite <- (iter_lxor shift64 shift64_lxor). change (Z.of_nat 8) with 8. rewrite Z.lxor_assoc, <- le_val_lxor by done.
  rewrite <- Nat.iter_add. f_equal. cbn [length]. lia.
Qed.

(** Division steps lose nothing. *)
Lemma poly64_top c : in_u 64 c -> Z.testbit (shift64 c) 63 = Z.testbit c 0.
Proof.
  intros Hc. unfold shift64. rewrite Z.lxor_spec, Z.shiftr_spec by lia. rewrite (bits_above c 64) by (done || lia). rewrite xorb_false_l. by destruct (Z.testbit c 0).
Qed.

Lemma shift64_range c : in_u 64 c -> in_u 64 (shift64 c).
Proof.
  intros Hc. unfold shift64. assert (in_u 63 (Z.shiftr c 1)) as Hs.
  { unfold in_u in *. rewrite Z.shiftr_div_pow2 by lia. split; [apply Z.div_pos; lia|apply Z.div_lt_upper_bound; lia]. }
  apply lxor_range; [lia|unfold in_u in *; lia|]. destruct (Z.testbit c 0); unfold in_u, poly64; lia.
Qed.

Lemma low_bit c d : Z.testbit c 0 = Z.testbit d 0 -> Z.shiftr c 1 = Z.shiftr d 1 -> c = d.
Proof.
  intros H0 Hs. apply Z.bits_inj'. intros i Hi. destruct (decide (i = 0)) as [->|]; [done|]. replace i with (i - 1 + 1) by lia. rewrite <- !Z.shiftr_spec by lia. by rewrite Hs.
Qed.

Lemma shift64_inj c d : in_u 64 c -> in_u 64 d -> shift64 c = shift64 d -> c = d.
Proof.
  intros Hc Hd E. assert (Z.testbit c 0 = Z.testbit d 0) as E0 by (by rewrite <- !poly64_top, E). apply low_bit; [done|].
  unfold shift64 in E. rewrite E0 in E. assert (forall k, Z.lxor (Z.lxor k (if Z.testbit d 0 then poly64 else 0)) (if Z.testbit d 0 then poly64 else 0) = k) as Hx.
  { intros k. by rewrite Z.lxor_assoc, Z.lxor_nilpotent, Z.lxor_0_r. }
  rewrite <- (Hx (Z.shiftr c 1)), E. apply Hx.
Qed.

Lemma iter_shift64_inj n : forall c d, in_u 64 c -> in_u 64 d -> Nat.iter n shift64 c = Nat.iter n shift64 d -> c = d.
Proof.
  induction n as [|n IH]; intros c d Hc Hd E; [done|]. rewrite !Nat.iter_succ_r in E. apply shift64_inj; [done..|]. apply IH; [by apply shift64_range..|done].
Qed.
Lemma crc64_bits_range crc s : in_u 64 crc -> Forall (in_u 8) s -> in_u 64 (crc64_bits crc s).
Proof.
  intros Hc H. revert crc Hc. induction H as [|b s Hb _ IH]; intros crc Hc; [done|]. change (crc64_bits crc (b :: s)) with (crc64_bits (Nat.iter 8 shift64 (Z.lxor crc b)) s). apply IH.
  assert (in_u 64 (Z.lxor crc b)) as Hx by (apply lxor_range; [lia|done|unfold in_u in *; lia]). revert Hx. generalize (Z.lxor crc b). generalize 8%nat. intros n c Hx. induction n as [|n IHn]; [done|]. rewrite Nat.iter_succ. by apply shift64_range, IHn.
Qed.

Lemma crc64_bits_inj s c d : in_u 64 c -> in_u 64 d -> Forall (in_u 8) s -> crc64_bits c s = crc64_bits d s -> c = d.
Proof.
  intros Hc Hd H. revert c d Hc Hd. induction H as [|b s Hb Hs IH]; intros c d Hc Hd E; [done|].
  assert (forall x, in_u 64 x -> in_u 64 (Z.lxor x b)) as Hx by (intros x ?; apply lxor_range; [lia|done|unfold in_u in *; lia]).
  assert (Z.lxor c b = Z.lxor d b) as Eb.
  { apply (iter_shift64_inj 8); [by apply Hx..|]. apply IH; [apply (crc64_bits_range c [b] Hc)|apply (crc64_bits_range d [b] Hd)|done]; (constructor; [exact Hb|constructor]). }
  rewrite <- (Z.lxor_0_r c), <- (Z.lxor_0_r d), <- (Z.lxor_nilpotent b), <- !Z.lxor_assoc. by rewrite Eb.
Qed.

Lemma le_val_inj s1 : forall s2, length s1 = length s2 -> Forall (in_u 8) s1 -> Forall (in_u 8) s2 -> le_val s1 = le_val s2 -> s1 = s2.
Proof.
  induction s1 as [|a s1 IH]; intros [|b s2] Hl H1 H2 E; [done|done|done|]. apply list.Forall_cons_1 in H1 as [Ha H1]. apply list.Forall_cons_1 in H2 as [Hb H2]. cbn in E. unfold in_u in Ha, Hb.
  assert (le_val s1 = le_val s2) by lia. f_equal; [lia|]. apply IH; [by injection Hl|done..].
Qed.

Lemma le_val_range s : Forall (in_u 8) s -> in_u (8 * zlen s) (le_val s).
Proof.
  induction 1 as [|b s Hb _ IH]; [done|]. rewrite zlen_cons. cbn [le_val]. unfold in_u in *. pose proof (zlen_nonneg s). replace (8 * (zlen s + 1)) with (8 + 8 * zlen s) by lia. rewrite Z.pow_add_r by lia. lia.
Qed.

(** C35: The table driven [crc64] is the bit by bit division by the polynomial
    0xad93d23594c935a9 (reflected), for every start value and message, so it may be
    computed piecewise. *)
Theorem crc64_is_division crc s1 s2 : Forall (in_u 8) (s1 ++ s2) ->
  crc64 crc (s1 ++ s2) = Ok (crc64_bits crc (s1 ++ s2)) /\ (c ← crc64 crc s1; crc64 c s2) = crc64 crc (s1 ++ s2).
Proof.
  intros H. split; [by apply crc64_eq|]. apply list.Forall_app in H as [H1 H2]. rewrite (crc64_eq crc s1) by done. cbn [mbind res_bind]. rewrite !crc64_eq by (done || by apply list.Forall_app).
  by rewrite crc64_bits_app.
Qed.

Lemma crc64_is_division_witness : Forall (in_u 8) (str "1234" ++ str "56789") /\
  crc64 0 (str "1234" ++ str "56789") = Ok (crc64_bits 0 (str "1234" ++ str "56789")) /\ (c ← crc64 0 (str "1234"); crc64 c (str "56789")) = crc64 0 (str "1234" ++ str "56789").
Proof.
  assert (H : Forall (in_u 8) (str "1234" ++ str "56789")) by (apply (bool_decide_unpack _); vm_compute; exact I).
  split; [exact H|]. exact (crc64_is_division 0 (str "1234") (str "56789") H).
Defined.

(** The check value in the comment of crc64.c, reached from 0 (and not from the
    documented start value). *)
Example crc64_check : crc64 0 (str "123456789") = Ok 0xe9c6d914c4b8d9ca.
Proof. vm_compute. reflexivity. Qed.
Example crc64_xor_in : crc64 0xffffffffffffffff (str "123456789") <> Ok 0xe9c6d914c4b8d9ca.
Proof. vm_compute. discriminate. Qed.

Lemma crc64_detects_bursts_aux crc a m1 m2 b : in_u 64 crc -> Forall (in_u 8) (a ++ m1 ++ b) -> Forall (in_u 8) m2 ->
  length m1 = length m2 -> zlen m1 <= 8 -> m1 <> m2 ->
  exists c1 c2, crc64 crc (a ++ m1 ++ b) = Ok c1 /\ crc64 crc (a ++ m2 ++ b) = Ok c2 /\ c1 <> c2.
Proof.
  rewrite !list.Forall_app. intros Hc (Ha & H1 & Hb) H2 Hl H8 Hne. rewrite !crc64_eq by (rewrite !list.Forall_app; done). do 2 eexists. split_and!; [done..|].
  rewrite !crc64_bits_app. intros E. pose proof (crc64_bits_range crc a Hc Ha) as Hca. set (c := crc64_bits crc a) in *.
  apply crc64_bits_inj in E; [|by apply crc64_bits_range..|done]. rewrite !crc64_bits_le, Hl in E by done.
  assert (forall m, Forall (in_u 8) m -> zlen m <= 8 -> in_u 64 (Z.lxor c (le_val m))) as Hx.
  { intros m Hm Hz. apply lxor_range; [lia|done|]. pose proof (le_val_range m Hm) as Hr. unfold in_u in *. pose proof (zlen_nonneg m). pose proof (Z.pow_le_mono_r 2 (8 * zlen m) 64). lia. }
  apply iter_shift64_inj in E; [|apply Hx; [done|done]|apply Hx; [done|unfold zlen in *; lia]]. apply Hne, le_val_inj; [done..|].
  rewrite <- (Z.lxor_0_l (le_val m1)), <- (Z.lxor_0_l (le_val m2)), <- (Z.lxor_nilpotent c), !Z.lxor_assoc. by rewrite E.
Qed.

(** A checksum detects every change confined to eight consecutive bytes: two
    messages of the same length that differ only inside such a window have different
    [crc64]s, whatever surrounds the window and whatever the start value. *)
Theorem crc64_detects_bursts crc a m1 m2 b : in_u 64 crc -> Forall (in_u 8) (a ++ m1 ++ b) -> Forall (in_u 8) m2 ->
  length m1 = length m2 -> zlen m1 <= 8 -> m1 <> m2 ->
  exists c1 c2, crc64 crc (a ++ m1 ++ b) = Ok c1 /\ crc64 crc (a ++ m2 ++ b) = Ok c2 /\ c1 <> c2.
Proof. apply crc64_detects_bursts_aux. Qed.

Lemma crc64_detects_bursts_witness :
  (in_u 64 0 /\ Forall (in_u 8) (str "he" ++ str "llo" ++ str " world") /\ Forall (in_u 8) (str "LLO") /\ zlen (str "llo") <= 8 /\ str "llo" <> str "LLO") /\
  exists c1 c2, crc64 0 (str "he" ++ str "llo" ++ str " world") = Ok c1 /\ crc64 0 (str "he" ++ str "LLO" ++ str " world") = Ok c2 /\ c1 <> c2.
Proof.
  assert (H0 : in_u 64 0) by (vm_compute; split; [discriminate|reflexivity]).
  assert (H1 : Forall (in_u 8) (str "he" ++ str "llo" ++ str " world")) by (apply (bool_decide_unpack _); vm_compute; exact I).
  assert (H2 : Forall (in_u 8) (str "LLO")) by (apply (bool_decide_unpack _); vm_compute; exact I).
  split; [split_and!; [exact H0|exact H1|exact H2|vm_compute; discriminate|discriminate]|].
  apply (crc64_detects_bursts 0 (str "he") (str "llo") (str "LLO") (str " world") H0 H1 H2); [reflexivity|vm_compute; discriminate|discriminate].
Defined.

(** ** crc16 as a division *)

Definition poly16 : Z := 0x1021.
Definition shift16 (c : Z) : Z := Z.lxor (u16 (Z.shiftl c 1)) (if Z.testbit c 15 then poly16 else 0).
Definition crc16_bits (crc : Z) (s : list Z) : Z := fold_left (fun c b => Nat.iter 8 shift16 (Z.lxor c (Z.shiftl b 8))) s crc.

Lemma shift16_lxor x y : shift16 (Z.lxor x y) = Z.lxor (shift16 x) (shift16 y).
Proof. unfold shift16. by rewrite lxor_swap, lxor_if, Z.shiftl_lxor, Z.lxor_spec, lxor_uwrap by lia. Qed.

Lemma crc16tab_ok b : in_u 8 b -> peek crc16tab b = Ok (Nat.iter 8 shift16 (Z.shiftl b 8)) /\ Nat.iter 8 shift16 b = Z.shiftl b 8 /\ in_u 16 (Nat.iter 8 shift16 (Z.shiftl b 8)).
Proof.
  intros Hb. pose proof (forallb_bytes (fun b => match peek crc16tab b with Ok e => (e =? Nat.iter 8 shift16 (Z.shiftl b 8)) && (Nat.iter 8 shift16 b =? Z.shiftl b 8) && (0 <=? e) && (e <? 2 ^ 16) | Fault _ => false end) ltac:(vm_compute; reflexivity) b Hb) as H.
  cbn beta in H. destruct (peek crc16tab b); [|done]. unfold in_u. split_and!; [f_equal|..]; lia.
Qed.

Lemma crc16_step c b : in_u 16 c -> in_u 8 b -> (e ← peek crc16tab (Z.land (Z.lxor (Z.shiftr c 8) b) 0x00FF); Ok (u16 (Z.lxor (Z.shiftl c 8) e))) = Ok (Nat.iter 8 shift16 (Z.lxor c (Z.shiftl b 8))).
Proof.
  intros Hc Hb. change 0x00FF with (2 ^ 8 - 1). rewrite land_mask by lia.
  assert (in_u 8 (Z.shiftr c 8)) as Hh by (unfold in_u in *; rewrite Z.shiftr_div_pow2 by lia; split; [apply Z.div_pos; lia|apply Z.div_lt_upper_bound; lia]).
  assert (in_u 8 (Z.lxor (Z.shiftr c 8) b)) as Hx by (apply lxor_range; [lia|done..]). rewrite Z.mod_small by exact Hx. destruct (crc16tab_ok _ Hx) as (-> & _ & Hr). cbn [mbind res_bind]. f_equal.
  rewrite lxor_uwrap by lia. rewrite (uwrap_id 16 _ Hr). destruct (crc16tab_ok (u8 c) ltac:(apply uwrap_range; lia)) as (_ & El & _).
  assert (u16 (Z.shiftl c 8) = Z.shiftl (u8 c) 8) as ->.
  { unfold uwrap. rewrite !Z.shiftl_mul_pow2 by lia. change (2 ^ 16) with (2 ^ 8 * 2 ^ 8). rewrite Z.mul_mod_distr_r by lia. done. }
  rewrite <- El, <- (iter_lxor shift16 shift16_lxor). f_equal. rewrite Z.shiftl_lxor, <- Z.lxor_assoc. by rewrite low_byte.
Qed.

Lemma crc16_loop_eq crc s : in_u 16 crc -> Forall (in_u 8) s -> crc16_loop crc s = Ok (crc16_bits crc s) /\ in_u 16 (crc16_bits crc s).
Proof.
  intros Hc H. revert crc Hc. induction H as [|b s Hb _ IH]; intros crc Hc; [split; [reflexivity|exact Hc]|].
  pose proof (crc16_step crc b Hc Hb) as E. change (crc16_bits crc (b :: s)) with (crc16_bits (Nat.iter 8 shift16 (Z.lxor crc (Z.shiftl b 8))) s).
  cbn [crc16_loop]. destruct (peek _ _) as [e|]; [|discriminate E]. cbn [mbind res_bind] in E |- *. apply Ok_inj in E. generalize dependent (Nat.iter 8 shift16 (Z.lxor crc (Z.shiftl b 8))).
  intros c <-. apply IH. apply uwrap_range. lia.
Qed.

(** ** Key slots *)

Lemma index_from_ok c b : forall a, exists s, index_from (length b) (a ++ b) (zlen a) c = Ok s /\
  ((exists x y, b = x ++ c :: y /\ (c ∉ x) /\ s = zlen a + zlen x) \/ ((c ∉ b) /\ s = zlen (a ++ b))).
Proof.
  induction b as [|z b IH]; intros a; cbn [length index_from].
  - exists (zlen a). split; [done|]. right. rewrite app_nil_r. split; [set_solver|done].
  - rewrite peek_app by done. cbn [mbind res_bind]. destruct (Z.eqb_spec z c) as [->|Hne].
    + exists (zlen a). split; [done|]. left. exists [], b. split_and!; [done|set_solver|zl].
    + destruct (IH (a ++ [z])) as (s & E & Hs). rewrite <- app_assoc, zlen_app in E. change (zlen [z]) with 1 in E. cbn [app] in E. exists s. split; [done|].
      destruct Hs as [(x & y & -> & Hx & ->)|[Hc ->]]; [left|right].
      * exists (z :: x), y. split_and!; [done|set_solver|zl].
      * split; [set_solver|zl].
Qed.

Lemma slot_mask h : Z.land h 0x3FFF = h mod 2 ^ 14.
Proof. change 0x3FFF with (2 ^ 14 - 1). by apply land_mask. Qed.

(** A key with a non-empty tag between its first opening brace and the next closing one. *)
Definition tagged (key tag : list Z) : Prop :=
  exists pre post, key = pre ++ (chr "{") :: tag ++ (chr "}") :: post /\ ((chr "{") ∉ pre) /\ ((chr "}") ∉ tag) /\ tag <> [].

Lemma first_split (c : Z) a b x y : a ++ c :: b = x ++ c :: y -> c ∉ a -> c ∉ x -> a = x /\ b = y.
Proof.
  revert x. induction a as [|z a IH]; intros [|w x]; cbn; intros E Ha Hx; simplify_eq; [done|set_solver|set_solver|]. destruct (IH x) as [-> ->]; [done|set_solver|set_solver|done].
Qed.

(** [keyHashSlot] follows the hash tag rule: the slot is the CRC16 (XMODEM) of the
    non-empty text between the first opening brace and the next closing brace, or of
    the whole key when there is no such text, modulo 16384. So keys with the same tag
    share a slot. *)
Theorem keyHashSlot_hash_tag key : Forall (in_u 8) key ->
  exists part, keyHashSlot key = Ok (crc16_bits 0 part mod 16384) /\ (tagged key part \/ part = key /\ forall tag, ~ tagged key tag).
Proof.
  intros HF. assert (forall x, Forall (in_u 8) x -> (h ← crc16 x; Ok (Z.land h 0x3FFF)) = Ok (crc16_bits 0 x mod 16384)) as Hcrc.
  { intros x Hx. unfold crc16. destruct (crc16_loop_eq 0 x) as [-> _]; [done|done|]. cbn [mbind res_bind]. by rewrite slot_mask. }
  unfold keyHashSlot. replace (Z.to_nat (zlen key)) with (length key) by (unfold zlen; lia).
  destruct (index_from_ok (chr "{") key []) as (s & Es & Hs). cbn [app] in Es. change (zlen []) with 0 in Es. rewrite Es. cbn [mbind res_bind].
  destruct Hs as [(x & y & -> & Hx & ->)|[Hno ->]].
  2: { rewrite Z.eqb_refl. exists key. split; [by apply Hcrc|]. right. split; [done|]. intros tag (pre & post & -> & _). set_solver. }
  rewrite (proj2 (Z.eqb_neq _ _)) by zl. cbn [app]. change (zlen []) with 0.
  replace (Z.to_nat (zlen (x ++ (chr "{") :: y) - (0 + zlen x + 1))) with (length y) by (rewrite zlen_app, zlen_cons; unfold zlen; lia).
  destruct (index_from_ok (chr "}") y (x ++ [(chr "{")])) as (e & Ee & He). rewrite <- app_assoc in Ee. cbn [app] in Ee.
  replace (zlen (x ++ [123])) with (0 + zlen x + 1) in Ee by zl. rewrite Ee. cbn [mbind res_bind].
  destruct He as [(tag & post & -> & Htag & ->)|[Hno ->]].
  - rewrite (proj2 (Z.eqb_neq _ (zlen (x ++ _)))) by zl. cbn [orb]. destruct (Z.eqb_spec (zlen (x ++ [(chr "{")]) + zlen tag) (0 + zlen x + 1)) as [E|Hne].
    + assert (tag = []) as -> by (apply zlen_0_nil; zl). exists (x ++ 123 :: 125 :: post). split; [by apply Hcrc|]. right. split; [done|].
      intros tag (pre & post' & E' & Hpre & Htag' & Hne). apply first_split in E' as [_ E']; [|done..]. destruct tag as [|t tag]; [done|]. cbn in E'. simplify_eq. set_solver.
    + exists tag. split.
      * replace (x ++ 123 :: tag ++ 125 :: post) with ((x ++ [123]) ++ tag ++ 125 :: post) in HF |- * by (by rewrite <- app_assoc).
        rewrite rd_app by (done || zl). cbn [mbind res_bind]. apply Hcrc. rewrite !list.Forall_app in HF. tauto.
      * left. exists x, post. split_and!; [done..|]. intros ->. zl.
  - rewrite <- app_assoc. cbn [app]. rewrite Z.eqb_refl. cbn [orb]. exists (x ++ 123 :: y). split; [by apply Hcrc|]. right. split; [done|].
    intros tag (pre & post & E & Hpre & _). apply first_split in E as [_ ->]; [|done..]. set_solver.
Qed.

Lemma keyHashSlot_hash_tag_witness : Forall (in_u 8) (str "user{42}:name") /\
  exists part, keyHashSlot (str "user{42}:name") = Ok (crc16_bits 0 part mod 16384) /\ (tagged (str "user{42}:name") part \/ part = str "user{42}:name" /\ forall tag, ~ tagged (str "user{42}:name") tag).
Proof.
  assert (H : Forall (in_u 8) (str "user{42}:name")) by (apply (bool_decide_unpack _); vm_compute; exact I).
  split; [exact H|]. exact (keyHashSlot_hash_tag (str "user{42}:name") H).
Defined.

Example same_tag_same_slot : keyHashSlot (str "user{42}:name") = keyHashSlot (str "{42}.age").
Proof. vm_compute. reflexivity. Qed.
End Crc.
