(* ===== verification/Rio.v ===== *)
(** * Streams: src/redis-stable/src/rio.h and rio.c

    A [rio] is a stream with a pluggable device: function pointers for reading and
    writing, an optional running CRC64 and a limit on the size of single transfers.
    The device is the class [RioIO]; [RioDevice] states what a device promises, with a
    view of its state as the bytes written so far and the bytes still to be read. The
    generic [rioWrite] and [rioRead] are verified against that promise, the in-memory
    device (an sds) is proved to keep it. *)
From S2P Require Import Prelude Util Sds Crc.

Module Rio.
Import Sds Crc.

(** ** Devices *)

(** [r->write] and [r->read]; a write answers success, a read the bytes or failure. *)
Class RioIO (B : Type) := {
  io_write : B -> list Z -> res (B * bool);
  io_read : B -> Z -> res (B * option (list Z)) }.

Section Generic.
Context {B : Type} `{HB : RioIO B}.

(** [update_cksum]: [rioGenericUpdateChecksum] is installed. *)
Record rio := mk_rio { io : B; update_cksum : bool; cksum : Z; processed_bytes : Z; max_processing_chunk : Z }.

Definition rioGenericUpdateChecksum (r : rio) (x : list Z) : res rio :=
  c ← crc64 (cksum r) x;
  Ok (mk_rio (io r) (update_cksum r) c (processed_bytes r) (max_processing_chunk r)).

Definition with_io (r : rio) (b : B) : rio := mk_rio b (update_cksum r) (cksum r) (processed_bytes r) (max_processing_chunk r).
Definition add_processed (r : rio) (n : Z) : rio := mk_rio (io r) (update_cksum r) (cksum r) (u64 (processed_bytes r + n)) (max_processing_chunk r).

Definition chunk_size (r : rio) (len : Z) : Z :=
  if negb (max_processing_chunk r =? 0) && (max_processing_chunk r <? len) then max_processing_chunk r else len.

(** [while (len)]: a chunk is added to the checksum, then written. *)
Fixpoint write_loop (fuel : nat) (r : rio) (x : list Z) : res (rio * bool) :=
  if zlen x =? 0 then Ok (r, true) else
  match fuel with
  | O => Fault OutOfFuel
  | S fuel =>
    let n := chunk_size r (zlen x) in
    r ← (if update_cksum r then rioGenericUpdateChecksum r (ztake n x) else Ok r);
    '(b, ok) ← io_write (io r) (ztake n x);
    let r := with_io r b in
    if negb ok then Ok (r, false) else write_loop fuel (add_processed r n) (zdrop n x)
  end.
Definition rioWrite (r : rio) (x : list Z) : res (rio * bool) := write_loop (length x) r x.

(** [while (len)]: a chunk is read, then added to the checksum; [got] is what the
    caller's buffer holds already. *)
Fixpoint read_loop (fuel : nat) (r : rio) (len : Z) (got : list Z) : res (rio * option (list Z)) :=
  if len =? 0 then Ok (r, Some got) else
  match fuel with
  | O => Fault OutOfFuel
  | S fuel =>
    let n := chunk_size r len in
    '(b, x) ← io_read (io r) n;
    let r := with_io r b in
    match x with
    | None => Ok (r, None)
    | Some x =>
      r ← (if update_cksum r then rioGenericUpdateChecksum r x else Ok r);
      read_loop fuel (add_processed r n) (len - n) (got ++ x)
    end
  end.
Definition rioRead (r : rio) (len : Z) : res (rio * option (list Z)) := read_loop (Z.to_nat len) r len [].

(** ** The promise of a device *)

(** [written] and [unread] are the contents on either side of the device; a device may
    refuse a write (a full disk), and delivers a read when there are enough bytes. *)
Class RioDevice := {
  dev_wf : B -> Prop;
  written : B -> list Z;
  unread : B -> list Z;
  capacity : Z;
  io_write_spec b x : dev_wf b -> Forall (in_u 8) x -> 0 < zlen x -> zlen (written b) + zlen x < capacity ->
    exists b' ok, io_write b x = Ok (b', ok) /\ dev_wf b' /\ (ok = true -> written b' = written b ++ x);
  io_read_spec b n : dev_wf b -> 0 < n ->
    exists b', dev_wf b' /\ written b' = written b /\
      (if n <=? zlen (unread b) then io_read b n = Ok (b', Some (ztake n (unread b))) /\ unread b' = zdrop n (unread b)
       else io_read b n = Ok (b', None));
  unread_bytes b : dev_wf b -> Forall (in_u 8) (unread b) }.
Context `{HD : RioDevice}.

Definition rio_wf (r : rio) : Prop := dev_wf (io r) /\ in_u 64 (cksum r) /\ in_u 64 (processed_bytes r) /\ 0 <= max_processing_chunk r.

(** The checksum after [x] has passed. *)
Definition cksum_after (r : rio) (x : list Z) : Z := if update_cksum r then crc64_bits (cksum r) x else cksum r.

(** A device that never refuses a write. *)
Definition reliable : Prop := forall b x b' ok, io_write b x = Ok (b', ok) -> ok = true.

(** What stays and what moves when [x] has been written, or read. *)
Definition same_setup (r r' : rio) : Prop := update_cksum r' = update_cksum r /\ max_processing_chunk r' = max_processing_chunk r.
Definition advanced (r r' : rio) (x : list Z) : Prop :=
  same_setup r r' /\ cksum r' = cksum_after r x /\ processed_bytes r' = u64 (processed_bytes r + zlen x).

Lemma advanced_nil r : in_u 64 (processed_bytes r) -> advanced r r [].
Proof. intros H. unfold advanced, same_setup. split_and!; [done|done| |rewrite Z.add_0_r; by rewrite uwrap_id]. unfold cksum_after. by case_match. Qed.

Lemma advanced_app r1 r2 r3 x y : advanced r1 r2 x -> advanced r2 r3 y -> advanced r1 r3 (x ++ y).
Proof.
  intros ([E1 E2] & Ec & Ep) ([E1' E2'] & Ec' & Ep'). unfold advanced, same_setup. split_and!; [congruence|congruence| |].
  - rewrite Ec'. unfold cksum_after in *. rewrite E1, Ec. destruct (update_cksum r1); [by rewrite crc64_bits_app|done].
  - rewrite Ep', Ep, zlen_app. unfold uwrap. rewrite Zplus_mod_idemp_l. f_equal. lia.
Qed.

Lemma chunk_size_ok r n : 0 <= max_processing_chunk r -> 0 < n -> 0 < chunk_size r n <= n.
Proof. intros Hm Hn. unfold chunk_size. destruct (_ && _) eqn:E; lia. Qed.

Lemma update_cksum_ok r x : rio_wf r -> Forall (in_u 8) x ->
  exists r', (if update_cksum r then rioGenericUpdateChecksum r x else Ok r) = Ok r' /\ io r' = io r /\ same_setup r r' /\
    cksum r' = cksum_after r x /\ processed_bytes r' = processed_bytes r /\ in_u 64 (cksum r').
Proof.
  intros (Hd & Hc & Hp & Hm) Hx. unfold cksum_after. destruct (update_cksum r) eqn:E; [|by exists r].
  unfold rioGenericUpdateChecksum. rewrite crc64_eq by done. cbn [mbind res_bind]. eexists. split; [done|]. unfold same_setup. cbn. split_and!; [done..|by apply crc64_bits_range].
Qed.

Lemma bytes_take (x : list Z) n : Forall (in_u 8) x -> Forall (in_u 8) (ztake n x).
Proof. apply Forall_take. Qed.
Lemma bytes_drop (x : list Z) n : Forall (in_u 8) x -> Forall (in_u 8) (zdrop n x).
Proof. apply Forall_drop. Qed.

Lemma write_loop_ok fuel : forall r x, rio_wf r -> Forall (in_u 8) x -> zlen (written (io r)) + zlen x < capacity -> zlen x <= Z.of_nat fuel ->
  exists r' ok, write_loop fuel r x = Ok (r', ok) /\ rio_wf r' /\ (reliable -> ok = true) /\ (ok = true -> written (io r') = written (io r) ++ x /\ advanced r r' x).
Proof.
  induction fuel as [|fuel IH]; intros r x Hr Hx Hcap Hf; pose proof Hr as (Hd & Hc & Hp & Hm); cbn [write_loop]; destruct (Z.eqb_spec (zlen x) 0) as [E0|Hne].
  1,3: apply zlen_0_nil in E0 as ->; exists r, true; split_and!; [done..|]; intros _; split; [by rewrite app_nil_r|by apply advanced_nil].
  1: pose proof (zlen_nonneg x); lia.
  pose proof (zlen_nonneg x). destruct (chunk_size_ok r (zlen x)) as [Hn1 Hn2]; [done|lia|]. set (n := chunk_size r (zlen x)) in *.
  destruct (update_cksum_ok r (ztake n x) Hr (bytes_take x n Hx)) as (r1 & -> & Ei & [Eu Ex] & Ec & Ep & Hc1). cbn [mbind res_bind]. rewrite Ei.
  destruct (io_write_spec (io r) (ztake n x)) as (b & ok & Ew & Hb & Hw); [done|by apply bytes_take|rewrite zlen_ztake; lia|rewrite zlen_ztake; lia|]. rewrite Ew. cbn [mbind res_bind].
  destruct ok; cbn [negb]. 2: { eexists _, false. split; [done|]. split; [unfold rio_wf; cbn; rewrite Ep, Ex; done|]. split; [intros Hrel; by apply Hrel in Ew|done]. }
  set (r2 := add_processed (with_io r1 b) n).
  assert (Hr2 : rio_wf r2) by (unfold rio_wf, r2; cbn; rewrite Ex; split_and!; [done|apply Hc1|apply uwrap_range; lia|done]).
  destruct (IH r2 (zdrop n x)) as (r' & ok & -> & Hr' & Hrel & Hok); [done|by apply bytes_drop| |rewrite zlen_zdrop; lia|].
  { unfold r2. cbn. rewrite Hw by done. rewrite zlen_app, zlen_ztake, zlen_zdrop. lia. }
  exists r', ok. split_and!; [done|done|done|]. intros Ho. destruct (Hok Ho) as [Ew' Ha]. split.
  - rewrite Ew'. unfold r2. cbn. rewrite Hw, <- app_assoc, ztake_zdrop by done. done.
  - rewrite <- (ztake_zdrop n x). eapply advanced_app; [|exact Ha]. unfold r2, advanced, same_setup. cbn. rewrite Ec, Ep, Eu, Ex, zlen_ztake. split_and!; [done..|]. do 2 f_equal. lia.
Qed.

Lemma rioWrite_ok r x : rio_wf r -> Forall (in_u 8) x -> zlen (written (io r)) + zlen x < capacity ->
  exists r' ok, rioWrite r x = Ok (r', ok) /\ rio_wf r' /\ (reliable -> ok = true) /\ (ok = true -> written (io r') = written (io r) ++ x /\ advanced r r' x).
Proof. intros Hr Hx Hc. by apply write_loop_ok. Qed.

Lemma read_loop_ok fuel : forall r len got, rio_wf r -> 0 <= len <= Z.of_nat fuel ->
  exists r', rio_wf r' /\ written (io r') = written (io r) /\
    if len <=? zlen (unread (io r)) then read_loop fuel r len got = Ok (r', Some (got ++ ztake len (unread (io r)))) /\
      unread (io r') = zdrop len (unread (io r)) /\ advanced r r' (ztake len (unread (io r)))
    else read_loop fuel r len got = Ok (r', None).
Proof.
  induction fuel as [|fuel IH]; intros r len got Hr Hl; pose proof Hr as (Hd & Hc & Hp & Hm); cbn [read_loop]; destruct (Z.eqb_spec len 0) as [->|Hne].
  1,3: exists r; split_and!; [done..|]; rewrite (proj2 (Z.leb_le _ _)) by apply zlen_nonneg; rewrite ztake_0, zdrop_0, app_nil_r by done; split_and!; [done..|by apply advanced_nil].
  1: lia.
  destruct (chunk_size_ok r len) as [Hn1 Hn2]; [done|lia|]. set (n := chunk_size r len) in *.
  pose proof (unread_bytes (io r) Hd) as Hbytes. destruct (io_read_spec (io r) n Hd Hn1) as (b & Hb & Hwr & Hrd). destruct (Z.leb_spec n (zlen (unread (io r)))) as [Hle|Hgt].
  2: { rewrite Hrd. cbn [mbind res_bind]. rewrite (proj2 (Z.leb_gt _ _)) by lia. exists (with_io r b). split_and!; [|done|done]. unfold rio_wf. by cbn. }
  destruct Hrd as [-> Eu]. cbn [mbind res_bind]. set (x := ztake n (unread (io r))) in *.
  destruct (update_cksum_ok (with_io r b) x) as (r1 & -> & Ei & [Eup Ex] & Ec & Ep & Hc1); [unfold rio_wf; by cbn|by apply bytes_take|]. cbn [mbind res_bind].
  set (r2 := add_processed r1 n).
  assert (Hr2 : rio_wf r2) by (unfold rio_wf, r2; cbn; rewrite Ex, Ei; split_and!; [done|apply Hc1|apply uwrap_range; lia|done]).
  destruct (IH r2 (len - n) (got ++ x) Hr2 ltac:(lia)) as (r' & Hr' & Hw' & Hres). assert (io r2 = b) as Er2 by (unfold r2; cbn; rewrite Ei; done). rewrite Er2, Eu in Hres. rewrite Er2 in Hw'.
  exists r'. split_and!; [done|congruence|]. rewrite zlen_zdrop in Hres.
  destruct (Z.leb_spec (len - n) (Z.max 0 (zlen (unread (io r)) - Z.max 0 n))); destruct (Z.leb_spec len (zlen (unread (io r)))); try lia; [|done].
  destruct Hres as (-> & Eu' & Ha). assert (x ++ ztake (len - n) (zdrop n (unread (io r))) = ztake len (unread (io r))) as Esplit.
  { unfold x, ztake, zdrop. rewrite take_take_drop. f_equal. lia. }
  split_and!.
  - by rewrite <- app_assoc, Esplit.
  - rewrite Eu'. unfold zdrop. rewrite drop_drop. f_equal. lia.
  - rewrite <- Esplit. eapply advanced_app; [|exact Ha]. unfold r2, advanced, same_setup. cbn. rewrite Ec, Ep, Eup, Ex. unfold x. rewrite zlen_ztake. split_and!; [done..|]. cbn. do 2 f_equal. lia.
Qed.

Lemma rioRead_ok r len : rio_wf r -> 0 <= len ->
  exists r', rio_wf r' /\ written (io r') = written (io r) /\
    if len <=? zlen (unread (io r)) then rioRead r len = Ok (r', Some (ztake len (unread (io r)))) /\
      unread (io r') = zdrop len (unread (io r)) /\ advanced r r' (ztake len (unread (io r)))
    else rioRead r len = Ok (r', None).
Proof. intros Hr Hl. apply (read_loop_ok (Z.to_nat len) r len [] Hr). lia. Qed.

End Generic.
Arguments rio B : clear implicits.
Arguments RioDevice B {HB}.
(** ** The in-memory device *)

Section Buffer.
Context (junk : Z -> Z).

Record buffer := mk_buffer { ptr : sds; pos : Z }.

Definition rioBufferWrite (b : buffer) (x : list Z) : res (buffer * bool) :=
  s ← sdscatlen junk (ptr b) x (zlen x); Ok (mk_buffer s (i64 (pos b + zlen x)), true).

Definition rioBufferRead (b : buffer) (len : Z) : res (buffer * option (list Z)) :=
  if u64 (sdslen (ptr b) - pos b) <? len then Ok (b, None) else
  x ← rd (buf (ptr b)) (pos b) len; Ok (mk_buffer (ptr b) (i64 (pos b + len)), Some x).

#[global] Instance buffer_io : RioIO buffer := { io_write := rioBufferWrite; io_read := rioBufferRead }.

Definition rioInitWithBuffer (s : sds) : rio buffer := mk_rio (mk_buffer s 0) false 0 0 0.

Definition contents (s : sds) : list Z := ztake (sdslen s) (buf s).

Lemma contents_repr s c : repr s c -> contents s = c.
Proof. intros [_ El (free & Eb & _)]. unfold contents. rewrite El, Eb. by apply ztake_app. Qed.

Definition buffer_wf (b : buffer) : Prop :=
  exists c, repr (ptr b) c /\ Forall (in_u 8) c /\ 0 <= pos b <= zlen c /\ zlen c < 2 ^ 61.

Lemma buffer_write_spec b x : buffer_wf b -> Forall (in_u 8) x -> zlen (contents (ptr b)) + zlen x < 2 ^ 61 ->
  exists b', rioBufferWrite b x = Ok (b', true) /\ buffer_wf b' /\ contents (ptr b') = contents (ptr b) ++ x.
Proof.
  intros (c & Hr & Hc & Hp & Hz) Hx Hcap. rewrite (contents_repr _ _ Hr) in *. unfold rioBufferWrite. pose proof (zlen_nonneg x).
  destruct (sdscatlen_ok junk (ptr b) c x [] Hr Hcap) as (s & E & Hs). rewrite app_nil_r in E. rewrite E. cbn [mbind res_bind]. eexists. split; [done|]. cbn. split.
  - exists (c ++ x). rewrite swrap_id by (unfold in_s; lia). rewrite zlen_app. cbn [ptr pos]. split_and!; [done|by apply list.Forall_app|lia..].
  - by apply contents_repr.
Qed.

Lemma buffer_read_spec b n : buffer_wf b -> 0 < n ->
  exists b', buffer_wf b' /\ ptr b' = ptr b /\
    if n <=? zlen (zdrop (pos b) (contents (ptr b)))
    then rioBufferRead b n = Ok (b', Some (ztake n (zdrop (pos b) (contents (ptr b))))) /\ zdrop (pos b') (contents (ptr b')) = zdrop n (zdrop (pos b) (contents (ptr b)))
    else rioBufferRead b n = Ok (b', None).
Proof.
  intros (c & Hr & Hc & Hp & Hz) Hn. rewrite (contents_repr _ _ Hr). unfold rioBufferRead. rewrite (repr_len _ _ Hr), uwrap_id by (unfold in_u; lia). rewrite zlen_zdrop.
  destruct (Z.leb_spec n (Z.max 0 (zlen c - Z.max 0 (pos b)))) as [Hle|Hgt].
  - rewrite (proj2 (Z.ltb_ge _ _)) by lia. destruct (repr_buf _ _ Hr) as (free & Eb & _).
    destruct (list_split_at (pos b) c) as (a & rest & Ec & Ha); [lia|]. pose proof (f_equal zlen Ec) as El. rewrite zlen_app in El. destruct (list_split_at n rest) as (x & d & -> & Hd); [lia|].
    exists (mk_buffer (ptr b) (i64 (pos b + n))). rewrite swrap_id by (unfold in_s; lia). split_and!; [|done| |]; cbn.
    + exists c. cbn. split_and!; [done|done|lia..].
    + rewrite Eb, Ec. rewrite <- !app_assoc, rd_app by (done || lia). cbn [mbind res_bind]. rewrite zdrop_app, ztake_app by lia. done.
    + rewrite (contents_repr _ _ Hr). unfold zdrop. rewrite drop_drop. f_equal. lia.
  - rewrite (proj2 (Z.ltb_lt _ _)) by lia. exists b. split_and!; [|done|done]. exists c. done.
Qed.

#[global] Program Instance buffer_device : RioDevice buffer := {
  dev_wf := buffer_wf; written b := contents (ptr b); unread b := zdrop (pos b) (contents (ptr b)); capacity := 2 ^ 61 }.
Next Obligation.
  intros b x Hb Hx _ Hcap. destruct (buffer_write_spec b x Hb Hx Hcap) as (b' & E & Hb' & Hw). by exists b', true.
Qed.
Next Obligation.
  intros b n Hb Hn. destruct (buffer_read_spec b n Hb Hn) as (b' & Hb' & Ep & H). exists b'. rewrite Ep in *. done.
Qed.
Next Obligation. intros b (c & Hr & Hc & _). rewrite (contents_repr _ _ Hr). by apply bytes_drop. Qed.

Lemma buffer_reliable : reliable (HB := buffer_io).
Proof. intros b x b' ok. cbn. unfold rioBufferWrite. destruct (sdscatlen _ _ _ _); [|done]. cbn. by intros [= _ <-]. Qed.

End Buffer.
End Rio.
