(* ===== verification/Object.v ===== *)
(** * Value objects: src/redis-stable/src/object.c, the string objects

    An object has a type, an encoding, a pointer and a reference count. A string is an
    sds of its own (RAW), an sds in the chunk of the object (EMBSTR) or a C [long] in
    place of the pointer (INT). Objects live in a heap: reading or releasing one that
    is not there is a fault, so an operation that returns is free of uses after free.
    The shared integers 0..9999 are not in the heap; their reference count is the
    constant that [incrRefCount] and [decrRefCount] leave alone. The LRU field and the
    representations of the other types are not modelled ([POther]). *)
From stdpp Require Import gmap.
From S2P Require Import Prelude Util Sds SdsText.

Module Object.
Import Sds SdsText.

Inductive obj_type := OBJ_STRING | OBJ_LIST | OBJ_SET | OBJ_ZSET | OBJ_HASH | OBJ_MODULE.
Inductive obj_encoding := OBJ_ENCODING_RAW | OBJ_ENCODING_INT | OBJ_ENCODING_EMBSTR | OBJ_ENCODING_OTHER.
#[global] Instance obj_type_eq_dec : EqDecision obj_type.
Proof. solve_decision. Defined.
#[global] Instance obj_encoding_eq_dec : EqDecision obj_encoding.
Proof. solve_decision. Defined.

Inductive obj_ptr := PSds (s : sds) | PLong (v : Z) | POther.
Record robj := mk_robj { type : obj_type; encoding : obj_encoding; ptr : obj_ptr; refcount : Z }.

Definition OBJ_SHARED_INTEGERS : Z := 10000.
Definition OBJ_SHARED_REFCOUNT : Z := 2 ^ 31 - 1.
Definition OBJ_ENCODING_EMBSTR_SIZE_LIMIT : Z := 44.

Definition sdsEncodedObject (o : robj) : bool :=
  bool_decide (encoding o = OBJ_ENCODING_RAW) || bool_decide (encoding o = OBJ_ENCODING_EMBSTR).

(** [o->ptr] where the code uses it as an sds, or as a [long]. *)
Definition as_sds (o : robj) : res sds := match ptr o with PSds s => Ok s | _ => Fault AssertFailed end.
Definition as_long (o : robj) : res Z := match ptr o with PLong v => Ok v | _ => Fault AssertFailed end.

Definition createObject (t : obj_type) (p : obj_ptr) : robj := mk_robj t OBJ_ENCODING_RAW p 1.

Section Alloc.
Context (junk : Z -> Z).

(** An uninitialised array on the stack. *)
Definition stack_buf (n : Z) : list Z := zrealloc junk [] n.

Definition createRawStringObject (p : option (list Z)) (len : Z) : res robj :=
  s ← sdsnewlen junk p len; Ok (createObject OBJ_STRING (PSds s)).

(** One chunk holds the object, an [sdshdr8] and the [len + 1] bytes. *)
Definition createEmbeddedStringObject (p : option (list Z)) (len : Z) : res robj :=
  b ← match p with
      | Some t => x ← rd t 0 len; b ← wr (stack_buf (len + 1)) 0 x; poke b len 0
      | None => wr (stack_buf (len + 1)) 0 (zrep (len + 1) 0)
      end;
  Ok (mk_robj OBJ_STRING OBJ_ENCODING_EMBSTR (PSds (mk_sds SDS_TYPE_8 (u8 len) (u8 len) b)) 1).

Definition createStringObject (p : option (list Z)) (len : Z) : res robj :=
  if len <=? OBJ_ENCODING_EMBSTR_SIZE_LIMIT then createEmbeddedStringObject p len else createRawStringObject p len.

(** A shared integer, or a new object. *)
Inductive made := MShared (v : Z) | MNew (o : robj).
Definition createStringObjectFromLongLong (value : Z) : res made :=
  if (0 <=? value) && (value <? OBJ_SHARED_INTEGERS) then Ok (MShared value)
  else if (LONG_MIN <=? value) && (value <=? LONG_MAX) then Ok (MNew (mk_robj OBJ_STRING OBJ_ENCODING_INT (PLong value) 1))
  else s ← sdsfromlonglong junk value; Ok (MNew (createObject OBJ_STRING (PSds s))).

(** [private]: [maxmemory] is set with a policy that needs every object to have its own
    LRU field. The object itself, possibly changed in place; a new object, after the old
    one lost a reference; a shared integer, after the old object lost a reference. *)
Inductive encoded := ESame (o : robj) | ENew (o : robj) | EShared (v : Z).
Definition tryObjectEncoding (private : bool) (o : robj) : res encoded :=
  _ ← assert_ (bool_decide (type o = OBJ_STRING));
  if negb (sdsEncodedObject o) then Ok (ESame o) else
  if 1 <? refcount o then Ok (ESame o) else
  s ← as_sds o;
  let len := sdslen s in
  x ← rd (buf s) 0 len;
  match (if len <=? 20 then string2l x else None) with
  | Some value =>
    if negb private && (0 <=? value) && (value <? OBJ_SHARED_INTEGERS) then Ok (EShared value)
    else Ok (ESame (mk_robj (type o) OBJ_ENCODING_INT (PLong value) (refcount o)))
  | None =>
    if len <=? OBJ_ENCODING_EMBSTR_SIZE_LIMIT then
      if bool_decide (encoding o = OBJ_ENCODING_EMBSTR) then Ok (ESame o)
      else emb ← createEmbeddedStringObject (Some (buf s)) len; Ok (ENew emb)
    else if bool_decide (encoding o = OBJ_ENCODING_RAW) && (len / 10 <? sdsavail s) then
      s ← sdsRemoveFreeSpace junk s; Ok (ESame (mk_robj (type o) (encoding o) (PSds s) (refcount o)))
    else Ok (ESame o)
  end.

(** The text, as [ll2string] or the sds gives it. *)
Definition string_bytes (bufsize : Z) (o : robj) : res (list Z) :=
  if sdsEncodedObject o then s ← as_sds o; rd (buf s) 0 (sdslen s)
  else v ← as_long o; '(b, n) ← ll2string (stack_buf bufsize) bufsize v; rd b 0 n.

Definition stringObjectLen (o : robj) : res Z :=
  _ ← assert_ (bool_decide (type o = OBJ_STRING));
  if sdsEncodedObject o then s ← as_sds o; Ok (sdslen s) else v ← as_long o; sdigits10 v.

(** [o] is NULL or an object; [None] is [C_ERR]. *)
Definition getLongLongFromObject (o : option robj) : res (option Z) :=
  match o with
  | None => Ok (Some 0)
  | Some o =>
    _ ← assert_ (bool_decide (type o = OBJ_STRING));
    if sdsEncodedObject o then s ← as_sds o; x ← rd (buf s) 0 (sdslen s); Ok (string2ll x)
    else v ← as_long o; Ok (Some v)
  end.

(** With the binary flag; [a == b] is the identity of the objects. *)
Definition compareStringObjects (same : bool) (a b : robj) : res Z :=
  _ ← assert_ (bool_decide (type a = OBJ_STRING) && bool_decide (type b = OBJ_STRING));
  if same then Ok 0 else
  x ← string_bytes 128 a;
  y ← string_bytes 128 b;
  let minlen := if zlen x <? zlen y then zlen x else zlen y in
  let cmp := memcmp (ztake minlen x) (ztake minlen y) in
  if cmp =? 0 then Ok (i32 (u64 (zlen x - zlen y))) else Ok cmp.

Definition equalStringObjects (same : bool) (a b : robj) : res bool :=
  if bool_decide (encoding a = OBJ_ENCODING_INT) && bool_decide (encoding b = OBJ_ENCODING_INT)
  then v ← as_long a; w ← as_long b; Ok (v =? w)
  else c ← compareStringObjects same a b; Ok (c =? 0).

(** A copy with the same encoding. *)
Definition dupStringObject (o : robj) : res robj :=
  _ ← assert_ (bool_decide (type o = OBJ_STRING));
  match encoding o with
  | OBJ_ENCODING_RAW => s ← as_sds o; createRawStringObject (Some (buf s)) (sdslen s)
  | OBJ_ENCODING_EMBSTR => s ← as_sds o; createEmbeddedStringObject (Some (buf s)) (sdslen s)
  | OBJ_ENCODING_INT => v ← as_long o; Ok (mk_robj OBJ_STRING OBJ_ENCODING_INT (PLong v) 1)
  | OBJ_ENCODING_OTHER => Fault AssertFailed
  end.

(** The object itself with one reference more, or a new object. *)
Definition getDecodedObject (o : robj) : res (option robj) :=
  if sdsEncodedObject o then Ok None else
  if bool_decide (type o = OBJ_STRING) && bool_decide (encoding o = OBJ_ENCODING_INT) then
    v ← as_long o;
    '(b, _) ← ll2string (stack_buf 32) 32 v;
    n ← strlen b;
    dec ← createStringObject (Some b) n; Ok (Some dec)
  else Fault AssertFailed.

(** ** The text of an object *)

Lemma cstring_id c : Forall (fun x => x <> 0) c -> cstring c = c.
Proof. induction 1 as [|x c Hx _ IH]; [done|]. cbn. rewrite (proj2 (Z.eqb_neq _ _)) by done. by rewrite IH. Qed.

Lemma dec_chars v : in_s 64 v -> Forall (fun x => 45 <= x <= 57) (dec v).
Proof.
  intros Hv. assert (forall l, Forall digit l -> Forall (fun x => 45 <= x <= 57) l) as Hd by (intros l H; eapply list.Forall_impl; [exact H|unfold digit; intros; cbn in *; lia]).
  destruct (dec_canon v Hv) as [|c l Hc Hl|c l Hc Hl]; repeat constructor; (lia || by apply Hd).
Qed.

Lemma strlen_dec v post : in_s 64 v -> strlen (dec v ++ 0 :: post) = Ok (zlen (dec v)).
Proof.
  intros Hv. rewrite strlen_ok, cstring_id; [done|]. eapply list.Forall_impl; [by apply dec_chars|]. cbn. intros; lia.
Qed.

Lemma memcmp_equal a b : zlen a = zlen b -> memcmp a b = 0 -> a = b.
Proof. intros Hl E. pose proof (memcmp_0 a b Hl) as H. rewrite E in H. symmetry in H. by apply bool_decide_eq_true in H. Qed.

Lemma memcmp_refl a : memcmp a a = 0.
Proof. induction a as [|x a IH]; [done|]. cbn. by rewrite Z.ltb_irrefl. Qed.

Lemma zrep_S n (x : Z) : 0 <= n -> zrep (n + 1) x = zrep n x ++ [x].
Proof. intros Hn. unfold zrep. rewrite Z2Nat.inj_add, replicate_add by lia. done. Qed.

Lemma stack_buf_len n : 0 <= n -> zlen (stack_buf n) = n.
Proof. apply zlen_zrealloc. Qed.

(** A string created without contents is zeroed. *)
Lemma sdsnewlen_null n : 0 <= n < 2 ^ 63 -> exists s, sdsnewlen junk None n = Ok s /\ repr s (zrep n 0).
Proof.
  intros Hn. assert (zlen (zrep n 0) = n) as Hz by (rewrite zlen_zrep; lia).
  destruct (sdsnewlen_ok junk (zrep n 0) []) as (s & E & Hs); [lia|]. rewrite Hz, app_nil_r in E. exists s. split; [|done]. rewrite <- E. unfold sdsnewlen.
  set (type := if _ && _ then _ else _). assert (0 <= sdsHdrSize type <= 17) as Hh by (unfold sdsHdrSize; repeat case_match; lia). rewrite (uwrap_id 64) by (unfold in_u; lia).
  unfold malloc_buf. replace (sdsHdrSize type + n + 1 - sdsHdrSize type) with (n + 1) by lia.
  assert (exists old z, zrealloc junk [] (n + 1) = old ++ [z] /\ zlen old = n) as (old & z & -> & Ho).
  { pose proof (zlen_zrealloc junk [] (n + 1) ltac:(lia)) as Hl. destruct (list_split_at n (zrealloc junk [] (n + 1))) as (old & r & E' & Ho); [lia|]. rewrite E', zlen_app in Hl.
    destruct r as [|z [|? ?]]; [zl| |zl]. by exists old, z. }
  rewrite zrep_S by lia. set (s0 := if type =? SDS_TYPE_5 then mk_sds _ _ _ (zrep n 0 ++ [0]) else _). set (s1 := if type =? SDS_TYPE_5 then mk_sds _ _ _ (old ++ [z]) else _).
  assert (buf s0 = zrep n 0 ++ [0]) as -> by (unfold s0; by case_match). assert (buf s1 = old ++ [z]) as -> by (unfold s1; by case_match).
  assert (forall b, with_buf s0 b = with_buf s1 b) as Hw by (intros b; unfold s0, s1; by case_match). cbn [mbind res_bind]. rewrite poke_app by done. cbn [mbind res_bind]. rewrite Hw.
  destruct (Z.eqb_spec n 0) as [->|Hne].
  - apply zlen_0_nil in Ho as ->. done.
  - rewrite <- (app_nil_r (zrep n 0)) at 2. rewrite rd_app0 by done. cbn [mbind res_bind]. rewrite wr_app0 by lia. cbn [mbind res_bind]. by rewrite poke_app by done.
Qed.

(** Replacing the whole contents. *)
Lemma repr_overwrite s c x : repr s c -> zlen x = zlen c ->
  wr (buf s) 0 x = Ok (x ++ zdrop (zlen x) (buf s)) /\ repr (with_buf s (x ++ zdrop (zlen x) (buf s))) x.
Proof.
  intros [Hh El (free & Eb & Hf)] Hx. rewrite Eb, wr_app0 by done. rewrite zdrop_app by done. split; [done|]. destruct (with_buf_hdr s (x ++ 0 :: free)) as (E1 & E2 & _ & Hiff).
  constructor; [by apply Hiff|by rewrite E1, El|]. exists free. cbn. split; [done|]. rewrite E2. lia.
Qed.

Lemma embstr_repr c : zlen c <= 255 -> repr (mk_sds SDS_TYPE_8 (u8 (zlen c)) (u8 (zlen c)) (c ++ [0])) c.
Proof.
  intros Hc. pose proof (zlen_nonneg c). rewrite uwrap_id by (unfold in_u; lia). destruct (fresh_hdr SDS_TYPE_8 (zlen c) (zlen c) (c ++ [0])) as (H1 & H2 & H3); [unfold SDS_TYPE_8; lia|lia|change (2 ^ hdr_bits SDS_TYPE_8) with 256; lia|].
  constructor; [done|done|]. exists []. split; [done|]. rewrite H3. change (zlen (@nil Z)) with 0. lia.
Qed.

(** [o] is a string object with the text [s]. *)
Inductive obj_text (o : robj) (s : list Z) : Prop :=
| text_sds sd : type o = OBJ_STRING -> sdsEncodedObject o = true -> ptr o = PSds sd -> repr sd s -> obj_text o s
| text_int v : type o = OBJ_STRING -> encoding o = OBJ_ENCODING_INT -> ptr o = PLong v -> in_s 64 v -> s = dec v -> obj_text o s.

Definition shared_int (v : Z) : robj := mk_robj OBJ_STRING OBJ_ENCODING_INT (PLong v) OBJ_SHARED_REFCOUNT.
Definition made_text (m : made) (s : list Z) : Prop :=
  match m with MShared v => 0 <= v < OBJ_SHARED_INTEGERS /\ s = dec v | MNew o => refcount o = 1 /\ obj_text o s end.

Lemma createRawStringObject_ok c rest : zlen c < 2 ^ 63 ->
  exists sd, createRawStringObject (Some (c ++ rest)) (zlen c) = Ok (createObject OBJ_STRING (PSds sd)) /\ repr sd c.
Proof. intros Hc. destruct (sdsnewlen_ok junk c rest Hc) as (s & E & Hs). exists s. unfold createRawStringObject. by rewrite E. Qed.

Lemma createEmbeddedStringObject_ok c rest : zlen c <= 255 ->
  exists sd, createEmbeddedStringObject (Some (c ++ rest)) (zlen c) = Ok (mk_robj OBJ_STRING OBJ_ENCODING_EMBSTR (PSds sd) 1) /\ repr sd c.
Proof.
  intros Hc. pose proof (zlen_nonneg c). unfold createEmbeddedStringObject. rewrite rd_app0 by done. cbn [mbind res_bind].
  pose proof (stack_buf_len (zlen c + 1) ltac:(lia)) as Hl. destruct (list_split_at (zlen c) (stack_buf (zlen c + 1))) as (old & r & E & Ho); [lia|]. rewrite E in *. rewrite zlen_app in Hl.
  destruct r as [|z [|? ?]]; [zl| |zl]. rewrite wr_app0 by done. cbn [mbind res_bind]. rewrite poke_app by done. cbn [mbind res_bind]. eexists. split; [done|]. by apply embstr_repr.
Qed.

(** A new string object with zeroed contents, ready to be filled. *)
Lemma create_null_ok (encode : bool) n : 0 <= n < 2 ^ 63 ->
  exists o sd, (if encode then createStringObject None n else createRawStringObject None n) = Ok o /\
    type o = OBJ_STRING /\ sdsEncodedObject o = true /\ refcount o = 1 /\ ptr o = PSds sd /\ repr sd (zrep n 0).
Proof.
  intros Hn. assert (exists o sd, createRawStringObject None n = Ok o /\ type o = OBJ_STRING /\ sdsEncodedObject o = true /\ refcount o = 1 /\ ptr o = PSds sd /\ repr sd (zrep n 0)) as Hraw.
  { unfold createRawStringObject. destruct (sdsnewlen_null n Hn) as (s & -> & Hs). cbn [mbind res_bind]. eexists _, s. split; [done|]. done. }
  destruct encode; [|done]. unfold createStringObject, OBJ_ENCODING_EMBSTR_SIZE_LIMIT. destruct (Z.leb_spec n 44) as [Hle|]; [|done].
  unfold createEmbeddedStringObject. pose proof (stack_buf_len (n + 1) ltac:(lia)) as Hl.
  rewrite <- (app_nil_r (stack_buf (n + 1))), wr_app0 by (rewrite zlen_zrep; lia). rewrite app_nil_r. cbn [mbind res_bind]. eexists _, _. split; [done|]. cbn. split_and!; [done..|].
  rewrite zrep_S by lia. assert (zlen (zrep n 0) = n) as Hz by (rewrite zlen_zrep; lia). rewrite <- Hz at 1 2. apply embstr_repr. lia.
Qed.

Lemma sdsfromlonglong_ok v : in_s 64 v -> exists sd, sdsfromlonglong junk v = Ok sd /\ repr sd (dec v).
Proof.
  intros Hv. unfold sdsfromlonglong. destruct (sdsll2str_ok (local_buf junk) v) as (post & ->); [apply local_buf_len|done|]. cbn [mbind res_bind].
  pose proof (dec_len_le v Hv). apply sdsnewlen_ok. lia.
Qed.

Lemma createStringObjectFromLongLong_ok v : in_s 64 v -> exists m, createStringObjectFromLongLong v = Ok m /\ made_text m (dec v).
Proof.
  intros Hv. unfold createStringObjectFromLongLong. destruct (_ && _) eqn:E1; [eexists; split; [done|]; cbn; split; [lia|done]|].
  rewrite (proj2 (andb_true_iff _ _)) by (unfold in_s, LONG_MIN, LONG_MAX in *; lia). eexists. split; [done|]. split; [done|]. by eapply text_int.
Qed.

Lemma rd_text s c : repr s c -> rd (buf s) 0 (sdslen s) = Ok c.
Proof. intros [_ El (free & Eb & _)]. rewrite Eb, El. by apply rd_app0. Qed.

Lemma dec_inj v w : in_s 64 v -> in_s 64 w -> dec v = dec w -> v = w.
Proof. intros Hv Hw E. pose proof (string2ll_dec v Hv) as H1. rewrite E, string2ll_dec in H1 by done. by injection H1. Qed.

Lemma string2l_sound s v : string2l s = Some v -> in_s 64 v /\ s = dec v.
Proof.
  unfold string2l. destruct (string2ll s) as [w|] eqn:E; [|done]. apply string2ll_sound in E as [Hc Hw]. case_match; [done|]. intros [= <-]. rewrite swrap_id by (done || lia).
  split; [done|]. by apply canon_dec.
Qed.

Lemma text_type o s : obj_text o s -> type o = OBJ_STRING.
Proof. by destruct 1. Qed.

Lemma sdsEncoded_int o : encoding o = OBJ_ENCODING_INT -> sdsEncodedObject o = false.
Proof. unfold sdsEncodedObject. intros ->. done. Qed.

Lemma string_bytes_ok n o s : 21 <= n -> obj_text o s -> string_bytes n o = Ok s.
Proof.
  intros Hn [sd Ht He Hp Hr|v Ht He Hp Hv ->]; unfold string_bytes, as_sds, as_long.
  - rewrite He, Hp. cbn [mbind res_bind]. by apply rd_text.
  - rewrite sdsEncoded_int, Hp by done. cbn [mbind res_bind]. pose proof (dec_len_le v Hv). destruct (ll2string_ok (stack_buf n) n v Hv) as (post & -> & _); [apply stack_buf_len; lia|lia|].
    cbn [mbind res_bind]. by apply rd_app0.
Qed.

Lemma tryObjectEncoding_ok private o s : obj_text o s -> zlen s < 2 ^ 61 ->
  exists e, tryObjectEncoding private o = Ok e /\
    match e with
    | ESame o' => obj_text o' s /\ refcount o' = refcount o
    | ENew o' => obj_text o' s /\ refcount o' = 1 /\ refcount o <= 1
    | EShared v => 0 <= v < OBJ_SHARED_INTEGERS /\ s = dec v /\ refcount o <= 1
    end.
Proof.
  intros Ho Hz. pose proof Ho as Ho'. unfold tryObjectEncoding. rewrite (bool_decide_eq_true_2 (type o = OBJ_STRING)) by (by eapply text_type). cbn [assert_ mbind res_bind].
  destruct Ho as [sd Ht He Hp Hr|v Ht He Hp Hv ->]; [|rewrite sdsEncoded_int by done; cbn [negb]; by eexists]. rewrite He. cbn [negb].
  destruct (Z.ltb_spec 1 (refcount o)) as [|Hrc]; [by eexists|]. unfold as_sds. rewrite Hp. cbn [mbind res_bind]. rewrite (rd_text sd s Hr). cbn [mbind res_bind]. rewrite (repr_len _ _ Hr).
  destruct (if zlen s <=? 20 then string2l s else None) as [v|] eqn:El.
  - assert (string2l s = Some v) as E2 by (by destruct (zlen s <=? 20)). apply string2l_sound in E2 as [Hv Hs].
    destruct (negb private && (0 <=? v) && (v <? OBJ_SHARED_INTEGERS)) eqn:E; (eexists; split; [done|]).
    + split_and!; [lia|lia|done|lia].
    + cbn. split; [|done]. by eapply text_int.
  - destruct (Z.leb_spec (zlen s) OBJ_ENCODING_EMBSTR_SIZE_LIMIT) as [Hle|].
    + case_bool_decide; [by eexists|]. destruct (repr_buf _ _ Hr) as (free & Eb & _). rewrite Eb. unfold OBJ_ENCODING_EMBSTR_SIZE_LIMIT in Hle.
      destruct (createEmbeddedStringObject_ok s (0 :: free)) as (sd' & -> & Hr'); [lia|]. cbn [mbind res_bind]. eexists. split; [done|]. cbn. split_and!; [by eapply text_sds|done|lia].
    + destruct (_ && _); [|by eexists]. destruct (sdsRemoveFreeSpace_ok junk sd s Hr) as (sd' & -> & Hr' & _); [lia|]. cbn [mbind res_bind]. eexists. split; [done|]. cbn. split; [|done]. by eapply text_sds.
Qed.

Lemma dupStringObject_ok o s : obj_text o s -> zlen s < 2 ^ 61 -> (encoding o = OBJ_ENCODING_EMBSTR -> zlen s <= 255) ->
  exists o', dupStringObject o = Ok o' /\ obj_text o' s /\ refcount o' = 1 /\ encoding o' = encoding o.
Proof.
  intros Ho Hz Hemb. unfold dupStringObject. rewrite (bool_decide_eq_true_2 (type o = OBJ_STRING)) by (by eapply text_type). cbn [assert_ mbind res_bind]. destruct Ho as [sd Ht He Hp Hr|v Ht He Hp Hv ->]; unfold as_sds, as_long; rewrite Hp.
  - cbn [mbind res_bind]. destruct (repr_buf _ _ Hr) as (free & Eb & _). rewrite Eb, (repr_len _ _ Hr). unfold sdsEncodedObject in He. destruct (encoding o) eqn:Eo; try discriminate He; cbn [mbind res_bind].
    + destruct (createRawStringObject_ok s (0 :: free)) as (sd' & E & Hr'); [lia|]. eexists. split; [exact E|]. cbn. split_and!; [by eapply text_sds|done..].
    + destruct (createEmbeddedStringObject_ok s (0 :: free)) as (sd' & E & Hr'); [by apply Hemb|]. eexists. split; [exact E|]. cbn. split_and!; [by eapply text_sds|done..].
  - rewrite He. cbn [mbind res_bind]. eexists. split; [done|]. cbn. split_and!; [by eapply text_int|done..].
Qed.

Lemma getDecodedObject_ok o s : obj_text o s -> exists d, getDecodedObject o = Ok d /\
  match d with None => sdsEncodedObject o = true | Some o' => obj_text o' s /\ sdsEncodedObject o' = true /\ refcount o' = 1 end.
Proof.
  intros [sd Ht He Hp Hr|v Ht He Hp Hv ->]; unfold getDecodedObject; [rewrite He; by eexists|]. rewrite sdsEncoded_int, !bool_decide_eq_true_2 by done. cbn [andb]. unfold as_long. rewrite Hp. cbn [mbind res_bind].
  pose proof (dec_len_le v Hv). destruct (ll2string_ok (stack_buf 32) 32 v Hv) as (post & -> & _); [by apply stack_buf_len|lia|]. cbn [mbind res_bind]. rewrite strlen_dec by done. cbn [mbind res_bind].
  unfold createStringObject, OBJ_ENCODING_EMBSTR_SIZE_LIMIT. rewrite (proj2 (Z.leb_le _ _)) by lia. destruct (createEmbeddedStringObject_ok (dec v) (0 :: post)) as (sd & -> & Hr); [lia|]. cbn [mbind res_bind].
  eexists. split; [done|]. cbn. split_and!; [by eapply text_sds|done..].
Qed.

Lemma sdigits10_dec v : in_s 64 v -> sdigits10 v = Ok (zlen (dec v)).
Proof.
  intros Hv. unfold sdigits10, dec. unfold in_s in Hv. destruct (Z.ltb_spec v 0) as [Hneg|].
  - assert ((if negb (v =? LLONG_MIN) then u64 (- v) else u64 LLONG_MAX + 1) = - v) as ->.
    { unfold LLONG_MIN, LLONG_MAX. destruct (Z.eqb_spec v (- 2 ^ 63)) as [->|]; [done|]. cbn [negb]. rewrite uwrap_id; [done|unfold in_u; lia]. }
    rewrite digits10_udec by (unfold in_u; lia). cbn [mbind res_bind]. f_equal. rewrite zlen_cons. pose proof (udec_len_le (- v)). rewrite uwrap_id by (unfold in_u; lia). lia.
  - rewrite uwrap_id by (unfold in_u; cbn in *; lia). apply digits10_udec. unfold in_u. cbn in *. lia.
Qed.

Lemma lex_equal_iff a : forall b, lex a b = Eq <-> a = b.
Proof.
  induction a as [|x a IH]; intros [|y b]; cbn; [done..|]. destruct (Z.compare_spec x y) as [->|H|H].
  - rewrite IH. split; [by intros ->|by intros [= ->]].
  - split; [done|intros [= -> _]; lia].
  - split; [done|intros [= -> _]; lia].
Qed.

Lemma stringObjectLen_ok o s : obj_text o s -> stringObjectLen o = Ok (zlen s).
Proof.
  intros Ho. unfold stringObjectLen. rewrite (bool_decide_eq_true_2 (type o = OBJ_STRING)) by (by eapply text_type). cbn [assert_ mbind res_bind].
  destruct Ho as [sd Ht He Hp Hr|v Ht He Hp Hv ->]; unfold as_sds, as_long; rewrite Hp.
  - rewrite He. cbn [mbind res_bind]. by rewrite (repr_len _ _ Hr).
  - rewrite sdsEncoded_int by done. cbn [mbind res_bind]. by apply sdigits10_dec.
Qed.

Lemma getLongLongFromObject_ok o s : obj_text o s -> getLongLongFromObject (Some o) = Ok (string2ll s).
Proof.
  intros Ho. unfold getLongLongFromObject. rewrite (bool_decide_eq_true_2 (type o = OBJ_STRING)) by (by eapply text_type). cbn [assert_ mbind res_bind].
  destruct Ho as [sd Ht He Hp Hr|v Ht He Hp Hv ->]; unfold as_sds, as_long; rewrite Hp.
  - rewrite He. cbn [mbind res_bind]. by rewrite (rd_text sd s Hr).
  - rewrite sdsEncoded_int by done. cbn [mbind res_bind]. by rewrite string2ll_dec.
Qed.

Lemma compareStringObjects_ok same a b s t : obj_text a s -> obj_text b t -> compareStringObjects same a b = Ok (if same then 0 else contents_cmp s t).
Proof.
  intros Ha Hb. unfold compareStringObjects. rewrite !bool_decide_eq_true_2 by (by eapply text_type). cbn [andb assert_ mbind res_bind]. destruct same; [done|].
  rewrite (string_bytes_ok 128 a s), (string_bytes_ok 128 b t) by (done || lia). cbn [mbind res_bind]. unfold contents_cmp.
  replace (if zlen s <? zlen t then zlen s else zlen t) with (Z.min (zlen s) (zlen t)) by (case_match; lia). by case_match.
Qed.

Lemma contents_cmp_eq s t : zlen s < 2 ^ 31 -> zlen t < 2 ^ 31 -> contents_cmp s t = 0 <-> s = t.
Proof.
  intros Hs Ht. pose proof (contents_cmp_lex s t Hs Ht) as H. rewrite <- lex_equal_iff, <- H. by rewrite Z.compare_eq_iff.
Qed.

Lemma equalStringObjects_ok same a b s t : obj_text a s -> obj_text b t -> zlen s < 2 ^ 31 -> zlen t < 2 ^ 31 -> (same = true -> s = t) ->
  equalStringObjects same a b = Ok (bool_decide (s = t)).
Proof.
  intros Ha Hb Hs Ht Hsame. unfold equalStringObjects. rewrite (compareStringObjects_ok same a b s t) by done.
  assert ((c ← Ok (if same then 0 else contents_cmp s t); Ok (c =? 0)) = Ok (bool_decide (s = t))) as Hcmp.
  { cbn [mbind res_bind]. f_equal. destruct same; [rewrite bool_decide_eq_true_2; auto|]. pose proof (contents_cmp_eq s t Hs Ht). case_bool_decide; lia || (apply Z.eqb_neq; tauto) || (apply Z.eqb_eq; tauto). }
  destruct Ha as [sd Hta He Hp Hr|v Hta He Hp Hv ->].
  - rewrite (bool_decide_eq_false_2 (encoding a = OBJ_ENCODING_INT)); [done|]. intros E. by rewrite sdsEncoded_int in He.
  - destruct Hb as [sd Htb Heb Hpb Hr|w Htb Heb Hpb Hw ->].
    + rewrite (bool_decide_eq_false_2 (encoding b = OBJ_ENCODING_INT)), andb_false_r; [done|]. intros E. by rewrite sdsEncoded_int in Heb.
    + rewrite !bool_decide_eq_true_2 by done. unfold as_long. rewrite Hp, Hpb. cbn [andb mbind res_bind]. f_equal. case_bool_decide as Hd; [|apply Z.eqb_neq; congruence]. apply Z.eqb_eq. by apply dec_inj.
Qed.

End Alloc.

(** ** Theorems *)

(** The text of what [tryObjectEncoding] returns. *)
Definition encoded_text (e : encoded) (s : list Z) : Prop :=
  match e with ESame o | ENew o => obj_text o s | EShared v => 0 <= v < OBJ_SHARED_INTEGERS /\ s = dec v end.

(** The encoding of a string object is invisible: choosing a cheaper one
    ([tryObjectEncoding]), decoding and duplicating keep the text, and the length and the
    numeric value are those of the text, whichever of the three encodings an object has. *)
Theorem object_encoding_preserves_text junk private o s :
  obj_text o s -> zlen s < 2 ^ 61 -> (encoding o = OBJ_ENCODING_EMBSTR -> zlen s <= 255) ->
  (exists e, tryObjectEncoding junk private o = Ok e /\ encoded_text e s) /\
  (exists d, dupStringObject junk o = Ok d /\ obj_text d s /\ encoding d = encoding o) /\
  (exists d, getDecodedObject junk o = Ok d /\ obj_text (default o d) s /\ sdsEncodedObject (default o d) = true) /\
  stringObjectLen o = Ok (zlen s) /\ getLongLongFromObject (Some o) = Ok (string2ll s).
Proof.
  intros Ho Hz Hemb. split_and!.
  - destruct (tryObjectEncoding_ok junk private o s Ho Hz) as (e & -> & He). exists e. split; [done|]. destruct e; cbn; tauto.
  - destruct (dupStringObject_ok junk o s Ho Hz Hemb) as (d & -> & Hd & _ & He). by exists d.
  - destruct (getDecodedObject_ok junk o s Ho) as (d & -> & Hd). exists d. split; [done|]. destruct d; cbn; tauto.
  - by apply stringObjectLen_ok.
  - by apply getLongLongFromObject_ok.
Qed.

Definition int_object (v : Z) : robj := mk_robj OBJ_STRING OBJ_ENCODING_INT (PLong v) 1.
Definition short_object (s : list Z) : robj := mk_robj OBJ_STRING OBJ_ENCODING_EMBSTR (PSds (mk_sds 1 (zlen s) (zlen s) (s ++ [0]))) 1.

Lemma short_object_text s : zlen s <= 44 -> obj_text (short_object s) s.
Proof. intros Hs. eapply text_sds; [done|done|done|]. pose proof (zlen_nonneg s). rewrite <- (uwrap_id 8 (zlen s)) at 1 2 by (unfold in_u; lia). apply embstr_repr. lia. Qed.

Lemma int_object_text v : in_s 64 v -> obj_text (int_object v) (dec v).
Proof. intros Hv. by eapply text_int. Qed.

Lemma object_encoding_preserves_text_witness :
  zlen (str "12345") < 2 ^ 61 /\
  exists e, tryObjectEncoding (fun _ => 0) false (short_object (str "12345")) = Ok e /\ encoded_text e (str "12345").
Proof.
  split; [vm_compute; reflexivity|]. apply (object_encoding_preserves_text (fun _ => 0) false (short_object (str "12345")) (str "12345")); [apply short_object_text; vm_compute; discriminate|vm_compute; reflexivity|intros _; vm_compute; discriminate].
Defined.

(** [equalStringObjects] decides the equality of the texts of two string objects and
    the sign of [compareStringObjects] is their lexicographic order, for every
    combination of encodings. *)
Theorem string_objects_compare junk a b s t : obj_text a s -> obj_text b t -> zlen s < 2 ^ 31 -> zlen t < 2 ^ 31 ->
  equalStringObjects junk false a b = Ok (bool_decide (s = t)) /\
  exists c, compareStringObjects junk false a b = Ok c /\ Z.compare c 0 = lex s t.
Proof.
  intros Ha Hb Hs Ht. split; [by apply equalStringObjects_ok|]. rewrite (compareStringObjects_ok junk false a b s t) by done. eexists. split; [done|]. by apply contents_cmp_lex.
Qed.

Lemma string_objects_compare_witness :
  zlen (str "41") < 2 ^ 31 /\ equalStringObjects (fun _ => 0) false (short_object (str "41")) (int_object 41) = Ok (bool_decide (str "41" = dec 41)) /\
  exists c, compareStringObjects (fun _ => 0) false (short_object (str "41")) (int_object 41) = Ok c /\ Z.compare c 0 = lex (str "41") (dec 41).
Proof.
  split; [vm_compute; reflexivity|]. apply (string_objects_compare (fun _ => 0) (short_object (str "41")) (int_object 41) (str "41") (dec 41));
    [apply short_object_text; vm_compute; discriminate|apply int_object_text; vm_compute; split; [discriminate|reflexivity]|vm_compute; reflexivity|vm_compute; reflexivity].
Defined.
End Object.
