(* ===== verification/Rdb.v ===== *)
(** * The RDB encoding of strings: src/redis-stable/src/rdb.c and rdb.h

    Lengths, integers, compressed and verbatim strings, and the object types, written
    to and read from a [rio] (module [Rio]). Saving to a NULL stream only computes the
    size. A load answers what the C pointer points to, NULL on a short read, or that the
    process was ended by [rdbExitReportCorruptRDB]. Host byte order is little endian.
    [RdbOps] verifies the code. *)
From stdpp Require Import gmap.
From S2P Require Import Prelude Util Sds SdsText Lzf Crc Rio Object.

Module Rdb.
Import Sds SdsText Rio Object.

Definition RDB_VERSION : Z := 8.
Definition RDB_6BITLEN : Z := 0.
Definition RDB_14BITLEN : Z := 1.
Definition RDB_32BITLEN : Z := 0x80.
Definition RDB_64BITLEN : Z := 0x81.
Definition RDB_ENCVAL : Z := 3.
Definition RDB_LENERR : Z := 2 ^ 64 - 1.
Definition RDB_ENC_INT8 : Z := 0.
Definition RDB_ENC_INT16 : Z := 1.
Definition RDB_ENC_INT32 : Z := 2.
Definition RDB_ENC_LZF : Z := 3.
Definition RDB_LOAD_NONE : Z := 0.
Definition RDB_LOAD_ENC : Z := 1.
Definition RDB_LOAD_PLAIN : Z := 2.
Definition RDB_LOAD_SDS : Z := 4.
Definition LONG_STR_SIZE : Z := 21.

(** [htonl] and [htonu64] of a value, as the bytes then written. *)
Definition be_bytes (n : nat) (z : Z) : list Z := rev (le_bytes n z).
Definition be_val (l : list Z) : Z := le_val (rev l).

(** [strtoll] in base 10 on a text with the terminator behind it: the value, clamped to
    the range, and the text from [endptr] on. *)
Fixpoint skip_space (s : list Z) : list Z :=
  match s with c :: s' => if isspace c then skip_space s' else s | [] => [] end.
Fixpoint take_digits (v : Z) (s : list Z) : Z * list Z :=
  match s with c :: s' => if isdigit c then take_digits (v * 10 + (c - chr "0")) s' else (v, s) | [] => (v, []) end.
Definition strtoll (s : list Z) : Z * list Z :=
  let t := skip_space s in
  let '(neg, t) := match t with
                   | c :: t' => if c =? chr "-" then (true, t') else if c =? chr "+" then (false, t') else (false, t)
                   | [] => (false, [])
                   end in
  match t with
  | c :: _ =>
    if isdigit c then
      let '(v, rest) := take_digits 0 t in
      let v := if neg : bool then - v else v in
      (Z.max LLONG_MIN (Z.min LLONG_MAX v), rest)
    else (0, s)
  | [] => (0, s)
  end.

(** What a load returns. *)
Inductive loaded := LNull | LPlain (b : list Z) | LSds (s : sds) | LObj (o : made) | LExit.

Section Stream.
Context {B : Type} `{HB : RioIO B} (junk : Z -> Z) (htab0 : Z -> Z).

(** ** Saving *)

Definition rdbWriteRaw (rdb : option (rio B)) (p : list Z) : res (option (rio B) * Z) :=
  match rdb with
  | None => Ok (None, i32 (zlen p))
  | Some r => '(r, ok) ← rioWrite r p; Ok (Some r, if ok : bool then i32 (zlen p) else -1)
  end.

Definition rdbSaveType (rdb : option (rio B)) (t : Z) : res (option (rio B) * Z) := rdbWriteRaw rdb [u8 t].

Definition rdbSaveMillisecondTime (rdb : option (rio B)) (t : Z) : res (option (rio B) * Z) :=
  rdbWriteRaw rdb (le_bytes 8 t).

Definition rdbSaveLen (rdb : option (rio B)) (len : Z) : res (option (rio B) * Z) :=
  if len <? Z.shiftl 1 6 then
    '(rdb, n) ← rdbWriteRaw rdb [Z.lor (Z.land len 0xFF) (Z.shiftl RDB_6BITLEN 6)];
    if n =? -1 then Ok (rdb, -1) else Ok (rdb, 1)
  else if len <? Z.shiftl 1 14 then
    '(rdb, n) ← rdbWriteRaw rdb [Z.lor (Z.land (Z.shiftr len 8) 0xFF) (Z.shiftl RDB_14BITLEN 6); Z.land len 0xFF];
    if n =? -1 then Ok (rdb, -1) else Ok (rdb, 2)
  else if len <=? 2 ^ 32 - 1 then
    '(rdb, n) ← rdbWriteRaw rdb [RDB_32BITLEN];
    if n =? -1 then Ok (rdb, -1) else
    '(rdb, n) ← rdbWriteRaw rdb (be_bytes 4 len);
    if n =? -1 then Ok (rdb, -1) else Ok (rdb, 1 + 4)
  else
    '(rdb, n) ← rdbWriteRaw rdb [RDB_64BITLEN];
    if n =? -1 then Ok (rdb, -1) else
    '(rdb, n) ← rdbWriteRaw rdb (be_bytes 8 len);
    if n =? -1 then Ok (rdb, -1) else Ok (rdb, 1 + 8).

(** The bytes put in [enc]; none stands for the return value 0. *)
Definition rdbEncodeInteger (value : Z) : list Z :=
  if (- Z.shiftl 1 7 <=? value) && (value <=? Z.shiftl 1 7 - 1) then
    [Z.lor (Z.shiftl RDB_ENCVAL 6) RDB_ENC_INT8; Z.land value 0xFF]
  else if (- Z.shiftl 1 15 <=? value) && (value <=? Z.shiftl 1 15 - 1) then
    [Z.lor (Z.shiftl RDB_ENCVAL 6) RDB_ENC_INT16; Z.land value 0xFF; Z.land (Z.shiftr value 8) 0xFF]
  else if (- Z.shiftl 1 31 <=? value) && (value <=? Z.shiftl 1 31 - 1) then
    [Z.lor (Z.shiftl RDB_ENCVAL 6) RDB_ENC_INT32; Z.land value 0xFF; Z.land (Z.shiftr value 8) 0xFF;
     Z.land (Z.shiftr value 16) 0xFF; Z.land (Z.shiftr value 24) 0xFF]
  else [].

(** [s] is followed by a terminator. *)
Definition rdbTryIntegerEncoding (s : list Z) : res (list Z) :=
  let '(value, rest) := strtoll s in
  c ← cpeek rest 0;
  if negb (c =? 0) then Ok [] else
  '(b, _) ← ll2string (stack_buf junk 32) 32 value;
  n ← strlen b;
  if negb (n =? zlen s) then Ok [] else
  x ← rd b 0 (zlen s);
  if negb (memcmp x s =? 0) then Ok [] else Ok (rdbEncodeInteger value).

Definition rdbSaveLzfBlob (rdb : option (rio B)) (data : list Z) (compress_len original_len : Z) : res (option (rio B) * Z) :=
  '(rdb, n1) ← rdbWriteRaw rdb [Z.lor (Z.shiftl RDB_ENCVAL 6) RDB_ENC_LZF];
  if n1 =? -1 then Ok (rdb, -1) else
  '(rdb, n2) ← rdbSaveLen rdb compress_len;
  if n2 =? -1 then Ok (rdb, -1) else
  '(rdb, n3) ← rdbSaveLen rdb original_len;
  if n3 =? -1 then Ok (rdb, -1) else
  x ← rd data 0 compress_len;
  '(rdb, n4) ← rdbWriteRaw rdb x;
  if n4 =? -1 then Ok (rdb, -1) else
  Ok (rdb, n1 + n2 + n3 + n4).

(** [htab0]: the uninitialised table of the compressor. [lzf_compress] takes its lengths
    as [unsigned int]. *)
Definition rdbSaveLzfStringObject (rdb : option (rio B)) (s : list Z) : res (option (rio B) * Z) :=
  let len := zlen s in
  if len <=? 4 then Ok (rdb, 0) else
  let outlen := len - 4 in
  let out := zrealloc junk [] (outlen + 1) in
  '(o, comprlen) ← Lzf.lzf_compress htab0 (ztake (u32 len) s) (ztake (u32 outlen) out);
  if comprlen =? 0 then Ok (rdb, 0) else
  rdbSaveLzfBlob rdb (o ++ zdrop (u32 outlen) out) comprlen len.

(** [rdb_compression]: the configuration of the server. *)
Definition rdbSaveRawString (rdb_compression : bool) (rdb : option (rio B)) (s : list Z) : res (option (rio B) * Z) :=
  let len := zlen s in
  enc ← (if len <=? 11 then rdbTryIntegerEncoding s else Ok []);
  if 0 <? zlen enc then
    '(rdb, n) ← rdbWriteRaw rdb enc;
    if n =? -1 then Ok (rdb, -1) else Ok (rdb, zlen enc)
  else
  '(rdb, n) ← (if rdb_compression && (20 <? len) then rdbSaveLzfStringObject rdb s else Ok (rdb, 0));
  if n =? -1 then Ok (rdb, -1) else
  if 0 <? n then Ok (rdb, n) else
  '(rdb, n) ← rdbSaveLen rdb len;
  if n =? -1 then Ok (rdb, -1) else
  if 0 <? len then
    '(rdb, m) ← rdbWriteRaw rdb s;
    if m =? -1 then Ok (rdb, -1) else Ok (rdb, n + len)
  else Ok (rdb, n).

Definition rdbSaveLongLongAsStringObject (rdb : option (rio B)) (value : Z) : res (option (rio B) * Z) :=
  let enc := rdbEncodeInteger value in
  if 0 <? zlen enc then rdbWriteRaw rdb enc else
  '(b, enclen) ← ll2string (stack_buf junk 32) 32 value;
  _ ← assert_ (enclen <? 32);
  '(rdb, n1) ← rdbSaveLen rdb enclen;
  if n1 =? -1 then Ok (rdb, -1) else
  x ← rd b 0 enclen;
  '(rdb, n2) ← rdbWriteRaw rdb x;
  if n2 =? -1 then Ok (rdb, -1) else Ok (rdb, n1 + n2).

Definition rdbSaveStringObject (rdb_compression : bool) (rdb : option (rio B)) (o : robj) : res (option (rio B) * Z) :=
  if bool_decide (encoding o = OBJ_ENCODING_INT) then
    v ← as_long o;
    '(rdb, n) ← rdbSaveLongLongAsStringObject rdb v; Ok (rdb, i32 n)
  else
    _ ← assert_ (sdsEncodedObject o);
    s ← as_sds o;
    x ← rd (buf s) 0 (sdslen s);
    '(rdb, n) ← rdbSaveRawString rdb_compression rdb x; Ok (rdb, i32 n).

(** ** Loading *)

Definition rdbLoadType (r : rio B) : res (rio B * Z) :=
  '(r, x) ← rioRead r 1;
  match x with None => Ok (r, -1) | Some x => t ← peek x 0; Ok (r, t) end.

Definition rdbLoadMillisecondTime (r : rio B) : res (rio B * Z) :=
  '(r, x) ← rioRead r 8;
  match x with None => Ok (r, -1) | Some x => Ok (r, i64 (le_val x)) end.

(** The length and whether it is a special encoding; an error is [RDB_LENERR]. *)
Inductive length_read := Len (isencoded : bool) (len : Z) | LenExit.

Definition rdbLoadLen (r : rio B) : res (rio B * length_read) :=
  '(r, x) ← rioRead r 1;
  match x with
  | None => Ok (r, Len false RDB_LENERR)
  | Some x =>
    b0 ← peek x 0;
    let type := Z.shiftr (Z.land b0 0xC0) 6 in
    if type =? RDB_ENCVAL then Ok (r, Len true (Z.land b0 0x3F))
    else if type =? RDB_6BITLEN then Ok (r, Len false (Z.land b0 0x3F))
    else if type =? RDB_14BITLEN then
      '(r, y) ← rioRead r 1;
      match y with
      | None => Ok (r, Len false RDB_LENERR)
      | Some y => b1 ← peek y 0; Ok (r, Len false (Z.lor (Z.shiftl (Z.land b0 0x3F) 8) b1))
      end
    else if b0 =? RDB_32BITLEN then
      '(r, y) ← rioRead r 4;
      match y with None => Ok (r, Len false RDB_LENERR) | Some y => Ok (r, Len false (be_val y)) end
    else if b0 =? RDB_64BITLEN then
      '(r, y) ← rioRead r 8;
      match y with None => Ok (r, Len false RDB_LENERR) | Some y => Ok (r, Len false (be_val y)) end
    else Ok (r, LenExit)
  end.

Definition has_flag (flags f : Z) : bool := negb (Z.land flags f =? 0).

(** The object or buffer for a loaded integer. *)
Definition integer_result (flags val : Z) : res (loaded * option Z) :=
  let plain := has_flag flags RDB_LOAD_PLAIN in
  let sds := has_flag flags RDB_LOAD_SDS in
  let encode := has_flag flags RDB_LOAD_ENC in
  if plain || sds then
    '(b, len) ← ll2string (stack_buf junk LONG_STR_SIZE) LONG_STR_SIZE val;
    x ← rd b 0 len;
    if plain then p ← wr (zrealloc junk [] len) 0 x; Ok (LPlain p, Some len)
    else s ← sdsnewlen junk None len; b ← wr (buf s) 0 x; Ok (LSds (with_buf s b), Some len)
  else if encode then o ← createStringObjectFromLongLong junk val; Ok (LObj o, None)
  else s ← sdsfromlonglong junk val; Ok (LObj (MNew (createObject OBJ_STRING (PSds s))), None).

(** The second component is what was stored at [lenptr]. *)
Definition rdbLoadIntegerObject (r : rio B) (enctype flags : Z) : res (rio B * loaded * option Z) :=
  if enctype =? RDB_ENC_INT8 then
    '(r, x) ← rioRead r 1;
    match x with
    | None => Ok (r, LNull, None)
    | Some e => e0 ← peek e 0; '(l, n) ← integer_result flags (i8 e0); Ok (r, l, n)
    end
  else if enctype =? RDB_ENC_INT16 then
    '(r, x) ← rioRead r 2;
    match x with
    | None => Ok (r, LNull, None)
    | Some e =>
      e0 ← peek e 0; e1 ← peek e 1;
      '(l, n) ← integer_result flags (i16 (u16 (Z.lor e0 (Z.shiftl e1 8)))); Ok (r, l, n)
    end
  else if enctype =? RDB_ENC_INT32 then
    '(r, x) ← rioRead r 4;
    match x with
    | None => Ok (r, LNull, None)
    | Some e =>
      e0 ← peek e 0; e1 ← peek e 1; e2 ← peek e 2; e3 ← peek e 3;
      '(l, n) ← integer_result flags (i32 (u32 (Z.lor (Z.lor (Z.lor e0 (Z.shiftl e1 8)) (Z.shiftl e2 16)) (Z.shiftl e3 24)))); Ok (r, l, n)
    end
  else Ok (r, LExit, None).

(** [lzf_decompress] takes its lengths as [unsigned int]; the target is an allocation
    of [len] bytes or an sds. *)
Definition rdbLoadLzfStringObject (r : rio B) (flags : Z) : res (rio B * loaded * option Z) :=
  let plain := has_flag flags RDB_LOAD_PLAIN in
  let sds := has_flag flags RDB_LOAD_SDS in
  '(r, l1) ← rdbLoadLen r;
  match l1 with
  | LenExit => Ok (r, LExit, None)
  | Len _ clen =>
    if clen =? RDB_LENERR then Ok (r, LNull, None) else
    '(r, l2) ← rdbLoadLen r;
    match l2 with
    | LenExit => Ok (r, LExit, None)
    | Len _ len =>
      if len =? RDB_LENERR then Ok (r, LNull, None) else
      let lenptr := if plain then Some len else None in
      s ← (if plain then Ok (mk_sds 0 0 0 (zrealloc junk [] len)) else sdsnewlen junk None len);
      '(r, x) ← rioRead r clen;
      match x with
      | None => Ok (r, LNull, lenptr)
      | Some c =>
        '(o, n) ← Lzf.lzf_decompress (ztake (u32 clen) c) (ztake (u32 len) (buf s));
        if n =? 0 then Ok (r, LNull, lenptr) else
        let b := o ++ zdrop (u32 len) (buf s) in
        if plain then Ok (r, LPlain b, lenptr)
        else if sds then Ok (r, LSds (with_buf s b), lenptr)
        else Ok (r, LObj (MNew (createObject OBJ_STRING (PSds (with_buf s b)))), lenptr)
      end
    end
  end.

(** [rioRead] straight into the new string, when there is anything to read. *)
Definition read_verbatim (r : rio B) (b : list Z) (len : Z) : res (rio B * option (list Z)) :=
  if len =? 0 then Ok (r, Some b) else
  '(r, x) ← rioRead r len;
  match x with None => Ok (r, None) | Some x => b ← wr b 0 x; Ok (r, Some b) end.

Definition rdbGenericLoadStringObject (r : rio B) (flags : Z) : res (rio B * loaded * option Z) :=
  let encode := has_flag flags RDB_LOAD_ENC in
  let plain := has_flag flags RDB_LOAD_PLAIN in
  let sds := has_flag flags RDB_LOAD_SDS in
  '(r, l) ← rdbLoadLen r;
  match l with
  | LenExit => Ok (r, LExit, None)
  | Len true len =>
    if (len =? RDB_ENC_INT8) || (len =? RDB_ENC_INT16) || (len =? RDB_ENC_INT32) then rdbLoadIntegerObject r len flags
    else if len =? RDB_ENC_LZF then rdbLoadLzfStringObject r flags
    else Ok (r, LExit, None)
  | Len false len =>
    if len =? RDB_LENERR then Ok (r, LNull, None) else
    if plain then
      '(r, b) ← read_verbatim r (zrealloc junk [] len) len;
      match b with None => Ok (r, LNull, Some len) | Some b => Ok (r, LPlain b, Some len) end
    else if sds then
      s ← sdsnewlen junk None len;
      '(r, b) ← read_verbatim r (buf s) len;
      match b with None => Ok (r, LNull, Some len) | Some b => Ok (r, LSds (with_buf s b), Some len) end
    else
      o ← (if encode then createStringObject junk None len else createRawStringObject junk None len);
      s ← as_sds o;
      '(r, b) ← read_verbatim r (buf s) len;
      match b with
      | None => Ok (r, LNull, None)
      | Some b => Ok (r, LObj (MNew (mk_robj (type o) (encoding o) (PSds (with_buf s b)) (refcount o))), None)
      end
  end.

Definition rdbLoadStringObject (r : rio B) : res (rio B * loaded * option Z) := rdbGenericLoadStringObject r RDB_LOAD_NONE.
Definition rdbLoadEncodedStringObject (r : rio B) : res (rio B * loaded * option Z) := rdbGenericLoadStringObject r RDB_LOAD_ENC.

(** ** Object types *)

Definition RDB_TYPE_STRING : Z := 0.
Definition rdbIsObjectType (t : Z) : bool := (0 <=? t) && (t <=? 7) || (9 <=? t) && (t <=? 14).

Definition rdbLoadObjectType (r : rio B) : res (rio B * Z) :=
  '(r, t) ← rdbLoadType r;
  if t =? -1 then Ok (r, -1) else
  if negb (rdbIsObjectType t) then Ok (r, -1) else Ok (r, t).

End Stream.

(** ** DUMP payloads: src/redis-stable/src/cluster.c *)

(** A payload is written to a stream on an sds of its own, so its steps cannot fail. *)
Section Payload.
Context (junk htab0 : Z -> Z) (rdb_compression : bool).
#[local] Instance payload_io : RioIO buffer := buffer_io junk.

(** The case [OBJ_STRING] of [rdbSaveObjectType] and [rdbSaveObject]; the footer is the
    version in two bytes and the checksum of everything before it in eight, little
    endian. *)
Definition createDumpPayload (o : robj) : res sds :=
  _ ← assert_ (bool_decide (type o = OBJ_STRING));
  e ← sdsempty junk;
  '(r, n) ← rdbSaveType (Some (rioInitWithBuffer e)) RDB_TYPE_STRING;
  _ ← assert_ (negb (n =? 0));
  '(r, n) ← rdbSaveStringObject junk htab0 rdb_compression r o;
  _ ← assert_ (negb (n =? 0));
  match r with
  | None => Fault AssertFailed
  | Some r =>
    s ← sdscatlen junk (Rio.ptr (io r)) [Z.land RDB_VERSION 0xff; Z.land (Z.shiftr RDB_VERSION 8) 0xff] 2;
    x ← rd (buf s) 0 (sdslen s);
    crc ← Crc.crc64 0 x;
    sdscatlen junk s (le_bytes 8 crc) 8
  end.

(** [true] is [C_OK]. *)
Definition verifyDumpPayload (p : list Z) : res bool :=
  let len := zlen p in
  if len <? 10 then Ok false else
  let footer := len - 10 in
  f1 ← peek p (footer + 1);
  f0 ← peek p footer;
  let rdbver := u16 (Z.lor (Z.shiftl f1 8) f0) in
  if RDB_VERSION <? rdbver then Ok false else
  x ← rd p 0 (len - 8);
  crc ← Crc.crc64 0 x;
  y ← rd p (footer + 2) 8;
  Ok (memcmp (le_bytes 8 crc) y =? 0).

(** [o = tryObjectEncoding(o)] on a new object or a shared integer. *)
Definition try_made (private : bool) (m : made) : res made :=
  match m with
  | MShared v => Ok (MShared v)
  | MNew o => e ← tryObjectEncoding junk private o;
              Ok (match e with ESame o | ENew o => MNew o | EShared v => MShared v end)
  end.

(** The case [RDB_TYPE_STRING] of [rdbLoadObject]; [None] is NULL. *)
Definition rdbLoadStringValue (private : bool) (r : rio buffer) : res (rio buffer * option made) :=
  '(r, l, _) ← rdbLoadEncodedStringObject junk r;
  match l with
  | LObj m => m ← try_made private m; Ok (r, Some m)
  | _ => Ok (r, None)
  end.

(** The checks and the loading of [restoreCommand]: the object, or [None] after an error
    reply (or the end of the process on a corrupt length). *)
Definition restore_object (private : bool) (p : sds) : res (option made) :=
  x ← rd (buf p) 0 (sdslen p);
  ok ← verifyDumpPayload x;
  if negb ok then Ok None else
  '(r, t) ← rdbLoadObjectType (rioInitWithBuffer p);
  if t =? -1 then Ok None else
  if t =? RDB_TYPE_STRING then '(r, o) ← rdbLoadStringValue private r; Ok o
  else Fault AssertFailed.

End Payload.
End Rdb.
