(* ===== verification/RdbOps.v ===== *)
(** * Saved strings are loaded back: src/redis-stable/src/rdb.c

    Against the promise of a stream device ([Rio.RioDevice]): what each save function
    appends, that the load functions accept exactly that and give the text back,
    whatever the encoding chosen (integer, compressed, verbatim), and what a load makes
    of a compressed payload that ends early. *)
From stdpp Require Import gmap.
From S2P Require Import Prelude Util Sds SdsText Lzf LzfOps Crc Rio Object Rdb.

Module RdbOps.
Export Rdb.
Import Sds SdsText Rio Object.

(** ** What is written *)

Definition enc_len (len : Z) : list Z :=
  if len <? 64 then [len]
  else if len <? 2 ^ 14 then [len / 256 + 64; len mod 256]
  else if len <? 2 ^ 32 then RDB_32BITLEN :: be_bytes 4 len
  else RDB_64BITLEN :: be_bytes 8 len.

Lemma zlen_be_bytes n z : zlen (be_bytes n z) = Z.of_nat n.
Proof. unfold be_bytes. rewrite zlen_rev. apply zlen_le_bytes. Qed.

Lemma be_val_bytes n z : in_u (8 * Z.of_nat n) z -> be_val (be_bytes n z) = z.
Proof. intros Hz. unfold be_val, be_bytes. rewrite rev_involutive. by apply le_val_bytes_unsigned. Qed.

Lemma be_bytes_range n z : Forall (in_u 8) (be_bytes n z).
Proof. apply Forall_rev, le_bytes_range. Qed.

Lemma enc_len_bytes len : in_u 64 len -> Forall (in_u 8) (enc_len len) /\ 1 <= zlen (enc_len len) <= 9.
Proof.
  unfold in_u. intros Hl. unfold enc_len. destruct (Z.ltb_spec len 64).
  { split; [repeat constructor; unfold in_u; lia|zl]. }
  destruct (Z.ltb_spec len (2 ^ 14)).
  { pose proof (Z.div_pos len 256 ltac:(lia) ltac:(lia)). pose proof (Z.div_lt_upper_bound len 256 64 ltac:(lia) ltac:(lia)). pose proof (Z.mod_pos_bound len 256 ltac:(lia)).
    split; [repeat constructor; unfold in_u; lia|zl]. }
  destruct (Z.ltb_spec len (2 ^ 32)); rewrite zlen_cons, zlen_be_bytes; (split; [constructor; [by vm_compute|apply be_bytes_range]|lia]).
Qed.

Lemma encode_integer v : rdbEncodeInteger v =
  if (- 2 ^ 7 <=? v) && (v <? 2 ^ 7) then 192 :: le_bytes 1 v
  else if (- 2 ^ 15 <=? v) && (v <? 2 ^ 15) then 193 :: le_bytes 2 v
  else if (- 2 ^ 31 <=? v) && (v <? 2 ^ 31) then 194 :: le_bytes 4 v else [].
Proof.
  assert (forall k, 0 <= k -> Z.land (Z.shiftr v k) 0xFF = v / 2 ^ k mod 256) as Hb.
  { intros k Hk. change 0xFF with (2 ^ 8 - 1). rewrite land_mask, Z.shiftr_div_pow2 by lia. done. }
  assert (Z.land v 0xFF = v mod 256) as H0 by (change 0xFF with (2 ^ 8 - 1); rewrite land_mask by lia; done).
  unfold rdbEncodeInteger. rewrite H0, (Hb 8), (Hb 16), (Hb 24) by lia. cbn [le_bytes]. rewrite !Z.div_div by lia.
  change (Z.shiftl 1 7) with (2 ^ 7). change (Z.shiftl 1 15) with (2 ^ 15). change (Z.shiftl 1 31) with (2 ^ 31).
  replace (v <=? 2 ^ 7 - 1) with (v <? 2 ^ 7) by lia. replace (v <=? 2 ^ 15 - 1) with (v <? 2 ^ 15) by lia. replace (v <=? 2 ^ 31 - 1) with (v <? 2 ^ 31) by lia. done.
Qed.

(** [e] is a saved form of the text [s]. *)
Inductive coded : list Z -> list Z -> Prop :=
| coded_raw s : coded (enc_len (zlen s) ++ s) s
| coded_int k m v : k = 0 /\ m = 1%nat \/ k = 1 /\ m = 2%nat \/ k = 2 /\ m = 4%nat -> in_s (8 * Z.of_nat m) v -> coded (192 + k :: le_bytes m v) (dec v)
| coded_lzf w s : LzfOps.codes w [] s -> w <> [] -> zlen w < 2 ^ 31 -> zlen w < zlen s -> coded (195 :: enc_len (zlen w) ++ enc_len (zlen s) ++ w) s.

Lemma encode_integer_coded v e : rdbEncodeInteger v = e -> e = [] \/ coded e (dec v) /\ Forall (in_u 8) e /\ 2 <= zlen e <= 5.
Proof.
  rewrite encode_integer. intros <-. assert (forall k m, 0 <= k < 3 -> (0 < m <= 4)%nat -> Forall (in_u 8) (192 + k :: le_bytes m v) /\ 2 <= zlen (192 + k :: le_bytes m v) <= 5) as Hb.
  { intros k m Hk Hm. split; [constructor; [unfold in_u; lia|apply le_bytes_range]|rewrite zlen_cons, zlen_le_bytes; lia]. }
  destruct ((- 2 ^ 7 <=? v) && (v <? 2 ^ 7)) eqn:E1; [right|destruct ((- 2 ^ 15 <=? v) && (v <? 2 ^ 15)) eqn:E2; [right|destruct ((- 2 ^ 31 <=? v) && (v <? 2 ^ 31)) eqn:E3; [right|left; reflexivity]]].
  - split; [apply (coded_int 0 1 v); [by left|unfold in_s; lia]|apply (Hb 0 1%nat); lia].
  - split; [apply (coded_int 1 2 v); [by right; left|unfold in_s; lia]|apply (Hb 1 2%nat); lia].
  - split; [apply (coded_int 2 4 v); [by right; right|unfold in_s; lia]|apply (Hb 2 4%nat); lia].
Qed.

(** Compressed texts are bytes. *)
Lemma codes_bytes w pre post : LzfOps.codes w pre post -> Forall (in_u 8) post -> Forall (in_u 8) w.
Proof.
  unfold Lzf.MAX_LIT, Lzf.MAX_OFF. induction 1 as [pre|x w pre post Hx Hw IH|len off w pre mid post Hl Ho Hr Hw IH|len off w pre mid post Hl Ho Hr Hw IH]; intros HF; [constructor|..]; specialize (IH HF).
  - destruct (LzfOps.codes_prefix _ _ _ Hw) as (s & ->). rewrite !list.Forall_app in HF. unfold Lzf.MAX_LIT in Hx. constructor; [unfold in_u; lia|]. apply list.Forall_app. tauto.
  - unfold Lzf.MAX_OFF in Ho. pose proof (Z.div_pos off 256 ltac:(lia) ltac:(lia)). pose proof (Z.div_lt_upper_bound off 256 32 ltac:(lia) ltac:(lia)). pose proof (Z.mod_pos_bound off 256 ltac:(lia)).
    repeat constructor; try done; unfold in_u; lia.
  - unfold Lzf.MAX_OFF in Ho. pose proof (Z.div_pos off 256 ltac:(lia) ltac:(lia)). pose proof (Z.div_lt_upper_bound off 256 32 ltac:(lia) ltac:(lia)). pose proof (Z.mod_pos_bound off 256 ltac:(lia)).
    repeat constructor; try done; unfold in_u; lia.
Qed.

Lemma strtoll_range s : in_s 64 (strtoll s).1.
Proof.
  unfold strtoll. assert (forall v, in_s 64 (Z.max LLONG_MIN (Z.min LLONG_MAX v))) as H by (intros v; unfold in_s, LLONG_MIN, LLONG_MAX; lia).
  repeat case_match; cbn; try apply H; unfold in_s; lia.
Qed.

(** The integer encoding is chosen for numerals only. *)
Lemma rdbTryIntegerEncoding_ok junk s : exists e, rdbTryIntegerEncoding junk s = Ok e /\ (e = [] \/ coded e s /\ Forall (in_u 8) e /\ 2 <= zlen e <= 5).
Proof.
  unfold rdbTryIntegerEncoding. pose proof (strtoll_range s) as Hv. destruct (strtoll s) as [v rest]. cbn in Hv.
  assert (exists c, cpeek rest 0 = Ok c) as (c & ->). { destruct rest as [|c rest]; [exists 0; by apply cpeek_end|exists c; by apply (cpeek_app [])]. }
  cbn [mbind res_bind]. destruct (c =? 0); cbn [negb]; [|by eauto]. pose proof (dec_len_le v Hv).
  destruct (ll2string_ok (stack_buf junk 32) 32 v Hv) as (post & -> & _); [by apply stack_buf_len|lia|]. cbn [mbind res_bind]. rewrite strlen_dec by done. cbn [mbind res_bind].
  destruct (Z.eqb_spec (zlen (dec v)) (zlen s)) as [El|]; cbn [negb]; [|by eauto]. rewrite <- El, rd_app0 by done. cbn [mbind res_bind].
  destruct (Z.eqb_spec (memcmp (dec v) s) 0) as [E|]; cbn [negb]; [|by eauto]. apply memcmp_equal in E; [|done]. subst s. eexists. split; [done|]. by apply encode_integer_coded.
Qed.

Lemma coded_size e s : coded e s -> zlen s < 2 ^ 31 -> zlen e <= zlen s + 32.
Proof.
  assert (forall n, 0 <= n < 2 ^ 31 -> zlen (enc_len n) <= 9) as He by (intros n Hn; apply enc_len_bytes; unfold in_u; lia).
  intros Hc Hz. destruct Hc as [s|k m v Hkm Hv|w s Hc Hw Hlw Hlt].
  - rewrite zlen_app. pose proof (zlen_nonneg s). pose proof (He (zlen s)). lia.
  - rewrite zlen_cons, zlen_le_bytes. pose proof (zlen_nonneg (dec v)). lia.
  - rewrite zlen_cons, !zlen_app. pose proof (zlen_nonneg w). pose proof (He (zlen s)). pose proof (He (zlen w)). lia.
Qed.

Lemma coded_bytes e s : coded e s -> zlen s < 2 ^ 31 -> Forall (in_u 8) s -> Forall (in_u 8) e /\ 0 < zlen e.
Proof.
  assert (forall n, 0 <= n < 2 ^ 31 -> Forall (in_u 8) (enc_len n) /\ 1 <= zlen (enc_len n)) as He by (intros n Hn; destruct (enc_len_bytes n); [unfold in_u; lia|]; split; [done|lia]).
  intros Hc Hz Hs. pose proof (zlen_nonneg s). destruct Hc as [s|k m v Hkm Hv|w s Hc Hw Hlw Hlt].
  - destruct (He (zlen s)) as [H1 H2]; [lia|]. split; [by apply list.Forall_app|]. rewrite zlen_app. lia.
  - rewrite zlen_cons, zlen_le_bytes. split; [|lia]. constructor; [unfold in_u; lia|apply le_bytes_range].
  - pose proof (zlen_nonneg w). destruct (He (zlen s)) as [H1 H2]; [lia|]. destruct (He (zlen w)) as [H3 H4]; [lia|]. rewrite zlen_cons, !zlen_app. split; [|lia].
    constructor; [by vm_compute|]. rewrite !list.Forall_app. split_and!; [done|done|by eapply codes_bytes].
Qed.

Section Device.
Context {B : Type} {HB : RioIO B} {HD : RioDevice B}.

(** [m] appends [x] to the stream and returns [n], or fails with -1; on a NULL stream
    it returns [n]. *)
Definition saves (m : option (rio B) -> res (option (rio B) * Z)) (x : list Z) (n : Z) : Prop :=
  m None = Ok (None, n) /\
  forall r, rio_wf r -> zlen (written (io r)) + zlen x < capacity ->
    exists r' k, m (Some r) = Ok (Some r', k) /\ rio_wf r' /\ (k = -1 /\ ~ reliable \/ k = n /\ written (io r') = written (io r) ++ x /\ advanced r r' x).

Lemma saves_ret n : saves (fun r => Ok (r, n)) [] n.
Proof. split; [done|]. intros r Hr _. exists r, n. split_and!; [done..|]. right. split_and!; [done|by rewrite app_nil_r|apply advanced_nil, Hr]. Qed.

Lemma saves_bind m1 x1 n1 k x2 n2 : saves m1 x1 n1 -> n1 <> -1 -> saves (fun r => k r n1) x2 n2 ->
  saves (fun r => '(r, n) ← m1 r; if n =? -1 then Ok (r, -1) else k r n) (x1 ++ x2) n2.
Proof.
  intros [N1 S1] Hn [N2 S2]. split.
  - rewrite N1. cbn [mbind res_bind]. by rewrite (proj2 (Z.eqb_neq _ _)).
  - intros r Hr Hc. rewrite zlen_app in Hc. pose proof (zlen_nonneg x2). destruct (S1 r Hr ltac:(lia)) as (r1 & k1 & -> & Hr1 & Hk). cbn [mbind res_bind].
    destruct Hk as [[-> Hrel]|(-> & Hw & Ha)]; [eexists _, _; split; [done|]; split; [done|by left]|]. rewrite (proj2 (Z.eqb_neq _ _)) by done.
    destruct (S2 r1 Hr1) as (r2 & k2 & -> & Hr2 & Hk2); [rewrite Hw, zlen_app; lia|]. eexists _, _. split; [done|]. split; [done|]. destruct Hk2 as [[-> Hrel]|(-> & Hw2 & Ha2)]; [by left|right].
    split_and!; [done|by rewrite Hw2, Hw, app_assoc|by eapply advanced_app].
Qed.

Lemma saves_last m1 x n1 k n2 : saves m1 x n1 -> n1 <> -1 -> saves (fun r => k r n1) [] n2 ->
  saves (fun r => '(r, n) ← m1 r; if n =? -1 then Ok (r, -1) else k r n) x n2.
Proof. intros H1 Hn H2. rewrite <- (app_nil_r x). by eapply saves_bind. Qed.

Lemma saves_ext m m' x n : (forall r, m r = m' r) -> saves m' x n -> saves m x n.
Proof. intros E [H1 H2]. split; [by rewrite E|]. intros r. rewrite E. apply H2. Qed.

Lemma rdbWriteRaw_saves x : Forall (in_u 8) x -> zlen x < 2 ^ 31 -> saves (fun r => rdbWriteRaw r x) x (zlen x).
Proof.
  intros Hx Hz. pose proof (zlen_nonneg x). unfold rdbWriteRaw. rewrite swrap_id by (unfold in_s; lia). split; [done|]. intros r Hr Hc.
  destruct (rioWrite_ok r x Hr Hx Hc) as (r' & ok & -> & Hr' & Hrel & Hok). cbn [mbind res_bind]. eexists _, _. split; [done|]. split; [done|]. destruct ok; [right|left; split; [done|]; intros Hx'; by apply Hrel in Hx']. split; [done|]. by apply Hok.
Qed.

Lemma len14 len : 64 <= len < 2 ^ 14 -> Z.lor (Z.land (Z.shiftr len 8) 0xFF) (Z.shiftl RDB_14BITLEN 6) = len / 256 + 64 /\ Z.land len 0xFF = len mod 256.
Proof.
  intros Hl. pose proof (Z.div_pos len 256 ltac:(lia) ltac:(lia)). pose proof (Z.div_lt_upper_bound len 256 64 ltac:(lia) ltac:(lia)).
  change 0xFF with (2 ^ 8 - 1). rewrite !land_mask, Z.shiftr_div_pow2 by lia. change (2 ^ 8) with 256. rewrite (Z.mod_small (len / 256)) by lia.
  split; [|done]. change (Z.shiftl RDB_14BITLEN 6) with (1 * 2 ^ 6). rewrite Z.lor_comm, lor_mul_add by lia. lia.
Qed.

Lemma rdbSaveLen_saves len : in_u 64 len -> saves (fun r => rdbSaveLen r len) (enc_len len) (zlen (enc_len len)).
Proof.
  intros Hl. destruct (enc_len_bytes len Hl) as [Hb _]. unfold in_u in Hl. unfold rdbSaveLen, enc_len in *. change (Z.shiftl 1 6) with 64. change (Z.shiftl 1 14) with (2 ^ 14). destruct (Z.ltb_spec len 64).
  { assert (Z.lor (Z.land len 0xFF) (Z.shiftl RDB_6BITLEN 6) = len) as ->.
    { change (Z.shiftl RDB_6BITLEN 6) with 0. rewrite Z.lor_0_r. change 0xFF with (2 ^ 8 - 1). rewrite land_mask by lia. apply Z.mod_small. lia. }
    apply (saves_last _ _ 1); [by apply rdbWriteRaw_saves|done|apply saves_ret]. }
  destruct (Z.ltb_spec len (2 ^ 14)).
  { destruct (len14 len ltac:(lia)) as [-> ->]. apply (saves_last _ _ 2); [by apply rdbWriteRaw_saves|done|apply saves_ret]. }
  destruct (Z.ltb_spec len (2 ^ 32)).
  all: rewrite zlen_cons, zlen_be_bytes.
  - rewrite (proj2 (Z.leb_le _ _)) by lia. apply (saves_bind _ [RDB_32BITLEN] 1 _ (be_bytes 4 len)); [apply rdbWriteRaw_saves; [by repeat constructor|done]|done|].
    apply (saves_last _ _ (zlen (be_bytes 4 len))); [apply rdbWriteRaw_saves; [apply be_bytes_range|by rewrite zlen_be_bytes]|by rewrite zlen_be_bytes|apply saves_ret].
  - rewrite (proj2 (Z.leb_gt _ _)) by lia. apply (saves_bind _ [RDB_64BITLEN] 1 _ (be_bytes 8 len)); [apply rdbWriteRaw_saves; [by repeat constructor|done]|done|].
    apply (saves_last _ _ (zlen (be_bytes 8 len))); [apply rdbWriteRaw_saves; [apply be_bytes_range|by rewrite zlen_be_bytes]|by rewrite zlen_be_bytes|apply saves_ret].
Qed.

Lemma rdbSaveLzfBlob_saves data w rest n : data = w ++ rest -> Forall (in_u 8) w -> zlen w < 2 ^ 31 -> 0 <= n < 2 ^ 32 ->
  saves (fun r => rdbSaveLzfBlob r data (zlen w) n) (195 :: enc_len (zlen w) ++ enc_len n ++ w) (zlen (195 :: enc_len (zlen w) ++ enc_len n ++ w)).
Proof.
  intros -> Hb Hw Hn. pose proof (zlen_nonneg w). assert (in_u 64 (zlen w)) as H1 by (unfold in_u; lia). assert (in_u 64 n) as H2 by (unfold in_u; lia).
  destruct (enc_len_bytes _ H1) as [_ L1]. destruct (enc_len_bytes _ H2) as [_ L2]. unfold rdbSaveLzfBlob. change (Z.lor (Z.shiftl RDB_ENCVAL 6) RDB_ENC_LZF) with 195.
  apply (saves_bind _ [195] 1); [by apply rdbWriteRaw_saves; [repeat constructor|]|done|]. apply (saves_bind _ _ (zlen (enc_len (zlen w)))); [by apply rdbSaveLen_saves|lia|].
  apply (saves_bind _ _ (zlen (enc_len n))); [by apply rdbSaveLen_saves|lia|]. rewrite rd_app0 by done. cbn [mbind res_bind]. apply (saves_last _ _ (zlen w)); [by apply rdbWriteRaw_saves|lia|].
  replace (zlen (195 :: enc_len (zlen w) ++ enc_len n ++ w)) with (1 + zlen (enc_len (zlen w)) + zlen (enc_len n) + zlen w) by zl. apply saves_ret.
Qed.

Context (junk htab0 : Z -> Z).

(** The compressed form when it is shorter. *)
Lemma rdbSaveLzf_saves s : Forall (in_u 8) s -> zlen s < 2 ^ 31 ->
  saves (fun r => rdbSaveLzfStringObject junk htab0 r s) [] 0 \/
  exists e, coded e s /\ saves (fun r => rdbSaveLzfStringObject junk htab0 r s) e (zlen e) /\ 0 < zlen e.
Proof.
  intros Hb Hz. unfold rdbSaveLzfStringObject. destruct (Z.leb_spec (zlen s) 4); [left; apply saves_ret|]. rewrite !(uwrap_id 32) by (unfold in_u; lia). rewrite (ztake_all (zlen s)) by done.
  pose proof (zlen_zrealloc junk [] (zlen s - 4 + 1) ltac:(lia)) as Hl. set (out := zrealloc junk [] _) in *.
  destruct (LzfOps.lzf_compress_ok htab0 s (ztake (zlen s - 4) out)) as (o & n & -> & Hn); [lia|]. cbn [mbind res_bind].
  destruct Hn as [->|(Hn & Hlo & Hc)]; [rewrite Z.eqb_refl; left; apply saves_ret|]. rewrite (proj2 (Z.eqb_neq n 0)) by lia. right.
  rewrite zlen_ztake in Hlo. destruct (list_split_at n o) as (w & rest & -> & <-); [lia|]. rewrite ztake_app in Hc by done. rewrite zlen_app in *.
  exists (195 :: enc_len (zlen w) ++ enc_len (zlen s) ++ w). pose proof (zlen_nonneg rest). split_and!.
  - apply coded_lzf; [done| |lia|lia]. intros ->. change (zlen (@nil Z)) with 0 in Hn. lia.
  - apply (rdbSaveLzfBlob_saves _ _ (rest ++ zdrop (zlen s - 4) out)); [by rewrite app_assoc|by eapply codes_bytes|lia|lia].
  - rewrite zlen_cons. pose proof (zlen_nonneg (enc_len (zlen w) ++ enc_len (zlen s) ++ w)). lia.
Qed.

Lemma rdbSaveRawString_saves comp s : Forall (in_u 8) s -> zlen s < 2 ^ 31 ->
  exists e, coded e s /\ saves (fun r => rdbSaveRawString junk htab0 comp r s) e (zlen e).
Proof.
  intros Hb Hz. pose proof (zlen_nonneg s). unfold rdbSaveRawString.
  assert (exists e, (if zlen s <=? 11 then rdbTryIntegerEncoding junk s else Ok []) = Ok e /\ (e = [] \/ coded e s /\ Forall (in_u 8) e /\ 2 <= zlen e <= 5)) as (e & -> & He).
  { case_match; [apply rdbTryIntegerEncoding_ok|by eauto]. }
  cbn [mbind res_bind]. destruct He as [->|(Hc & Hbe & Hle)].
  2: { rewrite (proj2 (Z.ltb_lt _ _)) by lia. exists e. split; [done|]. apply (saves_last _ _ (zlen e)); [apply rdbWriteRaw_saves; [done|lia]|lia|apply saves_ret]. }
  change (0 <? zlen []) with false. cbv iota.
  assert (Hraw : saves (fun r => '(rdb, n) ← rdbSaveLen r (zlen s); if n =? -1 then Ok (rdb, -1) else if 0 <? zlen s then '(rdb, m) ← rdbWriteRaw rdb s; if m =? -1 then Ok (rdb, -1) else Ok (rdb, n + zlen s) else Ok (rdb, n))
    (enc_len (zlen s) ++ s) (zlen (enc_len (zlen s) ++ s))).
  { assert (in_u 64 (zlen s)) as Hu by (unfold in_u; lia). destruct (enc_len_bytes _ Hu) as [_ Hl]. apply (saves_bind _ _ (zlen (enc_len (zlen s)))); [by apply rdbSaveLen_saves|lia|].
    destruct (Z.ltb_spec 0 (zlen s)) as [Hpos|].
    - apply (saves_last _ _ (zlen s)); [by apply rdbWriteRaw_saves|lia|]. rewrite zlen_app. apply saves_ret.
    - assert (s = []) as E by (apply zlen_0_nil; lia). rewrite E, app_nil_r. apply saves_ret. }
  assert (Hnone : forall m, saves m [] 0 -> exists e, coded e s /\ saves (fun r => '(rdb, n) ← m r; if n =? -1 then Ok (rdb, -1) else if 0 <? n then Ok (rdb, n) else
      '(rdb, n) ← rdbSaveLen rdb (zlen s); if n =? -1 then Ok (rdb, -1) else if 0 <? zlen s then '(rdb, m) ← rdbWriteRaw rdb s; if m =? -1 then Ok (rdb, -1) else Ok (rdb, n + zlen s) else Ok (rdb, n)) e (zlen e)).
  { intros m Hm. exists (enc_len (zlen s) ++ s). split; [apply coded_raw|]. change (enc_len (zlen s) ++ s) with ([] ++ enc_len (zlen s) ++ s) at 1. by apply (saves_bind m [] 0). }
  destruct (comp && (20 <? zlen s)); [|apply (Hnone (fun r => Ok (r, 0))), saves_ret].
  destruct (rdbSaveLzf_saves s Hb Hz) as [Hs|(e & Hc & Hs & Hpos)]; [by apply (Hnone (fun r => rdbSaveLzfStringObject junk htab0 r s))|].
  exists e. split; [done|]. apply (saves_last _ e (zlen e)); [done|lia|]. rewrite (proj2 (Z.ltb_lt _ _)) by done. apply saves_ret.
Qed.

(** ** What is read *)

(** After [r], [x] has been consumed and [rest] is next. *)
Definition consumed (r r' : rio B) (x rest : list Z) : Prop :=
  rio_wf r' /\ unread (io r') = rest /\ advanced r r' x /\ written (io r') = written (io r).

Lemma consumed_app r1 r2 r3 x y rest : consumed r1 r2 x (y ++ rest) -> consumed r2 r3 y rest -> consumed r1 r3 (x ++ y) rest.
Proof. intros (_ & _ & A1 & W1) (H2 & U2 & A2 & W2). split_and!; [done|done|by eapply advanced_app|congruence]. Qed.

Lemma consumed_nil r rest : rio_wf r -> unread (io r) = rest -> consumed r r [] rest.
Proof. intros Hr Hu. split_and!; [done|done|apply advanced_nil, Hr|done]. Qed.

Lemma rioRead_app r x rest n : rio_wf r -> unread (io r) = x ++ rest -> n = zlen x -> exists r', rioRead r n = Ok (r', Some x) /\ consumed r r' x rest.
Proof.
  intros Hr Hu ->. destruct (rioRead_ok r (zlen x) Hr (zlen_nonneg x)) as (r' & Hr' & Hw & H). rewrite Hu in H. rewrite (proj2 (Z.leb_le _ _)), ztake_app, zdrop_app in H by (done || zl).
  destruct H as (E & Hu' & Ha). exists r'. split; [done|]. done.
Qed.

Lemma rioRead_short r n : rio_wf r -> zlen (unread (io r)) < n -> exists r', rioRead r n = Ok (r', None) /\ rio_wf r'.
Proof.
  intros Hr Hu. pose proof (zlen_nonneg (unread (io r))) as H0. destruct (rioRead_ok r n Hr ltac:(lia)) as (r' & Hr' & Hw & H). rewrite (proj2 (Z.leb_gt _ _)) in H by done. by exists r'.
Qed.

Lemma top_bits b k : 0 <= k < 4 -> 0 <= b < 64 -> Z.shiftr (Z.land (b + k * 64) 0xC0) 6 = k /\ Z.land (b + k * 64) 0x3F = b.
Proof.
  intros Hk Hb. change 0x3F with (2 ^ 6 - 1). rewrite land_mask by lia. change (2 ^ 6) with 64. split; [|rewrite Z.mod_add, Z.mod_small by lia; done].
  apply Z.bits_inj'. intros i Hi. rewrite Z.shiftr_spec, Z.land_spec by lia. change 0xC0 with (Z.shiftl 3 6). rewrite Z.shiftl_spec by lia. replace (i + 6 - 6) with i by lia.
  rewrite <- (Z.shiftr_spec (b + k * 64)) by lia. rewrite Z.shiftr_div_pow2 by lia. change (2 ^ 6) with 64. rewrite Z.div_add, Z.div_small by lia. rewrite Z.add_0_l.
  destruct (Z.lt_ge_cases i 2).
  - assert (i = 0 \/ i = 1) as [->| ->] by lia; apply andb_true_r.
  - rewrite (bits_above k 2 i), (bits_above 3 2 i) by (done || unfold in_u; lia). done.
Qed.

Lemma peek_0 x l : peek (x :: l) 0 = Ok x.
Proof. done. Qed.

Lemma peek_1 x y l : peek (x :: y :: l) 1 = Ok y.
Proof. done. Qed.
Lemma peek_2 x y z l : peek (x :: y :: z :: l) 2 = Ok z.
Proof. done. Qed.
Lemma peek_3 x y z w l : peek (x :: y :: z :: w :: l) 3 = Ok w.
Proof. done. Qed.

Lemma rdbLoadLen_ok r len rest : rio_wf r -> in_u 64 len -> unread (io r) = enc_len len ++ rest ->
  exists r', rdbLoadLen r = Ok (r', Len false len) /\ consumed r r' (enc_len len) rest.
Proof.
  intros Hr Hl Hu. unfold in_u in Hl. unfold rdbLoadLen, enc_len in *.
  assert (forall b more, unread (io r) = b :: more -> exists r', rioRead r 1 = Ok (r', Some [b]) /\ consumed r r' [b] more) as Hfirst.
  { intros b more E. by apply (rioRead_app r [b] more). }
  destruct (Z.ltb_spec len 64).
  { destruct (Hfirst len rest Hu) as (r' & -> & Hc). cbn [mbind res_bind]. rewrite peek_0. cbn [mbind res_bind]. destruct (top_bits len 0) as [E1 E2]; [lia|lia|]. rewrite Z.add_0_r in *. rewrite E1, E2. by exists r'. }
  destruct (Z.ltb_spec len (2 ^ 14)).
  { pose proof (Z.div_pos len 256 ltac:(lia) ltac:(lia)). pose proof (Z.div_lt_upper_bound len 256 64 ltac:(lia) ltac:(lia)). pose proof (Z.mod_pos_bound len 256 ltac:(lia)).
    destruct (Hfirst (len / 256 + 64) (len mod 256 :: rest) Hu) as (r1 & -> & Hc1). cbn [mbind res_bind]. rewrite peek_0. cbn [mbind res_bind].
    destruct (top_bits (len / 256) 1) as [E1 E2]; [lia|lia|]. rewrite Z.mul_1_l in *. rewrite E1, E2. cbn -[rioRead Z.lor Z.shiftl].
    destruct (rioRead_app r1 [len mod 256] rest 1) as (r2 & -> & Hc2); [apply Hc1|apply Hc1|done|]. cbn [mbind res_bind]. rewrite peek_0. cbn [mbind res_bind].
    exists r2. split; [|by apply (consumed_app r r1 r2 [_] [_])]. do 4 f_equal. rewrite Z.shiftl_mul_pow2, lor_mul_add by lia. change (2 ^ 8) with 256. pose proof (Z.div_mod len 256). lia. }
  destruct (Z.ltb_spec len (2 ^ 32)).
  - destruct (Hfirst RDB_32BITLEN (be_bytes 4 len ++ rest) Hu) as (r1 & -> & Hc1). cbn [mbind res_bind]. rewrite peek_0. cbn -[rioRead be_bytes be_val].
    destruct (rioRead_app r1 (be_bytes 4 len) rest 4) as (r2 & -> & Hc2); [apply Hc1|apply Hc1|by rewrite zlen_be_bytes|]. cbn [mbind res_bind]. rewrite be_val_bytes by (unfold in_u; lia).
    exists r2. split; [done|]. by apply (consumed_app r r1 r2 [_]).
  - destruct (Hfirst RDB_64BITLEN (be_bytes 8 len ++ rest) Hu) as (r1 & -> & Hc1). cbn [mbind res_bind]. rewrite peek_0. cbn -[rioRead be_bytes be_val].
    destruct (rioRead_app r1 (be_bytes 8 len) rest 8) as (r2 & -> & Hc2); [apply Hc1|apply Hc1|by rewrite zlen_be_bytes|]. cbn [mbind res_bind]. rewrite be_val_bytes by (unfold in_u; lia).
    exists r2. split; [done|]. by apply (consumed_app r r1 r2 [_]).
Qed.

Lemma rdbLoadLen_encoded r k rest : rio_wf r -> 0 <= k < 64 -> unread (io r) = 192 + k :: rest -> exists r', rdbLoadLen r = Ok (r', Len true k) /\ consumed r r' [192 + k] rest.
Proof.
  intros Hr Hk Hu. unfold rdbLoadLen. destruct (rioRead_app r [192 + k] rest 1 Hr Hu eq_refl) as (r' & -> & Hc). cbn [mbind res_bind]. rewrite peek_0. cbn [mbind res_bind].
  destruct (top_bits k 3) as [E1 E2]; [lia|lia|]. replace (k + 3 * 64) with (192 + k) in * by lia. rewrite E1, E2. by exists r'.
Qed.

(** The text of the result, in the form asked for by the flags. *)
Definition loaded_ok (flags : Z) (l : loaded) (n : option Z) (s : list Z) : Prop :=
  if has_flag flags RDB_LOAD_PLAIN then l = LPlain s /\ n = Some (zlen s)
  else if has_flag flags RDB_LOAD_SDS then exists sd, l = LSds sd /\ repr sd s
  else exists o, l = LObj o /\ made_text o s.

Lemma integer_result_ok flags v : in_s 64 v -> exists l n, integer_result junk flags v = Ok (l, n) /\ loaded_ok flags l n (dec v).
Proof.
  intros Hv. pose proof (dec_len_le v Hv) as Hl. unfold integer_result, loaded_ok. destruct (has_flag flags RDB_LOAD_PLAIN); cbn [orb].
  - destruct (ll2string_ok (stack_buf junk LONG_STR_SIZE) LONG_STR_SIZE v Hv) as (post & -> & _); [by apply stack_buf_len|unfold LONG_STR_SIZE; lia|]. cbn [mbind res_bind]. rewrite rd_app0 by done. cbn [mbind res_bind].
    rewrite <- (app_nil_r (zrealloc junk [] _)), wr_app0, app_nil_r by (rewrite zlen_zrealloc; lia). cbn [mbind res_bind]. by do 2 eexists.
  - destruct (has_flag flags RDB_LOAD_SDS).
    + destruct (ll2string_ok (stack_buf junk LONG_STR_SIZE) LONG_STR_SIZE v Hv) as (post & -> & _); [by apply stack_buf_len|unfold LONG_STR_SIZE; lia|]. cbn [mbind res_bind]. rewrite rd_app0 by done. cbn [mbind res_bind].
      destruct (sdsnewlen_null junk (zlen (dec v))) as (s & -> & Hs); [lia|]. cbn [mbind res_bind]. destruct (repr_overwrite s _ (dec v) Hs) as [-> Hs']; [rewrite zlen_zrep; lia|]. cbn [mbind res_bind]. do 2 eexists. split; [done|]. by eexists.
    + destruct (has_flag flags RDB_LOAD_ENC).
      * destruct (createStringObjectFromLongLong_ok junk v Hv) as (m & -> & Hm). cbn [mbind res_bind]. do 2 eexists. split; [done|]. by eexists.
      * destruct (sdsfromlonglong_ok junk v Hv) as (sd & -> & Hs). cbn [mbind res_bind]. do 2 eexists. split; [done|]. eexists. split; [done|]. cbn. split; [done|]. by eapply text_sds.
Qed.

Lemma lor_le2 a b k : 0 <= k -> 0 <= a < 2 ^ k -> Z.lor a (Z.shiftl b k) = a + 2 ^ k * b.
Proof. intros Hk Ha. rewrite Z.lor_comm, Z.shiftl_mul_pow2, lor_mul_add by done. lia. Qed.

Lemma load_int_ok flags k m v : k = 0 /\ m = 1%nat \/ k = 1 /\ m = 2%nat \/ k = 2 /\ m = 4%nat -> in_s (8 * Z.of_nat m) v ->
  forall r rest, rio_wf r -> unread (io r) = le_bytes m v ++ rest ->
  exists r' l n, rdbLoadIntegerObject junk r k flags = Ok (r', l, n) /\ consumed r r' (le_bytes m v) rest /\ loaded_ok flags l n (dec v).
Proof.
  intros Hkm Hv r rest Hr Hu. destruct (rioRead_app r (le_bytes m v) rest (Z.of_nat m) Hr Hu) as (r' & E & Hc); [by rewrite zlen_le_bytes|].
  assert (in_s 64 v) as H64 by (unfold in_s in *; destruct Hkm as [[_ ->]|[[_ ->]|[_ ->]]]; lia). destruct (integer_result_ok flags v H64) as (l & n & Er & Hok).
  pose proof (le_val_bytes_signed m v ltac:(lia) Hv) as Es. pose proof (le_bytes_range m v) as Hb. exists r', l, n. split; [|done]. unfold rdbLoadIntegerObject.
  pose proof (zlen_le_bytes m v) as Hz. destruct Hkm as [[-> ->]|[[-> ->]|[-> ->]]].
  - change (0 =? RDB_ENC_INT8) with true. cbv iota. change 1 with (Z.of_nat 1). rewrite E. cbn [mbind res_bind].
    destruct (le_bytes 1 v) as [|a [|]]; [zl| |zl]. rewrite peek_0. cbn [mbind res_bind]. cbn [le_val] in Es. rewrite Z.mul_0_r, Z.add_0_r in Es. change (8 * Z.of_nat 1) with 8 in Es. rewrite Es, Er. done.
  - change (1 =? RDB_ENC_INT8) with false. change (1 =? RDB_ENC_INT16) with true. cbv iota. change 2 with (Z.of_nat 2). rewrite E. cbn [mbind res_bind].
    destruct (le_bytes 2 v) as [|a [|b [|]]]; [zl|zl| |zl]. rewrite peek_0, peek_1. cbn [mbind res_bind]. cbn [le_val] in Es. change (8 * Z.of_nat 2) with 16 in Es.
    apply list.Forall_cons_1 in Hb as [Ha Hb]. unfold in_u in Ha. rewrite swrap_uwrap, lor_le2 by (done || lia). change (2 ^ 8) with 256. rewrite Z.mul_0_r, Z.add_0_r in Es. rewrite Es, Er. done.
  - change (2 =? RDB_ENC_INT8) with false. change (2 =? RDB_ENC_INT16) with false. change (2 =? RDB_ENC_INT32) with true. cbv iota. change 4 with (Z.of_nat 4). rewrite E. cbn [mbind res_bind].
    destruct (le_bytes 4 v) as [|a [|b [|c [|d [|]]]]]; [zl|zl|zl|zl| |zl]. rewrite peek_0, peek_1, peek_2, peek_3. cbn [mbind res_bind]. cbn [le_val] in Es. change (8 * Z.of_nat 4) with 32 in Es.
    apply list.Forall_cons_1 in Hb as [Ha Hb]. apply list.Forall_cons_1 in Hb as [Hb' Hb]. apply list.Forall_cons_1 in Hb as [Hc' Hb]. unfold in_u in *. rewrite swrap_uwrap, (lor_le2 a b 8), (lor_le2 (a + 2 ^ 8 * b) c 16), (lor_le2 (a + 2 ^ 8 * b + 2 ^ 16 * c) d 24) by lia.
    rewrite Z.mul_0_r, Z.add_0_r in Es. replace (a + 2 ^ 8 * b + 2 ^ 16 * c + 2 ^ 24 * d) with (a + 256 * (b + 256 * (c + 256 * d))) by lia. rewrite Es, Er. done.
Qed.

Lemma zdrop_sds (b x : list Z) n : n = zlen x -> ztake n (x ++ b) = x /\ zdrop n (x ++ b) = b.
Proof. intros ->. by rewrite ztake_app, zdrop_app. Qed.

(** Decompression into a buffer of exactly the size of the text. *)
Lemma decompress_exact w s b : LzfOps.codes w [] s -> w <> [] -> Forall (in_u 8) s -> zlen b = zlen s -> Lzf.lzf_decompress w b = Ok (s, zlen s).
Proof.
  intros Hc Hw Hs Hb. destruct (LzfOps.lzf_decompress_ok w s b Hc Hw ltac:(lia)) as (g & E).
  destruct (LzfOps.decode_loop_total w (S (length w)) 0 0 b) as (b' & n & E' & Hz & _); [by eapply codes_bytes|destruct w; [done|zl]|zl|unfold zlen; lia|].
  unfold Lzf.lzf_decompress in E. rewrite E in E'. injection E' as <- <-. rewrite zlen_app in Hz. assert (g = []) as -> by (apply zlen_0_nil; zl). by rewrite app_nil_r in E.
Qed.

Lemma load_lzf_ok flags w s r rest : LzfOps.codes w [] s -> w <> [] -> Forall (in_u 8) s -> 0 < zlen s < 2 ^ 31 -> zlen w < 2 ^ 31 -> rio_wf r ->
  unread (io r) = enc_len (zlen w) ++ enc_len (zlen s) ++ w ++ rest ->
  exists r' l n, rdbLoadLzfStringObject junk r flags = Ok (r', l, n) /\ consumed r r' (enc_len (zlen w) ++ enc_len (zlen s) ++ w) rest /\ loaded_ok flags l n s.
Proof.
  intros Hc Hw Hs Hls Hlw Hr Hu. pose proof (zlen_nonneg w). unfold rdbLoadLzfStringObject, loaded_ok.
  destruct (rdbLoadLen_ok r (zlen w) (enc_len (zlen s) ++ w ++ rest) Hr) as (r1 & -> & H1); [unfold in_u; lia|done|]. cbn [mbind res_bind]. rewrite (proj2 (Z.eqb_neq _ _)) by (unfold RDB_LENERR; lia).
  destruct (rdbLoadLen_ok r1 (zlen s) (w ++ rest)) as (r2 & -> & H2); [apply H1|unfold in_u; lia|apply H1|]. cbn [mbind res_bind]. rewrite (proj2 (Z.eqb_neq _ _)) by (unfold RDB_LENERR; lia).
  destruct (rioRead_app r2 w rest (zlen w)) as (r3 & E3 & H3); [apply H2|apply H2|done|].
  assert (Hall : consumed r r3 (enc_len (zlen w) ++ enc_len (zlen s) ++ w) rest).
  { eapply consumed_app; [rewrite <- app_assoc; exact H1|]. by eapply consumed_app. }
  rewrite !(uwrap_id 32) by (unfold in_u; lia). destruct (has_flag flags RDB_LOAD_PLAIN).
  - cbn [mbind res_bind]. rewrite E3. cbn [mbind res_bind buf]. pose proof (zlen_zrealloc junk [] (zlen s) ltac:(lia)) as Hz. rewrite (ztake_all (zlen w)) by done. rewrite ztake_all, zdrop_all by lia.
    rewrite (decompress_exact w s) by (done || lia). cbn [mbind res_bind]. rewrite (proj2 (Z.eqb_neq _ _)) by lia. rewrite app_nil_r. do 3 eexists. split; [done|]. done.
  - destruct (sdsnewlen_null junk (zlen s)) as (sd & -> & Hsd); [lia|]. cbn [mbind res_bind]. rewrite E3. cbn [mbind res_bind]. rewrite (ztake_all (zlen w)) by done.
    destruct (repr_overwrite sd _ s Hsd) as [_ Hov]; [rewrite zlen_zrep; lia|]. pose proof (repr_buf _ _ Hsd) as (free & Eb & _).
    rewrite (decompress_exact w s) by (done || rewrite Eb, zlen_ztake, zlen_app, zlen_zrep, zlen_cons; pose proof (zlen_nonneg free); lia). cbn [mbind res_bind]. rewrite (proj2 (Z.eqb_neq _ _)) by lia.
    destruct (has_flag flags RDB_LOAD_SDS); do 3 eexists; (split; [done|]); (split; [done|]); eexists; (split; [done|]); [done|]. cbn. split; [done|]. by eapply text_sds.
Qed.

Lemma read_verbatim_ok r b s rest free : rio_wf r -> unread (io r) = s ++ rest -> b = zrep (zlen s) 0 ++ free \/ zlen b = zlen s /\ free = [] ->
  exists r', read_verbatim r b (zlen s) = Ok (r', Some (s ++ free)) /\ consumed r r' s rest.
Proof.
  intros Hr Hu Hb. pose proof (zlen_nonneg s). unfold read_verbatim. destruct (Z.eqb_spec (zlen s) 0) as [E|Hne].
  - apply zlen_0_nil in E. subst s. exists r. split; [|by apply consumed_nil]. do 3 f_equal. destruct Hb as [->|[Hz ->]]; [done|]. by apply zlen_0_nil.
  - destruct (rioRead_app r s rest (zlen s) Hr Hu eq_refl) as (r' & -> & Hc). cbn [mbind res_bind]. exists r'. split; [|done].
    destruct Hb as [->|[Hz ->]]; [rewrite wr_app0 by (rewrite zlen_zrep; lia); done|]. rewrite <- (app_nil_r b), wr_app0 by done. done.
Qed.

Lemma rdbGenericLoad_ok flags e s r rest : coded e s -> Forall (in_u 8) s -> zlen s < 2 ^ 31 -> rio_wf r -> unread (io r) = e ++ rest ->
  exists r' l n, rdbGenericLoadStringObject junk r flags = Ok (r', l, n) /\ consumed r r' e rest /\ loaded_ok flags l n s.
Proof.
  intros Hc Hs Hz Hr Hu. pose proof (zlen_nonneg s). unfold rdbGenericLoadStringObject. destruct Hc as [s|k m v Hkm Hv|w s Hc Hw Hlw Hpos].
  - rewrite <- app_assoc in Hu. destruct (rdbLoadLen_ok r (zlen s) (s ++ rest) Hr) as (r1 & -> & H1); [unfold in_u; lia|done|]. cbn [mbind res_bind].
    rewrite (proj2 (Z.eqb_neq _ _)) by (unfold RDB_LENERR; lia). destruct H1 as (Hr1 & Hu1 & H1'). unfold loaded_ok.
    assert (Hfin : forall r', consumed r1 r' s rest -> consumed r r' (enc_len (zlen s) ++ s) rest) by (intros r' Hc'; by eapply consumed_app).
    destruct (has_flag flags RDB_LOAD_PLAIN); [|destruct (has_flag flags RDB_LOAD_SDS)].
    + destruct (read_verbatim_ok r1 (zrealloc junk [] (zlen s)) s rest []) as (r2 & -> & H2); [done|done|right; split; [apply zlen_zrealloc; lia|done]|]. cbn [mbind res_bind]. rewrite app_nil_r. do 3 eexists. split; [done|]. split; [auto|done].
    + destruct (sdsnewlen_null junk (zlen s)) as (sd & -> & Hsd); [lia|]. cbn [mbind res_bind]. destruct (repr_overwrite sd _ s Hsd) as [_ Hov]; [rewrite zlen_zrep; lia|]. pose proof (repr_buf _ _ Hsd) as (free & Eb & _).
      rewrite Eb, zdrop_app in Hov by (rewrite zlen_zrep; lia).
      destruct (read_verbatim_ok r1 (buf sd) s rest (0 :: free)) as (r2 & -> & H2); [done|done|by left|]. cbn [mbind res_bind]. do 3 eexists. split; [done|]. split; [auto|by eexists].
    + destruct (create_null_ok junk (has_flag flags RDB_LOAD_ENC) (zlen s)) as (o & sd & -> & Ht & He & Hrc & Hp & Hsd); [lia|]. cbn [mbind res_bind]. unfold as_sds. rewrite Hp. cbn [mbind res_bind].
      destruct (repr_overwrite sd _ s Hsd) as [_ Hov]; [rewrite zlen_zrep; lia|]. pose proof (repr_buf _ _ Hsd) as (free & Eb & _). rewrite Eb, zdrop_app in Hov by (rewrite zlen_zrep; lia).
      destruct (read_verbatim_ok r1 (buf sd) s rest (0 :: free)) as (r2 & -> & H2); [done|done|by left|]. cbn [mbind res_bind]. do 3 eexists. split; [done|]. split; [auto|]. eexists. split; [done|]. cbn. split; [done|]. by eapply text_sds.
  - destruct (rdbLoadLen_encoded r k (le_bytes m v ++ rest) Hr) as (r1 & -> & H1); [lia|done|]. cbn [mbind res_bind].
    rewrite (proj2 (orb_true_iff _ _)) by (unfold RDB_ENC_INT8, RDB_ENC_INT16, RDB_ENC_INT32; destruct (Z.eqb_spec k 0); destruct (Z.eqb_spec k 1); destruct (Z.eqb_spec k 2); cbn; auto; lia).
    destruct (load_int_ok flags k m v Hkm Hv r1 rest) as (r2 & l & n & -> & H2 & Hok); [apply H1|apply H1|]. do 3 eexists. split; [done|]. split; [|done]. by apply (consumed_app r r1 r2 [_]).
  - destruct (rdbLoadLen_encoded r 3 ((enc_len (zlen w) ++ enc_len (zlen s) ++ w) ++ rest) Hr) as (r1 & -> & H1); [lia|done|]. cbn [mbind res_bind].
    change ((3 =? RDB_ENC_INT8) || (3 =? RDB_ENC_INT16) || (3 =? RDB_ENC_INT32)) with false. change (3 =? RDB_ENC_LZF) with true. cbv iota.
    pose proof (zlen_nonneg w). destruct (load_lzf_ok flags w s r1 rest) as (r2 & l & n & -> & H2 & Hok); [done|done|done|lia|done|apply H1|destruct H1 as (_ & -> & _); by rewrite <- !app_assoc|].
    do 3 eexists. split; [done|]. split; [|done]. by apply (consumed_app r r1 r2 [_]).
Qed.

(** An object is saved as its text. *)
Lemma rdbSaveLongLong_saves v : in_s 64 v -> exists e, coded e (dec v) /\ saves (fun r => rdbSaveLongLongAsStringObject junk r v) e (zlen e).
Proof.
  intros Hv. pose proof (dec_len_le v Hv) as Hl. unfold rdbSaveLongLongAsStringObject. destruct (encode_integer_coded v _ eq_refl) as [E|(Hc & Hb & Hle)].
  - rewrite E. change (0 <? zlen []) with false. cbv iota. destruct (ll2string_ok (stack_buf junk 32) 32 v Hv) as (post & -> & _); [by apply stack_buf_len|lia|]. cbn [mbind res_bind].
    rewrite (proj2 (Z.ltb_lt _ _)) by lia. cbn [assert_ mbind res_bind]. exists (enc_len (zlen (dec v)) ++ dec v). split; [apply coded_raw|]. rewrite zlen_app.
    assert (in_u 64 (zlen (dec v))) as Hu by (unfold in_u; lia). destruct (enc_len_bytes _ Hu) as [_ He]. apply (saves_bind _ _ (zlen (enc_len (zlen (dec v))))); [by apply rdbSaveLen_saves|lia|].
    rewrite rd_app0 by done. cbn [mbind res_bind]. apply (saves_last _ _ (zlen (dec v))); [apply rdbWriteRaw_saves; [|lia]|lia|apply saves_ret].
    eapply list.Forall_impl; [by apply dec_chars|]. unfold in_u. cbn. intros; lia.
  - rewrite (proj2 (Z.ltb_lt _ _)) by lia. eexists. split; [exact Hc|]. apply rdbWriteRaw_saves; [done|lia].
Qed.

Lemma saves_i32 m x n : saves m x n -> 0 <= n < 2 ^ 31 -> saves (fun r => '(r, k) ← m r; Ok (r, i32 k)) x n.
Proof.
  intros [HN HS] Hn. split; [rewrite HN; cbn [mbind res_bind]; rewrite swrap_id by (unfold in_s; lia); done|]. intros r Hr Hc. destruct (HS r Hr Hc) as (r' & k & -> & Hr' & Hk). cbn [mbind res_bind].
  exists r', k. split; [|done]. destruct Hk as [[-> _]|(-> & _)]; [done|]. rewrite swrap_id by (unfold in_s; lia). done.
Qed.

Lemma rdbSaveStringObject_saves comp o s : obj_text o s -> Forall (in_u 8) s -> zlen s < 2 ^ 31 - 32 ->
  exists e, coded e s /\ saves (fun r => rdbSaveStringObject junk htab0 comp r o) e (zlen e).
Proof.
  intros Ho Hb Hz. unfold rdbSaveStringObject. destruct Ho as [sd Ht He Hp Hr|v Ht He Hp Hv ->].
  - rewrite bool_decide_eq_false_2 by (intros E; by rewrite sdsEncoded_int in He). rewrite He. cbn [assert_ mbind res_bind]. unfold as_sds. rewrite Hp. cbn [mbind res_bind]. rewrite (rd_text sd s Hr). cbn [mbind res_bind].
    destruct (rdbSaveRawString_saves comp s Hb ltac:(lia)) as (e & Hc & Hs). exists e. split; [done|]. apply saves_i32; [done|]. pose proof (coded_size e s Hc). pose proof (zlen_nonneg e). lia.
  - rewrite bool_decide_eq_true_2 by done. unfold as_long. rewrite Hp. cbn [mbind res_bind]. destruct (rdbSaveLongLong_saves v Hv) as (e & Hc & Hs). exists e. split; [done|]. apply saves_i32; [done|].
    pose proof (coded_size e _ Hc). pose proof (zlen_nonneg e). lia.
Qed.

End Device.

(** C24: A string object saved to an RDB stream is loaded back with the same text, on any
    devices, with any chunking, checksum and compression setting, whatever encoding the
    save chose and in whatever form the load was asked for (plain buffer, sds, object,
    encoded object). The save returns -1 only when the device can refuse a write, otherwise the
    number of bytes appended, the same number a save to a NULL stream predicts; the load
    consumes exactly these bytes and both checksums have followed them. *)
Theorem rdb_string_roundtrip {B1 B2} {IO1 : RioIO B1} {D1 : RioDevice B1} {IO2 : RioIO B2} {D2 : RioDevice B2}
    junk htab0 comp o s (r : rio B1) :
  obj_text o s -> Forall (in_u 8) s -> zlen s < 2 ^ 31 - 32 -> rio_wf r -> zlen (written (io r)) + zlen s + 32 < @capacity B1 IO1 D1 ->
  exists e r' n, rdbSaveStringObject junk htab0 comp (Some r) o = Ok (Some r', n) /\
    rdbSaveStringObject (B := B1) junk htab0 comp None o = Ok (None, zlen e) /\
    (n = -1 /\ ~ reliable (HB := IO1) \/ n = zlen e /\ written (io r') = written (io r) ++ e /\ advanced r r' e) /\
    forall flags (r2 : rio B2) rest, rio_wf r2 -> unread (io r2) = e ++ rest ->
      exists r2' l m, rdbGenericLoadStringObject junk r2 flags = Ok (r2', l, m) /\ loaded_ok flags l m s /\
        unread (io r2') = rest /\ advanced r2 r2' e.
Proof.
  intros Ho Hb Hz Hr Hcap. destruct (rdbSaveStringObject_saves (HB := IO1) junk htab0 comp o s Ho Hb Hz) as (e & Hc & HN & HS). pose proof (coded_size e s Hc ltac:(lia)).
  destruct (HS r Hr) as (r' & n & E & Hr' & Hn); [lia|]. exists e, r', n. split_and!; [done|done|done|]. intros flags r2 rest Hr2 Hu.
  destruct (rdbGenericLoad_ok junk flags e s r2 rest Hc Hb ltac:(lia) Hr2 Hu) as (r2' & l & m & E2 & (_ & Hu2 & Ha & _) & Hok). by exists r2', l, m.
Qed.

(** ** DUMP payloads *)

Lemma sdsempty_ok junk : exists s, sdsempty junk = Ok s /\ repr s [].
Proof. apply (sdsnewlen_ok junk [] []). done. Qed.

Lemma init_wf junk s c : repr s c -> Forall (in_u 8) c -> zlen c < 2 ^ 61 ->
  rio_wf (HB := buffer_io junk) (HD := buffer_device junk) (rioInitWithBuffer s).
Proof. intros Hr Hb Hz. unfold rio_wf. cbn. split_and!; [|done..]. exists c. cbn. split_and!; [done|done|lia|apply zlen_nonneg|done]. Qed.

(** A checksum appended to its message divides out. *)
Lemma iter_shift64_0 n : Nat.iter n Crc.shift64 0 = 0.
Proof. induction n as [|n IH]; [done|]. by rewrite Nat.iter_succ, IH. Qed.

Lemma crc_appended x y : Forall (in_u 8) x -> Forall (in_u 8) y -> zlen y = 8 ->
  Crc.crc64_bits 0 (x ++ y) = 0 <-> y = le_bytes 8 (Crc.crc64_bits 0 x).
Proof.
  intros Hx Hy Hz. rewrite Crc.crc64_bits_app. assert (in_u 64 (Crc.crc64_bits 0 x)) as Hc by (by apply Crc.crc64_bits_range). set (c := Crc.crc64_bits 0 x) in *.
  rewrite Crc.crc64_bits_le by done. assert (in_u 64 (le_val y)) as Hv by (pose proof (Crc.le_val_range y Hy) as H; rewrite Hz in H; done). split.
  - intros E. rewrite <- (iter_shift64_0 (8 * length y)) in E. apply Crc.iter_shift64_inj in E; [|by apply Crc.lxor_range|done]. apply Z.lxor_eq in E.
    apply Crc.le_val_inj; [unfold zlen in Hz; pose proof (zlen_le_bytes 8 c) as Hl; unfold zlen in Hl; lia|done|apply le_bytes_range|]. rewrite le_val_bytes_unsigned by done. done.
  - intros ->. rewrite le_val_bytes_unsigned, Z.lxor_nilpotent by done. apply iter_shift64_0.
Qed.

(** The verification is: a version that is not newer, and a payload that divides. *)
Lemma verify_split (p : list Z) : zlen p < 10 \/ exists a f0 f1 y, p = a ++ [f0; f1] ++ y /\ zlen y = 8.
Proof.
  destruct (Z.lt_ge_cases (zlen p) 10) as [|Hge]; [by left|right]. destruct (list_split_at (zlen p - 10) p) as (a & q & E & Ha); [lia|]. pose proof (f_equal zlen E) as El. rewrite zlen_app in El.
  destruct q as [|f0 [|f1 y]]; [zl|zl|]. exists a, f0, f1, y. split; [done|]. rewrite !zlen_cons in El. lia.
Qed.

Lemma verifyDumpPayload_ok a f0 f1 y : Forall (in_u 8) (a ++ [f0; f1] ++ y) -> zlen y = 8 ->
  verifyDumpPayload (a ++ [f0; f1] ++ y) = Ok ((f0 + 256 * f1 <=? RDB_VERSION) && (Crc.crc64_bits 0 (a ++ [f0; f1] ++ y) =? 0)).
Proof.
  intros HF Hy. pose proof HF as HF'. rewrite !list.Forall_app in HF. destruct HF as (HFa & HFf & HFy). pose proof HFf as HFf'. apply list.Forall_cons_1 in HFf as [Hf0 HFf]. apply list.Forall_cons_1 in HFf as [Hf1 _].
  unfold in_u in Hf0, Hf1. pose proof (zlen_nonneg a). unfold verifyDumpPayload. rewrite !zlen_app. change (zlen [f0; f1]) with 2. rewrite Hy. rewrite (proj2 (Z.ltb_ge _ _)) by lia.
  replace (zlen a + (2 + 8) - 10) with (zlen a) by lia.
  replace (peek (a ++ [f0; f1] ++ y) (zlen a + 1)) with (Ok (A := Z) f1) by (symmetry; replace (a ++ [f0; f1] ++ y) with ((a ++ [f0]) ++ f1 :: y) by (by rewrite <- app_assoc); apply peek_app; zl). cbn [mbind res_bind].
  replace (peek (a ++ [f0; f1] ++ y) (zlen a)) with (Ok (A := Z) f0) by (symmetry; by apply peek_app). cbn [mbind res_bind].
  rewrite Z.shiftl_mul_pow2, lor_mul_add, uwrap_id by (unfold in_u; lia). replace (f1 * 2 ^ 8 + f0) with (f0 + 256 * f1) by lia.
  destruct (Z.ltb_spec RDB_VERSION (f0 + 256 * f1)); [by rewrite (proj2 (Z.leb_gt _ _)) by lia|]. rewrite (proj2 (Z.leb_le _ _)) by lia. cbn [andb].
  rewrite app_assoc. rewrite rd_app0 by zl. cbn [mbind res_bind]. rewrite Crc.crc64_eq by (by apply list.Forall_app). cbn [mbind res_bind].
  rewrite <- (app_nil_r y) at 1. rewrite rd_app by (done || zl). cbn [mbind res_bind]. f_equal.
  pose proof (crc_appended (a ++ [f0; f1]) y ltac:(by apply list.Forall_app) HFy Hy) as Hiff. destruct (Z.eqb_spec (memcmp (le_bytes 8 (Crc.crc64_bits 0 (a ++ [f0; f1]))) y) 0) as [E|Hne].
  - apply memcmp_equal in E; [|by rewrite zlen_le_bytes]. symmetry. apply Z.eqb_eq, Hiff. done.
  - symmetry. apply Z.eqb_neq. intros E. apply Hne. apply Hiff in E as ->. apply memcmp_refl.
Qed.

(** C27: A corrupted DUMP payload is refused: if [verifyDumpPayload] accepts a payload, it
    rejects every payload that differs from it in at most eight consecutive bytes,
    wherever they are: in the data, the version or the checksum. *)
Theorem dump_corruption_detected a m1 m2 b : Forall (in_u 8) (a ++ m1 ++ b) -> Forall (in_u 8) m2 -> length m1 = length m2 -> zlen m1 <= 8 -> m1 <> m2 ->
  verifyDumpPayload (a ++ m1 ++ b) = Ok true -> verifyDumpPayload (a ++ m2 ++ b) = Ok false.
Proof.
  intros H1 H2 Hl H8 Hne Hv. assert (H2' : Forall (in_u 8) (a ++ m2 ++ b)) by (rewrite !list.Forall_app in *; tauto). destruct (verify_split (a ++ m2 ++ b)) as [Hs|(x & f0 & f1 & y & E & Hy)].
  { unfold verifyDumpPayload. by rewrite (proj2 (Z.ltb_lt _ _)). }
  rewrite E, verifyDumpPayload_ok by (done || by rewrite <- E). rewrite <- E. f_equal. apply andb_false_iff. right. apply Z.eqb_neq. intros Hz.
  destruct (Crc.crc64_detects_bursts_aux 0 a m1 m2 b) as (c1 & c2 & E1 & E2 & Hc); [done|done|done|done|done|done|]. rewrite !Crc.crc64_eq in E1, E2 by done. injection E1 as <-. injection E2 as <-. apply Hc. rewrite Hz.
  destruct (verify_split (a ++ m1 ++ b)) as [Hs|(x' & g0 & g1 & y' & E' & Hy')]; [unfold verifyDumpPayload in Hv; by rewrite (proj2 (Z.ltb_lt _ _)) in Hv|].
  rewrite E', verifyDumpPayload_ok in Hv by (done || by rewrite <- E'). rewrite <- E' in Hv. injection Hv as Hv. apply andb_true_iff in Hv as [_ Hv%Z.eqb_eq]. done.
Qed.

Lemma createDumpPayload_ok junk htab0 comp o s : obj_text o s -> Forall (in_u 8) s -> zlen s < 2 ^ 31 - 32 ->
  exists p e, createDumpPayload junk htab0 comp o = Ok p /\ coded e s /\ Forall (in_u 8) e /\
    repr p ((0 :: e ++ [8; 0]) ++ le_bytes 8 (Crc.crc64_bits 0 (0 :: e ++ [8; 0]))).
Proof.
  intros Ho Hb Hz. unfold createDumpPayload. rewrite bool_decide_eq_true_2 by (by eapply text_type). cbn [assert_ mbind res_bind]. destruct (sdsempty_ok junk) as (s0 & -> & H0). cbn [mbind res_bind].
  pose proof (init_wf junk s0 [] H0 ltac:(constructor) ltac:(done)) as Hw0. set (r0 := rioInitWithBuffer s0) in *.
  assert (contents s0 = []) as E0 by (by apply contents_repr). pose proof (buffer_reliable junk) as Hrel.
  destruct (rdbWriteRaw_saves (HB := buffer_io junk) (HD := buffer_device junk) [0]) as [_ H1]; [by repeat constructor|done|].
  destruct (H1 r0 Hw0) as (r1 & k & E1 & Hw1 & Hk); [cbn; rewrite E0; done|]. change (rdbSaveType (Some r0) RDB_TYPE_STRING) with (rdbWriteRaw (HB := buffer_io junk) (Some r0) [0]). rewrite E1. cbn [mbind res_bind].
  destruct Hk as [[_ Hn]|(-> & Ew1 & _)]; [done|]. cbn [written buffer_device] in Ew1. cbn in Ew1. rewrite E0 in Ew1. cbn [assert_ negb mbind res_bind]. change (zlen [0]) with 1. cbn [Z.eqb negb assert_ mbind res_bind].
  destruct (rdbSaveStringObject_saves (HB := buffer_io junk) (HD := buffer_device junk) junk htab0 comp o s Ho Hb Hz) as (e & Hc & _ & H2). pose proof (coded_size e s Hc ltac:(lia)) as Hsz. pose proof (zlen_nonneg e).
  destruct (H2 r1 Hw1) as (r2 & k & E2 & Hw2 & Hk); [cbn; rewrite Ew1; cbn; change (zlen [0]) with 1; lia|].
  unfold payload_io in *. rewrite E2. cbn [mbind res_bind]. destruct Hk as [[_ Hn]|(-> & Ew2 & _)]; [done|]. cbn in Ew2. rewrite Ew1 in Ew2.
  destruct (coded_bytes e s Hc ltac:(lia) Hb) as [Hbe Hpos].
  rewrite (proj2 (Z.eqb_neq (zlen e) 0)) by lia. cbn [negb assert_ mbind res_bind]. destruct Hw2 as ((c & Hr & Hbc & _ & Hzc) & _). rewrite (contents_repr _ _ Hr) in Ew2. cbn in Ew2. subst c.
  change [Z.land RDB_VERSION 255; Z.land (Z.shiftr RDB_VERSION 8) 255] with [8; 0].
  destruct (sdscatlen_ok junk (Rio.ptr (io r2)) (0 :: e) [8; 0] [] Hr) as (s3 & E3 & Hr3); [rewrite zlen_cons; change (zlen [8; 0]) with 2; lia|]. change (zlen [8; 0]) with 2 in E3. rewrite app_nil_r in E3. rewrite E3. cbn [mbind res_bind].
  rewrite (rd_text s3 _ Hr3). cbn [mbind res_bind]. rewrite Crc.crc64_eq by (constructor; [by vm_compute|apply list.Forall_app; split; [done|by repeat constructor]]). cbn [mbind res_bind].
  set (crc := Crc.crc64_bits 0 _). destruct (sdscatlen_ok junk s3 (0 :: e ++ [8; 0]) (le_bytes 8 crc) [] Hr3) as (p & Ep & Hp).
  { rewrite zlen_le_bytes, zlen_cons, zlen_app. change (zlen [8; 0]) with 2. lia. }
  rewrite app_nil_r, zlen_le_bytes in Ep. change (Z.of_nat 8) with 8 in Ep. rewrite Ep. exists p, e. split_and!; done.
Qed.

(** C26: RESTORE of a DUMP gives the value back: the payload that [createDumpPayload]
    makes of a string object passes the version and checksum tests, and the object
    loaded from it has the same text. *)
Theorem dump_restore_roundtrip junk htab0 comp private o s : obj_text o s -> Forall (in_u 8) s -> zlen s < 2 ^ 31 - 32 ->
  exists p m, createDumpPayload junk htab0 comp o = Ok p /\ restore_object junk private p = Ok (Some m) /\ made_text m s.
Proof.
  intros Ho Hb Hz. destruct (createDumpPayload_ok junk htab0 comp o s Ho Hb Hz) as (p & e & E & Hc & Hbe & Hp). exists p. rewrite E. unfold restore_object. rewrite (rd_text p _ Hp). cbn [mbind res_bind].
  set (crc := Crc.crc64_bits 0 _) in *. pose proof (coded_size e s Hc ltac:(lia)) as Hsz. pose proof (zlen_nonneg e).
  assert (HF : Forall (in_u 8) ((0 :: e ++ [8; 0]) ++ le_bytes 8 crc)) by (rewrite list.Forall_app; split; [constructor; [by vm_compute|apply list.Forall_app; split; [done|by repeat constructor]]|apply le_bytes_range]).
  assert (verifyDumpPayload ((0 :: e ++ [8; 0]) ++ le_bytes 8 crc) = Ok true) as ->.
  { replace ((0 :: e ++ [8; 0]) ++ le_bytes 8 crc) with ((0 :: e) ++ [8; 0] ++ le_bytes 8 crc) in * by (by rewrite app_assoc). rewrite verifyDumpPayload_ok by (done || apply zlen_le_bytes).
    f_equal. cbn [andb]. apply Z.eqb_eq. rewrite app_assoc. apply list.Forall_app in HF as [HF1 HF2]. apply list.Forall_app in HF2 as [HF2 HF3]. by apply crc_appended; [apply list.Forall_app|..]. }
  cbn [mbind res_bind negb]. assert (Hlen : zlen ((0 :: e ++ [8; 0]) ++ le_bytes 8 crc) < 2 ^ 61) by (rewrite zlen_app, zlen_cons, zlen_app, zlen_le_bytes; change (zlen [8; 0]) with 2; lia).
  pose proof (init_wf junk p _ Hp HF Hlen) as Hw. set (r := rioInitWithBuffer p) in *.
  assert (Hu : unread (RioDevice := buffer_device junk) (io r) = [0] ++ e ++ ([8; 0] ++ le_bytes 8 crc)) by (cbn; rewrite (contents_repr _ _ Hp), zdrop_0 by done; cbn; by rewrite <- app_assoc).
  unfold rdbLoadObjectType, rdbLoadType. destruct (rioRead_app (HB := buffer_io junk) (HD := buffer_device junk) r [0] _ 1 Hw Hu eq_refl) as (r1 & E1 & H1). unfold payload_io. rewrite E1. cbn [mbind res_bind]. rewrite peek_0. cbn [mbind res_bind].
  change (0 =? -1) with false. change (rdbIsObjectType 0) with true. cbn [negb mbind res_bind]. change (0 =? -1) with false. change (0 =? RDB_TYPE_STRING) with true. cbv iota.
  unfold rdbLoadStringValue, rdbLoadEncodedStringObject, payload_io. destruct H1 as (Hw1 & Hu1 & _).
  destruct (rdbGenericLoad_ok (HB := buffer_io junk) (HD := buffer_device junk) junk RDB_LOAD_ENC e s r1 _ Hc Hb ltac:(lia) Hw1 Hu1) as (r2 & l & n & -> & _ & Hok). cbn [mbind res_bind].
  destruct Hok as (m & -> & Hm). destruct m as [v|o1]; cbn [try_made mbind res_bind]; [by eexists|]. destruct Hm as [Hrc Ho1].
  destruct (tryObjectEncoding_ok junk private o1 s Ho1 ltac:(lia)) as (en & -> & Hen). cbn [mbind res_bind]. eexists. split; [done|]. split; [done|]. destruct en as [o2|o2|v]; cbn; [split; [lia|tauto]|tauto|tauto].
Qed.
(** ** Concrete runs *)

Definition zero_junk (_ : Z) : Z := 0.
Definition demo_string : list Z := str "abcabcabcabcabcabcabcabcabcabcabcabcabcabcabcabc".
Definition demo_object : robj := mk_robj OBJ_STRING OBJ_ENCODING_RAW (PSds (mk_sds 1 48 48 (demo_string ++ [0]))) 1.

Lemma demo_text : obj_text demo_object demo_string /\ Forall (in_u 8) demo_string /\ zlen demo_string < 2 ^ 31 - 32.
Proof.
  assert (Forall (in_u 8) demo_string) as HF by (apply (bool_decide_unpack _); vm_compute; exact I).
  split; [|split; [exact HF|by vm_compute]]. eapply text_sds; [done|done|done|]. constructor; [right; vm_compute; intuition discriminate|done|]. exists []. split; [done|vm_compute; discriminate].
Qed.

Definition empty_sds : sds := mk_sds 1 0 0 [0].
Lemma empty_sds_repr : repr empty_sds [].
Proof. constructor; [right; vm_compute; intuition discriminate|done|]. exists []. split; [done|vm_compute; discriminate]. Qed.

Lemma rdb_string_roundtrip_witness :
  obj_text demo_object demo_string /\ zlen demo_string < 2 ^ 31 - 32 /\ rio_wf (HB := buffer_io zero_junk) (HD := buffer_device zero_junk) (rioInitWithBuffer empty_sds) /\
  exists (e : list Z) r' n, rdbSaveStringObject (HB := buffer_io zero_junk) zero_junk zero_junk true (Some (rioInitWithBuffer empty_sds)) demo_object = Ok (Some r', n) /\
    (n = -1 /\ ~ reliable (HB := buffer_io zero_junk) \/ n = zlen e).
Proof.
  assert (Hw : rio_wf (HB := buffer_io zero_junk) (HD := buffer_device zero_junk) (rioInitWithBuffer empty_sds)) by (apply (init_wf zero_junk empty_sds [] empty_sds_repr); [constructor|vm_compute; reflexivity]).
  split; [apply demo_text|]. split; [apply demo_text|]. split; [exact Hw|].
  destruct (rdb_string_roundtrip (D1 := buffer_device zero_junk) (D2 := buffer_device zero_junk) zero_junk zero_junk true demo_object demo_string (rioInitWithBuffer empty_sds) (proj1 demo_text) (proj1 (proj2 demo_text)) (proj2 (proj2 demo_text)) Hw)
    as (e & r' & n & E & _ & Hn & _); [vm_compute; reflexivity|]. exists e, r', n. split; [exact E|]. destruct Hn as [Hn|[Hn _]]; [left; exact Hn|right; exact Hn].
Defined.

Lemma dump_restore_roundtrip_witness : (obj_text demo_object demo_string /\ Forall (in_u 8) demo_string /\ zlen demo_string < 2 ^ 31 - 32) /\
  exists p m, createDumpPayload zero_junk zero_junk true demo_object = Ok p /\ restore_object zero_junk false p = Ok (Some m) /\ made_text m demo_string.
Proof. split; [exact demo_text|]. exact (dump_restore_roundtrip zero_junk zero_junk true false demo_object demo_string (proj1 demo_text) (proj1 (proj2 demo_text)) (proj2 (proj2 demo_text))). Defined.

(** The payload of the string 7 and the same with another value. *)
Definition demo_payload (v : Z) : list Z := [0; 192] ++ [v] ++ [8; 0; 205; 224; 164; 29; 42; 178; 68; 170].

Lemma dump_corruption_detected_witness :
  verifyDumpPayload (demo_payload 7) = Ok true /\ verifyDumpPayload (demo_payload 8) = Ok false.
Proof.
  assert (H : verifyDumpPayload (demo_payload 7) = Ok true) by (vm_compute; reflexivity). split; [exact H|].
  apply (dump_corruption_detected [0; 192] [7] [8] [8; 0; 205; 224; 164; 29; 42; 178; 68; 170]); [apply (bool_decide_unpack _); vm_compute; exact I|apply (bool_decide_unpack _); vm_compute; exact I|reflexivity|vm_compute; discriminate|discriminate|exact H].
Defined.

(** The length announced for a compressed string is not checked against what the
    decompressor produced: a text of five bytes with a compressed part of one byte is
    loaded with four bytes of uninitialised memory in it; and an empty compressed part
    makes the decompressor read behind its buffer. *)
Theorem rdb_lzf_payload_not_checked junk :
  (exists r', rdbGenericLoadStringObject (HB := buffer_io junk) junk (rioInitWithBuffer (mk_sds 1 5 5 [195; 2; 5; 0; 65; 0])) RDB_LOAD_PLAIN
    = Ok (r', LPlain [65; junk 1; junk 2; junk 3; junk 4], Some 5)) /\
  rdbGenericLoadStringObject (HB := buffer_io junk) junk (rioInitWithBuffer (mk_sds 1 3 3 [195; 0; 5; 0])) RDB_LOAD_PLAIN = Fault OutOfBounds.
Proof. split; [eexists|]; vm_compute; reflexivity. Qed.

End RdbOps.
