(* ===== verification/Bitops.v ===== *)
(** * Bit arrays in strings: src/redis-stable/src/bitops.c, the functions on memory

    A string is an array of bits, the most significant bit of the first byte first. The
    functions work on the bytes of a buffer, read through [unsigned char *] pointers and,
    in the fast paths, as little endian words; [addr] is the address of the buffer, on
    which the alignment loops depend. A shift by 64 is undefined in C and is a fault here.
    [BitopsOps] has the theorems, [BitCmd] the commands. *)
From S2P Require Import Prelude.

Module Bitops.

(** A byte, and words of 4 and 8 bytes, read at offset [i]. *)
Definition peek8 (p : list Z) (i : Z) : res Z := x ← peek p i; Ok (u8 x).
Definition load32 (p : list Z) (i : Z) : res Z := x ← rd p i 4; Ok (le_val (map u8 x)).
Definition load64 (p : list Z) (i : Z) : res Z := x ← rd p i 8; Ok (le_val (map u8 x)).
Definition store64 (p : list Z) (i w : Z) : res (list Z) := wr p i (le_bytes 8 w).
Definition UINT64_MAX : Z := 2 ^ 64 - 1.
Definition INT64_MAX : Z := 2 ^ 63 - 1.
(** [(uint64_t)x << n] *)
Definition shl64 (x n : Z) : res Z := if n <? 64 then Ok (u64 (Z.shiftl x n)) else Fault UndefinedShift.

(** ** redisPopcount *)

Definition bitsinbyte : list Z :=
  [0; 1; 1; 2; 1; 2; 2; 3; 1; 2; 2; 3; 2; 3; 3; 4; 1; 2; 2; 3; 2; 3; 3; 4; 2; 3; 3; 4; 3; 4; 4; 5;
   1; 2; 2; 3; 2; 3; 3; 4; 2; 3; 3; 4; 3; 4; 4; 5; 2; 3; 3; 4; 3; 4; 4; 5; 3; 4; 4; 5; 4; 5; 5; 6;
   1; 2; 2; 3; 2; 3; 3; 4; 2; 3; 3; 4; 3; 4; 4; 5; 2; 3; 3; 4; 3; 4; 4; 5; 3; 4; 4; 5; 4; 5; 5; 6;
   2; 3; 3; 4; 3; 4; 4; 5; 3; 4; 4; 5; 4; 5; 5; 6; 3; 4; 4; 5; 4; 5; 5; 6; 4; 5; 5; 6; 5; 6; 6; 7;
   1; 2; 2; 3; 2; 3; 3; 4; 2; 3; 3; 4; 3; 4; 4; 5; 2; 3; 3; 4; 3; 4; 4; 5; 3; 4; 4; 5; 4; 5; 5; 6;
   2; 3; 3; 4; 3; 4; 4; 5; 3; 4; 4; 5; 4; 5; 5; 6; 3; 4; 4; 5; 4; 5; 5; 6; 4; 5; 5; 6; 5; 6; 6; 7;
   2; 3; 3; 4; 3; 4; 4; 5; 3; 4; 4; 5; 4; 5; 5; 6; 3; 4; 4; 5; 4; 5; 5; 6; 4; 5; 5; 6; 5; 6; 6; 7;
   3; 4; 4; 5; 4; 5; 5; 6; 4; 5; 5; 6; 5; 6; 6; 7; 4; 5; 5; 6; 5; 6; 6; 7; 5; 6; 6; 7; 6; 7; 7; 8].

Section Popcount.
Context (addr : Z) (p : list Z).

(** Bytes up to the first one aligned to a word. *)
Fixpoint popcount_head (fuel : nat) (i count bits : Z) : res (Z * Z * Z) :=
  if negb (Z.land (u64 (addr + i)) 3 =? 0) && negb (count =? 0) then
    match fuel with
    | O => Fault OutOfFuel
    | S fuel => b ← peek8 p i; n ← peek bitsinbyte b; popcount_head fuel (i + 1) (count - 1) (u64 (bits + n))
    end
  else Ok (i, count, bits).

(** The two steps every word goes through, and the third one. *)
Definition fold_pairs (aux : Z) : Z :=
  let aux := u32 (aux - Z.land (Z.shiftr aux 1) 0x55555555) in
  u32 (Z.land aux 0x33333333 + Z.land (Z.shiftr aux 2) 0x33333333).
Definition fold_nibbles (aux : Z) : Z := Z.land (u32 (aux + Z.shiftr aux 4)) 0x0F0F0F0F.

Definition popcount_block (i : Z) : res Z :=
  aux1 ← load32 p i; aux2 ← load32 p (i + 4); aux3 ← load32 p (i + 8); aux4 ← load32 p (i + 12);
  aux5 ← load32 p (i + 16); aux6 ← load32 p (i + 20); aux7 ← load32 p (i + 24);
  let sum := u32 (u32 (u32 (u32 (u32 (u32 (fold_nibbles (fold_pairs aux1) + fold_nibbles (fold_pairs aux2)) + fold_nibbles (fold_pairs aux3))
    + fold_nibbles (fold_pairs aux4)) + fold_nibbles (fold_pairs aux5)) + fold_nibbles (fold_pairs aux6)) + fold_nibbles (fold_pairs aux7)) in
  Ok (Z.shiftr (u32 (sum * 0x01010101)) 24).

Fixpoint popcount_blocks (fuel : nat) (i count bits : Z) : res (Z * Z * Z) :=
  if 28 <=? count then
    match fuel with
    | O => Fault OutOfFuel
    | S fuel => n ← popcount_block i; popcount_blocks fuel (i + 28) (count - 28) (u64 (bits + n))
    end
  else Ok (i, count, bits).

Fixpoint popcount_tail (fuel : nat) (i count bits : Z) : res Z :=
  if count =? 0 then Ok bits else
  match fuel with
  | O => Fault OutOfFuel
  | S fuel => b ← peek8 p i; n ← peek bitsinbyte b; popcount_tail fuel (i + 1) (count - 1) (u64 (bits + n))
  end.

(** The bits of the [count] bytes from [start]. *)
Definition redisPopcount (start count : Z) : res Z :=
  let fuel := Z.to_nat count in
  '(i, count, bits) ← popcount_head fuel start count 0;
  '(i, count, bits) ← popcount_blocks fuel i count bits;
  popcount_tail fuel i count bits.
End Popcount.

(** ** redisBitpos *)

Section Bitpos.
Context (addr : Z) (p : list Z) (bit : Z).

(** Offset, bytes left, position, and whether a byte worth a look was found. *)
Fixpoint bitpos_head (fuel : nat) (i count pos : Z) : res (Z * Z * Z * bool) :=
  let skipval := if negb (bit =? 0) then 0 else 255 in
  if negb (Z.land (u64 (addr + i)) 7 =? 0) && negb (count =? 0) then
    match fuel with
    | O => Fault OutOfFuel
    | S fuel => c ← peek8 p i; if negb (c =? skipval) then Ok (i, count, pos, true) else bitpos_head fuel (i + 1) (count - 1) (i64 (pos + 8))
    end
  else Ok (i, count, pos, false).

Fixpoint bitpos_words (fuel : nat) (i count pos : Z) : res (Z * Z * Z) :=
  let skipval := if negb (bit =? 0) then 0 else UINT64_MAX in
  if 8 <=? count then
    match fuel with
    | O => Fault OutOfFuel
    | S fuel => l ← load64 p i; if negb (l =? skipval) then Ok (i, count, pos) else bitpos_words fuel (i + 8) (count - 8) (i64 (pos + 64))
    end
  else Ok (i, count, pos).

(** Up to eight bytes as a big endian word, padded with zeros. *)
Fixpoint bitpos_load (n : nat) (i count word : Z) : res Z :=
  match n with
  | O => Ok word
  | S n =>
    let word := u64 (Z.shiftl word 8) in
    if negb (count =? 0) then c ← peek8 p i; bitpos_load n (i + 1) (count - 1) (Z.lor word c) else bitpos_load n i count word
  end.

(** [while(one)]; the end of the loop is a panic. *)
Fixpoint bitpos_scan (fuel : nat) (one word pos : Z) : res Z :=
  if one =? 0 then Fault AssertFailed else
  match fuel with
  | O => Fault OutOfFuel
  | S fuel =>
    if Z.b2z (negb (Z.land one word =? 0)) =? bit then Ok pos else bitpos_scan fuel (Z.shiftr one 1) word (i64 (pos + 1))
  end.

Definition redisBitpos (start count : Z) : res Z :=
  let fuel := Z.to_nat count in
  '(i, count, pos, found) ← bitpos_head fuel start count 0;
  '(i, count, pos) ← (if found : bool then Ok (i, count, pos) else bitpos_words fuel i count pos);
  word ← bitpos_load 8 i count 0;
  if (bit =? 1) && (word =? 0) then Ok (-1) else
  bitpos_scan 64 (u64 (Z.lnot (Z.shiftr UINT64_MAX 1))) word pos.
End Bitpos.

(** ** Integers of 1 to 64 bits *)

(** The iterations [j], [j+1], ..., [n] of them. *)
Fixpoint set_field_loop (n : nat) (p : list Z) (offset j bits value : Z) : res (list Z) :=
  match n with
  | O => Ok p
  | S n =>
    let bitval := Z.b2z (negb (Z.land value (Z.shiftl 1 (bits - 1 - j)) =? 0)) in
    let byte := Z.shiftr offset 3 in
    let bit := 7 - Z.land offset 0x7 in
    byteval ← peek8 p byte;
    let byteval := Z.land byteval (Z.lnot (Z.shiftl 1 bit)) in
    let byteval := Z.lor byteval (Z.shiftl bitval bit) in
    p ← poke p byte (Z.land byteval 0xff);
    set_field_loop n p (u64 (offset + 1)) (j + 1) bits value
  end.
Definition setUnsignedBitfield (p : list Z) (offset bits value : Z) : res (list Z) := set_field_loop (Z.to_nat bits) p offset 0 bits value.
Definition setSignedBitfield (p : list Z) (offset bits value : Z) : res (list Z) := let uv := u64 value in setUnsignedBitfield p offset bits uv.

Fixpoint get_field_loop (n : nat) (p : list Z) (offset value : Z) : res Z :=
  match n with
  | O => Ok value
  | S n =>
    let byte := Z.shiftr offset 3 in
    let bit := 7 - Z.land offset 0x7 in
    byteval ← peek8 p byte;
    let bitval := Z.land (Z.shiftr byteval bit) 1 in
    get_field_loop n p (u64 (offset + 1)) (Z.lor (u64 (Z.shiftl value 1)) bitval)
  end.
Definition getUnsignedBitfield (p : list Z) (offset bits : Z) : res Z := get_field_loop (Z.to_nat bits) p offset 0.
Definition getSignedBitfield (p : list Z) (offset bits : Z) : res Z :=
  u ← getUnsignedBitfield p offset bits;
  let value := i64 u in
  if negb (Z.land (u64 value) (Z.shiftl 1 (bits - 1)) =? 0)
  then mask ← shl64 UINT64_MAX bits; Ok (i64 (Z.lor (u64 value) mask))
  else Ok value.

(** The answer of the overflow tests, and what they leave in [*limit]. *)
Inductive bfoverflow := BFOVERFLOW_WRAP | BFOVERFLOW_SAT | BFOVERFLOW_FAIL.
#[global] Instance bfoverflow_eq_dec : EqDecision bfoverflow.
Proof. solve_decision. Defined.

Definition checkUnsignedBitfieldOverflow (value incr bits : Z) (owtype : bfoverflow) : res (Z * option Z) :=
  let max := if bits =? 64 then UINT64_MAX else u64 (Z.shiftl 1 bits - 1) in
  let maxincr := i64 (max - value) in
  let minincr := i64 (- value) in
  let handle_wrap := mask ← shl64 UINT64_MAX bits; let res := u64 (value + incr) in Ok (1, Some (Z.land res (u64 (Z.lnot mask)))) in
  if (max <? value) || (0 <? incr) && (maxincr <? incr) then
    match owtype with BFOVERFLOW_WRAP => handle_wrap | BFOVERFLOW_SAT => Ok (1, Some max) | BFOVERFLOW_FAIL => Ok (1, None) end
  else if (incr <? 0) && (incr <? minincr) then
    match owtype with BFOVERFLOW_WRAP => handle_wrap | BFOVERFLOW_SAT => Ok (-1, Some 0) | BFOVERFLOW_FAIL => Ok (-1, None) end
  else Ok (0, None).

Definition checkSignedBitfieldOverflow (value incr bits : Z) (owtype : bfoverflow) : res (Z * option Z) :=
  let max := if bits =? 64 then INT64_MAX else i64 (Z.shiftl 1 (bits - 1) - 1) in
  let min := i64 (- max - 1) in
  let maxincr := i64 (max - value) in
  let minincr := i64 (min - value) in
  let handle_wrap :=
    mask ← shl64 UINT64_MAX bits;
    let msb := Z.shiftl 1 (bits - 1) in
    let c := u64 (u64 value + u64 incr) in
    let c := if negb (Z.land c msb =? 0) then Z.lor c mask else Z.land c (u64 (Z.lnot mask)) in
    Ok (1, Some (i64 c)) in
  if (max <? value) || negb (bits =? 64) && (maxincr <? incr) || (0 <=? value) && (0 <? incr) && (maxincr <? incr) then
    match owtype with BFOVERFLOW_WRAP => handle_wrap | BFOVERFLOW_SAT => Ok (1, Some max) | BFOVERFLOW_FAIL => Ok (1, None) end
  else if (value <? min) || negb (bits =? 64) && (incr <? minincr) || (value <? 0) && (incr <? 0) && (incr <? minincr) then
    match owtype with BFOVERFLOW_WRAP => handle_wrap | BFOVERFLOW_SAT => Ok (-1, Some min) | BFOVERFLOW_FAIL => Ok (-1, None) end
  else Ok (0, None).

(** ** The kernel of BITOP *)

Inductive bitop := BITOP_AND | BITOP_OR | BITOP_XOR | BITOP_NOT.
#[global] Instance bitop_eq_dec : EqDecision bitop.
Proof. solve_decision. Defined.

(** [x &= y], [x |= y], [x ^= y]; NOT has no second operand. *)
Definition apply_op (op : bitop) (x y : Z) : Z :=
  match op with BITOP_AND => Z.land x y | BITOP_OR => Z.lor x y | BITOP_XOR => Z.lxor x y | BITOP_NOT => x end.

(** [lres[k] op= lp[i][k]] and [lres[k] = ~lres[k]] at byte [off]. *)
Definition word_op (op : bitop) (src res : list Z) (off : Z) : Prelude.res (list Z) :=
  w ← load64 res off; v ← load64 src off; store64 res off (apply_op op w v).
Definition word_not (res : list Z) (off : Z) : Prelude.res (list Z) := w ← load64 res off; store64 res off (u64 (Z.lnot w)).

(** One key's part of a block of four words; the keys after the first. *)
Definition block_key (op : bitop) (src res : list Z) (j : Z) : Prelude.res (list Z) :=
  res ← word_op op src res j; res ← word_op op src res (j + 8); res ← word_op op src res (j + 16); word_op op src res (j + 24).
Fixpoint block_keys (op : bitop) (srcs : list (list Z * Z)) (res : list Z) (j : Z) : Prelude.res (list Z) :=
  match srcs with [] => Ok res | (src, _) :: srcs => res ← block_key op src res j; block_keys op srcs res j end.
Definition block_not (res : list Z) (j : Z) : Prelude.res (list Z) :=
  res ← word_not res j; res ← word_not res (j + 8); res ← word_not res (j + 16); word_not res (j + 24).

Fixpoint bitop_fast (fuel : nat) (op : bitop) (rest : list (list Z * Z)) (res : list Z) (j minlen : Z) : Prelude.res (list Z * Z) :=
  if 32 <=? minlen then
    match fuel with
    | O => Fault OutOfFuel
    | S fuel =>
      res ← (if bool_decide (op = BITOP_NOT) then block_not res j else block_keys op rest res j);
      bitop_fast fuel op rest res (j + 32) (minlen - 32)
    end
  else Ok (res, j).

(** One output byte: [byte] is zero past the end of a source. *)
Definition source_byte (s : list Z * Z) (j : Z) : Prelude.res Z := if s.2 <=? j then Ok 0 else peek8 s.1 j.
Fixpoint bitop_byte (op : bitop) (rest : list (list Z * Z)) (j output : Z) : Prelude.res Z :=
  match rest with [] => Ok output | s :: rest => byte ← source_byte s j; bitop_byte op rest j (apply_op op output byte) end.

Fixpoint bitop_slow (fuel : nat) (op : bitop) (first : list Z * Z) (rest : list (list Z * Z)) (res : list Z) (j maxlen : Z) : Prelude.res (list Z) :=
  if j <? maxlen then
    match fuel with
    | O => Fault OutOfFuel
    | S fuel =>
      output ← source_byte first j;
      let output := if bool_decide (op = BITOP_NOT) then u8 (Z.lnot output) else output in
      output ← bitop_byte op rest j output;
      res ← poke res j output;
      bitop_slow fuel op first rest res (j + 1) maxlen
    end
  else Ok res.

(** The sources are the strings with their lengths; [res] is the buffer for the result,
    which starts as a copy of the first source. *)
Definition bitop_compute (op : bitop) (first : list Z * Z) (rest : list (list Z * Z)) (res : list Z) (minlen maxlen : Z) : Prelude.res (list Z) :=
  let numkeys := zlen rest + 1 in
  '(res, j) ← (if (32 <=? minlen) && (numkeys <=? 16) then
                 x ← rd first.1 0 minlen;
                 res ← wr res 0 (map u8 x);
                 bitop_fast (Z.to_nat minlen) op rest res 0 minlen
               else Ok (res, 0));
  bitop_slow (Z.to_nat maxlen) op first rest res j maxlen.

End Bitops.
