(* ===== verification/BitopsOps.v ===== *)
(** * Bit arrays in strings: what the functions of bitops.c compute

    A string is read as the list of its bits ([bits_of]). Counting, searching, fields of
    1 to 64 bits and the bitwise combination of strings are specified on that list, and
    the optimised routines (word at a time, depending on the alignment of the buffer) are
    shown to compute it. *)
From S2P Require Import Prelude Bitops.

Module BitopsOps.
Import Bitops.

(** ** Strings as lists of bits *)

Definition byte_bits (b : Z) : list bool := map (fun i => Z.testbit b (7 - i)) [0; 1; 2; 3; 4; 5; 6; 7].
Definition bits_of (t : list Z) : list bool := flat_map byte_bits t.

(** How many bits are set. *)
Fixpoint ones (l : list bool) : Z := match l with [] => 0 | b :: l => Z.b2z b + ones l end.

(** The first position of the bit [b]. *)
Fixpoint find_bit (b : bool) (l : list bool) : option Z :=
  match l with [] => None | x :: l => if Bool.eqb x b then Some 0 else i ← find_bit b l; Some (i + 1) end.

(** A list of bits as a number, most significant bit first, and back. *)
Fixpoint be_val (l : list bool) (acc : Z) : Z := match l with [] => acc | b :: l => be_val l (2 * acc + Z.b2z b) end.
Fixpoint field_bits (n : nat) (v : Z) : list bool := match n with O => [] | S n => Z.testbit v (Z.of_nat n) :: field_bits n v end.

Lemma bits_of_app a b : bits_of (a ++ b) = bits_of a ++ bits_of b.
Proof. apply flat_map_app. Qed.
Lemma length_bits_of t : length (bits_of t) = (8 * length t)%nat.
Proof. induction t as [|x t IH]; [done|]. change (bits_of (x :: t)) with (byte_bits x ++ bits_of t). rewrite length_app, IH. cbn. lia. Qed.
Lemma zlen_bits_of t : zlen (bits_of t) = 8 * zlen t.
Proof. unfold zlen. rewrite length_bits_of. lia. Qed.
Lemma ones_app a b : ones (a ++ b) = ones a + ones b.
Proof. induction a as [|x a IH]; cbn; [done|]. rewrite IH. lia. Qed.
Lemma ones_range l : 0 <= ones l <= zlen l.
Proof. induction l as [|x l IH]; cbn [ones]; [done|]. rewrite zlen_cons. destruct x; cbn [Z.b2z]; lia. Qed.
Lemma find_bit_app b l k : find_bit b (l ++ k) = match find_bit b l with Some i => Some i | None => i ← find_bit b k; Some (i + zlen l) end.
Proof.
  induction l as [|x l IH]; cbn [find_bit app]; [destruct (find_bit b k); cbn; [rewrite Z.add_0_r|]; done|]. destruct (Bool.eqb x b); [done|]. rewrite IH.
  destruct (find_bit b l); [done|]. destruct (find_bit b k); [|done]. cbn. f_equal. rewrite zlen_cons. lia.
Qed.

(** A byte read as [unsigned char] has the same bits. *)
Lemma byte_bits_u8 x : byte_bits (u8 x) = byte_bits x.
Proof. unfold byte_bits, uwrap. cbn [map]. by rewrite !Z.mod_pow2_bits_low by lia. Qed.
Lemma bits_of_u8 t : bits_of (map u8 t) = bits_of t.
Proof. induction t as [|x t IH]; [done|]. cbn [map]. change (bits_of (?x :: ?t)) with (byte_bits x ++ bits_of t). by rewrite byte_bits_u8, IH. Qed.

Lemma peek8_app a x c i : i = zlen a -> peek8 (a ++ x :: c) i = Ok (u8 x).
Proof. intros ->. unfold peek8. by rewrite peek_app. Qed.

Lemma bitsinbyte_ok x : peek bitsinbyte (u8 x) = Ok (ones (byte_bits x)).
Proof.
  rewrite <- byte_bits_u8. pose proof (uwrap_range 8 x ltac:(lia)) as Hb. revert Hb. generalize (u8 x). intros b Hb.
  pose proof (forallb_bytes (fun b => match peek bitsinbyte b with Ok n => n =? ones (byte_bits b) | Fault _ => false end) ltac:(vm_compute; reflexivity) b Hb) as H.
  cbn beta in H. destruct (peek bitsinbyte b); [|done]. f_equal. lia.
Qed.

(** ** Counting *)

(** Masks that keep whole fields work byte by byte. *)
Lemma byte_word_bits b w i : in_u 8 b -> 0 <= i -> Z.testbit (b + 256 * w) i = if i <? 8 then Z.testbit b i else Z.testbit w (i - 8).
Proof.
  intros Hb Hi. change 256 with (2 ^ 8). rewrite Z.add_comm, Z.mul_comm, <- lor_mul_add by (unfold in_u in Hb; lia). rewrite Z.lor_spec, <- Z.shiftl_mul_pow2 by lia. destruct (Z.ltb_spec i 8).
  - by rewrite Z.shiftl_spec_low.
  - rewrite Z.shiftl_spec by done. by rewrite (bits_above b 8 i), orb_false_r.
Qed.

Lemma mask_bytes b w s k m : in_u 8 b -> 0 <= s <= 8 -> in_u (8 - s) k -> Z.land (Z.shiftr (b + 256 * w) s) (k + 256 * m) = Z.land (Z.shiftr b s) k + 256 * Z.land (Z.shiftr w s) m.
Proof.
  intros Hb Hs Hk. assert (in_u 8 k) as Hk8. { unfold in_u in *. assert (2 ^ (8 - s) <= 2 ^ 8) by (apply Z.pow_le_mono_r; lia). lia. }
  assert (in_u 8 (Z.land (Z.shiftr b s) k)) as Hl.
  { unfold in_u in *. split; [apply Z.land_nonneg; lia|]. destruct (Z.eq_dec (Z.land (Z.shiftr b s) k) 0) as [->|]; [done|]. apply Z.log2_lt_pow2; [assert (0 <= Z.land (Z.shiftr b s) k) by (apply Z.land_nonneg; lia); lia|].
    eapply Z.le_lt_trans; [apply Z.log2_land; [apply Z.shiftr_nonneg; lia|lia]|]. eapply Z.le_lt_trans; [apply Z.le_min_r|]. destruct (Z.eq_dec k 0) as [->|]; [cbn; lia|]. apply Z.log2_lt_pow2; lia. }
  apply Z.bits_inj'. intros i Hi. rewrite (byte_word_bits _ _ i Hl Hi), Z.land_spec, Z.shiftr_spec, !byte_word_bits by (done || lia). destruct (Z.ltb_spec i 8).
  - rewrite Z.land_spec, Z.shiftr_spec by done. destruct (Z.ltb_spec (i + s) 8); [done|]. rewrite (bits_above k (8 - s) i), !andb_false_r by (done || lia). done.
  - rewrite (proj2 (Z.ltb_ge _ _)), Z.land_spec, Z.shiftr_spec by lia. f_equal. f_equal. lia.
Qed.

Definition word4 (f : Z -> Z) (b0 b1 b2 b3 : Z) : Z := f b0 + 256 * (f b1 + 256 * (f b2 + 256 * f b3)).

Lemma mask_word4 f k s b0 b1 b2 b3 : (forall b, in_u 8 b -> in_u 8 (f b)) -> 0 <= s <= 8 -> in_u (8 - s) k -> in_u 8 b0 -> in_u 8 b1 -> in_u 8 b2 -> in_u 8 b3 ->
  Z.land (Z.shiftr (word4 f b0 b1 b2 b3) s) (word4 (fun _ => k) 0 0 0 0) = word4 (fun b => Z.land (Z.shiftr (f b) s) k) b0 b1 b2 b3.
Proof. intros Hf Hs Hk H0 H1 H2 H3. unfold word4. rewrite !mask_bytes by auto. done. Qed.

Ltac all_bytes b H e := pose proof (forallb_bytes e ltac:(vm_compute; reflexivity) b H).

Definition pair_byte (b : Z) : Z := b - Z.land (Z.shiftr b 1) 0x55.
Definition quad_byte (b : Z) : Z := Z.land (Z.shiftr (pair_byte b) 0) 0x33 + Z.land (Z.shiftr (pair_byte b) 2) 0x33.

Lemma pair_byte_range b : in_u 8 b -> in_u 8 (pair_byte b) /\ 0 <= pair_byte b <= b.
Proof. intros H. all_bytes b H (fun b => (0 <=? pair_byte b) && (pair_byte b <=? b)). unfold in_u in *. cbn beta in *. lia. Qed.
Lemma quad_byte_range b : in_u 8 b -> in_u 8 (quad_byte b) /\ quad_byte b mod 16 + quad_byte b / 16 = ones (byte_bits b) /\ quad_byte b mod 16 <= 4 /\ quad_byte b / 16 <= 4.
Proof.
  intros H. all_bytes b H (fun b => (0 <=? quad_byte b) && (quad_byte b <? 256) && (quad_byte b mod 16 + quad_byte b / 16 =? ones (byte_bits b)) && (quad_byte b mod 16 <=? 4) && (quad_byte b / 16 <=? 4)).
  unfold in_u in *. cbn beta in *. lia.
Qed.

Lemma word4_range f b0 b1 b2 b3 : in_u 8 (f b0) -> in_u 8 (f b1) -> in_u 8 (f b2) -> in_u 8 (f b3) -> in_u 32 (word4 f b0 b1 b2 b3).
Proof. unfold in_u, word4. lia. Qed.

Lemma fold_pairs_bytes b0 b1 b2 b3 : in_u 8 b0 -> in_u 8 b1 -> in_u 8 b2 -> in_u 8 b3 -> fold_pairs (word4 (fun b => b) b0 b1 b2 b3) = word4 quad_byte b0 b1 b2 b3.
Proof.
  intros H0 H1 H2 H3. unfold fold_pairs. change 0x55555555 with (word4 (fun _ => 0x55) 0 0 0 0). rewrite (mask_word4 (fun b => b)) by (done || lia).
  replace (word4 (fun b => b) b0 b1 b2 b3 - _) with (word4 pair_byte b0 b1 b2 b3) by (unfold word4, pair_byte; lia).
  cbv zeta. rewrite (uwrap_id 32 (word4 pair_byte b0 b1 b2 b3)) by (apply word4_range; by apply pair_byte_range). change 0x33333333 with (word4 (fun _ => 0x33) 0 0 0 0).
  rewrite <- (Z.shiftr_0_r (word4 pair_byte b0 b1 b2 b3)) at 1. assert (forall b, in_u 8 b -> in_u 8 (pair_byte b)) as Hp by (intros; by apply pair_byte_range).
  rewrite !(mask_word4 pair_byte) by (done || lia).
  replace (word4 _ b0 b1 b2 b3 + _) with (word4 quad_byte b0 b1 b2 b3) by (unfold word4, quad_byte; lia). apply uwrap_id, word4_range; by apply quad_byte_range.
Qed.

Lemma land_15 x : Z.land (Z.shiftr x 0) 0x0F = x mod 16.
Proof. rewrite Z.shiftr_0_r. change 0x0F with (2 ^ 4 - 1). by rewrite land_mask. Qed.

(** Four bytes with nibbles of at most 4: the nibbles of each are added up. *)
Lemma fold_nibbles_bytes q0 q1 q2 q3 : Forall (fun q => in_u 8 q /\ q mod 16 <= 4 /\ q / 16 <= 4) [q0; q1; q2; q3] ->
  fold_nibbles (word4 (fun q => q) q0 q1 q2 q3) = word4 (fun q => q mod 16 + q / 16) q0 q1 q2 q3.
Proof.
  intros HF. apply list.Forall_cons_1 in HF as [(R0 & A0 & B0) HF]. apply list.Forall_cons_1 in HF as [(R1 & A1 & B1) HF]. apply list.Forall_cons_1 in HF as [(R2 & A2 & B2) HF]. apply list.Forall_cons_1 in HF as [(R3 & A3 & B3) _].
  unfold fold_nibbles, in_u in *. rewrite Z.shiftr_div_pow2 by lia. change (2 ^ 4) with 16.
  set (s := fun (q next : Z) => q mod 16 + q / 16 + 16 * (q / 16 + next mod 16)).
  assert (word4 (fun q => q) q0 q1 q2 q3 + word4 (fun q => q) q0 q1 q2 q3 / 16 = s q0 q1 + 256 * (s q1 q2 + 256 * (s q2 q3 + 256 * s q3 0))) as ->.
  { unfold word4, s. clear s. pose proof (Z_div_mod_eq_full q0 16). pose proof (Z_div_mod_eq_full q1 16). pose proof (Z_div_mod_eq_full q2 16). pose proof (Z_div_mod_eq_full q3 16).
    assert ((q0 + 256 * (q1 + 256 * (q2 + 256 * q3))) / 16 = q0 / 16 + 16 * (q1 + 256 * (q2 + 256 * q3))) as -> by (symmetry; apply (Z.div_unique _ 16 _ (q0 mod 16)); [left; apply Z.mod_pos_bound; lia|lia]). rewrite (Z.mod_0_l 16) by lia. lia. }
  assert (in_u 8 (s q0 q1) /\ in_u 8 (s q1 q2) /\ in_u 8 (s q2 q3) /\ in_u 8 (s q3 0)) as (S0 & S1 & S2 & S3) by (unfold in_u, s; clear s; pose proof (Z.mod_pos_bound q1 16); pose proof (Z.mod_pos_bound q2 16); pose proof (Z.mod_pos_bound q3 16); pose proof (Z.mod_pos_bound q0 16); pose proof (Z.div_pos q0 16); pose proof (Z.div_pos q1 16); pose proof (Z.div_pos q2 16); pose proof (Z.div_pos q3 16); rewrite (Z.mod_0_l 16) by lia; lia).
  rewrite (uwrap_id 32) by (unfold in_u in *; lia).
  rewrite <- (Z.shiftr_0_r (s q0 q1 + _)). change 0x0F0F0F0F with (15 + 256 * (15 + 256 * (15 + 256 * 15))). rewrite !(mask_bytes _ _ 0) by (done || lia). rewrite !land_15.
  assert (forall q n, 0 <= q -> q mod 16 <= 4 -> q / 16 <= 4 -> s q n mod 16 = q mod 16 + q / 16) as Hs.
  { intros q n Hq H1 H2. unfold s. clear - Hq H1 H2. rewrite (Z.mul_comm 16), Z_mod_plus_full. apply Z.mod_small. pose proof (Z.mod_pos_bound q 16). pose proof (Z.div_pos q 16). lia. }
  rewrite !Hs by lia. done.
Qed.

Lemma fold_bytes b0 b1 b2 b3 : in_u 8 b0 -> in_u 8 b1 -> in_u 8 b2 -> in_u 8 b3 -> fold_nibbles (fold_pairs (word4 (fun b => b) b0 b1 b2 b3)) = word4 (fun b => ones (byte_bits b)) b0 b1 b2 b3.
Proof.
  intros H0 H1 H2 H3. rewrite fold_pairs_bytes by done. destruct (quad_byte_range b0 H0) as (? & E0 & ?), (quad_byte_range b1 H1) as (? & E1 & ?), (quad_byte_range b2 H2) as (? & E2 & ?), (quad_byte_range b3 H3) as (? & E3 & ?).
  change (word4 quad_byte b0 b1 b2 b3) with (word4 (fun q => q) (quad_byte b0) (quad_byte b1) (quad_byte b2) (quad_byte b3)). rewrite fold_nibbles_bytes by (do 4 (constructor; [tauto|]); constructor). unfold word4. by rewrite E0, E1, E2, E3.
Qed.

Lemma len4 (w : list Z) : zlen w = 4 -> exists b0 b1 b2 b3, w = [b0; b1; b2; b3].
Proof. destruct w as [|b0 [|b1 [|b2 [|b3 [|? ?]]]]]; unfold zlen; cbn; try lia. eauto. Qed.

(** The bits of each byte column of a word. *)
Lemma load32_folded p a w c i : p = a ++ w ++ c -> i = zlen a -> zlen w = 4 -> exists n0 n1 n2 n3,
  load32 p i = Ok (le_val (map u8 w)) /\ fold_nibbles (fold_pairs (le_val (map u8 w))) = n0 + 256 * (n1 + 256 * (n2 + 256 * n3)) /\
  0 <= n0 <= 8 /\ 0 <= n1 <= 8 /\ 0 <= n2 <= 8 /\ 0 <= n3 <= 8 /\ ones (bits_of w) = n0 + n1 + n2 + n3.
Proof.
  intros -> -> Hw. unfold load32. rewrite rd_app by done. cbn [mbind res_bind]. destruct (len4 w Hw) as (b0 & b1 & b2 & b3 & ->). cbn [map].
  assert (le_val [u8 b0; u8 b1; u8 b2; u8 b3] = word4 (fun b => b) (u8 b0) (u8 b1) (u8 b2) (u8 b3)) as -> by (cbn [le_val]; unfold word4; lia).
  rewrite fold_bytes by (apply uwrap_range; lia). unfold word4. rewrite !byte_bits_u8. exists (ones (byte_bits b0)), (ones (byte_bits b1)), (ones (byte_bits b2)), (ones (byte_bits b3)).
  assert (forall b, 0 <= ones (byte_bits b) <= 8) as Hr by (intros b; pose proof (ones_range (byte_bits b)) as H; by change (zlen (byte_bits b)) with 8 in H).
  split_and!; [done..|apply Hr|apply Hr|apply Hr|apply Hr|apply Hr|apply Hr|apply Hr|apply Hr|]. unfold bits_of, flat_map. rewrite !ones_app. cbn [ones]. lia.
Qed.

(** The multiplication adds the columns up in the top byte. *)
Lemma column_sum x c0 c1 c2 c3 n : x = c0 + 256 * (c1 + 256 * (c2 + 256 * c3)) -> n = c0 + c1 + c2 + c3 -> 0 <= c0 <= 56 -> 0 <= c1 <= 56 -> 0 <= c2 <= 56 -> 0 <= c3 <= 56 ->
  Z.shiftr (u32 (x * 0x01010101)) 24 = n.
Proof.
  intros -> -> H0 H1 H2 H3. rewrite Z.shiftr_div_pow2 by lia. unfold uwrap.
  replace (_ * 0x01010101) with (c0 + 256 * (c0 + c1) + 256 ^ 2 * (c0 + c1 + c2) + 256 ^ 3 * (c0 + c1 + c2 + c3) + (c1 + c2 + c3 + 256 * (c2 + c3) + 256 ^ 2 * c3) * 2 ^ 32) by lia.
  rewrite Z_mod_plus_full, Z.mod_small by lia. symmetry. apply (Z.div_unique _ _ _ (c0 + 256 * (c0 + c1) + 256 ^ 2 * (c0 + c1 + c2))); lia.
Qed.

Lemma popcount_block_ok a s c i : i = zlen a -> zlen s = 28 -> popcount_block (a ++ s ++ c) i = Ok (ones (bits_of s)).
Proof.
  intros -> Hs. destruct (list_split_at 4 s) as (w1 & s1 & -> & L1); [lia|]. rewrite zlen_app in Hs. destruct (list_split_at 4 s1) as (w2 & s2 & -> & L2); [lia|]. rewrite zlen_app in Hs. destruct (list_split_at 4 s2) as (w3 & s3 & -> & L3); [lia|].
  rewrite zlen_app in Hs. destruct (list_split_at 4 s3) as (w4 & s4 & -> & L4); [lia|]. rewrite zlen_app in Hs. destruct (list_split_at 4 s4) as (w5 & s5 & -> & L5); [lia|]. rewrite zlen_app in Hs. destruct (list_split_at 4 s5) as (w6 & w7 & -> & L6); [lia|]. rewrite zlen_app in Hs.
  unfold popcount_block. set (p := a ++ _).
  destruct (load32_folded p a w1 (w2 ++ w3 ++ w4 ++ w5 ++ w6 ++ w7 ++ c) (zlen a)) as (m10 & m11 & m12 & m13 & -> & F1 & ? & ? & ? & ? & O1); [unfold p; by rewrite <- !app_assoc|done|done|].
  destruct (load32_folded p (a ++ w1) w2 (w3 ++ w4 ++ w5 ++ w6 ++ w7 ++ c) (zlen a + 4)) as (m20 & m21 & m22 & m23 & -> & F2 & ? & ? & ? & ? & O2); [unfold p; by rewrite <- !app_assoc|rewrite zlen_app; lia|done|].
  destruct (load32_folded p (a ++ w1 ++ w2) w3 (w4 ++ w5 ++ w6 ++ w7 ++ c) (zlen a + 8)) as (m30 & m31 & m32 & m33 & -> & F3 & ? & ? & ? & ? & O3); [unfold p; by rewrite <- !app_assoc|rewrite !zlen_app; lia|done|].
  destruct (load32_folded p (a ++ w1 ++ w2 ++ w3) w4 (w5 ++ w6 ++ w7 ++ c) (zlen a + 12)) as (m40 & m41 & m42 & m43 & -> & F4 & ? & ? & ? & ? & O4); [unfold p; by rewrite <- !app_assoc|rewrite !zlen_app; lia|done|].
  destruct (load32_folded p (a ++ w1 ++ w2 ++ w3 ++ w4) w5 (w6 ++ w7 ++ c) (zlen a + 16)) as (m50 & m51 & m52 & m53 & -> & F5 & ? & ? & ? & ? & O5); [unfold p; by rewrite <- !app_assoc|rewrite !zlen_app; lia|done|].
  destruct (load32_folded p (a ++ w1 ++ w2 ++ w3 ++ w4 ++ w5) w6 (w7 ++ c) (zlen a + 20)) as (m60 & m61 & m62 & m63 & -> & F6 & ? & ? & ? & ? & O6); [unfold p; by rewrite <- !app_assoc|rewrite !zlen_app; lia|done|].
  destruct (load32_folded p (a ++ w1 ++ w2 ++ w3 ++ w4 ++ w5 ++ w6) w7 c (zlen a + 24)) as (m70 & m71 & m72 & m73 & -> & F7 & ? & ? & ? & ? & O7); [unfold p; by rewrite <- !app_assoc|rewrite !zlen_app; lia|lia|].
  cbn [mbind res_bind]. rewrite F1, F2, F3, F4, F5, F6, F7. rewrite !bits_of_app, !ones_app, O1, O2, O3, O4, O5, O6, O7. f_equal. clearbody p. clear F1 F2 F3 F4 F5 F6 F7 O1 O2 O3 O4 O5 O6 O7 Hs L1 L2 L3 L4 L5 L6.
  repeat match goal with |- context [uwrap 32 (?x + ?y)] => lazymatch x with context [uwrap] => fail | _ => rewrite (uwrap_id 32 (x + y)) by (unfold in_u; lia) end end.
  apply (column_sum _ (m10 + m20 + m30 + m40 + m50 + m60 + m70) (m11 + m21 + m31 + m41 + m51 + m61 + m71) (m12 + m22 + m32 + m42 + m52 + m62 + m72) (m13 + m23 + m33 + m43 + m53 + m63 + m73)); lia.
Qed.

Lemma count_byte a x c i : i = zlen a -> (b ← peek8 (a ++ x :: c) i; peek bitsinbyte b) = Ok (ones (byte_bits x)).
Proof. intros E. rewrite peek8_app by done. cbn [mbind res_bind]. apply bitsinbyte_ok. Qed.

Lemma Ok_triple (x y z x' y' z' : Z) : x = x' -> y = y' -> z = z' -> Ok (x, y, z) = Ok (x', y', z').
Proof. by intros -> -> ->. Qed.

Lemma popcount_head_ok addr s c : forall fuel a bits, (length s <= fuel)%nat -> 0 <= bits -> bits + 8 * zlen s < 2 ^ 64 ->
  exists s1 s2, s = s1 ++ s2 /\ popcount_head addr (a ++ s ++ c) fuel (zlen a) (zlen s) bits = Ok (zlen a + zlen s1, zlen s2, bits + ones (bits_of s1)).
Proof.
  induction s as [|x s IH]; intros fuel a bits Hf Hb Hl.
  - exists [], []. split; [done|]. destruct fuel; cbn [popcount_head]; change (zlen (@nil Z)) with 0; rewrite andb_false_r; by rewrite !Z.add_0_r.
  - destruct fuel as [|fuel]; [cbn in Hf; lia|]. cbn [popcount_head]. pose proof (zlen_nonneg s). rewrite zlen_cons in *. destruct (_ && _).
    + change (a ++ (x :: s) ++ c) with (a ++ x :: s ++ c). rewrite peek8_app by done. cbn [mbind res_bind]. rewrite bitsinbyte_ok. cbn [mbind res_bind]. pose proof (ones_range (byte_bits x)) as Hx. change (zlen (byte_bits x)) with 8 in Hx.
      rewrite uwrap_id by (unfold in_u; lia). destruct (IH fuel (a ++ [x]) (bits + ones (byte_bits x))) as (s1 & s2 & -> & E); [cbn in Hf; lia|lia|lia|]. exists (x :: s1), s2. split; [done|].
      rewrite <- app_assoc in E. cbn [app] in E. rewrite zlen_app in E. change (zlen [x]) with 1 in E. replace (zlen (s1 ++ s2) + 1 - 1) with (zlen (s1 ++ s2)) by lia. rewrite E. rewrite zlen_cons. change (bits_of (x :: s1)) with (byte_bits x ++ bits_of s1). rewrite ones_app. apply Ok_triple; lia.
    + exists [], (x :: s). split; [done|]. change (zlen (@nil Z)) with 0. rewrite zlen_cons. by rewrite !Z.add_0_r.
Qed.

Lemma popcount_blocks_ok c : forall fuel s a bits, zlen s <= 28 * Z.of_nat fuel + 27 -> 0 <= bits -> bits + 8 * zlen s < 2 ^ 64 ->
  exists s1 s2, s = s1 ++ s2 /\ popcount_blocks (a ++ s ++ c) fuel (zlen a) (zlen s) bits = Ok (zlen a + zlen s1, zlen s2, bits + ones (bits_of s1)).
Proof.
  induction fuel as [|fuel IH]; intros s a bits Hf Hb Hl; cbn [popcount_blocks]; (destruct (Z.leb_spec 28 (zlen s)) as [Hge|]; [|exists [], s; split; [done|]; by rewrite !Z.add_0_r]); [lia|].
  destruct (list_split_at 28 s) as (b & r & -> & Hbl); [lia|]. rewrite zlen_app in *. rewrite <- (app_assoc b). rewrite popcount_block_ok by done. cbn [mbind res_bind]. pose proof (ones_range (bits_of b)) as Hx. rewrite zlen_bits_of in Hx. pose proof (zlen_nonneg r).
  rewrite uwrap_id by (unfold in_u; lia). destruct (IH r (a ++ b) (bits + ones (bits_of b))) as (s1 & s2 & -> & E); [lia..|]. exists (b ++ s1), s2. split; [by rewrite app_assoc|]. rewrite <- app_assoc, zlen_app in E. replace (zlen a + 28) with (zlen a + zlen b) by lia. replace (zlen b + zlen (s1 ++ s2) - 28) with (zlen (s1 ++ s2)) by lia. rewrite E.
  rewrite bits_of_app, ones_app, zlen_app. apply Ok_triple; lia.
Qed.

Lemma popcount_tail_ok s c : forall fuel a bits, (length s <= fuel)%nat -> 0 <= bits -> bits + 8 * zlen s < 2 ^ 64 -> popcount_tail (a ++ s ++ c) fuel (zlen a) (zlen s) bits = Ok (bits + ones (bits_of s)).
Proof.
  induction s as [|x s IH]; intros fuel a bits Hf Hb Hl.
  - destruct fuel; cbn [popcount_tail]; change (zlen (@nil Z)) with 0; by rewrite Z.add_0_r.
  - destruct fuel as [|fuel]; [cbn in Hf; lia|]. cbn [popcount_tail]. pose proof (zlen_nonneg s). rewrite zlen_cons in *. rewrite (proj2 (Z.eqb_neq _ _)) by lia.
    change (a ++ (x :: s) ++ c) with (a ++ x :: s ++ c). rewrite peek8_app by done. cbn [mbind res_bind]. rewrite bitsinbyte_ok. cbn [mbind res_bind]. pose proof (ones_range (byte_bits x)) as Hx. change (zlen (byte_bits x)) with 8 in Hx.
    rewrite uwrap_id by (unfold in_u; lia). specialize (IH fuel (a ++ [x]) (bits + ones (byte_bits x))). rewrite <- app_assoc in IH. cbn [app] in IH. rewrite zlen_app in IH. change (zlen [x]) with 1 in IH.
    replace (zlen s + 1 - 1) with (zlen s) by lia. rewrite IH by (cbn in Hf; lia). change (bits_of (x :: s)) with (byte_bits x ++ bits_of s). rewrite ones_app. f_equal. lia.
Qed.

Lemma redisPopcount_ok addr a s c i n : i = zlen a -> n = zlen s -> zlen s < 2 ^ 60 -> redisPopcount addr (a ++ s ++ c) i n = Ok (ones (bits_of s)).
Proof.
  intros -> -> Hs. unfold redisPopcount. set (fuel := Z.to_nat (zlen s)). assert (length s = fuel) as Hf by (unfold fuel, zlen; lia).
  destruct (popcount_head_ok addr s c fuel a 0) as (s1 & s2 & -> & E); [lia..|]. rewrite E. cbn [mbind res_bind]. clear E. pose proof (ones_range (bits_of s1)) as H1. rewrite zlen_bits_of in H1. rewrite length_app in Hf. rewrite zlen_app in Hs. pose proof (zlen_nonneg s2).
  destruct (popcount_blocks_ok c fuel s2 (a ++ s1) (0 + ones (bits_of s1))) as (s3 & s4 & -> & E); [unfold zlen in *; lia|lia|lia|]. rewrite <- (app_assoc a), zlen_app, (app_assoc s1) in E. rewrite E. cbn [mbind res_bind]. clear E.
  rewrite zlen_app in *. pose proof (ones_range (bits_of s3)) as H3. rewrite zlen_bits_of in H3. rewrite length_app in Hf. pose proof (popcount_tail_ok s4 c fuel (a ++ s1 ++ s3) (0 + ones (bits_of s1) + ones (bits_of s3))) as E. rewrite !zlen_app in E. rewrite <- !app_assoc in E |- *.
  replace (zlen a + zlen s1 + zlen s3) with (zlen a + (zlen s1 + zlen s3)) by lia. rewrite E by (lia || (unfold zlen in *; lia)). rewrite !bits_of_app, !ones_app. f_equal. lia.
Qed.

(** ** Lists of bits as numbers *)

Lemma be_val_acc l : forall acc, be_val l acc = acc * 2 ^ zlen l + be_val l 0 /\ 0 <= be_val l 0 < 2 ^ zlen l.
Proof.
  induction l as [|b l IH]; intros acc; cbn [be_val]; [change (zlen (@nil bool)) with 0; lia|]. destruct (IH (2 * acc + Z.b2z b)) as [E1 _]. destruct (IH (2 * 0 + Z.b2z b)) as [E2 H]. rewrite E1, E2. rewrite zlen_cons, Z.pow_add_r by (lia || apply zlen_nonneg).
  change (2 ^ 1) with 2. destruct b; cbn [Z.b2z] in *; split; nia.
Qed.

Lemma be_val_bit l : forall acc k b, l !! k = Some b -> Z.testbit (be_val l acc) (zlen l - 1 - Z.of_nat k) = b.
Proof.
  induction l as [|x l IH]; intros acc k b E; [done|]. cbn [be_val]. rewrite zlen_cons. destruct k as [|k]; cbn in E.
  - injection E as ->. destruct (be_val_acc l (2 * acc + Z.b2z b)) as [-> H]. replace (zlen l + 1 - 1 - Z.of_nat 0) with (zlen l) by lia. pose proof (zlen_nonneg l).
    rewrite <- lor_mul_add by lia. rewrite Z.lor_spec, (bits_above (be_val l 0) (zlen l)), orb_false_r by (done || lia). rewrite <- Z.shiftl_mul_pow2, Z.shiftl_spec, Z.sub_diag by lia. destruct b; cbn [Z.b2z]; [by rewrite Z.testbit_odd_0|]. rewrite Z.add_0_r. by rewrite Z.testbit_even_0.
  - replace (zlen l + 1 - 1 - Z.of_nat (S k)) with (zlen l - 1 - Z.of_nat k) by lia. by apply IH.
Qed.

Lemma be_val_app l k acc : be_val (l ++ k) acc = be_val k (be_val l acc).
Proof. revert acc. induction l as [|x l IH]; intros acc; [done|]. apply IH. Qed.

Lemma be_val_byte x acc : be_val (byte_bits x) acc = 256 * acc + u8 x.
Proof.
  destruct (be_val_acc (byte_bits x) acc) as [-> _]. change (2 ^ zlen (byte_bits x)) with 256. rewrite <- byte_bits_u8. pose proof (uwrap_range 8 x ltac:(lia)) as Hb. revert Hb. generalize (u8 x). intros b Hb.
  pose proof (forallb_bytes (fun b => be_val (byte_bits b) 0 =? b) ltac:(vm_compute; reflexivity) b Hb) as H. cbn beta in H. lia.
Qed.

(** ** Searching *)

Definition skip_byte (b : bool) : Z := if b then 0 else 255.

Lemma find_in_byte b x : (u8 x =? skip_byte b) = bool_decide (find_bit b (byte_bits x) = None).
Proof.
  rewrite <- byte_bits_u8. pose proof (uwrap_range 8 x ltac:(lia)) as Hb. revert Hb. generalize (u8 x). intros c Hb.
  pose proof (forallb_bytes (fun c => Bool.eqb (c =? skip_byte b) (bool_decide (find_bit b (byte_bits c) = None))) ltac:(destruct b; vm_compute; reflexivity) c Hb) as H. by apply Bool.eqb_prop in H.
Qed.

Lemma find_bit_none_app b l k : find_bit b (l ++ k) = None <-> find_bit b l = None /\ find_bit b k = None.
Proof. rewrite find_bit_app. destruct (find_bit b l); [split; [done|by intros []]|]. destruct (find_bit b k); cbn; [split; [done|by intros []]|done]. Qed.

Lemma find_bit_cons_byte b x t : find_bit b (bits_of (x :: t)) = None <-> u8 x = skip_byte b /\ find_bit b (bits_of t) = None.
Proof. change (bits_of (x :: t)) with (byte_bits x ++ bits_of t). rewrite find_bit_none_app. pose proof (find_in_byte b x) as E. destruct (Z.eqb_spec (u8 x) (skip_byte b)); case_bool_decide; try done; split; by intros []. Qed.

Lemma bitpos_head_ok addr b s c : forall fuel a pos, (length s <= fuel)%nat -> 0 <= pos -> pos + 8 * zlen s < 2 ^ 63 ->
  exists s1 s2 found, s = s1 ++ s2 /\ bitpos_head addr (a ++ s ++ c) (Z.b2z b) fuel (zlen a) (zlen s) pos = Ok (zlen a + zlen s1, zlen s2, pos + 8 * zlen s1, found) /\
    find_bit b (bits_of s1) = None /\ (found = true -> exists x s', s2 = x :: s' /\ u8 x <> skip_byte b).
Proof.
  assert ((if negb (Z.b2z b =? 0) then 0 else 255) = skip_byte b) as Hskip by (by destruct b).
  induction s as [|x s IH]; intros fuel a pos Hf Hp Hl.
  - exists [], [], false. split; [done|]. destruct fuel; cbn [bitpos_head]; change (zlen (@nil Z)) with 0; rewrite andb_false_r; (split; [|done]); by rewrite !Z.add_0_r.
  - destruct fuel as [|fuel]; [cbn in Hf; lia|]. cbn [bitpos_head]. rewrite Hskip. pose proof (zlen_nonneg s). rewrite zlen_cons in *. destruct (_ && _).
    + change (a ++ (x :: s) ++ c) with (a ++ x :: s ++ c). rewrite peek8_app by done. cbn [mbind res_bind]. destruct (Z.eqb_spec (u8 x) (skip_byte b)) as [E|E]; cbn [negb].
      * rewrite swrap_id by (unfold in_s; lia). destruct (IH fuel (a ++ [x]) (pos + 8)) as (s1 & s2 & f & -> & E1 & E2 & E3); [cbn in Hf; lia..|]. exists (x :: s1), s2, f.
        split_and!; [done| |by apply find_bit_cons_byte|done]. rewrite <- app_assoc in E1. cbn [app] in E1. rewrite zlen_app in E1. change (zlen [x]) with 1 in E1. replace (zlen (s1 ++ s2) + 1 - 1) with (zlen (s1 ++ s2)) by lia. rewrite E1, zlen_cons. do 3 f_equal; [f_equal|]; lia.
      * exists [], (x :: s), true. split_and!; [done| |done|by eauto]. change (zlen (@nil Z)) with 0. rewrite zlen_cons. by rewrite !Z.add_0_r.
    + exists [], (x :: s), false. split_and!; [done| |done|done]. change (zlen (@nil Z)) with 0. rewrite zlen_cons. by rewrite !Z.add_0_r.
Qed.

Lemma len8 (w : list Z) : zlen w = 8 -> exists b0 b1 b2 b3 b4 b5 b6 b7, w = [b0; b1; b2; b3; b4; b5; b6; b7].
Proof. destruct w as [|b0 [|b1 [|b2 [|b3 [|b4 [|b5 [|b6 [|b7 [|? ?]]]]]]]]]; unfold zlen; cbn; try lia. eauto 10. Qed.

Lemma find_in_word (b : bool) w : zlen w = 8 -> le_val (map u8 w) = (if b then 0 else UINT64_MAX) <-> find_bit b (bits_of w) = None.
Proof.
  intros Hw. destruct (len8 w Hw) as (b0 & b1 & b2 & b3 & b4 & b5 & b6 & b7 & ->). rewrite !find_bit_cons_byte. cbn [map le_val]. assert (forall x, 0 <= u8 x < 256) as Hr by (intros x; apply (uwrap_range 8); lia).
  pose proof (Hr b0). pose proof (Hr b1). pose proof (Hr b2). pose proof (Hr b3). pose proof (Hr b4). pose proof (Hr b5). pose proof (Hr b6). pose proof (Hr b7).
  unfold UINT64_MAX. destruct b; cbn [skip_byte]; (split; [intros E; split_and!; (lia || done)|intros; lia]).
Qed.

Lemma bitpos_words_ok b c : forall fuel s a pos, zlen s <= 8 * Z.of_nat fuel + 7 -> 0 <= pos -> pos + 8 * zlen s < 2 ^ 63 ->
  exists s1 s2, s = s1 ++ s2 /\ bitpos_words (a ++ s ++ c) (Z.b2z b) fuel (zlen a) (zlen s) pos = Ok (zlen a + zlen s1, zlen s2, pos + 8 * zlen s1) /\
    find_bit b (bits_of s1) = None /\ (zlen s2 < 8 \/ find_bit b (bits_of (ztake 8 s2)) <> None).
Proof.
  assert ((if negb (Z.b2z b =? 0) then 0 else UINT64_MAX) = if b then 0 else UINT64_MAX) as Hskip by (by destruct b).
  induction fuel as [|fuel IH]; intros s a pos Hf Hp Hl; cbn [bitpos_words]; (destruct (Z.leb_spec 8 (zlen s)) as [Hge|]; [|exists [], s; split_and!; [done| |done|by left]; change (zlen (@nil Z)) with 0; by rewrite Z.mul_0_r, !Z.add_0_r]); [lia|]. rewrite Hskip.
  destruct (list_split_at 8 s) as (w & r & -> & Hw); [lia|]. rewrite zlen_app in *. unfold load64 at 1. rewrite <- (app_assoc w), rd_app by done. cbn [mbind res_bind]. pose proof (find_in_word b w Hw) as Hiff. pose proof (zlen_nonneg r).
  destruct (Z.eqb_spec (le_val (map u8 w)) (if b then 0 else UINT64_MAX)) as [E|E]; cbn [negb].
  - rewrite swrap_id by (unfold in_s; lia). destruct (IH r (a ++ w) (pos + 64)) as (s1 & s2 & -> & E1 & E2 & E3); [lia..|]. exists (w ++ s1), s2. split_and!; [by rewrite app_assoc| |rewrite bits_of_app; apply find_bit_none_app; tauto|done].
    rewrite <- app_assoc, zlen_app in E1. replace (zlen a + 8) with (zlen a + zlen w) by lia. replace (zlen w + zlen (s1 ++ s2) - 8) with (zlen (s1 ++ s2)) by lia. rewrite E1, zlen_app. apply Ok_triple; lia.
  - exists [], (w ++ r). split_and!; [done| |done|right; rewrite ztake_app by done; tauto]. change (zlen (@nil Z)) with 0. rewrite zlen_app. by rewrite Z.mul_0_r, !Z.add_0_r.
Qed.

(** The first [n] bytes, padded with zeros. *)
Definition padded (n : nat) (s : list Z) : list Z := take n (s ++ replicate n 0).

Lemma padded_S n x s : padded (S n) (x :: s) = x :: padded n s.
Proof.
  unfold padded. cbn [app take]. f_equal. rewrite replicate_S_end, app_assoc. apply take_app_le. rewrite length_app, length_replicate. lia.
Qed.
Lemma padded_nil n : padded (S n) [] = 0 :: padded n [].
Proof. done. Qed.

Lemma bitpos_load_ok c n : forall s a word, 0 <= word -> (word + 1) * 2 ^ (8 * Z.of_nat n) <= 2 ^ 64 -> bitpos_load (a ++ s ++ c) n (zlen a) (zlen s) word = Ok (be_val (bits_of (padded n s)) word).
Proof.
  induction n as [|n IH]; intros s a word H0 Hw; [done|]. cbn [bitpos_load]. replace (8 * Z.of_nat (S n)) with (8 * Z.of_nat n + 8) in Hw by lia. rewrite Z.pow_add_r in Hw by lia. change (2 ^ 8) with 256 in Hw.
  assert (0 < 2 ^ (8 * Z.of_nat n)) as Hpow by (apply Z.pow_pos_nonneg; lia). rewrite Z.shiftl_mul_pow2 by lia. change (2 ^ 8) with 256. rewrite uwrap_id by (unfold in_u; nia). destruct s as [|x s].
  - change (zlen (@nil Z)) with 0. cbn [Z.eqb negb]. rewrite padded_nil. change (bits_of (0 :: padded n [])) with (byte_bits 0 ++ bits_of (padded n [])). rewrite be_val_app, be_val_byte. specialize (IH [] a (word * 256)). change (zlen (@nil Z)) with 0 in IH. rewrite IH by nia. f_equal. f_equal. change (u8 0) with 0. lia.
  - pose proof (zlen_nonneg s). rewrite zlen_cons, (proj2 (Z.eqb_neq _ _)) by lia. cbn [negb]. change (a ++ (x :: s) ++ c) with (a ++ x :: s ++ c). rewrite peek8_app by done. cbn [mbind res_bind].
    pose proof (uwrap_range 8 x ltac:(lia)) as Hx. unfold in_u in Hx. change 256 with (2 ^ 8) at 1. rewrite lor_mul_add by lia. specialize (IH s (a ++ [x]) (word * 2 ^ 8 + u8 x)). rewrite <- app_assoc, zlen_app in IH. cbn [app] in IH. change (zlen [x]) with 1 in IH. replace (zlen s + 1 - 1) with (zlen s) by lia.
    rewrite IH by nia. rewrite padded_S. change (bits_of (x :: padded n s)) with (byte_bits x ++ bits_of (padded n s)). rewrite be_val_app, be_val_byte. f_equal. f_equal. lia.
Qed.

Lemma land_pow2 i w : 0 <= i -> (Z.land (2 ^ i) w =? 0) = negb (Z.testbit w i).
Proof.
  intros Hi. destruct (Z.testbit w i) eqn:E; cbn [negb].
  - apply Z.eqb_neq. intros H. apply (f_equal (fun z => Z.testbit z i)) in H. rewrite Z.land_spec, Z.pow2_bits_true, E, Z.bits_0 in H by done. done.
  - apply Z.eqb_eq. apply Z.bits_inj'. intros j Hj. rewrite Z.land_spec, Z.bits_0. destruct (Z.eq_dec i j) as [->|]; [by rewrite E, andb_false_r|]. by rewrite Z.pow2_bits_false.
Qed.

Lemma bitpos_scan_ok b l : forall fuel word pos i, (length l <= fuel)%nat -> (forall k x, l !! k = Some x -> Z.testbit word (zlen l - 1 - Z.of_nat k) = x) -> find_bit b l = Some i -> 0 <= pos -> pos + zlen l < 2 ^ 63 ->
  bitpos_scan (Z.b2z b) fuel (2 ^ (zlen l - 1)) word pos = Ok (pos + i).
Proof.
  induction l as [|x l IH]; intros fuel word pos i Hf Hw Hi Hp Hl; [done|]. destruct fuel as [|fuel]; [cbn in Hf; lia|]. cbn [bitpos_scan]. pose proof (zlen_nonneg l). rewrite zlen_cons in *. replace (zlen l + 1 - 1) with (zlen l) in * by lia.
  assert (0 < 2 ^ zlen l) by (apply Z.pow_pos_nonneg; lia). rewrite (proj2 (Z.eqb_neq (2 ^ zlen l) 0)), land_pow2, negb_involutive by lia. pose proof (Hw 0%nat x eq_refl) as Hx. rewrite Z.sub_0_r in Hx. rewrite Hx. cbn [find_bit] in Hi.
  assert ((Z.b2z x =? Z.b2z b) = Bool.eqb x b) as -> by (by destruct x, b). destruct (Bool.eqb x b); [injection Hi as <-; by rewrite Z.add_0_r|]. destruct (find_bit b l) as [j|] eqn:Ej; [|done]. injection Hi as <-. rewrite swrap_id by (unfold in_s; lia).
  rewrite Z.shiftr_div_pow2, <- Z.pow_sub_r by (lia || (destruct l; [done|rewrite zlen_cons; pose proof (zlen_nonneg l); lia])). rewrite (IH fuel word (pos + 1) j); [f_equal; lia|cbn in Hf; lia| |done|lia|lia].
  intros k y Ek. specialize (Hw (S k) y Ek). rewrite <- Hw. f_equal. lia.
Qed.

Lemma be_val_zero l : find_bit true l = None <-> be_val l 0 = 0.
Proof.
  induction l as [|x l IH]; [done|]. cbn [find_bit be_val]. destruct x; cbn [Bool.eqb Z.b2z].
  - split; [done|]. change (2 * 0 + 1) with 1. destruct (be_val_acc l 1) as [E H]. rewrite E. pose proof (Z.pow_pos_nonneg 2 (zlen l) ltac:(lia) (zlen_nonneg l)). lia.
  - change (2 * 0 + 0) with 0. destruct (find_bit true l); cbn; [|tauto]. split; [done|]. intros E. by apply IH in E.
Qed.

Lemma find_in_zeros b n : find_bit b (bits_of (replicate (S n) 0)) = if b then None else Some 0.
Proof. destruct b; [|done]. induction n as [|n IH]; [done|]. apply find_bit_cons_byte. done. Qed.

Lemma find_padded b s : zlen s < 8 \/ find_bit b (bits_of (ztake 8 s)) <> None ->
  find_bit b (bits_of (padded 8 s)) = match find_bit b (bits_of s) with Some k => Some k | None => if b then None else Some (8 * zlen s) end.
Proof.
  intros H. unfold padded. destruct (Z.lt_ge_cases (zlen s) 8) as [Hs|Hs].
  - rewrite take_app_ge by (unfold zlen in Hs; lia). rewrite take_replicate.
    replace (Nat.min (8 - length s) 8) with (S (7 - length s)) by (unfold zlen in Hs; lia). rewrite bits_of_app, find_bit_app, find_in_zeros, zlen_bits_of. destruct (find_bit b (bits_of s)); [done|]. destruct b; [done|]. cbn. done.
  - rewrite take_app_le by (unfold zlen in Hs; lia). destruct H as [?|H]; [lia|]. unfold ztake in H. change (Z.to_nat 8) with 8%nat in H. rewrite <- (take_drop 8 s) at 2. rewrite bits_of_app, find_bit_app. by destruct (find_bit b (bits_of (take 8 s))).
Qed.

Lemma zlen_padded n s : zlen (padded n s) = Z.of_nat n.
Proof. unfold padded, zlen. rewrite length_take, length_app, length_replicate. lia. Qed.

Lemma redisBitpos_ok addr b a s c i n : i = zlen a -> n = zlen s -> zlen s < 2 ^ 59 ->
  redisBitpos addr (a ++ s ++ c) (Z.b2z b) i n = Ok (match find_bit b (bits_of s) with Some k => k | None => if b then -1 else 8 * zlen s end).
Proof.
  intros -> -> Hs. unfold redisBitpos. set (fuel := Z.to_nat (zlen s)). assert (length s = fuel) as Hf by (unfold fuel, zlen; lia).
  destruct (bitpos_head_ok addr b s c fuel a 0) as (s1 & s2 & found & Es & E & N1 & Hfound); [lia..|]. rewrite E. cbn [mbind res_bind]. clear E. subst s. rewrite zlen_app, length_app in *. pose proof (zlen_nonneg s1). pose proof (zlen_nonneg s2).
  assert (exists s3 s4, s2 = s3 ++ s4 /\ (if found then Ok (zlen a + zlen s1, zlen s2, 0 + 8 * zlen s1) else bitpos_words (a ++ (s1 ++ s2) ++ c) (Z.b2z b) fuel (zlen a + zlen s1) (zlen s2) (0 + 8 * zlen s1)) = Ok (zlen a + zlen s1 + zlen s3, zlen s4, 8 * (zlen s1 + zlen s3)) /\
    find_bit b (bits_of s3) = None /\ (zlen s4 < 8 \/ find_bit b (bits_of (ztake 8 s4)) <> None)) as (s3 & s4 & -> & E & N3 & H4).
  { destruct found.
    - destruct (Hfound eq_refl) as (x & s' & -> & Hx). exists [], (x :: s'). split_and!; [done|change (zlen (@nil Z)) with 0; apply Ok_triple; lia|done|right]. change (ztake 8 (x :: s')) with (x :: take 7 s'). rewrite find_bit_cons_byte. tauto.
    - destruct (bitpos_words_ok b c fuel s2 (a ++ s1) (8 * zlen s1)) as (s3 & s4 & -> & E & N3 & H4); [unfold zlen in *; lia|lia|lia|]. exists s3, s4. split_and!; [done| |done|done]. rewrite zlen_app, <- (app_assoc a) in E. rewrite <- (app_assoc s1), Z.add_0_l. rewrite E. apply Ok_triple; lia. }
  rewrite E. cbn [mbind res_bind]. clear E. pose proof (bitpos_load_ok c 8 s4 (a ++ s1 ++ s3) 0 ltac:(lia) ltac:(vm_compute; done)) as E. rewrite !zlen_app, <- !app_assoc in E. rewrite <- !app_assoc, <- Z.add_assoc, E. cbn [mbind res_bind]. clear E. set (L := bits_of (padded 8 s4)).
  assert (zlen L = 64) as HL by (unfold L; by rewrite zlen_bits_of, zlen_padded). pose proof (find_padded b s4 H4) as HfL. fold L in HfL. rewrite !bits_of_app, !find_bit_app, N1, N3. rewrite zlen_app in *.
  pose proof (zlen_nonneg s3). pose proof (zlen_nonneg s4). destruct (find_bit b L) as [k|] eqn:Ek.
  - assert ((Z.b2z b =? 1) && (be_val L 0 =? 0) = false) as ->. { destruct b; [|done]. cbn. apply Z.eqb_neq. intros E0. apply be_val_zero in E0. congruence. }
    change (u64 (Z.lnot (Z.shiftr UINT64_MAX 1))) with (2 ^ (64 - 1)). rewrite <- HL. rewrite (bitpos_scan_ok b L 64 (be_val L 0) _ k); [|unfold zlen in HL; lia|intros; by apply be_val_bit|done|lia|lia].
    f_equal. destruct (find_bit b (bits_of s4)) as [j|]; cbn; [injection HfL as ->; rewrite !zlen_bits_of; lia|]. destruct b; [done|]. injection HfL as ->. lia.
  - destruct (find_bit b (bits_of s4)); [done|]. destruct b; [|done]. apply be_val_zero in Ek. rewrite Ek. done.
Qed.

(** ** Fields *)

Definition put_bit (x k : Z) (b : bool) : Z := if b then Z.setbit (u8 x) k else Z.clearbit (u8 x) k.
(** The string with bit [i] set to [b]. *)
Definition set_bit (t : list Z) (i : Z) (b : bool) : list Z := alter (fun x => put_bit x (7 - i mod 8) b) (Z.to_nat (i / 8)) t.
Fixpoint write_bits (t : list Z) (off : Z) (l : list bool) : list Z :=
  match l with [] => t | b :: l => write_bits (set_bit t off b) (off + 1) l end.

Lemma bit_index (t : list Z) i : 0 <= i < 8 * zlen t -> exists (a : list Z) x c, t = a ++ x :: c /\ zlen a = i / 8 /\ 0 <= i mod 8 < 8 /\ i = 8 * zlen a + i mod 8.
Proof.
  intros Hi. assert (0 <= i / 8 < zlen t) as Hk by (split; [apply Z.div_pos; lia|apply Z.div_lt_upper_bound; lia]). destruct (list_split_at (i / 8) t) as (a & r & -> & Ha); [lia|]. rewrite zlen_app in *. destruct r as [|x c]; [change (zlen (@nil Z)) with 0 in *; lia|].
  exists a, x, c. split_and!; [done|done|apply Z.mod_pos_bound; lia|apply Z.mod_pos_bound; lia|]. rewrite Ha. apply Z_div_mod_eq_full.
Qed.

Lemma bits_8 (P : Z -> Prop) : P 0 -> P 1 -> P 2 -> P 3 -> P 4 -> P 5 -> P 6 -> P 7 -> forall r, 0 <= r < 8 -> P r.
Proof. intros. assert (r = 0 \/ r = 1 \/ r = 2 \/ r = 3 \/ r = 4 \/ r = 5 \/ r = 6 \/ r = 7) as Hr by lia. by destruct Hr as [->|[->|[->|[->|[->|[->|[->| ->]]]]]]]. Qed.

Lemma byte_bits_put x b r : 0 <= r < 8 -> byte_bits (put_bit x (7 - r) b) = <[Z.to_nat r := b]> (byte_bits x).
Proof.
  intros Hr. rewrite <- (byte_bits_u8 x). unfold put_bit. pose proof (uwrap_range 8 x ltac:(lia)) as Hb. revert Hb. generalize (u8 x). intros y Hy. revert r Hr.
  assert (forall r, forallb (fun y => bool_decide (byte_bits (if b then Z.setbit y (7 - r) else Z.clearbit y (7 - r)) = <[Z.to_nat r := b]> (byte_bits y))) (map Z.of_nat (seq 0 256)) = true -> byte_bits (if b then Z.setbit y (7 - r) else Z.clearbit y (7 - r)) = <[Z.to_nat r := b]> (byte_bits y)) as H.
  { intros r Hall. pose proof (forallb_bytes _ Hall y Hy) as H. by apply bool_decide_eq_true in H. }
  apply bits_8; apply H; destruct b; vm_compute; reflexivity.
Qed.

Lemma set_bit_bits t i b : 0 <= i < 8 * zlen t -> bits_of (set_bit t i b) = <[Z.to_nat i := b]> (bits_of t).
Proof.
  intros Hi. destruct (bit_index t i Hi) as (a & x & c & -> & Ha & Hr & E). unfold set_bit. rewrite <- Ha. unfold zlen at 1. rewrite Nat2Z.id. rewrite <- (Nat.add_0_r (length a)), alter_app_r. cbn [alter list_alter].
  rewrite !bits_of_app. change (bits_of (?x :: c)) with (byte_bits x ++ bits_of c). rewrite byte_bits_put by done. rewrite E at 2. rewrite insert_app_r_alt by (rewrite length_bits_of; unfold zlen in *; lia). f_equal.
  replace (Z.to_nat (8 * zlen a + i mod 8) - length (bits_of a))%nat with (Z.to_nat (i mod 8)) by (rewrite length_bits_of; unfold zlen; lia). rewrite insert_app_l; [done|]. change (length (byte_bits x)) with 8%nat. lia.
Qed.

Lemma zlen_set_bit t i b : zlen (set_bit t i b) = zlen t.
Proof. unfold set_bit, zlen. by rewrite length_alter. Qed.
Lemma zlen_write_bits l : forall t off, zlen (write_bits t off l) = zlen t.
Proof. induction l as [|b l IH]; intros t off; [done|]. cbn [write_bits]. by rewrite IH, zlen_set_bit. Qed.

Lemma write_bits_bits l : forall t off, 0 <= off -> off + zlen l <= 8 * zlen t -> bits_of (write_bits t off l) = ztake off (bits_of t) ++ l ++ zdrop (off + zlen l) (bits_of t).
Proof.
  induction l as [|b l IH]; intros t off Ho Hl; cbn [write_bits].
  - change (zlen (@nil bool)) with 0. by rewrite Z.add_0_r, app_nil_l, ztake_zdrop.
  - rewrite zlen_cons in *. pose proof (zlen_nonneg l). rewrite IH by (rewrite ?zlen_set_bit; lia). rewrite set_bit_bits by lia.
    destruct (list_split_at off (bits_of t)) as (p & q & E & Hp); [rewrite zlen_bits_of; lia|]. pose proof (f_equal zlen E) as El. rewrite zlen_bits_of, zlen_app in El. destruct q as [|y q]; [change (zlen (@nil bool)) with 0 in El; lia|]. rewrite E.
    replace (Z.to_nat off) with (length p + 0)%nat by (unfold zlen in Hp; lia). rewrite insert_app_r. cbn [insert list_insert]. rewrite (ztake_app off p (y :: q)) by done.
    replace (p ++ b :: q) with ((p ++ [b]) ++ q) by (by rewrite <- app_assoc). rewrite (ztake_app (off + 1)) by (rewrite zlen_app; change (zlen [b]) with 1; lia). rewrite <- app_assoc. cbn [app]. do 2 f_equal. f_equal.
    replace (off + 1 + zlen l) with (zlen (p ++ [b]) + zlen l) by (rewrite zlen_app; change (zlen [b]) with 1; lia). replace (off + (zlen l + 1)) with (zlen (p ++ [y]) + zlen l) by (rewrite zlen_app; change (zlen [y]) with 1; lia). replace (p ++ y :: q) with ((p ++ [y]) ++ q) by (by rewrite <- app_assoc).
    unfold zdrop. pose proof (zlen_nonneg (p ++ [b])). pose proof (zlen_nonneg (p ++ [y])). rewrite !Z2Nat.inj_add by lia. unfold zlen at 1 3. rewrite !Nat2Z.id, <- !drop_drop, !drop_app_length. done.
Qed.

(** The read-modify-write of one bit. *)
Lemma rmw_bit x k (b : bool) : 0 <= k < 8 -> Z.land (Z.lor (Z.land (u8 x) (Z.lnot (Z.shiftl 1 k))) (Z.shiftl (Z.b2z b) k)) 0xff = put_bit x k b.
Proof.
  unfold put_bit. pose proof (uwrap_range 8 x ltac:(lia)) as Hb. revert Hb. generalize (u8 x). intros y Hy. revert k.
  assert (forall k, forallb (fun y => Z.land (Z.lor (Z.land y (Z.lnot (Z.shiftl 1 k))) (Z.shiftl (Z.b2z b) k)) 0xff =? (if b then Z.setbit y k else Z.clearbit y k)) (map Z.of_nat (seq 0 256)) = true -> Z.land (Z.lor (Z.land y (Z.lnot (Z.shiftl 1 k))) (Z.shiftl (Z.b2z b) k)) 0xff = if b then Z.setbit y k else Z.clearbit y k) as H.
  { intros k Hall. pose proof (forallb_bytes _ Hall y Hy) as H. by apply Z.eqb_eq in H. }
  apply bits_8; apply H; destruct b; vm_compute; reflexivity.
Qed.

Lemma offset_parts i : 0 <= i -> Z.shiftr i 3 = i / 8 /\ 7 - Z.land i 0x7 = 7 - i mod 8 /\ 0 <= i mod 8 < 8.
Proof. intros Hi. split_and!; [by rewrite Z.shiftr_div_pow2| |apply Z.mod_pos_bound; lia..]. change 0x7 with (2 ^ 3 - 1). by rewrite land_mask. Qed.

Lemma write_bit_step p i (b : bool) : 0 <= i < 8 * zlen p ->
  (byteval ← peek8 p (Z.shiftr i 3); poke p (Z.shiftr i 3) (Z.land (Z.lor (Z.land byteval (Z.lnot (Z.shiftl 1 (7 - Z.land i 0x7)))) (Z.shiftl (Z.b2z b) (7 - Z.land i 0x7))) 0xff)) = Ok (set_bit p i b).
Proof.
  intros Hi. destruct (offset_parts i) as (-> & -> & Hr); [lia|]. destruct (bit_index p i Hi) as (a & x & c & -> & Ha & _ & _). rewrite peek8_app by done. cbn [mbind res_bind]. rewrite rmw_bit, poke_app by (done || lia). f_equal.
  unfold set_bit. rewrite <- Ha. unfold zlen. rewrite Nat2Z.id, <- (Nat.add_0_r (length a)), alter_app_r. done.
Qed.

Lemma set_field_loop_ok n : forall p off j bits value, Z.of_nat n = bits - j -> 0 <= off -> off + Z.of_nat n <= 8 * zlen p -> off + Z.of_nat n < 2 ^ 64 ->
  set_field_loop n p off j bits value = Ok (write_bits p off (field_bits n value)).
Proof.
  induction n as [|n IH]; intros p off j bits value Hn Ho Hl Hp; [done|]. cbn [set_field_loop field_bits write_bits]. replace (bits - 1 - j) with (Z.of_nat n) by lia. rewrite (Z.shiftl_mul_pow2 1 (Z.of_nat n)), Z.mul_1_l, (Z.land_comm value), land_pow2, negb_involutive by lia.
  set (b := Z.testbit value (Z.of_nat n)). pose proof (write_bit_step p off b ltac:(lia)) as E. destruct (peek8 p (Z.shiftr off 3)) as [v|f]; cbn [mbind res_bind] in *; [|done]. rewrite E. cbn [mbind res_bind]. rewrite uwrap_id by (unfold in_u; lia). apply IH; rewrite ?zlen_set_bit; lia.
Qed.

Lemma zlen_field_bits n v : zlen (field_bits n v) = Z.of_nat n.
Proof. induction n as [|n IH]; [done|]. cbn [field_bits]. rewrite zlen_cons, IH. lia. Qed.

Lemma setUnsignedBitfield_ok p off bits v : 0 <= bits -> 0 <= off -> off + bits <= 8 * zlen p -> off + bits < 2 ^ 64 ->
  setUnsignedBitfield p off bits v = Ok (write_bits p off (field_bits (Z.to_nat bits) v)).
Proof. intros. unfold setUnsignedBitfield. apply set_field_loop_ok; lia. Qed.

Lemma bits_of_lookup a x c r : 0 <= r < 8 -> bits_of (a ++ x :: c) !! Z.to_nat (8 * zlen a + r) = Some (Z.testbit x (7 - r)).
Proof.
  intros Hr. rewrite bits_of_app. change (bits_of (x :: c)) with (byte_bits x ++ bits_of c). rewrite lookup_app_r by (rewrite length_bits_of; unfold zlen; lia). replace (Z.to_nat (8 * zlen a + r) - length (bits_of a))%nat with (Z.to_nat r) by (rewrite length_bits_of; unfold zlen; lia).
  rewrite lookup_app_l by (change (length (byte_bits x)) with 8%nat; lia). revert r Hr. by apply bits_8.
Qed.

Lemma read_bit x k : 0 <= k < 8 -> Z.land (Z.shiftr (u8 x) k) 1 = Z.b2z (Z.testbit x k).
Proof. intros Hk. change 1 with (2 ^ 1 - 1) at 1. rewrite land_mask by lia. change (2 ^ 1) with 2. rewrite <- Z.bit0_mod, Z.shiftr_spec by lia. unfold uwrap. by rewrite Z.mod_pow2_bits_low by lia. Qed.

Lemma get_field_loop_ok n : forall p off value, 0 <= off -> off + Z.of_nat n <= 8 * zlen p -> off + Z.of_nat n < 2 ^ 64 -> 0 <= value -> (value + 1) * 2 ^ Z.of_nat n <= 2 ^ 64 ->
  get_field_loop n p off value = Ok (be_val (ztake (Z.of_nat n) (zdrop off (bits_of p))) value).
Proof.
  induction n as [|n IH]; intros p off value Ho Hl Hp Hv Hw; [done|]. cbn [get_field_loop]. destruct (offset_parts off) as (-> & -> & Hr); [lia|]. destruct (bit_index p off ltac:(lia)) as (a & x & c & E & Ha & _ & Eo). rewrite E, peek8_app by done. rewrite <- E. cbn [mbind res_bind].
  rewrite read_bit by lia. set (b := Z.testbit x (7 - off mod 8)). pose proof (bits_of_lookup a x c (off mod 8) Hr) as Eb. fold b in Eb. rewrite <- E, <- Eo in Eb.
  rewrite Z.shiftl_mul_pow2 by lia. rewrite Nat2Z.inj_succ, Z.pow_succ_r in Hw by lia. assert (0 < 2 ^ Z.of_nat n) by (apply Z.pow_pos_nonneg; lia). rewrite (uwrap_id 64 (value * 2 ^ 1)) by (unfold in_u; nia). rewrite lor_mul_add by (destruct b; cbn; lia). rewrite uwrap_id by (unfold in_u; lia).
  rewrite IH by (destruct b; cbn [Z.b2z]; nia). f_equal. unfold ztake, zdrop. rewrite (drop_S _ b (Z.to_nat off)) by done. replace (Z.to_nat (Z.of_nat (S n))) with (S n) by lia. cbn [take be_val]. rewrite Nat2Z.id. replace (Z.to_nat (off + 1)) with (S (Z.to_nat off)) by lia. f_equal. lia.
Qed.

Lemma getUnsignedBitfield_ok p off bits : 0 <= bits <= 64 -> 0 <= off -> off + bits <= 8 * zlen p -> off + bits < 2 ^ 64 ->
  getUnsignedBitfield p off bits = Ok (be_val (ztake bits (zdrop off (bits_of p))) 0).
Proof.
  intros Hb Ho Hl Hp. unfold getUnsignedBitfield. rewrite get_field_loop_ok; [by rewrite Z2Nat.id by lia|lia..|]. rewrite Z2Nat.id by lia. assert (2 ^ bits <= 2 ^ 64) by (apply Z.pow_le_mono_r; lia). lia.
Qed.

(** The value of the bits of a number. *)
Lemma be_val_field n v : forall acc, be_val (field_bits n v) acc = acc * 2 ^ Z.of_nat n + v mod 2 ^ Z.of_nat n.
Proof.
  induction n as [|n IH]; intros acc; cbn [field_bits be_val]; [change (Z.of_nat 0) with 0; rewrite Z.mod_1_r; lia|]. rewrite IH, Nat2Z.inj_succ, Z.pow_succ_r by lia. assert (0 < 2 ^ Z.of_nat n) by (apply Z.pow_pos_nonneg; lia).
  rewrite (Z.mul_comm 2 (2 ^ Z.of_nat n)), Z.rem_mul_r by lia. rewrite <- Z.bit0_mod, <- Z.shiftr_div_pow2, Z.shiftr_spec by lia. rewrite Z.add_0_l. lia.
Qed.

Lemma shl64_mask bits : 0 <= bits <= 63 -> shl64 UINT64_MAX bits = Ok (2 ^ 64 - 2 ^ bits).
Proof.
  intros Hb. unfold shl64. rewrite (proj2 (Z.ltb_lt _ _)) by lia. f_equal. unfold uwrap, UINT64_MAX. rewrite Z.shiftl_mul_pow2 by lia. replace ((2 ^ 64 - 1) * 2 ^ bits) with (2 ^ 64 - 2 ^ bits + (2 ^ bits - 1) * 2 ^ 64) by lia.
  rewrite Z_mod_plus_full. apply Z.mod_small. assert (2 ^ bits <= 2 ^ 63) by (apply Z.pow_le_mono_r; lia). assert (0 < 2 ^ bits) by (apply Z.pow_pos_nonneg; lia). lia.
Qed.

Lemma mask_bits bits i : 0 <= bits <= 63 -> 0 <= i -> Z.testbit (2 ^ 64 - 2 ^ bits) i = (bits <=? i) && (i <? 64).
Proof.
  intros Hb Hi. replace (2 ^ 64 - 2 ^ bits) with (Z.shiftl (Z.ones (64 - bits)) bits).
  - rewrite Z.shiftl_spec by done. destruct (Z.leb_spec bits i); [|by rewrite Z.testbit_neg_r by lia]. rewrite Z.testbit_ones by lia. lia.
  - rewrite Z.shiftl_mul_pow2, Z.ones_equiv by lia. rewrite <- Z.sub_1_r, Z.mul_sub_distr_r, <- Z.pow_add_r by lia. replace (64 - bits + bits) with 64 by lia. lia.
Qed.

Lemma not_mask bits : 0 <= bits <= 63 -> u64 (Z.lnot (2 ^ 64 - 2 ^ bits)) = 2 ^ bits - 1.
Proof.
  intros Hb. unfold Z.lnot, uwrap. assert (0 < 2 ^ bits) by (apply Z.pow_pos_nonneg; lia). assert (2 ^ bits <= 2 ^ 63) by (apply Z.pow_le_mono_r; lia). symmetry. apply (Z.mod_unique _ _ (-1)); lia.
Qed.

Lemma low_part c bits : 0 <= bits <= 63 -> Z.land c (2 ^ bits - 1) = c mod 2 ^ bits.
Proof. intros. by apply land_mask; lia. Qed.

Lemma high_ones c bits : in_u 64 c -> 0 <= bits <= 63 -> Z.lor c (2 ^ 64 - 2 ^ bits) = 2 ^ 64 - 2 ^ bits + c mod 2 ^ bits.
Proof.
  intros Hc Hb. assert (0 < 2 ^ bits) by (apply Z.pow_pos_nonneg; lia). replace (2 ^ 64 - 2 ^ bits) with ((2 ^ (64 - bits) - 1) * 2 ^ bits) at 2 by (rewrite Z.mul_sub_distr_r, <- Z.pow_add_r by lia; replace (64 - bits + bits) with 64 by lia; lia).
  rewrite <- lor_mul_add by (lia || (apply Z.mod_pos_bound; lia)). replace ((2 ^ (64 - bits) - 1) * 2 ^ bits) with (2 ^ 64 - 2 ^ bits) by (rewrite Z.mul_sub_distr_r, <- Z.pow_add_r by lia; replace (64 - bits + bits) with 64 by lia; lia).
  apply Z.bits_inj'. intros i Hi. rewrite !Z.lor_spec, mask_bits by done. destruct (Z.lt_ge_cases i bits).
  - rewrite Z.mod_pow2_bits_low by lia. by rewrite orb_comm.
  - rewrite (Z.mod_pow2_bits_high c bits i) by lia. destruct (Z.ltb_spec i 64); [rewrite (proj2 (Z.leb_le bits i)) by done; by rewrite orb_true_r|]. by rewrite (bits_above c 64 i), orb_false_r, andb_false_r.
Qed.

Lemma swrap_bit c w : 0 < w -> swrap w c = if Z.testbit c (w - 1) then c mod 2 ^ w - 2 ^ w else c mod 2 ^ w.
Proof.
  intros Hw. unfold swrap. pose proof (pow2_half w Hw) as Hh. assert (0 < 2 ^ (w - 1)) by (apply Z.pow_pos_nonneg; lia). set (h := 2 ^ (w - 1)) in *. pose proof (Z.mod_pos_bound c (2 ^ w) ltac:(lia)) as Hm. pose proof (Z_div_mod_eq_full c (2 ^ w)) as Ec.
  assert (Z.testbit c (w - 1) = (h <=? c mod 2 ^ w)) as ->.
  { rewrite <- (Z.mod_pow2_bits_low c w (w - 1)) by lia. rewrite Z.testbit_eqb by lia. fold h. destruct (Z.leb_spec h (c mod 2 ^ w)).
    - replace (c mod 2 ^ w / h) with 1; [done|]. apply (Z.div_unique _ _ _ (c mod 2 ^ w - h)); lia.
    - by rewrite Z.div_small by lia. }
  destruct (Z.leb_spec h (c mod 2 ^ w)).
  - replace ((c + h) mod 2 ^ w) with (c mod 2 ^ w - h); [lia|]. apply (Z.mod_unique _ _ (c / 2 ^ w + 1)); lia.
  - replace ((c + h) mod 2 ^ w) with (c mod 2 ^ w + h); [lia|]. apply (Z.mod_unique _ _ (c / 2 ^ w)); lia.
Qed.

(** Sign extension from [bits] to 64 bits. *)
Lemma sign_extend c bits : in_u 64 c -> 1 <= bits <= 63 ->
  i64 (if negb (Z.land c (Z.shiftl 1 (bits - 1)) =? 0) then Z.lor c (2 ^ 64 - 2 ^ bits) else Z.land c (2 ^ bits - 1)) = swrap bits c.
Proof.
  intros Hc Hb. rewrite Z.shiftl_mul_pow2, Z.mul_1_l, Z.land_comm, land_pow2, negb_involutive by lia. rewrite (swrap_bit c bits) by lia. rewrite high_ones, low_part by (done || lia). pose proof (Z.mod_pos_bound c (2 ^ bits) ltac:(apply Z.pow_pos_nonneg; lia)). assert (2 ^ bits <= 2 ^ 63) by (apply Z.pow_le_mono_r; lia).
  destruct (Z.testbit c (bits - 1)); [|apply swrap_id; [lia|unfold in_s; lia]]. rewrite <- (swrap_uwrap 64) by lia. replace (u64 (2 ^ 64 - 2 ^ bits + c mod 2 ^ bits)) with (u64 (c mod 2 ^ bits - 2 ^ bits)).
  - rewrite swrap_uwrap by lia. apply swrap_id; [lia|]. unfold in_s. lia.
  - unfold uwrap. replace (2 ^ 64 - 2 ^ bits + c mod 2 ^ bits) with (c mod 2 ^ bits - 2 ^ bits + 1 * 2 ^ 64) by lia. by rewrite Z_mod_plus_full.
Qed.

Lemma pow2_63 bits : 1 <= bits <= 63 -> 2 ^ bits = 2 * 2 ^ (bits - 1) /\ 1 <= 2 ^ (bits - 1) <= 2 ^ 62.
Proof. intros Hb. split; [apply pow2_half; lia|]. pose proof (Z.pow_pos_nonneg 2 (bits - 1) ltac:(lia) ltac:(lia)). split; [lia|apply Z.pow_le_mono_r; lia]. Qed.

Lemma getSignedBitfield_ok p off bits : 1 <= bits <= 63 -> 0 <= off -> off + bits <= 8 * zlen p -> off + bits < 2 ^ 64 ->
  getSignedBitfield p off bits = Ok (swrap bits (be_val (ztake bits (zdrop off (bits_of p))) 0)).
Proof.
  intros Hb Ho Hl Hp. unfold getSignedBitfield. rewrite getUnsignedBitfield_ok by lia. cbn [mbind res_bind]. set (l := ztake bits _). assert (zlen l = bits) as Hz by (unfold l; rewrite zlen_ztake, zlen_zdrop, zlen_bits_of; lia).
  destruct (be_val_acc l 0) as [_ Hu]. rewrite Hz in Hu. set (u := be_val l 0) in *. destruct (pow2_63 bits Hb) as [E1 E2]. rewrite swrap_id by (unfold in_s; lia). rewrite uwrap_id by (unfold in_u; lia).
  rewrite <- (sign_extend u bits) by (unfold in_u; lia). rewrite shl64_mask, low_part, Z.mod_small by lia. cbn [mbind res_bind]. destruct (negb _); [done|]. by rewrite swrap_id by (unfold in_s; lia).
Qed.

Lemma field_bits_mod n v w : Z.of_nat n <= w -> field_bits n (v mod 2 ^ w) = field_bits n v.
Proof. induction n as [|n IH]; intros Hn; [done|]. cbn [field_bits]. rewrite Z.mod_pow2_bits_low, IH by lia. done. Qed.

Lemma setSignedBitfield_ok p off bits v : 0 <= bits <= 64 -> 0 <= off -> off + bits <= 8 * zlen p -> off + bits < 2 ^ 64 ->
  setSignedBitfield p off bits v = Ok (write_bits p off (field_bits (Z.to_nat bits) v)).
Proof. intros. unfold setSignedBitfield. cbv zeta. rewrite setUnsignedBitfield_ok by lia. unfold uwrap. by rewrite field_bits_mod by lia. Qed.

(** *** Overflow *)

(** What the tests answer about the exact result [x] of a field with values from [lo] to
    [hi], [wrapped] being [x] reduced to the width. With WRAP the code answers 1 below [lo]
    too, where the comment over the functions announces -1 for every underflow; only SAT
    and FAIL tell the two apart. (The callers only test for 0.) *)
Definition overflow_spec (lo hi wrapped : Z) (ow : bfoverflow) (x : Z) : Z * option Z :=
  if (lo <=? x) && (x <=? hi) then (0, None) else
  match ow with
  | BFOVERFLOW_WRAP => (1, Some wrapped)
  | BFOVERFLOW_SAT => if hi <? x then (1, Some hi) else (-1, Some lo)
  | BFOVERFLOW_FAIL => (if hi <? x then 1 else -1, None)
  end.
Definition unsigned_spec (bits : Z) (ow : bfoverflow) (x : Z) : Z * option Z := overflow_spec 0 (2 ^ bits - 1) (x mod 2 ^ bits) ow x.
Definition signed_spec (bits : Z) (ow : bfoverflow) (x : Z) : Z * option Z := overflow_spec (- 2 ^ (bits - 1)) (2 ^ (bits - 1) - 1) (swrap bits x) ow x.

Lemma mod_pow2_u64 x bits : 0 <= bits <= 64 -> u64 x mod 2 ^ bits = x mod 2 ^ bits.
Proof.
  intros Hb. unfold uwrap. replace (2 ^ 64) with (2 ^ (64 - bits) * 2 ^ bits) by (rewrite <- Z.pow_add_r by lia; f_equal; lia). assert (0 < 2 ^ bits) by (apply Z.pow_pos_nonneg; lia). assert (0 < 2 ^ (64 - bits)) by (apply Z.pow_pos_nonneg; lia).
  rewrite Z.mul_comm, Z.rem_mul_r by lia. rewrite Z.mul_comm, Z_mod_plus_full. by rewrite Z.mod_mod by lia.
Qed.

Lemma checkUnsigned_ok value incr bits ow : 1 <= bits <= 63 -> in_u 64 value -> in_s 64 incr -> incr = 0 \/ value < 2 ^ bits ->
  checkUnsignedBitfieldOverflow value incr bits ow = Ok (unsigned_spec bits ow (value + incr)).
Proof.
  intros Hb Hv Hi Hor. destruct (pow2_63 bits Hb) as [E1 E2]. unfold checkUnsignedBitfieldOverflow. rewrite (proj2 (Z.eqb_neq bits 64)) by lia. rewrite Z.shiftl_mul_pow2, Z.mul_1_l by lia. rewrite (uwrap_id 64 (2 ^ bits - 1)) by (unfold in_u; lia).
  rewrite shl64_mask by lia. cbn [mbind res_bind]. rewrite not_mask, low_part, mod_pow2_u64 by lia. unfold unsigned_spec, overflow_spec, in_u, in_s in *. destruct (Z.ltb_spec (2 ^ bits - 1) value) as [Hbig|Hsmall].
  - destruct Hor as [->|?]; [|lia]. cbn [orb]. rewrite Z.add_0_r. rewrite (proj2 (Z.leb_gt value (2 ^ bits - 1))), andb_false_r by lia. rewrite (proj2 (Z.ltb_lt _ value)) by lia. by destruct ow.
  - cbn [orb]. rewrite !swrap_id by (unfold in_s; lia). destruct (Z.leb_spec 0 (value + incr)), (Z.leb_spec (value + incr) (2 ^ bits - 1)); cbn [andb].
    + assert ((0 <? incr) && (2 ^ bits - 1 - value <? incr) = false) as -> by lia. assert ((incr <? 0) && (incr <? - value) = false) as -> by lia. done.
    + assert ((0 <? incr) && (2 ^ bits - 1 - value <? incr) = true) as -> by lia. rewrite (proj2 (Z.ltb_lt _ (value + incr))) by lia. by destruct ow.
    + assert ((0 <? incr) && (2 ^ bits - 1 - value <? incr) = false) as -> by lia. assert ((incr <? 0) && (incr <? - value) = true) as -> by lia. rewrite (proj2 (Z.ltb_ge _ (value + incr))) by lia. by destruct ow.
    + lia.
Qed.

(** The exact difference to the greatest value has to fit in 64 bits. *)
Lemma checkSigned_ok value incr bits ow : 1 <= bits <= 63 -> in_s 64 value -> in_s 64 incr -> (incr = 0 /\ 2 ^ (bits - 1) - 1 - value < 2 ^ 63) \/ in_s bits value ->
  checkSignedBitfieldOverflow value incr bits ow = Ok (signed_spec bits ow (value + incr)).
Proof.
  intros Hb Hv Hi Hor. destruct (pow2_63 bits Hb) as [E1 E2]. unfold checkSignedBitfieldOverflow. rewrite (proj2 (Z.eqb_neq bits 64)) by lia. cbn [negb andb]. rewrite (Z.shiftl_mul_pow2 1), Z.mul_1_l by lia. rewrite (swrap_id 64 (2 ^ (bits - 1) - 1)) by (unfold in_s; lia).
  rewrite (swrap_id 64 (- (2 ^ (bits - 1) - 1) - 1)) by (unfold in_s; lia). rewrite shl64_mask by lia. cbn [mbind res_bind]. rewrite not_mask by lia.
  assert (i64 (if negb (Z.land (u64 (u64 value + u64 incr)) (2 ^ (bits - 1)) =? 0) then Z.lor (u64 (u64 value + u64 incr)) (2 ^ 64 - 2 ^ bits) else Z.land (u64 (u64 value + u64 incr)) (2 ^ bits - 1)) = swrap bits (value + incr)) as ->.
  { assert (u64 (u64 value + u64 incr) = u64 (value + incr)) as -> by (unfold uwrap; by rewrite <- Zplus_mod). pose proof (sign_extend (u64 (value + incr)) bits (uwrap_range 64 _ ltac:(lia)) Hb) as E. rewrite Z.shiftl_mul_pow2, Z.mul_1_l in E by lia. rewrite E.
    unfold swrap. f_equal. rewrite <- (Zplus_mod_idemp_l (u64 _)), mod_pow2_u64, Zplus_mod_idemp_l by lia. done. }
  set (h := 2 ^ (bits - 1)) in *. unfold signed_spec, overflow_spec. fold h. unfold in_s in *. fold h in Hor. replace (- (h - 1) - 1) with (- h) by lia. change (2 ^ (64 - 1)) with (2 ^ 63) in *.
  destruct (Z.ltb_spec (h - 1) value) as [Hbig|Hsmall].
  - destruct Hor as [[-> ?]|?]; [|lia]. cbn [orb]. rewrite Z.add_0_r. rewrite (proj2 (Z.leb_gt value (h - 1))), andb_false_r by lia. rewrite (proj2 (Z.ltb_lt (h - 1) value)) by lia. by destruct ow.
  - cbn [orb]. rewrite (swrap_id 64 (h - 1 - value)) by (unfold in_s; lia). destruct (Z.leb_spec (- h) (value + incr)), (Z.leb_spec (value + incr) (h - 1)); cbn [andb].
    + rewrite (proj2 (Z.ltb_ge (h - 1 - value) incr)) by lia. rewrite andb_false_r. cbn [orb]. destruct Hor as [[-> ?]|?]; [|rewrite (swrap_id 64 (- h - value)) by (unfold in_s; lia)].
      * rewrite (swrap_id 64 (- h - value)) by (unfold in_s; lia). rewrite (proj2 (Z.ltb_ge value (- h))), (proj2 (Z.ltb_ge 0 (- h - value))) by lia. by rewrite andb_false_r.
      * rewrite (proj2 (Z.ltb_ge value (- h))), (proj2 (Z.ltb_ge incr (- h - value))) by lia. by rewrite andb_false_r.
    + rewrite (proj2 (Z.ltb_lt (h - 1 - value) incr)) by lia. cbn [orb]. rewrite (proj2 (Z.ltb_lt (h - 1) (value + incr))) by lia. by destruct ow.
    + rewrite (proj2 (Z.ltb_ge (h - 1 - value) incr)) by lia. rewrite andb_false_r. cbn [orb]. rewrite (proj2 (Z.ltb_ge (h - 1) (value + incr))) by lia.
      destruct (Z.ltb_spec value (- h)); [by destruct ow|]. cbn [orb]. rewrite (swrap_id 64 (- h - value)) by (unfold in_s; lia). rewrite (proj2 (Z.ltb_lt incr (- h - value))) by lia. by destruct ow.
    + lia.
Qed.

(** ** Combining strings *)

(** Byte [j] of a string that goes on with zeros. *)
Definition byte_at (t : list Z) (j : nat) : Z := match t !! j with Some x => u8 x | None => 0 end.
Definition combine_from (op : bitop) (rest : list (list Z)) (j : nat) (o : Z) : Z := fold_left (fun o t => apply_op op o (byte_at t j)) rest o.
Definition op_byte (op : bitop) (first : list Z) (rest : list (list Z)) (j : nat) : Z :=
  combine_from op rest j (if bool_decide (op = BITOP_NOT) then u8 (Z.lnot (byte_at first j)) else byte_at first j).
Definition bitop_text (op : bitop) (first : list Z) (rest : list (list Z)) (n : nat) : list Z := map (op_byte op first rest) (seq 0 n).

(** A source: the text, what follows it in its allocation, and its length. *)
Definition source (s : list Z * Z) (t : list Z) : Prop := exists e, s = (t ++ e, zlen t).

Lemma byte_at_range t j : in_u 8 (byte_at t j).
Proof. unfold byte_at. case_match; [apply uwrap_range; lia|done]. Qed.

Lemma source_byte_ok s t j : source s t -> 0 <= j -> source_byte s j = Ok (byte_at t (Z.to_nat j)).
Proof.
  intros [e ->] Hj. unfold source_byte, byte_at. cbn [fst snd]. destruct (Z.leb_spec (zlen t) j).
  - rewrite lookup_ge_None_2; [done|]. unfold zlen in *. lia.
  - unfold peek8, peek. rewrite (proj2 (Z.leb_le 0 j)) by done. destruct (lookup_lt_is_Some_2 t (Z.to_nat j)) as [x Ex]; [unfold zlen in *; lia|]. by rewrite (lookup_app_l_Some _ _ _ _ Ex), Ex.
Qed.

Lemma bitop_byte_ok op rest ts j : Forall2 source rest ts -> 0 <= j -> forall o, bitop_byte op rest j o = Ok (combine_from op ts (Z.to_nat j) o).
Proof.
  intros HF Hj. induction HF as [|s t rest ts Hs HF IH]; intros o; [done|]. cbn [bitop_byte]. rewrite (source_byte_ok s t j Hs Hj). cbn [mbind res_bind]. apply IH.
Qed.

Lemma bitop_slow_ok op s t rest ts post : source s t -> Forall2 source rest ts -> forall fuel old a, (length old <= fuel)%nat ->
  bitop_slow fuel op s rest (a ++ old ++ post) (zlen a) (zlen a + zlen old) = Ok (a ++ map (op_byte op t ts) (seq (length a) (length old)) ++ post).
Proof.
  intros Hs HF. induction fuel as [|fuel IH]; intros old a Hf; (destruct old as [|x old]; [|try (cbn in Hf; lia)]); cbn [bitop_slow].
  - change (zlen (@nil Z)) with 0. rewrite Z.add_0_r, Z.ltb_irrefl. done.
  - change (zlen (@nil Z)) with 0. rewrite Z.add_0_r, Z.ltb_irrefl. done.
  - pose proof (zlen_nonneg a). pose proof (zlen_nonneg old). rewrite zlen_cons, (proj2 (Z.ltb_lt _ _)) by lia. rewrite (source_byte_ok s t) by done. cbn [mbind res_bind]. rewrite (bitop_byte_ok op rest ts) by done. cbn [mbind res_bind].
    rewrite <- app_comm_cons, poke_app by done. cbn [mbind res_bind]. replace (Z.to_nat (zlen a)) with (length a) by (unfold zlen; lia). fold (op_byte op t ts (length a)). specialize (IH old (a ++ [op_byte op t ts (length a)]) ltac:(cbn in Hf; lia)).
    rewrite !zlen_app, <- !app_assoc, length_app in IH. change (zlen [_]) with 1 in IH. cbn [app length] in IH. replace (zlen a + (zlen old + 1)) with (zlen a + 1 + zlen old) by lia. rewrite IH. cbn [length seq map]. by rewrite Nat.add_1_r.
Qed.

(** Bitwise operations on words are done byte by byte. *)
Lemma apply_op_range op x y : in_u 8 x -> in_u 8 y -> in_u 8 (apply_op op x y).
Proof.
  intros Hx Hy. pose proof (forallb_bytes (fun x => forallb (fun y => let z := apply_op op x y in (0 <=? z) && (z <? 256)) (map Z.of_nat (seq 0 256))) ltac:(destruct op; vm_compute; reflexivity) x Hx) as H. cbn beta in H.
  pose proof (forallb_bytes _ H y Hy) as H'. cbn beta zeta in H'. unfold in_u. lia.
Qed.

Lemma apply_op_bit op x y i : Z.testbit (apply_op op x y) i = match op with BITOP_AND => Z.testbit x i && Z.testbit y i | BITOP_OR => Z.testbit x i || Z.testbit y i | BITOP_XOR => xorb (Z.testbit x i) (Z.testbit y i) | BITOP_NOT => Z.testbit x i end.
Proof. destruct op; cbn; [apply Z.land_spec|apply Z.lor_spec|apply Z.lxor_spec|done]. Qed.

Lemma apply_op_bytes op b w c v : in_u 8 b -> in_u 8 c -> apply_op op (b + 256 * w) (c + 256 * v) = apply_op op b c + 256 * apply_op op w v.
Proof.
  intros Hb Hc. apply Z.bits_inj'. intros i Hi. rewrite (byte_word_bits _ _ i (apply_op_range op b c Hb Hc) Hi), apply_op_bit, !byte_word_bits by done. destruct (i <? 8); by rewrite apply_op_bit.
Qed.

Lemma le_bytes_cons n b w : in_u 8 b -> le_bytes (S n) (b + 256 * w) = b :: le_bytes n w.
Proof.
  intros Hb. unfold in_u in Hb. change (2 ^ 8) with 256 in Hb. cbn [le_bytes]. rewrite Z.add_comm, Z.mul_comm. f_equal; [rewrite Z.add_comm, Z_mod_plus_full; by apply Z.mod_small|]. rewrite Z.add_comm, Z.div_add by lia. by rewrite Z.div_small.
Qed.

Lemma word_bytes op bs : Forall (in_u 8) bs -> forall cs, Forall (in_u 8) cs -> length bs = length cs -> le_bytes (length bs) (apply_op op (le_val bs) (le_val cs)) = zip_with (apply_op op) bs cs.
Proof.
  intros HF. induction HF as [|b bs Hb HF IH]; intros [|c cs] Hc Hl; try done. apply list.Forall_cons_1 in Hc as [Hc Hcs]. cbn [length le_val zip_with]. rewrite apply_op_bytes by done. rewrite le_bytes_cons by (by apply apply_op_range). f_equal. apply IH; [done|cbn in Hl; lia].
Qed.

Lemma not_bytes bs : Forall (in_u 8) bs -> le_bytes (length bs) (2 ^ (8 * zlen bs) - 1 - le_val bs) = map (fun b => u8 (Z.lnot b)) bs.
Proof.
  intros HF. induction HF as [|b bs Hb HF IH]; [done|]. cbn [length le_val map]. rewrite zlen_cons. replace (8 * (zlen bs + 1)) with (8 * zlen bs + 8) by lia. pose proof (zlen_nonneg bs). rewrite Z.pow_add_r by lia. change (2 ^ 8) with 256. unfold in_u in Hb. change (2 ^ 8) with 256 in Hb.
  assert (u8 (Z.lnot b) = 255 - b) as -> by (unfold Z.lnot, uwrap; symmetry; apply (Z.mod_unique _ _ (-1)); lia). replace (_ - 1 - _) with ((255 - b) + 256 * (2 ^ (8 * zlen bs) - 1 - le_val bs)) by lia. rewrite le_bytes_cons by (unfold in_u; lia). by rewrite IH.
Qed.

Lemma zip_with_map {A B} (h : B -> B -> B) (f g : A -> B) l : zip_with h (map f l) (map g l) = map (fun k => h (f k) (g k)) l.
Proof. induction l as [|x l IH]; [done|]. cbn. by rewrite IH. Qed.

Lemma slice_bytes t : forall j n, (j + n <= length t)%nat -> map u8 (take n (drop j t)) = map (byte_at t) (seq j n).
Proof.
  intros j n Hl. apply list_eq. intros i. rewrite !list_lookup_fmap. destruct (decide (i < n)%nat) as [Hi|Hi].
  - rewrite lookup_take_lt, lookup_drop by done. rewrite lookup_seq_lt by done. cbn. unfold byte_at. destruct (lookup_lt_is_Some_2 t (j + i)) as [x ->]; [lia|]. done.
  - rewrite lookup_take_ge by lia. rewrite lookup_seq_ge by lia. done.
Qed.

Lemma u8_bytes (f : nat -> Z) l : (forall k, in_u 8 (f k)) -> map u8 (map f l) = map f l.
Proof. intros Hf. rewrite List.map_map. apply map_ext. intros k. by apply uwrap_id. Qed.

Lemma load_source t e j : (j + 8 <= length t)%nat -> load64 (t ++ e) (Z.of_nat j) = Ok (le_val (map (byte_at t) (seq j 8))).
Proof.
  intros Hl. unfold load64, rd. rewrite zlen_app. pose proof (zlen_nonneg e). assert ((0 <=? Z.of_nat j) && (0 <=? 8) && (Z.of_nat j + 8 <=? zlen t + zlen e) = true) as -> by (unfold zlen in *; lia). cbn [mbind res_bind]. unfold ztake, zdrop. rewrite Nat2Z.id. change (Z.to_nat 8) with 8%nat.
  rewrite drop_app_le, take_app_le by (rewrite ?length_drop; lia). by rewrite slice_bytes.
Qed.

Lemma load_result a (f : nat -> Z) c j : zlen a = Z.of_nat j -> (forall k, in_u 8 (f k)) -> load64 (a ++ map f (seq j 8) ++ c) (Z.of_nat j) = Ok (le_val (map f (seq j 8))).
Proof. intros Ha Hf. unfold load64. rewrite rd_app by (done || (rewrite zlen_map; unfold zlen; by rewrite length_seq)). cbn [mbind res_bind]. by rewrite u8_bytes. Qed.

Lemma Forall_map_bytes (f : nat -> Z) l : (forall k, in_u 8 (f k)) -> Forall (in_u 8) (map f l).
Proof. intros Hf. induction l; cbn; constructor; auto. Qed.

Lemma word_op_ok op t e a f c j : zlen a = Z.of_nat j -> (forall k, in_u 8 (f k)) -> (j + 8 <= length t)%nat ->
  word_op op (t ++ e) (a ++ map f (seq j 8) ++ c) (Z.of_nat j) = Ok (a ++ map (fun k => apply_op op (f k) (byte_at t k)) (seq j 8) ++ c).
Proof.
  intros Ha Hf Hl. unfold word_op. rewrite load_result by done. cbn [mbind res_bind]. rewrite load_source by done. cbn [mbind res_bind]. unfold store64. rewrite wr_app by (done || by (rewrite zlen_map, zlen_le_bytes; unfold zlen; rewrite length_seq)). f_equal. f_equal. f_equal.
  pose proof (word_bytes op (map f (seq j 8)) (Forall_map_bytes f _ Hf) (map (byte_at t) (seq j 8)) (Forall_map_bytes _ _ (byte_at_range t)) ltac:(by rewrite !List.length_map)) as E. rewrite List.length_map, length_seq in E. rewrite E. apply zip_with_map.
Qed.

Lemma word_not_ok a f c j : zlen a = Z.of_nat j -> (forall k, in_u 8 (f k)) ->
  word_not (a ++ map f (seq j 8) ++ c) (Z.of_nat j) = Ok (a ++ map (fun k => u8 (Z.lnot (f k))) (seq j 8) ++ c).
Proof.
  intros Ha Hf. unfold word_not. rewrite load_result by done. cbn [mbind res_bind]. unfold store64. rewrite wr_app by (done || by (rewrite zlen_map, zlen_le_bytes; unfold zlen; rewrite length_seq)). f_equal. f_equal. f_equal.
  pose proof (not_bytes (map f (seq j 8)) (Forall_map_bytes f _ Hf)) as E. rewrite List.length_map, length_seq, List.map_map, zlen_map in E. unfold zlen in E. rewrite length_seq in E. change (8 * Z.of_nat 8) with 64 in E. rewrite <- E. f_equal. unfold Z.lnot, uwrap.
  assert (in_u 64 (le_val (map f (seq j 8)))) as Hr. { cbn [seq map le_val]. unfold in_u in *. change (2 ^ 8) with 256 in Hf. pose proof (Hf j). pose proof (Hf (S j)). pose proof (Hf (S (S j))). pose proof (Hf (S (S (S j)))). pose proof (Hf (S (S (S (S j))))). pose proof (Hf (S (S (S (S (S j)))))). pose proof (Hf (S (S (S (S (S (S j))))))). pose proof (Hf (S (S (S (S (S (S (S j)))))))). lia. }
  unfold in_u in Hr. symmetry. apply (Z.mod_unique _ _ (-1)); lia.
Qed.

(** Four words in a row. *)
Lemma four_words (step : list Z -> Z -> res (list Z)) (f g : nat -> Z) a c j : zlen a = Z.of_nat j ->
  (forall a c i, zlen a = Z.of_nat i -> (j <= i)%nat -> (i + 8 <= j + 32)%nat -> step (a ++ map f (seq i 8) ++ c) (Z.of_nat i) = Ok (a ++ map g (seq i 8) ++ c)) ->
  (res ← step (a ++ map f (seq j 32) ++ c) (Z.of_nat j); res ← step res (Z.of_nat j + 8); res ← step res (Z.of_nat j + 16); step res (Z.of_nat j + 24)) = Ok (a ++ map g (seq j 32) ++ c).
Proof.
  intros Ha Hstep. assert (forall h : nat -> Z, map h (seq j 32) = map h (seq j 8) ++ map h (seq (j + 8) 8) ++ map h (seq (j + 16) 8) ++ map h (seq (j + 24) 8)) as Hsplit.
  { intros h. rewrite <- !map_app. f_equal. change 32%nat with (8 + (8 + (8 + 8)))%nat. rewrite !seq_app. by rewrite <- !Nat.add_assoc. }
  rewrite !Hsplit, <- !app_assoc. assert (forall (h : nat -> Z) i, zlen (map h (seq i 8)) = 8) as Hz by (intros; rewrite zlen_map; unfold zlen; by rewrite length_seq).
  rewrite Hstep by (done || lia). cbn [mbind res_bind]. rewrite (app_assoc a). replace (Z.of_nat j + 8) with (Z.of_nat (j + 8)) by lia. rewrite Hstep by (rewrite ?zlen_app, ?Hz; lia). cbn [mbind res_bind]. rewrite (app_assoc (a ++ _)). replace (Z.of_nat j + 16) with (Z.of_nat (j + 16)) by lia.
  rewrite Hstep by (rewrite ?zlen_app, ?Hz; lia). cbn [mbind res_bind]. rewrite (app_assoc ((a ++ _) ++ _)). replace (Z.of_nat j + 24) with (Z.of_nat (j + 24)) by lia. rewrite Hstep by (rewrite ?zlen_app, ?Hz; lia). by rewrite <- !app_assoc.
Qed.

Lemma block_keys_ok op rest ts : Forall2 source rest ts -> forall (f : nat -> Z) a c j, zlen a = Z.of_nat j -> (forall k, in_u 8 (f k)) -> Forall (fun t => (j + 32 <= length t)%nat) ts ->
  block_keys op rest (a ++ map f (seq j 32) ++ c) (Z.of_nat j) = Ok (a ++ map (fun k => combine_from op ts k (f k)) (seq j 32) ++ c).
Proof.
  intros HF. induction HF as [|s t rest ts Hs HF IH]; intros f a c j Ha Hf Hl; [done|]. apply list.Forall_cons_1 in Hl as [Hl Hls]. destruct Hs as [e ->]. cbn [block_keys]. unfold block_key.
  rewrite (four_words (word_op op (t ++ e)) f (fun k => apply_op op (f k) (byte_at t k)) a c j Ha) by (intros a' c' i Ha' H1 H2; apply word_op_ok; (done || lia)). cbn [mbind res_bind].
  rewrite IH; [done|done| |done]. intros k. apply apply_op_range; [done|apply byte_at_range].
Qed.

Lemma combine_not ts k o : combine_from BITOP_NOT ts k o = o.
Proof. unfold combine_from. induction ts as [|t ts IH]; [done|]. exact IH. Qed.

Lemma fast_block op rest t ts a c j : Forall2 source rest ts -> zlen a = Z.of_nat j -> Forall (fun t => (j + 32 <= length t)%nat) ts ->
  (if bool_decide (op = BITOP_NOT) then block_not (a ++ map (byte_at t) (seq j 32) ++ c) (Z.of_nat j) else block_keys op rest (a ++ map (byte_at t) (seq j 32) ++ c) (Z.of_nat j))
  = Ok (a ++ map (op_byte op t ts) (seq j 32) ++ c).
Proof.
  intros HF Ha Hl. unfold op_byte. case_bool_decide as Hop.
  - subst op. unfold block_not. rewrite (four_words word_not (byte_at t) (fun k => u8 (Z.lnot (byte_at t k))) a c j Ha) by (intros a' c' i Ha' H1 H2; apply word_not_ok; [done|apply byte_at_range]). do 3 f_equal. apply map_ext. intros k. by rewrite combine_not.
  - rewrite (block_keys_ok op rest ts HF (byte_at t) a c j Ha); [done|apply byte_at_range|done].
Qed.

Lemma bitop_fast_ok op rest t ts c : Forall2 source rest ts -> forall fuel m a, (m <= fuel)%nat -> Forall (fun t => (length a + m <= length t)%nat) ts ->
  exists n, (n <= m)%nat /\ bitop_fast fuel op rest (a ++ map (byte_at t) (seq (length a) m) ++ c) (zlen a) (Z.of_nat m)
    = Ok (a ++ map (op_byte op t ts) (seq (length a) n) ++ map (byte_at t) (seq (length a + n) (m - n)) ++ c, zlen a + Z.of_nat n).
Proof.
  intros HF. induction fuel as [|fuel IH]; intros m a Hf Hl; cbn [bitop_fast]; (destruct (Z.leb_spec 32 (Z.of_nat m)) as [Hge|]; [try lia|exists 0%nat; split; [lia|]; cbn [seq map app]; rewrite Nat.add_0_r, Nat.sub_0_r, Z.add_0_r; done]).
  replace m with (32 + (m - 32))%nat by lia. set (m' := (m - 32)%nat) in *. rewrite seq_app, map_app, <- app_assoc. change (zlen a) with (Z.of_nat (length a)) at 1 2.
  rewrite (fast_block op rest t ts) by (done || (eapply list.Forall_impl; [exact Hl|cbn beta; intros; lia])). cbn [mbind res_bind]. set (b := map (op_byte op t ts) (seq (length a) 32)). assert (length b = 32%nat) as Hb by (unfold b; by rewrite List.length_map, length_seq).
  destruct (IH m' (a ++ b)) as (n & Hn & E); [lia|eapply list.Forall_impl; [exact Hl|cbn beta; rewrite length_app; intros; lia]|]. exists (32 + n)%nat. split; [lia|]. rewrite length_app, Hb, zlen_app, <- app_assoc in E. replace (zlen b) with 32 in E by (unfold zlen; lia).
  replace (Z.of_nat (32 + m') - 32) with (Z.of_nat m') by lia. change (Z.of_nat (length a) + 32) with (zlen a + 32). rewrite E. rewrite seq_app, map_app. fold b. rewrite <- !app_assoc. replace (length a + 32 + n)%nat with (length a + (32 + n))%nat by lia. replace (32 + m' - (32 + n))%nat with (m' - n)%nat by lia. f_equal. f_equal. lia.
Qed.

Lemma bitop_compute_ok op s t rest ts old post minlen : source s t -> Forall2 source rest ts -> 0 <= minlen -> Forall (fun t => minlen <= zlen t) (t :: ts) -> minlen <= zlen old ->
  bitop_compute op s rest (old ++ post) minlen (zlen old) = Ok (bitop_text op t ts (length old) ++ post).
Proof.
  intros Hs HF H0 Hmin Hold. unfold bitop_compute, bitop_text. assert (forall a b, length (a ++ b) = length old -> bitop_slow (Z.to_nat (zlen old)) op s rest ((a ++ b) ++ post) (zlen a) (zlen old) = Ok (a ++ map (op_byte op t ts) (seq (length a) (length b)) ++ post)) as Hslow.
  { intros a b Hab. rewrite <- app_assoc. replace (zlen old) with (zlen a + zlen b) by (unfold zlen; rewrite length_app in Hab; lia). apply bitop_slow_ok; [done|done|]. unfold zlen. lia. }
  destruct (_ && _).
  - apply list.Forall_cons_1 in Hmin as [Ht Hts]. pose proof Hs as [e ->]. cbn [fst]. destruct (list_split_at minlen t) as (t1 & t2 & Et & Ht1); [lia|]. rewrite Et at 1. rewrite <- app_assoc, rd_app0 by done. cbn [mbind res_bind].
    destruct (list_split_at minlen old) as (o1 & o2 & Eo & Ho1); [lia|]. rewrite Eo at 1. rewrite <- app_assoc. assert (length t1 = Z.to_nat minlen) as Hlen by (unfold zlen in Ht1; lia).
    rewrite wr_app0 by (rewrite zlen_map; lia). cbn [mbind res_bind]. assert (map u8 t1 = map (byte_at t) (seq 0 (Z.to_nat minlen))) as ->.
    { rewrite <- slice_bytes by (rewrite Et, length_app; lia). rewrite drop_0, Et, <- Hlen. by rewrite take_app_length. }
    destruct (bitop_fast_ok op rest t ts (o2 ++ post) HF (Z.to_nat minlen) (Z.to_nat minlen) []) as (n & Hn & E); [done|eapply list.Forall_impl; [exact Hts|cbn beta; unfold zlen; cbn; intros; lia]|]. cbn [app length] in E. change (zlen (@nil Z)) with 0 in E. rewrite Z2Nat.id in E by done. rewrite E. cbn [mbind res_bind]. cbn [app length Nat.add Z.add].
    set (A := map (op_byte op t ts) (seq 0 n)). set (B := map (byte_at t) (seq n (Z.to_nat minlen - n))). assert (length A = n) as HA by (unfold A; by rewrite List.length_map, length_seq). assert (length B = Z.to_nat minlen - n)%nat as HB by (unfold B; by rewrite List.length_map, length_seq).
    assert (length old = Z.to_nat minlen + length o2)%nat as Hlo by (rewrite Eo, length_app; unfold zlen in Ho1; lia). specialize (Hslow A (B ++ o2) ltac:(rewrite !length_app; lia)). rewrite <- !app_assoc in Hslow. replace (0 + Z.of_nat n) with (zlen A) by (unfold zlen; lia). rewrite Hslow. f_equal. rewrite app_assoc. f_equal. rewrite HA, length_app, HB. unfold A.
    rewrite <- map_app. f_equal. rewrite <- seq_app. f_equal. lia.
  - cbn [mbind res_bind]. specialize (Hslow [] old eq_refl). cbn [app length] in Hslow. change (zlen (@nil Z)) with 0 in Hslow. exact Hslow.
Qed.

(** ** Theorems *)

(** C29: Counting bits and finding the first bit, with their loops for the unaligned start, for
    blocks of words and for the rest, agree with the list of bits: for every address of
    the buffer and every window [s] of it, [redisPopcount] is the number of set bits and
    [redisBitpos] the position of the first bit [b]; without one it is -1 for a set bit and
    the first position behind the window for a clear one. *)
Theorem popcount_bitpos_reference addr b a s c : zlen s < 2 ^ 59 ->
  redisPopcount addr (a ++ s ++ c) (zlen a) (zlen s) = Ok (ones (bits_of s)) /\
  redisBitpos addr (a ++ s ++ c) (Z.b2z b) (zlen a) (zlen s) = Ok (match find_bit b (bits_of s) with Some k => k | None => if b then -1 else 8 * zlen s end).
Proof. intros Hs. split; [apply redisPopcount_ok|apply redisBitpos_ok]; lia || done. Qed.

Lemma popcount_bitpos_reference_witness :
  redisPopcount 5 ([1; 2] ++ zrep 70 0xF0 ++ [7]) 2 70 = Ok 280 /\ redisBitpos 5 ([1; 2] ++ (zrep 70 255 ++ [0xF7]) ++ [7]) 0 2 71 = Ok 564.
Proof.
  destruct (popcount_bitpos_reference 5 true [1; 2] (zrep 70 0xF0) [7]) as [H _]; [by vm_compute|]. destruct (popcount_bitpos_reference 5 false [1; 2] (zrep 70 255 ++ [0xF7]) [7]) as [_ K]; [by vm_compute|].
  split; [exact H|exact K].
Defined.

Lemma field_read_back p off bits v : 0 <= bits -> 0 <= off -> off + bits <= 8 * zlen p -> ztake bits (zdrop off (bits_of (write_bits p off (field_bits (Z.to_nat bits) v)))) = field_bits (Z.to_nat bits) v.
Proof.
  intros Hb Ho Hl. assert (zlen (field_bits (Z.to_nat bits) v) = bits) as Hf by (rewrite zlen_field_bits; lia). rewrite write_bits_bits by lia. set (l := field_bits _ v) in *.
  assert (zlen (ztake off (bits_of p)) = off) as Ht by (rewrite zlen_ztake, zlen_bits_of; lia). rewrite zdrop_app, ztake_app by done. done.
Qed.

Lemma field_frame p off bits v i : 0 <= bits -> 0 <= off -> off + bits <= 8 * zlen p -> 0 <= i < off \/ off + bits <= i ->
  bits_of (write_bits p off (field_bits (Z.to_nat bits) v)) !! Z.to_nat i = bits_of p !! Z.to_nat i.
Proof.
  intros Hb Ho Hl Hi. assert (zlen (field_bits (Z.to_nat bits) v) = bits) as Hf by (rewrite zlen_field_bits; lia). rewrite write_bits_bits by lia. rewrite Hf. set (l := field_bits _ v) in *.
  assert (zlen (ztake off (bits_of p)) = off) as Ht by (rewrite zlen_ztake, zlen_bits_of; lia). unfold zlen in Ht, Hf. destruct Hi as [Hi|Hi].
  - rewrite lookup_app_l by lia. unfold ztake. by rewrite lookup_take_lt by lia.
  - rewrite lookup_app_r, lookup_app_r by lia. unfold zdrop. rewrite lookup_drop. f_equal. lia.
Qed.

(** C30: A field of 1 to 63 bits, at any bit offset: what [setUnsignedBitfield] or
    [setSignedBitfield] stores is read back, modulo [2^bits] or in two's complement, the
    buffer keeps its length and no bit outside the field changes. *)
Theorem bitfield_set_then_get p off bits v : 1 <= bits <= 63 -> 0 <= off -> off + bits <= 8 * zlen p -> off + bits < 2 ^ 64 ->
  exists q, setUnsignedBitfield p off bits (u64 v) = Ok q /\ setSignedBitfield p off bits v = Ok q /\ zlen q = zlen p /\
    getUnsignedBitfield q off bits = Ok (v mod 2 ^ bits) /\ getSignedBitfield q off bits = Ok (swrap bits v) /\
    forall i, 0 <= i < off \/ off + bits <= i -> bits_of q !! Z.to_nat i = bits_of p !! Z.to_nat i.
Proof.
  intros Hb Ho Hl Hp. exists (write_bits p off (field_bits (Z.to_nat bits) v)). pose proof (zlen_write_bits (field_bits (Z.to_nat bits) v) p off) as Hz. split_and!.
  - rewrite setUnsignedBitfield_ok by lia. unfold uwrap. by rewrite field_bits_mod by lia.
  - by rewrite setSignedBitfield_ok by lia.
  - done.
  - rewrite getUnsignedBitfield_ok, field_read_back, be_val_field by lia. by rewrite Z2Nat.id by lia.
  - rewrite getSignedBitfield_ok, field_read_back, be_val_field by lia. rewrite Z2Nat.id, Z.mul_0_l, Z.add_0_l by lia. f_equal. unfold swrap. rewrite <- Z.add_mod_idemp_l by (apply Z.pow_nonzero; lia). rewrite Z.mod_mod by (apply Z.pow_nonzero; lia). by rewrite Z.add_mod_idemp_l by (apply Z.pow_nonzero; lia).
  - intros i Hi. by apply field_frame; lia || done.
Qed.

Lemma bitfield_set_then_get_witness : exists q, setSignedBitfield [1; 2; 3] 5 9 (-200) = Ok q /\ getSignedBitfield q 5 9 = Ok (-200) /\ getUnsignedBitfield q 5 9 = Ok 312.
Proof.
  destruct (bitfield_set_then_get [1; 2; 3] 5 9 (-200)) as (q & _ & E & _ & U & S & _); [lia|lia|vm_compute; discriminate|lia|]. exists q. split_and!; [exact E|exact S|exact U].
Defined.

(** C31: The overflow tests of BITFIELD are exact for fields of 1 to 63 bits whose current
    [value] is in the range of the type, with any 64 bit increment: they report 0 exactly
    when the mathematical sum is in range. Otherwise WRAP answers 1 with the sum reduced to
    the width, for an underflow as for an overflow; SAT answers 1 with the greatest value
    above the range and -1 with the least below it; FAIL answers 1 or -1 and leaves the
    limit alone. *)
Theorem bitfield_overflow_exact value incr bits ow : 1 <= bits <= 63 -> in_s 64 incr ->
  (in_u bits value -> checkUnsignedBitfieldOverflow value incr bits ow = Ok (unsigned_spec bits ow (value + incr))) /\
  (in_s bits value -> checkSignedBitfieldOverflow value incr bits ow = Ok (signed_spec bits ow (value + incr))).
Proof.
  intros Hb Hi. destruct (pow2_63 bits Hb) as [E1 E2]. split; intros Hv.
  - apply checkUnsigned_ok; [done| |done|right; apply Hv]. unfold in_u in *. lia.
  - apply checkSigned_ok; [done| |done|by right]. unfold in_s in *. lia.
Qed.

Lemma bitfield_overflow_exact_witness : checkUnsignedBitfieldOverflow 200 100 8 BFOVERFLOW_WRAP = Ok (1, Some 44) /\ checkSignedBitfieldOverflow (-100) (-100) 8 BFOVERFLOW_SAT = Ok (-1, Some (-128)).
Proof.
  destruct (bitfield_overflow_exact 200 100 8 BFOVERFLOW_WRAP) as [H _]; [lia|by vm_compute|]. destruct (bitfield_overflow_exact (-100) (-100) 8 BFOVERFLOW_SAT) as [_ K]; [lia|by vm_compute|].
  split; [exact (H ltac:(by vm_compute))|exact (K ltac:(by vm_compute))].
Defined.

(** The computation of BITOP, four words at a time where all sources are long enough and
    byte by byte for the rest, is the bytewise combination of the sources, a source that
    has ended counting as zeros; the buffer behind the result is untouched. *)
Theorem bitop_is_bytewise op first t rest ts old post minlen : source first t -> Forall2 source rest ts -> 0 <= minlen <= zlen old -> Forall (fun t => minlen <= zlen t) (t :: ts) ->
  bitop_compute op first rest (old ++ post) minlen (zlen old) = Ok (map (op_byte op t ts) (seq 0 (length old)) ++ post).
Proof. intros. by apply bitop_compute_ok; lia || done. Qed.

Lemma bitop_is_bytewise_witness :
  bitop_compute BITOP_XOR (zrep 40 0x0F ++ [9], 40) [(zrep 34 0xFF ++ [8], 34)] (zrep 40 1 ++ [5]) 34 40 = Ok (map (op_byte BITOP_XOR (zrep 40 0x0F) [zrep 34 0xFF]) (seq 0 40) ++ [5]).
Proof.
  apply (bitop_is_bytewise BITOP_XOR (zrep 40 0x0F ++ [9], 40) (zrep 40 0x0F) [(zrep 34 0xFF ++ [8], 34)] [zrep 34 0xFF] (zrep 40 1) [5] 34).
  - by exists [9].
  - constructor; [by exists [8]|constructor].
  - split; by vm_compute.
  - repeat constructor; by vm_compute.
Defined.
End BitopsOps.
