(* ===== verification/StateM.v ===== *)
(** * A state and error monad, and its program logic

    Handlers of the server ([Db]) and of the cluster bus ([Cluster]) are written in [ST]
    over their state. [wp m Q st]: run from [st], [m] returns, and result and final state
    satisfy [Q]; [wlp m Q st]: if [m] returns, they do. *)
From S2P Require Import Prelude.

Definition ST (S A : Type) : Type := S -> res (S * A).
#[global] Instance ST_ret {S} : MRet (ST S) := fun A a st => Ok (st, a).
#[global] Instance ST_bind {S} : MBind (ST S) := fun A B k m st => match m st with Ok (st, a) => k a st | Fault f => Fault f end.

Section Monad.
Context {S : Type}.

Definition lift {A} (m : res A) : ST S A := fun st => match m with Ok a => Ok (st, a) | Fault f => Fault f end.
Definition gets {A} (f : S -> A) : ST S A := fun st => Ok (st, f st).
Definition modify (f : S -> S) : ST S unit := fun st => Ok (f st, tt).

(** ** Weakest preconditions *)

Definition wp {A} (m : ST S A) (Q : A -> S -> Prop) (st : S) : Prop :=
  match m st with Ok (st', a) => Q a st' | Fault _ => False end.

Lemma wp_ret {A} (a : A) Q st : Q a st -> wp (mret a) Q st.
Proof. done. Qed.

Lemma wp_bind {A B} (m : ST S A) (k : A -> ST S B) Q st : wp m (fun a => wp (k a) Q) st -> wp (m ≫= k) Q st.
Proof. unfold wp, mbind, ST_bind. by destruct (m st) as [[st' a]|f]. Qed.

Lemma wp_mono {A} (m : ST S A) (P Q : A -> S -> Prop) st : wp m P st -> (forall a st', P a st' -> Q a st') -> wp m Q st.
Proof. unfold wp. destruct (m st) as [[st' a]|f]; [auto|done]. Qed.

Lemma wp_step {A B} (m : ST S A) (k : A -> ST S B) (P : A -> S -> Prop) Q st :
  wp m P st -> (forall a st', P a st' -> wp (k a) Q st') -> wp (m ≫= k) Q st.
Proof. intros H Hk. apply wp_bind. by eapply wp_mono. Qed.

Lemma wp_assoc {A B C} (m : ST S A) (f : A -> ST S B) (g : B -> ST S C) Q st : wp ((m ≫= f) ≫= g) Q st -> wp (m ≫= (fun a => f a ≫= g)) Q st.
Proof. unfold wp, mbind, ST_bind. by destruct (m st) as [[st' a]|]. Qed.

Lemma wp_run {A} (m : ST S A) Q st : wp m Q st -> exists st' a, m st = Ok (st', a) /\ Q a st'.
Proof. unfold wp. destruct (m st) as [[st' a]|f]; [eauto|done]. Qed.

Lemma wp_lift {A} (m : res A) a Q st : m = Ok a -> Q a st -> wp (lift m) Q st.
Proof. unfold wp, lift. by intros ->. Qed.

Lemma wp_gets {A} (f : S -> A) Q st : Q (f st) st -> wp (gets f) Q st.
Proof. done. Qed.

Lemma wp_modify f (Q : unit -> S -> Prop) st : Q tt (f st) -> wp (modify f) Q st.
Proof. done. Qed.

(** ** Weakest liberal preconditions *)

Definition wlp {A} (m : ST S A) (Q : A -> S -> Prop) (st : S) : Prop :=
  match m st with Ok (st', a) => Q a st' | Fault _ => True end.

Lemma wlp_ret {A} (a : A) Q st : Q a st -> wlp (mret a) Q st.
Proof. done. Qed.

Lemma wlp_bind {A B} (m : ST S A) (k : A -> ST S B) Q st : wlp m (fun a => wlp (k a) Q) st -> wlp (m ≫= k) Q st.
Proof. unfold wlp, mbind, ST_bind. by destruct (m st) as [[st' a]|f]. Qed.

Lemma wlp_mono {A} (m : ST S A) (P Q : A -> S -> Prop) st : wlp m P st -> (forall a st', P a st' -> Q a st') -> wlp m Q st.
Proof. unfold wlp. destruct (m st) as [[st' a]|f]; auto. Qed.

Lemma wlp_step {A B} (m : ST S A) (k : A -> ST S B) (P : A -> S -> Prop) Q st :
  wlp m P st -> (forall a st', P a st' -> wlp (k a) Q st') -> wlp (m ≫= k) Q st.
Proof. intros H Hk. apply wlp_bind. by eapply wlp_mono. Qed.

Lemma wlp_run {A} (m : ST S A) Q st st' a : wlp m Q st -> m st = Ok (st', a) -> Q a st'.
Proof. unfold wlp. intros H E. by rewrite E in H. Qed.

Lemma wlp_lift {A} (m : res A) (Q : A -> S -> Prop) st : (forall a, m = Ok a -> Q a st) -> wlp (lift m) Q st.
Proof. unfold wlp, lift. destruct m; auto. Qed.

Lemma wlp_gets {A} (f : S -> A) Q st : Q (f st) st -> wlp (gets f) Q st.
Proof. done. Qed.

Lemma wlp_modify f (Q : unit -> S -> Prop) st : Q tt (f st) -> wlp (modify f) Q st.
Proof. done. Qed.
End Monad.
