(* ===== verification/Db.v ===== *)
(** * Keyspace: src/redis-stable/src/db.c, and the replies of networking.c it needs

    The state is the heap of objects, the two dictionaries of a database (values and
    expire times), the arguments of the client being served and its output. Operations
    live in a state monad over it: they look keys up (expiring them on the way), share and
    release objects, and append the bytes of replies. The dictionaries are finite maps,
    which is what [Dict] shows of dict.c. The server is a master that is not loading,
    outside a script, with synchronous freeing and without cluster mode; [now] is what
    [mstime] returns during the command. Access times (the LRU field), the propagation to
    replicas and to the append only file, keyspace events and WATCH are left out.
    [StringCmd] has the commands, [DbOps] the invariant of the keyspace. *)
From stdpp Require Import gmap.
From S2P Require Import Prelude StateM Util Sds SdsText Object.

Module Db.
Import Sds SdsText Object.

(** ** State and monad *)

(** A pointer to an object: one of the shared integers, or a cell of the heap. *)
Inductive oid := Shared (v : Z) | Heap (n : nat).
#[global] Instance oid_eq_dec : EqDecision oid.
Proof. solve_decision. Defined.

Record stats := mk_stats { dirty : Z; stat_expiredkeys : Z; stat_keyspace_hits : Z; stat_keyspace_misses : Z }.

(** [shared_del] is [shared.del], an object of the heap that the server itself keeps. *)
Record server := mk_server {
  heap : gmap nat robj; next : nat; shared_del : nat;
  dict : gmap (list Z) oid; expires : gmap (list Z) Z;
  argv : list oid; out : list Z; close_after_reply : bool; counts : stats }.

Definition set_heap (st : server) (h : gmap nat robj) (n : nat) : server :=
  mk_server h n (shared_del st) (dict st) (expires st) (argv st) (out st) (close_after_reply st) (counts st).
Definition set_dict (st : server) (d : gmap (list Z) oid) : server :=
  mk_server (heap st) (next st) (shared_del st) d (expires st) (argv st) (out st) (close_after_reply st) (counts st).
Definition set_expires (st : server) (e : gmap (list Z) Z) : server :=
  mk_server (heap st) (next st) (shared_del st) (dict st) e (argv st) (out st) (close_after_reply st) (counts st).
Definition set_argv (st : server) (a : list oid) : server :=
  mk_server (heap st) (next st) (shared_del st) (dict st) (expires st) a (out st) (close_after_reply st) (counts st).
Definition set_out (st : server) (o : list Z) : server :=
  mk_server (heap st) (next st) (shared_del st) (dict st) (expires st) (argv st) o (close_after_reply st) (counts st).
Definition set_close (st : server) : server :=
  mk_server (heap st) (next st) (shared_del st) (dict st) (expires st) (argv st) (out st) true (counts st).
Definition set_counts (st : server) (s : stats) : server :=
  mk_server (heap st) (next st) (shared_del st) (dict st) (expires st) (argv st) (out st) (close_after_reply st) s.

Abbreviation M := (ST server).

(** ** Objects in the heap *)

Definition fetch (id : oid) : M robj := fun st =>
  match id with
  | Shared v => Ok (st, shared_int v)
  | Heap n => match heap st !! n with Some o => Ok (st, o) | None => Fault OutOfBounds end
  end.

(** A write to an object; the shared ones are never written. *)
Definition store (id : oid) (o : robj) : M unit := fun st =>
  match id with
  | Shared v => Fault AssertFailed
  | Heap n => match heap st !! n with Some _ => Ok (set_heap st (<[n := o]> (heap st)) (next st), tt) | None => Fault OutOfBounds end
  end.

Definition alloc (o : robj) : M oid := fun st => Ok (set_heap st (<[next st := o]> (heap st)) (S (next st)), Heap (next st)).
Definition release (id : oid) : M unit := fun st =>
  match id with Shared v => Fault AssertFailed | Heap n => Ok (set_heap st (base.delete n (heap st)) (next st), tt) end.
Definition place (m : made) : M oid := match m with MShared v => mret (Shared v) | MNew o => alloc o end.

Definition with_refcount (o : robj) (n : Z) : robj := mk_robj (type o) (encoding o) (ptr o) n.
Definition with_ptr (o : robj) (p : obj_ptr) : robj := mk_robj (type o) (encoding o) p (refcount o).

Definition incrRefCount (id : oid) : M unit :=
  o ← fetch id;
  if negb (refcount o =? OBJ_SHARED_REFCOUNT) then store id (with_refcount o (i32 (refcount o + 1))) else mret tt.

Definition decrRefCount (id : oid) : M unit :=
  o ← fetch id;
  if refcount o =? 1 then release id else
  if refcount o <=? 0 then lift (Fault AssertFailed) else
  if negb (refcount o =? OBJ_SHARED_REFCOUNT) then store id (with_refcount o (refcount o - 1)) else mret tt.

Section Server.
(** [private] is the memory policy that forbids shared integers as values. *)
Context (junk : Z -> Z) (private : bool) (now : Z).

(** [c->argv[j]] *)
Definition arg (j : nat) : M oid := fun st => match argv st !! j with Some id => Ok (st, id) | None => Fault OutOfBounds end.
(** The text of an argument that is an sds. *)
Definition arg_text (j : nat) : M (list Z) :=
  id ← arg j; o ← fetch id; s ← lift (as_sds o); lift (rd (buf s) 0 (sdslen s)).

(** The argument vector: the parser creates its objects, [freeClientArgv] drops them. *)
Fixpoint create_argv (args : list (list Z)) : M (list oid) :=
  match args with
  | [] => mret []
  | a :: args => o ← lift (createStringObject junk (Some a) (zlen a)); id ← alloc o; ids ← create_argv args; mret (id :: ids)
  end.
Fixpoint free_argv (ids : list oid) : M unit :=
  match ids with [] => mret tt | id :: ids => _ ← decrRefCount id; free_argv ids end.

(** The new vector gets its references before the old one gives up its own. *)
Fixpoint incr_all (ids : list oid) : M unit :=
  match ids with [] => mret tt | id :: ids => _ ← incrRefCount id; incr_all ids end.
Definition rewriteClientCommandVector (ids : list oid) : M unit :=
  _ ← incr_all ids;
  old ← gets argv;
  _ ← free_argv old;
  modify (fun st => set_argv st ids).

(** [c->argv[j] = tryObjectEncoding(c->argv[j])] *)
Definition encode_arg (j : nat) : M unit :=
  id ← arg j;
  o ← fetch id;
  e ← lift (tryObjectEncoding junk private o);
  match e with
  | ESame o' => match id with Shared v => mret tt | Heap _ => store id o' end
  | ENew o' => id' ← alloc o'; _ ← decrRefCount id; modify (fun st => set_argv st (<[j := id']> (argv st)))
  | EShared v => _ ← decrRefCount id; modify (fun st => set_argv st (<[j := Shared v]> (argv st)))
  end.

(** ** Replies *)

Definition crlf : list Z := [13; 10].
Definition addReplyString (x : list Z) : M unit := modify (fun st => set_out st (out st ++ x)).
Definition reply_ok : list Z := str "+OK" ++ crlf.
Definition reply_nullbulk : list Z := str "$-1" ++ crlf.
Definition reply_emptybulk : list Z := str "$0" ++ crlf ++ crlf.
Definition reply_czero : list Z := str ":0" ++ crlf.
Definition reply_cone : list Z := str ":1" ++ crlf.
Definition reply_wrongtype : list Z := str "-WRONGTYPE Operation against a key holding the wrong kind of value" ++ crlf.
Definition reply_syntaxerr : list Z := str "-ERR syntax error" ++ crlf.

Definition reply_nokeyerr : list Z := str "-ERR no such key" ++ crlf.

Definition addReplyError (msg : list Z) : M unit :=
  _ ← addReplyString (str "-ERR "); _ ← addReplyString msg; addReplyString crlf.
(** Newlines of the formatted text become spaces. *)
Definition one_line (msg : list Z) : list Z := map (fun c => if (c =? 13) || (c =? 10) then 32 else c) msg.
Definition addReplyErrorFormat (msg : list Z) : M unit := addReplyError (one_line msg).

(** An object, as its text. *)
Definition addReply (id : oid) : M unit := o ← fetch id; x ← lift (string_bytes junk 32 o); addReplyString x.

(** [shared.mbulkhdr[j]] and [shared.bulkhdr[j]] *)
Definition OBJ_SHARED_BULKHDR_LEN : Z := 32.
Definition shared_hdr (prefix j : Z) : list Z := prefix :: dec j ++ crlf.

Definition addReplyLongLongWithPrefix (ll prefix : Z) : M unit :=
  if ((prefix =? chr "*") || (prefix =? chr "$")) && (ll <? OBJ_SHARED_BULKHDR_LEN) && (0 <=? ll) then addReplyString (shared_hdr prefix ll) else
  '(b, len) ← lift (ll2string (stack_buf junk 127) 127 ll);
  x ← lift (rd b 0 len);
  addReplyString (prefix :: x ++ crlf).

Definition addReplyLongLong (ll : Z) : M unit :=
  if ll =? 0 then addReplyString reply_czero else if ll =? 1 then addReplyString reply_cone
  else addReplyLongLongWithPrefix ll (chr ":").

(** [while ((n = n/10) != 0) len++] *)
Fixpoint radix_len (fuel : nat) (n len : Z) : res Z :=
  let n := Z.quot n 10 in
  if n =? 0 then Ok len else
  match fuel with O => Fault OutOfFuel | S fuel => radix_len fuel n (len + 1) end.

Definition addReplyBulkLen (o : robj) : M unit :=
  len ← (if sdsEncodedObject o then s ← lift (as_sds o); mret (sdslen s)
         else n ← lift (as_long o);
              if n <? 0 then lift (radix_len 20 (i64 (- n)) 2) else lift (radix_len 20 n 1));
  if len <? OBJ_SHARED_BULKHDR_LEN then addReplyString (shared_hdr (chr "$") len)
  else addReplyLongLongWithPrefix len (chr "$").

Definition addReplyBulk (id : oid) : M unit :=
  o ← fetch id; _ ← addReplyBulkLen o; _ ← addReply id; addReplyString crlf.

Definition addReplyBulkCBuffer (x : list Z) : M unit :=
  _ ← addReplyLongLongWithPrefix (zlen x) (chr "$"); _ ← addReplyString x; addReplyString crlf.

(** ** The keyspace: db.c *)

Definition dbExists (key : list Z) : M bool := gets (fun st => bool_decide (is_Some (dict st !! key))).

(** [dictDelete] on the main dictionary, whose value destructor is [decrRefCount]. *)
Definition dict_delete (key : list Z) : M bool :=
  v ← gets (fun st => dict st !! key);
  match v with
  | None => mret false
  | Some id => _ ← modify (fun st => set_dict st (base.delete key (dict st))); _ ← decrRefCount id; mret true
  end.

Definition dbSyncDelete (key : list Z) : M bool :=
  _ ← modify (fun st => set_expires st (base.delete key (expires st)));
  dict_delete key.

Definition getExpire (key : list Z) : M Z :=
  e ← gets (fun st => expires st !! key);
  match e with
  | None => mret (-1)
  | Some when => ex ← dbExists key; _ ← lift (assert_ ex); mret when
  end.

(** [server.stat_expiredkeys++] *)
Definition count_expired : M unit := modify (fun st => let s := counts st in set_counts st (mk_stats (dirty s) (stat_expiredkeys s + 1) (stat_keyspace_hits s) (stat_keyspace_misses s))).
(** [server.stat_keyspace_hits++] or [server.stat_keyspace_misses++] *)
Definition count_lookup (hit : bool) : M unit := modify (fun st => let s := counts st in
  set_counts st (if hit then mk_stats (dirty s) (stat_expiredkeys s) (stat_keyspace_hits s + 1) (stat_keyspace_misses s)
                 else mk_stats (dirty s) (stat_expiredkeys s) (stat_keyspace_hits s) (stat_keyspace_misses s + 1))).

Definition expireIfNeeded (key : list Z) : M bool :=
  when ← getExpire key;
  if when <? 0 then mret false else
  if now <=? when then mret false else
  _ ← count_expired;
  dbSyncDelete key.

Definition lookupKey (key : list Z) : M (option oid) := gets (fun st => dict st !! key).

Definition lookupKeyRead (key : list Z) : M (option oid) :=
  ex ← expireIfNeeded key;
  if ex : bool then mret None else
  val ← lookupKey key;
  _ ← count_lookup (bool_decide (is_Some val));
  mret val.

Definition lookupKeyWrite (key : list Z) : M (option oid) :=
  _ ← expireIfNeeded key; lookupKey key.

Definition dbAdd (key : list Z) (val : oid) : M unit :=
  ex ← dbExists key;
  _ ← lift (assert_ (negb ex));
  modify (fun st => set_dict st (<[key := val]> (dict st))).

(** [dictReplace] stores the new value before it releases the old one. *)
Definition dbOverwrite (key : list Z) (val : oid) : M unit :=
  old ← gets (fun st => dict st !! key);
  match old with
  | None => lift (Fault AssertFailed)
  | Some old => _ ← modify (fun st => set_dict st (<[key := val]> (dict st))); decrRefCount old
  end.

Definition removeExpire (key : list Z) : M bool :=
  ex ← dbExists key;
  _ ← lift (assert_ ex);
  had ← gets (fun st => bool_decide (is_Some (expires st !! key)));
  _ ← modify (fun st => set_expires st (base.delete key (expires st)));
  mret had.

Definition setKey (key : list Z) (val : oid) : M unit :=
  o ← lookupKeyWrite key;
  _ ← match o with None => dbAdd key val | Some _ => dbOverwrite key val end;
  _ ← incrRefCount val;
  _ ← removeExpire key;
  mret tt.

Definition setExpire (key : list Z) (when : Z) : M unit :=
  ex ← dbExists key;
  _ ← lift (assert_ ex);
  modify (fun st => set_expires st (<[key := when]> (expires st))).

Definition dbUnshareStringValue (key : list Z) (id : oid) : M oid :=
  o ← fetch id;
  _ ← lift (assert_ (bool_decide (type o = OBJ_STRING)));
  if negb (refcount o =? 1) || negb (bool_decide (encoding o = OBJ_ENCODING_RAW)) then
    d ← lift (getDecodedObject junk o);
    did ← match d with None => _ ← incrRefCount id; mret id | Some d => alloc d end;
    dec ← fetch did;
    s ← lift (as_sds dec);
    raw ← lift (createRawStringObject junk (Some (buf s)) (sdslen s));
    new ← alloc raw;
    _ ← decrRefCount did;
    _ ← dbOverwrite key new;
    mret new
  else mret id.

(** [checkType]: [true] after the error reply. *)
Definition checkType (id : oid) : M bool :=
  o ← fetch id;
  if bool_decide (type o = OBJ_STRING) then mret false else _ ← addReplyString reply_wrongtype; mret true.

Definition err_not_integer : list Z := str "value is not an integer or out of range".
(** [msg] is the error to report, or NULL. *)
Definition getLongLongFromObjectOrReply (msg : option (list Z)) (o : option robj) : M (option Z) :=
  v ← lift (getLongLongFromObject o);
  match v with None => _ ← addReplyError (default err_not_integer msg); mret None | Some v => mret (Some v) end.
Definition getLongFromObjectOrReply (msg : option (list Z)) (o : option robj) : M (option Z) :=
  v ← getLongLongFromObjectOrReply msg o;
  match v with
  | None => mret None
  | Some v => if (v <? LONG_MIN) || (LONG_MAX <? v) then _ ← addReplyError (default (str "value is out of range") msg); mret None else mret (Some v)
  end.
Definition long_arg (j : nat) : M (option Z) := id ← arg j; o ← fetch id; getLongLongFromObjectOrReply None (Some o).

(** [server.dirty += n] *)
Definition add_dirty (n : Z) : M unit := modify (fun st => let s := counts st in set_counts st (mk_stats (dirty s + n) (stat_expiredkeys s) (stat_keyspace_hits s) (stat_keyspace_misses s))).

(** The test and deletion at the heart of the background expiry cycle, on an entry of
    the expires dictionary. *)
Definition activeExpireCycleTryExpire (key : list Z) (t : Z) : M bool :=
  if t <? now then
    o ← lift (createStringObject junk (Some key) (zlen key));
    keyobj ← alloc o;
    _ ← dbSyncDelete key;
    _ ← decrRefCount keyobj;
    _ ← count_expired;
    mret true
  else mret false.

End Server.
End Db.
