(* ===== verification/StringCmd.v ===== *)
(** * String commands: src/redis-stable/src/t_string.c, with the commands on any value of
    db.c and expire.c

    Handlers in the monad of [Db]. [private] is the memory policy that forbids shared
    integers as values. INCRBYFLOAT and UNLINK are left out (floating point, background
    freeing). [Command] has the command table, [StringCmdOps]
    verifies the commands. *)
From stdpp Require Import gmap.
From S2P Require Import Prelude StateM Util Sds SdsText Object Db.

Module StringCmd.
Import Sds SdsText Object Db.

Section Server.
Context (junk : Z -> Z) (private : bool) (now : Z).

(** ** Commands: t_string.c *)

Definition checkStringLength (size : Z) : M bool :=
  if 512 * 1024 * 1024 <? i64 size then _ ← addReplyError (str "string exceeds maximum allowed size (512MB)"); mret false else mret true.

(** The sds of an object that is about to be reallocated: one that lies in the chunk of
    its object must not be. *)
Definition own_sds (o : robj) : res sds := if bool_decide (encoding o = OBJ_ENCODING_RAW) then as_sds o else Fault OutOfBounds.

Definition OBJ_SET_NO_FLAGS : Z := 0.
Definition OBJ_SET_NX : Z := 1.
Definition OBJ_SET_XX : Z := 2.
Definition OBJ_SET_EX : Z := 4.
Definition OBJ_SET_PX : Z := 8.
Definition has (flags f : Z) : bool := negb (Z.land flags f =? 0).

(** [expire] is the position of the argument with the time, [seconds] its unit;
    [ok_reply] and [abort_reply] are the replies to give. *)
Definition setGenericCommand (name : list Z) (flags : Z) (key : nat) (val : nat) (expire : option nat) (seconds : bool) (ok_reply abort_reply : list Z) : M unit :=
  k ← arg_text key;
  v ← arg val;
  ms ← match expire with
       | None => mret (Some 0)
       | Some j =>
         w ← long_arg j;
         match w with
         | None => mret None
         | Some w =>
           if w <=? 0 then _ ← addReplyErrorFormat (str "invalid expire time in " ++ name); mret None
           else mret (Some (if seconds then i64 (w * 1000) else w))
         end
       end;
  match ms with
  | None => mret tt
  | Some ms =>
    stop ← (if has flags OBJ_SET_NX then o ← lookupKeyWrite now k; mret (bool_decide (is_Some o)) else mret false);
    stop ← (if stop : bool then mret true
            else if has flags OBJ_SET_XX then o ← lookupKeyWrite now k; mret (negb (bool_decide (is_Some o))) else mret false);
    if stop : bool then addReplyString abort_reply else
    _ ← setKey now k v;
    _ ← add_dirty 1;
    _ ← match expire with None => mret tt | Some _ => setExpire k (i64 (now + ms)) end;
    addReplyString ok_reply
  end.

(** [(a[0] == 'n' || a[0] == 'N') && (a[1] == 'x' || a[1] == 'X') && a[2] == '\0'] *)
Definition opt_is (a : list Z) (c0 c1 : Z) : res bool :=
  x ← peek a 0;
  if negb ((x =? c0) || (x =? c0 - 32)) then Ok false else
  y ← peek a 1;
  if negb ((y =? c1) || (y =? c1 - 32)) then Ok false else
  z ← peek a 2;
  Ok (z =? 0).

(** The option loop of SET; [None] after a syntax error. *)
Fixpoint set_options (fuel : nat) (j : nat) (flags : Z) (expire : option nat) (seconds : bool) : M (option (Z * option nat * bool)) :=
  argc ← gets (fun st => length (argv st));
  if (argc <=? j)%nat then mret (Some (flags, expire, seconds)) else
  match fuel with
  | O => lift (Fault OutOfFuel)
  | S fuel =>
    id ← arg j; o ← fetch id; s ← lift (as_sds o);
    let a := buf s in
    let next := negb (j =? argc - 1)%nat in
    nx ← lift (opt_is a (chr "n") (chr "x"));
    if nx && negb (has flags OBJ_SET_XX) then set_options fuel (S j) (Z.lor flags OBJ_SET_NX) expire seconds else
    xx ← lift (opt_is a (chr "x") (chr "x"));
    if xx && negb (has flags OBJ_SET_NX) then set_options fuel (S j) (Z.lor flags OBJ_SET_XX) expire seconds else
    ex ← lift (opt_is a (chr "e") (chr "x"));
    if ex && negb (has flags OBJ_SET_PX) && next then set_options fuel (S (S j)) (Z.lor flags OBJ_SET_EX) (Some (S j)) true else
    px ← lift (opt_is a (chr "p") (chr "x"));
    if px && negb (has flags OBJ_SET_EX) && next then set_options fuel (S (S j)) (Z.lor flags OBJ_SET_PX) (Some (S j)) false else
    _ ← addReplyString reply_syntaxerr; mret None
  end.

Definition setCommand : M unit :=
  argc ← gets (fun st => length (argv st));
  r ← set_options argc 3 OBJ_SET_NO_FLAGS None true;
  match r with
  | None => mret tt
  | Some (flags, expire, seconds) =>
    _ ← encode_arg junk private 2;
    setGenericCommand (str "set") flags 1 2 expire seconds reply_ok reply_nullbulk
  end.

Definition setnxCommand : M unit :=
  _ ← encode_arg junk private 2; setGenericCommand (str "setnx") OBJ_SET_NX 1 2 None true reply_cone reply_czero.
Definition setexCommand : M unit :=
  _ ← encode_arg junk private 3; setGenericCommand (str "setex") OBJ_SET_NO_FLAGS 1 3 (Some 2%nat) true reply_ok reply_nullbulk.
Definition psetexCommand : M unit :=
  _ ← encode_arg junk private 3; setGenericCommand (str "psetex") OBJ_SET_NO_FLAGS 1 3 (Some 2%nat) false reply_ok reply_nullbulk.

(** [true] is [C_OK]. *)
Definition getGenericCommand : M bool :=
  k ← arg_text 1;
  o ← lookupKeyRead now k;
  match o with
  | None => _ ← addReplyString reply_nullbulk; mret true
  | Some id =>
    o ← fetch id;
    if negb (bool_decide (type o = OBJ_STRING)) then _ ← addReplyString reply_wrongtype; mret false
    else _ ← addReplyBulk junk id; mret true
  end.

Definition getCommand : M unit := _ ← getGenericCommand; mret tt.

Definition getsetCommand : M unit :=
  ok ← getGenericCommand;
  if negb ok then mret tt else
  _ ← encode_arg junk private 2;
  k ← arg_text 1; v ← arg 2;
  _ ← setKey now k v;
  add_dirty 1.

Definition setrangeCommand : M unit :=
  value ← arg_text 3;
  offset ← long_arg 2;
  match offset with
  | None => mret tt
  | Some offset =>
    if offset <? 0 then addReplyError (str "offset is out of range") else
    k ← arg_text 1;
    o ← lookupKeyWrite now k;
    id ← match o with
         | None =>
           if zlen value =? 0 then _ ← addReplyString reply_czero; mret None else
           ok ← checkStringLength (u64 (offset + zlen value));
           if negb ok then mret None else
           s ← lift (sdsnewlen junk None (u64 (offset + zlen value)));
           id ← alloc (createObject OBJ_STRING (PSds s));
           _ ← dbAdd k id;
           mret (Some id)
         | Some id =>
           bad ← checkType id;
           if bad : bool then mret None else
           o ← fetch id;
           olen ← lift (stringObjectLen o);
           if zlen value =? 0 then _ ← addReplyLongLong junk olen; mret None else
           ok ← checkStringLength (u64 (offset + zlen value));
           if negb ok then mret None else
           id ← dbUnshareStringValue junk k id;
           mret (Some id)
         end;
    match id with
    | None => mret tt
    | Some id =>
      o ← fetch id;
      s ← lift (own_sds o);
      s ← (if 0 <? zlen value then
             s ← lift (sdsgrowzero junk s (u64 (offset + zlen value)));
             b ← lift (wr (buf s) offset value);
             _ ← store id (with_ptr o (PSds (with_buf s b)));
             _ ← add_dirty 1;
             mret (with_buf s b)
           else mret s);
      addReplyLongLong junk (sdslen s)
    end
  end.

Definition getrangeCommand : M unit :=
  start ← long_arg 2;
  match start with
  | None => mret tt
  | Some start =>
    stop ← long_arg 3;
    match stop with
    | None => mret tt
    | Some stop =>
      k ← arg_text 1;
      o ← lookupKeyRead now k;
      match o with
      | None => addReplyString reply_emptybulk
      | Some id =>
        bad ← checkType id;
        if bad : bool then mret tt else
        o ← fetch id;
        x ← lift (string_bytes junk 32 o);
        let strlen := zlen x in
        if (start <? 0) && (stop <? 0) && (stop <? start) then addReplyString reply_emptybulk else
        let start := if start <? 0 then i64 (u64 (strlen + start)) else start in
        let stop := if stop <? 0 then i64 (u64 (strlen + stop)) else stop in
        let start := if start <? 0 then 0 else start in
        let stop := if stop <? 0 then 0 else stop in
        let stop := if strlen <=? u64 stop then i64 (u64 (strlen - 1)) else stop in
        if (stop <? start) || (strlen =? 0) then addReplyString reply_emptybulk
        else y ← lift (rd x start (stop - start + 1)); addReplyBulkCBuffer junk y
      end
    end
  end.

Fixpoint mget_loop (n : nat) (j : nat) : M unit :=
  match n with
  | O => mret tt
  | S n =>
    k ← arg_text j;
    o ← lookupKeyRead now k;
    _ ← match o with
        | None => addReplyString reply_nullbulk
        | Some id => o ← fetch id; if negb (bool_decide (type o = OBJ_STRING)) then addReplyString reply_nullbulk else addReplyBulk junk id
        end;
    mget_loop n (S j)
  end.
Definition mgetCommand : M unit :=
  argc ← gets (fun st => length (argv st));
  _ ← addReplyLongLongWithPrefix junk (Z.of_nat argc - 1) (chr "*");
  mget_loop (argc - 1) 1.

(** [for (j = 1; j < c->argc; j += 2)], [n] pairs *)
Fixpoint busy_loop (n : nat) (j : nat) (busykeys : Z) : M Z :=
  match n with
  | O => mret busykeys
  | S n => k ← arg_text j; o ← lookupKeyWrite now k; busy_loop n (S (S j)) (if bool_decide (is_Some o) then busykeys + 1 else busykeys)
  end.
Fixpoint mset_loop (n : nat) (j : nat) : M unit :=
  match n with
  | O => mret tt
  | S n => _ ← encode_arg junk private (S j); k ← arg_text j; v ← arg (S j); _ ← setKey now k v; mset_loop n (S (S j))
  end.
Definition msetGenericCommand (nx : bool) : M unit :=
  argc ← gets (fun st => length (argv st));
  if Nat.even argc then addReplyError (str "wrong number of arguments for MSET") else
  let n := ((argc - 1) / 2)%nat in
  busykeys ← (if nx then busy_loop n 1 0 else mret 0);
  if negb (busykeys =? 0) then addReplyString reply_czero else
  _ ← mset_loop n 1;
  _ ← add_dirty (Z.of_nat n);
  addReplyString (if nx then reply_cone else reply_ok).

Definition incrDecrCommand (incr : Z) : M unit :=
  k ← arg_text 1;
  o ← lookupKeyWrite now k;
  bad ← match o with None => mret false | Some id => checkType id end;
  if bad : bool then mret tt else
  ob ← match o with None => mret None | Some id => o ← fetch id; mret (Some o) end;
  value ← getLongLongFromObjectOrReply None ob;
  match value with
  | None => mret tt
  | Some oldvalue =>
    if (incr <? 0) && (oldvalue <? 0) && (incr <? LLONG_MIN - oldvalue) || (0 <? incr) && (0 <? oldvalue) && (LLONG_MAX - oldvalue <? incr)
    then addReplyError (str "increment or decrement would overflow") else
    let value := oldvalue + incr in
    new ← match o, ob with
          | Some id, Some ob' =>
            if (refcount ob' =? 1) && bool_decide (encoding ob' = OBJ_ENCODING_INT) && ((value <? 0) || (OBJ_SHARED_INTEGERS <=? value)) && (LONG_MIN <=? value) && (value <=? LONG_MAX)
            then _ ← store id (with_ptr ob' (PLong value)); mret id
            else m ← lift (createStringObjectFromLongLong junk value); new ← place m; _ ← dbOverwrite k new; mret new
          | _, _ => m ← lift (createStringObjectFromLongLong junk value); new ← place m; _ ← dbAdd k new; mret new
          end;
    _ ← add_dirty 1;
    _ ← addReplyString (str ":");
    _ ← addReply junk new;
    addReplyString crlf
  end.
Definition incrCommand : M unit := incrDecrCommand 1.
Definition decrCommand : M unit := incrDecrCommand (-1).
Definition incrbyCommand : M unit :=
  v ← long_arg 2; match v with None => mret tt | Some v => incrDecrCommand v end.
(** [-incr] wraps on the least integer. *)
Definition decrbyCommand : M unit :=
  v ← long_arg 2; match v with None => mret tt | Some v => incrDecrCommand (i64 (- v)) end.

Definition appendCommand : M unit :=
  k ← arg_text 1;
  o ← lookupKeyWrite now k;
  totlen ← match o with
    | None =>
      _ ← encode_arg junk private 2;
      v ← arg 2;
      _ ← dbAdd k v;
      _ ← incrRefCount v;
      o ← fetch v;
      n ← lift (stringObjectLen o);
      mret (Some n)
    | Some id =>
      bad ← checkType id;
      if bad : bool then mret None else
      x ← arg_text 2;
      o ← fetch id;
      n ← lift (stringObjectLen o);
      ok ← checkStringLength (u64 (n + zlen x));
      if negb ok then mret None else
      id ← dbUnshareStringValue junk k id;
      o ← fetch id;
      s ← lift (own_sds o);
      s ← lift (sdscatlen junk s x (zlen x));
      _ ← store id (with_ptr o (PSds s));
      mret (Some (sdslen s))
    end;
  match totlen with
  | None => mret tt
  | Some n => _ ← add_dirty 1; addReplyLongLong junk n
  end.

Definition strlenCommand : M unit :=
  k ← arg_text 1;
  o ← lookupKeyRead now k;
  match o with
  | None => addReplyString reply_czero
  | Some id =>
    bad ← checkType id;
    if bad : bool then mret tt else o ← fetch id; n ← lift (stringObjectLen o); addReplyLongLong junk n
  end.

(** ** Commands of db.c and expire.c on any value *)

Fixpoint del_loop (n : nat) (j : nat) (numdel : Z) : M Z :=
  match n with
  | O => mret numdel
  | S n =>
    k ← arg_text j;
    _ ← expireIfNeeded now k;
    d ← dbSyncDelete k;
    if d : bool then _ ← add_dirty 1; del_loop n (S j) (numdel + 1) else del_loop n (S j) numdel
  end.
Definition delCommand : M unit :=
  argc ← gets (fun st => length (argv st)); n ← del_loop (argc - 1) 1 0; addReplyLongLong junk n.

Fixpoint exists_loop (n : nat) (j : nat) (count : Z) : M Z :=
  match n with
  | O => mret count
  | S n => k ← arg_text j; _ ← expireIfNeeded now k; ex ← dbExists k; exists_loop n (S j) (if ex : bool then count + 1 else count)
  end.
Definition existsCommand : M unit :=
  argc ← gets (fun st => length (argv st)); n ← exists_loop (argc - 1) 1 0; addReplyLongLong junk n.

Definition expireGenericCommand (basetime : Z) (seconds : bool) : M unit :=
  k ← arg_text 1;
  w ← long_arg 2;
  match w with
  | None => mret tt
  | Some w =>
    let when := if seconds then i64 (w * 1000) else w in
    let when := i64 (when + basetime) in
    o ← lookupKeyWrite now k;
    match o with
    | None => addReplyString reply_czero
    | Some _ =>
      if when <=? now then
        d ← dbSyncDelete k;
        _ ← lift (assert_ d);
        _ ← add_dirty 1;
        del ← gets shared_del;
        key ← arg 1;
        _ ← rewriteClientCommandVector [Heap del; key];
        addReplyString reply_cone
      else
        _ ← setExpire k when;
        _ ← addReplyString reply_cone;
        add_dirty 1
    end
  end.

Definition ttlGenericCommand (output_ms : bool) : M unit :=
  k ← arg_text 1;
  o ← lookupKeyRead now k;
  match o with
  | None => addReplyLongLong junk (-2)
  | Some _ =>
    expire ← getExpire k;
    let ttl := if negb (expire =? -1) then (let t := i64 (expire - now) in if t <? 0 then 0 else t) else -1 in
    if ttl =? -1 then addReplyLongLong junk (-1)
    else addReplyLongLong junk (if output_ms then ttl else Z.quot (i64 (ttl + 500)) 1000)
  end.

Definition persistCommand : M unit :=
  k ← arg_text 1;
  o ← lookupKeyWrite now k;
  match o with
  | None => addReplyString reply_czero
  | Some _ =>
    had ← removeExpire k;
    if had : bool then _ ← addReplyString reply_cone; add_dirty 1 else addReplyString reply_czero
  end.

Fixpoint touch_loop (n : nat) (j : nat) (touched : Z) : M Z :=
  match n with
  | O => mret touched
  | S n => k ← arg_text j; o ← lookupKeyRead now k; touch_loop n (S j) (if bool_decide (is_Some o) then touched + 1 else touched)
  end.
Definition touchCommand : M unit :=
  argc ← gets (fun st => length (argv st)); n ← touch_loop (argc - 1) 1 0; addReplyLongLong junk n.

(** A reference is kept on the value while it moves from one key to the other. *)
Definition renameGenericCommand (nx : bool) : M unit :=
  k ← arg_text 1;
  k2 ← arg_text 2;
  let samekey := contents_cmp k k2 =? 0 in
  o ← lookupKeyWrite now k;
  match o with
  | None => addReplyString reply_nokeyerr
  | Some id =>
    if samekey then addReplyString (if nx then reply_czero else reply_ok) else
    _ ← incrRefCount id;
    expire ← getExpire k;
    o2 ← lookupKeyWrite now k2;
    stop ← match o2 with
           | None => mret false
           | Some _ =>
             if nx then _ ← decrRefCount id; _ ← addReplyString reply_czero; mret true
             else _ ← dbSyncDelete k2; mret false
           end;
    if stop : bool then mret tt else
    _ ← dbAdd k2 id;
    _ ← (if negb (expire =? -1) then setExpire k2 expire else mret tt);
    _ ← dbSyncDelete k;
    _ ← add_dirty 1;
    addReplyString (if nx then reply_cone else reply_ok)
  end.

End Server.
End StringCmd.
