(* ===== verification/BitCmd.v ===== *)
(** * Bit commands: src/redis-stable/src/bitops.c, the commands

    Handlers in the monad of [Db] over the functions of [Bitops]. [addr] gives the address
    of the string of an object. [BitCmdOps] verifies the commands. *)
From stdpp Require Import gmap.
From S2P Require Import Prelude StateM Util Sds SdsText Object Db StringCmd Bitops.

Module BitCmd.
Import Sds SdsText Object Db StringCmd Bitops.

Section Server.
Context (junk : Z -> Z) (addr : oid -> Z) (now : Z).

(** The sds of an argument. *)
Definition arg_sds (j : nat) : M sds := id ← arg j; o ← fetch id; lift (as_sds o).

Definition getBitOffsetFromArgument (j : nat) (hash : bool) (bits : Z) : M (option Z) :=
  let err := str "bit offset is not an integer or out of range" in
  s ← arg_sds j;
  c ← lift (peek (buf s) 0);
  let usehash := (c =? chr "#") && hash && (0 <? bits) in
  x ← lift (rd (buf s) (Z.b2z usehash) (sdslen s - Z.b2z usehash));
  match string2ll x with
  | None => _ ← addReplyError err; mret None
  | Some loffset =>
    let loffset := if usehash then i64 (loffset * bits) else loffset in
    if (loffset <? 0) || (512 * 1024 * 1024 <=? Z.shiftr (u64 loffset) 3) then _ ← addReplyError err; mret None else mret (Some loffset)
  end.

(** Whether the type is signed, and its width. *)
Definition getBitfieldTypeFromArgument (j : nat) : M (option (bool * Z)) :=
  let err := str "Invalid bitfield type. Use something like i16 u8. Note that u64 is not supported but i64 is." in
  s ← arg_sds j;
  c ← lift (peek (buf s) 0);
  if negb (c =? chr "i") && negb (c =? chr "u") then _ ← addReplyError err; mret None else
  let sign := c =? chr "i" in
  n ← lift (strlen (zdrop 1 (buf s)));
  x ← lift (rd (buf s) 1 n);
  match string2ll x with
  | None => _ ← addReplyError err; mret None
  | Some llbits =>
    if (llbits <? 1) || sign && (64 <? llbits) || negb sign && (63 <? llbits) then _ ← addReplyError err; mret None else mret (Some (sign, llbits))
  end.

(** The string is created, or grown so that bit [maxbit] exists. *)
Definition lookupStringForBitCommand (maxbit : Z) : M (option oid) :=
  let byte := Z.shiftr maxbit 3 in
  k ← arg_text 1;
  o ← lookupKeyWrite now k;
  match o with
  | None =>
    s ← lift (sdsnewlen junk None (u64 (byte + 1)));
    id ← alloc (createObject OBJ_STRING (PSds s));
    _ ← dbAdd k id;
    mret (Some id)
  | Some id =>
    bad ← checkType id;
    if bad : bool then mret None else
    id ← dbUnshareStringValue junk k id;
    o ← fetch id;
    s ← lift (own_sds o);
    s ← lift (sdsgrowzero junk s (u64 (byte + 1)));
    _ ← store id (with_ptr o (PSds s));
    mret (Some id)
  end.

(** The memory that holds the text, and the length of the text. *)
Definition LONG_STR_SIZE : Z := 21.
Definition getObjectReadOnlyString (o : robj) : res (list Z * Z) :=
  _ ← assert_ (bool_decide (type o = OBJ_STRING));
  if bool_decide (encoding o = OBJ_ENCODING_INT) then v ← as_long o; ll2string (stack_buf junk LONG_STR_SIZE) LONG_STR_SIZE v
  else s ← as_sds o; Ok (buf s, sdslen s).

Definition setbitCommand : M unit :=
  let err := str "bit is not an integer or out of range" in
  bitoffset ← getBitOffsetFromArgument 2 false 0;
  match bitoffset with
  | None => mret tt
  | Some bitoffset =>
    id ← arg 3; o ← fetch id; on ← getLongFromObjectOrReply (Some err) (Some o);
    match on with
    | None => mret tt
    | Some on =>
      if negb (Z.land on (Z.lnot 1) =? 0) then addReplyError err else
      r ← lookupStringForBitCommand bitoffset;
      match r with
      | None => mret tt
      | Some id =>
        o ← fetch id;
        s ← lift (as_sds o);
        let byte := Z.shiftr bitoffset 3 in
        byteval ← lift (peek8 (buf s) byte);
        let bit := 7 - Z.land bitoffset 0x7 in
        let bitval := Z.land byteval (Z.shiftl 1 bit) in
        let byteval := Z.land byteval (Z.lnot (Z.shiftl 1 bit)) in
        let byteval := Z.lor byteval (Z.shiftl (Z.land on 0x1) bit) in
        b ← lift (poke (buf s) byte (u8 byteval));
        _ ← store id (with_ptr o (PSds (with_buf s b)));
        _ ← add_dirty 1;
        addReplyString (if negb (bitval =? 0) then reply_cone else reply_czero)
      end
    end
  end.

Definition getbitCommand : M unit :=
  bitoffset ← getBitOffsetFromArgument 2 false 0;
  match bitoffset with
  | None => mret tt
  | Some bitoffset =>
    k ← arg_text 1;
    o ← lookupKeyRead now k;
    match o with
    | None => addReplyString reply_czero
    | Some id =>
      bad ← checkType id;
      if bad : bool then mret tt else
      o ← fetch id;
      let byte := Z.shiftr bitoffset 3 in
      let bit := 7 - Z.land bitoffset 0x7 in
      '(p, len) ← (if sdsEncodedObject o then s ← lift (as_sds o); mret (buf s, sdslen s)
                   else v ← lift (as_long o); lift (ll2string (stack_buf junk 32) 32 v));
      bitval ← (if byte <? len then b ← lift (peek8 p byte); mret (Z.land b (Z.shiftl 1 bit)) else mret 0);
      addReplyString (if negb (bitval =? 0) then reply_cone else reply_czero)
    end
  end.

(** ** BITOP *)

Definition name_is (name : list Z) (s : list Z) : bool := bool_decide (map tolower (cstring name) = s).
Definition bitop_name (name : list Z) : option bitop :=
  if name_is name (str "and") then Some BITOP_AND else if name_is name (str "or") then Some BITOP_OR
  else if name_is name (str "xor") then Some BITOP_XOR else if name_is name (str "not") then Some BITOP_NOT else None.

(** [if (objects[i]) decrRefCount(objects[i])] *)
Fixpoint release_objects (objects : list (option oid)) : M unit :=
  match objects with
  | [] => mret tt
  | o :: objects => _ ← match o with Some id => decrRefCount id | None => mret tt end; release_objects objects
  end.

(** The sources from argument [j + 3] on: objects, strings with lengths, [minlen] and
    [maxlen]. [None] after an error. *)
Fixpoint bitop_sources (n : nat) (j : nat) (objects : list (option oid)) (srcs : list (list Z * Z)) (minlen maxlen : Z) : M (option (list (option oid) * list (list Z * Z) * Z * Z)) :=
  match n with
  | O => mret (Some (objects, srcs, minlen, maxlen))
  | S n =>
    k ← arg_text (j + 3);
    o ← lookupKeyRead now k;
    match o with
    | None => bitop_sources n (S j) (objects ++ [None]) (srcs ++ [([], 0)]) 0 maxlen
    | Some id =>
      bad ← checkType id;
      if bad : bool then _ ← release_objects objects; mret None else
      o ← fetch id;
      x ← lift (getDecodedObject junk o);
      did ← match x with None => _ ← incrRefCount id; mret id | Some x => alloc x end;
      dec ← fetch did;
      s ← lift (as_sds dec);
      let len := sdslen s in
      bitop_sources n (S j) (objects ++ [Some did]) (srcs ++ [(buf s, len)])
        (if (j =? 0)%nat || (len <? minlen) then len else minlen) (if maxlen <? len then len else maxlen)
    end
  end.

Definition bitopCommand : M unit :=
  opname ← arg_text 1;
  match bitop_name opname with
  | None => addReplyString reply_syntaxerr
  | Some op =>
    argc ← gets (fun st => length (argv st));
    if bool_decide (op = BITOP_NOT) && negb (argc =? 4)%nat then addReplyError (str "BITOP NOT must be called with a single source key.") else
    r ← bitop_sources (argc - 3) 0 [] [] 0 0;
    match r with
    | None => mret tt
    | Some (objects, srcs, minlen, maxlen) =>
      res ← (if negb (maxlen =? 0) then
               s ← lift (sdsnewlen junk None maxlen);
               match srcs with
               | [] => lift (Fault OutOfBounds)
               | first :: rest => b ← lift (bitop_compute op first rest (buf s) minlen maxlen); mret (Some (with_buf s b))
               end
             else mret None);
      _ ← release_objects objects;
      targetkey ← arg_text 2;
      _ ← match res with
          | Some s =>
            o ← alloc (createObject OBJ_STRING (PSds s));
            _ ← setKey now targetkey o;
            decrRefCount o
          | None => _ ← dbSyncDelete targetkey; mret tt
          end;
      _ ← add_dirty 1;
      addReplyLongLong junk maxlen
    end
  end.

(** ** BITCOUNT and BITPOS *)

(** [if (start < 0) start = strlen+start], and so on. *)
Definition clip_range (start stop strlen : Z) : Z * Z :=
  let start := if start <? 0 then i64 (strlen + start) else start in
  let stop := if stop <? 0 then i64 (strlen + stop) else stop in
  let start := if start <? 0 then 0 else start in
  let stop := if stop <? 0 then 0 else stop in
  (start, if strlen <=? stop then strlen - 1 else stop).

Definition plain_long (j : nat) : M (option Z) := id ← arg j; o ← fetch id; getLongFromObjectOrReply None (Some o).

Definition bitcountCommand : M unit :=
  k ← arg_text 1;
  o ← lookupKeyRead now k;
  match o with
  | None => addReplyString reply_czero
  | Some id =>
    bad ← checkType id;
    if bad : bool then mret tt else
    o ← fetch id;
    '(p, strlen) ← lift (getObjectReadOnlyString o);
    argc ← gets (fun st => length (argv st));
    let count := fun start stop =>
      if stop <? start then addReplyString reply_czero
      else let bytes := stop - start + 1 in n ← lift (redisPopcount (addr id) p start bytes); addReplyLongLong junk n in
    if (argc =? 4)%nat then
      start ← plain_long 2;
      match start with
      | None => mret tt
      | Some start =>
        stop ← plain_long 3;
        match stop with
        | None => mret tt
        | Some stop =>
          if (start <? 0) && (stop <? 0) && (stop <? start) then addReplyString reply_czero else
          let '(start, stop) := clip_range start stop strlen in count start stop
        end
      end
    else if (argc =? 2)%nat then count 0 (strlen - 1)
    else addReplyString reply_syntaxerr
  end.

Definition bitposCommand : M unit :=
  bit ← plain_long 2;
  match bit with
  | None => mret tt
  | Some bit =>
    if negb (bit =? 0) && negb (bit =? 1) then addReplyError (str "The bit argument must be 1 or 0.") else
    k ← arg_text 1;
    o ← lookupKeyRead now k;
    match o with
    | None => addReplyLongLong junk (if negb (bit =? 0) then -1 else 0)
    | Some id =>
      bad ← checkType id;
      if bad : bool then mret tt else
      o ← fetch id;
      '(p, strlen) ← lift (getObjectReadOnlyString o);
      argc ← gets (fun st => length (argv st));
      let search := fun start stop (end_given : bool) =>
        if stop <? start then addReplyLongLong junk (-1)
        else
          let bytes := stop - start + 1 in
          pos ← lift (redisBitpos (addr id) p bit start bytes);
          if end_given && (bit =? 0) && (pos =? bytes * 8) then addReplyLongLong junk (-1)
          else addReplyLongLong junk (if negb (pos =? -1) then pos + start * 8 else pos) in
      if (argc =? 4)%nat || (argc =? 5)%nat then
        start ← plain_long 3;
        match start with
        | None => mret tt
        | Some start =>
          stop ← (if (argc =? 5)%nat then plain_long 4 else mret (Some (strlen - 1)));
          match stop with
          | None => mret tt
          | Some stop => let '(start, stop) := clip_range start stop strlen in search start stop (argc =? 5)%nat
          end
        end
      else if (argc =? 3)%nat then search 0 (strlen - 1) false
      else addReplyString reply_syntaxerr
    end
  end.

(** ** BITFIELD *)

Inductive bf_opcode := BITFIELDOP_GET | BITFIELDOP_SET | BITFIELDOP_INCRBY.
#[global] Instance bf_opcode_eq_dec : EqDecision bf_opcode.
Proof. solve_decision. Defined.
Record bitfieldOp := mk_bitfieldOp { bf_offset : Z; bf_i64 : Z; bf_code : bf_opcode; bf_owtype : bfoverflow; bf_bits : Z; bf_sign : bool }.

Definition bf_opcode_name (subcmd : list Z) (remargs : nat) : option bf_opcode :=
  if name_is subcmd (str "get") && (2 <=? remargs)%nat then Some BITFIELDOP_GET
  else if name_is subcmd (str "set") && (3 <=? remargs)%nat then Some BITFIELDOP_SET
  else if name_is subcmd (str "incrby") && (3 <=? remargs)%nat then Some BITFIELDOP_INCRBY else None.
Definition bf_overflow_name (name : list Z) : option bfoverflow :=
  if name_is name (str "wrap") then Some BFOVERFLOW_WRAP else if name_is name (str "sat") then Some BFOVERFLOW_SAT
  else if name_is name (str "fail") then Some BFOVERFLOW_FAIL else None.

(** The operations in order, whether they only read, and the highest bit they write;
    [None] after an error. *)
Fixpoint bitfield_parse (fuel : nat) (j : nat) (owtype : bfoverflow) (ops : list bitfieldOp) (readonly : bool) (higest_write_offset : Z) : M (option (list bitfieldOp * bool * Z)) :=
  argc ← gets (fun st => length (argv st));
  if (argc <=? j)%nat then mret (Some (ops, readonly, higest_write_offset)) else
  match fuel with
  | O => lift (Fault OutOfFuel)
  | S fuel =>
    let remargs := (argc - j - 1)%nat in
    subcmd ← arg_text j;
    match bf_opcode_name subcmd remargs with
    | None =>
      if name_is subcmd (str "overflow") && (1 <=? remargs)%nat then
        owtypename ← arg_text (j + 1);
        match bf_overflow_name owtypename with
        | None => _ ← addReplyError (str "Invalid OVERFLOW type specified"); mret None
        | Some owtype => bitfield_parse fuel (j + 2) owtype ops readonly higest_write_offset
        end
      else _ ← addReplyString reply_syntaxerr; mret None
    | Some opcode =>
      ty ← getBitfieldTypeFromArgument (j + 1);
      match ty with
      | None => mret None
      | Some (sign, bits) =>
        bitoffset ← getBitOffsetFromArgument (j + 2) true bits;
        match bitoffset with
        | None => mret None
        | Some bitoffset =>
          if bool_decide (opcode = BITFIELDOP_GET) then
            bitfield_parse fuel (j + 3) owtype (ops ++ [mk_bitfieldOp bitoffset 0 opcode owtype bits sign]) readonly higest_write_offset
          else
            i64 ← long_arg (j + 3);
            match i64 with
            | None => mret None
            | Some i64 =>
              bitfield_parse fuel (j + 4) owtype (ops ++ [mk_bitfieldOp bitoffset i64 opcode owtype bits sign]) false
                (if higest_write_offset <? bitoffset + bits - 1 then bitoffset + bits - 1 else higest_write_offset)
            end
        end
      end
    end
  end.

(** What SET or INCRBY makes of the field: the bytes, and the answer or NULL. An
    uninitialised [wrapped] is [junk]. *)
Definition bitfield_write (op : bitfieldOp) (p : list Z) : res (list Z * option Z) :=
  let incrby := bool_decide (bf_code op = BITFIELDOP_INCRBY) in
  if bf_sign op then
    oldval ← getSignedBitfield p (bf_offset op) (bf_bits op);
    let newval := if incrby then i64 (oldval + bf_i64 op) else bf_i64 op in
    '(overflow, wrapped) ← (if incrby then checkSignedBitfieldOverflow oldval (bf_i64 op) (bf_bits op) (bf_owtype op)
                            else checkSignedBitfieldOverflow newval 0 (bf_bits op) (bf_owtype op));
    let newval := if negb (overflow =? 0) then default (i64 (junk 0)) wrapped else newval in
    let retval := if incrby then newval else oldval in
    if negb (negb (overflow =? 0) && bool_decide (bf_owtype op = BFOVERFLOW_FAIL)) then p ← setSignedBitfield p (bf_offset op) (bf_bits op) newval; Ok (p, Some retval)
    else Ok (p, None)
  else
    oldval ← getUnsignedBitfield p (bf_offset op) (bf_bits op);
    let newval := if incrby then u64 (oldval + bf_i64 op) else u64 (bf_i64 op) in
    '(overflow, wrapped) ← (if incrby then checkUnsignedBitfieldOverflow oldval (bf_i64 op) (bf_bits op) (bf_owtype op)
                            else checkUnsignedBitfieldOverflow newval 0 (bf_bits op) (bf_owtype op));
    let newval := if negb (overflow =? 0) then default (u64 (junk 0)) wrapped else newval in
    let retval := if incrby then newval else oldval in
    if negb (negb (overflow =? 0) && bool_decide (bf_owtype op = BFOVERFLOW_FAIL)) then p ← setUnsignedBitfield p (bf_offset op) (bf_bits op) newval; Ok (p, Some (i64 retval))
    else Ok (p, None).

(** [for (i = 0; i < 9; i++)] *)
Fixpoint bitfield_copy (n : nat) (src : list Z) (strlen byte i : Z) (b : list Z) : res (list Z) :=
  match n with
  | O => Ok b
  | S n => if strlen <=? i + byte then Ok b else x ← peek8 src (i + byte); b ← poke b i x; bitfield_copy n src strlen byte (i + 1) b
  end.

(** GET, on a copy of nine bytes padded with zeros. *)
Definition bitfield_read (op : bitfieldOp) (src : list Z) (strlen : Z) : res Z :=
  let byte := Z.shiftr (bf_offset op) 3 in
  b ← bitfield_copy 9 src strlen byte 0 (zrep 9 0);
  let offset := bf_offset op - byte * 8 in
  if bf_sign op then getSignedBitfield b offset (bf_bits op) else v ← getUnsignedBitfield b offset (bf_bits op); Ok (i64 v).

Fixpoint bitfield_run (ops : list bitfieldOp) (o : option oid) (changes : Z) : M Z :=
  match ops with
  | [] => mret changes
  | op :: ops =>
    if bool_decide (bf_code op = BITFIELDOP_GET) then
      '(src, strlen) ← match o with None => mret ([], 0) | Some id => ob ← fetch id; lift (getObjectReadOnlyString ob) end;
      v ← lift (bitfield_read op src strlen);
      _ ← addReplyLongLong junk v;
      bitfield_run ops o changes
    else
      match o with
      | None => lift (Fault OutOfBounds)
      | Some id =>
        ob ← fetch id;
        s ← lift (as_sds ob);
        '(b, ret) ← lift (bitfield_write op (buf s));
        _ ← store id (with_ptr ob (PSds (with_buf s b)));
        _ ← match ret with Some v => addReplyLongLong junk v | None => addReplyString reply_nullbulk end;
        bitfield_run ops o (changes + 1)
      end
  end.

Definition bitfieldCommand : M unit :=
  argc ← gets (fun st => length (argv st));
  r ← bitfield_parse argc 2 BFOVERFLOW_WRAP [] true 0;
  match r with
  | None => mret tt
  | Some (ops, readonly, higest_write_offset) =>
    o ← (if readonly : bool then
           k ← arg_text 1;
           o ← lookupKeyRead now k;
           match o with
           | None => mret (Some None)
           | Some id => bad ← checkType id; if bad : bool then mret None else mret (Some (Some id))
           end
         else
           r ← lookupStringForBitCommand higest_write_offset;
           match r with None => mret None | Some id => mret (Some (Some id)) end);
    match o with
    | None => mret tt
    | Some o =>
      _ ← addReplyLongLongWithPrefix junk (zlen ops) (chr "*");
      changes ← bitfield_run ops o 0;
      if negb (changes =? 0) then add_dirty changes else mret tt
    end
  end.
End Server.
End BitCmd.
