(* ===== verification/Command.v ===== *)
(** * Commands: the table and the dispatch of src/redis-stable/src/server.c

    The whole command table, in the order of the source, with names and arities; a command
    whose handler is in [StringCmd] or [BitCmd] has it in its row, the others have none, and
    calling one of them is the fault [NotModelled]. Commands are looked up by name and
    called with a checked number of arguments; [serve] is the life of one request. *)
From stdpp Require Import gmap.
From S2P Require Import Prelude StateM Util Sds SdsText Object Db StringCmd BitCmd.

Module Command.
Import Sds SdsText Object Db StringCmd BitCmd.

Section Server.
Context (junk : Z -> Z) (private : bool) (addr : oid -> Z) (now : Z).

(** Name, arity (negative: at least that many) and handler of each command. *)
Definition redisCommandTable : list (list Z * (Z * option (M unit))) :=
  [(str "get", (2, Some (getCommand junk now))); (str "set", (-3, Some (setCommand junk private now))); (str "setnx", (3, Some (setnxCommand junk private now)));
   (str "setex", (4, Some (setexCommand junk private now))); (str "psetex", (4, Some (psetexCommand junk private now)));
   (str "append", (3, Some (appendCommand junk private now))); (str "strlen", (2, Some (strlenCommand junk now))); (str "del", (-2, Some (delCommand junk now)));
   (str "unlink", (-2, None)); (str "exists", (-2, Some (existsCommand junk now))); (str "setbit", (4, Some (setbitCommand junk now)));
   (str "getbit", (3, Some (getbitCommand junk now))); (str "bitfield", (-2, Some (bitfieldCommand junk now))); (str "setrange", (4, Some (setrangeCommand junk now)));
   (str "getrange", (4, Some (getrangeCommand junk now))); (str "substr", (4, Some (getrangeCommand junk now))); (str "incr", (2, Some (incrCommand junk now)));
   (str "decr", (2, Some (decrCommand junk now))); (str "mget", (-2, Some (mgetCommand junk now))); (str "rpush", (-3, None)); (str "lpush", (-3, None));
   (str "rpushx", (-3, None)); (str "lpushx", (-3, None)); (str "linsert", (5, None)); (str "rpop", (2, None)); (str "lpop", (2, None)); (str "brpop", (-3, None));
   (str "brpoplpush", (4, None)); (str "blpop", (-3, None)); (str "llen", (2, None)); (str "lindex", (3, None)); (str "lset", (4, None)); (str "lrange", (4, None));
   (str "ltrim", (4, None)); (str "lrem", (4, None)); (str "rpoplpush", (3, None)); (str "sadd", (-3, None)); (str "srem", (-3, None)); (str "smove", (4, None));
   (str "sismember", (3, None)); (str "scard", (2, None)); (str "spop", (-2, None)); (str "srandmember", (-2, None)); (str "sinter", (-2, None));
   (str "sinterstore", (-3, None)); (str "sunion", (-2, None)); (str "sunionstore", (-3, None)); (str "sdiff", (-2, None)); (str "sdiffstore", (-3, None));
   (str "smembers", (2, None)); (str "sscan", (-3, None)); (str "zadd", (-4, None)); (str "zincrby", (4, None)); (str "zrem", (-3, None));
   (str "zremrangebyscore", (4, None)); (str "zremrangebyrank", (4, None)); (str "zremrangebylex", (4, None)); (str "zunionstore", (-4, None));
   (str "zinterstore", (-4, None)); (str "zrange", (-4, None)); (str "zrangebyscore", (-4, None)); (str "zrevrangebyscore", (-4, None)); (str "zrangebylex", (-4, None));
   (str "zrevrangebylex", (-4, None)); (str "zcount", (4, None)); (str "zlexcount", (4, None)); (str "zrevrange", (-4, None)); (str "zcard", (2, None));
   (str "zscore", (3, None)); (str "zrank", (3, None)); (str "zrevrank", (3, None)); (str "zscan", (-3, None)); (str "hset", (-4, None)); (str "hsetnx", (4, None));
   (str "hget", (3, None)); (str "hmset", (-4, None)); (str "hmget", (-3, None)); (str "hincrby", (4, None)); (str "hincrbyfloat", (4, None)); (str "hdel", (-3, None));
   (str "hlen", (2, None)); (str "hstrlen", (3, None)); (str "hkeys", (2, None)); (str "hvals", (2, None)); (str "hgetall", (2, None)); (str "hexists", (3, None));
   (str "hscan", (-3, None)); (str "incrby", (3, Some (incrbyCommand junk now))); (str "decrby", (3, Some (decrbyCommand junk now))); (str "incrbyfloat", (3, None));
   (str "getset", (3, Some (getsetCommand junk private now))); (str "mset", (-3, Some (msetGenericCommand junk private now false)));
   (str "msetnx", (-3, Some (msetGenericCommand junk private now true))); (str "randomkey", (1, None)); (str "select", (2, None)); (str "swapdb", (3, None));
   (str "move", (3, None)); (str "rename", (3, Some (renameGenericCommand now false))); (str "renamenx", (3, Some (renameGenericCommand now true)));
   (str "expire", (3, Some (expireGenericCommand now now true))); (str "expireat", (3, Some (expireGenericCommand now 0 true)));
   (str "pexpire", (3, Some (expireGenericCommand now now false))); (str "pexpireat", (3, Some (expireGenericCommand now 0 false))); (str "keys", (2, None));
   (str "scan", (-2, None)); (str "dbsize", (1, None)); (str "auth", (2, None)); (str "ping", (-1, None)); (str "echo", (2, None)); (str "save", (1, None));
   (str "bgsave", (-1, None)); (str "bgrewriteaof", (1, None)); (str "shutdown", (-1, None)); (str "lastsave", (1, None)); (str "type", (2, None)); (str "multi", (1, None));
   (str "exec", (1, None)); (str "discard", (1, None)); (str "sync", (1, None)); (str "psync", (3, None)); (str "replconf", (-1, None)); (str "flushdb", (-1, None));
   (str "flushall", (-1, None)); (str "sort", (-2, None)); (str "info", (-1, None)); (str "monitor", (1, None)); (str "ttl", (2, Some (ttlGenericCommand junk now false)));
   (str "touch", (-2, Some (touchCommand junk now))); (str "pttl", (2, Some (ttlGenericCommand junk now true))); (str "persist", (2, Some (persistCommand now)));
   (str "slaveof", (3, None)); (str "role", (1, None)); (str "debug", (-1, None)); (str "config", (-2, None)); (str "subscribe", (-2, None)); (str "unsubscribe", (-1, None));
   (str "psubscribe", (-2, None)); (str "punsubscribe", (-1, None)); (str "publish", (3, None)); (str "pubsub", (-2, None)); (str "watch", (-2, None));
   (str "unwatch", (1, None)); (str "cluster", (-2, None)); (str "restore", (-4, None)); (str "restore-asking", (-4, None)); (str "migrate", (-6, None));
   (str "asking", (1, None)); (str "readonly", (1, None)); (str "readwrite", (1, None)); (str "dump", (2, None)); (str "object", (3, None)); (str "memory", (-2, None));
   (str "client", (-2, None)); (str "eval", (-3, None)); (str "evalsha", (-3, None)); (str "slowlog", (-2, None)); (str "script", (-2, None)); (str "time", (1, None));
   (str "bitop", (-4, Some (bitopCommand junk now))); (str "bitcount", (-2, Some (bitcountCommand junk addr now))); (str "bitpos", (-3, Some (bitposCommand junk addr now)));
   (str "wait", (3, None)); (str "command", (0, None)); (str "geoadd", (-5, None)); (str "georadius", (-6, None)); (str "georadius_ro", (-6, None));
   (str "georadiusbymember", (-5, None)); (str "georadiusbymember_ro", (-5, None)); (str "geohash", (-2, None)); (str "geopos", (-2, None)); (str "geodist", (-4, None));
   (str "pfselftest", (1, None)); (str "pfadd", (-2, None)); (str "pfcount", (-2, None)); (str "pfmerge", (-2, None)); (str "pfdebug", (-3, None)); (str "post", (-1, None));
   (str "host:", (-1, None)); (str "latency", (-2, None))].

(** Names are compared without regard to case. (The table hashes all the bytes of a name
    and compares up to a NUL; a name with a NUL is not looked up reliably, and the theorems
    leave such names out.) *)
Definition lookupCommand (name : list Z) : option (list Z * (Z * option (M unit))) :=
  list_find (fun e => map tolower name = e.1) redisCommandTable ≫= fun p => Some p.2.

(** [processCommand] of a server without password, cluster, memory limit, transactions or
    scripts; C strings end at a NUL. No modelled command can leave this configuration: the
    ones that could (MULTI, WATCH, SUBSCRIBE, EVAL, CONFIG, CLUSTER, SLAVEOF, ...) have no
    handler here. *)
Definition processCommand : M unit :=
  name ← arg_text 0;
  argc ← gets (fun st => Z.of_nat (length (argv st)));
  if bool_decide (map tolower (cstring name) = str "quit") then _ ← addReplyString reply_ok; modify set_close else
  match lookupCommand name with
  | None => addReplyErrorFormat (str "unknown command '" ++ cstring name ++ str "'")
  | Some (cname, (arity, proc)) =>
    if (0 <? arity) && negb (arity =? argc) || (argc <? - arity)
    then addReplyErrorFormat (str "wrong number of arguments for '" ++ cname ++ str "' command")
    else match proc with Some proc => proc | None => lift (Fault NotModelled) end
  end.

(** One request: the parser creates the argument objects, the command runs, and
    [freeClientArgv] drops them. *)
Definition serve (args : list (list Z)) : M unit :=
  ids ← create_argv junk args;
  _ ← modify (fun st => set_argv st ids);
  _ ← processCommand;
  ids ← gets argv;
  _ ← free_argv ids;
  modify (fun st => set_argv st []).

End Server.
End Command.
