(* ===== verification/DbOps.v ===== *)
(** * The keyspace: ownership of objects and the operations of db.c

    The operations of [Db] in the program logic of [StateM]. The invariant is about ownership: the reference count of every
    object is the number of references to it in the dictionary, the argument vector, the
    shared objects and the hands of the running operation ([owed]), so that no object is
    freed while it is reachable and none is leaked. [Sim] relates a state to an abstract
    configuration: a map from keys to values with deadlines, from which every expired key
    is gone, the texts of the arguments and the reply so far. *)
From stdpp Require Import gmap.
From S2P Require Import Prelude StateM Util Sds SdsText Object Db.

Module DbOps.
Import Sds SdsText Object Db.

(** ** Counting references *)

Definition one (id : oid) (n : nat) : Z := if bool_decide (id = Heap n) then 1 else 0.
Fixpoint occ (n : nat) (ids : list oid) : Z := match ids with [] => 0 | id :: ids => one id n + occ n ids end.
Definition drefs (n : nat) (d : gmap (list Z) oid) : Z := occ n (map_to_list d).*2.
Definition refs (st : server) (n : nat) : Z := drefs n (dict st) + occ n (argv st) + one (Heap (shared_del st)) n.

Lemma one_range id n : 0 <= one id n <= 1.
Proof. unfold one. case_bool_decide; lia. Qed.
Lemma one_same n : one (Heap n) n = 1.
Proof. unfold one. by rewrite bool_decide_eq_true_2. Qed.
Lemma one_other id n : id <> Heap n -> one id n = 0.
Proof. unfold one. intros. by rewrite bool_decide_eq_false_2. Qed.

Lemma occ_nonneg n ids : 0 <= occ n ids.
Proof. induction ids as [|id ids IH]; cbn; [done|]. pose proof (one_range id n). lia. Qed.
Lemma occ_app n a b : occ n (a ++ b) = occ n a + occ n b.
Proof. induction a as [|id a IH]; cbn; lia. Qed.
Lemma occ_perm n a b : a ≡ₚ b -> occ n a = occ n b.
Proof. induction 1; cbn; lia. Qed.

Lemma occ_update n ids j old id : ids !! j = Some old -> occ n (<[j := id]> ids) = occ n ids - one old n + one id n.
Proof. revert j. induction ids as [|x ids IH]; intros [|j] H; cbn in *; [done..| |]; [injection H as ->; lia|]. rewrite IH by done. lia. Qed.

Lemma occ_lookup n ids j : ids !! j = Some (Heap n) -> 1 <= occ n ids.
Proof. intros H. rewrite <- (take_drop_middle ids j _ H), occ_app. cbn. rewrite one_same. pose proof (occ_nonneg n (take j ids)). pose proof (occ_nonneg n (drop (S j) ids)). lia. Qed.

Lemma occ_lookup_two n ids i j : i <> j -> ids !! i = Some (Heap n) -> ids !! j = Some (Heap n) -> 2 <= occ n ids.
Proof.
  intros Hij Hi Hj. pose proof (occ_update n ids i _ (Shared 0) Hi) as E. rewrite one_same, one_other in E by done.
  pose proof (occ_lookup n (<[i := Shared 0]> ids) j). rewrite list_lookup_insert_ne in H by done. specialize (H Hj). lia.
Qed.

Lemma drefs_insert n d k id : d !! k = None -> drefs n (<[k := id]> d) = drefs n d + one id n.
Proof. intros H. unfold drefs. rewrite (occ_perm n _ ((k, id) :: map_to_list d).*2); [cbn; lia|]. by rewrite map_to_list_insert. Qed.

Lemma drefs_delete n d k id : d !! k = Some id -> drefs n (base.delete k d) = drefs n d - one id n.
Proof. intros H. pose proof (drefs_insert n (base.delete k d) k id (lookup_delete_eq d k)) as E. rewrite insert_delete_id in E by done. lia. Qed.

Lemma drefs_replace n d k old id : d !! k = Some old -> drefs n (<[k := id]> d) = drefs n d - one old n + one id n.
Proof. intros H. rewrite <- insert_delete_eq, drefs_insert by apply lookup_delete_eq. rewrite (drefs_delete n d k old H). lia. Qed.

Lemma drefs_nonneg n d : 0 <= drefs n d.
Proof. apply occ_nonneg. Qed.

Lemma drefs_lookup n d k : d !! k = Some (Heap n) -> 1 <= drefs n d.
Proof. intros H. pose proof (drefs_delete n d k _ H). rewrite one_same in *. pose proof (drefs_nonneg n (base.delete k d)). lia. Qed.

Lemma drefs_lookup_two n d k k' : k <> k' -> d !! k = Some (Heap n) -> d !! k' = Some (Heap n) -> 2 <= drefs n d.
Proof.
  intros Hk H H'. pose proof (drefs_delete n d k _ H) as E. rewrite one_same in E. pose proof (drefs_lookup n (base.delete k d) k') as E'.
  rewrite lookup_delete_ne in E' by done. specialize (E' H'). lia.
Qed.

(** ** Ownership *)

(** What the running operation holds on its own account: [owed n] references to cell [n]
    beyond those of the state, negative when it still has to take some. *)
Abbreviation debts := (nat -> Z).
Definition settled : debts := fun _ => 0.
Definition bump (id : oid) (z : Z) (d : debts) : debts := fun n => d n + z * one id n.

Record owned (st : server) (d : debts) : Prop := {
  own_cell n : match heap st !! n with Some o => refcount o = refs st n + d n /\ 0 < refcount o | None => refs st n = 0 /\ d n = 0 end;
  own_few n : refs st n <= 2 /\ d n <= 2 ^ 30;
  own_next n : (next st <= n)%nat -> heap st !! n = None;
  own_del : drefs (shared_del st) (dict st) = 0;
  own_inj n : drefs n (dict st) <= 1 }.

Definition live (st : server) (id : oid) : Prop := match id with Shared _ => True | Heap n => is_Some (heap st !! n) end.

Lemma refs_nonneg st n : 0 <= refs st n.
Proof. unfold refs. pose proof (drefs_nonneg n (dict st)). pose proof (occ_nonneg n (argv st)). pose proof (one_range (Heap (shared_del st)) n). lia. Qed.

Lemma owned_live st d n : owned st d -> 0 < refs st n \/ d n <> 0 -> is_Some (heap st !! n).
Proof. intros H Hn. pose proof (own_cell _ _ H n). destruct (heap st !! n); [done|lia]. Qed.

Lemma owned_ext st d d' : (forall n, d n = d' n) -> owned st d -> owned st d'.
Proof. intros E [H1 H2 H3 H4 H5]. constructor; [intros n; rewrite <- E; apply H1|intros n; rewrite <- E; apply H2|done|done|done]. Qed.

Lemma refs_dict st k n : dict st !! k = Some (Heap n) -> 1 <= refs st n.
Proof. intros H. apply drefs_lookup in H. unfold refs. pose proof (occ_nonneg n (argv st)). pose proof (one_range (Heap (shared_del st)) n). lia. Qed.

Lemma refs_argv st j n : argv st !! j = Some (Heap n) -> 1 <= refs st n.
Proof. intros H. apply occ_lookup in H. unfold refs. pose proof (drefs_nonneg n (dict st)). pose proof (one_range (Heap (shared_del st)) n). lia. Qed.

Lemma refs_dict_argv st k j n : dict st !! k = Some (Heap n) -> argv st !! j = Some (Heap n) -> 2 <= refs st n.
Proof. intros H H'. apply drefs_lookup in H. apply occ_lookup in H'. unfold refs. pose proof (one_range (Heap (shared_del st)) n). lia. Qed.

Lemma dict_live st d k id : owned st d -> dict st !! k = Some id -> live st id.
Proof. intros H E. destruct id as [v|n]; [done|]. apply (owned_live st d n H). left. apply refs_dict in E. lia. Qed.

Lemma argv_live st d j id : owned st d -> argv st !! j = Some id -> live st id.
Proof. intros H E. destruct id as [v|n]; [done|]. apply (owned_live st d n H). left. apply refs_argv in E. lia. Qed.

Lemma del_refs st : 1 <= refs st (shared_del st).
Proof. unfold refs. rewrite one_same. pose proof (drefs_nonneg (shared_del st) (dict st)). pose proof (occ_nonneg (shared_del st) (argv st)). lia. Qed.

Lemma del_live st d : owned st d -> live st (Heap (shared_del st)).
Proof. intros H. apply (owned_live st d _ H). left. pose proof (del_refs st). lia. Qed.

(** ** Contents *)

Definition same_content (o o' : robj) : Prop := type o = type o' /\ encoding o = encoding o' /\ ptr o = ptr o'.
(** The cells that survive keep their contents. *)
Definition kept (h h' : gmap nat robj) : Prop := forall n o o', h !! n = Some o -> h' !! n = Some o' -> same_content o o'.

Inductive value := VStr (t : list Z) | VOther.
Definition MAX_TEXT : Z := 512 * 1024 * 1024.

(** The object behind [id] is a string with the text [t]. *)
Definition text_of (h : gmap nat robj) (id : oid) (t : list Z) : Prop :=
  zlen t <= MAX_TEXT /\
  match id with Shared v => 0 <= v < OBJ_SHARED_INTEGERS /\ t = dec v | Heap n => exists o, h !! n = Some o /\ obj_text o t end.
Definition val_of (h : gmap nat robj) (id : oid) (x : value) : Prop :=
  match x with
  | VStr t => text_of h id t
  | VOther => exists n o, id = Heap n /\ h !! n = Some o /\ type o <> OBJ_STRING
  end.

Lemma obj_text_same o o' t : same_content o o' -> obj_text o t -> obj_text o' t.
Proof.
  intros (E1 & E2 & E3) [sd Ht He Hp Hr|v Ht He Hp Hv ->]; [apply (text_sds _ _ sd); [congruence| |congruence|done]|apply (text_int _ _ v); [congruence..|done|done]].
  unfold sdsEncodedObject in *. by rewrite <- E2.
Qed.

Lemma text_of_kept h h' id t : kept h h' -> (forall n, id = Heap n -> is_Some (h' !! n)) -> text_of h id t -> text_of h' id t.
Proof.
  intros Hk Hl [Hz H]. split; [done|]. destruct id as [v|n]; [done|]. destruct H as (o & E & Ho). destruct (Hl n eq_refl) as (o' & E').
  exists o'. split; [done|]. eapply obj_text_same; [|done]. by eapply Hk.
Qed.

Lemma val_of_kept h h' id x : kept h h' -> (forall n, id = Heap n -> is_Some (h' !! n)) -> val_of h id x -> val_of h' id x.
Proof.
  intros Hk Hl H. destruct x as [t|]; [by eapply text_of_kept|]. destruct H as (n & o & -> & E & Ht). destruct (Hl n eq_refl) as (o' & E').
  exists n, o'. destruct (Hk n o o' E E') as (Et & _ & _). split_and!; [done|done|congruence].
Qed.

Lemma kept_heap_refl h : kept h h.
Proof. intros n o o' -> [= ->]. done. Qed.

(** ** The abstract configuration *)

(** What is known of an argument: it is as the parser created it; or it is referenced by
    the argument vector alone; or it may be shared. *)
Inductive argst := Fresh | Own | Used.
Abbreviation store_map := (gmap (list Z) (value * option Z)).
Record config := mk_config { kv : store_map; aargs : list (list Z * argst); aout : list Z; aclose : bool; adirty : Z }.

Definition with_kv (c : config) (m : store_map) : config := mk_config m (aargs c) (aout c) (aclose c) (adirty c).
Definition with_args (c : config) (a : list (list Z * argst)) : config := mk_config (kv c) a (aout c) (aclose c) (adirty c).
Definition says (c : config) (x : list Z) : config := mk_config (kv c) (aargs c) (aout c ++ x) (aclose c) (adirty c).
Definition closes (c : config) : config := mk_config (kv c) (aargs c) (aout c) true (adirty c).
Definition dirties (c : config) (n : Z) : config := mk_config (kv c) (aargs c) (aout c) (aclose c) (adirty c + n).

(** A deadline has passed; a negative one never does. *)
Definition expiredb (now : Z) (e : option Z) : bool := match e with Some w => (0 <=? w) && (w <? now) | None => false end.

Section Sim.
Context (now : Z).

Definition key_ok (st : server) (k : list Z) (v : option (value * option Z)) : Prop :=
  match v with
  | Some (x, e) => expires st !! k = e /\ expiredb now e = false /\ exists id, dict st !! k = Some id /\ val_of (heap st) id x
  | None => (dict st !! k = None /\ expires st !! k = None) \/ (is_Some (dict st !! k) /\ expiredb now (expires st !! k) = true)
  end.

Definition arg_ok (st : server) (id : oid) (a : list Z * argst) : Prop :=
  text_of (heap st) id a.1 /\
  match a.2 with
  | Fresh => exists n o, id = Heap n /\ refs st n = 1 /\ heap st !! n = Some o /\ sdsEncodedObject o = true
  | Own => forall n, id = Heap n -> refs st n = 1
  | Used => True
  end.

Record Sim (d : debts) (st : server) (c : config) : Prop := {
  sim_owned : owned st d;
  sim_key k : key_ok st k (kv c !! k);
  sim_args : Forall2 (arg_ok st) (argv st) (aargs c);
  sim_out : out st = aout c;
  sim_close : close_after_reply st = aclose c;
  sim_dirty : dirty (counts st) = adirty c;
  sim_del : text_of (heap st) (Heap (shared_del st)) (str "DEL") }.

(** *** Steps that change the heap only *)

Lemma arg_ok_kept st h n' d id j a : owned (set_heap st h n') d -> kept (heap st) h -> argv st !! j = Some id -> arg_ok st id a -> arg_ok (set_heap st h n') id a.
Proof.
  intros Ho Hk Ej [Ht Hs]. pose proof (argv_live (set_heap st h n') d j id Ho Ej) as Hl.
  assert (forall n, id = Heap n -> is_Some (h !! n)) as Hl' by (intros n ->; exact Hl).
  split; [by eapply text_of_kept|]. destruct a.2; [|done..]. destruct Hs as (n & o & -> & Hr & E & He). destruct (Hl' n eq_refl) as (o' & E').
  exists n, o'. split_and!; [done..|]. destruct (Hk n o o' E E') as (_ & Ee & _). unfold sdsEncodedObject in *. cbn. by rewrite <- Ee.
Qed.

Lemma Sim_heap d d' st c h n' : Sim d st c -> owned (set_heap st h n') d' -> kept (heap st) h -> Sim d' (set_heap st h n') c.
Proof.
  intros [H1 H2 H3 H4 H5 H6 H7] Ho Hk. constructor; [done| |cbn|done..|].
  - intros k. specialize (H2 k). unfold key_ok in *. destruct (kv c !! k) as [[x e]|]; [|exact H2]. destruct H2 as (E1 & E2 & id & E3 & E4).
    split_and!; [done..|]. exists id. split; [done|]. eapply val_of_kept; [exact Hk| |done]. intros n ->. exact (dict_live (set_heap st h n') d' k (Heap n) Ho E3).
  - apply Forall2_same_length_lookup_2; [by eapply Forall2_length|]. intros j id a Ej Ea. eapply arg_ok_kept; [done..|]. eapply Forall2_lookup_lr in H3; eauto.
  - eapply text_of_kept; [exact Hk| |exact H7]. intros n [= <-]. exact (del_live _ _ Ho).
Qed.

Lemma Sim_ext d d' st c : (forall n, d n = d' n) -> Sim d st c -> Sim d' st c.
Proof. intros E [H1 H2 H3 H4 H5 H6 H7]. constructor; [by eapply owned_ext|done..]. Qed.

Lemma kept_same h n o o' : h !! n = Some o -> same_content o o' -> kept h (<[n := o']> h).
Proof.
  intros E Hs m x y Ex Ey. destruct (decide (m = n)) as [->|]; [rewrite lookup_insert_eq in Ey; congruence|].
  rewrite lookup_insert_ne in Ey by done. assert (x = y) as -> by congruence. done.
Qed.

Lemma with_refcount_same o z : same_content o (with_refcount o z).
Proof. done. Qed.

Lemma fetch_heap n o Q st : heap st !! n = Some o -> Q o st -> wp (fetch (Heap n)) Q st.
Proof. intros E HQ. unfold wp, fetch. by rewrite E. Qed.

Lemma fetch_shared v (Q : robj -> server -> Prop) st : Q (shared_int v) st -> wp (fetch (Shared v)) Q st.
Proof. done. Qed.

Lemma store_heap n o o' (Q : unit -> server -> Prop) st : heap st !! n = Some o -> Q tt (set_heap st (<[n := o']> (heap st)) (next st)) -> wp (store (Heap n) o') Q st.
Proof. intros E HQ. unfold wp, store. by rewrite E. Qed.

(** Replacing a cell by one with another count. *)
Lemma owned_recount st d id n o z : owned st d -> id = Heap n -> heap st !! n = Some o -> 0 < refcount o + z -> d n + z <= 2 ^ 30 ->
  owned (set_heap st (<[n := with_refcount o (refcount o + z)]> (heap st)) (next st)) (bump id z d).
Proof.
  intros [H1 H2 H3 H4 H5] -> E Hp Hd. constructor; cbn; [..|exact H4|exact H5].
  - intros m. change (refs (set_heap _ _ _) m) with (refs st m). specialize (H1 m). unfold bump. destruct (decide (m = n)) as [->|Hm].
    + rewrite lookup_insert_eq, one_same. rewrite E in H1. cbn. lia.
    + rewrite lookup_insert_ne, one_other by (done || congruence). destruct (heap st !! m); lia.
  - intros m. change (refs (set_heap _ _ _) m) with (refs st m). specialize (H2 m). unfold bump. destruct (decide (m = n)) as [->|Hm]; [rewrite one_same|rewrite one_other by congruence]; lia.
  - intros m Hm. specialize (H3 m Hm). rewrite lookup_insert_ne by congruence. done.
Qed.

Lemma incr_sim d st c id : Sim d st c -> live st id -> (forall n, id = Heap n -> d n < 2 ^ 30) ->
  wp (incrRefCount id) (fun _ st' => Sim (bump id 1 d) st' c /\ exists h, st' = set_heap st h (next st) /\ kept (heap st) h) st.
Proof.
  intros HS Hl Hd. unfold incrRefCount. apply wp_bind. destruct id as [v|n].
  - apply fetch_shared. cbn. apply wp_ret. split; [eapply Sim_ext; [|exact HS]; intros n; unfold bump; rewrite one_other by done; lia|].
    exists (heap st). split; [by destruct st|apply kept_heap_refl].
  - destruct Hl as (o & E). eapply fetch_heap; [exact E|]. pose proof (sim_owned _ _ _ HS) as Ho. pose proof (own_cell _ _ Ho n) as Hc. rewrite E in Hc. pose proof (own_few _ _ Ho n).
    unfold OBJ_SHARED_REFCOUNT. rewrite (proj2 (Z.eqb_neq _ _)) by lia. cbn [negb]. eapply store_heap; [exact E|]. rewrite swrap_id by (lia || unfold in_s; lia).
    split.
    + eapply Sim_heap; [exact HS| |eapply kept_same; [exact E|apply with_refcount_same]]. eapply owned_recount; [done|done|done|lia|]. specialize (Hd n eq_refl). lia.
    + eexists. split; [done|]. eapply kept_same; [exact E|apply with_refcount_same].
Qed.

Lemma decr_sim d st c id : Sim d st c -> live st id -> (forall n, id = Heap n -> 1 <= d n \/ 2 <= refs st n + d n) ->
  wp (decrRefCount id) (fun _ st' => Sim (bump id (-1) d) st' c /\ exists h, st' = set_heap st h (next st) /\ kept (heap st) h) st.
Proof.
  intros HS Hl Hd. unfold decrRefCount. apply wp_bind. destruct id as [v|n].
  - apply fetch_shared. cbn. apply wp_ret. split; [eapply Sim_ext; [|exact HS]; intros n; unfold bump; rewrite one_other by done; lia|].
    exists (heap st). split; [by destruct st|apply kept_heap_refl].
  - destruct Hl as (o & E). eapply fetch_heap; [exact E|]. pose proof (sim_owned _ _ _ HS) as Ho. pose proof (own_cell _ _ Ho n) as Hc. rewrite E in Hc. pose proof (own_few _ _ Ho n). specialize (Hd n eq_refl). pose proof (refs_nonneg st n).
    destruct (Z.eqb_spec (refcount o) 1) as [E1|Hn].
    + assert (kept (heap st) (base.delete n (heap st))) as Hk.
      { intros m x y Ex Ey. apply lookup_delete_Some in Ey as [_ Ey]. assert (x = y) as -> by congruence. done. }
      split; [|eexists; split; [done|exact Hk]]. eapply Sim_heap; [exact HS| |exact Hk]. constructor; cbn; [..|apply Ho|apply Ho].
      * intros m. change (refs (set_heap _ _ _) m) with (refs st m). unfold bump. destruct (decide (m = n)) as [->|Hm].
        -- rewrite lookup_delete_eq, one_same. lia.
        -- rewrite lookup_delete_ne, one_other by (done || congruence). pose proof (own_cell _ _ Ho m). destruct (heap st !! m); lia.
      * intros m. change (refs (set_heap _ _ _) m) with (refs st m). pose proof (own_few _ _ Ho m). unfold bump. pose proof (one_range (Heap n) m). lia.
      * intros m Hm. apply lookup_delete_None. right. by apply (own_next _ _ Ho).
    + rewrite (proj2 (Z.leb_gt _ _)) by lia. unfold OBJ_SHARED_REFCOUNT. rewrite (proj2 (Z.eqb_neq _ _)) by lia. cbn [negb]. eapply store_heap; [exact E|].
      assert (kept (heap st) (<[n := with_refcount o (refcount o - 1)]> (heap st))) as Hk by (eapply kept_same; [exact E|apply with_refcount_same]).
      split; [|eexists; split; [done|exact Hk]]. eapply Sim_heap; [exact HS| |exact Hk]. apply owned_recount; [done|done|done|lia|lia].
Qed.

Lemma alloc_sim d st c o : Sim d st c -> refcount o = 1 ->
  wp (alloc o) (fun id st' => id = Heap (next st) /\ st' = set_heap st (<[next st := o]> (heap st)) (S (next st)) /\ Sim (bump id 1 d) st' c /\ d (next st) = 0 /\ refs st' (next st) = 0) st.
Proof.
  intros HS Hr. pose proof (sim_owned _ _ _ HS) as Ho. pose proof (own_next _ _ Ho (next st) ltac:(lia)) as En. pose proof (own_cell _ _ Ho (next st)) as Hc. rewrite En in Hc.
  unfold wp, alloc. split_and!; [done|done| |tauto|apply Hc]. eapply Sim_heap; [exact HS| |].
  - constructor; cbn; [..|apply Ho|apply Ho].
    + intros m. change (refs (set_heap _ _ _) m) with (refs st m). unfold bump. destruct (decide (m = next st)) as [->|Hm].
      * rewrite lookup_insert_eq, one_same. lia.
      * rewrite lookup_insert_ne, one_other by (done || congruence). pose proof (own_cell _ _ Ho m). destruct (heap st !! m); lia.
    + intros m. change (refs (set_heap _ _ _) m) with (refs st m). pose proof (own_few _ _ Ho m). unfold bump. destruct (decide (m = next st)) as [->|Hm]; [rewrite one_same; lia|rewrite one_other by congruence; lia].
    + intros m Hm. rewrite lookup_insert_ne by lia. apply (own_next _ _ Ho). lia.
  - intros m x y Ex Ey. rewrite lookup_insert_ne in Ey by congruence. assert (x = y) as -> by congruence. done.
Qed.

(** *** Steps that change the dictionaries *)

(** No argument claims to be the only owner of [id]. *)
Definition unclaimed (st : server) (c : config) (id : oid) : Prop :=
  forall j n a, id = Heap n -> argv st !! j = Some id -> aargs c !! j = Some a -> a.2 = Used.

Lemma arg_ok_dict st D a id j : (forall n, id = Heap n -> drefs n D = drefs n (dict st) \/ a.2 = Used \/ refs st n <> 1) ->
  argv st !! j = Some id -> arg_ok st id a -> arg_ok (set_dict st D) id a.
Proof.
  intros Hn Ej [Ht Hs]. split; [done|]. destruct a as [t []]; cbn in *; [| |done].
  - destruct Hs as (n & o & -> & Hr & E & He). exists n, o. split_and!; [done| |done|done]. destruct (Hn n eq_refl) as [Hd|[?|?]]; [|done|done]. unfold refs in *. cbn. lia.
  - intros n ->. specialize (Hs n eq_refl). destruct (Hn n eq_refl) as [Hd|[?|?]]; [|done|done]. unfold refs in *. cbn. lia.
Qed.

Lemma args_dict st c D : Forall2 (arg_ok st) (argv st) (aargs c) ->
  (forall j n a, argv st !! j = Some (Heap n) -> aargs c !! j = Some a -> drefs n D = drefs n (dict st) \/ a.2 = Used \/ refs st n <> 1) ->
  Forall2 (arg_ok (set_dict st D)) (argv (set_dict st D)) (aargs c).
Proof.
  intros H Hn. apply Forall2_same_length_lookup_2; [by eapply Forall2_length|]. intros j id a Ej Ea. cbn in Ej.
  eapply arg_ok_dict; [|exact Ej|eapply Forall2_lookup_lr in H; eauto]. intros n ->. eauto.
Qed.

(** The reference held on [id] becomes one of the dictionary. *)
Lemma dict_add_sim d st c k id x : Sim d st c -> dict st !! k = None -> expires st !! k = None -> val_of (heap st) id x -> unclaimed st c id ->
  (forall n, id = Heap n -> drefs n (dict st) = 0 /\ refs st n <= 1 /\ n <> shared_del st) ->
  Sim (bump id (-1) d) (set_dict st (<[k := id]> (dict st))) (with_kv c (<[k := (x, None)]> (kv c))).
Proof.
  intros [H1 H2 H3 H4 H5 H6 H7] Ek Ee Hx Hu Hf. set (st' := set_dict _ _).
  assert (forall n, refs st' n = refs st n + one id n) as Hrefs by (intros n; unfold refs; cbn; rewrite drefs_insert by done; lia).
  constructor; [constructor| | |done..].
  - intros n. cbn. rewrite Hrefs. unfold bump. pose proof (own_cell _ _ H1 n) as Hc. destruct (heap st !! n) eqn:En; [lia|].
    rewrite one_other; [lia|]. intros ->. destruct x; cbn in Hx; [destruct Hx as (_ & o & E & _); congruence|destruct Hx as (m & o & [= <-] & E & _); congruence].
  - intros n. rewrite Hrefs. pose proof (own_few _ _ H1 n). pose proof (one_range id n). unfold bump. destruct (decide (id = Heap n)) as [->|Hn]; [|rewrite one_other by done; lia].
    specialize (Hf n eq_refl). lia.
  - apply H1.
  - cbn. rewrite drefs_insert by done. rewrite one_other; [|intros ->; by destruct (Hf _ eq_refl) as (_ & _ & ?)]. pose proof (own_del _ _ H1). lia.
  - intros n. cbn. rewrite drefs_insert by done. pose proof (own_inj _ _ H1 n). destruct (decide (id = Heap n)) as [->|Hn]; [destruct (Hf n eq_refl); rewrite one_same; lia|rewrite one_other by done; lia].
  - intros k'. cbn. specialize (H2 k'). unfold key_ok in *. cbn. destruct (decide (k' = k)) as [->|Hk'].
    + rewrite lookup_insert_eq. rewrite lookup_insert_eq. split_and!; [done..|]. by exists id.
    + rewrite !lookup_insert_ne by done. done.
  - apply args_dict; [done|]. intros j n a Ej Ea. rewrite drefs_insert by done. destruct (decide (id = Heap n)) as [->|Hn]; [right; left; by eapply Hu|left; rewrite one_other by done; lia].
Qed.

Lemma dict_replace_sim d st c k id x old x0 e : Sim d st c -> dict st !! k = Some old -> kv c !! k = Some (x0, e) -> val_of (heap st) id x -> unclaimed st c id ->
  (forall n, id = Heap n -> drefs n (dict st) = 0 /\ refs st n <= 1 /\ n <> shared_del st) -> (forall n, old = Heap n -> d n < 2 ^ 30) ->
  Sim (bump id (-1) (bump old 1 d)) (set_dict st (<[k := id]> (dict st))) (with_kv c (<[k := (x, e)]> (kv c))).
Proof.
  intros [H1 H2 H3 H4 H5 H6 H7] Ek Ev Hx Hu Hf Hold. set (st' := set_dict _ _).
  assert (forall n, refs st' n = refs st n - one old n + one id n) as Hrefs by (intros n; unfold refs; cbn; rewrite (drefs_replace n _ _ old) by done; lia).
  constructor; [constructor| | |done..].
  - intros n. cbn. rewrite Hrefs. unfold bump. pose proof (own_cell _ _ H1 n) as Hc. destruct (heap st !! n) eqn:En; [lia|].
    rewrite (one_other id), (one_other old); [lia| |].
    + intros ->. apply refs_dict in Ek. lia.
    + intros ->. destruct x; cbn in Hx; [destruct Hx as (_ & o & E & _); congruence|destruct Hx as (m & o & [= <-] & E & _); congruence].
  - intros n. rewrite Hrefs. pose proof (own_few _ _ H1 n). pose proof (one_range id n). pose proof (one_range old n). unfold bump. split.
    + destruct (decide (id = Heap n)) as [->|Hn]; [specialize (Hf n eq_refl); lia|rewrite (one_other id) by done; lia].
    + destruct (decide (old = Heap n)) as [->|Hn]; [specialize (Hold n eq_refl); lia|rewrite (one_other old) by done; lia].
  - apply H1.
  - cbn. rewrite (drefs_replace _ _ _ old) by done. rewrite (one_other id); [|intros ->; by destruct (Hf _ eq_refl) as (_ & _ & ?)]. pose proof (own_del _ _ H1). pose proof (drefs_delete (shared_del st) _ _ _ Ek). pose proof (drefs_nonneg (shared_del st) (base.delete k (dict st))). pose proof (one_range old (shared_del st)). lia.
  - intros n. cbn. rewrite (drefs_replace _ _ _ old) by done. pose proof (own_inj _ _ H1 n). pose proof (one_range old n). destruct (decide (id = Heap n)) as [->|Hn]; [destruct (Hf n eq_refl); rewrite one_same; lia|rewrite (one_other id) by done; lia].
  - intros k'. cbn. specialize (H2 k'). unfold key_ok in *. cbn. destruct (decide (k' = k)) as [->|Hk'].
    + rewrite lookup_insert_eq, lookup_insert_eq. rewrite Ev in H2. destruct H2 as (E1 & E2 & _). split_and!; [done..|]. by exists id.
    + rewrite !lookup_insert_ne by done. done.
  - apply args_dict; [done|]. intros j n a Ej Ea. rewrite (drefs_replace n _ _ old) by done. destruct (decide (id = Heap n)) as [->|Hn]; [right; left; by eapply Hu|]. rewrite (one_other id) by done.
    destruct (decide (old = Heap n)) as [->|Hn']; [right; right; pose proof (refs_dict_argv st k j n Ek Ej); lia|left; rewrite (one_other old) by done; lia].
Qed.

(** The reference of the dictionary passes to the operation. *)
Lemma dict_delete_sim d st c k old : Sim d st c -> dict st !! k = Some old -> (forall n, old = Heap n -> d n < 2 ^ 30) ->
  Sim (bump old 1 d) (set_dict (set_expires st (base.delete k (expires st))) (base.delete k (dict st))) (with_kv c (base.delete k (kv c))).
Proof.
  intros [H1 H2 H3 H4 H5 H6 H7] Ek Hold. set (st' := set_dict _ _).
  assert (forall n, refs st' n = refs st n - one old n) as Hrefs by (intros n; unfold refs; cbn; rewrite (drefs_delete n _ _ old) by done; lia).
  constructor; [constructor| | |done..].
  - intros n. cbn. rewrite Hrefs. unfold bump. pose proof (own_cell _ _ H1 n) as Hc. destruct (heap st !! n) eqn:En; [lia|].
    rewrite (one_other old); [lia|]. intros ->. apply refs_dict in Ek. lia.
  - intros n. rewrite Hrefs. pose proof (own_few _ _ H1 n). pose proof (one_range old n). unfold bump.
    destruct (decide (old = Heap n)) as [->|Hn]; [specialize (Hold n eq_refl); lia|rewrite (one_other old) by done; lia].
  - apply H1.
  - cbn. rewrite (drefs_delete _ _ _ old) by done. pose proof (own_del _ _ H1). pose proof (drefs_delete (shared_del st) _ _ _ Ek). pose proof (drefs_nonneg (shared_del st) (base.delete k (dict st))). pose proof (one_range old (shared_del st)). lia.
  - intros n. cbn. rewrite (drefs_delete _ _ _ old) by done. pose proof (own_inj _ _ H1 n). pose proof (one_range old n). lia.
  - intros k'. cbn. specialize (H2 k'). unfold key_ok in *. cbn. destruct (decide (k' = k)) as [->|Hk'].
    + rewrite !lookup_delete_eq. by left.
    + rewrite !lookup_delete_ne by done. done.
  - apply (args_dict (set_expires st (base.delete k (expires st))) c); [exact H3|]. intros j n a Ej Ea. rewrite (drefs_delete n _ _ old) by done.
    destruct (decide (old = Heap n)) as [->|Hn']; [right; right; pose proof (refs_dict_argv st k j n Ek Ej); change (refs (set_expires _ _) n) with (refs st n); lia|left; rewrite (one_other old) by done; cbn; lia].
Qed.

(** A key whose deadline is already past is gone from the abstract map. *)
Definition put (k : list Z) (x : value) (e : option Z) (m : store_map) : store_map := if expiredb now e then base.delete k m else <[k := (x, e)]> m.

Lemma expires_sim d st c k x e e' : Sim d st c -> kv c !! k = Some (x, e) ->
  Sim d (set_expires st (partial_alter (fun _ => e') k (expires st))) (with_kv c (put k x e' (kv c))).
Proof.
  intros [H1 H2 H3 H4 H5 H6 H7] Ev. constructor; [|intros k'; cbn|exact H3|done..].
  - destruct H1 as [O1 O2 O3 O4 O5]. by constructor.
  - specialize (H2 k'). unfold key_ok, put in *. cbn. destruct (decide (k' = k)) as [->|Hk'].
    + rewrite Ev in H2. destruct H2 as (E1 & E2 & id & E3 & E4). destruct (expiredb now e') eqn:He'.
      * rewrite lookup_delete_eq, lookup_partial_alter_eq. right. split; [by exists id|done].
      * rewrite lookup_insert_eq, lookup_partial_alter_eq. eauto.
    + rewrite lookup_partial_alter_ne by done. destruct (expiredb now e'); [rewrite lookup_delete_ne by done|rewrite lookup_insert_ne by done]; done.
Qed.

(** *** Replies and counters *)

Lemma out_sim d st c x : Sim d st c -> Sim d (set_out st (out st ++ x)) (says c x).
Proof. intros [[O1 O2 O3 O4 O5] H2 H3 H4 H5 H6 H7]. constructor; [by constructor|done|exact H3|cbn; by rewrite H4|done..]. Qed.

Lemma counts_sim d st c s n : Sim d st c -> dirty s = dirty (counts st) + n -> Sim d (set_counts st s) (dirties c n).
Proof. intros [[O1 O2 O3 O4 O5] H2 H3 H4 H5 H6 H7] Hs. constructor; [by constructor|done|exact H3|done|done|cbn; lia|done]. Qed.

Lemma dirties_0 c : dirties c 0 = c.
Proof. destruct c. unfold dirties. cbn. by rewrite Z.add_0_r. Qed.

Lemma counts_sim0 d st c s : Sim d st c -> dirty s = dirty (counts st) -> Sim d (set_counts st s) c.
Proof. intros H Hs. rewrite <- (dirties_0 c). apply counts_sim; [done|lia]. Qed.

Lemma addReplyString_sim d st c x : Sim d st c -> wp (addReplyString x) (fun _ st' => Sim d st' (says c x)) st.
Proof. intros H. apply wp_modify. by apply out_sim. Qed.

Lemma add_dirty_sim d st c n : Sim d st c -> wp (add_dirty n) (fun _ st' => Sim d st' (dirties c n)) st.
Proof. intros H. apply wp_modify. by apply counts_sim. Qed.

Lemma with_kv_id c : with_kv c (kv c) = c.
Proof. by destruct c. Qed.

(** ** The operations of db.c *)

Definition mild (d : debts) : Prop := forall n, 0 <= d n < 2 ^ 30.
Lemma mild_settled : mild settled.
Proof. intros n. unfold settled. lia. Qed.

(** What an operation on the key [k] leaves alone. *)
Definition frame (k : list Z) (st st' : server) : Prop :=
  argv st' = argv st /\ shared_del st' = shared_del st /\ forall k', k' <> k -> dict st' !! k' = dict st !! k'.

Lemma frame_refl k st : frame k st st.
Proof. done. Qed.
Lemma db_frame_trans k st1 st2 st3 : frame k st1 st2 -> frame k st2 st3 -> frame k st1 st3.
Proof. intros (A1 & B1 & C1) (A2 & B2 & C2). split_and!; [congruence..|]. intros k' Hk. by rewrite C2, C1. Qed.

Lemma key_absent d st c k : Sim d st c -> dict st !! k = None -> kv c !! k = None /\ expires st !! k = None.
Proof.
  intros H Ek. pose proof (sim_key _ _ _ H k) as Hk. unfold key_ok in Hk. destruct (kv c !! k) as [[x e]|]; [destruct Hk as (_ & _ & id & E & _); congruence|].
  destruct Hk as [[_ E]|[[id E] _]]; [done|congruence].
Qed.

Lemma key_present d st c k x e : Sim d st c -> kv c !! k = Some (x, e) ->
  expires st !! k = e /\ expiredb now e = false /\ exists id, dict st !! k = Some id /\ val_of (heap st) id x /\ live st id.
Proof.
  intros H Ek. pose proof (sim_key _ _ _ H k) as Hk. unfold key_ok in Hk. rewrite Ek in Hk. destruct Hk as (E1 & E2 & id & E3 & E4).
  split_and!; [done..|]. exists id. split_and!; [done..|]. eapply dict_live; [apply H|done].
Qed.

Lemma bump_undo id d n : bump id (-1) (bump id 1 d) n = d n.
Proof. unfold bump. lia. Qed.

Lemma dbSyncDelete_ok d st c k : mild d -> Sim d st c ->
  wp (dbSyncDelete k) (fun b st' => Sim d st' (with_kv c (base.delete k (kv c))) /\ frame k st st' /\ b = bool_decide (is_Some (dict st !! k)) /\ dict st' !! k = None /\ expires st' !! k = None /\ dict st' = base.delete k (dict st) /\ kept (heap st) (heap st')) st.
Proof.
  intros Hm HS. unfold dbSyncDelete, dict_delete. apply wp_bind, wp_modify, wp_bind, wp_gets. cbn [dict set_expires]. destruct (dict st !! k) as [id|] eqn:Ek.
  - apply wp_bind, wp_modify. cbn. pose proof (dict_delete_sim d st c k id HS Ek) as HS'. eapply wp_step; [apply decr_sim; [apply HS'| |]|].
    + intros n ->. specialize (Hm n). lia.
    + exact (dict_live st d k id (sim_owned _ _ _ HS) Ek).
    + intros n ->. left. unfold bump. rewrite one_same. specialize (Hm n). lia.
    + cbn beta. intros _ st' (HS2 & h & -> & Hk). apply wp_ret. split_and!; [eapply Sim_ext; [|exact HS2]; intros n; apply bump_undo|..].
      * split_and!; [done|done|]. intros k' Hk'. cbn. by rewrite lookup_delete_ne.
      * done.
      * apply lookup_delete_eq.
      * apply lookup_delete_eq.
      * done.
      * done.
  - apply wp_ret. destruct (key_absent d st c k HS Ek) as [Ev Ee]. rewrite (delete_id (expires st)), (delete_id (kv c)), with_kv_id by done. cbn.
    split_and!; [by destruct st|done|done|done|done|by rewrite delete_id|apply kept_heap_refl].
Qed.

Lemma getExpire_ok d st c k : Sim d st c -> wp (getExpire k) (fun w st' => st' = st /\ w = default (-1) (expires st !! k)) st.
Proof.
  intros HS. unfold getExpire. apply wp_bind, wp_gets. destruct (expires st !! k) as [w|] eqn:Ee; [|by apply wp_ret]. apply wp_bind, wp_gets, wp_bind. eapply wp_lift; [|by apply wp_ret].
  rewrite bool_decide_eq_true_2; [done|]. destruct (dict st !! k) eqn:Ek; [done|]. destruct (key_absent d st c k HS Ek). congruence.
Qed.

Lemma expired_default e : (if default (-1) e <? 0 then true else now <=? default (-1) e) = negb (expiredb now e).
Proof. destruct e as [w|]; cbn; [|done]. destruct (Z.ltb_spec w 0), (Z.leb_spec 0 w), (Z.leb_spec now w), (Z.ltb_spec w now); cbn; lia || done. Qed.

Lemma expireIfNeeded_ok d st c k : mild d -> Sim d st c ->
  wp (expireIfNeeded now k) (fun b st' => Sim d st' c /\ frame k st st' /\
    match kv c !! k with Some _ => st' = st /\ b = false | None => dict st' !! k = None /\ expires st' !! k = None end) st.
Proof.
  intros Hm HS. unfold expireIfNeeded. eapply wp_step; [by eapply getExpire_ok|]. cbn beta. intros w ? [-> ->]. pose proof (expired_default (expires st !! k)) as He. pose proof (sim_key _ _ _ HS k) as Hk. unfold key_ok in Hk.
  destruct (expiredb now (expires st !! k)) eqn:Ex.
  - assert (kv c !! k = None) as Ev. { destruct (kv c !! k) as [[x e]|]; [|done]. destruct Hk as (E & E2 & _). congruence. }
    rewrite Ev in *. destruct (_ <? 0); [done|]. destruct (now <=? _); [done|]. apply wp_bind, wp_modify. eapply wp_mono; [apply (dbSyncDelete_ok d _ c k Hm); by apply counts_sim0|].
    cbn beta. intros b st' (HS' & Hf & _ & E1 & E2 & _). rewrite delete_id, with_kv_id in HS' by done. done.
  - destruct (_ <? 0).
    + apply wp_ret. split_and!; [done|done|]. destruct (kv c !! k) as [[x e]|]; [done|]. destruct Hk as [?|[_ ?]]; [done|congruence].
    + destruct (now <=? _); [|done]. apply wp_ret. split_and!; [done|done|]. destruct (kv c !! k) as [[x e]|]; [done|]. destruct Hk as [?|[_ ?]]; [done|congruence].
Qed.

(** Looking a key up, for both reads and writes. *)
Definition found (st : server) (c : config) (k : list Z) (r : option oid) (st' : server) : Prop :=
  dict st' !! k = r /\ match kv c !! k with Some _ => is_Some r | None => r = None /\ expires st' !! k = None end.

Lemma lookupKeyWrite_ok d st c k : mild d -> Sim d st c ->
  wp (lookupKeyWrite now k) (fun r st' => Sim d st' c /\ frame k st st' /\ found st c k r st') st.
Proof.
  intros Hm HS. unfold lookupKeyWrite. eapply wp_step; [by apply expireIfNeeded_ok|]. cbn beta. intros b st' (HS' & Hf & Hb). apply wp_gets. split_and!; [done|done|]. unfold found. split; [done|].
  destruct (kv c !! k) as [[x e]|] eqn:Ev; [|done]. destruct Hb as [-> _]. destruct (key_present d st c k x e HS Ev) as (_ & _ & id & E & _). by exists id.
Qed.

Lemma lookupKeyRead_ok d st c k : mild d -> Sim d st c ->
  wp (lookupKeyRead now k) (fun r st' => Sim d st' c /\ frame k st st' /\ found st c k r st') st.
Proof.
  intros Hm HS. unfold lookupKeyRead. eapply wp_step; [by apply expireIfNeeded_ok|]. cbn beta. intros b st' (HS' & Hf & Hb).
  assert (found st c k (dict st' !! k) st') as HF.
  { split; [done|]. destruct (kv c !! k) as [[x e]|] eqn:Ev; [|done]. destruct Hb as [-> _]. destruct (key_present d st c k x e HS Ev) as (_ & _ & id & E & _). by exists id. }
  destruct b.
  - apply wp_ret. split_and!; [done|done|]. destruct HF as [_ HF]. unfold found. destruct (kv c !! k) as [p|]; [by destruct Hb|]. destruct HF as [E E']. by rewrite E.
  - apply wp_bind, wp_gets, wp_bind, wp_modify, wp_ret. split_and!; [apply counts_sim0; [done|by case_bool_decide]|done|exact HF].
Qed.

(** *** Arguments *)

Lemma arg_lookup d st c j t s : Sim d st c -> aargs c !! j = Some (t, s) -> exists id, argv st !! j = Some id /\ arg_ok st id (t, s).
Proof. intros H E. eapply Forall2_lookup_r; [apply H|exact E]. Qed.

Lemma arg_wp j id (Q : oid -> server -> Prop) st : argv st !! j = Some id -> Q id st -> wp (arg j) Q st.
Proof. intros E HQ. unfold wp, arg. by rewrite E. Qed.

(** Fetching a string object. *)
Lemma fetch_text id t (Q : robj -> server -> Prop) st : text_of (heap st) id t -> (forall o, obj_text o t -> Q o st) -> wp (fetch id) Q st.
Proof.
  intros [Hz H] HQ. destruct id as [v|n].
  - apply fetch_shared, HQ. destruct H as [Hv ->]. apply (text_int _ _ v); [done..| |done]. unfold in_s, OBJ_SHARED_INTEGERS in *. lia.
  - destruct H as (o & E & Ho). eapply fetch_heap; [exact E|]. by apply HQ.
Qed.

Lemma arg_text_ok d st c j t : Sim d st c -> aargs c !! j = Some (t, Fresh) -> wp (arg_text j) (fun x st' => st' = st /\ x = t) st.
Proof.
  intros HS Ej. destruct (arg_lookup d st c j t Fresh HS Ej) as (id & Ea & [Hz Ht] & n & o & -> & Hr & Eo & He). unfold arg_text. eapply wp_bind, arg_wp; [exact Ea|]. eapply wp_bind, fetch_heap; [exact Eo|].
  destruct Ht as (o' & E' & Ho). assert (o' = o) as -> by congruence. destruct Ho as [sd Ht _ Hp Hrep|v Ht Hi _ _ _]; [|by rewrite sdsEncoded_int in He].
  eapply wp_bind, wp_lift; [unfold as_sds; by rewrite Hp|]. eapply wp_lift; [by apply rd_text|]. done.
Qed.

Lemma Sim_args d st c a : Sim d st c -> Forall2 (arg_ok st) (argv st) a -> Sim d st (with_args c a).
Proof. intros [H1 H2 H3 H4 H5 H6 H7] H. by constructor. Qed.

(** Forgetting that an argument is not shared. *)
Lemma Sim_mark d st c j t s : Sim d st c -> aargs c !! j = Some (t, s) -> Sim d st (with_args c (<[j := (t, Used)]> (aargs c))).
Proof.
  intros HS Ej. destruct (arg_lookup d st c j t s HS Ej) as (id & Ea & Ht & _). apply Sim_args; [done|]. rewrite <- (list_insert_id (argv st) j id Ea). by apply Forall2_insert; [apply HS|].
Qed.

Lemma set_argv_sim d st c ids a : Sim d st c -> Forall2 (arg_ok (set_argv st ids)) ids a ->
  (forall n, drefs n (dict st) + occ n ids + one (Heap (shared_del st)) n <= 2 /\ d n + occ n (argv st) - occ n ids <= 2 ^ 30) ->
  (forall n, heap st !! n = None -> occ n ids = 0) ->
  Sim (fun n => d n + occ n (argv st) - occ n ids) (set_argv st ids) (with_args c a).
Proof.
  intros [H1 H2 H3 H4 H5 H6 H7] Ha Hb Hl. constructor; [|done|done|done..]. constructor.
  - intros n. pose proof (own_cell _ _ H1 n) as Hc. specialize (Hl n). pose proof (drefs_nonneg n (dict st)). pose proof (occ_nonneg n (argv st)). pose proof (one_range (Heap (shared_del st)) n). unfold refs in *. cbn. destruct (heap st !! n); [lia|]. specialize (Hl eq_refl). lia.
  - exact Hb.
  - apply H1.
  - apply H1.
  - apply H1.
Qed.

(** [decrRefCount] works on the heap alone. *)
Definition decr_heap (id : oid) (h : gmap nat robj) : res (gmap nat robj) :=
  match id with
  | Shared v => Ok h
  | Heap n =>
    match h !! n with
    | None => Fault OutOfBounds
    | Some o =>
      if refcount o =? 1 then Ok (base.delete n h) else if refcount o <=? 0 then Fault AssertFailed
      else if negb (refcount o =? OBJ_SHARED_REFCOUNT) then Ok (<[n := with_refcount o (refcount o - 1)]> h) else Ok h
    end
  end.

Lemma set_heap_id st : set_heap st (heap st) (next st) = st.
Proof. by destruct st. Qed.

Lemma decr_heap_eq id st : decrRefCount id st = match decr_heap id (heap st) with Ok h => Ok (set_heap st h (next st), tt) | Fault f => Fault f end.
Proof.
  unfold decrRefCount, decr_heap, mbind, ST_bind, fetch. destruct id as [v|n]; [cbn; by rewrite set_heap_id|]. destruct (heap st !! n) as [o|] eqn:E; [|done].
  destruct (_ =? 1); [done|]. destruct (_ <=? 0); [done|]. destruct (_ =? _); cbn; [by rewrite set_heap_id|]. by rewrite E.
Qed.

(** An object may be released just before the vector that lists it is replaced. *)
Lemma decr_commute id f (Q : unit -> server -> Prop) st :
  (forall h, f (set_heap st h (next st)) = set_argv (set_heap st h (next st)) (argv (f st))) ->
  wp (decrRefCount id) Q (set_argv st (argv (f st))) -> wp (_ ← decrRefCount id; modify f) Q st.
Proof.
  intros Hf H. unfold wp, mbind, ST_bind in *. rewrite decr_heap_eq in *. cbn [heap set_argv] in H. destruct (decr_heap id (heap st)) as [h|]; [|done]. cbn. by rewrite Hf.
Qed.

(** *** Writing to an object with a single reference *)

Lemma owned_store st d n o o' : owned st d -> heap st !! n = Some o -> refcount o' = refcount o -> owned (set_heap st (<[n := o']> (heap st)) (next st)) d.
Proof.
  intros [H1 H2 H3 H4 H5] E Hr. constructor; cbn; [|exact H2| |exact H4|exact H5].
  - intros m. change (refs (set_heap _ _ _) m) with (refs st m). specialize (H1 m). destruct (decide (m = n)) as [->|Hm]; [rewrite lookup_insert_eq; rewrite E in H1; lia|by rewrite lookup_insert_ne].
  - intros m Hm. rewrite lookup_insert_ne; [by apply H3|]. intros ->. by rewrite (H3 m Hm) in E.
Qed.

Lemma text_of_other h id n o' t : id <> Heap n -> text_of h id t -> text_of (<[n := o']> h) id t.
Proof. intros Hn [Hz H]. split; [done|]. destruct id as [v|m]; [done|]. rewrite lookup_insert_ne by congruence. done. Qed.

Lemma val_of_other h id n o' x : id <> Heap n -> val_of h id x -> val_of (<[n := o']> h) id x.
Proof. intros Hn H. destruct x as [t|]; [by apply text_of_other|]. destruct H as (m & o & -> & E & Ht). exists m, o. rewrite lookup_insert_ne by congruence. done. Qed.

Lemma arg_ok_other st id n o' a : id <> Heap n -> arg_ok st id a -> arg_ok (set_heap st (<[n := o']> (heap st)) (next st)) id a.
Proof.
  intros Hn [Ht Hs]. split; [by apply text_of_other|]. destruct a.2; [|done..]. destruct Hs as (m & o & -> & Hr & E & He). exists m, o. cbn. rewrite lookup_insert_ne by congruence. done.
Qed.

Lemma text_of_new h n o t : obj_text o t -> zlen t <= MAX_TEXT -> text_of (<[n := o]> h) (Heap n) t.
Proof. intros H Hz. split; [done|]. exists o. by rewrite lookup_insert_eq. Qed.

Lemma store_arg_sim d st c j n o o' t' : Sim d st c -> argv st !! j = Some (Heap n) -> refs st n = 1 -> heap st !! n = Some o -> refcount o' = refcount o ->
  obj_text o' t' -> zlen t' <= MAX_TEXT -> Sim d (set_heap st (<[n := o']> (heap st)) (next st)) (with_args c (<[j := (t', Own)]> (aargs c))).
Proof.
  intros [H1 H2 H3 H4 H5 H6 H7] Ej Hr E Hrc Ht Hz. constructor; [by eapply owned_store| |cbn|done..|].
  - intros k. specialize (H2 k). unfold key_ok in *. cbn. destruct (kv c !! k) as [[x e]|]; [|exact H2]. destruct H2 as (E1 & E2 & id & E3 & E4). split_and!; [done..|]. exists id. split; [done|].
    apply val_of_other; [|done]. intros ->. pose proof (refs_dict_argv st k j n E3 Ej). lia.
  - apply Forall2_same_length_lookup_2; [rewrite length_insert; by eapply Forall2_length|]. intros i id a Ei Ea. destruct (decide (i = j)) as [->|Hi].
    + assert (id = Heap n) as -> by congruence. rewrite list_lookup_insert_eq in Ea by (erewrite <- Forall2_length; [|exact H3]; by eapply lookup_lt_Some). injection Ea as <-. split; [by apply text_of_new|]. cbn. by intros m [= <-].
    + rewrite list_lookup_insert_ne in Ea by done. apply arg_ok_other; [|eapply Forall2_lookup_lr in H3; eauto]. intros ->. pose proof (occ_lookup_two n (argv st) i j Hi Ei Ej).
      unfold refs in Hr. pose proof (drefs_nonneg n (dict st)). pose proof (one_range (Heap (shared_del st)) n). lia.
  - apply text_of_other; [|done]. intros [= <-]. apply occ_lookup in Ej. unfold refs in Hr. rewrite one_same in Hr. pose proof (drefs_nonneg (shared_del st) (dict st)). lia.
Qed.

Lemma store_key_sim d st c k n o o' x e t' : Sim d st c -> dict st !! k = Some (Heap n) -> refs st n = 1 -> kv c !! k = Some (x, e) -> heap st !! n = Some o -> refcount o' = refcount o ->
  obj_text o' t' -> zlen t' <= MAX_TEXT -> Sim d (set_heap st (<[n := o']> (heap st)) (next st)) (with_kv c (<[k := (VStr t', e)]> (kv c))).
Proof.
  intros [H1 H2 H3 H4 H5 H6 H7] Ek Hr Ev E Hrc Ht Hz. constructor; [by eapply owned_store| |cbn|done..|].
  - intros k'. specialize (H2 k'). unfold key_ok in *. cbn. destruct (decide (k' = k)) as [->|Hk].
    + rewrite lookup_insert_eq. rewrite Ev in H2. destruct H2 as (E1 & E2 & _). split_and!; [done..|]. exists (Heap n). split; [done|]. by apply text_of_new.
    + rewrite lookup_insert_ne by done. destruct (kv c !! k') as [[x' e']|]; [|exact H2]. destruct H2 as (E1 & E2 & id & E3 & E4). split_and!; [done..|]. exists id. split; [done|].
      apply val_of_other; [|done]. intros ->. pose proof (drefs_lookup_two n _ k' k Hk E3 Ek). unfold refs in Hr. pose proof (occ_nonneg n (argv st)). pose proof (one_range (Heap (shared_del st)) n). lia.
  - apply Forall2_same_length_lookup_2; [by eapply Forall2_length|]. intros i id a Ei Ea. apply arg_ok_other; [|eapply Forall2_lookup_lr in H3; eauto].
    intros ->. pose proof (refs_dict_argv st k i n Ek Ei). lia.
  - apply text_of_other; [|done]. intros [= <-]. apply drefs_lookup in Ek. unfold refs in Hr. rewrite one_same in Hr. pose proof (occ_nonneg (shared_del st) (argv st)). lia.
Qed.

(** *** [c->argv[j] = tryObjectEncoding(c->argv[j])] *)

Lemma replace_arg_sim d st c j old id t : Sim d st c -> argv st !! j = Some old -> text_of (heap st) id t -> (forall n, id = Heap n -> refs st n = 0) -> (forall n, old = Heap n -> d n < 2 ^ 30) ->
  Sim (bump id (-1) (bump old 1 d)) (set_argv st (<[j := id]> (argv st))) (with_args c (<[j := (t, Own)]> (aargs c))).
Proof.
  intros HS Ej Ht Hf Hd. assert (forall n, refs (set_argv st (<[j := id]> (argv st))) n = refs st n - one old n + one id n) as Hrefs by (intros n; unfold refs; cbn; rewrite (occ_update n _ j old) by done; lia).
  eapply Sim_ext; [|apply (set_argv_sim d st c (<[j := id]> (argv st)))]; [|done| | |].
  - intros n. cbn beta. rewrite (occ_update n _ j old) by done. unfold bump. lia.
  - apply Forall2_same_length_lookup_2; [rewrite !length_insert; by eapply Forall2_length, sim_args|]. intros i id' a Ei Ea. destruct (decide (i = j)) as [->|Hi].
    + rewrite list_lookup_insert_eq in Ei by (by eapply lookup_lt_Some). injection Ei as <-. rewrite list_lookup_insert_eq in Ea.
      2:{ erewrite <- Forall2_length; [|apply HS]. by eapply lookup_lt_Some. }
      injection Ea as <-. split; [done|]. cbn. intros n ->. rewrite Hrefs, Hf, one_same by done. pose proof (refs_argv st j n). unfold one. case_bool_decide as Ho; [|lia].
      subst. specialize (Hf n eq_refl). specialize (H Ej). lia.
    + rewrite list_lookup_insert_ne in Ei by done. rewrite list_lookup_insert_ne in Ea by done. pose proof (sim_args _ _ _ HS) as H3. eapply Forall2_lookup_lr in H3; [|exact Ei|exact Ea]. destruct H3 as [Ht' Hs]. split; [done|].
      assert (forall n, id' = Heap n -> refs st n = 1 -> refs (set_argv st (<[j := id]> (argv st))) n = 1) as Hone.
      { intros n -> E1. rewrite Hrefs. rewrite (one_other old), (one_other id); [lia| |].
        - intros ->. specialize (Hf n eq_refl). lia.
        - intros ->. pose proof (occ_lookup_two n _ i j Hi Ei Ej). unfold refs in E1. pose proof (drefs_nonneg n (dict st)). pose proof (one_range (Heap (shared_del st)) n). lia. }
      destruct a as [t' []]; cbn in *; [|by intros n ->; apply Hone; auto|done]. destruct Hs as (n & o & -> & Hr & E & He). exists n, o. split_and!; [done|by apply Hone|done..].
  - intros n. rewrite (occ_update n _ j old) by done. pose proof (own_few _ _ (sim_owned _ _ _ HS) n) as [H1 H2]. unfold refs in H1. pose proof (one_range old n). pose proof (one_range id n). split.
    + unfold one in *. destruct (bool_decide (id = Heap n)) eqn:B; [|lia]. apply bool_decide_eq_true in B. specialize (Hf n B). unfold refs, one in Hf. lia.
    + destruct (decide (old = Heap n)) as [->|Hn]; [specialize (Hd n eq_refl); lia|rewrite (one_other old) by done; lia].
  - intros n En. rewrite (occ_update n _ j old) by done. pose proof (own_cell _ _ (sim_owned _ _ _ HS) n) as Hc. rewrite En in Hc. pose proof (refs_nonneg st n). unfold refs in *.
    pose proof (drefs_nonneg n (dict st)). pose proof (occ_nonneg n (argv st)). pose proof (one_range (Heap (shared_del st)) n).
    rewrite (one_other old), (one_other id); [lia| |]; intros ->; [destruct Ht as (_ & o & E & _); congruence|]. apply occ_lookup in Ej. lia.
Qed.

Lemma encode_arg_ok junk private st c j t : Sim settled st c -> aargs c !! j = Some (t, Fresh) ->
  wp (encode_arg junk private j) (fun _ st' => Sim settled st' (with_args c (<[j := (t, Own)]> (aargs c))) /\ dict st' = dict st) st.
Proof.
  intros HS Ej. destruct (arg_lookup _ st c j t Fresh HS Ej) as (id & Ea & [Hz Ht] & n & o & -> & Hr & Eo & He). cbn in Hz. pose proof (own_cell _ _ (sim_owned _ _ _ HS) n) as Hc. rewrite Eo in Hc. unfold settled in Hc.
  destruct Ht as (o' & E' & Ho). assert (o' = o) as -> by congruence. clear E'. cbn in Ho.
  unfold encode_arg. eapply wp_bind, arg_wp; [exact Ea|]. eapply wp_bind, fetch_heap; [exact Eo|].
  destruct (tryObjectEncoding_ok junk private o t Ho) as (e & Ee & Hcase); [unfold MAX_TEXT in Hz; lia|]. eapply wp_bind, wp_lift; [exact Ee|]. destruct e as [o'|o'|v].
  - destruct Hcase as [Ht' Hrc]. eapply store_heap; [exact Eo|]. split; [|done]. by eapply store_arg_sim.
  - destruct Hcase as (Ht' & Hrc & _). eapply wp_step; [by apply alloc_sim|]. cbn beta. intros id st' (-> & -> & HS' & _ & H0). set (st1 := set_heap _ _ _) in *.
    apply decr_commute; [done|]. cbn [argv set_argv]. pose proof (replace_arg_sim _ st1 c j (Heap n) (Heap (next st)) t HS' Ea) as HR. eapply wp_mono; [apply decr_sim; [apply HR| |]|].
    + by apply text_of_new.
    + intros m [= <-]. exact H0.
    + intros m [= <-]. unfold bump, settled. rewrite one_other; [lia|]. intros [= <-]. pose proof (own_next _ _ (sim_owned _ _ _ HS) (next st)). rewrite H in Eo by lia. done.
    + cbn. rewrite lookup_insert_ne; [by eexists|]. intros <-. pose proof (own_next _ _ (sim_owned _ _ _ HS) (next st)). rewrite H in Eo by lia. done.
    + intros m [= <-]. left. unfold bump, settled. rewrite one_same. pose proof (one_range (Heap (next st)) n). lia.
    + cbn beta. intros _ st2 (HS2 & h & -> & _). split; [|done]. eapply Sim_ext; [|exact HS2]. intros m. unfold bump, settled. lia.
  - destruct Hcase as (Hv & -> & _). apply decr_commute; [done|]. cbn [argv set_argv]. pose proof (replace_arg_sim _ st c j (Heap n) (Shared v) (dec v) HS Ea) as HR. eapply wp_mono; [apply decr_sim; [apply HR| |]|].
    + by split.
    + done.
    + intros m _. unfold settled. lia.
    + by eexists.
    + intros m [= <-]. left. unfold bump, settled. rewrite one_same, one_other by done. lia.
    + cbn beta. intros _ st2 (HS2 & h & -> & _). split; [|done]. eapply Sim_ext; [|exact HS2]. intros m. unfold bump, settled. rewrite (one_other (Shared v)) by done. lia.
Qed.

(** *** Adding and overwriting *)

Lemma dbExists_ok st k : wp (dbExists k) (fun b st' => st' = st /\ b = bool_decide (is_Some (dict st !! k))) st.
Proof. by apply wp_gets. Qed.

Lemma dbAdd_ok d st c k id x : Sim d st c -> dict st !! k = None -> val_of (heap st) id x -> unclaimed st c id -> (forall n, id = Heap n -> drefs n (dict st) = 0 /\ refs st n <= 1 /\ n <> shared_del st) ->
  wp (dbAdd k id) (fun _ st' => Sim (bump id (-1) d) st' (with_kv c (<[k := (x, None)]> (kv c))) /\ st' = set_dict st (<[k := id]> (dict st))) st.
Proof.
  intros HS Ek Hx Hu Hf. unfold dbAdd. apply wp_bind, wp_gets, wp_bind. rewrite Ek. eapply wp_lift; [done|]. apply wp_modify. split; [|done].
  apply dict_add_sim; [done..| |done|done|done]. by apply (key_absent d st c k).
Qed.

Lemma dbOverwrite_ok d st c k id x old x0 e : Sim d st c -> dict st !! k = Some old -> kv c !! k = Some (x0, e) -> val_of (heap st) id x -> unclaimed st c id ->
  (forall n, id = Heap n -> drefs n (dict st) = 0 /\ refs st n <= 1 /\ n <> shared_del st) -> (forall n, old = Heap n -> 0 <= d n < 2 ^ 30 /\ id <> old) ->
  wp (dbOverwrite k id) (fun _ st' => Sim (bump id (-1) d) st' (with_kv c (<[k := (x, e)]> (kv c))) /\ exists h, st' = set_heap (set_dict st (<[k := id]> (dict st))) h (next st) /\ kept (heap st) h) st.
Proof.
  intros HS Ek Ev Hx Hu Hf Ho. unfold dbOverwrite. apply wp_bind, wp_gets. rewrite Ek. apply wp_bind, wp_modify.
  pose proof (dict_replace_sim d st c k id x old x0 e HS Ek Ev Hx Hu Hf) as HS'. eapply wp_mono; [apply decr_sim; [apply HS'| |]|].
  - intros n ->. specialize (Ho n eq_refl). lia.
  - exact (dict_live st d k old (sim_owned _ _ _ HS) Ek).
  - intros n ->. left. destruct (Ho n eq_refl) as [Hd Hne]. unfold bump. rewrite one_same, one_other by done. lia.
  - cbn beta. intros _ st' (HS2 & h & -> & Hk). split; [|by exists h]. eapply Sim_ext; [|exact HS2]. intros n. unfold bump. lia.
Qed.

Lemma Sim_ext_settled id d st c : (forall n, d n = 0) -> Sim (bump id 1 (bump id (-1) d)) st c -> Sim settled st c.
Proof. intros H. apply Sim_ext. intros n. unfold bump, settled. rewrite H. lia. Qed.

Lemma removeExpire_ok d st c k x e : Sim d st c -> kv c !! k = Some (x, e) ->
  wp (removeExpire k) (fun b st' => Sim d st' (with_kv c (<[k := (x, None)]> (kv c))) /\ b = bool_decide (is_Some e) /\ argv st' = argv st) st.
Proof.
  intros HS Ev. destruct (key_present d st c k x e HS Ev) as (Ee & _ & id & Ek & _). unfold removeExpire. apply wp_bind, wp_gets, wp_bind. rewrite Ek. eapply wp_lift; [done|]. apply wp_bind, wp_gets, wp_bind, wp_modify, wp_ret.
  rewrite Ee. split_and!; [|done..]. exact (expires_sim d st c k x e None HS Ev).
Qed.

Lemma setExpire_ok d st c k x e w : Sim d st c -> kv c !! k = Some (x, e) ->
  wp (setExpire k w) (fun _ st' => Sim d st' (with_kv c (put k x (Some w) (kv c))) /\ dict st' = dict st /\ argv st' = argv st) st.
Proof.
  intros HS Ev. destruct (key_present d st c k x e HS Ev) as (Ee & _ & id & Ek & _). unfold setExpire. apply wp_bind, wp_gets, wp_bind. rewrite Ek. eapply wp_lift; [done|]. apply wp_modify.
  split_and!; [|done..]. exact (expires_sim d st c k x e (Some w) HS Ev).
Qed.

(** An argument nobody else refers to. *)
Lemma own_arg_facts d st c j t id : Sim d st c -> aargs c !! j = Some (t, Own) -> argv st !! j = Some id ->
  text_of (heap st) id t /\ live st id /\ (forall n, id = Heap n -> drefs n (dict st) = 0 /\ refs st n <= 1 /\ n <> shared_del st) /\ unclaimed st (with_args c (<[j := (t, Used)]> (aargs c))) id /\ forall k, dict st !! k = Some id -> exists v, id = Shared v.
Proof.
  intros HS Ej Ea. destruct (arg_lookup d st c j t Own HS Ej) as (id' & Ea' & Ht & Ho). assert (id' = id) as -> by congruence. cbn in Ho.
  split_and!; [done|by eapply argv_live; [apply HS|]| | |].
  - intros n ->. specialize (Ho n eq_refl). apply occ_lookup in Ea. pose proof (drefs_nonneg n (dict st)). pose proof (one_range (Heap (shared_del st)) n). unfold refs in *. split_and!; [lia|lia|]. intros ->. rewrite one_same in *. lia.
  - intros i n a -> Ei Eai. cbn in Eai. destruct (decide (i = j)) as [->|Hi]; [rewrite list_lookup_insert_eq in Eai by (by eapply lookup_lt_Some); by injection Eai as <-|].
    pose proof (occ_lookup_two n _ i j Hi Ei Ea). specialize (Ho n eq_refl). unfold refs in Ho. pose proof (drefs_nonneg n (dict st)). pose proof (one_range (Heap (shared_del st)) n). lia.
  - intros k Ek. destruct id as [v|n]; [by exists v|]. pose proof (refs_dict_argv st k j n Ek Ea). specialize (Ho n eq_refl). lia.
Qed.

Lemma setKey_ok st c k j t id : Sim settled st c -> aargs c !! j = Some (t, Own) -> argv st !! j = Some id ->
  wp (setKey now k id) (fun _ st' => Sim settled st' (with_kv (with_args c (<[j := (t, Used)]> (aargs c))) (<[k := (VStr t, None)]> (kv c)))) st.
Proof.
  intros HS0 Ej Ea0. unfold setKey. eapply wp_step; [apply lookupKeyWrite_ok; [apply mild_settled|done]|]. cbn beta. intros r st1 (HS & (Ea & _ & _) & Ek & Hr).
  rewrite <- Ea in Ea0. clear Ea. rename Ea0 into Ea. destruct (own_arg_facts _ st1 c j t id HS Ej Ea) as (Ht & Hl & H1 & Hu & Hnd). pose proof (Sim_mark _ st1 c j t Own HS Ej) as HM. set (c1 := with_args c _) in *.
  assert (exists e, wp (match r with None => dbAdd k id | Some _ => dbOverwrite k id end) (fun _ st' => Sim (bump id (-1) settled) st' (with_kv c1 (<[k := (VStr t, e)]> (kv c1))) /\ live st' id) st1) as (e & Hw).
  { assert (forall st', Sim (bump id (-1) settled) st' (with_kv c1 (<[k := (VStr t, None)]> (kv c1))) -> argv st' = argv st1 -> live st' id) as Hlive by (intros st' HS' E; eapply (argv_live st' _ j); [apply HS'|congruence]).
    destruct r as [old|].
    - destruct (kv c !! k) as [[x0 e]|] eqn:Ev; [|by destruct Hr]. exists e. eapply wp_mono; [apply (dbOverwrite_ok settled st1 c1 k id (VStr t) old x0 e HM Ek Ev)|].
      + done.
      + done.
      + done.
      + intros n ->. split; [unfold settled; lia|]. intros ->. by destruct (Hnd k Ek).
      + cbn beta. intros _ st' (HS' & h & -> & _). split; [done|]. eapply (argv_live _ _ j); [apply HS'|done].
    - exists None. eapply wp_mono; [apply (dbAdd_ok settled st1 c1 k id (VStr t) HM Ek)|].
      + done.
      + done.
      + done.
      + cbn beta. intros _ st' (HS' & ->). split; [done|]. by apply Hlive. }
  eapply wp_step; [exact Hw|]. cbn beta. intros _ st2 [HS2 Hl2]. eapply wp_step; [apply incr_sim; [exact HS2|done|]|].
  - intros n ->. unfold bump, settled. rewrite one_same. lia.
  - cbn beta. intros _ st3 (HS3 & _). apply Sim_ext_settled in HS3; [|done]. eapply wp_step; [eapply removeExpire_ok; [exact HS3|apply lookup_insert_eq]|]. cbn beta. intros b st4 (HS4 & _ & _). apply wp_ret.
    cbn in HS4. by rewrite insert_insert_eq in HS4.
Qed.

(** *** Replies *)

Definition bulk (t : list Z) : list Z := chr "$" :: dec (zlen t) ++ crlf ++ t ++ crlf.
Definition int_reply (n : Z) : list Z := chr ":" :: dec n ++ crlf.
Definition err_reply (x : list Z) : list Z := str "-ERR " ++ x ++ crlf.

Lemma says_says c x y : says (says c x) y = says c (x ++ y).
Proof. unfold says. cbn. by rewrite <- app_assoc. Qed.

(** A reply only appends to the output. *)
Definition replies {A} (m : M A) (a : A) (x : list Z) (st : server) : Prop := m st = Ok (set_out st (out st ++ x), a).

Lemma replies_sim {A} (m : M A) a x d st c : replies m a x st -> Sim d st c ->
  wp m (fun b st' => b = a /\ Sim d st' (says c x) /\ argv st' = argv st /\ dict st' = dict st) st.
Proof. intros H HS. unfold wp. rewrite H. split_and!; [done|by apply out_sim|done..]. Qed.

Lemma replies_string x st : replies (addReplyString x) tt x st.
Proof. done. Qed.

Lemma replies_bind {A B} (m : M A) (k : A -> M B) a b x y st : replies m a x st -> replies (k a) b y (set_out st (out st ++ x)) -> replies (m ≫= k) b (x ++ y) st.
Proof. unfold replies, mbind, ST_bind. intros -> ->. cbn. by rewrite <- app_assoc. Qed.

Lemma replies_lift {A B} (m : res A) (k : A -> M B) a b y st : m = Ok a -> replies (k a) b y st -> replies (lift m ≫= k) b y st.
Proof. unfold replies, mbind, ST_bind, lift. by intros ->. Qed.

Lemma bind_run {A B} (m : M A) (k : A -> M B) a st st' : m st = Ok (st', a) -> (m ≫= k) st = k a st'.
Proof. unfold mbind, ST_bind. by intros ->. Qed.

Lemma replies_error x st : replies (addReplyError x) tt (err_reply x) st.
Proof. unfold addReplyError, err_reply. eapply replies_bind; [apply replies_string|]. eapply replies_bind; apply replies_string. Qed.

Lemma replies_prefix junk n p st : in_s 64 n -> replies (addReplyLongLongWithPrefix junk n p) tt (p :: dec n ++ crlf) st.
Proof.
  intros Hn. unfold addReplyLongLongWithPrefix. case_match; [apply replies_string|]. pose proof (dec_len_le n Hn).
  destruct (ll2string_ok (stack_buf junk 127) 127 n Hn) as (post & E & _); [by apply stack_buf_len|lia|]. eapply replies_lift; [exact E|]. eapply replies_lift; [by apply rd_app0|]. apply replies_string.
Qed.

Lemma replies_int junk n st : in_s 64 n -> replies (addReplyLongLong junk n) tt (int_reply n) st.
Proof.
  intros Hn. unfold addReplyLongLong. destruct (Z.eqb_spec n 0) as [->|]; [apply replies_string|]. destruct (Z.eqb_spec n 1) as [->|]; [apply replies_string|]. by apply replies_prefix.
Qed.

Lemma radix_len_ok fuel : forall n len, Z.abs n < 10 ^ (Z.of_nat fuel + 1) -> Z.abs n < 2 ^ 64 -> radix_len fuel n len = Ok (len + zlen (udec (Z.abs n)) - 1).
Proof.
  induction fuel as [|fuel IH]; intros n len Hn H64.
  - cbn [radix_len]. change (10 ^ (Z.of_nat 0 + 1)) with 10 in Hn.  assert (Z.quot n 10 = 0) as -> by (apply Z.quot_small_iff; lia).
    rewrite Z.eqb_refl, udec_small by lia. change (zlen [48 + Z.abs n]) with 1. f_equal. lia.
  - cbn [radix_len]. destruct (Z.eqb_spec (Z.quot n 10) 0) as [Hq|Hq].
    + apply Z.quot_small_iff in Hq; [|done]. rewrite udec_small by lia. change (zlen [48 + Z.abs n]) with 1. f_equal. lia.
    + assert (Z.abs (Z.quot n 10) = Z.abs n / 10) as Ea by (rewrite <- Z.quot_abs by done; change (Z.abs 10) with 10; apply Z.quot_div_nonneg; lia).
      assert (10 <= Z.abs n). { destruct (Z.le_gt_cases 10 (Z.abs n)); [done|]. exfalso. apply Hq, Z.quot_small_iff; lia. }
      rewrite IH; rewrite Ea.
      * f_equal. rewrite (udec_step (Z.abs n)) by lia. rewrite zlen_app. change (zlen [48 + Z.abs n mod 10]) with 1. lia.
      * apply Z.div_lt_upper_bound; [lia|]. rewrite <- Z.pow_succ_r by lia. replace (Z.succ (Z.of_nat fuel + 1)) with (Z.of_nat (S fuel) + 1) by lia. done.
      * apply Z.div_lt_upper_bound; lia.
Qed.

Lemma abs_wrap_neg v : - 2 ^ 63 <= v < 0 -> Z.abs (i64 (- v)) = - v.
Proof. intros Hv. destruct (decide (v = - 2 ^ 63)) as [->|]; [done|]. rewrite swrap_id by (lia || unfold in_s; lia). lia. Qed.

Lemma replies_bulk_len junk o t st : zlen t <= MAX_TEXT -> obj_text o t -> replies (addReplyBulkLen junk o) tt (chr "$" :: dec (zlen t) ++ crlf) st.
Proof.
  intros Hz Ho. unfold addReplyBulkLen. pose proof (zlen_nonneg t).
  assert ((if sdsEncodedObject o then s ← lift (as_sds o); mret (sdslen s)
           else n ← lift (as_long o); if n <? 0 then lift (radix_len 20 (i64 (- n)) 2) else lift (radix_len 20 n 1)) st = Ok (st, zlen t)) as E.
  { destruct Ho as [sd Ht He Hp Hr|v Ht He Hp Hv ->]; unfold as_sds, as_long.
    - rewrite He, Hp. unfold mbind, ST_bind, lift, mret, ST_ret. by rewrite (repr_len _ _ Hr).
    - rewrite sdsEncoded_int, Hp by done. unfold mbind, ST_bind, lift. unfold in_s in Hv. unfold dec. destruct (Z.ltb_spec v 0).
      + rewrite radix_len_ok; rewrite abs_wrap_neg by lia; [|change (10 ^ (Z.of_nat 20 + 1)) with (10 ^ 21); lia|lia]. rewrite zlen_cons. repeat f_equal. lia.
      + rewrite radix_len_ok by (change (10 ^ (Z.of_nat 20 + 1)) with (10 ^ 21); lia). rewrite Z.abs_eq by lia. repeat f_equal. lia. }
  unfold replies. erewrite bind_run; [|exact E]. destruct (zlen t <? _); [apply replies_string|]. apply replies_prefix. unfold in_s, MAX_TEXT in *. lia.
Qed.

Lemma fetch_text_eq id t st : text_of (heap st) id t -> exists o, fetch id st = Ok (st, o) /\ obj_text o t.
Proof. intros H.  assert (wp (fetch id) (fun o st' => st' = st /\ obj_text o t) st) as Hw by (by eapply fetch_text). apply wp_run in Hw as (st' & o & E & -> & Ho). eauto. Qed.

Lemma replies_object junk id t st : text_of (heap st) id t -> replies (addReply junk id) tt t st.
Proof.
  intros Ht. destruct (fetch_text_eq id t st Ht) as (o & E & Ho). unfold replies, addReply. erewrite bind_run; [|exact E]. eapply replies_lift; [by apply string_bytes_ok|]. apply replies_string.
Qed.

Lemma replies_bulk junk id t st : text_of (heap st) id t -> replies (addReplyBulk junk id) tt (bulk t) st.
Proof.
  intros Ht. destruct (fetch_text_eq id t st Ht) as (o & E & Ho). unfold replies, addReplyBulk. erewrite bind_run; [|exact E]. unfold bulk. change (chr "$" :: dec (zlen t) ++ crlf ++ t ++ crlf) with ((chr "$" :: dec (zlen t)) ++ crlf ++ t ++ crlf).
  rewrite (app_assoc _ crlf). eapply replies_bind; [apply replies_bulk_len; [apply Ht|done]|]. eapply replies_bind; [by apply replies_object|]. apply replies_string.
Qed.

Lemma replies_cbuffer junk t st : zlen t < 2 ^ 63 -> replies (addReplyBulkCBuffer junk t) tt (bulk t) st.
Proof.
  intros Hz. unfold addReplyBulkCBuffer, bulk. pose proof (zlen_nonneg t). change (chr "$" :: dec (zlen t) ++ crlf ++ t ++ crlf) with ((chr "$" :: dec (zlen t)) ++ crlf ++ t ++ crlf). rewrite (app_assoc _ crlf).
  eapply replies_bind; [apply replies_prefix; unfold in_s; lia|]. eapply replies_bind; apply replies_string.
Qed.

(** *** The life of the argument vector *)

Lemma free_argv_set_argv ids a : forall st, free_argv ids (set_argv st a) = match free_argv ids st with Ok (st', u) => Ok (set_argv st' a, u) | Fault f => Fault f end.
Proof.
  induction ids as [|id ids IH]; intros st; [done|]. cbn [free_argv]. unfold mbind, ST_bind. rewrite !decr_heap_eq. cbn [heap set_argv]. destruct (decr_heap id (heap st)) as [h|]; [|done]. apply (IH (set_heap st h (next st))).
Qed.

Lemma free_commute ids a (Q : unit -> server -> Prop) st : wp (free_argv ids) Q (set_argv st a) -> wp (_ ← free_argv ids; modify (fun st => set_argv st a)) Q st.
Proof.
  intros H. unfold wp, mbind, ST_bind in *. rewrite free_argv_set_argv in H. destruct (free_argv ids st) as [[st' u]|]; [|done]. by destruct u.
Qed.

Lemma free_sim ids : forall d st c, Sim d st c -> (forall n, occ n ids <= d n) -> wp (free_argv ids) (fun _ st' => Sim (fun n => d n - occ n ids) st' c /\ argv st' = argv st /\ dict st' = dict st) st.
Proof.
  induction ids as [|id ids IH]; intros d st c HS Hd; cbn [free_argv].
  - apply wp_ret. split; [|done]. eapply Sim_ext; [|exact HS]. intros n. cbn. lia.
  - assert (forall n, id = Heap n -> 1 <= d n) as H1 by (intros n ->; specialize (Hd n); cbn in Hd; rewrite one_same in Hd; pose proof (occ_nonneg n ids); lia).
    eapply wp_step; [apply decr_sim; [exact HS| |]|].
    + destruct id as [v|n]; [done|]. apply (owned_live st d); [apply HS|]. right. specialize (H1 n eq_refl). lia.
    + intros n E. left. by apply H1.
    + cbn beta. intros _ st' (HS' & h & -> & _). eapply wp_mono; [apply IH; [exact HS'|]|].
      * intros n. unfold bump. specialize (Hd n). cbn in Hd. lia.
      * cbn beta. intros _ st2 [HS2 E]. split; [|exact E]. eapply Sim_ext; [|exact HS2]. intros n. unfold bump. cbn. lia.
Qed.

(** At the end of a request every object of the vector is given up. *)
Lemma release_args_ok st c : Sim settled st c -> wp (ids ← gets argv; _ ← free_argv ids; modify (fun st => set_argv st [])) (fun _ st' => Sim settled st' (with_args c []) /\ argv st' = []) st.
Proof.
  intros HS. apply wp_bind, wp_gets, free_commute. pose proof (set_argv_sim settled st c [] [] HS) as H. eapply wp_mono; [apply free_sim; [apply H|]|].
  - constructor.
  - intros n. pose proof (own_few _ _ (sim_owned _ _ _ HS) n). unfold refs, settled in *. cbn. pose proof (occ_nonneg n (argv st)). pose proof (drefs_nonneg n (dict st)). pose proof (one_range (Heap (shared_del st)) n). lia.
  - done.
  - intros n. unfold settled. cbn. lia.
  - cbn beta. intros _ st' (HS' & E & _). split; [|done]. eapply Sim_ext; [|exact HS']. intros n. unfold settled. cbn. lia.
Qed.

Lemma createStringObject_ok junk t : zlen t <= MAX_TEXT ->
  exists o, createStringObject junk (Some t) (zlen t) = Ok o /\ refcount o = 1 /\ obj_text o t /\ sdsEncodedObject o = true.
Proof.
  intros Hz. unfold createStringObject, OBJ_ENCODING_EMBSTR_SIZE_LIMIT, MAX_TEXT in *. destruct (Z.leb_spec (zlen t) 44).
  - destruct (createEmbeddedStringObject_ok junk t []) as (sd & E & Hr); [lia|]. rewrite app_nil_r in E. rewrite E. eexists. split_and!; [done|done| |done]. by eapply text_sds.
  - destruct (createRawStringObject_ok junk t []) as (sd & E & Hr); [lia|]. rewrite app_nil_r in E. rewrite E. eexists. split_and!; [done|done| |done]. by eapply text_sds.
Qed.

(** The parser's objects: new, distinct, not shared. *)
Lemma create_argv_ok junk args : Forall (fun t => zlen t <= MAX_TEXT) args -> forall d st c, Sim d st c -> (forall n, (next st <= n)%nat -> d n = 0) ->
  wp (create_argv junk args) (fun ids st' => Sim (fun n => d n + occ n ids) st' c /\ argv st' = argv st /\ (dict st' = dict st /\ shared_del st' = shared_del st) /\
    Forall2 (fun id t => exists n o, id = Heap n /\ (next st <= n)%nat /\ heap st' !! n = Some o /\ obj_text o t /\ sdsEncodedObject o = true) ids args /\
    (forall n, (n < next st)%nat -> heap st' !! n = heap st !! n /\ occ n ids = 0) /\ forall n, occ n ids <= 1) st.
Proof.
  induction 1 as [|t args Ht Hargs IH]; intros d st c HS Hd; cbn [create_argv].
  - apply wp_ret. split_and!; [eapply Sim_ext; [|exact HS]; intros n; cbn; lia|done|done|done|constructor|done|intros n; cbn; lia].
  - destruct (createStringObject_ok junk t Ht) as (o & Eo & Hr & Ho & He). eapply wp_bind, wp_lift; [exact Eo|]. eapply wp_step; [by apply alloc_sim|]. cbn beta. intros id st1 (-> & E1 & HS1 & _ & _).
    eapply wp_step; [apply IH; [exact HS1|]|].
    + subst st1. cbn. intros n Hn. unfold bump. rewrite Hd, one_other by (lia || intros [= <-]; lia). lia.
    + cbn beta. intros ids st' (HS' & A1 & [A2 A2'] & A3 & A4 & A5). apply wp_ret. subst st1. cbn in *. destruct (A4 (next st)) as [A6 A7]; [lia|]. split_and!.
      * eapply Sim_ext; [|exact HS']. intros n. unfold bump. lia.
      * done.
      * done.
      * done.
      * constructor.
        -- exists (next st), o. rewrite A6, lookup_insert_eq. done.
        -- eapply list.Forall2_impl; [exact A3|]. intros id t' (n & o' & ? & ? & ? & ? & ?). exists n, o'. split_and!; (done || lia).
      * intros n Hn. destruct (A4 n) as [E1 E2]; [lia|]. rewrite E1, E2, lookup_insert_ne, one_other by (lia || intros [= <-]; lia). done.
      * intros n. specialize (A5 n). destruct (decide (n = next st)) as [->|Hne]; [rewrite one_same; lia|rewrite one_other by congruence; lia].
Qed.

(** A request starts with its arguments in the vector, all fresh. *)
Lemma install_args_ok junk args st c : Forall (fun t => zlen t <= MAX_TEXT) args -> Sim settled st c -> argv st = [] ->
  wp (ids ← create_argv junk args; modify (fun st => set_argv st ids)) (fun _ st' => Sim settled st' (with_args c (map (fun t => (t, Fresh)) args))) st.
Proof.
  intros Hargs HS Ea. eapply wp_step; [apply create_argv_ok; [done|exact HS|done]|]. cbn beta. intros ids st' (HS' & A1 & (A2 & A2') & A3 & A4 & A5). apply wp_modify.
  assert (forall n, occ n ids = 1 -> drefs n (dict st') = 0 /\ one (Heap (shared_del st')) n = 0) as Hnew.
  { intros n Hn. assert (~ (n < next st)%nat) as Hge by (intros Hlt; destruct (A4 n Hlt); lia). pose proof (own_next _ _ (sim_owned _ _ _ HS) n ltac:(lia)) as En. pose proof (own_cell _ _ (sim_owned _ _ _ HS) n) as Hc. rewrite En in Hc. unfold refs in Hc.
    pose proof (drefs_nonneg n (dict st)). pose proof (occ_nonneg n (argv st)). pose proof (one_range (Heap (shared_del st)) n). rewrite A2, A2'. lia. }
  eapply Sim_ext; [|apply (set_argv_sim (fun n => settled n + occ n ids) st' c ids); [exact HS'| | |]].
  - intros n. cbn. rewrite A1, Ea. cbn. unfold settled. lia.
  - apply Forall2_fmap_r. apply Forall2_same_length_lookup_2; [by eapply Forall2_length|]. intros j id t Ej Et. pose proof (Forall2_lookup_lr _ _ _ _ _ _ A3 Ej Et) as (n & o & -> & _ & Eo & Ho & He).
    split; [split; [by eapply (list.Forall_lookup_1 _ _ _ _ Hargs)|by exists o]|]. cbn. exists n, o. split_and!; [done| |done|done]. pose proof (occ_lookup n ids j Ej). specialize (A5 n). destruct (Hnew n) as [E1 E2]; [lia|]. unfold refs. cbn. lia.
  - intros n. rewrite A1, Ea. cbn. pose proof (own_few _ _ (sim_owned _ _ _ HS') n) as [H1 _]. unfold refs in H1. rewrite A1, Ea in H1. cbn in H1. specialize (A5 n). pose proof (occ_nonneg n ids). unfold settled.
    destruct (decide (occ n ids = 1)) as [E|]; [destruct (Hnew n E); lia|]. lia.
  - intros n En. pose proof (own_cell _ _ (sim_owned _ _ _ HS') n) as Hc. rewrite En in Hc. unfold settled in Hc. lia.
Qed.

(** The vector becomes [DEL key], for the replicas. *)
Lemma rewrite_del_ok st c j t s id : Sim settled st c -> aargs c !! j = Some (t, s) -> s = Fresh \/ s = Own -> argv st !! j = Some id ->
  wp (rewriteClientCommandVector [Heap (shared_del st); id])
     (fun _ st' => Sim settled st' (with_args c [(str "DEL", Used); (t, Used)])) st.
Proof.
  intros HS Ej Hs Ea. destruct (arg_lookup _ st c j t s HS Ej) as (id0 & Ea0 & Hid). assert (id0 = id) as -> by congruence. clear Ea0. assert (forall n, id = Heap n -> refs st n = 1) as H1.
  { destruct Hid as [_ H]. destruct Hs as [-> | ->]; cbn in H; [|done]. destruct H as (n & o & -> & Hr & _). by intros m [= <-]. }
  set (del := shared_del st) in *. pose proof (del_refs st) as Hdel. assert (id <> Heap del) as Hne.
  { intros ->. specialize (H1 del eq_refl). apply occ_lookup in Ea. unfold refs, del in *. rewrite one_same in H1. pose proof (drefs_nonneg (shared_del st) (dict st)). lia. }
  unfold rewriteClientCommandVector. cbn [incr_all].
  apply (wp_step _ _ (fun _ st' => Sim (bump id 1 (bump (Heap del) 1 settled)) st' c /\ exists h, st' = set_heap st h (next st))).
  { eapply wp_step; [apply incr_sim; [exact HS|exact (del_live _ _ (sim_owned _ _ _ HS))|intros n _; unfold settled; lia]|]. cbn beta. intros _ st1 (HS1 & h & -> & _).
    eapply wp_step; [apply incr_sim; [exact HS1| |]|].
    - exact (argv_live (set_heap st h (next st)) _ j id (sim_owned _ _ _ HS1) Ea).
    - intros n ->. unfold bump, settled. rewrite one_other by congruence. lia.
    - cbn beta. intros _ st2 (HS2 & h2 & -> & Hk2). apply wp_ret. split; [done|]. by exists h2. }
  cbn beta. intros _ st1 (HS1 & h & ->). set (st1 := set_heap st h (next st)) in *. apply wp_bind, wp_gets, free_commute.
  destruct (arg_lookup _ st1 c j t s HS1 Ej) as (id' & Ea' & Hid'). assert (id' = id) as -> by (cbn in Ea'; congruence).
  assert (forall n, occ n [Heap del; id] = one (Heap del) n + one id n) as Hocc by (intros n; cbn; lia).
  pose proof (set_argv_sim _ st1 c [Heap del; id] [(str "DEL", Used); (t, Used)] HS1) as HA. eapply wp_mono; [apply free_sim; [apply HA|]|].
  - constructor; [split; [exact (sim_del _ _ _ HS1)|done]|]. constructor; [split; [apply Hid'|done]|constructor].
  - intros n. rewrite Hocc. pose proof (own_few _ _ (sim_owned _ _ _ HS) n) as [Hf _]. pose proof (own_del _ _ (sim_owned _ _ _ HS)) as Hd. unfold refs in *. cbn -[one]. change (shared_del st) with del in Hf, H1, Hd |- *. unfold bump, settled.
    pose proof (drefs_nonneg n (dict st)). pose proof (occ_nonneg n (argv st)). pose proof (one_range (Heap del) n). pose proof (one_range id n).
    destruct (decide (n = del)) as [->|Hn]; [rewrite one_same in *; rewrite (one_other id) in * by congruence; lia|]. rewrite (one_other (Heap del)) in * by congruence.
    destruct (decide (id = Heap n)) as [->|Hn']; [|rewrite (one_other id) by done; lia]. specialize (H1 n eq_refl). rewrite one_same, (one_other (Heap del)) in * by congruence. apply occ_lookup in Ea. lia.
  - intros n En. rewrite Hocc. pose proof (own_cell _ _ (sim_owned _ _ _ HS1) n) as Hc. rewrite En in Hc. unfold bump, settled in Hc. pose proof (one_range (Heap del) n). pose proof (one_range id n). lia.
  - intros n. cbn beta. rewrite Hocc. unfold bump, settled. lia.
  - cbn beta. intros _ st2 (HS2 & _). eapply Sim_ext; [|exact HS2]. intros n. cbn beta. rewrite Hocc. unfold bump, settled. cbn -[one]. lia.
Qed.

(** *** Numbers and types *)

Lemma getLongLong_ok d st c o t msg : Sim d st c -> obj_text o t -> wp (getLongLongFromObjectOrReply msg (Some o)) (fun r st' =>
  r = string2ll t /\ match string2ll t with Some _ => st' = st | None => Sim d st' (says c (err_reply (default err_not_integer msg))) end) st.
Proof.
  intros HS Ho. unfold getLongLongFromObjectOrReply. eapply wp_bind, wp_lift; [by apply getLongLongFromObject_ok|]. destruct (string2ll t); [by apply wp_ret|].
  eapply wp_step; [eapply replies_sim; [apply replies_error|exact HS]|]. cbn beta. intros _ st' (_ & HS' & _). by apply wp_ret.
Qed.

Lemma long_arg_ok d st c j t s : Sim d st c -> aargs c !! j = Some (t, s) -> wp (long_arg j) (fun r st' =>
  r = string2ll t /\ match string2ll t with Some _ => st' = st | None => Sim d st' (says c (err_reply err_not_integer)) end) st.
Proof.
  intros HS Ej. destruct (arg_lookup d st c j t s HS Ej) as (id & Ea & Ht & _). unfold long_arg. eapply wp_bind, arg_wp; [exact Ea|]. eapply wp_bind, fetch_text; [exact Ht|]. intros o Ho. by apply getLongLong_ok.
Qed.

Lemma checkType_ok d st c id x : Sim d st c -> val_of (heap st) id x -> wp (checkType id) (fun b st' =>
  match x with VStr _ => b = false /\ st' = st | VOther => b = true /\ Sim d st' (says c reply_wrongtype) end) st.
Proof.
  intros HS Hx. unfold checkType. destruct x as [t|].
  - eapply wp_bind, fetch_text; [exact Hx|]. intros o Ho. rewrite bool_decide_eq_true_2 by (by eapply text_type). by apply wp_ret.
  - destruct Hx as (n & o & -> & E & Ht). eapply wp_bind, fetch_heap; [exact E|]. rewrite bool_decide_eq_false_2 by done. eapply wp_step; [by apply addReplyString_sim|]. cbn beta. intros _ st' HS'. by apply wp_ret.
Qed.

(** *** A value that may be changed in place *)

Definition writable (st : server) (id : oid) (t : list Z) : Prop :=
  exists n o sd, id = Heap n /\ refs st n = 1 /\ heap st !! n = Some o /\ type o = OBJ_STRING /\ encoding o = OBJ_ENCODING_RAW /\ ptr o = PSds sd /\ repr sd t.

(** The object to copy: the value itself with one reference more, or its decoded text. *)
Lemma decoded_ok junk d st c id t o : Sim d st c -> live st id -> obj_text o t -> fetch id st = Ok (st, o) -> (forall n, id = Heap n -> d n < 2 ^ 30) -> (forall n, id = Heap n -> 0 < refs st n) ->
  wp (x ← lift (getDecodedObject junk o); match x with None => _ ← incrRefCount id; mret id | Some x => alloc x end) (fun did st' =>
    Sim (bump did 1 d) st' c /\ dict st' = dict st /\ argv st' = argv st /\ shared_del st' = shared_del st /\ live st' did /\ exists o' sd, fetch did st' = Ok (st', o') /\ ptr o' = PSds sd /\ repr sd t) st.
Proof.
  intros HS Hlv Ho Ef Hd Hrf. destruct (getDecodedObject_ok junk o t Ho) as (x & Ed & Hx). eapply wp_bind, wp_lift; [exact Ed|]. destruct x as [o'|].
  - destruct Hx as (Ho' & He & Hr). eapply wp_mono; [by apply alloc_sim|]. cbn beta. intros did st' (-> & -> & HS' & _ & _). split_and!; [done..| |].
    + cbn. rewrite lookup_insert_eq. by eexists.
    + destruct Ho' as [sd _ _ Hp Hrep|v _ Hi _ _ _]; [|by rewrite sdsEncoded_int in He]. exists o', sd. split; [|done]. cbn. by rewrite lookup_insert_eq.
  - assert (exists n, id = Heap n /\ heap st !! n = Some o) as (n & -> & En). { destruct id as [v|n]; cbn in Ef; [injection Ef as <-; by rewrite sdsEncoded_int in Hx|]. destruct (heap st !! n) eqn:En; [|done]. injection Ef as ->. by exists n. }
    eapply wp_step; [apply incr_sim; [exact HS|by eexists|exact Hd]|]. cbn beta. intros _ st' (HS' & h & -> & Hk). apply wp_ret.
    assert (live (set_heap st h (next st)) (Heap n)) as Hl. { apply (owned_live _ _ n (sim_owned _ _ _ HS')). left. exact (Hrf n eq_refl). } split_and!; [done..|]. destruct Hl as (o' & Eo'). cbn in Eo'. destruct (Hk n o o' En Eo') as (_ & _ & Ep).
    destruct Ho as [sd _ _ Hp Hrep|v _ Hi _ _ _]; [|by rewrite sdsEncoded_int in Hx]. exists o', sd. split_and!; [cbn; by rewrite Eo'|congruence|done].
Qed.

Lemma dbUnshare_ok junk st c k id t e : Sim settled st c -> dict st !! k = Some id -> kv c !! k = Some (VStr t, e) ->
  wp (dbUnshareStringValue junk k id) (fun id' st' => Sim settled st' c /\ dict st' !! k = Some id' /\ argv st' = argv st /\ writable st' id' t) st.
Proof.
  intros HS Ek Ev. destruct (key_present _ st c k _ e HS Ev) as (_ & _ & id' & Ek' & Hx & Hl). assert (id' = id) as -> by congruence. clear Ek'. destruct (fetch_text_eq id t st Hx) as (o & Ef & Ho). assert (zlen t <= MAX_TEXT) as Hz by apply Hx.
  unfold dbUnshareStringValue. eapply wp_bind. unfold wp at 1. rewrite Ef. eapply wp_bind, wp_lift; [by rewrite (bool_decide_eq_true_2 (type o = OBJ_STRING)) by (by eapply text_type)|].
  destruct (_ || _) eqn:Ec.
  - apply wp_assoc. eapply wp_step; [eapply (decoded_ok junk settled); [exact HS|exact Hl|exact Ho|exact Ef|intros; unfold settled; lia|intros n ->; apply refs_dict in Ek; lia]|]. cbn beta. intros did st1 (HS1 & D1 & A1 & S1 & Hl1 & o1 & sd & Ef1 & Ep1 & Hrep).
    eapply wp_bind. unfold wp at 1. rewrite Ef1. eapply wp_bind, wp_lift; [unfold as_sds; by rewrite Ep1|]. destruct (repr_buf _ _ Hrep) as (free & Eb & _). rewrite Eb, (repr_len _ _ Hrep).
    destruct (createRawStringObject_ok junk t (0 :: free)) as (sd' & Eraw & Hrep'); [unfold MAX_TEXT in Hz; lia|]. eapply wp_bind, wp_lift; [exact Eraw|].
    eapply wp_step; [by apply alloc_sim|]. cbn beta. intros new st2 (-> & E2 & HS2 & Hd0 & Hr0). set (new := next st1) in *.
    assert (live st2 did) as Hl2. { subst st2. destruct did as [v|n]; [done|]. destruct Hl1 as (o2 & E). cbn. destruct (decide (n = new)) as [->|]; [rewrite lookup_insert_eq; by eexists|rewrite lookup_insert_ne by done; by eexists]. }
    eapply wp_step; [apply decr_sim; [exact HS2|exact Hl2|]|].
    { intros n ->. left. unfold bump, settled. rewrite one_same. pose proof (one_range (Heap new) n). lia. }
    cbn beta. intros _ st3 (HS3 & h & E3 & Hk3). assert (Sim (bump (Heap new) 1 settled) st3 c) as HS3' by (eapply Sim_ext; [|exact HS3]; intros n; unfold bump, settled; lia). clear HS3.
    destruct (owned_live st3 _ new (sim_owned _ _ _ HS3')) as (on & Eon). { right. unfold bump, settled. rewrite one_same. lia. }
    assert (same_content (createObject OBJ_STRING (PSds sd')) on) as Hon by (apply (Hk3 new); [subst st2; apply lookup_insert_eq|by rewrite E3 in Eon]).
    assert (dict st3 = dict st /\ argv st3 = argv st /\ shared_del st3 = shared_del st) as (D3 & A3 & S3) by (subst st3 st2; split_and!; cbn; congruence).
    assert (refs st3 new = 0) as Hr3 by (unfold refs in *; subst st3; cbn; exact Hr0).
    assert (obj_text on t) as Hton. { destruct Hon as (T1 & T2 & T3). apply (text_sds _ _ sd'); [done|unfold sdsEncodedObject; by rewrite <- T2|done|done]. }
    eapply wp_step; [apply (dbOverwrite_ok _ st3 c k (Heap new) (VStr t) id (VStr t) e HS3')|].
    + by rewrite D3.
    + done.
    + split; [done|]. by exists on.
    + intros j n a [= <-] Ej _. apply refs_argv in Ej. lia.
    + intros n [= <-]. pose proof (drefs_nonneg new (dict st3)). pose proof (occ_nonneg new (argv st3)). pose proof (one_range (Heap (shared_del st3)) new). split_and!; [unfold refs in Hr3; lia|lia|]. intros E. pose proof (del_refs st3). rewrite <- E in *. lia.
    + intros n ->. unfold bump, settled. rewrite <- D3 in Ek. apply refs_dict in Ek. split; [pose proof (one_range (Heap new) n); lia|]. intros [= <-]. lia.
    + cbn beta. intros _ st4 (HS4 & h4 & -> & Hk4). apply wp_ret. split_and!.
      * eapply Sim_ext; [|rewrite (insert_id (kv c)), with_kv_id in HS4 by done; exact HS4]. intros n. unfold bump, settled. lia.
      * cbn. apply lookup_insert_eq.
      * done.
      * assert (refs (set_heap (set_dict st3 (<[k := Heap new]> (dict st3))) h4 (next st3)) new = 1) as Hr4.
        { unfold refs in *. cbn -[one]. rewrite D3 in *. rewrite (drefs_replace new _ _ id) by done. rewrite one_same. pose proof (drefs_nonneg new (dict st)). pose proof (occ_nonneg new (argv st3)). pose proof (one_range (Heap (shared_del st3)) new).
          destruct (decide (id = Heap new)) as [->|Hne]; [apply drefs_lookup in Ek; lia|rewrite (one_other id) by done; lia]. }
        destruct (owned_live _ _ new (sim_owned _ _ _ HS4)) as (o4 & E4); [left; lia|]. destruct (Hk4 new on o4 Eon E4) as (T1 & T2 & T3). destruct Hon as (U1 & U2 & U3).
        exists new, o4, sd'. split_and!; [done|done|done|cbn in *; congruence|cbn in *; congruence|cbn in *; congruence|done].
  - apply wp_ret. apply orb_false_iff in Ec as [E1 E2]. apply negb_false_iff in E1, E2. apply bool_decide_eq_true in E2. split_and!; [done..|].
    destruct id as [v|n]; cbn in Ef; [injection Ef as <-; cbn in E1; unfold OBJ_SHARED_REFCOUNT in E1; lia|]. destruct (heap st !! n) eqn:En; [|done]. injection Ef as ->.
    pose proof (own_cell _ _ (sim_owned _ _ _ HS) n) as Hc. rewrite En in Hc. unfold settled in Hc. destruct Ho as [sd Ht He Hp Hrep|v _ Hi _ _ _]; [|congruence]. exists n, o, sd. split_and!; [done|lia|done..].
Qed.

(** ** Time *)

End Sim.

(** The store as seen at a time: without the expired keys. *)
Definition purge (now : Z) (m : store_map) : store_map := filter (fun p => expiredb now p.2.2 = false) m.

Lemma purge_lookup now m k : purge now m !! k = match m !! k with Some (x, e) => if expiredb now e then None else Some (x, e) | None => None end.
Proof.
  unfold purge. rewrite map_lookup_filter. destruct (m !! k) as [[x e]|]; [|done]. cbn. destruct (expiredb now e) eqn:He; cbn.
  - by rewrite option_guard_False by congruence.
  - by rewrite option_guard_True.
Qed.

Lemma expiredb_later now now' e : now <= now' -> expiredb now e = true -> expiredb now' e = true.
Proof. intros H. destruct e as [w|]; [|done]. unfold expiredb. lia. Qed.

(** As time passes keys disappear from the abstract store; the server does nothing. *)
Lemma time_passes now now' d st c : now <= now' -> Sim now d st c -> Sim now' d st (with_kv c (purge now' (kv c))).
Proof.
  intros Hn [H1 H2 H3 H4 H5 H6 H7]. constructor; [done| |done..]. intros k. cbn. rewrite purge_lookup. specialize (H2 k). unfold key_ok in *.
  destruct (kv c !! k) as [[x e]|].
  - destruct H2 as (E1 & E2 & id & E3 & E4). destruct (expiredb now' e) eqn:He; [right; rewrite E1; split; [by exists id|done]|eauto 10].
  - destruct H2 as [?|[? He]]; [by left|right]. split; [done|]. by eapply expiredb_later.
Qed.
End DbOps.
