(* ===== verification/StringCmdOps.v ===== *)
(** * The commands refine a key-value store with expiring keys

    Every command is specified as a function from the abstract store to the new store, the
    bytes of the reply and the change of the counter of modifications, in terms of texts
    and numbers only: no encodings, no reference counts, no lazily expired keys.
    One lemma per command shows that the handler computes its function and keeps the
    invariant of [DbOps]. *)
From stdpp Require Import gmap.
From S2P Require Import Prelude StateM Util Sds SdsText Object Db StringCmd DbOps.

Module StringCmdOps.
Import Sds SdsText Object Db StringCmd DbOps.

(** ** Specification *)

(** The new store, the reply, and by how much the dataset changed. *)
Definition outcome : Type := store_map * list Z * Z.
Definition unchanged (m : store_map) (r : list Z) : outcome := (m, r, 0).

Definition not_integer : list Z := err_reply err_not_integer.
Definition too_long : list Z := err_reply (str "string exceeds maximum allowed size (512MB)").

Section Spec.
Context (now : Z).

Definition spec_get (m : store_map) (k : list Z) : list Z :=
  match m !! k with None => reply_nullbulk | Some (VStr t, _) => bulk t | Some (VOther, _) => reply_wrongtype end.

(** Whether the option [o] of SET says [c0 c1], in any case. *)
Definition option_is (o : list Z) (s : list Z) : bool := bool_decide (map tolower (cstring o) = s).

(** The options of SET: condition and deadline. *)
Fixpoint spec_options (opts : list (list Z)) (nx xx : bool) (ex : option (list Z * bool)) : option (bool * bool * option (list Z * bool)) :=
  let in_s := match ex with Some (_, true) => true | _ => false end in
  let in_ms := match ex with Some (_, false) => true | _ => false end in
  match opts with
  | [] => Some (nx, xx, ex)
  | o :: rest =>
    if option_is o (str "nx") && negb xx then spec_options rest true xx ex else
    if option_is o (str "xx") && negb nx then spec_options rest nx true ex else
    match rest with
    | t :: rest =>
      if option_is o (str "ex") && negb in_ms then spec_options rest nx xx (Some (t, true)) else
      if option_is o (str "px") && negb in_s then spec_options rest nx xx (Some (t, false)) else None
    | [] => None
    end
  end.

(** A write that may be conditional and may set a deadline. *)
Definition spec_put (nx xx : bool) (ok abort : list Z) (m : store_map) (k v : list Z) (ms : option Z) : outcome :=
  if nx && bool_decide (is_Some (m !! k)) || xx && negb (bool_decide (is_Some (m !! k))) then unchanged m abort
  else (match ms with None => <[k := (VStr v, None)]> m | Some ms => put now k (VStr v) (Some (i64 (now + ms))) m end, ok, 1).
Definition spec_write (name : list Z) (nx xx : bool) (ex : option (list Z * bool)) (ok abort : list Z) (m : store_map) (k v : list Z) : outcome :=
  let write := spec_put nx xx ok abort m k v in
  match ex with
  | None => write None
  | Some (w, seconds) =>
    match string2ll w with
    | None => unchanged m not_integer
    | Some w => if w <=? 0 then unchanged m (err_reply (one_line (str "invalid expire time in " ++ name))) else write (Some (if seconds then i64 (w * 1000) else w))
    end
  end.

Definition spec_set (args : list (list Z)) (m : store_map) : outcome :=
  match args with
  | _ :: k :: v :: opts =>
    match spec_options opts false false None with
    | None => unchanged m reply_syntaxerr
    | Some (nx, xx, ex) => spec_write (str "set") nx xx ex reply_ok reply_nullbulk m k v
    end
  | _ => unchanged m []
  end.

Definition spec_getset (m : store_map) (k v : list Z) : outcome :=
  match m !! k with Some (VOther, _) => unchanged m reply_wrongtype | _ => (<[k := (VStr v, None)]> m, spec_get m k, 1) end.

(** The text with [v] written at [off], padded with zero bytes. *)
Definition overwrite (t : list Z) (off : Z) (v : list Z) : list Z :=
  ztake off (t ++ zrep (off - zlen t) 0) ++ v ++ zdrop (off + zlen v) t.

Definition spec_setrange (m : store_map) (k off v : list Z) : outcome :=
  match string2ll off with
  | None => unchanged m not_integer
  | Some off =>
    if off <? 0 then unchanged m (err_reply (str "offset is out of range")) else
    match m !! k with
    | Some (VOther, _) => unchanged m reply_wrongtype
    | o =>
      let '(t, e) := match o with Some (VStr t, e) => (t, e) | _ => ([], None) end in
      if zlen v =? 0 then unchanged m (int_reply (zlen t)) else
      if MAX_TEXT <? off + zlen v then unchanged m too_long else
      (<[k := (VStr (overwrite t off v), e)]> m, int_reply (zlen (overwrite t off v)), 1)
    end
  end.

(** The bytes from [start] to [stop], inclusive; negative positions count from the end. *)
Definition slice (t : list Z) (start stop : Z) : list Z :=
  let start := Z.max 0 (if start <? 0 then zlen t + start else start) in
  let stop := Z.min (zlen t - 1) (Z.max 0 (if stop <? 0 then zlen t + stop else stop)) in
  ztake (stop - start + 1) (zdrop start t).

Definition spec_getrange (m : store_map) (k start stop : list Z) : list Z :=
  match string2ll start, string2ll stop with
  | Some a, Some b =>
    match m !! k with
    | None => bulk []
    | Some (VOther, _) => reply_wrongtype
    | Some (VStr t, _) => bulk (if (a <? 0) && (b <? 0) && (b <? a) then [] else slice t a b)
    end
  | _, _ => not_integer
  end.

Definition spec_mget (m : store_map) (ks : list (list Z)) : list Z :=
  chr "*" :: dec (zlen ks) ++ crlf ++ concat (map (fun k => match m !! k with Some (VStr t, _) => bulk t | _ => reply_nullbulk end) ks).

Fixpoint spec_mset_pairs (m : store_map) (kvs : list (list Z)) : store_map :=
  match kvs with k :: v :: kvs => spec_mset_pairs (<[k := (VStr v, None)]> m) kvs | _ => m end.
Fixpoint spec_busy (m : store_map) (kvs : list (list Z)) : bool :=
  match kvs with k :: _ :: kvs => bool_decide (is_Some (m !! k)) || spec_busy m kvs | _ => false end.
Definition spec_mset (nx : bool) (m : store_map) (kvs : list (list Z)) : outcome :=
  if negb (Nat.even (length kvs)) then unchanged m (err_reply (str "wrong number of arguments for MSET")) else
  if nx && spec_busy m kvs then unchanged m reply_czero else
  (spec_mset_pairs m kvs, if nx then reply_cone else reply_ok, Z.of_nat (length kvs / 2)).

Definition spec_incr (m : store_map) (k : list Z) (incr : Z) : outcome :=
  match m !! k with
  | Some (VOther, _) => unchanged m reply_wrongtype
  | o =>
    let '(t, e) := match o with Some (VStr t, e) => (t, e) | _ => (str "0", None) end in
    match string2ll t with
    | None => unchanged m not_integer
    | Some old =>
      if bool_decide (in_s 64 (old + incr)) then (<[k := (VStr (dec (old + incr)), e)]> m, int_reply (old + incr), 1)
      else unchanged m (err_reply (str "increment or decrement would overflow"))
    end
  end.
Definition spec_incrby (m : store_map) (k by_ : list Z) (sign : Z) : outcome :=
  match string2ll by_ with None => unchanged m not_integer | Some v => spec_incr m k (i64 (sign * v)) end.

Definition spec_append (m : store_map) (k v : list Z) : outcome :=
  match m !! k with
  | None => (<[k := (VStr v, None)]> m, int_reply (zlen v), 1)
  | Some (VOther, _) => unchanged m reply_wrongtype
  | Some (VStr t, e) => if MAX_TEXT <? zlen t + zlen v then unchanged m too_long else (<[k := (VStr (t ++ v), e)]> m, int_reply (zlen t + zlen v), 1)
  end.

Definition spec_strlen (m : store_map) (k : list Z) : list Z :=
  match m !! k with None => int_reply 0 | Some (VStr t, _) => int_reply (zlen t) | Some (VOther, _) => reply_wrongtype end.

Fixpoint spec_del (m : store_map) (ks : list (list Z)) : store_map * Z :=
  match ks with
  | [] => (m, 0)
  | k :: ks => let '(m', n) := spec_del (base.delete k m) ks in (m', n + if bool_decide (is_Some (m !! k)) then 1 else 0)
  end.
Definition spec_count (m : store_map) (ks : list (list Z)) : Z := zlen (filter (fun k => is_Some (m !! k)) ks).

Definition spec_expire (m : store_map) (k w : list Z) (base : Z) (seconds : bool) : outcome :=
  match string2ll w with
  | None => unchanged m not_integer
  | Some w =>
    let when := i64 ((if seconds then i64 (w * 1000) else w) + base) in
    match m !! k with
    | None => unchanged m reply_czero
    | Some (x, _) => (if when <=? now then base.delete k m else <[k := (x, Some when)]> m, reply_cone, 1)
    end
  end.

Definition spec_ttl (m : store_map) (k : list Z) (ms : bool) : list Z :=
  match m !! k with
  | None => int_reply (-2)
  | Some (_, None) => int_reply (-1)
  | Some (_, Some w) =>
    if w =? -1 then int_reply (-1) else
    let t := Z.max 0 (i64 (w - now)) in int_reply (if ms then t else Z.quot (i64 (t + 500)) 1000)
  end.

Definition spec_persist (m : store_map) (k : list Z) : outcome :=
  match m !! k with Some (x, Some _) => (<[k := (x, None)]> m, reply_cone, 1) | _ => unchanged m reply_czero end.

Definition spec_rename (nx : bool) (m : store_map) (k k2 : list Z) : outcome :=
  match m !! k with
  | None => unchanged m reply_nokeyerr
  | Some (x, e) =>
    if bool_decide (k = k2) then unchanged m (if nx then reply_czero else reply_ok) else
    if nx && bool_decide (is_Some (m !! k2)) then unchanged m reply_czero
    else (base.delete k (<[k2 := (x, if bool_decide (e = Some (-1)) then None else e)]> m), if nx then reply_cone else reply_ok, 1)
  end.
End Spec.

(** ** Refinement of one command *)

Definition apply_outcome (c : config) (o : outcome) : config := let '(m, r, n) := o in mk_config m (aargs c) (aout c ++ r) (aclose c) (adirty c + n).
Definition fresh (args : list (list Z)) : list (list Z * argst) := map (fun t => (t, Fresh)) args.

(** The handler [h], called with the arguments [args], returns and does what [sp] says. *)
Definition refines (now : Z) (h : M unit) (args : list (list Z)) (sp : store_map -> outcome) : Prop :=
  forall st c, Sim now settled st c -> aargs c = fresh args ->
  wp h (fun _ st' => exists a, Sim now settled st' (with_args (apply_outcome c (sp (kv c))) a)) st.

Lemma finish now st' c c' m r n : Sim now settled st' c' -> kv c' = m -> aout c' = aout c ++ r -> aclose c' = aclose c -> adirty c' = adirty c + n ->
  exists a, Sim now settled st' (with_args (apply_outcome c (m, r, n)) a).
Proof. intros HS <- E1 E2 E3. exists (aargs c'). unfold apply_outcome, with_args. cbn. rewrite <- E1, <- E2, <- E3. by destruct c'. Qed.

Lemma finish_unchanged now st' c r : Sim now settled st' (says c r) -> exists a, Sim now settled st' (with_args (apply_outcome c (unchanged (kv c) r)) a).
Proof. intros HS. eapply finish; [exact HS|done|done|done|cbn; lia]. Qed.

(** Ends a handler with a reply. *)
Lemma end_replies {A} now (h : M A) a st c x (Q : A -> server -> Prop) : replies h a x st -> Sim now settled st c -> (forall st', Sim now settled st' (says c x) -> Q a st') -> wp h Q st.
Proof. intros Hr HS HQ. eapply wp_mono; [by eapply replies_sim|]. cbn beta. intros b st' (-> & HS' & _). by apply HQ. Qed.

Ltac step L := eapply wp_step; [eapply L|cbn beta].
Ltac arg_is Ha := by rewrite Ha.

Abbreviation spec_fun := (list (list Z) -> store_map -> outcome).

Section Commands.
Context (junk : Z -> Z) (private : bool) (now : Z).

(** The lookup of a key, as the handlers use it. *)
Lemma read_ok st c k : Sim now settled st c ->
  wp (lookupKeyRead now k) (fun r st' => Sim now settled st' c /\ argv st' = argv st /\
    match kv c !! k with
    | None => r = None /\ dict st' !! k = None /\ expires st' !! k = None
    | Some (x, e) => exists id, r = Some id /\ dict st' !! k = Some id /\ val_of (heap st') id x /\ expires st' !! k = e /\ live st' id
    end) st.
Proof.
  intros HS. eapply wp_mono; [apply lookupKeyRead_ok; [apply mild_settled|exact HS]|]. cbn beta. intros r st' (HS' & (Ea & _ & _) & Er & Hr). split_and!; [done..|].
  destruct (kv c !! k) as [[x e]|] eqn:Ev; [|destruct Hr as [-> ?]; done]. destruct (key_present now _ st' c k x e HS' Ev) as (E1 & _ & id & E2 & E3 & E4). exists id. split_and!; (done || congruence).
Qed.

Lemma write_ok st c k : Sim now settled st c ->
  wp (lookupKeyWrite now k) (fun r st' => Sim now settled st' c /\ argv st' = argv st /\
    match kv c !! k with
    | None => r = None /\ dict st' !! k = None /\ expires st' !! k = None
    | Some (x, e) => exists id, r = Some id /\ dict st' !! k = Some id /\ val_of (heap st') id x /\ expires st' !! k = e /\ live st' id
    end) st.
Proof.
  intros HS. eapply wp_mono; [apply lookupKeyWrite_ok; [apply mild_settled|exact HS]|]. cbn beta. intros r st' (HS' & (Ea & _ & _) & Er & Hr). split_and!; [done..|].
  destruct (kv c !! k) as [[x e]|] eqn:Ev; [|destruct Hr as [-> ?]; done]. destruct (key_present now _ st' c k x e HS' Ev) as (E1 & _ & id & E2 & E3 & E4). exists id. split_and!; (done || congruence).
Qed.

Lemma reply_text id t st c r : Sim now settled st c -> text_of (heap st) id t -> r = bulk t -> wp (addReplyBulk junk id) (fun _ st' => Sim now settled st' (says c r)) st.
Proof. intros HS Ht ->. eapply end_replies; [by apply replies_bulk|exact HS|done]. Qed.

Lemma get_generic_ok st c k : Sim now settled st c -> aargs c !! 1%nat = Some (k, Fresh) ->
  wp (getGenericCommand junk now) (fun b st' => Sim now settled st' (says c (spec_get (kv c) k)) /\ b = match kv c !! k with Some (VOther, _) => false | _ => true end) st.
Proof.
  intros HS E1. unfold getGenericCommand. step arg_text_ok; [exact HS|exact E1|]. intros ? ? [-> ->]. step read_ok; [exact HS|]. intros r st1 (HS1 & _ & Hr). unfold spec_get. destruct (kv c !! k) as [[[t|] e]|] eqn:Ev.
  - destruct Hr as (id & -> & _ & Hx & _). eapply wp_bind, fetch_text; [exact Hx|]. intros o Ho. rewrite (bool_decide_eq_true_2 (type o = OBJ_STRING)) by (by eapply text_type). cbn [negb].
    step reply_text; [exact HS1|exact Hx|done|]. intros _ st2 HS2. by apply wp_ret.
  - destruct Hr as (id & -> & _ & (n & o & -> & Eo & Ht) & _). eapply wp_bind, fetch_heap; [exact Eo|]. rewrite (bool_decide_eq_false_2 (type o = OBJ_STRING)) by done. cbn [negb].
    step addReplyString_sim; [exact HS1|]. intros _ st2 HS2. by apply wp_ret.
  - destruct Hr as (-> & _). step addReplyString_sim; [exact HS1|]. intros _ st2 HS2. by apply wp_ret.
Qed.

Lemma get_refines n k : refines now (getCommand junk now) [n; k] (fun m => unchanged m (spec_get m k)).
Proof.
  intros st c HS Ha. unfold getCommand. step get_generic_ok; [exact HS|by rewrite Ha|]. intros b st' [HS' _]. apply wp_ret. by apply finish_unchanged.
Qed.

(** A reply that needs no further change of the state. *)
Lemma says_unchanged {A} (h : M A) a st c x (k : A -> M unit) : replies h a x st -> Sim now settled st c -> (forall st', k a st' = Ok (st', tt)) ->
  wp (h ≫= k) (fun _ st' => exists l, Sim now settled st' (with_args (apply_outcome c (unchanged (kv c) x)) l)) st.
Proof. intros Hr HS Hk. eapply wp_step; [by eapply replies_sim|]. cbn beta. intros b st' (-> & HS' & _). unfold wp. rewrite Hk. by apply finish_unchanged. Qed.

Lemma reply_unchanged st c x h : replies h tt x st -> Sim now settled st c ->
  wp h (fun _ st' => exists l, Sim now settled st' (with_args (apply_outcome c (unchanged (kv c) x)) l)) st.
Proof. intros Hr HS. eapply end_replies; [done..|]. intros st' HS'. by apply finish_unchanged. Qed.

Lemma text_bound h id t : text_of h id t -> in_s 64 (zlen t).
Proof. intros [Hz _]. pose proof (zlen_nonneg t). unfold in_s, MAX_TEXT in *. lia. Qed.

Lemma strlen_refines n k : refines now (strlenCommand junk now) [n; k] (fun m => unchanged m (spec_strlen m k)).
Proof.
  intros st c HS Ha. unfold strlenCommand. step arg_text_ok; [exact HS|by rewrite Ha|]. intros ? ? [-> ->]. step read_ok; [exact HS|]. intros r st1 (HS1 & _ & Hr). unfold spec_strlen. destruct (kv c !! k) as [[[t|] e]|] eqn:Ev.
  - destruct Hr as (id & -> & _ & Hx & _). step checkType_ok; [exact HS1|exact Hx|]. intros b st2 [-> ->]. eapply wp_bind, fetch_text; [exact Hx|]. intros o Ho. eapply wp_bind, wp_lift; [by apply stringObjectLen_ok|].
    apply reply_unchanged; [apply replies_int; by eapply text_bound|done].
  - destruct Hr as (id & -> & _ & Hx & _). step checkType_ok; [exact HS1|exact Hx|]. intros b st2 [-> HS2]. apply wp_ret. by apply finish_unchanged.
  - destruct Hr as (-> & _). by apply reply_unchanged.
Qed.

Lemma ttl_refines n k ms : refines now (ttlGenericCommand junk now ms) [n; k] (fun m => unchanged m (spec_ttl now m k ms)).
Proof.
  intros st c HS Ha. unfold ttlGenericCommand. step arg_text_ok; [exact HS|by rewrite Ha|]. intros ? ? [-> ->]. step read_ok; [exact HS|]. intros r st1 (HS1 & _ & Hr). unfold spec_ttl. destruct (kv c !! k) as [[x e]|] eqn:Ev.
  2:{ destruct Hr as (-> & _). apply reply_unchanged; [by apply replies_int|done]. }
  destruct Hr as (id & -> & _ & _ & Ee & _). step getExpire_ok; [exact HS1|]. intros w st2 [-> ->]. rewrite Ee. destruct e as [w|]; cbn [default from_option]; unfold Datatypes.id.
  2:{ apply reply_unchanged; [by apply replies_int|done]. }
  destruct (Z.eqb_spec w (-1)) as [->|Hw]; cbn [negb]; [apply reply_unchanged; [by apply replies_int|done]|].
  replace (if i64 (w - now) <? 0 then 0 else i64 (w - now)) with (Z.max 0 (i64 (w - now))) by (case_match; lia). rewrite (proj2 (Z.eqb_neq (Z.max 0 (i64 (w - now))) (-1))) by lia.
  pose proof (swrap_range 64 (w - now) ltac:(lia)) as R1. apply reply_unchanged; [apply replies_int|done]. destruct ms; [unfold in_s in *; lia|].
  pose proof (swrap_range 64 (Z.max 0 (i64 (w - now)) + 500) ltac:(lia)) as R2. unfold in_s in *. set (z := i64 (_ + 500)) in *.
  Z.to_euclidean_division_equations. lia.
Qed.

Lemma persist_refines n k : refines now (persistCommand now) [n; k] (fun m => spec_persist m k).
Proof.
  intros st c HS Ha. unfold persistCommand. step arg_text_ok; [exact HS|by rewrite Ha|]. intros ? ? [-> ->]. step write_ok; [exact HS|]. intros r st1 (HS1 & _ & Hr). unfold spec_persist. destruct (kv c !! k) as [[x e]|] eqn:Ev.
  2:{ destruct Hr as (-> & _). by apply reply_unchanged. }
  destruct Hr as (id & -> & _). step removeExpire_ok; [exact HS1|exact Ev|]. intros b st2 (HS2 & -> & _). destruct e as [w|].
  - step addReplyString_sim; [exact HS2|]. intros _ st3 HS3. eapply wp_mono; [by apply add_dirty_sim|]. cbn beta. intros _ st4 HS4. by eapply finish.
  - rewrite insert_id, with_kv_id in HS2 by done. by apply reply_unchanged.
Qed.

(** *** Loops over the keys *)

Lemma fresh_lookup c args j t : aargs c = fresh args -> args !! j = Some t -> aargs c !! j = Some (t, Fresh).
Proof. intros -> E. unfold fresh. by rewrite list_lookup_fmap, E. Qed.

Lemma argc_fresh d st c args : Sim now d st c -> aargs c = fresh args -> length (argv st) = length args.
Proof. intros HS Ha. rewrite (list.Forall2_length _ _ _ (sim_args _ _ _ _ HS)), Ha. apply length_map. Qed.

(** The keys still to visit are the arguments from [j] on. *)
Lemma drop_here (args ks : list (list Z)) k j : drop j args = k :: ks -> args !! j = Some k /\ drop (S j) args = ks.
Proof. intros E. split; [rewrite <- (Nat.add_0_r j), <- lookup_drop, E; done|]. by rewrite <- Nat.add_1_r, <- drop_drop, E. Qed.

Lemma exists_loop_ok args ks : forall j count st c, drop j args = ks -> Sim now settled st c -> aargs c = fresh args ->
  wp (exists_loop now (length ks) j count) (fun n st' => n = count + spec_count (kv c) ks /\ Sim now settled st' c) st.
Proof.
  induction ks as [|k ks IH]; intros j count st c Ed HS Ha; cbn [exists_loop length].
  - apply wp_ret. split; [unfold spec_count, zlen; cbn; lia|done].
  - apply drop_here in Ed as [Ek Ed]. step arg_text_ok; [exact HS|by eapply fresh_lookup|]. intros ? ? [-> ->]. step expireIfNeeded_ok; [apply mild_settled|exact HS|]. intros b st1 (HS1 & _ & Hb).
    apply wp_bind, wp_gets. assert (bool_decide (is_Some (dict st1 !! k)) = bool_decide (is_Some (kv c !! k))) as ->.
    { apply bool_decide_ext. destruct (kv c !! k) as [[x e]|] eqn:Ev; [|destruct Hb as [-> _]; done]. destruct (key_present now _ _ c k x e HS1 Ev) as (_ & _ & id & -> & _). split; by eexists. }
    eapply wp_mono; [by apply IH|]. cbn beta. intros n st2 [-> HS2]. split; [|done]. unfold spec_count. rewrite filter_cons. case_bool_decide; [rewrite decide_True by done|rewrite decide_False by done]; zl.
Qed.

Lemma touch_loop_ok args ks : forall j count st c, drop j args = ks -> Sim now settled st c -> aargs c = fresh args ->
  wp (touch_loop now (length ks) j count) (fun n st' => n = count + spec_count (kv c) ks /\ Sim now settled st' c) st.
Proof.
  induction ks as [|k ks IH]; intros j count st c Ed HS Ha; cbn [touch_loop length].
  - apply wp_ret. split; [unfold spec_count, zlen; cbn; lia|done].
  - apply drop_here in Ed as [Ek Ed]. step arg_text_ok; [exact HS|by eapply fresh_lookup|]. intros ? ? [-> ->]. step read_ok; [exact HS|]. intros r st1 (HS1 & _ & Hr).
    assert (bool_decide (is_Some r) = bool_decide (is_Some (kv c !! k))) as ->.
    { apply bool_decide_ext. destruct (kv c !! k) as [[x e]|]; [destruct Hr as (id & -> & _); split; by eexists|destruct Hr as [-> _]; done]. }
    eapply wp_mono; [by apply IH|]. cbn beta. intros n st2 [-> HS2]. split; [|done]. unfold spec_count. rewrite filter_cons. case_bool_decide; [rewrite decide_True by done|rewrite decide_False by done]; zl.
Qed.

Lemma count_bound m ks : zlen ks < 2 ^ 31 -> in_s 64 (spec_count m ks).
Proof. intros H. unfold spec_count, in_s. pose proof (zlen_nonneg (filter (fun k => is_Some (m !! k)) ks)). pose proof (length_filter (fun k => is_Some (m !! k)) ks). unfold zlen in *. lia. Qed.

Lemma exists_refines n ks : zlen ks < 2 ^ 31 -> refines now (existsCommand junk now) (n :: ks) (fun m => unchanged m (int_reply (spec_count m ks))).
Proof.
  intros Hz st c HS Ha. unfold existsCommand. apply wp_bind, wp_gets. rewrite (argc_fresh _ _ _ _ HS Ha). cbn [length]. rewrite Nat.sub_succ, Nat.sub_0_r. step (exists_loop_ok (n :: ks) ks 1 0); [done|exact HS|exact Ha|]. intros x st1 [-> HS1].
  apply reply_unchanged; [|done]. apply replies_int. by apply count_bound.
Qed.

Lemma touch_refines n ks : zlen ks < 2 ^ 31 -> refines now (touchCommand junk now) (n :: ks) (fun m => unchanged m (int_reply (spec_count m ks))).
Proof.
  intros Hz st c HS Ha. unfold touchCommand. apply wp_bind, wp_gets. rewrite (argc_fresh _ _ _ _ HS Ha). cbn [length]. rewrite Nat.sub_succ, Nat.sub_0_r. step (touch_loop_ok (n :: ks) ks 1 0); [done|exact HS|exact Ha|]. intros x st1 [-> HS1].
  apply reply_unchanged; [|done]. apply replies_int. by apply count_bound.
Qed.

Lemma del_loop_ok args ks : forall j num st c, drop j args = ks -> Sim now settled st c -> aargs c = fresh args ->
  wp (del_loop now (length ks) j num) (fun n st' => n = num + (spec_del (kv c) ks).2 /\ Sim now settled st' (dirties (with_kv c (spec_del (kv c) ks).1) (spec_del (kv c) ks).2)) st.
Proof.
  induction ks as [|k ks IH]; intros j num st c Ed HS Ha; cbn [del_loop length spec_del].
  - apply wp_ret. split; [cbn; lia|]. by rewrite with_kv_id, dirties_0.
  - apply drop_here in Ed as [Ek Ed]. step arg_text_ok; [exact HS|by eapply fresh_lookup|]. intros ? ? [-> ->]. step expireIfNeeded_ok; [apply mild_settled|exact HS|]. intros b st1 (HS1 & _ & Hb).
    step dbSyncDelete_ok; [apply mild_settled|exact HS1|]. intros b2 st2 (HS2 & _ & -> & _). destruct (spec_del (base.delete k (kv c)) ks) as [m' n'] eqn:Em.
    assert (bool_decide (is_Some (dict st1 !! k)) = bool_decide (is_Some (kv c !! k))) as ->.
    { apply bool_decide_ext. destruct (kv c !! k) as [[x e]|] eqn:Ev; [|destruct Hb as [-> _]; done]. destruct (key_present now _ _ c k x e HS1 Ev) as (_ & _ & id & -> & _). split; by eexists. }
    case_bool_decide.
    + step add_dirty_sim; [exact HS2|]. intros _ st3 HS3. eapply wp_mono; [by apply IH|]. cbn. rewrite Em. cbn. intros n st4 [-> HS4]. split; [lia|]. unfold dirties, with_kv in *. cbn in *. by replace (adirty c + (n' + 1)) with (adirty c + 1 + n') by lia.
    + eapply wp_mono; [by apply IH|]. cbn. rewrite Em. cbn. intros n st4 [-> HS4]. split; [lia|]. by rewrite Z.add_0_r.
Qed.

Lemma del_count_bound ks : forall m, 0 <= (spec_del m ks).2 <= zlen ks.
Proof. induction ks as [|k ks IH]; intros m; cbn [spec_del]; [done|]. specialize (IH (base.delete k m)). destruct (spec_del _ ks). cbn in *. rewrite zlen_cons. case_bool_decide; lia. Qed.

Lemma del_refines n ks : zlen ks < 2 ^ 31 -> refines now (delCommand junk now) (n :: ks) (fun m => let '(m', d) := spec_del m ks in (m', int_reply d, d)).
Proof.
  intros Hz st c HS Ha. unfold delCommand. apply wp_bind, wp_gets. rewrite (argc_fresh _ _ _ _ HS Ha). cbn [length]. rewrite Nat.sub_succ, Nat.sub_0_r. step (del_loop_ok (n :: ks) ks 1 0); [done|exact HS|exact Ha|]. intros x st1 [-> HS1].
  pose proof (del_count_bound ks (kv c)). destruct (spec_del (kv c) ks) as [m' d]. cbn [fst snd] in *. eapply end_replies; [apply replies_int; unfold in_s; lia|exact HS1|]. intros st2 HS2. by eapply finish.
Qed.

Lemma mget_loop_ok args ks : forall j st c, drop j args = ks -> Sim now settled st c -> aargs c = fresh args ->
  wp (mget_loop junk now (length ks) j) (fun _ st' => Sim now settled st' (says c (concat (map (fun k => match kv c !! k with Some (VStr t, _) => bulk t | _ => reply_nullbulk end) ks)))) st.
Proof.
  induction ks as [|k ks IH]; intros j st c Ed HS Ha; cbn [mget_loop length map concat].
  - apply wp_ret. replace (says c []) with c; [done|]. destruct c. unfold says. cbn. by rewrite app_nil_r.
  - apply drop_here in Ed as [Ek Ed]. step arg_text_ok; [exact HS|by eapply fresh_lookup|]. intros ? ? [-> ->]. step read_ok; [exact HS|]. intros r st1 (HS1 & _ & Hr).
    apply (wp_step _ _ (fun _ st' => Sim now settled st' (says c (match kv c !! k with Some (VStr t, _) => bulk t | _ => reply_nullbulk end)))).
    + destruct (kv c !! k) as [[[t|] e]|].
      * destruct Hr as (id & -> & _ & Hx & _). eapply wp_bind, fetch_text; [exact Hx|]. intros o Ho. rewrite (bool_decide_eq_true_2 (type o = OBJ_STRING)) by (by eapply text_type). by eapply reply_text.
      * destruct Hr as (id & -> & _ & (n & o & -> & Eo & Ht) & _). eapply wp_bind, fetch_heap; [exact Eo|]. rewrite (bool_decide_eq_false_2 (type o = OBJ_STRING)) by done. by apply addReplyString_sim.
      * destruct Hr as (-> & _). by apply addReplyString_sim.
    + intros _ st2 HS2. eapply wp_mono; [by apply IH|]. cbn beta. intros _ st3 HS3. by rewrite says_says in HS3.
Qed.

Lemma mget_refines n ks : zlen ks < 2 ^ 31 -> refines now (mgetCommand junk now) (n :: ks) (fun m => unchanged m (spec_mget m ks)).
Proof.
  intros Hz st c HS Ha. unfold mgetCommand. apply wp_bind, wp_gets. rewrite (argc_fresh _ _ _ _ HS Ha). cbn [length]. rewrite Nat.sub_succ, Nat.sub_0_r. replace (Z.of_nat (S (length ks)) - 1) with (zlen ks) by (unfold zlen; lia).
  pose proof (zlen_nonneg ks). step (@replies_sim now unit); [apply replies_prefix; unfold in_s; lia|exact HS|]. intros _ st1 (_ & HS1 & _). eapply wp_mono; [by apply (mget_loop_ok (n :: ks) ks 1)|]. cbn beta. intros _ st2 HS2.
  apply finish_unchanged. rewrite says_says in HS2. unfold spec_mget. cbn [kv says] in HS2. by rewrite <- app_comm_cons, <- app_assoc in HS2.
Qed.

(** *** Ranges, appending and counters *)

Lemma range_text t a b x : zlen t <= MAX_TEXT -> in_s 64 a -> in_s 64 b ->
  (let start := if a <? 0 then i64 (u64 (zlen t + a)) else a in
   let stop := if b <? 0 then i64 (u64 (zlen t + b)) else b in
   let start := if start <? 0 then 0 else start in
   let stop := if stop <? 0 then 0 else stop in
   let stop := if zlen t <=? u64 stop then i64 (u64 (zlen t - 1)) else stop in
   if (stop <? start) || (zlen t =? 0) then x = [] else rd t start (stop - start + 1) = Ok x) -> x = slice t a b.
Proof.
  intros Hz Ha Hb. cbv zeta. unfold slice, in_s, MAX_TEXT in *. pose proof (zlen_nonneg t). rewrite !swrap_uwrap by lia. set (s := if a <? 0 then _ else a). set (e := if b <? 0 then _ else b).
  assert (s = if a <? 0 then zlen t + a else a) as -> by (unfold s; case_match; [apply swrap_id; [lia|unfold in_s; lia]|done]). assert (e = if b <? 0 then zlen t + b else b) as -> by (unfold e; case_match; [apply swrap_id; [lia|unfold in_s; lia]|done]).
  set (a' := if a <? 0 then _ else a). set (b' := if b <? 0 then zlen t + b else b). assert (- 2 ^ 63 <= a' < 2 ^ 63 /\ - 2 ^ 63 <= b' < 2 ^ 63) as [Ra Rb] by (unfold a', b'; repeat case_match; lia).
  replace (if a' <? 0 then 0 else a') with (Z.max 0 a') by (case_match; lia). replace (if b' <? 0 then 0 else b') with (Z.max 0 b') by (case_match; lia). rewrite (uwrap_id 64 (Z.max 0 b')) by (unfold in_u; lia).
  rewrite swrap_id by (lia || unfold in_s; lia). replace (if zlen t <=? Z.max 0 b' then zlen t - 1 else Z.max 0 b') with (Z.min (zlen t - 1) (Z.max 0 b')) by (case_match; lia).
  set (s := Z.max 0 a'). set (e := Z.min _ _). destruct (_ || _) eqn:Ec.
  - intros ->. apply orb_true_iff in Ec as [Ec|Ec]; symmetry; [apply ztake_0; lia|]. assert (t = []) as -> by (apply zlen_0_nil; lia). unfold zdrop. rewrite drop_nil. apply take_nil.
  - unfold rd. case_match; [|done]. by intros [= <-].
Qed.

Lemma rd_ok t a n : 0 <= a -> 0 <= n -> a + n <= zlen t -> rd t a n = Ok (ztake n (zdrop a t)).
Proof. intros. unfold rd. by rewrite (proj2 (andb_true_iff _ _)) by (rewrite andb_true_iff; lia). Qed.

Lemma getrange_refines n k a b : refines now (getrangeCommand junk now) [n; k; a; b] (fun m => unchanged m (spec_getrange m k a b)).
Proof.
  intros st c HS Ha. unfold getrangeCommand, spec_getrange. step long_arg_ok; [exact HS|by rewrite Ha|]. intros r st0 [-> H0]. destruct (string2ll a) as [x|] eqn:Ex; [subst st0|apply wp_ret; by apply finish_unchanged].
  step long_arg_ok; [exact HS|by rewrite Ha|]. intros r st0 [-> H0]. destruct (string2ll b) as [y|] eqn:Ey; [subst st0|apply wp_ret; by apply finish_unchanged].
  step arg_text_ok; [exact HS|by rewrite Ha|]. intros ? ? [-> ->]. step read_ok; [exact HS|]. intros r st1 (HS1 & _ & Hr). destruct (kv c !! k) as [[[t|] e]|] eqn:Ev.
  2:{ destruct Hr as (id & -> & _ & Hx & _). step checkType_ok; [exact HS1|exact Hx|]. intros q st2 [-> HS2]. apply wp_ret. by apply finish_unchanged. }
  2:{ destruct Hr as (-> & _). by apply reply_unchanged. }
  destruct Hr as (id & -> & _ & Hx & _). step checkType_ok; [exact HS1|exact Hx|]. intros q st2 [-> ->]. eapply wp_bind, fetch_text; [exact Hx|]. intros o Ho. eapply wp_bind, wp_lift; [by apply string_bytes_ok|].
  assert (zlen t <= MAX_TEXT) as Hz by apply Hx. destruct (_ && _ && _) eqn:Eneg; [by apply (reply_unchanged _ _ reply_emptybulk)|]. pose proof (proj2 (string2ll_sound _ _ Ex)) as Rx. pose proof (proj2 (string2ll_sound _ _ Ey)) as Ry.
  pose proof (fun z => range_text t x y z Hz Rx Ry) as HR. cbv zeta in HR |- *. set (s := if _ <? 0 then 0 else if x <? 0 then _ else x) in *. set (f := if zlen t <=? u64 _ then _ else _) in *.
  destruct (_ || _) eqn:Eb.
  - rewrite <- (HR [] eq_refl). by apply (reply_unchanged _ _ reply_emptybulk).
  - assert (0 <= s /\ f - s + 1 >= 0 /\ f < zlen t) as (Hs & Hf & Hf'). { apply orb_false_iff in Eb as [E1 E2]. split_and!; [unfold s; case_match; lia|lia|]. unfold f. destruct (Z.leb_spec (zlen t) (u64 (if (if y <? 0 then i64 (u64 (zlen t + y)) else y) <? 0 then 0 else if y <? 0 then i64 (u64 (zlen t + y)) else y))) as [Hl|Hl].
      - pose proof (zlen_nonneg t). rewrite swrap_uwrap by lia. unfold MAX_TEXT in Hz. rewrite swrap_id by (lia || unfold in_s; lia). lia.
      - set (w := if y <? 0 then i64 (u64 (zlen t + y)) else y) in *. assert (in_s 64 w) as Hw by (unfold w; destruct (y <? 0); [apply swrap_range; lia|exact Ry]). unfold in_s in Hw.
        rewrite uwrap_id in Hl by (unfold in_u; destruct (w <? 0) eqn:?; lia). lia. }
    pose proof (rd_ok t s (f - s + 1) Hs ltac:(lia) ltac:(lia)) as Erd. eapply wp_bind, wp_lift; [exact Erd|]. rewrite <- (HR _ Erd). apply reply_unchanged; [|done]. apply replies_cbuffer. rewrite zlen_ztake. unfold MAX_TEXT in Hz. rewrite zlen_zdrop. lia.
Qed.

Lemma checkStringLength_ok st c n : Sim now settled st c -> 0 <= n < 2 ^ 63 ->
  wp (checkStringLength (u64 n)) (fun b st' => b = (n <=? MAX_TEXT) /\ if n <=? MAX_TEXT then st' = st else Sim now settled st' (says c too_long)) st.
Proof.
  intros HS Hn. unfold checkStringLength. rewrite swrap_uwrap, swrap_id by (lia || unfold in_s; lia). change (512 * 1024 * 1024) with MAX_TEXT. destruct (Z.ltb_spec MAX_TEXT n); [rewrite (proj2 (Z.leb_gt _ _)) by done|rewrite (proj2 (Z.leb_le _ _)) by done].
  - step (@replies_sim now unit); [apply replies_error|exact HS|]. intros _ st1 (_ & HS1 & _). by apply wp_ret.
  - by apply wp_ret.
Qed.

(** Writing a new text into a value that may be changed in place. *)
Lemma write_in_place st c k id t e sd' t' o : Sim now settled st c -> dict st !! k = Some id -> kv c !! k = Some (VStr t, e) -> writable st id t -> fetch id st = Ok (st, o) -> repr sd' t' -> zlen t' <= MAX_TEXT ->
  wp (store id (with_ptr o (PSds sd'))) (fun _ st' => Sim now settled st' (with_kv c (<[k := (VStr t', e)]> (kv c)))) st.
Proof.
  intros HS Ek Ev (n & o' & sd & -> & Hr & Eo & Ht & He & Hp & _) Ef Hrep Hz. cbn in Ef. rewrite Eo in Ef. injection Ef as ->. eapply store_heap; [exact Eo|]. eapply store_key_sim; [done|done|done|done|done|done| |done].
  apply (text_sds _ _ sd'); [done|unfold sdsEncodedObject; cbn; by rewrite He|done|done].
Qed.

Lemma writable_sds st id t : writable st id t -> exists o sd, fetch id st = Ok (st, o) /\ own_sds o = Ok sd /\ repr sd t.
Proof. intros (n & o & sd & -> & _ & Eo & _ & He & Hp & Hr). exists o, sd. split_and!; [cbn; by rewrite Eo| |done]. unfold own_sds, as_sds. by rewrite He, Hp. Qed.

Lemma fetch_wp {o id} (Q : robj -> server -> Prop) st : fetch id st = Ok (st, o) -> Q o st -> wp (fetch id) Q st.
Proof. unfold wp. by intros ->. Qed.

Lemma append_refines n k v : refines now (appendCommand junk private now) [n; k; v] (fun m => spec_append m k v).
Proof.
  intros st c HS Ha. unfold appendCommand. step arg_text_ok; [exact HS|by rewrite Ha|]. intros ? ? [-> ->]. step write_ok; [exact HS|]. intros r st1 (HS1 & _ & Hr). unfold spec_append. destruct (kv c !! k) as [[[t|] e]|] eqn:Ev.
  - destruct Hr as (id & -> & Ek & Hx & _). assert (zlen t <= MAX_TEXT) as Hz by apply Hx. destruct (arg_lookup now _ st1 c 2 v Fresh HS1 ltac:(by rewrite Ha)) as (vid & _ & [Hzv _] & _). cbn in Hzv. pose proof (zlen_nonneg t). pose proof (zlen_nonneg v).
    apply (wp_step _ _ (fun r st' => if zlen t + zlen v <=? MAX_TEXT then r = Some (zlen t + zlen v) /\ Sim now settled st' (with_kv c (<[k := (VStr (t ++ v), e)]> (kv c))) else r = None /\ Sim now settled st' (says c too_long))).
    + step checkType_ok; [exact HS1|exact Hx|]. intros b st2 [-> ->]. step arg_text_ok; [exact HS1|by rewrite Ha|]. intros ? ? [-> ->]. eapply wp_bind, fetch_text; [exact Hx|]. intros o Ho. eapply wp_bind, wp_lift; [by apply stringObjectLen_ok|].
      step checkStringLength_ok; [exact HS1|unfold MAX_TEXT in *; lia|]. intros b st2 [-> H2]. destruct (Z.leb_spec (zlen t + zlen v) MAX_TEXT) as [Hle|Hgt]; cbn [negb]; [subst st2|by apply wp_ret].
      step dbUnshare_ok; [exact HS1|exact Ek|exact Ev|]. intros id' st2 (HS2 & Ek2 & _ & Hw). destruct (writable_sds _ _ _ Hw) as (o' & sd & Ef & Eo & Hrep). eapply wp_bind, fetch_wp; [exact Ef|]. eapply wp_bind, wp_lift; [exact Eo|].
      destruct (sdscatlen_ok junk sd t v [] Hrep) as (sd' & Ecat & Hrep'); [unfold MAX_TEXT in *; lia|]. rewrite app_nil_r in Ecat. eapply wp_bind, wp_lift; [exact Ecat|].
      step write_in_place; [exact HS2|exact Ek2|exact Ev|exact Hw|exact Ef|exact Hrep'|by rewrite zlen_app|]. intros _ st3 HS3. apply wp_ret. split; [|done]. by rewrite (repr_len _ _ Hrep'), zlen_app.
    + intros r st2 Hr. destruct (Z.leb_spec (zlen t + zlen v) MAX_TEXT) as [Hle|Hgt]; [rewrite (proj2 (Z.ltb_ge _ _)) by lia|rewrite (proj2 (Z.ltb_lt _ _)) by lia]; destruct Hr as [-> HS2].
      * step add_dirty_sim; [exact HS2|]. intros _ st3 HS3. eapply end_replies; [apply replies_int; unfold in_s, MAX_TEXT in *; lia|exact HS3|]. intros st4 HS4. by eapply finish.
      * apply wp_ret. by apply finish_unchanged.
  - destruct Hr as (id & -> & Ek & Hx & _). apply (wp_step _ _ (fun r st' => r = None /\ Sim now settled st' (says c reply_wrongtype))).
    + step checkType_ok; [exact HS1|exact Hx|]. intros b st2 [-> HS2]. by apply wp_ret.
    + intros r st2 [-> HS2]. apply wp_ret. by apply finish_unchanged.
  - destruct Hr as (-> & Ek & _). apply (wp_step _ _ (fun r st' => r = Some (zlen v) /\ in_s 64 (zlen v) /\ exists a, Sim now settled st' (with_kv (with_args c a) (<[k := (VStr v, None)]> (kv c))))).
    + step encode_arg_ok; [exact HS1|by rewrite Ha|]. intros _ st2 (HS2 & Ed2). set (c2 := with_args c _) in *. assert (aargs c2 !! 2%nat = Some (v, Own)) as E2 by (cbn; by rewrite Ha).
      destruct (arg_lookup now _ st2 c2 2 v Own HS2 E2) as (id & Ea & _). eapply wp_bind, arg_wp; [exact Ea|]. destruct (own_arg_facts now _ st2 c2 2 v id HS2 E2 Ea) as (Ht & Hl & H1 & Hu & _).
      step dbAdd_ok; [by apply (Sim_mark now settled st2 c2 2 v Own)|by rewrite Ed2|by instantiate (1 := VStr v)|exact Hu|exact H1|]. intros _ st3 (HS3 & E3).
      step incr_sim; [exact HS3| | |]; [exact (argv_live st3 _ 2 id (sim_owned _ _ _ _ HS3) ltac:(by rewrite E3))|intros m ->; unfold bump, settled; rewrite one_same; lia|]. intros _ st4 (HS4 & h & -> & _).
      apply Sim_ext_settled in HS4; [|done]. destruct (arg_lookup now _ _ _ 2 v Used HS4 ltac:(cbn; by rewrite Ha)) as (id' & Ea' & Ht' & _). assert (id' = id) as -> by (rewrite E3 in Ea'; cbn in Ea'; congruence).
      eapply wp_bind, fetch_text; [exact Ht'|]. intros o Ho. eapply wp_bind, wp_lift; [by apply stringObjectLen_ok|]. apply wp_ret. split_and!; [done|by eapply text_bound|]. eexists. exact HS4.
    + intros r st2 (-> & Hin & a & HS2). step add_dirty_sim; [exact HS2|]. intros _ st3 HS3. eapply end_replies; [by apply replies_int|exact HS3|]. intros st4 HS4. by eapply finish.
Qed.

(** The overflow test of INCR. *)
Lemma incr_overflow old incr : in_s 64 old -> in_s 64 incr ->
  (incr <? 0) && (old <? 0) && (incr <? LLONG_MIN - old) || (0 <? incr) && (0 <? old) && (LLONG_MAX - old <? incr) = negb (bool_decide (in_s 64 (old + incr))).
Proof. intros Ho Hi. unfold in_s, LLONG_MIN, LLONG_MAX in *. case_bool_decide; cbn [negb]; lia. Qed.

Lemma dec_text v : in_s 64 v -> zlen (dec v) <= MAX_TEXT.
Proof. intros Hv. pose proof (dec_len_le v Hv). unfold MAX_TEXT. lia. Qed.

(** The object for a result, ready to be stored. *)
Lemma place_ok d st c v : Sim now d st c -> (forall n, d n = 0) -> in_s 64 v ->
  wp (m ← lift (createStringObjectFromLongLong junk v); place m) (fun id st' => Sim now (bump id 1 d) st' c /\ text_of (heap st') id (dec v) /\ dict st' = dict st /\ argv st' = argv st /\
    (forall n, id = Heap n -> refs st' n = 0)) st.
Proof.
  intros HS Hd Hv. destruct (createStringObjectFromLongLong_ok junk v Hv) as (m & Em & Hm). eapply wp_bind, wp_lift; [exact Em|]. destruct m as [w|o]; cbn [place] in *.
  - apply wp_ret. destruct Hm as [Hw E]. split_and!; [eapply Sim_ext; [|exact HS]; intros n; unfold bump; rewrite one_other by done; lia|split; [by apply dec_text|]; by split|done..].
  - destruct Hm as [Hr Ho]. eapply wp_mono; [by apply alloc_sim|]. cbn beta. intros id st' (-> & -> & HS' & _ & H0). split_and!; [done|apply text_of_new; [done|by apply dec_text]|done..|]. by intros n [= <-].
Qed.

(** A new object is referenced by nobody. *)
Lemma new_facts d st c id : Sim now d st c -> (forall n, id = Heap n -> refs st n = 0) ->
  unclaimed st c id /\ (forall n, id = Heap n -> drefs n (dict st) = 0 /\ refs st n <= 1 /\ n <> shared_del st) /\ forall k n, dict st !! k = Some (Heap n) -> id <> Heap n.
Proof.
  intros HS H0. split_and!.
  - intros j n a -> Ej _. apply refs_argv in Ej. specialize (H0 n eq_refl). lia.
  - intros n ->. specialize (H0 n eq_refl). pose proof (drefs_nonneg n (dict st)). pose proof (occ_nonneg n (argv st)). pose proof (one_range (Heap (shared_del st)) n). split_and!; [unfold refs in H0; lia|lia|]. intros ->. pose proof (del_refs st). lia.
  - intros k n Ek ->. apply refs_dict in Ek. specialize (H0 n eq_refl). lia.
Qed.

(** Storing the result: in place, as a new object over the old value, or under a new key. *)
Lemma incr_new_ok (st : server) (c : config) (k : list Z) (v : Z) (f : oid -> M unit) (m : store_map) :
  Sim now settled st c -> in_s 64 v ->
  (forall id st', Sim now (bump id 1 settled) st' c -> text_of (heap st') id (dec v) -> dict st' = dict st -> (forall n, id = Heap n -> refs st' n = 0) ->
    wp (f id) (fun _ st2 => Sim now (bump id (-1) (bump id 1 settled)) st2 (with_kv c m) /\ dict st2 !! k = Some id /\ m !! k = Some (VStr (dec v), default None (snd <$> m !! k))) st') ->
  wp (mk ← lift (createStringObjectFromLongLong junk v); new ← place mk; _ ← f new; mret new)
     (fun new st' => Sim now settled st' (with_kv c m) /\ text_of (heap st') new (dec v)) st.
Proof.
  intros HS Hv Hf. apply wp_assoc. eapply wp_step; [by apply place_ok|]. cbn beta. intros id st1 (HS1 & Ht & Ed & _ & H0). eapply wp_step; [by apply Hf|]. cbn beta. intros _ st2 (HS2 & Ek & Em). apply wp_ret.
  assert (Sim now settled st2 (with_kv c m)) as HS3 by (eapply Sim_ext; [|exact HS2]; intros n; unfold bump, settled; lia). split; [done|]. destruct (key_present now _ st2 _ k _ _ HS3 Em) as (_ & _ & id' & Ek' & Hx & _). assert (id' = id) as -> by congruence. exact Hx.
Qed.

Lemma incr_existing_ok st c (k : list Z) (v : Z) id o t e : Sim now settled st c -> in_s 64 v -> dict st !! k = Some id -> kv c !! k = Some (VStr t, e) -> fetch id st = Ok (st, o) -> obj_text o t ->
  wp (if (refcount o =? 1) && bool_decide (encoding o = OBJ_ENCODING_INT) && ((v <? 0) || (OBJ_SHARED_INTEGERS <=? v)) && (LONG_MIN <=? v) && (v <=? LONG_MAX)
      then _ ← store id (with_ptr o (PLong v)); mret id
      else mk ← lift (createStringObjectFromLongLong junk v); new ← place mk; _ ← dbOverwrite k new; mret new)
     (fun new st' => Sim now settled st' (with_kv c (<[k := (VStr (dec v), e)]> (kv c))) /\ text_of (heap st') new (dec v)) st.
Proof.
  intros HS Hv Ek Ev Ef Ho. destruct (_ && _) eqn:Ec.
  - rewrite !andb_true_iff in Ec. destruct Ec as ((((E1 & E2) & _) & _) & _). apply bool_decide_eq_true in E2. destruct id as [w|n]; cbn in Ef; [injection Ef as <-; cbn in E1; unfold OBJ_SHARED_REFCOUNT in E1; lia|].
    destruct (heap st !! n) as [o'|] eqn:En; [|done]. injection Ef as ->. pose proof (own_cell _ _ (sim_owned _ _ _ _ HS) n) as Hc. rewrite En in Hc. unfold settled in Hc. eapply wp_bind, store_heap; [exact En|]. apply wp_ret.
    assert (obj_text (with_ptr o (PLong v)) (dec v)) as Ht by (apply (text_int _ _ v); [cbn; by eapply text_type|done..]).
    split; [eapply (store_key_sim now _ st c k n o _ (VStr t) e); [done|done|lia|done|done|done|done|by apply dec_text]|]. apply text_of_new; [done|by apply dec_text].
  - eapply incr_new_ok with (k := k); [exact HS|done|]. intros id' st' HS' Ht Ed H0. destruct (new_facts _ _ _ _ HS' H0) as (Hu & H1 & Hne). eapply wp_mono; [apply (dbOverwrite_ok now _ st' c k id' (VStr (dec v)) id (VStr t) e HS'); [by rewrite Ed|done|done|done|done|]|].
    + intros n ->. unfold bump, settled. pose proof (one_range id' n). split; [lia|]. apply (Hne k). by rewrite Ed.
    + cbn beta. intros _ st2 (HS2 & h & -> & _). split_and!; [done|cbn; apply lookup_insert_eq|by rewrite lookup_insert_eq].
Qed.

Lemma incr_reply_ok st c (k : list Z) (v : Z) e new : Sim now settled st (with_kv c (<[k := (VStr (dec v), e)]> (kv c))) -> text_of (heap st) new (dec v) ->
  wp (_ ← add_dirty 1; _ ← addReplyString (str ":"); _ ← addReply junk new; addReplyString crlf)
     (fun _ st' => exists a, Sim now settled st' (with_args (apply_outcome c (<[k := (VStr (dec v), e)]> (kv c), int_reply v, 1)) a)) st.
Proof.
  intros HS Ht. apply wp_bind, wp_modify. set (st1 := set_counts st _). eapply end_replies.
  - eapply replies_bind; [apply replies_string|]. eapply replies_bind; [by apply replies_object|]. apply replies_string.
  - apply counts_sim; [exact HS|done].
  - intros st2 HS2. by eapply finish.
Qed.

Lemma incr_generic_ok n k incr rest : in_s 64 incr -> refines now (incrDecrCommand junk now incr) (n :: k :: rest) (fun m => spec_incr m k incr).
Proof.
  intros Hi st c HS Ha. unfold incrDecrCommand. step arg_text_ok; [exact HS|by rewrite Ha|]. intros ? ? [-> ->]. step write_ok; [exact HS|]. intros r st1 (HS1 & _ & Hr). unfold spec_incr. destruct (kv c !! k) as [[[t|] e]|] eqn:Ev.
  - destruct Hr as (id & -> & Ek & Hx & _). step checkType_ok; [exact HS1|exact Hx|]. intros b st2 [-> ->]. destruct (fetch_text_eq id t st1 Hx) as (o & Ef & Ho). apply (wp_step _ _ (fun ob st' => ob = Some o /\ st' = st1)); [eapply wp_bind, fetch_wp; [exact Ef|]; by apply wp_ret|]. intros ? ? [-> ->].
    step getLongLong_ok; [exact HS1|exact Ho|]. intros r st2 [-> H2]. destruct (string2ll t) as [old|] eqn:E2; [subst st2|apply wp_ret; by apply finish_unchanged]. rewrite incr_overflow by (done || by eapply string2ll_sound).
    case_bool_decide as Hv; cbn [negb]; [|apply reply_unchanged; [apply replies_error|done]]. step incr_existing_ok; [exact HS1|exact Hv|exact Ek|exact Ev|exact Ef|exact Ho|]. intros new st2 [HS2 Ht]. by apply incr_reply_ok.
  - destruct Hr as (id & -> & _ & Hx & _). step checkType_ok; [exact HS1|exact Hx|]. intros b st2 [-> HS2]. apply wp_ret. by apply finish_unchanged.
  - destruct Hr as (-> & Ek & _). apply wp_bind, wp_ret, wp_bind, wp_ret, wp_bind. eapply wp_bind, wp_lift; [done|]. apply wp_ret. rewrite incr_overflow by done. change (string2ll (str "0")) with (Some 0). cbn beta iota zeta.
    destruct (bool_decide (in_s 64 (0 + incr))) eqn:Hv; cbn [negb]; [apply bool_decide_eq_true in Hv|apply reply_unchanged; [apply replies_error|done]].
    apply (wp_step _ _ (fun new st' => Sim now settled st' (with_kv c (<[k := (VStr (dec (0 + incr)), None)]> (kv c))) /\ text_of (heap st') new (dec (0 + incr)))); [|intros new st2 [HS2 Ht]; by apply incr_reply_ok].
    eapply incr_new_ok with (k := k); [exact HS1|done|]. intros id' st' HS' Ht Ed H0. destruct (new_facts _ _ _ _ HS' H0) as (Hu & H1 & Hne). eapply wp_mono; [apply (dbAdd_ok now _ st' c k id' (VStr (dec (0 + incr))) HS'); [by rewrite Ed|done|done|done]|].
    cbn beta. intros _ st2 (HS2 & ->). split_and!; [done|cbn; apply lookup_insert_eq|by rewrite lookup_insert_eq].
Qed.

Lemma incrby_refines n k v : refines now (incrbyCommand junk now) [n; k; v] (fun m => spec_incrby m k v 1).
Proof.
  intros st c HS Ha. unfold incrbyCommand, spec_incrby. step long_arg_ok; [exact HS|by rewrite Ha|]. intros r st1 [-> H1]. destruct (string2ll v) as [x|] eqn:Ex; [subst st1|apply wp_ret; by apply finish_unchanged].
  apply string2ll_sound in Ex as [_ Hx]. rewrite Z.mul_1_l, swrap_id by (lia || done). by apply (incr_generic_ok n k x [v]).
Qed.

Lemma decrby_refines n k v : refines now (decrbyCommand junk now) [n; k; v] (fun m => spec_incrby m k v (-1)).
Proof.
  intros st c HS Ha. unfold decrbyCommand, spec_incrby. step long_arg_ok; [exact HS|by rewrite Ha|]. intros r st1 [-> H1]. destruct (string2ll v) as [x|] eqn:Ex; [subst st1|apply wp_ret; by apply finish_unchanged].
  replace (-1 * x) with (- x) by lia. apply (incr_generic_ok n k (i64 (- x)) [v]); [apply swrap_range; lia|done|done].
Qed.

(** *** SETRANGE *)

Lemma list_cut3 (c : list Z) off n : 0 <= off -> 0 <= n -> off + n <= zlen c -> exists old, c = ztake off c ++ old ++ zdrop (off + n) c /\ zlen old = n.
Proof.
  intros Ho Hn Hl. exists (ztake n (zdrop off c)). split; [|rewrite zlen_ztake, zlen_zdrop; lia]. rewrite <- (ztake_zdrop off c) at 1. f_equal. rewrite <- (ztake_zdrop n (zdrop off c)) at 1. f_equal.
  unfold zdrop. rewrite drop_drop. f_equal. lia.
Qed.

Lemma repr_write_at s c off v : repr s c -> 0 <= off -> off + zlen v <= zlen c ->
  exists b, wr (buf s) off v = Ok b /\ repr (with_buf s b) (ztake off c ++ v ++ zdrop (off + zlen v) c).
Proof.
  intros [Hh El (free & Eb & Hf)] Ho Hl. destruct (list_cut3 c off (zlen v)) as (old & Ec & Hold); [done|apply zlen_nonneg|done|]. assert (zlen (ztake off c) = off) as Ht by (rewrite zlen_ztake; pose proof (zlen_nonneg v); lia).
  exists ((ztake off c ++ v ++ zdrop (off + zlen v) c) ++ 0 :: free). split.
  - rewrite Eb. rewrite Ec at 1. rewrite <- !app_assoc. by rewrite wr_app.
  - destruct (with_buf_hdr s ((ztake off c ++ v ++ zdrop (off + zlen v) c) ++ 0 :: free)) as (E1 & E2 & _ & Hiff).
    assert (zlen (ztake off c ++ v ++ zdrop (off + zlen v) c) = zlen c) as Ez by (pose proof (f_equal zlen Ec) as Ez; rewrite !zlen_app in Ez |- *; lia).
    constructor; [by apply Hiff|by rewrite E1, El|]. exists free. cbn. split; [done|]. rewrite E2. lia.
Qed.

Lemma overwrite_grown t off v : 0 <= off -> let c := t ++ zrep (off + zlen v - zlen t) 0 in ztake off c ++ v ++ zdrop (off + zlen v) c = overwrite t off v.
Proof.
  intros Ho. cbv zeta. unfold overwrite. pose proof (zlen_nonneg v). pose proof (zlen_nonneg t). f_equal; [|f_equal].
  - unfold ztake, zrep. destruct (Z.le_gt_cases off (zlen t)).
    + rewrite !take_app_le by (unfold zlen in *; lia). done.
    + rewrite !take_app, !take_replicate. f_equal. f_equal. unfold zlen in *. lia.
  - unfold zdrop, zrep. rewrite drop_app, drop_replicate. replace (replicate _ 0) with (@nil Z); [by rewrite app_nil_r|]. replace (_ - _)%nat with 0%nat by (unfold zlen in *; lia). done.
Qed.

Lemma overwrite_len t off v : 0 <= off -> zlen (overwrite t off v) = Z.max (zlen t) (off + zlen v).
Proof. intros Ho. unfold overwrite. rewrite !zlen_app, zlen_ztake, zlen_zdrop, zlen_app, zlen_zrep. pose proof (zlen_nonneg v). pose proof (zlen_nonneg t). lia. Qed.

Lemma overwrite_zeros off v n : 0 <= off -> n = off + zlen v -> overwrite (zrep n 0) off v = overwrite [] off v.
Proof.
  intros Ho ->. unfold overwrite. pose proof (zlen_nonneg v). rewrite zlen_zrep, (zdrop_all _ (zrep _ 0)), (zdrop_all _ []) by (rewrite ?zlen_zrep; change (zlen (@nil Z)) with 0; lia). change (zlen (@nil Z)) with 0. f_equal.
  unfold ztake, zrep. replace (Z.to_nat (off - Z.max 0 (off + zlen v))) with 0%nat by lia. cbn [replicate]. rewrite app_nil_r, app_nil_l, !take_replicate. f_equal. lia.
Qed.

Lemma setrange_store_ok st c c0 k id t e off v : Sim now settled st c -> dict st !! k = Some id -> kv c !! k = Some (VStr t, e) -> writable st id t -> zlen t <= MAX_TEXT ->
  0 <= off -> 0 < zlen v -> off + zlen v <= MAX_TEXT -> aout c = aout c0 -> aclose c = aclose c0 -> adirty c = adirty c0 ->
  wp (o ← fetch id; s ← lift (own_sds o);
      s ← (if 0 <? zlen v then s ← lift (sdsgrowzero junk s (u64 (off + zlen v))); b ← lift (wr (buf s) off v); _ ← store id (with_ptr o (PSds (with_buf s b))); _ ← add_dirty 1; mret (with_buf s b) else mret s);
      addReplyLongLong junk (sdslen s))
     (fun _ st' => exists a, Sim now settled st' (with_args (apply_outcome c0 (<[k := (VStr (overwrite t off v), e)]> (kv c), int_reply (zlen (overwrite t off v)), 1)) a)) st.
Proof.
  intros HS Ek Ev Hw Hz Ho Hv Hl Eo1 Eo2 Eo3. pose proof (zlen_nonneg t). unfold MAX_TEXT in *. destruct (writable_sds _ _ _ Hw) as (o & sd & Ef & Eown & Hrep). eapply wp_bind, fetch_wp; [exact Ef|]. eapply wp_bind, wp_lift; [exact Eown|].
  rewrite (proj2 (Z.ltb_lt _ _)) by done. rewrite uwrap_id by (unfold in_u; lia). destruct (sdsgrowzero_ok junk sd t (off + zlen v) Hrep) as (s1 & Eg & Hrep1); [lia|].
  destruct (repr_write_at s1 _ off v Hrep1 Ho) as (b & Ew & Hrep2); [rewrite zlen_app, zlen_zrep; lia|]. pose proof (overwrite_grown t off v Ho) as Hg. cbv zeta in Hg. rewrite Hg in Hrep2. pose proof (overwrite_len t off v Ho) as Hlen.
  apply (wp_step _ _ (fun s st' => sdslen s = zlen (overwrite t off v) /\ Sim now settled st' (dirties (with_kv c (<[k := (VStr (overwrite t off v), e)]> (kv c))) 1))).
  - eapply wp_bind, wp_lift; [exact Eg|]. eapply wp_bind, wp_lift; [exact Ew|]. step write_in_place; [exact HS|exact Ek|exact Ev|exact Hw|exact Ef|exact Hrep2|unfold MAX_TEXT; lia|]. intros _ st1 HS1. step add_dirty_sim; [exact HS1|]. intros _ st2 HS2. apply wp_ret.
    split; [|done]. by rewrite (repr_len _ _ Hrep2).
  - intros s st1 [-> HS1]. eapply end_replies; [apply replies_int; unfold in_s; lia|exact HS1|]. intros st2 HS2. eapply finish; [exact HS2|done|cbn; by rewrite Eo1|done|cbn; by rewrite Eo3].
Qed.

(** A key created with zeroed contents is writable. *)
Lemma add_zeroed_ok st c k n : Sim now settled st c -> dict st !! k = None -> 0 <= n <= MAX_TEXT ->
  wp (s ← lift (sdsnewlen junk None n); id ← alloc (createObject OBJ_STRING (PSds s)); _ ← dbAdd k id; mret (Some id))
     (fun r st' => exists id, r = Some id /\ Sim now settled st' (with_kv c (<[k := (VStr (zrep n 0), None)]> (kv c))) /\ dict st' !! k = Some id /\ writable st' id (zrep n 0)) st.
Proof.
  intros HS Ek Hn. assert (zlen (zrep n 0) <= MAX_TEXT) as Hz by (rewrite zlen_zrep; lia). destruct (sdsnewlen_null junk n) as (sd & Es & Hrep); [unfold MAX_TEXT in Hn; lia|]. eapply wp_bind, wp_lift; [exact Es|].
  step alloc_sim; [exact HS|done|]. intros id st1 (-> & -> & HS1 & _ & H0). set (o := createObject OBJ_STRING (PSds sd)) in *. set (st1 := set_heap _ _ _) in *.
  assert (obj_text o (zrep n 0)) as Ho by (by apply (text_sds _ _ sd)). destruct (new_facts _ st1 c (Heap (next st)) HS1) as (Hu & H1 & _); [by intros m [= <-]|].
  step dbAdd_ok; [exact HS1|exact Ek|instantiate (1 := VStr (zrep n 0)); by apply text_of_new|exact Hu|exact H1|]. intros _ st2 (HS2 & ->). apply wp_ret. eexists. split_and!; [done| |cbn; apply lookup_insert_eq|].
  - eapply Sim_ext; [|exact HS2]. intros m. unfold bump, settled. lia.
  - exists (next st), o, sd. split_and!; [done| |cbn; apply lookup_insert_eq|done..]. unfold refs in *. cbn -[one] in *. rewrite drefs_insert by done. rewrite one_same. lia.
Qed.

Lemma setrange_refines n k off v : (forall z, string2ll off = Some z -> z + zlen v < 2 ^ 63) -> refines now (setrangeCommand junk now) [n; k; off; v] (fun m => spec_setrange m k off v).
Proof.
  intros Hof st c HS Ha. unfold setrangeCommand, spec_setrange. step arg_text_ok; [exact HS|by rewrite Ha|]. intros ? ? [-> ->]. step long_arg_ok; [exact HS|by rewrite Ha|]. intros r st0 [-> H0].
  destruct (string2ll off) as [z|] eqn:Ez; [subst st0|apply wp_ret; by apply finish_unchanged]. specialize (Hof z eq_refl). destruct (Z.ltb_spec z 0); [apply reply_unchanged; [apply replies_error|done]|]. pose proof (zlen_nonneg v).
  step arg_text_ok; [exact HS|by rewrite Ha|]. intros ? ? [-> ->]. step write_ok; [exact HS|]. intros r st1 (HS1 & _ & Hr). destruct (kv c !! k) as [[[t|] e]|] eqn:Ev.
  - destruct Hr as (id & -> & Ek & Hx & _). assert (zlen t <= MAX_TEXT) as Hz by apply Hx.
    eapply (wp_step _ _ (fun r st' => if zlen v =? 0 then r = None /\ Sim now settled st' (says c (int_reply (zlen t))) else if z + zlen v <=? MAX_TEXT then exists id', r = Some id' /\ Sim now settled st' c /\ dict st' !! k = Some id' /\ writable st' id' t else r = None /\ Sim now settled st' (says c too_long))).
    + step checkType_ok; [exact HS1|exact Hx|]. intros b st2 [-> ->]. eapply wp_bind, fetch_text; [exact Hx|]. intros o Ho. eapply wp_bind, wp_lift; [by apply stringObjectLen_ok|]. destruct (zlen v =? 0).
      * step (@replies_sim now unit); [apply replies_int; by eapply text_bound|exact HS1|]. intros _ st2 (_ & HS2 & _). by apply wp_ret.
      * step checkStringLength_ok; [exact HS1|lia|]. intros b st2 [-> H2]. destruct (z + zlen v <=? MAX_TEXT); cbn [negb]; [subst st2|by apply wp_ret]. step dbUnshare_ok; [exact HS1|exact Ek|exact Ev|]. intros id' st2 (HS2 & Ek2 & _ & Hw). apply wp_ret. by exists id'.
    + intros r st2 Hr. destruct (Z.eqb_spec (zlen v) 0); [destruct Hr as [-> HS2]; apply wp_ret; by apply finish_unchanged|].
      destruct (Z.leb_spec (z + zlen v) MAX_TEXT) as [Hle|Hgt]; [rewrite (proj2 (Z.ltb_ge MAX_TEXT (z + zlen v))) by lia|rewrite (proj2 (Z.ltb_lt MAX_TEXT (z + zlen v))) by lia; destruct Hr as [-> HS2]; apply wp_ret; by apply finish_unchanged].
      destruct Hr as (id' & -> & HS2 & Ek2 & Hw). apply (setrange_store_ok st2 c c k id' t e z v); (done || lia).
  - destruct Hr as (id & -> & _ & Hx & _). apply (wp_step _ _ (fun r st' => r = None /\ Sim now settled st' (says c reply_wrongtype))); [|intros r st2 [-> HS2]; apply wp_ret; by apply finish_unchanged].
    step checkType_ok; [exact HS1|exact Hx|]. intros b st2 [-> HS2]. by apply wp_ret.
  - destruct Hr as (-> & Ek & _). change (zlen (@nil Z)) with 0. destruct (Z.eqb_spec (zlen v) 0) as [|Hv].
    + apply (wp_step _ _ (fun r st' => r = None /\ Sim now settled st' (says c reply_czero))); [step addReplyString_sim; [exact HS1|]; intros _ st2 HS2; by apply wp_ret|]. intros r st2 [-> HS2]. apply wp_ret. by apply finish_unchanged.
    + destruct (Z.ltb_spec MAX_TEXT (z + zlen v)).
      * apply (wp_step _ _ (fun r st' => r = None /\ Sim now settled st' (says c too_long))); [|intros r st2 [-> HS2]; apply wp_ret; by apply finish_unchanged].
        step checkStringLength_ok; [exact HS1|lia|]. intros b st2 [-> H2]. rewrite (proj2 (Z.leb_gt _ _)) in * by done. by apply wp_ret.
      * eapply (wp_step _ _ (fun r st' => exists id, r = Some id /\ Sim now settled st' (with_kv c (<[k := (VStr (zrep (z + zlen v) 0), None)]> (kv c))) /\ dict st' !! k = Some id /\ writable st' id (zrep (z + zlen v) 0))).
        { step checkStringLength_ok; [exact HS1|lia|]. intros b st2 [-> H2]. rewrite (proj2 (Z.leb_le _ _)) in * by done. subst st2. cbn [negb]. unfold MAX_TEXT in *. rewrite uwrap_id by (unfold in_u; lia). apply add_zeroed_ok; [done..|unfold MAX_TEXT; lia]. }
        intros r st2 (id & -> & HS2 & Ek2 & Hw). pose proof (setrange_store_ok st2 _ c k id _ None z v HS2 Ek2 (lookup_insert_eq _ _ _) Hw) as Hs. cbn [kv with_kv] in Hs. rewrite insert_insert_eq, overwrite_zeros in Hs by done.
        apply Hs; [rewrite zlen_zrep; unfold MAX_TEXT in *; lia|done|lia|done..].
Qed.

(** *** SET and its variants *)

Lemma has_lor a b f : has (Z.lor a b) f = has a f || has b f.
Proof.
  unfold has. rewrite Z.land_lor_distr_l. destruct (Z.eqb_spec (Z.land a f) 0) as [E1|E1], (Z.eqb_spec (Z.land b f) 0) as [E2|E2]; cbn.
  - by rewrite E1, E2.
  - apply negb_true_iff, Z.eqb_neq. intros E. apply Z.lor_eq_0_iff in E. tauto.
  - apply negb_true_iff, Z.eqb_neq. intros E. apply Z.lor_eq_0_iff in E. tauto.
  - apply negb_true_iff, Z.eqb_neq. intros E. apply Z.lor_eq_0_iff in E. tauto.
Qed.

Lemma tolower_is x c : 97 <= c <= 122 -> (x =? c) || (x =? c - 32) = (tolower x =? c).
Proof. intros Hc. unfold tolower, isupper. destruct (Z.eqb_spec x c), (Z.eqb_spec x (c - 32)); cbn; case_match; lia. Qed.

Lemma opt_is_ok s o c0 c1 : repr s o -> 97 <= c0 <= 122 -> 97 <= c1 <= 122 -> opt_is (buf s) c0 c1 = Ok (option_is o [c0; c1]).
Proof.
  intros [_ _ (free & -> & _)] H0 H1. unfold opt_is, option_is.  destruct o as [|x o].
  - rewrite (peek_app [] 0 free 0) by done. cbn [mbind res_bind]. rewrite tolower_is by done. change (tolower 0) with 0. rewrite (proj2 (Z.eqb_neq 0 c0)) by lia. cbn. by rewrite bool_decide_eq_false_2.
  - rewrite (peek_app [] x (o ++ 0 :: free) 0 eq_refl : peek ((x :: o) ++ 0 :: free) 0 = Ok x). cbn [mbind res_bind]. rewrite tolower_is by done. destruct (Z.eqb_spec (tolower x) c0) as [E0|N0]; cbn [negb].
    2:{ rewrite bool_decide_eq_false_2; [done|]. cbn [cstring]. destruct (Z.eqb_spec x 0); [done|]. intros [= E _]. by rewrite E in N0. }
    assert (x <> 0) as Hx by (intros ->; change (tolower 0) with 0 in E0; lia). destruct o as [|y o].
    + rewrite (peek_app [x] 0 free 1 eq_refl). cbn [mbind res_bind]. rewrite tolower_is by done. change (tolower 0) with 0. rewrite (proj2 (Z.eqb_neq 0 c1)) by lia. cbn [negb]. rewrite bool_decide_eq_false_2; [done|]. cbn. by rewrite (proj2 (Z.eqb_neq x 0)).
    + rewrite (peek_app [x] y (o ++ 0 :: free) 1 eq_refl : peek ((x :: y :: o) ++ 0 :: free) 1 = Ok y). cbn [mbind res_bind]. rewrite tolower_is by done. destruct (Z.eqb_spec (tolower y) c1) as [E1|N1]; cbn [negb].
      2:{ rewrite bool_decide_eq_false_2; [done|]. cbn [cstring]. rewrite (proj2 (Z.eqb_neq x 0)) by done. destruct (Z.eqb_spec y 0); [done|]. intros [= _ E _]. by rewrite E in N1. }
      assert (y <> 0) as Hy by (intros ->; change (tolower 0) with 0 in E1; lia). cbn [cstring]. rewrite (proj2 (Z.eqb_neq x 0)), (proj2 (Z.eqb_neq y 0)) by done. destruct o as [|w o].
      * rewrite (peek_app [x; y] 0 free 2 eq_refl). cbn [mbind res_bind cstring map]. by rewrite E0, E1, bool_decide_eq_true_2.
      * rewrite (peek_app [x; y] w (o ++ 0 :: free) 2 eq_refl : peek ((x :: y :: w :: o) ++ 0 :: free) 2 = Ok w). cbn [mbind res_bind cstring]. destruct (Z.eqb_spec w 0) as [->|Hw]; cbn [map]; [by rewrite E0, E1, bool_decide_eq_true_2|]. rewrite bool_decide_eq_false_2; done.
Qed.

(** The position of the time among the arguments stands for its text. *)
Definition time_at (args : list (list Z)) (expire : option nat) (seconds : bool) (ex : option (list Z * bool)) : Prop :=
  match expire, ex with
  | None, None => True
  | Some i, Some (t, s) => args !! i = Some t /\ s = seconds
  | _, _ => False
  end.
Definition flags_for (flags : Z) (nx xx : bool) (ex : option (list Z * bool)) : Prop :=
  has flags OBJ_SET_NX = nx /\ has flags OBJ_SET_XX = xx /\ has flags OBJ_SET_EX = match ex with Some (_, true) => true | _ => false end /\ has flags OBJ_SET_PX = match ex with Some (_, false) => true | _ => false end.

Lemma flags_for_nx flags xx nx ex : flags_for flags nx xx ex -> flags_for (Z.lor flags OBJ_SET_NX) true xx ex.
Proof. intros (<- & <- & E1 & E2). unfold flags_for. rewrite !has_lor, E1, E2. change (has OBJ_SET_NX _) with true at 1. rewrite orb_true_r, !orb_false_r. done. Qed.
Lemma flags_for_xx flags xx nx ex : flags_for flags nx xx ex -> flags_for (Z.lor flags OBJ_SET_XX) nx true ex.
Proof. intros (<- & <- & E1 & E2). unfold flags_for. rewrite !has_lor, E1, E2. change (has OBJ_SET_XX OBJ_SET_XX) with true. rewrite orb_true_r, !orb_false_r. done. Qed.
Lemma flags_for_ex flags xx nx ex t : flags_for flags nx xx ex -> has flags OBJ_SET_PX = false -> flags_for (Z.lor flags OBJ_SET_EX) nx xx (Some (t, true)).
Proof. intros (<- & <- & E1 & E2) E3. unfold flags_for. rewrite !has_lor, E3. change (has OBJ_SET_EX OBJ_SET_EX) with true. rewrite orb_true_r, !orb_false_r. done. Qed.
Lemma flags_for_px flags xx nx ex t : flags_for flags nx xx ex -> has flags OBJ_SET_EX = false -> flags_for (Z.lor flags OBJ_SET_PX) nx xx (Some (t, false)).
Proof. intros (<- & <- & E1 & E2) E3. unfold flags_for. rewrite !has_lor, E3. change (has OBJ_SET_PX OBJ_SET_PX) with true. rewrite orb_true_r, !orb_false_r. done. Qed.

Definition options_ok (args : list (list Z)) (c : config) (sp : option (bool * bool * option (list Z * bool))) (r : option (Z * option nat * bool)) (st' : server) : Prop :=
  match sp, r with
  | None, None => Sim now settled st' (says c reply_syntaxerr)
  | Some (nx, xx, ex), Some (flags, expire, seconds) => flags_for flags nx xx ex /\ time_at args expire seconds ex /\ Sim now settled st' c
  | _, _ => False
  end.

Lemma drop_past {A} (l : list A) j : (length l <= j)%nat -> drop j l = [].
Proof. apply drop_ge. Qed.

Lemma set_options_ok args c st fuel : Sim now settled st c -> aargs c = fresh args -> forall j flags expire seconds nx xx ex,
  (length args <= fuel + j)%nat -> flags_for flags nx xx ex -> time_at args expire seconds ex ->
  wp (set_options fuel j flags expire seconds) (options_ok args c (spec_options (drop j args) nx xx ex)) st.
Proof.
  intros HS Ha. induction fuel as [|fuel IH]; intros j flags expire seconds nx xx ex Hj Hfl Ht; cbn [set_options]; apply wp_bind, wp_gets; rewrite (argc_fresh _ _ _ _ HS Ha).
  - rewrite (proj2 (Nat.leb_le _ _)) by lia. apply wp_ret. rewrite drop_past by lia. done.
  - destruct (Nat.leb_spec (length args) j) as [Hge|Hlt]; [apply wp_ret; rewrite drop_past by lia; done|].
    destruct (drop j args) as [|o rest] eqn:Ed; [apply (f_equal length) in Ed; rewrite length_drop in Ed; cbn in Ed; lia|]. apply drop_here in Ed as [Eo Ed].
    destruct (arg_lookup now _ st c j o Fresh HS ltac:(by eapply fresh_lookup)) as (id & Ea & [_ Htx] & nn & ob & -> & _ & Eob & He). destruct Htx as (ob' & Eob' & Hob). assert (ob' = ob) as -> by congruence. cbn [fst] in Hob.
    destruct Hob as [sd _ _ Hp Hrep|vv _ Hi _ _ _]; [|by rewrite sdsEncoded_int in He]. eapply wp_bind, arg_wp; [exact Ea|]. eapply wp_bind, fetch_heap; [exact Eob|]. eapply wp_bind, wp_lift; [unfold as_sds; by rewrite Hp|].
    destruct Hfl as (F1 & F2 & F3 & F4) eqn:EF; clear EF. cbn [spec_options].
    eapply wp_bind, wp_lift; [by apply opt_is_ok|cbv beta zeta]. rewrite F2. change (str "nx") with [110; 120]. destruct (option_is o [110; 120] && negb xx) eqn:C1.
    { rewrite <- Ed. apply IH; [lia|by eapply flags_for_nx|done]. }
    eapply wp_bind, wp_lift; [by apply opt_is_ok|cbv beta zeta]. rewrite F1. change (str "xx") with [120; 120]. destruct (option_is o [120; 120] && negb nx) eqn:C2.
    { rewrite <- Ed. apply IH; [lia|by eapply flags_for_xx|done]. }
    eapply wp_bind, wp_lift; [by apply opt_is_ok|cbv beta zeta]. rewrite F4. change (str "ex") with [101; 120]. 
    assert (negb (j =? length args - 1)%nat = bool_decide (rest <> [])) as Hnext. { subst rest. case_bool_decide as Hd; [apply negb_true_iff, Nat.eqb_neq|apply negb_false_iff, Nat.eqb_eq]; [intros ->; apply Hd, drop_past; lia|]. apply (f_equal length) in Hd. rewrite length_drop in Hd. cbn in Hd. lia. }
    rewrite Hnext. destruct rest as [|t rest].
    + rewrite (bool_decide_eq_false_2 ([] <> [])) by tauto. rewrite !andb_false_r. eapply wp_bind, wp_lift; [by apply opt_is_ok|cbv beta zeta]. rewrite andb_false_r. step addReplyString_sim; [exact HS|]. intros _ st1 HS1. by apply wp_ret.
    + rewrite (bool_decide_eq_true_2 (t :: rest <> [])) by done. rewrite andb_true_r. apply drop_here in Ed as [Et Ed]. destruct (option_is o [101; 120] && _) eqn:C3.
      { rewrite <- Ed. apply andb_true_iff in C3 as [_ C3]. apply negb_true_iff in C3. apply IH; [lia|by eapply flags_for_ex; [split_and!|congruence]|done]. }
      eapply wp_bind, wp_lift; [by apply opt_is_ok|cbv beta zeta]. rewrite F3, andb_true_r. change (str "px") with [112; 120]. destruct (option_is o [112; 120] && _) eqn:C4.
      { rewrite <- Ed. apply andb_true_iff in C4 as [_ C4]. apply negb_true_iff in C4. apply IH; [lia|by eapply flags_for_px; [split_and!|congruence]|done]. }
      step addReplyString_sim; [exact HS|]. intros _ st1 HS1. by apply wp_ret.
Qed.

Lemma replies_error_format x st : replies (addReplyErrorFormat x) tt (err_reply (one_line x)) st.
Proof. apply replies_error. Qed.

(** The conditional lookups of SET. *)
Lemma stop_ok st c k flags nx xx : Sim now settled st c -> has flags OBJ_SET_NX = nx /\ has flags OBJ_SET_XX = xx ->
  wp (stop ← (if has flags OBJ_SET_NX then o ← lookupKeyWrite now k; mret (bool_decide (is_Some o)) else mret false);
      if stop : bool then mret true else if has flags OBJ_SET_XX then o ← lookupKeyWrite now k; mret (negb (bool_decide (is_Some o))) else mret false)
     (fun b st' => b = nx && bool_decide (is_Some (kv c !! k)) || xx && negb (bool_decide (is_Some (kv c !! k))) /\ Sim now settled st' c /\ argv st' = argv st) st.
Proof.
  intros HS (-> & ->).
  assert (forall st, Sim now settled st c -> wp (lookupKeyWrite now k) (fun o st' => bool_decide (is_Some o) = bool_decide (is_Some (kv c !! k)) /\ Sim now settled st' c /\ argv st' = argv st) st) as Hl.
  { intros s Hs. eapply wp_mono; [by apply write_ok|]. cbn beta. intros o st' (HS' & Ea & Ho). split_and!; [|done..]. apply bool_decide_ext. destruct (kv c !! k) as [[x e]|]; [destruct Ho as (id & -> & _); split; by eexists|by destruct Ho as [-> _]]. }
  apply (wp_step _ _ (fun b st' => b = nx && bool_decide (is_Some (kv c !! k)) /\ Sim now settled st' c /\ argv st' = argv st)).
  - destruct nx; [|by apply wp_ret]. step Hl; [exact HS|]. intros o st' (E & HS' & Ea). by apply wp_ret.
  - intros b st1 (-> & HS1 & Ea1). destruct (nx && _); [by apply wp_ret|]. destruct xx; [|by apply wp_ret]. step Hl; [exact HS1|]. intros o st' (E & HS' & Ea). apply wp_ret. rewrite E. split_and!; [done|done|congruence].
Qed.

Lemma set_generic_ok name flags kp vp expire seconds okr abort nx xx ex args st c k v : Sim now settled st c -> aargs c !! kp = Some (k, Fresh) -> aargs c !! vp = Some (v, Own) ->
  (forall i t, args !! i = Some t -> expire = Some i -> exists s, aargs c !! i = Some (t, s)) -> has flags OBJ_SET_NX = nx /\ has flags OBJ_SET_XX = xx -> time_at args expire seconds ex ->
  wp (setGenericCommand now name flags kp vp expire seconds okr abort)
     (fun _ st' => exists a, Sim now settled st' (with_args (apply_outcome c (spec_write now name nx xx ex okr abort (kv c) k v)) a)) st.
Proof.
  intros HS Ek Ev Hargs Hfl Ht. unfold setGenericCommand, spec_write. step arg_text_ok; [exact HS|exact Ek|]. intros ? ? [-> ->]. destruct (arg_lookup now _ st c vp v Own HS Ev) as (id & Ea & _). eapply wp_bind, arg_wp; [exact Ea|].
  set (write := spec_put now nx xx okr abort (kv c) k v). assert (forall ms : option Z, (is_Some ms <-> is_Some expire) ->
    wp (stop ← (if has flags OBJ_SET_NX then o ← lookupKeyWrite now k; mret (bool_decide (is_Some o)) else mret false);
        stop ← (if stop : bool then mret true else if has flags OBJ_SET_XX then o ← lookupKeyWrite now k; mret (negb (bool_decide (is_Some o))) else mret false);
        if stop : bool then addReplyString abort else
        _ ← setKey now k id; _ ← add_dirty 1; _ ← match expire with None => mret tt | Some _ => setExpire k (i64 (now + default 0 ms)) end; addReplyString okr)
       (fun _ st' => exists a, Sim now settled st' (with_args (apply_outcome c (write ms)) a)) st) as Hwrite.
  { intros ms Hms. apply wp_assoc. eapply wp_step; [by eapply stop_ok|]. cbn beta. intros b st1 (-> & HS1 & Ea1). unfold write, spec_put. destruct (nx && _ || _) eqn:Eb; [by apply reply_unchanged|].
    step setKey_ok; [exact HS1|exact Ev|by rewrite Ea1|]. intros _ st2 HS2. step add_dirty_sim; [exact HS2|]. intros _ st3 HS3. destruct ms as [ms|], expire as [i|]; [|by destruct Hms as [[] _]; eauto|by destruct Hms as [_ []]; eauto|].
    - step setExpire_ok; [exact HS3|cbn; apply lookup_insert_eq|]. intros _ st4 (HS4 & _). eapply wp_mono; [by apply addReplyString_sim|]. cbn beta. intros _ st5 HS5. eapply finish; [exact HS5| |done..]. cbn. unfold put. destruct (expiredb now _); [apply delete_insert_eq|apply insert_insert_eq].
    - apply wp_bind, wp_ret. eapply wp_mono; [by apply addReplyString_sim|]. cbn beta. intros _ st5 HS5. by eapply finish. }
  destruct expire as [i|], ex as [[w s]|]; cbn in Ht; try done.
  - destruct Ht as [Ei ->]. destruct (Hargs i w Ei eq_refl) as (sx & Eai). eapply wp_bind. step long_arg_ok; [exact HS|exact Eai|]. intros r st1 [-> H1]. destruct (string2ll w) as [x|] eqn:Ex; [subst st1|apply wp_ret, wp_ret; by apply finish_unchanged].
    destruct (x <=? 0).
    + step (@replies_sim now unit); [apply replies_error_format|exact HS|]. intros _ st1 (_ & HS1 & _). apply wp_ret, wp_ret. by apply finish_unchanged.
    + apply wp_ret. apply (Hwrite (Some _)). split; by eexists.
  - apply wp_bind, wp_ret. apply (Hwrite None). split; by intros [].
Qed.

(** After the value has been encoded, the other arguments are as before. *)
Lemma encoded_args c args j t i u : aargs c = fresh args -> i <> j -> args !! i = Some u -> aargs (with_args c (<[j := (t, Own)]> (aargs c))) !! i = Some (u, Fresh).
Proof. intros Ha Hij E. cbn. rewrite list_lookup_insert_ne by congruence. by eapply fresh_lookup. Qed.
Lemma encoded_arg c args j t : aargs c = fresh args -> args !! j = Some t -> aargs (with_args c (<[j := (t, Own)]> (aargs c))) !! j = Some (t, Own).
Proof. intros Ha E. cbn. apply list_lookup_insert_eq. eapply lookup_lt_Some. by eapply fresh_lookup. Qed.

Lemma outcome_args c a o b : with_args (apply_outcome (with_args c a) o) b = with_args (apply_outcome c o) b.
Proof. by destruct o as [[m r] n]. Qed.

Lemma set_encoded_ok name flags vp expire seconds okr abort nx xx ex args st c k v :
  Sim now settled st c -> aargs c = fresh args -> args !! 1%nat = Some k -> args !! vp = Some v -> vp <> 1%nat -> has flags OBJ_SET_NX = nx /\ has flags OBJ_SET_XX = xx -> time_at args expire seconds ex ->
  wp (_ ← encode_arg junk private vp; setGenericCommand now name flags 1 vp expire seconds okr abort)
     (fun _ st' => exists a, Sim now settled st' (with_args (apply_outcome c (spec_write now name nx xx ex okr abort (kv c) k v)) a)) st.
Proof.
  intros HS Ha Ek Ev Hv Hfl Ht. step encode_arg_ok; [exact HS|by eapply fresh_lookup|]. intros _ st1 (HS1 & _). eapply wp_mono; [eapply (set_generic_ok _ _ _ _ _ _ _ _ nx xx ex args); [exact HS1|by eapply encoded_args|by eapply encoded_arg| |done|done]|].
  - intros i t Ei _. destruct (decide (i = vp)) as [->|Hi]; [exists Own; assert (t = v) as -> by congruence; by eapply encoded_arg|exists Fresh; by eapply encoded_args].
  - cbn beta. intros _ st2 (a & HS2). rewrite outcome_args in HS2. by exists a.
Qed.

Lemma set_refines n k v opts : refines now (setCommand junk private now) (n :: k :: v :: opts) (spec_set now (n :: k :: v :: opts)).
Proof.
  intros st c HS Ha. unfold setCommand, spec_set. apply wp_bind, wp_gets. rewrite (argc_fresh _ _ _ _ HS Ha). eapply wp_step; [apply (set_options_ok (n :: k :: v :: opts) c st _ HS Ha 3 OBJ_SET_NO_FLAGS None true false false None); [lia|done|done]|].
  cbn beta. change (drop 3 (n :: k :: v :: opts)) with opts. unfold options_ok. intros r st1 Hr. destruct (spec_options opts false false None) as [[[nx xx] ex]|], r as [[[flags expire] seconds]|]; try done.
  - destruct Hr as ((F1 & F2 & _) & Ht & HS1). by eapply (set_encoded_ok _ _ 2).
  - apply wp_ret. by apply finish_unchanged.
Qed.

Lemma setnx_refines n k v : refines now (setnxCommand junk private now) [n; k; v] (fun m => spec_write now (str "setnx") true false None reply_cone reply_czero m k v).
Proof. intros st c HS Ha. by eapply (set_encoded_ok _ _ 2). Qed.
Lemma setex_refines n k t v : refines now (setexCommand junk private now) [n; k; t; v] (fun m => spec_write now (str "setex") false false (Some (t, true)) reply_ok reply_nullbulk m k v).
Proof. intros st c HS Ha. by eapply (set_encoded_ok _ _ 3). Qed.
Lemma psetex_refines n k t v : refines now (psetexCommand junk private now) [n; k; t; v] (fun m => spec_write now (str "psetex") false false (Some (t, false)) reply_ok reply_nullbulk m k v).
Proof. intros st c HS Ha. by eapply (set_encoded_ok _ _ 3). Qed.

Lemma getset_refines n k v : refines now (getsetCommand junk private now) [n; k; v] (fun m => spec_getset m k v).
Proof.
  intros st c HS Ha. unfold getsetCommand. step get_generic_ok; [exact HS|by rewrite Ha|]. intros b st1 [HS1 ->]. set (c1 := says c _) in *. assert (aargs c1 = fresh [n; k; v]) as Ha1 by done. unfold spec_getset.
  assert (wp (_ ← encode_arg junk private 2; k ← arg_text 1; v ← arg 2; _ ← setKey now k v; add_dirty 1) (fun _ st' => exists a, Sim now settled st' (with_args (apply_outcome c (<[k := (VStr v, None)]> (kv c), spec_get (kv c) k, 1)) a)) st1) as Hset.
  { step encode_arg_ok; [exact HS1|by rewrite Ha1|]. intros _ st2 (HS2 & _). step arg_text_ok; [exact HS2|by eapply (encoded_args c1)|]. intros ? ? [-> ->]. destruct (arg_lookup now _ st2 _ 2 v Own HS2 ltac:(by eapply (encoded_arg c1))) as (id & Ea & _).
    eapply wp_bind, arg_wp; [exact Ea|]. step setKey_ok; [exact HS2|by eapply (encoded_arg c1)|exact Ea|]. intros _ st3 HS3. eapply wp_mono; [by apply add_dirty_sim|]. cbn beta. intros _ st4 HS4. by eapply finish. }
  destruct (kv c !! k) as [[[t|] e]|] eqn:Ev; cbn [negb]; [exact Hset| |exact Hset]. apply wp_ret. apply finish_unchanged. unfold c1, spec_get in HS1. by rewrite Ev in HS1.
Qed.

(** *** MSET *)

Lemma busy_loop_ok args kvs n : forall j busy st c, length kvs = (2 * n)%nat -> drop j args = kvs -> Sim now settled st c -> aargs c = fresh args ->
  wp (busy_loop now n j busy) (fun b st' => 0 <= b - busy /\ (b =? busy) = negb (spec_busy (kv c) kvs) /\ Sim now settled st' c) st.
Proof.
  revert kvs. induction n as [|n IH]; intros kvs j busy st c Hn Ed HS Ha; cbn [busy_loop].
  - apply wp_ret. destruct kvs; [|done]. cbn. split_and!; [lia|lia|done].
  - destruct kvs as [|k [|v kvs]]; [done|cbn in Hn; lia|]. apply drop_here in Ed as [Ek Ed]. apply drop_here in Ed as [Ev Ed]. step arg_text_ok; [exact HS|by eapply fresh_lookup|]. intros ? ? [-> ->]. step write_ok; [exact HS|]. intros r st1 (HS1 & _ & Hr).
    assert (bool_decide (is_Some r) = bool_decide (is_Some (kv c !! k))) as ->.
    { apply bool_decide_ext. destruct (kv c !! k) as [[x e]|]; [destruct Hr as (id & -> & _); split; by eexists|destruct Hr as [-> _]; done]. }
    cbn in Hn. eapply wp_mono; [apply (IH kvs); [lia|exact Ed|exact HS1|exact Ha]|]. cbn beta. intros b st2 (Hb & Eb & HS2). cbn [spec_busy]. destruct (bool_decide (is_Some (kv c !! k))); cbn [orb negb]; split_and!; (done || lia).
Qed.

Lemma mset_loop_ok kvs n : forall j (pre : list (list Z * argst)) st c, length kvs = (2 * n)%nat -> length pre = j -> Sim now settled st c -> aargs c = pre ++ fresh kvs ->
  wp (mset_loop junk private now n j) (fun _ st' => exists a, Sim now settled st' (with_kv (with_args c a) (spec_mset_pairs (kv c) kvs))) st.
Proof.
  revert kvs. induction n as [|n IH]; intros kvs j pre st c Hn Hj HS Ha; cbn [mset_loop].
  - apply wp_ret. destruct kvs; [|done]. exists (aargs c). cbn. by destruct c.
  - destruct kvs as [|k [|v kvs]]; [done|cbn in Hn; lia|]. subst j. cbn [fresh map] in Ha.
    assert (aargs c !! length pre = Some (k, Fresh)) as Ek by (rewrite Ha; by rewrite lookup_app_r, Nat.sub_diag by lia). assert (aargs c !! S (length pre) = Some (v, Fresh)) as Ev by (rewrite Ha, lookup_app_r by lia; by replace (S (length pre) - length pre)%nat with 1%nat by lia).
    step encode_arg_ok; [exact HS|exact Ev|]. intros _ st1 (HS1 & _). set (c1 := with_args c _) in *. assert (aargs c1 !! length pre = Some (k, Fresh)) as Ek1 by (cbn; by rewrite list_lookup_insert_ne by lia). assert (aargs c1 !! S (length pre) = Some (v, Own)) as Ev1 by (cbn; apply list_lookup_insert_eq; by eapply lookup_lt_Some).
    step arg_text_ok; [exact HS1|exact Ek1|]. intros ? ? [-> ->]. destruct (arg_lookup now _ st1 c1 _ v Own HS1 Ev1) as (id & Ea & _). eapply wp_bind, arg_wp; [exact Ea|]. step setKey_ok; [exact HS1|exact Ev1|exact Ea|]. intros _ st2 HS2. cbn [spec_mset_pairs].
    eapply wp_mono; [apply (IH kvs _ (pre ++ [(k, Fresh); (v, Used)])); [cbn in Hn; lia|rewrite length_app; cbn; lia|exact HS2|]|].
    + cbn. rewrite Ha. unfold fresh. rewrite !insert_app_r_alt by lia. replace (S (length pre) - length pre)%nat with 1%nat by lia. cbn. by rewrite <- app_assoc.
    + cbn beta. intros _ st3 (a & HS3). exists a. exact HS3.
Qed.

Lemma mset_refines nx n kvs : refines now (msetGenericCommand junk private now nx) (n :: kvs) (fun m => spec_mset nx m kvs).
Proof.
  intros st c HS Ha. unfold msetGenericCommand, spec_mset. apply wp_bind, wp_gets. rewrite (argc_fresh _ _ _ _ HS Ha). cbn [length]. rewrite Nat.even_succ, <- Nat.negb_even. destruct (Nat.even (length kvs)) eqn:Ee; cbn [negb]; [|apply reply_unchanged; [apply replies_error|done]].
  apply Nat.even_spec in Ee as [p Ep]. rewrite Nat.sub_succ, Nat.sub_0_r. assert (length kvs / 2 = p)%nat as Hp by (rewrite Ep, Nat.mul_comm; by apply Nat.div_mul). rewrite Hp.
  apply (wp_step _ _ (fun b st' => (b =? 0) = negb (nx && spec_busy (kv c) kvs) /\ Sim now settled st' c)).
  - destruct nx; [|by apply wp_ret]. eapply wp_mono; [by apply (busy_loop_ok (n :: kvs) kvs p 1 0)|]. cbn beta. intros b st1 (_ & E & HS1). done.
  - intros b st1 [-> HS1]. rewrite negb_involutive. destruct (nx && _); [by apply reply_unchanged|]. step (mset_loop_ok kvs p 1 [(n, Fresh)]); [done|done|exact HS1|exact Ha|]. intros _ st2 (a & HS2). step add_dirty_sim; [exact HS2|]. intros _ st3 HS3.
    eapply wp_mono; [by apply addReplyString_sim|]. cbn beta. intros _ st4 HS4. by eapply finish.
Qed.

(** *** EXPIRE and RENAME *)

Lemma expire_refines n k w base seconds : refines now (expireGenericCommand now base seconds) [n; k; w] (fun m => spec_expire now m k w base seconds).
Proof.
  intros st c HS Ha. unfold expireGenericCommand, spec_expire. step arg_text_ok; [exact HS|by rewrite Ha|]. intros ? ? [-> ->]. step long_arg_ok; [exact HS|by rewrite Ha|]. intros r st1 [-> H1]. destruct (string2ll w) as [z|]; [subst st1|apply wp_ret; by apply finish_unchanged].
  set (when := i64 _). step write_ok; [exact HS|]. intros r st1 (HS1 & _ & Hr). destruct (kv c !! k) as [[x e]|] eqn:Ev; [|destruct Hr as [-> _]; by apply reply_unchanged]. destruct Hr as (id & -> & Ek & _). destruct (Z.leb_spec when now) as [Hle|Hgt].
  - step dbSyncDelete_ok; [apply mild_settled|exact HS1|]. intros b st2 (HS2 & _ & -> & _). rewrite Ek. eapply wp_bind, wp_lift; [done|]. step add_dirty_sim; [exact HS2|]. intros _ st3 HS3. set (c3 := dirties _ _) in *.
    assert (aargs c3 !! 1%nat = Some (k, Fresh)) as E1 by (cbn; by rewrite Ha). apply wp_bind, wp_gets. destruct (arg_lookup now _ st3 c3 1 k Fresh HS3 E1) as (kid & Ea & _). eapply wp_bind, arg_wp; [exact Ea|].
    step rewrite_del_ok; [exact HS3|exact E1|by left|exact Ea|]. intros _ st4 HS4. eapply wp_mono; [by apply addReplyString_sim|]. cbn beta. intros _ st5 HS5. by eapply finish.
  - step setExpire_ok; [exact HS1|exact Ev|]. intros _ st2 (HS2 & _). unfold put, expiredb in HS2. rewrite (proj2 (Z.ltb_ge when now)), andb_false_r in HS2 by lia. step addReplyString_sim; [exact HS2|]. intros _ st3 HS3.
    eapply wp_mono; [by apply add_dirty_sim|]. cbn beta. intros _ st4 HS4. by eapply finish.
Qed.

Lemma mild_bump id : mild (bump id 1 settled).
Proof. intros n. unfold bump, settled. pose proof (one_range id n). lia. Qed.

(** Adding the new key first and deleting the old one last is the same as the other way
    round: the held reference keeps the value alive. *)
Lemma move_commute k k2 id w st : k <> k2 -> dict st !! k = Some id -> dict st !! k2 = None ->
  (_ ← dbAdd k2 id; _ ← (if negb (w =? -1) then setExpire k2 w else mret tt); dbSyncDelete k) st =
  (b ← dbSyncDelete k; _ ← dbAdd k2 id; _ ← (if negb (w =? -1) then setExpire k2 w else mret tt); mret b) st.
Proof.
  intros Hk Ek Ek2.
  assert (forall s v, dict s !! k2 = None -> dbAdd k2 v s = Ok (set_dict s (<[k2 := v]> (dict s)), tt)) as Hadd by (intros s v E; unfold dbAdd, dbExists, gets, mbind, ST_bind, lift; cbn; by rewrite E).
  assert (forall s, dict s !! k = Some id -> dbSyncDelete k s = match decr_heap id (heap s) with Ok h => Ok (set_heap (set_dict (set_expires s (base.delete k (expires s))) (base.delete k (dict s))) h (next s), true) | Fault f => Fault f end) as Hdel.
  { intros s E. unfold dbSyncDelete, dict_delete, gets, modify, mbind, ST_bind, mret, ST_ret. cbn. rewrite E, decr_heap_eq. cbn. by destruct (decr_heap id (heap s)). }
  assert (forall s v, dict s !! k2 = Some v -> (if negb (w =? -1) then setExpire k2 w else mret tt) s = Ok (if negb (w =? -1) then set_expires s (<[k2 := w]> (expires s)) else s, tt)) as Hexp.
  { intros s v E. destruct (negb _); [|done]. unfold setExpire, dbExists, gets, modify, mbind, ST_bind, lift. by rewrite E. }
  unfold mbind at 1 2 3 4 5. unfold ST_bind. rewrite Hadd, Hdel by done. erewrite (Hexp (set_dict _ _)) by (cbn; apply lookup_insert_eq). rewrite Hdel by (destruct (negb _); cbn; by rewrite lookup_insert_ne).
  replace (heap (if negb (w =? -1) then _ else _)) with (heap st) by (by destruct (negb _)). destruct (decr_heap id (heap st)) as [h|]; [|done].
  rewrite Hadd by (cbn; by rewrite lookup_delete_ne). erewrite Hexp by (cbn; apply lookup_insert_eq). unfold mret, ST_ret. destruct (negb _); cbn; unfold set_heap, set_dict, set_expires; cbn; rewrite ?delete_insert_ne by done; done.
Qed.

(** Moving the held value to a key that is free. *)
Lemma rename_move_ok st c k k2 id x e : k <> k2 -> Sim now (bump id 1 settled) st c -> dict st !! k = Some id -> kv c !! k = Some (x, e) -> dict st !! k2 = None ->
  wp (_ ← dbAdd k2 id; _ ← (if negb (default (-1) e =? -1) then setExpire k2 (default (-1) e) else mret tt); dbSyncDelete k)
     (fun _ st' => Sim now settled st' (with_kv c (base.delete k (<[k2 := (x, if bool_decide (e = Some (-1)) then None else e)]> (kv c))))) st.
Proof.
  intros Hk HS Ek Ev Ek2. destruct (key_present now _ st c k x e HS Ev) as (Ee & Hne & id' & Ek' & Hx & Hl). assert (id' = id) as -> by congruence. pose proof (sim_owned _ _ _ _ HS) as Ho.
  assert (forall n, id = Heap n -> refs st n - 1 <= 1 /\ drefs n (dict st) = 1 /\ n <> shared_del st) as Hone.
  { intros n ->. pose proof (own_few _ _ Ho n). pose proof (own_inj _ _ Ho n). pose proof (drefs_lookup n _ k Ek). split_and!; [lia|lia|]. intros ->. pose proof (own_del _ _ Ho). lia. }
  assert (wp (b ← dbSyncDelete k; _ ← dbAdd k2 id; _ ← (if negb (default (-1) e =? -1) then setExpire k2 (default (-1) e) else mret tt); mret b)
    (fun _ st' => Sim now settled st' (with_kv c (base.delete k (<[k2 := (x, if bool_decide (e = Some (-1)) then None else e)]> (kv c))))) st) as Hw; [|unfold wp in *; by rewrite move_commute].
  step dbSyncDelete_ok; [apply mild_bump|exact HS|]. intros b st1 (HS1 & (A1 & S1 & _) & _ & _ & _ & D1 & Hk1). set (c1 := with_kv c (base.delete k (kv c))) in *.
  assert (forall n, id = Heap n -> drefs n (dict st1) = 0 /\ refs st1 n <= 1 /\ n <> shared_del st1) as Hone1.
  { intros n E. destruct (Hone n E) as (H1 & H2 & H3). unfold refs in *. rewrite A1, S1, D1 in *. rewrite (drefs_delete n _ k id Ek), E, one_same. split_and!; [lia|lia|done]. }
  assert (forall n, id = Heap n -> is_Some (heap st1 !! n)) as Hl1 by (intros n ->; apply (owned_live st1 _ n (sim_owned _ _ _ _ HS1)); right; unfold bump, settled; rewrite one_same; lia).
  step dbAdd_ok; [exact HS1|by rewrite D1, lookup_delete_ne|by eapply val_of_kept| |exact Hone1|].
  - intros j n a -> Ej Ea. rewrite A1 in Ej. pose proof (refs_dict_argv st k j n Ek Ej). destruct (Forall2_lookup_lr _ _ _ _ _ _ (sim_args _ _ _ _ HS) Ej Ea) as [_ Hs]. destruct a as [t []]; cbn in *; [destruct Hs as (m & o & [= <-] & Hr & _); lia|specialize (Hs n eq_refl); lia|done].
  - intros _ st2 (HS2 & _). assert (Sim now settled st2 (with_kv c1 (<[k2 := (x, None)]> (kv c1)))) as HS3 by (eapply Sim_ext; [|exact HS2]; intros n; unfold bump, settled; lia).
    assert (base.delete k (<[k2 := (x, if bool_decide (e = Some (-1)) then None else e)]> (kv c)) = <[k2 := (x, if bool_decide (e = Some (-1)) then None else e)]> (kv c1)) as -> by (cbn; by rewrite delete_insert_ne).
    destruct e as [w|]; cbn [default from_option]; unfold Datatypes.id; [|apply wp_bind, wp_ret, wp_ret; by rewrite bool_decide_eq_false_2].
    destruct (Z.eqb_spec w (-1)) as [->|Hw]; cbn [negb]; [apply wp_bind, wp_ret, wp_ret; by rewrite bool_decide_eq_true_2|]. rewrite bool_decide_eq_false_2 by congruence.
    step setExpire_ok; [exact HS3|cbn; apply lookup_insert_eq|]. intros _ st3 (HS4 & _). apply wp_ret. unfold put in HS4. rewrite Hne in HS4. cbn in HS4. by rewrite insert_insert_eq in HS4.
Qed.

Lemma wp_assoc2 {A B C D} (m : M A) (f : A -> M B) (g : A -> B -> M C) (h : C -> M D) Q st :
  wp ((m ≫= (fun a => f a ≫= g a)) ≫= h) Q st -> wp (m ≫= (fun a => f a ≫= (fun b => g a b ≫= h))) Q st.
Proof. intros H. apply wp_bind. apply wp_assoc in H || idtac. unfold wp, mbind, ST_bind in *. destruct (m st) as [[s a]|]; [|done]. by destruct (f a s) as [[s' b]|]. Qed.

Lemma contents_cmp_is k k2 : zlen k <= MAX_TEXT -> zlen k2 <= MAX_TEXT -> (contents_cmp k k2 =? 0) = bool_decide (k = k2).
Proof. intros H1 H2. unfold MAX_TEXT in *. pose proof (contents_cmp_eq k k2 ltac:(lia) ltac:(lia)). case_bool_decide; [apply Z.eqb_eq; tauto|apply Z.eqb_neq; tauto]. Qed.

Lemma rename_refines nx n k k2 : refines now (renameGenericCommand now nx) [n; k; k2] (fun m => spec_rename nx m k k2).
Proof.
  intros st c HS Ha. unfold renameGenericCommand, spec_rename. assert (aargs c !! 1%nat = Some (k, Fresh) /\ aargs c !! 2%nat = Some (k2, Fresh)) as [E1 E2] by (by rewrite Ha).
  step arg_text_ok; [exact HS|exact E1|]. intros ? ? [-> ->]. step arg_text_ok; [exact HS|exact E2|]. intros ? ? [-> ->]. cbv zeta.
  rewrite contents_cmp_is; [|destruct (arg_lookup now _ st c 1 k Fresh HS E1) as (? & _ & [? _] & _); done|destruct (arg_lookup now _ st c 2 k2 Fresh HS E2) as (? & _ & [? _] & _); done].
  step write_ok; [exact HS|]. intros r st1 (HS1 & _ & Hr). destruct (kv c !! k) as [[x e]|] eqn:Ev; [|destruct Hr as [-> _]; by apply reply_unchanged]. destruct Hr as (id & -> & Ek & Hx & Ee & Hl). case_bool_decide as Hk; [by apply reply_unchanged|].
  step incr_sim; [exact HS1|exact Hl|intros; unfold settled; lia|]. intros _ st2 (HS2 & h & E2' & _). assert (dict st2 !! k = Some id /\ expires st2 !! k = e) as [Ek2 Ee2] by (by subst st2). clear E2'. step getExpire_ok; [exact HS2|]. intros w ? [-> ->]. rewrite Ee2.
  step lookupKeyWrite_ok; [apply mild_bump|exact HS2|]. intros r st3 (HS3 & (A3 & S3 & D3) & Er & Hr). assert (dict st3 !! k = Some id) as Ek3 by (rewrite D3; done).
  assert (forall st4 c4 k4, Sim now (bump id 1 settled) st4 c4 -> kv c4 = base.delete k2 (kv c) \/ kv c4 = kv c /\ kv c !! k2 = None -> aout c4 = aout c -> aclose c4 = aclose c -> adirty c4 = adirty c -> dict st4 !! k = Some id -> dict st4 !! k2 = None ->
    wp (_ ← dbAdd k2 id; _ ← (if negb (default (-1) e =? -1) then setExpire k2 (default (-1) e) else mret tt); _ ← dbSyncDelete k; _ ← add_dirty 1; addReplyString k4)
      (fun _ st' => exists a, Sim now settled st' (with_args (apply_outcome c (base.delete k (<[k2 := (x, if bool_decide (e = Some (-1)) then None else e)]> (kv c)), k4, 1)) a)) st4) as Hmove.
  { intros st4 c4 k4 HS4 Hkv O1 O2 O3 Ek4 Ek4'. assert (kv c4 !! k = Some (x, e)) as Ev4 by (destruct Hkv as [->|[-> _]]; [by rewrite lookup_delete_ne|done]).
    assert (forall y, base.delete k (<[k2 := y]> (kv c4)) = base.delete k (<[k2 := y]> (kv c))) as Ekv by (intros y; destruct Hkv as [->|[-> _]]; [by rewrite insert_delete_eq|done]).
    apply (wp_assoc2 (dbAdd k2 id) (fun _ => if negb (default (-1) e =? -1) then setExpire k2 (default (-1) e) else mret tt) (fun _ _ => dbSyncDelete k) (fun _ => _ ← add_dirty 1; addReplyString k4)).
    eapply wp_step; [by eapply rename_move_ok|]. cbn beta. intros _ st5 HS5. step add_dirty_sim; [exact HS5|]. intros _ st6 HS6. eapply wp_mono; [by apply addReplyString_sim|]. cbn beta. intros _ st7 HS7.
    eapply finish; [exact HS7|apply Ekv|cbn; by rewrite O1|done|cbn; by rewrite O3]. }
  destruct (kv c !! k2) as [[x2 e2]|] eqn:Ev2.
  - destruct Hr as [id2 ->]. destruct nx; cbn [andb].
    + apply (wp_step _ _ (fun b st' => b = true /\ Sim now settled st' (says c reply_czero))); [|intros b st4 [-> HS4]; apply wp_ret; by apply finish_unchanged].
      step decr_sim; [exact HS3|by eapply dict_live; [apply HS3|]|intros m ->; left; unfold bump, settled; rewrite one_same; lia|]. intros _ st4 (HS4 & _). step addReplyString_sim; [eapply Sim_ext; [|exact HS4]; intros m; apply bump_undo|]. intros _ st5 HS5. by apply wp_ret.
    + eapply (wp_step _ _ (fun b st' => b = false /\ Sim now (bump id 1 settled) st' (with_kv c (base.delete k2 (kv c))) /\ dict st' !! k = Some id /\ dict st' !! k2 = None)).
      * step dbSyncDelete_ok; [apply mild_bump|exact HS3|]. intros b st4 (HS4 & (_ & _ & D4) & _ & D5 & _). apply wp_ret. split_and!; [done|done|by rewrite D4|done].
      * intros b st4 (-> & HS4 & D4 & D5). eapply Hmove; [exact HS4|by left|done..].
  - destruct Hr as [-> _]. rewrite andb_false_r. apply wp_bind, wp_ret. eapply Hmove; [exact HS3|by right|done..].
Qed.
End Commands.
End StringCmdOps.
