(* ===== verification/BitCmdOps.v ===== *)
(** * The bit commands refine operations on lists of bits

    Specifications of SETBIT, GETBIT, BITOP, BITCOUNT, BITPOS and BITFIELD on the abstract
    store of [StringCmdOps], in terms of the bits of texts ([BitopsOps]), and one refinement
    lemma per command. *)
From stdpp Require Import gmap.
From S2P Require Import Prelude StateM Util Sds SdsText Object Db StringCmd Bitops BitCmd DbOps StringCmdOps BitopsOps.

Module BitCmdOps.
Import Sds SdsText Object Db StringCmd Bitops BitCmd DbOps StringCmdOps BitopsOps.

(** ** Specification *)

Definition err_offset : list Z := err_reply (str "bit offset is not an integer or out of range").
Definition err_bit : list Z := err_reply (str "bit is not an integer or out of range").
Definition err_type : list Z := err_reply (str "Invalid bitfield type. Use something like i16 u8. Note that u64 is not supported but i64 is.").

(** An offset in bits, below 512 MB; with [hash], [#n] counts in fields of [bits] bits. *)
Definition hashed (x : list Z) (hash : bool) (bits : Z) : bool := match x with c :: _ => (c =? chr "#") && hash && (0 <? bits) | [] => false end.
Definition spec_offset (x : list Z) (hash : bool) (bits : Z) : option Z :=
  l ← string2ll (if hashed x hash bits then tail x else x);
  let l := if hashed x hash bits then i64 (l * bits) else l in
  if (0 <=? l) && (l <? 2 ^ 32) then Some l else None.

(** The text, extended with zero bytes to [n] bytes at least. *)
Definition pad (t : list Z) (n : Z) : list Z := t ++ zrep (n - zlen t) 0.
Definition get_bit (t : list Z) (i : Z) : bool := default false (bits_of t !! Z.to_nat i).

(** The text and the deadline of a key that may be missing. *)
Definition text_or_empty (v : option (value * option Z)) : list Z * option Z := match v with Some (VStr t, e) => (t, e) | _ => ([], None) end.
Definition is_other (v : option (value * option Z)) : bool := match v with Some (VOther, _) => true | _ => false end.

Definition spec_setbit (m : store_map) (k off v : list Z) : outcome :=
  match spec_offset off false 0 with
  | None => unchanged m err_offset
  | Some i =>
    match string2ll v with
    | None => unchanged m err_bit
    | Some on =>
      if negb ((on =? 0) || (on =? 1)) then unchanged m err_bit else
      if is_other (m !! k) then unchanged m reply_wrongtype else
      let '(t, e) := text_or_empty (m !! k) in
      let t := pad t (i / 8 + 1) in
      (<[k := (VStr (set_bit t i (on =? 1)), e)]> m, int_reply (Z.b2z (get_bit t i)), 1)
    end
  end.

Definition spec_getbit (m : store_map) (k off : list Z) : list Z :=
  match spec_offset off false 0 with
  | None => err_offset
  | Some i => if is_other (m !! k) then reply_wrongtype else int_reply (Z.b2z (get_bit (text_or_empty (m !! k)).1 i))
  end.

(** First and last byte of a range; negative positions count from the end. *)
Definition span (t : list Z) (a z : Z) : Z * Z :=
  (Z.max 0 (if a <? 0 then zlen t + a else a), Z.min (zlen t - 1) (Z.max 0 (if z <? 0 then zlen t + z else z))).

Definition spec_bitcount (m : store_map) (args : list (list Z)) : list Z :=
  match args with
  | k :: range =>
    match m !! k with
    | None => int_reply 0
    | Some (VOther, _) => reply_wrongtype
    | Some (VStr t, _) =>
      match range with
      | [] => int_reply (ones (bits_of t))
      | [a; z] =>
        match string2ll a, string2ll z with
        | Some a, Some z => int_reply (if (a <? 0) && (z <? 0) && (z <? a) then 0 else ones (bits_of (slice t a z)))
        | _, _ => not_integer
        end
      | _ => reply_syntaxerr
      end
    end
  | [] => []
  end.

(** The position of the first bit [b] in a range. Past the end of the string there are
    zeros, unless the end of the range is given. *)
Definition spec_pos (b : bool) (t : list Z) (a z : Z) (end_given : bool) : Z :=
  let '(s, e) := span t a z in
  if e <? s then -1 else
  match find_bit b (bits_of (slice t a z)) with Some i => 8 * s + i | None => if b || end_given then -1 else 8 * (e + 1) end.

Definition spec_bitpos (m : store_map) (args : list (list Z)) : list Z :=
  match args with
  | k :: bit :: range =>
    match string2ll bit with
    | None => not_integer
    | Some bit =>
      if negb (bit =? 0) && negb (bit =? 1) then err_reply (str "The bit argument must be 1 or 0.") else
      let b := bit =? 1 in
      match m !! k with
      | None => int_reply (if b then -1 else 0)
      | Some (VOther, _) => reply_wrongtype
      | Some (VStr t, _) =>
        match range with
        | [] => int_reply (spec_pos b t 0 (zlen t - 1) false)
        | [a] => match string2ll a with None => not_integer | Some a => int_reply (spec_pos b t a (zlen t - 1) false) end
        | [a; z] => match string2ll a, string2ll z with Some a, Some z => int_reply (spec_pos b t a z true) | _, _ => not_integer end
        | _ => reply_syntaxerr
        end
      end
    end
  | _ => []
  end.

Definition longest (ts : list (list Z)) : Z := foldr (fun t n => Z.max (zlen t) n) 0 ts.
Definition key_text (m : store_map) (k : list Z) : list Z := (text_or_empty (m !! k)).1.

(** Missing keys are empty strings, and shorter strings go on with zeros. *)
Definition spec_bitop (m : store_map) (args : list (list Z)) : outcome :=
  match args with
  | opname :: dst :: ks =>
    match bitop_name opname with
    | None => unchanged m reply_syntaxerr
    | Some op =>
      if bool_decide (op = BITOP_NOT) && negb (length ks =? 1)%nat then unchanged m (err_reply (str "BITOP NOT must be called with a single source key.")) else
      if existsb (fun k => is_other (m !! k)) ks then unchanged m reply_wrongtype else
      match map (key_text m) ks with
      | [] => unchanged m []
      | first :: rest =>
        let n := longest (first :: rest) in
        (if n =? 0 then base.delete dst m else <[dst := (VStr (bitop_text op first rest (Z.to_nat n)), None)]> m, int_reply n, 1)
      end
    end
  | _ => unchanged m []
  end.

(** *** BITFIELD *)

Definition spec_type (x : list Z) : option (bool * Z) :=
  match x with
  | c :: r =>
    if negb (c =? chr "i") && negb (c =? chr "u") then None else
    let sign := c =? chr "i" in
    n ← string2ll (cstring r);
    if (n <? 1) || sign && (64 <? n) || negb sign && (63 <? n) then None else Some (sign, n)
  | [] => None
  end.

(** The operations, or the error reply. *)
Definition parsed : Type := list Z + list bitfieldOp.
Definition and_then (op : bitfieldOp) (r : parsed) : parsed := match r with inl e => inl e | inr ops => inr (op :: ops) end.
Definition is_get (op : bitfieldOp) : bool := bool_decide (bf_code op = BITFIELDOP_GET).

Fixpoint spec_ops (args : list (list Z)) (ow : bfoverflow) : parsed :=
  match args with
  | [] => inr []
  | sub :: rest =>
    match bf_opcode_name sub (length rest) with
    | Some code =>
      match rest with
      | ty :: off :: rest =>
        match spec_type ty with
        | None => inl err_type
        | Some (sign, bits) =>
          match spec_offset off true bits with
          | None => inl err_offset
          | Some i =>
            if bool_decide (code = BITFIELDOP_GET) then and_then (mk_bitfieldOp i 0 code ow bits sign) (spec_ops rest ow)
            else match rest with
                 | v :: rest => match string2ll v with None => inl not_integer | Some v => and_then (mk_bitfieldOp i v code ow bits sign) (spec_ops rest ow) end
                 | [] => inl []
                 end
          end
        end
      | _ => inl []
      end
    | None =>
      match rest with
      | name :: rest =>
        if name_is sub (str "overflow") then match bf_overflow_name name with None => inl (err_reply (str "Invalid OVERFLOW type specified")) | Some ow => spec_ops rest ow end
        else inl reply_syntaxerr
      | [] => inl reply_syntaxerr
      end
    end
  end.

(** The field of [bits] bits at [off], as an unsigned number; zeros past the end. *)
Definition field (t : list Z) (off bits : Z) : Z := be_val (ztake bits (zdrop off (bits_of t ++ zrep (off + bits) false))) 0.
Definition field_value (op : bitfieldOp) (t : list Z) : Z :=
  let v := field t (bf_offset op) (bf_bits op) in if bf_sign op then swrap (bf_bits op) v else v.

(** The new text and the reply of one operation. *)
Definition spec_step (op : bitfieldOp) (t : list Z) : list Z * list Z :=
  let old := field_value op t in
  if is_get op then (t, int_reply old) else
  let incrby := bool_decide (bf_code op = BITFIELDOP_INCRBY) in
  let x := if incrby then old + bf_i64 op else if bf_sign op then bf_i64 op else u64 (bf_i64 op) in
  let '(overflow, limit) := (if bf_sign op then signed_spec else unsigned_spec) (bf_bits op) (bf_owtype op) x in
  let new := if overflow =? 0 then x else default 0 limit in
  if negb (overflow =? 0) && bool_decide (bf_owtype op = BFOVERFLOW_FAIL) then (t, reply_nullbulk)
  else (write_bits t (bf_offset op) (field_bits (Z.to_nat (bf_bits op)) new), int_reply (if incrby then new else old)).
Fixpoint spec_run (ops : list bitfieldOp) (t : list Z) : list Z * list Z :=
  match ops with
  | [] => (t, [])
  | op :: ops => let '(t, r) := spec_step op t in let '(t, rs) := spec_run ops t in (t, r ++ rs)
  end.

Definition maxbit (ops : list bitfieldOp) : Z := foldr (fun op n => if is_get op then n else Z.max (bf_offset op + bf_bits op - 1) n) 0 ops.
Definition writes (ops : list bitfieldOp) : Z := foldr (fun op n => if is_get op then n else n + 1) 0 ops.

Definition spec_bitfield (m : store_map) (args : list (list Z)) : outcome :=
  match args with
  | k :: subs =>
    match spec_ops subs BFOVERFLOW_WRAP with
    | inl e => unchanged m e
    | inr ops =>
      if is_other (m !! k) then unchanged m reply_wrongtype else
      let '(t, e) := text_or_empty (m !! k) in
      let header := chr "*" :: dec (zlen ops) ++ crlf in
      if forallb is_get ops then unchanged m (header ++ (spec_run ops t).2)
      else let '(t, r) := spec_run ops (pad t (maxbit ops / 8 + 1)) in (<[k := (VStr t, e)]> m, header ++ r, writes ops)
    end
  | [] => unchanged m []
  end.

(** The operations the code handles as it means to: no 64 bit field (a shift by 64 is
    undefined), no field that ends past 512 MB, no signed SET to a value so small that
    its distance to the greatest value of the field overflows. *)
Definition op_ok (op : bitfieldOp) : Prop :=
  1 <= bf_bits op <= 63 /\ 0 <= bf_offset op /\ bf_offset op + bf_bits op <= 2 ^ 32 /\ in_s 64 (bf_i64 op) /\
  (bf_sign op = true -> bf_code op = BITFIELDOP_SET -> 2 ^ (bf_bits op - 1) - 1 - bf_i64 op < 2 ^ 63).
Definition fields_fit (args : list (list Z)) : Prop :=
  match spec_ops args BFOVERFLOW_WRAP with inl _ => True | inr ops => Forall op_ok ops end.

(** ** Shared lemmas *)

Lemma zlen_pad t n : zlen (pad t n) = Z.max (zlen t) n.
Proof. unfold pad. rewrite zlen_app, zlen_zrep. pose proof (zlen_nonneg t). lia. Qed.

Lemma pad_zeros n : 0 <= n -> pad [] n = zrep n 0.
Proof. intros Hn. unfold pad. change (zlen (@nil Z)) with 0. by rewrite Z.sub_0_r. Qed.

Lemma testbit_get_bit t i : 0 <= i < 8 * zlen t -> exists x, peek8 t (Z.shiftr i 3) = Ok x /\ (Z.land x (Z.shiftl 1 (7 - Z.land i 0x7)) =? 0) = negb (get_bit t i).
Proof.
  intros Hi. destruct (offset_parts i) as (E1 & E2 & Hr); [lia|]. destruct (bit_index t i Hi) as (a & x & c & -> & Ha & _ & Ei). exists (u8 x). rewrite E1, E2, <- Ha. split; [by apply peek8_app|].
  rewrite Z.shiftl_mul_pow2, Z.mul_1_l, Z.land_comm, land_pow2 by lia. f_equal. unfold get_bit. rewrite Ei at 2. rewrite bits_of_lookup by done. cbn. unfold uwrap. by rewrite Z.mod_pow2_bits_low by lia.
Qed.

(** The bytes of an sds beyond its text do not matter. *)
Lemma peek8_prefix t e i : 0 <= i < zlen t -> peek8 (t ++ e) i = peek8 t i.
Proof.
  intros Hi. unfold peek8, peek. rewrite (proj2 (Z.leb_le 0 i)) by lia. rewrite lookup_app_l by (unfold zlen in Hi; lia). done.
Qed.

Lemma byte_range i n : 0 <= i < 8 * n -> 0 <= Z.shiftr i 3 < n.
Proof. intros Hi. destruct (offset_parts i) as (-> & _); [lia|]. split; [apply Z.div_pos; lia|apply Z.div_lt_upper_bound; lia]. Qed.

Lemma set_bit_prefix t e i b : 0 <= i < 8 * zlen t -> set_bit (t ++ e) i b = set_bit t i b ++ e.
Proof.
  intros Hi. pose proof (byte_range i (zlen t) Hi) as Hb. destruct (offset_parts i) as (E1 & _); [lia|]. rewrite E1 in Hb. unfold set_bit. apply alter_app_l. unfold zlen in Hb. lia.
Qed.

Lemma write_bits_prefix l : forall t e off, 0 <= off -> off + zlen l <= 8 * zlen t -> write_bits (t ++ e) off l = write_bits t off l ++ e.
Proof.
  induction l as [|b l IH]; intros t e off Ho Hl; [done|]. cbn [write_bits]. rewrite zlen_cons in Hl. pose proof (zlen_nonneg l). rewrite set_bit_prefix by lia. apply IH; [lia|]. rewrite zlen_set_bit. lia.
Qed.

(** New contents of the same length, in place. *)
Lemma repr_same_len s t t' free : repr s t -> buf s = t ++ 0 :: free -> zlen t' = zlen t -> repr (with_buf s (t' ++ 0 :: free)) t'.
Proof.
  intros [Hh El (free' & Eb & Hf)] E Hl. assert (free' = free) as -> by (rewrite E in Eb; by simplify_list_eq). destruct (with_buf_hdr s (t' ++ 0 :: free)) as (E1 & E2 & _ & Hiff). constructor; [by apply Hiff|by rewrite E1, El|]. exists free. cbn. split; [done|]. rewrite E2. lia.
Qed.

Section Commands.
Context (junk : Z -> Z) (addr : oid -> Z) (now : Z).

Lemma arg_sds_ok d st c j t : Sim now d st c -> aargs c !! j = Some (t, Fresh) -> wp (arg_sds j) (fun s st' => st' = st /\ repr s t) st.
Proof.
  intros HS Ej. destruct (arg_lookup now d st c j t Fresh HS Ej) as (id & Ea & [Hz Ht] & n & o & -> & Hr & Eo & He). unfold arg_sds. eapply wp_bind, arg_wp; [exact Ea|]. eapply wp_bind, fetch_heap; [exact Eo|].
  destruct Ht as (o' & E' & Ho). assert (o' = o) as -> by congruence. destruct Ho as [sd Ht _ Hp Hrep|v Ht Hi _ _ _]; [|by rewrite sdsEncoded_int in He]. eapply wp_lift; [unfold as_sds; by rewrite Hp|]. done.
Qed.

Lemma offset_ok d st c j t hash bits : Sim now d st c -> aargs c !! j = Some (t, Fresh) -> wp (getBitOffsetFromArgument j hash bits) (fun r st' =>
  r = spec_offset t hash bits /\ match spec_offset t hash bits with Some _ => st' = st | None => Sim now d st' (says c err_offset) end) st.
Proof.
  intros HS Ej. unfold getBitOffsetFromArgument. step arg_sds_ok; [exact HS|exact Ej|]. intros s ? [-> Hrep]. destruct (repr_buf _ _ Hrep) as (free & Eb & _).
  assert (exists x, peek (buf s) 0 = Ok x /\ (x =? chr "#") && hash && (0 <? bits) = hashed t hash bits /\ rd (buf s) (Z.b2z (hashed t hash bits)) (sdslen s - Z.b2z (hashed t hash bits)) = Ok (if hashed t hash bits then tail t else t)) as (x & Ex & Eh & Er).
  { rewrite Eb, (repr_len _ _ Hrep). destruct t as [|x t].
    - exists 0. split_and!; [done|done|]. by apply rd_app0.
    - exists x. split_and!; [done|done|]. destruct (hashed (x :: t) hash bits); cbn [Z.b2z tail].
      + apply (rd_app [x] t (0 :: free)); [done|]. rewrite zlen_cons. lia.
      + rewrite Z.sub_0_r. by apply rd_app0. }
  eapply wp_bind, wp_lift; [exact Ex|]. rewrite Eh. eapply wp_bind, wp_lift; [exact Er|]. unfold spec_offset. destruct (string2ll _) as [l|] eqn:El; cbn [mbind option_bind].
  2:{ step (@replies_sim now unit); [apply replies_error|exact HS|]. intros _ st1 (_ & HS1 & _). by apply wp_ret. }
  set (l' := if hashed t hash bits then _ else l). assert ((l' <? 0) || (512 * 1024 * 1024 <=? Z.shiftr (u64 l') 3) = negb ((0 <=? l') && (l' <? 2 ^ 32))) as ->.
  { assert (in_s 64 l') as Hl by (unfold l'; destruct (hashed t hash bits); [apply swrap_range; lia|by apply string2ll_sound in El as [_ ?]]). unfold in_s in Hl. clearbody l'. destruct (Z.ltb_spec l' 0), (Z.leb_spec 0 l'); cbn [orb andb negb]; [lia|done| |lia].
    rewrite uwrap_id by (unfold in_u; lia). rewrite Z.shiftr_div_pow2 by lia. change (2 ^ 3) with 8. destruct (Z.ltb_spec l' (2 ^ 32)) as [Hlt|Hge]; cbn [negb]; [apply Z.leb_gt, Z.div_lt_upper_bound; lia|apply Z.leb_le, Z.div_le_lower_bound; lia]. }
  destruct ((0 <=? l') && (l' <? 2 ^ 32)); cbn [negb]; [by apply wp_ret|]. step (@replies_sim now unit); [apply replies_error|exact HS|]. intros _ st1 (_ & HS1 & _). by apply wp_ret.
Qed.

(** Changing a writable value; it stays writable. *)
Lemma rewrite_in_place st c k id t e sd' t' o : Sim now settled st c -> dict st !! k = Some id -> kv c !! k = Some (VStr t, e) -> writable st id t -> fetch id st = Ok (st, o) -> repr sd' t' -> zlen t' <= MAX_TEXT ->
  wp (store id (with_ptr o (PSds sd'))) (fun _ st' => Sim now settled st' (with_kv c (<[k := (VStr t', e)]> (kv c))) /\ dict st' = dict st /\ writable st' id t') st.
Proof.
  intros HS Ek Ev Hw Ef Hrep Hz. pose proof (write_in_place now st c k id t e sd' t' o HS Ek Ev Hw Ef Hrep Hz) as H. destruct Hw as (n & o' & sd & -> & Hr & Eo & Ht & He & Hp & _). cbn in Ef. rewrite Eo in Ef. injection Ef as ->.
  unfold wp, store in *. rewrite Eo in *. split_and!; [done|done|]. exists n, (with_ptr o (PSds sd')), sd'. split_and!; [done|done|cbn; apply lookup_insert_eq|done..].
Qed.

(** The value a bit command is about to write. *)
Lemma lookupString_ok st c k maxbit : Sim now settled st c -> aargs c !! 1%nat = Some (k, Fresh) -> 0 <= maxbit < 2 ^ 32 ->
  wp (lookupStringForBitCommand junk now maxbit) (fun r st' =>
    if is_other (kv c !! k) then r = None /\ Sim now settled st' (says c reply_wrongtype)
    else exists id, r = Some id /\ let '(t, e) := text_or_empty (kv c !! k) in let t := pad t (maxbit / 8 + 1) in
      Sim now settled st' (with_kv c (<[k := (VStr t, e)]> (kv c))) /\ dict st' !! k = Some id /\ writable st' id t /\ zlen t <= MAX_TEXT) st.
Proof.
  intros HS E1 Hm. unfold lookupStringForBitCommand. destruct (offset_parts maxbit) as (-> & _ & _); [lia|]. set (n := maxbit / 8 + 1). assert (1 <= n <= MAX_TEXT) as Hn. { unfold n, MAX_TEXT. pose proof (Z.div_pos maxbit 8 ltac:(lia) ltac:(lia)). assert (maxbit / 8 < 2 ^ 29) by (apply Z.div_lt_upper_bound; lia). lia. }
  rewrite uwrap_id by (unfold in_u, MAX_TEXT in *; lia). step arg_text_ok; [exact HS|exact E1|]. intros ? ? [-> ->]. step write_ok; [exact HS|]. intros r st1 (HS1 & _ & Hr). destruct (kv c !! k) as [[[t|] e]|] eqn:Ev; cbn [is_other text_or_empty].
  - destruct Hr as (id & -> & Ek & Hx & _). assert (zlen t <= MAX_TEXT) as Hz by apply Hx. step checkType_ok; [exact HS1|exact Hx|]. intros b st2 [-> ->]. step dbUnshare_ok; [exact HS1|exact Ek|exact Ev|]. intros id' st2 (HS2 & Ek2 & _ & Hw).
    destruct (writable_sds _ _ _ Hw) as (o & sd & Ef & Eown & Hrep). eapply wp_bind, fetch_wp; [exact Ef|]. eapply wp_bind, wp_lift; [exact Eown|]. destruct (sdsgrowzero_ok junk sd t n Hrep) as (s1 & Eg & Hrep1); [unfold MAX_TEXT in *; lia|]. eapply wp_bind, wp_lift; [exact Eg|].
    fold (pad t n) in Hrep1. assert (zlen (pad t n) <= MAX_TEXT) as Hzp by (rewrite zlen_pad; lia). step rewrite_in_place; [exact HS2|exact Ek2|exact Ev|exact Hw|exact Ef|exact Hrep1|exact Hzp|]. intros _ st3 (HS3 & D3 & Hw3). apply wp_ret. exists id'. split_and!; [done|done|by rewrite D3|done|done].
  - destruct Hr as (id & -> & _ & Hx & _). step checkType_ok; [exact HS1|exact Hx|]. intros b st2 [-> HS2]. by apply wp_ret.
  - destruct Hr as (-> & Ek & _). eapply wp_mono; [apply (add_zeroed_ok junk now st1 c k n HS1 Ek); unfold MAX_TEXT in *; lia|]. cbn beta. intros r st2 (id & -> & HS2 & Ek2 & Hw). exists id. rewrite pad_zeros by lia. split_and!; [done|done|done|done|]. rewrite zlen_zrep. lia.
Qed.

Lemma getLong_ok d st c o t msg : Sim now d st c -> obj_text o t -> wp (getLongFromObjectOrReply msg (Some o)) (fun r st' =>
  r = string2ll t /\ match string2ll t with Some _ => st' = st | None => Sim now d st' (says c (err_reply (default err_not_integer msg))) end) st.
Proof.
  intros HS Ho. unfold getLongFromObjectOrReply. step getLongLong_ok; [exact HS|exact Ho|]. intros r st1 [-> H1]. destruct (string2ll t) as [v|] eqn:Ev; [|by apply wp_ret]. subst st1. apply string2ll_sound in Ev as [_ Hv]. unfold in_s in Hv. unfold LONG_MIN, LONG_MAX.
  assert ((v <? - 2 ^ 63) || (2 ^ 63 - 1 <? v) = false) as -> by lia. by apply wp_ret.
Qed.

Lemma spec_offset_range x hash bits i : spec_offset x hash bits = Some i -> 0 <= i < 2 ^ 32.
Proof. unfold spec_offset. destruct (string2ll _); cbn; [|done]. case_match; [|done]. intros [= <-]. lia. Qed.

Lemma land_not_one v : in_s 64 v -> (Z.land v (Z.lnot 1) =? 0) = (v =? 0) || (v =? 1).
Proof.
  intros Hv. assert (Z.land v (Z.lnot 1) = 2 * (v / 2)) as ->.
  { change (Z.lnot 1) with (Z.lnot (Z.ones 1)). rewrite <- Z.ldiff_land, Z.ldiff_ones_r by lia. rewrite Z.shiftl_mul_pow2, Z.shiftr_div_pow2 by lia. change (2 ^ 1) with 2. lia. }
  assert (v / 2 = 0 <-> v = 0 \/ v = 1) as Hiff by (pose proof (Z_div_mod_eq_full v 2); pose proof (Z.mod_pos_bound v 2); lia).
  destruct (Z.eqb_spec (2 * (v / 2)) 0), (Z.eqb_spec v 0), (Z.eqb_spec v 1); cbn [orb]; (done || lia).
Qed.

Lemma setbit_refines n k off v : refines now (setbitCommand junk now) [n; k; off; v] (fun m => spec_setbit m k off v).
Proof.
  intros st c HS Ha. unfold setbitCommand, spec_setbit. step offset_ok; [exact HS|by rewrite Ha|]. intros r st1 [-> H1]. destruct (spec_offset off false 0) as [i|] eqn:Ei; [subst st1|apply wp_ret; by apply finish_unchanged]. apply spec_offset_range in Ei.
  destruct (arg_lookup now _ st c 3 v Fresh HS ltac:(by rewrite Ha)) as (vid & Ea & Htv & _). cbn [fst] in Htv. eapply wp_bind, arg_wp; [exact Ea|]. eapply wp_bind, fetch_text; [exact Htv|]. intros vo Hvo.
  step getLong_ok; [exact HS|exact Hvo|]. intros r st1 [-> H1]. destruct (string2ll v) as [on|] eqn:Eon; [subst st1|apply wp_ret; by apply finish_unchanged]. apply string2ll_sound in Eon as [_ Ron]. rewrite land_not_one by done.
  destruct ((on =? 0) || (on =? 1)) eqn:Eb; cbn [negb]; [|apply reply_unchanged; [apply replies_error|done]].
  step lookupString_ok; [exact HS|by rewrite Ha|exact Ei|]. intros r st1 H1. destruct (is_other (kv c !! k)) eqn:Eoth; [destruct H1 as [-> HS1]; apply wp_ret; by apply finish_unchanged|]. destruct H1 as (id & -> & H1). destruct (text_or_empty (kv c !! k)) as [t0 e]. destruct H1 as (HS1 & Ek & Hw & Hz). set (t := pad t0 (i / 8 + 1)) in *.
  assert (0 <= i < 8 * zlen t) as Hi. { unfold t. rewrite zlen_pad. pose proof (Z_div_mod_eq_full i 8). pose proof (Z.mod_pos_bound i 8 ltac:(lia)). lia. }
  destruct (writable_sds _ _ _ Hw) as (o & sd & Ef & Eown & Hrep). assert (as_sds o = Ok sd) as Eas by (unfold own_sds in Eown; case_match; done). destruct (repr_buf _ _ Hrep) as (free & Ebuf & _).
  eapply wp_bind, fetch_wp; [exact Ef|]. eapply wp_bind, wp_lift; [exact Eas|]. destruct (testbit_get_bit t i Hi) as (x & Ex & Ebit). rewrite Ebuf. eapply wp_bind, wp_lift; [rewrite peek8_prefix; [exact Ex|by apply byte_range]|].
  pose proof (write_bit_step t i (on =? 1) Hi) as Ewr. rewrite Ex in Ewr. cbn [mbind res_bind] in Ewr. assert (Z.land on 1 = Z.b2z (on =? 1)) as ->. { apply orb_true_iff in Eb as [Eb|Eb]; apply Z.eqb_eq in Eb as ->; done. }
  assert (poke (t ++ 0 :: free) (Z.shiftr i 3) (u8 (Z.lor (Z.land x (Z.lnot (Z.shiftl 1 (7 - Z.land i 0x7)))) (Z.shiftl (Z.b2z (on =? 1)) (7 - Z.land i 0x7)))) = Ok (set_bit t i (on =? 1) ++ 0 :: free)) as Ewr'.
  { unfold uwrap. rewrite <- land_mask by lia. change (2 ^ 8 - 1) with 0xff. destruct (bit_index t i Hi) as (a & y & q & Et & Hay & _). destruct (offset_parts i) as (Es & _); [lia|]. rewrite Es, <- Hay in *. rewrite Et in *. rewrite poke_app in Ewr by done. injection Ewr as Ewr. rewrite <- app_assoc, <- app_comm_cons, poke_app by done. rewrite <- Ewr. by rewrite <- app_assoc. }
  eapply wp_bind, wp_lift; [exact Ewr'|]. pose proof (repr_same_len sd t (set_bit t i (on =? 1)) free Hrep Ebuf (zlen_set_bit _ _ _)) as Hrep'.
  step write_in_place; [exact HS1|exact Ek|apply lookup_insert_eq|exact Hw|exact Ef|exact Hrep'|by rewrite zlen_set_bit|]. intros _ st2 HS2. step add_dirty_sim; [exact HS2|]. intros _ st3 HS3. eapply wp_mono; [by apply addReplyString_sim|]. cbn beta. intros _ st4 HS4.
  eapply finish; [exact HS4|cbn; by rewrite insert_insert_eq| |done|done]. cbn. f_equal. rewrite Ebit. by destruct (get_bit t i).
Qed.

(** The text of a value, as the read-only commands see it. *)
Lemma read_only_ok o t : obj_text o t -> zlen t <= MAX_TEXT -> exists e, getObjectReadOnlyString junk o = Ok (t ++ e, zlen t).
Proof.
  intros Ho Hz. unfold getObjectReadOnlyString. rewrite (bool_decide_eq_true_2 (type o = OBJ_STRING)) by (by eapply text_type). cbn [assert_ mbind res_bind]. destruct Ho as [sd Ht He Hp Hr|v Ht He Hp Hv ->].
  - rewrite bool_decide_eq_false_2. 2:{ intros E. by rewrite sdsEncoded_int in He. } unfold as_sds. rewrite Hp. cbn [mbind res_bind]. destruct (repr_buf _ _ Hr) as (free & Eb & _). exists (0 :: free). by rewrite Eb, (repr_len _ _ Hr).
  - rewrite bool_decide_eq_true_2 by done. unfold as_long. rewrite Hp. cbn [mbind res_bind]. pose proof (dec_len_le v Hv). unfold LONG_STR_SIZE. destruct (ll2string_ok (stack_buf junk 21) 21 v Hv) as (post & -> & _); [by apply stack_buf_len|lia|]. by exists (0 :: post).
Qed.

Lemma getbit_refines n k off : refines now (getbitCommand junk now) [n; k; off] (fun m => unchanged m (spec_getbit m k off)).
Proof.
  intros st c HS Ha. unfold getbitCommand, spec_getbit. step offset_ok; [exact HS|by rewrite Ha|]. intros r st1 [-> H1]. destruct (spec_offset off false 0) as [i|] eqn:Ei; [subst st1|apply wp_ret; by apply finish_unchanged]. apply spec_offset_range in Ei.
  step arg_text_ok; [exact HS|by rewrite Ha|]. intros ? ? [-> ->]. step read_ok; [exact HS|]. intros r st1 (HS1 & _ & Hr). destruct (kv c !! k) as [[[t|] e]|] eqn:Ev; cbn [is_other text_or_empty fst].
  - destruct Hr as (id & -> & _ & Hx & _). assert (zlen t <= MAX_TEXT) as Hz by apply Hx. step checkType_ok; [exact HS1|exact Hx|]. intros b st2 [-> ->]. eapply wp_bind, fetch_text; [exact Hx|]. intros o Ho.
    apply (wp_step _ _ (fun r st' => st' = st1 /\ exists p, r = (t ++ p, zlen t))).
    { destruct Ho as [sd Ht He Hp Hrep|v Ht He Hp Hv ->].
      - rewrite He. eapply wp_bind, wp_lift; [unfold as_sds; by rewrite Hp|]. apply wp_ret. split; [done|]. destruct (repr_buf _ _ Hrep) as (free & Eb & _). rewrite Eb, (repr_len _ _ Hrep). by eexists.
      - rewrite sdsEncoded_int by done. eapply wp_bind, wp_lift; [unfold as_long; by rewrite Hp|]. pose proof (dec_len_le v Hv). destruct (ll2string_ok (stack_buf junk 32) 32 v Hv) as (post & El & _); [by apply stack_buf_len|lia|]. eapply wp_lift; [exact El|]. split; [done|]. by eexists. }
    intros [p len] st2 (-> & q & [= -> ->]). apply (wp_step _ _ (fun v st' => st' = st1 /\ (v =? 0) = negb (get_bit t i))).
    { destruct (Z.ltb_spec (Z.shiftr i 3) (zlen t)) as [Hlt|Hge].
      - assert (0 <= i < 8 * zlen t) as Hi. { destruct (offset_parts i) as (Es & _ & Hm); [lia|]. rewrite Es in Hlt. pose proof (Z_div_mod_eq_full i 8). lia. }
        destruct (testbit_get_bit t i Hi) as (x & Ex & Ebit). eapply wp_bind, wp_lift; [rewrite peek8_prefix; [exact Ex|by apply byte_range]|]. by apply wp_ret.
      - apply wp_ret. split; [done|]. unfold get_bit. rewrite lookup_ge_None_2; [done|]. rewrite length_bits_of. destruct (offset_parts i) as (Es & _ & Hm); [lia|]. rewrite Es in Hge. pose proof (Z_div_mod_eq_full i 8). unfold zlen in Hge. lia. }
    intros v st2 [-> ->]. rewrite negb_involutive. destruct (get_bit t i); apply (reply_unchanged _ _ _ _ (addReplyString _)); (done || apply replies_string).
  - destruct Hr as (id & -> & _ & Hx & _). step checkType_ok; [exact HS1|exact Hx|]. intros b st2 [-> HS2]. apply wp_ret. by apply finish_unchanged.
  - destruct Hr as (-> & _). by apply (reply_unchanged now st1 c (int_reply 0)).
Qed.

(** *** BITCOUNT and BITPOS *)

Lemma plain_long_ok d st c j t s : Sim now d st c -> aargs c !! j = Some (t, s) -> wp (plain_long j) (fun r st' =>
  r = string2ll t /\ match string2ll t with Some _ => st' = st | None => Sim now d st' (says c not_integer) end) st.
Proof.
  intros HS Ej. destruct (arg_lookup now d st c j t s HS Ej) as (id & Ea & Ht & _). unfold plain_long. eapply wp_bind, arg_wp; [exact Ea|]. eapply wp_bind, fetch_text; [exact Ht|]. intros o Ho. by apply getLong_ok.
Qed.

Lemma clip_span (t : list Z) a z : zlen t <= MAX_TEXT -> in_s 64 a -> in_s 64 z -> clip_range a z (zlen t) = span t a z.
Proof.
  intros Hz Ha Hb. unfold clip_range, span, in_s, MAX_TEXT in *. pose proof (zlen_nonneg t). destruct (Z.ltb_spec a 0), (Z.ltb_spec z 0); rewrite ?swrap_id by (lia || unfold in_s; lia); f_equal; repeat case_match; lia.
Qed.

Lemma slice_parts t a z s e : span t a z = (s, e) -> slice t a z = ztake (e - s + 1) (zdrop s t) /\ 0 <= s /\ e < zlen t.
Proof. intros [= <- <-]. split; [done|]. lia. Qed.

Lemma slice_split t a z s e x : span t a z = (s, e) -> s <= e -> t ++ x = ztake s t ++ slice t a z ++ zdrop (e + 1) t ++ x /\ zlen (ztake s t) = s /\ zlen (slice t a z) = e - s + 1.
Proof.
  intros E Hse. destruct (slice_parts t a z s e E) as (-> & Hs & He). split_and!; [|rewrite zlen_ztake; lia|rewrite zlen_ztake, zlen_zdrop; lia]. rewrite app_assoc, app_assoc. f_equal. rewrite <- app_assoc. rewrite <- (ztake_zdrop s t) at 1. f_equal. rewrite <- (ztake_zdrop (e - s + 1) (zdrop s t)) at 1. f_equal. unfold zdrop. rewrite drop_drop. f_equal. lia.
Qed.

Lemma slice_short t a z : zlen (slice t a z) <= zlen t.
Proof. unfold slice. rewrite zlen_ztake, zlen_zdrop. pose proof (zlen_nonneg t). lia. Qed.

Lemma slice_whole t : slice t 0 (zlen t - 1) = t /\ span t 0 (zlen t - 1) = (0, zlen t - 1).
Proof.
  pose proof (zlen_nonneg t). unfold slice, span. change (0 <? 0) with false. cbn [Z.max]. assert (Z.min (zlen t - 1) (Z.max 0 (if zlen t - 1 <? 0 then zlen t + (zlen t - 1) else zlen t - 1)) = zlen t - 1) as -> by (case_match; lia). change (Z.max 0 0) with 0. rewrite zdrop_0 by lia. split; [apply ztake_all; lia|done].
Qed.

Lemma bits_short t : zlen t <= MAX_TEXT -> in_s 64 (ones (bits_of t)).
Proof. intros Hz. pose proof (ones_range (bits_of t)) as H. rewrite zlen_bits_of in H. unfold in_s, MAX_TEXT in *. lia. Qed.

Lemma count_ok st c id t a z s e x : Sim now settled st c -> zlen t <= MAX_TEXT -> span t a z = (s, e) ->
  wp (if e <? s then addReplyString reply_czero else n ← lift (redisPopcount (addr id) (t ++ x) s (e - s + 1)); addReplyLongLong junk n)
     (fun _ st' => exists l, Sim now settled st' (with_args (apply_outcome c (unchanged (kv c) (int_reply (ones (bits_of (slice t a z)))))) l)) st.
Proof.
  intros HS Hz E. destruct (Z.ltb_spec e s) as [Hlt|Hge].
  - destruct (slice_parts t a z s e E) as (-> & _). rewrite ztake_0 by lia. by apply (reply_unchanged now st c (int_reply 0)).
  - destruct (slice_split t a z s e x E Hge) as (-> & Hs & Hl). pose proof (slice_short t a z). eapply wp_bind, wp_lift; [apply redisPopcount_ok; [done|done|unfold MAX_TEXT in *; lia]|]. apply reply_unchanged; [|done]. apply replies_int. apply bits_short. lia.
Qed.

Lemma bitcount_refines n args : args <> [] -> refines now (bitcountCommand junk addr now) (n :: args) (fun m => unchanged m (spec_bitcount m args)).
Proof.
  intros Hne st c HS Ha. destruct args as [|k range]; [done|]. unfold bitcountCommand, spec_bitcount. step arg_text_ok; [exact HS|by rewrite Ha|]. intros ? ? [-> ->]. step read_ok; [exact HS|]. intros r st1 (HS1 & _ & Hr). destruct (kv c !! k) as [[[t|] e]|] eqn:Ev.
  2:{ destruct Hr as (id & -> & _ & Hx & _). step checkType_ok; [exact HS1|exact Hx|]. intros q st2 [-> HS2]. apply wp_ret. by apply finish_unchanged. }
  2:{ destruct Hr as (-> & _). by apply (reply_unchanged now st1 c (int_reply 0)). }
  destruct Hr as (id & -> & _ & Hx & _). assert (zlen t <= MAX_TEXT) as Hz by apply Hx. step checkType_ok; [exact HS1|exact Hx|]. intros q st2 [-> ->]. eapply wp_bind, fetch_text; [exact Hx|]. intros o Ho. destruct (read_only_ok o t Ho Hz) as (p & Ep). eapply wp_bind, wp_lift; [exact Ep|].
  apply wp_bind, wp_gets. rewrite (argc_fresh now _ _ _ _ HS1 Ha). cbv zeta. destruct range as [|a [|z [|y range]]]; cbn [length Nat.eqb].
  - destruct (slice_whole t) as [E1 E2]. pose proof (count_ok st1 c id t 0 (zlen t - 1) 0 (zlen t - 1) p HS1 Hz E2) as H. rewrite E1 in H. exact H.
  - by apply reply_unchanged; [apply replies_string|].
  - step plain_long_ok; [exact HS1|by rewrite Ha|]. intros r st2 [-> H2]. destruct (string2ll a) as [va|] eqn:Ea; [subst st2|apply wp_ret; by apply finish_unchanged]. step plain_long_ok; [exact HS1|by rewrite Ha|]. intros r st2 [-> H2]. destruct (string2ll z) as [vz|] eqn:Ez; [subst st2|apply wp_ret; by apply finish_unchanged].
    apply string2ll_sound in Ea as [_ Ra]. apply string2ll_sound in Ez as [_ Rz]. destruct (_ && _ && _); [by apply (reply_unchanged now st1 c (int_reply 0))|]. rewrite clip_span by done. destruct (span t va vz) as [s e'] eqn:Es. by apply count_ok.
  - by apply reply_unchanged; [apply replies_string|].
Qed.

Lemma find_bit_range b l i : find_bit b l = Some i -> 0 <= i < zlen l.
Proof.
  revert i. induction l as [|x l IH]; intros i; cbn [find_bit]; [done|]. rewrite zlen_cons. pose proof (zlen_nonneg l). destruct (Bool.eqb x b); [intros [= <-]; lia|]. destruct (find_bit b l) as [j|]; [|done]. intros [= <-]. specialize (IH j eq_refl). lia.
Qed.

Lemma bit_search_ok st c id t a z s e x b eg : Sim now settled st c -> zlen t <= MAX_TEXT -> span t a z = (s, e) ->
  wp (if e <? s then addReplyLongLong junk (-1)
      else pos ← lift (redisBitpos (addr id) (t ++ x) (Z.b2z b) s (e - s + 1));
           if eg && (Z.b2z b =? 0) && (pos =? (e - s + 1) * 8) then addReplyLongLong junk (-1)
           else addReplyLongLong junk (if negb (pos =? -1) then pos + s * 8 else pos))
     (fun _ st' => exists l, Sim now settled st' (with_args (apply_outcome c (unchanged (kv c) (int_reply (spec_pos b t a z eg)))) l)) st.
Proof.
  intros HS Hz E. unfold spec_pos. rewrite E. destruct (Z.ltb_spec e s) as [Hlt|Hge]; [apply reply_unchanged; [by apply replies_int|done]|].
  destruct (slice_split t a z s e x E Hge) as (-> & Hs & Hl). destruct (slice_parts t a z s e E) as (_ & Hs0 & He). pose proof (slice_short t a z). unfold MAX_TEXT in *.
  eapply wp_bind, wp_lift; [apply redisBitpos_ok; [done|done|lia]|]. destruct (find_bit b (bits_of (slice t a z))) as [i|] eqn:Ei.
  - apply find_bit_range in Ei. rewrite zlen_bits_of in Ei. rewrite (proj2 (Z.eqb_neq i ((e - s + 1) * 8))), andb_false_r by lia. rewrite (proj2 (Z.eqb_neq i (-1))) by lia. cbn [negb]. apply reply_unchanged; [|done]. replace (8 * s + i) with (i + s * 8) by lia. apply replies_int. unfold in_s. lia.
  - destruct b; cbn [Z.b2z orb].
    + change (1 =? 0) with false. rewrite andb_false_r. cbn [andb]. change (-1 =? -1) with true. cbn [negb]. apply reply_unchanged; [by apply replies_int|done].
    + change (0 =? 0) with true. rewrite andb_true_r, Hl. destruct eg; cbn [andb].
      * rewrite (proj2 (Z.eqb_eq (8 * (e - s + 1)) ((e - s + 1) * 8))) by lia. apply reply_unchanged; [by apply replies_int|done].
      * rewrite (proj2 (Z.eqb_neq (8 * (e - s + 1)) (-1))) by lia. cbn [negb]. apply reply_unchanged; [|done]. replace (8 * (e + 1)) with (8 * (e - s + 1) + s * 8) by lia. apply replies_int. unfold in_s. lia.
Qed.

Lemma bitpos_refines n args : (2 <= length args)%nat -> refines now (bitposCommand junk addr now) (n :: args) (fun m => unchanged m (spec_bitpos m args)).
Proof.
  intros Hne st c HS Ha. destruct args as [|k [|bit range]]; [cbn in Hne; lia..|]. clear Hne. unfold bitposCommand, spec_bitpos. step plain_long_ok; [exact HS|by rewrite Ha|]. intros r st0 [-> H0]. destruct (string2ll bit) as [v|]; [subst st0|apply wp_ret; by apply finish_unchanged].
  destruct (negb (v =? 0) && negb (v =? 1)) eqn:Ebit; [apply reply_unchanged; [apply replies_error|done]|]. assert (exists b, v = Z.b2z b /\ (v =? 1) = b) as (b & -> & Eb).
  { destruct (Z.eqb_spec v 0) as [E0|]; [exists false; by rewrite E0|]. destruct (Z.eqb_spec v 1) as [E0|]; [exists true; by rewrite E0|done]. }
  rewrite Eb.
  step arg_text_ok; [exact HS|by rewrite Ha|]. intros ? ? [-> ->]. step read_ok; [exact HS|]. intros r st1 (HS1 & _ & Hr). destruct (kv c !! k) as [[[t|] e]|] eqn:Ev.
  2:{ destruct Hr as (id & -> & _ & Hx & _). step checkType_ok; [exact HS1|exact Hx|]. intros q st2 [-> HS2]. apply wp_ret. by apply finish_unchanged. }
  2:{ destruct Hr as (-> & _). destruct b; (apply reply_unchanged; [by apply replies_int|done]). }
  destruct Hr as (id & -> & _ & Hx & _). assert (zlen t <= MAX_TEXT) as Hz by apply Hx. step checkType_ok; [exact HS1|exact Hx|]. intros q st2 [-> ->]. eapply wp_bind, fetch_text; [exact Hx|]. intros o Ho. destruct (read_only_ok o t Ho Hz) as (p & Ep). eapply wp_bind, wp_lift; [exact Ep|].
  apply wp_bind, wp_gets. rewrite (argc_fresh now _ _ _ _ HS1 Ha). cbv zeta. assert (in_s 64 (zlen t - 1)) as Rl by (pose proof (zlen_nonneg t); unfold in_s, MAX_TEXT in *; lia). destruct range as [|a [|z [|y range]]]; cbn [length Nat.eqb orb].
  - destruct (slice_whole t) as [E1 E2]. exact (bit_search_ok st1 c id t 0 (zlen t - 1) 0 (zlen t - 1) p b false HS1 Hz E2).
  - step plain_long_ok; [exact HS1|by rewrite Ha|]. intros r st2 [-> H2]. destruct (string2ll a) as [va|] eqn:Ea; [subst st2|apply wp_ret; by apply finish_unchanged]. apply wp_bind, wp_ret. apply string2ll_sound in Ea as [_ Ra].
    rewrite clip_span by done. destruct (span t va (zlen t - 1)) as [s e'] eqn:Es. exact (bit_search_ok st1 c id t va (zlen t - 1) s e' p b false HS1 Hz Es).
  - step plain_long_ok; [exact HS1|by rewrite Ha|]. intros r st2 [-> H2]. destruct (string2ll a) as [va|] eqn:Ea; [subst st2|apply wp_ret; by apply finish_unchanged]. step plain_long_ok; [exact HS1|by rewrite Ha|]. intros r st2 [-> H2]. destruct (string2ll z) as [vz|] eqn:Ez; [subst st2|apply wp_ret; by apply finish_unchanged].
    apply string2ll_sound in Ea as [_ Ra]. apply string2ll_sound in Ez as [_ Rz]. rewrite clip_span by done. destruct (span t va vz) as [s e'] eqn:Es. exact (bit_search_ok st1 c id t va vz s e' p b true HS1 Hz Es).
  - destruct range as [|y' range]; cbn [length Nat.eqb orb]; (by apply reply_unchanged; [apply replies_string|]).
Qed.

(** *** BITOP *)

(** The references held on the source objects. *)
Definition held (objects : list (option oid)) : debts := fun n => occ n (omap id objects).

Lemma held_snoc objects o n : held (objects ++ [o]) n = held objects n + match o with Some id => one id n | None => 0 end.
Proof. unfold held. rewrite omap_app, occ_app. destruct o; cbn; lia. Qed.

Lemma occ_length n ids : occ n ids <= zlen ids.
Proof. induction ids as [|id ids IH]; cbn [occ]; [done|]. rewrite zlen_cons. pose proof (one_range id n). lia. Qed.

Lemma held_range objects n : 0 <= held objects n <= zlen objects.
Proof.
  unfold held. split; [apply occ_nonneg|]. eapply Z.le_trans; [apply occ_length|]. induction objects as [|[id|] objects IH]; [done|..]; rewrite zlen_cons; cbn [omap list_omap]; cbn; rewrite ?zlen_cons; lia.
Qed.

Lemma release_free objects : forall st, release_objects objects st = free_argv (omap id objects) st.
Proof.
  induction objects as [|[id|] objects IH]; intros st; [done| |exact (IH st)]. cbn [release_objects]. change (omap Datatypes.id (Some id :: objects)) with (id :: omap Datatypes.id objects). cbn [free_argv]. unfold mbind, ST_bind. destruct (decrRefCount id st) as [[st' []]|]; [apply IH|done].
Qed.

Lemma release_ok objects st c : Sim now (held objects) st c -> wp (release_objects objects) (fun _ st' => Sim now settled st' c) st.
Proof.
  intros HS. unfold wp. rewrite release_free. pose proof (free_sim now (omap id objects) (held objects) st c HS (fun n => Z.le_refl _)) as H. unfold wp in H. destruct (free_argv _ st) as [[st' u]|]; [|done]. destruct H as (HS' & _). eapply Sim_ext; [|exact HS']. intros n. unfold held, settled. cbn beta. lia.
Qed.

Lemma read_held d st c k : mild d -> Sim now d st c ->
  wp (lookupKeyRead now k) (fun r st' => Sim now d st' c /\
    match kv c !! k with
    | None => r = None
    | Some (x, e) => exists id, r = Some id /\ dict st' !! k = Some id /\ val_of (heap st') id x /\ live st' id
    end) st.
Proof.
  intros Hm HS. eapply wp_mono; [by apply lookupKeyRead_ok|]. cbn beta. intros r st' (HS' & _ & Er & Hr). split; [done|]. destruct (kv c !! k) as [[x e]|] eqn:Ev; [|by destruct Hr]. destruct (key_present now _ st' c k x e HS' Ev) as (_ & _ & id & E2 & E3 & E4). exists id. split_and!; (done || congruence).
Qed.

Lemma longest_snoc ts t : longest (ts ++ [t]) = Z.max (longest ts) (zlen t).
Proof. unfold longest. induction ts as [|x ts IH]; cbn [app foldr] in *; [pose proof (zlen_nonneg t); lia|]. rewrite IH. lia. Qed.
Lemma longest_range ts : 0 <= longest ts.
Proof. unfold longest. induction ts as [|t ts IH]; cbn [foldr]; [done|]. lia. Qed.

Lemma bitop_sources_ok args ks : forall j objects srcs ts minlen st c, drop (j + 3) args = ks -> Sim now (held objects) st c -> aargs c = fresh args -> length objects = j -> zlen objects + zlen ks < 2 ^ 30 ->
  Forall2 source srcs ts -> length ts = j -> 0 <= minlen -> Forall (fun t => minlen <= zlen t) ts -> longest ts <= MAX_TEXT ->
  wp (bitop_sources junk now (length ks) j objects srcs minlen (longest ts)) (fun r st' =>
    if existsb (fun k => is_other (kv c !! k)) ks then r = None /\ Sim now settled st' (says c reply_wrongtype)
    else exists objects' srcs' minlen', let ts' := ts ++ map (key_text (kv c)) ks in
      r = Some (objects', srcs', minlen', longest ts') /\ Sim now (held objects') st' c /\ Forall2 source srcs' ts' /\ 0 <= minlen' /\ Forall (fun t => minlen' <= zlen t) ts' /\ longest ts' <= MAX_TEXT) st.
Proof.
  induction ks as [|k ks IH]; intros j objects srcs ts minlen st c Ed HS Ha Hj Hlen HF Hts H0 Hmin Hmax; cbn [bitop_sources length existsb map].
  - apply wp_ret. exists objects, srcs, minlen. cbv zeta. rewrite app_nil_r. done.
  - apply drop_here in Ed as [Ek Ed]. assert (mild (held objects)) as Hm by (intros n; pose proof (held_range objects n); pose proof (zlen_nonneg ks); rewrite zlen_cons in Hlen; lia).
    step arg_text_ok; [exact HS|by eapply fresh_lookup|]. intros ? ? [-> ->]. step read_held; [exact Hm|exact HS|]. intros r st1 (HS1 & Hr). rewrite zlen_cons in Hlen.
    assert (forall o src minlen' t st2, Sim now (held (objects ++ [o])) st2 c -> source src t -> 0 <= minlen' -> Forall (fun t => minlen' <= zlen t) (ts ++ [t]) -> zlen t <= MAX_TEXT -> t = key_text (kv c) k ->
      wp (bitop_sources junk now (length ks) (S j) (objects ++ [o]) (srcs ++ [src]) minlen' (longest (ts ++ [t]))) (fun r st' =>
        if existsb (fun k => is_other (kv c !! k)) ks then r = None /\ Sim now settled st' (says c reply_wrongtype)
        else exists objects' srcs' minlen', r = Some (objects', srcs', minlen', longest (ts ++ key_text (kv c) k :: map (key_text (kv c)) ks)) /\ Sim now (held objects') st' c /\ Forall2 source srcs' (ts ++ key_text (kv c) k :: map (key_text (kv c)) ks) /\ 0 <= minlen' /\ Forall (fun t => minlen' <= zlen t) (ts ++ key_text (kv c) k :: map (key_text (kv c)) ks) /\ longest (ts ++ key_text (kv c) k :: map (key_text (kv c)) ks) <= MAX_TEXT) st2) as Hnext.
    { intros o src minlen' t st2 HS2 Hsrc Hm0 Hmin' Ht ->. pose proof (IH (S j) (objects ++ [o]) (srcs ++ [src]) (ts ++ [key_text (kv c) k]) minlen' st2 c) as IH'. rewrite <- app_assoc in IH'. cbn [app] in IH'. apply IH'; [exact Ed|done|done|rewrite length_app; cbn; lia|rewrite zlen_app; change (zlen [o]) with 1; lia|by apply Forall2_app; [|constructor]|rewrite length_app; cbn; lia|done|done|].
      rewrite longest_snoc. lia. }
    destruct (kv c !! k) as [[[t|] e]|] eqn:Ev; cbn [is_other orb].
    + destruct Hr as (id & -> & Edict & Hx & Hl). assert (zlen t <= MAX_TEXT) as Hz by apply Hx. assert (key_text (kv c) k = t) as Ekt by (unfold key_text; by rewrite Ev). step checkType_ok; [exact HS1|exact Hx|]. intros b st2 [-> ->]. destruct (fetch_text_eq id t st1 Hx) as (o & Ef & Ho). eapply wp_bind, fetch_wp; [exact Ef|].
      apply wp_assoc. eapply wp_step; [apply (decoded_ok now junk _ st1 c id t o HS1 Hl Ho Ef); [intros n _; by apply Hm|intros n ->; apply refs_dict in Edict; lia]|]. cbn beta. intros did st2 (HS2 & _ & _ & _ & _ & o' & sd & Ef2 & Ep & Hrep).
      eapply wp_bind, fetch_wp; [exact Ef2|]. eapply wp_bind, wp_lift; [unfold as_sds; by rewrite Ep|]. rewrite (repr_len _ _ Hrep). destruct (repr_buf _ _ Hrep) as (free & Eb & _). rewrite Eb.
      replace (if longest ts <? zlen t then zlen t else longest ts) with (longest (ts ++ [t])) by (rewrite longest_snoc; destruct (Z.ltb_spec (longest ts) (zlen t)); lia). apply Hnext; [|by exists (0 :: free)| | |done|done].
      * eapply Sim_ext; [|exact HS2]. intros n. rewrite held_snoc. unfold bump. lia.
      * destruct ((j =? 0)%nat || (zlen t <? minlen)); [apply zlen_nonneg|done].
      * apply Forall_app. split; [|constructor; [|constructor]; destruct ((j =? 0)%nat || (zlen t <? minlen)) eqn:E; [lia|]; apply orb_false_iff in E as [_ E]; lia].
        destruct (Nat.eqb_spec j 0) as [->|]; cbn [orb]; [by destruct ts|]. destruct (Z.ltb_spec (zlen t) minlen); [eapply list.Forall_impl; [exact Hmin|cbn beta; intros; lia]|done].
    + destruct Hr as (id & -> & _ & Hx & _). step checkType_ok; [exact HS1|exact Hx|]. intros b st2 [-> HS2]. step release_ok; [exact HS2|]. intros _ st3 HS3. by apply wp_ret.
    + subst r. assert (key_text (kv c) k = []) as Ekt by (unfold key_text; by rewrite Ev). replace (longest ts) with (longest (ts ++ [[]])) by (rewrite longest_snoc; change (zlen (@nil Z)) with 0; pose proof (longest_range ts); lia).
      apply Hnext; [|by exists []|done| |change (zlen (@nil Z)) with 0; unfold MAX_TEXT; lia|done].
      * eapply Sim_ext; [|exact HS1]. intros n. rewrite held_snoc. lia.
      * apply Forall_app. split; [|by repeat constructor]. eapply list.Forall_impl; [exact Hmin|cbn beta; intros; apply zlen_nonneg].
Qed.

Lemma wp_and {A} (m : M A) (P Q : A -> server -> Prop) st : wp m P st -> wp m Q st -> wp m (fun a st' => P a st' /\ Q a st') st.
Proof. unfold wp. by destruct (m st) as [[st' a]|]. Qed.

(** Looking a key up adds no references and changes no contents. *)
Lemma lookup_kept d st c k : mild d -> Sim now d st c -> wp (lookupKeyWrite now k) (fun _ st' => kept (heap st) (heap st') /\ forall n, refs st' n <= refs st n) st.
Proof.
  intros Hm HS. unfold lookupKeyWrite. apply (wp_step _ _ (fun _ st' => kept (heap st) (heap st') /\ forall n, refs st' n <= refs st n)); [|intros b st' H; by apply wp_gets].
  unfold expireIfNeeded. step getExpire_ok; [exact HS|]. intros w ? [-> ->]. assert (kept (heap st) (heap st) /\ forall n, refs st n <= refs st n) as Hsame by (split; [apply kept_heap_refl|done]). destruct (_ <? 0); [by apply wp_ret|]. destruct (now <=? _); [by apply wp_ret|].
  apply wp_bind, wp_modify. eapply wp_mono; [apply (dbSyncDelete_ok now d _ c k Hm); by apply counts_sim0|]. cbn beta. intros b st' (_ & (Ea & Ed & _) & _ & _ & _ & D & Hk). split; [exact Hk|]. intros n. unfold refs. rewrite Ea, Ed, D. cbn.
  destruct (dict st !! k) as [id|] eqn:Ek; [rewrite (drefs_delete n _ _ id) by done; pose proof (one_range id n); lia|by rewrite delete_id].
Qed.

(** A new string becomes the value of a key, and the caller's reference is dropped. *)
Lemma store_new_ok st c k s t : Sim now settled st c -> repr s t -> zlen t <= MAX_TEXT ->
  wp (o ← alloc (createObject OBJ_STRING (PSds s)); _ ← setKey now k o; decrRefCount o) (fun _ st' => Sim now settled st' (with_kv c (<[k := (VStr t, None)]> (kv c)))) st.
Proof.
  intros HS Hrep Hz. step alloc_sim; [exact HS|done|]. intros id st1 (-> & E1 & HS1 & _ & H0). set (n := next st) in *. set (o := createObject OBJ_STRING (PSds s)) in *. assert (heap st1 !! n = Some o) as En by (subst st1; apply lookup_insert_eq). assert (obj_text o t) as Ho by (by apply (text_sds _ _ s)). clear E1.
  assert (mild (bump (Heap n) 1 settled)) as Hm by (intros m; unfold bump, settled; pose proof (one_range (Heap n) m); lia). unfold setKey. apply wp_bind. eapply wp_step; [apply wp_and; [apply (lookupKeyWrite_ok now _ st1 c k Hm HS1)|apply (lookup_kept _ st1 c k Hm HS1)]|]. cbn beta. intros r st2 ((HS2 & _ & Ek & Hr) & Hk & Hrefs).
  assert (forall m, Heap n = Heap m -> refs st2 m = 0) as H2 by (intros m [= <-]; specialize (Hrefs n); pose proof (refs_nonneg st2 n); lia). destruct (new_facts now _ st2 c (Heap n) HS2 H2) as (Hu & Hf & Hne).
  destruct (owned_live st2 _ n (sim_owned _ _ _ _ HS2)) as (o2 & En2); [right; unfold bump, settled; rewrite one_same; lia|]. pose proof (Hk n o o2 En En2) as Hsame. assert (val_of (heap st2) (Heap n) (VStr t)) as Hx by (split; [done|]; exists o2; split; [done|by eapply obj_text_same]).
  assert (exists e, wp (match r with None => dbAdd k (Heap n) | Some _ => dbOverwrite k (Heap n) end) (fun _ st' => Sim now settled st' (with_kv c (<[k := (VStr t, e)]> (kv c))) /\ dict st' !! k = Some (Heap n)) st2) as (e & Hw).
  { assert (forall m, bump (Heap n) (-1) (bump (Heap n) 1 settled) m = settled m) as Hb by (intros m; unfold bump, settled; lia). destruct r as [old|].
    - destruct (kv c !! k) as [[x0 e]|] eqn:Ev; [|by destruct Hr]. exists e. eapply wp_mono; [apply (dbOverwrite_ok now _ st2 c k (Heap n) (VStr t) old x0 e HS2 Ek Ev Hx Hu Hf)|].
      + intros m ->. split; [apply Hm|by apply (Hne k)].
      + cbn beta. intros _ st' (HS' & h & -> & _). split; [by eapply Sim_ext|cbn; apply lookup_insert_eq].
    - exists None. eapply wp_mono; [apply (dbAdd_ok now _ st2 c k (Heap n) (VStr t) HS2 Ek Hx Hu Hf)|]. cbn beta. intros _ st' (HS' & ->). split; [by eapply Sim_ext|cbn; apply lookup_insert_eq]. }
  eapply wp_step; [exact Hw|]. cbn beta. intros _ st3 [HS3 Ek3]. step incr_sim; [exact HS3|by eapply dict_live; [apply HS3|]|intros; unfold settled; lia|]. intros _ st4 (HS4 & h & -> & _).
  step removeExpire_ok; [exact HS4|apply lookup_insert_eq|]. intros b st5 (HS5 & _ & _). apply wp_ret. cbn in HS5. rewrite insert_insert_eq in HS5. eapply wp_mono; [apply decr_sim; [exact HS5| |]|].
  - apply (owned_live _ _ n (sim_owned _ _ _ _ HS5)). right. unfold bump, settled. rewrite one_same. lia.
  - intros m [= <-]. left. unfold bump, settled. rewrite one_same. lia.
  - cbn beta. intros _ st6 (HS6 & _). eapply Sim_ext; [|exact HS6]. intros m. unfold bump, settled. lia.
Qed.

Lemma longest_nil ts : Forall (fun t => zlen t <= longest ts) ts.
Proof.
  unfold longest. induction ts as [|t ts IH]; constructor; cbn [foldr]; [lia|]. eapply list.Forall_impl; [exact IH|cbn beta; intros; lia].
Qed.

Lemma zlen_bitop_text op first rest n : zlen (bitop_text op first rest n) = Z.of_nat n.
Proof. unfold bitop_text, zlen. by rewrite List.length_map, length_seq. Qed.

Lemma bitop_refines n args : (3 <= length args)%nat -> zlen args < 2 ^ 30 -> refines now (bitopCommand junk now) (n :: args) (fun m => spec_bitop m args).
Proof.
  intros Hne Hlen st c HS Ha. destruct args as [|opname [|dst [|k ks]]]; [cbn in Hne; lia..|]. clear Hne. unfold bitopCommand, spec_bitop. step arg_text_ok; [exact HS|by rewrite Ha|]. intros ? ? [-> ->]. destruct (bitop_name opname) as [op|]; [|by apply reply_unchanged; [apply replies_string|]].
  apply wp_bind, wp_gets. rewrite (argc_fresh now _ _ _ _ HS Ha). cbn [length]. replace (S (S (S (S (length ks)))) - 3)%nat with (length (k :: ks)) by (cbn; lia). change (S (S (S (S (length ks)))) =? 4)%nat with (S (length ks) =? 1)%nat.
  destruct (_ && _); [apply reply_unchanged; [apply replies_error|done]|].
  eapply wp_step; [apply (bitop_sources_ok (n :: opname :: dst :: k :: ks) (k :: ks) 0 [] [] [] 0 st c); try done|].
  { rewrite !zlen_cons in *. change (zlen (@nil (option oid))) with 0. lia. }
  cbn beta. intros r st1 H1. destruct (existsb _ (k :: ks)); [destruct H1 as [-> HS1]; apply wp_ret; by apply finish_unchanged|]. destruct H1 as (objects & srcs & minlen & -> & HS1 & HF & H0 & Hmin & Hmax). cbn [app map] in *. set (first := key_text (kv c) k) in *. set (rest := map (key_text (kv c)) ks) in *. set (N := longest (first :: rest)) in *.
  assert (0 <= N) as HN by apply longest_range. inversion HF as [|s0 ? srest ? Hs0 HFr]; subst.
  eapply (wp_step _ _ (fun r st' => st' = st1 /\ if N =? 0 then r = None else exists s, r = Some s /\ repr s (bitop_text op first rest (Z.to_nat N)))).
  { destruct (Z.eqb_spec N 0); cbn [negb]; [by apply wp_ret|]. destruct (sdsnewlen_null junk N) as (sd & Es & Hrep); [unfold MAX_TEXT in *; lia|]. eapply wp_bind, wp_lift; [exact Es|]. destruct (repr_buf _ _ Hrep) as (free & Eb & _). rewrite Eb. assert (zlen (zrep N 0) = N) as Hzr by (rewrite zlen_zrep; lia).
    pose proof (bitop_compute_ok op s0 first srest rest (zrep N 0) (0 :: free) minlen Hs0 HFr H0 Hmin) as Ec. rewrite Hzr in Ec. replace (length (zrep N 0)) with (Z.to_nat N) in Ec by (unfold zlen in Hzr; lia).
    eapply wp_bind, wp_lift; [apply Ec; apply list.Forall_cons_1 in Hmin as [Hm _]; pose proof (longest_nil (first :: rest)) as Hll; apply list.Forall_cons_1 in Hll as [Hll _]; fold N in Hll; lia|]. apply wp_ret. split; [done|]. eexists. split; [done|]. apply (repr_same_len sd (zrep N 0)); [done|done|]. rewrite zlen_bitop_text, Hzr. lia. }
  intros r st2 [-> Hr]. step release_ok; [exact HS1|]. intros _ st3 HS3. step arg_text_ok; [exact HS3|by rewrite Ha|]. intros ? ? [-> ->].
  apply (wp_step _ _ (fun _ st' => Sim now settled st' (with_kv c (if N =? 0 then base.delete dst (kv c) else <[dst := (VStr (bitop_text op first rest (Z.to_nat N)), None)]> (kv c))))).
  { destruct (N =? 0).
    - subst r. step dbSyncDelete_ok; [apply mild_settled|exact HS3|]. intros b st4 (HS4 & _). by apply wp_ret.
    - destruct Hr as (s & -> & Hrep). apply store_new_ok; [done|done|]. rewrite zlen_bitop_text. lia. }
  intros _ st4 HS4. step add_dirty_sim; [exact HS4|]. intros _ st5 HS5. eapply end_replies; [apply replies_int; unfold in_s, MAX_TEXT in *; lia|exact HS5|]. intros st6 HS6. eapply finish; [exact HS6|done..].
Qed.

(** *** BITFIELD *)

Lemma type_ok d st c j t : Sim now d st c -> aargs c !! j = Some (t, Fresh) -> wp (getBitfieldTypeFromArgument j) (fun r st' =>
  r = spec_type t /\ match spec_type t with Some _ => st' = st | None => Sim now d st' (says c err_type) end) st.
Proof.
  intros HS Ej. unfold getBitfieldTypeFromArgument. step arg_sds_ok; [exact HS|exact Ej|]. intros s ? [-> Hrep]. destruct (repr_buf _ _ Hrep) as (free & Eb & _). assert (forall (Q : option (bool * Z) -> server -> Prop), (forall st', Sim now d st' (says c err_type) -> Q None st') -> wp (_ ← addReplyError (str "Invalid bitfield type. Use something like i16 u8. Note that u64 is not supported but i64 is."); mret None) Q st) as Herr.
  { intros Q HQ. step (@replies_sim now unit); [apply replies_error|exact HS|]. intros _ st1 (_ & HS1 & _). apply wp_ret. by apply HQ. }
  rewrite Eb. destruct t as [|x t].
  - eapply wp_bind, wp_lift; [apply (peek_app [] 0 free 0 eq_refl)|]. apply Herr. done.
  - eapply wp_bind, wp_lift; [apply (peek_app [] x (t ++ 0 :: free) 0 eq_refl)|]. cbn [spec_type]. destruct (_ && _); [by apply Herr|].
    change (zdrop 1 ((x :: t) ++ 0 :: free)) with (t ++ 0 :: free). eapply wp_bind, wp_lift; [apply strlen_ok|]. destruct (cstring_split t) as (post & Et & _). eapply wp_bind, wp_lift; [rewrite Et at 1; rewrite <- app_comm_cons, <- app_assoc; by apply (rd_app [x] (cstring t))|].
    destruct (string2ll (cstring t)) as [b|]; cbn [mbind option_bind]; [|by apply Herr]. destruct (_ || _ || _); [by apply Herr|by apply wp_ret].
Qed.

(** What the parser has to return for the rest of the arguments. *)
Definition parse_post (st : server) (c : config) (ops : list bitfieldOp) (ro : bool) (hi : Z) (s : parsed) (r : option (list bitfieldOp * bool * Z)) (st' : server) : Prop :=
  match s with
  | inl e => r = None /\ Sim now settled st' (says c e)
  | inr l => r = Some (ops ++ l, ro && forallb is_get l, Z.max hi (maxbit l)) /\ st' = st
  end.

Lemma parse_post_cons st c ops ro hi op s r st' : parse_post st c (ops ++ [op]) (ro && is_get op) (if is_get op then hi else Z.max hi (bf_offset op + bf_bits op - 1)) s r st' -> parse_post st c ops ro hi (and_then op s) r st'.
Proof.
  destruct s as [e|l]; [done|]. intros [-> ->]. split; [|done]. rewrite <- app_assoc. cbn [app forallb]. rewrite andb_assoc. unfold maxbit. cbn [foldr]. destruct (is_get op); [done|]. by rewrite Z.max_assoc.
Qed.

Lemma opcode_args sub n code : bf_opcode_name sub n = Some code -> (2 <= n)%nat /\ (code <> BITFIELDOP_GET -> 3 <= n)%nat.
Proof.
  unfold bf_opcode_name. destruct (name_is sub (str "get") && (2 <=? n)%nat) eqn:E1; [apply andb_true_iff in E1 as [_ E1%Nat.leb_le]; by intros [= <-]|].
  destruct (name_is sub (str "set") && (3 <=? n)%nat) eqn:E2; [apply andb_true_iff in E2 as [_ E2%Nat.leb_le]; intros [= <-]; split; [lia|done]|].
  destruct (name_is sub (str "incrby") && (3 <=? n)%nat) eqn:E3; [apply andb_true_iff in E3 as [_ E3%Nat.leb_le]; intros [= <-]; split; [lia|done]|done].
Qed.

Lemma parse_ok args : forall fuel rest j ow ops ro hi st c, drop j args = rest -> (length rest <= fuel)%nat -> Sim now settled st c -> aargs c = fresh args -> 0 <= hi ->
  wp (bitfield_parse fuel j ow ops ro hi) (parse_post st c ops ro hi (spec_ops rest ow)) st.
Proof.
  induction fuel as [|fuel IH]; intros rest j ow ops ro hi st c Ed Hf HS Ha Hhi; cbn [bitfield_parse]; apply wp_bind, wp_gets; rewrite (argc_fresh now _ _ _ _ HS Ha).
  - destruct rest; [|cbn in Hf; lia]. apply drop_nil_iff in Ed || (apply (f_equal length) in Ed; rewrite length_drop in Ed; cbn in Ed). rewrite (proj2 (Nat.leb_le _ _)) by lia. apply wp_ret. cbn. rewrite app_nil_r, andb_true_r, Z.max_l by done. done.
  - destruct rest as [|sub rest].
    { apply (f_equal length) in Ed. rewrite length_drop in Ed. cbn in Ed. rewrite (proj2 (Nat.leb_le _ _)) by lia. apply wp_ret. cbn. rewrite app_nil_r, andb_true_r, Z.max_l by done. done. }
    assert (length args - j = S (length rest))%nat as Hlen by (apply (f_equal length) in Ed; by rewrite length_drop in Ed). rewrite (proj2 (Nat.leb_gt _ _)) by lia. replace (length args - j - 1)%nat with (length rest) by lia.
    apply drop_here in Ed as [Ek Ed]. step arg_text_ok; [exact HS|by eapply fresh_lookup|]. intros ? ? [-> ->]. cbn [spec_ops]. destruct (bf_opcode_name sub (length rest)) as [code|] eqn:Ecode.
    + apply opcode_args in Ecode as [H2 H3]. destruct rest as [|ty [|off rest]]; [cbn in H2; lia..|]. apply drop_here in Ed as [Ety Ed]. apply drop_here in Ed as [Eoff Ed]. replace (S j) with (j + 1)%nat in * by lia. replace (S (j + 1)) with (j + 2)%nat in * by lia. replace (S (j + 2)) with (j + 3)%nat in * by lia.
      step type_ok; [exact HS|by eapply fresh_lookup|]. intros r st1 [-> H1]. destruct (spec_type ty) as [[sign bits]|]; [subst st1|by apply wp_ret]. step offset_ok; [exact HS|by eapply fresh_lookup|]. intros r st1 [-> H1]. destruct (spec_offset off true bits) as [i|]; [subst st1|by apply wp_ret].
      case_bool_decide as Hg.
      * eapply wp_mono; [apply (IH rest (j + 3)%nat); [exact Ed|cbn in Hf; lia|exact HS|exact Ha|exact Hhi]|]. cbn beta. intros r st1 Hp. apply parse_post_cons. unfold is_get at 1 2. cbn [bf_code]. rewrite bool_decide_eq_true_2, andb_true_r by done. exact Hp.
      * destruct rest as [|v rest]; [specialize (H3 Hg); cbn in H3; lia|]. apply drop_here in Ed as [Ev Ed]. replace (S (j + 3)) with (j + 4)%nat in * by lia. step long_arg_ok; [exact HS|by eapply fresh_lookup|]. intros r st1 [-> H1]. destruct (string2ll v) as [z|]; [subst st1|by apply wp_ret].
        eapply wp_mono; [apply (IH rest (j + 4)%nat); [exact Ed|cbn in Hf; lia|exact HS|exact Ha|case_match; lia]|]. cbn beta. intros r st1 Hp. apply parse_post_cons. unfold is_get at 1 2. cbn [bf_code bf_offset bf_bits]. rewrite bool_decide_eq_false_2, andb_false_r by done.
        replace (Z.max hi (i + bits - 1)) with (if hi <? i + bits - 1 then i + bits - 1 else hi) by (case_match; lia). exact Hp.
    + assert (forall (Q : option (list bitfieldOp * bool * Z) -> server -> Prop), (forall st', Sim now settled st' (says c reply_syntaxerr) -> Q None st') -> wp (_ ← addReplyString reply_syntaxerr; mret None) Q st) as Herr.
      { intros Q HQ. step addReplyString_sim; [exact HS|]. intros _ st1 HS1. apply wp_ret. by apply HQ. }
      destruct rest as [|name rest]; [rewrite andb_false_r; by apply Herr|]. cbn [length Nat.leb]. rewrite andb_true_r. destruct (name_is sub (str "overflow")); [|by apply Herr].
      apply drop_here in Ed as [Eow Ed]. replace (S j) with (j + 1)%nat in * by lia. replace (S (j + 1)) with (j + 2)%nat in * by lia. step arg_text_ok; [exact HS|by eapply fresh_lookup|]. intros ? ? [-> ->]. destruct (bf_overflow_name name) as [ow'|].
      * apply IH; [exact Ed|cbn in Hf; lia|done..].
      * step (@replies_sim now unit); [apply replies_error|exact HS|]. intros _ st1 (_ & HS1 & _). by apply wp_ret.
Qed.

Lemma field_inside t e off bits : 0 <= bits -> 0 <= off -> off + bits <= 8 * zlen t -> be_val (ztake bits (zdrop off (bits_of (t ++ e)))) 0 = field t off bits.
Proof.
  intros Hb Ho Hl. unfold field. f_equal. rewrite bits_of_app. unfold ztake, zdrop. pose proof (length_bits_of t). rewrite !drop_app_le by (unfold zlen in Hl; lia). rewrite !take_app_le by (rewrite length_drop; unfold zlen in Hl; lia). done.
Qed.

Lemma field_range t off bits : 0 <= bits -> 0 <= off -> 0 <= field t off bits < 2 ^ bits.
Proof.
  intros Hb Ho. unfold field. set (l := ztake _ _). destruct (be_val_acc l 0) as [_ H]. assert (zlen l = bits) as E; [|by rewrite E in H]. unfold l. rewrite zlen_ztake, zlen_zdrop, zlen_app, zlen_zrep. pose proof (zlen_nonneg (bits_of t)). lia.
Qed.

Lemma overflow_limit lo hi w ow x : lo <= hi -> lo <= w <= hi -> let '(o, l) := overflow_spec lo hi w ow x in
  (o = 0 /\ lo <= x <= hi) \/ (o <> 0 /\ ((exists v, l = Some v /\ lo <= v <= hi /\ ow <> BFOVERFLOW_FAIL) \/ (l = None /\ ow = BFOVERFLOW_FAIL))).
Proof.
  intros Hlh Hw. unfold overflow_spec. destruct ((lo <=? x) && (x <=? hi)) eqn:E; [cbn beta iota; left; lia|].
  destruct ow; [|destruct (hi <? x)|destruct (hi <? x)]; cbn beta iota; right; (split; [done|]); [left..|right|right]; try done; eexists; (split; [done|]); (split; [lia|done]).
Qed.

Lemma bitfield_write_ok op t e : op_ok op -> is_get op = false -> bf_offset op + bf_bits op <= 8 * zlen t ->
  exists t' ret, bitfield_write junk op (t ++ e) = Ok (t' ++ e, ret) /\ zlen t' = zlen t /\ spec_step op t = (t', match ret with Some v => int_reply v | None => reply_nullbulk end) /\ forall v, ret = Some v -> in_s 64 v.
Proof.
  intros (Hb & Ho & Hp & Hi & Hset) Hg Hl. unfold spec_step. rewrite Hg. unfold bitfield_write, field_value. pose proof (zlen_nonneg e). assert (8 * zlen t <= 8 * zlen (t ++ e)) as Hle by (rewrite zlen_app; lia). set (off := bf_offset op) in *. set (bits := bf_bits op) in *. set (iv := bf_i64 op) in *.
  pose proof (field_range t off bits ltac:(lia) Ho) as Hf. destruct (pow2_63 bits Hb) as [E1 E2]. set (u := field t off bits) in *. cbv zeta. unfold in_s in Hi. change (64 - 1) with 63 in Hi.
  assert (forall new, zlen (write_bits t off (field_bits (Z.to_nat bits) new)) = zlen t) as Hzw by (intros; apply zlen_write_bits). assert (forall new, write_bits (t ++ e) off (field_bits (Z.to_nat bits) new) = write_bits t off (field_bits (Z.to_nat bits) new) ++ e) as Hwp by (intros; apply write_bits_prefix; [done|rewrite zlen_field_bits; lia]).
  destruct (bf_sign op) eqn:Esign.
  - rewrite getSignedBitfield_ok by lia. cbn [mbind res_bind]. rewrite field_inside by lia. fold u. set (old := swrap bits u). pose proof (swrap_range bits u ltac:(lia)) as Hold. fold old in Hold. set (incrby := bool_decide (bf_code op = BITFIELDOP_INCRBY)).
    set (x := if incrby then old + iv else iv). assert ((if incrby then checkSignedBitfieldOverflow old iv bits (bf_owtype op) else checkSignedBitfieldOverflow (if incrby then i64 (old + iv) else iv) 0 bits (bf_owtype op)) = Ok (signed_spec bits (bf_owtype op) x)) as ->.
    { unfold x, incrby in *. case_bool_decide as Hc; [apply checkSigned_ok; [done|unfold in_s in *; lia|unfold in_s; lia|by right]|]. rewrite <- (Z.add_0_r iv) at 2. apply checkSigned_ok; [done|unfold in_s; lia|done|left]. split; [done|]. apply Hset; [done|]. unfold is_get in Hg. apply bool_decide_eq_false in Hg. by destruct (bf_code op). }
    cbn [mbind res_bind]. pose proof (overflow_limit (- 2 ^ (bits - 1)) (2 ^ (bits - 1) - 1) (swrap bits x) (bf_owtype op) x ltac:(lia) ltac:(pose proof (swrap_range bits x ltac:(lia)) as Hs; unfold in_s in Hs; lia)) as Hov. fold (signed_spec bits (bf_owtype op) x) in Hov.
    destruct (signed_spec bits (bf_owtype op) x) as [o l]. unfold in_s in Hold. destruct Hov as [[-> Hx]|[Hne [(v & -> & Hv & Hnf)|[-> Hfail]]]].
    + change (0 =? 0) with true. cbn [negb andb]. assert ((if incrby then i64 (old + iv) else iv) = x) as -> by (unfold x in *; destruct incrby; [apply swrap_id; [lia|unfold in_s; lia]|done]). rewrite setSignedBitfield_ok by lia. cbn [mbind res_bind]. rewrite Hwp. eexists _, _. split_and!; [done|apply Hzw|done|]. intros ? [= <-]. unfold in_s. destruct incrby; lia.
    + rewrite (proj2 (Z.eqb_neq o 0)), bool_decide_eq_false_2 by done. cbn [negb andb default]. rewrite setSignedBitfield_ok by lia. cbn [mbind res_bind]. rewrite Hwp. eexists _, _. split_and!; [done|apply Hzw|done|]. intros ? [= <-]. unfold in_s. destruct incrby; cbn; lia.
    + rewrite (proj2 (Z.eqb_neq o 0)), bool_decide_eq_true_2 by done. cbn [negb andb]. by exists t, None.
  - rewrite getUnsignedBitfield_ok by lia. cbn [mbind res_bind]. rewrite field_inside by lia. fold u. set (incrby := bool_decide (bf_code op = BITFIELDOP_INCRBY)). pose proof (uwrap_range 64 iv ltac:(lia)) as Huv. unfold in_u in Huv.
    set (x := if incrby then u + iv else u64 iv). assert ((if incrby then checkUnsignedBitfieldOverflow u iv bits (bf_owtype op) else checkUnsignedBitfieldOverflow (if incrby then u64 (u + iv) else u64 iv) 0 bits (bf_owtype op)) = Ok (unsigned_spec bits (bf_owtype op) x)) as ->.
    { unfold x, incrby in *. case_bool_decide as Hc; [apply checkUnsigned_ok; [done|unfold in_u; lia|unfold in_s; lia|right; lia]|]. rewrite <- (Z.add_0_r (u64 iv)) at 2. apply checkUnsigned_ok; [done|done|done|by left]. }
    cbn [mbind res_bind]. pose proof (overflow_limit 0 (2 ^ bits - 1) (x mod 2 ^ bits) (bf_owtype op) x ltac:(lia) ltac:(pose proof (Z.mod_pos_bound x (2 ^ bits) ltac:(lia)); lia)) as Hov. fold (unsigned_spec bits (bf_owtype op) x) in Hov.
    destruct (unsigned_spec bits (bf_owtype op) x) as [o l]. destruct Hov as [[-> Hx]|[Hne [(v & -> & Hv & Hnf)|[-> Hfail]]]].
    + change (0 =? 0) with true. cbn [negb andb]. assert ((if incrby then u64 (u + iv) else u64 iv) = x) as -> by (unfold x in *; destruct incrby; [apply uwrap_id; unfold in_u; lia|done]). rewrite setUnsignedBitfield_ok by lia. cbn [mbind res_bind]. rewrite Hwp.
      assert (in_s 64 (if incrby then x else u)) as Hr by (unfold in_s; destruct incrby; lia). rewrite swrap_id by (done || lia). eexists _, _. split_and!; [done|apply Hzw|done|]. by intros ? [= <-].
    + rewrite (proj2 (Z.eqb_neq o 0)), bool_decide_eq_false_2 by done. cbn [negb andb default]. rewrite setUnsignedBitfield_ok by lia. cbn [mbind res_bind]. rewrite Hwp. assert (in_s 64 (if incrby then v else u)) as Hr by (unfold in_s; destruct incrby; lia). cbn. rewrite swrap_id by (done || lia). eexists _, _. split_and!; [done|apply Hzw|done|]. by intros ? [= <-].
    + rewrite (proj2 (Z.eqb_neq o 0)), bool_decide_eq_true_2 by done. cbn [negb andb]. by exists t, None.
Qed.

Lemma bits_of_drop n : forall t, bits_of (drop n t) = drop (8 * n) (bits_of t).
Proof.
  induction n as [|n IH]; intros t; [done|]. destruct t as [|x t]; [by rewrite drop_nil|]. cbn [drop]. rewrite IH. replace (8 * S n)%nat with (8 + 8 * n)%nat by lia. done.
Qed.

Lemma bits_of_zeros n : bits_of (replicate n 0) = replicate (8 * n) false.
Proof. induction n as [|n IH]; [done|]. replace (8 * S n)%nat with (8 + 8 * n)%nat by lia. cbn [replicate]. change (bits_of (0 :: replicate n 0)) with (byte_bits 0 ++ bits_of (replicate n 0)). rewrite IH. done. Qed.

Lemma bits_of_take n : forall t, bits_of (take n t) = take (8 * n) (bits_of t).
Proof.
  induction n as [|n IH]; intros t; [done|]. destruct t as [|x t]; [by rewrite take_nil|]. cbn [take]. change (bits_of (x :: ?r)) with (byte_bits x ++ bits_of r). rewrite IH. replace (8 * S n)%nat with (8 + 8 * n)%nat by lia. done.
Qed.

Lemma lookup_zero_padded (l : list bool) n i : (i < length l + n)%nat -> (l ++ replicate n false) !! i = Some (default false (l !! i)).
Proof.
  intros Hi. destruct (decide (i < length l)%nat) as [Hl|Hl].
  - rewrite lookup_app_l by done. destruct (lookup_lt_is_Some_2 l i Hl) as [b ->]. done.
  - rewrite lookup_app_r by lia. rewrite lookup_replicate_2 by lia. by rewrite lookup_ge_None_2 by lia.
Qed.

(** A window of nine bytes holds every field of at most 64 bits that starts in its first
    byte. *)
Lemma window_field t off bits : 0 <= bits <= 64 -> 0 <= off -> be_val (ztake bits (zdrop (off mod 8) (bits_of (padded 9 (zdrop (off / 8) t))))) 0 = field t off bits.
Proof.
  intros Hb Ho. unfold field. f_equal. pose proof (Z.mod_pos_bound off 8 ltac:(lia)) as Hm. pose proof (Z.div_pos off 8 ltac:(lia) ltac:(lia)) as Hd. pose proof (Z_div_mod_eq_full off 8) as Eo. set (r := off mod 8) in *. set (q := off / 8) in *.
  assert (forall j, (j < Z.to_nat bits)%nat -> bits_of (padded 9 (zdrop q t)) !! (Z.to_nat r + j)%nat = Some (default false (bits_of t !! (Z.to_nat off + j)%nat))) as Hl.
  { intros j Hj. unfold padded. rewrite bits_of_take, lookup_take_lt by lia. rewrite bits_of_app, bits_of_zeros, lookup_zero_padded by lia. do 2 f_equal. unfold zdrop. rewrite bits_of_drop, lookup_drop. f_equal. lia. }
  assert (forall j, (j < Z.to_nat bits)%nat -> (bits_of t ++ zrep (off + bits) false) !! (Z.to_nat off + j)%nat = Some (default false (bits_of t !! (Z.to_nat off + j)%nat))) as Hr.
  { intros j Hj. unfold zrep. apply lookup_zero_padded. lia. }
  unfold ztake, zdrop at 1 3. apply list_eq. intros j. destruct (decide (j < Z.to_nat bits)%nat); [|by rewrite !lookup_take_ge by lia]. rewrite !lookup_take_lt, !lookup_drop by done. by rewrite Hl, Hr.
Qed.

Lemma bitfield_copy_ok src e n : forall a s b post, src = a ++ s -> zlen b = Z.of_nat n -> forall i byte strlen, i + byte = zlen a -> strlen = zlen src -> 0 <= i -> zlen post = i ->
  bitfield_copy n (src ++ e) strlen byte i (post ++ b) = Ok (post ++ map u8 (take n s) ++ drop (length s) b).
Proof.
  induction n as [|n IH]; intros a s b post Es Hb i byte strlen Hib Hsl Hi Hpost; cbn [bitfield_copy].
  - assert (b = []) as -> by (by apply zlen_0_nil). cbn [take map app]. by rewrite drop_nil.
  - rewrite Hib, Hsl, Es, zlen_app. destruct s as [|x s].
    + change (zlen (@nil Z)) with 0. rewrite Z.add_0_r, Z.leb_refl. cbn [take map app length]. by rewrite drop_0.
    + rewrite zlen_cons. pose proof (zlen_nonneg s). rewrite (proj2 (Z.leb_gt _ _)) by lia. rewrite <- app_assoc, <- app_comm_cons, peek8_app by done. cbn [mbind res_bind]. destruct b as [|y b]; [change (zlen (@nil Z)) with 0 in Hb; lia|]. rewrite poke_app by done. cbn [mbind res_bind]. rewrite zlen_cons in Hb.
      specialize (IH (a ++ [x]) s b (post ++ [u8 x]) ltac:(rewrite Es, <- app_assoc; done) ltac:(lia) (i + 1) byte strlen ltac:(rewrite zlen_app; change (zlen [x]) with 1; lia) Hsl ltac:(lia) ltac:(rewrite zlen_app; change (zlen [u8 x]) with 1; lia)).
      rewrite Hsl, Es, !zlen_app, zlen_cons, <- !app_assoc in IH. cbn [app] in IH. rewrite IH. done.
Qed.

Lemma window_bytes (t : list Z) q : 0 <= q -> map u8 (take 9 (zdrop q t)) ++ drop (length (zdrop q t)) (zrep 9 0) = map u8 (padded 9 (zdrop q t)).
Proof.
  intros Hq. unfold padded. set (s := zdrop q t). change (zrep 9 0) with (replicate 9 0). destruct (decide (9 <= length s)%nat).
  - rewrite drop_ge, app_nil_r by (rewrite length_replicate; lia). by rewrite take_app_le by lia.
  - rewrite take_ge by lia. rewrite take_app_ge by lia. rewrite map_app. f_equal. rewrite drop_replicate, take_replicate, Nat.min_l by lia. clear. induction (9 - length s)%nat as [|n IH]; [done|]. cbn [replicate map]. by rewrite <- IH.
Qed.

Lemma bitfield_read_ok op t e : op_ok op -> zlen t <= MAX_TEXT -> bitfield_read op (t ++ e) (zlen t) = Ok (field_value op t) /\ in_s 64 (field_value op t).
Proof.
  intros (Hb & Ho & Hend & _ & _) Hz. unfold bitfield_read, field_value. destruct (offset_parts (bf_offset op) Ho) as (-> & _ & Hm). set (off := bf_offset op) in *. set (bits := bf_bits op) in *. pose proof (Z.div_pos off 8 ltac:(lia) ltac:(lia)) as Hd. pose proof (Z_div_mod_eq_full off 8) as Eo. destruct (pow2_63 bits Hb) as [E1 E2]. pose proof (field_range t off bits ltac:(lia) Ho) as Hf.
  assert (bitfield_copy 9 (t ++ e) (zlen t) (off / 8) 0 (zrep 9 0) = Ok (map u8 (padded 9 (zdrop (off / 8) t)))) as ->.
  { destruct (Z.le_gt_cases (off / 8) (zlen t)) as [Hle|Hgt].
    - pose proof (bitfield_copy_ok t e 9 (ztake (off / 8) t) (zdrop (off / 8) t) (zrep 9 0) [] ltac:(by rewrite ztake_zdrop) eq_refl 0 (off / 8) (zlen t) ltac:(rewrite zlen_ztake; lia) eq_refl ltac:(lia) eq_refl) as E. cbn [app] in E. rewrite E. f_equal. by apply window_bytes.
    - cbn [bitfield_copy]. rewrite Z.add_0_l, (proj2 (Z.leb_le (zlen t) (off / 8))) by lia. by rewrite zdrop_all by lia. }
  cbn [mbind res_bind]. replace (off - off / 8 * 8) with (off mod 8) by lia. set (w := map u8 (padded 9 (zdrop (off / 8) t))). assert (zlen w = 9) as Hw by (unfold w; by rewrite zlen_map, zlen_padded).
  assert (be_val (ztake bits (zdrop (off mod 8) (bits_of w))) 0 = field t off bits) as Ew by (unfold w; rewrite bits_of_u8; apply window_field; lia).
  destruct (bf_sign op).
  - rewrite getSignedBitfield_ok, Ew by lia. split; [done|]. pose proof (swrap_range bits (field t off bits) ltac:(lia)) as Hs. unfold in_s in *. lia.
  - rewrite getUnsignedBitfield_ok, Ew by lia. cbn [mbind res_bind]. rewrite swrap_id by (lia || unfold in_s; lia). split; [done|]. unfold in_s. lia.
Qed.

Lemma spec_step_get op t : is_get op = true -> spec_step op t = (t, int_reply (field_value op t)).
Proof. unfold spec_step. by intros ->. Qed.

Lemma says_nil c : says c [] = c.
Proof. destruct c. unfold says. cbn. by rewrite app_nil_r. Qed.

(** GET on a text that no one writes. *)
Lemma run_get_ok {A} st c op t o (k : M A) (Q : A -> server -> Prop) : Sim now settled st c -> op_ok op -> zlen t <= MAX_TEXT -> match o with None => t = [] | Some id => text_of (heap st) id t end ->
  (forall st', Sim now settled st' (says c (int_reply (field_value op t))) -> st' = set_out st (out st ++ int_reply (field_value op t)) -> wp k Q st') ->
  wp ('(src, strlen) ← match o with None => mret ([], 0) | Some id => ob ← fetch id; lift (getObjectReadOnlyString junk ob) end; v ← lift (bitfield_read op src strlen); _ ← addReplyLongLong junk v; k) Q st.
Proof.
  intros HS Hop Hz Ho Hk. apply (wp_step _ _ (fun r st' => st' = st /\ exists e, r = (t ++ e, zlen t))).
  - destruct o as [id|]; [|subst t; apply wp_ret; split; [done|by exists []]]. eapply wp_bind, fetch_text; [exact Ho|]. intros ob Hob. destruct (read_only_ok ob t Hob Hz) as (e & E). eapply wp_lift; [exact E|]. split; [done|by exists e].
  - intros [src strlen] st1 (-> & e & [= -> ->]). destruct (bitfield_read_ok op t e Hop Hz) as [E Hr]. eapply wp_bind, wp_lift; [exact E|]. pose proof (replies_int junk (field_value op t) st Hr) as Hrep. apply wp_bind. unfold wp at 1. rewrite Hrep. apply Hk; [|done].
    pose proof (replies_sim now _ _ _ _ _ _ Hrep HS) as H. unfold wp in H. rewrite Hrep in H. apply H.
Qed.

Lemma run_read_ok ops t o : Forall op_ok ops -> forallb is_get ops = true -> zlen t <= MAX_TEXT -> forall st c, Sim now settled st c -> match o with None => t = [] | Some id => text_of (heap st) id t end ->
  wp (bitfield_run junk ops o 0) (fun n st' => n = 0 /\ Sim now settled st' (says c (spec_run ops t).2)) st.
Proof.
  intros HF. induction HF as [|op ops Hop HF IH]; intros Hg Hz st c HS Ho; cbn [bitfield_run spec_run].
  - apply wp_ret. cbn. by rewrite says_nil.
  - cbn [forallb] in Hg. apply andb_true_iff in Hg as [Hg Hgs]. fold (is_get op). rewrite Hg, spec_step_get by done. eapply run_get_ok; [exact HS|exact Hop|exact Hz|exact Ho|]. intros st1 HS1 E1. eapply wp_mono; [apply (IH Hgs Hz st1 _ HS1); subst st1; exact Ho|].
    cbn beta. intros n st2 [-> HS2]. split; [done|]. rewrite says_says in HS2. destruct (spec_run ops t) as [t' rs]. exact HS2.
Qed.

Lemma zlen_spec_step op t : zlen (spec_step op t).1 = zlen t.
Proof. unfold spec_step. destruct (is_get op); [done|]. destruct (_ (bf_bits op) (bf_owtype op) _) as [o l]. destruct (_ && _); [done|]. apply zlen_write_bits. Qed.

Lemma with_kv_twice c m m' x : with_kv (says (with_kv c m) x) m' = says (with_kv c m') x.
Proof. done. Qed.

Lemma run_write_ok ops k e : Forall op_ok ops -> forall id t ch st c, Forall (fun op => is_get op = false -> bf_offset op + bf_bits op <= 8 * zlen t) ops -> zlen t <= MAX_TEXT ->
  Sim now settled st c -> dict st !! k = Some id -> kv c !! k = Some (VStr t, e) -> writable st id t ->
  wp (bitfield_run junk ops (Some id) ch) (fun n st' => n = ch + writes ops /\ Sim now settled st' (says (with_kv c (<[k := (VStr (spec_run ops t).1, e)]> (kv c))) (spec_run ops t).2)) st.
Proof.
  intros HF. induction HF as [|op ops Hop HF IH]; intros id t ch st c Hfit Hz HS Ek Ev Hw; cbn [bitfield_run spec_run].
  - apply wp_ret. cbn. rewrite says_nil, (insert_id (kv c)), with_kv_id by done. split; [lia|done].
  - apply list.Forall_cons_1 in Hfit as [Hin Hfit]. fold (is_get op). unfold writes. cbn [foldr]. fold (writes ops). destruct (is_get op) eqn:Hg.
    + rewrite spec_step_get by done. eapply (run_get_ok st c op t (Some id)); [exact HS|exact Hop|exact Hz|destruct (key_present now _ st c k _ e HS Ev) as (_ & _ & id' & E & Hx & _); assert (id' = id) as -> by congruence; exact Hx|]. intros st1 HS1 E1.
      eapply wp_mono; [apply (IH id t ch st1 _ Hfit Hz HS1); [by subst st1|done|subst st1; exact Hw]|]. cbn beta. intros n st2 [-> HS2]. split; [done|]. destruct (spec_run ops t) as [t' rs]. cbn [fst snd kv says] in *. unfold says, with_kv in *. cbn in *. by rewrite <- app_assoc in HS2.
    + destruct (writable_sds _ _ _ Hw) as (o & sd & Ef & Eown & Hrep). assert (as_sds o = Ok sd) as Eas by (unfold own_sds in Eown; case_match; done). destruct (repr_buf _ _ Hrep) as (free & Ebuf & Hfree). eapply wp_bind, fetch_wp; [exact Ef|]. eapply wp_bind, wp_lift; [exact Eas|]. rewrite Ebuf.
      destruct (bitfield_write_ok op t (0 :: free) Hop Hg (Hin eq_refl)) as (t' & ret & Ew & Hzt & Es & Hret).
      eapply wp_bind, wp_lift; [exact Ew|]. pose proof (repr_same_len sd t t' free Hrep Ebuf Hzt) as Hrep'. step rewrite_in_place; [exact HS|exact Ek|exact Ev|exact Hw|exact Ef|exact Hrep'|lia|]. intros _ st1 (HS1 & D1 & Hw1). rewrite Es.
      set (c1 := with_kv c (<[k := (VStr t', e)]> (kv c))) in *. apply (wp_step _ _ (fun _ st' => Sim now settled st' (says c1 (match ret with Some v => int_reply v | None => reply_nullbulk end)) /\ dict st' = dict st1 /\ writable st' id t')).
      { assert (forall (h : M unit) r, replies h tt r st1 -> wp h (fun _ st' => Sim now settled st' (says c1 r) /\ dict st' = dict st1 /\ writable st' id t') st1) as Hrp.
        { intros h r Hh. pose proof (replies_sim now h tt r settled st1 c1 Hh HS1) as H. unfold wp in *. rewrite Hh in *. split_and!; [apply H|done|exact Hw1]. }
        destruct ret as [v|]; apply Hrp; [apply replies_int; by apply Hret|apply replies_string]. }
      intros _ st2 (HS2 & D2 & Hw2). set (r := match ret with Some v => int_reply v | None => reply_nullbulk end) in *. eapply wp_mono; [apply (IH id t' (ch + 1) st2 (says c1 r)); [rewrite Hzt; exact Hfit|lia|exact HS2|by rewrite D2, D1|cbn; apply lookup_insert_eq|exact Hw2]|].
      cbn beta. intros n st3 [-> HS3]. split; [lia|]. destruct (spec_run ops t') as [t2 rs]. unfold c1, says, with_kv in HS3 |- *. cbn [fst snd kv aargs aout aclose adirty] in HS3 |- *. rewrite insert_insert_eq, <- app_assoc in HS3. exact HS3.
Qed.

Lemma maxbit_range ops : Forall op_ok ops -> 0 <= maxbit ops < 2 ^ 32 /\ Forall (fun op => is_get op = false -> bf_offset op + bf_bits op <= maxbit ops + 1) ops.
Proof.
  intros HF. unfold maxbit. induction HF as [|op ops (Hb & Ho & Hl & _) HF [IH1 IH2]]; cbn [foldr]; [split; [lia|constructor]|]. split; [destruct (is_get op); lia|]. constructor; [intros ->; lia|]. eapply list.Forall_impl; [exact IH2|]. cbn beta. intros x Hx Hg. specialize (Hx Hg). destruct (is_get op); lia.
Qed.

Lemma writes_pos ops : 0 <= writes ops /\ (forallb is_get ops = false -> 0 < writes ops).
Proof. unfold writes. induction ops as [|op ops [IH1 IH2]]; cbn [foldr forallb]; [done|]. destruct (is_get op); cbn [andb]; [done|]. split; [lia|intros _; lia]. Qed.

Lemma spec_ops_length args : forall ow ops, spec_ops args ow = inr ops -> zlen ops <= zlen args.
Proof.
  assert (forall n args, (length args <= n)%nat -> forall ow ops, spec_ops args ow = inr ops -> zlen ops <= zlen args) as H; [|intros ow ops; by apply (H (length args))].
  induction n as [|n IH]; intros [|sub rest] Hn ow ops; cbn [length] in Hn; try lia; cbn [spec_ops]; try (intros [= <-]; done). rewrite zlen_cons. pose proof (zlen_nonneg rest).
  destruct (bf_opcode_name sub (length rest)) as [code|].
  - destruct rest as [|ty [|off rest]]; [done..|]. rewrite !zlen_cons. cbn [length] in Hn. destruct (spec_type ty) as [[sign bits]|]; [|done]. destruct (spec_offset off true bits) as [i|]; [|done]. case_bool_decide.
    + destruct (spec_ops rest ow) as [|l] eqn:E; cbn; [done|]. intros [= <-]. apply IH in E; [|lia]. rewrite zlen_cons. lia.
    + destruct rest as [|v rest]; [done|]. cbn [length] in Hn. destruct (string2ll v) as [z|]; [|done]. destruct (spec_ops rest ow) as [|l] eqn:E; cbn; [done|]. intros [= <-]. apply IH in E; [|lia]. rewrite !zlen_cons. lia.
  - destruct rest as [|name rest]; [done|]. cbn [length] in Hn. destruct (name_is sub (str "overflow")); [|done]. destruct (bf_overflow_name name) as [ow'|]; [|done]. intros E. apply IH in E; [|lia]. rewrite zlen_cons. lia.
Qed.

Lemma zlen_spec_run ops : forall t, zlen (spec_run ops t).1 = zlen t.
Proof. induction ops as [|op ops IH]; intros t; [done|]. cbn [spec_run]. pose proof (zlen_spec_step op t) as E. destruct (spec_step op t) as [t1 r]. specialize (IH t1). destruct (spec_run ops t1) as [t2 rs]. cbn in *. lia. Qed.

Lemma bitfield_refines n args : args <> [] -> zlen args < 2 ^ 30 -> fields_fit (tail args) -> refines now (bitfieldCommand junk now) (n :: args) (fun m => spec_bitfield m args).
Proof.
  intros Hne Hlen Hfit st c HS Ha. destruct args as [|k subs]; [done|]. cbn [tail] in Hfit. unfold bitfieldCommand, spec_bitfield. apply wp_bind, wp_gets. rewrite (argc_fresh now _ _ _ _ HS Ha).
  eapply wp_step; [apply (parse_ok (n :: k :: subs) _ subs 2 BFOVERFLOW_WRAP [] true 0 st c); [done|cbn; lia|exact HS|exact Ha|lia]|]. intros r st1 Hp. unfold parse_post in Hp. unfold fields_fit in Hfit.
  destruct (spec_ops subs BFOVERFLOW_WRAP) as [err|ops] eqn:Eops; [destruct Hp as [-> HS1]; apply wp_ret; by apply finish_unchanged|]. destruct Hp as [-> ->]. cbn [app andb]. destruct (maxbit_range ops Hfit) as [Hm Hms]. rewrite Z.max_r by lia.
  apply spec_ops_length in Eops. rewrite zlen_cons in Hlen. pose proof (zlen_nonneg ops). assert (forall st', replies (addReplyLongLongWithPrefix junk (zlen ops) (chr "*")) tt (chr "*" :: dec (zlen ops) ++ crlf) st') as Hhdr by (intros st'; apply replies_prefix; unfold in_s; lia). set (header := chr "*" :: dec (zlen ops) ++ crlf) in *.
  destruct (forallb is_get ops) eqn:Eg.
  - eapply (wp_step _ _ (fun r st' => if is_other (kv c !! k) then r = None /\ Sim now settled st' (says c reply_wrongtype) else exists o, r = Some o /\ Sim now settled st' c /\ zlen (key_text (kv c) k) <= MAX_TEXT /\ match o with None => key_text (kv c) k = [] | Some id => text_of (heap st') id (key_text (kv c) k) end)).
    { step arg_text_ok; [exact HS|by rewrite Ha|]. intros ? ? [-> ->]. step read_ok; [exact HS|]. intros r st1 (HS1 & _ & Hr). unfold key_text. destruct (kv c !! k) as [[[t|] e]|]; cbn [is_other text_or_empty fst].
      - destruct Hr as (id & -> & _ & Hx & _). step checkType_ok; [exact HS1|exact Hx|]. intros b st2 [-> ->]. apply wp_ret. exists (Some id). split_and!; [done|done|apply Hx|exact Hx].
      - destruct Hr as (id & -> & _ & Hx & _). step checkType_ok; [exact HS1|exact Hx|]. intros b st2 [-> HS2]. by apply wp_ret.
      - destruct Hr as (-> & _). apply wp_ret. exists None. split_and!; [done|done| |done]. change (zlen (@nil Z)) with 0. unfold MAX_TEXT. lia. }
    intros r st1 H1. destruct (is_other (kv c !! k)); [destruct H1 as [-> HS1]; apply wp_ret; by apply finish_unchanged|]. destruct H1 as (o & -> & HS1 & Hz & Ho). unfold key_text in Hz, Ho. destruct (text_or_empty (kv c !! k)) as [t e]. cbn [fst] in Hz, Ho.
    pose proof (Hhdr st1) as Hh. pose proof (replies_sim now _ _ _ _ _ _ Hh HS1) as HS2. apply wp_bind. unfold wp at 1. rewrite Hh. unfold wp in HS2. rewrite Hh in HS2. destruct HS2 as (_ & HS2 & _).
    eapply wp_step; [apply (run_read_ok ops t o Hfit Eg Hz _ _ HS2); exact Ho|]. cbn beta. intros ch st3 [-> HS3]. apply wp_ret. rewrite says_says in HS3. by apply finish_unchanged.
  - eapply (wp_step _ _ (fun r st' => if is_other (kv c !! k) then r = None /\ Sim now settled st' (says c reply_wrongtype) else exists id, r = Some (Some id) /\ let '(t, e) := text_or_empty (kv c !! k) in let t := pad t (maxbit ops / 8 + 1) in
      Sim now settled st' (with_kv c (<[k := (VStr t, e)]> (kv c))) /\ dict st' !! k = Some id /\ writable st' id t /\ zlen t <= MAX_TEXT)).
    { step lookupString_ok; [exact HS|by rewrite Ha|exact Hm|]. intros r st1 H1. destruct (is_other (kv c !! k)); [destruct H1 as [-> HS1]; by apply wp_ret|]. destruct H1 as (id & -> & H1). apply wp_ret. by exists id. }
    intros r st1 H1. destruct (is_other (kv c !! k)); [destruct H1 as [-> HS1]; apply wp_ret; by apply finish_unchanged|]. destruct H1 as (id & -> & H1). destruct (text_or_empty (kv c !! k)) as [t0 e]. destruct H1 as (HS1 & Ek & Hw & Hz). set (t := pad t0 (maxbit ops / 8 + 1)) in *.
    pose proof (Hhdr st1) as Hh. pose proof (replies_sim now _ _ _ _ _ _ Hh HS1) as HS2. apply wp_bind. unfold wp at 1. rewrite Hh. unfold wp in HS2. rewrite Hh in HS2. destruct HS2 as (_ & HS2 & _).
    assert (maxbit ops + 1 <= 8 * zlen t) as Hbits. { unfold t. rewrite zlen_pad. pose proof (Z_div_mod_eq_full (maxbit ops) 8). pose proof (Z.mod_pos_bound (maxbit ops) 8 ltac:(lia)). lia. }
    assert (Forall (fun op => is_get op = false -> bf_offset op + bf_bits op <= 8 * zlen t) ops) as Hin.
    { eapply list.Forall_impl; [exact Hms|]. cbn beta. intros op Hop Hg. specialize (Hop Hg). lia. }
    eapply wp_step; [exact (run_write_ok ops k e Hfit id t 0 (set_out st1 (out st1 ++ header)) _ Hin Hz HS2 Ek (lookup_insert_eq _ _ _) Hw)|].
    cbn beta. intros ch st3 [-> HS3]. destruct (writes_pos ops) as [_ Hpos]. specialize (Hpos Eg). rewrite Z.add_0_l, (proj2 (Z.eqb_neq _ _)) by lia. cbn [negb]. eapply wp_mono; [by apply add_dirty_sim|]. cbn beta. intros _ st4 HS4. destruct (spec_run ops t) as [t' rs]. cbn [fst snd] in HS4.
    eapply finish; [exact HS4|cbn; by rewrite insert_insert_eq|cbn; by rewrite <- app_assoc|done|done].
Qed.
End Commands.
End BitCmdOps.
