(* ===== verification/CommandOps.v ===== *)
(** * The command table refines a table of specifications

    [spec_table] has every command of the table of server.c with its arity and, when its
    handler is modelled, its specification ([StringCmdOps], [BitCmdOps]); [table_refines]
    collects the refinement lemmas. [request_ok] says which requests the theorems cover. *)
From stdpp Require Import gmap.
From S2P Require Import Prelude StateM Util Sds SdsText Object Db StringCmd BitCmd Command DbOps StringCmdOps BitCmdOps.

Module CommandOps.
Import Sds SdsText Object Db StringCmd BitCmd Command DbOps StringCmdOps BitCmdOps.

Section Commands.
Context (junk : Z -> Z) (private : bool) (addr : oid -> Z) (now : Z).

Definition arg1 (f : store_map -> list Z -> outcome) : spec_fun := fun a m => match a with [_; k] => f m k | _ => unchanged m [] end.
Definition arg2 (f : store_map -> list Z -> list Z -> outcome) : spec_fun := fun a m => match a with [_; k; v] => f m k v | _ => unchanged m [] end.
Definition arg3 (f : store_map -> list Z -> list Z -> list Z -> outcome) : spec_fun := fun a m => match a with [_; k; v; w] => f m k v w | _ => unchanged m [] end.
Definition argn (f : store_map -> list (list Z) -> outcome) : spec_fun := fun a m => f m (tail a).

(** The table with specifications in place of handlers. *)
Definition spec_table : list (list Z * (Z * option spec_fun)) :=
  [(str "get", (2, Some (arg1 (fun m k => unchanged m (spec_get m k))))); (str "set", (-3, Some (spec_set now)));
   (str "setnx", (3, Some (arg2 (spec_write now (str "setnx") true false None reply_cone reply_czero))));
   (str "setex", (4, Some (arg3 (fun m k t v => spec_write now (str "setex") false false (Some (t, true)) reply_ok reply_nullbulk m k v))));
   (str "psetex", (4, Some (arg3 (fun m k t v => spec_write now (str "psetex") false false (Some (t, false)) reply_ok reply_nullbulk m k v))));
   (str "append", (3, Some (arg2 spec_append))); (str "strlen", (2, Some (arg1 (fun m k => unchanged m (spec_strlen m k)))));
   (str "del", (-2, Some (argn (fun m ks => let '(m', d) := spec_del m ks in (m', int_reply d, d))))); (str "unlink", (-2, None));
   (str "exists", (-2, Some (argn (fun m ks => unchanged m (int_reply (spec_count m ks)))))); (str "setbit", (4, Some (arg3 spec_setbit)));
   (str "getbit", (3, Some (arg2 (fun m k off => unchanged m (spec_getbit m k off))))); (str "bitfield", (-2, Some (argn spec_bitfield)));
   (str "setrange", (4, Some (arg3 spec_setrange))); (str "getrange", (4, Some (arg3 (fun m k a b => unchanged m (spec_getrange m k a b)))));
   (str "substr", (4, Some (arg3 (fun m k a b => unchanged m (spec_getrange m k a b))))); (str "incr", (2, Some (arg1 (fun m k => spec_incr m k 1))));
   (str "decr", (2, Some (arg1 (fun m k => spec_incr m k (-1))))); (str "mget", (-2, Some (argn (fun m ks => unchanged m (spec_mget m ks))))); (str "rpush", (-3, None));
   (str "lpush", (-3, None)); (str "rpushx", (-3, None)); (str "lpushx", (-3, None)); (str "linsert", (5, None)); (str "rpop", (2, None)); (str "lpop", (2, None));
   (str "brpop", (-3, None)); (str "brpoplpush", (4, None)); (str "blpop", (-3, None)); (str "llen", (2, None)); (str "lindex", (3, None)); (str "lset", (4, None));
   (str "lrange", (4, None)); (str "ltrim", (4, None)); (str "lrem", (4, None)); (str "rpoplpush", (3, None)); (str "sadd", (-3, None)); (str "srem", (-3, None));
   (str "smove", (4, None)); (str "sismember", (3, None)); (str "scard", (2, None)); (str "spop", (-2, None)); (str "srandmember", (-2, None)); (str "sinter", (-2, None));
   (str "sinterstore", (-3, None)); (str "sunion", (-2, None)); (str "sunionstore", (-3, None)); (str "sdiff", (-2, None)); (str "sdiffstore", (-3, None));
   (str "smembers", (2, None)); (str "sscan", (-3, None)); (str "zadd", (-4, None)); (str "zincrby", (4, None)); (str "zrem", (-3, None));
   (str "zremrangebyscore", (4, None)); (str "zremrangebyrank", (4, None)); (str "zremrangebylex", (4, None)); (str "zunionstore", (-4, None));
   (str "zinterstore", (-4, None)); (str "zrange", (-4, None)); (str "zrangebyscore", (-4, None)); (str "zrevrangebyscore", (-4, None)); (str "zrangebylex", (-4, None));
   (str "zrevrangebylex", (-4, None)); (str "zcount", (4, None)); (str "zlexcount", (4, None)); (str "zrevrange", (-4, None)); (str "zcard", (2, None));
   (str "zscore", (3, None)); (str "zrank", (3, None)); (str "zrevrank", (3, None)); (str "zscan", (-3, None)); (str "hset", (-4, None)); (str "hsetnx", (4, None));
   (str "hget", (3, None)); (str "hmset", (-4, None)); (str "hmget", (-3, None)); (str "hincrby", (4, None)); (str "hincrbyfloat", (4, None)); (str "hdel", (-3, None));
   (str "hlen", (2, None)); (str "hstrlen", (3, None)); (str "hkeys", (2, None)); (str "hvals", (2, None)); (str "hgetall", (2, None)); (str "hexists", (3, None));
   (str "hscan", (-3, None)); (str "incrby", (3, Some (arg2 (fun m k v => spec_incrby m k v 1)))); (str "decrby", (3, Some (arg2 (fun m k v => spec_incrby m k v (-1)))));
   (str "incrbyfloat", (3, None)); (str "getset", (3, Some (arg2 spec_getset))); (str "mset", (-3, Some (argn (spec_mset false))));
   (str "msetnx", (-3, Some (argn (spec_mset true)))); (str "randomkey", (1, None)); (str "select", (2, None)); (str "swapdb", (3, None)); (str "move", (3, None));
   (str "rename", (3, Some (arg2 (spec_rename false)))); (str "renamenx", (3, Some (arg2 (spec_rename true))));
   (str "expire", (3, Some (arg2 (fun m k w => spec_expire now m k w now true)))); (str "expireat", (3, Some (arg2 (fun m k w => spec_expire now m k w 0 true))));
   (str "pexpire", (3, Some (arg2 (fun m k w => spec_expire now m k w now false)))); (str "pexpireat", (3, Some (arg2 (fun m k w => spec_expire now m k w 0 false))));
   (str "keys", (2, None)); (str "scan", (-2, None)); (str "dbsize", (1, None)); (str "auth", (2, None)); (str "ping", (-1, None)); (str "echo", (2, None));
   (str "save", (1, None)); (str "bgsave", (-1, None)); (str "bgrewriteaof", (1, None)); (str "shutdown", (-1, None)); (str "lastsave", (1, None)); (str "type", (2, None));
   (str "multi", (1, None)); (str "exec", (1, None)); (str "discard", (1, None)); (str "sync", (1, None)); (str "psync", (3, None)); (str "replconf", (-1, None));
   (str "flushdb", (-1, None)); (str "flushall", (-1, None)); (str "sort", (-2, None)); (str "info", (-1, None)); (str "monitor", (1, None));
   (str "ttl", (2, Some (arg1 (fun m k => unchanged m (spec_ttl now m k false))))); (str "touch", (-2, Some (argn (fun m ks => unchanged m (int_reply (spec_count m ks))))));
   (str "pttl", (2, Some (arg1 (fun m k => unchanged m (spec_ttl now m k true))))); (str "persist", (2, Some (arg1 spec_persist))); (str "slaveof", (3, None));
   (str "role", (1, None)); (str "debug", (-1, None)); (str "config", (-2, None)); (str "subscribe", (-2, None)); (str "unsubscribe", (-1, None));
   (str "psubscribe", (-2, None)); (str "punsubscribe", (-1, None)); (str "publish", (3, None)); (str "pubsub", (-2, None)); (str "watch", (-2, None));
   (str "unwatch", (1, None)); (str "cluster", (-2, None)); (str "restore", (-4, None)); (str "restore-asking", (-4, None)); (str "migrate", (-6, None));
   (str "asking", (1, None)); (str "readonly", (1, None)); (str "readwrite", (1, None)); (str "dump", (2, None)); (str "object", (3, None)); (str "memory", (-2, None));
   (str "client", (-2, None)); (str "eval", (-3, None)); (str "evalsha", (-3, None)); (str "slowlog", (-2, None)); (str "script", (-2, None)); (str "time", (1, None));
   (str "bitop", (-4, Some (argn spec_bitop))); (str "bitcount", (-2, Some (argn (fun m args => unchanged m (spec_bitcount m args)))));
   (str "bitpos", (-3, Some (argn (fun m args => unchanged m (spec_bitpos m args))))); (str "wait", (3, None)); (str "command", (0, None)); (str "geoadd", (-5, None));
   (str "georadius", (-6, None)); (str "georadius_ro", (-6, None)); (str "georadiusbymember", (-5, None)); (str "georadiusbymember_ro", (-5, None));
   (str "geohash", (-2, None)); (str "geopos", (-2, None)); (str "geodist", (-4, None)); (str "pfselftest", (1, None)); (str "pfadd", (-2, None));
   (str "pfcount", (-2, None)); (str "pfmerge", (-2, None)); (str "pfdebug", (-3, None)); (str "post", (-1, None)); (str "host:", (-1, None)); (str "latency", (-2, None))].

Definition spec_lookup (name : list Z) : option (list Z * (Z * option spec_fun)) :=
  list_find (fun e => map tolower name = e.1) spec_table ≫= fun p => Some p.2.

Definition arity_ok (arity argc : Z) : bool := negb ((0 <? arity) && negb (arity =? argc) || (argc <? - arity)).

(** The request does not reach a handler that is not modelled: its command is unknown, has
    a modelled handler, or is called with a wrong number of arguments. *)
Definition modelled (args : list (list Z)) : bool :=
  match args with
  | [] => true
  | name :: _ => match spec_lookup name with Some (_, (arity, None)) => negb (arity_ok arity (zlen args)) | _ => true end
  end.
(** The name of the command has no NUL byte. *)
Definition plain_name (args : list (list Z)) : Prop := match args with [] => True | name :: _ => cstring name = name end.

(** The requests covered: within the limits of the protocol, for a modelled command (or one
    that is unknown or has a wrong number of arguments) named without a NUL; the end of a
    SETRANGE does not overflow, and the fields of a BITFIELD are ones the code handles
    ([fields_fit]). *)
Definition range_fits (args : list (list Z)) : Prop :=
  match args with [name; _; off; v] => map tolower name = str "setrange" -> forall z, string2ll off = Some z -> z + zlen v < 2 ^ 63 | _ => True end.
Definition bitfield_fits (args : list (list Z)) : Prop :=
  match args with name :: _ :: subs => map tolower name = str "bitfield" -> fields_fit subs | _ => True end.
Definition request_ok (args : list (list Z)) : Prop :=
  args <> [] /\ zlen args < 2 ^ 30 /\ Forall (fun a => zlen a <= MAX_TEXT) args /\ range_fits args /\ bitfield_fits args /\ plain_name args /\ modelled args = true.

Definition entry_ok (e : list Z * (Z * option (M unit))) (s : list Z * (Z * option spec_fun)) : Prop :=
  e.1 = s.1 /\ e.2.1 = s.2.1 /\
  match e.2.2, s.2.2 with
  | Some h, Some f => forall name args, request_ok (name :: args) -> map tolower name = e.1 -> arity_ok e.2.1 (zlen (name :: args)) = true -> refines now h (name :: args) (f (name :: args))
  | None, None => True
  | _, _ => False
  end.

Lemma arity_exact n (args : list (list Z)) : 0 < n -> arity_ok n (zlen args) = true -> length args = Z.to_nat n.
Proof. unfold arity_ok, zlen. intros Hn H. apply negb_true_iff, orb_false_iff in H as [H _]. rewrite (proj2 (Z.ltb_lt _ _)) in H by done. cbn in H. lia. Qed.
Lemma arity_least n (args : list (list Z)) : n < 0 -> arity_ok n (zlen args) = true -> (Z.to_nat (- n) <= length args)%nat.
Proof. unfold arity_ok, zlen. intros Hn H. apply negb_true_iff, orb_false_iff in H as [_ H]. lia. Qed.

Lemma entry1 nm h f : (forall n k, refines now h [n; k] (fun m => f m k)) -> entry_ok (nm, (2, Some h)) (nm, (2, Some (arg1 f))).
Proof. intros H. split_and!; [done..|]. intros name args _ _ Ha. apply arity_exact in Ha; [|done]. destruct args as [|k [|? ?]]; [done| |done]. apply H. Qed.
Lemma entry2 nm h f : (forall n k v, refines now h [n; k; v] (fun m => f m k v)) -> entry_ok (nm, (3, Some h)) (nm, (3, Some (arg2 f))).
Proof. intros H. split_and!; [done..|]. intros name args _ _ Ha. apply arity_exact in Ha; [|done]. destruct args as [|k [|v [|? ?]]]; [done|done| |done]. apply H. Qed.
Lemma entry3 nm h f : (forall n k v w, range_fits [n; k; v; w] -> map tolower n = nm -> refines now h [n; k; v; w] (fun m => f m k v w)) -> entry_ok (nm, (4, Some h)) (nm, (4, Some (arg3 f))).
Proof. intros H. split_and!; [done..|]. intros name args (_ & _ & _ & Hr & _ & _) Hn Ha. apply arity_exact in Ha; [|done]. destruct args as [|k [|v [|w [|? ?]]]]; [done|done|done| |done]. by apply H. Qed.
Lemma entryn nm n h f : n < 0 -> (forall name ks, zlen ks < 2 ^ 30 -> (Z.to_nat (- n) <= S (length ks))%nat -> bitfield_fits (name :: ks) -> map tolower name = nm -> refines now h (name :: ks) (fun m => f m ks)) -> entry_ok (nm, (n, Some h)) (nm, (n, Some (argn f))).
Proof. intros Hn H. split_and!; [done..|]. intros name args (_ & Hl & _ & _ & Hb & _) Hnm Ha. apply H; [rewrite zlen_cons in Hl; lia|by apply (arity_least _ (name :: args))|done|done]. Qed.

Lemma short_31 (ks : list (list Z)) : zlen ks < 2 ^ 30 -> zlen ks < 2 ^ 31.
Proof. lia. Qed.

Lemma set_entry : entry_ok (str "set", (-3, Some (setCommand junk private now))) (str "set", (-3, Some (spec_set now))).
Proof. split_and!; [done..|]. intros name args _ _ Ha. apply arity_least in Ha; [|done]. destruct args as [|k [|v opts]]; [cbn in Ha; lia..|]. apply set_refines. Qed.

Lemma bitfield_entry : entry_ok (str "bitfield", (-2, Some (bitfieldCommand junk now))) (str "bitfield", (-2, Some (argn spec_bitfield))).
Proof.
  apply entryn; [done|]. intros name ks Hl Hn Hf Hnm. destruct ks as [|k subs]; [cbn in Hn; lia|]. apply bitfield_refines; [done|done|]. by apply Hf.
Qed.

(** Rows without a handler. *)
Local Ltac unmodelled := repeat (apply List.Forall2_cons; [split_and!; exact eq_refl || exact I|]).

Lemma table_refines : Forall2 entry_ok (redisCommandTable junk private addr now) spec_table.
Proof.
  apply List.Forall2_cons; [apply entry1, get_refines|].
  apply List.Forall2_cons; [apply set_entry|].
  apply List.Forall2_cons; [apply entry2, setnx_refines|].
  apply List.Forall2_cons; [apply entry3; intros; apply setex_refines|].
  apply List.Forall2_cons; [apply entry3; intros; apply psetex_refines|].
  apply List.Forall2_cons; [apply entry2, append_refines|].
  apply List.Forall2_cons; [apply entry1, strlen_refines|].
  apply List.Forall2_cons; [apply entryn; [done|intros; apply del_refines; by apply short_31]|].
  unmodelled.
  apply List.Forall2_cons; [apply entryn; [done|intros; apply exists_refines; by apply short_31]|].
  apply List.Forall2_cons; [apply entry3; intros; apply setbit_refines|].
  apply List.Forall2_cons; [apply entry2, getbit_refines|].
  apply List.Forall2_cons; [apply bitfield_entry|].
  apply List.Forall2_cons; [apply entry3; intros n k off v Hr Hn; apply setrange_refines; by apply Hr|].
  apply List.Forall2_cons; [apply entry3; intros; apply getrange_refines|].
  apply List.Forall2_cons; [apply entry3; intros; apply getrange_refines|].
  apply List.Forall2_cons; [apply entry1; intros; by apply incr_generic_ok|].
  apply List.Forall2_cons; [apply entry1; intros; by apply incr_generic_ok|].
  apply List.Forall2_cons; [apply entryn; [done|intros; apply mget_refines; by apply short_31]|].
  unmodelled.
  apply List.Forall2_cons; [apply entry2, incrby_refines|].
  apply List.Forall2_cons; [apply entry2, decrby_refines|].
  unmodelled.
  apply List.Forall2_cons; [apply entry2, getset_refines|].
  apply List.Forall2_cons; [apply entryn; [done|intros; apply mset_refines]|].
  apply List.Forall2_cons; [apply entryn; [done|intros; apply mset_refines]|].
  unmodelled.
  apply List.Forall2_cons; [apply entry2; intros; apply (rename_refines junk)|].
  apply List.Forall2_cons; [apply entry2; intros; apply (rename_refines junk)|].
  apply List.Forall2_cons; [apply entry2; intros; apply expire_refines|].
  apply List.Forall2_cons; [apply entry2; intros; apply expire_refines|].
  apply List.Forall2_cons; [apply entry2; intros; apply expire_refines|].
  apply List.Forall2_cons; [apply entry2; intros; apply expire_refines|].
  unmodelled.
  apply List.Forall2_cons; [apply entry1; intros; apply ttl_refines|].
  apply List.Forall2_cons; [apply entryn; [done|intros; apply touch_refines; by apply short_31]|].
  apply List.Forall2_cons; [apply entry1; intros; apply ttl_refines|].
  apply List.Forall2_cons; [apply entry1, persist_refines|].
  unmodelled.
  apply List.Forall2_cons; [apply entryn; [done|intros name ks Hl Hn _ _; apply bitop_refines; [cbn in Hn; lia|done]]|].
  apply List.Forall2_cons; [apply entryn; [done|intros name ks _ Hn _ _; apply bitcount_refines; destruct ks; [cbn in Hn; lia|done]]|].
  apply List.Forall2_cons; [apply entryn; [done|intros name ks _ Hn _ _; apply bitpos_refines; cbn in Hn; lia]|].
  unmodelled.
  apply List.Forall2_nil.
Qed.
End Commands.
End CommandOps.
