(* ===== verification/StringCmdApi.v ===== *)
(** * The server as a key-value store: whole requests and histories

    [serve_refines] composes the lemmas of [StringCmdOps] over the command table:
    any request of [request_ok], well formed or not, returns, answers what the specification
    says and leaves no object behind. The theorems lift this to histories of requests at
    nondecreasing times, and state the ownership of objects, the invisibility of
    background expiry and the places where the arithmetic of the code goes wrong. *)
From stdpp Require Import gmap.
From S2P Require Import Prelude StateM Util Sds SdsText Object Db StringCmd BitCmd Command DbOps StringCmdOps BitCmdOps CommandOps.

Module StringCmdApi.
Import Sds SdsText Object Db StringCmd BitCmd Command DbOps StringCmdOps BitCmdOps CommandOps.

(** ** One request *)

Section Request.
Context (junk : Z -> Z) (private : bool) (addr : oid -> Z) (now : Z).

(** The outcome of a request, and whether the connection is to be closed. *)
Definition spec_process (args : list (list Z)) (m : store_map) : outcome * bool :=
  match args with
  | [] => (unchanged m [], false)
  | name :: _ =>
    if bool_decide (map tolower (cstring name) = str "quit") then (unchanged m reply_ok, true) else
    match spec_lookup now name with
    | None => (unchanged m (err_reply (one_line (str "unknown command '" ++ cstring name ++ str "'"))), false)
    | Some (cname, (arity, f)) =>
      if arity_ok arity (zlen args) then (match f with Some f => f args m | None => unchanged m [] end, false)
      else (unchanged m (err_reply (one_line (str "wrong number of arguments for '" ++ cname ++ str "' command"))), false)
    end
  end.

Definition spec_serve (args : list (list Z)) (c : config) : config :=
  let '((m, r, n), close) := spec_process args (kv c) in mk_config m [] (aout c ++ r) (aclose c || close) (adirty c + n).

Lemma list_find_related {A B} (R : A -> B -> Prop) (P : A -> Prop) (Q : B -> Prop) `{forall x, Decision (P x), forall y, Decision (Q y)} l k :
  Forall2 R l k -> (forall x y, R x y -> P x <-> Q y) ->
  match list_find P l, list_find Q k with Some (_, x), Some (_, y) => R x y /\ P x | None, None => True | _, _ => False end.
Proof.
  intros HF HPQ. induction HF as [|x y l k Hxy HF IH]; [done|]. cbn. pose proof (HPQ x y Hxy) as Hiff. destruct (decide (P x)) as [Hp|Hp].
  - rewrite (decide_True (P := Q y)) by tauto. done.
  - rewrite (decide_False (P := Q y)) by tauto. destruct (list_find P l) as [[i a]|], (list_find Q k) as [[j b]|]; done.
Qed.

Lemma lookup_related name : match lookupCommand junk private addr now name, spec_lookup now name with
  | Some e, Some s => entry_ok now e s /\ map tolower name = e.1 | None, None => True | _, _ => False end.
Proof.
  unfold lookupCommand, spec_lookup.
  pose proof (list_find_related (entry_ok now) (fun e => map tolower name = e.1) (fun s => map tolower name = s.1) _ _ (table_refines junk private addr now) ltac:(intros x y (-> & _); done)) as H.
  destruct (list_find _ (redisCommandTable _ _ _ _)) as [[i e]|], (list_find _ (spec_table now)) as [[j s]|]; done.
Qed.

Lemma unmodelled_refused name args cname arity : request_ok now (name :: args) -> spec_lookup now name = Some (cname, (arity, None)) -> arity_ok arity (zlen (name :: args)) <> true.
Proof. intros (_ & _ & _ & _ & _ & _ & Hm) Es. unfold modelled in Hm. rewrite Es in Hm. by destruct (arity_ok _ _). Qed.

Lemma process_refines args st c : request_ok now args -> Sim now settled st c -> aargs c = fresh args ->
  wp (processCommand junk private addr now) (fun _ st' => exists a, Sim now settled st' (with_args (spec_serve args c) a)) st.
Proof.
  intros Hreq HS Ha. destruct args as [|name args]; [by destruct Hreq|]. unfold processCommand. step arg_text_ok; [exact HS|by rewrite Ha|]. intros ? ? [-> ->]. apply wp_bind, wp_gets. rewrite (argc_fresh now _ _ _ _ HS Ha). fold (zlen (name :: args)).
  unfold spec_serve, spec_process. case_bool_decide.
  - step addReplyString_sim; [exact HS|]. intros _ st1 [H1 H2 H3 H4 H5 H6 H7]. apply wp_modify. exists (aargs c). cbn. rewrite orb_true_r, Z.add_0_r. constructor; [|done..]. by destruct H1.
  - assert (forall o st', (exists a, Sim now settled st' (with_args (apply_outcome c o) a)) -> exists a, Sim now settled st' (with_args (let '((m, r, n), cl) := (o, false) in mk_config m [] (aout c ++ r) (aclose c || cl) (adirty c + n)) a)) as Hfin.
    { intros [[m r] n] st' [a Hs]. exists a. by rewrite orb_false_r. }
    pose proof (lookup_related name) as Hl. destruct (lookupCommand junk private addr now name) as [[cname [arity h]]|], (spec_lookup now name) as [[cname' [arity' f]]|] eqn:Els; try done.
    + destruct Hl as [(E1 & E2 & Hr) Hn]. cbn in E1, E2. subst cname' arity'. cbn [fst snd] in *. unfold arity_ok in *. destruct ((0 <? arity) && negb (arity =? zlen (name :: args)) || (zlen (name :: args) <? - arity)) eqn:Ear; cbn [negb] in *.
      * eapply wp_mono; [apply (reply_unchanged now st c); [apply replies_error_format|exact HS]|]. cbn beta. intros _ st'. apply Hfin.
      * destruct h as [h|], f as [f|]; try done; [|by destruct (unmodelled_refused name args cname arity Hreq Els); unfold arity_ok; rewrite Ear].
        eapply wp_mono; [apply (Hr name args); [exact Hreq|exact Hn|by rewrite Ear|exact HS|exact Ha]|]. cbn beta. intros _ st'. apply (Hfin (f (name :: args) (kv c))).
    + eapply wp_mono; [apply (reply_unchanged now st c); [apply replies_error_format|exact HS]|]. cbn beta. intros _ st'. apply Hfin.
Qed.

Lemma serve_refines args st c : request_ok now args -> Sim now settled st c -> argv st = [] ->
  wp (serve junk private addr now args) (fun _ st' => Sim now settled st' (spec_serve args c) /\ argv st' = []) st.
Proof.
  intros Hreq HS Ea. unfold serve. apply wp_assoc. step install_args_ok; [apply Hreq|exact HS|exact Ea|]. intros _ st1 HS1. step process_refines; [exact Hreq|exact HS1|done|]. intros _ st2 (a & HS2).
  eapply wp_mono; [by apply release_args_ok|]. cbn beta. intros _ st3 (HS3 & E3). split; [|done]. unfold spec_serve in *. cbn in *. destruct (spec_process args (kv c)) as [[[m r] n] cl]. exact HS3.
Qed.
End Request.

(** ** Histories *)

Fixpoint history (junk : Z -> Z) (private : bool) (addr : oid -> Z) (reqs : list (Z * list (list Z))) : M unit :=
  match reqs with [] => mret tt | (now, args) :: reqs => _ ← serve junk private addr now args; history junk private addr reqs end.

(** The abstract server: expired keys are gone when a request arrives. *)
Fixpoint spec_history (reqs : list (Z * list (list Z))) (c : config) : config :=
  match reqs with [] => c | (now, args) :: reqs => spec_history reqs (spec_serve now args (with_kv c (purge now (kv c)))) end.

Fixpoint ordered (t : Z) (reqs : list (Z * list (list Z))) : Prop :=
  match reqs with [] => True | (now, args) :: reqs => t <= now /\ request_ok now args /\ ordered now reqs end.
Fixpoint end_time (t : Z) (reqs : list (Z * list (list Z))) : Z := match reqs with [] => t | (now, _) :: reqs => end_time now reqs end.

Lemma serve_args now args c : aargs (spec_serve now args c) = [].
Proof. unfold spec_serve. by destruct (spec_process now args (kv c)) as [[[m r] n] cl]. Qed.

Lemma history_refines junk private addr reqs : forall t st c, ordered t reqs -> Sim t settled st c -> argv st = [] ->
  wp (history junk private addr reqs) (fun _ st' => Sim (end_time t reqs) settled st' (spec_history reqs c) /\ argv st' = []) st.
Proof.
  induction reqs as [|[now args] reqs IH]; intros t st c Ho HS Ea; cbn [history spec_history end_time]; [by apply wp_ret|]. destruct Ho as (Ht & Hreq & Ho).
  eapply wp_step; [apply serve_refines; [exact Hreq|eapply time_passes; [exact Ht|exact HS]|exact Ea]|]. cbn beta. intros _ st1 (HS1 & Ea1). by apply IH.
Qed.

(** The server between two requests stands for the store [m] at time [t]. *)
Definition represents (t : Z) (st : server) (m : store_map) : Prop := Sim t settled st (mk_config m [] (out st) (close_after_reply st) (dirty (counts st))).

Lemma represents_argv t st m : represents t st m -> argv st = [].
Proof. intros H. pose proof (sim_args _ _ _ _ H) as HF. by inversion HF. Qed.

Definition config_of (st : server) (m : store_map) : config := mk_config m [] (out st) (close_after_reply st) (dirty (counts st)).

(** Objects all at one address, for evaluation. *)
Definition no_addr (id : oid) : Z := 0.

(** A server that has just started. *)
Definition start : server := mk_server {[0%nat := short_object (str "DEL")]} 1 0 ∅ ∅ [] [] false (mk_stats 0 0 0 0).

Lemma start_represents t : represents t start ∅.
Proof.
  constructor; [constructor|..].
  - intros n. unfold refs, drefs, start, settled. cbn -[one]. rewrite map_to_list_empty. destruct (decide (n = 0)%nat) as [->|Hn]; [rewrite lookup_singleton_eq, one_same; cbn; lia|]. rewrite lookup_singleton_ne, one_other by congruence. cbn. done.
  - intros n. unfold refs, drefs, settled. cbn -[one]. rewrite map_to_list_empty. cbn -[one]. pose proof (one_range (Heap 0) n). lia.
  - intros n Hn. cbn in *. apply lookup_singleton_ne. lia.
  - unfold drefs. cbn. by rewrite map_to_list_empty.
  - intros n. unfold drefs. cbn. rewrite map_to_list_empty. cbn. lia.
  - intros k. cbn. rewrite lookup_empty. by left.
  - constructor.
  - done.
  - done.
  - done.
  - split; [by vm_compute|]. exists (short_object (str "DEL")). split; [apply lookup_singleton_eq|]. by apply short_object_text.
Qed.

(** ** Ownership *)

Lemma occ_find n ids : 0 < occ n ids -> Heap n ∈ ids.
Proof. induction ids as [|id ids IH]; cbn; [lia|]. intros H. destruct (decide (id = Heap n)) as [->|Hn]; [left|right]. apply IH. rewrite one_other in H by done. lia. Qed.

Lemma drefs_find n d : 0 < drefs n d -> exists k, d !! k = Some (Heap n).
Proof. intros H. apply occ_find, list_elem_of_fmap in H as ([k id] & E & Hin). exists k. apply elem_of_map_to_list in Hin. cbn in E. by subst. Qed.

(** Every object is the one [shared.del] or the value of exactly one key, with one
    reference; every value is there. *)
Definition well_owned (st : server) : Prop :=
  (forall n o, heap st !! n = Some o -> refcount o = 1 /\ (n = shared_del st \/ exists k, dict st !! k = Some (Heap n) /\ forall k', dict st !! k' = Some (Heap n) -> k' = k)) /\
  (forall k id, dict st !! k = Some id -> live st id) /\
  (forall k w, expires st !! k = Some w -> is_Some (dict st !! k)).

Lemma represents_owned t st m : represents t st m -> well_owned st.
Proof.
  intros HR. pose proof (represents_argv _ _ _ HR) as Ea. pose proof (sim_owned _ _ _ _ HR) as Ho. split_and!.
  - intros n o En. pose proof (own_cell _ _ Ho n) as Hc. rewrite En in Hc. unfold refs, settled in Hc. rewrite Ea in Hc. cbn -[one] in Hc. pose proof (own_inj _ _ Ho n) as Hi. pose proof (own_del _ _ Ho) as Hd. pose proof (drefs_nonneg n (dict st)).
    destruct (decide (n = shared_del st)) as [->|Hn]; [rewrite one_same in Hc; split; [lia|by left]|]. rewrite one_other in Hc by congruence. split; [lia|right]. destruct (drefs_find n (dict st)) as [k Ek]; [lia|]. exists k. split; [done|].
    intros k' Ek'. destruct (decide (k' = k)) as [|Hk]; [done|]. pose proof (drefs_lookup_two n _ k' k Hk Ek' Ek). lia.
  - intros k id Ek. by eapply dict_live.
  - intros k w Ew. destruct (dict st !! k) eqn:Ek; [done|]. destruct (key_absent t _ st _ k HR Ek). congruence.
Qed.

(** ** Theorems *)


Definition demo : list (Z * list (list Z)) :=
  [(1000, [str "SET"; str "k"; str "41"; str "px"; str "50"]); (1010, [str "incr"; str "k"]); (1020, [str "append"; str "k"; str "!"]); (1030, [str "get"; str "k"]);
   (1040, [str "rename"; str "k"; str "j"]); (1050, [str "pttl"; str "j"]); (1051, [str "exists"; str "j"]);
   (1060, [str "setbit"; str "b"; str "7"; str "1"]); (1070, [str "bitop"; str "not"; str "c"; str "b"]); (1080, [str "bitcount"; str "c"]);
   (1090, [str "bitfield"; str "c"; str "overflow"; str "sat"; str "incrby"; str "i4"; str "4"; str "-9"; str "get"; str "u8"; str "0"])].

Definition demo_fields : list (list Z) := [str "overflow"; str "sat"; str "incrby"; str "i4"; str "4"; str "-9"; str "get"; str "u8"; str "0"].

Lemma demo_fields_fit : fields_fit demo_fields.
Proof. unfold fields_fit. set (ops := spec_ops _ _). vm_compute in ops. subst ops. cbv iota. repeat apply List.Forall_cons; [split_and!; try discriminate; by vm_compute..|constructor]. Qed.

Lemma demo_ordered : ordered 1000 demo.
Proof.
  repeat (split; [lia|]; split; [split_and!; [done|by vm_compute|repeat constructor; by vm_compute|done|first [intros _; exact demo_fields_fit|done]|by vm_compute|by vm_compute]|]). done.
Qed.


(** The replies of that history. *)
Example demo_replies : aout (spec_history demo (config_of start ∅)) = str "+OK" ++ crlf ++ str ":42" ++ crlf ++ str ":3" ++ crlf ++ str "$3" ++ crlf ++ str "42!" ++ crlf ++ str "+OK" ++ crlf ++ str ":0" ++ crlf ++ str ":0" ++ crlf
  ++ str ":0" ++ crlf ++ str ":1" ++ crlf ++ str ":7" ++ crlf ++ str "*2" ++ crlf ++ str ":-8" ++ crlf ++ str ":248" ++ crlf.
Proof. vm_compute. reflexivity. Qed.



(** C36: The background expiry cycle is invisible for deadlines that are not negative: trying
    to expire an entry of the expires dictionary (a key of at most [MAX_TEXT] bytes with a
    deadline of at least 0) removes the key exactly when its deadline has passed, and the
    store the server stands for and the output stay the same. Negative deadlines, which
    only an overflow produces, are treated differently by lookups and by the background
    cycle: [overflowing_deadline_disagrees]. *)
Theorem background_expiry_invisible junk t st m k w : represents t st m -> expires st !! k = Some w -> 0 <= w -> zlen k <= MAX_TEXT ->
  exists st', activeExpireCycleTryExpire junk t k w st = Ok (st', w <? t) /\ represents t st' m /\ out st' = out st /\ (w < t -> dict st' !! k = None).
Proof.
  intros HR Ew Hw Hz. unfold activeExpireCycleTryExpire. destruct (Z.ltb_spec w t) as [Hlt|Hge]; [|exists st; split_and!; [done..|lia]].
  assert (expiredb t (Some w) = true) as Hexp by (unfold expiredb; lia). assert (m !! k = None) as Em. { pose proof (sim_key _ _ _ _ HR k) as Hk. unfold key_ok in Hk. cbn in Hk. destruct (m !! k) as [[x e]|]; [|done]. destruct Hk as (E1 & E2 & _). rewrite Ew in E1. congruence. }
  destruct (createStringObject_ok junk k Hz) as (o & Eo & Hr & _ & _). set (Q := fun (b : bool) st' => b = true /\ represents t st' m /\ out st' = out st /\ dict st' !! k = None).
  match goal with |- exists st', ?m0 st = _ /\ _ => assert (wp m0 Q st) as Hw' end.
  { eapply wp_bind, wp_lift; [exact Eo|]. step alloc_sim; [exact HR|exact Hr|]. intros id st1 (-> & E1 & HS1 & _ & H0). step dbSyncDelete_ok; [apply mild_bump|exact HS1|]. intros b st2 (HS2 & _ & _ & D2 & _). cbn in HS2. rewrite delete_id in HS2 by done.
    step decr_sim; [exact HS2| | |].
    - apply (owned_live st2 _ (next st) (sim_owned _ _ _ _ HS2)). right. unfold bump, settled. rewrite one_same. lia.
    - intros n [= <-]. left. unfold bump, settled. rewrite one_same. lia.
    - intros _ st3 (HS3 & h & E3 & _). apply wp_bind, wp_modify, wp_ret. assert (Sim t settled st3 (config_of st m)) as HS4 by (eapply Sim_ext; [|exact HS3]; intros n; unfold bump, settled; lia).
      split_and!; [done| |exact (sim_out _ _ _ _ HS4)|by subst st3]. unfold represents. cbn. pose proof HS4 as [H1 H2 H3 H4 H5 H6 H7]. rewrite H4, H5, H6. by apply counts_sim0. }
  apply wp_run in Hw' as (st' & b & E & -> & HR' & Eout & Ed). by exists st'.
Qed.

(** The state after [SET k v PX 50] at time 1000, seen at time 2000. *)
Definition expiring : server := match serve (fun _ => 7) false no_addr 1000 [str "set"; str "k"; str "v"; str "px"; str "50"] start with Ok (st, _) => st | Fault _ => start end.

Lemma expiring_represents : exists m, represents 2000 expiring m.
Proof.
  pose proof (history_refines (fun _ => 7) false no_addr [(1000, [str "set"; str "k"; str "v"; str "px"; str "50"])] 0 start (config_of start ∅)) as H.
  destruct (wp_run _ _ _ (H ltac:(split; [lia|]; split; [split_and!; [done|by vm_compute|repeat constructor; by vm_compute|done|done|by vm_compute|by vm_compute]|done]) (start_represents 0) eq_refl)) as (st' & [] & E & HS & Ea).
  assert (expiring = st') as ->. { unfold expiring. cbn [history] in E. unfold mbind, ST_bind in E. destruct (serve _ _ _ _ _ _) as [[s []]|]; [|done]. by injection E. }
  eexists. apply (time_passes 1000 2000) in HS; [|lia]. destruct HS as [H1 H2 H3 H4 H5 H6 H7]. constructor; [done|exact H2| |done..]. rewrite Ea. constructor.
Qed.

Lemma background_expiry_invisible_witness : exists m st', represents 2000 expiring m /\ activeExpireCycleTryExpire (fun _ => 7) 2000 (str "k") 1050 expiring = Ok (st', 1050 <? 2000) /\ represents 2000 st' m.
Proof.
  destruct expiring_represents as [m HR]. destruct (background_expiry_invisible (fun _ => 7) 2000 expiring m (str "k") 1050 HR) as (st' & E & HR' & _); [vm_compute; reflexivity|lia|vm_compute; discriminate|]. exists m, st'. split_and!; [exact HR|exact E|exact HR'].
Defined.

Definition state_of {A} (r : res (server * A)) : server := match r with Ok (st, _) => st | Fault _ => start end.
Definition overflowed : server := state_of (serve (fun _ => 7) false no_addr 1000 [str "set"; str "k"; str "v"; str "px"; str "9223372036854775807"] start).

(** A deadline that overflows becomes negative: the reply is OK, lookups treat the key as
    persistent however late they come, while the background cycle deletes it at once. *)
Theorem overflowing_deadline_disagrees :
  exists st1 st2 st3, serve (fun _ => 7) false no_addr 1000 [str "set"; str "k"; str "v"; str "px"; str "9223372036854775807"] start = Ok (st1, tt) /\ out st1 = reply_ok /\
    expires st1 !! str "k" = Some (999 - 2 ^ 63) /\
    serve (fun _ => 7) false no_addr (2 ^ 62) [str "get"; str "k"] st1 = Ok (st2, tt) /\ out st2 = reply_ok ++ bulk (str "v") /\
    activeExpireCycleTryExpire (fun _ => 7) 1000 (str "k") (999 - 2 ^ 63) st1 = Ok (st3, true) /\ dict st3 !! str "k" = None.
Proof.
  exists overflowed, (state_of (serve (fun _ => 7) false no_addr (2 ^ 62) [str "get"; str "k"] overflowed)), (state_of (activeExpireCycleTryExpire (fun _ => 7) 1000 (str "k") (999 - 2 ^ 63) overflowed)).
  split_and!; vm_compute; reflexivity.
Qed.

(** DECRBY with the least 64 bit integer subtracts 2^63 where it should add it: the
    negation of the argument wraps, so 5 becomes 5 - 2^63 and no overflow is reported. *)
Theorem decrby_least_integer_wraps :
  exists st1, history (fun _ => 7) false no_addr [(0, [str "set"; str "k"; str "5"]); (0, [str "decrby"; str "k"; str "-9223372036854775808"])] start = Ok (st1, tt) /\ out st1 = reply_ok ++ int_reply (5 - 2 ^ 63).
Proof.
  exists (state_of (history (fun _ => 7) false no_addr [(0, [str "set"; str "k"; str "5"]); (0, [str "decrby"; str "k"; str "-9223372036854775808"])] start)). split; vm_compute; reflexivity.
Qed.

(** BITFIELD at the edges of its types: a signed SET far below the range saturates to the
    highest value where the lowest was asked for, a GET of a negative [i64] reaches a
    shift by 64 bits, which C leaves undefined, and the multiplication of a [#] offset
    overflows, so that an offset far behind the limit is taken as the first bit. *)
Theorem bitfield_edge_values :
  (exists st, history (fun _ => 7) false no_addr [(0, [str "bitfield"; str "k"; str "overflow"; str "sat"; str "set"; str "i8"; str "0"; str "-9223372036854775808"]); (0, [str "bitfield"; str "k"; str "get"; str "i8"; str "0"])] start = Ok (st, tt) /\
    out st = str "*1" ++ crlf ++ int_reply 0 ++ str "*1" ++ crlf ++ int_reply 127) /\
  history (fun _ => 7) false no_addr [(0, [str "bitfield"; str "k"; str "set"; str "i64"; str "0"; str "-1"]); (0, [str "bitfield"; str "k"; str "get"; str "i64"; str "0"])] start = Fault UndefinedShift /\
  (exists st, history (fun _ => 7) false no_addr [(0, [str "bitfield"; str "k"; str "set"; str "u32"; str "#576460752303423488"; str "1"]); (0, [str "get"; str "k"])] start = Ok (st, tt) /\ out st = str "*1" ++ crlf ++ int_reply 0 ++ bulk [0; 0; 0; 1]).
Proof.
  split_and!.
  - exists (state_of (history (fun _ => 7) false no_addr [(0, [str "bitfield"; str "k"; str "overflow"; str "sat"; str "set"; str "i8"; str "0"; str "-9223372036854775808"]); (0, [str "bitfield"; str "k"; str "get"; str "i8"; str "0"])] start)). split; vm_compute; reflexivity.
  - vm_compute. reflexivity.
  - exists (state_of (history (fun _ => 7) false no_addr [(0, [str "bitfield"; str "k"; str "set"; str "u32"; str "#576460752303423488"; str "1"]); (0, [str "get"; str "k"])] start)). split; vm_compute; reflexivity.
Qed.
End StringCmdApi.
