(* ===== verification/Cluster.v ===== *)
(** * Cluster bus: src/redis-stable/src/cluster.c, one node's view and its handlers

    The state of a node: its table of the nodes of the cluster, the owner of every hash
    slot, epochs, and the state of elections. Handlers live in the monad of [StateM] over
    it; packets they send and calls into other parts of the server (saving the
    configuration, replication, keys of lost slots) are appended to two logs. A node's name,
    40 bytes, is the number they spell in big endian order, so that [memcmp] is comparison
    of numbers and the null name is 0; a pointer to a node is its name, and following a
    pointer to no node is a fault. [mstime] is constant during a handler, and the number of
    slots, 16384 in cluster.h, is a parameter.

    Nodes join by a handshake: a node met by MEET or heard of in gossip gets a random name,
    which the first packet on the link to it replaces by the real one ([clusterRenameNode]
    then carries every pointer over to the new name) or, when the node turns out to be
    known, the entry is deleted again. What comes from the outside while a packet is handled
    (random names, the addresses of sockets, [inet_pton] and [inet_ntop]) is in [bus_env].
    Addresses are C strings without their NUL; those of a packet are taken to be terminated
    within their field of 46 bytes. Left out are the cron job (it opens links, sends pings
    and drops handshakes that take too long), the configuration file,
    message counters, [ctime] and [orphaned_time].
    [ClusterOps] and [ClusterSafe] verify the slot tables and roles, [ClusterVote] elections. *)
From stdpp Require Import gmap.
From S2P Require Import Prelude StateM.

Module Cluster.

Definition CLUSTER_NODE_MASTER : Z := 1.
Definition CLUSTER_NODE_SLAVE : Z := 2.
Definition CLUSTER_NODE_PFAIL : Z := 4.
Definition CLUSTER_NODE_FAIL : Z := 8.
Definition CLUSTER_NODE_MYSELF : Z := 16.
Definition CLUSTER_NODE_HANDSHAKE : Z := 32.
Definition CLUSTER_NODE_NOADDR : Z := 64.
Definition CLUSTER_NODE_MEET : Z := 128.
Definition CLUSTER_NODE_MIGRATE_TO : Z := 256.
Definition CLUSTER_TODO_HANDLE_FAILOVER : Z := 1.
Definition CLUSTER_TODO_UPDATE_STATE : Z := 2.
Definition CLUSTER_TODO_SAVE_CONFIG : Z := 4.
Definition CLUSTER_TODO_FSYNC_CONFIG : Z := 8.
Definition CLUSTERMSG_FLAG0_PAUSED : Z := 1.
Definition CLUSTERMSG_FLAG0_FORCEACK : Z := 2.
Definition CLUSTER_FAIL_REPORT_VALIDITY_MULT : Z := 2.
Definition CLUSTER_FAIL_UNDO_TIME_MULT : Z := 2.
Definition CLUSTER_MF_TIMEOUT : Z := 5000.
Definition CLUSTER_MAX_REJOIN_DELAY : Z := 5000.
Definition CLUSTER_MIN_REJOIN_DELAY : Z := 500.
Definition CLUSTER_WRITABLE_DELAY : Z := 2000.
Definition CLUSTER_BLACKLIST_TTL : Z := 60.
Definition CLUSTER_PORT_INCR : Z := 10000.
Definition NET_IP_STR_LEN : Z := 46.
Inductive bus_state := CLUSTER_OK | CLUSTER_FAIL.
#[global] Instance bus_state_eq_dec : EqDecision bus_state.
Proof. solve_decision. Defined.
Inductive cant_failover := CANT_NONE | CANT_DATA_AGE | CANT_WAITING_DELAY | CANT_EXPIRED | CANT_WAITING_VOTES.

(** ** Data *)

Abbreviation name := Z.

(** Where a node is reached: for clients and for the bus. *)
Record address := mk_addr { ip : list Z; port : Z; cport : Z }.
Definition null_addr : address := mk_addr [] 0 0.

Record clusterNode := mk_node { flags : Z; configEpoch : Z; bitmap : list Z; numslots : Z; slaves : list name; slaveof : option name;
  link : bool; ping_sent : Z; pong_received : Z; fail_time : Z; voted_time : Z; repl_offset : Z; repl_offset_time : Z; fail_reports : list (name * Z); addr : address }.

Definition with_flags (n : clusterNode) (x : Z) : clusterNode := mk_node x (configEpoch n) (bitmap n) (numslots n) (slaves n) (slaveof n) (link n) (ping_sent n) (pong_received n) (fail_time n) (voted_time n) (repl_offset n) (repl_offset_time n) (fail_reports n) (addr n).
Definition with_configEpoch (n : clusterNode) (x : Z) : clusterNode := mk_node (flags n) x (bitmap n) (numslots n) (slaves n) (slaveof n) (link n) (ping_sent n) (pong_received n) (fail_time n) (voted_time n) (repl_offset n) (repl_offset_time n) (fail_reports n) (addr n).
Definition with_bitmap (n : clusterNode) (b : list Z) (x : Z) : clusterNode := mk_node (flags n) (configEpoch n) b x (slaves n) (slaveof n) (link n) (ping_sent n) (pong_received n) (fail_time n) (voted_time n) (repl_offset n) (repl_offset_time n) (fail_reports n) (addr n).
Definition with_slaves (n : clusterNode) (l : list name) : clusterNode := mk_node (flags n) (configEpoch n) (bitmap n) (numslots n) l (slaveof n) (link n) (ping_sent n) (pong_received n) (fail_time n) (voted_time n) (repl_offset n) (repl_offset_time n) (fail_reports n) (addr n).
Definition with_slaveof (n : clusterNode) (x : option name) : clusterNode := mk_node (flags n) (configEpoch n) (bitmap n) (numslots n) (slaves n) x (link n) (ping_sent n) (pong_received n) (fail_time n) (voted_time n) (repl_offset n) (repl_offset_time n) (fail_reports n) (addr n).
Definition with_link (n : clusterNode) (x : bool) : clusterNode := mk_node (flags n) (configEpoch n) (bitmap n) (numslots n) (slaves n) (slaveof n) x (ping_sent n) (pong_received n) (fail_time n) (voted_time n) (repl_offset n) (repl_offset_time n) (fail_reports n) (addr n).
Definition with_pings (n : clusterNode) (s r : Z) : clusterNode := mk_node (flags n) (configEpoch n) (bitmap n) (numslots n) (slaves n) (slaveof n) (link n) s r (fail_time n) (voted_time n) (repl_offset n) (repl_offset_time n) (fail_reports n) (addr n).
Definition with_fail_time (n : clusterNode) (x : Z) : clusterNode := mk_node (flags n) (configEpoch n) (bitmap n) (numslots n) (slaves n) (slaveof n) (link n) (ping_sent n) (pong_received n) x (voted_time n) (repl_offset n) (repl_offset_time n) (fail_reports n) (addr n).
Definition with_voted_time (n : clusterNode) (x : Z) : clusterNode := mk_node (flags n) (configEpoch n) (bitmap n) (numslots n) (slaves n) (slaveof n) (link n) (ping_sent n) (pong_received n) (fail_time n) x (repl_offset n) (repl_offset_time n) (fail_reports n) (addr n).
Definition with_repl_offset (n : clusterNode) (x t : Z) : clusterNode := mk_node (flags n) (configEpoch n) (bitmap n) (numslots n) (slaves n) (slaveof n) (link n) (ping_sent n) (pong_received n) (fail_time n) (voted_time n) x t (fail_reports n) (addr n).
Definition with_fail_reports (n : clusterNode) (l : list (name * Z)) : clusterNode := mk_node (flags n) (configEpoch n) (bitmap n) (numslots n) (slaves n) (slaveof n) (link n) (ping_sent n) (pong_received n) (fail_time n) (voted_time n) (repl_offset n) (repl_offset_time n) l (addr n).
Definition with_addr (n : clusterNode) (a : address) : clusterNode := mk_node (flags n) (configEpoch n) (bitmap n) (numslots n) (slaves n) (slaveof n) (link n) (ping_sent n) (pong_received n) (fail_time n) (voted_time n) (repl_offset n) (repl_offset_time n) (fail_reports n) a.

Definition has_flag (n : clusterNode) (f : Z) : bool := negb (Z.land (flags n) f =? 0).
Definition set_flag (n : clusterNode) (f : Z) : clusterNode := with_flags n (Z.lor (flags n) f).
Definition clear_flag (n : clusterNode) (f : Z) : clusterNode := with_flags n (Z.land (flags n) (Z.lnot f)).
Definition nodeIsMaster (n : clusterNode) : bool := has_flag n CLUSTER_NODE_MASTER.
Definition nodeIsSlave (n : clusterNode) : bool := has_flag n CLUSTER_NODE_SLAVE.
Definition nodeInHandshake (n : clusterNode) : bool := has_flag n CLUSTER_NODE_HANDSHAKE.
Definition nodeTimedOut (n : clusterNode) : bool := has_flag n CLUSTER_NODE_PFAIL.
Definition nodeFailed (n : clusterNode) : bool := has_flag n CLUSTER_NODE_FAIL.

(** Packets: the fields of the header (the announced address in [m_addr], without IP when
    none is announced) and, per type, the data. *)
Record gossip := mk_gossip { g_nodename : name; g_flags : Z; g_pong_received : Z; g_addr : address }.
Inductive msg_data :=
| PING (l : list gossip) | PONG (l : list gossip) | MEET (l : list gossip) | FAIL (about : name) | PUBLISH (channel message : list Z)
| FAILOVER_AUTH_REQUEST | FAILOVER_AUTH_ACK | UPDATE (epoch : Z) (nodename : name) (slots : list Z) | MFSTART.
Record clusterMsg := mk_msg { data : msg_data; sender : name; m_flags : Z; m_currentEpoch : Z; m_configEpoch : Z; m_offset : Z; myslots : list Z; m_slaveof : name; mflags0 : Z; m_addr : address }.

(** The state of this node as a slave that seeks votes, and of manual failovers. *)
Record election := mk_election { auth_time : Z; auth_count : Z; auth_sent : bool; auth_rank : Z; auth_epoch : Z }.
Record manual := mk_manual { mf_end : Z; mf_slave : option name; mf_master_offset : Z; mf_can_start : bool }.
(** Owners of slots, and open slots. *)
Record slot_tables := mk_tables { owner : gmap Z name; migrating_slots_to : gmap Z name; importing_slots_from : gmap Z name }.

(** Calls into the rest of the server. *)
Inductive effect := SaveConfig (fsync : bool) (epoch vote : Z) | SetMaster (n : name) | UnsetMaster | DelKeysInSlot (slot : Z) | PauseClients (until : Z) | Unpause | Publish (channel message : list Z) | EmptyDb.

Record clusterState := mk_state { myself : name; currentEpoch : Z; lastVoteEpoch : Z; state : bus_state; size : Z; nodes : gmap name clusterNode; tables : slot_tables;
  failover : election; mf : manual; cant_failover_reason : cant_failover; todo_before_sleep : Z; among_minority_time : Z; first_call_time : Z; sndbuf : list (name * clusterMsg); effects : list effect; nodes_black_list : gmap name Z }.

Definition set_currentEpoch (st : clusterState) (x : Z) : clusterState := mk_state (myself st) x (lastVoteEpoch st) (state st) (size st) (nodes st) (tables st) (failover st) (mf st) (cant_failover_reason st) (todo_before_sleep st) (among_minority_time st) (first_call_time st) (sndbuf st) (effects st) (nodes_black_list st).
Definition set_lastVoteEpoch (st : clusterState) (x : Z) : clusterState := mk_state (myself st) (currentEpoch st) x (state st) (size st) (nodes st) (tables st) (failover st) (mf st) (cant_failover_reason st) (todo_before_sleep st) (among_minority_time st) (first_call_time st) (sndbuf st) (effects st) (nodes_black_list st).
Definition set_state (st : clusterState) (x : bus_state) : clusterState := mk_state (myself st) (currentEpoch st) (lastVoteEpoch st) x (size st) (nodes st) (tables st) (failover st) (mf st) (cant_failover_reason st) (todo_before_sleep st) (among_minority_time st) (first_call_time st) (sndbuf st) (effects st) (nodes_black_list st).
Definition set_size (st : clusterState) (x : Z) : clusterState := mk_state (myself st) (currentEpoch st) (lastVoteEpoch st) (state st) x (nodes st) (tables st) (failover st) (mf st) (cant_failover_reason st) (todo_before_sleep st) (among_minority_time st) (first_call_time st) (sndbuf st) (effects st) (nodes_black_list st).
Definition set_nodes (st : clusterState) (x : gmap name clusterNode) : clusterState := mk_state (myself st) (currentEpoch st) (lastVoteEpoch st) (state st) (size st) x (tables st) (failover st) (mf st) (cant_failover_reason st) (todo_before_sleep st) (among_minority_time st) (first_call_time st) (sndbuf st) (effects st) (nodes_black_list st).
Definition set_tables (st : clusterState) (x : slot_tables) : clusterState := mk_state (myself st) (currentEpoch st) (lastVoteEpoch st) (state st) (size st) (nodes st) x (failover st) (mf st) (cant_failover_reason st) (todo_before_sleep st) (among_minority_time st) (first_call_time st) (sndbuf st) (effects st) (nodes_black_list st).
Definition set_failover (st : clusterState) (x : election) : clusterState := mk_state (myself st) (currentEpoch st) (lastVoteEpoch st) (state st) (size st) (nodes st) (tables st) x (mf st) (cant_failover_reason st) (todo_before_sleep st) (among_minority_time st) (first_call_time st) (sndbuf st) (effects st) (nodes_black_list st).
Definition set_mf (st : clusterState) (x : manual) : clusterState := mk_state (myself st) (currentEpoch st) (lastVoteEpoch st) (state st) (size st) (nodes st) (tables st) (failover st) x (cant_failover_reason st) (todo_before_sleep st) (among_minority_time st) (first_call_time st) (sndbuf st) (effects st) (nodes_black_list st).
Definition set_reason (st : clusterState) (x : cant_failover) : clusterState := mk_state (myself st) (currentEpoch st) (lastVoteEpoch st) (state st) (size st) (nodes st) (tables st) (failover st) (mf st) x (todo_before_sleep st) (among_minority_time st) (first_call_time st) (sndbuf st) (effects st) (nodes_black_list st).
Definition set_todo (st : clusterState) (x : Z) : clusterState := mk_state (myself st) (currentEpoch st) (lastVoteEpoch st) (state st) (size st) (nodes st) (tables st) (failover st) (mf st) (cant_failover_reason st) x (among_minority_time st) (first_call_time st) (sndbuf st) (effects st) (nodes_black_list st).
Definition set_times (st : clusterState) (a f : Z) : clusterState := mk_state (myself st) (currentEpoch st) (lastVoteEpoch st) (state st) (size st) (nodes st) (tables st) (failover st) (mf st) (cant_failover_reason st) (todo_before_sleep st) a f (sndbuf st) (effects st) (nodes_black_list st).
Definition push_msg (st : clusterState) (to : name) (m : clusterMsg) : clusterState := mk_state (myself st) (currentEpoch st) (lastVoteEpoch st) (state st) (size st) (nodes st) (tables st) (failover st) (mf st) (cant_failover_reason st) (todo_before_sleep st) (among_minority_time st) (first_call_time st) (sndbuf st ++ [(to, m)]) (effects st) (nodes_black_list st).
Definition push_effect (st : clusterState) (e : effect) : clusterState := mk_state (myself st) (currentEpoch st) (lastVoteEpoch st) (state st) (size st) (nodes st) (tables st) (failover st) (mf st) (cant_failover_reason st) (todo_before_sleep st) (among_minority_time st) (first_call_time st) (sndbuf st) (effects st ++ [e]) (nodes_black_list st).
Definition set_black_list (st : clusterState) (x : gmap name Z) : clusterState := mk_state (myself st) (currentEpoch st) (lastVoteEpoch st) (state st) (size st) (nodes st) (tables st) (failover st) (mf st) (cant_failover_reason st) (todo_before_sleep st) (among_minority_time st) (first_call_time st) (sndbuf st) (effects st) x.

Definition with_owner (t : slot_tables) (o : gmap Z name) : slot_tables := mk_tables o (migrating_slots_to t) (importing_slots_from t).

Abbreviation C := (ST clusterState).

(** The node a pointer points to. *)
Definition deref (n : name) : C clusterNode := fun st => match nodes st !! n with Some x => Ok (st, x) | None => Fault OutOfBounds end.
Definition deref_opt (n : option name) : C clusterNode := match n with Some n => deref n | None => lift (Fault OutOfBounds) end.
Definition update (n : name) (f : clusterNode -> clusterNode) : C unit := x ← deref n; modify (fun st => set_nodes st (<[n := f x]> (nodes st))).
Definition self : C clusterNode := m ← gets myself; deref m.
Definition clusterLookupNode (n : name) : C (option name) := gets (fun st => match nodes st !! n with Some _ => Some n | None => None end).
Definition all_nodes : C (list (name * clusterNode)) := gets (fun st => map_to_list (nodes st)).
Definition clusterDoBeforeSleep (f : Z) : C unit := modify (fun st => set_todo st (Z.lor (todo_before_sleep st) f)).
Definition clusterSaveConfigOrDie (fsync : bool) : C unit := modify (fun st => push_effect st (SaveConfig fsync (currentEpoch st) (lastVoteEpoch st))).
Definition call (e : effect) : C unit := modify (fun st => push_effect st e).

(** What a handler learns about addresses while it handles a packet: the settings of this
    node; the IP of the other end of the link, and of this end if it is known; the text
    [inet_ntop] makes of what [inet_pton] reads in an IP, none if it is no IP; and the random
    names drawn by [getRandomHexChars], in the order of use. *)
Record bus_env := mk_bus { server_port : Z; cluster_announce_ip : option (list Z); cluster_announce_port : Z; cluster_announce_bus_port : Z;
  anetPeerToString : list Z; anetSockName : option (list Z); normalize_ip : list Z -> option (list Z); random_name : nat -> name }.

(** What a handler reads from the rest of the server: the number of slots the program is
    compiled for, clock, settings, replication. *)
Record env := mk_env { CLUSTER_SLOTS : Z; mstime : Z; unixtime : Z; cluster_node_timeout : Z; cluster_slave_validity_factor : Z; repl_ping_slave_period : Z; require_full_coverage : bool;
  repl_connected : bool; lastinteraction : Z; repl_down_since : Z; slave_repl_offset : Z; master_repl_offset : Z; random : Z; countKeysInSlot : Z -> Z; clients_paused : bool; subscribers : bool; gossip_section : list gossip; bus : bus_env }.

(** [for (j = 0; j < CLUSTER_SLOTS; j++)] *)
Fixpoint up_to (n : nat) (j : Z) : list Z := match n with O => [] | S n => j :: up_to n (j + 1) end.
Definition all_slots (E : env) : list Z := up_to (Z.to_nat (CLUSTER_SLOTS E)) 0.

(** ** Slots *)

Definition bitmapTestBit (b : list Z) (pos : Z) : res bool := x ← peek b (pos / 8); Ok (negb (Z.land x (Z.shiftl 1 (Z.land pos 7)) =? 0)).
Definition bitmapSetBit (b : list Z) (pos : Z) : res (list Z) := x ← peek b (pos / 8); poke b (pos / 8) (Z.lor x (Z.shiftl 1 (Z.land pos 7))).
Definition bitmapClearBit (b : list Z) (pos : Z) : res (list Z) := x ← peek b (pos / 8); poke b (pos / 8) (Z.land x (Z.lnot (Z.shiftl 1 (Z.land pos 7)))).

Definition clusterMastersHaveSlaves : C bool :=
  l ← all_nodes;
  mret (negb (fold_left (fun s (p : name * clusterNode) => if nodeIsSlave p.2 then s else s + zlen (slaves p.2)) l 0 =? 0)).

Definition clusterNodeSetSlotBit (n : name) (slot : Z) : C bool :=
  x ← deref n;
  old ← lift (bitmapTestBit (bitmap x) slot);
  b ← lift (bitmapSetBit (bitmap x) slot);
  _ ← update n (fun x => with_bitmap x b (numslots x));
  _ ← (if negb old then
         _ ← update n (fun x => with_bitmap x (bitmap x) (numslots x + 1));
         x ← deref n;
         h ← (if numslots x =? 1 then clusterMastersHaveSlaves else mret false);
         if h : bool then update n (fun x => set_flag x CLUSTER_NODE_MIGRATE_TO) else mret tt
       else mret tt);
  mret old.

Definition clusterNodeClearSlotBit (n : name) (slot : Z) : C bool :=
  x ← deref n;
  old ← lift (bitmapTestBit (bitmap x) slot);
  b ← lift (bitmapClearBit (bitmap x) slot);
  _ ← update n (fun x => with_bitmap x b (numslots x));
  _ ← (if old : bool then update n (fun x => with_bitmap x (bitmap x) (numslots x - 1)) else mret tt);
  mret old.

Definition clusterNodeGetSlotBit (n : name) (slot : Z) : C bool := x ← deref n; lift (bitmapTestBit (bitmap x) slot).

Definition slot_owner (slot : Z) : C (option name) := gets (fun st => owner (tables st) !! slot).
Definition set_owner (slot : Z) (o : option name) : C unit :=
  modify (fun st => set_tables st (with_owner (tables st) (match o with Some n => <[slot := n]> (owner (tables st)) | None => base.delete slot (owner (tables st)) end))).

(** [true] is C_OK. *)
Definition clusterAddSlot (n : name) (slot : Z) : C bool :=
  o ← slot_owner slot;
  match o with
  | Some _ => mret false
  | None => _ ← clusterNodeSetSlotBit n slot; _ ← set_owner slot (Some n); mret true
  end.

Definition clusterDelSlot (slot : Z) : C bool :=
  o ← slot_owner slot;
  match o with
  | None => mret false
  | Some n => was ← clusterNodeClearSlotBit n slot; _ ← lift (assert_ was); _ ← set_owner slot None; mret true
  end.

Fixpoint del_slots_loop (n : name) (js : list Z) : C unit :=
  match js with [] => mret tt | j :: js => b ← clusterNodeGetSlotBit n j; _ ← (if b : bool then _ ← clusterDelSlot j; mret tt else mret tt); del_slots_loop n js end.
Definition clusterDelNodeSlots (E : env) (n : name) : C Z := _ ← del_slots_loop n (all_slots E); mret (CLUSTER_SLOTS E).

Definition clusterCloseAllSlots : C unit := modify (fun st => set_tables st (mk_tables (owner (tables st)) ∅ ∅)).

(** ** Masters and slaves *)

Fixpoint remove_first (x : name) (l : list name) : list name := match l with [] => [] | y :: l => if y =? x then l else y :: remove_first x l end.

Definition clusterNodeRemoveSlave (master slave : name) : C bool :=
  m ← deref master;
  if existsb (Z.eqb slave) (slaves m) then
    _ ← update master (fun m => with_slaves m (remove_first slave (slaves m)));
    m ← deref master;
    _ ← (if zlen (slaves m) =? 0 then update master (fun m => clear_flag m CLUSTER_NODE_MIGRATE_TO) else mret tt);
    mret true
  else mret false.

Definition clusterNodeAddSlave (master slave : name) : C bool :=
  m ← deref master;
  if existsb (Z.eqb slave) (slaves m) then mret false else
  _ ← update master (fun m => set_flag (with_slaves m (slaves m ++ [slave])) CLUSTER_NODE_MIGRATE_TO);
  mret true.

Definition clusterSetNodeAsMaster (n : name) : C unit :=
  x ← deref n;
  if nodeIsMaster x then mret tt else
  me ← gets myself;
  _ ← match slaveof x with
      | Some m => _ ← clusterNodeRemoveSlave m n; if negb (n =? me) then update n (fun x => set_flag x CLUSTER_NODE_MIGRATE_TO) else mret tt
      | None => mret tt
      end;
  _ ← update n (fun x => with_slaveof (set_flag (clear_flag x CLUSTER_NODE_SLAVE) CLUSTER_NODE_MASTER) None);
  clusterDoBeforeSleep (Z.lor CLUSTER_TODO_SAVE_CONFIG CLUSTER_TODO_UPDATE_STATE).

Section Handlers.
Context (E : env).

Definition resetManualFailover : C unit :=
  m ← gets mf;
  _ ← (if negb (mf_end m =? 0) && clients_paused E then call Unpause else mret tt);
  modify (fun st => set_mf st (mk_manual 0 None 0 false)).

Definition clusterSetMaster (n : name) : C unit :=
  me ← gets myself;
  _ ← lift (assert_ (negb (n =? me)));
  x ← self;
  _ ← lift (assert_ (numslots x =? 0));
  _ ← (if nodeIsMaster x then
         _ ← update me (fun x => set_flag (clear_flag x (Z.lor CLUSTER_NODE_MASTER CLUSTER_NODE_MIGRATE_TO)) CLUSTER_NODE_SLAVE);
         clusterCloseAllSlots
       else match slaveof x with Some m => _ ← clusterNodeRemoveSlave m me; mret tt | None => mret tt end);
  _ ← update me (fun x => with_slaveof x (Some n));
  _ ← clusterNodeAddSlave n me;
  _ ← call (SetMaster n);
  resetManualFailover.

(** ** Failure reports *)

Fixpoint touch_report (from : name) (l : list (name * Z)) : list (name * Z) := match l with [] => [] | r :: l => if r.1 =? from then (from, mstime E) :: l else r :: touch_report from l end.
Definition clusterNodeAddFailureReport (failing from : name) : C bool :=
  x ← deref failing;
  if existsb (fun r : name * Z => r.1 =? from) (fail_reports x)
  then _ ← update failing (fun x => with_fail_reports x (touch_report from (fail_reports x))); mret false
  else _ ← update failing (fun x => with_fail_reports x (fail_reports x ++ [(from, mstime E)])); mret true.

Definition clusterNodeCleanupFailureReports (n : name) : C unit :=
  let maxtime := cluster_node_timeout E * CLUSTER_FAIL_REPORT_VALIDITY_MULT in
  update n (fun x => with_fail_reports x (List.filter (fun r : name * Z => negb (maxtime <? mstime E - r.2)) (fail_reports x))).

Fixpoint remove_report (from : name) (l : list (name * Z)) : list (name * Z) := match l with [] => [] | r :: l => if r.1 =? from then l else r :: remove_report from l end.
Definition clusterNodeDelFailureReport (n from : name) : C bool :=
  x ← deref n;
  if existsb (fun r : name * Z => r.1 =? from) (fail_reports x) then
    _ ← update n (fun x => with_fail_reports x (remove_report from (fail_reports x)));
    _ ← clusterNodeCleanupFailureReports n;
    mret true
  else mret false.

Definition clusterNodeFailureReportsCount (n : name) : C Z := _ ← clusterNodeCleanupFailureReports n; x ← deref n; mret (zlen (fail_reports x)).

(** ** The table of nodes *)

Definition set_open (f : slot_tables -> slot_tables) : C unit := modify (fun st => set_tables st (f (tables st))).
Definition clear_importing (j : Z) : C unit := set_open (fun t => mk_tables (owner t) (migrating_slots_to t) (base.delete j (importing_slots_from t))).
Definition clear_migrating (j : Z) : C unit := set_open (fun t => mk_tables (owner t) (base.delete j (migrating_slots_to t)) (importing_slots_from t)).

Fixpoint orphan_loop (l : list name) : C unit := match l with [] => mret tt | s :: l => _ ← update s (fun x => with_slaveof x None); orphan_loop l end.
Definition freeClusterNode (n : name) : C unit :=
  x ← deref n;
  _ ← orphan_loop (slaves x);
  x ← deref n;
  _ ← (if nodeIsSlave x then match slaveof x with Some m => _ ← clusterNodeRemoveSlave m n; mret tt | None => mret tt end else mret tt);
  known ← gets (fun st => bool_decide (nodes st !! n <> None));
  _ ← lift (assert_ known);
  modify (fun st => set_nodes st (base.delete n (nodes st))).

Fixpoint unassign_loop (n : name) (js : list Z) : C unit :=
  match js with
  | [] => mret tt
  | j :: js =>
    t ← gets tables;
    _ ← (if bool_decide (importing_slots_from t !! j = Some n) then clear_importing j else mret tt);
    _ ← (if bool_decide (migrating_slots_to t !! j = Some n) then clear_migrating j else mret tt);
    _ ← (if bool_decide (owner t !! j = Some n) then _ ← clusterDelSlot j; mret tt else mret tt);
    unassign_loop n js
  end.

Fixpoint drop_reports_loop (n : name) (l : list (name * clusterNode)) : C unit :=
  match l with [] => mret tt | (m, _) :: l => _ ← (if m =? n then mret tt else _ ← clusterNodeDelFailureReport m n; mret tt); drop_reports_loop n l end.
Definition clusterDelNode (n : name) : C unit :=
  _ ← unassign_loop n (all_slots E);
  l ← all_nodes;
  _ ← drop_reports_loop n l;
  freeClusterNode n.

(** A new node; its name goes with the entry of the table. *)
Definition createClusterNode (fl : Z) : clusterNode := mk_node fl 0 (repeat 0 (Z.to_nat (CLUSTER_SLOTS E / 8))) 0 [] None false 0 0 0 0 0 0 [] null_addr.
(** [dictAdd] adds nothing when the name is in use. *)
Definition clusterAddNode (n : name) (x : clusterNode) : C bool :=
  used ← gets (fun st => bool_decide (nodes st !! n <> None));
  if used : bool then mret false else _ ← modify (fun st => set_nodes st (<[n := x]> (nodes st))); mret true.

(** A pointer is the name of the node it points to, so every pointer follows a new name. A
    name that is taken already leaves the node in no table; following a pointer to it is a
    fault here. *)
Definition renamed (n new p : name) : name := if p =? n then new else p.
Definition rename_pointers (n new : name) (x : clusterNode) : clusterNode :=
  with_fail_reports (with_slaveof (with_slaves x (map (renamed n new) (slaves x))) (renamed n new <$> slaveof x)) (map (fun r : name * Z => (renamed n new r.1, r.2)) (fail_reports x)).
Definition rename_everywhere (n new : name) (st : clusterState) : clusterState :=
  mk_state (renamed n new (myself st)) (currentEpoch st) (lastVoteEpoch st) (state st) (size st) (rename_pointers n new <$> nodes st)
    (mk_tables (renamed n new <$> owner (tables st)) (renamed n new <$> migrating_slots_to (tables st)) (renamed n new <$> importing_slots_from (tables st)))
    (failover st) (mk_manual (mf_end (mf st)) (renamed n new <$> mf_slave (mf st)) (mf_master_offset (mf st)) (mf_can_start (mf st)))
    (cant_failover_reason st) (todo_before_sleep st) (among_minority_time st) (first_call_time st) (sndbuf st) (effects st) (nodes_black_list st).
Definition clusterRenameNode (n new : name) : C unit :=
  x ← deref n;
  _ ← modify (fun st => set_nodes st (base.delete n (nodes st)));
  _ ← modify (rename_everywhere n new);
  _ ← clusterAddNode new (rename_pointers n new x);
  mret tt.

(** The black list is a dictionary that compares names without case: its key for a name is
    the name with its [k = 40] bytes in lower case. [time] and the cached [server.unixtime]
    are the same clock. *)
Fixpoint fold_name (k : nat) (n : name) : name := match k with O => 0 | S k => 256 * fold_name k (n / 256) + tolower (n mod 256) end.
Definition clusterBlacklistCleanup : C unit := modify (fun st => set_black_list st (filter (fun p => ~ p.2 < unixtime E) (nodes_black_list st))).
Definition clusterBlacklistAddNode (n : name) : C unit := _ ← clusterBlacklistCleanup; modify (fun st => set_black_list st (<[fold_name 40 n := unixtime E + CLUSTER_BLACKLIST_TTL]> (nodes_black_list st))).
Definition clusterBlacklistExists (n : name) : C bool := _ ← clusterBlacklistCleanup; gets (fun st => bool_decide (nodes_black_list st !! fold_name 40 n <> None)).

(** ** Packets *)

Definition announced : address :=
  let b := bus E in
  mk_addr (match cluster_announce_ip b with Some a => take (Z.to_nat (NET_IP_STR_LEN - 1)) a | None => [] end)
    (u16 (if cluster_announce_port b =? 0 then server_port b else cluster_announce_port b))
    (u16 (if cluster_announce_bus_port b =? 0 then server_port b + CLUSTER_PORT_INCR else cluster_announce_bus_port b)).
Definition clusterBuildMessageHdr (d : msg_data) : C clusterMsg :=
  me ← gets myself;
  x ← self;
  master ← match slaveof x with Some m => if nodeIsSlave x then deref m else mret x | None => mret x end;
  st ← gets id;
  mret (mk_msg d me (flags x) (currentEpoch st) (configEpoch master) (if nodeIsSlave x then slave_repl_offset E else master_repl_offset E) (bitmap master)
          (default 0 (slaveof x)) (if nodeIsMaster x && negb (mf_end (mf st) =? 0) then CLUSTERMSG_FLAG0_PAUSED else 0) announced).

(** A packet on the link of a node. *)
Definition clusterSendMessage (to : name) (m : clusterMsg) : C unit := modify (fun st => push_msg st to m).
Fixpoint broadcast_loop (l : list (name * clusterNode)) (m : clusterMsg) : C unit :=
  match l with
  | [] => mret tt
  | (n, x) :: l => _ ← (if negb (link x) || has_flag x (Z.lor CLUSTER_NODE_MYSELF CLUSTER_NODE_HANDSHAKE) then mret tt else clusterSendMessage n m); broadcast_loop l m
  end.
Definition clusterBroadcastMessage (m : clusterMsg) : C unit := l ← all_nodes; broadcast_loop l m.

Definition clusterSendFail (n : name) : C unit := m ← clusterBuildMessageHdr (FAIL n); clusterBroadcastMessage m.
Definition clusterSendUpdate (to n : name) : C unit :=
  t ← deref to;
  if negb (link t) then mret tt else
  x ← deref n;
  m ← clusterBuildMessageHdr (UPDATE (configEpoch x) n (bitmap x));
  clusterSendMessage to m.
Definition or_mflags (m : clusterMsg) (f : Z) : clusterMsg := mk_msg (data m) (sender m) (m_flags m) (m_currentEpoch m) (m_configEpoch m) (m_offset m) (myslots m) (m_slaveof m) (Z.lor (mflags0 m) f) (m_addr m).
Definition clusterRequestFailoverAuth : C unit :=
  m ← clusterBuildMessageHdr FAILOVER_AUTH_REQUEST;
  f ← gets mf;
  clusterBroadcastMessage (if negb (mf_end f =? 0) then or_mflags m CLUSTERMSG_FLAG0_FORCEACK else m).
Definition clusterSendFailoverAuth (n : name) : C unit :=
  x ← deref n;
  if negb (link x) then mret tt else m ← clusterBuildMessageHdr FAILOVER_AUTH_ACK; clusterSendMessage n m.
Definition clusterSendMFStart (n : name) : C unit :=
  x ← deref n;
  if negb (link x) then mret tt else m ← clusterBuildMessageHdr MFSTART; clusterSendMessage n m.

(** A PONG; which nodes its gossip section tells about is drawn at random. *)
Definition send_pong (to : name) : C unit := m ← clusterBuildMessageHdr (PONG (gossip_section E)); clusterSendMessage to m.
Fixpoint broadcast_pong_loop (local : bool) (l : list (name * clusterNode)) : C unit :=
  match l with
  | [] => mret tt
  | (n, x) :: l =>
    me ← gets myself;
    m ← self;
    _ ← (if negb (link x) || (n =? me) || nodeInHandshake x then mret tt
         else if local && negb (nodeIsSlave x && bool_decide (slaveof x <> None) && (bool_decide (slaveof x = Some me) || bool_decide (slaveof x = slaveof m))) then mret tt
         else send_pong n);
    broadcast_pong_loop local l
  end.
Definition clusterBroadcastPong (local : bool) : C unit := l ← all_nodes; broadcast_pong_loop local l.

(** ** Failure detection *)

Definition needed_quorum (size : Z) : Z := size / 2 + 1.

Definition markNodeAsFailingIfNeeded (n : name) : C unit :=
  x ← deref n;
  sz ← gets size;
  if negb (nodeTimedOut x) then mret tt else
  if nodeFailed x then mret tt else
  failures ← clusterNodeFailureReportsCount n;
  m ← self;
  let failures := if nodeIsMaster m then failures + 1 else failures in
  if failures <? needed_quorum sz then mret tt else
  _ ← update n (fun x => with_fail_time (set_flag (clear_flag x CLUSTER_NODE_PFAIL) CLUSTER_NODE_FAIL) (mstime E));
  _ ← (if nodeIsMaster m then clusterSendFail n else mret tt);
  clusterDoBeforeSleep (Z.lor CLUSTER_TODO_UPDATE_STATE CLUSTER_TODO_SAVE_CONFIG).

Definition clearNodeFailureIfNeeded (n : name) : C unit :=
  x ← deref n;
  _ ← lift (assert_ (nodeFailed x));
  let clear := _ ← update n (fun x => clear_flag x CLUSTER_NODE_FAIL); clusterDoBeforeSleep (Z.lor CLUSTER_TODO_UPDATE_STATE CLUSTER_TODO_SAVE_CONFIG) in
  _ ← (if nodeIsSlave x || (numslots x =? 0) then clear else mret tt);
  x ← deref n;
  if nodeIsMaster x && (0 <? numslots x) && (cluster_node_timeout E * CLUSTER_FAIL_UNDO_TIME_MULT <? mstime E - fail_time x) then clear else mret tt.

(** ** Configuration epochs *)

Definition clusterGetMaxEpoch : C Z :=
  l ← all_nodes;
  let max := fold_left (fun m (p : name * clusterNode) => if m <? configEpoch p.2 then configEpoch p.2 else m) l 0 in
  e ← gets currentEpoch;
  mret (if max <? e then e else max).

(** [currentEpoch++]; the new epoch. *)
Definition next_epoch : C Z := _ ← modify (fun st => set_currentEpoch st (u64 (currentEpoch st + 1))); gets currentEpoch.

Definition clusterBumpConfigEpochWithoutConsensus : C bool :=
  max ← clusterGetMaxEpoch;
  me ← gets myself;
  x ← self;
  if (configEpoch x =? 0) || negb (configEpoch x =? max) then
    e ← next_epoch;
    _ ← update me (fun x => with_configEpoch x e);
    _ ← clusterDoBeforeSleep (Z.lor CLUSTER_TODO_SAVE_CONFIG CLUSTER_TODO_FSYNC_CONFIG);
    mret true
  else mret false.

Definition clusterHandleConfigEpochCollision (from : name) : C unit :=
  me ← gets myself;
  s ← deref from;
  x ← self;
  if negb (configEpoch s =? configEpoch x) || negb (nodeIsMaster s) || negb (nodeIsMaster x) then mret tt else
  if from <=? me then mret tt else
  e ← next_epoch;
  _ ← update me (fun x => with_configEpoch x e);
  clusterSaveConfigOrDie true.

(** ** Slot configuration of other nodes *)

(** The loop over the claimed slots: the new master if a slot of [curmaster] went to the
    sender, and the lost slots that still hold keys. *)
Fixpoint update_slots_loop (from : name) (epoch : Z) (claimed : list Z) (curmaster : option name) (js : list Z) (newmaster : option name) (dirty_slots : list Z) : C (option name * list Z) :=
  match js with
  | [] => mret (newmaster, dirty_slots)
  | j :: js =>
    b ← lift (bitmapTestBit claimed j);
    if negb b then update_slots_loop from epoch claimed curmaster js newmaster dirty_slots else
    o ← slot_owner j;
    if bool_decide (o = Some from) then update_slots_loop from epoch claimed curmaster js newmaster dirty_slots else
    imp ← gets (fun st => importing_slots_from (tables st) !! j);
    if bool_decide (imp <> None) then update_slots_loop from epoch claimed curmaster js newmaster dirty_slots else
    older ← match o with None => mret true | Some n => x ← deref n; mret (configEpoch x <? epoch) end;
    if negb older then update_slots_loop from epoch claimed curmaster js newmaster dirty_slots else
    me ← gets myself;
    let dirty_slots := if bool_decide (o = Some me) && negb (countKeysInSlot E j =? 0) && negb (from =? me) then dirty_slots ++ [j] else dirty_slots in
    let newmaster := if bool_decide (o = curmaster) then Some from else newmaster in
    _ ← clusterDelSlot j;
    _ ← clusterAddSlot from j;
    _ ← clusterDoBeforeSleep (Z.lor (Z.lor CLUSTER_TODO_SAVE_CONFIG CLUSTER_TODO_UPDATE_STATE) CLUSTER_TODO_FSYNC_CONFIG);
    update_slots_loop from epoch claimed curmaster js newmaster dirty_slots
  end.

Fixpoint del_keys_loop (js : list Z) : C unit := match js with [] => mret tt | j :: js => _ ← call (DelKeysInSlot j); del_keys_loop js end.

Definition clusterUpdateSlotsConfigWith (from : name) (epoch : Z) (claimed : list Z) : C unit :=
  me ← gets myself;
  x ← self;
  let curmaster := if nodeIsMaster x then Some me else slaveof x in
  if from =? me then mret tt else
  '(newmaster, dirty_slots) ← update_slots_loop from epoch claimed curmaster (all_slots E) None [];
  demoted ← match newmaster with None => mret false | Some _ => c ← deref_opt curmaster; mret (numslots c =? 0) end;
  if demoted : bool then
    _ ← clusterSetMaster from;
    clusterDoBeforeSleep (Z.lor (Z.lor CLUSTER_TODO_SAVE_CONFIG CLUSTER_TODO_UPDATE_STATE) CLUSTER_TODO_FSYNC_CONFIG)
  else del_keys_loop dirty_slots.

(** ** State of the cluster *)

(** Some slot without an owner, or with one that is failing. *)
Fixpoint uncovered_loop (js : list Z) : C bool :=
  match js with
  | [] => mret false
  | j :: js => o ← slot_owner j; match o with None => mret true | Some n => x ← deref n; if nodeFailed x then mret true else uncovered_loop js end
  end.

Definition serves (x : clusterNode) : bool := nodeIsMaster x && negb (numslots x =? 0).

Definition clusterUpdateState : C unit :=
  _ ← modify (fun st => set_todo st (Z.land (todo_before_sleep st) (Z.lnot CLUSTER_TODO_UPDATE_STATE)));
  _ ← modify (fun st => if first_call_time st =? 0 then set_times st (among_minority_time st) (mstime E) else st);
  st ← gets Datatypes.id;
  x ← self;
  if nodeIsMaster x && bool_decide (state st = CLUSTER_FAIL) && (mstime E - first_call_time st <? CLUSTER_WRITABLE_DELAY) then mret tt else
  bad ← (if require_full_coverage E then uncovered_loop (all_slots E) else mret false);
  l ← all_nodes;
  let masters := List.filter (fun p : name * clusterNode => serves p.2) l in
  let reachable_masters := zlen (List.filter (fun p : name * clusterNode => negb (has_flag p.2 (Z.lor CLUSTER_NODE_FAIL CLUSTER_NODE_PFAIL))) masters) in
  _ ← modify (fun st => set_size st (zlen masters));
  let minority := reachable_masters <? needed_quorum (zlen masters) in
  _ ← (if minority then modify (fun st => set_times st (mstime E) (first_call_time st)) else mret tt);
  let new_state := if bad || minority then CLUSTER_FAIL else CLUSTER_OK in
  st ← gets Datatypes.id;
  if bool_decide (new_state = state st) then mret tt else
  let rejoin_delay := Z.max (Z.min (cluster_node_timeout E) CLUSTER_MAX_REJOIN_DELAY) CLUSTER_MIN_REJOIN_DELAY in
  if bool_decide (new_state = CLUSTER_OK) && nodeIsMaster x && (mstime E - among_minority_time st <? rejoin_delay) then mret tt
  else modify (fun st => set_state st new_state).

(** ** Elections *)

(** The first claimed slot whose owner has a greater epoch than the request. *)
Fixpoint newer_owner_loop (claimed : list Z) (epoch : Z) (js : list Z) : C bool :=
  match js with
  | [] => mret false
  | j :: js =>
    b ← lift (bitmapTestBit claimed j);
    if negb b then newer_owner_loop claimed epoch js else
    o ← slot_owner j;
    match o with
    | None => newer_owner_loop claimed epoch js
    | Some n => x ← deref n; if configEpoch x <=? epoch then newer_owner_loop claimed epoch js else mret true
    end
  end.

Definition clusterSendFailoverAuthIfNeeded (n : name) (request : clusterMsg) : C unit :=
  x ← deref n;
  m ← self;
  st ← gets Datatypes.id;
  let force_ack := negb (Z.land (mflags0 request) CLUSTERMSG_FLAG0_FORCEACK =? 0) in
  if nodeIsSlave m || (numslots m =? 0) then mret tt else
  if m_currentEpoch request <? currentEpoch st then mret tt else
  if lastVoteEpoch st =? currentEpoch st then mret tt else
  if nodeIsMaster x then mret tt else
  match slaveof x with
  | None => mret tt
  | Some master =>
    y ← deref master;
    if negb (nodeFailed y) && negb force_ack then mret tt else
    if mstime E - voted_time y <? cluster_node_timeout E * 2 then mret tt else
    newer ← newer_owner_loop (myslots request) (m_configEpoch request) (all_slots E);
    if newer : bool then mret tt else
    _ ← clusterSendFailoverAuth n;
    _ ← modify (fun st => set_lastVoteEpoch st (currentEpoch st));
    update master (fun y => with_voted_time y (mstime E))
  end.

Fixpoint rank_loop (me : name) (myoffset : Z) (l : list name) (rank : Z) : C Z :=
  match l with
  | [] => mret rank
  | n :: l => r ← (if negb (n =? me) then x ← deref n; mret (if myoffset <? repl_offset x then rank + 1 else rank) else mret rank); rank_loop me myoffset l r
  end.
Definition clusterGetSlaveRank : C Z :=
  me ← gets myself;
  x ← self;
  _ ← lift (assert_ (nodeIsSlave x));
  match slaveof x with None => mret 0 | Some m => y ← deref m; rank_loop me (slave_repl_offset E) (slaves y) 0 end.

Fixpoint take_slots_loop (old me : name) (js : list Z) : C unit :=
  match js with
  | [] => mret tt
  | j :: js => b ← clusterNodeGetSlotBit old j; _ ← (if b : bool then _ ← clusterDelSlot j; _ ← clusterAddSlot me j; mret tt else mret tt); take_slots_loop old me js
  end.

Definition clusterFailoverReplaceYourMaster : C unit :=
  me ← gets myself;
  x ← self;
  if nodeIsMaster x then mret tt else
  match slaveof x with
  | None => mret tt
  | Some oldmaster =>
    _ ← clusterSetNodeAsMaster me;
    _ ← call UnsetMaster;
    _ ← take_slots_loop oldmaster me (all_slots E);
    _ ← clusterUpdateState;
    _ ← clusterSaveConfigOrDie true;
    _ ← clusterBroadcastPong false;
    resetManualFailover
  end.

(** Only the reason is kept; logging is left out. *)
Definition clusterLogCantFailover (r : cant_failover) : C unit := modify (fun st => set_reason st r).

Definition set_auth (f : election -> election) : C unit := modify (fun st => set_failover st (f (failover st))).

(** The delay before a new election. *)
Definition schedule_election : C unit :=
  rank ← (_ ← set_auth (fun f => mk_election (mstime E + 500 + random E mod 500) 0 false (auth_rank f) (auth_epoch f)); clusterGetSlaveRank);
  _ ← set_auth (fun f => mk_election (auth_time f + rank * 1000) (auth_count f) (auth_sent f) rank (auth_epoch f));
  m ← gets mf;
  _ ← (if negb (mf_end m =? 0) then set_auth (fun f => mk_election (mstime E) (auth_count f) (auth_sent f) 0 (auth_epoch f)) else mret tt);
  clusterBroadcastPong true.

Definition clusterHandleSlaveFailover : C unit :=
  st ← gets Datatypes.id;
  let auth_age := mstime E - auth_time (failover st) in
  let manual_failover := negb (mf_end (mf st) =? 0) && mf_can_start (mf st) in
  _ ← modify (fun st => set_todo st (Z.land (todo_before_sleep st) (Z.lnot CLUSTER_TODO_HANDLE_FAILOVER)));
  let auth_timeout := Z.max (cluster_node_timeout E * 2) 2000 in
  let auth_retry_time := auth_timeout * 2 in
  me ← gets myself;
  x ← self;
  wanted ← (if nodeIsMaster x then mret false else match slaveof x with None => mret false | Some m => y ← deref m; mret (negb (negb (nodeFailed y) && negb manual_failover || (numslots y =? 0))) end);
  if negb wanted then modify (fun st => set_reason st CANT_NONE) else
  let data_age := (if repl_connected E then unixtime E - lastinteraction E else unixtime E - repl_down_since E) * 1000 in
  let data_age := if cluster_node_timeout E <? data_age then data_age - cluster_node_timeout E else data_age in
  if negb (cluster_slave_validity_factor E =? 0) && (repl_ping_slave_period E * 1000 + cluster_node_timeout E * cluster_slave_validity_factor E <? data_age) && negb manual_failover
  then clusterLogCantFailover CANT_DATA_AGE else
  if auth_retry_time <? auth_age then schedule_election else
  _ ← (if negb (auth_sent (failover st)) && (mf_end (mf st) =? 0) then
         newrank ← clusterGetSlaveRank;
         set_auth (fun f => if auth_rank f <? newrank then mk_election (auth_time f + (newrank - auth_rank f) * 1000) (auth_count f) (auth_sent f) newrank (auth_epoch f) else f)
       else mret tt);
  f ← gets failover;
  if mstime E <? auth_time f then clusterLogCantFailover CANT_WAITING_DELAY else
  if auth_timeout <? auth_age then clusterLogCantFailover CANT_EXPIRED else
  if negb (auth_sent f) then
    e ← next_epoch;
    _ ← set_auth (fun f => mk_election (auth_time f) (auth_count f) (auth_sent f) (auth_rank f) e);
    _ ← clusterRequestFailoverAuth;
    _ ← set_auth (fun f => mk_election (auth_time f) (auth_count f) true (auth_rank f) (auth_epoch f));
    clusterDoBeforeSleep (Z.lor (Z.lor CLUSTER_TODO_SAVE_CONFIG CLUSTER_TODO_UPDATE_STATE) CLUSTER_TODO_FSYNC_CONFIG)
  else if needed_quorum (size st) <=? auth_count f then
    _ ← (if configEpoch x <? auth_epoch f then update me (fun x => with_configEpoch x (auth_epoch f)) else mret tt);
    clusterFailoverReplaceYourMaster
  else clusterLogCantFailover CANT_WAITING_VOTES.

Definition manualFailoverCheckTimeout : C unit :=
  m ← gets mf;
  if negb (mf_end m =? 0) && (mf_end m <? mstime E) then resetManualFailover else mret tt.

Definition clusterHandleManualFailover : C unit :=
  m ← gets mf;
  if (mf_end m =? 0) || mf_can_start m || (mf_master_offset m =? 0) then mret tt else
  if mf_master_offset m =? slave_repl_offset E then modify (fun st => set_mf st (mk_manual (mf_end (mf st)) (mf_slave (mf st)) (mf_master_offset (mf st)) true)) else mret tt.

Definition clusterBeforeSleep : C unit :=
  let todo f := gets (fun st => negb (Z.land (todo_before_sleep st) f =? 0)) in
  b ← todo CLUSTER_TODO_HANDLE_FAILOVER;
  _ ← (if b : bool then clusterHandleSlaveFailover else mret tt);
  b ← todo CLUSTER_TODO_UPDATE_STATE;
  _ ← (if b : bool then clusterUpdateState else mret tt);
  b ← todo CLUSTER_TODO_SAVE_CONFIG;
  _ ← (if b : bool then fsync ← todo CLUSTER_TODO_FSYNC_CONFIG; clusterSaveConfigOrDie fsync else mret tt);
  modify (fun st => set_todo st 0).
End Handlers.

(** ** Receiving packets *)

Section Packets.
Context (E : env).

(** What the header of a packet from a known node says about epochs and offsets: the
    epochs the handlers go on with. *)
Definition process_header (from : option name) (hdr : clusterMsg) : C (Z * Z) :=
  match from with
  | None => mret (0, 0)
  | Some n =>
    x ← deref n;
    if nodeInHandshake x then mret (0, 0) else
    let senderCurrentEpoch := m_currentEpoch hdr in
    let senderConfigEpoch := m_configEpoch hdr in
    _ ← modify (fun st => if currentEpoch st <? senderCurrentEpoch then set_currentEpoch st senderCurrentEpoch else st);
    _ ← (if configEpoch x <? senderConfigEpoch then _ ← update n (fun x => with_configEpoch x senderConfigEpoch); clusterDoBeforeSleep (Z.lor CLUSTER_TODO_SAVE_CONFIG CLUSTER_TODO_FSYNC_CONFIG) else mret tt);
    _ ← update n (fun x => with_repl_offset x (m_offset hdr) (mstime E));
    m ← self;
    _ ← modify (fun st => if negb (mf_end (mf st) =? 0) && nodeIsSlave m && bool_decide (slaveof m = Some n) && negb (Z.land (mflags0 hdr) CLUSTERMSG_FLAG0_PAUSED =? 0) && (mf_master_offset (mf st) =? 0)
                          then set_mf st (mk_manual (mf_end (mf st)) (mf_slave (mf st)) (m_offset hdr) (mf_can_start (mf st))) else st);
    mret (senderCurrentEpoch, senderConfigEpoch)
  end.

(** [strcasecmp] of two IPs, then the ports. *)
Definition same_address (a b : address) : bool := bool_decide (map tolower (ip a) = map tolower (ip b)) && (port a =? port b) && (cport a =? cport b).

Definition clusterHandshakeInProgress (a : address) : C bool := l ← all_nodes; mret (existsb (fun p : name * clusterNode => nodeInHandshake p.2 && same_address (addr p.2) a) l).
(** The result with [errno]; [i] is the number of the random name. *)
Inductive handshake := Started | EAGAIN | EINVAL.
Definition clusterStartHandshake (i : nat) (a : address) : C handshake :=
  match normalize_ip (bus E) (ip a) with
  | None => mret EINVAL
  | Some norm_ip =>
    if (port a <=? 0) || (65535 <? port a) || (cport a <=? 0) || (65535 <? cport a) then mret EINVAL else
    let a := mk_addr norm_ip (port a) (cport a) in
    busy ← clusterHandshakeInProgress a;
    if busy : bool then mret EAGAIN else
    _ ← clusterAddNode (random_name (bus E) i) (with_addr (createClusterNode E (Z.lor CLUSTER_NODE_HANDSHAKE CLUSTER_NODE_MEET)) a);
    mret Started
  end.

Definition nodeIp2String (announced_ip : list Z) : list Z := if bool_decide (announced_ip <> []) then take (Z.to_nat (NET_IP_STR_LEN - 1)) announced_ip else anetPeerToString (bus E).
(** The link is the one to the node itself exactly when it was opened to it. *)
Definition nodeUpdateAddressIfNeeded (on : option name) (n : name) (hdr : clusterMsg) : C bool :=
  if bool_decide (on = Some n) then mret false else
  let a := mk_addr (nodeIp2String (ip (m_addr hdr))) (port (m_addr hdr)) (cport (m_addr hdr)) in
  x ← deref n;
  if (port (addr x) =? port a) && (cport (addr x) =? cport a) && bool_decide (ip a = ip (addr x)) then mret false else
  _ ← update n (fun x => clear_flag (with_link (with_addr x a) false) CLUSTER_NODE_NOADDR);
  m ← self;
  _ ← (if nodeIsSlave m && bool_decide (slaveof m = Some n) then call (SetMaster n) else mret tt);
  mret true.

(** A PING or MEET may tell this node its own IP. *)
Definition learn_my_address (meet : bool) : C unit :=
  me ← gets myself;
  x ← self;
  if (meet || bool_decide (ip (addr x) = [])) && bool_decide (cluster_announce_ip (bus E) = None) then
    match anetSockName (bus E) with
    | Some a => if bool_decide (a <> ip (addr x)) then _ ← update me (fun x => with_addr x (mk_addr a (port (addr x)) (cport (addr x)))); clusterDoBeforeSleep CLUSTER_TODO_SAVE_CONFIG else mret tt
    | None => mret tt
    end
  else mret tt.

(** A MEET of an unknown node: it is known from now on, under the first random name. *)
Definition meet_node (hdr : clusterMsg) : C unit :=
  _ ← clusterAddNode (random_name (bus E) 0) (with_addr (createClusterNode E CLUSTER_NODE_HANDSHAKE) (mk_addr (nodeIp2String (ip (m_addr hdr))) (port (m_addr hdr)) (cport (m_addr hdr))));
  clusterDoBeforeSleep CLUSTER_TODO_SAVE_CONFIG.

(** The node the link was opened to, after the header is compared with it; [None]: the link
    is gone, and the packet is done with. A handshake ends with the real name of the node,
    or with its removal when it was known already; a node that answers with another name
    than it has loses its address. *)
Definition check_link (on from : option name) (hdr : clusterMsg) : C (option (option name)) :=
  match on with
  | None => mret (Some None)
  | Some o =>
    x ← deref o;
    if nodeInHandshake x then
      match from with
      | Some n =>
        b ← nodeUpdateAddressIfNeeded on n hdr;
        _ ← (if b : bool then clusterDoBeforeSleep (Z.lor CLUSTER_TODO_SAVE_CONFIG CLUSTER_TODO_UPDATE_STATE) else mret tt);
        _ ← clusterDelNode E o;
        mret None
      | None =>
        _ ← clusterRenameNode o (sender hdr);
        _ ← update (sender hdr) (fun x => set_flag (clear_flag x CLUSTER_NODE_HANDSHAKE) (Z.land (m_flags hdr) (Z.lor CLUSTER_NODE_MASTER CLUSTER_NODE_SLAVE)));
        _ ← clusterDoBeforeSleep CLUSTER_TODO_SAVE_CONFIG;
        mret (Some (Some (sender hdr)))
      end
    else if o =? sender hdr then mret (Some on) else
      _ ← update o (fun x => with_link (with_addr (set_flag x CLUSTER_NODE_NOADDR) null_addr) false);
      _ ← clusterDoBeforeSleep CLUSTER_TODO_SAVE_CONFIG;
      mret None
  end.

Definition pong_arrived (on : option name) : C unit :=
  match on with
  | None => mret tt
  | Some n =>
    _ ← update n (fun x => with_pings x 0 (mstime E));
    x ← deref n;
    if nodeTimedOut x then _ ← update n (fun x => clear_flag x CLUSTER_NODE_PFAIL); clusterDoBeforeSleep (Z.lor CLUSTER_TODO_SAVE_CONFIG CLUSTER_TODO_UPDATE_STATE)
    else if nodeFailed x then clearNodeFailureIfNeeded E n else mret tt
  end.

(** The role of the sender. *)
Definition role_switch (from : name) (hdr : clusterMsg) : C unit :=
  if m_slaveof hdr =? 0 then clusterSetNodeAsMaster from else
  master ← clusterLookupNode (m_slaveof hdr);
  x ← deref from;
  _ ← (if nodeIsMaster x then
         _ ← clusterDelNodeSlots E from;
         _ ← update from (fun x => set_flag (clear_flag x (Z.lor CLUSTER_NODE_MASTER CLUSTER_NODE_MIGRATE_TO)) CLUSTER_NODE_SLAVE);
         clusterDoBeforeSleep (Z.lor CLUSTER_TODO_SAVE_CONFIG CLUSTER_TODO_UPDATE_STATE)
       else mret tt);
  x ← deref from;
  match master with
  | None => mret tt
  | Some m =>
    if bool_decide (slaveof x = Some m) then mret tt else
    _ ← match slaveof x with Some old => _ ← clusterNodeRemoveSlave old from; mret tt | None => mret tt end;
    _ ← clusterNodeAddSlave m from;
    _ ← update from (fun x => with_slaveof x (Some m));
    clusterDoBeforeSleep CLUSTER_TODO_SAVE_CONFIG
  end.

(** The sender claims a slot of a master with a greater epoch: it is told so. *)
Fixpoint stale_claim_loop (from : name) (claimed : list Z) (epoch : Z) (js : list Z) : C unit :=
  match js with
  | [] => mret tt
  | j :: js =>
    b ← lift (bitmapTestBit claimed j);
    if negb b then stale_claim_loop from claimed epoch js else
    o ← slot_owner j;
    match o with
    | None => stale_claim_loop from claimed epoch js
    | Some n =>
      if n =? from then stale_claim_loop from claimed epoch js else
      x ← deref n;
      if epoch <? configEpoch x then clusterSendUpdate E from n else stale_claim_loop from claimed epoch js
    end
  end.

(** Entry [i] of a gossip section. An entry about the node at the other end of the link, with
    a new address, frees the link, and the code goes on reading the packet from its buffer:
    a fault. *)
Definition gossip_entry (on from : option name) (i : nat) (g : gossip) : C unit :=
  node ← clusterLookupNode (g_nodename g);
  let bad := negb (Z.land (g_flags g) (Z.lor CLUSTER_NODE_FAIL CLUSTER_NODE_PFAIL) =? 0) in
  let noaddr := negb (Z.land (g_flags g) CLUSTER_NODE_NOADDR =? 0) in
  match node with
  | Some n =>
    me ← gets myself;
    _ ← match from with
        | None => mret tt
        | Some s =>
          y ← deref s;
          if nodeIsMaster y && negb (n =? me) then
            if bad : bool then _ ← clusterNodeAddFailureReport E n s; markNodeAsFailingIfNeeded E n
            else _ ← clusterNodeDelFailureReport E n s; mret tt
          else mret tt
        end;
    x ← deref n;
    _ ← (if negb bad && (ping_sent x =? 0) then
           c ← clusterNodeFailureReportsCount E n;
           if c =? 0 then
             let pongtime := g_pong_received g * 1000 in
             if (pongtime <=? mstime E + 500) && (pong_received x <? pongtime) then update n (fun x => with_pings x (ping_sent x) pongtime) else mret tt
           else mret tt
         else mret tt);
    x ← deref n;
    if has_flag x (Z.lor CLUSTER_NODE_FAIL CLUSTER_NODE_PFAIL) && negb noaddr && negb bad && negb (same_address (addr x) (g_addr g)) then
      _ ← lift (if link x && bool_decide (on = Some n) then Fault OutOfBounds else Ok tt);
      update n (fun x => clear_flag (with_addr (with_link x false) (g_addr g)) CLUSTER_NODE_NOADDR)
    else mret tt
  | None =>
    if bool_decide (from <> None) && negb noaddr then
      black ← clusterBlacklistExists E (g_nodename g);
      if black : bool then mret tt else _ ← clusterStartHandshake i (g_addr g); mret tt
    else mret tt
  end.
Fixpoint gossip_loop (on from : option name) (i : nat) (l : list gossip) : C unit :=
  match l with [] => mret tt | g :: l => _ ← gossip_entry on from i g; gossip_loop on from (S i) l end.
Definition clusterProcessGossipSection (on : option name) (hdr : clusterMsg) (l : list gossip) : C unit :=
  from ← match on with Some o => mret (Some o) | None => clusterLookupNode (sender hdr) end;
  gossip_loop on from 1 l.

Inductive ping_type := ping | pong | meet.
(** PING, PONG and MEET: configuration. *)
Definition process_ping (on from : option name) (hdr : clusterMsg) (type : ping_type) (l : list gossip) (senderConfigEpoch : Z) : C unit :=
  open ← check_link on from hdr;
  match open with
  | None => mret tt
  | Some on =>
    _ ← match from, type with
        | Some n, ping =>
          x ← deref n;
          b ← (if nodeInHandshake x then mret false else nodeUpdateAddressIfNeeded on n hdr);
          if b : bool then clusterDoBeforeSleep (Z.lor CLUSTER_TODO_SAVE_CONFIG CLUSTER_TODO_UPDATE_STATE) else mret tt
        | _, _ => mret tt
        end;
    _ ← match type with pong => pong_arrived on | _ => mret tt end;
    match from with
    | None => mret tt
    | Some n =>
      _ ← role_switch n hdr;
      x ← deref n;
      let sender_master := if nodeIsMaster x then Some n else slaveof x in
      dirty_slots ← match sender_master with None => mret false | Some m => y ← deref m; mret (bool_decide (bitmap y <> myslots hdr)) end;
      _ ← (if nodeIsMaster x && dirty_slots then clusterUpdateSlotsConfigWith E n senderConfigEpoch (myslots hdr) else mret tt);
      _ ← (if dirty_slots : bool then stale_claim_loop n (myslots hdr) senderConfigEpoch (all_slots E) else mret tt);
      m ← self;
      x ← deref n;
      _ ← (if nodeIsMaster m && nodeIsMaster x && (senderConfigEpoch =? configEpoch m) then clusterHandleConfigEpochCollision n else mret tt);
      clusterProcessGossipSection on hdr l
    end
  end.

Definition process_fail (from : option name) (about : name) : C unit :=
  match from with
  | None => mret tt
  | Some _ =>
    failing ← clusterLookupNode about;
    match failing with
    | None => mret tt
    | Some f =>
      x ← deref f;
      if has_flag x (Z.lor CLUSTER_NODE_FAIL CLUSTER_NODE_MYSELF) then mret tt else
      _ ← update f (fun x => clear_flag (with_fail_time (set_flag x CLUSTER_NODE_FAIL) (mstime E)) CLUSTER_NODE_PFAIL);
      clusterDoBeforeSleep (Z.lor CLUSTER_TODO_SAVE_CONFIG CLUSTER_TODO_UPDATE_STATE)
    end
  end.

(** A vote. *)
Definition process_ack (n : name) (senderCurrentEpoch : Z) : C unit :=
  x ← deref n;
  f ← gets failover;
  if nodeIsMaster x && (0 <? numslots x) && (auth_epoch f <=? senderCurrentEpoch) then
    _ ← set_auth (fun f => mk_election (auth_time f) (i32 (auth_count f + 1)) (auth_sent f) (auth_rank f) (auth_epoch f));
    clusterDoBeforeSleep CLUSTER_TODO_HANDLE_FAILOVER
  else mret tt.

Definition process_mfstart (n : name) : C unit :=
  me ← gets myself;
  x ← deref n;
  if negb (bool_decide (slaveof x = Some me)) then mret tt else
  _ ← resetManualFailover E;
  _ ← modify (fun st => set_mf st (mk_manual (mstime E + CLUSTER_MF_TIMEOUT) (Some n) (mf_master_offset (mf st)) (mf_can_start (mf st))));
  call (PauseClients (mstime E + CLUSTER_MF_TIMEOUT * 2)).

Definition process_update (epoch : Z) (nodename : name) (claimed : list Z) : C unit :=
  o ← clusterLookupNode nodename;
  match o with
  | None => mret tt
  | Some n =>
    x ← deref n;
    if epoch <=? configEpoch x then mret tt else
    _ ← (if nodeIsSlave x then clusterSetNodeAsMaster n else mret tt);
    _ ← update n (fun x => with_configEpoch x epoch);
    _ ← clusterDoBeforeSleep (Z.lor CLUSTER_TODO_SAVE_CONFIG CLUSTER_TODO_FSYNC_CONFIG);
    clusterUpdateSlotsConfigWith E n epoch claimed
  end.

(** A packet from [sender hdr] on a link; [on] is the node the link was opened to, none for
    a link the other side opened. *)
Definition clusterProcessPacket (on : option name) (hdr : clusterMsg) : C unit :=
  from ← clusterLookupNode (sender hdr);
  '(senderCurrentEpoch, senderConfigEpoch) ← process_header from hdr;
  match data hdr with
  | PING l =>
    _ ← learn_my_address false;
    _ ← send_pong E (sender hdr);
    process_ping on from hdr ping l senderConfigEpoch
  | MEET l =>
    _ ← learn_my_address true;
    _ ← match from with None => _ ← meet_node hdr; clusterProcessGossipSection on hdr l | Some _ => mret tt end;
    _ ← send_pong E (sender hdr);
    process_ping on from hdr meet l senderConfigEpoch
  | PONG l => process_ping on from hdr pong l senderConfigEpoch
  | FAIL about => process_fail from about
  | PUBLISH channel message => if subscribers E then call (Publish channel message) else mret tt
  | FAILOVER_AUTH_REQUEST => match from with None => mret tt | Some n => clusterSendFailoverAuthIfNeeded E n hdr end
  | FAILOVER_AUTH_ACK => match from with None => mret tt | Some n => process_ack n senderCurrentEpoch end
  | MFSTART => match from with None => mret tt | Some n => process_mfstart n end
  | UPDATE epoch nodename claimed => match from with None => mret tt | Some _ => process_update epoch nodename claimed end
  end.
End Packets.
End Cluster.
