(* ===== verification/ClusterOps.v ===== *)
(** * The slot tables of the cluster bus

    [wf] says what must hold of a node's view of the cluster: every pointer leads to a
    node, the owner table and the bitmaps of the nodes agree on every slot, the counters
    of slots are right, only masters have slots. Every handler of [Cluster] returns (no
    assertion fails, no pointer dangles) and keeps it; slots go to the claim with the
    greater configuration epoch. *)
From stdpp Require Import gmap.
From S2P Require Import Prelude StateM Cluster.

Module ClusterOps.
Import Cluster.

(** ** Bitmaps *)

Definition bit (b : list Z) (j : Z) : bool := match b !! Z.to_nat (j / 8) with Some x => Z.testbit x (j mod 8) | None => false end.
Definition slots_of (len : Z) (b : list Z) : list Z := List.filter (bit b) (up_to (Z.to_nat (8 * len)) 0).
Definition nbits (len : Z) (b : list Z) : Z := zlen (slots_of len b).

Lemma byte_index (b : list Z) j : 0 <= j < 8 * zlen b -> exists x, b !! Z.to_nat (j / 8) = Some x /\ 0 <= j / 8 < zlen b /\ 0 <= j mod 8 < 8.
Proof.
  intros H. pose proof (Z.mod_pos_bound j 8). pose proof (Z_div_mod_eq_full j 8). destruct (lookup_lt_is_Some_2 b (Z.to_nat (j / 8))) as [x Hx]; [unfold zlen in H; lia|]. exists x. split_and!; [done|lia..].
Qed.

Lemma poke_insert (b : list Z) i v : 0 <= i < zlen b -> poke b i v = Ok (<[Z.to_nat i := v]> b).
Proof.
  intros H. destruct (lookup_lt_is_Some_2 b (Z.to_nat i)) as [x Hx]; [unfold zlen in H; lia|]. rewrite <- (take_drop_middle b (Z.to_nat i) x Hx) at 1. assert (i = zlen (take (Z.to_nat i) b)) as Hi by (unfold zlen in *; rewrite length_take; lia).
  rewrite (poke_app _ _ _ _ i Hi). f_equal. by rewrite insert_take_drop by (unfold zlen in H; lia).
Qed.

Lemma peek_at (b : list Z) i x : 0 <= i -> b !! Z.to_nat i = Some x -> peek b i = Ok x.
Proof. intros Hi Hx. unfold peek. by rewrite (proj2 (Z.leb_le 0 i)), Hx. Qed.

Lemma land_7 j : Z.land j 7 = j mod 8.
Proof. change 7 with (Z.ones 3). by rewrite Z.land_ones. Qed.

Lemma land_bit x k : 0 <= k -> negb (Z.land x (Z.shiftl 1 k) =? 0) = Z.testbit x k.
Proof.
  intros Hk. rewrite Z.shiftl_1_l. destruct (Z.testbit x k) eqn:E.
  - apply negb_true_iff, Z.eqb_neq. intros H0. assert (Z.testbit (Z.land x (2 ^ k)) k = true) as H by (rewrite Z.land_spec, E, Z.pow2_bits_true by done; done). by rewrite H0, Z.bits_0 in H.
  - apply negb_false_iff, Z.eqb_eq. apply Z.bits_inj'. intros i Hi. rewrite Z.land_spec, Z.bits_0, Z.pow2_bits_eqb by done. destruct (Z.eqb_spec k i); [subst; by rewrite E|apply andb_false_r].
Qed.

Lemma test_bit b j : 0 <= j < 8 * zlen b -> bitmapTestBit b j = Ok (bit b j).
Proof.
  intros H. destruct (byte_index b j H) as (x & Hx & Hi & Hr). unfold bitmapTestBit. rewrite (peek_at b (j / 8) x) by (done || lia). cbn. rewrite land_7, land_bit by lia. unfold bit. by rewrite Hx.
Qed.

Lemma bit_insert (b : list Z) j x k : 0 <= j < 8 * zlen b -> 0 <= k -> bit (<[Z.to_nat (j / 8) := x]> b) k = if k / 8 =? j / 8 then Z.testbit x (k mod 8) else bit b k.
Proof.
  intros Hj Hk. destruct (byte_index b j Hj) as (y & Hy & Hi & _). unfold bit. destruct (Z.eqb_spec (k / 8) (j / 8)) as [->|Hne]; [rewrite list_lookup_insert_eq by (by eapply lookup_lt_Some); done|].
  rewrite list_lookup_insert_ne; [done|]. pose proof (Z.div_pos k 8). lia.
Qed.

Lemma same_bit j k : 0 <= j -> 0 <= k -> (k =? j) = (k / 8 =? j / 8) && (k mod 8 =? j mod 8).
Proof. intros. pose proof (Z_div_mod_eq_full j 8). pose proof (Z_div_mod_eq_full k 8). destruct (Z.eqb_spec k j); [subst; by rewrite !Z.eqb_refl|]. destruct (Z.eqb_spec (k / 8) (j / 8)), (Z.eqb_spec (k mod 8) (j mod 8)); cbn; lia. Qed.

Lemma set_bit_ok b j : 0 <= j < 8 * zlen b -> exists b', bitmapSetBit b j = Ok b' /\ zlen b' = zlen b /\ forall k, 0 <= k -> bit b' k = (k =? j) || bit b k.
Proof.
  intros H. destruct (byte_index b j H) as (x & Hx & Hi & Hr). unfold bitmapSetBit. rewrite (peek_at b (j / 8) x) by (done || lia). cbn [mbind res_bind]. rewrite poke_insert by done. eexists. split; [done|]. split; [apply zlen_insert|]. intros k Hk.
  rewrite (bit_insert b j), (same_bit j k) by lia. pose proof (Z.mod_pos_bound k 8). destruct (Z.eqb_spec (k / 8) (j / 8)) as [E|]; [|done]. cbn [andb]. rewrite Z.lor_spec, land_7, Z.shiftl_1_l, Z.pow2_bits_eqb by lia. unfold bit. rewrite E, Hx. cbn. rewrite orb_comm. f_equal. apply Z.eqb_sym.
Qed.

Lemma clear_bit_ok b j : 0 <= j < 8 * zlen b -> exists b', bitmapClearBit b j = Ok b' /\ zlen b' = zlen b /\ forall k, 0 <= k -> bit b' k = negb (k =? j) && bit b k.
Proof.
  intros H. destruct (byte_index b j H) as (x & Hx & Hi & Hr). unfold bitmapClearBit. rewrite (peek_at b (j / 8) x) by (done || lia). cbn [mbind res_bind]. rewrite poke_insert by done. eexists. split; [done|]. split; [apply zlen_insert|]. intros k Hk.
  rewrite (bit_insert b j), (same_bit j k) by lia. pose proof (Z.mod_pos_bound k 8). destruct (Z.eqb_spec (k / 8) (j / 8)) as [E|]; [|done]. cbn [andb]. rewrite Z.land_spec, land_7, Z.shiftl_1_l, Z.lnot_spec, Z.pow2_bits_eqb by lia. unfold bit. rewrite E, Hx. cbn. rewrite andb_comm. do 2 f_equal. apply Z.eqb_sym.
Qed.

Lemma in_up_to n : forall j k, k ∈ up_to n j <-> j <= k < j + Z.of_nat n.
Proof.
  induction n as [|n IH]; intros j k; cbn [up_to]; [rewrite elem_of_nil; lia|]. rewrite elem_of_cons, IH. lia.
Qed.
Lemma nodup_up_to n : forall j, NoDup (up_to n j).
Proof. induction n as [|n IH]; intros j; cbn [up_to]; constructor; [|apply IH]. rewrite in_up_to. lia. Qed.

(** Counting after one more, or one less, element. *)
Lemma filter_more (f : Z -> bool) j l : NoDup l -> j ∈ l -> f j = false -> zlen (List.filter (fun k => (k =? j) || f k) l) = zlen (List.filter f l) + 1.
Proof.
  intros Hd Hin Hf. induction l as [|x l IH]; [by apply not_elem_of_nil in Hin|]. apply list.NoDup_cons in Hd as [Hx Hd]. cbn. destruct (Z.eqb_spec x j) as [->|Hne].
  - cbn. rewrite Hf, zlen_cons. f_equal. clear IH Hin. induction l as [|y l IH]; [done|]. apply not_elem_of_cons in Hx as [Hy Hx]. apply list.NoDup_cons in Hd as [_ Hd]. cbn. rewrite (proj2 (Z.eqb_neq y j)) by congruence. cbn. specialize (IH Hx Hd). destruct (f y); rewrite ?zlen_cons; lia.
  - cbn. apply elem_of_cons in Hin as [|Hin]; [congruence|]. specialize (IH Hd Hin). destruct (f x); rewrite ?zlen_cons; lia.
Qed.
Lemma filter_same (f g : Z -> bool) l : (forall k, k ∈ l -> f k = g k) -> List.filter f l = List.filter g l.
Proof. induction l as [|x l IH]; intros H; [done|]. cbn. rewrite (H x) by left. rewrite IH; [done|]. intros k Hk. apply H. by right. Qed.
Lemma filter_fewer (f : Z -> bool) j l : NoDup l -> j ∈ l -> f j = true -> zlen (List.filter (fun k => negb (k =? j) && f k) l) = zlen (List.filter f l) - 1.
Proof.
  intros Hd Hin Hf. pose proof (filter_more (fun k => negb (k =? j) && f k) j l Hd Hin ltac:(cbn beta; by rewrite Z.eqb_refl)) as H. rewrite (filter_same _ f) in H; [lia|]. intros k _. destruct (Z.eqb_spec k j) as [->|]; cbn; [done|done].
Qed.

(** ** The invariant *)

(** What a node is in the replication tree, and its share of the slots. *)
Record role := mk_role { r_slaves : list name; r_slaveof : option name; r_master : bool; r_slave : bool; r_hand : bool }.
Definition role_of (x : clusterNode) : role := mk_role (slaves x) (slaveof x) (nodeIsMaster x) (nodeIsSlave x) (nodeInHandshake x).
(** A node in handshake has no place yet. *)
Definition newcomer : role := mk_role [] None false false true.
Definition share (x : clusterNode) : list Z * Z := (bitmap x, numslots x).

(** Lists of slaves and pointers to masters agree; a node is in handshake, a master or a
    slave; masters replicate nobody; this node is not in handshake and, if a slave, knows its
    master. *)
Record roles_ok (me : name) (R : gmap name role) : Prop := {
  ro_slaveof : forall n r m, R !! n = Some r -> r_slaveof r = Some m -> is_Some (R !! m);
  ro_slaves : forall m r s, R !! m = Some r -> s ∈ r_slaves r <-> exists z, R !! s = Some z /\ r_slaveof z = Some m;
  ro_nodup : forall m r, R !! m = Some r -> NoDup (r_slaves r);
  ro_hand : forall n r, R !! n = Some r -> r_hand r = true -> r = newcomer;
  ro_master : forall n r, R !! n = Some r -> r_hand r = false -> r_slave r = negb (r_master r) /\ (r_master r = true -> r_slaveof r = None);
  ro_me : exists r, R !! me = Some r /\ r_hand r = false /\ (r_master r = false -> r_slaveof r <> None) }.

(** The owner table and the bitmaps are the same relation, and the counters count it. *)
Record slots_ok (N : Z) (S : gmap name (list Z * Z)) (O : gmap Z name) : Prop := {
  so_len : forall n s, S !! n = Some s -> 8 * zlen s.1 = N;
  so_bit : forall n s j, S !! n = Some s -> 0 <= j < N -> bit s.1 j = bool_decide (O !! j = Some n);
  so_count : forall n s, S !! n = Some s -> s.2 = zlen (List.filter (bit s.1) (up_to (Z.to_nat N) 0));
  so_owner : forall j n, O !! j = Some n -> 0 <= j < N /\ is_Some (S !! n) }.

Definition idle (M : gmap name clusterNode) : Prop := forall n x, M !! n = Some x -> nodeIsMaster x = false -> numslots x = 0.
Record wf (N : Z) (st : clusterState) : Prop := {
  wf_roles : roles_ok (myself st) (role_of <$> nodes st);
  wf_slots : slots_ok N (share <$> nodes st) (owner (tables st));
  wf_idle : idle (nodes st) }.

(** ** Editing one slot *)

Lemma slots_set N S O n b c j : slots_ok N S O -> S !! n = Some (b, c) -> 0 <= j < N -> O !! j = None ->
  exists b', bitmapTestBit b j = Ok false /\ bitmapSetBit b j = Ok b' /\ slots_ok N (<[n := (b', c + 1)]> S) (<[j := n]> O).
Proof.
  intros [Hl Hb Hc Ho] Hn Hj Hu. pose proof (Hl _ _ Hn) as Hlen. cbn in Hlen. pose proof (Hb _ _ j Hn Hj) as Hbit. rewrite Hu in Hbit. cbn in Hbit. destruct (set_bit_ok b j) as (b' & E & Hz & Hk); [lia|].
  exists b'. split; [rewrite test_bit by lia; by f_equal|]. split; [done|]. constructor.
  - intros m s [[<- <-]|[Hne Hm]]%lookup_insert_Some; [cbn; lia|by eapply Hl].
  - intros m s k [[<- <-]|[Hne Hm]]%lookup_insert_Some Hr.
    + cbn. rewrite Hk by lia. destruct (Z.eqb_spec k j) as [->|Hne]; [by rewrite lookup_insert_eq, bool_decide_true|]. rewrite lookup_insert_ne by congruence. by apply (Hb _ _ k Hn).
    + rewrite (Hb _ _ k Hm Hr). destruct (decide (k = j)) as [->|Hkj]; [|by rewrite lookup_insert_ne by congruence]. rewrite lookup_insert_eq, Hu. rewrite !bool_decide_false by congruence. done.
  - intros m s [[<- <-]|[Hne Hm]]%lookup_insert_Some; [|by eapply Hc]. cbn. change c with (b, c).2. rewrite (Hc _ _ Hn). cbn. rewrite (filter_same (bit b') (fun k => (k =? j) || bit b k)); [rewrite filter_more; [done|apply nodup_up_to|apply in_up_to; lia|done]|].
    intros k Hin%in_up_to. apply Hk. lia.
  - intros k m [[<- <-]|[Hne Hm]]%lookup_insert_Some; [split; [done|]; rewrite lookup_insert_eq; by eexists|]. destruct (Ho _ _ Hm) as [? ?]. split; [done|]. apply lookup_insert_is_Some'. by right.
Qed.

Lemma slots_clear N S O n b c j : slots_ok N S O -> S !! n = Some (b, c) -> O !! j = Some n ->
  exists b', bitmapTestBit b j = Ok true /\ bitmapClearBit b j = Ok b' /\ 0 < c /\ slots_ok N (<[n := (b', c - 1)]> S) (base.delete j O).
Proof.
  intros [Hl Hb Hc Ho] Hn Hu. destruct (Ho _ _ Hu) as [Hj _]. pose proof (Hl _ _ Hn) as Hlen. cbn in Hlen. pose proof (Hb _ _ j Hn Hj) as Hbit. rewrite Hu, bool_decide_true in Hbit by done. cbn in Hbit. destruct (clear_bit_ok b j) as (b' & E & Hz & Hk); [lia|].
  assert (zlen (List.filter (bit b') (up_to (Z.to_nat N) 0)) = c - 1) as Hcount.
  { rewrite (filter_same (bit b') (fun k => negb (k =? j) && bit b k)); [rewrite filter_fewer; [|apply nodup_up_to|apply in_up_to; lia|done]; pose proof (Hc _ _ Hn) as Hcn; cbn in Hcn; lia|]. intros k Hin%in_up_to. apply Hk. lia. }
  exists b'. split; [rewrite test_bit by lia; by f_equal|]. split; [done|]. split; [unfold zlen in Hcount; lia|]. constructor.
  - intros m s [[<- <-]|[Hne Hm]]%lookup_insert_Some; [cbn; lia|by eapply Hl].
  - intros m s k [[<- <-]|[Hne Hm]]%lookup_insert_Some Hr.
    + cbn. rewrite Hk by lia. destruct (Z.eqb_spec k j) as [->|Hne]; [by rewrite lookup_delete_eq, bool_decide_false|]. rewrite lookup_delete_ne by congruence. by apply (Hb _ _ k Hn).
    + rewrite (Hb _ _ k Hm Hr). destruct (decide (k = j)) as [->|Hkj]; [|by rewrite lookup_delete_ne by congruence]. rewrite lookup_delete_eq, Hu. rewrite !bool_decide_false by congruence. done.
  - intros m s [[<- <-]|[Hne Hm]]%lookup_insert_Some; [done|by eapply Hc].
  - intros k m [Hne Hm]%lookup_delete_Some. destruct (Ho _ _ Hm) as [? ?]. split; [done|]. apply lookup_insert_is_Some'. by right.
Qed.

(** ** Running the slot operations *)

Lemma wp_deref n x Q st : nodes st !! n = Some x -> Q x st -> wp (deref n) Q st.
Proof. unfold wp, deref. by intros ->. Qed.
Lemma wp_update n f x (Q : unit -> clusterState -> Prop) st : nodes st !! n = Some x -> Q tt (set_nodes st (<[n := f x]> (nodes st))) -> wp (update n f) Q st.
Proof. intros H HQ. apply wp_bind, (wp_deref _ x); [done|]. by apply wp_modify. Qed.

Lemma has_flag_set_other x f g : Z.land f g = 0 -> has_flag (set_flag x f) g = has_flag x g.
Proof. unfold has_flag, set_flag. cbn. intros H. by rewrite Z.land_lor_distr_l, H, Z.lor_0_r. Qed.
Lemma has_flag_set x f g : Z.land f g <> 0 -> has_flag (set_flag x f) g = true.
Proof. unfold has_flag, set_flag. cbn. intros H. rewrite Z.land_lor_distr_l. apply negb_true_iff, Z.eqb_neq. by intros [_ ?]%Z.lor_eq_0_iff. Qed.
Lemma has_flag_clear_other x f g : Z.land (Z.lnot f) g = g -> has_flag (clear_flag x f) g = has_flag x g.
Proof. unfold has_flag, clear_flag. cbn. intros H. by rewrite <- Z.land_assoc, H. Qed.
Lemma has_flag_clear x f g : Z.land (Z.lnot f) g = 0 -> has_flag (clear_flag x f) g = false.
Proof. unfold has_flag, clear_flag. cbn. intros H. by rewrite <- Z.land_assoc, H, Z.land_0_r. Qed.

Definition ROLE_FLAGS : Z := Z.lor (Z.lor CLUSTER_NODE_MASTER CLUSTER_NODE_SLAVE) CLUSTER_NODE_HANDSHAKE.
Lemma role_set_flag x f : Z.land f ROLE_FLAGS = 0 -> role_of (set_flag x f) = role_of x.
Proof.
  intros H. unfold role_of, nodeIsMaster, nodeIsSlave, nodeInHandshake. unfold ROLE_FLAGS in H. rewrite !Z.land_lor_distr_r in H. apply Z.lor_eq_0_iff in H as [[H1 H2]%Z.lor_eq_0_iff H3]. by rewrite !has_flag_set_other.
Qed.
Lemma role_clear_flag x f : Z.land (Z.lnot f) ROLE_FLAGS = ROLE_FLAGS -> role_of (clear_flag x f) = role_of x.
Proof.
  intros H. assert (forall g, Z.land ROLE_FLAGS g = g -> Z.land (Z.lnot f) g = g) as Hg by (intros g <-; rewrite Z.land_assoc; by f_equal).
  unfold role_of, nodeIsMaster, nodeIsSlave, nodeInHandshake. by rewrite !has_flag_clear_other by (apply Hg; done).
Qed.

(** One node is replaced by another with a new share of the slots. *)
Definition reshared (st st' : clusterState) (n : name) (s : list Z * Z) : Prop :=
  exists x y, nodes st !! n = Some x /\ st' = set_nodes st (<[n := y]> (nodes st)) /\ share y = s /\ role_of y = role_of x /\ configEpoch y = configEpoch x.

Lemma set_slot_bit_ok st n x j b : nodes st !! n = Some x -> bitmapTestBit (bitmap x) j = Ok false -> bitmapSetBit (bitmap x) j = Ok b ->
  wp (clusterNodeSetSlotBit n j) (fun old st' => old = false /\ reshared st st' n (b, numslots x + 1)) st.
Proof.
  intros Hn Ht Hb. unfold clusterNodeSetSlotBit. apply wp_bind, (wp_deref _ x); [done|]. apply wp_bind, (wp_lift _ false); [done|]. apply wp_bind, (wp_lift _ b); [done|]. apply wp_bind, (wp_update _ _ x); [done|]. cbn [negb].
  apply wp_bind. apply wp_bind, (wp_update _ _ (with_bitmap x b (numslots x))); [apply lookup_insert_eq|]. cbn [nodes set_nodes]. rewrite insert_insert_eq. set (y := with_bitmap (with_bitmap x b (numslots x)) _ _). apply wp_bind, (wp_deref _ y); [apply lookup_insert_eq|].
  apply wp_bind. apply wp_mono with (fun _ st' => st' = set_nodes st (<[n := y]> (nodes st))); [destruct (_ =? _); by cbn|]. intros [|] ? ->.
  - apply (wp_update _ _ y); [apply lookup_insert_eq|]. apply wp_ret. split; [done|]. cbn [nodes set_nodes]. rewrite insert_insert_eq. exists x, (set_flag y CLUSTER_NODE_MIGRATE_TO). split_and!; try done. by rewrite role_set_flag.
  - apply wp_ret, wp_ret. split; [done|]. by exists x, y.
Qed.

Lemma clear_slot_bit_ok st n x j b : nodes st !! n = Some x -> bitmapTestBit (bitmap x) j = Ok true -> bitmapClearBit (bitmap x) j = Ok b ->
  wp (clusterNodeClearSlotBit n j) (fun old st' => old = true /\ reshared st st' n (b, numslots x - 1)) st.
Proof.
  intros Hn Ht Hb. unfold clusterNodeClearSlotBit. apply wp_bind, (wp_deref _ x); [done|]. apply wp_bind, (wp_lift _ true); [done|]. apply wp_bind, (wp_lift _ b); [done|]. apply wp_bind, (wp_update _ _ x); [done|].
  apply wp_bind, (wp_update _ _ (with_bitmap x b (numslots x))); [apply lookup_insert_eq|]. apply wp_ret. split; [done|]. cbn [nodes set_nodes]. rewrite insert_insert_eq. by eexists x, _.
Qed.

(** Only the owners of slots change. *)
Record sframe (st st' : clusterState) : Prop := {
  sf_me : myself st' = myself st;
  sf_roles : role_of <$> nodes st' = role_of <$> nodes st;
  sf_epoch : configEpoch <$> nodes st' = configEpoch <$> nodes st;
  sf_open : importing_slots_from (tables st') = importing_slots_from (tables st);
  sf_effects : effects st' = effects st }.
#[global] Instance sframe_preorder : PreOrder sframe.
Proof. split; [by intros st; constructor|]. intros a b c [] []. constructor; congruence. Qed.

Lemma fmap_reinsert {A} (f : clusterNode -> A) (M : gmap name clusterNode) n x y : M !! n = Some x -> f y = f x -> f <$> <[n := y]> M = f <$> M.
Proof. intros H E. rewrite fmap_insert, E. apply insert_id. by rewrite lookup_fmap, H. Qed.

Lemma wf_reshare N st st' n s O : wf N st -> reshared st st' n s -> slots_ok N (<[n := s]> (share <$> nodes st)) O -> (forall x, nodes st !! n = Some x -> nodeIsMaster x = false -> s.2 = 0) ->
  wf N (set_tables st' (with_owner (tables st') O)) /\ sframe st (set_tables st' (with_owner (tables st') O)).
Proof.
  intros [H1 H2 H3] (x & y & Hn & -> & <- & Hr & He) Hs Hi. split.
  - constructor; cbn.
    + by rewrite (fmap_reinsert role_of _ _ x).
    + by rewrite fmap_insert.
    + intros m z [[<- <-]|[Hne Hm]]%lookup_insert_Some; [|by eapply H3]. intros Hz. apply (Hi x); [done|]. unfold role_of in Hr. congruence.
  - constructor; cbn; [done|by apply (fmap_reinsert _ _ _ x)..|done|done].
Qed.

Lemma add_slot_ok N st n x j : wf N st -> nodes st !! n = Some x -> nodeIsMaster x = true -> 0 <= j < N -> owner (tables st) !! j = None ->
  wp (clusterAddSlot n j) (fun _ st' => wf N st' /\ sframe st st' /\ owner (tables st') = <[j := n]> (owner (tables st))) st.
Proof.
  intros Hw Hn Hs Hj Hu. destruct (slots_set N _ _ n (bitmap x) (numslots x) j (wf_slots _ _ Hw)) as (b & Ht & Hb & Hok); [by rewrite lookup_fmap, Hn|done|done|].
  unfold clusterAddSlot, slot_owner. apply wp_bind, wp_gets. rewrite Hu. eapply wp_step; [by eapply set_slot_bit_ok|]. cbn beta. intros _ st1 [_ Hr]. apply wp_bind, wp_modify, wp_ret. cbn beta iota.
  destruct (wf_reshare N st st1 n _ _ Hw Hr Hok) as [? ?]; [intros; congruence|]. assert (tables st1 = tables st) as Et by (by destruct Hr as (? & ? & _ & -> & _)). rewrite Et in *. by split_and!.
Qed.

Lemma del_slot_ok N st n j : wf N st -> owner (tables st) !! j = Some n -> wp (clusterDelSlot j) (fun _ st' => wf N st' /\ sframe st st' /\ owner (tables st') = base.delete j (owner (tables st))) st.
Proof.
  intros Hw Hu. destruct (so_owner _ _ _ (wf_slots _ _ Hw) _ _ Hu) as [Hj [s Hn]]. rewrite lookup_fmap in Hn. apply fmap_Some in Hn as (x & Hn & ->).
  destruct (slots_clear N _ _ n (bitmap x) (numslots x) j (wf_slots _ _ Hw)) as (b & Ht & Hb & Hc & Hok); [by rewrite lookup_fmap, Hn|done|].
  unfold clusterDelSlot, slot_owner. apply wp_bind, wp_gets. rewrite Hu. eapply wp_step; [by eapply clear_slot_bit_ok|]. cbn beta. intros _ st1 [-> Hr]. apply wp_bind, (wp_lift _ tt); [done|]. apply wp_bind, wp_modify, wp_ret. cbn beta iota.
  destruct (wf_reshare N st st1 n _ _ Hw Hr Hok) as [? ?]. { intros y Hy Hs. rewrite Hn in Hy. injection Hy as <-. pose proof (wf_idle _ _ Hw _ _ Hn Hs). lia. }
  assert (tables st1 = tables st) as Et by (by destruct Hr as (? & ? & _ & -> & _)). rewrite Et in *. by split_and!.
Qed.

Lemma get_slot_bit_ok N st n x j : wf N st -> nodes st !! n = Some x -> 0 <= j < N -> wp (clusterNodeGetSlotBit n j) (fun b st' => st' = st /\ b = bool_decide (owner (tables st) !! j = Some n)) st.
Proof.
  intros Hw Hn Hj. assert ((share <$> nodes st) !! n = Some (share x)) as Hs by (by rewrite lookup_fmap, Hn). pose proof (so_len _ _ _ (wf_slots _ _ Hw) _ _ Hs) as Hl. cbn in Hl.
  apply wp_bind, (wp_deref _ x); [done|]. eapply wp_lift; [apply test_bit; lia|]. split; [done|]. by apply (so_bit _ _ _ (wf_slots _ _ Hw) _ _ _ Hs).
Qed.

(** Nodes keep their place when only slots move. *)
Lemma sframe_node st st' n x : sframe st st' -> nodes st !! n = Some x -> exists y, nodes st' !! n = Some y /\ role_of y = role_of x /\ configEpoch y = configEpoch x.
Proof.
  intros [_ Hr He _ _] Hn. assert ((role_of <$> nodes st') !! n = Some (role_of x)) as H1 by (by rewrite Hr, lookup_fmap, Hn). assert ((configEpoch <$> nodes st') !! n = Some (configEpoch x)) as H2 by (by rewrite He, lookup_fmap, Hn).
  rewrite lookup_fmap in H1. rewrite lookup_fmap in H2. destruct (nodes st' !! n) as [y|]; [|done]. injection H1 as H1 H1' H1'' H1''' H1''''. injection H2 as H2. exists y. split_and!; [done| |done]. unfold role_of. congruence.
Qed.

Lemma other_in (P : Prop) (k j : Z) js : k <> j -> P /\ k ∈ j :: js <-> P /\ k ∈ js.
Proof. rewrite elem_of_cons. tauto. Qed.
Lemma skip_in (P : Z -> Prop) (k j : Z) js : ~ P j -> P k /\ k ∈ j :: js <-> P k /\ k ∈ js.
Proof. intros H. rewrite elem_of_cons. split; [|tauto]. intros [Hk [->|]]; [done|tauto]. Qed.

Lemma del_slots_loop_ok N n js : forall st x, wf N st -> nodes st !! n = Some x -> (forall j, j ∈ js -> 0 <= j < N) ->
  wp (del_slots_loop n js) (fun _ st' => wf N st' /\ sframe st st' /\ forall k, owner (tables st') !! k = if bool_decide (owner (tables st) !! k = Some n /\ k ∈ js) then None else owner (tables st) !! k) st.
Proof.
  induction js as [|j js IH]; intros st x Hw Hn Hr; cbn [del_slots_loop].
  { apply wp_ret. split_and!; [done|done|]. intros k. rewrite bool_decide_false; [done|]. by intros [_ ?%elem_of_nil]. }
  assert (0 <= j < N) as Hj by (apply Hr; left). assert (forall k, k ∈ js -> 0 <= k < N) as Hr' by (intros; apply Hr; by right). eapply wp_step; [by eapply get_slot_bit_ok|]. cbn beta. intros ? ? [-> ->]. destruct (bool_decide_reflect (owner (tables st) !! j = Some n)) as [Hu|Hu].
  - apply wp_bind. eapply wp_step; [by apply (del_slot_ok N st n)|]. cbn beta. intros _ st1 (Hw1 & Hf1 & Ho1). apply wp_ret. destruct (sframe_node _ _ _ _ Hf1 Hn) as (y & Hy & _). eapply wp_mono; [by eapply IH|]. cbn beta. intros _ st2 (Hw2 & Hf2 & Ho2). split_and!; [done|by etransitivity|].
    intros k. rewrite Ho2, Ho1. destruct (decide (k = j)) as [->|Hk].
    + rewrite lookup_delete_eq, bool_decide_false by (by intros [? ?]). rewrite bool_decide_true; [done|]. split; [done|left].
    + rewrite lookup_delete_ne by congruence. by rewrite (bool_decide_ext _ _ (other_in _ k j js Hk)).
  - apply wp_bind, wp_ret. eapply wp_mono; [by eapply IH|]. cbn beta. intros _ st2 (Hw2 & Hf2 & Ho2). split_and!; [done|done|]. intros k. rewrite Ho2. by rewrite (bool_decide_ext _ _ (skip_in (fun k => owner (tables st) !! k = Some _) k j js Hu)).
Qed.

Lemma take_slots_loop_ok N old me js : forall st x y, wf N st -> nodes st !! old = Some x -> nodes st !! me = Some y -> nodeIsMaster y = true -> (forall j, j ∈ js -> 0 <= j < N) ->
  wp (take_slots_loop old me js) (fun _ st' => wf N st' /\ sframe st st' /\ forall k, owner (tables st') !! k = if bool_decide (owner (tables st) !! k = Some old /\ k ∈ js) then Some me else owner (tables st) !! k) st.
Proof.
  induction js as [|j js IH]; intros st x y Hw Hx Hy Hs Hr; cbn [take_slots_loop].
  { apply wp_ret. split_and!; [done|done|]. intros k. rewrite bool_decide_false; [done|]. by intros [_ ?%elem_of_nil]. }
  assert (0 <= j < N) as Hj by (apply Hr; left). assert (forall k, k ∈ js -> 0 <= k < N) as Hr' by (intros; apply Hr; by right). eapply wp_step; [by eapply (get_slot_bit_ok N st old)|]. cbn beta. intros ? ? [-> ->]. destruct (bool_decide_reflect (owner (tables st) !! j = Some old)) as [Hu|Hu].
  - apply wp_bind. eapply wp_step; [by apply (del_slot_ok N st old)|]. cbn beta. intros _ st1 (Hw1 & Hf1 & Ho1). destruct (sframe_node _ _ _ _ Hf1 Hy) as (y1 & Hy1 & Hr1 & _). eapply wp_step; [apply (add_slot_ok N st1 me y1 j); [done|done|unfold role_of in Hr1; congruence|done|by rewrite Ho1, lookup_delete_eq]|].
    cbn beta. intros _ st2 (Hw2 & Hf2 & Ho2). apply wp_ret. pose proof (transitivity Hf1 Hf2) as Hf. destruct (sframe_node _ _ _ _ Hf Hy) as (y2 & Hy2 & Hr2 & _). destruct (sframe_node _ _ _ _ Hf Hx) as (x2 & Hx2 & _).
    eapply wp_mono; [eapply IH; [done|done|done|unfold role_of in Hr2; congruence|done]|]. cbn beta. intros _ st3 (Hw3 & Hf3 & Ho3). split_and!; [done|by etransitivity|]. intros k. rewrite Ho3, Ho2, Ho1. destruct (decide (k = j)) as [->|Hk].
    + rewrite lookup_insert_eq, (bool_decide_true (owner _ !! _ = _ /\ _)); [by destruct (bool_decide _)|]. split; [done|left].
    + rewrite lookup_insert_ne, lookup_delete_ne by congruence. by rewrite (bool_decide_ext _ _ (other_in _ k j js Hk)).
  - apply wp_bind, wp_ret. eapply wp_mono; [by eapply IH|]. cbn beta. intros _ st2 (Hw2 & Hf2 & Ho2). split_and!; [done|done|]. intros k. rewrite Ho2. by rewrite (bool_decide_ext _ _ (skip_in (fun k => owner (tables st) !! k = Some _) k j js Hu)).
Qed.

(** What the invariant depends on. *)
Definition view (st : clusterState) : name * gmap name role * gmap name (list Z * Z) * gmap Z name := (myself st, role_of <$> nodes st, share <$> nodes st, owner (tables st)).
Lemma wf_view N st st' : view st' = view st -> wf N st -> wf N st'.
Proof.
  intros [= E1 E2 E3 E4] [H1 H2 H3]. constructor; [by rewrite E1, E2|by rewrite E3, E4|]. intros n x Hn Hs. assert ((role_of <$> nodes st) !! n = Some (role_of x)) as Hr by (by rewrite <- E2, lookup_fmap, Hn). assert ((share <$> nodes st) !! n = Some (share x)) as Hx by (by rewrite <- E3, lookup_fmap, Hn).
  rewrite lookup_fmap in Hr. rewrite lookup_fmap in Hx. destruct (nodes st !! n) as [y|] eqn:Hy; [|done]. injection Hr as _ _ Hr _ _. injection Hx as _ Hx. rewrite <- Hx. apply (H3 n y Hy). congruence.
Qed.

Lemma del_slot_any N st j : wf N st -> wp (clusterDelSlot j) (fun _ st' => wf N st' /\ sframe st st' /\ owner (tables st') = base.delete j (owner (tables st))) st.
Proof.
  intros Hw. destruct (owner (tables st) !! j) as [n|] eqn:Hu; [by apply (del_slot_ok N st n)|]. unfold clusterDelSlot, slot_owner. apply wp_bind, wp_gets. rewrite Hu. apply wp_ret. split_and!; [done|done|by rewrite delete_id].
Qed.

(** ** Claims of slots *)

(** The owner of a slot gives way to a claim. *)
Definition yields (st : clusterState) (from : name) (epoch : Z) (claimed : list Z) (k : Z) : bool :=
  bit claimed k && bool_decide (importing_slots_from (tables st) !! k = None) &&
  match owner (tables st) !! k with
  | None => true
  | Some n => negb (n =? from) && match nodes st !! n with Some x => configEpoch x <? epoch | None => false end
  end.

Lemma yields_frame st st' from epoch claimed k : sframe st st' -> owner (tables st') !! k = owner (tables st) !! k -> yields st' from epoch claimed k = yields st from epoch claimed k.
Proof.
  intros Hf Ho. unfold yields. rewrite Ho, (sf_open _ _ Hf). destruct (owner (tables st) !! k) as [n|]; [|done]. do 2 f_equal. pose proof (f_equal (lookup n) (sf_epoch _ _ Hf)) as He. rewrite !lookup_fmap in He. destruct (nodes st' !! n), (nodes st !! n); cbn in He; congruence.
Qed.

Definition claims_met (E : env) (from : name) (epoch : Z) (claimed : list Z) (curmaster : option name) (js : list Z) (nm : option name) (d : list Z) (st : clusterState) (r : option name * list Z) (st' : clusterState) : Prop :=
  (forall k, owner (tables st') !! k = if bool_decide (yields st from epoch claimed k = true /\ k ∈ js) then Some from else owner (tables st) !! k) /\
  r.1 = (if existsb (fun k => yields st from epoch claimed k && bool_decide (owner (tables st) !! k = curmaster)) js then Some from else nm) /\
  r.2 = d ++ List.filter (fun k => yields st from epoch claimed k && (bool_decide (owner (tables st) !! k = Some (myself st)) && negb (countKeysInSlot E k =? 0))) js.

Lemma claims_skip E from epoch claimed cm j js nm d st r st' : yields st from epoch claimed j = false -> claims_met E from epoch claimed cm js nm d st r st' -> claims_met E from epoch claimed cm (j :: js) nm d st r st'.
Proof.
  intros Hy (H1 & H2 & H3). unfold claims_met. cbn [existsb List.filter]. rewrite Hy. split_and!; [|done|done]. intros k. rewrite H1. assert (~ yields st from epoch claimed j = true) as Hn by congruence. by rewrite (bool_decide_ext _ _ (skip_in (fun k => yields st from epoch claimed k = true) k j js Hn)).
Qed.

Lemma claims_take E from epoch claimed cm j js nm d st r st2 st' : NoDup (j :: js) -> yields st from epoch claimed j = true -> sframe st st2 -> (forall k, owner (tables st2) !! k = if decide (k = j) then Some from else owner (tables st) !! k) ->
  claims_met E from epoch claimed cm js (if bool_decide (owner (tables st) !! j = cm) then Some from else nm)
    (if bool_decide (owner (tables st) !! j = Some (myself st)) && negb (countKeysInSlot E j =? 0) then d ++ [j] else d) st2 r st' -> claims_met E from epoch claimed cm (j :: js) nm d st r st'.
Proof.
  intros [Hni Hnd]%list.NoDup_cons Hy Hf Ho (H1 & H2 & H3). assert (forall k, k <> j -> owner (tables st2) !! k = owner (tables st) !! k) as Hk by (intros k Hne; rewrite Ho; by rewrite decide_False by done). assert (forall k, k ∈ js -> k <> j) as Hj by (intros k Hin ->; done).
  assert (forall k, k <> j -> yields st2 from epoch claimed k = yields st from epoch claimed k) as Hyk by (intros k Hne; apply yields_frame; [done|by apply Hk]). split_and!.
  - intros k. rewrite H1, Ho. destruct (decide (k = j)) as [->|Hne]; [rewrite (bool_decide_false (_ /\ j ∈ js)) by (by intros [_ ?]); rewrite bool_decide_true; [done|split; [done|left]]|]. rewrite (Hyk k Hne). by rewrite (bool_decide_ext _ _ (other_in _ k j js Hne)).
  - rewrite H2. cbn [existsb]. rewrite Hy. cbn [andb]. assert (existsb (fun k => yields st2 from epoch claimed k && bool_decide (owner (tables st2) !! k = cm)) js = existsb (fun k => yields st from epoch claimed k && bool_decide (owner (tables st) !! k = cm)) js) as ->; [|by destruct (bool_decide (owner (tables st) !! j = cm)), (existsb (fun k => yields st from epoch claimed k && bool_decide (owner (tables st) !! k = cm)) js)].
    clear -Hj Hyk Hk. induction js as [|a js IH]; [done|]. cbn. rewrite Hyk, Hk by (apply Hj; left). f_equal. apply IH. intros k Hin. apply Hj. by right.
  - rewrite H3. cbn [List.filter]. rewrite Hy. cbn [andb]. rewrite (sf_me _ _ Hf). rewrite (filter_same _ (fun k => yields st from epoch claimed k && (bool_decide (owner (tables st) !! k = Some (myself st)) && negb (countKeysInSlot E k =? 0))) js); [|intros k Hin; by rewrite Hyk, Hk by (by apply Hj)].
    destruct (_ && negb _); [by rewrite <- app_assoc|done].
Qed.

Lemma owner_known N st j n : wf N st -> owner (tables st) !! j = Some n -> exists x, nodes st !! n = Some x.
Proof. intros Hw Hu. destruct (so_owner _ _ _ (wf_slots _ _ Hw) _ _ Hu) as [_ [s Hs]]. rewrite lookup_fmap in Hs. apply fmap_Some in Hs as (x & Hx & _). eauto. Qed.

(** The code decides as [yields] says. *)
Lemma claim_decision {A} (m1 : C A) (m2 : option name -> C A) N st from epoch claimed j Q : wf N st -> 8 * zlen claimed = N -> 0 <= j < N ->
  (yields st from epoch claimed j = false -> wp m1 Q st) -> (yields st from epoch claimed j = true -> owner (tables st) !! j <> Some from -> wp (m2 (owner (tables st) !! j)) Q st) ->
  wp (b ← lift (bitmapTestBit claimed j);
      if negb b then m1 else
      o ← slot_owner j;
      if bool_decide (o = Some from) then m1 else
      imp ← gets (fun st => importing_slots_from (tables st) !! j);
      if bool_decide (imp <> None) then m1 else
      older ← match o with None => mret true | Some n => x ← deref n; mret (configEpoch x <? epoch) end;
      if negb older then m1 else m2 o) Q st.
Proof.
  intros Hw Hc Hj H1 H2. apply wp_bind. eapply wp_lift; [apply test_bit; lia|]. unfold yields in *. destruct (bit claimed j); cbn [negb]; [|by apply H1]. cbn [andb] in *. apply wp_bind, wp_gets.
  destruct (bool_decide_reflect (owner (tables st) !! j = Some from)) as [Eo|Eo]; [rewrite Eo, Z.eqb_refl in H1; apply H1; apply andb_false_r|]. apply wp_bind, wp_gets. rewrite bool_decide_not. destruct (bool_decide (importing_slots_from (tables st) !! j = None)); [|by apply H1]. cbn [negb andb] in *.
  destruct (owner (tables st) !! j) as [n|] eqn:Hu; [|apply wp_bind, wp_ret; by apply H2]. destruct (owner_known N st j n Hw Hu) as [x Hx]. apply wp_bind, wp_bind, (wp_deref _ x); [done|]. apply wp_ret. rewrite Hx in *. rewrite (proj2 (Z.eqb_neq n from)) in * by congruence. destruct (configEpoch x <? epoch); cbn [negb andb] in *; auto.
Qed.

Lemma update_slots_loop_ok N E from epoch claimed cm js : forall st x nm d, wf N st -> from <> myself st -> nodes st !! from = Some x -> nodeIsMaster x = true -> 8 * zlen claimed = N -> NoDup js -> (forall j, j ∈ js -> 0 <= j < N) ->
  wp (update_slots_loop E from epoch claimed cm js nm d) (fun r st' => wf N st' /\ sframe st st' /\ claims_met E from epoch claimed cm js nm d st r st') st.
Proof.
  induction js as [|j js IH]; intros st x nm d Hw Hne Hx Hs Hc Hd Hr; cbn [update_slots_loop].
  { apply wp_ret. split_and!; [done|done|]. split_and!; [|done|by rewrite app_nil_r]. intros k. rewrite bool_decide_false; [done|]. by intros [_ ?%elem_of_nil]. }
  assert (0 <= j < N) as Hj by (apply Hr; left). assert (forall k, k ∈ js -> 0 <= k < N) as Hr' by (intros; apply Hr; by right). pose proof Hd as [Hni Hd']%list.NoDup_cons. apply (claim_decision _ _ N st from epoch claimed j); [done|done|done| |].
  - intros Hy. eapply wp_mono; [by eapply IH|]. cbn beta. intros r st' (Hw' & Hf' & Hm). split_and!; [done|done|by apply claims_skip].
  - intros Hy Hu. apply wp_bind, wp_gets. eapply wp_step; [by apply del_slot_any|]. cbn beta. intros _ st1 (Hw1 & Hf1 & Ho1). destruct (sframe_node _ _ _ _ Hf1 Hx) as (x1 & Hx1 & Hr1 & _).
    eapply wp_step; [apply (add_slot_ok N st1 from x1 j); [done|done|unfold role_of in Hr1; congruence|done|by rewrite Ho1, lookup_delete_eq]|]. cbn beta. intros _ st2 (Hw2 & Hf2 & Ho2). apply wp_bind, wp_modify. set (st3 := set_todo st2 _).
    assert (sframe st st3) as Hf3 by (etransitivity; [exact Hf1|]; etransitivity; [exact Hf2|]; by constructor). destruct (sframe_node _ _ _ _ Hf3 Hx) as (x3 & Hx3 & Hr3 & _). rewrite (proj2 (Z.eqb_neq from (myself st)) Hne). cbn [negb]. rewrite andb_true_r.
    eapply wp_mono; [eapply IH; [by apply (wf_view N st2 st3)|by rewrite (sf_me _ _ Hf3)|done|unfold role_of in Hr3; congruence|done|done|done]|]. cbn beta. intros r st' (Hw' & Hf' & Hm). split_and!; [done|by etransitivity|]. eapply claims_take; [done|done|exact Hf3| |exact Hm].
    intros k. cbn. rewrite Ho2, Ho1. destruct (decide (k = j)) as [->|Hk]; [by rewrite lookup_insert_eq|by rewrite lookup_insert_ne, lookup_delete_ne by congruence].
Qed.

(** ** Changing roles *)

Definition append_new (s : name) (l : list name) : list name := if existsb (Z.eqb s) l then l else l ++ [s].
Definition drop_slave (s : name) (r : role) : role := mk_role (remove_first s (r_slaves r)) (r_slaveof r) (r_master r) (r_slave r) (r_hand r).
Definition add_slave (s : name) (r : role) : role := mk_role (append_new s (r_slaves r)) (r_slaveof r) (r_master r) (r_slave r) (r_hand r).

(** Node [s] moves from the master [old] to [t] and gets new flags. *)
Definition relink (s : name) (old t : option name) (fm fs : bool) (k : name) (r : role) : role :=
  let l := if decide (old = Some k) then remove_first s (r_slaves r) else r_slaves r in
  mk_role (if decide (t = Some k) then append_new s l else l) (if decide (k = s) then t else r_slaveof r) (if decide (k = s) then fm else r_master r) (if decide (k = s) then fs else r_slave r) (r_hand r).
Definition relinked (s : name) (old t : option name) (fm fs : bool) (R R' : gmap name role) : Prop := forall k, R' !! k = relink s old t fm fs k <$> R !! k.

Lemma existsb_mem (s : name) l : existsb (Z.eqb s) l = bool_decide (s ∈ l).
Proof. induction l as [|a l IH]; [done|]. cbn. rewrite IH. destruct (Z.eqb_spec s a) as [->|Hne]; cbn; [symmetry; apply bool_decide_true; left|]. apply bool_decide_ext. rewrite elem_of_cons. tauto. Qed.
Lemma in_append_new s l k : k ∈ append_new s l <-> k ∈ l \/ k = s.
Proof. unfold append_new. rewrite existsb_mem. destruct (bool_decide_reflect (s ∈ l)); [naive_solver|]. by rewrite elem_of_app, list_elem_of_singleton. Qed.
Lemma nodup_append_new s l : NoDup l -> NoDup (append_new s l).
Proof.
  unfold append_new. rewrite existsb_mem. destruct (bool_decide_reflect (s ∈ l)); [done|]. intros H. apply list.NoDup_app. split_and!; [done| |apply NoDup_singleton]. by intros k Hk ->%list_elem_of_singleton.
Qed.
Lemma remove_first_id s l : s ∉ l -> remove_first s l = l.
Proof. induction l as [|a l IH]; [done|]. intros [Hne H]%not_elem_of_cons. cbn. rewrite (proj2 (Z.eqb_neq a s)) by congruence. by rewrite IH. Qed.
Lemma in_remove_first s l k : NoDup l -> k ∈ remove_first s l <-> k ∈ l /\ k <> s.
Proof.
  induction l as [|a l IH]; [intros _; cbn; rewrite elem_of_nil; tauto|]. intros [Ha Hd]%list.NoDup_cons. cbn. destruct (Z.eqb_spec a s) as [->|Hne]; rewrite !elem_of_cons; [|rewrite IH by done; naive_solver]. split; [|naive_solver]. intros Hk. split; [by right|]. by intros ->.
Qed.
Lemma nodup_remove_first s l : NoDup l -> NoDup (remove_first s l).
Proof. induction l as [|a l IH]; [done|]. intros [Ha Hd]%list.NoDup_cons. cbn. destruct (a =? s); [done|]. apply list.NoDup_cons. split; [|by apply IH]. rewrite in_remove_first by done. tauto. Qed.

Lemma relink_slaves me R s rs t fm fs k r : roles_ok me R -> R !! s = Some rs -> R !! k = Some r ->
  NoDup (r_slaves (relink s (r_slaveof rs) t fm fs k r)) /\ forall s', s' ∈ r_slaves (relink s (r_slaveof rs) t fm fs k r) <-> (s' ∈ r_slaves r /\ s' <> s) \/ (s' = s /\ t = Some k).
Proof.
  intros [_ Hs Hd _ _ _] Hrs Hk. pose proof (Hd _ _ Hk) as Hnd. assert (s ∈ r_slaves r <-> r_slaveof rs = Some k) as Hin by (rewrite (Hs _ _ s Hk); naive_solver). unfold relink. cbn.
  set (l := if decide (r_slaveof rs = Some k) then _ else _). assert (NoDup l /\ forall s', s' ∈ l <-> s' ∈ r_slaves r /\ s' <> s) as [Hl Hl'].
  { subst l. case_decide as Ho; [split; [by apply nodup_remove_first|intros; by apply in_remove_first]|]. split; [done|]. intros s'. split; [|tauto]. intros H. split; [done|]. intros ->. tauto. }
  case_decide; (split; [try apply nodup_append_new; done|]); intros s'; rewrite ?in_append_new, Hl'; naive_solver.
Qed.

Lemma relinked_ok me R R' s rs t fm fs : roles_ok me R -> R !! s = Some rs -> r_hand rs = false -> (forall m, t = Some m -> exists r, R !! m = Some r /\ r_hand r = false) -> fs = negb fm -> (fm = true -> t = None) -> (s = me -> fm = false -> t <> None) ->
  relinked s (r_slaveof rs) t fm fs R R' -> roles_ok me R'.
Proof.
  intros Hok Hrs Hh Ht Hfs Hm Hme Hl. pose proof (relink_slaves me R s rs t fm fs) as Hsl. destruct Hok as [O1 O2 O3 O6 O4 (rm & Om & Oh & Ox)] eqn:Eok. clear Eok.
  assert (forall k r', R' !! k = Some r' -> exists r, R !! k = Some r /\ r' = relink s (r_slaveof rs) t fm fs k r) as Hinv. { intros k r' Hk. rewrite Hl in Hk. apply fmap_Some in Hk as (r & Hr & ->). eauto. }
  assert (forall k, is_Some (R !! k) -> is_Some (R' !! k)) as Hsome by (intros k [r Hk]; rewrite Hl, Hk; by eexists). constructor.
  - intros n r m (r0 & Hr & ->)%Hinv. cbn. intros Hx. apply Hsome. case_decide; [destruct (Ht m Hx) as (y & Hy & _); eauto|by eapply O1].
  - intros m r s' (r0 & Hr & ->)%Hinv. rewrite (proj2 (Hsl m r0 Hok Hrs Hr) s'). rewrite (O2 _ _ s' Hr). split.
    + intros [[(z & Hz & Hzm) Hne]|[-> ->]]; [exists (relink s (r_slaveof rs) t fm fs s' z); split; [by rewrite Hl, Hz|]; cbn; by rewrite decide_False by done|]. exists (relink s (r_slaveof rs) (Some m) fm fs s rs). split; [by rewrite Hl, Hrs|]. cbn. by rewrite decide_True by done.
    + intros (z & (z0 & Hz & ->)%Hinv & Hzm). cbn in Hzm. destruct (decide (s' = s)) as [->|Hne]; [by right|left; eauto].
  - intros m r (r0 & Hr & ->)%Hinv. by apply (Hsl m r0 Hok Hrs Hr).
  - intros n r (r0 & Hr & ->)%Hinv. cbn. intros Hn. pose proof (O6 _ _ Hr Hn) as ->. unfold relink, newcomer. cbn. rewrite !(decide_False (P := n = s)) by (intros ->; congruence).
    rewrite (decide_False (P := t = Some n)) by (intros Et; destruct (Ht n Et) as (y & Hy & Hyh); congruence). by destruct (decide _).
  - intros n r (r0 & Hr & ->)%Hinv. cbn. intros Hn. case_decide; [done|by apply (O4 n)].
  - exists (relink s (r_slaveof rs) t fm fs me rm). split; [by rewrite Hl, Om|]. cbn. split; [done|]. case_decide; [by apply Hme|done].
Qed.

(** Only the roles of nodes change. *)
Record rframe (st st' : clusterState) : Prop := {
  rf_me : myself st' = myself st;
  rf_share : share <$> nodes st' = share <$> nodes st;
  rf_owner : owner (tables st') = owner (tables st);
  rf_epoch : configEpoch <$> nodes st' = configEpoch <$> nodes st;
  rf_hands : nodeInHandshake <$> nodes st' = nodeInHandshake <$> nodes st }.
#[global] Instance rframe_preorder : PreOrder rframe.
Proof. split; [by intros st; constructor|]. intros a b c [] []. constructor; congruence. Qed.
Abbreviation roles st := (role_of <$> nodes st).

Ltac same_hand := first [done | by apply has_flag_set_other | by apply has_flag_clear_other | etransitivity; [by apply has_flag_set_other|by apply has_flag_clear_other]].
Lemma update_role n f x (Q : unit -> clusterState -> Prop) st : nodes st !! n = Some x -> share (f x) = share x -> configEpoch (f x) = configEpoch x -> nodeInHandshake (f x) = nodeInHandshake x ->
  (forall st', rframe st st' -> nodes st' !! n = Some (f x) -> roles st' = <[n := role_of (f x)]> (roles st) -> effects st' = effects st -> Q tt st') -> wp (update n f) Q st.
Proof.
  intros Hn Hs He Hh HQ. apply (wp_update _ _ x); [done|]. apply HQ; [|apply lookup_insert_eq|by cbn; rewrite fmap_insert|done]. constructor; cbn; [done|by apply (fmap_reinsert _ _ _ x)|done|by apply (fmap_reinsert _ _ _ x)..].
Qed.

Lemma alter_insert_role (f : role -> role) (R : gmap name role) n r : R !! n = Some r -> alter f n R = <[n := f r]> R.
Proof. intros H. apply map_eq. intros k. rewrite lookup_alter, lookup_insert. destruct (decide (n = k)) as [<-|]; [by rewrite H|done]. Qed.
Lemma roles_lookup st n x : nodes st !! n = Some x -> roles st !! n = Some (role_of x).
Proof. intros H. by rewrite lookup_fmap, H. Qed.
Lemma roles_known st n r : roles st !! n = Some r -> exists x, nodes st !! n = Some x /\ role_of x = r.
Proof. rewrite lookup_fmap. intros (x & Hx & ->)%fmap_Some. eauto. Qed.

Lemma remove_slave_ok st m s : is_Some (roles st !! m) -> wp (clusterNodeRemoveSlave m s) (fun _ st' => rframe st st' /\ roles st' = alter (drop_slave s) m (roles st) /\ effects st' = effects st) st.
Proof.
  intros [r Hr]. destruct (roles_known _ _ _ Hr) as (y & Hy & <-). rewrite (alter_insert_role _ _ _ _ Hr). unfold clusterNodeRemoveSlave. apply wp_bind, (wp_deref _ y); [done|]. rewrite existsb_mem. destruct (bool_decide_reflect (s ∈ slaves y)) as [Hin|Hin].
  - apply wp_bind, (update_role _ _ y); [same_hand..|]. intros st1 Hf1 Hn1 Hr1 He1. apply wp_bind, (wp_deref _ _ _ _ Hn1). apply wp_bind. destruct (_ =? _).
    + apply (update_role _ _ _ _ _ Hn1); [same_hand..|]. intros st2 Hf2 _ Hr2 He2. apply wp_ret. split_and!; [by etransitivity|by rewrite Hr2, Hr1, insert_insert_eq, role_clear_flag|congruence].
    + by apply wp_ret, wp_ret.
  - apply wp_ret. split_and!; [done| |done]. rewrite insert_id; [done|]. unfold drop_slave. cbn. rewrite (remove_first_id s) by done. done.
Qed.

Lemma add_slave_ok st m s : is_Some (roles st !! m) -> wp (clusterNodeAddSlave m s) (fun _ st' => rframe st st' /\ roles st' = alter (add_slave s) m (roles st) /\ effects st' = effects st) st.
Proof.
  intros [r Hr]. destruct (roles_known _ _ _ Hr) as (y & Hy & <-). rewrite (alter_insert_role _ _ _ _ Hr). unfold clusterNodeAddSlave. apply wp_bind, (wp_deref _ y); [done|]. unfold add_slave, append_new. cbn [r_slaves role_of]. destruct (existsb (Z.eqb s) (slaves y)).
  - apply wp_ret. split_and!; [done|by rewrite insert_id|done].
  - apply wp_bind, (update_role _ _ y); [same_hand..|]. intros st1 Hf1 Hn1 Hr1 He1. apply wp_ret. split_and!; [done|by rewrite Hr1, role_set_flag|done].
Qed.

(** Nodes that are known and not in handshake. *)
Definition hands (st : clusterState) : gmap name bool := nodeInHandshake <$> nodes st.
Definition joined (st : clusterState) (n : name) : Prop := hands st !! n = Some false.
Lemma joined_node st n : joined st n -> exists x, nodes st !! n = Some x /\ nodeInHandshake x = false.
Proof. unfold joined, hands. rewrite lookup_fmap. intros (x & Hx & E)%fmap_Some. eauto. Qed.
Lemma joined_known st n : joined st n -> n ∈ dom (nodes st).
Proof. intros (x & Hx & _)%joined_node. apply elem_of_dom. eauto. Qed.
Lemma node_joined st n x : nodes st !! n = Some x -> nodeInHandshake x = false -> joined st n.
Proof. unfold joined, hands. rewrite lookup_fmap. intros -> H. cbn. by rewrite H. Qed.
Lemma joined_role st n : joined st n -> exists r, roles st !! n = Some r /\ r_hand r = false.
Proof. intros (x & Hx & Hh)%joined_node. exists (role_of x). by rewrite (roles_lookup _ _ _ Hx). Qed.

(** The invariant after a node changed its place. *)
Lemma wf_relinked N st st' s x t fm fs : wf N st -> nodes st !! s = Some x -> nodeInHandshake x = false -> (forall m, t = Some m -> joined st m) -> fs = negb fm -> (fm = true -> t = None) -> (s = myself st -> fm = false -> t <> None) -> (fm = false -> numslots x = 0) ->
  rframe st st' -> relinked s (slaveof x) t fm fs (roles st) (roles st') -> wf N st'.
Proof.
  intros Hw Hx Hh Ht Hfs Hm Hme Hi [F1 F2 F3 F4 F5] Hl. destruct Hw as [W1 W2 W3]. constructor; [rewrite F1; eapply (relinked_ok _ (roles st) _ s (role_of x)); [done|by apply roles_lookup|done|intros m Hmt; by apply joined_role, Ht|done..]|by rewrite F2, F3|].
  intros n y Hy Hs. pose proof (roles_lookup _ _ _ Hy) as Hr. rewrite Hl in Hr. apply fmap_Some in Hr as (r & (z & Hz & <-)%roles_known & Hr). assert ((share <$> nodes st) !! n = Some (share y)) as Hsh by (by rewrite <- F2, lookup_fmap, Hy). rewrite lookup_fmap, Hz in Hsh. injection Hsh as _ <-.
  injection Hr as _ _ Hr _ _. rewrite Hs in Hr. case_decide; [subst n; rewrite Hx in Hz; injection Hz as <-; by apply Hi|by apply (W3 n)].
Qed.

(** The part of the state the handlers rely on stays: same node, same nodes in the table, in
    handshake or not. *)
Definition keeps (st st' : clusterState) : Prop := myself st' = myself st /\ hands st' = hands st.
#[global] Instance keeps_preorder : PreOrder keeps.
Proof. split; [by intros st|]. intros a b c [] []. split; congruence. Qed.
Definition known (st : clusterState) (n : name) : Prop := n ∈ dom (nodes st).
Lemma keeps_known st st' n : keeps st st' -> known st n -> known st' n.
Proof. unfold known, hands. intros [_ H] Hn. rewrite <- (dom_fmap_L nodeInHandshake) in Hn. unfold hands in H. rewrite <- H in Hn. by rewrite dom_fmap_L in Hn. Qed.
Lemma keeps_joined st st' n : keeps st st' -> joined st n -> joined st' n.
Proof. unfold joined. by intros [_ ->]. Qed.
Lemma known_node st n : known st n -> exists x, nodes st !! n = Some x.
Proof. by intros [x Hx]%elem_of_dom; eauto. Qed.
Lemma node_known st n x : nodes st !! n = Some x -> known st n.
Proof. intros H. apply elem_of_dom. eauto. Qed.
Lemma rframe_keeps st st' : rframe st st' -> keeps st st'.
Proof. intros [H1 _ _ _ H5]. by split. Qed.
Lemma hands_roles st : hands st = r_hand <$> roles st.
Proof. unfold hands. rewrite <- map_fmap_compose. done. Qed.
Lemma sframe_keeps st st' : sframe st st' -> keeps st st'.
Proof. intros [H1 H2 _ _ _]. split; [done|]. by rewrite !hands_roles, H2. Qed.
Lemma roles_dom st n : is_Some (roles st !! n) <-> known st n.
Proof. unfold known. rewrite lookup_fmap, fmap_is_Some, elem_of_dom. done. Qed.

Lemma update_alter n f g x (Q : unit -> clusterState -> Prop) st : nodes st !! n = Some x -> share (f x) = share x -> configEpoch (f x) = configEpoch x -> nodeInHandshake (f x) = nodeInHandshake x -> role_of (f x) = g (role_of x) ->
  (forall st', rframe st st' -> nodes st' !! n = Some (f x) -> roles st' = alter g n (roles st) -> effects st' = effects st -> Q tt st') -> wp (update n f) Q st.
Proof. intros Hn Hs He Hh Hg HQ. apply (update_role _ _ x); [same_hand..|]. intros st' ? ? Hr ?. apply HQ; [done|done| |done]. by rewrite Hr, Hg, (alter_insert_role _ _ _ _ (roles_lookup _ _ _ Hn)). Qed.

Definition drop_from (o : option name) (s : name) (R : gmap name role) : gmap name role := match o with Some m => alter (drop_slave s) m R | None => R end.
Definition add_to (o : option name) (s : name) (R : gmap name role) : gmap name role := match o with Some m => alter (add_slave s) m R | None => R end.
Definition set_place (t : option name) (fm fs : bool) (r : role) : role := mk_role (r_slaves r) t fm fs (r_hand r).

Lemma lookup_drop_from o s R k : drop_from o s R !! k = (fun r => if decide (o = Some k) then drop_slave s r else r) <$> R !! k.
Proof. destruct o as [m|]; cbn; [|by destruct (R !! k)]. rewrite lookup_alter. destruct (decide (m = k)) as [->|Hne]; destruct (R !! k); cbn; [by rewrite decide_True by done|done|by rewrite decide_False by congruence|done]. Qed.
Lemma lookup_add_to o s R k : add_to o s R !! k = (fun r => if decide (o = Some k) then add_slave s r else r) <$> R !! k.
Proof. destruct o as [m|]; cbn; [|by destruct (R !! k)]. rewrite lookup_alter. destruct (decide (m = k)) as [->|Hne]; destruct (R !! k); cbn; [by rewrite decide_True by done|done|by rewrite decide_False by congruence|done]. Qed.

(** The calls that move a node, in the two orders of the code. *)
Lemma relinked_before s old t fm fs R : relinked s old t fm fs R (alter (set_place t fm fs) s (add_to t s (drop_from old s R))).
Proof.
  intros k. rewrite lookup_alter, !lookup_add_to, !lookup_drop_from. unfold relink. destruct (decide (s = k)) as [->|Hne]; destruct (R !! k) as [[]|]; cbn [fmap option_fmap option_map]; [rewrite !(decide_True _ _ (eq_refl k))|done|rewrite !(decide_False (P := k = s)) by congruence|done]; f_equal; by destruct (decide (old = Some k)), (decide (t = Some k)).
Qed.
Lemma relinked_after s old t fm fs R : relinked s old t fm fs R (add_to t s (alter (set_place t fm fs) s (drop_from old s R))).
Proof.
  intros k. rewrite lookup_add_to, lookup_alter, !lookup_drop_from. unfold relink. destruct (decide (s = k)) as [->|Hne]; destruct (R !! k) as [[]|]; cbn [fmap option_fmap option_map]; [rewrite !(decide_True _ _ (eq_refl k))|done|rewrite !(decide_False (P := k = s)) by congruence|done]; f_equal; by destruct (decide (old = Some k)), (decide (t = Some k)).
Qed.

Lemma drop_from_ok st o s : (forall m, o = Some m -> is_Some (roles st !! m)) ->
  wp (match o with Some m => _ ← clusterNodeRemoveSlave m s; mret tt | None => mret tt end) (fun _ st' => rframe st st' /\ roles st' = drop_from o s (roles st) /\ effects st' = effects st) st.
Proof. intros H. destruct o as [m|]; [|by apply wp_ret]. eapply wp_step; [by apply remove_slave_ok, H|]. cbn beta. intros _ st1 H1. by apply wp_ret. Qed.

Lemma role_promoted x : role_of (with_slaveof (set_flag (clear_flag x CLUSTER_NODE_SLAVE) CLUSTER_NODE_MASTER) None) = set_place None true false (role_of x).
Proof.
  unfold role_of, set_place, nodeIsMaster, nodeIsSlave, nodeInHandshake. cbn. f_equal; [by apply (has_flag_set (clear_flag x CLUSTER_NODE_SLAVE))| |]; (etransitivity; [by apply (has_flag_set_other (clear_flag x CLUSTER_NODE_SLAVE))|]); [by apply has_flag_clear|by apply has_flag_clear_other].
Qed.
Lemma role_demoted x : role_of (set_flag (clear_flag x (Z.lor CLUSTER_NODE_MASTER CLUSTER_NODE_MIGRATE_TO)) CLUSTER_NODE_SLAVE) = set_place (slaveof x) false true (role_of x).
Proof.
  unfold role_of, set_place, nodeIsMaster, nodeIsSlave, nodeInHandshake. cbn. f_equal; [|by apply has_flag_set|]; (etransitivity; [by apply has_flag_set_other|]); [by apply has_flag_clear|by apply has_flag_clear_other].
Qed.

Lemma slaveof_known N st n x : wf N st -> nodes st !! n = Some x -> forall m, slaveof x = Some m -> is_Some (roles st !! m).
Proof. intros Hw Hx m Hm. by apply (ro_slaveof _ _ (wf_roles _ _ Hw) n (role_of x)); [apply roles_lookup|]. Qed.

Lemma node_role N st n x : wf N st -> nodes st !! n = Some x -> nodeInHandshake x = false -> nodeIsSlave x = negb (nodeIsMaster x) /\ (nodeIsMaster x = true -> slaveof x = None).
Proof. intros Hw Hx. apply (ro_master _ _ (wf_roles _ _ Hw) n (role_of x)). by apply roles_lookup. Qed.
Lemma node_newcomer N st n x : wf N st -> nodes st !! n = Some x -> nodeInHandshake x = true -> role_of x = newcomer.
Proof. intros Hw Hx. apply (ro_hand _ _ (wf_roles _ _ Hw) n (role_of x)). by apply roles_lookup. Qed.
Lemma placed_joined N st n x : wf N st -> nodes st !! n = Some x -> (nodeIsMaster x = true \/ nodeIsSlave x = true) -> nodeInHandshake x = false.
Proof. intros Hw Hx H. destruct (nodeInHandshake x) eqn:E; [|done]. pose proof (node_newcomer N st n x Hw Hx E) as [= _ _ H1 H2 _]. destruct H; congruence. Qed.
Lemma self_joined N st x : wf N st -> nodes st !! myself st = Some x -> nodeInHandshake x = false.
Proof. intros Hw Hx. destruct (ro_me _ _ (wf_roles _ _ Hw)) as (r & Hr & H & _). rewrite (roles_lookup _ _ _ Hx) in Hr. by injection Hr as <-. Qed.
Lemma slaveof_joined N st n x m : wf N st -> nodes st !! n = Some x -> slaveof x = Some m -> joined st m.
Proof.
  intros Hw Hx Hm. destruct (slaveof_known N st n x Hw Hx m Hm) as [r (y & Hy & <-)%roles_known]. eapply node_joined; [done|]. destruct (nodeInHandshake y) eqn:E; [|done]. pose proof (node_newcomer N st m y Hw Hy E) as [= Hs _ _ _ _].
  assert (n ∈ slaves y) as Hin. { apply (ro_slaves _ _ (wf_roles _ _ Hw) m (role_of y) n); [by apply roles_lookup|]. exists (role_of x). by rewrite (roles_lookup _ _ _ Hx). } rewrite Hs in Hin. by apply elem_of_nil in Hin.
Qed.
Lemma self_role N st x : wf N st -> nodes st !! myself st = Some x -> nodeIsSlave x = negb (nodeIsMaster x) /\ (nodeIsMaster x = false -> slaveof x <> None).
Proof. intros Hw Hx. split; [eapply node_role; [done|done|by eapply self_joined]|]. destruct (ro_me _ _ (wf_roles _ _ Hw)) as (r & Hr & _ & H). rewrite (roles_lookup _ _ _ Hx) in Hr. by injection Hr as <-. Qed.
Lemma master_slaveof N st n x : wf N st -> nodes st !! n = Some x -> nodeIsMaster x = true -> slaveof x = None /\ nodeIsSlave x = false.
Proof. intros Hw Hx Hm. destruct (node_role N st n x Hw Hx) as [-> H]; [eapply placed_joined; eauto|]. rewrite Hm in *. by split; [apply H|]. Qed.

Lemma as_master_ok N st n x : wf N st -> nodes st !! n = Some x -> nodeInHandshake x = false ->
  wp (clusterSetNodeAsMaster n) (fun _ st' => wf N st' /\ rframe st st' /\ effects st' = effects st /\ exists y, nodes st' !! n = Some y /\ nodeIsMaster y = true /\ nodeIsSlave y = false) st.
Proof.
  intros Hw Hx Hh. unfold clusterSetNodeAsMaster. apply wp_bind, (wp_deref _ x); [done|]. destruct (nodeIsMaster x) eqn:Em.
  { apply wp_ret. split_and!; [done..|]. exists x. split_and!; [done..|]. by eapply (master_slaveof N st n). }
  apply wp_bind, wp_gets. apply wp_step with (fun _ st1 => rframe st st1 /\ roles st1 = drop_from (slaveof x) n (roles st) /\ effects st1 = effects st).
  { destruct (slaveof x) as [m|] eqn:Es; [|by apply wp_ret]. eapply wp_step; [apply remove_slave_ok; by eapply slaveof_known|]. cbn beta. intros _ st1 (Hf & Hr & He). destruct (negb _); [|by apply wp_ret].
    assert (is_Some (roles st1 !! n)) as [? (x1 & Hx1 & _)%roles_known] by (apply roles_dom, (keeps_known st); [by apply rframe_keeps|by eapply node_known]). apply (update_alter _ _ id x1); [same_hand..| |]; [by rewrite role_set_flag|]. intros st2 Hf2 _ Hr2 He2. split_and!; [by etransitivity| |congruence]. by rewrite Hr2, alter_id by done. }
  intros _ st1 (Hf & Hr & He). assert (is_Some (roles st1 !! n)) as [? (x1 & Hx1 & _)%roles_known] by (apply roles_dom, (keeps_known st); [by apply rframe_keeps|by eapply node_known]).
  apply wp_bind, (update_alter _ _ (set_place None true false) x1); [done|done|done|same_hand|apply role_promoted|]. intros st2 Hf2 Hx2 Hr2 He2. apply wp_modify. assert (rframe st (set_todo st2 (Z.lor (todo_before_sleep st2) (Z.lor CLUSTER_TODO_SAVE_CONFIG CLUSTER_TODO_UPDATE_STATE)))) as Hf3 by (etransitivity; [exact Hf|]; etransitivity; [exact Hf2|]; by constructor).
  split_and!; [|done|cbn; congruence|].
  - apply (wf_relinked N st _ n x None true false); [done..|]. cbn. rewrite Hr2, Hr. apply relinked_before.
  - pose proof (role_promoted x1) as Hp. unfold role_of, set_place in Hp. injection Hp as Hp1 Hp2 _. eexists. split_and!; [exact Hx2|exact Hp1|exact Hp2].
Qed.

(** This node stops being a master, or leaves its master. *)
Lemma leave_place_ok N st x t : wf N st -> nodes st !! myself st = Some x ->
  wp (if nodeIsMaster x then
        _ ← update (myself st) (fun x => set_flag (clear_flag x (Z.lor CLUSTER_NODE_MASTER CLUSTER_NODE_MIGRATE_TO)) CLUSTER_NODE_SLAVE);
        clusterCloseAllSlots
      else match slaveof x with Some m => _ ← clusterNodeRemoveSlave m (myself st); mret tt | None => mret tt end)
     (fun _ st1 => rframe st st1 /\ effects st1 = effects st /\ (exists x1, nodes st1 !! myself st = Some x1 /\ nodeIsMaster x1 = false /\ nodeIsSlave x1 = true) /\
                   alter (set_place t false true) (myself st) (roles st1) = alter (set_place t false true) (myself st) (drop_from (slaveof x) (myself st) (roles st))) st.
Proof.
  intros Hw Hx. destruct (self_role N st x Hw Hx) as [Hs _]. destruct (nodeIsMaster x) eqn:Em.
  - destruct (master_slaveof N st _ x Hw Hx Em) as [Hso _]. apply wp_bind, (update_alter _ _ (set_place (slaveof x) false true) x); [done|done|done|same_hand|apply role_demoted|]. intros st1 Hf Hx1 Hr He. apply wp_modify. split_and!; [etransitivity; [exact Hf|]; by constructor|done| |].
    + pose proof (role_demoted x) as Hd. unfold role_of, set_place in Hd. injection Hd as Hd1 Hd2 _. eexists. split_and!; [exact Hx1|exact Hd1|exact Hd2].
    + cbn. rewrite Hr, Hso. cbn. by rewrite alter_alter_eq.
  - eapply wp_mono; [apply drop_from_ok; by eapply slaveof_known|]. cbn beta. intros _ st1 (Hf & Hr & He). split_and!; [done|done| |by rewrite Hr]. assert (is_Some (roles st1 !! myself st)) as [r Hr1] by (apply roles_dom, (keeps_known st); [by apply rframe_keeps|by eapply node_known]).
    destruct (roles_known _ _ _ Hr1) as (x1 & Hx1 & <-). exists x1. rewrite Hr, lookup_drop_from, (roles_lookup _ _ _ Hx) in Hr1. cbn [fmap option_fmap option_map] in Hr1. injection Hr1 as Hr1. destruct (decide _); unfold role_of, drop_slave in Hr1; cbn in Hr1; injection Hr1 as _ _ ? ? _; split_and!; cbn in *; congruence.
Qed.

Lemma set_master_ok N E st n x : wf N st -> n <> myself st -> joined st n -> nodes st !! myself st = Some x -> numslots x = 0 ->
  wp (clusterSetMaster E n) (fun _ st' => wf N st' /\ rframe st st' /\ (exists l, effects st' = effects st ++ SetMaster n :: l) /\ exists y, nodes st' !! myself st = Some y /\ nodeIsSlave y = true /\ slaveof y = Some n) st.
Proof.
  intros Hw Hne Hn Hx Hz. unfold clusterSetMaster. apply wp_bind, wp_gets. rewrite (proj2 (Z.eqb_neq n (myself st)) Hne). apply wp_bind, (wp_lift _ tt); [done|]. apply wp_bind, wp_bind, wp_gets, (wp_deref _ x); [done|]. rewrite Hz. apply wp_bind, (wp_lift _ tt); [done|].
  eapply wp_step; [by apply (leave_place_ok N st x (Some n))|]. cbn beta. intros _ st1 (Hf1 & He1 & (x1 & Hx1 & Hm1 & Hs1) & Hr1). apply wp_bind, (update_alter _ _ (set_place (Some n) false true) x1); [done|done|done|same_hand| |]. { unfold role_of, set_place. cbn. by rewrite <- Hm1, <- Hs1. }
  intros st2 Hf2 Hx2 Hr2 He2. eapply wp_step; [apply add_slave_ok, roles_dom, (keeps_known st); [etransitivity; by apply rframe_keeps|by apply joined_known]|]. cbn beta. intros _ st3 (Hf3 & Hr3 & He3). rewrite Hr2, Hr1 in Hr3. apply wp_bind, wp_modify. set (st4 := push_effect st3 _).
  assert (rframe st st4) as Hf4 by (etransitivity; [exact Hf1|]; etransitivity; [exact Hf2|]; etransitivity; [exact Hf3|]; by constructor). pose proof (relinked_after (myself st) (slaveof x) (Some n) false true (roles st)) as Hl. cbn in Hl. rewrite <- Hr3 in Hl.
  assert (wf N st4) as Hw4. { apply (wf_relinked N st _ (myself st) x (Some n) false true); try done; [by eapply self_joined|]. by intros m [= <-]. }
  assert (exists y, nodes st4 !! myself st = Some y /\ nodeIsSlave y = true /\ slaveof y = Some n) as Hy.
  { pose proof (Hl (myself st)) as Hlm. rewrite (roles_lookup _ _ _ Hx) in Hlm. apply roles_known in Hlm as (y & Hy & Hry). exists y. unfold relink in Hry. rewrite !(decide_True _ _ (eq_refl (myself st))) in Hry. unfold role_of in Hry. injection Hry as _ ? _ ? _. done. }
  unfold resetManualFailover. apply wp_bind, wp_gets. apply wp_bind. destruct (_ && _).
  - apply wp_modify, wp_modify. split_and!; [by apply (wf_view N st4)|etransitivity; [exact Hf4|by constructor]|exists [Unpause]; cbn; rewrite He3, He2, He1; by rewrite <- app_assoc|done].
  - apply wp_ret, wp_modify. split_and!; [by apply (wf_view N st4)|etransitivity; [exact Hf4|by constructor]|exists []; cbn; by rewrite He3, He2, He1|done].
Qed.

Lemma all_slots_range E j : j ∈ all_slots E -> 0 <= j < CLUSTER_SLOTS E.
Proof. unfold all_slots. rewrite in_up_to. lia. Qed.
Lemma in_all_slots E j : 0 <= j < CLUSTER_SLOTS E -> j ∈ all_slots E.
Proof. unfold all_slots. rewrite in_up_to. lia. Qed.

Lemma numslots_count N st n x : wf N st -> nodes st !! n = Some x -> numslots x = zlen (List.filter (fun j => bool_decide (owner (tables st) !! j = Some n)) (up_to (Z.to_nat N) 0)).
Proof.
  intros Hw Hx. assert ((share <$> nodes st) !! n = Some (share x)) as Hs by (by rewrite lookup_fmap, Hx). pose proof (so_count _ _ _ (wf_slots _ _ Hw) _ _ Hs) as Hc. cbn in Hc. rewrite Hc. f_equal. apply filter_same. intros k Hk%in_up_to. apply (so_bit _ _ _ (wf_slots _ _ Hw) _ _ _ Hs). lia.
Qed.
Lemma numslots_none N st n x : wf N st -> nodes st !! n = Some x -> (forall j, 0 <= j < N -> owner (tables st) !! j <> Some n) -> numslots x = 0.
Proof.
  intros Hw Hx Ho. rewrite (numslots_count N st n x Hw Hx), (filter_same _ (fun _ => false)); [by induction (up_to _ _)|]. intros k Hk%in_up_to. apply bool_decide_false, Ho. lia.
Qed.

Lemma del_node_slots_ok E st n x : wf (CLUSTER_SLOTS E) st -> nodes st !! n = Some x ->
  wp (clusterDelNodeSlots E n) (fun _ st' => wf (CLUSTER_SLOTS E) st' /\ sframe st st' /\ exists y, nodes st' !! n = Some y /\ role_of y = role_of x /\ numslots y = 0) st.
Proof.
  intros Hw Hx. unfold clusterDelNodeSlots. eapply wp_step; [by eapply (del_slots_loop_ok (CLUSTER_SLOTS E)); [..|apply all_slots_range]|]. cbn beta. intros _ st' (Hw' & Hf & Ho). apply wp_ret. split_and!; [done|done|]. destruct (sframe_node _ _ _ _ Hf Hx) as (y & Hy & Hr & _). exists y. split_and!; [done|done|].
  apply (numslots_none (CLUSTER_SLOTS E) st' n); [done|done|]. intros j Hj. rewrite Ho. case_bool_decide as H; [done|]. intros E'. apply H. split; [done|by apply in_all_slots].
Qed.

Definition safe (N : Z) (st st' : clusterState) : Prop := wf N st' /\ keeps st st'.

(** A node that is not a master, and not this one, moves to a master. *)
Lemma follow_ok N st n x m : wf N st -> n <> myself st -> nodes st !! n = Some x -> nodeInHandshake x = false -> nodeIsMaster x = false -> joined st m ->
  wp (_ ← match slaveof x with Some old => _ ← clusterNodeRemoveSlave old n; mret tt | None => mret tt end;
      _ ← clusterNodeAddSlave m n;
      _ ← update n (fun x => with_slaveof x (Some m));
      clusterDoBeforeSleep CLUSTER_TODO_SAVE_CONFIG) (fun _ => safe N st) st.
Proof.
  intros Hw Hne Hx Hh Hm Hk. eapply wp_step; [apply drop_from_ok; by eapply slaveof_known|]. cbn beta. intros _ st1 (Hf1 & Hr1 & _). eapply wp_step; [apply add_slave_ok, roles_dom, (keeps_known st); [by apply rframe_keeps|by apply joined_known]|]. cbn beta. intros _ st2 (Hf2 & Hr2 & _). rewrite Hr1 in Hr2.
  pose proof (transitivity Hf1 Hf2) as Hf. change (alter (add_slave n) m) with (add_to (Some m) n) in Hr2. assert (is_Some (roles st2 !! n)) as [r Hr] by (apply roles_dom, (keeps_known st); [by apply rframe_keeps|by eapply node_known]). destruct (roles_known _ _ _ Hr) as (y & Hy & Hry).
  assert (nodeIsMaster y = false /\ nodeIsSlave y = nodeIsSlave x) as [Hym Hys].
  { rewrite Hr2, lookup_add_to, lookup_drop_from, (roles_lookup _ _ _ Hx) in Hr. cbn [fmap option_fmap option_map] in Hr. injection Hr as Hr. rewrite <- Hry in Hr. clear Hry. destruct (decide _), (decide _); unfold add_slave, drop_slave, role_of in Hr; cbn in Hr; injection Hr as _ _ ? ? _; split; cbn in *; congruence. }
  apply wp_bind, (update_alter _ _ (set_place (Some m) false (nodeIsSlave x)) y); [done|done|done|same_hand|unfold role_of, set_place; cbn; by rewrite <- Hys, <- Hym|]. intros st3 Hf3 _ Hr3 _. apply wp_modify. set (st4 := set_todo st3 _).
  assert (rframe st st4) as Hf4 by (etransitivity; [exact Hf|]; etransitivity; [exact Hf3|]; by constructor). split; [|by apply rframe_keeps]. apply (wf_relinked N st _ n x (Some m) false (nodeIsSlave x)); try done.
  - by intros ? [= <-].
  - rewrite (proj1 (node_role N st n x Hw Hx Hh)), Hm. done.
  - intros _. by eapply (wf_idle _ _ Hw _ _ Hx).
  - cbn. rewrite Hr3, Hr2. apply relinked_before.
Qed.

#[global] Instance safe_transitive N : Transitive (safe N).
Proof. intros a b c [_ ?] [? ?]. split; [done|by etransitivity]. Qed.

(** A master turns slave: it loses its slots first. *)
Lemma demote_ok E st n x : wf (CLUSTER_SLOTS E) st -> n <> myself st -> nodes st !! n = Some x ->
  wp (if nodeIsMaster x then
        _ ← clusterDelNodeSlots E n;
        _ ← update n (fun x => set_flag (clear_flag x (Z.lor CLUSTER_NODE_MASTER CLUSTER_NODE_MIGRATE_TO)) CLUSTER_NODE_SLAVE);
        clusterDoBeforeSleep (Z.lor CLUSTER_TODO_SAVE_CONFIG CLUSTER_TODO_UPDATE_STATE)
      else mret tt) (fun _ st' => safe (CLUSTER_SLOTS E) st st' /\ exists y, nodes st' !! n = Some y /\ nodeIsMaster y = false /\ nodeInHandshake y = nodeInHandshake x) st.
Proof.
  intros Hw Hne Hx. destruct (nodeIsMaster x) eqn:Em; [|apply wp_ret; split; [by split|eauto]]. destruct (master_slaveof _ st _ x Hw Hx Em) as [Hso _]. assert (nodeInHandshake x = false) as Hh by (eapply placed_joined; eauto). eapply wp_step; [by apply del_node_slots_ok|]. cbn beta. intros _ st1 (Hw1 & Hf1 & y & Hy & Hr & Hz). assert (slaveof y = None /\ nodeInHandshake y = nodeInHandshake x) as [Hso' Hyh] by (unfold role_of in Hr; split; congruence).
  apply wp_bind, (update_alter _ _ (set_place (slaveof y) false true) y); [done|done|done|same_hand|apply role_demoted|]. intros st2 Hf2 Hy2 Hr2 _. apply wp_modify. set (st3 := set_todo st2 _). assert (rframe st1 st3) as Hf3 by (etransitivity; [exact Hf2|]; by constructor).
  split; [split; [|etransitivity; [by apply sframe_keeps|by apply rframe_keeps]]|].
  - apply (wf_relinked _ st1 _ n y None false true); try done; [congruence|by rewrite (sf_me _ _ Hf1)|]. cbn. rewrite Hr2, Hso'. apply relinked_before.
  - eexists. split; [exact Hy2|]. pose proof (role_demoted y) as Hd. unfold role_of, set_place in Hd. injection Hd as Hd1 _ Hd2. split; [done|congruence].
Qed.

Lemma role_switch_ok E st n hdr : wf (CLUSTER_SLOTS E) st -> n <> myself st -> joined st n -> (known st (m_slaveof hdr) -> joined st (m_slaveof hdr)) -> wp (role_switch E n hdr) (fun _ => safe (CLUSTER_SLOTS E) st) st.
Proof.
  intros Hw Hne (x & Hx & Hh)%joined_node Hmh. unfold role_switch. destruct (m_slaveof hdr =? 0). { eapply wp_mono; [by eapply as_master_ok|]. cbn beta. intros _ st' (? & ? & _). split; [done|by apply rframe_keeps]. }
  apply wp_bind, wp_gets. apply wp_bind, (wp_deref _ x); [done|]. eapply wp_step; [by apply demote_ok|]. cbn beta. intros _ st1 ([Hw1 Hk1] & y & Hy & Hm & Hyh). apply wp_bind, (wp_deref _ y); [done|]. destruct (nodes st !! m_slaveof hdr) as [z|] eqn:Ez; [|by apply wp_ret]. case_bool_decide; [by apply wp_ret|].
  eapply wp_mono; [apply (follow_ok (CLUSTER_SLOTS E) st1 n y); [done|by rewrite (proj1 Hk1)|done|congruence|done|eapply keeps_joined; [done|]; by eapply Hmh, node_known]|]. cbn beta. intros _ st2 H2. by apply (transitivity (R := safe _) (conj Hw1 Hk1) H2).
Qed.

Lemma del_keys_loop_ok js : forall st, wp (del_keys_loop js) (fun _ st' => (myself st', nodes st', tables st') = (myself st, nodes st, tables st) /\ effects st' = effects st ++ map DelKeysInSlot js) st.
Proof.
  induction js as [|j js IH]; intros st; cbn [del_keys_loop map]; [apply wp_ret; split; [done|by rewrite app_nil_r]|]. apply wp_bind, wp_modify. eapply wp_mono; [apply IH|]. cbn beta. intros _ st' [Hv He]. split; [by rewrite Hv|]. rewrite He. cbn. by rewrite <- app_assoc.
Qed.

Lemma view_keeps st st' : view st' = view st -> keeps st st'.
Proof. intros [= H1 H2 _ _]. split; [done|]. by rewrite !hands_roles, H2. Qed.

(** The master this node follows, or the node itself. *)
Definition my_master (st : clusterState) : option name := match nodes st !! myself st with Some x => if nodeIsMaster x then Some (myself st) else slaveof x | None => None end.
Lemma my_master_known N st : wf N st -> exists c, my_master st = Some c /\ known st c.
Proof.
  intros Hw. destruct (ro_me _ _ (wf_roles _ _ Hw)) as (r & (x & Hx & <-)%roles_known & _). unfold my_master. rewrite Hx. destruct (self_role N st x Hw Hx) as [_ Hs]. destruct (nodeIsMaster x); [exists (myself st); split; [done|by eapply node_known]|]. destruct (slaveof x) as [m|] eqn:Em; [|by destruct Hs]. exists m. split; [done|]. apply roles_dom. by eapply slaveof_known.
Qed.

Lemma filter_empty (f : Z -> bool) l : (zlen (List.filter f l) =? 0) = forallb (fun k => negb (f k)) l.
Proof. induction l as [|a l IH]; [done|]. cbn. destruct (f a); cbn; [|done]. rewrite zlen_cons. apply Z.eqb_neq. unfold zlen. lia. Qed.

(** What a claim of slots with an epoch does: the yielding slots go to the claimer; a node
    whose master (or which itself) lost its last slot becomes a slave of the claimer;
    otherwise the keys of the slots it lost are deleted. *)
Definition claim_outcome (E : env) (from : name) (epoch : Z) (claimed : list Z) (st st' : clusterState) : Prop :=
  let lost := existsb (fun k => yields st from epoch claimed k && bool_decide (owner (tables st) !! k = my_master st)) (all_slots E) in
  let bare := forallb (fun k => negb (bool_decide (owner (tables st') !! k = my_master st))) (all_slots E) in
  (forall k, owner (tables st') !! k = if bool_decide (yields st from epoch claimed k = true /\ k ∈ all_slots E) then Some from else owner (tables st) !! k) /\
  if lost && bare then (exists y, nodes st' !! myself st = Some y /\ nodeIsSlave y = true /\ slaveof y = Some from) /\ (exists l, effects st' = effects st ++ SetMaster from :: l)
  else roles st' = roles st /\ effects st' = effects st ++ map DelKeysInSlot (List.filter (fun k => yields st from epoch claimed k && (bool_decide (owner (tables st) !! k = Some (myself st)) && negb (countKeysInSlot E k =? 0))) (all_slots E)).

Lemma update_config_ok E from epoch claimed st x : wf (CLUSTER_SLOTS E) st -> from <> myself st -> nodes st !! from = Some x -> nodeIsMaster x = true -> 8 * zlen claimed = CLUSTER_SLOTS E ->
  wp (clusterUpdateSlotsConfigWith E from epoch claimed) (fun _ st' => safe (CLUSTER_SLOTS E) st st' /\ configEpoch <$> nodes st' = configEpoch <$> nodes st /\ claim_outcome E from epoch claimed st st') st.
Proof.
  intros Hw Hne Hx Hs Hc. destruct (my_master_known _ st Hw) as (c & Hm & Hkc). destruct (ro_me _ _ (wf_roles _ _ Hw)) as (r & (m & Hme & <-)%roles_known & _). unfold clusterUpdateSlotsConfigWith. apply wp_bind, wp_gets. apply wp_bind, wp_bind, wp_gets, (wp_deref _ m); [done|]. rewrite (proj2 (Z.eqb_neq from (myself st)) Hne).
  assert ((if nodeIsMaster m then Some (myself st) else slaveof m) = my_master st) as -> by (unfold my_master; by rewrite Hme). eapply wp_step; [eapply (update_slots_loop_ok (CLUSTER_SLOTS E)); [done..|apply nodup_up_to|apply all_slots_range]|]. cbn beta. intros [nm d] st1 (Hw1 & Hf1 & Ho & Hnm & Hd). cbn in Hnm, Hd.
  pose proof (sframe_keeps _ _ Hf1) as Hk1. destruct (known_node st1 c (keeps_known _ _ _ Hk1 Hkc)) as [c1 Hc1]. set (lost := existsb _ _) in Hnm. apply wp_step with (fun b st2 => st2 = st1 /\ b = lost && (numslots c1 =? 0)).
  { rewrite Hnm. destruct lost; [|by apply wp_ret]. rewrite Hm. apply wp_bind, (wp_deref _ c1); [done|]. by apply wp_ret. }
  intros b ? [-> ->]. assert ((numslots c1 =? 0) = forallb (fun k => negb (bool_decide (owner (tables st1) !! k = my_master st))) (all_slots E)) as Hbare. { rewrite (numslots_count _ st1 c c1 Hw1 Hc1), filter_empty, Hm. done. }
  destruct (sframe_node _ _ _ _ Hf1 Hme) as (m1 & Hme1 & Hrm1 & _). destruct (lost && (numslots c1 =? 0)) eqn:El.
  - assert (numslots m1 = 0) as Hz.
    { destruct (nodeIsMaster m) eqn:Em; [|apply (wf_idle _ _ Hw1 _ _ Hme1); unfold role_of in Hrm1; congruence]. unfold my_master in Hm. rewrite Hme, Em in Hm. injection Hm as <-. rewrite Hc1 in Hme1. injection Hme1 as <-. apply andb_true_iff in El as [_ El]. by apply Z.eqb_eq. }
    rewrite <- (sf_me _ _ Hf1) in Hme1. eapply wp_step; [eapply (set_master_ok _ E st1 from m1); [done|by rewrite (sf_me _ _ Hf1)|apply (keeps_joined st); [exact Hk1|]; apply (node_joined _ _ x); [exact Hx|]; apply (placed_joined (CLUSTER_SLOTS E) st from); auto|done|done]|]. cbn beta. intros _ st2 (Hw2 & Hf2 & [l He2] & y & Hy & Hys & Hym). rewrite (sf_me _ _ Hf1) in Hy. apply wp_modify. set (st3 := set_todo st2 _).
    split_and!; [split; [by apply (wf_view _ st2)|by apply (transitivity (R := keeps) Hk1 (rframe_keeps _ _ Hf2))]|cbn; by rewrite (rf_epoch _ _ Hf2), (sf_epoch _ _ Hf1)|]. split; [intros k; cbn; by rewrite (rf_owner _ _ Hf2), Ho|]. cbn. rewrite (rf_owner _ _ Hf2). fold lost. rewrite <- Hbare, El. split; [eauto|]. exists l. by rewrite He2, (sf_effects _ _ Hf1).
  - eapply wp_mono; [apply del_keys_loop_ok|]. cbn beta. intros _ st2 [[= H1 H2 H3] He]. assert (view st2 = view st1) as Hv by (unfold view; by rewrite H1, H2, H3). split_and!; [split; [by apply (wf_view _ st1)|by apply (transitivity (R := keeps) Hk1 (view_keeps _ _ Hv))]|by rewrite H2, (sf_epoch _ _ Hf1)|].
    split; [intros k; by rewrite H3, Ho|]. fold lost. rewrite H3, <- Hbare, El. split; [by rewrite H2, (sf_roles _ _ Hf1)|]. by rewrite He, Hd, (sf_effects _ _ Hf1).
Qed.
End ClusterOps.
