(* ===== verification/ClusterCalm.v ===== *)
(** * Handlers of the cluster bus that change neither roles nor slots

    [calm] handlers return and keep what the invariant [wf] of [ClusterOps] looks at: the
    nodes with their roles, their shares of the slots and the owner table. *)
From stdpp Require Import gmap.
From S2P Require Import Prelude StateM Cluster ClusterOps.

Module ClusterCalm.
Import Cluster ClusterOps.

Section Calm.
Context (N : Z) (st0 : clusterState) (Hw : wf N st0).

Definition calm {A} (m : C A) : Prop := forall st, view st = view st0 -> wp m (fun _ st' => view st' = view st0) st.

(** What is seen of a node stays true as long as the view does. *)
Definition seen (n : name) (x : clusterNode) : Prop := roles st0 !! n = Some (role_of x) /\ (share <$> nodes st0) !! n = Some (share x).

Lemma seen_node st n x : view st = view st0 -> nodes st !! n = Some x -> seen n x.
Proof. intros [= _ H2 H3 _] Hx. split; [by rewrite <- H2, lookup_fmap, Hx|by rewrite <- H3, lookup_fmap, Hx]. Qed.
Lemma known_seen st n : view st = view st0 -> known st0 n -> exists x, nodes st !! n = Some x /\ seen n x.
Proof. intros Hv Hn. destruct (known_node st n) as [x Hx]; [eapply keeps_known; [by apply (view_keeps st0)|done]|]. exists x. split; [done|by eapply seen_node]. Qed.
Lemma seen_known n x : seen n x -> known st0 n.
Proof. intros [H _]. apply roles_dom. eauto. Qed.
Lemma seen_slaveof n x m : seen n x -> slaveof x = Some m -> known st0 m.
Proof. intros [H _] Hm. apply roles_dom. by apply (ro_slaveof _ _ (wf_roles _ _ Hw) _ _ _ H). Qed.
Lemma seen_slave n x s : seen n x -> s ∈ slaves x -> known st0 s.
Proof. intros [H _] Hs. apply (ro_slaves _ _ (wf_roles _ _ Hw) _ _ s H) in Hs as (z & Hz & _). apply roles_dom. eauto. Qed.
Lemma me_known : known st0 (myself st0).
Proof. destruct (ro_me _ _ (wf_roles _ _ Hw)) as (r & Hr & _). apply roles_dom. eauto. Qed.
Lemma slot_owner_known j n : owner (tables st0) !! j = Some n -> known st0 n.
Proof. intros H. destruct (owner_known N st0 j n Hw H) as [x Hx]. by eapply node_known. Qed.

Lemma calm_ret {A} (a : A) : calm (mret a).
Proof. intros st Hv. by apply wp_ret. Qed.
Lemma calm_bind {A B} (m : C A) (k : A -> C B) : calm m -> (forall a, calm (k a)) -> calm (m ≫= k).
Proof. intros Hm Hk st Hv. eapply wp_step; [by apply Hm|]. cbn beta. intros a st' Hv'. by apply Hk. Qed.
Lemma calm_gets {A B} (f : clusterState -> A) (k : A -> C B) : (forall st, view st = view st0 -> calm (k (f st))) -> calm (gets f ≫= k).
Proof. intros H st Hv. apply wp_bind, wp_gets. by apply H. Qed.
Lemma calm_me {B} (k : name -> C B) : calm (k (myself st0)) -> calm (gets myself ≫= k).
Proof. intros H. apply calm_gets. by intros st [= -> _ _ _]. Qed.
Lemma calm_owner {B} j (k : option name -> C B) : calm (k (owner (tables st0) !! j)) -> calm (slot_owner j ≫= k).
Proof. intros H. apply calm_gets. by intros st [= _ _ _ ->]. Qed.
Lemma calm_lookup {B} n (k : option name -> C B) : (known st0 n -> calm (k (Some n))) -> calm (k None) -> calm (clusterLookupNode n ≫= k).
Proof. intros H1 H2. apply calm_gets. intros st Hv. destruct (nodes st !! n) as [x|] eqn:Hx; [|done]. by eapply H1, seen_known, seen_node. Qed.
Lemma calm_modify (f : clusterState -> clusterState) : (forall st, view (f st) = view st) -> calm (modify f).
Proof. intros H st Hv. apply wp_modify. congruence. Qed.
Lemma calm_lift {A B} (m : res A) a (k : A -> C B) : m = Ok a -> calm (k a) -> calm (lift m ≫= k).
Proof. intros Hm H st Hv. apply wp_bind. eapply wp_lift; [done|]. by apply H. Qed.
Lemma calm_deref {B} n (k : clusterNode -> C B) : known st0 n -> (forall x, seen n x -> calm (k x)) -> calm (deref n ≫= k).
Proof. intros Hn H st Hv. destruct (known_seen st n Hv Hn) as (x & Hx & Hs). apply wp_bind, (wp_deref _ x); [done|]. by apply H. Qed.
Lemma calm_self {B} (k : clusterNode -> C B) : (forall x, seen (myself st0) x -> calm (k x)) -> calm (self ≫= k).
Proof. intros H st Hv. pose proof Hv as [= Hm _ _ _]. destruct (known_seen st _ Hv me_known) as (x & Hx & Hs). apply wp_bind, wp_bind, wp_gets, (wp_deref _ x); [by rewrite Hm|]. by apply H. Qed.
Lemma calm_update n f : known st0 n -> (forall x, role_of (f x) = role_of x /\ share (f x) = share x) -> calm (update n f).
Proof.
  intros Hn Hf st Hv. destruct (known_seen st n Hv Hn) as (x & Hx & _). apply (wp_update _ _ x); [done|]. rewrite <- Hv. unfold view. cbn. destruct (Hf x) as [H1 H2]. by rewrite (fmap_reinsert role_of _ _ x), (fmap_reinsert share _ _ x).
Qed.
Lemma calm_nodes {B} (k : list (name * clusterNode) -> C B) : (forall l, Forall (fun p => seen p.1 p.2) l -> calm (k l)) -> calm (all_nodes ≫= k).
Proof. intros H. apply calm_gets. intros st Hv. apply H. apply list.Forall_forall. intros [n x] Hin%elem_of_map_to_list. by eapply seen_node. Qed.
Lemma calm_if {A} (b : bool) (m1 m2 : C A) : (b = true -> calm m1) -> (b = false -> calm m2) -> calm (if b then m1 else m2).
Proof. destruct b; auto. Qed.

Lemma calm_deref_last n : known st0 n -> calm (deref n).
Proof. intros Hn st Hv. destruct (known_seen st n Hv Hn) as (x & Hx & _). by apply (wp_deref _ x). Qed.

Ltac known_tac := eauto using seen_known, seen_slaveof, me_known, slot_owner_known.
Ltac same_place := intros; first [done | split; [|done]];
  repeat match goal with
  | |- role_of ?y = _ => rewrite role_set_flag by done
  | |- role_of ?y = _ => rewrite role_clear_flag by done
  | |- role_of (with_fail_time ?y ?t) = _ => change (role_of (with_fail_time y t)) with (role_of y)
  | |- role_of (with_link ?y ?b) = _ => change (role_of (with_link y b)) with (role_of y)
  | |- role_of (with_addr ?y ?b) = _ => change (role_of (with_addr y b)) with (role_of y)
  end; done.
Ltac calm_step :=
  cbv zeta;
  match goal with
  | |- calm (mret _) => apply calm_ret
  | |- calm (modify _) => apply calm_modify; intros; try done; repeat case_match; done
  | |- calm (call _) => apply calm_modify; done
  | |- calm (clusterDoBeforeSleep _) => apply calm_modify; done
  | |- calm (clusterSaveConfigOrDie _) => apply calm_modify; done
  | |- calm (clusterSendMessage _ _) => apply calm_modify; done
  | |- calm (set_auth _) => apply calm_modify; done
  | |- calm (clusterLogCantFailover _) => apply calm_modify; done
  | |- calm (update _ _) => apply calm_update; [known_tac|same_place]
  | |- calm (deref _ ≫= _) => apply calm_deref; [known_tac|intros ? ?]
  | |- calm (deref _) => apply calm_deref_last; known_tac
  | |- calm (self ≫= _) => apply calm_self; intros ? ?
  | |- calm (gets myself ≫= _) => apply calm_me
  | |- calm (slot_owner _ ≫= _) => apply calm_owner
  | |- calm (clusterLookupNode _ ≫= _) => apply calm_lookup; [intros ?|]
  | |- calm (all_nodes ≫= _) => apply calm_nodes; intros ? ?
  | |- calm (gets _ ≫= _) => apply calm_gets; intros ? ?
  | |- calm (gets _) => intros ? ?; by apply wp_gets
  | |- calm (_ ≫= _) => apply calm_bind; [|intros ?]
  | |- calm (match ?x with _ => _ end) => destruct x eqn:?
  | |- calm _ => solve [eauto with calm]
  end.
Ltac calm_def f := intros; unfold f; repeat calm_step.

Lemma calm_add_report E n s : known st0 n -> calm (clusterNodeAddFailureReport E n s).
Proof. calm_def clusterNodeAddFailureReport. Qed.
Lemma calm_cleanup E n : known st0 n -> calm (clusterNodeCleanupFailureReports E n).
Proof. calm_def clusterNodeCleanupFailureReports. Qed.
Create HintDb calm.
#[local] Hint Resolve seen_known seen_slaveof me_known slot_owner_known calm_add_report calm_cleanup : calm.
Lemma calm_del_report E n s : known st0 n -> calm (clusterNodeDelFailureReport E n s).
Proof. calm_def clusterNodeDelFailureReport. Qed.
Lemma calm_count_reports E n : known st0 n -> calm (clusterNodeFailureReportsCount E n).
Proof. calm_def clusterNodeFailureReportsCount. Qed.
Lemma calm_build_hdr E d : calm (clusterBuildMessageHdr E d).
Proof. calm_def clusterBuildMessageHdr. Qed.
Lemma calm_broadcast m : calm (clusterBroadcastMessage m).
Proof. calm_def clusterBroadcastMessage. rename H into Hl. induction l as [|[n x] l IH]; cbn [broadcast_loop]; [apply calm_ret|]. apply list.Forall_cons in Hl as [_ Hl]. repeat calm_step. Qed.
#[local] Hint Resolve calm_del_report calm_count_reports calm_build_hdr calm_broadcast : calm.
Lemma calm_send_fail E n : calm (clusterSendFail E n).
Proof. calm_def clusterSendFail. Qed.
Lemma calm_send_update E a n : known st0 a -> known st0 n -> calm (clusterSendUpdate E a n).
Proof. calm_def clusterSendUpdate. Qed.
Lemma calm_request_auth E : calm (clusterRequestFailoverAuth E).
Proof. calm_def clusterRequestFailoverAuth. Qed.
Lemma calm_send_auth E n : known st0 n -> calm (clusterSendFailoverAuth E n).
Proof. calm_def clusterSendFailoverAuth. Qed.
Lemma calm_send_pong E n : calm (send_pong E n).
Proof. calm_def send_pong. Qed.
#[local] Hint Resolve calm_send_fail calm_send_update calm_request_auth calm_send_auth calm_send_pong : calm.
Lemma calm_broadcast_pong E b : calm (clusterBroadcastPong E b).
Proof. calm_def clusterBroadcastPong. rename H into Hl. induction l as [|[n x] l IH]; cbn [broadcast_pong_loop]; [apply calm_ret|]. apply list.Forall_cons in Hl as [_ Hl]. repeat calm_step. Qed.
Lemma calm_mark_failing E n : known st0 n -> calm (markNodeAsFailingIfNeeded E n).
Proof. calm_def markNodeAsFailingIfNeeded. Qed.
Lemma calm_next_epoch : calm next_epoch.
Proof. calm_def next_epoch. Qed.
#[local] Hint Resolve calm_broadcast_pong calm_mark_failing calm_next_epoch : calm.
Lemma calm_collision n : known st0 n -> calm (clusterHandleConfigEpochCollision n).
Proof. calm_def clusterHandleConfigEpochCollision. Qed.
Lemma calm_bump : calm clusterBumpConfigEpochWithoutConsensus.
Proof. calm_def clusterBumpConfigEpochWithoutConsensus. Qed.
Lemma calm_reset_mf E : calm (resetManualFailover E).
Proof. calm_def resetManualFailover. Qed.
#[local] Hint Resolve calm_collision calm_reset_mf : calm.
Lemma calm_uncovered js : calm (uncovered_loop js).
Proof. induction js as [|j js IH]; cbn [uncovered_loop]; repeat calm_step. Qed.
#[local] Hint Resolve calm_uncovered : calm.
Lemma calm_update_state E : calm (clusterUpdateState E).
Proof. calm_def clusterUpdateState. Qed.

(** Claims are bitmaps of the right length. *)
Lemma calm_newer claimed epoch js : 8 * zlen claimed = N -> (forall j, j ∈ js -> 0 <= j < N) -> calm (newer_owner_loop claimed epoch js).
Proof.
  intros Hc. induction js as [|j js IH]; intros Hj; cbn [newer_owner_loop]; [apply calm_ret|]. eapply calm_lift; [apply test_bit; specialize (Hj j ltac:(left)); lia|]. assert (calm (newer_owner_loop claimed epoch js)) by (apply IH; intros k Hk; apply Hj; by right). repeat calm_step.
Qed.
Lemma calm_stale E n claimed epoch js : known st0 n -> 8 * zlen claimed = N -> (forall j, j ∈ js -> 0 <= j < N) -> calm (stale_claim_loop E n claimed epoch js).
Proof.
  intros Hn Hc. induction js as [|j js IH]; intros Hj; cbn [stale_claim_loop]; [apply calm_ret|]. eapply calm_lift; [apply test_bit; specialize (Hj j ltac:(left)); lia|]. assert (calm (stale_claim_loop E n claimed epoch js)) by (apply IH; intros k Hk; apply Hj; by right). repeat calm_step.
Qed.
Lemma calm_rank me off l : (forall s, s ∈ l -> known st0 s) -> forall r, calm (rank_loop me off l r).
Proof.
  induction l as [|s l IH]; intros Hl r; cbn [rank_loop]; [apply calm_ret|]. assert (known st0 s) by (apply Hl; left). assert (forall r, calm (rank_loop me off l r)) by (apply IH; intros; apply Hl; by right). repeat calm_step; done.
Qed.
#[local] Hint Resolve calm_update_state : calm.
Lemma calm_slave_rank E : (exists r, roles st0 !! myself st0 = Some r /\ r_slave r = true) -> calm (clusterGetSlaveRank E).
Proof.
  intros (r & Hr & Hs). unfold clusterGetSlaveRank. apply calm_me, calm_self. intros x Hx. assert (nodeIsSlave x = true) as -> by (destruct Hx as [Hx _]; rewrite Hr in Hx; by injection Hx as ->). apply (calm_lift _ tt); [done|]. repeat calm_step. apply calm_rank. intros s' Hs'. by eapply seen_slave.
Qed.
Lemma calm_auth E n hdr : CLUSTER_SLOTS E = N -> known st0 n -> 8 * zlen (myslots hdr) = N -> calm (clusterSendFailoverAuthIfNeeded E n hdr).
Proof.
  intros HN Hn Hc. assert (calm (newer_owner_loop (myslots hdr) (m_configEpoch hdr) (all_slots E))) by (apply calm_newer; [done|rewrite <- HN; apply all_slots_range]). unfold clusterSendFailoverAuthIfNeeded. repeat calm_step.
Qed.
Lemma calm_schedule E : (exists r, roles st0 !! myself st0 = Some r /\ r_slave r = true) -> calm (schedule_election E).
Proof. intros H. pose proof (calm_slave_rank E H). calm_def schedule_election. Qed.
Lemma calm_check_timeout E : calm (manualFailoverCheckTimeout E).
Proof. calm_def manualFailoverCheckTimeout. Qed.
Lemma calm_manual E : calm (clusterHandleManualFailover E).
Proof. calm_def clusterHandleManualFailover. Qed.
Lemma calm_clear_failure E n x st : known st0 n -> view st = view st0 -> nodes st !! n = Some x -> nodeFailed x = true -> wp (clearNodeFailureIfNeeded E n) (fun _ st' => view st' = view st0) st.
Proof.
  intros Hn Hv Hx Hf. unfold clearNodeFailureIfNeeded. apply wp_bind, (wp_deref _ x); [done|]. rewrite Hf. apply wp_bind, (wp_lift _ tt); [done|]. revert st Hv Hx. cbv zeta. intros st Hv _. match goal with |- wp ?m _ _ => change (wp m (fun _ st' => view st' = view st0) st); enough (calm m) as Hm by (by apply Hm) end. repeat calm_step.
Qed.
Lemma calm_pong E on : (forall n, on = Some n -> known st0 n) -> calm (pong_arrived E on).
Proof.
  intros Hon. unfold pong_arrived. destruct on as [n|]; [|apply calm_ret]. specialize (Hon n eq_refl). apply calm_bind; [repeat calm_step|]. intros _ st Hv. destruct (known_seen st n Hv Hon) as (x & Hx & _). apply wp_bind, (wp_deref _ x); [done|]. destruct (nodeTimedOut x).
  - match goal with |- wp ?m _ _ => enough (calm m) as Hm by (by apply Hm) end. repeat calm_step.
  - destruct (nodeFailed x) eqn:Hf; [by eapply calm_clear_failure|by apply wp_ret].
Qed.
Lemma calm_header E from hdr : (forall n, from = Some n -> known st0 n) -> calm (process_header E from hdr).
Proof. intros Hf. unfold process_header. destruct from as [n|]; [|apply calm_ret]. specialize (Hf n eq_refl). repeat calm_step. Qed.
Lemma calm_update_address E on n hdr : known st0 n -> calm (nodeUpdateAddressIfNeeded E on n hdr).
Proof. calm_def nodeUpdateAddressIfNeeded. Qed.
Lemma calm_learn E b : calm (learn_my_address E b).
Proof. calm_def learn_my_address. Qed.
Lemma calm_blacklist E n : calm (clusterBlacklistExists E n).
Proof. calm_def clusterBlacklistExists. Qed.
Lemma calm_blacklist_add E n : calm (clusterBlacklistAddNode E n).
Proof. calm_def clusterBlacklistAddNode. Qed.
Lemma calm_drop_reports E n l : Forall (fun p => seen p.1 p.2) l -> calm (drop_reports_loop E n l).
Proof. induction l as [|[m x] l IH]; intros Hl; cbn [drop_reports_loop]; [apply calm_ret|]. apply list.Forall_cons in Hl as [Hm Hl]. specialize (IH Hl). cbn in Hm. repeat calm_step. Qed.
Lemma calm_fail E from about : calm (process_fail E from about).
Proof. calm_def process_fail. Qed.
Lemma calm_ack n e : known st0 n -> calm (process_ack n e).
Proof. calm_def process_ack. Qed.
Lemma calm_mfstart E n : known st0 n -> calm (process_mfstart E n).
Proof. calm_def process_mfstart. Qed.
End Calm.

Lemma view_safe N st st' : wf N st -> view st' = view st -> safe N st st'.
Proof. intros Hw Hv. split; [by eapply wf_view|by apply view_keeps]. Qed.
Lemma calm_safe {A} N st0 (m : C A) st : wf N st0 -> view st = view st0 -> calm st0 m -> wp m (fun _ => safe N st0) st.
Proof. intros Hw Hv Hm. eapply wp_mono; [by apply Hm|]. cbn beta. intros _ st' Hv'. by apply view_safe. Qed.
Lemma calm_then {A B} st0 (m : C A) (k : A -> C B) Q st : calm st0 m -> view st = view st0 -> (forall a st1, view st1 = view st0 -> wp (k a) Q st1) -> wp (m ≫= k) Q st.
Proof. intros Hm Hv Hk. eapply wp_step; [by apply Hm|]. cbn beta. auto. Qed.
Lemma self_node N st : wf N st -> exists x, nodes st !! myself st = Some x.
Proof. intros Hw. destruct (ro_me _ _ (wf_roles _ _ Hw)) as (r & (x & Hx & _)%roles_known & _). eauto. Qed.
Lemma wp_self x Q st : nodes st !! myself st = Some x -> Q x st -> wp self Q st.
Proof. intros Hx HQ. apply wp_bind, wp_gets. by apply (wp_deref _ x). Qed.
End ClusterCalm.
