(* ===== verification/ClusterJoin.v ===== *)
(** * Nodes that join and leave

    Adding, renaming and deleting entries of the table of nodes keeps the invariant [wf] of
    [ClusterOps]; with it, processing a gossip section and the end of a handshake return,
    and nodes that are not in handshake stay. *)
From stdpp Require Import gmap.
From S2P Require Import Prelude StateM Cluster ClusterOps ClusterCalm.

Module ClusterJoin.
Import Cluster ClusterOps ClusterCalm.

(** ** Removing a node from the replication tree *)

Definition without (n : name) (r : role) : role := mk_role (remove_first n (r_slaves r)) (if decide (r_slaveof r = Some n) then None else r_slaveof r) (r_master r) (r_slave r) (r_hand r).
Definition removed (n : name) (R R' : gmap name role) : Prop := forall k, R' !! k = if decide (k = n) then None else without n <$> R !! k.

Lemma removed_ok me n R R' : roles_ok me R -> n <> me -> (forall r, R !! me = Some r -> r_slaveof r <> Some n) -> removed n R R' -> roles_ok me R'.
Proof.
  intros [O1 O2 O3 O6 O4 (rm & Om & Oh & Ox)] Hne Hme Hr. assert (forall k r', R' !! k = Some r' -> k <> n /\ exists r, R !! k = Some r /\ r' = without n r) as Hinv. { intros k r' Hk. rewrite Hr in Hk. destruct (decide (k = n)); [done|]. apply fmap_Some in Hk as (r & Hk & ->). eauto. }
  assert (forall k r, k <> n -> R !! k = Some r -> R' !! k = Some (without n r)) as Hfwd by (intros k r Hk H; by rewrite Hr, decide_False, H by done). constructor.
  - intros k r' m (Hk & r & Hkr & ->)%Hinv. cbn. intros Hm. destruct (decide (r_slaveof r = Some n)) as [|Hs]; [done|]. destruct (O1 _ _ _ Hkr Hm) as [y Hy]. exists (without n y). apply Hfwd; [congruence|done].
  - intros m r' s (Hm & r & Hmr & ->)%Hinv. cbn. rewrite (in_remove_first n _ s (O3 _ _ Hmr)), (O2 _ _ s Hmr). split.
    + intros [(z & Hz & Hzm) Hsn]. exists (without n z). split; [by apply Hfwd|]. cbn. rewrite decide_False by congruence. done.
    + intros (z' & (Hs & z & Hz & ->)%Hinv & Hzm). cbn in Hzm. destruct (decide (r_slaveof z = Some n)); [done|]. eauto.
  - intros m r' (Hm & r & Hmr & ->)%Hinv. apply nodup_remove_first. by eapply O3.
  - intros k r' (Hk & r & Hkr & ->)%Hinv. cbn. intros Hh. rewrite (O6 _ _ Hkr Hh). done.
  - intros k r' (Hk & r & Hkr & ->)%Hinv. cbn. intros Hh. destruct (O4 _ _ Hkr Hh) as [H1 H2]. split; [done|]. intros Hm. rewrite (H2 Hm). by destruct (decide _).
  - exists (without n rm). split; [by apply Hfwd|]. cbn. split; [done|]. intros Hm. rewrite decide_False by (by apply Hme). by apply Ox.
Qed.

(** ** Unassigning *)

(** Like [sframe], but open slots may close. *)
Definition same_roles (st st' : clusterState) : Prop := myself st' = myself st /\ roles st' = roles st.
Lemma sframe_roles st st' : sframe st st' -> same_roles st st'.
Proof. intros [H1 H2 _ _ _]. done. Qed.
Lemma view_roles st st' : view st' = view st -> same_roles st st'.
Proof. intros [= H1 H2 _ _]. by split. Qed.
#[global] Instance same_roles_preorder : PreOrder same_roles.
Proof. split; [done|]. intros a b c [? ?] [? ?]. split; congruence. Qed.
Lemma same_roles_node st st' n x : same_roles st st' -> nodes st !! n = Some x -> exists y, nodes st' !! n = Some y /\ role_of y = role_of x.
Proof. intros [_ Hr] Hx. apply roles_known. by rewrite Hr, (roles_lookup _ _ _ Hx). Qed.

Lemma unassign_loop_ok N n js : forall st, wf N st ->
  wp (unassign_loop n js) (fun _ st' => wf N st' /\ same_roles st st' /\ forall k, owner (tables st') !! k = if bool_decide (owner (tables st) !! k = Some n /\ k ∈ js) then None else owner (tables st) !! k) st.
Proof.
  induction js as [|j js IH]; intros st Hw; cbn [unassign_loop].
  { apply wp_ret. split_and!; [done|done|]. intros k. rewrite bool_decide_false; [done|]. by intros [_ ?%elem_of_nil]. }
  apply wp_bind, wp_gets. apply wp_step with (fun _ st1 => view st1 = view st); [destruct (bool_decide _); [by apply wp_modify|by apply wp_ret]|]. intros _ st1 Hv1. apply wp_step with (fun _ st2 => view st2 = view st); [destruct (bool_decide _); [by apply wp_modify|by apply wp_ret]|]. intros _ st2 Hv2.
  assert (wf N st2) as Hw2 by (by eapply wf_view). assert (owner (tables st2) = owner (tables st)) as Ho2 by (by injection Hv2). destruct (bool_decide_reflect (owner (tables st) !! j = Some n)) as [Hu|Hu].
  - apply wp_bind. eapply wp_step; [by apply (del_slot_ok N st2 n); rewrite ?Ho2|]. cbn beta. intros _ st3 (Hw3 & Hf3 & Ho3). apply wp_ret. eapply wp_mono; [by apply IH|]. cbn beta. intros _ st4 (Hw4 & Hr4 & Ho4). split_and!; [done|etransitivity; [by apply view_roles|]; etransitivity; [by apply sframe_roles|done]|].
    intros k. rewrite Ho4, Ho3, Ho2. destruct (decide (k = j)) as [->|Hk]; [rewrite lookup_delete_eq, bool_decide_false by (by intros [? ?]); rewrite bool_decide_true; [done|split; [done|left]]|]. rewrite lookup_delete_ne by congruence. by rewrite (bool_decide_ext _ _ (other_in _ k j js Hk)).
  - apply wp_bind, wp_ret. eapply wp_mono; [by apply IH|]. cbn beta. intros _ st4 (Hw4 & Hr4 & Ho4). split_and!; [done|etransitivity; [by apply view_roles|done]|]. intros k. rewrite Ho4, Ho2. by rewrite (bool_decide_ext _ _ (skip_in (fun k => owner (tables st) !! k = Some n) k j js Hu)).
Qed.

(** ** Freeing a node *)

Definition orphan (r : role) : role := mk_role (r_slaves r) None (r_master r) (r_slave r) (r_hand r).
Lemma orphan_loop_ok l : forall st, (forall s, s ∈ l -> known st s) -> wp (orphan_loop l) (fun _ st' => rframe st st' /\ forall k, roles st' !! k = (fun r => if decide (k ∈ l) then orphan r else r) <$> roles st !! k) st.
Proof.
  induction l as [|s l IH]; intros st Hl; cbn [orphan_loop].
  { apply wp_ret. split; [done|]. intros k. destruct (roles st !! k); cbn [fmap option_fmap option_map]; [|done]. by rewrite decide_False by apply not_elem_of_nil. }
  destruct (known_node st s) as [x Hx]; [apply Hl; left|]. apply wp_bind, (update_alter _ _ orphan x); [same_hand..|]. intros st1 Hf1 _ Hr1 _. eapply wp_mono; [apply IH; intros s' Hs'; eapply keeps_known; [by apply rframe_keeps|apply Hl; by right]|]. cbn beta. intros _ st2 [Hf2 Hr2]. split; [by etransitivity|]. intros k. rewrite Hr2, Hr1, lookup_alter.
  destruct (decide (s = k)) as [->|Hne]; destruct (roles st !! k) as [r|]; cbn [fmap option_fmap option_map]; [|done| |done]; f_equal.
  - rewrite (decide_True (P := k ∈ k :: l)) by left. by destruct (decide (k ∈ l)).
  - destruct (decide (k ∈ l)) as [H|H]; [by rewrite decide_True by (by right)|]. rewrite decide_False; [done|]. rewrite elem_of_cons. intros [->|]; done.
Qed.

(** A state without a node that owns no slot. *)
Lemma wf_removed N st st1 n : wf N st -> n <> myself st -> (forall r, roles st !! myself st = Some r -> r_slaveof r <> Some n) -> (forall j, owner (tables st) !! j <> Some n) ->
  rframe st st1 -> removed n (roles st) (base.delete n (roles st1)) -> (forall k r r', roles st !! k = Some r -> roles st1 !! k = Some r' -> r_master r' = r_master r) -> wf N (set_nodes st1 (base.delete n (nodes st1))).
Proof.
  intros [W1 W2 W3] Hne Hme Ho [F1 F2 F3 F4 F5] Hr Hsl. constructor; cbn.
  - rewrite fmap_delete, F1. by eapply removed_ok.
  - rewrite fmap_delete, F2, F3. destruct W2 as [S1 S2 S3 S4]. constructor.
    + intros k s [Hk Hs]%lookup_delete_Some. by eapply S1.
    + intros k s j [Hk Hs]%lookup_delete_Some. by eapply S2.
    + intros k s [Hk Hs]%lookup_delete_Some. by eapply S3.
    + intros j k Hj. destruct (S4 _ _ Hj) as [? ?]. split; [done|]. rewrite lookup_delete_ne; [done|]. intros ->. by apply (Ho j).
  - intros k y [Hk Hy]%lookup_delete_Some Hs. assert ((share <$> nodes st) !! k = Some (share y)) as Hsh by (by rewrite <- F2, lookup_fmap, Hy). rewrite lookup_fmap in Hsh. apply fmap_Some in Hsh as (x & Hx & Hxy). injection Hxy as _ ->. apply (W3 k x Hx). rewrite <- Hs. symmetry. by apply (Hsl k (role_of x) (role_of y)); apply roles_lookup.
Qed.

Lemma free_cluster_node_ok N st n : wf N st -> known st n -> n <> myself st -> (forall r, roles st !! myself st = Some r -> r_slaveof r <> Some n) -> (forall j, owner (tables st) !! j <> Some n) ->
  wp (freeClusterNode n) (fun _ st' => wf N st' /\ myself st' = myself st /\ removed n (roles st) (roles st') /\ owner (tables st') = owner (tables st)) st.
Proof.
  intros Hw [x Hx]%known_node Hne Hme Ho. pose proof (wf_roles _ _ Hw) as Hok. unfold freeClusterNode. apply wp_bind, (wp_deref _ x); [done|]. assert (forall s, s ∈ slaves x <-> exists z, roles st !! s = Some z /\ r_slaveof z = Some n) as Hsl by (intros s; by apply (ro_slaves _ _ Hok n (role_of x) s (roles_lookup _ _ _ Hx))).
  eapply wp_step; [apply orphan_loop_ok; intros s (z & Hz & _)%Hsl; apply roles_dom; eauto|]. cbn beta. intros _ st1 [Hf1 Hr1]. destruct (known_node st1 n) as [x1 Hx1]; [eapply keeps_known; [by apply rframe_keeps|by eapply node_known]|]. apply wp_bind, (wp_deref _ x1); [done|].
  assert (role_of x1 = if decide (n ∈ slaves x) then orphan (role_of x) else role_of x) as Hrx. { pose proof (Hr1 n) as H. rewrite (roles_lookup _ _ _ Hx), (roles_lookup _ _ _ Hx1) in H. by injection H. }
  apply wp_step with (fun _ st2 => rframe st1 st2 /\ roles st2 = drop_from (slaveof x1) n (roles st1)).
  { destruct (nodeIsSlave x1) eqn:Es.
    - eapply wp_mono; [apply drop_from_ok; intros m Hm; apply roles_dom, (keeps_known st); [by apply rframe_keeps|]|cbn beta; intros _ st2 (? & ? & _); done]. apply roles_dom. eapply (slaveof_known N st n x Hw Hx). destruct (decide (n ∈ slaves x)); unfold role_of, orphan in Hrx; cbn in Hrx; congruence.
    - apply wp_ret. split; [done|]. assert (slaveof x1 = None) as ->; [|done]. destruct (nodeInHandshake x) eqn:Eh; [pose proof (node_newcomer N st n x Hw Hx Eh) as [= _ H2 _ _ _]; destruct (decide (n ∈ slaves x)); unfold role_of, orphan in Hrx; cbn in Hrx; congruence|]. destruct (node_role N st n x Hw Hx Eh) as [H1 H2]. destruct (decide (n ∈ slaves x)); unfold role_of, orphan in Hrx; cbn in Hrx; [congruence|]. assert (nodeIsSlave x = false) as H3 by congruence. rewrite H3 in H1. destruct (nodeIsMaster x); [|done]. rewrite <- (H2 eq_refl). congruence. }
  intros _ st2 [Hf2 Hr2]. pose proof (transitivity Hf1 Hf2) as Hf. apply wp_bind, wp_gets. rewrite bool_decide_true; [|destruct (known_node st2 n) as [y ->]; [eapply keeps_known; [by apply rframe_keeps|by eapply node_known]|done]]. apply wp_bind, (wp_lift _ tt); [done|]. apply wp_modify.
  assert (forall k, k <> n -> roles st2 !! k = without n <$> roles st !! k) as Hk.
  { intros k Hkn. rewrite Hr2, lookup_drop_from, Hr1. destruct (roles st !! k) as [r|] eqn:Er; [|done]. cbn [fmap option_fmap option_map]. f_equal. assert (n ∈ r_slaves r <-> slaveof x = Some k) as Hin. { rewrite (ro_slaves _ _ Hok k r n Er). split; [intros (z & Hz & Hzk); rewrite (roles_lookup _ _ _ Hx) in Hz; injection Hz as <-; done|]. intros H. exists (role_of x). by rewrite (roles_lookup _ _ _ Hx). }
    assert (k ∈ slaves x <-> r_slaveof r = Some n) as Hkx. { rewrite Hsl. split; [intros (z & Hz & Hzn); congruence|]. intros H. by exists r. }
    assert (slaveof x1 = Some k <-> slaveof x = Some k) as Hx1k. { destruct (decide (n ∈ slaves x)) as [Hn|Hn]; unfold role_of, orphan in Hrx; cbn in Hrx; [|by replace (slaveof x1) with (slaveof x) by congruence]. apply Hsl in Hn as (z & Hz & Hzn). rewrite (roles_lookup _ _ _ Hx) in Hz. injection Hz as <-. cbn in Hzn. replace (slaveof x1) with (@None name) by congruence. rewrite Hzn. split; [done|congruence]. }
    unfold without. destruct (decide (slaveof x1 = Some k)) as [H1|H1], (decide (k ∈ slaves x)) as [H2|H2], (decide (r_slaveof r = Some n)) as [H3|H3]; try tauto; unfold drop_slave, orphan; cbn; try done; rewrite (remove_first_id n) by (rewrite Hin; tauto); destruct r; done. }
  assert (removed n (roles st) (base.delete n (roles st2))) as Hrem. { intros k. destruct (decide (k = n)) as [->|Hkn]; [apply lookup_delete_eq|]. by rewrite lookup_delete_ne, Hk by congruence. }
  split_and!; [|by rewrite <- (rf_me _ _ Hf)|cbn; by rewrite fmap_delete|by rewrite <- (rf_owner _ _ Hf)]. apply (wf_removed N st st2 n); try done.
  intros k r r' Hkr Hkr'. destruct (decide (k = n)) as [->|Hkn]; [|rewrite Hk, Hkr in Hkr' by done; cbn in Hkr'; injection Hkr' as <-; done]. rewrite Hr2, lookup_drop_from, Hr1, Hkr in Hkr'. cbn [fmap option_fmap option_map] in Hkr'. injection Hkr' as <-. by destruct (decide _), (decide _).
Qed.

Lemma del_node_ok E st n : wf (CLUSTER_SLOTS E) st -> known st n -> n <> myself st -> (forall r, roles st !! myself st = Some r -> r_slaveof r <> Some n) ->
  wp (clusterDelNode E n) (fun _ st' => wf (CLUSTER_SLOTS E) st' /\ myself st' = myself st /\ removed n (roles st) (roles st') /\ forall k, owner (tables st') !! k = if bool_decide (owner (tables st) !! k = Some n) then None else owner (tables st) !! k) st.
Proof.
  intros Hw Hn Hne Hme. unfold clusterDelNode. eapply wp_step; [by apply unassign_loop_ok|]. cbn beta. intros _ st1 (Hw1 & [Hm1 Hr1] & Ho1). apply wp_bind, wp_gets. apply (calm_then st1); [apply calm_drop_reports|done|]. { apply list.Forall_forall. intros [m x] Hin%elem_of_map_to_list. by eapply (seen_node st1 st1). }
  intros _ st2 Hv2. pose proof Hv2 as [= Hm2 Hr2 _ Ho2]. assert (forall k, owner (tables st2) !! k = if bool_decide (owner (tables st) !! k = Some n) then None else owner (tables st) !! k) as Ho.
  { intros k. rewrite Ho2, Ho1. erewrite bool_decide_ext; [done|]. split; [tauto|]. intros H. split; [done|]. apply in_all_slots. by apply (so_owner _ _ _ (wf_slots _ _ Hw) _ _ H). }
  eapply wp_mono; [apply (free_cluster_node_ok (CLUSTER_SLOTS E))|].
  - by eapply wf_view.
  - apply roles_dom. rewrite Hr2, Hr1. by apply roles_dom.
  - by rewrite Hm2, Hm1.
  - rewrite Hm2, Hm1, Hr2, Hr1. done.
  - intros j. rewrite Ho. case_bool_decide as H; congruence.
  - cbn beta. intros _ st3 (Hw3 & Hm3 & Hr3 & Ho3). split_and!; [done|congruence|by rewrite Hr2, Hr1 in Hr3|]. intros k. by rewrite Ho3.
Qed.
(** ** Entries of the table that nothing points to *)

Lemma newcomer_alone me R n : roles_ok me R -> R !! n = Some newcomer -> n <> me /\ (forall k r, R !! k = Some r -> n ∉ r_slaves r) /\ forall k r, R !! k = Some r -> r_slaveof r <> Some n.
Proof.
  intros [O1 O2 O3 O6 O4 (rm & Om & Oh & Ox)] Hn. split_and!.
  - intros ->. rewrite Hn in Om. by injection Om as <-.
  - intros k r Hk Hin. apply (O2 _ _ n Hk) in Hin as (z & Hz & Hzk). rewrite Hn in Hz. by injection Hz as <-.
  - intros k r Hk Hs. assert (k ∈ r_slaves newcomer) as Hin by (apply (O2 _ _ k Hn); eauto). by apply elem_of_nil in Hin.
Qed.

Lemma roles_added me R n : roles_ok me R -> R !! n = None -> roles_ok me (<[n := newcomer]> R).
Proof.
  intros [O1 O2 O3 O6 O4 (rm & Om & Oh & Ox)] Hn. constructor.
  - intros k r m [[<- <-]|[Hne Hk]]%lookup_insert_Some Hs; [done|]. apply lookup_insert_is_Some'. right. by eapply O1.
  - intros m r s [[<- <-]|[Hne Hm]]%lookup_insert_Some.
    + split; [by intros ?%elem_of_nil|]. intros (z & [[<- <-]|[Hne Hz]]%lookup_insert_Some & Hs); [done|]. destruct (O1 _ _ _ Hz Hs). congruence.
    + rewrite (O2 _ _ s Hm). split; intros (z & Hz & Hs); exists z; (split; [|done]); [rewrite lookup_insert_ne by congruence; done|]. apply lookup_insert_Some in Hz as [[<- <-]|[_ Hz]]; done.
  - intros m r [[<- <-]|[Hne Hm]]%lookup_insert_Some; [constructor|by eapply O3].
  - intros k r [[<- <-]|[Hne Hk]]%lookup_insert_Some; [done|by eapply O6].
  - intros k r [[<- <-]|[Hne Hk]]%lookup_insert_Some; [done|by eapply O4].
  - exists rm. split; [|done]. rewrite lookup_insert_ne by congruence. done.
Qed.

Lemma roles_dropped me R n : roles_ok me R -> R !! n = Some newcomer -> roles_ok me (base.delete n R).
Proof.
  intros Hok Hn. destruct (newcomer_alone me R n Hok Hn) as (Hne & Hs & Hm). apply (removed_ok me n R); [done|done|intros r Hr; by apply (Hm me)|]. intros k. destruct (decide (k = n)) as [->|Hk]; [apply lookup_delete_eq|]. rewrite lookup_delete_ne by congruence.
  destruct (R !! k) as [r|] eqn:Er; [|done]. cbn. f_equal. unfold without. rewrite (remove_first_id n) by (by eapply Hs). rewrite decide_False by (by eapply Hm). by destruct r.
Qed.

(** The end of a handshake: a node with a role, and nothing else. *)
Lemma roles_graduated me R n fm : roles_ok me R -> R !! n = Some newcomer -> roles_ok me (<[n := mk_role [] None fm (negb fm) false]> R).
Proof.
  intros Hok Hn. destruct (newcomer_alone me R n Hok Hn) as (Hnm & _ & Hs). destruct Hok as [O1 O2 O3 O6 O4 (rm & Om & Oh & Ox)]. constructor.
  - intros k r m [[<- <-]|[Hne Hk]]%lookup_insert_Some Hm; [done|]. apply lookup_insert_is_Some'. right. by eapply O1.
  - intros m r s [[<- <-]|[Hne Hm]]%lookup_insert_Some.
    + split; [by intros ?%elem_of_nil|]. intros (z & [[<- <-]|[Hne Hz]]%lookup_insert_Some & Hzn); [done|]. by apply (Hs s z) in Hz.
    + rewrite (O2 _ _ s Hm). split; intros (z & Hz & Hzm).
      * destruct (decide (s = n)) as [->|Hsn]; [rewrite Hn in Hz; by injection Hz as <-|]. exists z. by rewrite lookup_insert_ne by congruence.
      * apply lookup_insert_Some in Hz as [[<- <-]|[_ Hz]]; [done|eauto].
  - intros m r [[<- <-]|[Hne Hm]]%lookup_insert_Some; [constructor|by eapply O3].
  - intros k r [[<- <-]|[Hne Hk]]%lookup_insert_Some; [done|by eapply O6].
  - intros k r [[<- <-]|[Hne Hk]]%lookup_insert_Some; [done|by eapply O4].
  - exists rm. split; [|done]. by rewrite lookup_insert_ne by congruence.
Qed.

Lemma slots_added N S O n b : slots_ok N S O -> S !! n = None -> 8 * zlen b = N -> (forall j, 0 <= j < N -> bit b j = false) -> slots_ok N (<[n := (b, 0)]> S) O.
Proof.
  intros [S1 S2 S3 S4] Hn Hl Hb. constructor.
  - intros k s [[<- <-]|[Hne Hk]]%lookup_insert_Some; [done|by eapply S1].
  - intros k s j [[<- <-]|[Hne Hk]]%lookup_insert_Some Hj; [|by eapply S2]. cbn. rewrite Hb by done. symmetry. apply bool_decide_false. intros Ho. destruct (S4 _ _ Ho) as [_ [? ?]]. congruence.
  - intros k s [[<- <-]|[Hne Hk]]%lookup_insert_Some; [|by eapply S3]. cbn. rewrite (filter_same _ (fun _ => false)); [generalize (up_to (Z.to_nat N) 0); intros l; by induction l|]. intros k Hk%in_up_to. apply Hb. lia.
  - intros j k Hj. destruct (S4 _ _ Hj) as [? ?]. split; [done|]. apply lookup_insert_is_Some'. by right.
Qed.
Lemma slots_dropped N S O n : slots_ok N S O -> (forall j, O !! j <> Some n) -> slots_ok N (base.delete n S) O.
Proof.
  intros [S1 S2 S3 S4] Ho. constructor.
  - intros k s [Hk Hs]%lookup_delete_Some. by eapply S1.
  - intros k s j [Hk Hs]%lookup_delete_Some. by eapply S2.
  - intros k s [Hk Hs]%lookup_delete_Some. by eapply S3.
  - intros j k Hj. destruct (S4 _ _ Hj) as [? ?]. split; [done|]. rewrite lookup_delete_ne; [done|]. intros ->. by apply (Ho j).
Qed.

Lemma bit_zeros k j : bit (repeat 0 k) j = false.
Proof.
  unfold bit. destruct (repeat 0 k !! Z.to_nat (j / 8)) as [x|] eqn:E; [|done]. apply list_elem_of_lookup_2, list_elem_of_In, repeat_spec in E as ->. apply Z.bits_0.
Qed.
Lemma wf_bytes N st : wf N st -> 0 <= N /\ 8 * (N / 8) = N.
Proof.
  intros Hw. destruct (ro_me _ _ (wf_roles _ _ Hw)) as (r & (x & Hx & _)%roles_known & _). assert ((share <$> nodes st) !! myself st = Some (share x)) as Hs by (by rewrite lookup_fmap, Hx). pose proof (so_len _ _ _ (wf_slots _ _ Hw) _ _ Hs) as Hl. cbn in Hl. rewrite <- Hl, Z.mul_comm, Z.div_mul by done. unfold zlen. lia.
Qed.

(** ** What joining leaves alone *)

(** Nodes out of handshake stay. *)
Definition survives (st st' : clusterState) : Prop := myself st' = myself st /\ forall n, joined st n -> joined st' n.
#[global] Instance survives_preorder : PreOrder survives.
Proof. split; [done|]. intros a b c [? ?] [? ?]. split; [congruence|auto]. Qed.
Lemma keeps_survives st st' : keeps st st' -> survives st st'.
Proof. intros [H1 H2]. split; [done|]. unfold joined. by rewrite H2. Qed.

(** Nodes are only added, under random names. *)
Record grows (E : env) (st st' : clusterState) : Prop := {
  gr_me : myself st' = myself st;
  gr_old : forall n b, hands st !! n = Some b -> hands st' !! n = Some b;
  gr_new : forall n, known st' n -> known st n \/ exists i, n = random_name (bus E) i }.
#[global] Instance grows_preorder E : PreOrder (grows E).
Proof.
  split; [intros st; constructor; auto|]. intros a b c [A1 A2 A3] [B1 B2 B3]. constructor; [congruence|auto|]. intros n [H|H]%B3; auto.
Qed.
Lemma known_hands st n : known st n <-> is_Some (hands st !! n).
Proof. unfold known, hands. rewrite elem_of_dom, lookup_fmap, fmap_is_Some. done. Qed.
Lemma keeps_grows E st st' : keeps st st' -> grows E st st'.
Proof. intros [H1 H2]. constructor; [done|by rewrite H2|]. intros n. rewrite !known_hands, H2. by left. Qed.
Lemma grows_survives E st st' : grows E st st' -> survives st st'.
Proof. intros [H1 H2 _]. split; [done|]. intros n. apply H2. Qed.
Lemma grows_known E st st' n : grows E st st' -> known st n -> known st' n.
Proof. intros [_ H _]. rewrite !known_hands. intros [b Hb]. eauto. Qed.
Lemma calm_grows {A} E st0 (m : C A) st : wf (CLUSTER_SLOTS E) st0 -> view st = view st0 -> calm st0 m -> wp m (fun _ st' => wf (CLUSTER_SLOTS E) st' /\ grows E st0 st') st.
Proof. intros Hw Hv Hm. eapply wp_mono; [by apply Hm|]. cbn beta. intros _ st' Hv'. destruct (view_safe _ st0 st' Hw Hv') as [? ?]. split; [done|by apply keeps_grows]. Qed.

(** ** Adding a node *)

Lemma add_node_ok E st fl i a : wf (CLUSTER_SLOTS E) st -> Z.land fl ROLE_FLAGS = CLUSTER_NODE_HANDSHAKE ->
  wp (clusterAddNode (random_name (bus E) i) (with_addr (createClusterNode E fl) a)) (fun _ st' => wf (CLUSTER_SLOTS E) st' /\ grows E st st') st.
Proof.
  intros Hw Hfl. unfold clusterAddNode. apply wp_bind, wp_gets. set (n := random_name _ _). set (x := with_addr _ _). case_bool_decide as Hn; [by apply wp_ret|]. apply wp_bind, wp_modify, wp_ret.
  assert (forall f, Z.land ROLE_FLAGS f = f -> has_flag x f = negb (Z.land CLUSTER_NODE_HANDSHAKE f =? 0)) as Hf. { intros f E1. unfold has_flag, x. cbn. rewrite <- E1, Z.land_assoc, Hfl. by rewrite E1. }
  assert (role_of x = newcomer) as Hr by (unfold role_of, newcomer, nodeIsMaster, nodeIsSlave, nodeInHandshake; by rewrite !Hf).
  destruct (wf_bytes _ _ Hw) as [HN0 HN]. pose proof Hw as [W1 W2 W3]. split.
  - constructor; cbn.
    + rewrite fmap_insert, Hr. apply roles_added; [done|]. by rewrite lookup_fmap, Hn.
    + rewrite fmap_insert. apply slots_added; [done|by rewrite lookup_fmap, Hn| |intros; apply bit_zeros]. cbn. unfold zlen. rewrite repeat_length, Z2Nat.id; [done|]. apply Z.div_pos; lia.
    + intros k y [[<- <-]|[Hne Hk]]%lookup_insert_Some; [done|by eapply W3].
  - constructor; [done| |].
    + intros k b Hk. unfold hands in *. cbn. rewrite fmap_insert, lookup_insert_ne; [done|]. intros <-. by rewrite lookup_fmap, Hn in Hk.
    + intros k. unfold known. cbn. rewrite dom_insert, elem_of_union, elem_of_singleton. intros [->|]; [right; by exists i|by left].
Qed.

Lemma meet_node_ok E hdr st : wf (CLUSTER_SLOTS E) st -> wp (meet_node E hdr) (fun _ st' => wf (CLUSTER_SLOTS E) st' /\ grows E st st') st.
Proof.
  intros Hw. unfold meet_node. eapply wp_step; [by apply add_node_ok|]. cbn beta. intros _ st1 [Hw1 Hg1]. apply wp_modify. split; [by apply (wf_view _ st1)|]. etransitivity; [exact Hg1|]. by apply keeps_grows, view_keeps.
Qed.

Lemma start_handshake_ok E i a st : wf (CLUSTER_SLOTS E) st -> wp (clusterStartHandshake E i a) (fun _ st' => wf (CLUSTER_SLOTS E) st' /\ grows E st st') st.
Proof.
  intros Hw. unfold clusterStartHandshake. destruct (normalize_ip _ _) as [norm_ip|]; [|by apply wp_ret]. destruct (_ || _); [by apply wp_ret|]. cbv zeta. apply wp_bind, wp_bind, wp_gets, wp_ret. destruct (existsb _ _); [by apply wp_ret|]. eapply wp_step; [by apply add_node_ok|]. cbn beta. intros _ st1 H1. by apply wp_ret.
Qed.

Lemma gossip_entry_ok E on from i g st : wf (CLUSTER_SLOTS E) st -> (forall n, from = Some n -> known st n) -> on <> Some (g_nodename g) ->
  wp (gossip_entry E on from i g) (fun _ st' => wf (CLUSTER_SLOTS E) st' /\ grows E st st') st.
Proof.
  intros Hw Hf Hon. unfold gossip_entry. apply wp_bind, wp_gets. cbv zeta. destruct (nodes st !! g_nodename g) as [x|] eqn:Hx.
  - assert (known st (g_nodename g)) as Hk by (by eapply node_known). apply calm_grows; [done|done|]. apply calm_me. apply calm_bind.
    { destruct from as [s|]; [|apply calm_ret]. apply calm_deref; [by apply Hf|]. intros y _. destruct (_ && _); [|apply calm_ret]. destruct (negb _); (apply calm_bind; [|intros ?]); [by apply calm_add_report|by apply (calm_mark_failing _ st Hw)|by apply calm_del_report|apply calm_ret]. }
    intros _. apply calm_deref; [done|]. intros y _. apply calm_bind.
    { destruct (_ && _); [|apply calm_ret]. apply calm_bind; [by apply calm_count_reports|]. intros c. destruct (c =? 0); [|apply calm_ret]. destruct (_ && _); [|apply calm_ret]. by apply calm_update. }
    intros _. apply calm_deref; [done|]. intros z _. destruct (_ && _); [|apply calm_ret]. apply (calm_lift _ _ tt); [by rewrite bool_decide_false, andb_false_r|]. apply calm_update; [done|]. intros w. split; [by rewrite role_clear_flag|done].
  - destruct (_ && _); [|by apply wp_ret]. eapply (calm_then st); [apply calm_blacklist|done|]. intros b st1 Hv1. destruct (view_safe _ st st1 Hw Hv1) as [Hw1 Hk1]. destruct b; [apply wp_ret; split; [done|by apply keeps_grows]|]. eapply wp_step; [by apply start_handshake_ok|]. cbn beta. intros _ st2 [Hw2 Hg2]. apply wp_ret. split; [done|]. etransitivity; [by apply keeps_grows|done].
Qed.

Definition gossips (hdr : clusterMsg) : list gossip := match data hdr with PING l | PONG l | MEET l => l | _ => [] end.

Lemma gossip_loop_ok E on from l : forall i st, wf (CLUSTER_SLOTS E) st -> (forall n, from = Some n -> known st n) -> Forall (fun g => on <> Some (g_nodename g)) l ->
  wp (gossip_loop E on from i l) (fun _ st' => wf (CLUSTER_SLOTS E) st' /\ grows E st st') st.
Proof.
  induction l as [|g l IH]; intros i st Hw Hf Hl; cbn [gossip_loop]; [by apply wp_ret|]. apply list.Forall_cons in Hl as [Hg Hl]. eapply wp_step; [by apply gossip_entry_ok|]. cbn beta. intros _ st1 [Hw1 Hg1]. eapply wp_mono; [apply IH; [done|intros n Hn; eapply grows_known; [done|by apply Hf]|done]|]. cbn beta. intros _ st2 [Hw2 Hg2]. split; [done|by etransitivity].
Qed.
Lemma gossip_section_ok E on hdr l st : wf (CLUSTER_SLOTS E) st -> (forall o, on = Some o -> known st o) -> Forall (fun g => on <> Some (g_nodename g)) l ->
  wp (clusterProcessGossipSection E on hdr l) (fun _ st' => wf (CLUSTER_SLOTS E) st' /\ grows E st st') st.
Proof.
  intros Hw Hon Hl. unfold clusterProcessGossipSection. destruct on as [o|]; [apply wp_bind, wp_ret; by apply gossip_loop_ok|]. apply wp_bind, wp_gets. apply gossip_loop_ok; [done| |done]. destruct (nodes st !! sender hdr) eqn:E'; [|done]. intros n [= <-]. by eapply node_known.
Qed.

(** ** The end of a handshake *)

Lemma owner_not_newcomer N st n x j : wf N st -> nodes st !! n = Some x -> nodeInHandshake x = true -> owner (tables st) !! j <> Some n.
Proof.
  intros Hw Hx Hh Ho. destruct (so_owner _ _ _ (wf_slots _ _ Hw) _ _ Ho) as [Hj _]. pose proof (node_newcomer N st n x Hw Hx Hh) as [= _ _ Hm _ _]. pose proof (wf_idle _ _ Hw n x Hx Hm) as H0. rewrite (numslots_count N st n x Hw Hx) in H0.
  assert (forall l, j ∈ l -> zlen (List.filter (fun j => bool_decide (owner (tables st) !! j = Some n)) l) <> 0) as H1. { clear -Ho. intros l Hin E. apply Z.eqb_eq in E. rewrite filter_empty, forallb_forall in E. apply list_elem_of_In in Hin. specialize (E j Hin). by rewrite bool_decide_true in E. }
  by apply (H1 (up_to (Z.to_nat N) 0)); [apply in_up_to; lia|].
Qed.

Lemma renamed_other n new p : p <> n -> renamed n new p = p.
Proof. intros H. unfold renamed. by rewrite (proj2 (Z.eqb_neq p n) H). Qed.
Lemma renamed_opt n new (o : option name) : o <> Some n -> renamed n new <$> o = o.
Proof. destruct o as [p|]; [|done]. intros H. cbn. rewrite renamed_other; [done|congruence]. Qed.
Lemma renamed_list n new l : n ∉ l -> map (renamed n new) l = l.
Proof. induction l as [|p l IH]; [done|]. intros [H1 H2]%not_elem_of_cons. cbn. rewrite renamed_other, IH by congruence. done. Qed.

Lemma rename_node_ok N st n new x : wf N st -> nodes st !! n = Some x -> nodeInHandshake x = true -> nodes st !! new = None ->
  wp (clusterRenameNode n new) (fun _ st' => wf N st' /\ survives st st' /\ exists y, nodes st' !! new = Some y /\ nodeInHandshake y = true) st.
Proof.
  intros Hw Hx Hh Hnew. pose proof (node_newcomer N st n x Hw Hx Hh) as Hr. pose proof (roles_lookup _ _ _ Hx) as HRn. rewrite Hr in HRn. destruct (newcomer_alone _ _ n (wf_roles _ _ Hw) HRn) as (Hme & Hs & Hm).
  assert (forall k y, nodes st !! k = Some y -> role_of (rename_pointers n new y) = role_of y) as Hrole. { intros k y Hy. apply roles_lookup in Hy. unfold role_of, rename_pointers. cbn. rewrite renamed_list by (by apply (Hs k (role_of y))). by rewrite renamed_opt by (by apply (Hm k (role_of y))). }
  assert (role_of <$> (rename_pointers n new <$> base.delete n (nodes st)) = base.delete n (roles st)) as ER. { apply map_eq. intros k. rewrite !lookup_fmap. destruct (decide (k = n)) as [->|Hk]; [by rewrite !lookup_delete_eq|]. rewrite !lookup_delete_ne, lookup_fmap by congruence. destruct (nodes st !! k) as [y|] eqn:Hy; [|done]. cbn. by rewrite (Hrole k). }
  assert (share <$> (rename_pointers n new <$> base.delete n (nodes st)) = base.delete n (share <$> nodes st)) as ES by (rewrite <- map_fmap_compose, <- fmap_delete; done).
  unfold clusterRenameNode. apply wp_bind, (wp_deref _ x); [done|]. apply wp_bind, wp_modify, wp_bind, wp_modify. apply wp_bind. unfold clusterAddNode. apply wp_bind, wp_gets. cbn. rewrite bool_decide_false.
  2: { rewrite lookup_fmap. intros H. apply H. destruct (decide (new = n)) as [->|Hk]; [by rewrite lookup_delete_eq|]. by rewrite lookup_delete_ne, Hnew by congruence. }
  apply wp_bind, wp_modify, wp_ret, wp_ret. set (y := rename_pointers n new x). assert (role_of y = newcomer) as Hy by (by rewrite <- Hr; apply (Hrole n)).
  assert (renamed n new <$> owner (tables st) = owner (tables st)) as EO. { apply map_eq. intros j. rewrite lookup_fmap. apply renamed_opt. by eapply owner_not_newcomer. }
  assert (base.delete n (roles st) !! new = None) as ENR by (destruct (decide (new = n)) as [->|Hk]; [apply lookup_delete_eq|]; by rewrite lookup_delete_ne, lookup_fmap, Hnew by congruence).
  pose proof Hw as [W1 W2 W3]. assert ((share <$> nodes st) !! n = Some (share x)) as Hsh by (by rewrite lookup_fmap, Hx). assert (numslots x = 0) as Hz by (apply (W3 n x Hx); unfold role_of, newcomer in Hr; congruence).
  split_and!.
  - constructor; cbn.
    + rewrite fmap_insert, ER, Hy, renamed_other by congruence. apply roles_added; [|done]. by apply roles_dropped.
    + rewrite fmap_insert, ES, EO. replace (share y) with (bitmap x, 0) by (unfold share; cbn; by rewrite Hz). apply slots_added; [apply slots_dropped; [done|intros j; by eapply owner_not_newcomer]| |by apply (so_len _ _ _ W2 _ _ Hsh)|].
      * destruct (decide (new = n)) as [->|Hk]; [apply lookup_delete_eq|]. by rewrite lookup_delete_ne, lookup_fmap, Hnew by congruence.
      * intros j Hj. pose proof (so_bit _ _ _ W2 _ _ j Hsh Hj) as Hb. cbn in Hb. rewrite Hb. apply bool_decide_false. by eapply owner_not_newcomer.
    + intros k z [[<- <-]|[Hne Hk]]%lookup_insert_Some; [done|]. rewrite lookup_fmap in Hk. apply fmap_Some in Hk as (w & [Hkn Hkw]%lookup_delete_Some & ->). cbn. by apply (W3 k w).
  - split; [cbn; by apply renamed_other|]. intros k Hk. destruct (joined_node _ _ Hk) as (w & Hkw & Hwh). apply (node_joined _ _ (rename_pointers n new w)); [cbn|done]. rewrite lookup_insert_ne by congruence. rewrite lookup_fmap, lookup_delete_ne by congruence. by rewrite Hkw.
  - exists y. split; [cbn; apply lookup_insert_eq|]. injection Hy. done.
Qed.

(** The flags a node gets from the header: of a master or of a slave. *)
Definition one_role (fl : Z) : Prop := Z.land fl (Z.lor CLUSTER_NODE_MASTER CLUSTER_NODE_SLAVE) = CLUSTER_NODE_MASTER \/ Z.land fl (Z.lor CLUSTER_NODE_MASTER CLUSTER_NODE_SLAVE) = CLUSTER_NODE_SLAVE.

Lemma graduate_ok N st n y f : wf N st -> nodes st !! n = Some y -> nodeInHandshake y = true -> f = CLUSTER_NODE_MASTER \/ f = CLUSTER_NODE_SLAVE ->
  wp (update n (fun x => set_flag (clear_flag x CLUSTER_NODE_HANDSHAKE) f)) (fun _ st' => wf N st' /\ survives st st' /\ joined st' n) st.
Proof.
  intros Hw Hy Hh Hf. apply (wp_update _ _ y); [done|]. set (z := set_flag _ f). pose proof (node_newcomer N st n y Hw Hy Hh) as Hr. pose proof (roles_lookup _ _ _ Hy) as HRn. rewrite Hr in HRn. unfold role_of, newcomer in Hr. injection Hr as R1 R2 R3 R4 R5.
  assert (exists fm, role_of z = mk_role [] None fm (negb fm) false) as [fm Hz].
  { exists (f =? CLUSTER_NODE_MASTER). unfold role_of, nodeIsMaster, nodeIsSlave, nodeInHandshake in *. cbn. unfold z. rewrite R1, R2. destruct Hf as [->| ->]; f_equal.
    all: first [by apply has_flag_set | rewrite has_flag_set_other by done; first [by apply has_flag_clear | by rewrite has_flag_clear_other]]. }
  assert (nodeInHandshake z = false) as Hzh by (unfold role_of in Hz; by injection Hz). pose proof Hw as [W1 W2 W3]. split_and!.
  - constructor; cbn.
    + rewrite fmap_insert, Hz. by apply roles_graduated.
    + by rewrite (fmap_reinsert share _ _ y).
    + intros k w [[<- <-]|[Hne Hk]]%lookup_insert_Some; [intros _; by apply (W3 n y)|by apply (W3 k)].
  - split; [done|]. intros k (w & Hk & Hwh)%joined_node. destruct (decide (k = n)) as [->|Hkn]; [apply (node_joined _ _ z); [apply lookup_insert_eq|done]|]. apply (node_joined _ _ w); [|done]. cbn. by rewrite lookup_insert_ne by congruence.
  - apply (node_joined _ _ z); [apply lookup_insert_eq|done].
Qed.

Lemma forget_newcomer_ok E st n x : wf (CLUSTER_SLOTS E) st -> nodes st !! n = Some x -> nodeInHandshake x = true -> wp (clusterDelNode E n) (fun _ st' => wf (CLUSTER_SLOTS E) st' /\ survives st st') st.
Proof.
  intros Hw Hx Hh. pose proof (node_newcomer _ st n x Hw Hx Hh) as Hr. pose proof (roles_lookup _ _ _ Hx) as HRn. rewrite Hr in HRn. destruct (newcomer_alone _ _ n (wf_roles _ _ Hw) HRn) as (Hme & _ & Hm).
  eapply wp_mono; [apply del_node_ok; [done|by eapply node_known|done|intros r Hr'; by apply (Hm (myself st))]|]. cbn beta. intros _ st' (Hw' & Hm' & Hrem & _). split; [done|]. split; [done|]. intros k (w & Hk & Hwh)%joined_node.
  assert (k <> n) as Hkn by congruence. pose proof (Hrem k) as Hk'. rewrite decide_False, (roles_lookup _ _ _ Hk) in Hk' by done. apply roles_known in Hk' as (w' & Hkw' & Hrw). apply (node_joined _ _ w'); [done|]. unfold role_of, without in Hrw. cbn in Hrw. congruence.
Qed.

(** A link whose packet goes on is one to a known node; with a known sender, nothing but
    flags and addresses changed. *)
Lemma check_link_ok E on from hdr st : wf (CLUSTER_SLOTS E) st -> (forall o, on = Some o -> known st o) -> (forall n, from = Some n -> known st n) -> (from = None -> nodes st !! sender hdr = None) -> one_role (m_flags hdr) ->
  wp (check_link E on from hdr) (fun r st' => wf (CLUSTER_SLOTS E) st' /\ survives st st' /\ forall on', r = Some on' -> (forall o, on' = Some o -> known st' o) /\ (from <> None -> on' = on /\ view st' = view st)) st.
Proof.
  intros Hw Hon Hfrom Hnew Hfl. unfold check_link. destruct on as [o|]; [|apply wp_ret; split_and!; [done|done|]; by intros on' [= <-]]. destruct (known_node st o (Hon o eq_refl)) as [x Hx]. apply wp_bind, (wp_deref _ x); [done|]. destruct (nodeInHandshake x) eqn:Hh.
  - destruct from as [n|].
    + apply (calm_then st); [apply (calm_update_address _ st Hw); by apply Hfrom|done|]. intros b st1 Hv1. apply (calm_then st); [destruct b; [by apply calm_modify|apply calm_ret]|done|]. intros _ st2 Hv2. destruct (view_safe _ st st2 Hw Hv2) as [Hw2 Hk2].
      destruct (known_seen st st2 o Hv2 ltac:(by apply Hon)) as (x2 & Hx2 & [Hs2 _]). rewrite (roles_lookup _ _ _ Hx) in Hs2. eapply wp_step; [apply (forget_newcomer_ok E st2 o x2); [done|done|unfold role_of in Hs2; congruence]|]. cbn beta. intros _ st3 [Hw3 Hs3]. apply wp_ret. split_and!; [done| |done]. etransitivity; [by apply keeps_survives|done].
    + eapply wp_step; [by apply (rename_node_ok (CLUSTER_SLOTS E) st o (sender hdr) x); [..|apply Hnew]|]. cbn beta. intros _ st1 (Hw1 & Hs1 & y & Hy & Hyh). eapply wp_step; [apply (graduate_ok (CLUSTER_SLOTS E) st1 (sender hdr) y); [done|done|done|exact Hfl]|]. cbn beta. intros _ st2 (Hw2 & Hs2 & Hj). apply wp_bind, wp_modify, wp_ret.
      split_and!; [by apply (wf_view _ st2)|etransitivity; [exact Hs1|exact Hs2]|]. intros on' [= <-]. split; [|done]. intros ? [= <-]. by apply joined_known.
  - destruct (o =? sender hdr); [apply wp_ret; split_and!; [done|done|]; by intros on' [= <-]|]. apply (calm_then st); [apply calm_update; [by apply Hon|]|done|].
    { intros y. split; [|done]. change (role_of (set_flag y CLUSTER_NODE_NOADDR) = role_of y). by rewrite role_set_flag. }
    intros _ st1 Hv1. apply wp_bind, wp_modify, wp_ret. split_and!; [by apply (wf_view _ st)| |done]. apply keeps_survives. by apply view_keeps.
Qed.
End ClusterJoin.
