(* ===== verification/ClusterSafe.v ===== *)
(** * The handlers of the cluster bus always return

    The handlers that move roles and slots, on top of [ClusterCalm] (those that change
    neither) and [ClusterJoin] (those that add, rename and delete nodes): from a state that
    satisfies the invariant [wf] of [ClusterOps], processing a packet or the work before the
    event loop sleeps ends without a dangling pointer or a failed assertion, in a state that
    satisfies [wf]. *)
From stdpp Require Import gmap.
From S2P Require Import Prelude StateM Cluster ClusterOps ClusterCalm ClusterJoin.

Module ClusterSafe.
Import Cluster ClusterOps ClusterCalm ClusterJoin.

(** ** Handlers that move roles and slots *)

(** What a won election does: this node is a master, and owns the slots of its old master. *)
Definition takes_over (st st' : clusterState) : Prop :=
  forall m x, nodes st !! myself st = Some x -> nodeIsMaster x = false -> slaveof x = Some m ->
    (exists y, nodes st' !! myself st = Some y /\ nodeIsMaster y = true) /\ forall k, owner (tables st') !! k = if bool_decide (owner (tables st) !! k = Some m) then Some (myself st) else owner (tables st) !! k.

Lemma replace_master_ok E st : wf (CLUSTER_SLOTS E) st -> wp (clusterFailoverReplaceYourMaster E) (fun _ st' => safe (CLUSTER_SLOTS E) st st' /\ takes_over st st') st.
Proof.
  intros Hw. destruct (self_node _ st Hw) as [x Hx]. unfold clusterFailoverReplaceYourMaster. apply wp_bind, wp_gets. apply wp_bind, (wp_self x); [done|]. destruct (nodeIsMaster x) eqn:Em. { apply wp_ret. split; [by apply view_safe|]. intros m y Hy. congruence. }
  destruct (slaveof x) as [old|] eqn:Es; [|apply wp_ret; split; [by apply view_safe|intros m y Hy; congruence]]. eapply wp_step; [eapply as_master_ok; [done|done|by eapply self_joined]|]. cbn beta. intros _ st1 (Hw1 & Hf1 & _ & y & Hy & Hym & Hys). apply wp_bind, wp_modify. set (st2 := push_effect st1 UnsetMaster).
  assert (wf (CLUSTER_SLOTS E) st2) as Hw2 by (by apply (wf_view _ st1)). pose proof (rframe_keeps _ _ Hf1) as Hk1. assert (known st2 old) as [z Hz]%known_node by (apply (keeps_known st); [done|apply roles_dom; by eapply slaveof_known]).
  eapply wp_step; [by eapply (take_slots_loop_ok (CLUSTER_SLOTS E) old (myself st) _ st2 z y); [..|apply all_slots_range]|]. cbn beta. intros _ st3 (Hw3 & Hf3 & Ho3). destruct (sframe_node _ _ _ _ Hf3 Hy) as (y3 & Hy3 & Hr3 & _).
  eapply calm_then; [by apply (calm_update_state _ st3 Hw3)|done|]. intros _ st4 Hv4. apply wp_bind, wp_modify. eapply (calm_then st3); [by apply (calm_broadcast_pong _ st3 Hw3)|done|]. intros _ st5 Hv5. eapply wp_mono; [apply (calm_reset_mf st3); done|]. cbn beta. intros _ st6 Hv6. split.
  - split; [by apply (wf_view _ st3)|]. etransitivity; [exact Hk1|]. etransitivity; [by apply (sframe_keeps st2)|by apply view_keeps].
  - intros m x' Hx' _ Hm'. assert (m = old) as -> by congruence. split.
    + destruct (known_seen st3 st6 (myself st) Hv6) as (y6 & Hy6 & [Hr6 _]); [by eapply node_known|]. exists y6. split; [done|]. rewrite (roles_lookup _ _ _ Hy3) in Hr6. injection Hr6 as _ _ Hr6 _ _. unfold role_of in Hr3. congruence.
    + intros k. injection Hv6 as _ _ _ ->. rewrite Ho3. cbn. rewrite (rf_owner _ _ Hf1). erewrite bool_decide_ext; [done|]. split; [tauto|]. intros Hk. split; [done|]. apply in_all_slots. by apply (so_owner _ _ _ (wf_slots _ _ Hw) _ _ Hk).
Qed.

Lemma slave_failover_ok E st : wf (CLUSTER_SLOTS E) st -> wp (clusterHandleSlaveFailover E) (fun _ => safe (CLUSTER_SLOTS E) st) st.
Proof.
  intros Hw. destruct (self_node _ st Hw) as [x Hx]. unfold clusterHandleSlaveFailover. apply wp_bind, wp_gets. cbv zeta. apply wp_bind, wp_modify. set (st1 := set_todo st _). assert (view st1 = view st) as Hv1 by done. clearbody st1. apply wp_bind, wp_gets. pose proof Hv1 as [= Hm1 _ _ _]. rewrite Hm1.
  destruct (known_seen st st1 (myself st) Hv1) as (x1 & Hx1 & Hs1); [by eapply me_known|]. apply wp_bind, (wp_self x1); [by rewrite Hm1|]. apply wp_step with (fun (b : bool) st2 => view st2 = view st /\ (b = true -> nodeIsMaster x1 = false)).
  { destruct (nodeIsMaster x1); [by apply wp_ret|]. destruct (slaveof x1) as [m|] eqn:Em; [|by apply wp_ret]. destruct (known_seen st st1 m Hv1) as (y & Hy & _); [by eapply seen_slaveof|]. apply wp_bind, (wp_deref _ y); [done|]. by apply wp_ret. }
  intros wanted st2 [Hv2 Hwant]. destruct wanted; cbn [negb]; [|by apply wp_modify, view_safe]. specialize (Hwant eq_refl). assert (exists r, roles st !! myself st = Some r /\ r_slave r = true) as Hsl.
  { exists (role_of x1). split; [by destruct Hs1|]. destruct Hs1 as [Hs1 _]. rewrite (roles_lookup _ _ _ Hx) in Hs1. injection Hs1 as _ _ Hmm Hss _. destruct (self_role _ _ _ Hw Hx) as [H _]. cbn. rewrite <- Hss, H, Hmm, Hwant. done. }
  destruct (_ && _); [by apply wp_modify, view_safe|]. destruct (_ <? _); [apply calm_safe; [done|done|by apply (calm_schedule _ st Hw)]|].
  apply (calm_then st); [destruct (_ && _); [apply calm_bind; [by apply (calm_slave_rank _ st Hw)|intros r; by apply calm_modify]|apply calm_ret]|done|]. intros _ st3 Hv3. apply wp_bind, wp_gets. destruct (_ <? _); [by apply wp_modify, view_safe|]. destruct (_ <? _); [by apply wp_modify, view_safe|]. destruct (negb (auth_sent _)).
  - apply (calm_then st); [apply calm_next_epoch|done|]. intros e st4 Hv4. apply wp_bind, wp_modify. apply (calm_then st); [by apply (calm_request_auth _ st Hw)|done|]. intros _ st5 Hv5. apply wp_bind, wp_modify, wp_modify. by apply view_safe.
  - destruct (_ <=? _); [|by apply wp_modify, view_safe]. apply (calm_then st); [destruct (_ <? _); [apply calm_update; [by eapply me_known|done]|apply calm_ret]|done|]. intros _ st4 Hv4. destruct (view_safe _ st st4 Hw Hv4) as [Hw4 Hk4]. eapply wp_mono; [by apply replace_master_ok|]. cbn beta. intros _ st5 [H5 _]. by apply (transitivity (R := safe _) (conj Hw4 Hk4) H5).
Qed.

Lemma before_sleep_ok E st : wf (CLUSTER_SLOTS E) st -> wp (clusterBeforeSleep E) (fun _ => safe (CLUSTER_SLOTS E) st) st.
Proof.
  intros Hw. unfold clusterBeforeSleep. cbv zeta. apply wp_bind, wp_gets. apply wp_step with (fun _ => safe (CLUSTER_SLOTS E) st). { destruct (negb _); [by apply slave_failover_ok|by apply wp_ret, view_safe]. } intros _ st1 [Hw1 Hk1].
  apply wp_bind, wp_gets. apply (calm_then st1); [destruct (negb _); [by apply (calm_update_state _ st1 Hw1)|apply calm_ret]|done|]. intros _ st2 Hv2. apply wp_bind, wp_gets. apply (calm_then st1); [destruct (negb _); [apply calm_gets; intros ? _; by apply calm_modify|apply calm_ret]|done|].
  intros _ st3 Hv3. apply wp_modify. by apply (transitivity (R := safe _) (conj Hw1 Hk1)), view_safe.
Qed.

Lemma update_config_safe E from epoch claimed st x : wf (CLUSTER_SLOTS E) st -> nodes st !! from = Some x -> nodeIsMaster x = true -> 8 * zlen claimed = CLUSTER_SLOTS E ->
  wp (clusterUpdateSlotsConfigWith E from epoch claimed) (fun _ => safe (CLUSTER_SLOTS E) st) st.
Proof.
  intros Hw Hx Hs Hc. destruct (decide (from = myself st)) as [->|Hne].
  - unfold clusterUpdateSlotsConfigWith. apply wp_bind, wp_gets. apply wp_bind, (wp_self x); [done|]. cbv zeta. rewrite Z.eqb_refl. by apply wp_ret, view_safe.
  - eapply wp_mono; [by eapply update_config_ok|]. cbn beta. by intros _ st' [H _].
Qed.

(** The part of PING, PONG and MEET after the checks of the link and of the address. *)
Lemma configuration_ok E on n hdr l epoch st : wf (CLUSTER_SLOTS E) st -> (forall o, on = Some o -> known st o) -> joined st n -> n <> myself st -> (known st (m_slaveof hdr) -> joined st (m_slaveof hdr)) -> 8 * zlen (myslots hdr) = CLUSTER_SLOTS E ->
  Forall (fun g => on <> Some (g_nodename g)) l ->
  wp (_ ← role_switch E n hdr;
      x ← deref n;
      let sender_master := if nodeIsMaster x then Some n else slaveof x in
      dirty_slots ← match sender_master with None => mret false | Some m => y ← deref m; mret (bool_decide (bitmap y <> myslots hdr)) end;
      _ ← (if nodeIsMaster x && dirty_slots then clusterUpdateSlotsConfigWith E n epoch (myslots hdr) else mret tt);
      _ ← (if dirty_slots : bool then stale_claim_loop E n (myslots hdr) epoch (all_slots E) else mret tt);
      m ← self;
      x ← deref n;
      _ ← (if nodeIsMaster m && nodeIsMaster x && (epoch =? configEpoch m) then clusterHandleConfigEpochCollision n else mret tt);
      clusterProcessGossipSection E on hdr l) (fun _ st' => wf (CLUSTER_SLOTS E) st' /\ survives st st') st.
Proof.
  intros Hw Hon Hn Hne Hmh Hc Hl. eapply wp_step; [by apply role_switch_ok|]. cbn beta. intros _ st3 [Hw3 Hk3].
  destruct (known_node st3 n (keeps_known _ _ _ Hk3 (joined_known _ _ Hn))) as [x Hx]. apply wp_bind, (wp_deref _ x); [done|]. cbv zeta. apply (calm_then st3).
  { destruct (if nodeIsMaster x then Some n else slaveof x) as [m|] eqn:Em; [|apply calm_ret]. apply calm_deref; [|intros; apply calm_ret]. destruct (nodeIsMaster x); [injection Em as <-; by eapply node_known|]. apply roles_dom. by eapply slaveof_known. }
  { done. }
  intros dirty st4 Hv4. destruct (view_safe _ st3 st4 Hw3 Hv4) as [Hw4 Hk4]. apply wp_step with (fun _ => safe (CLUSTER_SLOTS E) st4).
  { destruct (nodeIsMaster x && dirty) eqn:Ed; [|by apply wp_ret, view_safe]. apply andb_true_iff in Ed as [Em _]. destruct (known_seen st3 st4 n Hv4) as (x4 & Hx4 & Hs4); [by eapply node_known|]. apply (update_config_safe E n _ _ _ x4); [done|done| |done].
    destruct Hs4 as [Hs4 _]. rewrite (roles_lookup _ _ _ Hx) in Hs4. injection Hs4 as _ _ <- _ _. done. }
  intros _ st5 [Hw5 Hk5]. assert (keeps st st5) as Hk by (etransitivity; [exact Hk3|]; by etransitivity). assert (known st5 n) as Hn5 by (eapply keeps_known; [done|by apply joined_known]).
  apply (calm_then st5); [destruct dirty; [apply (calm_stale _ st5 Hw5); [done|done|apply all_slots_range]|apply calm_ret]|done|]. intros _ st6 Hv6. destruct (view_safe _ st5 st6 Hw5 Hv6) as [Hw6 Hk6]. destruct (self_node _ st6 Hw6) as [m Hm]. apply wp_bind, (wp_self m); [done|]. destruct (known_node st6 n (keeps_known _ _ _ Hk6 Hn5)) as [y Hy]. apply wp_bind, (wp_deref _ y); [done|].
  apply (calm_then st5); [destruct (_ && _ && _); [by apply (calm_collision _ st5 Hw5)|apply calm_ret]|done|]. intros _ st7 Hv7. destruct (view_safe _ st5 st7 Hw5 Hv7) as [Hw7 Hk7]. assert (keeps st st7) as Hk' by (by etransitivity).
  eapply wp_mono; [apply gossip_section_ok; [done|intros o Ho; eapply keeps_known; [done|by apply Hon]|done]|]. cbn beta. intros _ st8 [Hw8 Hg8]. split; [done|]. etransitivity; [by apply keeps_survives|by eapply grows_survives].
Qed.

Lemma process_update_ok E epoch n claimed st : wf (CLUSTER_SLOTS E) st -> (known st n -> joined st n) -> 8 * zlen claimed = CLUSTER_SLOTS E -> wp (process_update E epoch n claimed) (fun _ => safe (CLUSTER_SLOTS E) st) st.
Proof.
  intros Hw Hj Hc. unfold process_update. apply wp_bind, wp_gets. destruct (nodes st !! n) as [x|] eqn:Hx; [|by apply wp_ret, view_safe]. assert (nodeInHandshake x = false) as Hh. { destruct (joined_node st n) as (x' & Hx' & ?); [by eapply Hj, node_known|congruence]. }
  apply wp_bind, (wp_deref _ x); [done|]. destruct (_ <=? _); [by apply wp_ret, view_safe|].
  apply wp_step with (fun _ st1 => safe (CLUSTER_SLOTS E) st st1 /\ exists y, nodes st1 !! n = Some y /\ nodeIsMaster y = true).
  { destruct (nodeIsSlave x) eqn:Es; [|apply wp_ret; split; [by apply view_safe|]; exists x; split; [done|]; destruct (node_role _ st n x Hw Hx Hh) as [H _]; rewrite Es in H; by apply negb_true_iff in H || by destruct (nodeIsMaster x)]. eapply wp_mono; [by eapply as_master_ok|]. cbn beta. intros _ st1 (Hw1 & Hf1 & _ & y & Hy & Hym & _). split; [split; [done|by apply rframe_keeps]|eauto]. }
  intros _ st1 ([Hw1 Hk1] & y & Hy & Hys). apply wp_bind, (wp_update _ _ y); [done|]. apply wp_bind, wp_modify. set (y' := with_configEpoch y epoch). set (st2 := set_todo _ _). assert (view st2 = view st1) as Hv2. { unfold view. cbn. by rewrite (fmap_reinsert role_of _ _ y), (fmap_reinsert share _ _ y). }
  destruct (view_safe _ st1 st2 Hw1 Hv2) as [Hw2 Hk2]. eapply wp_mono; [apply (update_config_safe E n epoch claimed st2 y'); [done|apply lookup_insert_eq|done|done]|]. cbn beta. intros _ st3 [Hw3 Hk3]. split; [done|]. etransitivity; [exact Hk1|]. by etransitivity.
Qed.

(** ** Packets *)

(** What is asked of a packet from another node: bitmaps of the length the protocol has; a
    link that was opened to a known node; a sender that is a master or a slave; no names of
    nodes in handshake, which are random and not told to anybody; no gossip about the node at
    the other end of the link, as nodes do not gossip about themselves; and random names
    that do not hit the one of the sender. *)
Record wf_packet (E : env) (st : clusterState) (on : option name) (hdr : clusterMsg) : Prop := {
  pk_slots : 8 * zlen (myslots hdr) = CLUSTER_SLOTS E;
  pk_update : match data hdr with UPDATE _ n s => 8 * zlen s = CLUSTER_SLOTS E /\ (known st n -> joined st n) | _ => True end;
  pk_other : sender hdr <> myself st;
  pk_link : forall o, on = Some o -> known st o;
  pk_role : one_role (m_flags hdr);
  pk_sender : known st (sender hdr) -> joined st (sender hdr);
  pk_slaveof : known st (m_slaveof hdr) -> joined st (m_slaveof hdr);
  pk_gossip : Forall (fun g => on <> Some (g_nodename g)) (gossips hdr);
  pk_random : forall i, random_name (bus E) i <> sender hdr }.

Lemma view_joined st st' n : view st' = view st -> (known st n -> joined st n) -> known st' n -> joined st' n.
Proof. intros Hv%view_keeps H Hn. eapply keeps_joined; [done|]. apply H. destruct Hv as [_ Hh]. apply known_hands. rewrite <- Hh. by apply known_hands. Qed.

(** A PING, PONG or MEET whose sender is in the table. *)
Lemma ping_known_ok E on n hdr type l epoch st : wf (CLUSTER_SLOTS E) st -> (forall o, on = Some o -> known st o) -> joined st n -> n <> myself st -> (known st (m_slaveof hdr) -> joined st (m_slaveof hdr)) -> 8 * zlen (myslots hdr) = CLUSTER_SLOTS E -> one_role (m_flags hdr) ->
  Forall (fun g => on <> Some (g_nodename g)) l -> wp (process_ping E on (Some n) hdr type l epoch) (fun _ st' => wf (CLUSTER_SLOTS E) st' /\ survives st st') st.
Proof.
  intros Hw Hon Hn Hne Hmh Hc Hfl Hl. pose proof (joined_known _ _ Hn) as Hkn. unfold process_ping. eapply wp_step; [apply check_link_ok; [done|done|by intros ? [= <-]|done|done]|]. cbn beta. intros r st1 (Hw1 & Hs1 & Hr). destruct r as [on'|]; [|by apply wp_ret]. destruct (Hr on' eq_refl) as [Hon' Hv1]. destruct Hv1 as [-> Hv1]; [done|]. clear Hr Hs1.
  apply (calm_then st); [destruct type; [|apply calm_ret..]; apply calm_deref; [done|]; intros x _; apply calm_bind; [destruct (nodeInHandshake x); [apply calm_ret|by apply (calm_update_address _ st Hw)]|]; intros [|]; [by apply calm_modify|apply calm_ret]|done|]. intros _ st2 Hv2.
  apply (calm_then st); [destruct type; [apply calm_ret|by apply calm_pong|apply calm_ret]|done|]. intros _ st3 Hv3. destruct (view_safe _ st st3 Hw Hv3) as [Hw3 Hk3].
  eapply wp_mono; [apply (configuration_ok E on n hdr l epoch st3 Hw3); [intros; eapply keeps_known; [done|by apply Hon]|by eapply keeps_joined|by rewrite (proj1 Hk3)|by apply (view_joined st)|done|done]|]. cbn beta. intros _ st4 [Hw4 Hs4]. split; [done|]. etransitivity; [by apply keeps_survives|done].
Qed.

(** One whose sender is not. *)
Lemma ping_unknown_ok E on hdr type l epoch st : wf (CLUSTER_SLOTS E) st -> (forall o, on = Some o -> known st o) -> nodes st !! sender hdr = None -> one_role (m_flags hdr) ->
  wp (process_ping E on None hdr type l epoch) (fun _ st' => wf (CLUSTER_SLOTS E) st' /\ survives st st') st.
Proof.
  intros Hw Hon Hn Hfl. unfold process_ping. eapply wp_step; [by apply check_link_ok|]. cbn beta. intros r st1 (Hw1 & Hs1 & Hr). destruct r as [on'|]; [|by apply wp_ret]. destruct (Hr on' eq_refl) as [Hon' _]. apply wp_bind, wp_ret.
  apply (calm_then st1); [destruct type; [apply calm_ret|by apply calm_pong|apply calm_ret]|done|]. intros _ st2 Hv2. apply wp_ret. destruct (view_safe _ st1 st2 Hw1 Hv2) as [Hw2 Hk2]. split; [done|]. etransitivity; [exact Hs1|by apply keeps_survives].
Qed.

Lemma survives_after N (m : C unit) st st1 : survives st st1 -> wp m (fun _ st' => wf N st' /\ survives st1 st') st1 -> wp m (fun _ st' => wf N st' /\ survives st st') st1.
Proof. intros Hs Hm. eapply wp_mono; [exact Hm|]. cbn beta. intros _ st' [? ?]. split; [done|by etransitivity]. Qed.
Lemma calm_survives N st0 (m : C unit) st : wf N st0 -> view st = view st0 -> calm st0 m -> wp m (fun _ st' => wf N st' /\ survives st0 st') st.
Proof. intros Hw Hv Hm. eapply wp_mono; [by eapply calm_safe|]. cbn beta. intros _ st' [? ?]. split; [done|by apply keeps_survives]. Qed.

(** The start of a MEET of an unknown node. *)
Lemma meet_ok E on hdr st : wf (CLUSTER_SLOTS E) st -> (forall o, on = Some o -> known st o) -> Forall (fun g => on <> Some (g_nodename g)) (gossips hdr) ->
  wp (_ ← meet_node E hdr; clusterProcessGossipSection E on hdr (gossips hdr)) (fun _ st' => wf (CLUSTER_SLOTS E) st' /\ grows E st st') st.
Proof.
  intros Hw Hon Hl. eapply wp_step; [by apply meet_node_ok|]. cbn beta. intros _ st1 [Hw1 Hg1]. eapply wp_mono; [apply gossip_section_ok; [done|intros o Ho; eapply grows_known; [done|by apply Hon]|done]|]. cbn beta. intros _ st2 [Hw2 Hg2]. split; [done|by etransitivity].
Qed.

Lemma process_packet_ok E on hdr st : wf (CLUSTER_SLOTS E) st -> wf_packet E st on hdr -> wp (clusterProcessPacket E on hdr) (fun _ st' => wf (CLUSTER_SLOTS E) st' /\ survives st st') st.
Proof.
  intros Hw [P1 P2 P3 P4 P5 P6 P7 P8 P9]. unfold clusterProcessPacket. apply wp_bind, wp_gets. set (from := match nodes st !! sender hdr with Some _ => Some (sender hdr) | None => None end).
  assert (forall n, from = Some n -> joined st n /\ n <> myself st) as Hf. { subst from. intros n. destruct (nodes st !! sender hdr) as [x|] eqn:Ex; [|done]. intros [= <-]. split; [by eapply P6, node_known|done]. }
  assert (from = None -> ~ known st (sender hdr)) as Hf0. { subst from. destruct (nodes st !! sender hdr) as [x|] eqn:Ex; [done|]. intros _ [y Hy]%known_node. congruence. }
  clearbody from. assert (forall n, from = Some n -> known st n) as Hfk by (intros n Hn; by apply joined_known, Hf). apply (calm_then st); [by apply (calm_header _ st Hw)|done|]. intros [e1 e2] st1 Hv1. destruct (view_safe _ st st1 Hw Hv1) as [Hw1 Hk1].
  assert (forall type st2, wf (CLUSTER_SLOTS E) st2 -> grows E st st2 -> (from <> None -> view st2 = view st) -> wp (process_ping E on from hdr type (gossips hdr) e2) (fun _ st' => wf (CLUSTER_SLOTS E) st' /\ survives st st') st2) as Hping.
  { intros type st2 Hw2 Hg2 Hv2. assert (forall o, on = Some o -> known st2 o) as Hon2 by (intros o Ho; eapply grows_known; [done|by apply P4]). apply survives_after; [by eapply grows_survives|]. destruct from as [n|].
    - specialize (Hv2 ltac:(done)). destruct (view_safe _ st st2 Hw Hv2) as [_ Hk2]. destruct (Hf n eq_refl) as [Hn Hnm]. apply ping_known_ok; [done|done|by eapply keeps_joined|by rewrite (proj1 Hk2)|by apply (view_joined st)|done..].
    - apply ping_unknown_ok; [done|done| |done]. destruct (nodes st2 !! sender hdr) as [y|] eqn:Ey; [|done]. apply node_known, (gr_new _ _ _ Hg2) in Ey as [Hk|[i Hi]]; [by destruct (Hf0 eq_refl)|by destruct (P9 i)]. }
  assert (forall st2, view st2 = view st -> wf (CLUSTER_SLOTS E) st2 /\ grows E st st2) as Hview. { intros st2 Hv2. destruct (view_safe _ st st2 Hw Hv2). split; [done|by apply keeps_grows]. }
  assert (gossips hdr = match data hdr with PING l | PONG l | MEET l => l | _ => [] end) as Egos by done. destruct (data hdr) as [l|l|l|about|ch msg| | |epoch nodename claimed|] eqn:Edata; try (rewrite <- Egos).
  - apply (calm_then st); [by apply (calm_learn _ st Hw)|done|]. intros _ st2 Hv2. apply (calm_then st); [by apply (calm_send_pong _ st Hw)|done|]. intros _ st3 Hv3. apply Hping; [by apply Hview..|done].
  - apply Hping; [by apply Hview..|done].
  - apply (calm_then st); [by apply (calm_learn _ st Hw)|done|]. intros _ st2 Hv2. destruct (Hview st2 Hv2) as [Hw2 Hg2]. apply wp_step with (fun _ st3 => wf (CLUSTER_SLOTS E) st3 /\ grows E st st3 /\ (from <> None -> view st3 = view st)).
    { destruct from as [n|]; [by apply wp_ret|]. eapply wp_mono; [apply meet_ok; [done|intros o Ho; eapply grows_known; [done|by apply P4]|done]|]. cbn beta. intros _ st3 [Hw3 Hg3]. split_and!; [done|by etransitivity|done]. }
    intros _ st3 (Hw3 & Hg3 & Hv3). apply (calm_then st3); [by apply (calm_send_pong _ st3 Hw3)|done|]. intros _ st4 Hv4. destruct (view_safe _ st3 st4 Hw3 Hv4) as [Hw4 Hk4]. apply Hping; [done|etransitivity; [exact Hg3|by apply keeps_grows]|]. intros H. rewrite Hv4. by apply Hv3.
  - apply calm_survives; [done|done|by apply calm_fail].
  - apply calm_survives; [done|done|]. destruct (subscribers E); [by apply calm_modify|apply calm_ret].
  - apply calm_survives; [done|done|]. destruct from as [n|]; [apply (calm_auth _ st Hw); [done|by apply Hfk|done]|apply calm_ret].
  - apply calm_survives; [done|done|]. destruct from as [n|]; [apply calm_ack; by apply Hfk|apply calm_ret].
  - destruct from as [n|]; [|apply wp_ret; split; [done|by apply keeps_survives]]. destruct P2 as [P2 P2']. apply survives_after; [by apply keeps_survives|]. eapply wp_mono; [apply process_update_ok; [done|by apply (view_joined st)|done]|]. cbn beta. intros _ st2 [? ?]. split; [done|by apply keeps_survives].
  - apply calm_survives; [done|done|]. destruct from as [n|]; [apply calm_mfstart; by apply Hfk|apply calm_ret].
Qed.

(** ** Runs of a node *)

Inductive event := Packet (on : option name) (hdr : clusterMsg) | BeforeSleep | ManualFailover | CheckTimeout.
Definition handle (E : env) (e : event) : C unit :=
  match e with
  | Packet on hdr => clusterProcessPacket E on hdr
  | BeforeSleep => clusterBeforeSleep E
  | ManualFailover => clusterHandleManualFailover E
  | CheckTimeout => manualFailoverCheckTimeout E
  end.
Fixpoint run (l : list (env * event)) : C unit := match l with [] => mret tt | (E, e) :: l => _ ← handle E e; run l end.

(** An event that may happen in a state. *)
Definition admissible (N : Z) (st : clusterState) (p : env * event) : Prop :=
  CLUSTER_SLOTS p.1 = N /\ match p.2 with Packet on hdr => wf_packet p.1 st on hdr | _ => True end.
(** Every event of the run is admissible in the state it finds. *)
Fixpoint admissible_run (N : Z) (st : clusterState) (l : list (env * event)) : Prop :=
  match l with [] => True | p :: l => admissible N st p /\ forall st', handle p.1 p.2 st = Ok (st', tt) -> admissible_run N st' l end.

Lemma handle_ok N st p : wf N st -> admissible N st p -> wp (handle p.1 p.2) (fun _ st' => wf N st' /\ survives st st') st.
Proof.
  destruct p as [E [on hdr| | |]]; intros Hw [<- H]; cbn in *; [by apply process_packet_ok| |apply calm_survives; [done|done|apply calm_manual]|apply calm_survives; [done|done|apply calm_check_timeout]].
  eapply wp_mono; [by apply before_sleep_ok|]. cbn beta. intros _ st' [? ?]. split; [done|by apply keeps_survives].
Qed.

Lemma admissible_run_ok N l : forall st, wf N st -> admissible_run N st l -> exists st', run l st = Ok (st', tt) /\ wf N st' /\ survives st st'.
Proof.
  induction l as [|[E e] l IH]; intros st Hw Hl; cbn [run]; [by exists st|]. destruct Hl as [He Hl]. destruct (wp_run _ _ _ (handle_ok N st (E, e) Hw He)) as (st1 & [] & E1 & Hw1 & Hs1). destruct (IH st1 Hw1 (Hl st1 E1)) as (st2 & E2 & Hw2 & Hs2).
  exists st2. split_and!; [|done|by etransitivity]. unfold mbind, ST_bind. cbn in E1. by rewrite E1.
Qed.

(** C3: A node of the cluster that starts in a well-formed state (owner table, slot bitmaps,
    slot counters, lists of slaves and pointers to masters agree, nodes in handshake have no
    place yet) handles any admissible sequence of packets from other nodes and of event loop
    iterations, nodes joining by MEET and gossip, ending their handshake, being renamed or
    deleted, changing address, role and slots: no handler follows a dangling pointer, uses a
    freed link or fails an assertion, the state stays well formed, this node stays itself,
    and no node that has joined is lost. What is admissible is [wf_packet], asked of every
    packet in the state it meets: bitmaps of the right length; a sender that is not this node
    and says in its flags that it is a master or a slave, one of them; a link opened to a
    known node; no random name of a handshake as sender, master or subject of an update; no
    gossip about the node at the other end of the link; no random name equal to the name of
    the sender. *)
Theorem cluster_handlers_safe (N : Z) (st : clusterState) (l : list (env * event)) (Hw : wf N st) (Hl : admissible_run N st l) :
  exists st', run l st = Ok (st', tt) /\ wf N st' /\ myself st' = myself st /\ forall n, joined st n -> joined st' n.
Proof. destruct (admissible_run_ok N l st Hw Hl) as (st' & E & Hw' & Hm & Hj). eauto. Qed.

(** C10: A claim of slots by a master, with its configuration epoch: exactly the claimed slots
    that are not being imported and whose owner has an older epoch (or that have none) move
    to the claimer, so that afterwards every claimed slot that is not being imported belongs
    to the claimer or to a node with at least its epoch. A node whose master lost its last
    slot this way follows the claimer; one that lost slots but not all deletes the keys left
    in them. *)
Theorem slot_claims_by_epoch (E : env) (from : name) (epoch : Z) (claimed : list Z) (st : clusterState) (x : clusterNode)
  (Hw : wf (CLUSTER_SLOTS E) st) (Hne : from <> myself st) (Hx : nodes st !! from = Some x) (Hm : nodeIsMaster x = true) (Hc : 8 * zlen claimed = CLUSTER_SLOTS E) :
  exists st', clusterUpdateSlotsConfigWith E from epoch claimed st = Ok (st', tt) /\ wf (CLUSTER_SLOTS E) st' /\ claim_outcome E from epoch claimed st st' /\
    forall k, 0 <= k < CLUSTER_SLOTS E -> bit claimed k = true -> importing_slots_from (tables st) !! k = None ->
      exists n y, owner (tables st') !! k = Some n /\ nodes st' !! n = Some y /\ (n = from \/ epoch <= configEpoch y).
Proof.
  destruct (wp_run _ _ _ (update_config_ok E from epoch claimed st x Hw Hne Hx Hm Hc)) as (st' & [] & Hr & [Hw' Hk] & He & Ho). exists st'. split_and!; [done|done|done|]. intros k Hk0 Hb Hi. destruct Ho as [Ho _]. specialize (Ho k). rewrite bool_decide_decide in Ho. case_decide as Hy.
  - destruct (known_node st' from) as [y Hy']; [eapply keeps_known; [done|by eapply node_known]|]. eauto 6.
  - assert (yields st from epoch claimed k = false) as Hn. { apply not_true_is_false. intros H. apply Hy. split; [done|by apply in_all_slots]. } unfold yields in Hn. rewrite Hb, bool_decide_true in Hn by done. cbn [andb] in Hn. destruct (owner (tables st) !! k) as [n|] eqn:En; [|done].
    destruct (owner_known _ _ _ _ Hw En) as [z Hz]. pose proof (f_equal (lookup n) He) as Hen. rewrite !lookup_fmap, Hz in Hen. destruct (nodes st' !! n) as [y|] eqn:Hy'; [|done]. injection Hen as Hen. exists n, y. split_and!; [done|done|]. rewrite Hz in Hn. destruct (Z.eqb_spec n from); [by left|]. cbn in Hn. apply Z.ltb_ge in Hn. right. lia.
Qed.

(** C14: A slave that has won the election becomes a master that owns all slots of its old
    master, and no other slot changes hands. *)
Theorem failover_takes_slots (E : env) (st : clusterState) (x : clusterNode) (m : name)
  (Hw : wf (CLUSTER_SLOTS E) st) (Hx : nodes st !! myself st = Some x) (Hs : nodeIsMaster x = false) (Hm : slaveof x = Some m) :
  exists st' y, clusterFailoverReplaceYourMaster E st = Ok (st', tt) /\ wf (CLUSTER_SLOTS E) st' /\ nodes st' !! myself st = Some y /\ nodeIsMaster y = true /\
    forall k, owner (tables st') !! k = if bool_decide (owner (tables st) !! k = Some m) then Some (myself st) else owner (tables st) !! k.
Proof.
  destruct (wp_run _ _ _ (replace_master_ok E st Hw)) as (st' & [] & Hr & [Hw' _] & Ht). destruct (Ht m x Hx Hs Hm) as [(y & Hy & Hym) Ho]. by exists st', y.
Qed.

(** ** A small cluster: two masters with four slots each, and this node, a slave of the
    second. *)

(** Random names count up from a given number. *)
Definition tiny_bus (base : Z) : bus_env := mk_bus 7003 None 0 0 (str "10.0.0.9") (Some (str "10.0.0.3")) Some (fun i => base + Z.of_nat i).
Definition tiny_env_at (base : Z) : env := mk_env 8 100000 100 15000 10 10 true true 100 0 7 7 0 (fun _ => 1) false false [] (tiny_bus base).
Definition tiny_env : env := tiny_env_at 1000.
Definition tiny_addr (n : name) : address := mk_addr (str "10.0.0." ++ [48 + n]) 7000 17000.
Definition tiny_node (n : name) : clusterNode :=
  if n =? 3 then mk_node 18 0 [0] 0 [] (Some 2) true 0 0 0 0 0 0 [] (tiny_addr 3)
  else mk_node 1 n [if n =? 1 then 15 else 240] 4 (if n =? 2 then [3] else []) None true 0 0 0 0 0 0 [] (tiny_addr n).
Definition tiny_state : clusterState :=
  mk_state 3 5 0 CLUSTER_OK 2 (list_to_map (map (fun n => (n, tiny_node n)) [1; 2; 3])) (mk_tables (list_to_map (map (fun j => (j, if j <? 4 then 1 else 2)) (up_to 8 0))) ∅ ∅)
    (mk_election 0 0 false 0 0) (mk_manual 0 None 0 false) CANT_NONE 0 0 1 [] [] ∅.

Lemma tiny_lookup n x : nodes tiny_state !! n = Some x -> n ∈ [1; 2; 3] /\ x = tiny_node n.
Proof. intros H%elem_of_list_to_map_2. cbn [map] in H. rewrite !elem_of_cons in H. destruct H as [[= -> ->]|[[= -> ->]|[[= -> ->]|H%elem_of_nil]]]; [..|done]; (split; [set_solver|done]). Qed.
Lemma tiny_owner j n : owner (tables tiny_state) !! j = Some n -> 0 <= j < 8 /\ n ∈ [1; 2].
Proof.
  intros H%elem_of_list_to_map_2. cbn [up_to map] in H. rewrite !elem_of_cons in H. repeat (destruct H as [[= -> ->]|H]; [split; [lia|set_solver]|]). by apply elem_of_nil in H.
Qed.

Lemma tiny_roles : roles_ok 3 (roles tiny_state).
Proof.
  assert (forall n r, roles tiny_state !! n = Some r -> n ∈ [1; 2; 3] /\ r = role_of (tiny_node n)) as Hr. { intros n r (x & Hx & <-)%roles_known. apply tiny_lookup in Hx as [? ->]. done. }
  constructor.
  - intros n r m [Hn ->]%Hr. rewrite !elem_of_cons, elem_of_nil in Hn. destruct Hn as [->|[->|[->|[]]]]; cbn; intros [= <-]. vm_compute. eauto.
  - intros m r s [Hn ->]%Hr. split.
    + rewrite !elem_of_cons, elem_of_nil in Hn. destruct Hn as [->|[->|[->|[]]]]; cbn; [by intros ?%elem_of_nil| |by intros ?%elem_of_nil]. intros ->%list_elem_of_singleton. exists (role_of (tiny_node 3)). split; vm_compute; reflexivity.
    + intros (z & [Hz ->]%Hr & Hs). rewrite !elem_of_cons, elem_of_nil in Hz. destruct Hz as [->|[->|[->|[]]]]; cbn in Hs; [done|done|]. injection Hs as <-. cbn. left.
  - intros m r [Hn ->]%Hr. rewrite !elem_of_cons, elem_of_nil in Hn. destruct Hn as [->|[->|[->|[]]]]; cbn; [constructor|apply NoDup_singleton|constructor].
  - intros n r [Hn ->]%Hr. rewrite !elem_of_cons, elem_of_nil in Hn. by destruct Hn as [->|[->|[->|[]]]].
  - intros n r [Hn ->]%Hr. rewrite !elem_of_cons, elem_of_nil in Hn. by destruct Hn as [->|[->|[->|[]]]].
  - exists (role_of (tiny_node 3)). split; [by vm_compute|done].
Qed.

Lemma tiny_wf : wf 8 tiny_state.
Proof.
  assert (forall n s, (share <$> nodes tiny_state) !! n = Some s -> n ∈ [1; 2; 3] /\ s = share (tiny_node n)) as Hs. { intros n s. rewrite lookup_fmap. intros (x & [Hn ->]%tiny_lookup & ->)%fmap_Some. done. }
  constructor; [apply tiny_roles| |].
  - constructor.
    + intros n s [Hn ->]%Hs. rewrite !elem_of_cons, elem_of_nil in Hn. by destruct Hn as [->|[->|[->|[]]]].
    + intros n s j [Hn ->]%Hs Hj. assert (j ∈ up_to 8 0) as Hin by (apply in_up_to; lia). cbn [up_to] in Hin. rewrite !elem_of_cons, elem_of_nil in Hin. rewrite !elem_of_cons, elem_of_nil in Hn.
      destruct Hn as [->|[->|[->|[]]]]; repeat (destruct Hin as [->|Hin]; [vm_compute; reflexivity|]); done.
    + intros n s [Hn ->]%Hs. rewrite !elem_of_cons, elem_of_nil in Hn. by destruct Hn as [->|[->|[->|[]]]].
    + intros j n [Hj Hn]%tiny_owner. split; [done|]. rewrite !elem_of_cons, elem_of_nil in Hn. destruct Hn as [->|[->|[]]]; vm_compute; eauto.
  - intros n x [Hn ->]%tiny_lookup. rewrite !elem_of_cons, elem_of_nil in Hn. by destruct Hn as [->|[->|[->|[]]]].
Qed.

(** Node 1 claims every slot with a greater epoch; then an update says node 2 has its slots
    back. Node 9, which is new, sends a MEET, gets the random name 1000, and its own when it
    answers on the link to 1000. It tells of a node 8, which gets the name 2001; the address
    turns out to be one of node 9. *)
Definition tiny_claim : clusterMsg := mk_msg (PONG []) 1 1 6 6 0 [255] 0 0 null_addr.
Definition tiny_update : clusterMsg := mk_msg (UPDATE 7 2 [240]) 1 1 7 6 0 [255] 0 0 null_addr.
Definition from_nine (d : msg_data) : clusterMsg := mk_msg d 9 1 7 0 0 [0] 0 0 (tiny_addr 9).
Definition tiny_events : list (env * event) :=
  [(tiny_env, Packet (Some 1) tiny_claim); (tiny_env, BeforeSleep); (tiny_env, Packet None tiny_update); (tiny_env, Packet None (from_nine (MEET []))); (tiny_env, Packet (Some 1000) (from_nine (PONG [])));
   (tiny_env_at 2000, Packet None (from_nine (PING [mk_gossip 8 1 0 (mk_addr (str "10.0.1.9") 7000 17000); mk_gossip 2 1 90 (tiny_addr 2)]))); (tiny_env, Packet (Some 2001) (from_nine (PONG []))); (tiny_env, ManualFailover); (tiny_env, CheckTimeout)].

(** Deciding admissibility, the random names apart. *)
Definition settled (st : clusterState) (n : name) : bool := match nodes st !! n with Some x => negb (nodeInHandshake x) | None => true end.
Definition packet_okb (E : env) (st : clusterState) (on : option name) (hdr : clusterMsg) : bool :=
  (8 * zlen (myslots hdr) =? CLUSTER_SLOTS E) && match data hdr with UPDATE _ n s => (8 * zlen s =? CLUSTER_SLOTS E) && settled st n | _ => true end && negb (sender hdr =? myself st) &&
  match on with Some o => bool_decide (is_Some (nodes st !! o)) | None => true end && (let r := Z.land (m_flags hdr) (Z.lor CLUSTER_NODE_MASTER CLUSTER_NODE_SLAVE) in (r =? CLUSTER_NODE_MASTER) || (r =? CLUSTER_NODE_SLAVE)) &&
  settled st (sender hdr) && settled st (m_slaveof hdr) && forallb (fun g => negb (bool_decide (on = Some (g_nodename g)))) (gossips hdr).
Fixpoint admissibleb (N : Z) (st : clusterState) (l : list (env * event)) : bool :=
  match l with
  | [] => true
  | (E, e) :: l => (CLUSTER_SLOTS E =? N) && match e with Packet on hdr => packet_okb E st on hdr | _ => true end && match handle E e st with Ok (st', _) => admissibleb N st' l | Fault _ => true end
  end.
Definition fresh_names (p : env * event) : Prop := match p.2 with Packet _ hdr => forall i, random_name (bus p.1) i <> sender hdr | _ => True end.

Lemma settled_joined st n : settled st n = true -> known st n -> joined st n.
Proof. unfold settled. intros H [x Hx]%known_node. rewrite Hx in H. eapply node_joined; [done|]. by apply negb_true_iff. Qed.
Lemma packet_okb_ok E st on hdr : packet_okb E st on hdr = true -> (forall i, random_name (bus E) i <> sender hdr) -> wf_packet E st on hdr.
Proof.
  unfold packet_okb. cbv zeta. rewrite !andb_true_iff. intros (((((((H1 & H2) & H3) & H4) & H5) & H6) & H7) & H8) H9. constructor; [lia| |by apply negb_true_iff, Z.eqb_neq in H3| | |by apply settled_joined..| |done].
  - destruct (data hdr); try done. apply andb_true_iff in H2 as [H2 H2']. split; [lia|by apply settled_joined].
  - intros o ->. apply bool_decide_eq_true in H4. by apply elem_of_dom.
  - apply orb_true_iff in H5 as [H5|H5]; apply Z.eqb_eq in H5; [by left|by right].
  - apply list.Forall_forall. intros g Hg%list_elem_of_In. rewrite forallb_forall in H8. specialize (H8 g Hg). by apply negb_true_iff, bool_decide_eq_false in H8.
Qed.
Lemma admissibleb_ok N l : forall st, admissibleb N st l = true -> Forall fresh_names l -> admissible_run N st l.
Proof.
  induction l as [|[E e] l IH]; intros st H Hf; [done|]. apply list.Forall_cons in Hf as [He Hf]. cbn [admissibleb] in H. rewrite !andb_true_iff in H. destruct H as [[H1 H2] H3]. split; [|intros st' E'; cbn in E'; rewrite E' in H3; by apply IH].
  split; [cbn; lia|]. cbn. destruct e; [|done..]. by apply packet_okb_ok.
Qed.

Lemma tiny_admissible : admissible_run 8 tiny_state tiny_events.
Proof. apply admissibleb_ok; [vm_compute; reflexivity|]. unfold tiny_events. repeat (apply List.Forall_cons; [first [exact I|intros i; cbn; lia]|]). apply List.Forall_nil. Qed.

(** The cluster of the example meets the hypotheses of [cluster_handlers_safe]. *)
Lemma cluster_handlers_safe_witness : exists st', run tiny_events tiny_state = Ok (st', tt) /\ wf 8 st' /\ myself st' = myself tiny_state /\ forall n, joined tiny_state n -> joined st' n.
Proof. exact (cluster_handlers_safe 8 tiny_state tiny_events tiny_wf tiny_admissible). Defined.

(** The nodes after each event of the example. *)
Fixpoint names_after (l : list (env * event)) (st : clusterState) : list (list name) :=
  match l with [] => [] | (E, e) :: l => match handle E e st with Ok (st', _) => map fst (map_to_list (nodes st')) :: names_after l st' | Fault _ => [] end end.
Example tiny_names : map (fun l => (bool_decide (1000 ∈ l), bool_decide (9 ∈ l), bool_decide (2001 ∈ l), length l)) (names_after tiny_events tiny_state) =
  [(false, false, false, 3%nat); (false, false, false, 3%nat); (false, false, false, 3%nat); (true, false, false, 4%nat); (false, true, false, 4%nat); (false, true, true, 5%nat); (false, true, false, 4%nat); (false, true, false, 4%nat); (false, true, false, 4%nat)].
Proof. vm_compute. reflexivity. Qed.

(** A node that gossips about itself, with another address, while it is thought to fail:
    the link is freed, and the packet in its buffer is read on. *)
Definition failing_state : clusterState := set_nodes tiny_state (<[1 := set_flag (tiny_node 1) CLUSTER_NODE_FAIL]> (nodes tiny_state)).
Example gossip_about_link : clusterProcessPacket tiny_env (Some 1) (mk_msg (PING [mk_gossip 1 1 0 (tiny_addr 7)]) 1 1 6 1 0 [15] 0 0 null_addr) failing_state = Fault OutOfBounds.
Proof. vm_compute. reflexivity. Qed.

(** The owners of the slots, and the effects, after the claim of the example. *)
Example tiny_claim_run :
  match clusterUpdateSlotsConfigWith tiny_env 1 6 [255] tiny_state with
  | Ok (st', _) => Some (map (fun j => owner (tables st') !! j) (up_to 8 0), slaveof <$> nodes st' !! 3, effects st')
  | Fault _ => None
  end = Some (repeat (Some 1) 8, Some (Some 1), [SetMaster 1]).
Proof. vm_compute. reflexivity. Qed.

(** The claim of the example meets the hypotheses of [slot_claims_by_epoch]. *)
Lemma slot_claims_by_epoch_witness :
  exists st', clusterUpdateSlotsConfigWith tiny_env 1 6 [255] tiny_state = Ok (st', tt) /\ wf 8 st' /\ claim_outcome tiny_env 1 6 [255] tiny_state st' /\
    forall k, 0 <= k < 8 -> bit [255] k = true -> importing_slots_from (tables tiny_state) !! k = None ->
      exists n y, owner (tables st') !! k = Some n /\ nodes st' !! n = Some y /\ (n = 1 \/ 6 <= configEpoch y).
Proof. exact (slot_claims_by_epoch tiny_env 1 6 [255] tiny_state (tiny_node 1) tiny_wf ltac:(discriminate) ltac:(vm_compute; reflexivity) eq_refl eq_refl). Defined.

(** The slave of the example meets the hypotheses of [failover_takes_slots]. *)
Lemma failover_takes_slots_witness :
  exists st' y, clusterFailoverReplaceYourMaster tiny_env tiny_state = Ok (st', tt) /\ wf 8 st' /\ nodes st' !! 3 = Some y /\ nodeIsMaster y = true /\
    forall k, owner (tables st') !! k = if bool_decide (owner (tables tiny_state) !! k = Some 2) then Some 3 else owner (tables tiny_state) !! k.
Proof. exact (failover_takes_slots tiny_env tiny_state (tiny_node 3) 2 tiny_wf ltac:(vm_compute; reflexivity) eq_refl eq_refl). Defined.
End ClusterSafe.
