(* ===== verification/ClusterVote.v ===== *)
(** * Failover elections: at most one winner per epoch

    A network of nodes that run the handlers of [Cluster] and exchange packets, which may
    be lost or delivered in any order. The theorems are about the elections of slaves that
    want to replace a failed master. *)
From stdpp Require Import gmap.
From S2P Require Import Prelude StateM Cluster.

Module ClusterVote.
Import Cluster.

(** ** Handlers that leave elections alone *)

Definition ballot (d : msg_data) : bool := match d with FAILOVER_AUTH_REQUEST | FAILOVER_AUTH_ACK => true | _ => false end.
Definition is_unset (e : effect) : bool := match e with UnsetMaster => true | _ => false end.
(** How often this node took over from its master. *)
Definition takeovers (st : clusterState) : nat := length (List.filter is_unset (effects st)).

(** The packets sent on the way from [st] to [st']. *)
Definition sends (st st' : clusterState) (l : list (name * clusterMsg)) : Prop := sndbuf st' = sndbuf st ++ l.

Definition quiet_msgs (st st' : clusterState) : Prop := exists l, sends st st' l /\ Forall (fun p => ballot (data p.2) = false) l.

Record quiet (st st' : clusterState) : Prop := mk_quiet {
  q_self : myself st' = myself st;
  q_vote : lastVoteEpoch st' = lastVoteEpoch st;
  q_failover : failover st' = failover st;
  q_takeovers : takeovers st' = takeovers st;
  q_sends : quiet_msgs st st' }.

Lemma quiet_refl st : quiet st st.
Proof. constructor; try done. exists []. split; [unfold sends; by rewrite app_nil_r|constructor]. Qed.

Lemma quiet_trans a b c : quiet a b -> quiet b c -> quiet a c.
Proof.
  intros [H1 H2 H3 H4 (l & Hl & Fl)] [K1 K2 K3 K4 (k & Hk & Fk)]. constructor; try congruence. exists (l ++ k). unfold sends in *.
  split; [by rewrite Hk, Hl, app_assoc|by apply list.Forall_app].
Qed.

#[global] Instance quiet_preorder : PreOrder quiet.
Proof. split; [exact quiet_refl|exact quiet_trans]. Qed.

Definition quietly {A} (m : C A) : Prop := forall st, wlp m (fun _ => quiet st) st.

Create HintDb quiet discriminated.

Lemma quietly_ret {A} (a : A) : quietly (mret a).
Proof. intros st. apply wlp_ret, quiet_refl. Qed.
Lemma quietly_bind {A B} (m : C A) (k : A -> C B) : quietly m -> (forall a, quietly (k a)) -> quietly (m ≫= k).
Proof. intros Hm Hk st. eapply wlp_step; [apply Hm|]. cbn beta. intros a st' Hq. eapply wlp_mono; [apply Hk|]. cbn beta. intros b st2. by apply quiet_trans. Qed.
Lemma quietly_lift {A} (m : res A) : quietly (lift m).
Proof. intros st. apply wlp_lift. intros. apply quiet_refl. Qed.
Lemma quietly_gets {A} (f : clusterState -> A) : quietly (gets f).
Proof. intros st. apply wlp_gets, quiet_refl. Qed.
Lemma quietly_modify f : (forall st, quiet st (f st)) -> quietly (modify f).
Proof. intros H st. apply wlp_modify, H. Qed.
Lemma quietly_deref n : quietly (deref n).
Proof. intros st. unfold wlp, deref. by destruct (nodes st !! n). Qed.

(** Changes of the other fields. *)
Lemma quiet_same st st' : myself st' = myself st -> lastVoteEpoch st' = lastVoteEpoch st -> failover st' = failover st -> sndbuf st' = sndbuf st -> effects st' = effects st -> quiet st st'.
Proof. intros H1 H2 H3 H4 H5. constructor; [done..|unfold takeovers; by rewrite H5|]. exists []. unfold sends. by rewrite H4, app_nil_r. Qed.
Lemma quiet_push st to m : ballot (data m) = false -> quiet st (push_msg st to m).
Proof. intros H. constructor; [done..|]. exists [(to, m)]. split; [done|]. by repeat constructor. Qed.
Lemma quiet_effect st e : is_unset e = false -> quiet st (push_effect st e).
Proof.
  intros H. constructor; [done..| |exists []; unfold sends; cbn; by rewrite app_nil_r]. unfold takeovers. cbn. rewrite List.filter_app. cbn. rewrite H. by rewrite app_nil_r.
Qed.

#[export] Hint Resolve quietly_ret quietly_lift quietly_gets quietly_deref : quiet.
#[export] Hint Extern 2 (quietly (modify _)) => apply quietly_modify; intros ?; first [by apply quiet_same|apply quiet_push; by auto with quiet|by apply quiet_effect|case_match; by apply quiet_same] : quiet.
Ltac quiet := repeat first [progress intros|solve [auto with quiet nocore]|apply quietly_bind|match goal with |- quietly (match ?x with _ => _ end) => destruct x end].
Ltac quiet_def f := unfold f; quiet.

Lemma quietly_update n f : quietly (update n f).
Proof. quiet_def update. Qed.
Lemma quietly_self : quietly self.
Proof. quiet_def self. Qed.
Lemma quietly_lookup n : quietly (clusterLookupNode n).
Proof. quiet_def clusterLookupNode. Qed.
Lemma quietly_all : quietly all_nodes.
Proof. quiet_def all_nodes. Qed.
Lemma quietly_todo f : quietly (clusterDoBeforeSleep f).
Proof. quiet_def clusterDoBeforeSleep. Qed.
Lemma quietly_save b : quietly (clusterSaveConfigOrDie b).
Proof. quiet_def clusterSaveConfigOrDie. Qed.
Lemma quietly_call e : is_unset e = false -> quietly (call e).
Proof. intros H. unfold call. apply quietly_modify. intros st. by apply quiet_effect. Qed.
Lemma quietly_deref_opt o : quietly (deref_opt o).
Proof. quiet_def deref_opt. Qed.
#[export] Hint Resolve quietly_update quietly_self quietly_lookup quietly_all quietly_todo quietly_save quietly_deref_opt : quiet.
#[export] Hint Extern 1 (quietly (call _)) => by apply quietly_call : quiet.

Lemma quietly_have_slaves : quietly clusterMastersHaveSlaves.
Proof. quiet_def clusterMastersHaveSlaves. Qed.
#[export] Hint Resolve quietly_have_slaves : quiet.
Lemma quietly_set_bit n j : quietly (clusterNodeSetSlotBit n j).
Proof. quiet_def clusterNodeSetSlotBit. Qed.
Lemma quietly_clear_bit n j : quietly (clusterNodeClearSlotBit n j).
Proof. quiet_def clusterNodeClearSlotBit. Qed.
Lemma quietly_get_bit n j : quietly (clusterNodeGetSlotBit n j).
Proof. quiet_def clusterNodeGetSlotBit. Qed.
Lemma quietly_owner j : quietly (slot_owner j).
Proof. quiet_def slot_owner. Qed.
Lemma quietly_set_owner j o : quietly (set_owner j o).
Proof. quiet_def set_owner. Qed.
#[export] Hint Resolve quietly_set_bit quietly_clear_bit quietly_get_bit quietly_owner quietly_set_owner : quiet.
Lemma quietly_add_slot n j : quietly (clusterAddSlot n j).
Proof. quiet_def clusterAddSlot. Qed.
Lemma quietly_del_slot j : quietly (clusterDelSlot j).
Proof. quiet_def clusterDelSlot. Qed.
#[export] Hint Resolve quietly_add_slot quietly_del_slot : quiet.

Ltac quiet_loop l := induction l as [|? ? ?IHl]; intros; cbn; quiet.

Lemma quietly_del_slots n js : quietly (del_slots_loop n js).
Proof. quiet_loop js. Qed.
Lemma quietly_del_node_slots E n : quietly (clusterDelNodeSlots E n).
Proof. unfold clusterDelNodeSlots. apply quietly_bind; [apply quietly_del_slots|quiet]. Qed.
Lemma quietly_close : quietly clusterCloseAllSlots.
Proof. quiet_def clusterCloseAllSlots. Qed.
Lemma quietly_remove_slave m n : quietly (clusterNodeRemoveSlave m n).
Proof. quiet_def clusterNodeRemoveSlave. Qed.
Lemma quietly_add_slave m n : quietly (clusterNodeAddSlave m n).
Proof. quiet_def clusterNodeAddSlave. Qed.
#[export] Hint Resolve quietly_del_node_slots quietly_close quietly_remove_slave quietly_add_slave : quiet.
Lemma quietly_as_master n : quietly (clusterSetNodeAsMaster n).
Proof. quiet_def clusterSetNodeAsMaster. Qed.
Lemma quietly_reset_mf E : quietly (resetManualFailover E).
Proof. quiet_def resetManualFailover. Qed.
#[export] Hint Resolve quietly_as_master quietly_reset_mf : quiet.
Lemma quietly_set_master E n : quietly (clusterSetMaster E n).
Proof. quiet_def clusterSetMaster. Qed.
#[export] Hint Resolve quietly_set_master : quiet.

Lemma quietly_add_report E n s : quietly (clusterNodeAddFailureReport E n s).
Proof. quiet_def clusterNodeAddFailureReport. Qed.
Lemma quietly_cleanup E n : quietly (clusterNodeCleanupFailureReports E n).
Proof. quiet_def clusterNodeCleanupFailureReports. Qed.
#[export] Hint Resolve quietly_add_report quietly_cleanup : quiet.
Lemma quietly_del_report E n s : quietly (clusterNodeDelFailureReport E n s).
Proof. quiet_def clusterNodeDelFailureReport. Qed.
Lemma quietly_count_reports E n : quietly (clusterNodeFailureReportsCount E n).
Proof. quiet_def clusterNodeFailureReportsCount. Qed.
#[export] Hint Resolve quietly_del_report quietly_count_reports : quiet.

(** The header of a packet is about the sender. *)
Lemma build_header E d st : wlp (clusterBuildMessageHdr E d) (fun m st' => st' = st /\ data m = d /\ sender m = myself st /\ m_currentEpoch m = currentEpoch st) st.
Proof.
  unfold clusterBuildMessageHdr, self. apply wlp_bind, wlp_gets, wlp_bind, wlp_bind, wlp_gets. unfold deref. unfold wlp at 1. destruct (nodes st !! myself st) as [x|]; [|done].
  apply (wlp_step _ _ (fun _ st' => st' = st)).
  - destruct (slaveof x) as [m|]; [|by apply wlp_ret]. destruct (nodeIsSlave x); [|by apply wlp_ret]. unfold wlp. by destruct (nodes st !! m).
  - intros y ? ->. apply wlp_bind, wlp_gets, wlp_ret. done.
Qed.

(** A packet that is not a ballot, sent at most once. *)
Lemma quietly_packet E d (k : clusterMsg -> C unit) : ballot d = false -> (forall m, ballot (data m) = false -> quietly (k m)) -> quietly (m ← clusterBuildMessageHdr E d; k m).
Proof. intros Hd Hk st. eapply wlp_step; [apply build_header|]. cbn beta. intros m ? (-> & <- & _). by apply Hk. Qed.
Lemma quietly_send to m : ballot (data m) = false -> quietly (clusterSendMessage to m).
Proof. intros H. apply quietly_modify. intros st. by apply quiet_push. Qed.
#[export] Hint Resolve quietly_send : quiet.
Ltac quiet ::= repeat first [progress intros|solve [auto with quiet nocore]|apply quietly_packet; [done|]|apply quietly_bind|match goal with |- quietly (match ?x with _ => _ end) => destruct x end].
Lemma quietly_broadcast m l : ballot (data m) = false -> quietly (broadcast_loop l m).
Proof. intros H. induction l as [|[n x] l IH]; cbn; quiet. Qed.
Lemma quietly_send_fail E n : quietly (clusterSendFail E n).
Proof. apply quietly_packet; [done|]. intros m H. unfold clusterBroadcastMessage. quiet. by apply quietly_broadcast. Qed.
Lemma quietly_send_update E to n : quietly (clusterSendUpdate E to n).
Proof. quiet_def clusterSendUpdate. Qed.
Lemma quietly_pong E to : quietly (send_pong E to).
Proof. quiet_def send_pong. Qed.
#[export] Hint Resolve quietly_send_fail quietly_send_update quietly_pong : quiet.
Lemma quietly_pong_loop E b l : quietly (broadcast_pong_loop E b l).
Proof. induction l as [|[n x] l IH]; cbn; quiet. Qed.
Lemma quietly_broadcast_pong E b : quietly (clusterBroadcastPong E b).
Proof. unfold clusterBroadcastPong. quiet. apply quietly_pong_loop. Qed.
#[export] Hint Resolve quietly_broadcast_pong : quiet.

Lemma quietly_mark E n : quietly (markNodeAsFailingIfNeeded E n).
Proof. quiet_def markNodeAsFailingIfNeeded. Qed.
Lemma quietly_clear_failure E n : quietly (clearNodeFailureIfNeeded E n).
Proof. quiet_def clearNodeFailureIfNeeded. Qed.
Lemma quietly_next_epoch : quietly next_epoch.
Proof. quiet_def next_epoch. Qed.
#[export] Hint Resolve quietly_mark quietly_clear_failure quietly_next_epoch : quiet.
Lemma quietly_collision n : quietly (clusterHandleConfigEpochCollision n).
Proof. quiet_def clusterHandleConfigEpochCollision. Qed.
Lemma quietly_update_loop E n e b c js : forall nm d, quietly (update_slots_loop E n e b c js nm d).
Proof. quiet_loop js. Qed.
Lemma quietly_del_keys js : quietly (del_keys_loop js).
Proof. quiet_loop js. Qed.
#[export] Hint Resolve quietly_collision quietly_update_loop quietly_del_keys : quiet.
Lemma quietly_update_slots E n e b : quietly (clusterUpdateSlotsConfigWith E n e b).
Proof. quiet_def clusterUpdateSlotsConfigWith. Qed.
Lemma quietly_uncovered js : quietly (uncovered_loop js).
Proof. quiet_loop js. Qed.
#[export] Hint Resolve quietly_update_slots quietly_uncovered : quiet.
Lemma quietly_update_state E : quietly (clusterUpdateState E).
Proof. quiet_def clusterUpdateState. Qed.
Lemma quietly_newer b e js : quietly (newer_owner_loop b e js).
Proof. quiet_loop js. Qed.
Lemma quietly_rank_loop me o l : forall r, quietly (rank_loop me o l r).
Proof. quiet_loop l. Qed.
#[export] Hint Resolve quietly_update_state quietly_newer quietly_rank_loop : quiet.
Lemma quietly_rank E : quietly (clusterGetSlaveRank E).
Proof. quiet_def clusterGetSlaveRank. Qed.
Lemma quietly_take o me js : quietly (take_slots_loop o me js).
Proof. quiet_loop js. Qed.
Lemma quietly_reason r : quietly (clusterLogCantFailover r).
Proof. quiet_def clusterLogCantFailover. Qed.
#[export] Hint Resolve quietly_rank quietly_take quietly_reason : quiet.

Lemma quietly_header E from hdr : quietly (process_header E from hdr).
Proof. quiet_def process_header. Qed.
Lemma quietly_pong_arrived E on : quietly (pong_arrived E on).
Proof. quiet_def pong_arrived. Qed.
Lemma quietly_role E n hdr : quietly (role_switch E n hdr).
Proof. quiet_def role_switch. Qed.
Lemma quietly_stale E n b e js : quietly (stale_claim_loop E n b e js).
Proof. quiet_loop js. Qed.
#[export] Hint Resolve quietly_header quietly_pong_arrived quietly_role quietly_stale : quiet.

(** The table of nodes. *)
Lemma quietly_add_node n x : quietly (clusterAddNode n x).
Proof. quiet_def clusterAddNode. Qed.
Lemma quietly_blacklist E n : quietly (clusterBlacklistExists E n).
Proof. unfold clusterBlacklistExists, clusterBlacklistCleanup. quiet. Qed.
#[export] Hint Resolve quietly_add_node quietly_blacklist : quiet.
Lemma quietly_handshake E i a : quietly (clusterStartHandshake E i a).
Proof. unfold clusterStartHandshake, clusterHandshakeInProgress. quiet. Qed.
Lemma quietly_address E on n hdr : quietly (nodeUpdateAddressIfNeeded E on n hdr).
Proof. quiet_def nodeUpdateAddressIfNeeded. Qed.
Lemma quietly_learn E b : quietly (learn_my_address E b).
Proof. quiet_def learn_my_address. Qed.
Lemma quietly_meet E hdr : quietly (meet_node E hdr).
Proof. quiet_def meet_node. Qed.
#[export] Hint Resolve quietly_handshake quietly_address quietly_learn quietly_meet : quiet.
Lemma quietly_gossip_entry E on from i g : quietly (gossip_entry E on from i g).
Proof. quiet_def gossip_entry. Qed.
#[export] Hint Resolve quietly_gossip_entry : quiet.
Lemma quietly_gossip_loop E on from l : forall i, quietly (gossip_loop E on from i l).
Proof. quiet_loop l. Qed.
#[export] Hint Resolve quietly_gossip_loop : quiet.
Lemma quietly_gossip E on hdr l : quietly (clusterProcessGossipSection E on hdr l).
Proof. quiet_def clusterProcessGossipSection. Qed.
#[export] Hint Resolve quietly_gossip : quiet.
Lemma quietly_orphan l : quietly (orphan_loop l).
Proof. quiet_loop l. Qed.
Lemma quietly_unassign n js : quietly (unassign_loop n js).
Proof. induction js as [|j js IH]; cbn; unfold clear_importing, clear_migrating, set_open; quiet. Qed.
Lemma quietly_drop_reports E n l : quietly (drop_reports_loop E n l).
Proof. induction l as [|[m x] l IH]; cbn; quiet. Qed.
#[export] Hint Resolve quietly_orphan quietly_unassign quietly_drop_reports : quiet.
Lemma quietly_free n : quietly (freeClusterNode n).
Proof. quiet_def freeClusterNode. Qed.
#[export] Hint Resolve quietly_free : quiet.
Lemma quietly_del_node E n : quietly (clusterDelNode E n).
Proof. quiet_def clusterDelNode. Qed.
#[export] Hint Resolve quietly_del_node : quiet.

(** A node is never in handshake with itself; a new name for another node changes nothing
    here. *)
Lemma wlp_quiet {A} (m : C A) st0 st : quiet st0 st -> quietly m -> wlp m (fun _ => quiet st0) st.
Proof. intros Hq Hm. eapply wlp_mono; [apply Hm|]. cbn beta. intros _ st'. by apply quiet_trans. Qed.
Lemma rename_quiet n new st : n <> myself st -> wlp (clusterRenameNode n new) (fun _ => quiet st) st.
Proof.
  intros Hn. unfold clusterRenameNode. eapply wlp_step; [apply quietly_deref|]. cbn beta. intros x st1 Q1. apply wlp_bind, wlp_modify, wlp_bind, wlp_modify. apply wlp_quiet; [|quiet]. etrans; [exact Q1|]. apply quiet_same; [|done..]. cbn. unfold renamed. rewrite (q_self _ _ Q1), (proj2 (Z.eqb_neq (myself st) n)) by congruence. done.
Qed.
Lemma check_link_quiet E on from hdr st : on <> Some (myself st) -> wlp (check_link E on from hdr) (fun _ => quiet st) st.
Proof.
  intros Hon. unfold check_link. destruct on as [o|]; [|by apply wlp_ret]. eapply wlp_step; [apply quietly_deref|]. cbn beta. intros x st1 Q1. destruct (nodeInHandshake x).
  - destruct from as [n|]; [apply wlp_quiet; [done|quiet]|]. eapply wlp_step; [apply rename_quiet; rewrite (q_self _ _ Q1); congruence|]. cbn beta. intros _ st2 Q2. apply wlp_quiet; [by etrans|quiet].
  - apply wlp_quiet; [done|quiet].
Qed.
Lemma ping_quiet E on from hdr p l e st : on <> Some (myself st) -> wlp (process_ping E on from hdr p l e) (fun _ => quiet st) st.
Proof.
  intros Hon. unfold process_ping. eapply wlp_step; [by apply check_link_quiet|]. cbn beta. intros open st1 Q1. apply wlp_quiet; [done|quiet].
Qed.
Lemma quietly_fail E from n : quietly (process_fail E from n).
Proof. quiet_def process_fail. Qed.
Lemma quietly_mfstart E n : quietly (process_mfstart E n).
Proof. quiet_def process_mfstart. Qed.
Lemma quietly_process_update E e n b : quietly (process_update E e n b).
Proof. quiet_def process_update. Qed.
#[export] Hint Resolve quietly_fail quietly_mfstart quietly_process_update : quiet.

Lemma quiet_process E on hdr st : ballot (data hdr) = false -> on <> Some (myself st) -> wlp (clusterProcessPacket E on hdr) (fun _ => quiet st) st.
Proof.
  intros H Hon. unfold clusterProcessPacket. eapply wlp_step; [apply quietly_lookup|]. cbn beta. intros from st1 Q1. eapply wlp_step; [apply quietly_header|]. cbn beta. intros [e1 e2] st2 Q2. pose proof (quiet_trans _ _ _ Q1 Q2) as Q.
  assert (forall A (m : C A) k, quietly m -> (forall st3, quiet st st3 -> wlp k (fun _ : unit => quiet st) st3) -> forall st3, quiet st st3 -> wlp (_ ← m; k) (fun _ => quiet st) st3) as Hseq. { intros A m k Hm Hk st3 Q3. eapply wlp_step; [apply Hm|]. cbn beta. intros _ st4 Q4. apply Hk. by etrans. }
  assert (forall p l st3, quiet st st3 -> wlp (process_ping E on from hdr p l e2) (fun _ => quiet st) st3) as Hping. { intros p l st3 Q3. eapply wlp_mono; [apply ping_quiet; by rewrite (q_self _ _ Q3)|]. cbn beta. intros _ st4 Q4. by etrans. }
  destruct (data hdr); try done; [| | |apply wlp_quiet; [done|quiet]..].
  - apply Hseq; [quiet| |done]. apply Hseq; [quiet|apply Hping].
  - by apply Hping.
  - apply Hseq; [quiet| |done]. apply Hseq; [quiet|]. apply Hseq; [quiet|apply Hping].
Qed.

(** ** Handlers that deal with ballots *)

(** What processing a request for a vote may do: nothing, or one vote. *)
Definition votes_for (hdr : clusterMsg) (st st' : clusterState) : Prop :=
  myself st' = myself st /\ failover st' = failover st /\ takeovers st' = takeovers st /\
  (lastVoteEpoch st' = lastVoteEpoch st /\ quiet_msgs st st' \/
   currentEpoch st' <= m_currentEpoch hdr /\ lastVoteEpoch st <> currentEpoch st' /\ lastVoteEpoch st' = currentEpoch st' /\
   exists m, (sends st st' [] \/ sends st st' [(sender hdr, m)]) /\ data m = FAILOVER_AUTH_ACK /\ sender m = myself st /\ m_currentEpoch m = currentEpoch st').

Lemma wlp_deref n (Q : clusterNode -> clusterState -> Prop) st : (forall x, nodes st !! n = Some x -> Q x st) -> wlp (deref n) Q st.
Proof. unfold wlp, deref. destruct (nodes st !! n); auto. Qed.

Lemma update_wlp n f st : wlp (update n f) (fun _ st' => quiet st st' /\ currentEpoch st' = currentEpoch st /\ sndbuf st' = sndbuf st) st.
Proof. unfold update. apply wlp_bind, wlp_deref. intros y _. apply wlp_modify. split_and!; [by apply quiet_same|done|done]. Qed.

(** A node reads, without effect. *)
Definition reads {A} (m : C A) : Prop := forall st, wlp m (fun _ st' => st' = st) st.
Lemma reads_newer b e js : reads (newer_owner_loop b e js).
Proof.
  induction js as [|j js IH]; intros st; cbn; [by apply wlp_ret|]. apply wlp_bind, wlp_lift. intros t _. destruct (negb t); [apply IH|]. apply wlp_bind, wlp_gets. destruct (owner (tables st) !! j) as [n|]; [|apply IH].
  apply wlp_bind, wlp_deref. intros x _. destruct (configEpoch x <=? e); [apply IH|by apply wlp_ret].
Qed.

Lemma send_auth_ok E n st : wlp (clusterSendFailoverAuth E n) (fun _ st' => st' = st \/ exists m, st' = push_msg st n m /\ data m = FAILOVER_AUTH_ACK /\ sender m = myself st /\ m_currentEpoch m = currentEpoch st) st.
Proof.
  unfold clusterSendFailoverAuth. apply wlp_bind, wlp_deref. intros x _. destruct (negb (link x)); [apply wlp_ret; by left|]. eapply wlp_step; [apply build_header|]. cbn beta. intros m ? (-> & H1 & H2 & H3). apply wlp_modify. right. by exists m.
Qed.

Lemma process_header_ok E from hdr st : wlp (process_header E from hdr) (fun r st' => quiet st st' /\ currentEpoch st' = (match from with Some n => match nodes st !! n with Some x => if nodeInHandshake x then currentEpoch st else Z.max (currentEpoch st) (m_currentEpoch hdr) | None => currentEpoch st end | None => currentEpoch st end) /\ sndbuf st' = sndbuf st /\ (r.1 = 0 \/ r.1 = m_currentEpoch hdr)) st.
Proof.
  unfold process_header. destruct from as [n|]; [|apply wlp_ret; split_and!; [reflexivity|done|done|by left]].
  apply wlp_bind, wlp_deref. intros x Ex. rewrite Ex. destruct (nodeInHandshake x); [apply wlp_ret; split_and!; [reflexivity|done|done|by left]|].
  apply wlp_bind, wlp_modify. set (st1 := if _ : bool then _ else st). assert (quiet st st1 /\ currentEpoch st1 = Z.max (currentEpoch st) (m_currentEpoch hdr) /\ sndbuf st1 = sndbuf st) as (Q1 & E1 & S1).
  { unfold st1. destruct (Z.ltb_spec (currentEpoch st) (m_currentEpoch hdr)); (split_and!; [by apply quiet_same|cbn; lia|done]). }
  clearbody st1.
  eapply (wlp_step _ _ (fun _ s' => quiet st1 s' /\ currentEpoch s' = currentEpoch st1 /\ sndbuf s' = sndbuf st1)).
  { destruct (configEpoch x <? m_configEpoch hdr); [|by apply wlp_ret]. eapply wlp_step; [apply update_wlp|]. cbn beta. intros _ s (A1 & A2 & A3). apply wlp_modify. split_and!; [|done|done]. etrans; [exact A1|by apply quiet_same]. }
  intros _ s2 (Q2 & E2 & S2). eapply wlp_step; [apply update_wlp|]. cbn beta. intros _ s3 (Q3 & E3 & S3). unfold self. apply wlp_bind, wlp_bind, wlp_gets, wlp_deref. intros y _. apply wlp_bind, wlp_modify, wlp_ret.
  split_and!; [etrans; [exact Q1|]; etrans; [exact Q2|]; etrans; [exact Q3|]; case_match; by apply quiet_same| | |by right].
  - case_match; cbn; congruence.
  - case_match; cbn; congruence.
Qed.

Lemma request_ok E on hdr st : data hdr = FAILOVER_AUTH_REQUEST -> wlp (clusterProcessPacket E on hdr) (fun _ => votes_for hdr st) st.
Proof.
  intros Hd. unfold clusterProcessPacket. rewrite Hd. apply wlp_bind, wlp_gets. set (from := match nodes st !! sender hdr with Some _ => _ | None => _ end). eapply wlp_step; [apply process_header_ok|]. cbn beta. intros [e1 e2] st1 ([Q1 Q2 Q3 Q4 Q5] & Ec & Es & _).
  assert (forall s, s = st1 -> votes_for hdr st s) as Hno by (intros ? ->; split_and!; [done..|left; done]).
  destruct from as [n|] eqn:Ef; [|apply wlp_ret; by apply Hno]. assert (n = sender hdr) as -> by (unfold from in Ef; destruct (nodes st !! sender hdr); congruence). clear from Ef Ec.
  unfold clusterSendFailoverAuthIfNeeded. apply wlp_bind, wlp_deref. intros x Ex. unfold self. apply wlp_bind, wlp_bind, wlp_gets, wlp_deref. intros m Em. apply wlp_bind, wlp_gets. cbn [Datatypes.id].
  destruct (nodeIsSlave m || (numslots m =? 0)); [apply wlp_ret; by apply Hno|]. destruct (Z.ltb_spec (m_currentEpoch hdr) (currentEpoch st1)) as [|Hreq]; [apply wlp_ret; by apply Hno|].
  destruct (Z.eqb_spec (lastVoteEpoch st1) (currentEpoch st1)) as [|Hnew]; [apply wlp_ret; by apply Hno|]. destruct (nodeIsMaster x); [apply wlp_ret; by apply Hno|]. destruct (slaveof x) as [master|]; [|apply wlp_ret; by apply Hno].
  apply wlp_bind, wlp_deref. intros y Ey. destruct (negb (nodeFailed y) && _); [apply wlp_ret; by apply Hno|]. destruct (_ <? _); [apply wlp_ret; by apply Hno|].
  eapply wlp_step; [apply reads_newer|]. cbn beta. intros newer ? ->. destruct newer; [apply wlp_ret; by apply Hno|].
  eapply wlp_step; [apply send_auth_ok|]. cbn beta. intros _ st2 Hsend. apply wlp_bind, wlp_modify. unfold update. apply wlp_bind, wlp_deref. intros z _. apply wlp_modify. unfold votes_for, takeovers, sends. cbn.
  destruct Hsend as [->|(a & -> & A1 & A2 & A3)]; cbn.
  - split_and!; [done..|]. right. split_and!; [done|congruence|done|]. exists (mk_msg FAILOVER_AUTH_ACK (myself st) 0 (currentEpoch st1) 0 0 [] 0 0 null_addr). split_and!; [|done..]. left. by rewrite app_nil_r, Es.
  - split_and!; [done..|]. right. split_and!; [done|congruence|done|]. exists a. split_and!; [|done|congruence|done]. right. by rewrite Es.
Qed.

(** Processing a vote. *)
Definition counts_ballot (hdr : clusterMsg) (st st' : clusterState) : Prop :=
  myself st' = myself st /\ lastVoteEpoch st' = lastVoteEpoch st /\ takeovers st' = takeovers st /\ sends st st' [] /\
  (failover st' = failover st \/ (auth_epoch (failover st) <= 0 \/ auth_epoch (failover st) <= m_currentEpoch hdr) /\
   auth_count (failover st') = i32 (auth_count (failover st) + 1) /\ auth_sent (failover st') = auth_sent (failover st) /\ auth_epoch (failover st') = auth_epoch (failover st)).

Lemma ack_ok E on hdr st : data hdr = FAILOVER_AUTH_ACK -> wlp (clusterProcessPacket E on hdr) (fun _ => counts_ballot hdr st) st.
Proof.
  intros Hd. unfold clusterProcessPacket. rewrite Hd. apply wlp_bind, wlp_gets. eapply wlp_step; [apply process_header_ok|]. cbn beta. intros [e1 e2] st1 ([Q1 Q2 Q3 Q4 _] & _ & Es & He). cbn [fst] in He.
  assert (sends st st1 []) as Hs by (unfold sends; by rewrite app_nil_r). assert (counts_ballot hdr st st1) as Hno by (split_and!; [done..|by left]). destruct (match nodes st !! sender hdr with Some _ => _ | None => _ end) as [n|]; [|by apply wlp_ret].
  unfold process_ack. apply wlp_bind, wlp_deref. intros x _. apply wlp_bind, wlp_gets. destruct (nodeIsMaster x && (0 <? numslots x)); [|by apply wlp_ret]. cbn [andb]. destruct (Z.leb_spec (auth_epoch (failover st1)) e1) as [Hle|]; [|by apply wlp_ret].
  apply wlp_bind, wlp_modify, wlp_modify. unfold counts_ballot, takeovers, sends in *. cbn. rewrite Q3. rewrite Q3 in Hle. split_and!; [done..|]. right. split_and!; [|done..]. destruct He; subst; [by left|by right].
Qed.

(** The election fields but for time and rank. *)
Definition same_election (f g : election) : Prop := auth_count g = auth_count f /\ auth_sent g = auth_sent f /\ auth_epoch g = auth_epoch f.

(** A run of [clusterHandleSlaveFailover]. *)
Inductive failover_step (st st' : clusterState) : Prop :=
| fs_idle : quiet_msgs st st' -> takeovers st' = takeovers st -> auth_count (failover st') = auth_count (failover st) -> auth_sent (failover st') = auth_sent (failover st) -> auth_epoch (failover st') = auth_epoch (failover st) -> failover_step st st'
| fs_schedule : quiet_msgs st st' -> takeovers st' = takeovers st -> auth_count (failover st') = 0 -> auth_sent (failover st') = false -> auth_epoch (failover st') = auth_epoch (failover st) -> failover_step st st'
| fs_start l : sends st st' l -> Forall (fun p => data p.2 = FAILOVER_AUTH_REQUEST /\ m_currentEpoch p.2 = currentEpoch st' /\ sender p.2 = myself st') l -> takeovers st' = takeovers st ->
    auth_sent (failover st) = false -> auth_count (failover st') = auth_count (failover st) -> auth_sent (failover st') = true -> auth_epoch (failover st') = currentEpoch st' -> currentEpoch st' = u64 (currentEpoch st + 1) -> failover_step st st'
| fs_win : quiet_msgs st st' -> same_election (failover st) (failover st') -> auth_sent (failover st) = true -> needed_quorum (size st) <= auth_count (failover st) -> failover_step st st'.

Lemma idle_quiet st st' : quiet st st' -> failover_step st st'.
Proof. intros [H1 H2 H3 H4 H5]. apply fs_idle; [done|done|by rewrite H3..]. Qed.

Lemma schedule_ok E st : wlp (schedule_election E) (fun _ st' => myself st' = myself st /\ lastVoteEpoch st' = lastVoteEpoch st /\ failover_step st st') st.
Proof.
  unfold schedule_election. apply wlp_bind, wlp_bind, wlp_modify. set (st1 := set_failover _ _). eapply wlp_mono; [apply quietly_rank|]. cbn beta. intros rank st2 Q2. apply wlp_bind, wlp_modify. set (st3 := set_failover st2 _). apply wlp_bind, wlp_gets.
  set (P := fun s : clusterState => myself s = myself st /\ lastVoteEpoch s = lastVoteEpoch st /\ takeovers s = takeovers st /\ quiet_msgs st s /\ auth_count (failover s) = 0 /\ auth_sent (failover s) = false /\ auth_epoch (failover s) = auth_epoch (failover st)).
  assert (forall g s, P s -> (forall f, same_election f (g f)) -> P (set_failover s (g (failover s)))) as Hg.
  { intros g s (A1 & A2 & A3 & A4 & A5 & A6 & A7) Hf. destruct (Hf (failover s)) as (B1 & B2 & B3). unfold P. cbn. rewrite B1, B2, B3. split_and!; done. }
  assert (forall s s', P s -> quiet s s' -> P s') as Hq.
  { intros s s' (A1 & A2 & A3 & (l & Hl & Fl) & A5 & A6 & A7) [B1 B2 B3 B4 (k & Hk & Fk)]. unfold P. rewrite B3. split_and!; try congruence. exists (l ++ k). unfold sends in *. split; [by rewrite Hk, Hl, app_assoc|by apply list.Forall_app]. }
  assert (P st1) as H1. { unfold P, st1. cbn. split_and!; try done. exists []. split; [unfold sends; cbn; by rewrite app_nil_r|constructor]. }
  assert (P st3) as H3. { apply (Hg (fun f => mk_election (auth_time f + rank * 1000) (auth_count f) (auth_sent f) rank (auth_epoch f))); [by apply (Hq st1)|done]. }
  apply (wlp_step _ _ (fun _ s => P s)).
  - destruct (negb _); [|by apply wlp_ret]. apply wlp_modify. apply (Hg (fun f => mk_election (mstime E) (auth_count f) (auth_sent f) 0 (auth_epoch f))); done.
  - intros _ s Hs. eapply wlp_mono; [apply quietly_broadcast_pong|]. cbn beta. intros _ s' Q. destruct (Hq s s' Hs Q) as (A1 & A2 & A3 & A4 & A5 & A6 & A7). split_and!; [done..|by apply fs_schedule].
Qed.

Lemma broadcast_ok m l st : wlp (broadcast_loop l m) (fun _ st' => exists k, st' = fold_left (fun s n => push_msg s n m) k st) st.
Proof.
  revert st. induction l as [|[n x] l IH]; intros st; cbn [broadcast_loop]; [apply wlp_ret; by exists []|]. destruct (negb (link x) || _).
  - apply wlp_bind, wlp_ret, IH.
  - apply wlp_bind, wlp_modify. eapply wlp_mono; [apply IH|]. cbn beta. intros _ st' (k & ->). by exists (n :: k).
Qed.

Lemma pushes_state m k : forall st, let st' := fold_left (fun s n => push_msg s n m) k st in
  myself st' = myself st /\ lastVoteEpoch st' = lastVoteEpoch st /\ currentEpoch st' = currentEpoch st /\ failover st' = failover st /\ takeovers st' = takeovers st /\ sends st st' (map (fun n => (n, m)) k).
Proof.
  induction k as [|n k IH]; intros st; cbn; [split_and!; try done; unfold sends; cbn; by rewrite app_nil_r|]. destruct (IH (push_msg st n m)) as (H1 & H2 & H3 & H4 & H5 & H6). split_and!; [done..|]. unfold sends in *. rewrite H6. cbn. by rewrite <- app_assoc.
Qed.

Lemma request_auth_ok E st : wlp (clusterRequestFailoverAuth E) (fun _ st' => myself st' = myself st /\ lastVoteEpoch st' = lastVoteEpoch st /\ currentEpoch st' = currentEpoch st /\ failover st' = failover st /\ takeovers st' = takeovers st /\
  exists l, sends st st' l /\ Forall (fun p => data p.2 = FAILOVER_AUTH_REQUEST /\ m_currentEpoch p.2 = currentEpoch st /\ sender p.2 = myself st) l) st.
Proof.
  unfold clusterRequestFailoverAuth. eapply wlp_step; [apply build_header|]. cbn beta. intros m ? (-> & H1 & H2 & H3). apply wlp_bind, wlp_gets. set (m' := if negb _ then _ else m).
  assert (data m' = FAILOVER_AUTH_REQUEST /\ m_currentEpoch m' = currentEpoch st /\ sender m' = myself st) as Hm by (unfold m'; destruct (negb _); done). clearbody m'. unfold clusterBroadcastMessage. apply wlp_bind, wlp_gets. eapply wlp_mono; [apply broadcast_ok|]. cbn beta. intros _ st' (k & ->).
  destruct (pushes_state m' k st) as (A1 & A2 & A3 & A4 & A5 & A6). split_and!; [done..|]. eexists. split; [exact A6|]. apply list.Forall_fmap. by apply list.Forall_true.
Qed.

Definition kept_self (st st' : clusterState) : Prop := myself st' = myself st /\ lastVoteEpoch st' = lastVoteEpoch st.

(** The takeover itself, after the decision. *)
Lemma replace_ok E st : wlp (clusterFailoverReplaceYourMaster E) (fun _ st' => kept_self st st' /\ failover st' = failover st /\ quiet_msgs st st') st.
Proof.
  assert (forall s, quiet st s -> kept_self st s /\ failover s = failover st /\ quiet_msgs st s) as Hq by (intros s []; done).
  unfold clusterFailoverReplaceYourMaster, self. apply wlp_bind, wlp_gets, wlp_bind, wlp_bind, wlp_gets, wlp_deref. intros x _. destruct (nodeIsMaster x); [apply wlp_ret, Hq, quiet_refl|]. destruct (slaveof x) as [old|]; [|apply wlp_ret, Hq, quiet_refl].
  eapply wlp_step; [apply quietly_as_master|]. cbn beta. intros _ s1 Q1. apply wlp_bind, wlp_modify. assert (quietly (_ ← take_slots_loop old (myself st) (all_slots E); _ ← clusterUpdateState E; _ ← clusterSaveConfigOrDie true; _ ← clusterBroadcastPong E false; resetManualFailover E)) as Hrest by quiet.
  eapply wlp_mono; [apply Hrest|]. cbn beta. intros _ s2 [A1 A2 A3 _ (l & Hl & Fl)]. cbn in A1, A2, A3. destruct Q1 as [B1 B2 B3 _ (k & Hk & Fk)]. split_and!; [split; congruence|congruence|]. exists (k ++ l). unfold sends in *. cbn in Hl. split; [by rewrite Hl, Hk, app_assoc|by apply list.Forall_app].
Qed.

(** Reaching the same state through a change of the list of things to do, or of time and
    rank of the election. *)
Lemma failover_step_pre st st1 st' : takeovers st1 = takeovers st -> same_election (failover st) (failover st1) -> size st1 = size st -> currentEpoch st1 = currentEpoch st -> sndbuf st1 = sndbuf st -> failover_step st1 st' -> failover_step st st'.
Proof.
  intros Ht (S1 & S2 & S3) Hz Hc Hs H. assert (forall l, sends st1 st' l -> sends st st' l) as Hl by (intros l; unfold sends; by rewrite Hs). destruct H as [(l & Hm & Fm) A B C D|(l & Hm & Fm) A B C D|l Hm A B C D E F G|(l & Hm & Fm) (A1 & A2 & A3) B C].
  - apply fs_idle; [exists l; auto|congruence..].
  - apply fs_schedule; [exists l; auto|congruence..].
  - apply (fs_start _ _ l); [auto|done|congruence..].
  - apply fs_win; [exists l; auto|split_and!; congruence|congruence|by rewrite <- Hz, <- S1].
Qed.

Lemma reads_rank E : reads (clusterGetSlaveRank E).
Proof.
  intros st. unfold clusterGetSlaveRank, self. apply wlp_bind, wlp_gets, wlp_bind, wlp_bind, wlp_gets, wlp_deref. intros x _. apply wlp_bind, wlp_lift. intros _ _. destruct (slaveof x) as [m|]; [|by apply wlp_ret]. apply wlp_bind, wlp_deref. intros y _.
  generalize 0. induction (slaves y) as [|n l IH]; intros r; cbn [rank_loop]; [by apply wlp_ret|]. apply wlp_bind. destruct (negb (n =? _)); [|apply wlp_ret, IH]. apply wlp_bind, wlp_deref. intros z _. apply wlp_ret, IH.
Qed.

Lemma handle_failover_ok E st : wlp (clusterHandleSlaveFailover E) (fun _ st' => kept_self st st' /\ failover_step st st') st.
Proof.
  unfold clusterHandleSlaveFailover. apply wlp_bind, wlp_gets. cbn [Datatypes.id]. apply wlp_bind, wlp_modify. set (st1 := set_todo st _). unfold self. apply wlp_bind, wlp_gets, wlp_bind, wlp_bind, wlp_gets, wlp_deref. intros x _.
  assert (forall s, kept_self st1 s /\ failover_step st1 s -> kept_self st s /\ failover_step st s) as Hpre. { intros s (A & B). split; [exact A|]. by apply (failover_step_pre st st1). }
  assert (forall A (m : C A), quietly m -> wlp m (fun _ st' => kept_self st st' /\ failover_step st st') st1) as Hidle. { intros A m Hm. eapply wlp_mono; [apply Hm|]. cbn beta. intros _ s Q. apply Hpre. split; [by destruct Q|by apply idle_quiet]. }
  apply (wlp_step _ _ (fun _ s => s = st1)).
  { destruct (nodeIsMaster x); [by apply wlp_ret|]. destruct (slaveof x) as [m|]; [|by apply wlp_ret]. apply wlp_bind, wlp_deref. intros y _. by apply wlp_ret. }
  intros wanted ? ->. destruct (negb wanted); [apply Hidle; quiet|]. destruct (_ && negb (_ && _)); [apply Hidle; quiet|]. destruct (_ <? _); [eapply wlp_mono; [apply schedule_ok|]; cbn beta; intros _ s (A & B & D); apply Hpre; by split|].
  set (P := fun s : clusterState => kept_self st s /\ takeovers s = takeovers st /\ same_election (failover st) (failover s) /\ currentEpoch s = currentEpoch st /\ sndbuf s = sndbuf st /\ size s = size st).
  apply (wlp_step _ _ (fun _ => P)).
  { assert (P st1) as H1 by (unfold P, st1; done). destruct (_ && _); [|by apply wlp_ret]. eapply wlp_step; [apply reads_rank|]. cbn beta. intros r ? ->. apply wlp_modify. unfold P. cbn. case_match; cbn; exact H1. }
  intros _ s HP. assert (forall s', kept_self s s' /\ failover_step s s' -> kept_self st s' /\ failover_step st s') as Hpost.
  { destruct HP as ([P1 P2] & P3 & P4 & P5 & P6 & P7). intros s' [[A1 A2] B]. split; [split; congruence|by apply (failover_step_pre st s)]. }
  destruct HP as (_ & _ & Hsame & _ & _ & Hsize). clear Hidle Hpre P.
  assert (forall r, wlp (clusterLogCantFailover r) (fun _ st' => kept_self st st' /\ failover_step st st') s) as Hidle. { intros r. eapply wlp_mono; [apply quietly_reason|]. cbn beta. intros _ s' Q. apply Hpost. split; [by destruct Q|by apply idle_quiet]. }
  apply wlp_bind, wlp_gets. destruct (_ <? _); [apply Hidle|]. destruct (_ <? _); [apply Hidle|]. destruct (auth_sent (failover s)) eqn:Esent; cbn [negb].
  - destruct (Z.leb_spec (needed_quorum (size st)) (auth_count (failover s))) as [Hq|]; [|apply Hidle]. apply (wlp_step _ _ (fun _ s' => quiet s s' /\ sndbuf s' = sndbuf s)).
    { destruct (_ <? _); [|apply wlp_ret; split; [reflexivity|done]]. eapply wlp_mono; [apply update_wlp|]. cbn beta. tauto. }
    intros _ s1 (Q1 & B1). eapply wlp_mono; [apply replace_ok|]. cbn beta. intros _ s2 ([K1 K2] & Ef & l & Hl & Fl). apply Hpost. destruct Q1 as [A1 A2 A3 A4 _]. split; [split; congruence|]. apply fs_win; [exists l; unfold sends in *; rewrite Hl, B1; done| |done|by rewrite Hsize].
    rewrite Ef, A3. done.
  - unfold next_epoch. apply wlp_bind, wlp_bind, wlp_modify, wlp_gets, wlp_bind, wlp_modify. cbn [currentEpoch set_currentEpoch]. set (s1 := set_failover _ _). eapply wlp_step; [apply request_auth_ok|]. cbn beta. intros _ s2 (A1 & A2 & A3 & A4 & A5 & l & Hl & Fl). apply wlp_bind, wlp_modify, wlp_modify.
    apply Hpost. split; [split; cbn; [exact A1|exact A2]|]. apply (fs_start _ _ l); unfold takeovers, sends in *; cbn.
    + exact Hl.
    + eapply list.Forall_impl; [exact Fl|]. cbn beta. intros q (B1 & B2 & B3). split_and!; [done|by rewrite A3|by rewrite A1].
    + exact A5.
    + done.
    + by rewrite A4.
    + done.
    + by rewrite A4, A3.
    + by rewrite A3.
Qed.

(** ** The network *)

(** Sender, receiver, contents. *)
Definition packet : Type := name * name * clusterMsg.

(** The nodes, the packets on their way, and, for the statements, all votes sent so far
    (voter, candidate, epoch) and all elections won (winner, epoch, size of the cluster in
    the eyes of the winner). *)
Record net := mk_net { peers : gmap name clusterState; wire : list packet; acks : list (name * name * Z); wins : list (name * Z * Z) }.

Definition is_ack (d : msg_data) : bool := match d with FAILOVER_AUTH_ACK => true | _ => false end.
Definition is_request (d : msg_data) : bool := match d with FAILOVER_AUTH_REQUEST => true | _ => false end.
Definition flushed (st : clusterState) : clusterState := mk_state (myself st) (currentEpoch st) (lastVoteEpoch st) (state st) (size st) (nodes st) (tables st) (failover st) (mf st) (cant_failover_reason st) (todo_before_sleep st) (among_minority_time st) (first_call_time st) [] (effects st) (nodes_black_list st).
Definition ballots (w : list packet) : list (name * name * Z) := map (fun p : packet => (p.1.1, p.1.2, m_currentEpoch p.2)) (List.filter (fun p : packet => is_ack (data p.2)) w).
Definition outgoing (n : name) (st : clusterState) : list packet := map (fun p => (n, p.1, p.2)) (sndbuf st).

(** Node [n] is now in state [st], what it sent is on the wire after [w]. *)
Definition commit (g : net) (n : name) (st : clusterState) (w : list packet) (won : list (name * Z * Z)) : net :=
  mk_net (<[n := flushed st]> (peers g)) (w ++ outgoing n st) (acks g ++ ballots (outgoing n st)) (wins g ++ won).
Definition victory (n : name) (st st' : clusterState) : list (name * Z * Z) := if (takeovers st <? takeovers st')%nat then [(n, auth_epoch (failover st'), size st)] else [].

(** [timely]: a vote arrives while the slave it reaches has an election under way
    ([failover_auth_sent] is set); one that finds the slave between two elections, the next
    being scheduled but not started, is not timely. No node has a link to itself, and the
    counter of epochs does not wrap around. A step of kind [step_other] stands for everything
    else a node does: clients, timers, other handlers. *)
Inductive step (timely : bool) (g : net) : net -> Prop :=
| step_deliver from to hdr on E st st' w1 w2 : wire g = w1 ++ (from, to, hdr) :: w2 -> peers g !! to = Some st -> on <> Some to -> (timely && is_ack (data hdr) = true -> auth_sent (failover st) = true) ->
    clusterProcessPacket E on hdr st = Ok (st', tt) -> currentEpoch st <= currentEpoch st' -> step timely g (commit g to st' (w1 ++ w2) [])
| step_failover n E st st' : peers g !! n = Some st -> clusterHandleSlaveFailover E st = Ok (st', tt) -> currentEpoch st <= currentEpoch st' -> step timely g (commit g n st' (wire g) (victory n st st'))
| step_other n st st' : peers g !! n = Some st -> quiet st st' -> currentEpoch st <= currentEpoch st' -> step timely g (commit g n st' (wire g) [])
| step_lose p w1 w2 : wire g = w1 ++ p :: w2 -> step timely g (mk_net (peers g) (w1 ++ w2) (acks g) (wins g)).

(** A node before any election. *)
Record calm (n : name) (st : clusterState) : Prop := mk_calm {
  calm_self : myself st = n; calm_out : sndbuf st = []; calm_epoch : 0 <= currentEpoch st; calm_vote : lastVoteEpoch st <= currentEpoch st;
  calm_auth : auth_epoch (failover st) <= currentEpoch st; calm_count : auth_count (failover st) = 0; calm_sent : auth_sent (failover st) = false }.
Definition initial (g : net) : Prop := map_Forall calm (peers g) /\ wire g = [] /\ acks g = [] /\ wins g = [].
Definition reachable (timely : bool) (g : net) : Prop := exists g0, initial g0 /\ rtc (step timely) g0 g.

(** ** The invariant *)

Definition is_for (c : name) (e : Z) (b : name * name * Z) : bool := (b.1.2 =? c) && (b.2 =? e).
Definition tally (c : name) (e : Z) (l : list (name * name * Z)) : Z := zlen (List.filter (is_for c e) l).
Definition in_epoch (e : Z) (l : list (name * name * Z)) : list (name * name * Z) := List.filter (fun b => b.2 =? e) l.

Record node_inv (n : name) (st : clusterState) (w : list packet) (a : list (name * name * Z)) : Prop := mk_node_inv {
  ni_self : myself st = n; ni_out : sndbuf st = []; ni_epoch : 0 <= currentEpoch st; ni_vote : lastVoteEpoch st <= currentEpoch st;
  ni_auth : auth_epoch (failover st) <= currentEpoch st;
  ni_range : in_s 32 (auth_count (failover st));
  ni_idle : auth_sent (failover st) = false -> auth_count (failover st) <= 0;
  ni_count : auth_sent (failover st) = true -> 0 < auth_epoch (failover st) /\ auth_count (failover st) <= tally n (auth_epoch (failover st)) a - tally n (auth_epoch (failover st)) (ballots w) }.

Record inv (g : net) : Prop := mk_inv {
  inv_nodes : forall n st, peers g !! n = Some st -> node_inv n st (wire g) (acks g);
  inv_ballots : submseteq (ballots (wire g)) (acks g);
  inv_once : NoDup (map (fun b => (b.1.1, b.2)) (acks g));
  inv_acks : forall v c e, (v, c, e) ∈ acks g -> (exists st, peers g !! v = Some st /\ e <= lastVoteEpoch st) /\ (exists st, peers g !! c = Some st /\ e <= auth_epoch (failover st));
  inv_requests : forall c to m, (c, to, m) ∈ wire g -> data m = FAILOVER_AUTH_REQUEST -> sender m = c /\ exists st, peers g !! c = Some st /\ m_currentEpoch m <= auth_epoch (failover st);
  inv_wins : forall n e s, (n, e, s) ∈ wins g -> needed_quorum s <= tally n e (acks g) }.

Lemma tally_app c e l k : tally c e (l ++ k) = tally c e l + tally c e k.
Proof. unfold tally. by rewrite List.filter_app, zlen_app. Qed.
Lemma tally_nonneg c e l : 0 <= tally c e l.
Proof. apply zlen_nonneg. Qed.
Lemma tally_one c e b : tally c e [b] = Z.b2z (is_for c e b).
Proof. unfold tally. cbn. by destruct (is_for c e b). Qed.
Lemma filter_perm {A} (f : A -> bool) l k : l ≡ₚ k -> List.filter f l ≡ₚ List.filter f k.
Proof. induction 1 as [|x l k H IH|x y l|l k m H1 IH1 H2 IH2]; cbn; [done|by destruct (f x); rewrite IH|destruct (f x), (f y); try done; apply perm_swap|by rewrite IH1]. Qed.
Lemma tally_perm c e l k : l ≡ₚ k -> tally c e l = tally c e k.
Proof. intros H. unfold tally, zlen. by rewrite (filter_perm _ _ _ H). Qed.
Lemma ballots_app w1 w2 : ballots (w1 ++ w2) = ballots w1 ++ ballots w2.
Proof. unfold ballots. by rewrite List.filter_app, map_app. Qed.
Lemma ballots_perm w1 w2 : w1 ≡ₚ w2 -> ballots w1 ≡ₚ ballots w2.
Proof. intros H. unfold ballots. by apply Permutation_map, filter_perm. Qed.

(** A node's counted votes, when packets [lost] leave the wire and others are sent. *)
Lemma margin_grows c e g lost w out : wire g ≡ₚ lost ++ w ->
  tally c e (acks g ++ ballots out) - tally c e (ballots (w ++ out)) = tally c e (acks g) - tally c e (ballots (wire g)) + tally c e (ballots lost).
Proof. intros H. rewrite ballots_app, !tally_app, (tally_perm c e _ _ (ballots_perm _ _ H)), ballots_app, tally_app. lia. Qed.

Lemma node_inv_others n st g lost w out : wire g ≡ₚ lost ++ w -> node_inv n st (wire g) (acks g) -> node_inv n st (w ++ out) (acks g ++ ballots out).
Proof.
  intros Hw [H1 H2 H3 H4 H5 H6 H7 H8]. constructor; [done..|]. intros Hs. destruct (H8 Hs) as [A B]. split; [done|]. rewrite (margin_grows _ _ g lost w out Hw). pose proof (tally_nonneg n (auth_epoch (failover st)) (ballots lost)). lia.
Qed.

(** What a step of node [n] must satisfy to keep the invariant. *)
Lemma commit_inv g n st st' lost w won : inv g -> peers g !! n = Some st -> wire g ≡ₚ lost ++ w ->
  node_inv n (flushed st') (w ++ outgoing n st') (acks g ++ ballots (outgoing n st')) ->
  lastVoteEpoch st <= lastVoteEpoch st' -> auth_epoch (failover st) <= auth_epoch (failover st') ->
  (forall v c e, (v, c, e) ∈ ballots (outgoing n st') -> e <= lastVoteEpoch st' /\ exists s, <[n := flushed st']> (peers g) !! c = Some s /\ e <= auth_epoch (failover s)) ->
  NoDup (map (fun b => (b.1.1, b.2)) (acks g ++ ballots (outgoing n st'))) ->
  (forall to m, (to, m) ∈ sndbuf st' -> data m = FAILOVER_AUTH_REQUEST -> sender m = n /\ m_currentEpoch m <= auth_epoch (failover st')) ->
  (forall k e s, (k, e, s) ∈ won -> needed_quorum s <= tally k e (acks g)) -> inv (commit g n st' w won).
Proof.
  intros [I1 I2 I3 I4 I5 I6] Hn Hw Hnode Hv Ha Hb Hd Hr Hwon.
  assert (forall k s, peers g !! k = Some s -> exists s', <[n := flushed st']> (peers g) !! k = Some s' /\ lastVoteEpoch s <= lastVoteEpoch s' /\ auth_epoch (failover s) <= auth_epoch (failover s')) as Hmono.
  { intros k s Hk. destruct (decide (k = n)) as [->|Hne]; [exists (flushed st'); rewrite lookup_insert_eq; split_and!; [done|..]; cbn; congruence|]. exists s. rewrite lookup_insert_ne by done. done. }
  constructor; cbn [peers wire acks wins commit].
  - intros k s Hk. destruct (decide (k = n)) as [->|Hne]; [rewrite lookup_insert_eq in Hk; by injection Hk as <-|]. rewrite lookup_insert_ne in Hk by done. by apply (node_inv_others _ _ _ lost), I1.
  - rewrite ballots_app. apply submseteq_app; [|done]. etrans; [|exact I2]. rewrite (ballots_perm _ _ Hw), ballots_app. apply submseteq_inserts_l. done.
  - done.
  - intros v c e Hin. apply elem_of_app in Hin as [Hin|Hin].
    + destruct (I4 v c e Hin) as [(s1 & Hs1 & L1) (s2 & Hs2 & L2)]. destruct (Hmono _ _ Hs1) as (t1 & T1 & M1 & _). destruct (Hmono _ _ Hs2) as (t2 & T2 & _ & M2). split; [exists t1|exists t2]; (split; [done|lia]).
    + destruct (Hb v c e Hin) as [L H]. split; [|done]. exists (flushed st'). split; [|done]. apply list_elem_of_fmap in Hin as ([[f t] m] & [= -> -> ->] & Hin). apply list_elem_of_In, List.filter_In in Hin as [Hin _]. apply list_elem_of_In, list_elem_of_fmap in Hin as ([t' m'] & [= -> -> ->] & _). apply lookup_insert_eq.
  - intros c to m Hin Hreq. apply elem_of_app in Hin as [Hin|Hin].
    + assert ((c, to, m) ∈ wire g) as Hin' by (rewrite Hw; apply elem_of_app; by right). destruct (I5 c to m Hin' Hreq) as (E & s & Hs & L). split; [done|]. destruct (Hmono _ _ Hs) as (t & T & _ & M). exists t. split; [done|lia].
    + apply list_elem_of_fmap in Hin as ([t' m'] & [= -> -> ->] & Hin). destruct (Hr t' m' Hin Hreq) as [E L]. split; [done|]. exists (flushed st'). by rewrite lookup_insert_eq.
  - intros k e s Hin. rewrite tally_app. pose proof (tally_nonneg k e (ballots (outgoing n st'))). apply elem_of_app in Hin as [Hin|Hin]; [pose proof (I6 k e s Hin)|pose proof (Hwon k e s Hin)]; lia.
Qed.

Lemma no_ballots n st : Forall (fun p => ballot (data p.2) = false) (sndbuf st) -> ballots (outgoing n st) = [] /\ forall to m, (to, m) ∈ sndbuf st -> data m <> FAILOVER_AUTH_REQUEST.
Proof.
  intros H. split; [|intros to m Hin E; eapply list.Forall_forall in H; [|exact Hin]; cbn in H; by rewrite E in H]. unfold ballots, outgoing. induction (sndbuf st) as [|[t m] l IH]; [done|]. apply list.Forall_cons_1 in H as [Hm Hl]. cbn in *. specialize (IH Hl).
  destruct (data m); try done; by apply IH.
Qed.

Lemma sends_all n st st' l w a : node_inv n st w a -> sends st st' l -> sndbuf st' = l.
Proof. intros H. unfold sends. by rewrite (ni_out _ _ _ _ H). Qed.

(** A step in which a node sends no ballot. *)
Lemma commit_silent g n st st' lost w won : inv g -> peers g !! n = Some st -> wire g ≡ₚ lost ++ w -> quiet_msgs st st' ->
  node_inv n (flushed st') w (acks g) -> lastVoteEpoch st <= lastVoteEpoch st' -> auth_epoch (failover st) <= auth_epoch (failover st') ->
  (forall k e s, (k, e, s) ∈ won -> needed_quorum s <= tally k e (acks g)) -> inv (commit g n st' w won).
Proof.
  intros HI Hn Hw (l & Hl & Fl) Hnode Hv Ha Hwon. assert (sndbuf st' = l) as El by (eapply sends_all; [by apply (inv_nodes g HI)|exact Hl]). rewrite <- El in Fl. destruct (no_ballots n st' Fl) as [E0 Hr].
  apply (commit_inv g n st st' lost); try done.
  - rewrite E0, app_nil_r. destruct Hnode as [H1 H2 H3 H4 H5 H6 H7 H8]. constructor; try done. by rewrite ballots_app, E0, app_nil_r.
  - rewrite E0. intros v c e Hin. by apply not_elem_of_nil in Hin.
  - rewrite E0, app_nil_r. apply HI.
  - intros to m Hin E. by destruct (Hr to m Hin).
Qed.

Lemma node_inv_same n st st' g lost w : wire g ≡ₚ lost ++ w -> node_inv n st (wire g) (acks g) -> myself st' = myself st -> lastVoteEpoch st' = lastVoteEpoch st -> same_election (failover st) (failover st') -> currentEpoch st <= currentEpoch st' ->
  node_inv n (flushed st') w (acks g).
Proof.
  intros Hw H E1 E2 (E3 & E4 & E5) Hc. pose proof (node_inv_others n st g lost w [] Hw H) as [H1 H2 H3 H4 H5 H6 H7 H8]. rewrite !app_nil_r in H8. constructor; cbn; try congruence; try lia; rewrite ?E3, ?E4, ?E5; try done; lia.
Qed.

Lemma step_quiet_inv g n st st' lost w : inv g -> peers g !! n = Some st -> wire g ≡ₚ lost ++ w -> quiet st st' -> currentEpoch st <= currentEpoch st' -> inv (commit g n st' w []).
Proof.
  intros HI Hn Hw [Q1 Q2 Q3 Q4 Q5] Hc. apply (commit_silent g n st st' lost); try done.
  - apply (node_inv_same n st st' g lost); try done; [by apply HI|by rewrite Q3].
  - by rewrite Q2.
  - by rewrite Q3.
  - intros k e s Hin. by apply not_elem_of_nil in Hin.
Qed.

Lemma taken_out (p : packet) w1 w2 : w1 ++ p :: w2 ≡ₚ [p] ++ w1 ++ w2.
Proof. cbn [app]. symmetry. apply Permutation_middle. Qed.

(** Delivery of a request. *)
Lemma step_vote_inv g n st st' from hdr w1 w2 : inv g -> peers g !! n = Some st -> wire g = w1 ++ (from, n, hdr) :: w2 -> data hdr = FAILOVER_AUTH_REQUEST -> votes_for hdr st st' -> currentEpoch st <= currentEpoch st' ->
  inv (commit g n st' (w1 ++ w2) []).
Proof.
  intros HI Hn Ew Hd (E1 & E2 & E3 & Hcase) Hc. assert (wire g ≡ₚ [(from, n, hdr)] ++ w1 ++ w2) as Hw by (rewrite Ew; apply taken_out). pose proof (inv_nodes g HI n st Hn) as Hnode. pose proof (ni_vote _ _ _ _ Hnode) as Hvote.
  assert (forall k e s, (k, e, s) ∈ @nil (name * Z * Z) -> needed_quorum s <= tally k e (acks g)) as Hnil by (intros k e s Hin; by apply not_elem_of_nil in Hin).
  destruct Hcase as [[E4 Hm]|(Hreq & Hnew & E4 & m & Hsend & Hack & Hsm & Hem)]; [by apply (step_quiet_inv g n st st' [(from, n, hdr)])|].
  assert (node_inv n (flushed st') (w1 ++ w2) (acks g)) as Hpost.
  { pose proof (node_inv_others n st g _ _ [] Hw Hnode) as [H1 H2 H3 H4 H5 H6 H7 H8]. rewrite !app_nil_r in H8. constructor; cbn; rewrite ?E2; try congruence; try lia; done. }
  destruct Hsend as [Hs|Hs].
  - apply (commit_silent g n st st' [(from, n, hdr)]); [done|done|done|exists []; split; [done|constructor]|done|lia|by rewrite E2|done].
  - pose proof (sends_all _ _ _ _ _ _ Hnode Hs) as Es. assert (ballots (outgoing n st') = [(n, sender hdr, currentEpoch st')]) as Eb by (unfold ballots, outgoing; rewrite Es; cbn; rewrite Hack; cbn; by rewrite Hem).
    apply (commit_inv g n st st' [(from, n, hdr)]); [done|done|done| |lia|by rewrite E2| | | |done].
    + rewrite Eb, <- Eb. destruct Hpost as [H1 H2 H3 H4 H5 H6 H7 H8]. constructor; try done. intros Hsent. destruct (H8 Hsent) as [A B]. split; [done|]. rewrite ballots_app, !tally_app. lia.
    + rewrite Eb. intros v c e Hin. apply list_elem_of_singleton in Hin as [= -> -> ->]. split; [lia|]. assert ((from, n, hdr) ∈ wire g) as Hin by (rewrite Hw; left). destruct (inv_requests g HI _ _ _ Hin Hd) as (-> & s & Hs' & L).
      destruct (decide (from = n)) as [->|Hne]; [exists (flushed st'); rewrite lookup_insert_eq; split; [done|]; cbn; rewrite E2; rewrite Hn in Hs'; injection Hs' as <-; lia|]. exists s. rewrite lookup_insert_ne by done. split; [done|lia].
    + rewrite Eb, map_app. apply list.NoDup_app. split_and!; [apply HI| |apply NoDup_singleton]. intros [v e] Hin Hin2. apply list_elem_of_singleton in Hin2 as [= -> ->]. apply list_elem_of_fmap in Hin as ([[v c] e] & [= <- <-] & Hin).
      destruct (inv_acks g HI _ _ _ Hin) as [(s & Hs' & L) _]. cbn in *. rewrite Hn in Hs'. injection Hs' as <-. lia.
    + rewrite Es. intros to m' Hin E. apply list_elem_of_singleton in Hin as [= -> ->]. congruence.
Qed.

Lemma i32_le x : - 2 ^ 31 <= x -> i32 x <= x.
Proof. intros H. unfold swrap. pose proof (Z.mod_le (x + 2 ^ (32 - 1)) (2 ^ 32)). lia. Qed.

(** Delivery of a vote, in time. *)
Lemma step_count_inv g n st st' from hdr w1 w2 : inv g -> peers g !! n = Some st -> wire g = w1 ++ (from, n, hdr) :: w2 -> data hdr = FAILOVER_AUTH_ACK -> auth_sent (failover st) = true -> counts_ballot hdr st st' -> currentEpoch st <= currentEpoch st' ->
  inv (commit g n st' (w1 ++ w2) []).
Proof.
  intros HI Hn Ew Hd Hsent (E1 & E2 & E3 & Hs & Hcase) Hc. assert (wire g ≡ₚ [(from, n, hdr)] ++ w1 ++ w2) as Hw by (rewrite Ew; apply taken_out). pose proof (inv_nodes g HI n st Hn) as Hnode.
  assert (quiet_msgs st st') as Hm by (exists []; split; [done|constructor]). destruct Hcase as [E4|(Hep & Ec & Es & Ee)]; [by apply (step_quiet_inv g n st st' [(from, n, hdr)])|].
  apply (commit_silent g n st st' [(from, n, hdr)]); [done|done|done|done| |lia|lia|intros k e s Hin; by apply not_elem_of_nil in Hin].
  pose proof Hnode as [H1 H2 H3 H4 H5 H6 H7 H8]. destruct (H8 Hsent) as [Hpos Hcount]. assert ((from, n, m_currentEpoch hdr) ∈ acks g) as Hin.
  { eapply elem_of_submseteq; [|apply (inv_ballots g HI)]. apply list_elem_of_fmap. exists (from, n, hdr). split; [done|]. apply list_elem_of_In, List.filter_In. split; [|cbn; by rewrite Hd]. rewrite Ew. apply List.in_app_iff. right. by left. }
  destruct (inv_acks g HI _ _ _ Hin) as [_ (s & Hs' & L)]. rewrite Hn in Hs'. injection Hs' as <-. assert (m_currentEpoch hdr = auth_epoch (failover st)) as Heq by lia.
  pose proof (margin_grows n (auth_epoch (failover st)) g [(from, n, hdr)] (w1 ++ w2) [] Hw) as Hg. rewrite !app_nil_r in Hg. replace (ballots [(from, n, hdr)]) with [(from, n, m_currentEpoch hdr)] in Hg by (unfold ballots; cbn; by rewrite Hd). rewrite tally_one in Hg. unfold is_for in Hg. cbn [fst snd] in Hg. rewrite Z.eqb_refl, (proj2 (Z.eqb_eq _ _) Heq) in Hg. cbn [Z.b2z andb] in Hg.
  assert (- 2 ^ 31 <= auth_count (failover st) + 1) by (unfold in_s in H6; lia). pose proof (i32_le (auth_count (failover st) + 1) ltac:(done)). constructor; cbn; rewrite ?E1, ?E2, ?Ec, ?Es, ?Ee; try done; try lia.
  - apply swrap_range. lia.
  - intros. congruence.
Qed.

Lemma next_not_wrapped x : 0 <= x -> x <= u64 (x + 1) -> u64 (x + 1) = x + 1.
Proof.
  intros H0 H. unfold uwrap in *. pose proof (Z.mod_le (x + 1) (2 ^ 64)). pose proof (Z_div_mod_eq_full (x + 1) (2 ^ 64)). assert (x + 1 < 2 ^ 64 \/ 2 ^ 64 <= x + 1) as [|Hge] by lia; [apply Z.mod_small; lia|].
  assert (1 <= (x + 1) / 2 ^ 64) by (apply Z.div_le_lower_bound; lia). lia.
Qed.

Lemma new_epoch_tally n e g : inv g -> (forall st, peers g !! n = Some st -> auth_epoch (failover st) < e) -> tally n e (acks g) = 0.
Proof.
  intros HI H. unfold tally. destruct (List.filter (is_for n e) (acks g)) as [|[[v c] x] l] eqn:Ef; [done|]. exfalso. assert ((v, c, x) ∈ acks g /\ is_for n e (v, c, x) = true) as [Hin Hf].
  { assert (In (v, c, x) (List.filter (is_for n e) (acks g))) as Hin by (rewrite Ef; by left). apply List.filter_In in Hin as [Hin Hf]. split; [by apply list_elem_of_In|done]. }
  unfold is_for in Hf. cbn in Hf. assert (c = n /\ x = e) as [-> ->] by lia. destruct (inv_acks g HI _ _ _ Hin) as [_ (s & Hs & L)]. specialize (H s Hs). lia.
Qed.

(** A run of the election timer. *)
Lemma step_failover_inv g n st st' : inv g -> peers g !! n = Some st -> kept_self st st' -> failover_step st st' -> currentEpoch st <= currentEpoch st' -> inv (commit g n st' (wire g) (victory n st st')).
Proof.
  intros HI Hn [E1 E2] Hstep Hc. pose proof (inv_nodes g HI n st Hn) as Hnode. assert (wire g ≡ₚ [] ++ wire g) as Hw by done.
  assert (takeovers st' = takeovers st -> victory n st st' = []) as Hno by (intros Ht; unfold victory; by rewrite Ht, Nat.ltb_irrefl).
  assert (forall k e s, (k, e, s) ∈ @nil (name * Z * Z) -> needed_quorum s <= tally k e (acks g)) as Hnil by (intros k e s Hin; by apply not_elem_of_nil in Hin).
  pose proof Hnode as [H1 H2 H3 H4 H5 H6 H7 H8]. destruct Hstep as [Hm Ht A B D|Hm Ht A B D|l Hl Fl Ht A B D F G|Hm Hsame Hsent Hq].
  - rewrite (Hno Ht). apply (commit_silent g n st st' []); [done..| |lia|lia|done]. by apply (node_inv_same n st st' g []).
  - rewrite (Hno Ht). apply (commit_silent g n st st' []); [done..| |lia|lia|done]. constructor; cbn; rewrite ?E1, ?E2, ?A, ?B, ?D; try done; lia.
  - rewrite (Hno Ht). pose proof (sends_all _ _ _ _ _ _ Hnode Hl) as Es. assert (ballots (outgoing n st') = []) as Eb.
    { unfold ballots, outgoing. rewrite Es. clear Es Hl. induction l as [|[t m] l IH]; [done|]. apply list.Forall_cons_1 in Fl as [(Hd & _) Fl]. cbn in *. rewrite Hd. by apply IH. }
    assert (currentEpoch st' = currentEpoch st + 1) as En by (rewrite G; apply next_not_wrapped; [done|by rewrite <- G]).
    apply (commit_inv g n st st' []); [done..| |lia|lia| | | |done]; rewrite ?Eb, ?app_nil_r.
    + constructor; cbn; rewrite ?E1, ?E2, ?B, ?D, ?F; try done; try lia. intros _. split; [lia|]. rewrite ballots_app, Eb, app_nil_r. assert (tally n (currentEpoch st') (acks g) = 0) as E0 by (apply new_epoch_tally; [done|]; intros s Hs; rewrite Hn in Hs; injection Hs as <-; lia).
      assert (tally n (currentEpoch st') (ballots (wire g)) <= tally n (currentEpoch st') (acks g)) as Hle. { destruct (submseteq_Permutation _ _ (inv_ballots g HI)) as [k Hk]. rewrite (tally_perm _ _ _ _ Hk), tally_app. pose proof (tally_nonneg n (currentEpoch st') k). lia. }
      specialize (H7 A). pose proof (tally_nonneg n (currentEpoch st') (ballots (wire g))). lia.
    + intros v c e Hin. by apply not_elem_of_nil in Hin.
    + apply HI.
    + rewrite Es. intros to m Hin _. eapply list.Forall_forall in Fl; [|exact Hin]. cbn in Fl. destruct Fl as (_ & Fe & Fs). split; [congruence|lia].
  - apply (commit_silent g n st st' []); [done..| |lia| |].
    + by apply (node_inv_same n st st' g []).
    + destruct Hsame as (_ & _ & ->). lia.
    + intros k e s Hin. unfold victory in Hin. destruct (_ <? _)%nat; [|by apply not_elem_of_nil in Hin]. apply list_elem_of_singleton in Hin as [= -> -> ->]. destruct Hsame as (_ & _ & ->). destruct (H8 Hsent) as [_ Hcount]. pose proof (tally_nonneg n (auth_epoch (failover st)) (ballots (wire g))). lia.
Qed.

Lemma step_inv g g' : step true g g' -> inv g -> inv g'.
Proof.
  intros Hstep HI. destruct Hstep as [from to hdr on E st st' w1 w2 Ew Hn Hon Htime Hrun Hc|n E st st' Hn Hrun Hc|n st st' Hn Hq Hc|p w1 w2 Ew].
  - destruct (ballot (data hdr)) eqn:Eb.
    + destruct (data hdr) eqn:Ed; try done.
      * eapply step_vote_inv; [done|done|exact Ew|done|by eapply (wlp_run _ (fun _ => votes_for hdr st)); [apply request_ok|]|done].
      * eapply step_count_inv; [done|done|exact Ew|done|by apply Htime|by eapply (wlp_run _ (fun _ => counts_ballot hdr st)); [apply ack_ok|]|done].
    + eapply (step_quiet_inv g to st st' [(from, to, hdr)]); [done|done|rewrite Ew; apply taken_out|by eapply (wlp_run _ (fun _ => quiet st)); [apply quiet_process; [done|by rewrite (ni_self _ _ _ _ (inv_nodes g HI to st Hn))]|]|done].
  - destruct (wlp_run _ (fun _ s => kept_self st s /\ failover_step st s) _ _ _ (handle_failover_ok E st) Hrun) as [Hk Hf]. by apply step_failover_inv.
  - by apply (step_quiet_inv g n st st' []).
  - assert (wire g ≡ₚ [p] ++ w1 ++ w2) as Hw by (rewrite Ew; apply taken_out). destruct HI as [I1 I2 I3 I4 I5 I6]. constructor; cbn; try done.
    + intros n st Hn. pose proof (node_inv_others n st g [p] (w1 ++ w2) [] Hw (I1 n st Hn)) as H. by rewrite !app_nil_r in H.
    + etrans; [|exact I2]. rewrite (ballots_perm _ _ Hw), ballots_app. by apply submseteq_inserts_l.
    + intros c to m Hin. apply (I5 c to m). rewrite Hw. apply elem_of_app. by right.
Qed.

Lemma initial_inv g : initial g -> inv g.
Proof.
  intros (Hc & Ew & Ea & Ewin). constructor; rewrite ?Ew, ?Ea, ?Ewin; cbn.
  - intros n st Hn. destruct (Hc n st Hn) as [H1 H2 H3 H4 H5 H6 H7]. constructor; try done; rewrite ?H6; [by vm_compute|done|congruence].
  - done.
  - constructor.
  - intros v c e Hin. by apply not_elem_of_nil in Hin.
  - intros c to m Hin. by apply not_elem_of_nil in Hin.
  - intros n e s Hin. by apply not_elem_of_nil in Hin.
Qed.

Lemma reachable_inv g : reachable true g -> inv g.
Proof. intros (g0 & H0 & Hr). apply initial_inv in H0. induction Hr as [|a b c Hab _ IH]; [done|]. apply IH. by eapply step_inv. Qed.

Lemma two_tallies w1 w2 e l : w1 <> w2 -> tally w1 e l + tally w2 e l <= zlen (in_epoch e l).
Proof.
  intros Hne. unfold tally, in_epoch. induction l as [|[[v c] x] l IH]; [done|]. cbn [List.filter]. change (is_for w1 e (v, c, x)) with ((c =? w1) && (x =? e)). change (is_for w2 e (v, c, x)) with ((c =? w2) && (x =? e)). cbn [snd].
  destruct (x =? e); rewrite ?andb_false_r, ?andb_true_r; [|exact IH]. destruct (Z.eqb_spec c w1), (Z.eqb_spec c w2); rewrite ?zlen_cons; congruence || lia.
Qed.

(** Every vote of an epoch is from another node. *)
Lemma voters_distinct g e : inv g -> NoDup (map (fun b => b.1.1) (in_epoch e (acks g))).
Proof.
  intros HI. pose proof (inv_once g HI) as H. unfold in_epoch. induction (acks g) as [|[[v c] x] l IH]; [constructor|]. cbn in *. apply list.NoDup_cons in H as [Hn H]. destruct (Z.eqb_spec x e) as [->|]; [|by apply IH]. cbn. apply list.NoDup_cons. split; [|by apply IH].
  intros Hin. apply Hn. apply list_elem_of_fmap in Hin as ([[v' c'] x'] & -> & Hin). apply list_elem_of_In, List.filter_In in Hin as [Hin Hx]. cbn in Hx. apply list_elem_of_fmap. exists (v', c', x'). cbn. split; [f_equal; lia|by apply list_elem_of_In].
Qed.

(** ** Executable runs *)

Inductive act := Deliver (i : nat) (E : env) | Timer (n : name) (E : env) | Lose (i : nat).

Definition exec (timely : bool) (g : net) (a : act) : option net :=
  match a with
  | Deliver i E =>
    match wire g !! i with
    | Some (from, to, hdr) =>
      match peers g !! to with
      | Some st =>
        if timely && is_ack (data hdr) && negb (auth_sent (failover st)) then None else
        match clusterProcessPacket E None hdr st with Ok (st', _) => if currentEpoch st <=? currentEpoch st' then Some (commit g to st' (take i (wire g) ++ drop (S i) (wire g)) []) else None | Fault _ => None end
      | None => None
      end
    | None => None
    end
  | Timer n E =>
    match peers g !! n with
    | Some st => match clusterHandleSlaveFailover E st with Ok (st', _) => if currentEpoch st <=? currentEpoch st' then Some (commit g n st' (wire g) (victory n st st')) else None | Fault _ => None end
    | None => None
    end
  | Lose i => match wire g !! i with Some _ => Some (mk_net (peers g) (take i (wire g) ++ drop (S i) (wire g)) (acks g) (wins g)) | None => None end
  end.

Lemma exec_sound timely g a g' : exec timely g a = Some g' -> step timely g g'.
Proof.
  destruct a as [i E|n E|i]; cbn [exec].
  - destruct (wire g !! i) as [[[from to] hdr]|] eqn:Ew; [|done]. destruct (peers g !! to) as [st|] eqn:Ep; [|done]. destruct (timely && is_ack (data hdr) && _) eqn:Et; [done|]. destruct (clusterProcessPacket E None hdr st) as [[st' []]|] eqn:Er; [|done]. destruct (Z.leb_spec (currentEpoch st) (currentEpoch st')); [|done]. intros [= <-].
    eapply (step_deliver _ _ from to hdr None); [symmetry; by apply take_drop_middle|exact Ep|done| |exact Er|done]. intros Ha. rewrite Ha in Et. by destruct (auth_sent (failover st)).
  - destruct (peers g !! n) as [st|] eqn:Ep; [|done]. destruct (clusterHandleSlaveFailover E st) as [[st' []]|] eqn:Er; [|done]. destruct (Z.leb_spec (currentEpoch st) (currentEpoch st')); [|done]. intros [= <-]. by eapply step_failover.
  - destruct (wire g !! i) as [p|] eqn:Ew; [|done]. intros [= <-]. eapply (step_lose _ _ p). symmetry; by apply take_drop_middle.
Qed.

Fixpoint execs (timely : bool) (g : net) (l : list act) : option net := match l with [] => Some g | a :: l => match exec timely g a with Some g => execs timely g l | None => None end end.
Lemma execs_sound timely l : forall g g', execs timely g l = Some g' -> rtc (step timely) g g'.
Proof.
  induction l as [|a l IH]; intros g g'; cbn; [by intros [= ->]|]. destruct (exec timely g a) as [g1|] eqn:E; [|done]. intros H. eapply rtc_l; [by eapply exec_sound|by apply IH].
Qed.

(** ** A cluster of three masters and two slaves *)

(** Masters 1, 2 and 5 serve the slots 1, 2 and 5 of 8; 5 is failing and has the slaves 6
    and 7. *)
Definition one_slot (j : Z) : list Z := [Z.shiftl 1 j].
Definition demo_node (me n : name) : clusterNode :=
  mk_node (Z.lor (if n =? me then CLUSTER_NODE_MYSELF else 0) (if n <=? 5 then if n =? 5 then Z.lor CLUSTER_NODE_MASTER CLUSTER_NODE_FAIL else CLUSTER_NODE_MASTER else CLUSTER_NODE_SLAVE))
    0 (if n <=? 5 then one_slot n else [0]) (if n <=? 5 then 1 else 0) (if n =? 5 then [6; 7] else []) (if 6 <=? n then Some 5 else None) true 0 0 0 0 0 0 [] null_addr.
Definition demo_state (me : name) : clusterState :=
  mk_state me 0 0 CLUSTER_OK 3 (list_to_map (map (fun n => (n, demo_node me n)) [1; 2; 5; 6; 7])) (mk_tables (list_to_map (map (fun j => (j, j)) [1; 2; 5])) ∅ ∅)
    (mk_election 0 0 false 0 0) (mk_manual 0 None 0 false) CANT_NONE 0 0 0 [] [] ∅.
Definition demo_net : net := mk_net (list_to_map (map (fun n => (n, demo_state n)) [1; 2; 6; 7])) [] [] [].
Definition at_time (t : Z) : env := mk_env 8 t 0 1000 0 10 false true 0 0 0 0 0 (fun _ => 0) false false [] (mk_bus 7000 None 0 0 [] None (fun _ => None) (fun _ => 0)).

Lemma demo_initial : initial demo_net.
Proof.
  split; [|done]. intros n st Hn. unfold demo_net in Hn. cbn [peers] in Hn. apply elem_of_list_to_map_2 in Hn. cbn [map] in Hn.
  repeat (apply elem_of_cons in Hn as [Hn|Hn]; [injection Hn as -> ->; constructor; by vm_compute|]). by apply not_elem_of_nil in Hn.
Qed.

Lemma run_reachable timely l g : execs timely demo_net l = Some g -> reachable timely g.
Proof. intros H. exists demo_net. split; [apply demo_initial|by eapply execs_sound]. Qed.

Definition start_acts : list act := [Timer 6 (at_time 10000); Timer 6 (at_time 10500); Deliver 4 (at_time 10510); Deliver 3 (at_time 10510)].
(** Slave 6 asks for votes, the masters 1 and 2 give them, and 6 takes over. *)
Definition elected_acts : list act := start_acts ++ [Deliver 3 (at_time 10520); Deliver 3 (at_time 10520); Timer 6 (at_time 10530)].
(** The votes for 6 are held up until it schedules its next election. *)
Definition late_acts : list act := start_acts ++ [Deliver 1 (at_time 10510); Timer 6 (at_time 14600); Timer 7 (at_time 14600); Deliver 2 (at_time 14700); Deliver 2 (at_time 14700); Timer 6 (at_time 15100); Timer 7 (at_time 15100);
  Deliver 11 (at_time 15110); Deliver 10 (at_time 15110); Deliver 10 (at_time 15120); Deliver 10 (at_time 15120); Timer 6 (at_time 15130); Timer 7 (at_time 15130)].
Definition outcome_of (timely : bool) (l : list act) : net := default demo_net (execs timely demo_net l).

(** ** Theorems *)

(** C2: At most one slave wins the election of an epoch: two winners of an epoch are the same
    node, in every run of the network in which packets are lost and delivered in any order,
    under two conditions. Votes are timely ([reachable true]): when one arrives, the slave
    has an election under way, [failover_auth_sent] being set; it is not enough that the
    next election has not started ([late_votes_break_election]). And the nodes that voted in
    the epoch lie in a set [V] that is no larger than the cluster size each of the two
    winners believed in ([server.cluster->size], the masters with slots it knew), so that the
    two quorums share a voter. *)
Theorem failover_election_safety g w1 w2 e s1 s2 (V : gset name) : reachable true g -> (w1, e, s1) ∈ wins g -> (w2, e, s2) ∈ wins g ->
  (forall v c, (v, c, e) ∈ acks g -> v ∈ V) -> Z.of_nat (base.size V) <= s1 -> Z.of_nat (base.size V) <= s2 -> w1 = w2.
Proof.
  intros Hr H1 H2 HV L1 L2. pose proof (reachable_inv g Hr) as HI. destruct (decide (w1 = w2)) as [|Hne]; [done|]. exfalso. pose proof (inv_wins g HI _ _ _ H1) as Q1. pose proof (inv_wins g HI _ _ _ H2) as Q2. pose proof (two_tallies w1 w2 e (acks g) Hne) as Ht.
  assert (zlen (in_epoch e (acks g)) <= Z.of_nat (base.size V)) as Hv.
  { pose proof (voters_distinct g e HI) as Hd. rewrite <- (zlen_map (fun b => b.1.1)). unfold zlen. apply inj_le. rewrite <- (size_list_to_set (C := gset name)) by done. apply subseteq_size. intros v Hin. apply elem_of_list_to_set, list_elem_of_fmap in Hin as ([[v' c] x] & -> & Hin).
    apply list_elem_of_In, List.filter_In in Hin as [Hin Hx]. cbn in Hx. apply (HV _ c). assert (x = e) as -> by lia. by apply list_elem_of_In. }
  unfold needed_quorum in *. pose proof (Z_div_mod_eq_full s1 2). pose proof (Z_div_mod_eq_full s2 2). pose proof (Z.mod_pos_bound s1 2). pose proof (Z.mod_pos_bound s2 2). lia.
Qed.

Lemma failover_election_safety_witness : exists g, reachable true g /\ (6, 1, 3) ∈ wins g /\ forall w, (w, 1, 3) ∈ wins g -> w = 6.
Proof.
  assert (option_map (fun g => (acks g, wins g)) (execs true demo_net elected_acts) = Some ([(1, 6, 1); (2, 6, 1)], [(6, 1, 3)])) as H by (vm_compute; reflexivity).
  destruct (execs true demo_net elected_acts) as [g|] eqn:E; [|discriminate]. cbn [option_map] in H. injection H as Ha Hw. exists g. pose proof (run_reachable _ _ _ E) as Hr. rewrite Hw. split_and!; [exact Hr|left|]. intros w Hin.
  apply (failover_election_safety g w 6 1 3 3 {[1; 2; 5]} Hr); [by rewrite Hw|rewrite Hw; left| |vm_compute; discriminate|vm_compute; discriminate]. rewrite Ha. intros v c Hv. rewrite !elem_of_union, !elem_of_singleton. apply list_elem_of_In in Hv as [Hv|[Hv|[]]]; injection Hv as <- <-; lia.
Defined.

(** C37: Votes that arrive between the end of an election and the start of the next are counted
    for the next: with two votes of epoch 1 that come late, slave 6 wins epoch 2 without a
    single vote in it, while slave 7 wins the same epoch with the votes of both masters. *)
Theorem late_votes_break_election : exists g, reachable false g /\ wins g = [(6, 2, 3); (7, 2, 3)] /\ acks g = [(1, 6, 1); (2, 6, 1); (1, 7, 2); (2, 7, 2)].
Proof.
  assert (option_map (fun g => (acks g, wins g)) (execs false demo_net late_acts) = Some ([(1, 6, 1); (2, 6, 1); (1, 7, 2); (2, 7, 2)], [(6, 2, 3); (7, 2, 3)])) as H by (vm_compute; reflexivity).
  destruct (execs false demo_net late_acts) as [g|] eqn:E; [|discriminate]. cbn [option_map] in H. injection H as Ha Hw. exists g. split_and!; [by eapply run_reachable|done|done].
Qed.
End ClusterVote.
