(* ===== verification/Query.v ===== *)
(** * Keys of a command and the node that serves it

    The key extraction of db.c (getKeysFromCommand and the functions of the command table)
    on the argument vector, and getNodeByQuery of cluster.c, which decides from the keys and
    the slot tables whether this node serves a request or where the client is sent. Arrays
    of positions are allocated and written with checked accesses. Module commands with
    their own key function, code loaded at run time, are a parameter. [QueryOps] holds the
    theorems. *)
From stdpp Require Import gmap.
From S2P Require Import Prelude Sds Networking Crc Rdb StateM Cluster.

Module Query.
Import Cluster.

Definition CMD_READONLY : Z := 2.
Definition CMD_MODULE : Z := 8.
Definition CMD_ASKING : Z := 4096.
Definition CMD_MODULE_GETKEYS : Z := 16384.
Definition CLIENT_READONLY : Z := 131072.

Inductive getkeys := zunionInter | eval | sort | migrate | georadius.
(** What is read of a row of the command table: is [proc] EXEC, or MIGRATE; [flags]; the
    key function; the positions of keys. *)
Record redisCommand := mk_cmd { is_exec : bool; is_migrate : bool; cmd_flags : Z; getkeys_proc : option getkeys; firstkey : Z; lastkey : Z; keystep : Z }.
Definition cmd_flag (c : redisCommand) (f : Z) : bool := negb (Z.land (cmd_flags c) f =? 0).

Abbreviation args := (list (list Z)).
Definition arg (argv : args) (i : Z) : res (list Z) := if i <? 0 then Fault OutOfBounds else match argv !! Z.to_nat i with Some x => Ok x | None => Fault OutOfBounds end.
(** [!strcasecmp(argv[i]->ptr, s)] *)
Definition arg_is (argv : args) (i : Z) (s : list Z) : res bool := x ← arg argv i; Ok (bool_decide (map tolower (Sds.cstring x) = s)).

(** [zmalloc(sizeof(int)*n)]; a negative size is a huge one, and the process aborts. *)
Definition alloc_ints (n : Z) : res (list Z) := _ ← assert_ (0 <=? n); Ok (repeat 0 (Z.to_nat n)).

(** [atoi]: a long, saturated, cut to an int. *)
Definition atoi (s : list Z) : Z := i32 (Rdb.strtoll (Sds.cstring s)).1.

(** ** Keys of a command *)

(** [None]: no keys, a module command with too few arguments. *)
Fixpoint table_loop (fuel : nat) (cmd : redisCommand) (argc last j i : Z) (keys : list Z) : res (option (list Z * Z)) :=
  match fuel with
  | O => Fault OutOfFuel
  | S fuel =>
    if negb (j <=? last) then Ok (Some (keys, i)) else
    if argc <=? j then if cmd_flag cmd CMD_MODULE then Ok None else Fault AssertFailed else
    keys ← poke keys i j;
    table_loop fuel cmd argc last (j + keystep cmd) (i + 1) keys
  end.
Definition getKeysUsingCommandTable (cmd : redisCommand) (argc : Z) : res (list Z) :=
  if firstkey cmd =? 0 then Ok [] else
  let last := if lastkey cmd <? 0 then argc + lastkey cmd else lastkey cmd in
  keys ← alloc_ints (last - firstkey cmd + 1);
  r ← table_loop (S (Z.to_nat (last - firstkey cmd + 1))) cmd argc last (firstkey cmd) 0 keys;
  match r with Some (keys, i) => rd keys 0 i | None => Ok [] end.

(** [for (i = 0; i < num; i++) keys[i] = first+i;] *)
Fixpoint fill_from (n : nat) (first i : Z) (keys : list Z) : res (list Z) :=
  match n with O => Ok keys | S n => keys ← poke keys i (first + i); fill_from n first (i + 1) keys end.

Definition zunionInterGetKeys (argv : args) : res (list Z) :=
  x ← arg argv 2;
  let num := atoi x in
  if zlen argv - 3 <? num then Ok [] else
  keys ← alloc_ints (num + 1);
  keys ← fill_from (Z.to_nat num) 3 0 keys;
  keys ← poke keys num 1;
  rd keys 0 (num + 1).

Definition evalGetKeys (argv : args) : res (list Z) :=
  x ← arg argv 2;
  let num := atoi x in
  if zlen argv - 3 <? num then Ok [] else
  keys ← alloc_ints num;
  keys ← fill_from (Z.to_nat num) 3 0 keys;
  rd keys 0 num.

(** One option of SORT: where the scan goes on, and a store key. *)
Fixpoint sort_option (argv : args) (i : Z) (skiplist : list (list Z * Z)) : res (Z * option Z) :=
  match skiplist with
  | [] => Ok (i, None)
  | (name, skip) :: skiplist =>
    b ← arg_is argv i name;
    if b : bool then Ok (i + skip, None) else
    b ← arg_is argv i (str "store");
    if b && (i + 1 <? zlen argv) then Ok (i, Some (i + 1)) else sort_option argv i skiplist
  end.
Definition sort_skiplist : list (list Z * Z) := [(str "limit", 2); (str "get", 1); (str "by", 1)].
Fixpoint sort_loop (fuel : nat) (argv : args) (i : Z) (keys : list Z) (found_store : bool) : res (list Z * bool) :=
  match fuel with
  | O => Fault OutOfFuel
  | S fuel =>
    if negb (i <? zlen argv) then Ok (keys, found_store) else
    '(i, store) ← sort_option argv i sort_skiplist;
    match store with
    | Some k => keys ← poke keys 1 k; sort_loop fuel argv (i + 1) keys true
    | None => sort_loop fuel argv (i + 1) keys found_store
    end
  end.
Definition sortGetKeys (argv : args) : res (list Z) :=
  keys ← alloc_ints 2;
  keys ← poke keys 0 1;
  '(keys, found_store) ← sort_loop (S (length argv)) argv 2 keys false;
  rd keys 0 (if found_store : bool then 2 else 1).

Fixpoint migrate_loop (n : nat) (argv : args) (i : Z) : res (Z * Z) :=
  match n with
  | O => Ok (3, 1)
  | S n =>
    b ← arg_is argv i (str "keys");
    hit ← (if b : bool then x ← arg argv 3; Ok (zlen x =? 0) else Ok false);
    if hit : bool then Ok (i + 1, zlen argv - (i + 1)) else migrate_loop n argv (i + 1)
  end.
Definition migrateGetKeys (argv : args) : res (list Z) :=
  '(first, num) ← (if 6 <? zlen argv then migrate_loop (Z.to_nat (zlen argv - 6)) argv 6 else Ok (3, 1));
  keys ← alloc_ints num;
  keys ← fill_from (Z.to_nat num) first 0 keys;
  rd keys 0 num.

Fixpoint georadius_loop (fuel : nat) (argv : args) (i stored_key : Z) : res Z :=
  match fuel with
  | O => Fault OutOfFuel
  | S fuel =>
    if negb (i <? zlen argv) then Ok stored_key else
    b1 ← arg_is argv i (str "store");
    b2 ← arg_is argv i (str "storedist");
    if (b1 || b2) && (i + 1 <? zlen argv) then georadius_loop fuel argv (i + 2) (i + 1) else georadius_loop fuel argv (i + 1) stored_key
  end.
Definition georadiusGetKeys (argv : args) : res (list Z) :=
  stored_key ← georadius_loop (S (length argv)) argv 5 (-1);
  let num := 1 + (if stored_key =? -1 then 0 else 1) in
  keys ← alloc_ints num;
  keys ← poke keys 0 1;
  keys ← (if 1 <? num then poke keys 1 stored_key else Ok keys);
  rd keys 0 num.

Section Commands.
Context (moduleGetCommandKeysViaAPI : redisCommand -> args -> res (list Z)).

Definition getKeysFromCommand (cmd : redisCommand) (argv : args) : res (list Z) :=
  if cmd_flag cmd CMD_MODULE_GETKEYS then moduleGetCommandKeysViaAPI cmd argv else
  match (if cmd_flag cmd CMD_MODULE then None else getkeys_proc cmd) with
  | Some zunionInter => zunionInterGetKeys argv
  | Some eval => evalGetKeys argv
  | Some sort => sortGetKeys argv
  | Some migrate => migrateGetKeys argv
  | Some georadius => georadiusGetKeys argv
  | None => getKeysUsingCommandTable cmd (zlen argv)
  end.

(** ** The node that serves a request *)

Inductive redir := CLUSTER_REDIR_NONE | CLUSTER_REDIR_CROSS_SLOT | CLUSTER_REDIR_UNSTABLE | CLUSTER_REDIR_ASK | CLUSTER_REDIR_MOVED | CLUSTER_REDIR_DOWN_STATE | CLUSTER_REDIR_DOWN_UNBOUND.

(** The local variables of the loop over the keys. *)
Record scan := mk_scan { q_n : option name; q_firstkey : option (list Z); q_multiple : bool; q_slot : Z; q_migrating : bool; q_importing : bool; q_missing : Z }.

(** [has_key]: lookupKeyRead in database 0 finds the key. *)
Context (st : clusterState) (has_key : list Z -> bool).

(** One key: an error, or the variables for the next. *)
Definition scan_key (q : scan) (thiskey : list Z) : res (redir + scan) :=
  thisslot ← Crc.keyHashSlot thiskey;
  r ← match q_firstkey q with
      | None =>
        match owner (tables st) !! thisslot with
        | None => Ok (inl CLUSTER_REDIR_DOWN_UNBOUND)
        | Some n =>
          let migrating := (n =? myself st) && bool_decide (migrating_slots_to (tables st) !! thisslot <> None) in
          Ok (inr (mk_scan (Some n) (Some thiskey) (q_multiple q) thisslot migrating (negb migrating && bool_decide (importing_slots_from (tables st) !! thisslot <> None)) (q_missing q)))
        end
      | Some first =>
        if bool_decide (first = thiskey) then Ok (inr q) else
        if negb (q_slot q =? thisslot) then Ok (inl CLUSTER_REDIR_CROSS_SLOT) else
        Ok (inr (mk_scan (q_n q) (q_firstkey q) true (q_slot q) (q_migrating q) (q_importing q) (q_missing q)))
      end;
  match r with
  | inl e => Ok (inl e)
  | inr q => Ok (inr (if (q_migrating q || q_importing q) && negb (has_key thiskey) then mk_scan (q_n q) (q_firstkey q) (q_multiple q) (q_slot q) (q_migrating q) (q_importing q) (q_missing q + 1) else q))
  end.
Fixpoint scan_keys (argv : args) (keyindex : list Z) (q : scan) : res (redir + scan) :=
  match keyindex with
  | [] => Ok (inr q)
  | j :: keyindex => thiskey ← arg argv j; r ← scan_key q thiskey; match r with inl e => Ok (inl e) | inr q => scan_keys argv keyindex q end
  end.
Fixpoint scan_commands (ms : list (redisCommand * args)) (q : scan) : res (redir + scan) :=
  match ms with
  | [] => Ok (inr q)
  | (mcmd, margv) :: ms => keyindex ← getKeysFromCommand mcmd margv; r ← scan_keys margv keyindex q; match r with inl e => Ok (inl e) | inr q => scan_commands ms q end
  end.

(** The node, the error code and the slot; [client_flags] and [mstate] are the flags of
    the client and the commands it queued after MULTI. *)
Definition getNodeByQuery (client_flags : Z) (mstate : list (redisCommand * args)) (cmd : redisCommand) (argv : args) : res (option name * redir * Z) :=
  let flag f := negb (Z.land client_flags f =? 0) in
  let me := myself st in
  if is_exec cmd && negb (flag Networking.CLIENT_MULTI) then Ok (Some me, CLUSTER_REDIR_NONE, 0) else
  r ← scan_commands (if is_exec cmd then mstate else [(cmd, argv)]) (mk_scan None None false 0 false false 0);
  match r with
  | inl e => Ok (None, e, 0)
  | inr q =>
    match q_n q with
    | None => Ok (Some me, CLUSTER_REDIR_NONE, 0)
    | Some n =>
      let slot := q_slot q in
      if negb (bool_decide (state st = CLUSTER_OK)) then Ok (None, CLUSTER_REDIR_DOWN_STATE, 0) else
      if (q_migrating q || q_importing q) && is_migrate cmd then Ok (Some me, CLUSTER_REDIR_NONE, slot) else
      if q_migrating q && negb (q_missing q =? 0) then Ok (migrating_slots_to (tables st) !! slot, CLUSTER_REDIR_ASK, slot) else
      if q_importing q && (flag Networking.CLIENT_ASKING || cmd_flag cmd CMD_ASKING) then
        if q_multiple q && negb (q_missing q =? 0) then Ok (None, CLUSTER_REDIR_UNSTABLE, slot) else Ok (Some me, CLUSTER_REDIR_NONE, slot)
      else
      x ← match nodes st !! me with Some x => Ok x | None => Fault OutOfBounds end;
      if flag CLIENT_READONLY && cmd_flag cmd CMD_READONLY && nodeIsSlave x && bool_decide (slaveof x = Some n) then Ok (Some me, CLUSTER_REDIR_NONE, slot) else
      Ok (Some n, if negb (n =? me) then CLUSTER_REDIR_MOVED else CLUSTER_REDIR_NONE, slot)
    end
  end.

(** A blocked client with the keys it waits for; the redirection it gets. *)
Definition clusterRedirectBlockedClientIfNeeded (blocked_on_list : bool) (bpop_keys : list (list Z)) : res (option (option name * Z * redir)) :=
  if negb blocked_on_list then Ok None else
  if bool_decide (state st = CLUSTER_FAIL) then Ok (Some (None, 0, CLUSTER_REDIR_DOWN_STATE)) else
  match bpop_keys with
  | [] => Ok None
  | key :: _ =>
    slot ← Crc.keyHashSlot key;
    let node := owner (tables st) !! slot in
    if negb (bool_decide (node = Some (myself st))) && bool_decide (importing_slots_from (tables st) !! slot = None) then
      match node with None => Ok (Some (None, 0, CLUSTER_REDIR_DOWN_UNBOUND)) | Some n => Ok (Some (Some n, slot, CLUSTER_REDIR_MOVED)) end
    else Ok None
  end.
End Commands.
End Query.
