(* ===== verification/QueryOps.v ===== *)
(** * Keys of a command and routing: theorems

    The positions of keys lie in the argument vector, routing is a function of the list of
    keys ([route]), and a slot that is not being moved is served by at most one of the nodes
    that agree on its owner. *)
From stdpp Require Import gmap.
From S2P Require Import Prelude Sds Networking Crc Rdb StateM Cluster Query.

Module QueryOps.
Import Cluster Query.

(** ** Routing *)

Definition slot_of (key : list Z) : Z := match Crc.keyHashSlot key with Ok s => s | Fault _ => 0 end.
Lemma slot_of_ok key : Forall (in_u 8) key -> Crc.keyHashSlot key = Ok (slot_of key).
Proof. intros H. destruct (Crc.keyHashSlot_hash_tag key H) as (part & Hk & _). unfold slot_of. by rewrite Hk. Qed.

Section Route.
Context (mod_keys : redisCommand -> args -> res (list Z)) (st : clusterState) (has_key : list Z -> bool).

(** The keys of a list of commands. *)
Fixpoint keys_at (argv : args) (l : list Z) : res (list (list Z)) := match l with [] => Ok [] | j :: l => k ← arg argv j; ks ← keys_at argv l; Ok (k :: ks) end.
Fixpoint request_keys (ms : list (redisCommand * args)) : res (list (list Z)) :=
  match ms with [] => Ok [] | (c, argv) :: ms => l ← getKeysFromCommand mod_keys c argv; ks ← keys_at argv l; rest ← request_keys ms; Ok (ks ++ rest) end.

(** The decision as a function of the keys. *)
Definition route (client_flags : Z) (cmd : redisCommand) (ks : list (list Z)) (x : clusterNode) : option name * redir * Z :=
  let me := myself st in
  let flag f := negb (Z.land client_flags f =? 0) in
  match ks with
  | [] => (Some me, CLUSTER_REDIR_NONE, 0)
  | k0 :: _ =>
    let s := slot_of k0 in
    match owner (tables st) !! s with
    | None => (None, CLUSTER_REDIR_DOWN_UNBOUND, 0)
    | Some n =>
      let migrating := (n =? me) && bool_decide (migrating_slots_to (tables st) !! s <> None) in
      let importing := negb migrating && bool_decide (importing_slots_from (tables st) !! s <> None) in
      let missing := negb (forallb has_key ks) in
      if negb (forallb (fun k => slot_of k =? s) ks) then (None, CLUSTER_REDIR_CROSS_SLOT, 0) else
      if negb (bool_decide (state st = CLUSTER_OK)) then (None, CLUSTER_REDIR_DOWN_STATE, 0) else
      if (migrating || importing) && is_migrate cmd then (Some me, CLUSTER_REDIR_NONE, s) else
      if migrating && missing then (migrating_slots_to (tables st) !! s, CLUSTER_REDIR_ASK, s) else
      if importing && (flag Networking.CLIENT_ASKING || cmd_flag cmd CMD_ASKING) then
        if existsb (fun k => bool_decide (k <> k0)) ks && missing then (None, CLUSTER_REDIR_UNSTABLE, s) else (Some me, CLUSTER_REDIR_NONE, s)
      else if flag CLIENT_READONLY && cmd_flag cmd CMD_READONLY && nodeIsSlave x && bool_decide (slaveof x = Some n) then (Some me, CLUSTER_REDIR_NONE, s)
      else (Some n, if n =? me then CLUSTER_REDIR_NONE else CLUSTER_REDIR_MOVED, s)
    end
  end.

(** With EXEC outside MULTI, which is served here and answers with an error. *)
Definition route_request (client_flags : Z) (cmd : redisCommand) (ks : list (list Z)) (x : clusterNode) : option name * redir * Z :=
  if is_exec cmd && (Z.land client_flags Networking.CLIENT_MULTI =? 0) then (Some (myself st), CLUSTER_REDIR_NONE, 0) else route client_flags cmd ks x.

Fixpoint scan_list (ks : list (list Z)) (q : scan) : res (redir + scan) :=
  match ks with [] => Ok (inr q) | k :: ks => r ← scan_key st has_key q k; match r with inl e => Ok (inl e) | inr q => scan_list ks q end end.

Lemma scan_list_app a b q : scan_list (a ++ b) q = r ← scan_list a q; match r with inl e => Ok (inl e) | inr q => scan_list b q end.
Proof. revert q. induction a as [|k a IH]; intros q; cbn; [done|]. destruct (scan_key st has_key q k) as [[e|q']|f]; cbn; [done|apply IH|done]. Qed.

Lemma scan_keys_list argv l ks q : keys_at argv l = Ok ks -> scan_keys st has_key argv l q = scan_list ks q.
Proof.
  revert ks q. induction l as [|j l IH]; intros ks q; cbn; [by intros [= <-]|]. intros (k & Hk & H)%res_bind_inv. apply res_bind_inv in H as (ks' & Hl & [= <-]). rewrite Hk. cbn. destruct (scan_key st has_key q k) as [[e|q']|f]; cbn; [done|by apply IH|done].
Qed.

Lemma scan_commands_list ms ks q : request_keys ms = Ok ks -> scan_commands mod_keys st has_key ms q = scan_list ks q.
Proof.
  revert ks q. induction ms as [|[c argv] ms IH]; intros ks q; cbn; [by intros [= <-]|]. intros (l & Hl & H)%res_bind_inv. apply res_bind_inv in H as (k1 & H1 & H). apply res_bind_inv in H as (k2 & H2 & [= <-]). rewrite Hl. cbn. rewrite (scan_keys_list _ _ _ _ H1), scan_list_app. destruct (scan_list k1 q) as [[e|q']|f]; cbn; [done|by apply IH|done].
Qed.

(** After the first key. *)
Definition count_missing (open : bool) (ks : list (list Z)) : Z := if open then zlen (List.filter (fun k => negb (has_key k)) ks) else 0.
Lemma scan_rest ks : forall q k0, Forall (Forall (in_u 8)) ks -> q_firstkey q = Some k0 -> q_slot q = slot_of k0 ->
  scan_list ks q = if forallb (fun k => slot_of k =? slot_of k0) ks
    then Ok (inr (mk_scan (q_n q) (Some k0) (q_multiple q || existsb (fun k => bool_decide (k <> k0)) ks) (q_slot q) (q_migrating q) (q_importing q) (q_missing q + count_missing (q_migrating q || q_importing q) ks)))
    else Ok (inl CLUSTER_REDIR_CROSS_SLOT).
Proof.
  induction ks as [|k ks IH]; intros q k0 Hb Hf Hs; cbn [scan_list forallb existsb].
  { rewrite orb_false_r. unfold count_missing. cbn. replace (if _ : bool then 0 else 0) with 0 by (by destruct (_ || _)). rewrite Z.add_0_r. destruct q; cbn in *; congruence. }
  apply list.Forall_cons in Hb as [Hk Hb]. unfold scan_key. rewrite (slot_of_ok k Hk). cbn [mbind res_bind]. rewrite Hf, Hs.
  assert (forall m, count_missing m (k :: ks) = (if m && negb (has_key k) then 1 else 0) + count_missing m ks) as Hc. { intros [|]; unfold count_missing; cbn; [|done]. destruct (has_key k); cbn; rewrite ?zlen_cons; lia. }
  destruct (bool_decide_reflect (k0 = k)) as [<-|Hne].
  - rewrite Z.eqb_refl. cbn [mbind res_bind andb]. rewrite (bool_decide_false (k0 <> k0)) by tauto. cbn [orb]. rewrite (IH _ k0); [|done|by destruct (_ && _)|by destruct (_ && _)]. rewrite Hc. destruct (forallb _ ks); [|done]. destruct (_ && _); cbn; do 3 f_equal; lia.
  - rewrite Z.eqb_sym. destruct (slot_of k =? slot_of k0) eqn:Es; cbn [negb andb mbind res_bind]; [|done]. rewrite (bool_decide_true (k <> k0)) by congruence. cbn [orb]. rewrite orb_true_r. cbn [q_migrating q_importing]. rewrite (IH _ k0); [|done|by destruct (_ && _)|by destruct (_ && _)]. rewrite Hc.
    destruct (forallb _ ks); [|done]. destruct (_ && _); cbn; do 3 f_equal; lia.
Qed.

Lemma missing_zero ks : (zlen (List.filter (fun k => negb (has_key k)) ks) =? 0) = forallb has_key ks.
Proof. induction ks as [|k ks IH]; [done|]. cbn. destruct (has_key k); cbn; [done|]. rewrite zlen_cons. apply Z.eqb_neq. unfold zlen. lia. Qed.
Lemma initial_scan k0 ks : Forall (Forall (in_u 8)) (k0 :: ks) ->
  scan_list (k0 :: ks) (mk_scan None None false 0 false false 0) =
  match owner (tables st) !! slot_of k0 with
  | None => Ok (inl CLUSTER_REDIR_DOWN_UNBOUND)
  | Some n =>
    let migrating := (n =? myself st) && bool_decide (migrating_slots_to (tables st) !! slot_of k0 <> None) in
    let importing := negb migrating && bool_decide (importing_slots_from (tables st) !! slot_of k0 <> None) in
    if forallb (fun k => slot_of k =? slot_of k0) ks
    then Ok (inr (mk_scan (Some n) (Some k0) (existsb (fun k => bool_decide (k <> k0)) ks) (slot_of k0) migrating importing (count_missing (migrating || importing) (k0 :: ks))))
    else Ok (inl CLUSTER_REDIR_CROSS_SLOT)
  end.
Proof.
  intros [Hk Hks]%list.Forall_cons. cbn [scan_list]. unfold scan_key. rewrite (slot_of_ok k0 Hk). cbn [mbind res_bind q_firstkey q_multiple q_missing]. destruct (owner (tables st) !! slot_of k0) as [n|]; [|done]. cbv zeta. cbn [mbind res_bind q_migrating q_importing]. set (mig := (n =? myself st) && _). set (imp := negb mig && _).
  rewrite (scan_rest ks _ k0); [|done|by destruct ((mig || imp) && negb (has_key k0))|by destruct ((mig || imp) && negb (has_key k0))]. destruct (forallb _ ks); [|done]. unfold count_missing. destruct (mig || imp) eqn:Eo; cbn [andb List.filter]; [|cbn; rewrite Eo; done]. destruct (has_key k0); cbn; rewrite Eo; [done|]. rewrite zlen_cons. do 3 f_equal. lia.
Qed.

Lemma getNodeByQuery_route client_flags mstate cmd argv ks x : is_exec cmd && (Z.land client_flags Networking.CLIENT_MULTI =? 0) = false -> request_keys (if is_exec cmd then mstate else [(cmd, argv)]) = Ok ks -> Forall (Forall (in_u 8)) ks -> nodes st !! myself st = Some x ->
  getNodeByQuery mod_keys st has_key client_flags mstate cmd argv = Ok (route client_flags cmd ks x).
Proof.
  intros Hex Hks Hb Hx. unfold getNodeByQuery. cbv zeta. rewrite negb_involutive, Hex, (scan_commands_list _ _ _ Hks). destruct ks as [|k0 ks]; [done|]. rewrite (initial_scan k0 ks Hb). cbn [route]. destruct (owner (tables st) !! slot_of k0) as [n|]; [|done]. cbv zeta. set (mig := (n =? myself st) && _). set (imp := negb mig && _).
  cbn [forallb existsb]. rewrite Z.eqb_refl, (bool_decide_false (k0 <> k0)) by tauto. cbn [andb orb]. destruct (forallb (fun k => slot_of k =? slot_of k0) ks); [|done]. cbn [mbind res_bind q_n q_slot q_migrating q_importing q_missing q_multiple negb]. destruct (negb (bool_decide (state st = CLUSTER_OK))); [done|].
  destruct ((mig || imp) && is_migrate cmd); [done|]. assert (mig || imp = true -> negb (count_missing (mig || imp) (k0 :: ks) =? 0) = negb (has_key k0 && forallb has_key ks)) as Hm. { intros ->. unfold count_missing. by rewrite missing_zero. } rewrite Hx. cbn [mbind res_bind].
  destruct mig eqn:Em; [rewrite Hm by done; cbn [andb]; destruct (negb (has_key k0 && _)); [done|]|]; cbn [andb].
  - assert (imp = false) as -> by done. cbn [andb]. destruct (_ && bool_decide (slaveof x = Some n)); [done|]. by destruct (n =? myself st).
  - destruct imp eqn:Ei; cbn [andb]; [|destruct (_ && bool_decide (slaveof x = Some n)); [done|]; by destruct (n =? myself st)]. rewrite Hm by done. destruct (negb (Z.land client_flags Networking.CLIENT_ASKING =? 0) || cmd_flag cmd CMD_ASKING); [by destruct (existsb _ ks && _)|]. destruct (_ && bool_decide (slaveof x = Some n)); [done|]. by destruct (n =? myself st).
Qed.

Lemma getNodeByQuery_route_request client_flags mstate cmd argv ks x : request_keys (if is_exec cmd then mstate else [(cmd, argv)]) = Ok ks -> Forall (Forall (in_u 8)) ks -> nodes st !! myself st = Some x ->
  getNodeByQuery mod_keys st has_key client_flags mstate cmd argv = Ok (route_request client_flags cmd ks x).
Proof.
  intros Hks Hb Hx. unfold route_request. destruct (is_exec cmd && (Z.land client_flags Networking.CLIENT_MULTI =? 0)) eqn:Hex; [|by apply getNodeByQuery_route]. unfold getNodeByQuery. cbv zeta. by rewrite negb_involutive, Hex.
Qed.

(** A node that neither owns nor imports the slot sends the client to the owner. *)
Lemma route_moved client_flags cmd k0 ks x n : owner (tables st) !! slot_of k0 = Some n -> n <> myself st -> importing_slots_from (tables st) !! slot_of k0 = None -> state st = CLUSTER_OK ->
  Forall (fun k => slot_of k = slot_of k0) ks -> Z.land client_flags CLIENT_READONLY = 0 -> route client_flags cmd (k0 :: ks) x = (Some n, CLUSTER_REDIR_MOVED, slot_of k0).
Proof.
  intros Ho Hn Hi Hst Hks Hro. cbn [route]. rewrite Ho, Hi, Hro, (proj2 (Z.eqb_neq _ _) Hn). cbv zeta. cbn [andb negb forallb]. rewrite Z.eqb_refl, (bool_decide_false (None <> None)), (bool_decide_true _ Hst) by tauto. cbn [andb negb].
  assert (forallb (fun k => slot_of k =? slot_of k0) ks = true) as ->; [|done]. apply forallb_forall. intros k Hk%list_elem_of_In. eapply list.Forall_forall in Hks; [|exact Hk]. by apply Z.eqb_eq.
Qed.

(** What it means for a request with keys to be served here. *)
Lemma route_served client_flags cmd k0 ks x s : route client_flags cmd (k0 :: ks) x = (Some (myself st), CLUSTER_REDIR_NONE, s) ->
  exists n, owner (tables st) !! slot_of k0 = Some n /\ state st = CLUSTER_OK /\ Forall (fun k => slot_of k = slot_of k0) ks /\
    (n = myself st \/ importing_slots_from (tables st) !! slot_of k0 <> None /\ (is_migrate cmd || negb (Z.land client_flags Networking.CLIENT_ASKING =? 0) || cmd_flag cmd CMD_ASKING) = true \/
     Z.land client_flags CLIENT_READONLY <> 0 /\ cmd_flag cmd CMD_READONLY = true /\ slaveof x = Some n).
Proof.
  cbn [route]. destruct (owner (tables st) !! slot_of k0) as [n|]; [|done]. cbv zeta. intros H. exists n. split; [done|]. cbn [forallb] in H. rewrite Z.eqb_refl in H. cbn [andb] in H. destruct (forallb (fun k => slot_of k =? slot_of k0) ks) eqn:Ef; [|done]. cbn [negb] in H. destruct (bool_decide_reflect (state st = CLUSTER_OK)) as [Hst|]; [|done]. split; [done|].
  split; [apply list.Forall_forall; intros k Hk%list_elem_of_In; rewrite forallb_forall in Ef; by apply Z.eqb_eq, Ef|]. destruct (Z.eqb_spec n (myself st)) as [|Hn]; [by left|]. right. cbn [andb negb orb] in H. destruct (bool_decide_reflect (importing_slots_from (tables st) !! slot_of k0 <> None)) as [Hi|Hi]; cbn [andb orb negb] in H.
  - destruct (is_migrate cmd); [by left|]. destruct (negb (Z.land client_flags Networking.CLIENT_ASKING =? 0) || cmd_flag cmd CMD_ASKING) eqn:Ea; [left; split; [done|exact Ea]|]. right. destruct (negb _ && cmd_flag cmd CMD_READONLY && nodeIsSlave x && bool_decide (slaveof x = Some n)) eqn:Er; [|done]. rewrite !andb_true_iff in Er. destruct Er as [[[E1 E2] _] E4]. apply negb_true_iff, Z.eqb_neq in E1. by apply bool_decide_eq_true in E4.
  - right. destruct (negb _ && cmd_flag cmd CMD_READONLY && nodeIsSlave x && bool_decide (slaveof x = Some n)) eqn:Er; [|done]. rewrite !andb_true_iff in Er. destruct Er as [[[E1 E2] _] E4]. apply negb_true_iff, Z.eqb_neq in E1. by apply bool_decide_eq_true in E4.
Qed.
End Route.

(** ** Positions of keys *)

Lemma alloc_ok n : 0 <= n -> exists l, alloc_ints n = Ok l /\ zlen l = n.
Proof. intros H. unfold alloc_ints. rewrite (proj2 (Z.leb_le 0 n) H). eexists. split; [done|]. unfold zlen. rewrite repeat_length. lia. Qed.

Lemma fill_from_ok n : forall first a rest, Z.of_nat n <= zlen rest -> exists rest', fill_from n first (zlen a) (a ++ rest) = Ok (a ++ up_to n (first + zlen a) ++ rest') /\ zlen rest' = zlen rest - Z.of_nat n.
Proof.
  induction n as [|n IH]; intros first a rest Hl; cbn [fill_from up_to]; [exists rest; split; [done|lia]|]. destruct rest as [|x rest]; [rewrite zlen_nil in Hl; lia|]. rewrite zlen_cons in Hl. rewrite poke_app by done. cbn [mbind res_bind]. destruct (IH first (a ++ [first + zlen a]) rest) as (rest' & E & Hr); [lia|]. rewrite zlen_app, zlen_cons, zlen_nil, <- app_assoc in E.
  exists rest'. rewrite zlen_cons. split; [|lia]. replace (zlen a + 1) with (zlen a + (0 + 1)) by lia. etransitivity; [exact E|]. rewrite <- app_assoc. replace (first + (zlen a + (0 + 1))) with (first + zlen a + 1) by lia. done.
Qed.

Lemma positions_up_to n j lo hi : lo < j -> j + Z.of_nat n <= hi -> Forall (fun k => lo < k < hi) (up_to n j).
Proof. revert j. induction n as [|n IH]; intros j H1 H2; cbn [up_to]; constructor; [lia|apply IH; lia]. Qed.
Lemma zlen_up_to n j : zlen (up_to n j) = Z.of_nat n.
Proof. revert j. induction n as [|n IH]; intros j; cbn [up_to]; [done|]. rewrite zlen_cons, IH. lia. Qed.

Lemma arg_ok argv i : 0 <= i < zlen argv -> exists x, arg argv i = Ok x.
Proof. intros H. unfold arg. rewrite (proj2 (Z.ltb_ge i 0)) by lia. destruct (lookup_lt_is_Some_2 argv (Z.to_nat i)) as [x Hx]; [unfold zlen in H; lia|]. rewrite Hx. eauto. Qed.
Lemma arg_is_ok argv i s : 0 <= i < zlen argv -> exists b, arg_is argv i s = Ok b.
Proof. intros H. unfold arg_is. destruct (arg_ok argv i H) as [x ->]. cbn. eauto. Qed.

(** A request with as many arguments as the table says, and a number of keys that is not
    negative. *)
Definition numkeys_ok (argv : args) : Prop := exists x, arg argv 2 = Ok x /\ 0 <= atoi x.
Definition declared (cmd : redisCommand) (argv : args) : Prop :=
  cmd_flag cmd CMD_MODULE_GETKEYS = false /\ cmd_flag cmd CMD_MODULE = false /\
  match getkeys_proc cmd with
  | Some zunionInter | Some eval => numkeys_ok argv
  | Some sort => 2 <= zlen argv
  | Some migrate => 6 <= zlen argv
  | Some georadius => 5 <= zlen argv
  | None => firstkey cmd = 0 \/ let last := if lastkey cmd <? 0 then zlen argv + lastkey cmd else lastkey cmd in 0 < firstkey cmd <= last + 1 /\ 0 < keystep cmd /\ last < zlen argv
  end.
Definition in_argv (argv : args) (l : list Z) : Prop := Forall (fun k => 0 < k < zlen argv) l.

Lemma eval_keys_ok argv : numkeys_ok argv -> exists l, evalGetKeys argv = Ok l /\ in_argv argv l.
Proof.
  intros (x & Hx & H0). unfold evalGetKeys. rewrite Hx. cbn [mbind res_bind]. set (num := atoi x) in *. destruct (Z.ltb_spec (zlen argv - 3) num) as [|Hn]; [exists []; split; [done|constructor]|]. destruct (alloc_ok num H0) as (l & -> & Hl). cbn [mbind res_bind]. destruct (fill_from_ok (Z.to_nat num) 3 [] l) as (r & E & Hr); [lia|].
  change (zlen (@nil Z)) with 0 in E. change ([] ++ l) with l in E. rewrite E. cbn [mbind res_bind app]. eexists. split; [apply rd_app0; rewrite zlen_up_to; lia|]. apply positions_up_to; lia.
Qed.

Lemma zunion_keys_ok argv : numkeys_ok argv -> 1 < zlen argv -> exists l, zunionInterGetKeys argv = Ok l /\ in_argv argv l.
Proof.
  intros (x & Hx & H0) Ha. unfold zunionInterGetKeys. rewrite Hx. cbn [mbind res_bind]. set (num := atoi x) in *. destruct (Z.ltb_spec (zlen argv - 3) num) as [|Hn]; [exists []; split; [done|constructor]|]. destruct (alloc_ok (num + 1)) as (l & -> & Hl); [lia|]. cbn [mbind res_bind]. destruct (fill_from_ok (Z.to_nat num) 3 [] l) as (r & E & Hr); [lia|].
  change (zlen (@nil Z)) with 0 in E. change ([] ++ l) with l in E. rewrite E. cbn [mbind res_bind app]. destruct r as [|y [|z r]]; [rewrite zlen_nil in Hr; lia| |rewrite !zlen_cons in Hr; pose proof (zlen_nonneg r); lia]. rewrite poke_app by (rewrite zlen_up_to; lia). cbn [mbind res_bind]. eexists. split; [rewrite <- (app_nil_r (_ ++ [1])); apply rd_app0; rewrite zlen_app, zlen_up_to, zlen_cons, zlen_nil; lia|].
  apply list.Forall_app. split; [apply positions_up_to; lia|]. constructor; [lia|constructor].
Qed.

Lemma sort_option_ok argv i l : 0 <= i < zlen argv -> Forall (fun p : list Z * Z => 0 <= p.2) l -> exists i' o, sort_option argv i l = Ok (i', o) /\ i <= i' /\ forall k, o = Some k -> k = i + 1 /\ k < zlen argv.
Proof.
  intros Hi. induction l as [|[s n] l IH]; intros Hl; cbn [sort_option]; [exists i, None; by split_and!|]. apply list.Forall_cons in Hl as [Hn Hl]. destruct (arg_is_ok argv i s Hi) as [b ->]. cbn [mbind res_bind]. cbn in Hn. destruct b; [exists (i + n), None; split_and!; [done|lia|done]|]. destruct (arg_is_ok argv i (str "store") Hi) as [b ->]. cbn [mbind res_bind].
  destruct b; cbn [andb]; [|by apply IH]. destruct (Z.ltb_spec (i + 1) (zlen argv)); [|by apply IH]. exists i, (Some (i + 1)). split_and!; [done|lia|]. intros k [= <-]. done.
Qed.
Lemma sort_loop_ok argv fuel : forall i y (f : bool), 2 <= i -> Z.max 0 (zlen argv - i) < Z.of_nat fuel -> (f = true -> 0 < y < zlen argv) -> exists y' (f' : bool), sort_loop fuel argv i [1; y] f = Ok ([1; y'], f') /\ (f' = true -> 0 < y' < zlen argv).
Proof.
  induction fuel as [|fuel IH]; intros i y f Hi Hf Hy; cbn [sort_loop].
  - lia.
  - destruct (Z.ltb_spec i (zlen argv)) as [Hlt|]; cbn [negb]; [|eauto]. destruct (sort_option_ok argv i sort_skiplist) as (i' & o & -> & Hi' & Ho); [lia|repeat constructor; cbn; lia|]. cbn [mbind res_bind]. destruct o as [k|]; [|apply IH; [lia|lia|done]]. destruct (Ho k eq_refl) as [-> Hk]. change [1; y] with ([1] ++ y :: []). rewrite poke_app by done. cbn [mbind res_bind app]. apply IH; [lia|lia|lia].
Qed.
Lemma sort_keys_ok argv : 2 <= zlen argv -> exists l, sortGetKeys argv = Ok l /\ in_argv argv l.
Proof.
  intros Ha. unfold sortGetKeys. cbn [mbind res_bind alloc_ints assert_ Z.leb Z.compare]. change (repeat 0 (Z.to_nat 2)) with ([] ++ 0 :: [0]). rewrite poke_app by done. cbn [mbind res_bind app]. destruct (sort_loop_ok argv (S (length argv)) 2 0 false) as (y & f & -> & Hf); [lia|unfold zlen; lia|done|]. cbn [mbind res_bind]. destruct f.
  - exists [1; y]. split; [by apply (rd_app0 [1; y] [])|]. specialize (Hf eq_refl). repeat constructor; lia.
  - exists [1]. split; [by apply (rd_app0 [1] [y])|]. repeat constructor; lia.
Qed.

Lemma migrate_loop_ok argv n : forall i, 6 <= i -> i + Z.of_nat n = zlen argv -> exists first num, migrate_loop n argv i = Ok (first, num) /\ 0 < first /\ 0 <= num /\ first + num <= zlen argv.
Proof.
  induction n as [|n IH]; intros i Hi Hn; cbn [migrate_loop]; [exists 3, 1; split_and!; [done|lia..]|]. destruct (arg_is_ok argv i (str "keys")) as [b ->]; [lia|]. cbn [mbind res_bind]. destruct (arg_ok argv 3) as [x Hx]; [lia|]. rewrite Hx. destruct b; cbn [mbind res_bind]; [|apply IH; lia]. destruct (zlen x =? 0); [|apply IH; lia]. exists (i + 1), (zlen argv - (i + 1)). split_and!; [done|lia..].
Qed.
Lemma migrate_keys_ok argv : 6 <= zlen argv -> exists l, migrateGetKeys argv = Ok l /\ in_argv argv l.
Proof.
  intros Ha. unfold migrateGetKeys. assert (exists first num, (if 6 <? zlen argv then migrate_loop (Z.to_nat (zlen argv - 6)) argv 6 else Ok (3, 1)) = Ok (first, num) /\ 0 < first /\ 0 <= num /\ first + num <= zlen argv) as (first & num & -> & H1 & H2 & H3). { destruct (6 <? zlen argv); [apply migrate_loop_ok; lia|]. exists 3, 1. split_and!; [done|lia..]. }
  cbn [mbind res_bind]. destruct (alloc_ok num H2) as (l & -> & Hl). cbn [mbind res_bind]. destruct (fill_from_ok (Z.to_nat num) first [] l) as (r & E & Hr); [lia|]. change (zlen (@nil Z)) with 0 in E. change ([] ++ l) with l in E. rewrite E. cbn [mbind res_bind app]. eexists. split; [apply rd_app0; rewrite zlen_up_to; lia|]. apply positions_up_to; lia.
Qed.

Lemma georadius_loop_ok argv fuel : forall i k, 5 <= i -> Z.max 0 (zlen argv - i) < Z.of_nat fuel -> (k = -1 \/ 0 < k < zlen argv) -> exists k', georadius_loop fuel argv i k = Ok k' /\ (k' = -1 \/ 0 < k' < zlen argv).
Proof.
  induction fuel as [|fuel IH]; intros i k Hi Hf Hk; cbn [georadius_loop]; [lia|]. destruct (Z.ltb_spec i (zlen argv)) as [Hlt|]; cbn [negb]; [|eauto]. destruct (arg_is_ok argv i (str "store")) as [b1 ->]; [lia|]. destruct (arg_is_ok argv i (str "storedist")) as [b2 ->]; [lia|]. cbn [mbind res_bind]. destruct (Z.ltb_spec (i + 1) (zlen argv)); destruct (b1 || b2); cbn [andb]; apply IH; lia.
Qed.
Lemma georadius_keys_ok argv : 5 <= zlen argv -> exists l, georadiusGetKeys argv = Ok l /\ in_argv argv l.
Proof.
  intros Ha. unfold georadiusGetKeys. destruct (georadius_loop_ok argv (S (length argv)) 5 (-1)) as (k & -> & Hk); [lia|unfold zlen; lia|by left|]. cbn [mbind res_bind]. cbv zeta. destruct (Z.eqb_spec k (-1)) as [->|Hne].
  - exists [1]. split; [done|]. repeat constructor; lia.
  - exists [1; k]. split; [done|]. repeat constructor; lia.
Qed.

Lemma table_loop_ok cmd argc last fuel : forall j a rest, cmd_flag cmd CMD_MODULE = false -> 0 < keystep cmd -> last < argc -> 0 < j -> Z.max 0 (last - j + 1) < Z.of_nat fuel -> Z.max 0 (last - j + 1) <= zlen rest -> Forall (fun k => 0 < k < argc) a ->
  exists b rest', table_loop fuel cmd argc last j (zlen a) (a ++ rest) = Ok (Some (b ++ rest', zlen b)) /\ Forall (fun k => 0 < k < argc) b.
Proof.
  induction fuel as [|fuel IH]; intros j a rest Hm Hs Hl Hj Hf Hr Ha; cbn [table_loop]; [lia|]. destruct (Z.leb_spec j last) as [Hle|]; cbn [negb]; [|eauto]. rewrite (proj2 (Z.leb_gt argc j)) by lia. destruct rest as [|x rest]; [unfold zlen in Hr; cbn [length] in Hr; lia|]. rewrite poke_app by done. cbn [mbind res_bind]. rewrite zlen_cons in Hr.
  destruct (IH (j + keystep cmd) (a ++ [j]) rest) as (b & rest' & E & Hb); [done|done|done|lia|lia|lia|apply list.Forall_app; split; [done|repeat constructor; lia]|]. exists b, rest'. rewrite zlen_app, zlen_cons, zlen_nil, <- app_assoc in E. cbn [app] in E. split; [|done]. rewrite <- E. f_equal.
Qed.
Lemma table_keys_ok cmd argv : declared cmd argv -> getkeys_proc cmd = None -> exists l, getKeysUsingCommandTable cmd (zlen argv) = Ok l /\ in_argv argv l.
Proof.
  intros (_ & Hm & Hd) Hp. rewrite Hp in Hd. unfold getKeysUsingCommandTable. destruct (Z.eqb_spec (firstkey cmd) 0) as [|Hf]; [exists []; split; [done|constructor]|]. destruct Hd as [|(H1 & H2 & H3)]; [done|]. set (last := if lastkey cmd <? 0 then _ else _) in *. cbv zeta in H1, H3. destruct (alloc_ok (last - firstkey cmd + 1)) as (l & -> & Hl); [lia|]. cbn [mbind res_bind].
  destruct (table_loop_ok cmd (zlen argv) last (S (Z.to_nat (last - firstkey cmd + 1))) (firstkey cmd) [] l) as (b & r & E & Hb); [done|done|done|lia|lia|lia|constructor|]. change (zlen (@nil Z)) with 0 in E. change ([] ++ l) with l in E. rewrite E. cbn [mbind res_bind]. exists b. split; [by apply rd_app0|done].
Qed.

Definition zunionstore : redisCommand := mk_cmd false false 0 (Some zunionInter) 0 0 0.
Example zunionstore_positions : getKeysFromCommand (fun _ _ => Ok []) zunionstore [str "zunionstore"; str "d"; str "2"; str "a"; str "b"] = Ok [3; 4; 1].
Proof. vm_compute. reflexivity. Qed.

(** A negative number of keys passes the sanity check of key extraction: with -1 the
    function for ZUNIONSTORE and ZINTERSTORE writes before the start of its array, and with
    any negative number the one for EVAL asks for an impossible allocation, which aborts the
    server. *)
Theorem negative_numkeys_unsafe (argv : args) (x : list Z) (Hx : arg argv 2 = Ok x) (H3 : 3 <= zlen argv) :
  (atoi x = -1 -> zunionInterGetKeys argv = Fault OutOfBounds) /\ (atoi x < 0 -> evalGetKeys argv = Fault AssertFailed).
Proof.
  split; intros Hn.
  - unfold zunionInterGetKeys. rewrite Hx. cbn [mbind res_bind]. rewrite Hn. rewrite (proj2 (Z.ltb_ge (zlen argv - 3) (-1))) by lia. reflexivity.
  - unfold evalGetKeys. rewrite Hx. cbn [mbind res_bind]. rewrite (proj2 (Z.ltb_ge (zlen argv - 3) (atoi x))) by lia. unfold alloc_ints. by rewrite (proj2 (Z.leb_gt 0 (atoi x))) by lia.
Qed.
(** The request EVAL s -1. *)
Lemma negative_numkeys_unsafe_witness : zunionInterGetKeys [str "zunionstore"; str "d"; str "-1"; str "a"] = Fault OutOfBounds /\ evalGetKeys [str "eval"; str "s"; str "-1"] = Fault AssertFailed.
Proof.
  split.
  - apply (negative_numkeys_unsafe [str "zunionstore"; str "d"; str "-1"; str "a"] (str "-1")); [reflexivity|discriminate|vm_compute; reflexivity].
  - apply (negative_numkeys_unsafe [str "eval"; str "s"; str "-1"] (str "-1")); [reflexivity|discriminate|vm_compute; reflexivity].
Defined.

(** C13: The loop of getNodeByQuery over commands and keys computes a closed function of the
    keys of the request (of all queued commands for EXEC): no key, or EXEC without MULTI,
    is served here; an unbound slot, keys of several slots and a cluster that is down are
    errors, in this order; MIGRATE is served where the slot is open; a slot being migrated
    is served when all keys are there and redirected with ASK otherwise; a slot being
    imported is served to clients that ask for it, and is unstable when several keys are
    given and one is missing; read-only clients are served by slaves; the rest is
    redirected to the owner. (The comment of the function announces an error for several
    keys of any slot being moved.) *)
Theorem request_routing (mod_keys : redisCommand -> args -> res (list Z)) (st : clusterState) (has_key : list Z -> bool) (client_flags : Z) (mstate : list (redisCommand * args)) (cmd : redisCommand) (argv : args) (ks : list (list Z)) (x : clusterNode)
  (Hks : request_keys mod_keys (if is_exec cmd then mstate else [(cmd, argv)]) = Ok ks) (Hb : Forall (Forall (in_u 8)) ks) (Hx : nodes st !! myself st = Some x) :
  getNodeByQuery mod_keys st has_key client_flags mstate cmd argv = Ok (route_request st has_key client_flags cmd ks x).
Proof. by apply getNodeByQuery_route_request. Qed.

(** What a node answers that is not the owner of the slot. *)
Definition sends_away (mod_keys : redisCommand -> args -> res (list Z)) (st : clusterState) (has_key : list Z -> bool) (client_flags : Z) (mstate : list (redisCommand * args)) (cmd : redisCommand) (argv : args) (s : Z) : Prop :=
  forall n, owner (tables st) !! s = Some n -> n <> myself st -> state st = CLUSTER_OK -> getNodeByQuery mod_keys st has_key client_flags mstate cmd argv = Ok (Some n, CLUSTER_REDIR_MOVED, s).

(** C11: Let two nodes agree on the owner of the slot of the first key of a request, neither
    of them importing it, and let the client not be in read-only mode. Then at most one of
    the nodes serves the request; and, when all keys are in that slot, a node that is not
    the owner and sees the cluster up redirects the client to the owner. *)
Theorem stable_slot_single_server (mod_keys : redisCommand -> args -> res (list Z)) (sa sb : clusterState) (ha hb : list Z -> bool) (client_flags : Z) (mstate : list (redisCommand * args)) (cmd : redisCommand) (argv : args) (k0 : list Z) (ks : list (list Z)) (xa xb : clusterNode) (s1 s2 : Z)
  (Hne : myself sa <> myself sb) (Hex : is_exec cmd && (Z.land client_flags Networking.CLIENT_MULTI =? 0) = false) (Hks : request_keys mod_keys (if is_exec cmd then mstate else [(cmd, argv)]) = Ok (k0 :: ks)) (Hb : Forall (Forall (in_u 8)) (k0 :: ks))
  (Ha : nodes sa !! myself sa = Some xa) (Hb' : nodes sb !! myself sb = Some xb) (Ho : owner (tables sa) !! slot_of k0 = owner (tables sb) !! slot_of k0)
  (Ia : importing_slots_from (tables sa) !! slot_of k0 = None) (Ib : importing_slots_from (tables sb) !! slot_of k0 = None) (Hro : Z.land client_flags CLIENT_READONLY = 0) :
  ~ (getNodeByQuery mod_keys sa ha client_flags mstate cmd argv = Ok (Some (myself sa), CLUSTER_REDIR_NONE, s1) /\
     getNodeByQuery mod_keys sb hb client_flags mstate cmd argv = Ok (Some (myself sb), CLUSTER_REDIR_NONE, s2)) /\
  (Forall (fun k => slot_of k = slot_of k0) ks -> sends_away mod_keys sa ha client_flags mstate cmd argv (slot_of k0) /\ sends_away mod_keys sb hb client_flags mstate cmd argv (slot_of k0)).
Proof.
  unfold sends_away. rewrite (getNodeByQuery_route _ sa ha _ _ _ _ _ xa Hex Hks Hb Ha), (getNodeByQuery_route _ sb hb _ _ _ _ _ xb Hex Hks Hb Hb'). split.
  - intros [E1 E2]. injection E1 as E1. injection E2 as E2. apply route_served in E1 as (n1 & O1 & _ & _ & [->|[[? _]|[? _]]]); [|done|done]. apply route_served in E2 as (n2 & O2 & _ & _ & [->|[[? _]|[? _]]]); [|done|done]. congruence.
  - intros Hs. split; intros n On Hn Hst; f_equal; by apply route_moved.
Qed.

(** Two nodes; node 1 owns the slot of the key foo. *)
Definition pair_state (me : name) : clusterState :=
  mk_state me 1 0 CLUSTER_OK 2 (list_to_map (map (fun n => (n, mk_node 1 n [] 0 [] None true 0 0 0 0 0 0 [] null_addr)) [1; 2])) (mk_tables {[slot_of (str "foo") := 1]} ∅ ∅)
    (mk_election 0 0 false 0 0) (mk_manual 0 None 0 false) CANT_NONE 0 0 1 [] [] ∅.
Definition get_cmd : redisCommand := mk_cmd false false CMD_READONLY None 1 1 1.
Definition no_module : redisCommand -> args -> res (list Z) := fun _ _ => Ok [].
Lemma foo_bytes : Forall (Forall (in_u 8)) [str "foo"].
Proof. repeat constructor; unfold in_u; cbn; lia. Qed.

(** GET foo is served by node 1 and redirected by node 2. *)
Example get_foo_routes :
  (getNodeByQuery no_module (pair_state 1) (fun _ => true) 0 [] get_cmd [str "get"; str "foo"], getNodeByQuery no_module (pair_state 2) (fun _ => true) 0 [] get_cmd [str "get"; str "foo"]) =
  (Ok (Some 1, CLUSTER_REDIR_NONE, 12182), Ok (Some 1, CLUSTER_REDIR_MOVED, 12182)).
Proof. vm_compute. reflexivity. Qed.

(** GET foo meets the hypotheses of [request_routing]. *)
Lemma request_routing_witness : getNodeByQuery no_module (pair_state 2) (fun _ => true) 0 [] get_cmd [str "get"; str "foo"] = Ok (route_request (pair_state 2) (fun _ => true) 0 get_cmd [str "foo"] (mk_node 1 2 [] 0 [] None true 0 0 0 0 0 0 [] null_addr)).
Proof. apply (request_routing no_module (pair_state 2) (fun _ => true) 0 [] get_cmd [str "get"; str "foo"] [str "foo"]); [reflexivity|apply foo_bytes|reflexivity]. Defined.

(** GET foo at the two nodes meets the hypotheses of [stable_slot_single_server]. *)
Lemma stable_slot_single_server_witness :
  ~ (getNodeByQuery no_module (pair_state 1) (fun _ => true) 0 [] get_cmd [str "get"; str "foo"] = Ok (Some 1, CLUSTER_REDIR_NONE, 12182) /\
     getNodeByQuery no_module (pair_state 2) (fun _ => true) 0 [] get_cmd [str "get"; str "foo"] = Ok (Some 2, CLUSTER_REDIR_NONE, 12182)) /\
  (Forall (fun k => slot_of k = slot_of (str "foo")) [] -> sends_away no_module (pair_state 1) (fun _ => true) 0 [] get_cmd [str "get"; str "foo"] (slot_of (str "foo")) /\ sends_away no_module (pair_state 2) (fun _ => true) 0 [] get_cmd [str "get"; str "foo"] (slot_of (str "foo"))).
Proof.
  apply (stable_slot_single_server no_module (pair_state 1) (pair_state 2) (fun _ => true) (fun _ => true) 0 [] get_cmd [str "get"; str "foo"] (str "foo") []
    (mk_node 1 1 [] 0 [] None true 0 0 0 0 0 0 [] null_addr) (mk_node 1 2 [] 0 [] None true 0 0 0 0 0 0 [] null_addr) 12182 12182); [discriminate|reflexivity|reflexivity|apply foo_bytes|reflexivity..].
Defined.
End QueryOps.
