(* ===== verification/ClusterCmd.v ===== *)
(** * The CLUSTER command: src/redis-stable/src/cluster.c

    All subcommands, on the argument vector. Texts of replies are left out: an error is a
    constructor of [cluster_error] with the values the text shows, and a table that NODES,
    SLOTS, INFO, SLAVES and GETKEYSINSLOT format and send, without changing the state, is
    [RTable]. A node ID is the first 40 bytes of an argument, which the code reads without
    looking at the length of the argument. [ClusterCmdOps] holds the theorems. *)
From stdpp Require Import gmap.
From S2P Require Import Prelude Util Crc Rdb StateM Cluster Query.

Module ClusterCmd.
Import Cluster Query.

Definition CLUSTER_NAMELEN : Z := 40.

Inductive cluster_error :=
| Disabled | WrongSubcommand | SyntaxError | NotAnInteger | InvalidSlot | DbNotEmpty | SlotUnassigned (slot : Z) | SlotBusy (slot : Z) | SlotTwice (slot : Z)
| SlavesCannotSetslot | NotOwner (slot : Z) | AlreadyOwner (slot : Z) | UnknownNode (shown : list Z) | KeysLeft (slot : Z) | BadSetslot
| ForgetMyself | ForgetMyMaster | ReplicateMyself | ReplicateSlave | MasterNotEmpty | FailoverMaster | MasterUnknown | MasterDown
| InvalidEpoch (epoch : Z) | KnowsOtherNodes | EpochAlreadySet | InvalidBasePort (shown : list Z) | InvalidBusPort (shown : list Z) | InvalidAddress (shown_ip shown_port : list Z)
| NotAMaster | InvalidSlotOrCount.
(** [RSaved]: OK, or the error of the system when the file could not be written. *)
Inductive reply := ROk | RErr (e : cluster_error) | RInt (v : Z) | REpoch (bumped : bool) (epoch : Z) | RId (n : name) | RTable | RSaved.

(** ** Forgetting everything *)

Section Commands.
Context (E : env).

Fixpoint del_all_loop (js : list Z) : C unit := match js with [] => mret tt | j :: js => _ ← clusterDelSlot j; del_all_loop js end.
Fixpoint forget_loop (me : name) (l : list (name * clusterNode)) : C unit :=
  match l with [] => mret tt | (n, _) :: l => _ ← (if n =? me then mret tt else clusterDelNode E n); forget_loop me l end.

(** [fresh]: the random name after a hard reset. *)
Definition rename_myself (fresh : name) (st : clusterState) : clusterState :=
  match nodes st !! myself st with
  | Some x => mk_state fresh (currentEpoch st) (lastVoteEpoch st) (state st) (size st) (<[fresh := x]> (base.delete (myself st) (nodes st))) (tables st) (failover st) (mf st) (cant_failover_reason st) (todo_before_sleep st) (among_minority_time st) (first_call_time st) (sndbuf st) (effects st) (nodes_black_list st)
  | None => st
  end.
Definition clusterReset (hard : bool) (fresh : name) : C unit :=
  me ← gets myself;
  x ← self;
  _ ← (if nodeIsSlave x then _ ← clusterSetNodeAsMaster me; _ ← call UnsetMaster; call EmptyDb else mret tt);
  _ ← clusterCloseAllSlots;
  _ ← resetManualFailover E;
  _ ← del_all_loop (all_slots E);
  l ← all_nodes;
  _ ← forget_loop me l;
  _ ← (if hard then
         _ ← modify (fun st => set_lastVoteEpoch (set_currentEpoch st 0) 0);
         _ ← update me (fun x => with_configEpoch x 0);
         modify (rename_myself fresh)
       else mret tt);
  clusterDoBeforeSleep (Z.lor (Z.lor CLUSTER_TODO_SAVE_CONFIG CLUSTER_TODO_UPDATE_STATE) CLUSTER_TODO_FSYNC_CONFIG).

(** ** Arguments *)

(** [clusterLookupNode(c->argv[i]->ptr)] *)
Definition node_name (a : list Z) : res name := x ← rd a 0 CLUSTER_NAMELEN; Ok (Rdb.be_val x).
Definition lookup_arg (a : list Z) : C (option name) := n ← lift (node_name a); clusterLookupNode n.

(** [getSlotOrReply]; [None] is -1. *)
Definition getSlotOrReply (a : list Z) : option Z := match string2ll a with Some slot => if (slot <? 0) || (CLUSTER_SLOTS E <=? slot) then None else Some slot | None => None end.

(** ** Subcommands *)

(** The first loop of ADDSLOTS and DELSLOTS: the array of marked slots. *)
Fixpoint check_slots (del : bool) (l : list (list Z)) (slots : list Z) : C (cluster_error + list Z) :=
  match l with
  | [] => mret (inr slots)
  | a :: l =>
    match getSlotOrReply a with
    | None => mret (inl InvalidSlot)
    | Some slot =>
      o ← slot_owner slot;
      if del && bool_decide (o = None) then mret (inl (SlotUnassigned slot)) else
      if negb del && bool_decide (o <> None) then mret (inl (SlotBusy slot)) else
      n ← lift (peek slots slot);
      slots ← lift (poke slots slot (u8 (n + 1)));
      if n =? 1 then mret (inl (SlotTwice slot)) else check_slots del l slots
    end
  end.
Fixpoint mark_loop (del : bool) (slots : list Z) (js : list Z) : C unit :=
  match js with
  | [] => mret tt
  | j :: js =>
    m ← lift (peek slots j);
    _ ← (if m =? 0 then mret tt else
         _ ← clear_importing j;
         me ← gets myself;
         ok ← (if del then clusterDelSlot j else clusterAddSlot me j);
         lift (assert_ ok));
    mark_loop del slots js
  end.
Definition edit_slots (del : bool) (l : list (list Z)) : C reply :=
  r ← check_slots del l (repeat 0 (Z.to_nat (CLUSTER_SLOTS E)));
  match r with
  | inl e => mret (RErr e)
  | inr slots =>
    _ ← mark_loop del slots (all_slots E);
    _ ← clusterDoBeforeSleep (Z.lor CLUSTER_TODO_UPDATE_STATE CLUSTER_TODO_SAVE_CONFIG);
    mret ROk
  end.

(** The end of the branches of SETSLOT that succeed. *)
Definition setslot_done : C reply := _ ← clusterDoBeforeSleep (Z.lor CLUSTER_TODO_SAVE_CONFIG CLUSTER_TODO_UPDATE_STATE); mret ROk.
Definition setslot_migrating (slot : Z) (id : list Z) : C reply :=
  me ← gets myself;
  o ← slot_owner slot;
  if bool_decide (o <> Some me) then mret (RErr (NotOwner slot)) else
  n ← lookup_arg id;
  match n with
  | None => mret (RErr (UnknownNode id))
  | Some n => _ ← set_open (fun t => mk_tables (owner t) (<[slot := n]> (migrating_slots_to t)) (importing_slots_from t)); setslot_done
  end.
(** The error shows the fourth argument, the word IMPORTING, and not the node ID. *)
Definition setslot_importing (slot : Z) (word id : list Z) : C reply :=
  me ← gets myself;
  o ← slot_owner slot;
  if bool_decide (o = Some me) then mret (RErr (AlreadyOwner slot)) else
  n ← lookup_arg id;
  match n with
  | None => mret (RErr (UnknownNode word))
  | Some n => _ ← set_open (fun t => mk_tables (owner t) (migrating_slots_to t) (<[slot := n]> (importing_slots_from t))); setslot_done
  end.
Definition setslot_node (slot : Z) (id : list Z) : C reply :=
  me ← gets myself;
  n ← lookup_arg id;
  match n with
  | None => mret (RErr (UnknownNode id))
  | Some n =>
    o ← slot_owner slot;
    if bool_decide (o = Some me) && negb (n =? me) && negb (countKeysInSlot E slot =? 0) then mret (RErr (KeysLeft slot)) else
    _ ← (if countKeysInSlot E slot =? 0 then clear_migrating slot else mret tt);
    imp ← gets (fun st => importing_slots_from (tables st) !! slot);
    _ ← (if (n =? me) && bool_decide (imp <> None) then _ ← clusterBumpConfigEpochWithoutConsensus; clear_importing slot else mret tt);
    _ ← clusterDelSlot slot;
    _ ← clusterAddSlot n slot;
    setslot_done
  end.
Definition setslot (argv : args) : C reply :=
  x ← self;
  if nodeIsSlave x then mret (RErr SlavesCannotSetslot) else
  a ← lift (arg argv 2);
  match getSlotOrReply a with
  | None => mret (RErr InvalidSlot)
  | Some slot =>
    let argc := zlen argv in
    word ← lift (arg argv 3);
    migrating ← lift (arg_is argv 3 (str "migrating"));
    importing ← lift (arg_is argv 3 (str "importing"));
    stable ← lift (arg_is argv 3 (str "stable"));
    node ← lift (arg_is argv 3 (str "node"));
    if migrating && (argc =? 5) then id ← lift (arg argv 4); setslot_migrating slot id
    else if importing && (argc =? 5) then id ← lift (arg argv 4); setslot_importing slot word id
    else if stable && (argc =? 4) then _ ← clear_importing slot; _ ← clear_migrating slot; setslot_done
    else if node && (argc =? 5) then id ← lift (arg argv 4); setslot_node slot id
    else mret (RErr BadSetslot)
  end.

(** [db_size]: the number of keys of database 0. *)
Context (db_size : Z).

Definition flushslots : C reply :=
  if negb (db_size =? 0) then mret (RErr DbNotEmpty) else
  me ← gets myself;
  _ ← clusterDelNodeSlots E me;
  _ ← clusterDoBeforeSleep (Z.lor CLUSTER_TODO_UPDATE_STATE CLUSTER_TODO_SAVE_CONFIG);
  mret ROk.

Definition bumpepoch : C reply :=
  b ← clusterBumpConfigEpochWithoutConsensus;
  x ← self;
  mret (REpoch b (configEpoch x)).

Definition forget (id : list Z) : C reply :=
  n ← lookup_arg id;
  me ← gets myself;
  match n with
  | None => mret (RErr (UnknownNode id))
  | Some n =>
    if n =? me then mret (RErr ForgetMyself) else
    x ← self;
    if nodeIsSlave x && bool_decide (slaveof x = Some n) then mret (RErr ForgetMyMaster) else
    _ ← clusterBlacklistAddNode E n;
    _ ← clusterDelNode E n;
    _ ← clusterDoBeforeSleep (Z.lor CLUSTER_TODO_UPDATE_STATE CLUSTER_TODO_SAVE_CONFIG);
    mret ROk
  end.

Definition replicate (id : list Z) : C reply :=
  n ← lookup_arg id;
  me ← gets myself;
  match n with
  | None => mret (RErr (UnknownNode id))
  | Some n =>
    if n =? me then mret (RErr ReplicateMyself) else
    y ← deref n;
    if nodeIsSlave y then mret (RErr ReplicateSlave) else
    x ← self;
    if nodeIsMaster x && (negb (numslots x =? 0) || negb (db_size =? 0)) then mret (RErr MasterNotEmpty) else
    _ ← clusterSetMaster E n;
    _ ← clusterDoBeforeSleep (Z.lor CLUSTER_TODO_UPDATE_STATE CLUSTER_TODO_SAVE_CONFIG);
    mret ROk
  end.

Definition do_failover (force takeover : bool) : C reply :=
  x ← self;
  if nodeIsMaster x then mret (RErr FailoverMaster) else
  match slaveof x with
  | None => mret (RErr MasterUnknown)
  | Some m =>
    y ← deref m;
    if negb force && (nodeFailed y || negb (link y)) then mret (RErr MasterDown) else
    _ ← resetManualFailover E;
    _ ← modify (fun st => set_mf st (mk_manual (mstime E + CLUSTER_MF_TIMEOUT) (mf_slave (mf st)) (mf_master_offset (mf st)) (mf_can_start (mf st))));
    _ ← (if takeover then _ ← clusterBumpConfigEpochWithoutConsensus; clusterFailoverReplaceYourMaster E
         else if force then modify (fun st => set_mf st (mk_manual (mf_end (mf st)) (mf_slave (mf st)) (mf_master_offset (mf st)) true))
         else clusterSendMFStart E m);
    mret ROk
  end.

Definition set_config_epoch (a : list Z) : C reply :=
  match string2ll a with
  | None => mret (RErr NotAnInteger)
  | Some epoch =>
    if epoch <? 0 then mret (RErr (InvalidEpoch epoch)) else
    many ← gets (fun st => 1 <? Z.of_nat (base.size (nodes st)));
    if many : bool then mret (RErr KnowsOtherNodes) else
    me ← gets myself;
    x ← self;
    if negb (configEpoch x =? 0) then mret (RErr EpochAlreadySet) else
    _ ← update me (fun x => with_configEpoch x epoch);
    _ ← modify (fun st => if currentEpoch st <? epoch then set_currentEpoch st epoch else st);
    _ ← clusterDoBeforeSleep (Z.lor CLUSTER_TODO_UPDATE_STATE CLUSTER_TODO_SAVE_CONFIG);
    mret ROk
  end.

Definition count_reports (id : list Z) : C reply :=
  n ← lookup_arg id;
  match n with None => mret (RErr (UnknownNode id)) | Some n => c ← clusterNodeFailureReportsCount E n; mret (RInt c) end.

Definition count_keys (a : list Z) : C reply :=
  match string2ll a with
  | None => mret (RErr NotAnInteger)
  | Some slot => if (slot <? 0) || (CLUSTER_SLOTS E <=? slot) then mret (RErr InvalidSlot) else mret (RInt (countKeysInSlot E slot))
  end.

(** [CLUSTER MEET <ip> <port> [cport]]; the ports are cut to an [int]. *)
Definition meet_command (argv : args) : C reply :=
  a ← lift (arg argv 3);
  match string2ll a with
  | None => mret (RErr (InvalidBasePort a))
  | Some p =>
    given ← (if zlen argv =? 5 then b ← lift (arg argv 4); mret (match string2ll b with Some c => inl c | None => inr b end) else mret (inl (i64 (p + CLUSTER_PORT_INCR))));
    match given with
    | inr b => mret (RErr (InvalidBusPort b))
    | inl c =>
      host ← lift (arg argv 2);
      r ← clusterStartHandshake E 0 (mk_addr (Sds.Sds.cstring host) (i32 p) (i32 c));
      mret (match r with EINVAL => RErr (InvalidAddress host a) | _ => ROk end)
    end
  end.

Definition list_slaves (id : list Z) : C reply :=
  n ← lookup_arg id;
  match n with None => mret (RErr (UnknownNode id)) | Some n => x ← deref n; mret (if nodeIsSlave x then RErr NotAMaster else RTable) end.

Definition get_keys (a b : list Z) : C reply :=
  match string2ll a, string2ll b with
  | Some slot, Some maxkeys => mret (if (slot <? 0) || (CLUSTER_SLOTS E <=? slot) || (maxkeys <? 0) then RErr InvalidSlotOrCount else RTable)
  | _, _ => mret (RErr NotAnInteger)
  end.

(** The command; [fresh] is the name a hard reset draws. *)
Definition clusterCommand (cluster_enabled : bool) (fresh : name) (argv : args) : C reply :=
  if negb cluster_enabled then mret (RErr Disabled) else
  let argc := zlen argv in
  sub ← lift (arg argv 1);
  let sub_is s := bool_decide (map tolower (Sds.Sds.cstring sub) = s) in
  let arg i := lift (arg argv i) in
  let arg_is i s := lift (arg_is argv i s) in
  if sub_is (str "meet") && ((argc =? 4) || (argc =? 5)) then meet_command argv
  else if sub_is (str "nodes") && (argc =? 2) then mret RTable
  else if sub_is (str "myid") && (argc =? 2) then me ← gets myself; mret (RId me)
  else if sub_is (str "slots") && (argc =? 2) then mret RTable
  else if sub_is (str "flushslots") && (argc =? 2) then flushslots
  else if (sub_is (str "addslots") || sub_is (str "delslots")) && (3 <=? argc) then edit_slots (sub_is (str "delslots")) (drop 2 argv)
  else if sub_is (str "setslot") && (4 <=? argc) then setslot argv
  else if sub_is (str "bumpepoch") && (argc =? 2) then bumpepoch
  else if sub_is (str "info") && (argc =? 2) then mret RTable
  else if sub_is (str "saveconfig") && (argc =? 2) then _ ← clusterSaveConfigOrDie true; mret RSaved
  else if sub_is (str "keyslot") && (argc =? 3) then k ← arg 2; s ← lift (Crc.keyHashSlot k); mret (RInt s)
  else if sub_is (str "countkeysinslot") && (argc =? 3) then a ← arg 2; count_keys a
  else if sub_is (str "getkeysinslot") && (argc =? 4) then a ← arg 2; b ← arg 3; get_keys a b
  else if sub_is (str "forget") && (argc =? 3) then id ← arg 2; forget id
  else if sub_is (str "replicate") && (argc =? 3) then id ← arg 2; replicate id
  else if sub_is (str "slaves") && (argc =? 3) then id ← arg 2; list_slaves id
  else if sub_is (str "count-failure-reports") && (argc =? 3) then id ← arg 2; count_reports id
  else if sub_is (str "failover") && ((argc =? 2) || (argc =? 3)) then
    if argc =? 2 then do_failover false false else
    force ← arg_is 2 (str "force");
    takeover ← arg_is 2 (str "takeover");
    if force : bool then do_failover true false else if takeover : bool then do_failover true true else mret (RErr SyntaxError)
  else if sub_is (str "set-config-epoch") && (argc =? 3) then a ← arg 2; set_config_epoch a
  else if sub_is (str "reset") && ((argc =? 2) || (argc =? 3)) then
    hard ← (if argc =? 2 then mret (Some false) else h ← arg_is 2 (str "hard"); s ← arg_is 2 (str "soft"); mret (if h : bool then Some true else if s : bool then Some false else None));
    match hard with
    | None => mret (RErr SyntaxError)
    | Some hard =>
      x ← self;
      if nodeIsMaster x && negb (db_size =? 0) then mret (RErr MasterNotEmpty) else
      _ ← clusterReset hard fresh;
      mret ROk
    end
  else mret (RErr WrongSubcommand).
End Commands.
End ClusterCmd.
