(* ===== verification/ClusterCmdOps.v ===== *)
(** * The CLUSTER command: theorems

    Removing a node keeps the invariant [wf] of [ClusterOps], and with it every subcommand
    of [ClusterCmd] does; the exceptions, slots given to a slave, are shown by an example
    that ends in a failed assertion. *)
From stdpp Require Import gmap.
From S2P Require Import Prelude Util Crc Rdb StateM Cluster ClusterOps ClusterCalm ClusterJoin ClusterSafe Query QueryOps ClusterCmd.

Module ClusterCmdOps.
Import Cluster ClusterOps ClusterCalm ClusterJoin ClusterSafe Query ClusterCmd.

(** ** Slots *)

Lemma wp_wlp {A} (m : C A) (P Q : A -> clusterState -> Prop) st : wp m P st -> wlp m Q st -> wp m (fun a st' => P a st' /\ Q a st') st.
Proof. unfold wp, wlp. by destruct (m st) as [[st' a]|f]. Qed.
Lemma del_slot_true j st : owner (tables st) !! j <> None -> wlp (clusterDelSlot j) (fun b _ => b = true) st.
Proof.
  intros H. unfold clusterDelSlot, slot_owner. apply wlp_bind, wlp_gets. destruct (owner (tables st) !! j); [|done]. eapply wlp_step with (P := fun _ _ => True); [unfold wlp; by destruct (clusterNodeClearSlotBit _ _ _) as [[]|]|]. intros b st1 _. apply wlp_bind, wlp_lift. intros [] _. apply wlp_bind, wlp_modify. by apply wlp_ret.
Qed.
Lemma add_slot_true n j st : owner (tables st) !! j = None -> wlp (clusterAddSlot n j) (fun b _ => b = true) st.
Proof.
  intros H. unfold clusterAddSlot, slot_owner. apply wlp_bind, wlp_gets. rewrite H. eapply wlp_step with (P := fun _ _ => True); [unfold wlp; by destruct (clusterNodeSetSlotBit _ _ _) as [[]|]|]. intros b st1 _. apply wlp_bind, wlp_modify. by apply wlp_ret.
Qed.

Lemma del_all_loop_ok N js : forall st, wf N st -> wp (del_all_loop js) (fun _ st' => wf N st' /\ same_roles st st' /\ forall k, owner (tables st') !! k = if decide (k ∈ js) then None else owner (tables st) !! k) st.
Proof.
  induction js as [|j js IH]; intros st Hw; cbn [del_all_loop]; [apply wp_ret; split_and!; [done|done|]; intros k; by rewrite decide_False by apply not_elem_of_nil|]. eapply wp_step; [by apply del_slot_any|]. cbn beta. intros _ st1 (Hw1 & Hf1 & Ho1). eapply wp_mono; [by apply IH|]. cbn beta. intros _ st2 (Hw2 & Hr2 & Ho2).
  split_and!; [done|etransitivity; [by apply sframe_roles|done]|]. intros k. rewrite Ho2, Ho1. destruct (decide (k ∈ js)) as [H|H]; [by rewrite decide_True by (by right)|]. destruct (decide (k = j)) as [->|Hk]; [rewrite lookup_delete_eq, decide_True by left; done|]. rewrite lookup_delete_ne, decide_False by (rewrite ?elem_of_cons; naive_solver). done.
Qed.

Definition master_self (st : clusterState) : Prop := exists r, roles st !! myself st = Some r /\ r_master r = true.

Lemma forget_loop_ok E l : forall st, wf (CLUSTER_SLOTS E) st -> master_self st -> NoDup (fst <$> l) -> (forall n, n ∈ fst <$> l -> known st n) -> (forall k, owner (tables st) !! k = None) ->
  wp (forget_loop E (myself st) l) (fun _ st' => wf (CLUSTER_SLOTS E) st' /\ myself st' = myself st /\ master_self st' /\ (forall k, owner (tables st') !! k = None) /\ forall k, known st' k -> known st k /\ (k = myself st \/ k ∉ fst <$> l)) st.
Proof.
  induction l as [|[n x] l IH]; intros st Hw Hm Hd Hl Ho; cbn [forget_loop]; [apply wp_ret; split_and!; [done..|]; intros k Hk; split; [done|]; right; apply not_elem_of_nil|]. cbn [fmap list_fmap fst] in *. apply list.NoDup_cons in Hd as [Hn Hd].
  destruct (Z.eqb_spec n (myself st)) as [->|Hne].
  - apply wp_bind, wp_ret. eapply wp_mono; [apply IH; [done|done|done|intros k Hk; apply Hl; by right|done]|]. cbn beta. intros _ st2 (Hw2 & Hm2 & Hms & Ho2 & Hk2). split_and!; [done..|]. intros k Hk. destruct (Hk2 k Hk) as [? [?|?]]; (split; [done|]); [by left|]. destruct (decide (k = myself st)); [by left|]. right. rewrite elem_of_cons. tauto.
  - destruct Hm as (r & Hr & Hrm). eapply wp_step; [apply (del_node_ok E st n Hw); [apply Hl; left|done|]|]. { intros r' Hr'. rewrite Hr in Hr'. injection Hr' as <-. rewrite (proj2 (ro_master _ _ (wf_roles _ _ Hw) _ _ Hr ltac:(destruct (r_hand r) eqn:Eh; [by rewrite (ro_hand _ _ (wf_roles _ _ Hw) _ _ Hr Eh) in Hrm|done])) Hrm). done. }
    cbn beta. intros _ st1 (Hw1 & Hm1 & Hr1 & Ho1). assert (forall k, known st1 k <-> known st k /\ k <> n) as Hk1. { intros k. rewrite <- !roles_dom, Hr1. destruct (decide (k = n)) as [->|]; [split; [by intros [? ?]|tauto]|]. rewrite fmap_is_Some. tauto. }
    rewrite <- Hm1. eapply wp_mono; [apply IH; [done| |done| |intros k; rewrite Ho1, Ho; by case_bool_decide]|].
    + exists (without n r). rewrite Hm1, Hr1, decide_False, Hr by congruence. done.
    + intros k Hk. apply Hk1. split; [apply Hl; by right|]. intros ->. done.
    + cbn beta. intros _ st2 (Hw2 & Hm2 & Hms & Ho2 & Hk2). split_and!; [done|congruence|done|done|]. intros k Hk. destruct (Hk2 k Hk) as [[H1 H2]%Hk1 H3]. split; [done|]. destruct H3 as [H3|H3]; [left; congruence|]. right. rewrite elem_of_cons. tauto.
Qed.

(** A node that is alone, a master without slots, may change its name. *)
Lemma rename_ok N st fresh : wf N st -> master_self st -> (forall k, owner (tables st) !! k = None) -> (forall k, known st k -> k = myself st) -> wf N (rename_myself fresh st).
Proof.
  intros Hw (r & (x & Hx & <-)%roles_known & Hm) Ho Hk. unfold rename_myself. rewrite Hx. assert (<[fresh := x]> (base.delete (myself st) (nodes st)) = {[fresh := x]}) as Hn.
  { apply map_eq. intros k. rewrite lookup_insert, lookup_singleton. destruct (decide (fresh = k)); [done|]. apply lookup_delete_None. destruct (decide (myself st = k)); [by left|]. right. apply eq_None_not_Some. intros [y Hy]. by apply node_known, Hk in Hy. }
  pose proof (self_joined N st x Hw Hx) as Hh. destruct (node_role N st _ x Hw Hx Hh) as [H1 H2]. cbn in Hm. specialize (H2 Hm). assert (slaves x = []) as Hs. { destruct (slaves x) as [|s l] eqn:Es; [done|]. assert (s ∈ slaves x) as Hin by (rewrite Es; left). apply (ro_slaves _ _ (wf_roles _ _ Hw) _ _ s (roles_lookup _ _ _ Hx)) in Hin as (z & Hz & Hzm). assert (s = myself st) as -> by (apply Hk, roles_dom; eauto). rewrite (roles_lookup _ _ _ Hx) in Hz. injection Hz as <-. cbn in Hzm. congruence. }
  assert ((share <$> nodes st) !! myself st = Some (share x)) as Hsh by (by rewrite lookup_fmap, Hx). destruct (wf_slots _ _ Hw) as [S1 S2 S3 S4]. constructor; cbn; rewrite Hn.
  - rewrite map_fmap_singleton. constructor.
    + intros n r m [<- <-]%lookup_singleton_Some. cbn. congruence.
    + intros m r s [<- <-]%lookup_singleton_Some. cbn. rewrite Hs. split; [by intros ?%elem_of_nil|]. intros (z & [<- <-]%lookup_singleton_Some & Hz). cbn in Hz. congruence.
    + intros m r [<- <-]%lookup_singleton_Some. cbn. rewrite Hs. constructor.
    + intros n r [<- <-]%lookup_singleton_Some. cbn. congruence.
    + intros n r [<- <-]%lookup_singleton_Some. done.
    + exists (role_of x). rewrite lookup_singleton_eq. split_and!; [done|done|]. cbn. congruence.
  - rewrite map_fmap_singleton. constructor.
    + intros n s [<- <-]%lookup_singleton_Some. by eapply S1.
    + intros n s j [<- <-]%lookup_singleton_Some Hj. rewrite (S2 _ _ j Hsh Hj). by rewrite !Ho.
    + intros n s [<- <-]%lookup_singleton_Some. by eapply S3.
    + intros j n. by rewrite Ho.
  - intros n y [<- <-]%lookup_singleton_Some. by apply (wf_idle _ _ Hw _ _ Hx).
Qed.

Lemma reset_ok E hard fresh st : wf (CLUSTER_SLOTS E) st -> wp (clusterReset E hard fresh) (fun _ st' => wf (CLUSTER_SLOTS E) st') st.
Proof.
  intros Hw. destruct (self_node _ st Hw) as [x Hx]. unfold clusterReset. apply wp_bind, wp_gets. apply wp_bind, (wp_self x); [done|]. apply wp_step with (fun _ st1 => wf (CLUSTER_SLOTS E) st1 /\ myself st1 = myself st /\ master_self st1).
  { pose proof (self_joined _ st x Hw Hx) as Hh. destruct (node_role _ st _ x Hw Hx Hh) as [Hr _]. destruct (nodeIsSlave x).
    - eapply wp_step; [by eapply as_master_ok|]. cbn beta. intros _ st1 (Hw1 & Hf1 & _ & y & Hy & Hym & _). apply wp_bind, wp_modify, wp_modify. split_and!; [by apply (wf_view _ st1)|apply (rf_me _ _ Hf1)|]. exists (role_of y). cbn. rewrite (rf_me _ _ Hf1). split; [by apply roles_lookup|done].
    - apply wp_ret. split_and!; [done|done|]. exists (role_of x). split; [by apply roles_lookup|]. cbn. by destruct (nodeIsMaster x). }
  intros _ st1 (Hw1 & Hm1 & Hms). apply wp_bind, wp_modify. set (st2 := set_tables st1 _). apply (calm_then st1); [by apply calm_reset_mf|done|]. intros _ st3 Hv3. eapply wp_step; [apply (del_all_loop_ok (CLUSTER_SLOTS E)); by apply (wf_view _ st1)|]. cbn beta. intros _ st4 (Hw4 & [Hm4 Hr4] & Ho4). injection Hv3 as Hm3 Hr3 _ Ho3.
  assert (forall k, owner (tables st4) !! k = None) as Ho. { intros k. rewrite Ho4, Ho3. destruct (decide (k ∈ all_slots E)) as [|Hk]; [done|]. apply eq_None_not_Some. intros [n Hn]. apply Hk, in_all_slots. by apply (so_owner _ _ _ (wf_slots _ _ Hw1) _ _ Hn). }
  assert (myself st4 = myself st) as Hm by congruence. apply wp_bind, wp_gets. rewrite <- Hm. eapply wp_step; [apply (forget_loop_ok E); [done| |apply NoDup_fst_map_to_list| |done]|].
  { unfold master_self. rewrite Hm4, Hr4, Hm3, Hr3. done. }
  { intros n ([n' y] & -> & Hin%elem_of_map_to_list)%list_elem_of_fmap. by eapply node_known. }
  cbn beta. intros _ st5 (Hw5 & Hm5 & Hms5 & Ho5 & Hk5). rewrite <- Hm5 in Hk5. assert (forall k, known st5 k -> k = myself st5) as Hone. { intros k Hk. destruct (Hk5 k Hk) as [[y Hy]%known_node [->|Hn]]; [done|]. exfalso. apply Hn, list_elem_of_fmap. exists (k, y). split; [done|by apply elem_of_map_to_list]. }
  apply wp_step with (fun _ st6 => wf (CLUSTER_SLOTS E) st6); [|intros _ st6 Hw6; apply wp_modify; by apply (wf_view _ st6)]. destruct hard; [|by apply wp_ret]. rewrite <- Hm5. apply wp_bind, wp_modify. set (st6 := set_lastVoteEpoch _ _). destruct (self_node _ st5 Hw5) as [y Hy]. apply wp_bind, (wp_update _ _ y); [done|]. apply wp_modify. set (st7 := set_nodes _ _).
  assert (view st7 = view st5) as Hv7. { unfold view. cbn. by rewrite (fmap_reinsert role_of _ _ y), (fmap_reinsert share _ _ y). } assert (roles st7 = roles st5) as Hr7 by (exact (f_equal (fun v => v.1.1.2) Hv7)). assert (myself st7 = myself st5) as Hm7 by done. apply rename_ok.
  - by eapply wf_view.
  - unfold master_self. by rewrite Hm7, Hr7.
  - exact Ho5.
  - intros k Hk. rewrite Hm7. apply Hone. eapply keeps_known; [by apply (view_keeps st7); symmetry|done].
Qed.

(** ** ADDSLOTS and DELSLOTS *)

(** A marked slot is one the command may change. *)
Definition fits (del : bool) (st : clusterState) (j : Z) : Prop := if del then owner (tables st) !! j <> None else owner (tables st) !! j = None.
Definition marks_ok (del : bool) (st : clusterState) (slots : list Z) : Prop := forall j x, 0 <= j -> slots !! Z.to_nat j = Some x -> x <> 0 -> fits del st j.

Lemma slot_arg_range E a slot : getSlotOrReply E a = Some slot -> 0 <= slot < CLUSTER_SLOTS E.
Proof. unfold getSlotOrReply. destruct (string2ll a) as [v|]; [|done]. destruct (Z.ltb_spec v 0), (Z.leb_spec (CLUSTER_SLOTS E) v); cbn; try done. intros [= <-]. lia. Qed.

Lemma check_slots_ok E del l : forall slots st, zlen slots = CLUSTER_SLOTS E -> marks_ok del st slots ->
  wp (check_slots E del l slots) (fun r st' => st' = st /\ match r with inr s => zlen s = CLUSTER_SLOTS E /\ marks_ok del st s | inl _ => True end) st.
Proof.
  induction l as [|a l IH]; intros slots st Hl Hm; cbn [check_slots]; [by apply wp_ret|]. destruct (getSlotOrReply E a) as [slot|] eqn:Ea; [|by apply wp_ret]. apply slot_arg_range in Ea. apply wp_bind, wp_gets. destruct (del && bool_decide (owner (tables st) !! slot = None)) eqn:Ed; [by apply wp_ret|]. destruct (negb del && bool_decide (owner (tables st) !! slot <> None)) eqn:Ed'; [by apply wp_ret|].
  assert (fits del st slot) as Hf. { unfold fits. destruct del; cbn in Ed, Ed'; [by apply bool_decide_eq_false in Ed|]. apply bool_decide_eq_false in Ed'. destruct (owner (tables st) !! slot); [by destruct Ed'|done]. }
  destruct (lookup_lt_is_Some_2 slots (Z.to_nat slot)) as [v Hv]; [unfold zlen in Hl; lia|]. apply wp_bind. eapply wp_lift; [apply (peek_at _ _ v); [lia|done]|]. apply wp_bind. eapply wp_lift; [apply poke_insert; lia|]. destruct (v =? 1); [by apply wp_ret|]. apply IH; [by rewrite zlen_insert|].
  intros j x Hj Hx Hne. destruct (decide (j = slot)) as [->|Hjs]; [done|]. rewrite list_lookup_insert_ne in Hx by lia. by eapply Hm.
Qed.

Lemma mark_loop_ok E del slots js : forall st, wf (CLUSTER_SLOTS E) st -> (del = true \/ master_self st) -> zlen slots = CLUSTER_SLOTS E -> NoDup js -> (forall j, j ∈ js -> 0 <= j < CLUSTER_SLOTS E) -> (forall j x, j ∈ js -> slots !! Z.to_nat j = Some x -> x <> 0 -> fits del st j) ->
  wp (mark_loop del slots js) (fun _ st' => wf (CLUSTER_SLOTS E) st' /\ same_roles st st') st.
Proof.
  induction js as [|j js IH]; intros st Hw Hms Hl Hd Hr Hm; cbn [mark_loop]; [by apply wp_ret|]. apply list.NoDup_cons in Hd as [Hj Hd]. assert (0 <= j < CLUSTER_SLOTS E) as Hjr by (apply Hr; left). destruct (lookup_lt_is_Some_2 slots (Z.to_nat j)) as [v Hv]; [unfold zlen in Hl; lia|]. apply wp_bind. eapply wp_lift; [apply (peek_at _ _ v); [lia|done]|].
  assert (forall st1, wf (CLUSTER_SLOTS E) st1 -> same_roles st st1 -> (forall k, k <> j -> owner (tables st1) !! k = owner (tables st) !! k) -> wp (mark_loop del slots js) (fun _ st' => wf (CLUSTER_SLOTS E) st' /\ same_roles st st') st1) as Hnext.
  { intros st1 Hw1 Hr1 Ho1. eapply wp_mono; [apply IH; [done| |done|done|intros k Hk; apply Hr; by right|]|].
    - destruct Hms as [?|Hms]; [by left|]. right. destruct Hr1 as [H1 H2]. unfold master_self. by rewrite H1, H2.
    - intros k x Hk Hx Hne. specialize (Hm k x ltac:(by right) Hx Hne). unfold fits in *. by rewrite Ho1 by (by intros ->).
    - cbn beta. intros _ st2 [Hw2 Hr2]. split; [done|by etransitivity]. }
  destruct (Z.eqb_spec v 0) as [|Hv0]; [apply wp_bind, wp_ret; by apply Hnext|]. specialize (Hm j v ltac:(left) Hv Hv0). apply wp_bind, wp_bind, wp_modify. set (st1 := set_tables st _). assert (wf (CLUSTER_SLOTS E) st1) as Hw1 by (by apply (wf_view _ st)). apply wp_bind, wp_gets. apply wp_step with (fun b st2 => b = true /\ wf (CLUSTER_SLOTS E) st2 /\ sframe st1 st2 /\ forall k, k <> j -> owner (tables st2) !! k = owner (tables st) !! k).
  - destruct del.
    + destruct (owner (tables st) !! j) as [n|] eqn:Hu; [|by unfold fits in Hm]. eapply wp_mono; [apply wp_wlp; [by apply (del_slot_any (CLUSTER_SLOTS E) st1 j)|apply del_slot_true; cbn; by rewrite Hu]|]. cbn beta. intros b st2 ((Hw2 & Hf2 & Ho2) & ->). split_and!; [done..|]. intros k Hk. rewrite Ho2. by rewrite lookup_delete_ne by congruence.
    + destruct Hms as [|(r & (x & Hx & <-)%roles_known & Hrm)]; [done|]. cbn in Hrm. eapply wp_mono; [apply wp_wlp; [apply (add_slot_ok (CLUSTER_SLOTS E) st1 (myself st) x j); [done|done|done|done|done]|by apply add_slot_true]|].
      cbn beta. intros b st2 ((Hw2 & Hf2 & Ho2) & ->). split_and!; [done..|]. intros k Hk. rewrite Ho2. by rewrite lookup_insert_ne by congruence.
  - intros b st2 (-> & Hw2 & Hf2 & Ho2). apply (wp_lift _ tt); [done|]. apply Hnext; [done| |done]. by apply (sframe_roles st1).
Qed.

Lemma edit_slots_ok E del l st : wf (CLUSTER_SLOTS E) st -> 0 <= CLUSTER_SLOTS E -> (del = true \/ master_self st) -> wp (edit_slots E del l) (fun _ st' => wf (CLUSTER_SLOTS E) st') st.
Proof.
  intros Hw HN Hms. unfold edit_slots. eapply wp_step; [apply check_slots_ok|].
  - unfold zlen. rewrite repeat_length. lia.
  - intros j x _ Hx Hne. apply list_elem_of_lookup_2, list_elem_of_In, repeat_spec in Hx. done.
  - cbn beta. intros r ? [-> Hr]. destruct r as [e|slots]; [by apply wp_ret|]. destruct Hr as [Hl Hm]. eapply wp_step; [apply (mark_loop_ok E); [done|done|done|apply nodup_up_to|apply all_slots_range|]|].
    + intros j x Hj Hx Hne. apply all_slots_range in Hj. by apply (Hm j x); [lia|..].
    + cbn beta. intros _ st1 [Hw1 _]. apply wp_bind, wp_modify, wp_ret. by apply (wf_view _ st1).
Qed.

(** ** The other subcommands *)

Lemma lookup_arg_ok id (Q : option name -> clusterState -> Prop) st : CLUSTER_NAMELEN <= zlen id -> (forall n, node_name id = Ok n -> (known st n -> Q (Some n) st) /\ Q None st) -> wp (lookup_arg id) Q st.
Proof.
  intros Hl HQ. unfold lookup_arg. assert (exists n, node_name id = Ok n) as [n Hn]. { unfold node_name, rd. rewrite (proj2 (Z.leb_le (0 + CLUSTER_NAMELEN) (zlen id))) by lia. cbn. eauto. }
  destruct (HQ n Hn) as [H1 H2]. apply wp_bind, (wp_lift _ n); [done|]. apply wp_gets. destruct (nodes st !! n) as [x|] eqn:Hx; [|done]. by eapply H1, node_known.
Qed.

Lemma setslot_done_ok N st : wf N st -> wp setslot_done (fun _ st' => wf N st') st.
Proof. intros Hw. apply wp_bind, wp_modify, wp_ret. by apply (wf_view N st). Qed.

Lemma setslot_node_ok E slot id st : wf (CLUSTER_SLOTS E) st -> 0 <= slot < CLUSTER_SLOTS E -> CLUSTER_NAMELEN <= zlen id -> (forall n x, node_name id = Ok n -> nodes st !! n = Some x -> nodeIsMaster x = true) -> wp (setslot_node E slot id) (fun _ st' => wf (CLUSTER_SLOTS E) st') st.
Proof.
  intros Hw Hs Hl Hn. unfold setslot_node. apply wp_bind, wp_gets. eapply wp_step with (P := fun o st' => st' = st /\ forall n, o = Some n -> node_name id = Ok n /\ known st n); [apply lookup_arg_ok; [done|]; intros n Hnn; split; [intros Hk; split; [done|]; by intros ? [= <-]|done]|].
  intros [n|] ? [-> Ho]; [|by apply wp_ret]. destruct (Ho n eq_refl) as [Hnn [x Hx]%known_node]. specialize (Hn n x Hnn Hx). apply wp_bind, wp_gets. destruct (_ && _ && _); [by apply wp_ret|]. apply wp_step with (fun _ st1 => view st1 = view st); [destruct (_ =? 0); [by apply wp_modify|by apply wp_ret]|]. intros _ st1 Hv1. apply wp_bind, wp_gets.
  apply (calm_then st); [destruct (_ && _); [apply calm_bind; [by apply (calm_bump _ st Hw)|intros b; by apply calm_modify]|apply calm_ret]|done|]. intros _ st2 Hv2. destruct (view_safe _ st st2 Hw Hv2) as [Hw2 _]. eapply wp_step; [by apply del_slot_any|]. cbn beta. intros _ st3 (Hw3 & Hf3 & Ho3).
  destruct (same_roles_node st st3 n x) as (y & Hy & Hr); [etransitivity; [by apply view_roles|by apply sframe_roles]|done|]. eapply wp_step; [apply (add_slot_ok (CLUSTER_SLOTS E) st3 n y slot); [done|done|unfold role_of in Hr; congruence|done|by rewrite Ho3, lookup_delete_eq]|]. cbn beta. intros _ st4 (Hw4 & _). by apply setslot_done_ok.
Qed.

Lemma setslot_ok E argv st : wf (CLUSTER_SLOTS E) st -> 4 <= zlen argv -> (forall id, arg argv 4 = Ok id -> CLUSTER_NAMELEN <= zlen id) -> (forall id n x, arg_is argv 3 (str "node") = Ok true -> arg argv 4 = Ok id -> node_name id = Ok n -> nodes st !! n = Some x -> nodeIsMaster x = true) ->
  wp (setslot E argv) (fun _ st' => wf (CLUSTER_SLOTS E) st') st.
Proof.
  intros Hw Ha Hid Hnode. destruct (self_node _ st Hw) as [x Hx]. unfold setslot. apply wp_bind, (wp_self x); [done|]. destruct (nodeIsSlave x); [by apply wp_ret|]. destruct (QueryOps.QueryOps.arg_ok argv 2) as [a Ea]; [lia|]. apply wp_bind, (wp_lift _ a); [done|]. destruct (getSlotOrReply E a) as [slot|] eqn:Es; [|by apply wp_ret]. apply slot_arg_range in Es. cbv zeta.
  destruct (QueryOps.QueryOps.arg_ok argv 3) as [w Ew]; [lia|]. apply wp_bind, (wp_lift _ w); [done|]. destruct (QueryOps.QueryOps.arg_is_ok argv 3 (str "migrating")) as [b1 E1]; [lia|]. apply wp_bind, (wp_lift _ b1); [done|]. destruct (QueryOps.QueryOps.arg_is_ok argv 3 (str "importing")) as [b2 E2]; [lia|]. apply wp_bind, (wp_lift _ b2); [done|].
  destruct (QueryOps.QueryOps.arg_is_ok argv 3 (str "stable")) as [b3 E3]; [lia|]. apply wp_bind, (wp_lift _ b3); [done|]. destruct (QueryOps.QueryOps.arg_is_ok argv 3 (str "node")) as [b4 E4]; [lia|]. apply wp_bind, (wp_lift _ b4); [done|].
  assert (zlen argv = 5 -> exists id, arg argv 4 = Ok id) as H4 by (intros H; apply QueryOps.QueryOps.arg_ok; lia). destruct (Z.eqb_spec (zlen argv) 5) as [H5|H5].
  - destruct (H4 H5) as [id Eid]. pose proof (Hid id Eid) as Hl. destruct b1; cbn [andb].
    { apply wp_bind, (wp_lift _ id); [done|]. unfold setslot_migrating. apply wp_bind, wp_gets. apply wp_bind, wp_gets. destruct (bool_decide _); [by apply wp_ret|]. apply wp_bind, lookup_arg_ok; [done|]. intros n _. split; [intros _|by apply wp_ret]. apply wp_bind, wp_modify, setslot_done_ok. by apply (wf_view _ st). }
    destruct b2; cbn [andb].
    { apply wp_bind, (wp_lift _ id); [done|]. unfold setslot_importing. apply wp_bind, wp_gets. apply wp_bind, wp_gets. destruct (bool_decide _); [by apply wp_ret|]. apply wp_bind, lookup_arg_ok; [done|]. intros n _. split; [intros _|by apply wp_ret]. apply wp_bind, wp_modify, setslot_done_ok. by apply (wf_view _ st). }
    destruct b3; cbn [andb]; [rewrite (proj2 (Z.eqb_neq (zlen argv) 4)) by lia|]; (destruct b4; cbn [andb]; [|by apply wp_ret]); apply wp_bind, (wp_lift _ id); try done; apply setslot_node_ok; eauto.
  - rewrite !andb_false_r. destruct (b3 && _); [|by apply wp_ret]. apply wp_bind, wp_modify, wp_bind, wp_modify, setslot_done_ok. by apply (wf_view _ st).
Qed.

Lemma forget_ok E id st : wf (CLUSTER_SLOTS E) st -> CLUSTER_NAMELEN <= zlen id -> wp (forget E id) (fun _ st' => wf (CLUSTER_SLOTS E) st') st.
Proof.
  intros Hw Hl. destruct (self_node _ st Hw) as [x Hx]. unfold forget. apply wp_bind, lookup_arg_ok; [done|]. intros n _. split; [intros Hk|apply wp_bind, wp_gets; by apply wp_ret]. apply wp_bind, wp_gets. destruct (Z.eqb_spec n (myself st)) as [|Hne]; [by apply wp_ret|]. apply wp_bind, (wp_self x); [done|]. destruct (nodeIsSlave x && _) eqn:Em; [by apply wp_ret|].
  apply (calm_then st); [apply calm_blacklist_add|done|]. intros _ st0 Hv0. destruct (view_safe _ st st0 Hw Hv0) as [Hw0 Hk0]. pose proof Hv0 as [= Hm0 Hr0 _ _].
  eapply wp_step; [apply (del_node_ok E st0 n); [done|by eapply keeps_known|by rewrite Hm0|]|cbn beta; intros _ st1 (Hw1 & _); apply wp_bind, wp_modify, wp_ret; by apply (wf_view _ st1)]. intros r Hr. rewrite Hm0, Hr0, (roles_lookup _ _ _ Hx) in Hr. injection Hr as <-. cbn. intros Hs. destruct (node_role _ st _ x Hw Hx (self_joined _ st x Hw Hx)) as [H1 H2]. rewrite (bool_decide_true _ Hs), andb_true_r in Em. rewrite Em in H1. destruct (nodeIsMaster x); [|done]. rewrite (H2 eq_refl) in Hs. done.
Qed.

Lemma replicate_ok E size id st : wf (CLUSTER_SLOTS E) st -> CLUSTER_NAMELEN <= zlen id -> (forall n x, node_name id = Ok n -> nodes st !! n = Some x -> nodeInHandshake x = false) -> wp (replicate E size id) (fun _ st' => wf (CLUSTER_SLOTS E) st') st.
Proof.
  intros Hw Hl Hh. destruct (self_node _ st Hw) as [x Hx]. unfold replicate. apply wp_bind, lookup_arg_ok; [done|]. intros n Hnn. split; [intros Hk|apply wp_bind, wp_gets; by apply wp_ret]. apply wp_bind, wp_gets. destruct (Z.eqb_spec n (myself st)) as [|Hne]; [by apply wp_ret|]. destruct (known_node st n Hk) as [y Hy]. apply wp_bind, (wp_deref _ y); [done|]. destruct (nodeIsSlave y); [by apply wp_ret|].
  apply wp_bind, (wp_self x); [done|]. destruct (nodeIsMaster x && _) eqn:Em; [by apply wp_ret|]. eapply wp_step; [apply (set_master_ok (CLUSTER_SLOTS E) E st n x); [done|done|by apply (node_joined _ _ y); [|eapply Hh]|done|]|cbn beta; intros _ st1 (Hw1 & _); apply wp_bind, wp_modify, wp_ret; by apply (wf_view _ st1)].
  destruct (nodeIsMaster x) eqn:Exm; cbn [andb] in Em; [|by apply (wf_idle _ _ Hw _ _ Hx)]. apply orb_false_iff in Em as [Em _]. by apply negb_false_iff, Z.eqb_eq in Em.
Qed.

Lemma calm_send_mfstart E N st0 n : wf N st0 -> known st0 n -> calm st0 (clusterSendMFStart E n).
Proof. intros Hw Hn. unfold clusterSendMFStart. apply calm_deref; [done|]. intros x _. destruct (negb _); [apply calm_ret|]. apply calm_bind; [by eapply calm_build_hdr|]. intros m. by apply calm_modify. Qed.

Lemma failover_cmd_ok E force takeover st : wf (CLUSTER_SLOTS E) st -> wp (do_failover E force takeover) (fun _ st' => wf (CLUSTER_SLOTS E) st') st.
Proof.
  intros Hw. destruct (self_node _ st Hw) as [x Hx]. unfold do_failover. apply wp_bind, (wp_self x); [done|]. destruct (nodeIsMaster x); [by apply wp_ret|]. destruct (slaveof x) as [m|] eqn:Em; [|by apply wp_ret]. assert (known st m) as Hk by (apply roles_dom; by eapply slaveof_known). destruct (known_node st m Hk) as [y Hy]. apply wp_bind, (wp_deref _ y); [done|]. destruct (_ && _); [by apply wp_ret|].
  apply (calm_then st); [apply calm_reset_mf|done|]. intros _ st1 Hv1. apply wp_bind, wp_modify. set (st2 := set_mf st1 _). apply wp_step with (fun _ st3 => wf (CLUSTER_SLOTS E) st3); [|intros _ st3 Hw3; by apply wp_ret]. destruct takeover; [|destruct force; [apply wp_modify; by apply (wf_view _ st)|]].
  - apply (calm_then st); [by apply (calm_bump _ st Hw)|done|]. intros _ st3 Hv3. eapply wp_mono; [apply replace_master_ok; by apply (wf_view _ st)|]. cbn beta. by intros _ st4 [[? _] _].
  - eapply wp_mono; [apply (calm_send_mfstart E _ st m Hw Hk); done|]. cbn beta. intros _ st3 Hv3. by apply (wf_view _ st).
Qed.

Lemma set_epoch_ok N a st : wf N st -> wp (set_config_epoch a) (fun _ st' => wf N st') st.
Proof.
  intros Hw. destruct (self_node _ st Hw) as [x Hx]. unfold set_config_epoch. destruct (string2ll a) as [e|]; [|by apply wp_ret]. destruct (_ <? 0); [by apply wp_ret|]. apply wp_bind, wp_gets. destruct (1 <? _); [by apply wp_ret|]. apply wp_bind, wp_gets. apply wp_bind, (wp_self x); [done|]. destruct (negb _); [by apply wp_ret|].
  apply (calm_then st); [apply calm_update; [by eapply node_known|done]|done|]. intros _ st1 Hv1. apply wp_bind, wp_modify, wp_bind, wp_modify, wp_ret. apply (wf_view _ st); [|done]. rewrite <- Hv1. by destruct (_ <? _).
Qed.

(** ** The command *)

Definition word (a : list Z) : list Z := map tolower (Sds.Sds.cstring a).
(** Requests with the number of arguments the command table asks for, with node IDs of full
    length, that give slots only to masters and do not ask to replicate a node in
    handshake. *)
Record proper (st : clusterState) (argv : args) : Prop := {
  pr_argc : 2 <= zlen argv;
  pr_add : forall a, arg argv 1 = Ok a -> word a = str "addslots" -> master_self st;
  pr_id : forall a id, arg argv 1 = Ok a -> word a ∈ [str "forget"; str "replicate"; str "slaves"; str "count-failure-reports"] -> arg argv 2 = Ok id -> CLUSTER_NAMELEN <= zlen id;
  pr_slot : forall a id, arg argv 1 = Ok a -> word a = str "setslot" -> arg argv 4 = Ok id -> CLUSTER_NAMELEN <= zlen id;
  pr_node : forall a id n x, arg argv 1 = Ok a -> word a = str "setslot" -> arg_is argv 3 (str "node") = Ok true -> arg argv 4 = Ok id -> node_name id = Ok n -> nodes st !! n = Some x -> nodeIsMaster x = true;
  pr_replicate : forall a id n x, arg argv 1 = Ok a -> word a = str "replicate" -> arg argv 2 = Ok id -> node_name id = Ok n -> nodes st !! n = Some x -> nodeInHandshake x = false;
  pr_key : forall a k, arg argv 1 = Ok a -> word a = str "keyslot" -> arg argv 2 = Ok k -> Forall (in_u 8) k }.

Lemma is_word (a s : list Z) : bool_decide (map tolower (Sds.Sds.cstring a) = s) = true -> word a = s.
Proof. apply bool_decide_eq_true. Qed.

Lemma wp_arg argv i {A} (k : list Z -> C A) Q st : 0 <= i < zlen argv -> (forall a, arg argv i = Ok a -> wp (k a) Q st) -> wp (lift (arg argv i) ≫= k) Q st.
Proof. intros Hi Hk. destruct (QueryOps.QueryOps.arg_ok argv i Hi) as [a Ha]. apply wp_bind, (wp_lift _ a); [done|]. by apply Hk. Qed.
Lemma wp_arg_is argv i s {A} (k : bool -> C A) Q st : 0 <= i < zlen argv -> (forall b, wp (k b) Q st) -> wp (lift (arg_is argv i s) ≫= k) Q st.
Proof. intros Hi Hk. destruct (QueryOps.QueryOps.arg_is_ok argv i s Hi) as [b Hb]. apply wp_bind, (wp_lift _ b); [done|]. apply Hk. Qed.

Lemma meet_command_ok E argv st : wf (CLUSTER_SLOTS E) st -> zlen argv = 4 \/ zlen argv = 5 -> wp (meet_command E argv) (fun _ st' => wf (CLUSTER_SLOTS E) st') st.
Proof.
  intros Hw Hn. unfold meet_command. apply wp_arg; [lia|]. intros a _. destruct (string2ll a) as [p|]; [|by apply wp_ret]. apply wp_step with (fun _ st1 => st1 = st).
  { destruct (Z.eqb_spec (zlen argv) 5); [|by apply wp_ret]. apply wp_arg; [lia|]. intros b _. by apply wp_ret. }
  intros [c|b] ? ->; [|by apply wp_ret]. apply wp_arg; [lia|]. intros host _. eapply wp_step; [by apply start_handshake_ok|]. cbn beta. intros r st1 [Hw1 _]. by apply wp_ret.
Qed.

Ltac next_branch H := match goal with |- wp (if ?b then _ else _) _ _ => destruct b eqn:H end.
Lemma cluster_command_ok E size fresh argv st : wf (CLUSTER_SLOTS E) st -> 0 <= CLUSTER_SLOTS E -> proper st argv -> wp (clusterCommand E size true fresh argv) (fun _ st' => wf (CLUSTER_SLOTS E) st') st.
Proof.
  intros Hw HN [P1 P2 P3 P4 P5 P7 P6]. unfold clusterCommand. cbn [negb]. cbv zeta. apply wp_arg; [lia|]. intros a Ha.
  next_branch M0.
  { apply andb_true_iff in M0 as [_ H]. apply meet_command_ok; [done|]. apply orb_true_iff in H as [H%Z.eqb_eq|H%Z.eqb_eq]; auto. }
  next_branch M1; [by apply wp_ret|]. next_branch M2; [by apply wp_bind, wp_gets, wp_ret|]. next_branch M3; [by apply wp_ret|].
  next_branch E0.
  { unfold flushslots. destruct (negb _); [by apply wp_ret|]. apply wp_bind, wp_gets. destruct (self_node _ st Hw) as [x Hx]. eapply wp_step; [by apply del_node_slots_ok|]. cbn beta. intros _ st1 (Hw1 & _). apply wp_bind, wp_modify, wp_ret. by apply (wf_view _ st1). }
  next_branch E1.
  { apply edit_slots_ok; [done|done|]. destruct (bool_decide (_ = str "delslots")) eqn:Ed; [by left|]. rewrite orb_false_r in E1. apply andb_true_iff in E1 as [E1 _]. right. eapply P2; [done|by apply is_word]. }
  next_branch E2.
  { apply andb_true_iff in E2 as [E2%is_word H4%Z.leb_le]. apply setslot_ok; [done|done|intros; by eapply P4|]. intros id n x Hw4 Hid Hn Hx. by eapply P5. }
  next_branch E0b.
  { unfold bumpepoch. apply (calm_then st); [by apply (calm_bump _ st Hw)|done|]. intros b st1 Hv1. destruct (view_safe _ st st1 Hw Hv1) as [Hw1 _]. destruct (self_node _ st1 Hw1) as [x Hx]. apply wp_bind, (wp_self x); [done|]. by apply wp_ret. }
  next_branch M4; [by apply wp_ret|]. next_branch M5; [apply wp_bind, wp_modify, wp_ret; by apply (wf_view _ st)|].
  next_branch E3.
  { apply andb_true_iff in E3 as [E3%is_word H3%Z.eqb_eq]. apply wp_arg; [lia|]. intros k Hk. apply wp_bind. eapply wp_lift; [apply QueryOps.QueryOps.slot_of_ok; by eapply P6|]. by apply wp_ret. }
  next_branch E4.
  { apply andb_true_iff in E4 as [_ H3%Z.eqb_eq]. apply wp_arg; [lia|]. intros k Hk. unfold count_keys. destruct (string2ll k); [|by apply wp_ret]. next_branch E4b; by apply wp_ret. }
  next_branch M6.
  { apply andb_true_iff in M6 as [_ H3%Z.eqb_eq]. apply wp_arg; [lia|]. intros s _. apply wp_arg; [lia|]. intros k _. unfold get_keys. destruct (string2ll s), (string2ll k); by apply wp_ret. }
  next_branch E5.
  { apply andb_true_iff in E5 as [E5%is_word H3%Z.eqb_eq]. apply wp_arg; [lia|]. intros id Hid. apply forget_ok; [done|]. eapply P3; [done|rewrite E5; left|done]. }
  next_branch E6.
  { apply andb_true_iff in E6 as [E6%is_word H3%Z.eqb_eq]. apply wp_arg; [lia|]. intros id Hid. apply replicate_ok; [done|eapply P3; [done|rewrite E6; right; left|done]|]. intros n x Hn Hx. by eapply P7. }
  next_branch M7.
  { apply andb_true_iff in M7 as [M7%is_word H3%Z.eqb_eq]. apply wp_arg; [lia|]. intros id Hid. unfold list_slaves. apply wp_bind, lookup_arg_ok; [eapply P3; [done|rewrite M7; right; right; left|done]|]. intros n _. split; [intros [x Hx]%elem_of_dom|by apply wp_ret]. apply wp_bind, (wp_deref _ x); [done|]. by apply wp_ret. }
  next_branch E7.
  { apply andb_true_iff in E7 as [E7%is_word H3%Z.eqb_eq]. apply wp_arg; [lia|]. intros id Hid. unfold count_reports. apply wp_bind, lookup_arg_ok; [eapply P3; [done|rewrite E7; right; right; right; left|done]|]. intros n _. split; [intros Hk|by apply wp_ret]. apply (calm_then st); [by apply calm_count_reports|done|]. intros c st1 Hv1. apply wp_ret. by eapply wf_view. }
  next_branch E8.
  { apply andb_true_iff in E8 as [_ H]. destruct (Z.eqb_spec (zlen argv) 2); [by apply failover_cmd_ok|]. cbn [orb] in H. apply Z.eqb_eq in H. apply wp_arg_is; [lia|]. intros force. apply wp_arg_is; [lia|]. intros takeover. destruct force; [by apply failover_cmd_ok|]. destruct takeover; [by apply failover_cmd_ok|by apply wp_ret]. }
  next_branch E9.
  { apply andb_true_iff in E9 as [_ H3%Z.eqb_eq]. apply wp_arg; [lia|]. intros e _. by apply set_epoch_ok. }
  next_branch E10; [|by apply wp_ret]. apply andb_true_iff in E10 as [_ H]. apply wp_step with (fun _ st1 => st1 = st).
  { destruct (Z.eqb_spec (zlen argv) 2); [by apply wp_ret|]. cbn [orb] in H. apply Z.eqb_eq in H. apply wp_arg_is; [lia|]. intros h. apply wp_arg_is; [lia|]. intros s. by apply wp_ret. }
  intros [hard|] ? ->; [|by apply wp_ret]. destruct (self_node _ st Hw) as [x Hx]. apply wp_bind, (wp_self x); [done|]. next_branch E11; [by apply wp_ret|]. eapply wp_step; [by apply reset_ok|]. cbn beta. intros _ st1 Hw1. by apply wp_ret.
Qed.

(** C12: Every subcommand of CLUSTER (nodes met and forgotten, slots added, deleted, flushed,
    opened, closed or handed over, replication, manual failover, epochs, reset, and those
    that only read) returns without dangling pointer or failed assertion and keeps the tables
    of the node well formed, when node IDs have their full length, slots are given to masters
    only and the node to replicate is not in handshake. The formatting of tables for the
    reply is not part of the model. *)
Theorem cluster_command_keeps_tables (E : env) (db_size : Z) (fresh : name) (argv : args) (st : clusterState)
  (Hw : wf (CLUSTER_SLOTS E) st) (HN : 0 <= CLUSTER_SLOTS E) (Hp : proper st argv) :
  exists st' r, clusterCommand E db_size true fresh argv st = Ok (st', r) /\ wf (CLUSTER_SLOTS E) st'.
Proof. destruct (wp_run _ _ _ (cluster_command_ok E db_size fresh argv st Hw HN Hp)) as (st' & r & H1 & H2). eauto. Qed.

Definition node_id (n : Z) : list Z := repeat 0 39 ++ [n].
(** CLUSTER FORGET of node 1 at the slave of the small cluster. *)
Lemma cluster_command_keeps_tables_witness : exists st' r, clusterCommand tiny_env 0 true 9 [str "cluster"; str "forget"; node_id 1] tiny_state = Ok (st', r) /\ wf 8 st'.
Proof.
  apply (cluster_command_keeps_tables tiny_env 0 9 [str "cluster"; str "forget"; node_id 1] tiny_state tiny_wf); [discriminate|]. constructor; [discriminate|..].
  - intros a [= <-]. discriminate.
  - intros a id [= <-] _ [= <-]. discriminate.
  - intros a id [= <-]. discriminate.
  - intros a id n x [= <-]. discriminate.
  - intros a id n x [= <-]. discriminate.
  - intros a k [= <-]. discriminate.
Defined.

(** C39: CLUSTER ADDSLOTS does not check that it runs on a master: a slave that was given a
    slot fails an assertion, and the server stops, when it is told to replicate another
    master. A node ID that is too short is read past its end. *)
Theorem cluster_command_faults :
  (forall r, (_ ← clusterCommand tiny_env 0 true 9 [str "cluster"; str "delslots"; str "7"]; _ ← clusterCommand tiny_env 0 true 9 [str "cluster"; str "addslots"; str "7"]; mret tt) tiny_state = Ok (r, tt) ->
     owner (tables r) !! 7 = Some 3 /\ clusterCommand tiny_env 0 true 9 [str "cluster"; str "replicate"; node_id 1] r = Fault AssertFailed) /\
  (exists r, (_ ← clusterCommand tiny_env 0 true 9 [str "cluster"; str "delslots"; str "7"]; _ ← clusterCommand tiny_env 0 true 9 [str "cluster"; str "addslots"; str "7"]; mret tt) tiny_state = Ok (r, tt)) /\
  clusterCommand tiny_env 0 true 9 [str "cluster"; str "replicate"; str "1"] tiny_state = Fault OutOfBounds.
Proof.
  set (m := (_ ← clusterCommand tiny_env 0 true 9 [str "cluster"; str "delslots"; str "7"]; _)). split_and!.
  - intros r Hr. assert (match m tiny_state with Ok (r, _) => (owner (tables r) !! 7, match clusterCommand tiny_env 0 true 9 [str "cluster"; str "replicate"; node_id 1] r with Fault AssertFailed => true | _ => false end) | Fault _ => (None, false) end = (Some 3, true)) as H by (vm_compute; reflexivity). rewrite Hr in H. injection H as H1 H2. split; [done|]. destruct (clusterCommand _ _ _ _ _ r) as [|[]]; done.
  - destruct (m tiny_state) as [[r []]|f] eqn:Em; [eauto|]. exfalso. revert Em. vm_compute. discriminate.
  - vm_compute. reflexivity.
Qed.

(** CLUSTER REPLICATE takes a node in handshake. When the handshake ends because the node was
    known already, its entry is deleted and this node is a slave without a master; the next
    claim of a slot without owner follows the null pointer. *)
Example replicate_handshake_crashes :
  (_ ← clusterCommand tiny_env 0 true 9 [str "cluster"; str "delslots"; str "7"];
   _ ← clusterProcessPacket (tiny_env_at 100) None (from_nine (MEET []));
   r ← clusterCommand tiny_env 0 true 9 [str "cluster"; str "replicate"; node_id 100];
   _ ← clusterProcessPacket tiny_env (Some 100) (mk_msg (PONG []) 1 1 6 1 0 [15] 0 0 null_addr);
   x ← self;
   mret (r, nodeIsSlave x, slaveof x)) tiny_state ≫= (fun p => Ok p.2) = Ok (ROk, true, None) /\
  (_ ← clusterCommand tiny_env 0 true 9 [str "cluster"; str "delslots"; str "7"];
   _ ← clusterProcessPacket (tiny_env_at 100) None (from_nine (MEET []));
   _ ← clusterCommand tiny_env 0 true 9 [str "cluster"; str "replicate"; node_id 100];
   _ ← clusterProcessPacket tiny_env (Some 100) (mk_msg (PONG []) 1 1 6 1 0 [15] 0 0 null_addr);
   clusterProcessPacket tiny_env (Some 2) (mk_msg (PONG []) 2 1 6 2 0 [240] 0 0 null_addr)) tiny_state = Fault OutOfBounds.
Proof. split; vm_compute; reflexivity. Qed.
End ClusterCmdOps.
