(* ===== verification/Reply.v ===== *)
(** * Reply buffers and the end of connections: src/redis-stable/src/networking.c

    What a command replies goes to the static buffer of its client or, once that is full,
    to a list of strings; lengths that are not known yet are NULL nodes of the list.
    Clients with output wait in [clients_pending_write] and are written to before the
    event loop sleeps; what the socket does not take is sent by a write handler. The state
    is the memory of client structures, the lists of the server that refer to them, the
    registered write handlers, and the sockets, which are a parameter ([Sockets]). Reading
    a client that is not in memory is a fault, so code that returns does not use a freed
    client. Calls to other parts of the server are recorded in [calls]. [ReplyOps] and
    [ReplyApi] verify this code. *)
From stdpp Require Import gmap.
From S2P Require Import Prelude StateM Util Sds SdsText Object Db Networking.

Module Reply.
Import Object.
Import Networking (CLIENT_SLAVE, CLIENT_MASTER, CLIENT_MULTI, CLIENT_BLOCKED, CLIENT_CLOSE_AFTER_REPLY, CLIENT_CLOSE_ASAP,
  CLIENT_ASKING, CLIENT_REPLY_SKIP_NEXT, CLIENT_REPLY_SKIP).
Import Db (crlf, shared_hdr, radix_len, one_line, OBJ_SHARED_BULKHDR_LEN, reply_czero, reply_cone, reply_nullbulk).

Definition PROTO_REPLY_CHUNK_BYTES : Z := 16 * 1024.
Definition NET_MAX_WRITES_PER_EVENT : Z := 1024 * 64.
Definition SIZE_MAX : Z := 2 ^ 64 - 1.

Definition CLIENT_MONITOR : Z := 2 ^ 2.
Definition CLIENT_DIRTY_CAS : Z := 2 ^ 5.
Definition CLIENT_UNBLOCKED : Z := 2 ^ 7.
Definition CLIENT_LUA : Z := 2 ^ 8.
Definition CLIENT_DIRTY_EXEC : Z := 2 ^ 12.
Definition CLIENT_MASTER_FORCE_REPLY : Z := 2 ^ 13.
Definition CLIENT_PUBSUB : Z := 2 ^ 18.
Definition CLIENT_PENDING_WRITE : Z := 2 ^ 21.
Definition CLIENT_REPLY_OFF : Z := 2 ^ 22.
Definition CLIENT_MODULE : Z := 2 ^ 27.

Definition REPL_STATE_NONE : Z := 0.
Definition SLAVE_STATE_SEND_BULK : Z := 8.
Definition SLAVE_STATE_ONLINE : Z := 9.

(** ** State *)

(** A node of the reply list: its address, and its string or NULL. *)
Definition node : Type := nat * option (list Z).

(** The fields of [client] that output and closing use; [asking] says that [cmd] is the
    ASKING command. *)
Record client := mk_client {
  fd : Z; flags : Z; replstate : Z; repl_put_online_on_ack : bool; repldbfd : Z; asking : bool; reploff : Z; lastinteraction : Z;
  obuf_soft_limit_reached_time : Z; bufpos : Z; buf : list Z; reply : list node; reply_bytes : Z; sentlen : Z }.

Definition with_conn (c : client) (f fl : Z) : client :=
  mk_client f fl (replstate c) (repl_put_online_on_ack c) (repldbfd c) (asking c) (reploff c) (lastinteraction c)
    (obuf_soft_limit_reached_time c) (bufpos c) (buf c) (reply c) (reply_bytes c) (sentlen c).
Definition with_times (c : client) (last soft : Z) : client :=
  mk_client (fd c) (flags c) (replstate c) (repl_put_online_on_ack c) (repldbfd c) (asking c) (reploff c) last
    soft (bufpos c) (buf c) (reply c) (reply_bytes c) (sentlen c).
Definition with_buf (c : client) (pos : Z) (b : list Z) : client :=
  mk_client (fd c) (flags c) (replstate c) (repl_put_online_on_ack c) (repldbfd c) (asking c) (reploff c) (lastinteraction c)
    (obuf_soft_limit_reached_time c) pos b (reply c) (reply_bytes c) (sentlen c).
Definition with_reply (c : client) (l : list node) (n : Z) : client :=
  mk_client (fd c) (flags c) (replstate c) (repl_put_online_on_ack c) (repldbfd c) (asking c) (reploff c) (lastinteraction c)
    (obuf_soft_limit_reached_time c) (bufpos c) (buf c) l n (sentlen c).
Definition with_sent (c : client) (n : Z) : client :=
  mk_client (fd c) (flags c) (replstate c) (repl_put_online_on_ack c) (repldbfd c) (asking c) (reploff c) (lastinteraction c)
    (obuf_soft_limit_reached_time c) (bufpos c) (buf c) (reply c) (reply_bytes c) n.

(** [c->flags & f], [c->flags |= f], [c->flags &= ~f] *)
Definition has (c : client) (f : Z) : bool := negb (Z.land (flags c) f =? 0).
Definition set_flag (c : client) (f : Z) : client := with_conn c (fd c) (Z.lor (flags c) f).
Definition clear_flag (c : client) (f : Z) : client := with_conn c (fd c) (Z.land (flags c) (Z.lnot f)).

(** The lists of clients: [server.clients], [server.clients_pending_write],
    [server.clients_to_close], [server.unblocked_clients], [server.slaves] and
    [server.monitors]. *)
Inductive queue := Clients | PendingWrite | ToClose | Unblocked | Slaves | Monitors.
#[global] Instance queue_eq_dec : EqDecision queue.
Proof. solve_decision. Defined.

(** Calls to parts that are not modelled here, of the client with this address. *)
Inductive call :=
| UnblockWaiting (k : nat) | UnwatchAllKeys (k : nat) | UnsubscribeAll (k : nat) | ResetMulti (k : nat)
| RefreshGoodSlavesCount.

(** What [write] returns: a count, or -1 with [errno] EAGAIN or another error. *)
Inductive wres := Written (n : Z) | Again | WriteError.

(** The operating system: [write], [close], whether [aeCreateFileEvent] succeeds, and
    [zmalloc_used_memory]. *)
Class Sockets (W : Type) := {
  sys_write : W -> Z -> list Z -> W * wres;
  sys_close : W -> Z -> W;
  ae_create_ok : W -> Z -> bool;
  used_memory : W -> Z }.

(** [qs] are the lists, [ae_read] and [ae_write] the descriptors with a handler,
    [next] the address of the next list node; [repl_state_connect] says that [repl_state]
    is REPL_STATE_CONNECT, and not REPL_STATE_CONNECTED. *)
Record server (W : Type) := mk_server {
  mem : gmap nat client; qs : queue -> list nat; ae_read : gset Z; ae_write : gset Z;
  master : option nat; cached_master : option nat; current_client : option nat; repl_state_connect : bool;
  repl_down_since : Z; repl_no_slaves_since : Z; stat_net_output_bytes : Z; unixtime : Z;
  next : nat; world : W; calls : list call }.
Arguments mk_server {W}.
Arguments mem {W}.
Arguments qs {W}.
Arguments ae_read {W}.
Arguments ae_write {W}.
Arguments master {W}.
Arguments cached_master {W}.
Arguments current_client {W}.
Arguments repl_state_connect {W}.
Arguments repl_down_since {W}.
Arguments repl_no_slaves_since {W}.
Arguments stat_net_output_bytes {W}.
Arguments unixtime {W}.
Arguments next {W}.
Arguments world {W}.
Arguments calls {W}.

(** [clientBufferLimitsConfig] *)
Record limit := mk_limit { hard_limit_bytes : Z; soft_limit_bytes : Z; soft_limit_seconds : Z }.

Definition queue_set (f : queue -> list nat) (q : queue) (l : list nat) : queue -> list nat :=
  fun r => if decide (r = q) then l else f r.

(** [listSearchKey] and [listDelNode]: the first node with this value. *)
Fixpoint del_first (k : nat) (l : list nat) : option (list nat) :=
  match l with
  | [] => None
  | x :: l => if decide (x = k) then Some l else l' ← del_first k l; Some (x :: l')
  end.

Section Output.
Context {W : Type} `{!Sockets W}.
(** Fresh stack memory, [server.client_obuf_limits] and [server.maxmemory]. *)
Context (junk : Z -> Z) (limits : Z -> limit) (maxmemory : Z).
Abbreviation M := (ST (server W)).

Definition set_mem (st : server W) (m : gmap nat client) : server W :=
  mk_server m (qs st) (ae_read st) (ae_write st) (master st) (cached_master st) (current_client st) (repl_state_connect st)
    (repl_down_since st) (repl_no_slaves_since st) (stat_net_output_bytes st) (unixtime st) (next st) (world st) (calls st).
Definition set_qs (st : server W) (q : queue -> list nat) : server W :=
  mk_server (mem st) q (ae_read st) (ae_write st) (master st) (cached_master st) (current_client st) (repl_state_connect st)
    (repl_down_since st) (repl_no_slaves_since st) (stat_net_output_bytes st) (unixtime st) (next st) (world st) (calls st).
Definition set_ae (st : server W) (r w : gset Z) : server W :=
  mk_server (mem st) (qs st) r w (master st) (cached_master st) (current_client st) (repl_state_connect st)
    (repl_down_since st) (repl_no_slaves_since st) (stat_net_output_bytes st) (unixtime st) (next st) (world st) (calls st).
Definition set_masters (st : server W) (m cm : option nat) (connect : bool) (down : Z) : server W :=
  mk_server (mem st) (qs st) (ae_read st) (ae_write st) m cm (current_client st) connect
    down (repl_no_slaves_since st) (stat_net_output_bytes st) (unixtime st) (next st) (world st) (calls st).
Definition set_current (st : server W) (c : option nat) : server W :=
  mk_server (mem st) (qs st) (ae_read st) (ae_write st) (master st) (cached_master st) c (repl_state_connect st)
    (repl_down_since st) (repl_no_slaves_since st) (stat_net_output_bytes st) (unixtime st) (next st) (world st) (calls st).
Definition set_no_slaves (st : server W) (t : Z) : server W :=
  mk_server (mem st) (qs st) (ae_read st) (ae_write st) (master st) (cached_master st) (current_client st) (repl_state_connect st)
    (repl_down_since st) t (stat_net_output_bytes st) (unixtime st) (next st) (world st) (calls st).
Definition set_world (st : server W) (w : W) (sent : Z) : server W :=
  mk_server (mem st) (qs st) (ae_read st) (ae_write st) (master st) (cached_master st) (current_client st) (repl_state_connect st)
    (repl_down_since st) (repl_no_slaves_since st) (stat_net_output_bytes st + sent) (unixtime st) (next st) w (calls st).
Definition set_next (st : server W) (n : nat) : server W :=
  mk_server (mem st) (qs st) (ae_read st) (ae_write st) (master st) (cached_master st) (current_client st) (repl_state_connect st)
    (repl_down_since st) (repl_no_slaves_since st) (stat_net_output_bytes st) (unixtime st) n (world st) (calls st).
Definition add_call (st : server W) (e : call) : server W :=
  mk_server (mem st) (qs st) (ae_read st) (ae_write st) (master st) (cached_master st) (current_client st) (repl_state_connect st)
    (repl_down_since st) (repl_no_slaves_since st) (stat_net_output_bytes st) (unixtime st) (next st) (world st) (calls st ++ [e]).

(** [*c], and a write to it *)
Definition get (k : nat) : M client := fun st => match mem st !! k with Some c => Ok (st, c) | None => Fault OutOfBounds end.
Definition put (k : nat) (c : client) : M unit := fun st =>
  match mem st !! k with Some _ => Ok (set_mem st (<[k := c]> (mem st)), tt) | None => Fault OutOfBounds end.

Definition listAddNodeHead (q : queue) (k : nat) : M unit := modify (fun st => set_qs st (queue_set (qs st) q (k :: qs st q))).
Definition listAddNodeTail (q : queue) (k : nat) : M unit := modify (fun st => set_qs st (queue_set (qs st) q (qs st q ++ [k]))).
(** [ln = listSearchKey(q, c); serverAssert(ln != NULL); listDelNode(q, ln)] *)
Definition list_remove (q : queue) (k : nat) : M unit := fun st =>
  match del_first k (qs st q) with Some l => Ok (set_qs st (queue_set (qs st) q l), tt) | None => Fault AssertFailed end.
Definition record_call (e : call) : M unit := modify (fun st => add_call st e).
Definition fresh_node : M nat := fun st => Ok (set_next st (S (next st)), next st).

(** ** Closing a client later, and the limits of the output buffer *)

Definition clientHasPendingReplies (c : client) : bool := negb (bufpos c =? 0) || (0 <? zlen (reply c)).

(** [true] is [C_OK]. *)
Definition prepareClientToWrite (k : nat) : M bool :=
  c ← get k;
  if has c (Z.lor CLIENT_LUA CLIENT_MODULE) then mret true else
  if has c (Z.lor CLIENT_REPLY_OFF CLIENT_REPLY_SKIP) then mret false else
  if has c CLIENT_MASTER && negb (has c CLIENT_MASTER_FORCE_REPLY) then mret false else
  if fd c <=? 0 then mret false else
  _ ← (if negb (clientHasPendingReplies c) && negb (has c CLIENT_PENDING_WRITE) &&
          ((replstate c =? REPL_STATE_NONE) || ((replstate c =? SLAVE_STATE_ONLINE) && negb (repl_put_online_on_ack c)))
       then _ ← put k (set_flag c CLIENT_PENDING_WRITE); listAddNodeHead PendingWrite k
       else mret tt);
  mret true.

Definition freeClientAsync (k : nat) : M unit :=
  c ← get k;
  if has c CLIENT_CLOSE_ASAP || has c CLIENT_LUA then mret tt else
  _ ← put k (set_flag c CLIENT_CLOSE_ASAP);
  listAddNodeTail ToClose k.

Definition getClientOutputBufferMemoryUsage (c : client) : Z :=
  let list_item_size := 24 + 5 in u64 (reply_bytes c + list_item_size * zlen (reply c)).

Definition CLIENT_TYPE_NORMAL : Z := 0.
Definition CLIENT_TYPE_SLAVE : Z := 1.
Definition CLIENT_TYPE_PUBSUB : Z := 2.
Definition CLIENT_TYPE_MASTER : Z := 3.

Definition getClientType (c : client) : Z :=
  if has c CLIENT_MASTER then CLIENT_TYPE_MASTER else
  if has c CLIENT_SLAVE && negb (has c CLIENT_MONITOR) then CLIENT_TYPE_SLAVE else
  if has c CLIENT_PUBSUB then CLIENT_TYPE_PUBSUB else CLIENT_TYPE_NORMAL.

Definition checkClientOutputBufferLimits (k : nat) : M bool :=
  c ← get k;
  now ← gets unixtime;
  let used_mem := getClientOutputBufferMemoryUsage c in
  let class := getClientType c in
  let class := if class =? CLIENT_TYPE_MASTER then CLIENT_TYPE_NORMAL else class in
  let l := limits class in
  let hard := negb (hard_limit_bytes l =? 0) && (hard_limit_bytes l <=? used_mem) in
  let soft := negb (soft_limit_bytes l =? 0) && (soft_limit_bytes l <=? used_mem) in
  soft ← (if soft : bool then
      if obuf_soft_limit_reached_time c =? 0 then _ ← put k (with_times c (lastinteraction c) now); mret false
      else mret (negb (now - obuf_soft_limit_reached_time c <=? soft_limit_seconds l))
    else _ ← put k (with_times c (lastinteraction c) 0); mret false);
  mret (soft || hard).

Definition asyncCloseClientOnOutputBufferLimitReached (k : nat) : M unit :=
  c ← get k;
  _ ← lift (assert_ (reply_bytes c <? SIZE_MAX - 1024 * 64));
  if (reply_bytes c =? 0) || has c CLIENT_CLOSE_ASAP then mret tt else
  reached ← checkClientOutputBufferLimits k;
  if reached : bool then freeClientAsync k else mret tt.

(** ** Queuing output *)

(** [true] is [C_OK]. *)
Definition _addReplyToBuffer (k : nat) (s : list Z) : M bool :=
  c ← get k;
  let available := u64 (PROTO_REPLY_CHUNK_BYTES - bufpos c) in
  if has c CLIENT_CLOSE_AFTER_REPLY then mret true else
  if 0 <? zlen (reply c) then mret false else
  if available <? zlen s then mret false else
  b ← lift (wr (buf c) (bufpos c) s);
  _ ← put k (with_buf c (i32 (bufpos c + zlen s)) b);
  mret true.

(** [listNodeValue(listLast(l)) = v] *)
Definition set_last (l : list node) (v : list Z) : list node :=
  match list.last l with Some (i, _) => removelast l ++ [(i, Some v)] | None => l end.

(** The three functions that add a string to the list differ in who owns its memory. *)
Definition add_to_list (k : nat) (s : list Z) : M unit :=
  c ← get k;
  if has c CLIENT_CLOSE_AFTER_REPLY then mret tt else
  let bytes := u64 (reply_bytes c + zlen s) in
  let add_node := i ← fresh_node; put k (with_reply c (reply c ++ [(i, Some s)]) bytes) in
  _ ← match list.last (reply c) with
      | Some (_, Some tail) =>
        if zlen tail + zlen s <=? PROTO_REPLY_CHUNK_BYTES then put k (with_reply c (set_last (reply c) (tail ++ s)) bytes)
        else add_node
      | _ => add_node
      end;
  asyncCloseClientOnOutputBufferLimitReached k.

Definition _addReplyObjectToList (k : nat) (o : robj) : M unit :=
  s ← lift (as_sds o); x ← lift (rd (Sds.buf s) 0 (Sds.sdslen s)); add_to_list k x.
Definition _addReplySdsToList (k : nat) (s : list Z) : M unit := add_to_list k s.
Definition _addReplyStringToList (k : nat) (s : list Z) : M unit := add_to_list k s.

(** The text of an sds object, to the buffer or to the list. *)
Definition add_sds_object (k : nat) (o : robj) : M unit :=
  s ← lift (as_sds o);
  x ← lift (rd (Sds.buf s) 0 (Sds.sdslen s));
  ok ← _addReplyToBuffer k x;
  if ok : bool then mret tt else _addReplyObjectToList k o.

Definition addReply (k : nat) (obj : robj) : M unit :=
  ok ← prepareClientToWrite k;
  if negb ok then mret tt else
  if sdsEncodedObject obj then add_sds_object k obj
  else if bool_decide (encoding obj = OBJ_ENCODING_INT) then
    c ← get k;
    sent ← (if (zlen (reply c) =? 0) && (32 <=? u64 (PROTO_REPLY_CHUNK_BYTES - bufpos c)) then
        v ← lift (as_long obj);
        '(b, len) ← lift (ll2string (stack_buf junk 32) 32 v);
        x ← lift (rd b 0 len);
        _addReplyToBuffer k x
      else mret false);
    if sent : bool then mret tt else
    d ← lift (getDecodedObject junk obj);
    add_sds_object k (default obj d)
  else lift (Fault AssertFailed).

Definition addReplySds (k : nat) (s : list Z) : M unit :=
  ok ← prepareClientToWrite k;
  if negb ok then mret tt else
  ok ← _addReplyToBuffer k s;
  if ok : bool then mret tt else _addReplySdsToList k s.

Definition addReplyString (k : nat) (s : list Z) : M unit :=
  ok ← prepareClientToWrite k;
  if negb ok then mret tt else
  ok ← _addReplyToBuffer k s;
  if ok : bool then mret tt else _addReplyStringToList k s.
(** ** Replies *)

(** A shared object with a short text, as [createSharedObjects] makes them. *)
Definition shared_object (s : list Z) : robj := createObject OBJ_STRING (PSds (Sds.mk_sds (8 * zlen s) 0 0 (s ++ [0]))).

Definition addReplyErrorLength (k : nat) (s : list Z) : M unit :=
  _ ← addReplyString k (str "-ERR "); _ ← addReplyString k s; addReplyString k crlf.
Definition addReplyError (k : nat) (err : list Z) : M unit := addReplyErrorLength k err.
(** [s] is the formatted message. *)
Definition addReplyErrorFormat (k : nat) (s : list Z) : M unit := addReplyErrorLength k (one_line s).

Definition addReplyStatusLength (k : nat) (s : list Z) : M unit :=
  _ ← addReplyString k (str "+"); _ ← addReplyString k s; addReplyString k crlf.
Definition addReplyStatus (k : nat) (status : list Z) : M unit := addReplyStatusLength k status.

(** The placeholder for a length, [None] when the client takes no output. *)
Definition addDeferredMultiBulkLength (k : nat) : M (option nat) :=
  ok ← prepareClientToWrite k;
  if negb ok then mret None else
  c ← get k;
  i ← fresh_node;
  _ ← put k (with_reply c (reply c ++ [(i, None)]) (reply_bytes c));
  mret (Some i).

(** Give node [i] the string [len] and glue it to the next string; [None] when [i] is
    not a node of the list. *)
Fixpoint fill_node (i : nat) (len : list Z) (l : list node) : option (list node) :=
  match l with
  | [] => None
  | (j, v) :: l =>
    if decide (j = i) then
      match l with
      | (_, Some next) :: l => Some ((j, Some (len ++ next)) :: l)
      | _ => Some ((j, Some len) :: l)
      end
    else l' ← fill_node i len l; Some ((j, v) :: l')
  end.

Definition setDeferredMultiBulkLength (k : nat) (node : option nat) (length : Z) : M unit :=
  match node with
  | None => mret tt
  | Some i =>
    let len := chr "*" :: dec length ++ crlf in
    c ← get k;
    match fill_node i len (reply c) with
    | None => lift (Fault OutOfBounds)
    | Some l =>
      _ ← put k (with_reply c l (u64 (reply_bytes c + zlen len)));
      asyncCloseClientOnOutputBufferLimitReached k
    end
  end.

Definition addReplyLongLongWithPrefix (k : nat) (ll prefix : Z) : M unit :=
  if ((prefix =? chr "*") || (prefix =? chr "$")) && (ll <? OBJ_SHARED_BULKHDR_LEN) && (0 <=? ll)
  then addReply k (shared_object (shared_hdr prefix ll)) else
  '(b, len) ← lift (ll2string (stack_buf junk 127) 127 ll);
  x ← lift (rd b 0 len);
  addReplyString k (prefix :: x ++ crlf).

Definition addReplyLongLong (k : nat) (ll : Z) : M unit :=
  if ll =? 0 then addReply k (shared_object reply_czero) else if ll =? 1 then addReply k (shared_object reply_cone)
  else addReplyLongLongWithPrefix k ll (chr ":").

(** [shared.mbulkhdr[j]], an array of [OBJ_SHARED_BULKHDR_LEN] objects *)
Definition mbulkhdr (j : Z) : res robj :=
  if (0 <=? j) && (j <? OBJ_SHARED_BULKHDR_LEN) then Ok (shared_object (shared_hdr (chr "*") j)) else Fault OutOfBounds.

Definition addReplyMultiBulkLen (k : nat) (length : Z) : M unit :=
  if length <? OBJ_SHARED_BULKHDR_LEN then o ← lift (mbulkhdr length); addReply k o
  else addReplyLongLongWithPrefix k length (chr "*").

Definition addReplyBulkLen (k : nat) (o : robj) : M unit :=
  len ← (if sdsEncodedObject o then s ← lift (as_sds o); mret (Sds.sdslen s)
         else n ← lift (as_long o);
              if n <? 0 then lift (radix_len 20 (i64 (- n)) 2) else lift (radix_len 20 n 1));
  if len <? OBJ_SHARED_BULKHDR_LEN then addReply k (shared_object (shared_hdr (chr "$") len))
  else addReplyLongLongWithPrefix k len (chr "$").

Definition addReplyBulk (k : nat) (obj : robj) : M unit :=
  _ ← addReplyBulkLen k obj; _ ← addReply k obj; addReply k (shared_object crlf).

Definition addReplyBulkCBuffer (k : nat) (p : list Z) : M unit :=
  _ ← addReplyLongLongWithPrefix k (zlen p) (chr "$"); _ ← addReplyString k p; addReply k (shared_object crlf).

Definition addReplyBulkSds (k : nat) (s : list Z) : M unit :=
  _ ← addReplyLongLongWithPrefix k (zlen s) (chr "$"); _ ← addReplySds k s; addReply k (shared_object crlf).

(** [None] is a NULL pointer. *)
Definition addReplyBulkCString (k : nat) (s : option (list Z)) : M unit :=
  match s with None => addReply k (shared_object reply_nullbulk) | Some s => addReplyBulkCBuffer k s end.

Definition addReplyBulkLongLong (k : nat) (ll : Z) : M unit :=
  '(b, len) ← lift (ll2string (stack_buf junk 64) 64 ll);
  x ← lift (rd b 0 len);
  addReplyBulkCBuffer k x.

(** ** Closing a client *)

Definition discardTransaction (k : nat) : M unit :=
  _ ← record_call (ResetMulti k);
  c ← get k;
  _ ← put k (clear_flag c (Z.lor (Z.lor CLIENT_MULTI CLIENT_DIRTY_CAS) CLIENT_DIRTY_EXEC));
  record_call (UnwatchAllKeys k).

(** The flags; the fields of the parser are in [Networking.resetClient]. *)
Definition resetClient (k : nat) : M unit :=
  c ← get k;
  let c := if negb (has c CLIENT_MULTI) && negb (asking c) then clear_flag c CLIENT_ASKING else c in
  let c := clear_flag c CLIENT_REPLY_SKIP in
  let c := if has c CLIENT_REPLY_SKIP_NEXT then clear_flag (set_flag c CLIENT_REPLY_SKIP) CLIENT_REPLY_SKIP_NEXT else c in
  put k c.

Definition unblockClient (k : nat) : M unit :=
  _ ← record_call (UnblockWaiting k);
  c ← get k;
  let c := clear_flag c CLIENT_BLOCKED in
  if negb (has c CLIENT_UNBLOCKED) then _ ← put k (set_flag c CLIENT_UNBLOCKED); listAddNodeTail Unblocked k
  else put k c.

Definition unlinkClient (k : nat) : M unit :=
  cur ← gets current_client;
  _ ← (if bool_decide (cur = Some k) then modify (fun st => set_current st None) else mret tt);
  c ← get k;
  _ ← (if negb (fd c =? -1) then
      _ ← list_remove Clients k;
      _ ← modify (fun st => set_ae st (ae_read st ∖ {[ fd c ]}) (ae_write st ∖ {[ fd c ]}));
      _ ← modify (fun st => set_world st (sys_close (world st) (fd c)) 0);
      put k (with_conn c (-1) (flags c))
    else mret tt);
  c ← get k;
  _ ← (if has c CLIENT_PENDING_WRITE then _ ← list_remove PendingWrite k; put k (clear_flag c CLIENT_PENDING_WRITE) else mret tt);
  c ← get k;
  if has c CLIENT_UNBLOCKED then _ ← list_remove Unblocked k; put k (clear_flag c CLIENT_UNBLOCKED) else mret tt.

Definition replicationHandleMasterDisconnection : M unit :=
  modify (fun st => set_masters st None (cached_master st) true (unixtime st)).

(** The query buffers of the master are cleared, too. *)
Definition replicationCacheMaster (k : nat) : M unit :=
  m ← gets master;
  cm ← gets cached_master;
  _ ← lift (assert_ (bool_decide (m <> None) && bool_decide (cm = None)));
  _ ← unlinkClient k;
  c ← get k;
  _ ← (if has c CLIENT_MULTI then discardTransaction k else mret tt);
  c ← get k;
  _ ← put k (with_reply (with_buf c 0 (buf c)) [] (reply_bytes c));
  _ ← resetClient k;
  _ ← modify (fun st => set_masters st (master st) (master st) (repl_state_connect st) (repl_down_since st));
  replicationHandleMasterDisconnection.

Definition freeClient (k : nat) : M unit :=
  c ← get k;
  m ← gets master;
  if bool_decide (m <> None) && has c CLIENT_MASTER &&
     negb (has c (Z.lor (Z.lor CLIENT_CLOSE_AFTER_REPLY CLIENT_CLOSE_ASAP) (Z.lor CLIENT_BLOCKED CLIENT_UNBLOCKED)))
  then replicationCacheMaster k else
  _ ← (if has c CLIENT_BLOCKED then unblockClient k else mret tt);
  _ ← record_call (UnwatchAllKeys k);
  _ ← record_call (UnsubscribeAll k);
  _ ← unlinkClient k;
  c ← get k;
  _ ← (if has c CLIENT_SLAVE then
      _ ← (if (replstate c =? SLAVE_STATE_SEND_BULK) && negb (repldbfd c =? -1)
           then modify (fun st => set_world st (sys_close (world st) (repldbfd c)) 0) else mret tt);
      _ ← list_remove (if has c CLIENT_MONITOR then Monitors else Slaves) k;
      _ ← modify (fun st => if zlen (qs st Slaves) =? 0 then set_no_slaves st (unixtime st) else st);
      record_call RefreshGoodSlavesCount
    else mret tt);
  _ ← (if has c CLIENT_MASTER then replicationHandleMasterDisconnection else mret tt);
  _ ← (if has c CLIENT_CLOSE_ASAP then list_remove ToClose k else mret tt);
  modify (fun st => set_mem st (base.delete k (mem st))).

(** One turn per client of the list, at most; the fuel is its length. *)
Fixpoint free_queue (fuel : nat) : M unit :=
  l ← gets (fun st => qs st ToClose);
  match l with
  | [] => mret tt
  | k :: _ =>
    match fuel with
    | O => lift (Fault OutOfFuel)
    | S fuel =>
      c ← get k;
      _ ← put k (clear_flag c CLIENT_CLOSE_ASAP);
      _ ← freeClient k;
      _ ← list_remove ToClose k;
      free_queue fuel
    end
  end.
Definition freeClientsInAsyncFreeQueue : M unit := l ← gets (fun st => qs st ToClose); free_queue (length l).

(** ** Writing output to the socket *)

(** One turn of the loop of [writeToClient]: [continue], [break], or some bytes sent. *)
Inductive turn := Continue (c : client) | Break (c : client) (w : W) (r : wres) | Sent (c : client) (w : W) (n : Z).

Definition write_turn (c : client) (w : W) : res turn :=
  if 0 <? bufpos c then
    data ← rd (buf c) (sentlen c) (bufpos c - sentlen c);
    let '(w, r) := sys_write w (fd c) data in
    match r with
    | Written n =>
      if n <=? 0 then Ok (Break c w r) else
      let c := with_sent c (sentlen c + n) in
      Ok (Sent (if i32 (sentlen c) =? bufpos c then with_sent (with_buf c 0 (buf c)) 0 else c) w n)
    | _ => Ok (Break c w r)
    end
  else
    match reply c with
    | (_, Some o) :: rest =>
      let objlen := zlen o in
      if objlen =? 0 then Ok (Continue (with_reply c rest (reply_bytes c))) else
      data ← rd o (sentlen c) (objlen - sentlen c);
      let '(w, r) := sys_write w (fd c) data in
      match r with
      | Written n =>
        if n <=? 0 then Ok (Break c w r) else
        let c := with_sent c (sentlen c + n) in
        if sentlen c =? objlen then
          let c := with_sent (with_reply c rest (u64 (reply_bytes c - objlen))) 0 in
          _ ← assert_ (negb (zlen rest =? 0) || (reply_bytes c =? 0));
          Ok (Sent c w n)
        else Ok (Sent c w n)
      | _ => Ok (Break c w r)
      end
    | _ => Fault OutOfBounds (* [sdslen(NULL)] *)
    end.

Fixpoint write_loop (fuel : nat) (c : client) (w : W) (nwritten : wres) (totwritten : Z) : res (client * W * wres * Z) :=
  if negb (clientHasPendingReplies c) then Ok (c, w, nwritten, totwritten) else
  match fuel with
  | O => Fault OutOfFuel
  | S fuel =>
    t ← write_turn c w;
    match t with
    | Continue c => write_loop fuel c w nwritten totwritten
    | Break c w r => Ok (c, w, r, totwritten)
    | Sent c w n =>
      let totwritten := totwritten + n in
      if (NET_MAX_WRITES_PER_EVENT <? totwritten) && ((maxmemory =? 0) || (used_memory w <? maxmemory))
      then Ok (c, w, Written n, totwritten)
      else write_loop fuel c w (Written n) totwritten
    end
  end.

(** Every turn but the last sends a byte or drops a node. *)
Definition write_fuel (c : client) : nat :=
  S (Z.to_nat (bufpos c) + length (reply c) + length (concat (map (fun n : node => default [] n.2) (reply c)))).

(** [false] is [C_ERR], the client was freed. *)
Definition writeToClient (k : nat) (handler_installed : bool) : M bool :=
  c ← get k;
  w ← gets world;
  '(c, w, nwritten, totwritten) ← lift (write_loop (write_fuel c) c w (Written 0) 0);
  _ ← put k c;
  _ ← modify (fun st => set_world st w totwritten);
  match nwritten with
  | WriteError => _ ← freeClient k; mret false
  | _ =>
    now ← gets unixtime;
    let c := if (0 <? totwritten) && negb (has c CLIENT_MASTER) then with_times c now (obuf_soft_limit_reached_time c) else c in
    _ ← put k c;
    if negb (clientHasPendingReplies c) then
      _ ← put k (with_sent c 0);
      _ ← (if handler_installed then modify (fun st => set_ae st (ae_read st) (ae_write st ∖ {[ fd c ]})) else mret tt);
      if has c CLIENT_CLOSE_AFTER_REPLY then _ ← freeClient k; mret false else mret true
    else mret true
  end.

Definition sendReplyToClient (k : nat) : M unit := _ ← writeToClient k true; mret tt.

(** The body of the loop over [clients_pending_write]. *)
Definition handle_pending (k : nat) : M unit :=
  c ← get k;
  _ ← put k (clear_flag c CLIENT_PENDING_WRITE);
  _ ← list_remove PendingWrite k;
  ok ← writeToClient k false;
  if negb ok then mret tt else
  c ← get k;
  if clientHasPendingReplies c then
    w ← gets world;
    if ae_create_ok w (fd c) then modify (fun st => set_ae st (ae_read st) (ae_write st ∪ {[ fd c ]}))
    else freeClientAsync k
  else mret tt.

Fixpoint handle_all (l : list nat) : M unit :=
  match l with [] => mret tt | k :: l => _ ← handle_pending k; handle_all l end.

(** The iterator has read the next node when the body removes its own. *)
Definition handleClientsWithPendingWrites : M Z :=
  l ← gets (fun st => qs st PendingWrite);
  _ ← handle_all l;
  mret (zlen l).

(** For the slaves that are online, without returning to the event loop. *)
Fixpoint flush_slaves (l : list nat) : M unit :=
  match l with
  | [] => mret tt
  | k :: l =>
    c ← get k;
    ae ← gets ae_write;
    _ ← (if bool_decide (fd c ∈ ae) && (replstate c =? SLAVE_STATE_ONLINE) && clientHasPendingReplies c
         then _ ← writeToClient k false; mret tt else mret tt);
    flush_slaves l
  end.
Definition flushSlavesOutputBuffers : M unit := l ← gets (fun st => qs st Slaves); flush_slaves l.

(** ** The connection to the master *)

Definition replicationSendAck : M unit :=
  m ← gets master;
  match m with
  | None => mret tt
  | Some k =>
    c ← get k;
    _ ← put k (set_flag c CLIENT_MASTER_FORCE_REPLY);
    _ ← addReplyMultiBulkLen k 3;
    _ ← addReplyBulkCString k (Some (str "REPLCONF"));
    _ ← addReplyBulkCString k (Some (str "ACK"));
    c ← get k;
    _ ← addReplyBulkLongLong k (reploff c);
    c ← get k;
    put k (clear_flag c CLIENT_MASTER_FORCE_REPLY)
  end.

Definition replicationResurrectCachedMaster (newfd : Z) : M unit :=
  _ ← modify (fun st => set_masters st (cached_master st) None (repl_state_connect st) (repl_down_since st));
  m ← gets master;
  match m with
  | None => lift (Fault OutOfBounds)
  | Some k =>
    c ← get k;
    now ← gets unixtime;
    let c := clear_flag (with_conn c newfd (flags c)) (Z.lor CLIENT_CLOSE_AFTER_REPLY CLIENT_CLOSE_ASAP) in
    _ ← put k (with_times c now (obuf_soft_limit_reached_time c));
    _ ← modify (fun st => set_masters st (master st) (cached_master st) false (repl_down_since st));
    _ ← listAddNodeTail Clients k;
    w ← gets world;
    _ ← (if ae_create_ok w newfd then modify (fun st => set_ae st (ae_read st ∪ {[ newfd ]}) (ae_write st)) else freeClientAsync k);
    c ← get k;
    if clientHasPendingReplies c then
      if ae_create_ok w newfd then modify (fun st => set_ae st (ae_read st) (ae_write st ∪ {[ newfd ]})) else freeClientAsync k
    else mret tt
  end.

End Output.
End Reply.
