(* ===== verification/ReplyOps.v ===== *)
(** * Properties of the reply buffers ([Reply])

    The invariant of a client's output and the effect of every operation on it: queuing a
    reply appends its bytes to what the client will be sent, in the presence of lengths
    that are still open; a write hands a prefix to the socket and keeps the rest. Then the
    invariant of the server's lists and handlers, and that closing clients keeps it. *)
From stdpp Require Import gmap.
From S2P Require Import Prelude StateM Util Sds SdsText Object Db DbOps Networking Reply.

Module ReplyOps.
Import Object Reply.
Import Networking (CLIENT_SLAVE, CLIENT_MASTER, CLIENT_MULTI, CLIENT_BLOCKED, CLIENT_CLOSE_AFTER_REPLY, CLIENT_CLOSE_ASAP,
  CLIENT_ASKING, CLIENT_REPLY_SKIP_NEXT, CLIENT_REPLY_SKIP).
Import Db (crlf, shared_hdr, radix_len, one_line, OBJ_SHARED_BULKHDR_LEN, reply_czero, reply_cone, reply_nullbulk).
Import DbOps (radix_len_ok, abs_wrap_neg).

(** ** Sockets *)

(** [received w f] is what the connection [f] has accepted so far: a write adds the bytes
    it counts and nothing else, on its own connection only; closing adds nothing. *)
Class SocketLaws (W : Type) `{!Sockets W} := {
  received : W -> Z -> list Z;
  write_received w f d w' r : sys_write w f d = (w', r) ->
    received w' f = received w f ++ match r with Written n => ztake n d | _ => [] end;
  write_count w f d w' n : sys_write w f d = (w', Written n) -> 0 <= n <= zlen d;
  write_other w f d w' r g : sys_write w f d = (w', r) -> g <> f -> received w' g = received w g;
  close_received w f g : received (sys_close w f) g = received w g }.

(** ** The output of a client *)

(** The text of a reply list, where [s] says what the open lengths will be. *)
Definition node_text (s : nat -> list Z) (n : node) : list Z := match n.2 with Some x => x | None => s n.1 end.
Definition text (s : nat -> list Z) (l : list node) : list Z := concat (map (node_text s) l).
Definition closed_text (l : list node) : list Z := text (fun _ => []) l.
Definition ids (l : list node) : list nat := map fst l.
Definition holes (l : list node) : list nat := map fst (List.filter (fun n : node => bool_decide (n.2 = None)) l).

(** What the client is still to be sent. *)
Definition out (s : nat -> list Z) (c : client) : list Z := zdrop (sentlen c) (ztake (bufpos c) (buf c) ++ text s (reply c)).
Definition output (c : client) : list Z := out (fun _ => []) c.

Definition sent_ok (c : client) : Prop :=
  if 0 <? bufpos c then sentlen c < bufpos c
  else match reply c with (_, Some o) :: _ => sentlen c < Z.max 1 (zlen o) | _ => sentlen c = 0 end.

Definition MAX_REPLY_BYTES : Z := SIZE_MAX - 1024 * 64.

Record c_wf (nx : nat) (c : client) : Prop := {
  cw_buf : zlen (buf c) = PROTO_REPLY_CHUNK_BYTES;
  cw_pos : 0 <= bufpos c <= PROTO_REPLY_CHUNK_BYTES;
  cw_sent : 0 <= sentlen c /\ sent_ok c;
  cw_bytes : reply_bytes c = zlen (closed_text (reply c)) /\ reply_bytes c < MAX_REPLY_BYTES;
  cw_ids : NoDup (ids (reply c)) /\ Forall (fun i => (i < nx)%nat) (ids (reply c)) }.

Lemma text_app s a b : text s (a ++ b) = text s a ++ text s b.
Proof. unfold text. by rewrite map_app, concat_app. Qed.
Lemma text_one s n : text s [n] = node_text s n.
Proof. unfold text. cbn. apply app_nil_r. Qed.
Lemma text_cons s n l : text s (n :: l) = node_text s n ++ text s l.
Proof. done. Qed.
Lemma ids_app a b : ids (a ++ b) = ids a ++ ids b.
Proof. apply map_app. Qed.
Lemma holes_app a b : holes (a ++ b) = holes a ++ holes b.
Proof. unfold holes. by rewrite List.filter_app, map_app. Qed.
Lemma holes_cons i v l : holes ((i, v) :: l) = match v with Some _ => [] | None => [i] end ++ holes l.
Proof. unfold holes. cbn. by destruct v. Qed.

Lemma pending_spec c : 0 <= bufpos c -> clientHasPendingReplies c = true <-> 0 < bufpos c \/ reply c <> [].
Proof.
  intros Hp. unfold clientHasPendingReplies. rewrite orb_true_iff, negb_true_iff, Z.eqb_neq, Z.ltb_lt. destruct (reply c) as [|n l]; [change (zlen (@nil node)) with 0|rewrite zlen_cons; pose proof (zlen_nonneg l)].
  - split; [intros [?|?]; [left; lia|lia]|intros [?|?]; [left; lia|done]].
  - split; [by right|right; lia].
Qed.

Lemma pending_false c : 0 <= bufpos c -> clientHasPendingReplies c = false <-> bufpos c = 0 /\ reply c = [].
Proof.
  intros Hp. pose proof (pending_spec c Hp). destruct (clientHasPendingReplies c); split; try done.
  - intros [? E]. destruct H as [[?|?] _]; [done|lia|done].
  - intros _. destruct (reply c); [split; [|done]|]; destruct H as [_ H]; [|exfalso; enough (false = true) by done; apply H; by right]. destruct (Z.lt_ge_cases 0 (bufpos c)); [|lia]. exfalso. enough (false = true) by done. apply H. by left.
Qed.

Lemma out_drained s c : 0 <= bufpos c -> clientHasPendingReplies c = false -> out s c = [].
Proof. intros Hp [E1 E2]%pending_false; [|done]. unfold out. rewrite E1, E2, ztake_0 by lia. unfold text. cbn. unfold zdrop. by rewrite drop_nil. Qed.

Lemma zdrop_app_le {A} n (a b : list A) : n <= zlen a -> zdrop n (a ++ b) = zdrop n a ++ b.
Proof. unfold zdrop, zlen. intros. rewrite drop_app_le by lia. done. Qed.

Lemma text_short s l x : zlen (text s l) <= zlen (text s (l ++ x)).
Proof. rewrite text_app. zl. Qed.

(** The sent part is in the buffer or in the first string. *)
Lemma sent_le nx s c x : c_wf nx c -> sentlen c <= zlen (ztake (bufpos c) (buf c) ++ text s (reply c) ++ x).
Proof.
  intros [Hb Hp [H0 Hs] _ _]. rewrite !zlen_app, zlen_ztake, Hb. zlen_pos. unfold sent_ok in Hs. destruct (Z.ltb_spec 0 (bufpos c)); [lia|].
  destruct (reply c) as [|[i [o|]] l]; try lia. rewrite text_cons. unfold node_text at 1. cbn [fst snd]. rewrite zlen_app. zlen_pos. lia.
Qed.

Lemma out_app nx s c x : c_wf nx c -> out s c ++ x = zdrop (sentlen c) (ztake (bufpos c) (buf c) ++ text s (reply c) ++ x).
Proof.
  intros Hw. unfold out. rewrite (app_assoc (ztake (bufpos c) (buf c)) (text s (reply c)) x). symmetry. apply zdrop_app_le.
  pose proof (sent_le nx s c [] Hw) as H. by rewrite app_nil_r in H.
Qed.

(** ** One turn of the write loop *)

Section Writes.
Context {W : Type} `{!Sockets W} `{!SocketLaws W}.

(** The fields of a client that output does not change. *)
Definition conn (c : client) := (fd c, flags c, replstate c, repl_put_online_on_ack c, repldbfd c, asking c, reploff c).
Definition static (c : client) := (conn c, lastinteraction c, obuf_soft_limit_reached_time c).

(** What a turn that hands [n] bytes to the socket does to a client. *)
Definition sends (nx : nat) (c : client) (w : W) (c' : client) (w' : W) (n : Z) : Prop :=
  c_wf nx c' /\ holes (reply c') = [] /\ static c' = static c /\ 0 <= n /\
  received w' (fd c) ++ output c' = received w (fd c) ++ output c /\ zlen (output c') = zlen (output c) - n /\
  (forall g, g <> fd c -> received w' g = received w g) /\ reply_bytes c' <= reply_bytes c /\ (length (reply c') <= length (reply c))%nat.

Lemma sends_refl nx c w : c_wf nx c -> holes (reply c) = [] -> sends nx c w c w 0.
Proof. intros. unfold sends. split_and!; auto; lia. Qed.

Lemma sends_trans nx c1 w1 c2 w2 c3 w3 n m : sends nx c1 w1 c2 w2 n -> sends nx c2 w2 c3 w3 m -> sends nx c1 w1 c3 w3 (n + m).
Proof.
  intros (A1 & A2 & A3 & A4 & A5 & A6 & A7 & A8 & A9) (B1 & B2 & B3 & B4 & B5 & B6 & B7 & B8 & B9). assert (fd c2 = fd c1) as E by (unfold static, conn in A3; congruence). rewrite E in *.
  unfold sends. split_and!; try done; try lia; try congruence. intros g Hg. rewrite B7, A7; auto.
Qed.

Lemma rd_rest b p n : 0 <= p -> p <= n <= zlen b -> rd b p (n - p) = Ok (zdrop p (ztake n b)).
Proof.
  intros Hp Hn. unfold rd. rewrite !(proj2 (Z.leb_le _ _)) by lia. f_equal. unfold ztake, zdrop. rewrite skipn_firstn_comm. do 2 f_equal. lia.
Qed.

(** After [n] more bytes of the front [a] of the output. *)
Lemma zdrop_more {A} (a b : list A) p n : 0 <= p -> 0 <= n -> p + n <= zlen a -> ztake n (zdrop p a) ++ zdrop (p + n) (a ++ b) = zdrop p (a ++ b).
Proof.
  intros Hp Hn Hl. rewrite (zdrop_app_le (p + n)), (zdrop_app_le p), app_assoc by lia. f_equal. unfold ztake, zdrop in *. rewrite <- (firstn_skipn (Z.to_nat n) (drop (Z.to_nat p) a)) at 2. f_equal. rewrite skipn_skipn. f_equal. lia.
Qed.

Definition turn_ok (nx : nat) (c : client) (w : W) (t : turn) : Prop :=
  match t with
  | Continue c' => sends nx c w c' w 0 /\ (length (reply c') < length (reply c))%nat
  | Break c' w' r => sends nx c w c' w' 0 /\ c' = c /\ match r with Written n => n <= 0 | _ => True end
  | Sent c' w' n => sends nx c w c' w' n /\ 0 < n
  end.

Lemma write_none nx c w w' r d : c_wf nx c -> holes (reply c) = [] -> sys_write w (fd c) d = (w', r) -> match r with Written n => n <= 0 | _ => True end ->
  sends nx c w c w' 0.
Proof.
  intros Hw Hh E Hr. pose proof (write_received _ _ _ _ _ E) as H. assert (received w' (fd c) = received w (fd c)) as H'.
  { destruct r; [|by rewrite app_nil_r in H..]. by rewrite ztake_0, app_nil_r in H. }
  unfold sends. split_and!; try done; try lia; [by rewrite H'|]. intros g Hg. eapply write_other; eauto.
Qed.

Lemma turn_buffer nx c w : c_wf nx c -> holes (reply c) = [] -> 0 < bufpos c -> exists t, write_turn c w = Ok t /\ turn_ok nx c w t.
Proof.
  intros Hw Hh Hp. pose proof Hw as [Hb Hpos [H0 Hs] Hby Hid]. unfold sent_ok in Hs. unfold write_turn. rewrite (proj2 (Z.ltb_lt 0 (bufpos c))) in * by done.
  rewrite rd_rest by lia. cbn [mbind res_bind]. destruct (sys_write w (fd c) _) as [w' r] eqn:E.
  destruct r as [n| |]; [destruct (Z.leb_spec n 0)|..]; try (eexists; split; [done|]; split_and!; try done; by eapply write_none).
  pose proof (write_count _ _ _ _ _ E) as Hn. rewrite zlen_zdrop, zlen_ztake in Hn. eexists. split; [done|]. split; [|done].
  pose proof (write_received _ _ _ _ _ E) as Hr. cbn [sentlen with_sent bufpos]. rewrite swrap_id by (try lia; unfold in_s; change PROTO_REPLY_CHUNK_BYTES with 16384 in *; lia).
  assert (received w' (fd c) ++ zdrop (sentlen c + n) (ztake (bufpos c) (buf c) ++ text (fun _ => []) (reply c)) = received w (fd c) ++ output c) as Ho.
  { rewrite Hr, <- app_assoc. f_equal. unfold output, out. apply zdrop_more; rewrite ?zlen_ztake; lia. }
  assert (zlen (zdrop (sentlen c + n) (ztake (bufpos c) (buf c) ++ text (fun _ => []) (reply c))) = zlen (output c) - n) as Hl.
  { unfold output, out. rewrite !zlen_zdrop, zlen_app, zlen_ztake. zlen_pos. lia. }
  destruct (Z.eqb_spec (sentlen c + n) (bufpos c)) as [Ee|Ee]; unfold sends; split_and!; try done; try lia; try (intros g Hg; by eapply write_other).
  - constructor; cbn; try done; try lia. split; [done|]. unfold sent_ok. cbn. destruct (reply c) as [|[i [o|]] l]; try done. lia.
  - unfold output at 1. unfold out. cbn. rewrite (ztake_0 0) by lia. cbn. rewrite (zdrop_0 0) by lia. rewrite zdrop_app in Ho by (rewrite zlen_ztake; lia). done.
  - unfold output at 1. unfold out. cbn. rewrite (ztake_0 0) by lia. cbn. rewrite (zdrop_0 0) by lia. rewrite zdrop_app in Hl by (rewrite zlen_ztake; lia). done.
  - constructor; cbn; try done. split; [lia|]. unfold sent_ok. cbn. rewrite (proj2 (Z.ltb_lt 0 (bufpos c))) by done. lia.
Qed.
Lemma turn_list nx c w : c_wf nx c -> holes (reply c) = [] -> bufpos c = 0 -> reply c <> [] -> exists t, write_turn c w = Ok t /\ turn_ok nx c w t.
Proof.
  intros Hw Hh Hp Hne. pose proof Hw as [Hb Hpos [H0 Hs] [Hby Hmax] Hid]. unfold sent_ok in Hs. unfold write_turn. rewrite Hp in *. cbn [Z.ltb Z.compare] in *.
  destruct (reply c) as [|[i [o|]] l] eqn:Er; [done| |by rewrite holes_cons in Hh]. rewrite holes_cons in Hh. cbn [app] in Hh.
  assert (c_wf nx (with_sent (with_reply c l (zlen (closed_text l))) 0)) as Hw'.
  { destruct Hid as [Hid1 Hid2]. constructor; cbn; try done; try lia.
    - split; [lia|]. unfold sent_ok. cbn. rewrite Hp. cbn. destruct l as [|[j [o'|]] l]; try done. lia.
    - split; [done|]. unfold closed_text in *. rewrite text_cons, zlen_app in Hby. zlen_pos. lia.
    - split; [by inversion Hid1|by inversion Hid2]. }
  assert (holes (reply c) = []) as Hh' by (by rewrite Er, holes_cons).
  assert (output c = zdrop (sentlen c) (o ++ closed_text l)) as Eo.
  { unfold output, out. rewrite Er, Hp, ztake_0 by lia. done. }
  assert (zlen (closed_text (reply c)) = zlen o + zlen (closed_text l)) as Et by (rewrite Er; unfold closed_text; by rewrite text_cons, zlen_app).
  destruct (Z.eqb_spec (zlen o) 0) as [Ez|Ez].
  - eexists. split; [done|]. apply zlen_0_nil in Ez as ->. rewrite zlen_nil in *. cbn [turn_ok]. assert (sentlen c = 0) as Es by lia. split; [|rewrite Er; cbn; lia].
    assert (reply_bytes c = zlen (closed_text l)) as Ec by (rewrite Hby; unfold closed_text; by rewrite text_cons).
    replace (with_reply c l (reply_bytes c)) with (with_sent (with_reply c l (zlen (closed_text l))) 0) by (rewrite Ec; unfold with_sent, with_reply; cbn; by rewrite Es).
    unfold sends. split_and!; try done; cbn; try lia.
    + f_equal. rewrite Eo, Es. unfold output, out. cbn. rewrite Hp, ztake_0 by lia. done.
    + rewrite Eo, Es. unfold output, out. cbn. rewrite Hp, ztake_0 by lia. by rewrite Z.sub_0_r.
    + rewrite Er. cbn. lia.
  - rewrite Z.max_r in Hs by (pose proof (zlen_nonneg o); lia). rewrite rd_rest by lia. rewrite ztake_all by lia. cbn [mbind res_bind]. destruct (sys_write w (fd c) _) as [w' r] eqn:E.
    destruct r as [n| |]; [destruct (Z.leb_spec n 0)|..]; try (eexists; split; [done|]; split_and!; try done; by eapply write_none).
    pose proof (write_count _ _ _ _ _ E) as Hn. rewrite zlen_zdrop in Hn. pose proof (write_received _ _ _ _ _ E) as Hr.
    assert (received w' (fd c) ++ zdrop (sentlen c + n) (o ++ closed_text l) = received w (fd c) ++ output c) as Ho.
    { rewrite Hr, <- app_assoc. f_equal. rewrite Eo. apply zdrop_more; lia. }
    assert (zlen (zdrop (sentlen c + n) (o ++ closed_text l)) = zlen (output c) - n) as Hl.
    { rewrite Eo, !zlen_zdrop, zlen_app. zlen_pos. lia. }
    cbn [sentlen with_sent]. destruct (Z.eqb_spec (sentlen c + n) (zlen o)) as [Ee|Ee].
    + cbn [reply_bytes with_reply with_sent]. rewrite uwrap_id by (unfold in_u; unfold MAX_REPLY_BYTES, SIZE_MAX in *; rewrite Er in Et; zlen_pos; lia).
      replace (reply_bytes c - zlen o) with (zlen (closed_text l)) by (rewrite Er in Et; lia).
      assert (negb (zlen l =? 0) || (zlen (closed_text l) =? 0) = true) as -> by (by destruct l). cbn [assert_ mbind res_bind].
      eexists. split; [done|]. split; [|done]. change (with_sent (with_reply (with_sent c (sentlen c + n)) l (zlen (closed_text l))) 0) with (with_sent (with_reply c l (zlen (closed_text l))) 0).
      rewrite zdrop_app in Ho, Hl by lia.
      assert (output (with_sent (with_reply c l (zlen (closed_text l))) 0) = closed_text l) as Eo' by (unfold output, out; cbn; by rewrite Hp, ztake_0 by lia).
      unfold sends. rewrite Eo'. split_and!; try done; cbn; try lia; [intros g Hg; by eapply write_other|rewrite Er in Et; zlen_pos; lia|rewrite Er; cbn; lia].
    + eexists. split; [done|]. split; [|done].
      assert (output (with_sent c (sentlen c + n)) = zdrop (sentlen c + n) (o ++ closed_text l)) as Eo' by (unfold output, out; cbn; by rewrite Er, Hp, ztake_0 by lia).
      unfold sends. rewrite Eo'. split_and!; try done; cbn; try lia; [|intros g Hg; by eapply write_other].
      constructor; cbn; try done; try lia; try (by rewrite Er). split; [lia|]. unfold sent_ok. cbn. rewrite Hp, Er. cbn. lia.
Qed.
(** ** The write loop *)

Lemma pending_measure nx c : c_wf nx c -> clientHasPendingReplies c = true -> (0 < Z.to_nat (zlen (output c)) + length (reply c))%nat.
Proof.
  intros [Hb Hp [H0 Hs] _ _] [H|H]%pending_spec; [| |lia].
  - unfold sent_ok in Hs. rewrite (proj2 (Z.ltb_lt _ _)) in Hs by done. unfold output, out. rewrite zlen_zdrop, zlen_app, zlen_ztake. zlen_pos. lia.
  - destruct (reply c); [done|]. cbn. lia.
Qed.

Lemma write_turn_ok nx c w : c_wf nx c -> holes (reply c) = [] -> clientHasPendingReplies c = true -> exists t, write_turn c w = Ok t /\ turn_ok nx c w t.
Proof.
  intros Hw Hh Hp. pose proof (cw_pos _ _ Hw). apply pending_spec in Hp; [|lia]. destruct (Z.lt_ge_cases 0 (bufpos c)) as [?|?]; [by apply turn_buffer|]. apply turn_list; auto; [lia|]. by destruct Hp; [lia|].
Qed.

Lemma client_write_loop_ok nx mm fuel : forall c w r tot, c_wf nx c -> holes (reply c) = [] -> (Z.to_nat (zlen (output c)) + length (reply c) <= fuel)%nat ->
  exists c' w' r' n, write_loop mm fuel c w r tot = Ok (c', w', r', tot + n) /\ sends nx c w c' w' n.
Proof.
  induction fuel as [|fuel IH]; intros c w r tot Hw Hh Hf; cbn [write_loop].
  all: destruct (clientHasPendingReplies c) eqn:Hp; cbn [negb]; [|exists c, w, r, 0; rewrite Z.add_0_r; split; [done|by apply sends_refl]].
  - pose proof (pending_measure nx c Hw Hp). lia.
  - destruct (write_turn_ok nx c w Hw Hh Hp) as (t & -> & Ht). cbn [mbind res_bind]. destruct t as [c1|c1 w1 r1|c1 w1 n]; cbn [turn_ok] in Ht.
    + destruct Ht as [S1 Hl]. pose proof S1 as (A1 & A2 & _ & _ & _ & A6 & _). destruct (IH c1 w r tot A1 A2) as (c' & w' & r' & n & -> & S2); [lia|]. exists c', w', r', n. split; [done|]. by apply (sends_trans nx c w c1 w c' w' 0 n).
    + destruct Ht as (S1 & -> & _). exists c, w1, r1, 0. by rewrite Z.add_0_r.
    + destruct Ht as [S1 Hn]. pose proof S1 as (A1 & A2 & _ & _ & _ & A6 & _ & _ & A9).
      case_match; [by exists c1, w1, (Written n), n|]. destruct (IH c1 w1 (Written n) (tot + n) A1 A2) as (c' & w' & r' & m & -> & S2); [zlen_pos; lia|].
      exists c', w', r', (n + m). split; [by rewrite Z.add_assoc|by eapply sends_trans].
Qed.

Lemma write_fuel_enough nx c : c_wf nx c -> holes (reply c) = [] -> (Z.to_nat (zlen (output c)) + length (reply c) <= write_fuel c)%nat.
Proof.
  intros [Hb Hp [H0 Hs] _ _] Hh. unfold write_fuel, output, out. rewrite zlen_zdrop, zlen_app, zlen_ztake.
  assert (text (fun _ => []) (reply c) = concat (map (fun n : node => default [] n.2) (reply c))) as ->.
  { unfold text. done. }
  unfold zlen. lia.
Qed.

(** A socket that takes some of the data makes progress. *)
Definition writable (w : W) (f : Z) : Prop := forall d, d <> [] -> exists w' n, sys_write w f d = (w', Written n) /\ 0 < n.

Lemma writable_turn nx c w t : c_wf nx c -> writable w (fd c) -> write_turn c w = Ok t -> match t with Break _ _ _ => False | _ => True end.
Proof.
  intros Hw Hwr. unfold write_turn. destruct (Z.ltb_spec 0 (bufpos c)) as [Hp|Hp].
  - pose proof Hw as [Hb Hpos [H0 Hs] _ _]. unfold sent_ok in Hs. rewrite (proj2 (Z.ltb_lt _ _)) in Hs by done. rewrite rd_rest by lia. cbn [mbind res_bind].
    destruct (Hwr (zdrop (sentlen c) (ztake (bufpos c) (buf c)))) as (w' & n & -> & Hn).
    { intros E%(f_equal zlen). change (zlen (@nil Z)) with 0 in E. rewrite zlen_zdrop, zlen_ztake in E. lia. }
    rewrite (proj2 (Z.leb_gt _ _)) by done. intros [= <-]. done.
  - pose proof Hw as [Hb Hpos [H0 Hs] _ _]. unfold sent_ok in Hs. rewrite (proj2 (Z.ltb_ge 0 (bufpos c))) in Hs by done.
    destruct (reply c) as [|[i [o|]] l] eqn:Er; try done. case_match eqn:Ez; [by intros [= <-]|]. apply Z.eqb_neq in Ez. rewrite Z.max_r in Hs by (pose proof (zlen_nonneg o); lia).
    rewrite rd_rest, ztake_all by lia. cbn [mbind res_bind]. destruct (Hwr (zdrop (sentlen c) o)) as (w' & n & -> & Hn).
    { intros E%(f_equal zlen). change (zlen (@nil Z)) with 0 in E. rewrite zlen_zdrop in E. lia. }
    rewrite (proj2 (Z.leb_gt _ _)) by done. case_match; [destruct (assert_ _); cbn; [|done]|]; by intros [= <-].
Qed.

Lemma write_loop_progress nx mm fuel : forall c w r tot c' w' r' tot', c_wf nx c -> holes (reply c) = [] -> (Z.to_nat (zlen (output c)) + length (reply c) <= fuel)%nat -> writable w (fd c) ->
  write_loop mm fuel c w r tot = Ok (c', w', r', tot') -> clientHasPendingReplies c' = false \/ zlen (output c') < zlen (output c).
Proof.
  induction fuel as [|fuel IH]; intros c w r tot c' w' r' tot' Hw Hh Hf Hwr; cbn [write_loop].
  all: destruct (clientHasPendingReplies c) eqn:Hp; cbn [negb]; [|intros [= <- <- <- <-]; by left].
  { done. }
  destruct (write_turn_ok nx c w Hw Hh Hp) as (t & E & Ht). rewrite E. cbn [mbind res_bind]. pose proof (writable_turn nx c w t Hw Hwr E) as Hb.
  destruct t as [c1|c1 w1 r1|c1 w1 n]; cbn [turn_ok] in Ht; [|done|].
  - destruct Ht as [(A1 & A2 & A3 & _ & _ & A6 & _) Hl]. intros H. assert (fd c1 = fd c) as Ef by (unfold static, conn in A3; congruence). rewrite <- Ef in Hwr. destruct (IH _ _ _ _ _ _ _ _ A1 A2 ltac:(lia) Hwr H) as [?|?]; [by left|right; lia].
  - destruct Ht as [(A1 & A2 & _ & _ & _ & A6 & _ & _ & A9) Hn]. case_match; [intros [= <- <- <- <-]; right; lia|]. intros H1. right.
    destruct (client_write_loop_ok nx mm fuel c1 w1 (Written n) (tot + n) A1 A2) as (c2 & w2 & r2 & m & E2 & S2); [zlen_pos; lia|].
    rewrite E2 in H1. injection H1 as <- <- <- <-. destruct S2 as (_ & _ & _ & B4 & _ & B6 & _). lia.
Qed.
(** Writes to [f] keep the property [P] of the sockets and have results in [Q]. *)
Definition keeps (P : W -> Prop) (Q : wres -> Prop) (f : Z) : Prop := forall w d w' r, P w -> sys_write w f d = (w', r) -> P w' /\ Q r.

Lemma write_turn_keeps P Q c w t : keeps P Q (fd c) -> P w -> write_turn c w = Ok t ->
  match t with Continue c' => fd c' = fd c | Break _ w' r => P w' /\ Q r | Sent c' w' n => P w' /\ Q (Written n) /\ fd c' = fd c end.
Proof.
  intros HP Hw. unfold write_turn. destruct (0 <? bufpos c).
  - destruct (rd _ _ _) as [d|]; [|done]. cbn [mbind res_bind]. destruct (sys_write w (fd c) d) as [w' r] eqn:E. destruct (HP _ _ _ _ Hw E). destruct r as [n| |]; try (by intros [= <-]). case_match; intros [= <-]; [done|]. split_and!; [done..|]. by case_match.
  - destruct (reply c) as [|[i [o|]] l]; try done. case_match; [by intros [= <-]|]. destruct (rd _ _ _) as [d|]; [|done]. cbn [mbind res_bind]. destruct (sys_write w (fd c) d) as [w' r] eqn:E. destruct (HP _ _ _ _ Hw E). destruct r as [n| |]; try (by intros [= <-]).
    case_match; [by intros [= <-]|]. case_match; [destruct (assert_ _); [|done]|]; by intros [= <-].
Qed.

Lemma write_loop_keeps P Q mm fuel : forall c w r tot c' w' r' tot', keeps P Q (fd c) -> P w -> Q r ->
  write_loop mm fuel c w r tot = Ok (c', w', r', tot') -> P w' /\ Q r'.
Proof.
  induction fuel as [|fuel IH]; intros c w r tot c' w' r' tot' HP Hw Hr; cbn [write_loop].
  all: destruct (clientHasPendingReplies c); cbn [negb]; [|by intros [= <- <- <- <-]].
  { done. }
  destruct (write_turn c w) as [t|] eqn:E; [|done]. cbn [mbind res_bind]. pose proof (write_turn_keeps P Q c w t HP Hw E) as Ht. destruct t as [c1|c1 w1 r1|c1 w1 n].
  - apply IH; [by rewrite Ht|done..].
  - by intros [= <- <- <- <-].
  - destruct Ht as (Hw1 & Hq & Ef). case_match; [by intros [= <- <- <- <-]|]. apply IH; [by rewrite Ef|done..].
Qed.
End Writes.

(** ** Flags *)

Lemma has_set_other c f g : Z.land f g = 0 -> has (set_flag c f) g = has c g.
Proof. unfold has, set_flag. cbn. intros H. by rewrite Z.land_lor_distr_l, H, Z.lor_0_r. Qed.
Lemma has_set c f g : Z.land f g <> 0 -> has (set_flag c f) g = true.
Proof. unfold has, set_flag. cbn. intros H. rewrite Z.land_lor_distr_l. apply negb_true_iff, Z.eqb_neq. by intros [_ ?]%Z.lor_eq_0_iff. Qed.
Lemma has_clear_other c f g : Z.land (Z.lnot f) g = g -> has (clear_flag c f) g = has c g.
Proof. unfold has, clear_flag. cbn. intros H. by rewrite <- Z.land_assoc, H. Qed.
Lemma has_clear c f g : Z.land (Z.lnot f) g = 0 -> has (clear_flag c f) g = false.
Proof. unfold has, clear_flag. cbn. intros H. by rewrite <- Z.land_assoc, H, Z.land_0_r. Qed.

(** The flags that output and closing change on their own. *)
Definition OWN_FLAGS : Z := Z.lor CLIENT_PENDING_WRITE CLIENT_CLOSE_ASAP.

(** The same connection, up to these flags and the output. *)
Definition same_conn (c c' : client) : Prop :=
  (fd c', replstate c', repl_put_online_on_ack c', repldbfd c', asking c', reploff c') =
  (fd c, replstate c, repl_put_online_on_ack c, repldbfd c, asking c, reploff c) /\
  Z.land (flags c') (Z.lnot OWN_FLAGS) = Z.land (flags c) (Z.lnot OWN_FLAGS).

#[global] Instance same_conn_refl : Reflexive same_conn.
Proof. done. Qed.
#[global] Instance same_conn_trans : Transitive same_conn.
Proof. intros a b c [A1 A2] [B1 B2]. split; congruence. Qed.

Lemma has_same c c' f : same_conn c c' -> Z.land (Z.lnot OWN_FLAGS) f = f -> has c' f = has c f.
Proof. intros [_ H] E. unfold has. by rewrite <- E, !Z.land_assoc, H. Qed.

Lemma same_conn_static c c' : conn c' = conn c -> same_conn c c'.
Proof. unfold conn. intros [= E1 E2 E3 E4 E5 E6 E7]. split; [congruence|by rewrite E2]. Qed.
Lemma same_conn_set c f : Z.land f (Z.lnot OWN_FLAGS) = 0 -> same_conn c (set_flag c f).
Proof. intros H. split; [done|]. unfold set_flag. cbn. by rewrite Z.land_lor_distr_l, H, Z.lor_0_r. Qed.
Lemma same_conn_clear c f : Z.land (Z.lnot f) (Z.lnot OWN_FLAGS) = Z.lnot OWN_FLAGS -> same_conn c (clear_flag c f).
Proof. intros H. split; [done|]. unfold clear_flag. cbn. by rewrite <- Z.land_assoc, H. Qed.

(** ** Queuing replies *)

Section Queuing.
Context {W : Type} `{!Sockets W}.
Implicit Types st : server W.

Definition LUA_MODULE : Z := Z.lor CLIENT_LUA CLIENT_MODULE.
(** The lists a client is on, by its flags. *)
Definition in_queue (c : client) (q : queue) : bool :=
  match q with
  | Clients => negb (fd c =? -1)
  | PendingWrite => has c CLIENT_PENDING_WRITE
  | ToClose => has c CLIENT_CLOSE_ASAP
  | Unblocked => has c CLIENT_UNBLOCKED
  | Slaves => has c CLIENT_SLAVE && negb (has c CLIENT_MONITOR)
  | Monitors => has c CLIENT_SLAVE && has c CLIENT_MONITOR
  end.

(** It has a connection, or a script or a module reads its output. *)
Definition talks (c : client) : bool := negb (fd c =? -1) || has c LUA_MODULE.
(** Its replies are queued; its output is sent as soon as possible; its connection closes
    after what is queued. *)
Definition accepts (c : client) : bool :=
  has c LUA_MODULE || (negb (has c (Z.lor CLIENT_REPLY_OFF CLIENT_REPLY_SKIP)) &&
    negb (has c CLIENT_MASTER && negb (has c CLIENT_MASTER_FORCE_REPLY)) && (0 <? fd c)).
Definition sendable (c : client) : bool :=
  (0 <? fd c) && negb (has c LUA_MODULE) &&
  ((replstate c =? REPL_STATE_NONE) || ((replstate c =? SLAVE_STATE_ONLINE) && negb (repl_put_online_on_ack c))).
Definition closing (c : client) : bool := has c CLIENT_CLOSE_AFTER_REPLY.

(** Somebody will write the output: the client waits in a list or has a write handler. *)
Definition ready st (c : client) : Prop :=
  sendable c = true -> has c CLIENT_PENDING_WRITE = true \/ fd c ∈ ae_write st \/ has c CLIENT_CLOSE_ASAP = true.
Definition scheduled st (c : client) : Prop := clientHasPendingReplies c = true -> ready st c.

Record base_ok st (k : nat) (c : client) : Prop := {
  bo_wf : talks c = true -> c_wf (next st) c;
  bo_qs : forall q, k ∈ qs st q <-> in_queue c q = true;
  bo_fd : has c CLIENT_PENDING_WRITE = true -> 0 < fd c }.

(** Only client [k] and its places in the lists change. *)
Record touches (k : nat) st st' : Prop := {
  to_mem : forall j, j <> k -> mem st' !! j = mem st !! j;
  to_qs : forall q j, j <> k -> j ∈ qs st' q <-> j ∈ qs st q;
  to_nodup : forall q, NoDup (qs st q) -> NoDup (qs st' q);
  to_next : (next st <= next st')%nat }.

Definition same_env st st' : Prop :=
  ae_write st' = ae_write st /\ world st' = world st /\ master st' = master st /\ cached_master st' = cached_master st.

(** [x] was added to the output of [k]. *)
Record appended (k : nat) st (c : client) (x : list Z) st' (c' : client) : Prop := {
  ap_touches : touches k st st';
  ap_env : same_env st st';
  ap_mem : mem st' !! k = Some c';
  ap_conn : same_conn c c';
  ap_base : base_ok st' k c';
  ap_holes : holes (reply c') = holes (reply c);
  ap_out : forall s, out s c' = out s c ++ x;
  ap_bytes : reply_bytes c' <= reply_bytes c + zlen x }.

#[global] Instance touches_refl k : Reflexive (touches k).
Proof. by constructor. Qed.
#[global] Instance touches_trans k : Transitive (touches k).
Proof. intros a b c [A1 A2 A3 A4] [B1 B2 B3 B4]. constructor; auto with lia; [intros j Hj; by rewrite B1, A1|intros q j Hj; by rewrite B2, A2]. Qed.
#[global] Instance same_env_refl : Reflexive same_env.
Proof. done. Qed.
#[global] Instance same_env_trans : Transitive same_env.
Proof. intros a b c (A1 & A2 & A3 & A4) (B1 & B2 & B3 & B4). unfold same_env. split_and!; congruence. Qed.

Lemma appended_refl k st c : mem st !! k = Some c -> base_ok st k c -> appended k st c [] st c.
Proof. intros Hm Hb. constructor; try done; [intros s; by rewrite app_nil_r|]. change (zlen (@nil Z)) with 0. lia. Qed.

Lemma appended_trans k s1 c1 x s2 c2 y s3 c3 : appended k s1 c1 x s2 c2 -> appended k s2 c2 y s3 c3 -> appended k s1 c1 (x ++ y) s3 c3.
Proof.
  intros [] []. constructor; try done; try (by etransitivity); [|rewrite zlen_app; lia]. intros s. by rewrite ap_out1, ap_out0, app_assoc.
Qed.

Lemma wp_get k st (c : client) (Q : client -> server W -> Prop) : mem st !! k = Some c -> Q c st -> wp (get k) Q st.
Proof. intros E H. unfold wp, get. by rewrite E. Qed.
Lemma wp_put k st (c c' : client) (Q : unit -> server W -> Prop) : mem st !! k = Some c -> Q tt (set_mem st (<[k := c']> (mem st))) -> wp (put k c') Q st.
Proof. intros E H. unfold wp, put. by rewrite E. Qed.
Lemma wp_head q k st (Q : unit -> server W -> Prop) : Q tt (set_qs st (queue_set (qs st) q (k :: qs st q))) -> wp (listAddNodeHead q k) Q st.
Proof. done. Qed.
Lemma wp_tail q k st (Q : unit -> server W -> Prop) : Q tt (set_qs st (queue_set (qs st) q (qs st q ++ [k]))) -> wp (listAddNodeTail q k) Q st.
Proof. done. Qed.

Lemma queue_set_eq (f : queue -> list nat) q l : queue_set f q l q = l.
Proof. unfold queue_set. by rewrite decide_True. Qed.
Lemma queue_set_ne (f : queue -> list nat) q l r : r <> q -> queue_set f q l r = f r.
Proof. intros. unfold queue_set. by rewrite decide_False. Qed.

(** What an update of the client alone changes. *)
Lemma touches_put k st c : touches k st (set_mem st (<[k := c]> (mem st))).
Proof. constructor; cbn; try done. intros j Hj. by rewrite lookup_insert_ne. Qed.

(** Joining a list: the flag is set, then the client is added. *)
Lemma touches_join k st c q l : (forall j, j ∈ l <-> j = k \/ j ∈ qs st q) -> k ∉ qs st q -> (NoDup (qs st q) -> NoDup l) ->
  touches k st (set_qs (set_mem st (<[k := c]> (mem st))) (queue_set (qs st) q l)).
Proof.
  intros Hl Hk Hn. constructor; cbn; try done.
  - intros j Hj. by rewrite lookup_insert_ne.
  - intros r j Hj. destruct (decide (r = q)) as [->|]; [|by rewrite queue_set_ne]. rewrite queue_set_eq, Hl. naive_solver.
  - intros r Hr. destruct (decide (r = q)) as [->|]; [|by rewrite queue_set_ne]. rewrite queue_set_eq. auto.
Qed.
Lemma same_fd c c' : same_conn c c' -> fd c' = fd c.
Proof. by intros [[=] _]. Qed.
Lemma talks_same c c' : same_conn c c' -> talks c' = talks c.
Proof. intros H. unfold talks. by rewrite (same_fd _ _ H), (has_same _ _ _ H). Qed.
Lemma accepts_same c c' : same_conn c c' -> accepts c' = accepts c.
Proof. intros H. unfold accepts. by rewrite (same_fd _ _ H), !(has_same _ _ _ H). Qed.
Lemma sendable_same c c' : same_conn c c' -> sendable c' = sendable c.
Proof. intros H. unfold sendable. rewrite (same_fd _ _ H), (has_same _ _ _ H) by done. destruct H as [[=] _]. congruence. Qed.
Lemma closing_same c c' : same_conn c c' -> closing c' = closing c.
Proof. intros H. unfold closing. by rewrite (has_same _ _ _ H). Qed.

Lemma accepts_talks c : accepts c = true -> talks c = true.
Proof. unfold accepts, talks. destruct (has c LUA_MODULE); [by rewrite orb_true_r|]. cbn. intros [_ H%Z.ltb_lt]%andb_true_iff. rewrite orb_false_r. apply negb_true_iff, Z.eqb_neq. lia. Qed.

Lemma wf_flags nx c f fl : c_wf nx c -> c_wf nx (with_conn c f fl).
Proof. intros []. by constructor. Qed.
Lemma wf_times nx c a b : c_wf nx c -> c_wf nx (with_times c a b).
Proof. intros []. by constructor. Qed.

Lemma base_join k st c f q l : base_ok st k c -> (q, f) = (PendingWrite, CLIENT_PENDING_WRITE) /\ 0 < fd c \/ (q, f) = (ToClose, CLIENT_CLOSE_ASAP) ->
  k ∈ l -> base_ok (set_qs (set_mem st (<[k := set_flag c f]> (mem st))) (queue_set (qs st) q l)) k (set_flag c f).
Proof.
  intros [B1 B2 B3] Hq Hl. assert (same_conn c (set_flag c f)) as Hs by (apply same_conn_set; destruct Hq as [[[= -> ->] _]|[= -> ->]]; done).
  constructor; cbn [next set_qs set_mem qs].
  - rewrite (talks_same _ _ Hs). intros ?. by apply wf_flags, B1.
  - intros r. destruct (decide (r = q)) as [->|Hr].
    + rewrite queue_set_eq. split; [intros _|done]. by destruct Hq as [[[= -> ->] _]|[= -> ->]]; apply has_set.
    + rewrite queue_set_ne, B2 by done. enough (in_queue (set_flag c f) r = in_queue c r) as -> by done.
      destruct Hq as [[[= -> ->] _]|[= -> ->]]; destruct r; try done; cbn [in_queue]; rewrite ?has_set_other by done; done.
  - destruct Hq as [[[= -> ->] ?]|[= -> ->]]; [done|]. rewrite has_set_other by done. apply B3.
Qed.

Lemma join_appended k st c f q l : mem st !! k = Some c -> base_ok st k c -> (q, f) = (PendingWrite, CLIENT_PENDING_WRITE) /\ 0 < fd c \/ (q, f) = (ToClose, CLIENT_CLOSE_ASAP) ->
  has c f = false -> (forall j, j ∈ l <-> j = k \/ j ∈ qs st q) -> (k ∉ qs st q -> NoDup (qs st q) -> NoDup l) ->
  appended k st c [] (set_qs (set_mem st (<[k := set_flag c f]> (mem st))) (queue_set (qs st) q l)) (set_flag c f).
Proof.
  intros Hm Hb Hq Hf Hl Hn. assert (k ∉ qs st q) as Hk.
  { rewrite (bo_qs _ _ _ Hb q). destruct Hq as [[[= -> ->] _]|[= -> ->]]; cbn; by rewrite Hf. }
  constructor; try done; cbn.
  - apply touches_join; auto.
  - by rewrite lookup_insert_eq.
  - apply same_conn_set. by destruct Hq as [[[= -> ->] _]|[= -> ->]].
  - apply base_join; auto. rewrite Hl. by left.
  - intros s. by rewrite app_nil_r.
  - change (zlen (@nil Z)) with 0. lia.
Qed.

Lemma prepare_ok k st c : mem st !! k = Some c -> base_ok st k c -> scheduled st c ->
  wp (prepareClientToWrite k) (fun ok st' => ok = accepts c /\ exists c', appended k st c [] st' c' /\ (ok = true -> ready st' c') /\ (ok = false -> st' = st)) st.
Proof.
  intros Hm Hb Hs. unfold prepareClientToWrite. eapply wp_bind, wp_get; [done|]. change (Z.lor CLIENT_LUA CLIENT_MODULE) with LUA_MODULE. unfold accepts.
  destruct (has c LUA_MODULE) eqn:HL.
  { apply wp_ret. split; [done|]. exists c. split_and!; [by apply appended_refl| |done]. intros _. unfold ready, sendable. rewrite HL. by rewrite andb_false_r. }
  cbn [orb]. destruct (has c (Z.lor CLIENT_REPLY_OFF CLIENT_REPLY_SKIP)); [apply wp_ret; split; [done|]; exists c; by split_and!; [apply appended_refl|..]|].
  destruct (has c CLIENT_MASTER && negb (has c CLIENT_MASTER_FORCE_REPLY)); [apply wp_ret; split; [done|]; exists c; by split_and!; [apply appended_refl|..]|].
  rewrite Z.ltb_antisym. destruct (Z.leb_spec (fd c) 0) as [Hf|Hf]; [apply wp_ret; split; [done|]; exists c; by split_and!; [apply appended_refl|..]|]. cbn [negb andb].
  apply wp_bind. match goal with |- wp (if ?b then _ else _) _ _ => destruct b eqn:Hc end.
  - apply andb_true_iff in Hc as [[_ Hp]%andb_true_iff _]. apply negb_true_iff in Hp. eapply wp_bind, wp_put; [done|]. apply wp_head, wp_ret. split; [done|].
    exists (set_flag c CLIENT_PENDING_WRITE). split_and!; [apply (join_appended k st c CLIENT_PENDING_WRITE PendingWrite (k :: qs st PendingWrite)); auto|intros _ _; left; by apply has_set|done].
    + intros j. by rewrite list.elem_of_cons.
    + intros. by apply list.NoDup_cons.
  - apply wp_ret, wp_ret. split; [done|]. exists c. split_and!; [by apply appended_refl| |done]. intros _. destruct (clientHasPendingReplies c) eqn:Hp; [by apply Hs|]. cbn [negb andb] in Hc.
    intros Hse. unfold sendable in Hse. rewrite HL in Hse. apply andb_true_iff in Hse as [_ Hse]. rewrite Hse, andb_true_r in Hc. apply negb_false_iff in Hc. by left.
Qed.
(** A new value of the client alone, with the same connection. *)
Lemma put_base k st c c' : mem st !! k = Some c -> base_ok st k c -> conn c' = conn c -> (talks c = true -> c_wf (next st) c') ->
  let st' := set_mem st (<[k := c']> (mem st)) in touches k st st' /\ same_env st st' /\ mem st' !! k = Some c' /\ same_conn c c' /\ base_ok st' k c'.
Proof.
  intros Hm [B1 B2 B3] Hc Hw. pose proof (same_conn_static _ _ Hc) as Hs. unfold conn in Hc. injection Hc as E1 E2 E3 E4 E5 E6 E7.
  assert (forall f, has c' f = has c f) as Hf by (intros f; unfold has; by rewrite E2).
  cbn zeta. split_and!; try done; [apply touches_put|cbn; by rewrite lookup_insert_eq|]. constructor; cbn.
  - by rewrite (talks_same _ _ Hs).
  - intros q. rewrite B2. enough (in_queue c' q = in_queue c q) as -> by done. destruct q; cbn; by rewrite ?E1, ?Hf.
  - by rewrite Hf, E1.
Qed.

Lemma put_appended k st c c' x : mem st !! k = Some c -> base_ok st k c -> conn c' = conn c -> (talks c = true -> c_wf (next st) c') -> holes (reply c') = holes (reply c) ->
  (forall s, out s c' = out s c ++ x) -> reply_bytes c' <= reply_bytes c + zlen x -> appended k st c x (set_mem st (<[k := c']> (mem st))) c'.
Proof. intros Hm Hb Hc Hw Hh Ho Hby. destruct (put_base k st c c' Hm Hb Hc Hw) as (? & ? & ? & ? & ?). by constructor. Qed.

Lemma ready_put k st c c' : conn c' = conn c -> ready st c -> ready (set_mem st (<[k := c']> (mem st))) c'.
Proof.
  intros Hc Hr. pose proof (same_conn_static _ _ Hc) as Hs. unfold ready. rewrite (sendable_same _ _ Hs), (same_fd _ _ Hs). unfold conn in Hc. injection Hc as E1 E2 E3 E4 E5 E6 E7. unfold has. rewrite E2. apply Hr.
Qed.

(** [x] was added, and somebody will write it. *)
Definition queued (k : nat) st (c : client) (x : list Z) st' : Prop := exists c', appended k st c x st' c' /\ ready st' c'.

Lemma queued_trans k s1 c1 x s2 c2 y s3 : appended k s1 c1 x s2 c2 -> queued k s2 c2 y s3 -> queued k s1 c1 (x ++ y) s3.
Proof. intros H1 (c3 & H2 & Hr). exists c3. split; [by eapply appended_trans|done]. Qed.

Lemma freeClientAsync_ok k st c : mem st !! k = Some c -> base_ok st k c -> wp (freeClientAsync k) (fun _ st' => exists c', appended k st c [] st' c' /\ (ready st c -> ready st' c') /\ (has c CLIENT_LUA = false -> has c' CLIENT_CLOSE_ASAP = true) /\ output c' = output c /\ clientHasPendingReplies c' = clientHasPendingReplies c /\ has c' CLIENT_PENDING_WRITE = has c CLIENT_PENDING_WRITE) st.
Proof.
  intros Hm Hb. unfold freeClientAsync. eapply wp_bind, wp_get; [done|]. destruct (has c CLIENT_CLOSE_ASAP || has c CLIENT_LUA) eqn:E.
  { apply wp_ret. exists c. split_and!; try done; [by apply appended_refl|]. intros HL. by rewrite HL, orb_false_r in E. }
  apply orb_false_iff in E as [E _]. eapply wp_bind, wp_put; [done|]. apply wp_tail. exists (set_flag c CLIENT_CLOSE_ASAP).
  split_and!; [apply (join_appended k st c CLIENT_CLOSE_ASAP ToClose (qs st ToClose ++ [k])); auto|intros _ _; right; right; by apply has_set|intros _; by apply has_set|done|done|by apply has_set_other].
  - intros j. rewrite elem_of_app, list.list_elem_of_singleton. naive_solver.
  - intros. apply list.NoDup_app. split_and!; [done| |apply list.NoDup_singleton]. intros j Hj ->%list.list_elem_of_singleton. done.
Qed.

Lemma asyncClose_ok limits k st c : mem st !! k = Some c -> base_ok st k c -> ready st c -> talks c = true ->
  wp (asyncCloseClientOnOutputBufferLimitReached limits k) (fun _ => queued k st c []) st.
Proof.
  intros Hm Hb Hr Ht. unfold asyncCloseClientOnOutputBufferLimitReached. eapply wp_bind, wp_get; [done|]. pose proof (bo_wf _ _ _ Hb Ht) as Hw.
  eapply wp_bind, wp_lift; [unfold assert_; rewrite (proj2 (Z.ltb_lt _ _)) by apply (cw_bytes _ _ Hw); done|].
  destruct ((reply_bytes c =? 0) || has c CLIENT_CLOSE_ASAP); [apply wp_ret; exists c; split; [by apply appended_refl|done]|].
  eapply wp_step with (P := fun _ st' => exists c', appended k st c [] st' c' /\ ready st' c').
  - unfold checkClientOutputBufferLimits. eapply wp_bind, wp_get; [done|]. eapply wp_bind, wp_gets.
    assert (forall t, appended k st c [] (set_mem st (<[k := with_times c (lastinteraction c) t]> (mem st))) (with_times c (lastinteraction c) t)) as Hput.
    { intros t. apply put_appended; try done; [intros _; by apply wf_times|intros s; by rewrite app_nil_r|]. change (zlen (@nil Z)) with 0. cbn. lia. }
    apply wp_bind. repeat case_match; try (eapply wp_bind, wp_put; [done|]); apply wp_ret, wp_ret.
    all: first [exists c; split; [by apply appended_refl|done] | eexists; split; [apply Hput|by apply (ready_put k st c)]].
  - intros b st' (c' & H1 & Hr'). destruct b; [|apply wp_ret; by exists c']. eapply wp_mono; [apply freeClientAsync_ok; apply H1|]. cbn. intros _ st2 (c2 & H2 & Hr2 & _). exists c2. split; [by eapply (appended_trans k _ _ [] _ _ [])|auto].
Qed.
Lemma buffer_ok k st c x : mem st !! k = Some c -> base_ok st k c -> ready st c -> talks c = true -> closing c = false ->
  wp (_addReplyToBuffer k x) (fun ok st' => if ok : bool then queued k st c x st' else st' = st) st.
Proof.
  intros Hm Hb Hr Ht Hc. unfold _addReplyToBuffer. eapply wp_bind, wp_get; [done|]. unfold closing in Hc. rewrite Hc.
  pose proof (bo_wf _ _ _ Hb Ht) as Hw. pose proof Hw as [Hbuf Hpos [H0 Hs] Hby Hid]. change PROTO_REPLY_CHUNK_BYTES with 16384 in *.
  destruct (Z.ltb_spec 0 (zlen (reply c))) as [|Hl]; [by apply wp_ret|]. rewrite uwrap_id by (unfold in_u; lia). destruct (Z.ltb_spec (16384 - bufpos c) (zlen x)) as [|Ha]; [by apply wp_ret|].
  assert (reply c = []) as Er by (apply zlen_0_nil; zlen_pos; lia). pose proof (zlen_nonneg x).
  eapply wp_bind, wp_lift; [unfold wr; rewrite !(proj2 (Z.leb_le _ _)) by lia; done|]. eapply wp_bind, wp_put; [done|]. apply wp_ret.
  rewrite swrap_id by (try lia; unfold in_s; lia).
  eexists. split; [apply put_appended; try done|by apply (ready_put k st c)].
  - intros _. constructor; cbn; try done; change PROTO_REPLY_CHUNK_BYTES with 16384; [zl|lia|]. split; [done|]. unfold sent_ok in *. cbn. rewrite Er in *. destruct (Z.ltb_spec 0 (bufpos c)); case_match; lia.
  - intros s. rewrite (out_app _ s c x Hw). unfold out. cbn. rewrite Er. cbn. rewrite app_nil_r. f_equal. rewrite app_assoc. apply ztake_app. rewrite zlen_app, zlen_ztake. lia.
  - cbn. lia.
Qed.

Lemma sent_ok_reply c l n : 0 <= sentlen c -> sent_ok c ->
  match reply c with (_, Some o) :: _ => match l with (_, Some o') :: _ => zlen o <= zlen o' | _ => False end | _ => True end -> sent_ok (with_reply c l n).
Proof.
  unfold sent_ok. cbn. intros H0. destruct (0 <? bufpos c); [done|]. destruct (reply c) as [|[i [o|]] l0]; destruct l as [|[j [o'|]] l']; intros; try done; lia.
Qed.

Lemma fresh_appended k st c : mem st !! k = Some c -> base_ok st k c -> appended k st c [] (set_next st (S (next st))) c.
Proof.
  intros Hm [B1 B2 B3]. constructor; try done; [constructor; try done; cbn; lia| |intros s; by rewrite app_nil_r|change (zlen (@nil Z)) with 0; lia].
  constructor; cbn; try done. intros Ht. destruct (B1 Ht) as [? ? ? ? [? Hi]]. constructor; try done. split; [done|]. eapply list.Forall_impl; [exact Hi|]. cbn. lia.
Qed.

(** The list with a string added: as a new node, or at the end of the last string. *)
Lemma wf_grown nx c l x : c_wf nx c -> reply_bytes c + zlen x < MAX_REPLY_BYTES -> (forall s, text s l = text s (reply c) ++ x) -> NoDup (ids l) -> Forall (fun i => (i < nx)%nat) (ids l) ->
  match reply c with (_, Some o) :: _ => match l with (_, Some o') :: _ => zlen o <= zlen o' | _ => False end | _ => True end ->
  c_wf nx (with_reply c l (u64 (reply_bytes c + zlen x))) /\ (forall s, out s (with_reply c l (u64 (reply_bytes c + zlen x))) = out s c ++ x) /\
  reply_bytes (with_reply c l (u64 (reply_bytes c + zlen x))) = reply_bytes c + zlen x.
Proof.
  intros Hw Hb Ht Hn Hf Hh. pose proof Hw as [? ? [? ?] [E1 ?] ?]. rewrite uwrap_id by (unfold in_u; unfold MAX_REPLY_BYTES, SIZE_MAX in *; rewrite E1 in *; zlen_pos; lia).
  split_and!; [|intros s; rewrite (out_app _ s c x Hw); unfold out; cbn [buf bufpos reply sentlen with_reply]; by rewrite Ht|done].
  constructor; cbn [buf bufpos reply sentlen reply_bytes with_reply]; try done; [split; [done|by apply sent_ok_reply]|]. split; [|lia]. rewrite E1. unfold closed_text. by rewrite Ht, zlen_app.
Qed.

Lemma wf_snoc nx c i x : c_wf nx c -> reply_bytes c + zlen x < MAX_REPLY_BYTES -> (forall j, j ∈ ids (reply c) -> (j < i)%nat) -> (i < nx)%nat ->
  let c' := with_reply c (reply c ++ [(i, Some x)]) (u64 (reply_bytes c + zlen x)) in
  c_wf nx c' /\ (forall s, out s c' = out s c ++ x) /\ reply_bytes c' = reply_bytes c + zlen x.
Proof.
  intros Hw Hb Hi Hnx. apply wf_grown; try done.
  - intros s. by rewrite text_app, text_one.
  - rewrite ids_app. apply list.NoDup_app. split_and!; [apply Hw| |apply list.NoDup_singleton]. intros j Hj ->%list.list_elem_of_singleton. apply Hi in Hj. cbn in Hj. lia.
  - rewrite ids_app. apply list.Forall_app. split; [apply Hw|by repeat constructor].
  - destruct (reply c) as [|[j [o|]] l]; try done. cbn. lia.
Qed.

Lemma wf_last nx c i t x : c_wf nx c -> reply_bytes c + zlen x < MAX_REPLY_BYTES -> list.last (reply c) = Some (i, Some t) ->
  let c' := with_reply c (set_last (reply c) (t ++ x)) (u64 (reply_bytes c + zlen x)) in
  c_wf nx c' /\ (forall s, out s c' = out s c ++ x) /\ reply_bytes c' = reply_bytes c + zlen x /\ holes (reply c') = holes (reply c).
Proof.
  intros Hw Hb Hl. unfold set_last. rewrite Hl. apply last_Some in Hl as [l0 E]. rewrite E, removelast_last.
  assert (ids (l0 ++ [(i, Some (t ++ x))]) = ids (reply c)) as Ei by (by rewrite E, !ids_app).
  cbn zeta. destruct (wf_grown nx c (l0 ++ [(i, Some (t ++ x))]) x Hw Hb) as (H1 & H2 & H3).
  - intros s. rewrite E, !text_app, !text_one. unfold node_text. cbn. by rewrite app_assoc.
  - rewrite Ei. apply Hw.
  - rewrite Ei. apply Hw.
  - rewrite E. destruct l0 as [|[j [o|]] l0]; cbn; try done; zl.
  - split_and!; try done. cbn [reply with_reply]. by rewrite !holes_app, !holes_cons.
Qed.

Lemma add_to_list_ok limits k st c x : mem st !! k = Some c -> base_ok st k c -> ready st c -> talks c = true -> closing c = false -> reply_bytes c + zlen x < MAX_REPLY_BYTES ->
  wp (add_to_list limits k x) (fun _ => queued k st c x) st.
Proof.
  intros Hm Hb Hr Ht Hc Hmax. unfold add_to_list. eapply wp_bind, wp_get; [done|]. unfold closing in Hc. rewrite Hc. pose proof (bo_wf _ _ _ Hb Ht) as Hw.
  eapply wp_step with (P := fun _ st' => exists c', appended k st c x st' c' /\ ready st' c').
  - assert (wp (i ← fresh_node; put k (with_reply c (reply c ++ [(i, Some x)]) (u64 (reply_bytes c + zlen x)))) (fun _ st' => exists c', appended k st c x st' c' /\ ready st' c') st) as Hnew.
    { pose proof (fresh_appended k st c Hm Hb) as Hf. eapply wp_bind. change (wp (put k (with_reply c (reply c ++ [(next st, Some x)]) (u64 (reply_bytes c + zlen x)))) (fun _ st' => exists c', appended k st c x st' c' /\ ready st' c') (set_next st (S (next st)))).
      destruct (wf_snoc (S (next st)) c (next st) x) as (H1 & H2 & H3); [apply (bo_wf _ _ _ (ap_base _ _ _ _ _ _ Hf) Ht)|done| |lia|].
      { intros j Hj. apply (proj1 (list.Forall_forall _ _) (proj2 (cw_ids _ _ Hw)) j Hj). }
      eapply wp_put; [exact Hm|]. eexists. split; [|by apply (ready_put k (set_next st (S (next st))) c)].
      apply (appended_trans k _ _ [] _ _ x _ _ Hf). apply put_appended; try done; [apply Hf|..].
      - cbn [reply with_reply]. rewrite holes_app, holes_cons. cbn [app]. by rewrite app_nil_r.
      - rewrite H3. lia. }
    destruct (list.last (reply c)) as [[i [t|]]|] eqn:El; try done. case_match; [|done].
    destruct (wf_last (next st) c i t x Hw Hmax El) as (H1 & H2 & H3 & H4). eapply wp_put; [exact Hm|]. eexists. split; [|by apply (ready_put k st c)]. apply put_appended; try done. rewrite H3. lia.
  - intros _ st' (c' & H1 & Hr'). assert (talks c' = true) as Ht' by (by rewrite (talks_same _ _ (ap_conn _ _ _ _ _ _ H1))).
    eapply wp_mono; [apply asyncClose_ok; try done; apply H1|]. cbn. intros _ st2 H2. rewrite <- (app_nil_r x). by eapply queued_trans.
Qed.
(** ** Replies, by what they say *)

(** What a reply adds to the output: [x], or [y] if the connection is closing. *)
Definition said (c : client) (x y : list Z) : list Z := if accepts c then if closing c then y else x else [].

Definition speaks (k : nat) (x y : list Z) (m : ST (server W) unit) : Prop := forall st c,
  mem st !! k = Some c -> base_ok st k c -> scheduled st c -> (accepts c = true -> reply_bytes c + zlen (said c x y) < MAX_REPLY_BYTES) ->
  wp m (fun _ st' => exists c', appended k st c (said c x y) st' c' /\ scheduled st' c') st.

Lemma said_same c c' x y : same_conn c c' -> said c' x y = said c x y.
Proof. intros H. unfold said. by rewrite (accepts_same _ _ H), (closing_same _ _ H). Qed.
Lemma said_app c x1 y1 x2 y2 : said c (x1 ++ x2) (y1 ++ y2) = said c x1 y1 ++ said c x2 y2.
Proof. unfold said. by destruct (accepts c), (closing c). Qed.

Lemma speaks_ret k : speaks k [] [] (mret tt).
Proof. intros st c Hm Hb Hs _. apply wp_ret. exists c. split; [|done]. unfold said. destruct (accepts c), (closing c); by apply appended_refl. Qed.

Lemma speaks_bind k x1 y1 x2 y2 m1 m2 : speaks k x1 y1 m1 -> speaks k x2 y2 m2 -> speaks k (x1 ++ x2) (y1 ++ y2) (_ ← m1; m2).
Proof.
  intros H1 H2 st c Hm Hb Hs Hmax. rewrite said_app in Hmax. eapply wp_step; [apply (H1 st c); try done; intros Ha; specialize (Hmax Ha); zl|].
  intros _ st1 (c1 & A1 & S1). rewrite said_app. eapply wp_mono; [apply (H2 st1 c1); try done; try apply A1|].
  - rewrite (accepts_same _ _ (ap_conn _ _ _ _ _ _ A1)), (said_same _ _ _ _ (ap_conn _ _ _ _ _ _ A1)). intros Ha. specialize (Hmax Ha). pose proof (ap_bytes _ _ _ _ _ _ A1). zl.
  - intros _ st2 (c2 & A2 & S2). exists c2. split; [|done]. rewrite (said_same _ _ _ _ (ap_conn _ _ _ _ _ _ A1)) in A2. by eapply appended_trans.
Qed.

Lemma speaks_lift {A} k x y (r : res A) a (m : A -> ST (server W) unit) : r = Ok a -> speaks k x y (m a) -> speaks k x y (b ← lift r; m b).
Proof. intros -> H st c Hm Hb Hs Hmax. eapply wp_bind, wp_lift; [done|]. by apply H. Qed.

(** The text to the buffer, or else by [add] to the list. *)
Definition lists (limits : Z -> limit) (k : nat) (x : list Z) (add : ST (server W) unit) : Prop := forall st c,
  mem st !! k = Some c -> base_ok st k c -> ready st c -> talks c = true -> closing c = false -> reply_bytes c + zlen x < MAX_REPLY_BYTES -> wp add (fun _ => queued k st c x) st.

Lemma buffer_or_list_ok limits k st c x add : lists limits k x add -> mem st !! k = Some c -> base_ok st k c -> ready st c -> talks c = true ->
  reply_bytes c + zlen (if closing c then [] else x) < MAX_REPLY_BYTES -> wp (ok ← _addReplyToBuffer k x; if ok : bool then mret tt else add) (fun _ => queued k st c (if closing c then [] else x)) st.
Proof.
  intros Ha Hm Hb Hr Ht Hmax. destruct (closing c) eqn:Hc.
  - unfold _addReplyToBuffer. eapply wp_bind, wp_bind, wp_get; [done|]. unfold closing in Hc. rewrite Hc. apply wp_ret, wp_ret. exists c. split; [by apply appended_refl|done].
  - eapply wp_step; [by apply (buffer_ok k st c)|]. intros [] st'; [intros H; by apply wp_ret|intros ->; by apply Ha].
Qed.

Lemma speaks_prepared k x y m : (forall st c, mem st !! k = Some c -> base_ok st k c -> ready st c -> talks c = true ->
    reply_bytes c + zlen (if closing c then y else x) < MAX_REPLY_BYTES -> wp m (fun _ => queued k st c (if closing c then y else x)) st) ->
  speaks k x y (ok ← prepareClientToWrite k; if negb ok then mret tt else m).
Proof.
  intros H st c Hm Hb Hs Hmax. eapply wp_step; [by apply prepare_ok|]. cbn beta. intros ok st1 [-> (c1 & A1 & Hr & Hn)]. unfold said in *. destruct (accepts c) eqn:Ha; cbn [negb].
  - specialize (Hmax eq_refl). rewrite <- (closing_same _ _ (ap_conn _ _ _ _ _ _ A1)) in *. pose proof (ap_bytes _ _ _ _ _ _ A1) as Hby. change (zlen (@nil Z)) with 0 in Hby. eapply wp_mono; [apply (H st1 c1); try apply A1; auto; [|lia]|].
    + rewrite (talks_same _ _ (ap_conn _ _ _ _ _ _ A1)). by apply accepts_talks.
    + intros _ st2 (c2 & A2 & R2). exists c2. split; [by eapply (appended_trans k _ _ [])|by intros _].
  - apply wp_ret. rewrite Hn by done. exists c. split; [by apply appended_refl|done].
Qed.

Lemma speaks_string limits k x : speaks k x [] (addReplyString limits k x).
Proof. apply speaks_prepared. intros. apply (buffer_or_list_ok limits); auto. intros st' c'. apply add_to_list_ok. Qed.
Lemma speaks_sds limits k x : speaks k x [] (addReplySds limits k x).
Proof. apply speaks_prepared. intros. apply (buffer_or_list_ok limits); auto. intros st' c'. apply add_to_list_ok. Qed.

Lemma add_sds_object_ok limits k st c o sd x : ptr o = PSds sd -> Sds.repr sd x -> mem st !! k = Some c -> base_ok st k c -> ready st c -> talks c = true ->
  reply_bytes c + zlen (if closing c then [] else x) < MAX_REPLY_BYTES -> wp (add_sds_object limits k o) (fun _ => queued k st c (if closing c then [] else x)) st.
Proof.
  intros Hp Hx Hm Hb Hr Ht Hmax. unfold add_sds_object. assert (as_sds o = Ok sd) as Eo by (unfold as_sds; by rewrite Hp). pose proof (rd_text _ _ Hx) as Er.
  eapply wp_bind, wp_lift; [exact Eo|]. eapply wp_bind, wp_lift; [exact Er|]. apply (buffer_or_list_ok limits); auto.
  intros st' c' Hm' Hb' Hr' Ht' Hc' Hmax'. unfold _addReplyObjectToList. eapply wp_bind, wp_lift; [exact Eo|]. eapply wp_bind, wp_lift; [exact Er|]. by apply add_to_list_ok.
Qed.
Lemma speaks_addReply junk limits k o x : obj_text o x -> speaks k x [] (addReply junk limits k o).
Proof.
  intros Ho. apply speaks_prepared. intros st c Hm Hb Hr Ht Hmax. destruct Ho as [sd Hty He Hp Hx|v Hty He Hp Hv ->].
  { rewrite He. eapply add_sds_object_ok; eauto. }
  assert (obj_text o (dec v)) as Ho by (by eapply text_int). rewrite sdsEncoded_int, bool_decide_eq_true_2 by done. eapply wp_bind, wp_get; [done|].
  eapply wp_step with (P := fun ok st' => if ok : bool then queued k st c (if closing c then [] else dec v) st' else st' = st).
  - match goal with |- wp (if ?b then _ else _) _ _ => destruct b end; [|by apply wp_ret]. unfold as_long. rewrite Hp. eapply wp_bind, wp_lift; [done|]. pose proof (dec_len_le v Hv). destruct (ll2string_ok (stack_buf junk 32) 32 v Hv) as (post & E & _); [by apply stack_buf_len|lia|].
    eapply wp_bind, wp_lift; [exact E|]. cbn iota beta. eapply wp_bind, wp_lift; [by apply rd_app0|]. destruct (closing c) eqn:Hc; [|by apply buffer_ok].
    unfold _addReplyToBuffer. eapply wp_bind, wp_get; [done|]. unfold closing in Hc. rewrite Hc. apply wp_ret. exists c. split; [by apply appended_refl|done].
  - intros [] st'; [intros H; by apply wp_ret|intros ->]. destruct (getDecodedObject_ok junk o (dec v) Ho) as (d & E & Hd). eapply wp_bind, wp_lift; [exact E|].
    destruct d as [o'|]; [|by rewrite sdsEncoded_int in Hd]. destruct Hd as ([sd ? ? Hp' Hx|? ? He' ? ? ?] & He2 & _); [|by rewrite sdsEncoded_int in He2]. eapply add_sds_object_ok; eauto.
Qed.

Lemma shared_object_text s : zlen s <= 31 -> obj_text (shared_object s) s.
Proof.
  intros Hs. eapply text_sds; [done..|]. pose proof (zlen_nonneg s). assert (Sds.hdr_ok (Sds.mk_sds (8 * zlen s) 0 0 (s ++ [0]))) as Hh by (left; exists (zlen s); cbn; lia).
  destruct (Sds.hdr_ok_view _ Hh) as [n ? E ? El Ea _|]; cbn in *; [|lia]. assert (n = zlen s) as -> by lia. constructor; [done|done|]. exists []. split; [done|]. change (zlen (@nil Z)) with 0. lia.
Qed.
Lemma speaks_seq k x1 x2 m1 m2 : speaks k x1 [] m1 -> speaks k x2 [] m2 -> speaks k (x1 ++ x2) [] (_ ← m1; m2).
Proof. apply (speaks_bind k x1 [] x2 []). Qed.

Lemma speaks_prefix junk limits k n p : in_s 64 n -> speaks k (p :: dec n ++ crlf) [] (addReplyLongLongWithPrefix junk limits k n p).
Proof.
  intros Hn. unfold addReplyLongLongWithPrefix. pose proof (dec_len_le n Hn).
  case_match; [apply speaks_addReply, shared_object_text; unfold shared_hdr; rewrite zlen_cons, zlen_app; change (zlen crlf) with 2; lia|].
  destruct (ll2string_ok (stack_buf junk 127) 127 n Hn) as (post & E & _); [by apply stack_buf_len|lia|]. eapply speaks_lift; [exact E|]. cbn iota. eapply speaks_lift; [by apply rd_app0|]. apply speaks_string.
Qed.

Lemma speaks_int junk limits k n : in_s 64 n -> speaks k (chr ":" :: dec n ++ crlf) [] (addReplyLongLong junk limits k n).
Proof.
  intros Hn. unfold addReplyLongLong. destruct (Z.eqb_spec n 0) as [->|]; [by apply speaks_addReply, shared_object_text|]. destruct (Z.eqb_spec n 1) as [->|]; [by apply speaks_addReply, shared_object_text|]. by apply speaks_prefix.
Qed.

Lemma speaks_mbulk_len junk limits k n : 0 <= n < 2 ^ 63 -> speaks k (chr "*" :: dec n ++ crlf) [] (addReplyMultiBulkLen junk limits k n).
Proof.
  intros Hn. unfold addReplyMultiBulkLen. destruct (Z.ltb_spec n OBJ_SHARED_BULKHDR_LEN) as [Hl|]; [|apply speaks_prefix; unfold in_s; lia]. pose proof (dec_len_le n ltac:(unfold in_s; lia)).
  eapply speaks_lift; [unfold mbulkhdr; rewrite (proj2 (Z.leb_le _ _)), (proj2 (Z.ltb_lt _ _)) by lia; done|]. apply speaks_addReply, shared_object_text. unfold shared_hdr. rewrite zlen_cons, zlen_app. change (zlen crlf) with 2. lia.
Qed.

Lemma speaks_bulk_len junk limits k o x : zlen x < 2 ^ 63 -> obj_text o x -> speaks k (chr "$" :: dec (zlen x) ++ crlf) [] (addReplyBulkLen junk limits k o).
Proof.
  intros Hz Ho. pose proof (zlen_nonneg x). pose proof (dec_len_le (zlen x) ltac:(unfold in_s; lia)).
  assert (speaks k (chr "$" :: dec (zlen x) ++ crlf) [] (if zlen x <? OBJ_SHARED_BULKHDR_LEN then addReply junk limits k (shared_object (shared_hdr (chr "$") (zlen x))) else addReplyLongLongWithPrefix junk limits k (zlen x) (chr "$"))) as H1.
  { case_match; [|apply speaks_prefix; unfold in_s; lia]. apply speaks_addReply, shared_object_text. unfold shared_hdr. rewrite zlen_cons, zlen_app. change (zlen crlf) with 2. lia. }
  intros st c Hm Hb Hs Hmax. unfold addReplyBulkLen. eapply wp_step with (P := fun n st' => n = zlen x /\ st' = st); [|by intros n st' [-> ->]; apply H1].
  destruct Ho as [sd Ht He Hp Hr|v Ht He Hp Hv ->]; unfold as_sds, as_long.
  - rewrite He, Hp. eapply wp_bind, wp_lift; [done|]. apply wp_ret. by rewrite (Sds.repr_len _ _ Hr).
  - rewrite sdsEncoded_int, Hp by done. eapply wp_bind, wp_lift; [done|]. unfold in_s in Hv. unfold dec. destruct (Z.ltb_spec v 0).
    + eapply wp_lift; [apply radix_len_ok; rewrite abs_wrap_neg by lia; [change (10 ^ (Z.of_nat 20 + 1)) with (10 ^ 21)|]; lia|]. rewrite abs_wrap_neg, zlen_cons by lia. split; [lia|done].
    + eapply wp_lift; [apply radix_len_ok; [change (10 ^ (Z.of_nat 20 + 1)) with (10 ^ 21)|]; lia|]. rewrite Z.abs_eq by lia. split; [lia|done].
Qed.

(** A bulk string. *)
Definition bulk (x : list Z) : list Z := (chr "$" :: dec (zlen x) ++ crlf) ++ x ++ crlf.

Lemma speaks_crlf junk limits k : speaks k crlf [] (addReply junk limits k (shared_object crlf)).
Proof. by apply speaks_addReply, shared_object_text. Qed.

Lemma speaks_bulk junk limits k o x : zlen x < 2 ^ 63 -> obj_text o x -> speaks k (bulk x) [] (addReplyBulk junk limits k o).
Proof. intros Hx Ho. apply speaks_seq; [by apply speaks_bulk_len|]. apply speaks_seq; [by apply speaks_addReply|apply speaks_crlf]. Qed.
Lemma speaks_cbuffer junk limits k x : zlen x < 2 ^ 63 -> speaks k (bulk x) [] (addReplyBulkCBuffer junk limits k x).
Proof. intros Hx. pose proof (zlen_nonneg x). apply speaks_seq; [apply speaks_prefix; unfold in_s; lia|]. apply speaks_seq; [apply speaks_string|apply speaks_crlf]. Qed.
Lemma speaks_bulk_sds junk limits k x : zlen x < 2 ^ 63 -> speaks k (bulk x) [] (addReplyBulkSds junk limits k x).
Proof. intros Hx. pose proof (zlen_nonneg x). apply speaks_seq; [apply speaks_prefix; unfold in_s; lia|]. apply speaks_seq; [apply speaks_sds|apply speaks_crlf]. Qed.
Lemma speaks_bulk_ll junk limits k n : in_s 64 n -> speaks k (bulk (dec n)) [] (addReplyBulkLongLong junk limits k n).
Proof.
  intros Hn. pose proof (dec_len_le n Hn). destruct (ll2string_ok (stack_buf junk 64) 64 n Hn) as (post & E & _); [by apply stack_buf_len|lia|].
  eapply speaks_lift; [exact E|]. cbn iota. eapply speaks_lift; [by apply rd_app0|]. apply speaks_cbuffer. lia.
Qed.
Lemma speaks_null junk limits k : speaks k reply_nullbulk [] (addReplyBulkCString junk limits k None).
Proof. by apply speaks_addReply, shared_object_text. Qed.
Lemma speaks_error limits k x : speaks k (str "-ERR " ++ x ++ crlf) [] (addReplyError limits k x).
Proof. apply speaks_seq; [apply speaks_string|]. apply speaks_seq; apply speaks_string. Qed.
Lemma speaks_status limits k x : speaks k (str "+" ++ x ++ crlf) [] (addReplyStatus limits k x).
Proof. apply speaks_seq; [apply speaks_string|]. apply speaks_seq; apply speaks_string. Qed.
(** ** Lengths that are filled in later *)

Definition subst (i : nat) (h : list Z) (s : nat -> list Z) : nat -> list Z := fun j => if decide (j = i) then h else s j.

Lemma text_subst i h s l : i ∉ ids l -> text (subst i h s) l = text s l.
Proof.
  induction l as [|[j v] l IH]; [done|]. change (ids ((j, v) :: l)) with (j :: ids l). rewrite list.not_elem_of_cons. intros [Hj Hl]. rewrite !text_cons, IH by done. f_equal. unfold node_text. cbn. destruct v; [done|]. unfold subst. by rewrite decide_False.
Qed.

Lemma holes_ids i l : i ∈ holes l -> i ∈ ids l.
Proof. unfold holes, ids. intros [n [-> Hn]]%list_elem_of_fmap. apply list_elem_of_fmap. exists n. split; [done|]. apply list_elem_of_In. apply list_elem_of_In, List.filter_In in Hn. apply Hn. Qed.

Definition same_head (l l' : list node) : Prop := match l with (_, Some o) :: _ => match l' with (_, Some o') :: _ => zlen o <= zlen o' | _ => False end | _ => True end.

Lemma fill_ok i h l : NoDup (ids l) -> i ∈ holes l -> exists l', fill_node i h l = Some l' /\
  (forall s, text s l' = text (subst i h s) l) /\ (forall s, zlen (text s l') + zlen (s i) = zlen (text s l) + zlen h) /\
  holes l' = List.filter (fun j => negb (bool_decide (j = i))) (holes l) /\ sublist (ids l') (ids l) /\ same_head l l'.
Proof.
  induction l as [|[j v] l IH]; [by intros _ ?%elem_of_nil|]. change (ids ((j, v) :: l)) with (j :: ids l). intros [Hj Hn]%list.NoDup_cons Hi. rewrite holes_cons in Hi. cbn [fill_node]. destruct (decide (j = i)) as [->|Hne].
  - destruct v as [v|]; [exfalso; by apply Hj, holes_ids|]. clear IH Hi. assert (i ∉ holes l) as Hh by (by intros ?%holes_ids). rewrite holes_cons. cbn [app List.filter]. rewrite bool_decide_eq_true_2 by done. cbn [negb].
    assert (forall m : list nat, i ∉ m -> List.filter (fun j => negb (bool_decide (j = i))) m = m) as Hfil.
    { clear. induction m as [|a m IH]; [done|]. rewrite list.not_elem_of_cons. intros [Ha Hm]. cbn. rewrite bool_decide_eq_false_2 by done. cbn. by rewrite IH. }
    rewrite Hfil by done.
    assert (forall s, text (subst i h s) ((i, None) :: l) = h ++ text s l) as Et by (intros s; rewrite text_cons, text_subst by done; unfold node_text, subst; cbn; by rewrite decide_True).
    assert (forall s, zlen (text s ((i, None) :: l)) = zlen (s i) + zlen (text s l)) as Ez by (intros s; by rewrite text_cons, zlen_app).
    destruct l as [|[j' [nx|]] l]; eexists; (split; [done|]); split_and!; try done; try (intros s; rewrite Et); try (intros s; rewrite Ez).
    all: rewrite ?text_cons; unfold node_text; cbn [fst snd]; rewrite ?app_assoc, ?zlen_app; try done; try lia.
    change (sublist (i :: ids l) (i :: j' :: ids l)). constructor. by constructor.
  - destruct IH as (l' & -> & H1 & H2 & H3 & H4 & H5); [done|destruct v; [done|by apply list.elem_of_cons in Hi as [->|?]]|]. eexists. split; [done|]. split_and!.
    + intros s. rewrite !text_cons, H1. f_equal. unfold node_text, subst. cbn. destruct v; [done|]. by rewrite decide_False.
    + intros s. rewrite !text_cons, !zlen_app. specialize (H2 s). change (node_text s (j, v)) with (node_text s (j, v)). lia.
    + rewrite !holes_cons, H3. destruct v; [done|]. cbn. by rewrite bool_decide_eq_false_2.
    + by constructor.
    + cbn. destruct v; [lia|done].
Qed.

Lemma out_subst i h s c : i ∉ ids (reply c) -> out (subst i h s) c = out s c.
Proof. intros Hi. unfold out. by rewrite text_subst. Qed.

(** The reply list with an open length at its end. *)
Lemma hole_ok k st c : mem st !! k = Some c -> base_ok st k c -> ready st c -> talks c = true ->
  let i := next st in let c' := with_reply c (reply c ++ [(i, None)]) (reply_bytes c) in let st' := set_mem (set_next st (S i)) (<[k := c']> (mem st)) in
  touches k st st' /\ same_env st st' /\ mem st' !! k = Some c' /\ same_conn c c' /\ base_ok st' k c' /\ ready st' c' /\ i ∉ ids (reply c) /\ holes (reply c') = holes (reply c) ++ [i] /\
  (forall s, out s c' = out s c ++ s i).
Proof.
  intros Hm Hb Hr Ht i c' st'. pose proof (bo_wf _ _ _ Hb Ht) as Hw. destruct Hb as [B1 B2 B3].
  assert (i ∉ ids (reply c)) as Hi. { intros Hi. pose proof (proj1 (list.Forall_forall _ _) (proj2 (cw_ids _ _ Hw)) i Hi). cbn in *. lia. }
  assert (forall s, text s (reply c ++ [(i, None)]) = text s (reply c) ++ s i) as Et by (intros s; by rewrite text_app, text_one).
  split_and!; try done.
  - constructor; cbn; try done; [intros j Hj; by rewrite lookup_insert_ne|lia].
  - cbn. by rewrite lookup_insert_eq.
  - constructor; [|done..]. intros _. pose proof Hw as [? ? [? ?] [E1 ?] [Hn Hf]]. constructor; try done.
    + split; [done|]. apply sent_ok_reply; try done. destruct (reply c) as [|[j [o|]] l]; try done. cbn. lia.
    + split; [|done]. unfold c', closed_text. cbn [reply with_reply]. rewrite Et, app_nil_r. apply E1.
    + unfold c'. cbn [reply with_reply]. rewrite ids_app. split; [apply list.NoDup_app; split_and!; [done| |apply list.NoDup_singleton]; by intros j Hj ->%list.list_elem_of_singleton|].
      apply list.Forall_app. split; [eapply list.Forall_impl; [exact Hf|]; cbn; lia|repeat constructor; cbn; lia].
  - unfold c'. cbn [reply with_reply]. by rewrite holes_app, holes_cons.
  - intros s. rewrite (out_app _ s c _ Hw). unfold out, c'. cbn [reply with_reply buf bufpos sentlen]. by rewrite Et.
Qed.
Lemma filter_last (i : nat) m : i ∉ m -> List.filter (fun j => negb (bool_decide (j = i))) (m ++ [i]) = m.
Proof.
  induction m as [|a m IH]; cbn.
  - by rewrite bool_decide_eq_true_2.
  - rewrite list.not_elem_of_cons. intros [Ha Hm]. rewrite bool_decide_eq_false_2 by done. cbn. by rewrite IH.
Qed.

(** Filling the length in keeps the invariant and completes the output. *)
Lemma fill_client_ok nx c i h : c_wf nx c -> i ∈ holes (reply c) -> reply_bytes c + zlen h < MAX_REPLY_BYTES -> exists l, fill_node i h (reply c) = Some l /\
  let c' := with_reply c l (u64 (reply_bytes c + zlen h)) in
  c_wf nx c' /\ (forall s, out s c' = out (subst i h s) c) /\ holes (reply c') = List.filter (fun j => negb (bool_decide (j = i))) (holes (reply c)) /\
  reply_bytes c' = reply_bytes c + zlen h.
Proof.
  intros Hw Hi Hmax. pose proof Hw as [W1 W2 [W3 W4] [E1 W5] [Hn Hf]]. destruct (fill_ok i h (reply c) Hn Hi) as (l & El & H1 & H2 & H3 & H4 & H5). exists l. split; [done|]. cbn zeta.
  rewrite uwrap_id by (unfold in_u; unfold MAX_REPLY_BYTES, SIZE_MAX in *; rewrite E1 in *; zlen_pos; lia).
  split_and!; try done; [|intros s; unfold out; cbn [reply with_reply buf bufpos sentlen]; by rewrite H1].
  constructor; try done; [split; [done|by apply sent_ok_reply]| |].
  - cbn [reply_bytes reply with_reply]. split; [|lia]. specialize (H2 (fun _ => [])). cbn beta in H2. change (zlen (@nil Z)) with 0 in H2. unfold closed_text in *. lia.
  - cbn [reply with_reply]. split; [by eapply sublist_NoDup|]. apply list.Forall_forall. intros j Hj. eapply (proj1 (list.Forall_forall _ _) Hf), elem_of_sublist; eauto.
Qed.

Lemma speaks_deferred limits k x y m n : speaks k x y m -> let h := chr "*" :: dec n ++ crlf in
  speaks k (h ++ x) (h ++ y) (node ← addDeferredMultiBulkLength k; _ ← m; setDeferredMultiBulkLength limits k node n).
Proof.
  intros Hsp h st c Hm Hb Hs Hmax. unfold addDeferredMultiBulkLength. eapply wp_bind, wp_step; [by apply prepare_ok|]. cbn beta. intros ok st1 [-> (c1 & A1 & Hr & Hnone)].
  assert (said c (h ++ x) (h ++ y) = if accepts c then h ++ said c x y else []) as Esaid by (unfold said; by destruct (accepts c), (closing c)). rewrite Esaid in *.
  destruct (accepts c) eqn:Ha; cbn [negb].
  - specialize (Hr eq_refl). specialize (Hmax eq_refl). assert (talks c1 = true) as Ht by (rewrite (talks_same _ _ (ap_conn _ _ _ _ _ _ A1)); by apply accepts_talks).
    destruct (hole_ok k st1 c1) as (T2 & V2 & M2 & C2 & B2 & R2 & I2 & L2 & O2); [apply A1|apply A1|done..|].
    eapply wp_bind, wp_get; [apply A1|]. eapply wp_bind. change (wp (_ ← put k (with_reply c1 (reply c1 ++ [(next st1, None)]) (reply_bytes c1)); mret (Some (next st1))) (fun a => wp (_ ← m; setDeferredMultiBulkLength limits k a n) (fun _ st' => exists c', appended k st c (h ++ said c x y) st' c' /\ scheduled st' c')) (set_next st1 (S (next st1)))).
    eapply wp_bind, wp_put; [apply A1|]. apply wp_ret.
    set (i := next st1) in *. set (c2 := with_reply c1 (reply c1 ++ [(i, None)]) (reply_bytes c1)) in *. set (st2 := set_mem (set_next st1 (S i)) (<[k := c2]> (mem st1))) in *.
    change (wp (_ ← m; setDeferredMultiBulkLength limits k (Some i) n) (fun _ st' => exists c', appended k st c (h ++ said c x y) st' c' /\ scheduled st' c') st2).
    assert (same_conn c c2) as Cc2 by (etransitivity; [apply A1|done]). assert (said c2 x y = said c x y) as Es2 by (by apply said_same).
    assert (reply_bytes c2 = reply_bytes c1) as Eb2 by done. pose proof (ap_bytes _ _ _ _ _ _ A1) as Hb1. change (zlen (@nil Z)) with 0 in Hb1. rewrite zlen_app in Hmax.
    eapply wp_step; [apply (Hsp st2 c2); try done; [by intros _|intros _; rewrite Es2; zlen_pos; lia]|]. rewrite Es2. intros _ st3 (c3 & A3 & S3). cbn [setDeferredMultiBulkLength].
    assert (talks c3 = true) as Ht3 by (rewrite (talks_same _ _ (ap_conn _ _ _ _ _ _ A3)), (talks_same _ _ Cc2); by apply accepts_talks).
    pose proof (ap_bytes _ _ _ _ _ _ A3) as Hb3. pose proof (ap_holes _ _ _ _ _ _ A3) as Hh3. rewrite L2 in Hh3.
    eapply wp_bind, wp_get; [apply A3|]. destruct (fill_client_ok (next st3) c3 i h) as (l & El & W4 & O4 & H4 & B4); [apply (bo_wf _ _ _ (ap_base _ _ _ _ _ _ A3) Ht3)|rewrite Hh3; apply elem_of_app; right; by apply list.list_elem_of_singleton|lia|].
    change (chr "*" :: dec n ++ crlf) with h. rewrite El. eapply wp_bind, wp_put; [apply A3|]. set (c4 := with_reply c3 l (u64 (reply_bytes c3 + zlen h))) in *. set (st4 := set_mem st3 (<[k := c4]> (mem st3))) in *.
    destruct (put_base k st3 c3 c4) as (T4 & V4 & M4 & C4 & K4); [apply A3|apply A3|done|done|].
    assert (appended k st c (h ++ said c x y) st4 c4) as A4.
    { pose proof (ap_conn _ _ _ _ _ _ A3) as C3. constructor; try done.
      - etransitivity; [apply A1|]. etransitivity; [exact T2|]. etransitivity; [apply A3|exact T4].
      - etransitivity; [apply A1|]. etransitivity; [exact V2|]. etransitivity; [apply A3|exact V4].
      - etransitivity; [exact Cc2|]. by etransitivity; [exact C3|].
      - rewrite H4, Hh3, filter_last by (by intros ?%holes_ids). apply A1.
      - intros s. rewrite O4, (ap_out _ _ _ _ _ _ A3), O2, out_subst, (ap_out _ _ _ _ _ _ A1) by done. rewrite app_nil_r, <- app_assoc. unfold subst. by rewrite decide_True.
      - rewrite B4, zlen_app. lia. }
    assert (ready st3 c3) as R3.
    { apply S3, pending_spec; [apply (cw_pos _ _ (bo_wf _ _ _ (ap_base _ _ _ _ _ _ A3) Ht3))|]. right. intros E. rewrite E in Hh3. by destruct (holes (reply c1)). }
    eapply wp_mono; [by apply asyncClose_ok|]. cbn beta. intros _ st5 H5. rewrite <- (app_nil_r (h ++ said c x y)). apply (queued_trans k _ _ _ _ _ _ _ A4) in H5 as (c5 & A5 & R5). exists c5. split; [done|by intros _].
  - apply wp_ret. rewrite Hnone by done. eapply wp_step; [apply (Hsp st c); try done; by rewrite Ha|]. unfold said. rewrite Ha. intros _ st2 H. by apply wp_ret.
Qed.
End Queuing.
End ReplyOps.
