(* ===== verification/ReplyClose.v ===== *)
(** * Closing clients: the lists and handlers of the server ([Reply])

    [freeClient] takes a client off every list and handler it is on and leaves everything
    else alone; a lost master is kept, without its connection, for a later partial
    resynchronisation. *)
From stdpp Require Import gmap.
From S2P Require Import Prelude StateM Networking Reply ReplyOps.

Module ReplyClose.
Import Reply ReplyOps.
Import Networking (CLIENT_SLAVE, CLIENT_MASTER, CLIENT_MULTI, CLIENT_BLOCKED, CLIENT_CLOSE_AFTER_REPLY, CLIENT_CLOSE_ASAP,
  CLIENT_ASKING, CLIENT_REPLY_SKIP_NEXT, CLIENT_REPLY_SKIP).

Section Closing.
Context {W : Type} `{!Sockets W}.
Implicit Types st : server W.

(** Sockets were closed, and nothing else happened to them. *)
Inductive closes : W -> W -> Prop :=
| closes_refl w : closes w w
| closes_step w f w' : closes (sys_close w f) w' -> closes w w'.

#[global] Instance closes_reflexive : Reflexive closes.
Proof. constructor. Qed.
#[global] Instance closes_trans : Transitive closes.
Proof. intros a b c H. induction H; [done|]. intros. eapply closes_step. auto. Qed.
Lemma closes_one w f : closes w (sys_close w f).
Proof. eapply closes_step, closes_refl. Qed.

(** Only client [k], with descriptor [f], and what refers to it change. *)
Record only (k : nat) (f : Z) st st' : Prop := {
  on_touches : touches k st st';
  on_sub : forall g, g ∈ ae_write st' -> g ∈ ae_write st;
  on_keep : forall g, g <> f -> g ∈ ae_write st -> g ∈ ae_write st';
  on_world : closes (world st) (world st');
  on_master : (master st <> None -> cached_master st = None) -> master st' <> None -> cached_master st' = None }.

#[global] Instance only_refl k f : Reflexive (only k f).
Proof. intros st. by constructor. Qed.
#[global] Instance only_trans k f : Transitive (only k f).
Proof. intros a b c [] []. constructor; auto; by etransitivity. Qed.

(** Where [k] is: on the lists [P]. *)
Definition on (st : server W) (k : nat) (P : queue -> bool) : Prop := forall q, k ∈ qs st q <-> P q = true.
Definition off (P : queue -> bool) (q : queue) : queue -> bool := fun r => if decide (r = q) then false else P r.
Definition nodups st : Prop := forall q, NoDup (qs st q).

Lemma only_put k f st c : only k f st (set_mem st (<[k := c]> (mem st))).
Proof. constructor; try done. apply touches_put. Qed.
Lemma only_call k f st e : only k f st (add_call st e).
Proof. by constructor. Qed.
Lemma only_close k f st g n : only k f st (set_world st (sys_close (world st) g) n).
Proof. constructor; try done. apply closes_one. Qed.

Lemma del_first_ok k l : NoDup l -> k ∈ l -> exists l', del_first k l = Some l' /\ NoDup l' /\ (forall j, j ∈ l' <-> j ∈ l /\ j <> k).
Proof.
  induction l as [|x l IH]; [by intros _ ?%elem_of_nil|]. intros [Hx Hn]%list.NoDup_cons Hk. cbn. destruct (decide (x = k)) as [->|Hne].
  - exists l. split_and!; try done. intros j. rewrite list.elem_of_cons. split; [intros ?; split; [by right|by intros ->]|by intros [[->|?] ?]].
  - destruct IH as (l' & -> & Hn' & Hj); [done|by apply list.elem_of_cons in Hk as [->|?]|]. exists (x :: l'). split_and!; [done|apply list.NoDup_cons; rewrite Hj; naive_solver|].
    intros j. rewrite !list.elem_of_cons, Hj. naive_solver.
Qed.

Lemma list_remove_ok q k f P st : nodups st -> on st k P -> P q = true ->
  wp (list_remove q k) (fun _ st' => only k f st st' /\ nodups st' /\ on st' k (off P q) /\ mem st' = mem st /\ ae_write st' = ae_write st /\ master st' = master st) st.
Proof.
  intros Hn Hon Hq. destruct (del_first_ok k (qs st q)) as (l & E & Hnl & Hj); [done|by apply Hon|]. unfold wp, list_remove. rewrite E. split_and!; try done.
  - constructor; try done. constructor; try done.
    + intros r j Hr. cbn. destruct (decide (r = q)) as [->|]; [|by rewrite queue_set_ne]. rewrite queue_set_eq, Hj. naive_solver.
    + intros r _. cbn. destruct (decide (r = q)) as [->|]; [by rewrite queue_set_eq|rewrite queue_set_ne by done; apply Hn].
  - intros r. cbn. destruct (decide (r = q)) as [->|]; [by rewrite queue_set_eq|rewrite queue_set_ne by done; apply Hn].
  - intros r. cbn. unfold off. destruct (decide (r = q)) as [->|]; [rewrite queue_set_eq, Hj; naive_solver|rewrite queue_set_ne by done; apply Hon].
Qed.

Lemma list_add_ok q k f P st : nodups st -> on st k P -> P q = false ->
  wp (listAddNodeTail q k) (fun _ st' => only k f st st' /\ nodups st' /\ on st' k (fun r => if decide (r = q) then true else P r) /\ mem st' = mem st /\ ae_write st' = ae_write st /\ master st' = master st) st.
Proof.
  intros Hn Hon Hq. apply wp_tail. assert (k ∉ qs st q) as Hk by (rewrite (Hon q), Hq; done).
  assert (NoDup (qs st q ++ [k])) as Hnl by (apply list.NoDup_app; split_and!; [apply Hn| |apply list.NoDup_singleton]; by intros j Hj ->%list.list_elem_of_singleton).
  split_and!; try done.
  - constructor; try done. constructor; try done.
    + intros r j Hr. cbn. destruct (decide (r = q)) as [->|]; [|by rewrite queue_set_ne]. rewrite queue_set_eq, elem_of_app, list.list_elem_of_singleton. naive_solver.
    + intros r _. cbn. destruct (decide (r = q)) as [->|]; [by rewrite queue_set_eq|rewrite queue_set_ne by done; apply Hn].
  - intros r. cbn. destruct (decide (r = q)) as [->|]; [by rewrite queue_set_eq|rewrite queue_set_ne by done; apply Hn].
  - intros r. cbn. destruct (decide (r = q)) as [->|]; [|rewrite queue_set_ne by done; apply Hon]. rewrite queue_set_eq, elem_of_app, list.list_elem_of_singleton. naive_solver.
Qed.
(** [c'] is [c] but for its descriptor, the flags [m], its output and its times. *)
Definition but (m : Z) (c c' : client) : Prop :=
  (replstate c', repldbfd c') = (replstate c, repldbfd c) /\ Z.land (flags c') (Z.lnot m) = Z.land (flags c) (Z.lnot m).

Lemma but_refl m c : but m c c.
Proof. done. Qed.
Lemma but_trans m c1 c2 c3 : but m c1 c2 -> but m c2 c3 -> but m c1 c3.
Proof. intros [A1 A2] [B1 B2]. split; congruence. Qed.
Lemma but_has m c c' f : but m c c' -> Z.land (Z.lnot m) f = f -> has c' f = has c f.
Proof. intros [_ H] E. unfold has. by rewrite <- E, !Z.land_assoc, H. Qed.
Lemma but_weaken m m' c c' : but m c c' -> Z.land (Z.lnot m) (Z.lnot m') = Z.lnot m' -> but m' c c'.
Proof. intros [H1 H2] E. split; [done|]. apply (f_equal (fun x => Z.land x (Z.lnot m'))) in H2. by rewrite <- !Z.land_assoc, E in H2. Qed.
Lemma but_set m c f : Z.land f (Z.lnot m) = 0 -> but m c (set_flag c f).
Proof. intros H. split; [done|]. unfold set_flag. cbn. by rewrite Z.land_lor_distr_l, H, Z.lor_0_r. Qed.
Lemma but_clear m c f : Z.land (Z.lnot f) (Z.lnot m) = Z.lnot m -> but m c (clear_flag c f).
Proof. intros H. split; [done|]. unfold clear_flag. cbn. by rewrite <- Z.land_assoc, H. Qed.

(** A client in memory, on the lists [P]. *)
Definition at_ (st : server W) (k : nat) (c : client) (P : queue -> bool) : Prop := nodups st /\ on st k P /\ mem st !! k = Some c.

Lemma at_put st k c P c' : at_ st k c P -> at_ (set_mem st (<[k := c']> (mem st))) k c' P.
Proof. intros (H1 & H2 & H3). split_and!; try done. cbn. by rewrite lookup_insert_eq. Qed.

Lemma wp_put_at st k c c' P f (Q : unit -> server W -> Prop) : at_ st k c P ->
  (forall st', only k f st st' -> at_ st' k c' P -> ae_write st' = ae_write st -> master st' = master st -> Q tt st') -> wp (put k c') Q st.
Proof. intros Ha H. eapply wp_put; [apply Ha|]. apply H; try done; [apply only_put|by eapply at_put]. Qed.
Lemma wp_remove_at st k c P q f (Q : unit -> server W -> Prop) : at_ st k c P -> P q = true ->
  (forall st', only k f st st' -> at_ st' k c (off P q) -> ae_write st' = ae_write st -> master st' = master st -> Q tt st') -> wp (list_remove q k) Q st.
Proof. intros (H1 & H2 & H3) Hq H. eapply wp_mono; [by apply (list_remove_ok q k f P)|]. cbn. intros [] st' (A1 & A2 & A3 & A4 & A5 & A6). apply H; try done. split_and!; try done. by rewrite A4. Qed.
Lemma wp_add_at st k c P q f (Q : unit -> server W -> Prop) : at_ st k c P -> P q = false ->
  (forall st', only k f st st' -> at_ st' k c (fun r => if decide (r = q) then true else P r) -> ae_write st' = ae_write st -> master st' = master st -> Q tt st') -> wp (listAddNodeTail q k) Q st.
Proof. intros (H1 & H2 & H3) Hq H. eapply wp_mono; [by apply (list_add_ok q k f P)|]. cbn. intros [] st' (A1 & A2 & A3 & A4 & A5 & A6). apply H; try done. split_and!; try done. by rewrite A4. Qed.
Lemma wp_call_at st e k f (Q : unit -> server W -> Prop) : (forall st', only k f st st' -> mem st' = mem st -> qs st' = qs st -> ae_write st' = ae_write st -> master st' = master st -> Q tt st') -> wp (record_call e) Q st.
Proof. intros H. apply wp_modify, H; done. Qed.
Lemma at_same st st' k c P : at_ st k c P -> mem st' = mem st -> qs st' = qs st -> at_ st' k c P.
Proof. intros (H1 & H2 & H3) Em Eq. unfold at_, nodups, on. by rewrite Em, Eq. Qed.

Lemma at_ext st k c P P' : at_ st k c P -> (forall q, P q = P' q) -> at_ st k c P'.
Proof. intros (H1 & H2 & H3) E. split_and!; try done. intros q. by rewrite <- E. Qed.

Definition UNBLOCK_FLAGS : Z := Z.lor CLIENT_BLOCKED CLIENT_UNBLOCKED.

Lemma unblockClient_ok st k c P f : at_ st k c P -> P Unblocked = has c CLIENT_UNBLOCKED ->
  wp (unblockClient k) (fun _ st' => exists c', only k f st st' /\ at_ st' k c' (fun q => if decide (q = Unblocked) then true else P q) /\
    fd c' = fd c /\ but UNBLOCK_FLAGS c c' /\ has c' CLIENT_UNBLOCKED = true /\ ae_write st' = ae_write st /\ master st' = master st) st.
Proof.
  intros Ha HU. unfold unblockClient. apply wp_bind, (wp_call_at _ _ k f). intros st1 O1 M1 Q1 W1 X1. pose proof (at_same _ _ _ _ _ Ha M1 Q1) as Ha1.
  eapply wp_bind, wp_get; [apply Ha1|]. rewrite has_clear_other by done. destruct (has c CLIENT_UNBLOCKED) eqn:HB; cbn [negb].
  - apply (wp_put_at st1 k c _ P f); [done|]. intros st2 O2 Ha2 W2 X2. eexists. split_and!; [by etransitivity|eapply at_ext; [exact Ha2|]|done|by apply but_clear|by rewrite has_clear_other|congruence..].
    intros q. by case_decide; subst.
  - eapply wp_bind, (wp_put_at st1 k c _ P f); [done|]. intros st2 O2 Ha2 W2 X2. eapply (wp_add_at st2 k _ P Unblocked f _ Ha2); [done|]. intros st3 O3 Ha3 W3 X3.
    eexists. split_and!; [etransitivity; [exact O1|]; by etransitivity; [exact O2|]|exact Ha3|done|by eapply but_trans; [apply (but_clear _ c CLIENT_BLOCKED)|apply but_set]|by apply has_set|congruence..].
Qed.

Definition LINK_FLAGS : Z := Z.lor CLIENT_PENDING_WRITE CLIENT_UNBLOCKED.
Definition unlinked (P : queue -> bool) (q : queue) : bool := match q with Clients | PendingWrite | Unblocked => false | _ => P q end.

(** The part of [unlinkClient] that closes the connection. *)
Lemma disconnect_ok st k c P : at_ st k c P -> P Clients = negb (fd c =? -1) ->
  wp (if negb (fd c =? -1) then
      _ ← list_remove Clients k;
      _ ← modify (fun st => set_ae st (ae_read st ∖ {[ fd c ]}) (ae_write st ∖ {[ fd c ]}));
      _ ← modify (fun st => set_world st (sys_close (world st) (fd c)) 0);
      put k (with_conn c (-1) (flags c))
    else mret tt) (fun _ st' => only k (fd c) st st' /\ at_ st' k (with_conn c (-1) (flags c)) (off P Clients) /\ (fd c <> -1 -> fd c ∉ ae_write st') /\ master st' = master st) st.
Proof.
  intros Ha HC. destruct (Z.eqb_spec (fd c) (-1)) as [E|E]; cbn [negb] in *.
  - apply wp_ret. split_and!; try done. rewrite <- E. replace (with_conn c (fd c) (flags c)) with c by (by destruct c). eapply at_ext; [exact Ha|]. intros q. unfold off. by case_decide; subst.
  - apply wp_bind, (wp_remove_at st k c P Clients (fd c)); [done|done|]. intros st1 O1 Ha1 W1 X1. apply wp_bind, wp_modify, wp_bind, wp_modify. eapply wp_put; [apply Ha1|].
    split_and!.
    + etransitivity; [exact O1|]. etransitivity; [|apply only_put]. etransitivity; [|apply only_close]. constructor; try done; cbn; set_solver.
    + apply at_put with c. exact Ha1.
    + intros _. cbn. set_solver.
    + exact X1.
Qed.

Lemma leave_ok st k c P q g f : at_ st k c P -> P q = has c g -> (q = PendingWrite /\ g = CLIENT_PENDING_WRITE \/ q = Unblocked /\ g = CLIENT_UNBLOCKED) ->
  wp (if has c g then _ ← list_remove q k; put k (clear_flag c g) else mret tt)
    (fun _ st' => exists c', only k f st st' /\ at_ st' k c' (off P q) /\ fd c' = fd c /\ but LINK_FLAGS c c' /\ has c' g = false /\
      (forall h, Z.land (Z.lnot g) h = h -> has c' h = has c h) /\ ae_write st' = ae_write st /\ master st' = master st) st.
Proof.
  intros Ha HP Hq. destruct (has c g) eqn:Hg.
  - apply wp_bind, (wp_remove_at st k c P q f); [done|done|]. intros st1 O1 Ha1 W1 X1. apply (wp_put_at st1 k c _ (off P q) f); [done|]. intros st2 O2 Ha2 W2 X2. eexists.
    split_and!; [by etransitivity|exact Ha2|done|apply but_clear; by destruct Hq as [[_ ->]|[_ ->]]|apply has_clear; by destruct Hq as [[_ ->]|[_ ->]]|intros; by apply has_clear_other|congruence..].
  - apply wp_ret. exists c. split_and!; try done. eapply at_ext; [exact Ha|]. intros r. unfold off. by case_decide; subst.
Qed.

Lemma unlinkClient_ok st k c P : at_ st k c P -> P Clients = negb (fd c =? -1) -> P PendingWrite = has c CLIENT_PENDING_WRITE -> P Unblocked = has c CLIENT_UNBLOCKED ->
  wp (unlinkClient k) (fun _ st' => exists c', only k (fd c) st st' /\ at_ st' k c' (unlinked P) /\ fd c' = -1 /\ but LINK_FLAGS c c' /\
    has c' CLIENT_PENDING_WRITE = false /\ has c' CLIENT_UNBLOCKED = false /\ (fd c <> -1 -> fd c ∉ ae_write st') /\ master st' = master st) st.
Proof.
  intros Ha HC HP HU. unfold unlinkClient. apply wp_bind, wp_gets.
  apply wp_step with (P := fun _ st' => only k (fd c) st st' /\ at_ st' k c P /\ master st' = master st).
  { case_match; [apply wp_modify|apply wp_ret]; split_and!; try done. }
  intros _ st1 (O1 & Ha1 & X1). eapply wp_bind, wp_get; [apply Ha1|]. eapply wp_step; [by apply (disconnect_ok st1 k c P)|]. cbn beta. intros _ st2 (O2 & Ha2 & F2 & X2).
  eapply wp_bind, wp_get; [apply Ha2|]. eapply wp_step; [apply (leave_ok st2 k _ _ PendingWrite CLIENT_PENDING_WRITE (fd c) Ha2); [exact HP|by left]|]. cbn beta. intros _ st3 (c3 & O3 & Ha3 & F3 & B3 & N3 & K3 & W3 & X3).
  eapply wp_bind, wp_get; [apply Ha3|]. eapply wp_mono; [apply (leave_ok st3 k _ _ Unblocked CLIENT_UNBLOCKED (fd c) Ha3); [|by right]|].
  { rewrite K3 by done. exact HU. }
  cbn beta. intros _ st4 (c4 & O4 & Ha4 & F4 & B4 & N4 & K4 & W4 & X4). exists c4. split_and!.
  - etransitivity; [exact O1|]. etransitivity; [exact O2|]. by etransitivity; [exact O3|].
  - eapply at_ext; [exact Ha4|]. by intros [].
  - by rewrite F4, F3.
  - apply (but_trans _ c c3); [|done]. apply (but_trans _ _ _ _ (but_refl _ _) B3).
  - by rewrite K4.
  - done.
  - rewrite W4, W3. exact F2.
  - congruence.
Qed.
Definition CACHE_FLAGS : Z := Z.lor LINK_FLAGS (Z.lor (Z.lor (Z.lor CLIENT_MULTI CLIENT_DIRTY_CAS) CLIENT_DIRTY_EXEC)
  (Z.lor CLIENT_ASKING (Z.lor CLIENT_REPLY_SKIP CLIENT_REPLY_SKIP_NEXT))).

(** The lists agree with the flags; [clients_to_close] may hold more. *)
Definition agrees (P : queue -> bool) (c : client) : Prop :=
  (forall q, q <> ToClose -> P q = in_queue c q) /\ (has c CLIENT_CLOSE_ASAP = true -> P ToClose = true).

(** A lost master that is kept. *)
Record cached (k : nat) st (c : client) (P : queue -> bool) st' (c' : client) : Prop := {
  ca_at : at_ st' k c' (unlinked P);
  ca_fd : fd c' = -1;
  ca_but : but CACHE_FLAGS c c';
  ca_flags : has c' CLIENT_PENDING_WRITE = false /\ has c' CLIENT_UNBLOCKED = false;
  ca_master : has c CLIENT_MASTER = true /\ has c CLIENT_CLOSE_ASAP = false;
  ca_output : reply c' = [] /\ bufpos c' = 0 }.

(** The client is gone, but for a place in [clients_to_close] its flag does not tell. *)
Definition to_close_left (P : queue -> bool) (c : client) (q : queue) : bool :=
  match q with ToClose => P ToClose && negb (has c CLIENT_CLOSE_ASAP) | _ => false end.

Definition freed (k : nat) st (c : client) (P : queue -> bool) st' : Prop :=
  only k (fd c) st st' /\ (fd c <> -1 -> fd c ∉ ae_write st') /\
  (nodups st' /\ mem st' !! k = None /\ on st' k (to_close_left P c) \/ exists c', cached k st c P st' c').

Lemma resetClient_ok st k c P f : at_ st k c P -> wp (resetClient k) (fun _ st' => exists c', only k f st st' /\ at_ st' k c' P /\ ae_write st' = ae_write st /\ master st' = master st /\
  fd c' = fd c /\ but CACHE_FLAGS c c' /\ has c' CLIENT_PENDING_WRITE = has c CLIENT_PENDING_WRITE /\ has c' CLIENT_UNBLOCKED = has c CLIENT_UNBLOCKED /\ reply c' = reply c /\ bufpos c' = bufpos c) st.
Proof.
  intros Ha. unfold resetClient. eapply wp_bind, wp_get; [apply Ha|]. set (c1 := if negb (has c CLIENT_MULTI) && negb (asking c) then clear_flag c CLIENT_ASKING else c). set (c2 := clear_flag c1 CLIENT_REPLY_SKIP).
  set (c3 := if has c2 CLIENT_REPLY_SKIP_NEXT then clear_flag (set_flag c2 CLIENT_REPLY_SKIP) CLIENT_REPLY_SKIP_NEXT else c2). apply (wp_put_at st k c c3 P f); [done|]. intros st' O' Ha' W' X'. exists c3.
  assert (but (Z.lor CLIENT_ASKING (Z.lor CLIENT_REPLY_SKIP CLIENT_REPLY_SKIP_NEXT)) c c3) as Hbut.
  { apply (but_trans _ c c1); [subst c1; case_match; [by apply but_clear|done]|]. apply (but_trans _ c1 c2); [by apply but_clear|]. subst c3. case_match; [|done]. eapply but_trans; [apply (but_set _ c2 CLIENT_REPLY_SKIP)|apply but_clear]; done. }
  split_and!; try done; try (by apply (but_has _ _ _ _ Hbut)); try (subst c3 c2 c1; by repeat case_match). by apply (but_weaken _ _ _ _ Hbut).
Qed.

Lemma discardTransaction_ok st k c P f : at_ st k c P -> wp (discardTransaction k) (fun _ st' => exists c', only k f st st' /\ at_ st' k c' P /\ ae_write st' = ae_write st /\ master st' = master st /\
  fd c' = fd c /\ but CACHE_FLAGS c c' /\ has c' CLIENT_PENDING_WRITE = has c CLIENT_PENDING_WRITE /\ has c' CLIENT_UNBLOCKED = has c CLIENT_UNBLOCKED) st.
Proof.
  intros Ha. unfold discardTransaction. apply wp_bind, (wp_call_at _ _ k f). intros st1 O1 M1 Q1 W1 X1. pose proof (at_same _ _ _ _ _ Ha M1 Q1) as Ha1.
  eapply wp_bind, wp_get; [apply Ha1|]. eapply wp_bind, (wp_put_at st1 k c _ P f); [done|]. intros st2 O2 Ha2 W2 X2. apply (wp_call_at _ _ k f). intros st3 O3 M3 Q3 W3 X3. pose proof (at_same _ _ _ _ _ Ha2 M3 Q3) as Ha3.
  eexists. split_and!; [etransitivity; [exact O1|]; by etransitivity; [exact O2|]|exact Ha3|congruence|congruence|done|by apply but_clear|by rewrite has_clear_other|by rewrite has_clear_other].
Qed.

Lemma cacheMaster_ok st k c P : at_ st k c P -> agrees P c -> master st <> None -> cached_master st = None -> has c CLIENT_MASTER = true -> has c CLIENT_CLOSE_ASAP = false ->
  wp (replicationCacheMaster k) (fun _ st' => freed k st c P st') st.
Proof.
  intros Ha [HP _] Hm Hc HM HA. unfold replicationCacheMaster. apply wp_bind, wp_gets, wp_bind, wp_gets. eapply wp_bind, wp_lift; [by rewrite bool_decide_eq_true_2, bool_decide_eq_true_2|].
  eapply wp_step; [apply (unlinkClient_ok st k c P Ha); by apply HP|]. cbn beta. intros _ st1 (c1 & O1 & Ha1 & F1 & B1 & N1 & U1 & W1 & X1).
  eapply wp_bind, wp_get; [apply Ha1|].
  eapply wp_step with (P := fun _ st' => exists c', only k (fd c) st1 st' /\ at_ st' k c' (unlinked P) /\ ae_write st' = ae_write st1 /\ master st' = master st1 /\
    fd c' = -1 /\ but CACHE_FLAGS c1 c' /\ has c' CLIENT_PENDING_WRITE = false /\ has c' CLIENT_UNBLOCKED = false).
  { case_match; [|apply wp_ret; by exists c1]. eapply wp_mono; [by apply (discardTransaction_ok st1 k c1 (unlinked P) (fd c))|]. cbn beta. intros _ st2 (c2 & ? & ? & ? & ? & E & ? & E1 & E2). exists c2. rewrite E, E1, E2. by split_and!. }
  intros _ st2 (c2 & O2 & Ha2 & W2 & X2 & F2 & B2 & N2 & U2). eapply wp_bind, wp_get; [apply Ha2|]. eapply wp_bind, (wp_put_at st2 k c2 _ (unlinked P) (fd c)); [done|]. intros st3 O3 Ha3 W3 X3.
  eapply wp_step; [by eapply (resetClient_ok st3 k _ (unlinked P) (fd c))|]. cbn beta. intros _ st4 (c4 & O4 & Ha4 & W4 & X4 & F4 & B4 & N4 & U4 & R4 & P4). apply wp_bind, wp_modify, wp_modify.
  split_and!.
  - etransitivity; [exact O1|]. etransitivity; [exact O2|]. etransitivity; [exact O3|]. etransitivity; [exact O4|]. by constructor.
  - cbn. rewrite W4, W3, W2. exact W1.
  - right. exists c4. constructor; try done.
    + by rewrite F4.
    + apply (but_trans _ c c1); [by apply (but_weaken _ _ _ _ B1)|]. by apply (but_trans _ c1 c2).
    + by rewrite N4, U4.
Qed.
(** The slave's place in its list. *)
Lemma drop_slave_ok st k c P f : at_ st k c P -> P Slaves = has c CLIENT_SLAVE && negb (has c CLIENT_MONITOR) -> P Monitors = has c CLIENT_SLAVE && has c CLIENT_MONITOR ->
  wp (if has c CLIENT_SLAVE then
      _ ← (if (replstate c =? SLAVE_STATE_SEND_BULK) && negb (repldbfd c =? -1)
           then modify (fun st => set_world st (sys_close (world st) (repldbfd c)) 0) else mret tt);
      _ ← list_remove (if has c CLIENT_MONITOR then Monitors else Slaves) k;
      _ ← modify (fun st => if zlen (qs st Slaves) =? 0 then set_no_slaves st (unixtime st) else st);
      record_call RefreshGoodSlavesCount
    else mret tt)
    (fun _ st' => only k f st st' /\ at_ st' k c (off (off P Slaves) Monitors) /\ ae_write st' = ae_write st /\ master st' = master st) st.
Proof.
  intros Ha HS HM. destruct (has c CLIENT_SLAVE) eqn:ES; cbn [andb] in *.
  - eapply wp_step with (P := fun _ st' => only k f st st' /\ at_ st' k c P /\ ae_write st' = ae_write st /\ master st' = master st).
    { case_match; [apply wp_modify; split_and!; try done; apply only_close|by apply wp_ret]. }
    intros _ st1 (O1 & Ha1 & W1 & X1). eapply wp_bind, (wp_remove_at st1 k c P _ f); [done|by destruct (has c CLIENT_MONITOR)|]. intros st2 O2 Ha2 W2 X2. apply wp_bind, wp_modify.
    set (st3 := if _ =? _ then _ else _). assert (only k f st2 st3 /\ mem st3 = mem st2 /\ qs st3 = qs st2 /\ ae_write st3 = ae_write st2 /\ master st3 = master st2) as (O3 & M3 & Q3 & W3 & X3) by (subst st3; destruct (zlen (qs st2 Slaves) =? 0); split_and!; try done; by constructor).
    apply (wp_call_at _ _ k f). intros st4 O4 M4 Q4 W4 X4. split_and!; [|apply (at_same st2); [|by rewrite M4, M3|by rewrite Q4, Q3]|congruence..].
    + etransitivity; [exact O1|]. etransitivity; [exact O2|]. by etransitivity; [exact O3|].
    + eapply at_ext; [exact Ha2|]. intros q. unfold off. destruct (has c CLIENT_MONITOR), q; cbn; done.
  - apply wp_ret. split_and!; try done. eapply at_ext; [exact Ha|]. by intros [].
Qed.

Lemma freeClient_ok st k c P : at_ st k c P -> agrees P c -> (master st <> None -> cached_master st = None) -> wp (freeClient k) (fun _ st' => freed k st c P st') st.
Proof.
  intros Ha Hag Hm. unfold freeClient. eapply wp_bind, wp_get; [apply Ha|]. apply wp_bind, wp_gets. match goal with |- wp (if ?b then _ else _) _ _ => destruct b eqn:Hc end.
  { apply andb_true_iff in Hc as [[Hm1%bool_decide_eq_true HM]%andb_true_iff Hf%negb_true_iff]. apply cacheMaster_ok; auto.
    destruct (has c CLIENT_CLOSE_ASAP) eqn:E; [|done]. unfold has in Hf, E. apply negb_false_iff, Z.eqb_eq in Hf. rewrite !Z.land_lor_distr_r in Hf. apply Z.lor_eq_0_iff in Hf as [[_ Hf]%Z.lor_eq_0_iff _]. by rewrite Hf in E. }
  clear Hc. destruct Hag as [HP HA].
  eapply wp_step with (P := fun _ st' => exists c' P', only k (fd c) st st' /\ at_ st' k c' P' /\ fd c' = fd c /\ but UNBLOCK_FLAGS c c' /\ P' Unblocked = has c' CLIENT_UNBLOCKED /\ (forall q, q <> Unblocked -> P' q = P q)).
  { case_match; [|apply wp_ret; exists c, P; split_and!; try done; by apply HP]. eapply wp_mono; [apply (unblockClient_ok st k c P (fd c) Ha); by apply HP|]. cbn beta. intros _ st1 (c1 & O1 & Ha1 & F1 & B1 & U1 & _). eexists c1, _. split_and!; [done|exact Ha1|done..|by rewrite U1|]. intros q Hq. cbn beta. by rewrite decide_False. }
  intros _ st1 (c1 & P1 & O1 & Ha1 & F1 & B1 & U1 & E1). apply wp_bind, (wp_call_at _ _ k (fd c)). intros st2 O2 M2 Q2 W2 X2. pose proof (at_same _ _ _ _ _ Ha1 M2 Q2) as Ha2.
  apply wp_bind, (wp_call_at _ _ k (fd c)). intros st3 O3 M3 Q3 W3 X3. pose proof (at_same _ _ _ _ _ Ha2 M3 Q3) as Ha3.
  assert (forall g, Z.land (Z.lnot UNBLOCK_FLAGS) g = g -> has c1 g = has c g) as K1 by (intros; by apply (but_has _ _ _ _ B1)).
  eapply wp_step; [apply (unlinkClient_ok st3 k c1 P1 Ha3); [rewrite E1, F1 by done; by apply HP|rewrite E1, K1 by done; by apply HP|done]|]. cbn beta. rewrite F1. intros _ st4 (c4 & O4 & Ha4 & F4 & B4 & N4 & U4 & W4 & X4).
  assert (forall g, Z.land (Z.lnot LINK_FLAGS) g = g -> Z.land (Z.lnot UNBLOCK_FLAGS) g = g -> has c4 g = has c g) as K4 by (intros; rewrite <- K1 by done; by apply (but_has _ _ _ _ B4)).
  eapply wp_bind, wp_get; [apply Ha4|]. eapply wp_step; [apply (drop_slave_ok st4 k c4 (unlinked P1) (fd c) Ha4); cbn [unlinked]; rewrite E1, !K4 by done; by apply HP|]. cbn beta. intros _ st5 (O5 & Ha5 & W5 & X5).
  eapply wp_step with (P := fun _ st' => only k (fd c) st5 st' /\ at_ st' k c4 (off (off (unlinked P1) Slaves) Monitors) /\ ae_write st' = ae_write st5).
  { destruct (has c4 CLIENT_MASTER); [apply wp_modify|apply wp_ret]; split_and!; try done; by constructor. }
  intros _ st6 (O6 & Ha6 & W6).
  eapply wp_step with (P := fun _ st' => only k (fd c) st6 st' /\ at_ st' k c4 (to_close_left P c) /\ ae_write st' = ae_write st6).
  { rewrite K4 by done. destruct (has c CLIENT_CLOSE_ASAP) eqn:EA.
    - eapply (wp_remove_at st6 k c4 _ ToClose (fd c) _ Ha6); [unfold off, unlinked; cbn; rewrite E1 by done; auto|]. intros st7 O7 Ha7 W7 X7. split_and!; try done. eapply at_ext; [exact Ha7|]. unfold to_close_left, off, unlinked. intros []; cbn; rewrite ?EA, ?andb_false_r; done.
    - apply wp_ret. split_and!; try done. eapply at_ext; [exact Ha6|]. unfold to_close_left, off, unlinked. intros []; cbn; rewrite ?EA, ?andb_true_r; try done. by apply E1. }
  intros _ st7 (O7 & Ha7 & W7). apply wp_modify. split_and!.
  - etransitivity; [exact O1|]. etransitivity; [exact O2|]. etransitivity; [exact O3|]. etransitivity; [exact O4|]. etransitivity; [exact O5|]. etransitivity; [exact O6|]. etransitivity; [exact O7|]. constructor; try done. constructor; try done. intros j Hj. cbn. by rewrite lookup_delete_ne.
  - cbn. rewrite W7, W6, W5. exact W4.
  - left. split_and!; [apply Ha7|cbn; apply lookup_delete_eq|apply Ha7].
Qed.
End Closing.
End ReplyClose.
