(* ===== verification/ReplyApi.v ===== *)
(** * The output of a server ([Reply]): what clients receive

    The invariant of the server between two events of its loop, what every event does to
    every client, and the theorems: clients receive their replies in order and nothing else
    in between, output never waits without somebody to send it, and it is sent in the end
    if the socket keeps taking bytes. *)
From stdpp Require Import gmap.
From S2P Require Import Prelude StateM Util Object Db DbOps Networking Reply ReplyOps ReplyClose.

Module ReplyApi.
Import Object Reply ReplyOps ReplyClose.
Import Networking (CLIENT_SLAVE, CLIENT_MASTER, CLIENT_MULTI, CLIENT_BLOCKED, CLIENT_CLOSE_AFTER_REPLY, CLIENT_CLOSE_ASAP,
  CLIENT_ASKING, CLIENT_REPLY_SKIP_NEXT, CLIENT_REPLY_SKIP).
Import Db (crlf, one_line, reply_nullbulk).

Section Server.
Context {W : Type} `{!Sockets W} `{!SocketLaws W}.
Implicit Types st : server W.
Context (maxmemory : Z).

(** ** The invariant between events *)

Record client_ok st (k : nat) (c : client) : Prop := {
  co_base : base_ok st k c;
  co_sched : scheduled st c;
  co_holes : talks c = true -> holes (reply c) = [];
  co_master : has c CLIENT_MASTER = true -> has c LUA_MODULE = false }.

Record wf st : Prop := {
  wf_client : forall k c, mem st !! k = Some c -> client_ok st k c;
  wf_qs : forall q k, k ∈ qs st q -> is_Some (mem st !! k);
  wf_nodups : nodups st;
  wf_fds : forall j k c d, mem st !! j = Some c -> mem st !! k = Some d -> fd c = fd d -> fd c <> -1 -> j = k;
  wf_ae : forall f, f ∈ ae_write st -> f <> -1 /\ exists k c, mem st !! k = Some c /\ fd c = f;
  wf_master : master st <> None -> cached_master st = None }.

(** Only client [k], its places and the handler of its descriptor [f] change. *)
Record frame (k : nat) (f : Z) st st' : Prop := {
  fr_touches : touches k st st';
  fr_ae : forall g, g <> f -> g ∈ ae_write st' <-> g ∈ ae_write st;
  fr_master : (master st <> None -> cached_master st = None) -> master st' <> None -> cached_master st' = None }.

#[global] Instance frame_refl k f : Reflexive (frame k f).
Proof. by constructor. Qed.
#[global] Instance frame_trans k f : Transitive (frame k f).
Proof. intros a b c [] []. constructor; auto; [by etransitivity|]. intros g Hg. rewrite fr_ae1 by done. auto. Qed.

Lemma frame_appended k f st c x st' c' : appended k st c x st' c' -> frame k f st st'.
Proof. intros [? (E1 & E2 & E3 & E4) ? ? ? ? ? ?]. constructor; [done|by rewrite E1|by rewrite E3, E4]. Qed.
Lemma frame_only k f st st' : only k f st st' -> frame k f st st'.
Proof. intros []. constructor; [done| |done]. intros g Hg. split; auto. Qed.

Lemma wf_mono nx nx' c : (nx <= nx')%nat -> c_wf nx c -> c_wf nx' c.
Proof. intros Hn [? ? ? ? [? Hi]]. constructor; try done. split; [done|]. eapply list.Forall_impl; [exact Hi|]. cbn. lia. Qed.

Lemma client_ok_frame k f st st' j d : frame k f st st' -> j <> k -> (fd d <> f \/ fd d = -1) -> client_ok st j d -> client_ok st' j d.
Proof.
  intros [[T1 T2 T3 T4] A M] Hj Hf [[B1 B2 B3] S H Ma]. constructor; [|..]; try done.
  - constructor; [|intros q; rewrite <- B2; by apply T2|done]. intros Ht. by eapply wf_mono, B1.
  - intros Hp Hse. destruct (S Hp Hse) as [?|[?|?]]; [by left| |by right; right]. right; left. apply A; [|done].
    destruct Hf as [?|E]; [done|]. exfalso. unfold sendable in Hse. rewrite E in Hse. done.
Qed.

(** After an operation on client [k] it remains to look at [k]. *)
Lemma wf_frame k c st st' : wf st -> mem st !! k = Some c -> frame k (fd c) st st' ->
  match mem st' !! k with Some c' => client_ok st' k c' /\ (fd c' = fd c \/ fd c' = -1) | None => forall q, k ∉ qs st' q end ->
  (fd c ∈ ae_write st' -> fd c <> -1 /\ exists c', mem st' !! k = Some c' /\ fd c' = fd c) -> wf st'.
Proof.
  intros [C Q N F A M] Hk HF Hl Hae. pose proof HF as [[T1 T2 T3 T4] A' M'].
  assert (forall j d, j <> k -> mem st' !! j = Some d -> mem st !! j = Some d) as Hother by (intros j d Hj; by rewrite T1).
  assert (forall d, mem st' !! k = Some d -> client_ok st' k d /\ (fd d = fd c \/ fd d = -1)) as Hlk by (intros d Hd; by rewrite Hd in Hl).
  constructor; auto.
  - intros j d Hd. destruct (decide (j = k)) as [->|Hj]; [by apply Hlk|]. pose proof (Hother j d Hj Hd) as Hd'. eapply client_ok_frame; eauto. destruct (decide (fd d = -1)) as [?|Hn]; [by right|left]. intros E. apply Hj. by eapply F.
  - intros q j Hj. destruct (decide (j = k)) as [->|Hne]; [|rewrite T1 by done; eapply Q; by apply (T2 q)]. destruct (mem st' !! k); [done|]. by destruct (Hl q).
  - intros q. apply T3, N.
  - intros i j ci cj Hi Hj E Hn. destruct (decide (i = k)) as [->|Hik]; destruct (decide (j = k)) as [->|Hjk]; [done| | |by eapply F; eauto].
    + destruct (Hlk ci Hi) as [_ [E'|E']]; [|done]. eapply (F k j c cj); eauto; congruence.
    + destruct (Hlk cj Hj) as [_ [E'|E']]; [|congruence]. symmetry. eapply (F k i c ci); eauto; congruence.
  - intros f Hf. destruct (decide (f = fd c)) as [->|Hne]; [destruct (Hae Hf) as (? & c' & ? & ?); eauto|]. apply A' in Hf; [|done]. destruct (A f Hf) as [Hn (j & d & Hj & Ed)]. split; [done|].
    exists j, d. split; [|done]. rewrite T1; [done|]. intros ->. congruence.
Qed.
(** ** Writing to a client *)

(** [good] sockets stay good; they do not fail on [f], and [f] can be watched. *)
Definition steady (good : W -> Prop) : Prop := (forall w f, good w -> good (sys_close w f)) /\ (forall f, keeps good (fun _ => True) f).
Definition calm (good : W -> Prop) (f : Z) : Prop := steady good /\ keeps good (fun r => r <> WriteError) f /\ forall w, good w -> ae_create_ok w f = true.
Context (good : W -> Prop).

Lemma closes_received w w' g : closes w w' -> received w' g = received w g.
Proof. induction 1 as [|w f w' _ IH]; [done|]. by rewrite IH, close_received. Qed.
Lemma closes_good w w' : steady good -> closes w w' -> good w -> good w'.
Proof. intros [Hs _]. induction 1; auto. Qed.

(** The client has lost its connection: it is gone, or kept as a master to come back to. *)
Definition gone st (k : nat) : Prop :=
  match mem st !! k with None => forall q, k ∉ qs st q | Some c' => client_ok st k c' /\ fd c' = -1 end.

Lemma cached_ok k st c P st' c' st2 Q : cached k st c P st' c' -> (has c CLIENT_MASTER = true -> has c LUA_MODULE = false) -> at_ st2 k c' Q -> (forall q, Q q = in_queue c' q) -> client_ok st2 k c'.
Proof.
  intros [_ Ef Hb [Hp Hu] [HM HA] _] Hma (_ & O & _) EQ. assert (has c' LUA_MODULE = false) as HL by (rewrite (but_has _ _ _ _ Hb) by done; auto).
  constructor; [constructor| | |done].
  - unfold talks. by rewrite Ef, HL.
  - intros q. by rewrite (O q), EQ.
  - by rewrite Hp.
  - intros _ Hse. unfold sendable in Hse. by rewrite Ef in Hse.
  - unfold talks. by rewrite Ef, HL.
Qed.

Lemma cached_queues k st c P st' c' q : cached k st c P st' c' -> q <> ToClose -> P q = in_queue c q -> unlinked P q = in_queue c' q.
Proof. intros [_ Ef Hb [Hp Hu] _ _] Hq HP. destruct q; cbn in *; rewrite ?HP, ?Ef, ?Hp, ?Hu, ?(but_has _ _ _ _ Hb) by done; done. Qed.

Lemma freed_gone k st c st' : freed k st c (in_queue c) st' -> (has c CLIENT_MASTER = true -> has c LUA_MODULE = false) -> gone st' k.
Proof.
  intros (_ & _ & [(_ & Hk & Ho)|(c' & HC)]) Hma; unfold gone.
  - rewrite Hk. intros q Hq%Ho. destruct q; try done. cbn in Hq. by destruct (has c CLIENT_CLOSE_ASAP).
  - pose proof (ca_at _ _ _ _ _ _ HC) as Ha. rewrite (proj2 (proj2 Ha)). split; [|apply HC]. eapply cached_ok; eauto. intros q. destruct (decide (q = ToClose)) as [->|Hq]; [|by eapply cached_queues]. cbn. by rewrite (but_has _ _ _ _ (ca_but _ _ _ _ _ _ HC)).
Qed.

(** What a write leaves of a client that keeps its connection. *)
Record wrote (k : nat) st (c : client) st' (c' : client) : Prop := {
  wr_frame : frame k (fd c) st st';
  wr_at : at_ st' k c' (in_queue c);
  wr_conn : conn c' = conn c;
  wr_wf : c_wf (next st') c';
  wr_holes : holes (reply c') = [];
  wr_stream : received (world st') (fd c) ++ output c' = received (world st) (fd c) ++ output c;
  wr_others : forall g, g <> fd c -> received (world st') g = received (world st) g;
  wr_bytes : reply_bytes c' <= reply_bytes c;
  wr_len : zlen (output c') <= zlen (output c);
  wr_ae : fd c ∈ ae_write st -> fd c ∈ ae_write st' \/ clientHasPendingReplies c' = false;
  wr_sub : fd c ∈ ae_write st' -> fd c ∈ ae_write st;
  wr_progress : writable (world st) (fd c) -> clientHasPendingReplies c' = false \/ zlen (output c') < zlen (output c);
  wr_idle : clientHasPendingReplies c = false -> clientHasPendingReplies c' = false;
  wr_good : steady good -> good (world st) -> good (world st') }.

(** The connection was lost: after an error, or when all was sent. *)
Record lost (k : nat) st (c : client) st' : Prop := {
  lo_frame : frame k (fd c) st st';
  lo_ae : fd c ∉ ae_write st';
  lo_gone : gone st' k;
  lo_stream : exists y, received (world st') (fd c) ++ y = received (world st) (fd c) ++ output c;
  lo_others : forall g, g <> fd c -> received (world st') g = received (world st) g;
  lo_all : calm good (fd c) -> good (world st) -> received (world st') (fd c) = received (world st) (fd c) ++ output c;
  lo_good : steady good -> good (world st) -> good (world st') }.

Lemma frame_put k f st c : frame k f st (set_mem st (<[k := c]> (mem st))).
Proof. apply frame_only, only_put. Qed.

Lemma in_queue_conn c c' q : conn c' = conn c -> in_queue c' q = in_queue c q.
Proof. unfold conn. intros [= E1 E2 E3 E4 E5 E6 E7]. destruct q; cbn; unfold has; by rewrite ?E1, ?E2. Qed.

(** Freeing the client after writing to it. *)
Lemma lose_ok k st c st1 c1 : wrote k st c st1 c1 -> (has c CLIENT_MASTER = true -> has c LUA_MODULE = false) -> fd c <> -1 -> (master st <> None -> cached_master st = None) ->
  (calm good (fd c) -> good (world st) -> output c1 = []) -> wp (freeClient k) (fun _ st' => lost k st c st') st1.
Proof.
  intros [Hf Ha Hc _ _ Hs Ho _ _ _ _ _ _ Hg] Hma Hfd Hm Hall. assert (fd c1 = fd c /\ flags c1 = flags c) as [Ef Efl] by (unfold conn in Hc; by injection Hc).
  assert (at_ st1 k c1 (in_queue c1)) as Ha1 by (eapply at_ext; [exact Ha|]; intros q; by rewrite (in_queue_conn _ _ q Hc)).
  eapply wp_mono; [apply (freeClient_ok st1 k c1 (in_queue c1) Ha1)|].
  - by split.
  - by apply (fr_master _ _ _ _ Hf).
  - cbn beta. intros _ st' Hfr. pose proof (freed_gone k st1 c1 st' Hfr) as Hgone. destruct Hfr as (HO & Hae & _). rewrite Ef in *. pose proof (on_world _ _ _ _ HO) as Hcl. constructor.
    + etransitivity; [exact Hf|by apply frame_only].
    + by apply Hae.
    + apply Hgone. unfold has. by rewrite Efl.
    + exists (output c1). by rewrite (closes_received _ _ _ Hcl).
    + intros g Hgf. rewrite (closes_received _ _ _ Hcl). auto.
    + intros Hca Hgo. rewrite (closes_received _ _ _ Hcl), <- Hs, Hall, app_nil_r by done. done.
    + intros Hst Hgo. eapply closes_good; eauto.
Qed.

Lemma wf_drained nx c : c_wf nx c -> clientHasPendingReplies c = false -> c_wf nx (with_sent c 0) /\ output (with_sent c 0) = [] /\ output c = [].
Proof.
  intros Hw Hp. pose proof (cw_pos _ _ Hw) as Hpos. pose proof (out_drained (fun _ => []) c ltac:(lia) Hp) as Ho. apply pending_false in Hp as [E1 E2]; [|lia]. destruct Hw as [? ? [H0 Hs] ? ?]. split_and!; [|unfold output, out; cbn; by rewrite E1, E2, ztake_0 by lia|done].
  constructor; try done. split; [done|]. unfold sent_ok. cbn. rewrite E1, E2. done.
Qed.

Lemma wrote_put k st c st1 c1 c2 : wrote k st c st1 c1 -> conn c2 = conn c1 -> c_wf (next st1) c2 -> holes (reply c2) = [] -> output c2 = output c1 ->
  clientHasPendingReplies c2 = clientHasPendingReplies c1 -> reply_bytes c2 = reply_bytes c1 -> wrote k st c (set_mem st1 (<[k := c2]> (mem st1))) c2.
Proof.
  intros [] Hc Hw Hh Ho Hp Hb. constructor; try done; try congruence; cbn; rewrite ?Ho, ?Hp, ?Hb; try done; [etransitivity; [done|apply frame_put]|by eapply at_put].
Qed.

Lemma wrote_unwatch k st c st1 c1 : wrote k st c st1 c1 -> clientHasPendingReplies c1 = false -> wrote k st c (set_ae st1 (ae_read st1) (ae_write st1 ∖ {[ fd c ]})) c1.
Proof.
  intros [] Hp. constructor; try done; cbn; [etransitivity; [done|]|auto|set_solver]. constructor; try done. cbn. set_solver.
Qed.

(** The loop of [writeToClient]. *)
Lemma loop_wrote k st c : at_ st k c (in_queue c) -> c_wf (next st) c -> holes (reply c) = [] ->
  exists c1 w1 r1 n, write_loop maxmemory (write_fuel c) c (world st) (Written 0) 0 = Ok (c1, w1, r1, n) /\
    wrote k st c (set_world (set_mem st (<[k := c1]> (mem st))) w1 n) c1 /\ (calm good (fd c) -> good (world st) -> r1 <> WriteError).
Proof.
  intros Ha Hw Hh. pose proof (write_fuel_enough _ _ Hw Hh) as Hfuel. destruct (client_write_loop_ok (next st) maxmemory (write_fuel c) c (world st) (Written 0) 0 Hw Hh Hfuel) as (c1 & w1 & r1 & n & E & HS).
  exists c1, w1, r1, (0 + n). split; [done|]. assert (Written 0 <> WriteError) as Hw0 by done. pose proof (fun Hwr => write_loop_progress _ _ _ _ _ _ _ _ _ _ _ Hw Hh Hfuel Hwr E) as Hprog.
  split; [|intros (_ & Hk & _) Hgo; exact (proj2 (write_loop_keeps good (fun r => r <> WriteError) _ _ _ _ _ _ _ _ _ _ Hk Hgo Hw0 E))].
  destruct HS as (S1 & S2 & S3 & S4 & S5 & S6 & S7 & S8 & S9). constructor; try done.
  - etransitivity; [apply (frame_put k (fd c) st c1)|]. by constructor.
  - by apply (at_put st k c).
  - exact (f_equal (fun t => t.1.1) S3).
  - lia.
  - by left.
  - intros Hp. unfold write_fuel in E. cbn [write_loop] in E. rewrite Hp in E. by injection E as <- _ _ _.
  - intros [_ Hs] Hgo. exact (proj1 (write_loop_keeps good (fun _ => True) _ _ _ _ _ _ _ _ _ _ (Hs (fd c)) Hgo I E)).
Qed.

Lemma writeToClient_ok k hi st c : at_ st k c (in_queue c) -> c_wf (next st) c -> holes (reply c) = [] -> fd c <> -1 -> (has c CLIENT_MASTER = true -> has c LUA_MODULE = false) ->
  (master st <> None -> cached_master st = None) ->
  wp (writeToClient maxmemory k hi) (fun ok st' => if ok : bool then exists c', wrote k st c st' c' else lost k st c st') st.
Proof.
  intros Ha Hw Hh Hfd Hma Hm. unfold writeToClient. eapply wp_bind, wp_get; [apply Ha|]. apply wp_bind, wp_gets.
  destruct (loop_wrote k st c Ha Hw Hh) as (c1 & w1 & r1 & n & E & HW & Hr1). eapply wp_bind, wp_lift; [exact E|]. cbn iota beta. clear E. eapply wp_bind, wp_put; [apply Ha|]. apply wp_bind, wp_modify. set (st1 := set_world _ _ _) in *.
  assert (r1 <> WriteError -> wp (now ← gets unixtime;
      let c := if (0 <? n) && negb (has c1 CLIENT_MASTER) then with_times c1 now (obuf_soft_limit_reached_time c1) else c1 in
      _ ← put k c;
      if negb (clientHasPendingReplies c) then
        _ ← put k (with_sent c 0);
        _ ← (if hi then modify (fun st => set_ae st (ae_read st) (ae_write st ∖ {[ fd c ]})) else mret tt);
        if has c CLIENT_CLOSE_AFTER_REPLY then _ ← freeClient k; mret false else mret true
      else mret true) (fun ok st' => if ok : bool then exists c', wrote k st c st' c' else lost k st c st') st1) as Hrest.
  { intros _. apply wp_bind, wp_gets. cbn zeta. set (c2 := if _ : bool then _ else c1). eapply wp_bind, wp_put; [apply HW|].
    assert (wrote k st c (set_mem st1 (<[k := c2]> (mem st1))) c2) as HW2 by (apply (wrote_put _ _ _ _ c1); try done; subst c2; case_match; try done; try apply wf_times; apply HW).
    assert (fd c2 = fd c) as Ef by (pose proof (wr_conn _ _ _ _ _ HW2) as Hc; unfold conn in Hc; by injection Hc). clearbody c2. set (st2 := set_mem st1 _) in *. clearbody st2.
    destruct (clientHasPendingReplies c2) eqn:Hp; cbn [negb]; [apply wp_ret; eauto|]. destruct (wf_drained _ _ (wr_wf _ _ _ _ _ HW2) Hp) as (Hwd & Ho & Ho2).
    eapply wp_bind, wp_put; [apply HW2|]. assert (wrote k st c (set_mem st2 (<[k := with_sent c2 0]> (mem st2))) (with_sent c2 0)) as HW3 by (apply (wrote_put _ _ _ _ c2); try done; [apply HW2|congruence]).
    eapply wp_step with (P := fun _ st' => wrote k st c st' (with_sent c2 0)).
    { destruct hi; [apply wp_modify; rewrite Ef; by apply wrote_unwatch|by apply wp_ret]. }
    intros _ st3 HW4. case_match; [|apply wp_ret; eauto]. eapply wp_step; [by eapply lose_ok|]. cbn beta. intros _ st4 HL. by apply wp_ret. }
  destruct r1; [by apply Hrest|by apply Hrest|]. eapply wp_step; [eapply lose_ok; eauto; intros Hca Hgo; by destruct (Hr1 Hca Hgo)|]. cbn beta. intros _ st2 H2. by apply wp_ret.
Qed.
(** ** What an event does to every client *)

(** A client that keeps its connection: [x] was added to its output, or nothing ([None]),
    and some of its output was sent. *)
Record stays (x : option (list Z)) st st' (c c' : client) : Prop := {
  sy_conn : same_conn c c';
  sy_stream : received (world st') (fd c) ++ output c' = received (world st) (fd c) ++ output c ++ default [] x;
  sy_bytes : reply_bytes c' <= reply_bytes c + zlen (default [] x);
  sy_len : zlen (output c') <= zlen (output c) + zlen (default [] x);
  sy_ae : x = None -> fd c ∈ ae_write st -> fd c ∈ ae_write st' \/ clientHasPendingReplies c' = false;
  sy_idle : x = None -> clientHasPendingReplies c = false -> clientHasPendingReplies c' = false;
  sy_asap : x = None -> calm good (fd c) -> good (world st) -> has c' CLIENT_CLOSE_ASAP = has c CLIENT_CLOSE_ASAP }.

(** One that loses it: it received a prefix of what it was to be sent, and all of it unless
    it was to be closed or the sockets were not good. *)
Record ends (x : option (list Z)) st st' (k : nat) (c : client) : Prop := {
  en_closed : forall c', mem st' !! k = Some c' -> fd c' = -1;
  en_stream : exists y, received (world st') (fd c) ++ y = received (world st) (fd c) ++ output c ++ default [] x;
  en_why : x = None -> calm good (fd c) -> good (world st) ->
    has c CLIENT_CLOSE_ASAP = true \/ received (world st') (fd c) = received (world st) (fd c) ++ output c }.

Definition fate (x : option (list Z)) st st' (k : nat) (c : client) : Prop :=
  (exists c', mem st' !! k = Some c' /\ stays x st st' c c') \/ ends x st st' k c.

(** [X k] is what the event says to client [k]. *)
Record event (X : nat -> option (list Z)) st st' : Prop := {
  ev_wf : wf st';
  ev_fate : forall k c, mem st !! k = Some c -> fd c <> -1 -> fate (X k) st st' k c;
  ev_mem : forall k c', mem st' !! k = Some c' -> exists c, mem st !! k = Some c /\ (fd c' = fd c \/ fd c' = -1);
  ev_unowned : forall f, f <> -1 -> (forall k c, mem st !! k = Some c -> fd c <> f) -> received (world st') f = received (world st) f;
  ev_good : steady good -> good (world st) -> good (world st') }.

Definition to_one (k : nat) (x : option (list Z)) : nat -> option (list Z) := fun j => if decide (j = k) then x else None.

(** An operation on client [k] that keeps everything else. *)
Lemma event_local k c x st st' : wf st -> wf st' -> mem st !! k = Some c -> frame k (fd c) st st' -> (forall g, g <> fd c -> received (world st') g = received (world st) g) ->
  (fd c <> -1 -> fate x st st' k c) -> (forall c', mem st' !! k = Some c' -> fd c' = fd c \/ fd c' = -1) -> (steady good -> good (world st) -> good (world st')) -> event (to_one k x) st st'.
Proof.
  intros Hw Hw' Hk [[T1 T2 T3 T4] A M] Ho Hfate Hfd Hg. constructor; try done.
  - intros j d Hd Hn. unfold to_one. case_decide as Ej; [subst; rewrite Hk in Hd; injection Hd as <-; auto|]. left. exists d. rewrite T1 by done. split; [done|]. assert (fd d <> fd c) as Hne by (intros E; exact (Ej (wf_fds _ Hw j k d c Hd Hk E Hn))).
    constructor; try done; cbn [default]; [by rewrite Ho, app_nil_r|change (zlen (@nil Z)) with 0; lia..|]. intros _. rewrite A by done. by left.
  - intros j d Hd. destruct (decide (j = k)) as [->|Hj]; [exists c; auto|]. rewrite T1 in Hd by done. eauto.
  - intros f Hf Hun. apply Ho. intros ->. by apply (Hun k c).
Qed.

Lemma event_stays k c x st st' c' : wf st -> mem st !! k = Some c -> frame k (fd c) st st' -> mem st' !! k = Some c' -> base_ok st' k c' -> scheduled st' c' ->
  (talks c' = true -> holes (reply c') = []) -> (fd c ∈ ae_write st' -> fd c <> -1) -> (forall g, g <> fd c -> received (world st') g = received (world st) g) -> stays x st st' c c' ->
  (steady good -> good (world st) -> good (world st')) -> event (to_one k x) st st'.
Proof.
  intros Hw Hk Hf Hk' Hb Hs Hh Hae Ho Hst Hg. pose proof (sy_conn _ _ _ _ _ Hst) as Hc. pose proof (same_fd _ _ Hc) as Ef.
  apply event_local with c; try done; [|by left; exists c'|intros d; rewrite Hk'; intros [= <-]; by left]. apply (wf_frame k c st); try done; [|intros Hi; split; [auto|by exists c']]. rewrite Hk'. split; [|by left].
  constructor; try done. rewrite !(has_same _ _ _ Hc) by done. apply (co_master _ _ _ (wf_client _ Hw k c Hk)).
Qed.

Lemma event_ends k c x st st' : wf st -> mem st !! k = Some c -> frame k (fd c) st st' -> gone st' k -> fd c ∉ ae_write st' -> (forall g, g <> fd c -> received (world st') g = received (world st) g) ->
  ends x st st' k c -> (steady good -> good (world st) -> good (world st')) -> event (to_one k x) st st'.
Proof.
  intros Hw Hk Hf Hgone Hae Ho He Hg. apply event_local with c; try done; [|by right|intros d Hd; right; by apply (en_closed _ _ _ _ _ He)]. apply (wf_frame k c st); try done. unfold gone in Hgone. destruct (mem st' !! k); [|done]. destruct Hgone. auto.
Qed.

Definition comb (a b : option (list Z)) : option (list Z) :=
  match a, b with Some x, Some y => Some (x ++ y) | Some x, None => Some x | None, b => b end.

Lemma default_comb a b : default [] (comb a b) = default [] a ++ default [] b.
Proof. destruct a, b; cbn; by rewrite ?app_nil_r. Qed.
Lemma comb_none a b : comb a b = None -> a = None /\ b = None.
Proof. by destruct a, b. Qed.

Lemma stays_trans x y s1 s2 s3 c1 c2 c3 : stays x s1 s2 c1 c2 -> stays y s2 s3 c2 c3 -> (steady good -> good (world s1) -> good (world s2)) -> stays (comb x y) s1 s3 c1 c3.
Proof.
  intros [A1 A2 A3 A7 A4 A6 A5] [B1 B2 B3 B7 B4 B6 B5] Hg. rewrite (same_fd _ _ A1) in *. constructor.
  - by etransitivity.
  - rewrite default_comb, B2, (app_assoc (output c1)), (app_assoc (received _ _)), A2. by rewrite !app_assoc.
  - rewrite default_comb, zlen_app. lia.
  - rewrite default_comb, zlen_app. lia.
  - intros [-> ->]%comb_none Hi. destruct (A4 eq_refl Hi) as [H2|H2]; [by apply B4|]. right. by apply B6.
  - intros [-> ->]%comb_none Hi. auto.
  - intros [-> ->]%comb_none Hca Hgo. rewrite B5, A5; auto. apply Hg; [apply Hca|done].
Qed.
Lemma unowned_after X s1 s2 f : event X s1 s2 -> f <> -1 -> (forall k c, mem s1 !! k = Some c -> fd c = f -> forall c', mem s2 !! k = Some c' -> fd c' = -1) ->
  forall k c, mem s2 !! k = Some c -> fd c <> f.
Proof. intros He Hf H k c Hc E. destruct (ev_mem _ _ _ He k c Hc) as (c1 & Hc1 & [E1|E1]); [|congruence]. specialize (H k c1 Hc1 ltac:(congruence) c Hc). congruence. Qed.

Lemma event_trans X Y s1 s2 s3 : wf s1 -> event X s1 s2 -> event Y s2 s3 -> event (fun k => comb (X k) (Y k)) s1 s3.
Proof.
  intros Hw H1 H2. constructor.
  - apply H2.
  - intros k c1 Hk Hn. destruct (ev_fate _ _ _ H1 k c1 Hk Hn) as [(c2 & Hk2 & S1)|[E1 [y E2] E3]].
    + pose proof (same_fd _ _ (sy_conn _ _ _ _ _ S1)) as Ef. destruct (ev_fate _ _ _ H2 k c2 Hk2 ltac:(congruence)) as [(c3 & Hk3 & S2)|[F1 [y F2] F3]].
      * left. exists c3. split; [done|]. eapply stays_trans; eauto. apply H1.
      * right. rewrite Ef in *. constructor; [done| |].
        -- exists y. rewrite F2, default_comb, !(app_assoc (received _ _)), (sy_stream _ _ _ _ _ S1). by rewrite !app_assoc.
        -- intros [Ex Ey]%comb_none Hca Hgo. destruct (F3 Ey Hca (ev_good _ _ _ H1 (proj1 Hca) Hgo)) as [Ha|Ha]; [left; by rewrite <- (sy_asap _ _ _ _ _ S1)|right]. by rewrite Ha, (sy_stream _ _ _ _ _ S1), Ex, app_nil_r.
    + right. assert (received (world s3) (fd c1) = received (world s2) (fd c1)) as Er.
      { apply (ev_unowned _ _ _ H2); [done|]. eapply (unowned_after X s1); eauto. intros j d Hd Ed d' Hd'. apply (E1 d'). by rewrite <- (wf_fds _ Hw j k d c1) by congruence. }
      constructor.
      * intros c3 Hk3. destruct (ev_mem _ _ _ H2 k c3 Hk3) as (c2 & Hk2 & [E|E]); [|done]. rewrite E. auto.
      * exists (y ++ default [] (Y k)). by rewrite Er, default_comb, app_assoc, E2, !app_assoc.
      * intros [Ex Ey]%comb_none Hca Hgo. rewrite Er. auto.
  - intros k c3 Hk3. destruct (ev_mem _ _ _ H2 k c3 Hk3) as (c2 & Hk2 & E2). destruct (ev_mem _ _ _ H1 k c2 Hk2) as (c1 & Hk1 & E1). exists c1. split; [done|]. destruct E2 as [E2|E2]; rewrite E2; [done|by right].
  - intros f Hf Hun. rewrite (ev_unowned _ _ _ H2), (ev_unowned _ _ _ H1); try done. eapply (unowned_after X s1); eauto. intros k c Hk E. by destruct (Hun k c).
  - intros Hs Hgo. apply H2; [done|]. by apply H1.
Qed.

Lemma event_ext X Y s1 s2 : event X s1 s2 -> (forall k, X k = Y k) -> event Y s1 s2.
Proof. intros [] E. constructor; try done. intros k c Hk Hn. rewrite <- E. auto. Qed.

Definition quiet : nat -> option (list Z) := fun _ => None.

Lemma event_refl st : wf st -> event quiet st st.
Proof.
  intros Hw. constructor; try done; [|intros k c Hk; eauto]. intros k c Hk Hn. left. exists c. split; [done|]. constructor; try done; cbn; [by rewrite app_nil_r|change (zlen (@nil Z)) with 0; lia..|by left].
Qed.
Lemma quiet_event_trans s1 s2 s3 : wf s1 -> event quiet s1 s2 -> event quiet s2 s3 -> event quiet s1 s3.
Proof. intros Hw H1 H2. apply (event_ext (fun k => comb (quiet k) (quiet k))); [by eapply event_trans|done]. Qed.
Lemma to_one_quiet k s1 s2 : event (to_one k None) s1 s2 -> event quiet s1 s2.
Proof. intros H. apply (event_ext _ _ _ _ H). intros j. unfold to_one. by case_decide. Qed.

(** ** Replies *)

Lemma reply_event k c x y st m : wf st -> mem st !! k = Some c -> speaks k x y m -> (accepts c = true -> reply_bytes c + zlen (said c x y) < MAX_REPLY_BYTES) ->
  wp m (fun _ st' => event (to_one k (Some (said c x y))) st st') st.
Proof.
  intros Hw Hk Hm Hmax. pose proof (wf_client _ Hw k c Hk) as [Hb Hs Hh Hma]. eapply wp_mono; [by apply (Hm st c)|]. cbn beta. intros _ st' (c' & [T (E1 & E2 & E3 & E4) Hk' Hc Hb' Hho Hout Hby] & Hs').
  eapply event_stays; eauto.
  - constructor; [done|by rewrite E1|by rewrite E3, E4].
  - rewrite Hho, (talks_same _ _ Hc). done.
  - rewrite E1. intros Hi. by destruct (wf_ae _ Hw _ Hi).
  - intros g _. by rewrite E2.
  - constructor; try done; cbn [default]; [rewrite E2; f_equal; apply Hout|]. apply Z.eq_le_incl. unfold output. by rewrite Hout, zlen_app.
  - by rewrite E2.
Qed.
(** ** Writes *)

Lemma at_wf st k c : wf st -> mem st !! k = Some c -> at_ st k c (in_queue c).
Proof. intros Hw Hk. split_and!; [apply Hw|exact (bo_qs _ _ _ (co_base _ _ _ (wf_client _ Hw k c Hk)))|done]. Qed.

Lemma connected_talks c : fd c <> -1 -> talks c = true.
Proof. intros H. unfold talks. by rewrite (proj2 (Z.eqb_neq _ _)). Qed.

Lemma wrote_base k st c st' c' : wrote k st c st' c' -> (has c CLIENT_PENDING_WRITE = true -> 0 < fd c) -> base_ok st' k c'.
Proof.
  intros [] Hf. constructor; [done| |].
  - intros q. rewrite (in_queue_conn _ _ q wr_conn0). apply wr_at0.
  - unfold conn in wr_conn0. injection wr_conn0 as E1 E2. unfold has in *. by rewrite E1, E2.
Qed.

Lemma conn_has c c' f : conn c' = conn c -> has c' f = has c f.
Proof. unfold conn, has. by intros [= _ -> _ _ _ _ _]. Qed.

Lemma wrote_stays k st c st' c' : wrote k st c st' c' -> stays None st st' c c'.
Proof.
  intros []. constructor; cbn [default]; try done.
  - by apply same_conn_static.
  - by rewrite app_nil_r.
  - change (zlen (@nil Z)) with 0. lia.
  - change (zlen (@nil Z)) with 0. lia.
  - intros _ _ _. by apply conn_has.
Qed.

Lemma lost_event k c st st' : wf st -> mem st !! k = Some c -> lost k st c st' -> event quiet st st'.
Proof.
  intros Hw Hk []. apply (to_one_quiet k). eapply event_ends; eauto. constructor.
  - intros c' Hk'. unfold gone in lo_gone0. rewrite Hk' in lo_gone0. apply lo_gone0.
  - cbn [default]. by rewrite app_nil_r.
  - intros _ Hca Hgo. right. auto.
Qed.

Lemma write_event k hi c st : wf st -> mem st !! k = Some c -> fd c ∈ ae_write st ->
  wp (writeToClient maxmemory k hi) (fun _ st' => event quiet st st' /\ frame k (fd c) st st' /\ (writable (world st) (fd c) -> forall c', mem st' !! k = Some c' -> fd c' = fd c ->
    clientHasPendingReplies c' = false \/ zlen (output c') < zlen (output c))) st.
Proof.
  intros Hw Hk Hae. destruct (wf_ae _ Hw _ Hae) as [Hn _]. pose proof (wf_client _ Hw k c Hk) as [Hb Hs Hh Hma]. pose proof (connected_talks c Hn) as Ht.
  eapply wp_mono; [apply (writeToClient_ok k hi st c); try done; [by apply at_wf|by apply Hb|auto|apply Hw]|]. cbn beta. intros [] st'.
  - intros (c1 & HW). assert (fd c1 = fd c) as Ef by (pose proof (wr_conn _ _ _ _ _ HW) as Hc; unfold conn in Hc; by injection Hc). split_and!; [|apply HW|].
    + apply (to_one_quiet k), (event_stays k c None st st' c1); try done; try apply HW; [eapply wrote_base; [exact HW|apply Hb]| |intros _; apply HW|by eapply wrote_stays].
      intros Hp Hse. right; left. rewrite Ef. destruct (wr_ae _ _ _ _ _ HW Hae) as [?|?]; [done|congruence].
    + intros Hwr c' Hk' _. destruct (wr_at _ _ _ _ _ HW) as (_ & _ & E). rewrite E in Hk'. injection Hk' as <-. by apply (wr_progress _ _ _ _ _ HW).
  - intros HL. split_and!; [by eapply lost_event|apply HL|]. intros _ c' Hk' Ef. pose proof (lo_gone _ _ _ _ HL) as Hg. unfold gone in Hg. rewrite Hk' in Hg. destruct Hg. congruence.
Qed.
(** The client leaves [clients_pending_write]. *)
Record left (k : nat) st (c : client) st2 (c1 : client) : Prop := {
  le_frame : frame k (fd c) st st2;
  le_at : at_ st2 k c1 (in_queue c1);
  le_wf : c_wf (next st2) c1;
  le_holes : holes (reply c1) = [];
  le_queue : k ∉ qs st2 PendingWrite;
  le_flag : has c1 CLIENT_PENDING_WRITE = false;
  le_output : output c1 = output c;
  le_good : steady good -> good (world st) -> good (world st2);
  le_received : forall g, received (world st2) g = received (world st) g;
  le_stays : stays None st st2 c c1 }.

Lemma leave_pending_ok k c st : wf st -> mem st !! k = Some c -> has c CLIENT_PENDING_WRITE = true -> fd c <> -1 ->
  wp (_ ← put k (clear_flag c CLIENT_PENDING_WRITE); list_remove PendingWrite k) (fun _ st2 => left k st c st2 (clear_flag c CLIENT_PENDING_WRITE)) st.
Proof.
  intros Hw Hk Hp Hn. pose proof (wf_client _ Hw k c Hk) as [Hb Hs Hh Hma]. pose proof (connected_talks c Hn) as Ht. pose proof (at_wf _ _ _ Hw Hk) as Ha. set (c1 := clear_flag c CLIENT_PENDING_WRITE).
  apply wp_bind, (wp_put_at st k c c1 (in_queue c) (fd c)); [done|]. intros st1 O1 A1 W1 X1. eapply (wp_remove_at st1 k c1 (in_queue c) PendingWrite (fd c) _ A1); [done|]. intros st2 O2 A2 W2 X2.
  assert (only k (fd c) st st2) as O by (by etransitivity). pose proof (on_world _ _ _ _ O) as Hcl. assert (forall q, off (in_queue c) PendingWrite q = in_queue c1 q) as Eq.
  { intros q. unfold off, c1. destruct q; cbn; rewrite ?has_clear_other by done; try done. by rewrite has_clear. }
  constructor.
  - by apply frame_only.
  - by eapply at_ext.
  - apply wf_flags. eapply wf_mono; [apply (to_next _ _ _ (on_touches _ _ _ _ O))|by apply Hb].
  - by apply Hh.
  - intros Hi. apply (proj1 (proj2 A2)) in Hi. done.
  - by apply has_clear.
  - done.
  - intros Hst Hgo. eapply closes_good; eauto.
  - intros g. by apply closes_received.
  - constructor; cbn [default]; try done.
    + by apply same_conn_clear.
    + by rewrite (closes_received _ _ _ Hcl), app_nil_r.
    + change (zlen (@nil Z)) with 0. cbn. lia.
    + change (zlen (@nil Z)) with 0. change (output c1) with (output c). lia.
    + intros _ ?. left. by rewrite W2, W1.
    + intros _ _ _. by apply has_clear_other.
Qed.

(** A new write handler, or the client is to be closed. *)
Lemma watch_ok k c st : base_ok st k c -> mem st !! k = Some c -> fd c <> -1 ->
  wp (w ← gets world; if ae_create_ok w (fd c) then modify (fun st => set_ae st (ae_read st) (ae_write st ∪ {[ fd c ]})) else freeClientAsync k)
    (fun _ st' => exists c', frame k (fd c) st st' /\ mem st' !! k = Some c' /\ base_ok st' k c' /\ ready st' c' /\ holes (reply c') = holes (reply c) /\ world st' = world st /\
      (forall j, j ∈ qs st' PendingWrite <-> j ∈ qs st PendingWrite) /\ stays None st st' c c') st.
Proof.
  intros Hb Hk Hn. apply wp_bind, wp_gets. destruct (ae_create_ok (world st) (fd c)) eqn:Hae.
  - apply wp_modify. exists c. split_and!; try done.
    + constructor; try done. cbn. set_solver.
    + destruct Hb. by constructor.
    + intros _. right; left. cbn. set_solver.
    + constructor; try done; cbn; [by rewrite app_nil_r|change (zlen (@nil Z)) with 0; lia..|set_solver].
  - eapply wp_mono; [by apply freeClientAsync_ok|]. cbn beta. intros _ st' (c' & HA & _ & Hasap & Ho & Hp & Hpw). pose proof (ap_conn _ _ _ _ _ _ HA) as Hc. pose proof (ap_env _ _ _ _ _ _ HA) as (E1 & E2 & E3 & E4). exists c'. split_and!; try done; try apply HA.
    + by eapply frame_appended.
    + intros Hse. right; right. apply Hasap. rewrite (sendable_same _ _ Hc) in Hse. unfold sendable in Hse. apply andb_true_iff in Hse as [[_ Hl]%andb_true_iff _]. apply negb_true_iff in Hl. unfold has in *. apply negb_false_iff, Z.eqb_eq in Hl. unfold LUA_MODULE in Hl. rewrite Z.land_lor_distr_r in Hl. apply Z.lor_eq_0_iff in Hl as [-> _]. done.
    + intros j. destruct (decide (j = k)) as [->|Hj]; [|by apply (to_qs _ _ _ (ap_touches _ _ _ _ _ _ HA))]. rewrite (bo_qs _ _ _ (ap_base _ _ _ _ _ _ HA)), (bo_qs _ _ _ Hb). cbn. by rewrite Hpw.
    + constructor; cbn [default]; try done; [by rewrite E2, Ho, app_nil_r|apply HA|rewrite Ho; change (zlen (@nil Z)) with 0; lia|rewrite E1; by left|by rewrite Hp|]. intros _ (_ & _ & Hok) Hgo. by rewrite Hok in Hae.
Qed.
Lemma handle_pending_event k c st : wf st -> mem st !! k = Some c -> has c CLIENT_PENDING_WRITE = true ->
  wp (handle_pending maxmemory k) (fun _ st' => event quiet st st' /\ forall j, j ∈ qs st' PendingWrite <-> j ∈ qs st PendingWrite /\ j <> k) st.
Proof.
  intros Hw Hk Hp. pose proof (wf_client _ Hw k c Hk) as [Hb Hs Hh Hma]. pose proof (bo_fd _ _ _ Hb Hp) as Hfd. assert (fd c <> -1) as Hn by lia.
  unfold handle_pending. eapply wp_bind, wp_get; [exact Hk|]. eapply wp_assoc, wp_step; [by apply leave_pending_ok|]. cbn beta. intros _ st2 HL. set (c1 := clear_flag c CLIENT_PENDING_WRITE) in *.
  assert (forall j st', frame k (fd c) st st' -> k ∉ qs st' PendingWrite -> j ∈ qs st' PendingWrite <-> j ∈ qs st PendingWrite /\ j <> k) as Hq.
  { intros j st' HF Hno. destruct (decide (j = k)) as [->|Hj]; [naive_solver|]. rewrite (to_qs _ _ _ (fr_touches _ _ _ _ HF)) by done. naive_solver. }
  eapply wp_step; [apply (writeToClient_ok k false st2 c1); try done; try apply HL; [|apply Hw]|].
  { unfold c1. rewrite !has_clear_other by done. done. }
  cbn beta. intros [] st3; cbn [negb].
  - intros (c3 & HW). pose proof (wr_at _ _ _ _ _ HW) as (_ & Hon3 & Hk3). pose proof (conn_has _ _ CLIENT_PENDING_WRITE (wr_conn _ _ _ _ _ HW)) as Hp3. rewrite (le_flag _ _ _ _ _ HL) in Hp3.
    assert (fd c3 = fd c) as Ef by (pose proof (wr_conn _ _ _ _ _ HW) as Hc; unfold conn in Hc; by injection Hc). assert (base_ok st3 k c3) as Hb3 by (eapply wrote_base; [exact HW|]; rewrite (le_flag _ _ _ _ _ HL); done).
    assert (frame k (fd c) st st3) as F3 by (etransitivity; [apply HL|apply HW]). assert (stays None st st3 c c3) as S3 by (apply (stays_trans None None st st2 st3 c c1 c3); [apply HL|by eapply wrote_stays|apply HL]).
    assert (k ∉ qs st3 PendingWrite) as Hno3 by (rewrite (bo_qs _ _ _ Hb3); cbn; by rewrite Hp3). assert (steady good -> good (world st) -> good (world st3)) as Hg3 by (intros Hst Hgo; apply (wr_good _ _ _ _ _ HW Hst), (le_good _ _ _ _ _ HL Hst Hgo)).
    assert (forall g, g <> fd c -> received (world st3) g = received (world st) g) as Ho3 by (intros g Hg; rewrite (wr_others _ _ _ _ _ HW) by done; apply (le_received _ _ _ _ _ HL)).
    eapply wp_bind, wp_get; [exact Hk3|]. destruct (clientHasPendingReplies c3) eqn:Hpd.
    + rewrite <- Ef in Hn. eapply wp_mono; [by apply (watch_ok k c3 st3)|]. rewrite Ef in *. cbn beta. intros _ st4 (c4 & F4 & Hk4 & B4 & R4 & H4 & W4 & Q4 & S4). split; [|intros j; apply Hq; [by etransitivity|by rewrite Q4]].
      apply (to_one_quiet k), (event_stays k c None st st4 c4); try done; [by etransitivity|by intros _|intros _; rewrite H4; apply HW|by rewrite W4|by apply (stays_trans None None st st3 st4 c c3 c4)|by rewrite W4].
    + apply wp_ret. split; [|intros j; by apply Hq]. apply (to_one_quiet k), (event_stays k c None st st3 c3); try done; [by intros ?; congruence|intros _; apply HW].
  - intros HLo. apply wp_ret. assert (frame k (fd c) st st3) as F3 by (etransitivity; [apply HL|apply HLo]). split.
    + apply (to_one_quiet k), event_ends with c; try done; try apply HLo.
      * intros g Hg. rewrite (lo_others _ _ _ _ HLo) by done. apply (le_received _ _ _ _ _ HL).
      * constructor; cbn [default]; rewrite ?app_nil_r.
        -- intros c' Hk'. pose proof (lo_gone _ _ _ _ HLo) as Hg. unfold gone in Hg. rewrite Hk' in Hg. apply Hg.
        -- destruct (lo_stream _ _ _ _ HLo) as [y Hy]. exists y. rewrite (le_received _ _ _ _ _ HL) in Hy. exact Hy.
        -- intros _ Hca Hgo. right. rewrite <- (le_received _ _ _ _ _ HL). apply (lo_all _ _ _ _ HLo Hca), (le_good _ _ _ _ _ HL (proj1 Hca) Hgo).
      * intros Hst Hgo. apply (lo_good _ _ _ _ HLo Hst), (le_good _ _ _ _ _ HL Hst Hgo).
    + intros j. apply Hq; [done|]. intros Hi. pose proof (lo_gone _ _ _ _ HLo) as Hg. unfold gone in Hg. destruct (mem st3 !! k) as [c'|] eqn:Ek; [|by apply (Hg PendingWrite)]. destruct Hg as [[B _ _ _] E]. apply (bo_qs _ _ _ B) in Hi. apply (bo_fd _ _ _ B) in Hi. lia.
Qed.
Lemma handle_all_event l : forall st, wf st -> NoDup l -> (forall k, k ∈ l -> k ∈ qs st PendingWrite) ->
  wp (handle_all maxmemory l) (fun _ st' => event quiet st st' /\ forall j, j ∈ qs st' PendingWrite <-> j ∈ qs st PendingWrite /\ j ∉ l) st.
Proof.
  induction l as [|k l IH]; intros st Hw Hn Hl; cbn [handle_all].
  { apply wp_ret. split; [by apply event_refl|]. intros j. split; [intros ?; split; [done|by apply not_elem_of_nil]|tauto]. }
  apply list.NoDup_cons in Hn as [Hkl Hn]. assert (k ∈ qs st PendingWrite) as Hk by (apply Hl, list.elem_of_cons; by left). destruct (wf_qs _ Hw _ _ Hk) as [c Hc].
  pose proof (proj1 (bo_qs _ _ _ (co_base _ _ _ (wf_client _ Hw k c Hc)) PendingWrite) Hk) as Hp. eapply wp_step; [by apply (handle_pending_event k c)|]. cbn beta. intros _ st1 [E1 Q1].
  eapply wp_mono; [apply IH; [apply E1|done|]|].
  - intros j Hj. apply Q1. split; [apply Hl, list.elem_of_cons; by right|by intros ->].
  - cbn beta. intros _ st2 [E2 Q2]. split; [by eapply quiet_event_trans|]. intros j. rewrite Q2, Q1, list.not_elem_of_cons. tauto.
Qed.

(** Before the event loop sleeps, the list of pending writes is worked off. *)
Lemma before_sleep_event st : wf st -> wp (handleClientsWithPendingWrites maxmemory) (fun _ st' => event quiet st st' /\ qs st' PendingWrite = []) st.
Proof.
  intros Hw. unfold handleClientsWithPendingWrites. apply wp_bind, wp_gets. eapply wp_step; [apply handle_all_event; [done|apply Hw|done]|]. cbn beta. intros _ st' [E Q]. apply wp_ret. split; [done|].
  destruct (qs st' PendingWrite) as [|j l] eqn:El; [done|]. exfalso. destruct (proj1 (Q j)) as [? Hno]; [apply list.elem_of_cons; by left|done].
Qed.

Lemma flush_slaves_event l : forall st, wf st -> NoDup l -> (forall k, k ∈ l -> k ∈ qs st Slaves) -> wp (flush_slaves maxmemory l) (fun _ st' => event quiet st st') st.
Proof.
  induction l as [|k l IH]; intros st Hw Hn Hl; cbn [flush_slaves]; [by apply wp_ret, event_refl|].
  apply list.NoDup_cons in Hn as [Hkl Hn]. assert (k ∈ qs st Slaves) as Hk by (apply Hl, list.elem_of_cons; by left). destruct (wf_qs _ Hw _ _ Hk) as [c Hc]. eapply wp_bind, wp_get; [done|]. apply wp_bind, wp_gets.
  eapply wp_step with (P := fun _ st' => event quiet st st' /\ forall j, j <> k -> j ∈ qs st' Slaves <-> j ∈ qs st Slaves).
  - case_match eqn:Hb; [|apply wp_ret; split; [by apply event_refl|done]]. apply andb_true_iff in Hb as [[Hi%bool_decide_eq_true _]%andb_true_iff _].
    eapply wp_step; [by apply (write_event k false c)|]. cbn beta. intros _ st' (E & F & _). apply wp_ret. split; [done|]. apply (to_qs _ _ _ (fr_touches _ _ _ _ F)).
  - intros _ st1 [E1 Q1]. eapply wp_mono; [apply IH; [apply E1|done|]|].
    + intros j Hj. apply Q1; [by intros ->|]. apply Hl, list.elem_of_cons. by right.
    + cbn beta. intros _ st2 E2. by eapply quiet_event_trans.
Qed.
(** ** The queue of clients to close *)

Lemma close_one_event k c st : wf st -> mem st !! k = Some c -> k ∈ qs st ToClose ->
  wp (_ ← put k (clear_flag c CLIENT_CLOSE_ASAP); _ ← freeClient k; list_remove ToClose k) (fun _ st' => event quiet st st' /\ forall j, j ∈ qs st' ToClose <-> j ∈ qs st ToClose /\ j <> k) st.
Proof.
  intros Hw Hk Hq. pose proof (wf_client _ Hw k c Hk) as [Hb Hs Hh Hma]. pose proof (proj1 (bo_qs _ _ _ Hb ToClose) Hq) as HA. cbn in HA. pose proof (at_wf _ _ _ Hw Hk) as Ha. set (c1 := clear_flag c CLIENT_CLOSE_ASAP).
  apply wp_bind, (wp_put_at st k c c1 (in_queue c) (fd c)); [done|]. intros st1 O1 A1 W1 X1.
  assert (has c1 CLIENT_CLOSE_ASAP = false) as HA1 by (by apply has_clear). assert (forall q, q <> ToClose -> in_queue c q = in_queue c1 q) as Eq by (intros [] Hne; cbn; unfold c1; rewrite ?has_clear_other by done; done).
  assert (has c1 CLIENT_MASTER = true -> has c1 LUA_MODULE = false) as Hma1 by (unfold c1; rewrite !has_clear_other by done; done).
  eapply wp_step; [apply (freeClient_ok st1 k c1 (in_queue c) A1)|].
  - split; [done|]. by rewrite HA1.
  - apply (on_master _ _ _ _ O1), Hw.
  - cbn beta. intros _ st2 (O2 & Hae & Hcase). change (fd c1) with (fd c) in *.
    assert (exists P2, nodups st2 /\ on st2 k P2 /\ P2 ToClose = true /\ (forall st3, only k (fd c) st2 st3 -> nodups st3 -> mem st3 = mem st2 -> on st3 k (off P2 ToClose) -> gone st3 k)) as (P2 & N2 & On2 & HP2 & Hgone).
    { destruct Hcase as [(N2 & M2 & On2)|(c' & HC)].
      - exists (to_close_left (in_queue c) c1). split_and!; try done; [cbn; by rewrite HA, HA1|]. intros st3 _ _ M3 On3. unfold gone. rewrite M3, M2. intros q Hi%On3. by destruct q.
      - pose proof (ca_at _ _ _ _ _ _ HC) as (N2 & On2 & M2). exists (unlinked (in_queue c)). split_and!; try done. intros st3 _ N3 M3 On3. unfold gone. rewrite M3, M2. split; [|apply HC].
        eapply cached_ok; [exact HC|done|split_and!; [exact N3|exact On3|by rewrite M3]|]. intros q. unfold off. case_decide as Eq'; [|by eapply cached_queues; eauto]. subst. cbn. by rewrite (but_has _ _ _ _ (ca_but _ _ _ _ _ _ HC)). }
    eapply wp_mono; [by apply (list_remove_ok ToClose k (fd c) P2)|]. cbn beta. intros _ st3 (O3 & N3 & On3 & M3 & W3 & X3). assert (only k (fd c) st st3) as O by (etransitivity; [exact O1|by etransitivity]). pose proof (on_world _ _ _ _ O) as Hcl.
    pose proof (Hgone st3 O3 N3 M3 On3) as Hg. split.
    + apply (to_one_quiet k), event_ends with c; try done.
      * by apply frame_only.
      * destruct (decide (fd c = -1)) as [E|E]; [|rewrite W3; by apply Hae]. intros Hi%(on_sub _ _ _ _ O). by destruct (wf_ae _ Hw _ Hi).
      * intros g _. by apply closes_received.
      * constructor; cbn [default]; rewrite ?app_nil_r; [|exists (output c); by rewrite (closes_received _ _ _ Hcl)|by left]. intros c' Hk'. unfold gone in Hg. rewrite Hk' in Hg. apply Hg.
      * intros Hst Hgo. by eapply closes_good.
    + intros j. destruct (decide (j = k)) as [->|Hj]; [rewrite (On3 ToClose); naive_solver|]. rewrite (to_qs _ _ _ (on_touches _ _ _ _ O)) by done. naive_solver.
Qed.

Lemma length_shrinks (k : nat) l l' : NoDup l' -> k ∈ l -> (forall j, j ∈ l' <-> j ∈ l /\ j <> k) -> (length l' < length l)%nat.
Proof.
  intros Hn Hk Hj. assert (length (k :: l') <= length l)%nat as H; [|cbn in H; lia]. apply submseteq_length, NoDup_submseteq; [apply list.NoDup_cons; split; [rewrite Hj; naive_solver|done]|]. intros j. rewrite list.elem_of_cons, Hj. naive_solver.
Qed.

Lemma free_queue_event fuel : forall st, wf st -> (length (qs st ToClose) <= fuel)%nat -> wp (free_queue fuel) (fun _ st' => event quiet st st' /\ qs st' ToClose = []) st.
Proof.
  induction fuel as [|fuel IH]; intros st Hw Hf; cbn [free_queue]; apply wp_bind, wp_gets; destruct (qs st ToClose) as [|k l] eqn:El; try (apply wp_ret; split; [by apply event_refl|done]); [cbn in Hf; lia|].
  assert (k ∈ qs st ToClose) as Hk by (rewrite El; apply list.elem_of_cons; by left). destruct (wf_qs _ Hw _ _ Hk) as [c Hc]. eapply wp_bind, wp_get; [done|]. rewrite <- El in *.
  pose proof (close_one_event k c st Hw Hc Hk) as H1. apply wp_run in H1 as (st1 & [] & E & [E1 Q1]). unfold wp in *.
  assert (length (qs st1 ToClose) <= fuel)%nat as Hf1 by (pose proof (length_shrinks k (qs st ToClose) (qs st1 ToClose) (wf_nodups _ (ev_wf _ _ _ E1) ToClose) Hk Q1); lia).
  replace ((_ ← put k (clear_flag c CLIENT_CLOSE_ASAP); _ ← freeClient k; _ ← list_remove ToClose k; free_queue fuel) st) with (free_queue fuel st1).
  - specialize (IH st1 (ev_wf _ _ _ E1) Hf1). destruct (free_queue fuel st1) as [[st2 []]|]; [|done]. destruct IH as [E2 ?]. split; [by eapply quiet_event_trans|done].
  - unfold mbind, ST_bind in *. destruct (put k _ st) as [[s []]|]; [|done]. destruct (freeClient k s) as [[s' []]|]; [|done]. by rewrite E.
Qed.
End Server.
End ReplyApi.
