(* ===== verification/ReplySpec.v ===== *)
(** * Replies as values of the protocol

    A command builds its reply from statuses, errors, integers, bulk strings and nested
    arrays, whose lengths are given before or after the elements. [emit] makes the calls of
    [Reply] a command makes for it; [encode] is what the client is to receive and [decode]
    a reader of the protocol, for the round trip. *)
From stdpp Require Import gmap.
From S2P Require Import Prelude StateM Util Object Db DbOps Networking Reply ReplyOps.

Module ReplySpec.
Import Object Reply ReplyOps.
Import Db (crlf, one_line, reply_nullbulk).

(** [RDeferred]: the length is filled in after the elements. [RErrorFormat] has the
    formatted message. *)
Inductive rep :=
| RStatus (s : list Z) | RError (s : list Z) | RErrorFormat (s : list Z) | RInt (n : Z)
| RBulk (s : list Z) | RBulkSds (s : list Z) | RBulkObject (o : robj) (s : list Z) | RBulkLongLong (n : Z) | RNull
| RArray (l : list rep) | RDeferred (l : list rep).

Section RepInd.
Context (P : rep -> Prop) (HStatus : forall s, P (RStatus s)) (HError : forall s, P (RError s)) (HFormat : forall s, P (RErrorFormat s)) (HInt : forall n, P (RInt n))
  (HBulk : forall s, P (RBulk s)) (HSds : forall s, P (RBulkSds s)) (HObj : forall o s, P (RBulkObject o s)) (HLL : forall n, P (RBulkLongLong n)) (HNull : P RNull)
  (HArray : forall l, Forall P l -> P (RArray l)) (HDeferred : forall l, Forall P l -> P (RDeferred l)).
Fixpoint rep_rect' (r : rep) : P r :=
  let fix all (l : list rep) : Forall P l := match l with [] => list.Forall_nil_2 P | r :: l => list.Forall_cons_2 P r l (rep_rect' r) (all l) end in
  match r with
  | RStatus s => HStatus s | RError s => HError s | RErrorFormat s => HFormat s | RInt n => HInt n
  | RBulk s => HBulk s | RBulkSds s => HSds s | RBulkObject o s => HObj o s | RBulkLongLong n => HLL n | RNull => HNull
  | RArray l => HArray l (all l) | RDeferred l => HDeferred l (all l)
  end.
End RepInd.

Definition header (n : Z) : list Z := chr "*" :: dec n ++ crlf.

Fixpoint encode (r : rep) : list Z :=
  match r with
  | RStatus s => str "+" ++ s ++ crlf
  | RError s => str "-ERR " ++ s ++ crlf
  | RErrorFormat s => str "-ERR " ++ one_line s ++ crlf
  | RInt n => chr ":" :: dec n ++ crlf
  | RBulk s | RBulkSds s | RBulkObject _ s => bulk s
  | RBulkLongLong n => bulk (dec n)
  | RNull => reply_nullbulk
  | RArray l | RDeferred l => header (zlen l) ++ concat (map encode l)
  end.

(** A closing connection still gets the lengths that are filled in later. *)
Fixpoint headers (r : rep) : list Z :=
  match r with
  | RArray l => concat (map headers l)
  | RDeferred l => header (zlen l) ++ concat (map headers l)
  | _ => []
  end.

(** One line of text. *)
Definition line_text (s : list Z) : Prop := Forall (fun x => x <> 13 /\ x <> 10) s.

Inductive rep_ok : rep -> Prop :=
| ok_status s : line_text s -> rep_ok (RStatus s)
| ok_error s : line_text s -> rep_ok (RError s)
| ok_format s : rep_ok (RErrorFormat s)
| ok_int n : in_s 64 n -> rep_ok (RInt n)
| ok_bulk s : zlen s < 2 ^ 63 -> rep_ok (RBulk s)
| ok_bulk_sds s : zlen s < 2 ^ 63 -> rep_ok (RBulkSds s)
| ok_bulk_object o s : obj_text o s -> zlen s < 2 ^ 63 -> rep_ok (RBulkObject o s)
| ok_bulk_ll n : in_s 64 n -> rep_ok (RBulkLongLong n)
| ok_null : rep_ok RNull
| ok_array l : zlen l < 2 ^ 63 -> Forall rep_ok l -> rep_ok (RArray l)
| ok_deferred l : zlen l < 2 ^ 63 -> Forall rep_ok l -> rep_ok (RDeferred l).

(** ** The calls *)

Section Emit.
Context {W : Type} `{!Sockets W} (junk : Z -> Z) (limits : Z -> limit).
Abbreviation M := (ST (server W)).

Fixpoint emit (k : nat) (r : rep) : M unit :=
  let fix all (l : list rep) : M unit := match l with [] => mret tt | r :: l => _ ← emit k r; all l end in
  match r with
  | RStatus s => addReplyStatus limits k s
  | RError s => addReplyError limits k s
  | RErrorFormat s => addReplyErrorFormat limits k s
  | RInt n => addReplyLongLong junk limits k n
  | RBulk s => addReplyBulkCString junk limits k (Some s)
  | RBulkSds s => addReplyBulkSds junk limits k s
  | RBulkObject o _ => addReplyBulk junk limits k o
  | RBulkLongLong n => addReplyBulkLongLong junk limits k n
  | RNull => addReplyBulkCString junk limits k None
  | RArray l => _ ← addReplyMultiBulkLen junk limits k (zlen l); all l
  | RDeferred l => node ← addDeferredMultiBulkLength k; _ ← all l; setDeferredMultiBulkLength limits k node (zlen l)
  end.

Definition emit_all (k : nat) : list rep -> M unit :=
  fix all (l : list rep) : M unit := match l with [] => mret tt | r :: l => _ ← emit k r; all l end.

Lemma speaks_all k l : Forall (fun r => speaks (W := W) k (encode r) (headers r) (emit k r)) l -> speaks k (concat (map encode l)) (concat (map headers l)) (emit_all k l).
Proof. induction 1 as [|r l Hr _ IH]; [apply speaks_ret|]. cbn [map concat]. by apply (speaks_bind k (encode r) (headers r)). Qed.

Lemma emit_array k l : emit k (RArray l) = (_ ← addReplyMultiBulkLen junk limits k (zlen l); emit_all k l).
Proof. done. Qed.
Lemma emit_deferred k l : emit k (RDeferred l) = (node ← addDeferredMultiBulkLength k; _ ← emit_all k l; setDeferredMultiBulkLength limits k node (zlen l)).
Proof. done. Qed.

(** What a command's reply adds to the output of its client. *)
Lemma emit_speaks k r : rep_ok r -> speaks (W := W) k (encode r) (headers r) (emit k r).
Proof.
  induction r as [s|s|s|n|s|s|o s|n| |l IH|l IH] using rep_rect'; intros Hr; inversion Hr; subst.
  - apply speaks_status.
  - apply speaks_error.
  - apply speaks_error.
  - by apply speaks_int.
  - by apply speaks_cbuffer.
  - by apply speaks_bulk_sds.
  - by apply speaks_bulk.
  - by apply speaks_bulk_ll.
  - apply speaks_null.
  - rewrite emit_array. apply (speaks_bind k (header (zlen l)) []); [apply speaks_mbulk_len; pose proof (zlen_nonneg l); lia|]. apply speaks_all. rewrite list.Forall_forall in *. auto.
  - rewrite emit_deferred. apply (speaks_deferred limits k (concat (map encode l)) (concat (map headers l))). apply speaks_all. rewrite list.Forall_forall in *. auto.
Qed.

Lemma emit_all_speaks k l : Forall rep_ok l -> speaks (W := W) k (concat (map encode l)) (concat (map headers l)) (emit_all k l).
Proof. intros H. apply speaks_all. eapply list.Forall_impl; [exact H|]. apply emit_speaks. Qed.
End Emit.

(** ** A reader of the protocol *)

Inductive value := VStatus (s : list Z) | VError (s : list Z) | VInt (n : Z) | VBulk (s : list Z) | VNull | VArray (l : list value).

Fixpoint meaning (r : rep) : value :=
  match r with
  | RStatus s => VStatus s
  | RError s => VError (str "ERR " ++ s)
  | RErrorFormat s => VError (str "ERR " ++ one_line s)
  | RInt n => VInt n
  | RBulk s | RBulkSds s | RBulkObject _ s => VBulk s
  | RBulkLongLong n => VBulk (dec n)
  | RNull => VNull
  | RArray l | RDeferred l => VArray (map meaning l)
  end.

(** The text before the first CRLF, and what is behind it. *)
Fixpoint line (s : list Z) : option (list Z * list Z) :=
  match s with
  | [] => None
  | x :: s => if x =? 13 then match s with y :: s => if y =? 10 then Some ([], s) else None | [] => None end
              else '(l, r) ← line s; Some (x :: l, r)
  end.

Fixpoint elements (d : list Z -> option (value * list Z)) (n : nat) (s : list Z) : option (list value * list Z) :=
  match n with
  | O => Some ([], s)
  | S n => '(v, s) ← d s; '(l, s) ← elements d n s; Some (v :: l, s)
  end.

(** The fuel bounds the nesting. *)
Fixpoint decode (fuel : nat) (s : list Z) : option (value * list Z) :=
  match fuel, s with
  | S fuel, t :: s =>
    '(l, s) ← line s;
    if t =? chr "+" then Some (VStatus l, s) else
    if t =? chr "-" then Some (VError l, s) else
    if t =? chr ":" then n ← string2ll l; Some (VInt n, s) else
    if t =? chr "$" then
      n ← string2ll l;
      if n =? -1 then Some (VNull, s) else
      if (n <? 0) || (zlen s <? n + 2) || negb (bool_decide (ztake 2 (zdrop n s) = crlf)) then None
      else Some (VBulk (ztake n s), zdrop (n + 2) s)
    else if t =? chr "*" then
      n ← string2ll l;
      if n <? 0 then None else '(vs, s) ← elements (decode fuel) (Z.to_nat n) s; Some (VArray vs, s)
    else None
  | _, _ => None
  end.

Lemma line_ok l r : Forall (fun x => x <> 13) l -> line (l ++ crlf ++ r) = Some (l, r).
Proof. induction 1 as [|x l Hx _ IH]; [done|]. cbn [app line]. rewrite (proj2 (Z.eqb_neq _ _)) by done. change (line (l ++ 13 :: 10 :: r)) with (line (l ++ crlf ++ r)). by rewrite IH. Qed.

Lemma dec_line v : in_s 64 v -> Forall (fun x => x <> 13) (dec v).
Proof. intros Hv. eapply list.Forall_impl; [by apply dec_chars|]. cbn. lia. Qed.
Lemma text_line s : line_text s -> Forall (fun x => x <> 13) s.
Proof. intros H. eapply list.Forall_impl; [exact H|]. cbn. tauto. Qed.
Lemma one_line_text s : line_text (one_line s).
Proof. apply list.Forall_forall. intros x. unfold one_line. rewrite list_elem_of_In, in_map_iff. intros (y & <- & _). destruct (Z.eqb_spec y 13), (Z.eqb_spec y 10); cbn; lia. Qed.

Fixpoint depth (r : rep) : nat := match r with RArray l | RDeferred l => S (list_max (map depth l)) | _ => 1 end.

Lemma elements_ok (d : list Z -> option (value * list Z)) l rest : Forall (fun r => forall rest, d (encode r ++ rest) = Some (meaning r, rest)) l ->
  elements d (length l) (concat (map encode l) ++ rest) = Some (map meaning l, rest).
Proof. intros H. revert rest. induction H as [|r l Hr _ IH]; intros rest; [done|]. cbn [length map concat elements]. rewrite <- app_assoc, Hr. cbn [mbind option_bind]. by rewrite IH. Qed.

Lemma decode_array fuel l rest : zlen l < 2 ^ 63 -> Forall (fun r => forall rest, decode fuel (encode r ++ rest) = Some (meaning r, rest)) l ->
  decode (S fuel) ((header (zlen l) ++ concat (map encode l)) ++ rest) = Some (VArray (map meaning l), rest).
Proof.
  intros Hl H. pose proof (zlen_nonneg l). assert (in_s 64 (zlen l)) as Hs by (unfold in_s; lia). unfold header. rewrite <- app_assoc. cbn [app decode]. rewrite <- app_assoc, line_ok by (by apply dec_line). cbn [mbind option_bind].
  change (chr "*" =? chr "+") with false. change (chr "*" =? chr "-") with false. change (chr "*" =? chr ":") with false. change (chr "*" =? chr "$") with false. rewrite Z.eqb_refl. cbn iota. rewrite string2ll_dec by done. cbn [mbind option_bind].
  rewrite (proj2 (Z.ltb_ge _ _)) by lia. unfold zlen. rewrite Nat2Z.id, elements_ok by done. done.
Qed.

Lemma decode_bulk fuel s rest : zlen s < 2 ^ 63 -> decode (S fuel) (bulk s ++ rest) = Some (VBulk s, rest).
Proof.
  intros Hl. pose proof (zlen_nonneg s). assert (in_s 64 (zlen s)) as Hs by (unfold in_s; lia). unfold bulk. rewrite <- !app_assoc. cbn [app decode]. rewrite <- app_assoc, line_ok by (by apply dec_line). cbn [mbind option_bind].
  change (chr "$" =? chr "+") with false. change (chr "$" =? chr "-") with false. change (chr "$" =? chr ":") with false. rewrite Z.eqb_refl. cbn iota. rewrite string2ll_dec by done. cbn [mbind option_bind].
  rewrite (proj2 (Z.eqb_neq _ _)), (proj2 (Z.ltb_ge (zlen s) 0)) by lia. rewrite (proj2 (Z.ltb_ge _ _)) by (rewrite !zlen_app; change (zlen crlf) with 2; zlen_pos; lia).
  rewrite (zdrop_app (zlen s)) by done. rewrite (ztake_app 2 crlf) by done. rewrite bool_decide_eq_true_2 by done. cbn [orb negb]. rewrite ztake_app by done. rewrite (app_assoc s crlf), zdrop_app by (rewrite zlen_app; change (zlen crlf) with 2; lia). done.
Qed.

Lemma decode_status fuel l rest : Forall (fun x => x <> 13) l -> decode (S fuel) (chr "+" :: l ++ crlf ++ rest) = Some (VStatus l, rest).
Proof. intros Hl. cbn [decode]. by rewrite line_ok. Qed.
Lemma decode_error fuel l rest : Forall (fun x => x <> 13) l -> decode (S fuel) (chr "-" :: l ++ crlf ++ rest) = Some (VError l, rest).
Proof. intros Hl. cbn [decode]. by rewrite line_ok. Qed.

Lemma depth_le r l : r ∈ l -> (depth r <= list_max (map depth l))%nat.
Proof. intros Hr. pose proof (proj1 (list_max_le (map depth l) _) (Nat.le_refl _)) as H. rewrite List.Forall_forall in H. apply H, in_map, list_elem_of_In, Hr. Qed.

Lemma error_line s : line_text s -> Forall (fun x => x <> 13) (str "ERR " ++ s).
Proof. intros H. apply list.Forall_app. split; [by repeat constructor|by apply text_line]. Qed.

(** Reading back what was encoded. *)
Lemma decode_encode r : rep_ok r -> forall fuel rest, (depth r <= fuel)%nat -> decode fuel (encode r ++ rest) = Some (meaning r, rest).
Proof.
  induction r as [s|s|s|n|s|s|o s|n| |l IH|l IH] using rep_rect'; intros Hr fuel rest Hf; inversion Hr; subst; destruct fuel as [|fuel]; cbn [depth] in Hf; try lia; cbn [encode meaning].
  - rewrite <- !app_assoc. by apply (decode_status fuel s), text_line.
  - rewrite <- !app_assoc. by apply (decode_error fuel (str "ERR " ++ s)), error_line.
  - rewrite <- !app_assoc. apply (decode_error fuel (str "ERR " ++ one_line s)), error_line, one_line_text.
  - cbn [app decode]. rewrite <- app_assoc, line_ok by (by apply dec_line). cbn [mbind option_bind]. change (chr ":" =? chr "+") with false. change (chr ":" =? chr "-") with false. rewrite Z.eqb_refl. cbn iota. by rewrite string2ll_dec.
  - by apply decode_bulk.
  - by apply decode_bulk.
  - by apply decode_bulk.
  - apply decode_bulk. match goal with H : in_s 64 _ |- _ => pose proof (dec_len_le _ H) end. lia.
  - done.
  - apply decode_array; [done|]. rewrite list.Forall_forall in *. intros r Hi rest'. apply IH; auto. pose proof (depth_le r l Hi). lia.
  - apply decode_array; [done|]. rewrite list.Forall_forall in *. intros r Hi rest'. apply IH; auto. pose proof (depth_le r l Hi). lia.
Qed.
End ReplySpec.
