(* ===== verification/ReplyHistory.v ===== *)
(** * Histories of the reply buffers

    A history is a sequence of events of the server loop: commands that reply to clients,
    the writes before the loop sleeps, write handlers, the flush of the slaves, the queue of
    clients to close, and changes of the sockets on the other side. The theorems hold for
    every history from every state that satisfies the invariant ([ReplyApi.wf]). *)
From stdpp Require Import gmap.
From S2P Require Import Prelude StateM Util Object Db Networking Reply ReplyOps ReplyClose ReplyApi ReplySpec.

Module ReplyHistory.
Import Object Reply ReplyOps ReplyClose ReplyApi ReplySpec.
Import Networking (CLIENT_SLAVE, CLIENT_MASTER, CLIENT_CLOSE_AFTER_REPLY, CLIENT_CLOSE_ASAP).

Section History.
Context {W : Type} `{!Sockets W}.
Context (junk : Z -> Z) (limits : Z -> limit) (maxmemory : Z).
Implicit Types st : server W.

Inductive loop_event :=
| Replies (k : nat) (l : list rep) | BeforeSleep | Writable (k : nat) | FlushSlaves | CloseQueue | Network (f : W -> W).

(** Events for clients that are gone do not happen; a write handler runs if it is there. *)
Definition step (e : loop_event) : ST (server W) unit := fun st =>
  match e with
  | Replies k l =>
    match mem st !! k with Some c => if fd c =? -1 then Ok (st, tt) else emit_all junk limits k l st | None => Ok (st, tt) end
  | BeforeSleep => (_ ← handleClientsWithPendingWrites maxmemory; mret tt) st
  | Writable k =>
    match mem st !! k with Some c => if bool_decide (fd c ∈ ae_write st) then sendReplyToClient maxmemory k st else Ok (st, tt) | None => Ok (st, tt) end
  | FlushSlaves => flushSlavesOutputBuffers maxmemory st
  | CloseQueue => freeClientsInAsyncFreeQueue st
  | Network f => modify (fun st => set_world st (f (world st)) 0) st
  end.

Fixpoint run (es : list loop_event) : ST (server W) unit := match es with [] => mret tt | e :: es => _ ← step e; run es end.

(** What the event says to a client, if anything. *)
Definition told_by (k : nat) (c : client) (e : loop_event) : option (list Z) :=
  match e with
  | Replies j l => if decide (k = j) then Some (said c (concat (map encode l)) (concat (map headers l))) else None
  | _ => None
  end.
Definition told (k : nat) (c : client) (es : list loop_event) : list Z := concat (map (fun e => default [] (told_by k c e)) es).
End History.

Section Theorems.
Context {W : Type} `{!Sockets W} `{!SocketLaws W}.
Context (junk : Z -> Z) (limits : Z -> limit) (maxmemory : Z).
Implicit Types st : server W.

(** The other side does not change what was received; replies are well formed. *)
Definition event_ok (e : loop_event (W := W)) : Prop :=
  match e with Network f => forall w g, received (f w) g = received w g | Replies _ l => Forall rep_ok l | _ => True end.

Definition room (st : server W) (e : loop_event (W := W)) : Prop :=
  forall k c, mem st !! k = Some c -> fd c <> -1 -> reply_bytes c + zlen (default [] (told_by k c e)) < MAX_REPLY_BYTES.

Definition says st (e : loop_event (W := W)) (k : nat) : option (list Z) := c ← mem st !! k; told_by k c e.

Lemma wf_world st w n : wf st -> wf (set_world st w n).
Proof. intros [C Q N F A M]. constructor; try done. intros k c Hk. destruct (C k c Hk) as [[B1 B2 B3] S H Ma]. by constructor. Qed.

(** Every event keeps the invariant and has the effect on clients it should have. *)
Lemma step_event good e st : wf st -> event_ok e -> room st e -> (forall f, e = Network f -> steady good -> forall w, good w -> good (f w)) ->
  wp (step junk limits maxmemory e) (fun _ st' => event good (says st e) st st' /\
    match e with
    | BeforeSleep => qs st' PendingWrite = []
    | Writable k => forall c c', mem st !! k = Some c -> mem st' !! k = Some c' -> fd c' = fd c -> fd c ∈ ae_write st -> writable (world st) (fd c) ->
        clientHasPendingReplies c' = false \/ zlen (output c') < zlen (output c)
    | _ => True end) st.
Proof.
  intros Hw He Hr Hg. assert (forall e', (forall k c, mem st !! k = Some c -> fd c <> -1 -> told_by k c e' = None) -> forall st', event good quiet st st' -> event good (says st e') st st') as Hq.
  { intros e' Hn st' []. constructor; try done. intros k c Hk Hc. unfold says. rewrite Hk. cbn [mbind option_bind]. rewrite (Hn k c Hk Hc). by apply (ev_fate0 k c). }
  destruct e as [k l| |k| | |f]; unfold wp; cbn [step].
  - destruct (mem st !! k) as [c|] eqn:Hk.
    + destruct (Z.eqb_spec (fd c) (-1)) as [Hf|Hf].
      * split; [|done]. apply Hq; [|by apply event_refl]. intros j d Hj Hn. cbn. rewrite decide_False by congruence. done.
      * assert (accepts c = true -> reply_bytes c + zlen (said c (concat (map encode l)) (concat (map headers l))) < MAX_REPLY_BYTES) as Hm by (intros _; specialize (Hr k c Hk Hf); cbn in Hr; by rewrite decide_True in Hr).
        pose proof (reply_event good k c _ _ st _ Hw Hk (emit_all_speaks junk limits k l He) Hm) as H. unfold wp in H. destruct (emit_all junk limits k l st) as [[st' []]|]; [|done]. split; [|done].
        apply (event_ext good _ _ _ _ H). intros j. unfold to_one, says. case_decide as Ej; [subst; rewrite Hk; cbn; by rewrite decide_True|]. destruct (mem st !! j); cbn; [by rewrite decide_False|done].
    + split; [|done]. apply Hq; [|by apply event_refl]. intros j d Hj Hn. cbn. rewrite decide_False by congruence. done.
  - pose proof (before_sleep_event maxmemory good st Hw) as H. unfold wp, mbind, ST_bind in *. destruct (handleClientsWithPendingWrites maxmemory st) as [[st' n]|]; [|done]. destruct H. split; [|done]. by apply Hq.
  - destruct (mem st !! k) as [c|] eqn:Hk; [|split; [by apply Hq, event_refl|done]]. case_bool_decide as Hi; [|split; [by apply Hq, event_refl|]; intros d c' [= <-] _ _ Hi'; done].
    pose proof (write_event maxmemory good k true c st Hw Hk Hi) as H. unfold sendReplyToClient. unfold wp, mbind, ST_bind in *. destruct (writeToClient maxmemory k true st) as [[st' b]|]; [|done]. destruct H as (H1 & _ & H2). split; [by apply Hq|]. intros d c' [= <-] Hk' Ef _ Hwr. by apply H2.
  - pose proof (flush_slaves_event maxmemory good (qs st Slaves) st Hw (wf_nodups _ Hw Slaves) (fun _ H => H)) as H. unfold flushSlavesOutputBuffers. unfold wp, mbind, ST_bind, gets in *. destruct (flush_slaves maxmemory (qs st Slaves) st) as [[st' []]|]; [|done]. split; [by apply Hq|done].
  - pose proof (free_queue_event good (length (qs st ToClose)) st Hw (Nat.le_refl _)) as H. unfold freeClientsInAsyncFreeQueue. unfold wp, mbind, ST_bind, gets in *. destruct (free_queue _ st) as [[st' []]|]; [|done]. split; [|done]. apply Hq, H. done.
  - split; [|done]. apply Hq; [done|]. pose proof (event_refl good st Hw) as Hev. cbn in He. constructor; cbn.
    + by apply wf_world.
    + intros k c Hk Hn. left. exists c. split; [done|]. constructor; cbn; try done; [by rewrite He, app_nil_r|change (zlen (@nil Z)) with 0; lia..|by left].
    + apply Hev.
    + intros g _ _. apply He.
    + intros Hs Hgo. by apply (Hg f).
Qed.
(** ** Finite histories *)

Lemma told_by_same k c c' (e : loop_event (W := W)) : same_conn c c' -> told_by k c' e = told_by k c e.
Proof. intros H. destruct e; try done. cbn. by rewrite (said_same _ _ _ _ H). Qed.
Lemma told_same k c c' (es : list (loop_event (W := W))) : same_conn c c' -> told k c' es = told k c es.
Proof. intros H. unfold told. f_equal. apply map_ext. intros e. by rewrite (told_by_same _ _ _ _ H). Qed.
Lemma told_cons k c (e : loop_event (W := W)) es : told k c (e :: es) = default [] (told_by k c e) ++ told k c es.
Proof. done. Qed.

(** What a client has after a history: its output, or a prefix of it if it was closed. *)
Definition served st st' (k : nat) (c : client) (x : list Z) : Prop :=
  exists y, received (world st') (fd c) ++ y = received (world st) (fd c) ++ output c ++ x /\
    forall c', mem st' !! k = Some c' -> fd c' <> -1 -> fd c' = fd c /\ output c' = y.

Definition enough_room st (es : list (loop_event (W := W))) : Prop :=
  forall k c, mem st !! k = Some c -> fd c <> -1 -> reply_bytes c + zlen (told k c es) < MAX_REPLY_BYTES.

Lemma run_ok es : forall st, wf st -> Forall event_ok es -> enough_room st es ->
  exists st', run junk limits maxmemory es st = Ok (st', tt) /\ wf st' /\
    (forall f, f <> -1 -> (forall k c, mem st !! k = Some c -> fd c <> f) -> received (world st') f = received (world st) f) /\
    (forall k c', mem st' !! k = Some c' -> fd c' <> -1 -> exists c, mem st !! k = Some c /\ fd c' = fd c) /\
    forall k c, mem st !! k = Some c -> fd c <> -1 -> served st st' k c (told k c es).
Proof.
  induction es as [|e es IH]; intros st Hw Hes Hroom.
  { exists st. split_and!; try done; [eauto|]. intros k c Hk Hn. exists (output c). split; [by rewrite app_nil_r|]. intros c' Hk' _. rewrite Hk in Hk'. by injection Hk' as <-. }
  apply list.Forall_cons in Hes as [He Hes]. assert (room st e) as Hr by (intros k c Hk Hn; specialize (Hroom k c Hk Hn); rewrite told_cons, zlen_app in Hroom; zlen_pos; lia).
  pose proof (step_event (fun _ => False) e st Hw He Hr ltac:(done)) as H1. apply wp_run in H1 as (st1 & [] & E & [E1 _]).
  destruct (IH st1 (ev_wf _ _ _ _ E1) Hes) as (st' & E' & Hw' & Hun & Hmem & Hserved).
  { intros k c1 Hk1 Hn1. destruct (ev_mem _ _ _ _ E1 k c1 Hk1) as (c & Hk & [Ef|Ef]); [|done]. rewrite Ef in Hn1. specialize (Hroom k c Hk Hn1). rewrite told_cons, zlen_app in Hroom.
    destruct (ev_fate _ _ _ _ E1 k c Hk Hn1) as [(c2 & Hk2 & HS)|HE]; [|pose proof (en_closed _ _ _ _ _ _ HE c1 Hk1); congruence]. rewrite Hk1 in Hk2. injection Hk2 as <-.
    rewrite (told_same _ _ _ _ (sy_conn _ _ _ _ _ _ HS)). pose proof (sy_bytes _ _ _ _ _ _ HS) as Hb. unfold says in Hb. rewrite Hk in Hb. cbn [mbind option_bind] in Hb. lia. }
  exists st'. cbn [run]. split_and!; [unfold mbind, ST_bind; by rewrite E|done| | |].
  - intros f Hf Hno. rewrite Hun, (ev_unowned _ _ _ _ E1); try done. apply (unowned_after _ _ _ _ _ E1 Hf). intros k c Hk Ec. by destruct (Hno k c).
  - intros k c' Hk' Hn'. destruct (Hmem k c' Hk' Hn') as (c1 & Hk1 & Ef1). destruct (ev_mem _ _ _ _ E1 k c1 Hk1) as (c & Hk & [Ef|Ef]); [exists c; split; congruence|congruence].
  - intros k c Hk Hn. rewrite told_cons. destruct (ev_fate _ _ _ _ E1 k c Hk Hn) as [(c1 & Hk1 & HS)|HE].
    + pose proof (same_fd _ _ (sy_conn _ _ _ _ _ _ HS)) as Ef. destruct (Hserved k c1 Hk1 ltac:(congruence)) as (y & Hy & Hc'). rewrite Ef in *. exists y. split; [|done].
      rewrite Hy, (told_same _ _ _ _ (sy_conn _ _ _ _ _ _ HS)), app_assoc, (sy_stream _ _ _ _ _ _ HS). unfold says. rewrite Hk. cbn [mbind option_bind]. by rewrite !app_assoc.
    + destruct (en_stream _ _ _ _ _ _ HE) as [y Hy]. exists (y ++ told k c es). unfold says in Hy. rewrite Hk in Hy. cbn [mbind option_bind] in Hy. split.
      * rewrite Hun; [by rewrite app_assoc, Hy, !app_assoc|done|]. apply (unowned_after _ _ _ _ _ E1 Hn). intros j d Hj Ed d' Hd'. apply (en_closed _ _ _ _ _ _ HE d'). by rewrite <- (wf_fds _ Hw j k d c) by congruence.
      * intros c' Hk' Hn'. destruct (Hmem k c' Hk' Hn') as (c1 & Hk1 & Ef1). pose proof (en_closed _ _ _ _ _ _ HE c1 Hk1). congruence.
Qed.

(** C4: Whatever commands reply, however the sockets split the writes, and whichever clients are closed in between, every history runs without a failed assertion, a use of a freed client or an access outside a buffer and keeps the invariant. What a connection has received, followed by what its client still holds, is exactly what it had, followed by the replies in order; a closed client has received a prefix of that. *)
Theorem replies_arrive_in_order es st : wf st -> Forall event_ok es -> enough_room st es ->
  exists st', run junk limits maxmemory es st = Ok (st', tt) /\ wf st' /\ forall k c, mem st !! k = Some c -> fd c <> -1 -> served st st' k c (told k c es).
Proof. intros Hw Hes Hr. destruct (run_ok es st Hw Hes Hr) as (st' & E & Hw' & _ & _ & H). eauto. Qed.

(** C16: No output is left behind: when the event loop goes to sleep, the list of clients with pending writes is empty, and every [sendable] client that holds output has a write handler or waits in the queue of clients to close. Sendable is a client with a socket that is not a Lua or module client and that is not a slave still waiting for its BGSAVE or for its first acknowledgement ([replstate] not online, or [repl_put_online_on_ack]): such slaves gather output without a handler, which is installed when they go online. *)
Theorem output_is_scheduled es st : wf st -> Forall event_ok es -> enough_room st (es ++ [BeforeSleep]) ->
  exists st', run junk limits maxmemory (es ++ [BeforeSleep]) st = Ok (st', tt) /\ qs st' PendingWrite = [] /\
    forall k c, mem st' !! k = Some c -> clientHasPendingReplies c = true -> sendable c = true -> fd c ∈ ae_write st' \/ k ∈ qs st' ToClose.
Proof.
  intros Hw Hes Hr. assert (enough_room st es) as Hr1.
  { intros k c Hk Hn. specialize (Hr k c Hk Hn). unfold told in *. rewrite map_app, concat_app, zlen_app in Hr. zlen_pos. lia. }
  destruct (run_ok es st Hw Hes Hr1) as (st1 & E & Hw1 & _ & _ & _).
  assert (room st1 BeforeSleep) as Hr2 by (intros k c Hk Hn; cbn; change (zlen (@nil Z)) with 0; pose proof (proj2 (cw_bytes _ _ (bo_wf _ _ _ (co_base _ _ _ (wf_client _ Hw1 k c Hk)) (connected_talks c Hn)))); lia).
  pose proof (step_event (fun _ => False) BeforeSleep st1 Hw1 I Hr2 ltac:(done)) as H1. apply wp_run in H1 as (st' & [] & E' & [E1 Hq]).
  exists st'. split_and!; [|done|].
  - clear - E E'. revert st E. induction es as [|e es IH]; intros st E; cbn [run app] in *.
    + injection E as ->. unfold mbind, ST_bind. by rewrite E'.
    + unfold mbind, ST_bind in *. destruct (step junk limits maxmemory e st) as [[s []]|]; [|done]. by apply IH.
  - intros k c Hk Hp Hs. destruct (wf_client _ (ev_wf _ _ _ _ E1) k c Hk) as [Hb Hsc _ _]. destruct (Hsc Hp Hs) as [H|[H|H]]; [|by left|by right; apply (bo_qs _ _ _ Hb ToClose)].
    pose proof (proj2 (bo_qs _ _ _ Hb PendingWrite) H) as Hi. rewrite Hq in Hi. by apply elem_of_nil in Hi.
Qed.
(** ** What a reader of the protocol makes of it *)

(** The replies of the history to a client. *)
Definition replies_to (k : nat) (es : list (loop_event (W := W))) : list rep :=
  concat (map (fun e => match e with Replies j l => if decide (k = j) then l else [] | _ => [] end) es).

Lemma told_encode k c es : accepts c = true -> closing c = false -> told k c es = concat (map encode (replies_to k es)).
Proof.
  intros Ha Hc. induction es as [|e es IH]; [done|]. unfold replies_to. cbn [map concat]. rewrite told_cons, IH, map_app, concat_app. f_equal. destruct e as [j l| |j| | |f]; try done. cbn. case_decide; [|done]. cbn. unfold said. by rewrite Ha, Hc.
Qed.

Lemma replies_to_ok k es : Forall event_ok es -> Forall rep_ok (replies_to k es).
Proof. induction 1 as [|e es He _ IH]; [constructor|]. unfold replies_to. cbn [map concat]. apply list.Forall_app. split; [|exact IH]. destruct e; try constructor. case_decide; [exact He|constructor]. Qed.

(** C15: A client that reads what its connection receives, and at last what is still queued for it, as values of the protocol reads exactly the replies of its commands, in order: statuses, errors on one line, integers, bulk strings and nested arrays with lengths given before or after the elements. *)
Theorem reply_stream_decodes es st k c : wf st -> Forall event_ok es -> enough_room st es -> mem st !! k = Some c -> fd c <> -1 -> accepts c = true -> closing c = false ->
  received (world st) (fd c) = [] -> output c = [] ->
  exists st' y, run junk limits maxmemory es st = Ok (st', tt) /\ (forall c', mem st' !! k = Some c' -> fd c' <> -1 -> output c' = y) /\
    let rs := replies_to k es in elements (decode (list_max (map depth rs))) (length rs) (received (world st') (fd c) ++ y) = Some (map meaning rs, []).
Proof.
  intros Hw Hes Hr Hk Hn Ha Hc Hrec Hout. destruct (run_ok es st Hw Hes Hr) as (st' & E & _ & _ & _ & H). destruct (H k c Hk Hn) as (y & Hy & Hc'). exists st', y. split_and!; [done|naive_solver|]. cbn zeta.
  rewrite Hy, Hrec, Hout, told_encode by done. cbn [app]. rewrite <- (app_nil_r (concat _)). apply elements_ok. apply list.Forall_forall. intros r Hr' rest. apply decode_encode; [|by apply depth_le].
  exact (proj1 (list.Forall_forall _ _) (replies_to_ok k es Hes) r Hr').
Qed.

(** ** Infinite histories *)

(** A run of the event loop: the states between its events. *)
Record execution (good : W -> Prop) (ev : nat -> loop_event (W := W)) (sts : nat -> server W) : Prop := {
  ex_step : forall n, step junk limits maxmemory (ev n) (sts n) = Ok (sts (S n), tt);
  ex_ok : forall n, event_ok (ev n);
  ex_room : forall n, room (sts n) (ev n);
  ex_good : forall n f w, ev n = Network f -> good w -> good (f w) }.

Section Liveness.
Context (good : W -> Prop) (ev : nat -> loop_event (W := W)) (sts : nat -> server W) (Hex : execution good ev sts).
Context (k : nat) (c : client) (Hw : wf (sts 0%nat)) (Hk : mem (sts 0%nat) !! k = Some c) (Hn : fd c <> -1).
Context (Hcalm : calm good (fd c)) (Hgood : good (world (sts 0%nat))) (Hasap : has c CLIENT_CLOSE_ASAP = false) (Hsend : sendable c = true).
Context (Hsilent : forall n l, ev n <> Replies k l).

Definition all_sent (n : nat) : Prop := received (world (sts n)) (fd c) = received (world (sts 0%nat)) (fd c) ++ output c.

(** Up to [n] the client keeps its connection, with at most [b] bytes of output. *)
Definition waiting (n : nat) (b : Z) : Prop := exists d, mem (sts n) !! k = Some d /\ same_conn c d /\ has d CLIENT_CLOSE_ASAP = false /\
  received (world (sts n)) (fd c) ++ output d = received (world (sts 0%nat)) (fd c) ++ output c /\ zlen (output d) <= b.

Lemma exec_event n : wf (sts n) /\ good (world (sts n)) -> event good (says (sts n) (ev n)) (sts n) (sts (S n)) /\ wf (sts (S n)) /\ good (world (sts (S n))) /\
  match ev n with
  | BeforeSleep => qs (sts (S n)) PendingWrite = []
  | Writable j => forall a a', mem (sts n) !! j = Some a -> mem (sts (S n)) !! j = Some a' -> fd a' = fd a -> fd a ∈ ae_write (sts n) -> writable (world (sts n)) (fd a) ->
      clientHasPendingReplies a' = false \/ zlen (output a') < zlen (output a)
  | _ => True end.
Proof.
  intros [Hwn Hgn]. pose proof (step_event good (ev n) (sts n) Hwn (ex_ok _ _ _ Hex n) (ex_room _ _ _ Hex n) (fun f E _ w H => ex_good _ _ _ Hex n f w E H)) as H.
  unfold wp in H. rewrite (ex_step _ _ _ Hex n) in H. destruct H as [H1 H2]. split_and!; [done|apply H1|apply (ev_good _ _ _ _ H1 (proj1 Hcalm) Hgn)|done].
Qed.

Lemma exec_wf n : wf (sts n) /\ good (world (sts n)).
Proof. induction n as [|n IH]; [done|]. destruct (exec_event n IH) as (_ & H1 & H2 & _). done. Qed.

Lemma waiting_pending n b d : waiting n b -> mem (sts n) !! k = Some d -> clientHasPendingReplies d = false -> all_sent n.
Proof.
  intros (d' & Hd & Hc & _ & Hs & _) Hk' Hp. rewrite Hd in Hk'. injection Hk' as ->. pose proof (wf_client _ (proj1 (exec_wf n)) k d Hd) as [Hb _ _ _]. assert (talks d = true) as Ht by (apply connected_talks; by rewrite (same_fd _ _ Hc)).
  pose proof (cw_pos _ _ (bo_wf _ _ _ Hb Ht)) as Hpos. unfold all_sent. rewrite <- Hs. unfold output at 1. rewrite (out_drained _ d) by (done || lia). by rewrite app_nil_r.
Qed.

(** One event: the client goes on waiting, or has everything. *)
Lemma waiting_step n b : waiting n b -> all_sent (S n) \/ waiting (S n) b /\ (fd c ∈ ae_write (sts n) -> all_sent (S n) \/ fd c ∈ ae_write (sts (S n))).
Proof.
  intros (d & Hd & Hc & Ha & Hs & Hb). destruct (exec_event n (exec_wf n)) as (HE & _). pose proof (same_fd _ _ Hc) as Ef. assert (says (sts n) (ev n) k = None) as Hx.
  { unfold says. rewrite Hd. cbn. destruct (ev n) as [j l| |j| | |f] eqn:E; try done. cbn. case_decide as Ej; [subst; by destruct (Hsilent n l)|done]. }
  destruct (ev_fate _ _ _ _ HE k d Hd ltac:(congruence)) as [(d' & Hd' & HS)|HEn].
  - rewrite Hx in HS. destruct HS as [S1 S2 _ S4 S5 _ S7]. rewrite Ef in S2, S5, S7. cbn [default] in S2, S4. rewrite app_nil_r in S2. change (zlen (@nil Z)) with 0 in S4.
    assert (waiting (S n) b) as Hwait. { exists d'. split_and!; [done|by etransitivity|rewrite S7; [done|done|exact Hcalm|apply exec_wf]|by rewrite S2|lia]. }
    right. split; [done|]. intros Hi. destruct (S5 eq_refl Hi) as [?|Hp]; [by right|left]. by eapply waiting_pending.
  - left. rewrite Hx in HEn. destruct (en_why _ _ _ _ _ _ HEn eq_refl) as [Ha'|Ha']; [rewrite Ef; exact Hcalm|apply exec_wf|congruence|]. unfold all_sent. by rewrite Ef, Hs in Ha'.
Qed.

Lemma waiting_until n m b : (n <= m)%nat -> waiting n b -> (exists j, all_sent j) \/ waiting m b /\ (fd c ∈ ae_write (sts n) -> fd c ∈ ae_write (sts m)).
Proof.
  intros Hm Hwn. induction Hm as [|m Hm IH]; [by right|]. destruct IH as [?|[Hwm Hi]]; [by left|]. destruct (waiting_step m b Hwm) as [?|[Hw' Hi']]; [left; eauto|].
  destruct (decide (fd c ∈ ae_write (sts n))) as [Hin|Hno]; [|right; split; [done|by intros]]. destruct (Hi' (Hi Hin)) as [?|?]; [left; eauto|by right].
Qed.

Context (Hsleep : forall n, exists m, (n <= m)%nat /\ ev m = BeforeSleep).
Context (Hfair : forall n, exists m, (n <= m)%nat /\ ev m = Writable k /\ writable (world (sts m)) (fd c)).

(** Once there is a write handler, every run of it at a writable socket sends something. *)
Lemma handled_sent b : forall n, (0 <= b)%Z -> waiting n b -> fd c ∈ ae_write (sts n) -> exists j, all_sent j.
Proof.
  intros n Hb. revert n. induction b as [b IH] using (well_founded_induction (Z.lt_wf 0)). intros n Hwn Hi. destruct (Hfair n) as (m & Hm & Em & Hwr). destruct (waiting_until n m b Hm Hwn) as [?|[Hwm Him]]; [done|]. specialize (Him Hi).
  destruct (waiting_step m b Hwm) as [?|[Hws His]]; [eauto|]. destruct (His Him) as [?|Hi']; [eauto|]. destruct (exec_event m (exec_wf m)) as (HE & _ & _ & Hprog). rewrite Em in Hprog.
  pose proof Hwm as (d & Hd & Hc & _ & _ & Hbd). pose proof Hws as (d' & Hd' & Hc' & Ha' & Hs' & _). pose proof (same_fd _ _ Hc) as Ef. pose proof (same_fd _ _ Hc') as Ef'.
  destruct (Hprog d d' Hd Hd' ltac:(congruence)) as [Hp|Hlt]; [by rewrite Ef|by rewrite Ef|exists (S m); by eapply waiting_pending|]. pose proof (zlen_nonneg (output d')).
  apply (IH (zlen (output d'))) with (S m); [lia|lia| |done]. exists d'. split_and!; try done.
Qed.
End Liveness.

(** C5: Output is delivered in the end. In every infinite run of the event loop in which the loop goes to sleep again and again and the write handler of a client runs at a writable socket again and again, while its connection does not fail and nothing new is said to it, the connection at some point has received everything the client held. *)
Theorem output_is_delivered good ev sts k c : execution good ev sts -> wf (sts 0%nat) -> mem (sts 0%nat) !! k = Some c -> fd c <> -1 -> calm good (fd c) -> good (world (sts 0%nat)) ->
  has c CLIENT_CLOSE_ASAP = false -> sendable c = true -> (forall n l, ev n <> Replies k l) -> (forall n, exists m, (n <= m)%nat /\ ev m = BeforeSleep) ->
  (forall n, exists m, (n <= m)%nat /\ ev m = Writable k /\ writable (world (sts m)) (fd c)) ->
  exists n, received (world (sts n)) (fd c) = received (world (sts 0%nat)) (fd c) ++ output c.
Proof.
  intros Hex Hw Hk Hn Hcalm Hgood Hasap Hsend Hsil Hsleep Hfair. pose proof (zlen_nonneg (output c)).
  assert (waiting sts k c 0 (zlen (output c))) as H0 by (exists c; split_and!; try done; lia).
  destruct (Hsleep 0%nat) as (m & Hm & Em). destruct (waiting_until good ev sts Hex k c Hw Hk Hn Hcalm Hgood Hsil 0 m _ Hm H0) as [?|[Hwm _]]; [done|].
  destruct (waiting_step good ev sts Hex k c Hw Hk Hn Hcalm Hgood Hsil m _ Hwm) as [?|[Hws _]]; [by exists (S m)|].
  pose proof (exec_wf good ev sts Hex c Hw Hcalm Hgood m) as Hg. destruct (exec_event good ev sts Hex c Hcalm m Hg) as (HE & HwS & _ & Hq). rewrite Em in Hq. pose proof Hws as (d & Hd & Hc & Ha & _ & _).
  destruct (clientHasPendingReplies d) eqn:Hp; [|exists (S m); by eapply waiting_pending].
  apply (handled_sent good ev sts Hex k c Hw Hk Hn Hcalm Hgood Hsil Hfair (zlen (output c)) (S m)); [done|done|].
  destruct (wf_client _ HwS k d Hd) as [Hb Hsc _ _]. destruct (Hsc Hp) as [Hf|[Hf|Hf]]; [by rewrite (sendable_same _ _ Hc)| |by rewrite <- (same_fd _ _ Hc)|congruence].
  pose proof (proj2 (bo_qs _ _ _ Hb PendingWrite) Hf) as Hi. rewrite Hq in Hi. by apply elem_of_nil in Hi.
Qed.
End Theorems.

(** ** Sockets that follow a script, then take two bytes at a time *)

Record net := mk_net { script : list wres; got : gmap Z (list Z) }.
Definition take_bytes (w : net) (s : list wres) (f n : Z) (d : list Z) : net * wres :=
  let n := Z.max 0 (Z.min n (zlen d)) in (mk_net s (<[f := default [] (got w !! f) ++ ztake n d]> (got w)), Written n).
#[global] Instance net_sockets : Sockets net := {
  sys_write w f d := match script w with
    | Written n :: s => take_bytes w s f n d
    | r :: s => (mk_net s (got w), r)
    | [] => take_bytes w [] f 2 d
    end;
  sys_close w f := w; ae_create_ok w f := true; used_memory w := 0 }.

Lemma take_bytes_received w s f n d w' r : take_bytes w s f n d = (w', r) ->
  default [] (got w' !! f) = default [] (got w !! f) ++ match r with Written n => ztake n d | _ => [] end /\ (forall g, g <> f -> got w' !! g = got w !! g) /\ exists m, r = Written m /\ 0 <= m <= zlen d.
Proof. unfold take_bytes. pose proof (zlen_nonneg d). intros [= <- <-]. cbn. split_and!; [by rewrite lookup_insert_eq|intros g Hg; by rewrite lookup_insert_ne|]. eexists. split; [done|lia]. Qed.

#[global, refine] Instance net_laws : SocketLaws net := {| received w f := default [] (got w !! f) |}.
Proof.
  - intros w f d w' r. cbn. destruct (script w) as [|[n| |] s]; try (intros H; by apply take_bytes_received in H as [H _]); intros [= <- <-]; by rewrite app_nil_r.
  - intros w f d w' n. cbn. destruct (script w) as [|[m| |] s]; try done; intros H; apply take_bytes_received in H as (_ & _ & m' & [= ->] & ?); done.
  - intros w f d w' r g. cbn. destruct (script w) as [|[n| |] s]; try (intros H Hg; apply take_bytes_received in H as (_ & H & _); by rewrite H); by intros [= <- <-].
  - done.
Defined.

Definition no_limits : Z -> limit := fun _ => mk_limit 0 0 0.
Definition zeros : Z -> Z := fun _ => 0.
Definition empty_buf : list Z := zrep PROTO_REPLY_CHUNK_BYTES 0.
Definition some_client (f fl : Z) : client := mk_client f fl REPL_STATE_NONE false (-1) false 777 0 0 0 empty_buf [] 0 0.
(** One client, on descriptor 5. *)
Definition start (fl : Z) (m : option nat) (w : net) : server net :=
  mk_server {[ 1%nat := some_client 5 fl ]} (fun q => match q with Clients => [1%nat] | _ => [] end) ∅ ∅ m None None false 0 0 0 100 0 w [].

Lemma start_client k c fl m w : mem (start fl m w) !! k = Some c -> k = 1%nat /\ c = some_client 5 fl.
Proof. cbn. by intros [<- <-]%lookup_singleton_Some. Qed.

Lemma wf_start w : wf (start 0 None w).
Proof.
  constructor.
  - intros k c [-> ->]%start_client. constructor; [constructor| | |done].
    + intros _. constructor; [apply zlen_zrep|done|done|done|split; constructor].
    + intros []; cbn; rewrite ?list.list_elem_of_singleton, ?elem_of_nil; done.
    + done.
    + done.
    + done.
  - intros [] k; cbn; rewrite ?list.list_elem_of_singleton, ?elem_of_nil; try done. intros ->. by eexists.
  - intros []; cbn; first [apply list.NoDup_singleton | constructor].
  - by intros j k c d [-> ->]%start_client [-> ->]%start_client.
  - intros f. cbn. set_solver.
  - done.
Qed.

(** ** Examples *)

Definition sample : rep := RDeferred [RInt 7; RBulk (str "ab"); RArray [RNull; RErrorFormat (str "no")]].
Lemma sample_ok : rep_ok sample.
Proof. repeat constructor; try done. Qed.
(** A reply, and writes that the socket takes in parts. *)
Definition sample_net : net := mk_net [Written 3; Again] ∅.
Definition sample_events : list (loop_event (W := net)) := [Replies 1 [sample; RStatus (str "OK")]; BeforeSleep; Writable 1; Replies 1 [RInt 1]; CloseQueue].
Lemma sample_events_ok : Forall event_ok sample_events.
Proof. repeat (constructor; try done). all: try apply sample_ok; repeat constructor; done. Qed.
Lemma sample_room m es : (forall l, In (Replies 1 l) es -> False) \/ es = sample_events \/ es = sample_events ++ [BeforeSleep] -> enough_room (start 0 None m) es.
Proof.
  intros H k c [-> ->]%start_client _. destruct H as [H|[->| ->]]; [|vm_compute; reflexivity..]. unfold told. replace (concat _) with (@nil Z); [done|]. symmetry. induction es as [|e es IH]; [done|]. cbn. rewrite IH by (intros l Hl; by apply (H l); right). rewrite app_nil_r. destruct e as [j l| |j| | |f]; try done. cbn. case_decide as Ej; [|done]. subst. exfalso. apply (H l). by left.
Qed.

Lemma replies_arrive_in_order_witness :
  exists st', run zeros no_limits 0 sample_events (start 0 None sample_net) = Ok (st', tt) /\ wf st' /\
    forall k c, mem (start 0 None sample_net) !! k = Some c -> fd c <> -1 -> served (start 0 None sample_net) st' k c (told k c sample_events).
Proof. apply replies_arrive_in_order; [apply wf_start|apply sample_events_ok|apply sample_room; auto]. Defined.

Lemma output_is_scheduled_witness :
  exists st', run zeros no_limits 0 (sample_events ++ [BeforeSleep]) (start 0 None sample_net) = Ok (st', tt) /\ qs st' PendingWrite = [] /\
    forall k c, mem st' !! k = Some c -> clientHasPendingReplies c = true -> sendable c = true -> fd c ∈ ae_write st' \/ k ∈ qs st' ToClose.
Proof. apply output_is_scheduled; [apply wf_start|apply sample_events_ok|apply sample_room; auto]. Defined.

Lemma reply_stream_decodes_witness :
  exists st' y, run zeros no_limits 0 sample_events (start 0 None sample_net) = Ok (st', tt) /\ (forall c', mem st' !! 1%nat = Some c' -> fd c' <> -1 -> output c' = y) /\
    elements (decode 3) 3 (received (world st') 5 ++ y) =
      Some ([VArray [VInt 7; VBulk (str "ab"); VArray [VNull; VError (str "ERR no")]]; VStatus (str "OK"); VInt 1], []).
Proof. apply (reply_stream_decodes zeros no_limits 0 sample_events (start 0 None sample_net) 1 (some_client 5 0)); [apply wf_start|apply sample_events_ok|apply sample_room; auto|done..]. Defined.

(** The run of a loop in which nothing is said. *)
Fixpoint states (ev : nat -> loop_event (W := net)) (st : server net) (n : nat) : server net :=
  match n with O => st | S n => match step zeros no_limits 0 (ev n) (states ev st n) with Ok (st', _) => st' | Fault _ => states ev st n end end.

Definition open_script (w : net) : Prop := script w = [].
Definition in_turn (n : nat) : loop_event (W := net) := if Nat.even n then BeforeSleep else Writable 1.

Lemma open_calm f : calm open_script f.
Proof.
  unfold open_script. split_and!; [split; [done|]|..].
  - intros g w d w' r Hs. cbn. rewrite Hs. unfold take_bytes. by intros [= <- <-].
  - intros w d w' r Hs. cbn. rewrite Hs. unfold take_bytes. by intros [= <- <-].
  - done.
Qed.

Lemma open_writable w f : open_script w -> writable w f.
Proof. intros Hs d Hd. cbn. rewrite Hs. unfold take_bytes. do 2 eexists. split; [done|]. destruct d; [done|]. rewrite zlen_cons. zlen_pos. lia. Qed.

Lemma in_turn_step st n : wf st -> step zeros no_limits 0 (in_turn n) st = Ok (states (fun _ => in_turn n) st 1, tt) /\ wf (states (fun _ => in_turn n) st 1) /\ room st (in_turn n).
Proof.
  intros Hw. assert (room st (in_turn n)) as Hr.
  { intros k c Hk Hn. pose proof (proj2 (cw_bytes _ _ (bo_wf _ _ _ (co_base _ _ _ (wf_client _ Hw k c Hk)) (connected_talks c Hn)))). unfold in_turn. destruct (Nat.even n); cbn; change (zlen (@nil Z)) with 0; lia. }
  pose proof (step_event zeros no_limits 0 (fun _ => False) (in_turn n) st Hw ltac:(unfold in_turn; by destruct (Nat.even n)) Hr ltac:(unfold in_turn; by destruct (Nat.even n))) as H.
  apply wp_run in H as (st' & [] & E & [E1 _]). cbn [states]. rewrite E. split_and!; [done|apply E1|done].
Qed.

Lemma in_turn_execution st : wf st -> execution zeros no_limits 0 open_script in_turn (states in_turn st).
Proof.
  intros Hw. assert (forall n, wf (states in_turn st n)) as Hws.
  { induction n as [|n IH]; [done|]. exact (proj1 (proj2 (in_turn_step (states in_turn st n) n IH))). }
  constructor.
  - intros n. exact (proj1 (in_turn_step (states in_turn st n) n (Hws n))).
  - intros n. unfold in_turn. by destruct (Nat.even n).
  - intros n. apply (in_turn_step (states in_turn st n) n (Hws n)).
  - intros n f w. unfold in_turn. by destruct (Nat.even n).
Qed.

(** A client that was told OK and has been sent nothing yet. *)
Definition told_ok : server net :=
  match run zeros no_limits 0 [Replies 1 [RStatus (str "OK")]] (start 0 None (mk_net [] ∅)) with Ok (st, _) => st | Fault _ => start 0 None (mk_net [] ∅) end.

Lemma wf_told_ok : wf told_ok.
Proof.
  destruct (run_ok zeros no_limits 0 [Replies 1 [RStatus (str "OK")]] (start 0 None (mk_net [] ∅))) as (st' & E & Hw & _).
  - apply wf_start.
  - repeat (constructor; try done).
  - intros k c [-> ->]%start_client _. vm_compute. reflexivity.
  - unfold told_ok. by rewrite E.
Qed.

Definition told_client : client := default (some_client 5 0) (mem told_ok !! 1%nat).

Lemma in_turn_even m : in_turn (2 * m) = BeforeSleep /\ in_turn (2 * m + 1) = Writable 1.
Proof. unfold in_turn. rewrite Nat.even_add, Nat.even_mul. done. Qed.

Lemma output_is_delivered_witness :
  output told_client = str "+OK" ++ Db.crlf /\ exists n, received (world (states in_turn told_ok n)) 5 = [] ++ output told_client.
Proof.
  split; [vm_compute; reflexivity|]. pose proof (in_turn_execution told_ok wf_told_ok) as Hex. assert (forall n, open_script (world (states in_turn told_ok n))) as Hopen.
  { intros n. apply (exec_wf zeros no_limits 0 open_script in_turn _ Hex told_client wf_told_ok (open_calm _)). vm_compute. reflexivity. }
  apply (output_is_delivered zeros no_limits 0 open_script in_turn (states in_turn told_ok) 1 told_client Hex wf_told_ok).
  - vm_compute. reflexivity.
  - vm_compute. discriminate.
  - apply open_calm.
  - vm_compute. reflexivity.
  - vm_compute. reflexivity.
  - vm_compute. reflexivity.
  - intros n l. unfold in_turn. destruct (Nat.even n); discriminate.
  - intros n. exists (2 * n)%nat. split; [lia|apply in_turn_even].
  - intros n. exists (2 * n + 1)%nat. split_and!; [lia|apply in_turn_even|apply open_writable, Hopen].
Defined.

(** ** The output of a cached master *)

Definition ack_and_send : ST (server net) unit := _ ← replicationSendAck zeros no_limits; _ ← handleClientsWithPendingWrites 0; mret tt.
(** [n] acknowledgements to the master, a reconnection on descriptor 7, and one more. *)
Fixpoint acks (n : nat) : ST (server net) unit := match n with O => mret tt | S n => _ ← replicationSendAck zeros no_limits; acks n end.
Definition reconnect (n : nat) : ST (server net) unit :=
  _ ← acks n; _ ← handleClientsWithPendingWrites 0; _ ← replicationResurrectCachedMaster 7; ack_and_send.
Definition ack_text : list Z := str "*3" ++ Db.crlf ++ str "$8" ++ Db.crlf ++ str "REPLCONF" ++ Db.crlf ++ str "$3" ++ Db.crlf ++ str "ACK" ++ Db.crlf ++ str "$3" ++ Db.crlf ++ str "777" ++ Db.crlf.

(** C40: Caching a disconnected master drops its pending output but keeps the count of bytes already sent of it. When ten bytes of an acknowledgement had been sent, the first one after the reconnection arrives without its first ten bytes; when more had been sent than the new one is long, the write starts past its end, which the model reports as an access outside the buffer. A reconnection after a write that sent nothing is correct. *)
Theorem cached_master_output_corrupted :
  (exists st, reconnect 1 (start CLIENT_MASTER (Some 1%nat) (mk_net [Written 10; WriteError] ∅)) = Ok (st, tt) /\ received (world st) 7 = zdrop 10 ack_text) /\
  reconnect 2 (start CLIENT_MASTER (Some 1%nat) (mk_net [Written 60; WriteError] ∅)) = Fault OutOfBounds /\
  exists st, reconnect 1 (start CLIENT_MASTER (Some 1%nat) (mk_net [WriteError] ∅)) = Ok (st, tt) /\ received (world st) 7 = ack_text.
Proof. split_and!; [eexists; split; vm_compute; reflexivity|vm_compute; reflexivity|eexists; split; vm_compute; reflexivity]. Qed.
End ReplyHistory.
